(* ===== verification/_CoqProject ===== *)
-Q . S2P
Prelude.v
Text.v
Hex.v
Base64.v
ToKey.v
Fracpack.v
FracpackSafe.v
FracpackLayout.v
FracpackRead.v
FracpackCanon.v
FracpackTheorems.v
FracpackModes.v
FracpackEvolve.v
Names.v
Services.v
AuthAny.v
Accounts.v
AuthServices.v
Transact.v
Replay.v
TransactTheorems.v
Producers.v
SetCode.v
System.v
HttpServer.v
RTransact.v
RTransactInv.v
RTransactSteps.v
RTransactBlocks.v
RTransactTheorems.v
RTransactRequeue.v
Merkle.v
KvMerkle.v
Semver.v
BucketSet.v
Database.v
NativeKv.v
TableKeys.v
Table.v
TableMap.v
TableScan.v
TableTheorems.v
TableNative.v
DbService.v
Decimals.v
Times.v
TimesTheorems.v
Ordered.v
Routing.v
RoutingSelect.v
RoutingLoops.v
RoutingPeers.v
Key6.v
NodeBits.v
Trie.v
TrieLaws.v
TrieOrder.v
TrieRange.v
TrieMap.v
TrieStore.v
TrieOwn.v
TrieSteps.v
TrieAdd.v
TrieRemove.v
TrieHandles.v
TrieSessions.v
AuthState.v
HeaderState.v
BlockContext.v
LightHeader.v
KeyRanges.v
Snapshot.v
StateSignatures.v
ForkDb.v
Blocknet.v
Cft.v
CftElection.v
BftConfirm.v
BftViews.v
