(* ===== verification/Prelude.v ===== *)
(** * A verification of psibase

    psibase runs blockchains whose whole logic, system logic included, is made
    of services: programs that keep tables and expose actions.  A transaction
    names actions and carries claims (keys that signed it); the native node
    passes it to the service [transact], which checks it, asks the auth service
    of each sender, and calls the actions.  This development models the C++
    system services, which decide what a chain accepts, and the native code below
    them: the database, blocks and forks, consensus, and the encodings of keys,
    names and packed data.  It proves what makes them correct.
    Paths below are relative to the repository.

    ** The program and the files

    Shared:
    - [Prelude]: results that may abort ([psibase::check]), machine words,
      bytes, lexicographic order, tactics and hints.
    - [Services]: structs of [libraries/psibase/common/include/psibase/block.hpp]
      and [nativeTables.hpp], one record with the tables and static variables of
      the modelled services ([world]), the monad of actions ([act]), and the
      interface that auth services implement ([AuthInterface], reached through
      the class [AuthDispatch]; in C++ [to<AuthInterface>(account)]).

    System services ([packages/system]), one Module each:
    - [AuthAny] and [AuthServices] ([AuthSig], [AuthDelegate]): who may act for
      an account; the delegate asks the auth service of the owner.
    - [Accounts]: the account table, [newAccount], [setAuthServ], [incAuthSeq].
    - [Transact]: [processTransaction], [startBlock], [finishBoot], [checkTapos],
      [runAs], [kvNotify], [skipBilling], [execTrx] and the rest of the service.
      The virtual server, the event indexer, the clock and the services that
      actions name are classes ([VirtualServer], [EventIndexer],
      [Environment]), because their code is outside of this model or arbitrary.
    - [Producers]: producers, candidates, thresholds, and the auth service of
      [prods-weak] and [prods-strong].
    - [SetCode]: code by hash, staged code, flags, the verify sequence.
    - [System]: the auth services of a chain composed; [to<AuthInterface>]
      becomes a function with fuel, which stands for the native call depth.

    The native side of the database ([libraries/psibase/native]):
    - [BucketSet]: handles, [BucketSet.cpp].
    - [Database]: the key-value operations of [useTriedent.cpp] over an ordered
      map of byte strings; triedent is the class [Storage] with its laws, and
      finite maps are an instance.  [TrieMap] has the instance of triedent itself.
    - [NativeKv]: the database functions of [NativeFunctions.cpp] that services
      call: opening, restricting and passing handles, reads, writes with their
      resource accounting.  The nested call of [kvNotify] and the validation of
      packed native rows are parameters.
    - [DbService]: which databases and prefixes a service may open: the services
      [Db] and [XDb], and the prefixes of tables.

    Tables ([Table.hpp] of [libraries/psibase/common]), which services keep their
    data in:
    - [Table]: iterators, indexes, [put] with unique secondary keys, [remove] and
      [erase], over an interface of the database calls ([RawKv], [RawKvLaws]).
      [TableKeys] has the lemmas on keys, [TableMap] what the operations do in
      terms of a map of rows, [TableScan] the iterators, [TableTheorems] the
      properties.
    - [TableScan] also has tables over a storage; [TableNative] has the functions of
      [NativeKv] as an instance of the interface, and a [kvNotify] that may refuse.

    triedent ([libraries/triedent]), the store of the databases:
    - [Key6]: keys as strings of six-bit characters, the bounds of a prefix.
    - [NodeBits]: the bit set of the branches of an inner node ([node.hpp]).
    - [Trie]: the compressed trie as an inductive type, and the recursive
      operations of [database.hpp] on it: lookups, neighbours, emptiness of a
      range, insertion and removal.  [TrieLaws] (well-formedness and contents),
      [TrieOrder] (neighbours) and [TrieRange] (ranges) have its lemmas, [TrieMap]
      the operations of a root on byte keys.
    - [TrieStore]: the same updates on the store of nodes: the table of objects
      with its free list and reference counts, copies on write, changes in place
      when a node is not shared, release of trees, roots as values, and the
      pointers of sessions.  [TrieOwn] has the invariant of the counts and the
      rules of the operations, [TrieSteps], [TrieAdd] and [TrieRemove] the
      updates, [TrieHandles] the handles and [TrieSessions] programs that hold
      several roots.

    Blocks and forks ([libraries/psibase/native]):
    - [Ordered]: the ordered containers of these files ([std::map], [flat_map],
      sorted vectors) as sorted lists.
    - [AuthState]: the services that verify signatures, kept in block headers:
      [headerValidation.hpp], [BlockAuthState] ([ForkDb.hpp]),
      [updateAuthServices] ([BlockContext.cpp]) and the native checks of code
      rows ([NativeFunctions.cpp]).
    - [HeaderState]: [ProducerSet] and [BlockHeaderState] of [ForkDb.hpp], what a
      node knows of a block from headers alone.
    - [BlockContext]: [start] and [writeRevision] of [BlockContext.cpp]; the
      transactions between them are arbitrary, within what services may write.
    - [LightHeader]: [LightHeaderState], the validation of headers that arrive
      without their transactions, before a snapshot is loaded.
    - [KeyRanges], [Snapshot], [StateSignatures]: the parts of a snapshot, its
      sender, loader and checksum, and the signatures of producers on it.
    - [ForkDb]: [class ForkDb]: inserting blocks, viable subtrees, the switch to
      the best fork, commits and garbage collection.  Executing a block and the
      callback of the consensus algorithm are parameters.

    Consensus ([libraries/net]):
    - [Blocknet]: what the algorithms of [blocknet.hpp] share: producers, terms,
      roles, keys, starting and stopping production, switching forks.
    - [Cft] and [CftElection]: [basic_cft_consensus] of [cft.hpp], every handler as
      a function of a monad that changes the state of a node and sends messages;
      and a network of such nodes as a step relation.
    - [BftConfirm] and [BftViews]: [bft.hpp]: prepares and commits, the proof that a
      block is irreversible and its verification; views, the choice of terms, and
      what may be prepared and committed.
    - [Routing]: [shortest_path_routing.hpp], the routes between producers; a handler
      returns the new state and its messages.  [RoutingSelect] (what is selected),
      [RoutingLoops] (a network of nodes) and [RoutingPeers] (connections).

    Pending transactions of a node ([packages/system/Transact], [HttpServer],
    [packages/local]):
    - [HttpServer]: the owners of the sockets on which replies are awaited.
    - [RTransact]: the service that verifies, queues and executes transactions before
      they are in a block, with the tables of [XRun] and [XTransact]; each subjective
      transaction is a definition, so that contexts interleave.  [RTransactInv] (the
      tables agree), [RTransactSteps] and [RTransactBlocks] (what each does),
      [RTransactTheorems] and [RTransactRequeue] (the theorems).

    Utilities:
    - [Names]: [NameEncoder.hpp], [name.hpp], [AccountNumber.hpp].
    - [ToKey]: [psio/to_key.hpp], the byte keys of tables.
    - [Base64], [Hex]: [base64.cpp], [psio/to_hex.hpp].
    - [Text], [Decimals]: numbers in decimal, and the amounts of tokens
      ([tokenTypes.hpp]).
    - [Times], [TimesTheorems]: time points and their text ([psio/src/chrono.cpp]).
    - [Fracpack]: [psio/fracpack.hpp], the packed form of blocks, transactions,
      actions and rows: [is_packable<T>] is a record of operations, and every
      specialization a function that makes one.  [FracpackSafe] (bounds),
      [FracpackLayout] (the format as a function, and [pack]), [FracpackRead] and
      [FracpackCanon] (reading), [FracpackModes] (validation, reading without
      verification), [FracpackTheorems], and [FracpackEvolve] (classes that get
      new members).  Each is a law of every specialization, and an induction on
      types.
    - [Merkle], [KvMerkle]: [crypto.cpp] (merkle tree of a block) and
      [KvMerkle.cpp] (merkle root of a database); the hash is a parameter.
    - [Semver]: [semver.cpp], version requirements of packages: comparison, the
      operator-stack parser, and the graph of tests it compiles to.

    A service action is a function [act A = world -> result (A * world)]: it
    reads and writes the tables, and an abort discards the new state.  Tables
    are finite maps by primary key; integers are [Z] with wrap-around written
    where the C++ type has it.

    ** What is proved

    - Replay ([Replay]): along every run of a chain (blocks, transactions,
      failed transactions) no transaction executes twice, although [transact]
      forgets the ids of expired transactions.
    - Reference blocks and billing ([TransactTheorems]): what an accepted
      reference block is; the budget of writes charged to the system account;
      [skipBilling] brackets; [runAs] grants exactly the listed powers and takes
      them back.
    - Authorization ([AuthServices], [System], [Accounts], [Producers]): exact
      conditions under which each auth service accepts, delegation along a chain
      of owners, who can change an account, an owner or a key; quorums of
      producers intersect in an honest one; the sort and binary search over
      claims count what they should; votes decide.
    - Code ([SetCode]): installed and staged code is stored; the verify sequence
      advances exactly when verification changes.
    - Databases ([BucketSet], [NativeKv]): handles are a finite map; a service
      holds no more than [kvOpen] granted or others passed, within what the mode
      of the running code permits; what each read returns and each write changes
      and charges.
    - Tables ([TableTheorems], [TableNative], [DbService]): any sequence of writes
      refines a map of rows, and aborts exactly when a secondary key would be used
      twice; lookups and iteration over every index, range and sub-index see
      exactly the rows of the map, in the order of the keys; tables with prefixes
      of which neither starts with the other do not affect each other, also when
      [kvNotify] refuses a write; a service gets no handle on the rows of another
      one.
    - Storage ([TrieMap], [TrieHandles], [TrieSessions]): the trie implements the
      storage interface; on the store, an update makes the tree that it makes on
      the pure trie, and every other tree that a handle has stays what it was, so
      that programs with several roots see independent finite maps; every
      reference count is the number of references.  This is for inserted keys of at
      most 191 bytes, whose nodes fit into the [uint8_t] sizes of the source, and, on
      the store, for counts that stay away from their limit ([roomy]).
    - Forks ([ForkDb]): when the viable blocks are connected to executed ones
      ([connected]) and the callback of the consensus leaves the tree alone
      ([callback_ok]), switching forks terminates with the best viable block as
      the head and an intact chain below it, and never changes what is
      irreversible; the invariant that this needs is kept by [insert] and
      [commit]; [set_subtree] keeps exactly the descendants of its root.  Failed
      assertions are aborts, except the one in [blacklist_subtree], after which a
      release build goes on: it is left out, and termination does not need it.
    - Schedules and services ([BlockContext], [LightHeader]): the producers and
      the verification services that a node derives from headers are those of
      the database that the blocks write; replaying a block starts as producing
      it did; light validation accepts only the consensus that a header commits
      to.
    - Snapshots ([KeyRanges], [Snapshot], [StateSignatures]): what is sent is what
      is loaded, over the rows that the receiver had, complete ranges cover all
      keys, the checksum is the Merkle root of the rows, and which signatures a
      snapshot needs.
    - CFT consensus ([CftElection]): while the producers do not change, a term has at
      most one leader, whatever the order of timeouts, blocks and deliveries; a
      block becomes irreversible exactly when a quorum has confirmed it.
    - BFT consensus ([BftConfirm], [BftViews]): a producer that does not restart
      confirms one chain in a term, also while it executes a fork ([linear]), so that two proved blocks of a term are on one chain unless a third
      of the producers are faulty; the commits that a node collects are a valid
      proof; a quorum is reported once; views do not depend on the order of
      messages, and the term that follows from them needs a third of the
      producers and is found.
    - Packed data ([FracpackTheorems], [FracpackSafe], [FracpackModes],
      [FracpackEvolve]): what is packed is read back; strict reading accepts only
      what packing writes, so a value has one encoding; reading any bytes with
      verification stays within them; validation answers what reading does, and
      validated data can be read without verification; readers of a class and of
      the class with more optional members read the data of each other.
    - Routes ([RoutingLoops], [RoutingPeers]): following the selected routes to a
      producer never runs in a circle, although messages are lost, late or repeated.
    - Pending transactions ([RTransactTheorems], [RTransactRequeue]): the tables agree
      after any interleaving; the callbacks of runs do not fail; [requeue] verifies
      every queued transaction again when nothing interferes, and gets stuck on an
      empty queue.
    - Times and decimals: text and back, the calendar.
    - Encodings: keys preserve the order of values and are prefix free; names are
      numbered without gaps, in order and invertibly; base64, hex and items
      round trip.
    - Algorithms against references: the incremental merkle tree and the stack
      of [KvMerkle] compute the roots of the trees they document; parsing and
      running a version requirement evaluates the expression of its grammar.
    - Some theorems state what the code does where it is not what it should be
      ([code_never_erased], [newAccount_existing], [circular_ownership],
      [prerelease_greater], [resource_attribution], [tapos_phantom_reference],
      [skipped_number_stops_node], [repeated_signature_accepted],
      [one_producer_stops_node], [light_start_keeps_old_producers],
      [gap_filled_last_incomplete], [one_producer_commits],
      [views_follow_producers], [replaced_roots_leak],
      [saturated_child_undercounted], [nested_extension_rejected],
      [zero_size_member_two_encodings], [move_to_misses], [requeue_stuck],
      [next_retry_skips], [finished_while_verified], [long_key_cut], [narrow_days],
      [fraction_sum_wraps]).

    ** Fuel and bounds

    Loops with an obvious measure are structural.  Elsewhere the fuel is a
    bound that the theorems show to be enough: [2 * length + 2] for the tokens
    and the parser of a requirement (each second step consumes a character), the
    number of items for running its graph (branches go forward), the length of
    the owner chain for [System.delegate_chain], where less fuel is the native
    stack overflow.  The fork switch has one unit of fuel for each viable block
    (each failed attempt takes a block out of the index); a part of a snapshot has fuel
    for as many rows as its size limit admits; skipping leaders has fuel for the
    distance to the latest view.  The operations on the store of
    nodes have fuel for the height of the tree, and releasing a tree for the
    number of objects; the invariant gives enough of both.  [KvMerkle] has no
    fuel; its assertions are shown to hold.  The trie and packed data are read by
    structural recursion, on the tree and on the type; vectors and unknown members
    by the number that the data gives.  Visiting the rows of an index has fuel for
    one more step than the table has rows.

    ** What is not modelled

    The rest of the native node (wasm execution, nested calls, the running of
    transactions, block production and startup of the fork database, the handlers
    of the BFT consensus that re-enter the fork switch, peers and timers,
    logging) is not modelled; cryptography is an external library.  Of triedent,
    the location of objects in memory, the caches, garbage collection, the locks
    between threads, and the operations on whole ranges ([take], [splice],
    [is_equal_weak]) are not modelled; the theorems about the store suppose that
    no reference count reaches its limit, and one theorem shows what happens
    there.  Of fracpack, associative containers, wrappers with their user
    validation, and views of packed data; JSON, schemas and GraphQL of psio.
    Unpacking and hashing a transaction are parameters of [Transact].  The packed
    size of a row, which only billing sees, is a parameter where it is reported.
    Services written in Rust appear as interfaces.

    Election safety is for a fixed set of producers, and for nodes that do not
    restart: the vote of a node is not on stable storage.  The same holds for
    [best_confirm] of BFT.  The BFT handlers that re-enter the fork switch through
    the callback of the consensus, and safety across terms, are left out because the
    callback is a parameter of [ForkDb]; block production and the change sets of
    subjective transactions because they are the running of wasm and of sessions of
    triedent; logins and replies of [RTransact] because they are text. *)

From stdpp Require Export base tactics list numbers strings gmap sorting.
From Stdlib Require Export ZArith Lia.
From Stdlib Require Strings.Ascii.
Export Ascii.AsciiSyntax.

#[global] Open Scope Z_scope.

(** ** Results

    [psibase::check] and [psibase::abortMessage] end the running action; the
    caller never sees a value.  A fallible operation is modelled by a value of
    [result], whose [Abort] carries the message. *)

Inductive result (A : Type) : Type :=
| Ok (a : A)
| Abort (msg : string).
Arguments Ok {A} a.
Arguments Abort {A} msg%_string_scope.

#[export] Instance result_ret : MRet result := @Ok.
#[export] Instance result_bind : MBind result := fun A B f r =>
  match r with Ok a => f a | Abort m => Abort m end.
#[export] Instance result_fmap : FMap result := fun A B f r =>
  match r with Ok a => Ok (f a) | Abort m => Abort m end.

(** [psibase::check(cond, message)]. *)
Definition check (b : bool) (msg : string) : result unit :=
  if b then Ok tt else Abort msg.

Definition is_ok {A} (r : result A) : bool :=
  match r with Ok _ => true | Abort _ => false end.

(** ** Machine words *)

(** The value of [z] in an unsigned type of [w] bits. *)
Definition wrap (w z : Z) : Z := z mod 2 ^ w.
Abbreviation u8 := (wrap 8).
Abbreviation u32 := (wrap 32).
Abbreviation u64 := (wrap 64).

(** Conversion of an unsigned [w]-bit value to the signed type of that width. *)
Definition to_signed (w z : Z) : Z :=
  if z <? 2 ^ (w - 1) then z else z - 2 ^ w.

Definition in_range (lo hi z : Z) : bool := (lo <=? z) && (z <=? hi).

(** ** Bytes *)

(** A [char] or [unsigned char] sequence is the list of its codes, each in
    [0 .. 255]. *)
Abbreviation bytes := (list Z).

Definition is_byte (b : Z) : Prop := 0 <= b < 256.
Abbreviation bytes_ok := (Forall is_byte).

(** The code of a character literal, and of a string literal. *)
Definition chr (c : Ascii.ascii) : Z := Z.of_N (Ascii.N_of_ascii c).
Fixpoint str (s : string) : bytes :=
  match s with
  | EmptyString => []
  | String c s => chr c :: str s
  end.

Arguments chr c%_char_scope.
Arguments str s%_string_scope.
Arguments check b%_bool_scope msg%_string_scope.

(** [std::lexicographical_compare] on unsigned bytes, as a three-way
    comparison ([std::string_view]'s [<=>] and [std::memcmp] agree with it). *)
Fixpoint lex_compare (a b : bytes) : comparison :=
  match a, b with
  | [], [] => Eq
  | [], _ :: _ => Lt
  | _ :: _, [] => Gt
  | x :: a, y :: b =>
      match x ?= y with
      | Eq => lex_compare a b
      | c => c
      end
  end.

(** [c1] decides, and [c2] breaks a tie. *)
Definition then_compare (c1 c2 : comparison) : comparison :=
  match c1 with Eq => c2 | c => c end.

(** ** Tactics and hints *)

Create HintDb psi.
Create Rewrite HintDb psi.

(** Case analysis on the first [match] of the goal or of a hypothesis. *)
Ltac dmatch :=
  match goal with
  | |- context [match ?x with _ => _ end] => destruct x eqn:?
  | H : context [match ?x with _ => _ end] |- _ => destruct x eqn:?
  end.

(** Turn boolean tests on [Z] and [nat] in the context into propositions. *)
Ltac zbool :=
  repeat match goal with
  | H : (_ <=? _) = true |- _ => apply Z.leb_le in H
  | H : (_ <=? _) = false |- _ => apply Z.leb_gt in H
  | H : (_ <? _) = true |- _ => apply Z.ltb_lt in H
  | H : (_ <? _) = false |- _ => apply Z.ltb_ge in H
  | H : (_ =? _) = true |- _ => apply Z.eqb_eq in H
  | H : (_ =? _) = false |- _ => apply Z.eqb_neq in H
  | H : (_ <=? _)%nat = true |- _ => apply Nat.leb_le in H
  | H : (_ <=? _)%nat = false |- _ => apply Nat.leb_gt in H
  | H : (_ <? _)%nat = true |- _ => apply Nat.ltb_lt in H
  | H : (_ <? _)%nat = false |- _ => apply Nat.ltb_ge in H
  | H : (_ =? _)%nat = true |- _ => apply Nat.eqb_eq in H
  | H : (_ =? _)%nat = false |- _ => apply Nat.eqb_neq in H
  | H : (_ && _)%bool = true |- _ => apply andb_true_iff in H as [? ?]
  | H : (_ && _)%bool = false |- _ => apply andb_false_iff in H
  | H : (_ || _)%bool = true |- _ => apply orb_true_iff in H
  | H : (_ || _)%bool = false |- _ => apply orb_false_iff in H as [? ?]
  | H : negb _ = true |- _ => apply negb_true_iff in H
  | H : negb _ = false |- _ => apply negb_false_iff in H
  end.

(** Evaluate the applications of [f] to closed arguments in the goal. *)
Ltac eval_app f :=
  repeat match goal with
  | |- context [f ?n] => let k := eval vm_compute in (f n) in change (f n) with k
  end.

(** [lia] with division and remainder by literals. *)
Ltac nat_euclid a b :=
  pose proof (Nat.div_mod_eq a b); pose proof (Nat.mod_upper_bound a b ltac:(lia));
  generalize dependent (a mod b)%nat; generalize dependent (a / b)%nat; intros.
Ltac mlia :=
  repeat match goal with
  | |- context [(?a mod ?b)%nat] => nat_euclid a b
  | |- context [(?a / ?b)%nat] => nat_euclid a b
  | _ : context [(?a mod ?b)%nat] |- _ => nat_euclid a b
  | _ : context [(?a / ?b)%nat] |- _ => nat_euclid a b
  end;
  Z.to_euclidean_division_equations; lia.

(** Decompose a successful computation in the result monad. *)
Ltac ok_inv :=
  repeat match goal with
  | H : Ok _ = Ok _ |- _ => injection H as H; subst
  | H : Abort _ = Ok _ |- _ => discriminate H
  | H : Ok _ = Abort _ |- _ => discriminate H
  | H : mret _ = Ok _ |- _ => injection H as H; subst
  | H : mbind _ ?r = Ok _ |- _ =>
      destruct r eqn:?; [cbn [mbind result_bind] in H | discriminate H]
  | H : check ?b _ = Ok _ |- _ =>
      unfold check in H; destruct b eqn:?; [clear H | discriminate H]
  end.

(** ** Generic lemmas *)

Lemma check_ok b m : check b m = Ok tt <-> b = true.
Proof. unfold check. destruct b; split; congruence. Qed.

Lemma bind_ok {A B} (f : A -> result B) r b :
  r ≫= f = Ok b <-> exists a, r = Ok a /\ f a = Ok b.
Proof. destruct r; cbn; split; [eauto | by intros (? & [= ->] & ?) | done | by intros (? & ? & ?)]. Qed.

Lemma wrap_range w z : 0 <= w -> 0 <= wrap w z < 2 ^ w.
Proof. intros. apply Z.mod_pos_bound. lia. Qed.

Lemma wrap_small w z : 0 <= z < 2 ^ w -> wrap w z = z.
Proof. apply Z.mod_small. Qed.

Lemma wrap_wrap w z : wrap w (wrap w z) = wrap w z.
Proof. unfold wrap. apply Zmod_mod. Qed.

(** Truncation at a larger width does not change the lower bits. *)
Lemma mod_pow2_mod z w k : 0 <= k <= w -> (z mod 2 ^ w) mod 2 ^ k = z mod 2 ^ k.
Proof.
  intros. replace (2 ^ w) with (2 ^ k * 2 ^ (w - k)) by (rewrite <- Z.pow_add_r by lia; f_equal; lia).
  rewrite Z.rem_mul_r by lia. rewrite (Z.mul_comm (2 ^ k)), Z.mod_add by lia. apply Zmod_mod.
Qed.

Lemma land_ones_mod z w : 0 <= w -> Z.land z (2 ^ w - 1) = z mod 2 ^ w.
Proof. intros. rewrite <- Z.land_ones by lia. f_equal. rewrite Z.ones_equiv. lia. Qed.

Lemma mul_rem_unique a b p r : 0 <= r < p -> a * p = b * p + r -> a = b /\ r = 0.
Proof.
  intros Hr E. assert (a = b) as ->; [|lia].
  destruct (Z.lt_trichotomy a b) as [?|[?|?]]; [|done|]; nia.
Qed.

(** Putting a [k]-bit value below a shifted one is an addition. *)
Lemma lor_shiftl_add a b k : 0 <= k -> 0 <= b < 2 ^ k -> Z.lor (Z.shiftl a k) b = a * 2 ^ k + b.
Proof.
  intros. rewrite Z.shiftl_mul_pow2 by lia. symmetry. apply Z.add_nocarry_lor.
  apply Z.bits_inj'. intros n ?. rewrite Z.land_spec, Z.bits_0.
  destruct (Z_lt_ge_dec n k).
  - rewrite <- Z.shiftl_mul_pow2, Z.shiftl_spec_low by lia. reflexivity.
  - destruct (Z.eq_dec b 0) as [->|]; [by rewrite Z.bits_0, andb_false_r|].
    rewrite (Z.bits_above_log2 b); [apply andb_false_r | lia |].
    apply Z.lt_le_trans with k; [apply Z.log2_lt_pow2; lia | lia].
Qed.

Lemma lex_compare_refl a : lex_compare a a = Eq.
Proof. induction a; simpl; [done|]. by rewrite Z.compare_refl. Qed.

Lemma lex_compare_eq a b : lex_compare a b = Eq <-> a = b.
Proof.
  split; [|intros ->; apply lex_compare_refl].
  revert b. induction a as [|x a IH]; intros [|y b]; simpl; try done.
  destruct (Z.compare_spec x y); try done. intros ?%IH. by subst.
Qed.

Lemma lex_compare_antisym a b : lex_compare b a = CompOpp (lex_compare a b).
Proof.
  revert b. induction a as [|x a IH]; intros [|y b]; simpl; try done.
  rewrite (Z.compare_antisym x y). destruct (x ?= y); simpl; auto.
Qed.

(** A common prefix does not matter. *)
Lemma lex_compare_app p a b : lex_compare (p ++ a) (p ++ b) = lex_compare a b.
Proof. induction p; simpl; [done|]. by rewrite Z.compare_refl. Qed.

(** Byte strings of the same length are decided before any suffix. *)
Lemma lex_compare_same_length a b s t :
  length a = length b ->
  lex_compare (a ++ s) (b ++ t) = then_compare (lex_compare a b) (lex_compare s t).
Proof.
  revert b. induction a as [|x a IH]; intros [|y b]; simpl; intros H; try done.
  destruct (x ?= y); simpl; auto.
Qed.

Lemma lex_compare_trans c a b d :
  c <> Eq -> lex_compare a b = c -> lex_compare b d = c -> lex_compare a d = c.
Proof.
  intros Hc. revert b d. induction a as [|x a IH]; intros [|y b] [|z d]; cbn; try congruence.
  destruct (Z.compare_spec x y), (Z.compare_spec y z), (Z.compare_spec x z); subst; try lia; try congruence; eauto.
Qed.

Lemma lex_compare_le_trans a b d :
  lex_compare a b <> Gt -> lex_compare b d <> Gt -> lex_compare a d <> Gt.
Proof.
  intros H1 H2. destruct (lex_compare a b) eqn:E1; [|clear H1|done].
  - by apply lex_compare_eq in E1 as ->.
  - destruct (lex_compare b d) eqn:E2; [|clear H2|done].
    + apply lex_compare_eq in E2 as <-. congruence.
    + rewrite (lex_compare_trans Lt _ _ _ ltac:(done) E1 E2). done.
Qed.

Lemma then_compare_assoc a b c :
  then_compare (then_compare a b) c = then_compare a (then_compare b c).
Proof. by destruct a. Qed.

Lemma foldl_ext {A B} (f g : A -> B -> A) a l : (forall a b, f a b = g a b) -> foldl f a l = foldl g a l.
Proof. intros H. revert a. induction l as [|b l IH]; intros a; cbn; [done|]. by rewrite H. Qed.

#[export] Hint Rewrite lex_compare_refl lex_compare_app : psi.
#[export] Hint Resolve wrap_range : psi.

(** ** Order statistics

    [std::nth_element] on numbers: the element at a position of the sorted
    sequence, and how many elements are at least as large. *)

(** How many of the numbers are at least [num]. *)
Definition at_least (m : list Z) (num : Z) : nat := length (filter (fun x => num <= x) m).

Lemma at_least_all l num : Forall (Z.le num) l -> at_least l num = length l.
Proof. unfold at_least. induction 1 as [|x l Hx Hl IH]; [done|]. rewrite filter_cons_True by done. cbn. by rewrite IH. Qed.
Lemma nth_at_least (l : list Z) i x : Sorted Z.le l -> l !! i = Some x -> (length l - i <= at_least l x)%nat.
Proof.
  intros Hs. apply Sorted_StronglySorted in Hs; [|intros ?; lia]. revert i. induction Hs as [|y l Hs IH Hy]; intros [|i] E; simplify_eq/=.
  - rewrite at_least_all; [done|]. constructor; [lia|done].
  - specialize (IH _ E). unfold at_least in *. rewrite filter_cons. case_decide; cbn; lia.
Qed.
Lemma nth_at_most (l : list Z) i x : Sorted Z.le l -> l !! i = Some x -> (at_least l (x + 1) <= length l - S i)%nat.
Proof.
  intros Hs. apply Sorted_StronglySorted in Hs; [|intros ?; lia]. revert i. induction Hs as [|y l Hs IH Hy]; intros [|i] E; simplify_eq/=.
  - unfold at_least. rewrite filter_cons_False by lia. etrans; [apply length_filter|]. lia.
  - specialize (IH _ E). unfold at_least in *. rewrite Forall_forall in Hy.
    assert (y <= x) by (apply Hy; by eapply list_elem_of_lookup_2). by rewrite filter_cons_False by lia.
Qed.
Lemma at_least_sort m num : at_least (merge_sort Z.le m) num = at_least m num.
Proof. unfold at_least. apply Permutation_length. by rewrite merge_sort_Permutation. Qed.
Lemma length_sort (m : list Z) : length (merge_sort Z.le m) = length m.
Proof. apply Permutation_length, merge_sort_Permutation. Qed.

Lemma at_least_mono (m : list Z) a b : a <= b -> (at_least m b <= at_least m a)%nat.
Proof.
  intros H. unfold at_least. induction m as [|x m IH]; [done|]. rewrite !filter_cons. repeat case_decide; cbn; lia.
Qed.

Lemma nth_sorted m i x : merge_sort Z.le m !! i = Some x -> (length m - i <= at_least m x)%nat /\ (at_least m (x + 1) <= length m - S i)%nat.
Proof.
  intros E. assert (Sorted Z.le (merge_sort Z.le m)) as Hs by (apply Sorted_merge_sort; intros ??; lia).
  rewrite <- !(at_least_sort m), <- (length_sort m). split; [by apply nth_at_least|by apply nth_at_most].
Qed.
