(* ===== verification/Text.v ===== *)
(** * Text: numbers in decimal

    [std::to_string] and [std::from_chars] of unsigned numbers, and the text of a
    byte string. *)

From S2P Require Import Prelude.

Fixpoint string_of (l : bytes) : string :=
  match l with [] => EmptyString | b :: l => String (Ascii.ascii_of_N (Z.to_N b)) (string_of l) end.

(** [std::to_string] of an unsigned number of at most [digits] digits. *)
Fixpoint decimal (digits : nat) (n : Z) : bytes :=
  match digits with
  | O => []
  | S digits => (if n / 10 =? 0 then [] else decimal digits (n / 10)) ++ [chr "0" + n mod 10]
  end.

(** The last [digits] digits of a number, with leading zeros: a loop that writes
    [value % 10] and divides, and [std::reverse]. *)
Fixpoint last_digits (digits : nat) (value : Z) : bytes :=
  match digits with
  | O => []
  | S digits => last_digits digits (value / 10) ++ [chr "0" + value mod 10]
  end.

Definition is_digit (c : Z) : bool := in_range (chr "0") (chr "9") c.

(** The number that digits are. *)
Definition digits_value (l : bytes) : Z := foldl (fun v c => v * 10 + (c - chr "0")) 0 l.

(** [std::from_chars] into a number of 64 bits: the number and what follows it, or an
    error when there is no digit or the number is out of range. *)
Fixpoint take_digits (l : bytes) : bytes * bytes :=
  match l with
  | c :: rest => if is_digit c then let '(ds, rest) := take_digits rest in (c :: ds, rest) else ([], l)
  | [] => ([], [])
  end.
Definition from_chars_u64 (l : bytes) : option (Z * bytes) :=
  let '(ds, rest) := take_digits l in
  match ds with
  | [] => None
  | _ => if digits_value ds <? 2 ^ 64 then Some (digits_value ds, rest) else None
  end.

(** ** Lemmas *)

Lemma digits_value_app a b : digits_value (a ++ b) = digits_value a * 10 ^ Z.of_nat (length b) + digits_value b.
Proof.
  unfold digits_value. assert (H : forall b v, foldl (fun v c => v * 10 + (c - chr "0")) v b = v * 10 ^ Z.of_nat (length b) +
    foldl (fun v c => v * 10 + (c - chr "0")) 0 b).
  { clear. induction b as [|c b IH]; intros v; [cbn; lia|]. cbn [foldl length]. rewrite IH, (IH (0 * 10 + (c - chr "0"))).
    rewrite Nat2Z.inj_succ, Z.pow_succ_r by lia. lia. }
  rewrite foldl_app. apply H.
Qed.

Lemma digit_ok n : 0 <= n < 10 -> is_digit (chr "0" + n) = true.
Proof. intros Hn. unfold is_digit, in_range. change (chr "0") with 48. change (chr "9") with 57. apply andb_true_iff.
split; apply Z.leb_le; lia. Qed.

Lemma length_last_digits n v : length (last_digits n v) = n.
Proof. revert v. induction n as [|n IH]; intros v; [done|]. cbn [last_digits]. rewrite length_app, IH. cbn. lia. Qed.
Lemma last_digits_ok n v : Forall (fun c => is_digit c = true) (last_digits n v).
Proof.
  revert v. induction n as [|n IH]; intros v; [constructor|]. cbn [last_digits]. apply Forall_app. split; [done|].
  constructor; [|constructor].
  apply digit_ok, Z.mod_pos_bound. lia.
Qed.
Lemma last_digits_value n v : 0 <= v < 10 ^ Z.of_nat n -> digits_value (last_digits n v) = v.
Proof.
  revert v. induction n as [|n IH]; intros v Hv; [cbn in *; lia|]. cbn [last_digits]. rewrite digits_value_app, IH.
  - change (10 ^ Z.of_nat (length [chr "0" + v mod 10])) with 10. unfold digits_value. cbn [foldl]. pose proof (Z.div_mod v 10).
    lia.
  - rewrite Nat2Z.inj_succ, Z.pow_succ_r in Hv by lia. split; [apply Z.div_pos; lia|apply Z.div_lt_upper_bound; lia].
Qed.

Lemma decimal_ok n v : Forall (fun c => is_digit c = true) (decimal n v).
Proof.
  revert v. induction n as [|n IH]; intros v; [constructor|]. cbn [decimal]. apply Forall_app. split; [by destruct (_ =? _)|].
  constructor; [|constructor].
  apply digit_ok, Z.mod_pos_bound. lia.
Qed.
Lemma decimal_nonempty n v : decimal (S n) v <> [].
Proof. cbn [decimal]. by destruct (_ =? _), (decimal n (v / 10)). Qed.
Lemma decimal_value n v : 0 <= v < 10 ^ Z.of_nat n -> digits_value (decimal n v) = v.
Proof.
  revert v. induction n as [|n IH]; intros v Hv; [cbn in *; lia|]. cbn [decimal]. rewrite digits_value_app.
  change (10 ^ Z.of_nat (length [chr "0" + v mod 10])) with 10.
  change (digits_value [chr "0" + v mod 10]) with (0 * 10 + (chr "0" + v mod 10 - chr "0")).
  pose proof (Z.div_mod v 10). destruct (Z.eqb_spec (v / 10) 0) as [E|]; [change (digits_value []) with 0; lia|].
  rewrite IH; [lia|].
  rewrite Nat2Z.inj_succ, Z.pow_succ_r in Hv by lia. split; [apply Z.div_pos; lia|apply Z.div_lt_upper_bound; lia].
Qed.

Lemma take_digits_app ds rest : Forall (fun c => is_digit c = true) ds ->
  (match rest with c :: _ => is_digit c = false | [] => True end) ->
  take_digits (ds ++ rest) = (ds, rest).
Proof.
  intros Hds Hr. induction Hds as [|c ds Hc Hds IH]; cbn [app take_digits].
  - destruct rest as [|c rest]; [done|]. cbn. by rewrite Hr.
  - by rewrite Hc, IH.
Qed.
Lemma from_chars_digits ds : Forall (fun c => is_digit c = true) ds -> ds <> [] -> digits_value ds < 2 ^ 64 ->
  from_chars_u64 ds = Some (digits_value ds, []).
Proof.
  intros Hds Hne Hv. unfold from_chars_u64. rewrite <- (app_nil_r ds) at 1. rewrite take_digits_app by done.
  destruct ds; [done|].
  by rewrite (proj2 (Z.ltb_lt _ _) Hv).
Qed.
