(* ===== verification/Hex.v ===== *)
(** * psio/to_hex.hpp: hexadecimal printing and parsing

    Source: libraries/psio/include/psio/to_hex.hpp.  Characters and bytes are
    codes in [0 .. 255].  A read or a write outside of a sequence is undefined
    in C++ and is the value [None] of [from_hex]. *)

From S2P Require Import Prelude.

(** ** Printing *)

(** The lambda [nibble] of [hex]: the digit of a 4-bit value. *)
Definition nibble (i : Z) : Z :=
  if i <=? 9 then chr "0" + i else chr "A" + i - 10.

(** The loop of [hex]: [first] is true until the first byte is written. *)
Fixpoint hex_loop (first : bool) (delimiter : option Z) (src : bytes) : bytes :=
  match src with
  | [] => []
  | b :: rest =>
      (if negb first then match delimiter with Some d => [d] | None => [] end else [])
      ++ [nibble (Z.shiftr (u8 b) 4); nibble (Z.land (u8 b) 15)]
      ++ hex_loop false delimiter rest
  end.

(** [hex(begin, end, delimiter)], and [to_hex]. *)
Definition hex (src : bytes) (delimiter : option Z) : bytes := hex_loop true delimiter src.
Definition to_hex (src : bytes) (delimiter : option Z) : bytes := hex src delimiter.

(** ** Parsing *)

(** The lambda [get_digit] on a character that is in range: its value. *)
Definition get_digit (c : Z) : option Z :=
  if (chr "0" <=? c) && (c <=? chr "9") then Some (c - chr "0")
  else if (chr "a" <=? c) && (c <=? chr "f") then Some (c - chr "a" + 10)
  else if (chr "A" <=? c) && (c <=? chr "F") then Some (c - chr "A" + 10)
  else None.

(** [bytes.resize(n)]: keeps what there is, extends with zeros. *)
Definition resize (n : nat) (v : bytes) : bytes := take n (v ++ replicate n 0).

(** The loop of [from_hex]: [h] is what is left to read, [v] the output vector
    and [dest] the index of the next write.  [None] is a read past the end of
    the input or a write past the end of the vector. *)
Fixpoint from_hex_loop (h : bytes) (v : bytes) (dest : nat) : option (bool * bytes) :=
  match h with
  | [] => Some (true, v)
  | c1 :: [] =>
      match get_digit c1 with
      | None => Some (false, v)
      | Some _ => None
      end
  | c1 :: c2 :: rest =>
      match get_digit c1 with
      | None => Some (false, v)
      | Some hi =>
          match get_digit c2 with
          | None => Some (false, v)
          | Some lo =>
              if (dest <? length v)%nat
              then from_hex_loop rest (<[dest := u8 (Z.lor (Z.shiftl hi 4) lo)]> v) (S dest)
              else None
          end
      end
  end.

(** [from_hex(h, bytes)]: the returned flag and the final content of the
    vector, which held [v] before the call. *)
Definition from_hex (h : bytes) (v : bytes) : option (bool * bytes) :=
  from_hex_loop h (resize (length h / 2)%nat v) 0.

(** ** Lemmas *)

Lemma get_digit_nibble i : 0 <= i < 16 -> get_digit (nibble i) = Some i.
Proof.
  intros H. unfold nibble, get_digit.
  change (chr "0") with 48. change (chr "9") with 57. change (chr "a") with 97.
  change (chr "f") with 102. change (chr "A") with 65. change (chr "F") with 70.
  destruct (i <=? 9) eqn:?; repeat (case_match; zbool; try (f_equal; lia); try lia).
Qed.

Lemma high_nibble b : is_byte b -> 0 <= Z.shiftr (u8 b) 4 < 16.
Proof.
  intros [? ?]. rewrite wrap_small by (cbn; lia). rewrite Z.shiftr_div_pow2 by lia.
  change (2 ^ 4) with 16. split; [apply Z.div_pos; lia | apply Z.div_lt_upper_bound; lia].
Qed.

Lemma low_nibble b : is_byte b -> 0 <= Z.land (u8 b) 15 < 16.
Proof.
  intros [? ?]. change 15 with (2 ^ 4 - 1). rewrite land_ones_mod by lia.
  apply Z.mod_pos_bound. lia.
Qed.

Lemma join_nibbles b :
  is_byte b -> u8 (Z.lor (Z.shiftl (Z.shiftr (u8 b) 4) 4) (Z.land (u8 b) 15)) = b.
Proof.
  intros H. pose proof (low_nibble b H). destruct H as [? ?].
  rewrite lor_shiftl_add by (cbn; lia).
  change 15 with (2 ^ 4 - 1). rewrite land_ones_mod, (wrap_small 8 b) by (cbn; lia).
  rewrite Z.shiftr_div_pow2, Z.mul_comm, <- Z.div_mod by lia.
  apply wrap_small. cbn; lia.
Qed.

Lemma length_hex_loop f src : length (hex_loop f None src) = (2 * length src)%nat.
Proof. revert f. induction src as [|b src IH]; intros []; simpl; rewrite ?IH; lia. Qed.

Lemma length_resize n v : length (resize n v) = n.
Proof. unfold resize. rewrite length_take, length_app, length_replicate. lia. Qed.

(** After the first [dest] bytes of [src] are in place, the loop writes the rest. *)
Lemma from_hex_loop_hex f done src v :
  bytes_ok src ->
  length v = (length done + length src)%nat ->
  take (length done) v = done ->
  from_hex_loop (hex_loop f None src) v (length done) = Some (true, done ++ src).
Proof.
  revert f done v. induction src as [|b src IH]; intros f dn v Hok Hlen Hpre.
  - simpl in *. rewrite app_nil_r, <- Hpre, take_ge by lia. done.
  - apply Forall_cons in Hok as [Hb Hok]. cbn [length] in Hlen.
    replace (hex_loop f None (b :: src)) with
      (nibble (Z.shiftr (u8 b) 4) :: nibble (Z.land (u8 b) 15) :: hex_loop false None src)
      by (by destruct f).
    cbn [from_hex_loop].
    rewrite get_digit_nibble by (by apply high_nibble).
    rewrite get_digit_nibble by (by apply low_nibble).
    replace (length dn <? length v)%nat with true by (symmetry; apply Nat.ltb_lt; lia).
    rewrite join_nibbles by done.
    replace (S (length dn)) with (length (dn ++ [b])) by (rewrite length_app; simpl; lia).
    rewrite IH; [by rewrite <- app_assoc | done | rewrite length_insert, length_app; simpl; lia |].
    rewrite length_app. simpl. rewrite Nat.add_1_r.
    rewrite (take_S_r _ _ b) by (apply list_lookup_insert_eq; lia).
    by rewrite take_insert_ge, Hpre by lia.
Qed.

(** ** Theorems *)

(** Parsing what was printed without a delimiter gives the bytes back,
    whatever the vector held before. *)
Theorem from_hex_to_hex src v :
  bytes_ok src -> from_hex (to_hex src None) v = Some (true, src).
Proof.
  intros H. unfold from_hex, to_hex, hex.
  apply (from_hex_loop_hex true []); [done | | done].
  rewrite length_resize, length_hex_loop, Nat.mul_comm, Nat.div_mul; simpl; lia.
Qed.

Lemma from_hex_to_hex_witness :
  bytes_ok [0; 171; 255] /\ from_hex (to_hex [0; 171; 255] None) [7] = Some (true, [0; 171; 255]).
Proof.
  assert (H : bytes_ok [0; 171; 255]) by (repeat constructor; unfold is_byte; lia).
  split; [exact H | exact (from_hex_to_hex [0; 171; 255] [7] H)].
Defined.
