(* ===== verification/Base64.v ===== *)
(** * psibase/common/src/base64.cpp: base64 and base64url

    Source: libraries/psibase/common/src/base64.cpp.  The bit accumulator of
    [transcode] is a 32-bit unsigned value; the alphabet and its inverse are
    computed as the source computes them.  The theorems show that both
    encodings decode to the original bytes, and that the padded form is
    canonical: the decoder accepts exactly the encoder's images. *)

From S2P Require Import Prelude.

(** ** Alphabets *)

(** [std::ranges::views::iota(a, b)] on characters. *)
Definition iota (a b : Z) : list Z := seqZ a (b - a).

Definition base64Table (c62 c63 : Z) : list Z :=
  iota (chr "A") (chr "Z" + 1) ++ iota (chr "a") (chr "z" + 1) ++
  iota (chr "0") (chr "9" + 1) ++ [c62; c63].

(** [invert]: an array of 256 entries, [-1] where a character is not in the table. *)
Definition invert (tab : list Z) : list Z :=
  (foldl (fun '(res, i) ch => (<[Z.to_nat ch := i]> res, i + 1)) (replicate 256 (-1), 0) tab).1.

Definition base64tab : list Z := base64Table (chr "+") (chr "/").
Definition base64invtab : list Z := invert base64tab.
Definition base64url_tab : list Z := base64Table (chr "-") (chr "_").
Definition base64url_invtab : list Z := invert base64url_tab.

(** Array access with an index that is in range. *)
Definition tab_get (tab : list Z) (i : Z) : Z := nth (Z.to_nat i) tab 0.

(** ** Regrouping of bits *)

Definition mask (bits : Z) : Z := u32 (u32 (Z.shiftl 1 bits) - 1).

(** The inner loop: emit groups of [dst] bits while there are enough.  It takes
    [dst >= 1] bits away per turn, so [Z.to_nat bits] turns are enough. *)
Fixpoint emit (fuel : nat) (dst buf bits : Z) : list Z * Z :=
  match fuel with
  | O => ([], bits)
  | S fuel =>
      if dst <=? bits then
        let bits := bits - dst in
        let '(out, rest) := emit fuel dst buf bits in
        (Z.land (Z.shiftr buf bits) (mask dst) :: out, rest)
      else ([], bits)
  end.

(** The loop over the input, from the accumulator [(buf, bits)]: what it emits
    and the accumulator it ends with. *)
Fixpoint transcode_loop (src dst : Z) (inp : list Z) (buf bits : Z) : list Z * Z * Z :=
  match inp with
  | [] => ([], buf, bits)
  | ch :: inp =>
      let buf := u32 (Z.lor (u32 (Z.shiftl buf src)) ch) in
      let bits := bits + src in
      let '(out, bits) := emit (Z.to_nat bits) dst buf bits in
      let '(out', buf, bits) := transcode_loop src dst inp buf bits in
      (out ++ out', buf, bits)
  end.

(** [transcode<SrcBits, DstBits, true>]. *)
Definition transcode_encode (src dst : Z) (inp : list Z) : list Z :=
  let '(out, buf, bits) := transcode_loop src dst inp 0 0 in
  out ++ (if bits =? 0 then [] else [Z.land (u32 (Z.shiftl buf (dst - bits))) (mask dst)]).

(** [transcode<SrcBits, DstBits, false>]: what it emits and its return value. *)
Definition transcode_decode (src dst : Z) (inp : list Z) : list Z * bool :=
  let '(out, buf, bits) := transcode_loop src dst inp 0 0 in
  (out, Z.land buf (mask bits) =? 0).

(** ** Padding *)

(** The default case of the [switch] is an assertion failure. *)
Definition padBase64 (s : bytes) : result bytes :=
  match (length s mod 4)%nat with
  | 0%nat => Ok s
  | 2%nat => Ok (s ++ str "==")
  | 3%nat => Ok (s ++ str "=")
  | _ => Abort "Wrong size"
  end.

Definition ends_with (s : bytes) (c : Z) : bool :=
  match last s with Some x => x =? c | None => false end.

Definition remove_suffix1 (s : bytes) : bytes := removelast s.

(** The string without its padding, and the number of characters removed. *)
Definition unpadBase64 (s : bytes) : bytes * nat :=
  let '(s, p) := if ends_with s (chr "=") then (remove_suffix1 s, 1%nat) else (s, 0%nat) in
  if ends_with s (chr "=") then (remove_suffix1 s, S p) else (s, p).

(** ** The public functions *)

Definition in_table (inv : list Z) (ch : Z) : bool := negb (tab_get inv ch =? -1).

Definition validateBase64 (s : bytes) : option nat :=
  if negb (length s mod 4 =? 0)%nat then None else
  let '(s, padding) := unpadBase64 s in
  if negb (forallb (in_table base64invtab) s) then None else
  let okay := (transcode_decode 6 8 (map (tab_get base64invtab) s)).2 in
  if negb okay then None else
  Some ((length s + padding) / 4 * 3 - padding)%nat.

Definition fromBase64 (s : bytes) : result bytes :=
  check (length s mod 4 =? 0)%nat "Invalid base64 encoding" ;;
  let '(s, padding) := unpadBase64 s in
  check (forallb (in_table base64invtab) s) "Invalid base64 encoding" ;;
  let '(out, okay) := transcode_decode 6 8 (map (tab_get base64invtab) s) in
  check okay "Invalid base64 encoding" ;;
  mret out.

Definition toBase64 (data : bytes) : result bytes :=
  padBase64 (map (tab_get base64tab) (transcode_encode 8 6 data)).

Definition toBase64Url (s : bytes) : bytes :=
  map (tab_get base64url_tab) (transcode_encode 8 6 s).

(** Characters are looked up while the loop runs; no output is visible when one
    of them is rejected. *)
Definition fromBase64Url (s : bytes) : result bytes :=
  check (forallb (in_table base64url_invtab) s) "Invalid base64url encoding" ;;
  let '(out, okay) := transcode_decode 6 8 (map (tab_get base64url_invtab) s) in
  check okay "Invalid base64url encoding" ;;
  mret out.

Example toBase64_ex : toBase64 (str "hello") = Ok (str "aGVsbG8=").
Proof. vm_compute. reflexivity. Qed.
Example fromBase64_ex : fromBase64 (str "aGVsbG8=") = Ok (str "hello").
Proof. vm_compute. reflexivity. Qed.

(** ** Digit strings as numbers *)

(** The number whose big-endian digits in base [2 ^ w] are [l]. *)
Fixpoint num (w : Z) (l : list Z) : Z :=
  match l with
  | [] => 0
  | x :: l => x * 2 ^ (w * Z.of_nat (length l)) + num w l
  end.

Abbreviation digits w := (Forall (fun x => 0 <= x < 2 ^ w)).

Lemma num_bound w l : 0 <= w -> digits w l -> 0 <= num w l < 2 ^ (w * Z.of_nat (length l)).
Proof.
  intros Hw. induction 1 as [|x l Hx Hl IH]; [cbn; rewrite Z.mul_0_r; cbn; lia|].
  cbn [num length]. replace (w * Z.of_nat (S (length l))) with (w + w * Z.of_nat (length l)) by lia.
  rewrite Z.pow_add_r by lia. nia.
Qed.

Lemma num_app w a b :
  0 <= w -> num w (a ++ b) = num w a * 2 ^ (w * Z.of_nat (length b)) + num w b.
Proof.
  intros Hw. induction a as [|x a IH]; cbn [num app]; [lia|].
  rewrite IH, length_app, Nat2Z.inj_add, Z.mul_add_distr_l, Z.pow_add_r by lia. nia.
Qed.

Lemma num_inj w a b :
  0 <= w -> digits w a -> digits w b -> length a = length b -> num w a = num w b -> a = b.
Proof.
  intros Hw Ha. revert b. induction Ha as [|x a Hx Ha IH]; intros [|y b] Hb Hl E; try done.
  apply Forall_cons in Hb as [Hy Hb]. cbn [num length] in *. injection Hl as Hl.
  pose proof (num_bound w a Hw Ha). pose proof (num_bound w b Hw Hb). rewrite Hl in *.
  assert (0 < 2 ^ (w * Z.of_nat (length b))) by (apply Z.pow_pos_nonneg; lia).
  assert (x = y) as -> by nia. f_equal. apply IH; [done | done | lia].
Qed.

(** ** The accumulator *)

Lemma mask_spec bits : 0 <= bits < 32 -> mask bits = 2 ^ bits - 1.
Proof.
  intros. unfold mask. rewrite Z.shiftl_1_l.
  assert (0 < 2 ^ bits < 2 ^ 32) by (split; [apply Z.pow_pos_nonneg | apply Z.pow_lt_mono_r]; lia).
  rewrite !wrap_small; rewrite ?wrap_small; lia.
Qed.

Lemma mod_pow2_split z a b :
  0 <= a -> 0 <= b -> z mod 2 ^ (a + b) = (z / 2 ^ b) mod 2 ^ a * 2 ^ b + z mod 2 ^ b.
Proof.
  intros. rewrite Z.add_comm, Z.pow_add_r by lia. rewrite Z.rem_mul_r by lia. lia.
Qed.

Lemma emit_spec fuel dst buf bits out rest :
  1 <= dst < 32 -> 0 <= bits -> (Z.to_nat bits <= fuel)%nat ->
  emit fuel dst buf bits = (out, rest) ->
  buf mod 2 ^ bits = num dst out * 2 ^ rest + buf mod 2 ^ rest /\
  bits = dst * Z.of_nat (length out) + rest /\ 0 <= rest < dst /\ digits dst out.
Proof.
  intros Hd. revert bits out. induction fuel as [|fuel IH]; intros bits out Hb Hf E; cbn [emit] in E.
  { injection E as <- <-. cbn [num length]. repeat split; try constructor; lia. }
  destruct (dst <=? bits) eqn:Hle; zbool.
  2:{ injection E as <- <-. cbn [num length]. repeat split; try constructor; lia. }
  destruct (emit fuel dst buf (bits - dst)) as [out' rest'] eqn:E'.
  injection E as <- <-. apply IH in E' as (Hn & Hl & Hr & Hok); [|lia..].
  rewrite mask_spec, land_ones_mod, Z.shiftr_div_pow2 by lia.
  split_and!; [| cbn [length]; lia | lia | lia |].
  - replace bits with (dst + (bits - dst)) at 1 by lia.
    rewrite mod_pow2_split, Hn by lia. cbn [num].
    replace (2 ^ (bits - dst)) with (2 ^ (dst * Z.of_nat (length out')) * 2 ^ rest')
      by (rewrite <- Z.pow_add_r by lia; f_equal; lia). nia.
  - constructor; [apply Z.mod_pos_bound; lia | done].
Qed.

Lemma push_spec src buf bits ch :
  0 <= bits < 8 -> 1 <= src <= 8 -> 0 <= buf -> 0 <= ch < 2 ^ src ->
  u32 (Z.lor (u32 (Z.shiftl buf src)) ch) mod 2 ^ (bits + src) = buf mod 2 ^ bits * 2 ^ src + ch.
Proof.
  intros Hb Hs Hbuf Hch. unfold wrap at 1. rewrite mod_pow2_mod by lia.
  assert (E : u32 (Z.shiftl buf src) = Z.shiftl (buf mod 2 ^ (32 - src)) src).
  { unfold wrap. rewrite !Z.shiftl_mul_pow2 by lia.
    replace (2 ^ 32) with (2 ^ (32 - src) * 2 ^ src) by (rewrite <- Z.pow_add_r by lia; f_equal; lia).
    by rewrite Z.mul_mod_distr_r by lia. }
  rewrite E, lor_shiftl_add, mod_pow2_split by lia.
  rewrite Z.div_add_l, (Z.div_small ch), Z.add_0_r by lia. rewrite mod_pow2_mod by lia.
  f_equal. rewrite Z.add_comm, Z.mod_add by lia. by apply Z.mod_small.
Qed.

Lemma transcode_loop_spec src dst inp buf bits out buf' bits' :
  1 <= src <= 8 -> 1 <= dst <= 8 -> 0 <= bits < dst -> 0 <= buf -> digits src inp ->
  transcode_loop src dst inp buf bits = (out, buf', bits') ->
  buf mod 2 ^ bits * 2 ^ (src * Z.of_nat (length inp)) + num src inp
    = num dst out * 2 ^ bits' + buf' mod 2 ^ bits' /\
  bits + src * Z.of_nat (length inp) = dst * Z.of_nat (length out) + bits' /\
  0 <= bits' < dst /\ digits dst out /\ 0 <= buf'.
Proof.
  intros Hs Hd. revert buf bits out. induction inp as [|ch inp IH]; intros buf bits out Hb Hbuf Hin E.
  { cbn in E. injection E as <- <- <-. cbn [num length]. rewrite Z.mul_0_r.
    repeat split; try constructor; lia. }
  apply Forall_cons in Hin as [Hch Hin]. cbn [transcode_loop] in E.
  set (b1 := u32 (Z.lor (u32 (Z.shiftl buf src)) ch)) in *.
  assert (Hb1 : 0 <= b1) by (apply wrap_range; lia).
  pose proof (push_spec src buf bits ch ltac:(lia) Hs Hbuf Hch) as Hp. fold b1 in Hp.
  destruct (emit (Z.to_nat (bits + src)) dst b1 (bits + src)) as [o1 r1] eqn:E1.
  destruct (transcode_loop src dst inp b1 r1) as [[o2 b2] r2] eqn:E2.
  injection E as <- <- <-.
  apply emit_spec in E1 as (Hn1 & Hl1 & Hr1 & Ho1); [|lia..].
  apply IH in E2 as (Hn2 & Hl2 & Hr2 & Ho2 & Hb2); [|try done; lia..].
  rewrite length_app, Nat2Z.inj_add. cbn [num length]. split_and!; try lia; [|by apply Forall_app].
  rewrite num_app by lia.
  assert (Hk : src * Z.of_nat (S (length inp)) = src + src * Z.of_nat (length inp)) by lia.
  assert (Hk2 : dst * Z.of_nat (length o2) + r2 = r1 + src * Z.of_nat (length inp)) by lia.
  rewrite Hk, Z.pow_add_r by lia.
  transitivity ((buf mod 2 ^ bits * 2 ^ src + ch) * 2 ^ (src * Z.of_nat (length inp)) + num src inp); [nia|].
  rewrite <- Hp, Hn1.
  assert (Hpow : 2 ^ (dst * Z.of_nat (length o2)) * 2 ^ r2 = 2 ^ r1 * 2 ^ (src * Z.of_nat (length inp)))
    by (rewrite <- !Z.pow_add_r by lia; f_equal; lia).
  rewrite !Z.mul_add_distr_r, <- !Z.mul_assoc, Hpow. lia.
Qed.

(** ** Regrouping is invertible *)

(** What the encoder emits: the input's number, shifted left by the padding. *)
Lemma transcode_encode_spec src dst inp :
  1 <= src <= 8 -> 1 <= dst <= 8 -> digits src inp ->
  let out := transcode_encode src dst inp in
  let pad := dst * Z.of_nat (length out) - src * Z.of_nat (length inp) in
  num dst out = num src inp * 2 ^ pad /\ 0 <= pad < dst /\ digits dst out.
Proof.
  intros Hs Hd Hin. unfold transcode_encode.
  destruct (transcode_loop src dst inp 0 0) as [[o b] r] eqn:E.
  apply transcode_loop_spec in E as (Hn & Hl & Hr & Ho & Hb); [|try done; lia..].
  rewrite Zmod_0_l, Z.mul_0_l, Z.add_0_l in *.
  destruct (r =? 0) eqn:Hr0; zbool.
  - subst r. change (2 ^ 0) with 1 in Hn. rewrite Z.mod_1_r in Hn. rewrite app_nil_r. cbn zeta.
    replace (dst * Z.of_nat (length o) - src * Z.of_nat (length inp)) with 0 by lia.
    split_and!; [lia | lia | lia | done].
  - cbn zeta. rewrite length_app, Nat2Z.inj_add. cbn [length].
    assert (Hm : Z.land (u32 (Z.shiftl b (dst - r))) (mask dst) = b mod 2 ^ r * 2 ^ (dst - r)).
    { rewrite mask_spec, land_ones_mod by lia. unfold wrap. rewrite mod_pow2_mod by lia.
      rewrite Z.shiftl_mul_pow2 by lia.
      replace (2 ^ dst) with (2 ^ r * 2 ^ (dst - r)) by (rewrite <- Z.pow_add_r by lia; f_equal; lia).
      by rewrite Z.mul_mod_distr_r by lia. }
    rewrite Hm. split_and!; [|lia|lia|].
    + rewrite num_app, Hn by lia. cbn [num length].
      replace (dst * (Z.of_nat (length o) + Z.of_nat 1) - src * Z.of_nat (length inp)) with (dst - r) by lia.
      replace (2 ^ (dst * Z.of_nat 1)) with (2 ^ r * 2 ^ (dst - r))
        by (rewrite <- Z.pow_add_r by lia; f_equal; lia).
      rewrite Z.mul_0_r. change (2 ^ 0) with 1. lia.
    + apply Forall_app. split; [done|]. constructor; [|constructor].
      rewrite <- Hm. rewrite mask_spec, land_ones_mod by lia. apply Z.mod_pos_bound. lia.
Qed.

(** What the decoder emits, and the bits it is left with. *)
Lemma transcode_decode_spec src dst inp out ok :
  1 <= src <= 8 -> 1 <= dst <= 8 -> digits src inp ->
  transcode_decode src dst inp = (out, ok) ->
  exists rem r, num src inp = num dst out * 2 ^ r + rem /\ 0 <= rem < 2 ^ r /\
    r = src * Z.of_nat (length inp) - dst * Z.of_nat (length out) /\ 0 <= r < dst /\
    digits dst out /\ ok = (rem =? 0).
Proof.
  intros Hs Hd Hin. unfold transcode_decode.
  destruct (transcode_loop src dst inp 0 0) as [[o b] r] eqn:E. intros [= <- <-].
  apply transcode_loop_spec in E as (Hn & Hl & Hr & Ho & Hb); [|try done; lia..].
  rewrite Zmod_0_l, Z.mul_0_l, Z.add_0_l in *.
  exists (b mod 2 ^ r), r. split_and!; try lia; try done.
  - apply Z.mod_pos_bound; lia.
  - apply Z.mod_pos_bound; lia.
  - by rewrite mask_spec, land_ones_mod by lia.
Qed.

Lemma transcode_roundtrip inp :
  digits 8 inp -> transcode_decode 6 8 (transcode_encode 8 6 inp) = (inp, true).
Proof.
  intros Hin. pose proof (transcode_encode_spec 8 6 inp ltac:(lia) ltac:(lia) Hin) as (Hn & Hp & Ho).
  set (enc := transcode_encode 8 6 inp) in *.
  destruct (transcode_decode 6 8 enc) as [out ok] eqn:E.
  apply transcode_decode_spec in E as (rem & r & Hn' & Hrem & Hr & Hr' & Hout & ->); [|try done; lia..].
  assert (length out = length inp) as Hlen by lia.
  assert (r = 6 * Z.of_nat (length enc) - 8 * Z.of_nat (length inp)) as Hr2 by lia.
  rewrite <- Hr2 in Hn. rewrite Hn in Hn'. assert (0 < 2 ^ r) by lia.
  destruct (mul_rem_unique (num 8 inp) (num 8 out) (2 ^ r) rem) as [? ->]; [lia..|].
  rewrite (num_inj 8 out inp); auto; lia.
Qed.

(** The number of 6-bit groups that carry [8 * n] bits. *)
Lemma length_encode inp :
  digits 8 inp -> Z.of_nat (length (transcode_encode 8 6 inp)) = (8 * Z.of_nat (length inp) + 5) / 6.
Proof.
  intros Hin. pose proof (transcode_encode_spec 8 6 inp ltac:(lia) ltac:(lia) Hin) as (Hn & Hp & Ho).
  apply Z.div_unique with (8 * Z.of_nat (length inp) + 5
    - 6 * Z.of_nat (length (transcode_encode 8 6 inp))); lia.
Qed.

(** A sequence of groups that the decoder accepts and that is not one group too
    long is what the encoder emits for the decoded bytes. *)
Lemma transcode_canonical inp out :
  digits 6 inp -> (length inp mod 4 <> 1)%nat ->
  transcode_decode 6 8 inp = (out, true) -> digits 8 out /\ transcode_encode 8 6 out = inp.
Proof.
  intros Hin H1 E.
  apply transcode_decode_spec in E as (rem & r & Hn & Hrem & Hr & Hr' & Hout & Hok); [|try done; lia..].
  symmetry in Hok. apply Z.eqb_eq in Hok as ->. split; [done|].
  pose proof (transcode_encode_spec 8 6 out ltac:(lia) ltac:(lia) Hout) as (Hn' & Hp & Ho).
  set (enc := transcode_encode 8 6 out) in *.
  assert (length enc = length inp) as Hlen.
  { pose proof (Nat.div_mod_eq (length inp) 4). pose proof (Nat.mod_upper_bound (length inp) 4).
    lia. }
  rewrite <- Hlen in Hr. rewrite <- Hr in Hn'.
  apply (num_inj 6); auto; lia.
Qed.

(** ** The alphabets are bijections *)

Definition tab_ok (tab inv : list Z) : bool :=
  forallb (fun i => (tab_get inv (tab_get tab i) =? i) && negb (tab_get tab i =? chr "=")
                    && (0 <=? tab_get tab i) && (tab_get tab i <? 256)) (seqZ 0 64)
  && forallb (fun c => (tab_get inv c =? -1) ||
                       ((0 <=? tab_get inv c) && (tab_get inv c <? 64)
                        && (tab_get tab (tab_get inv c) =? c))) (seqZ 0 256).

Lemma base64_tab_ok : tab_ok base64tab base64invtab = true.
Proof. vm_compute. reflexivity. Qed.
Lemma base64url_tab_ok : tab_ok base64url_tab base64url_invtab = true.
Proof. vm_compute. reflexivity. Qed.

Lemma forallb_seqZ P n i : forallb P (seqZ 0 n) = true -> 0 <= i < n -> P i = true.
Proof. intros H Hi. rewrite forallb_forall in H. apply H, list_elem_of_In, elem_of_seqZ. lia. Qed.

Section alphabet.
Context (tab inv : list Z) (Htab : tab_ok tab inv = true).

Lemma tab_inv i :
  0 <= i < 2 ^ 6 ->
  tab_get inv (tab_get tab i) = i /\ tab_get tab i <> chr "=" /\ is_byte (tab_get tab i).
Proof.
  intros Hi. apply andb_true_iff in Htab as [H _].
  pose proof (forallb_seqZ _ _ _ H ltac:(change (2 ^ 6) with 64 in Hi; exact Hi)) as Hc. cbn beta in Hc.
  zbool. unfold is_byte. lia.
Qed.

Lemma inv_tab c :
  is_byte c -> in_table inv c = true -> tab_get tab (tab_get inv c) = c /\ 0 <= tab_get inv c < 2 ^ 6.
Proof.
  intros Hc Hin. apply andb_true_iff in Htab as [_ H].
  pose proof (forallb_seqZ _ _ _ H Hc) as Hx. cbn beta in Hx.
  unfold in_table in Hin. zbool. change (2 ^ 6) with 64.
  destruct Hx as [?%Z.eqb_eq|?]; zbool; [congruence|]. lia.
Qed.

Lemma map_inv_tab l : digits 6 l -> map (tab_get inv) (map (tab_get tab) l) = l.
Proof. induction 1 as [|x l Hx Hl IH]; [done|]. cbn. rewrite IH. by rewrite (proj1 (tab_inv x Hx)). Qed.

Lemma all_in_table l : digits 6 l -> forallb (in_table inv) (map (tab_get tab) l) = true.
Proof.
  induction 1 as [|x l Hx Hl IH]; [done|]. cbn. rewrite IH. unfold in_table.
  rewrite (proj1 (tab_inv x Hx)). destruct (x =? -1) eqn:?; zbool; [lia | done].
Qed.

Lemma map_tab_inv s :
  bytes_ok s -> forallb (in_table inv) s = true ->
  map (tab_get tab) (map (tab_get inv) s) = s /\ digits 6 (map (tab_get inv) s).
Proof.
  induction 1 as [|c s Hc Hs IH]; cbn; [done|]. intros [H1 H2]%andb_true_iff.
  destruct (inv_tab c Hc H1) as [-> ?]. destruct (IH H2) as [-> ?]. split; [done | by constructor].
Qed.

Lemma table_no_pad l c : digits 6 l -> last (map (tab_get tab) l) = Some c -> c <> chr "=".
Proof.
  intros Hl. rewrite fmap_last.
  destruct (last l) as [x|] eqn:E; [|done]. intros [= <-].
  apply last_Some in E as [l' ->]. apply Forall_app in Hl as [_ Hl].
  apply tab_inv. by inversion Hl.
Qed.
End alphabet.

(** ** Padding *)

Definition pads (n : nat) : bytes := replicate n (chr "=").

Lemma length_pads n : length (pads n) = n.
Proof. apply length_replicate. Qed.

Lemma ends_with_snoc s x c : ends_with (s ++ [x]) c = (x =? c).
Proof. unfold ends_with. by rewrite last_snoc. Qed.

Lemma ends_with_true s c : ends_with s c = true -> s = remove_suffix1 s ++ [c].
Proof.
  unfold ends_with, remove_suffix1. destruct (last s) as [x|] eqn:E; [|done].
  intros ->%Z.eqb_eq. apply last_Some in E as [l ->]. by rewrite removelast_last.
Qed.

Lemma unpad_pads s p :
  (p <= 2)%nat -> ends_with s (chr "=") = false -> unpadBase64 (s ++ pads p) = (s, p).
Proof.
  intros Hp Hs. unfold unpadBase64, remove_suffix1.
  destruct p as [|[|[|p]]]; [| | |lia]; cbn [pads replicate].
  - by rewrite app_nil_r, !Hs.
  - rewrite ends_with_snoc, Z.eqb_refl, removelast_last. by rewrite Hs.
  - change [chr "="; chr "="] with ([chr "="] ++ [chr "="]). rewrite app_assoc.
    by rewrite ends_with_snoc, Z.eqb_refl, removelast_last, ends_with_snoc, Z.eqb_refl, removelast_last.
Qed.

Lemma unpad_split s s' p : unpadBase64 s = (s', p) -> s = s' ++ pads p /\ (p <= 2)%nat.
Proof.
  unfold unpadBase64. destruct (ends_with s (chr "=")) eqn:E1.
  - apply ends_with_true in E1.
    destruct (ends_with (remove_suffix1 s) (chr "=")) eqn:E2; intros [= <- <-].
    + apply ends_with_true in E2. split; [|lia]. rewrite E1 at 1. rewrite E2 at 1.
      by rewrite <- app_assoc.
    + split; [done | lia].
  - rewrite E1. intros [= <- <-]. split; [by rewrite app_nil_r | lia].
Qed.

(** How many pad characters complete [n] groups. *)
Definition pad_count (n : nat) : nat := match (n mod 4)%nat with 2%nat => 2 | 3%nat => 1 | _ => 0 end.

Lemma padBase64_spec s : (length s mod 4 <> 1)%nat -> padBase64 s = Ok (s ++ pads (pad_count (length s))).
Proof.
  intros H. unfold padBase64, pad_count. pose proof (Nat.mod_upper_bound (length s) 4).
  destruct (length s mod 4)%nat as [|[|[|[|]]]]; try lia; try done.
  cbn. by rewrite app_nil_r.
Qed.

Lemma pad_count_total n : (n mod 4 <> 1)%nat -> ((n + pad_count n) mod 4 = 0)%nat.
Proof. unfold pad_count. intros H. repeat case_match; mlia. Qed.

Lemma pad_count_unique n p :
  (p <= 2)%nat -> ((n + p) mod 4 = 0)%nat -> (n mod 4 <> 1)%nat /\ p = pad_count n.
Proof. unfold pad_count. intros Hp H. repeat case_match; mlia. Qed.

Lemma length_encode_mod inp : digits 8 inp -> (length (transcode_encode 8 6 inp) mod 4 <> 1)%nat.
Proof. intros Hin H. pose proof (length_encode inp Hin). mlia. Qed.

Lemma no_pad_suffix l :
  digits 6 l -> ends_with (map (tab_get base64tab) l) (chr "=") = false.
Proof.
  intros Hl. unfold ends_with. destruct (last (map (tab_get base64tab) l)) as [c|] eqn:E; [|done].
  apply (table_no_pad _ _ base64_tab_ok) in E; [|done]. by apply Z.eqb_neq.
Qed.

(** ** Theorems *)

Lemma is_byte_digits l : bytes_ok l <-> digits 8 l.
Proof. done. Qed.

Lemma toBase64_total d :
  bytes_ok d ->
  let s := map (tab_get base64tab) (transcode_encode 8 6 d) in
  toBase64 d = Ok (s ++ pads (pad_count (length s))).
Proof.
  intros Hd s. apply padBase64_spec. unfold s. rewrite length_map. by apply length_encode_mod.
Qed.

Lemma fromBase64_encoded d :
  bytes_ok d -> exists s, toBase64 d = Ok s /\ fromBase64 s = Ok d.
Proof.
  intros Hd. pose proof (toBase64_total d Hd) as E.
  pose proof (transcode_encode_spec 8 6 d ltac:(lia) ltac:(lia) Hd) as (_ & _ & Ho).
  set (s := map (tab_get base64tab) (transcode_encode 8 6 d)) in *.
  exists (s ++ pads (pad_count (length s))). split; [done|].
  assert (Hmod : (length s mod 4 <> 1)%nat) by (unfold s; rewrite length_map; by apply length_encode_mod).
  unfold fromBase64. rewrite length_app, length_pads, pad_count_total by done.
  cbn [check Nat.eqb mbind result_bind].
  rewrite unpad_pads; [|unfold pad_count; repeat case_match; lia | by apply no_pad_suffix].
  unfold s. rewrite (all_in_table _ _ base64_tab_ok), (map_inv_tab _ _ base64_tab_ok) by done.
  by rewrite transcode_roundtrip.
Qed.

Lemma fromBase64_canonical s d :
  bytes_ok s -> fromBase64 s = Ok d -> bytes_ok d /\ toBase64 d = Ok s.
Proof.
  intros Hs. unfold fromBase64. destruct (length s mod 4 =? 0)%nat eqn:Hl; [|done].
  cbn [check mbind result_bind]. apply Nat.eqb_eq in Hl.
  destruct (unpadBase64 s) as [s' p] eqn:Eu. apply unpad_split in Eu as [-> Hp].
  destruct (forallb (in_table base64invtab) s') eqn:Ht; [|done]. cbn [check mbind result_bind].
  apply Forall_app in Hs as [Hs' _].
  destruct (map_tab_inv _ _ base64_tab_ok s' Hs' Ht) as [Hm Hdig].
  destruct (transcode_decode 6 8 (map (tab_get base64invtab) s')) as [out ok] eqn:E.
  destruct ok; [|done]. intros [= ->].
  rewrite length_app, length_pads in Hl.
  destruct (pad_count_unique _ _ Hp Hl) as [Hne ->].
  destruct (transcode_canonical _ d Hdig ltac:(by rewrite length_map) E) as [Hd Henc].
  split; [done|]. rewrite toBase64_total by done. by rewrite Henc, Hm.
Qed.

(** Decoding accepts exactly the encoder's images and inverts
    the encoder; no two texts decode to the same bytes. *)
Theorem base64_canonical s d :
  bytes_ok s -> fromBase64 s = Ok d <-> bytes_ok d /\ toBase64 d = Ok s.
Proof.
  intros Hs. split; [by apply fromBase64_canonical|]. intros [Hd E].
  destruct (fromBase64_encoded d Hd) as (s' & E' & ?). congruence.
Qed.

Lemma base64_canonical_witness :
  bytes_ok (str "aGk=") /\ (fromBase64 (str "aGk=") = Ok (str "hi") <->
    bytes_ok (str "hi") /\ toBase64 (str "hi") = Ok (str "aGk=")).
Proof.
  assert (H : bytes_ok (str "aGk=")) by (repeat constructor; unfold is_byte; vm_compute; intuition congruence).
  split; [exact H | exact (base64_canonical (str "aGk=") (str "hi") H)].
Defined.

(** [validateBase64] predicts [fromBase64]: it succeeds on the same texts, with
    the length of the decoded bytes. *)
Theorem validateBase64_correct s n :
  bytes_ok s -> validateBase64 s = Some n <-> exists d, fromBase64 s = Ok d /\ length d = n.
Proof.
  intros Hs. unfold validateBase64, fromBase64.
  destruct (length s mod 4 =? 0)%nat eqn:Hl; cbn [negb check mbind result_bind snd]; [|by split; [|intros (?&?&?)]].
  destruct (unpadBase64 s) as [s' p] eqn:Eu. apply unpad_split in Eu as [-> Hp].
  destruct (forallb (in_table base64invtab) s') eqn:Ht; cbn [negb check mbind result_bind snd]; [|by split; [|intros (?&?&?)]].
  apply Forall_app in Hs as [Hs' _]. destruct (map_tab_inv _ _ base64_tab_ok s' Hs' Ht) as [_ Hdig].
  destruct (transcode_decode 6 8 (map (tab_get base64invtab) s')) as [out ok] eqn:E.
  apply transcode_decode_spec in E as (rem & r & _ & _ & Hr & Hr' & _ & _); [|try done; lia..].
  rewrite length_map in Hr. rewrite length_app, length_pads in Hl.
  apply Nat.eqb_eq in Hl.
  assert (length out = ((length s' + p) / 4 * 3 - p)%nat) as Hout by mlia.
  destruct ok; cbn [negb check mbind result_bind snd]; [|by split; [|intros (?&?&?)]]. rewrite <- Hout. split.
  - intros [= <-]. by exists out.
  - by intros (d & [= ->] & <-).
Qed.

Lemma validateBase64_correct_witness :
  bytes_ok (str "aGk=") /\ (validateBase64 (str "aGk=") = Some 2%nat <->
    exists d, fromBase64 (str "aGk=") = Ok d /\ length d = 2%nat).
Proof.
  assert (H : bytes_ok (str "aGk=")) by (repeat constructor; unfold is_byte; vm_compute; intuition congruence).
  split; [exact H | exact (validateBase64_correct (str "aGk=") 2 H)].
Defined.

(** The unpadded URL form decodes to the bytes it was made from. *)
Theorem base64url_roundtrip s : bytes_ok s -> fromBase64Url (toBase64Url s) = Ok s.
Proof.
  intros Hs. unfold fromBase64Url, toBase64Url.
  pose proof (transcode_encode_spec 8 6 s ltac:(lia) ltac:(lia) Hs) as (_ & _ & Ho).
  rewrite (all_in_table _ _ base64url_tab_ok), (map_inv_tab _ _ base64url_tab_ok) by done.
  by rewrite transcode_roundtrip.
Qed.

Lemma base64url_roundtrip_witness :
  bytes_ok [251; 255] /\ fromBase64Url (toBase64Url [251; 255]) = Ok [251; 255].
Proof.
  assert (H : bytes_ok [251; 255]) by (repeat constructor; unfold is_byte; lia).
  split; [exact H | exact (base64url_roundtrip [251; 255] H)].
Defined.

(** The URL form is not canonical: a text with one group too many is accepted
    when that group is zero. *)
Example base64url_extra_group :
  fromBase64Url (str "aGVsbG8A") = Ok (str "hello" ++ [0]) /\ fromBase64Url (str "A") = Ok [].
Proof. vm_compute. split; reflexivity. Qed.
