(* ===== verification/ToKey.v ===== *)
(** * psio/to_key.hpp: order-preserving keys

    Source: libraries/psio/include/psio/to_key.hpp.  The C++ overload set is
    indexed by the static type of its argument; [kty] lists the types it
    handles and [to_key] is one function by recursion on them.  The comment at
    the top of the header promises that [key(a) < key(b)] iff [a < b] and that
    no key is a prefix of another; [to_key_order] is that promise. *)

From S2P Require Import Prelude.

#[local] Set Warnings "-register-all".

(** ** Types and values *)

(** [KInt] also stands for [char]; a scoped enumeration is [KEnum] with the
    signedness and size of its underlying type.  [KVector] is any of the
    ranges (vector, list, deque, set; a map is a range of pairs), [KTuple] is
    [std::tuple], [std::pair] and a reflected struct. *)
Inductive kty : Type :=
| KBool
| KInt (signed : bool) (size : nat)
| KEnum (signed : bool) (size : nat)
| KFloat (size : nat)
| KString
| KVarUint32
| KArray (n : nat) (t : kty)
| KVector (t : kty)
| KOptional (t : kty)
| KTuple (ts : list kty)
| KVariant (ts : list kty).

(** A floating point value is given by the bits of its representation. *)
Inductive kval : Type :=
| VBool (b : bool)
| VInt (z : Z)
| VFloat (bits : Z)
| VString (s : bytes)
| VSeq (l : list kval)
| VOpt (o : option kval)
| VTuple (l : list kval)
| VVariant (index : nat) (v : kval).

(** ** Integers *)

(** The [n] bytes of [v] as they are in memory (little endian). *)
Fixpoint le_bytes (n : nat) (v : Z) : bytes :=
  match n with
  | O => []
  | S n => v mod 256 :: le_bytes n (v / 256)
  end.

Definition int_min (signed : bool) (size : nat) : Z :=
  if signed then - 2 ^ (8 * Z.of_nat size - 1) else 0.
Definition int_max (signed : bool) (size : nat) : Z :=
  if signed then 2 ^ (8 * Z.of_nat size - 1) - 1 else 2 ^ (8 * Z.of_nat size) - 1.

(** The integral branch of [to_key]: subtract the minimum in the unsigned type
    and reverse the bytes in memory. *)
Definition to_key_int (signed : bool) (size : nat) (obj : Z) : bytes :=
  let w := 8 * Z.of_nat size in
  let v := wrap w obj in
  let v := wrap w (v - wrap w (int_min signed size)) in
  rev (le_bytes size v).

(** ** Floating point *)

(** [float_to_key<UInt>], on the bits of the representation ([w] is the number
    of digits of [UInt]). *)
Definition float_to_key (w : Z) (bits : Z) : Z :=
  let signbit := wrap w (Z.shiftl 1 (w - 1)) in
  let mask := 0 in
  let result := if bits =? signbit then 0 else bits in
  let mask := if negb (Z.land result signbit =? 0) then wrap w (Z.lnot mask) else mask in
  Z.lxor result (Z.lor mask signbit).

(** ** Strings and the variable length tag *)

Fixpoint to_key_chars (obj : bytes) : bytes :=
  match obj with
  | [] => []
  | ch :: obj => ch :: (if ch =? 0 then [1] else []) ++ to_key_chars obj
  end.

(** [to_key(std::string_view)]. *)
Definition to_key_string (obj : bytes) : bytes := to_key_chars obj ++ [0; 0].

Definition varuint32_num_bytes (obj : Z) : Z :=
  if obj <? 0x80 then 1
  else if obj <? 0x4000 then 2
  else if obj <? 0x200000 then 3
  else if obj <? 0x10000000 then 4
  else 5.

(** The loop [for (int i = num_bytes - 2; i >= 0; --i)]; the argument is [i + 1]. *)
Fixpoint varuint32_tail (i : nat) (obj : Z) : bytes :=
  match i with
  | O => []
  | S i => Z.land (Z.shiftr obj (Z.of_nat i * 8)) 0xFF :: varuint32_tail i obj
  end.

Definition to_key_varuint32 (obj : Z) : bytes :=
  let num_bytes := varuint32_num_bytes obj in
  u8 (Z.lor (u32 (Z.lnot (Z.shiftr 0xFF (num_bytes - 1))))
            (if num_bytes =? 5 then 0 else Z.shiftr obj ((num_bytes - 1) * 8)))
  :: varuint32_tail (Z.to_nat (num_bytes - 1)) obj.

(** ** Optional elements *)

(** [has_bitwise_serialization<T>() && sizeof(T) == 1]: arithmetic types and
    enumerations of one byte. *)
Definition one_byte (t : kty) : bool :=
  match t with
  | KBool => true
  | KInt _ 1 | KEnum _ 1 => true
  | _ => false
  end.

(** [to_key_optional<T>]; [key] is [to_key] at type [T].  One-byte types go
    through a buffer of one byte. *)
Definition to_key_optional (single : bool) (key : kval -> bytes) (obj : option kval) : bytes :=
  if single then
    match obj with
    | None => [0; 0]
    | Some v =>
        match key v with
        | [b] => b :: (if b =? 0 then [1] else [])
        | _ => []
        end
    end
  else
    match obj with
    | Some v => 1 :: key v
    | None => [0]
    end.

(** [to_key_range] and [to_key(std::vector)]. *)
Definition to_key_range (single : bool) (key : kval -> bytes) (obj : list kval) : bytes :=
  concat (map (fun elem => to_key_optional single key (Some elem)) obj)
  ++ to_key_optional single key None.

(** [to_key_tuple<0>]: the members in order. *)
Definition to_key_tuple (key : kty -> kval -> bytes) : list kty -> list kval -> bytes :=
  fix go ts vs :=
    match ts, vs with
    | t :: ts, v :: vs => key t v ++ go ts vs
    | _, _ => []
    end.

(** [to_key(std::array)]. *)
Definition to_key_array (key : kval -> bytes) (l : list kval) : bytes := concat (map key l).

(** [to_key(std::variant)]: the index, then the alternative that is held. *)
Definition to_key_visit (key : kty -> kval -> bytes) (v : kval) : list kty -> nat -> bytes :=
  fix visit ts i :=
    match ts, i with
    | t :: _, O => key t v
    | _ :: ts, S i => visit ts i
    | [], _ => []
    end.
Definition to_key_variant (key : kty -> kval -> bytes) (ts : list kty) (i : nat) (v : kval) : bytes :=
  to_key_varuint32 (u32 (Z.of_nat i)) ++ to_key_visit key v ts i.

(** ** [to_key] *)

Fixpoint to_key (t : kty) (v : kval) {struct t} : bytes :=
  match t, v with
  | KBool, VBool b => [if b then 1 else 0]
  | KInt s n, VInt z => to_key_int s n z
  | KEnum s n, VInt z => to_key_int s n z
  | KFloat n, VFloat bits => to_key_int false n (float_to_key (8 * Z.of_nat n) bits)
  | KString, VString s => to_key_string s
  | KVarUint32, VInt z => to_key_varuint32 z
  | KArray _ t, VSeq l => to_key_array (to_key t) l
  | KVector t, VSeq l => to_key_range (one_byte t) (to_key t) l
  | KOptional t, VOpt o => to_key_optional (one_byte t) (to_key t) o
  | KTuple ts, VTuple vs => to_key_tuple to_key ts vs
  | KVariant ts, VVariant i v => to_key_variant to_key ts i v
  | _, _ => []
  end.

(** [convert_to_key(t, bin)] appends a key to a buffer; [composite_key]
    concatenates the keys of its arguments. *)
Definition convert_to_key (t : kty) (v : kval) (bin : bytes) : bytes := bin ++ to_key t v.
Definition composite_key (l : list (kty * kval)) : bytes :=
  foldl (fun bin '(t, v) => convert_to_key t v bin) [] l.

(** ** The C++ ordering of the values *)

(** Exponent and fraction widths of [float] and [double]. *)
Definition float_exp (size : nat) : Z := if (size =? 4)%nat then 8 else 11.
Definition float_frac (size : nat) : Z := 8 * Z.of_nat size - 1 - float_exp size.

(** The value of an IEEE 754 representation, scaled by a power of two that
    makes every value an integer; infinity is the number that the encoding
    would denote after the largest finite one. *)
Definition float_magnitude (size : nat) (m : Z) : Z :=
  let f := float_frac size in
  let e := m / 2 ^ f in
  if e =? 0 then m mod 2 ^ f else (2 ^ f + m mod 2 ^ f) * 2 ^ (e - 1).
Definition float_value (size : nat) (bits : Z) : Z :=
  let w := 8 * Z.of_nat size in
  let m := bits mod 2 ^ (w - 1) in
  if bits <? 2 ^ (w - 1) then float_magnitude size m else - float_magnitude size m.
Definition float_is_nan (size : nat) (bits : Z) : bool :=
  let m := bits mod 2 ^ (8 * Z.of_nat size - 1) in
  (2 ^ float_exp size - 1) * 2 ^ float_frac size <? m.

(** Lexicographic comparison of two sequences. *)
Fixpoint seq_compare (f : kval -> kval -> comparison) (a b : list kval) : comparison :=
  match a, b with
  | [], [] => Eq
  | [], _ :: _ => Lt
  | _ :: _, [] => Gt
  | x :: a, y :: b => then_compare (f x y) (seq_compare f a b)
  end.

Definition opt_compare (f : kval -> kval -> comparison) (a b : option kval) : comparison :=
  match a, b with
  | None, None => Eq
  | None, Some _ => Lt
  | Some _, None => Gt
  | Some x, Some y => f x y
  end.

Definition bool_compare (a b : bool) : comparison :=
  match a, b with
  | false, true => Lt
  | true, false => Gt
  | _, _ => Eq
  end.

Fixpoint value_compare (t : kty) (a b : kval) {struct t} : comparison :=
  match t, a, b with
  | KBool, VBool a, VBool b => bool_compare a b
  | KInt _ _, VInt a, VInt b | KEnum _ _, VInt a, VInt b | KVarUint32, VInt a, VInt b => a ?= b
  | KFloat n, VFloat a, VFloat b => float_value n a ?= float_value n b
  | KString, VString a, VString b => lex_compare a b
  | KArray _ t, VSeq a, VSeq b => seq_compare (value_compare t) a b
  | KVector t, VSeq a, VSeq b => seq_compare (value_compare t) a b
  | KOptional t, VOpt a, VOpt b => opt_compare (value_compare t) a b
  | KTuple ts, VTuple a, VTuple b =>
      (fix go ts a b :=
         match ts, a, b with
         | t :: ts, x :: a, y :: b => then_compare (value_compare t x y) (go ts a b)
         | _, _, _ => Eq
         end) ts a b
  | KVariant ts, VVariant i x, VVariant j y =>
      then_compare (Z.of_nat i ?= Z.of_nat j)
        ((fix go ts i :=
            match ts, i with
            | t :: _, O => value_compare t x y
            | _ :: ts, S i => go ts i
            | [], _ => Eq
            end) ts i)
  | _, _, _ => Eq
  end.

(** ** Well-formed types and values *)

Fixpoint kty_ok (t : kty) : bool :=
  match t with
  | KInt _ n | KEnum _ n => (1 <=? n)%nat
  | KFloat n => (n =? 4)%nat || (n =? 8)%nat
  | KArray _ t | KVector t | KOptional t => kty_ok t
  | KTuple ts => forallb kty_ok ts
  | KVariant ts => forallb kty_ok ts && (Z.of_nat (length ts) <=? 2 ^ 32)
  | _ => true
  end.

Fixpoint has_type (t : kty) (v : kval) {struct t} : bool :=
  match t, v with
  | KBool, VBool _ => true
  | KInt s n, VInt z | KEnum s n, VInt z => in_range (int_min s n) (int_max s n) z
  | KFloat n, VFloat b => in_range 0 (2 ^ (8 * Z.of_nat n) - 1) b && negb (float_is_nan n b)
  | KString, VString s => forallb (in_range 0 255) s
  | KVarUint32, VInt z => in_range 0 (2 ^ 32 - 1) z
  | KArray n t, VSeq l => (length l =? n)%nat && forallb (has_type t) l
  | KVector t, VSeq l => forallb (has_type t) l
  | KOptional t, VOpt o => match o with Some v => has_type t v | None => true end
  | KTuple ts, VTuple vs =>
      (fix go ts vs :=
         match ts, vs with
         | [], [] => true
         | t :: ts, v :: vs => has_type t v && go ts vs
         | _, _ => false
         end) ts vs
  | KVariant ts, VVariant i v =>
      (fix go ts i :=
         match ts, i with
         | t :: _, O => has_type t v
         | _ :: ts, S i => go ts i
         | [], _ => false
         end) ts i
  | _, _ => false
  end.

(** ** Induction on types *)

Section kty_ind.
Context (P : kty -> Prop)
  (Hbool : P KBool) (Hint : forall s n, P (KInt s n)) (Henum : forall s n, P (KEnum s n))
  (Hfloat : forall n, P (KFloat n)) (Hstring : P KString) (Hvar : P KVarUint32)
  (Harray : forall n t, P t -> P (KArray n t)) (Hvector : forall t, P t -> P (KVector t))
  (Hoptional : forall t, P t -> P (KOptional t))
  (Htuple : forall ts, Forall P ts -> P (KTuple ts))
  (Hvariant : forall ts, Forall P ts -> P (KVariant ts)).

Fixpoint kty_nested_ind (t : kty) : P t :=
  let all := (fix all ts : Forall P ts :=
                match ts with
                | [] => Forall_nil_2 P
                | t :: ts => Forall_cons_2 P t ts (kty_nested_ind t) (all ts)
                end) in
  match t with
  | KBool => Hbool
  | KInt s n => Hint s n
  | KEnum s n => Henum s n
  | KFloat n => Hfloat n
  | KString => Hstring
  | KVarUint32 => Hvar
  | KArray n t => Harray n t (kty_nested_ind t)
  | KVector t => Hvector t (kty_nested_ind t)
  | KOptional t => Hoptional t (kty_nested_ind t)
  | KTuple ts => Htuple ts (all ts)
  | KVariant ts => Hvariant ts (all ts)
  end.
End kty_ind.

(** ** Order-preserving codes

    [enc] is an order-preserving code for [cmp] on the values that satisfy
    [P]: whatever follows two codes is compared only when the values are
    equivalent.  This one statement gives both halves of the header's promise,
    and codes with this property compose by concatenation. *)
Definition order_code {A} (P : A -> Prop) (enc : A -> bytes) (cmp : A -> A -> comparison) : Prop :=
  forall a b s t, P a -> P b ->
    lex_compare (enc a ++ s) (enc b ++ t) = then_compare (cmp a b) (lex_compare s t).

(** *** Fixed-width integers *)

Lemma length_le_bytes n v : length (le_bytes n v) = n.
Proof. revert v. induction n; intros; simpl; auto. Qed.

Lemma le_bytes_ok n x : bytes_ok (le_bytes n x).
Proof.
  revert x. induction n as [|n IH]; intros x; cbn; [constructor|]. constructor; [|done]. unfold is_byte.
  pose proof (Z.mod_pos_bound x 256). lia.
Qed.

Lemma be_compare n x y :
  0 <= x < 256 ^ Z.of_nat n -> 0 <= y < 256 ^ Z.of_nat n ->
  lex_compare (rev (le_bytes n x)) (rev (le_bytes n y)) = (x ?= y).
Proof.
  revert x y. induction n as [|n IH]; intros x y Hx Hy.
  - cbn in *. replace x with y by lia. by rewrite Z.compare_refl.
  - cbn [le_bytes rev]. rewrite Nat2Z.inj_succ, Z.pow_succ_r in * by lia.
    rewrite lex_compare_same_length by (by rewrite !length_rev, !length_le_bytes).
    rewrite IH by (split; [apply Z.div_pos | apply Z.div_lt_upper_bound]; lia).
    cbn [lex_compare].
    pose proof (Z.div_mod x 256 ltac:(lia)). pose proof (Z.div_mod y 256 ltac:(lia)).
    pose proof (Z.mod_pos_bound x 256 ltac:(lia)). pose proof (Z.mod_pos_bound y 256 ltac:(lia)).
    destruct (Z.compare_spec (x / 256) (y / 256)); cbn [then_compare];
      [destruct (Z.compare_spec (x mod 256) (y mod 256))|..]; symmetry;
      rewrite ?Z.compare_eq_iff, ?Z.compare_lt_iff, ?Z.compare_gt_iff; lia.
Qed.

Lemma pow256 n : 256 ^ Z.of_nat n = 2 ^ (8 * Z.of_nat n).
Proof. rewrite Z.pow_mul_r by lia. done. Qed.

(** Big-endian bytes of a fixed width are an order-preserving code. *)
Lemma be_order_code n f (P : Z -> Prop) cmp :
  (forall z, P z -> 0 <= f z < 2 ^ (8 * Z.of_nat n)) ->
  (forall a b, P a -> P b -> (f a ?= f b) = cmp a b) ->
  order_code P (fun z => rev (le_bytes n (f z))) cmp.
Proof.
  intros Hf Hc a b s t Ha Hb.
  rewrite lex_compare_same_length by (by rewrite !length_rev, !length_le_bytes).
  rewrite be_compare by (rewrite pow256; auto). by rewrite Hc.
Qed.

(** The offset representation of [to_key_int] is exact on the type's range. *)
Lemma int_offset s n z :
  (1 <= n)%nat -> in_range (int_min s n) (int_max s n) z = true ->
  let w := 8 * Z.of_nat n in
  wrap w (wrap w z - wrap w (int_min s n)) = z - int_min s n /\ 0 <= z - int_min s n < 2 ^ w.
Proof.
  intros Hn Hz w. unfold in_range in Hz. zbool. unfold wrap at 1 2 3. rewrite <- Zminus_mod.
  assert (2 ^ w = 2 * 2 ^ (w - 1)) by (rewrite <- Z.pow_succ_r by lia; f_equal; lia).
  assert (0 <= z - int_min s n < 2 ^ w) by (unfold int_min, int_max in *; subst w; destruct s; lia).
  rewrite Z.mod_small; lia.
Qed.

Lemma int_order_code s n :
  (1 <= n)%nat ->
  order_code (fun z => in_range (int_min s n) (int_max s n) z = true) (to_key_int s n) Z.compare.
Proof.
  intros Hn. apply be_order_code.
  - intros z Hz. destruct (int_offset s n z Hn Hz) as [-> ?]. done.
  - intros a b Ha Hb. destruct (int_offset s n a Hn Ha) as [-> _].
    destruct (int_offset s n b Hn Hb) as [-> _]. unfold Z.sub. rewrite !(Z.add_comm _ (- _)). apply Z.add_compare_mono_l.
Qed.

Lemma length_to_key_int s n z : length (to_key_int s n z) = n.
Proof. unfold to_key_int. by rewrite length_rev, length_le_bytes. Qed.

(** *** Strings *)

Lemma string_order_code : order_code (Forall (fun c => 0 <= c)) to_key_string lex_compare.
Proof.
  intros a b s t Ha. unfold to_key_string. rewrite <- !app_assoc.
  revert b. induction Ha as [|x a Hx Ha IH]; intros b Hb; destruct Hb as [|y b Hy Hb];
    cbn [to_key_chars lex_compare app]; [done|..].
  - destruct (Z.eqb_spec y 0) as [->|]; [done|]. by rewrite (proj2 (Z.compare_lt_iff 0 y)) by lia.
  - destruct (Z.eqb_spec x 0) as [->|]; [done|]. by rewrite (proj2 (Z.compare_gt_iff x 0)) by lia.
  - destruct (Z.compare_spec x y) as [->|?|?]; [|done..].
    destruct (y =? 0); cbn [app lex_compare]; rewrite <- ?app_assoc; apply IH; done.
Qed.

(** *** The variable length tag *)

(** The code of [obj] is the big-endian form of [obj] plus a marker that
    depends on the length only. *)
Definition varuint32_marker (n : Z) : Z :=
  if n =? 1 then 0 else if n =? 2 then 0x8000 else if n =? 3 then 0xC00000
  else if n =? 4 then 0xE0000000 else 0xF000000000.

Lemma u8_lor a x : 0 <= x < 256 -> u8 (Z.lor a x) = Z.lor (a mod 256) x.
Proof.
  intros. unfold wrap. change 256 with (2 ^ 8) in *. rewrite <- !Z.land_ones by lia.
  rewrite Z.land_lor_distr_l, (Z.land_ones x), Z.mod_small by lia. done.
Qed.

(** The first byte: [h * 2 ^ k] holds the length bits of the mask [m]. *)
Lemma varuint32_first m h k x :
  0 <= k <= 8 -> m mod 256 = h * 2 ^ k -> 0 <= x < 2 ^ k -> u8 (Z.lor m x) = h * 2 ^ k + x.
Proof.
  intros Hk Hm Hx. assert (2 ^ k <= 2 ^ 8) by (apply Z.pow_le_mono_r; lia).
  rewrite u8_lor, Hm, <- Z.shiftl_mul_pow2, lor_shiftl_add, Z.shiftl_mul_pow2 by lia. done.
Qed.

Lemma varuint32_digit obj i : 0 <= i -> Z.land (Z.shiftr obj (i * 8)) 0xFF = (obj / 2 ^ (i * 8)) mod 256.
Proof. intros. rewrite Z.shiftr_div_pow2 by lia. by apply (land_ones_mod _ 8). Qed.

Lemma to_key_varuint32_be obj :
  0 <= obj < 2 ^ 32 ->
  let n := varuint32_num_bytes obj in
  to_key_varuint32 obj = rev (le_bytes (Z.to_nat n) (obj + varuint32_marker n)).
Proof.
  intros Hobj. unfold to_key_varuint32, varuint32_num_bytes.
  change (2 ^ 32) with 4294967296 in Hobj.
  repeat match goal with |- context [obj <? ?c] => destruct (Z.ltb_spec obj c) end; try lia;
    cbn [varuint32_marker Z.eqb Pos.eqb];
    [ rewrite (varuint32_first _ 0 8) | rewrite (varuint32_first _ 2 6) | rewrite (varuint32_first _ 6 5)
    | rewrite (varuint32_first _ 14 4) | rewrite (varuint32_first _ 15 4) ];
    try reflexivity; try lia;
    eval_app Z.to_nat;
    cbn [varuint32_tail le_bytes rev app]; rewrite ?varuint32_digit, ?Z.shiftr_div_pow2 by lia;
    eval_app (Z.pow 2);
    repeat (f_equal; try mlia); try mlia.
Qed.

(** The least value of [n] bytes, and the least first byte of its code. *)
Definition varuint32_least (n : Z) : Z :=
  if n =? 1 then 0 else if n =? 2 then 0x80 else if n =? 3 then 0x4000
  else if n =? 4 then 0x200000 else if n =? 5 then 0x10000000 else 0x100000000.
Definition varuint32_first_least (n : Z) : Z :=
  if n =? 1 then 0 else if n =? 2 then 0x80 else if n =? 3 then 0xC0
  else if n =? 4 then 0xE0 else if n =? 5 then 0xF0 else 0xF1.

Lemma varuint32_class obj :
  0 <= obj < 2 ^ 32 ->
  let n := varuint32_num_bytes obj in
  1 <= n <= 5 /\ varuint32_least n <= obj < varuint32_least (n + 1) /\
  0 <= obj + varuint32_marker n < 2 ^ (8 * n) /\
  exists h tl, to_key_varuint32 obj = h :: tl /\
    varuint32_first_least n <= h < varuint32_first_least (n + 1).
Proof.
  intros Hobj. unfold to_key_varuint32, varuint32_num_bytes.
  change (2 ^ 32) with 4294967296 in Hobj.
  repeat match goal with |- context [obj <? ?c] => destruct (Z.ltb_spec obj c) end; try lia;
    eval_app varuint32_least; eval_app varuint32_marker; eval_app varuint32_first_least;
    eval_app (Z.pow 2);
    (split; [lia|]); (split; [lia|]); (split; [lia|]); do 2 eexists; (split; [reflexivity|]);
    cbn [Z.eqb Pos.eqb];
    [ rewrite (varuint32_first _ 0 8) | rewrite (varuint32_first _ 2 6) | rewrite (varuint32_first _ 6 5)
    | rewrite (varuint32_first _ 14 4) | rewrite (varuint32_first _ 15 4) ];
    try reflexivity; rewrite ?Z.shiftr_div_pow2 by lia; eval_app (Z.pow 2); mlia.
Qed.

Lemma varuint32_first_mono n m :
  1 <= n -> m <= 5 -> n < m ->
  varuint32_first_least (n + 1) <= varuint32_first_least m /\
  varuint32_least (n + 1) <= varuint32_least m.
Proof.
  intros. assert (n = 1 \/ n = 2 \/ n = 3 \/ n = 4) as Hn by lia.
  assert (m = 2 \/ m = 3 \/ m = 4 \/ m = 5) as Hm by lia.
  destruct Hn as [->|[->|[->| ->]]], Hm as [->|[->|[->| ->]]];
    eval_app varuint32_least; eval_app varuint32_first_least; lia.
Qed.

Lemma varuint32_order_code :
  order_code (fun z => in_range 0 (2 ^ 32 - 1) z = true) to_key_varuint32 Z.compare.
Proof.
  intros a b s t Ha Hb. unfold in_range in *. zbool.
  destruct (varuint32_class a ltac:(lia)) as (Hna & Hca & Hba & ha & ta & Ea & Hha).
  destruct (varuint32_class b ltac:(lia)) as (Hnb & Hcb & Hbb & hb & tb & Eb & Hhb).
  destruct (Z.lt_trichotomy (varuint32_num_bytes a) (varuint32_num_bytes b)) as [Hn|[Hn|Hn]].
  - destruct (varuint32_first_mono _ _ (proj1 Hna) (proj2 Hnb) Hn) as [? ?]. rewrite Ea, Eb.
    cbn [app lex_compare]. rewrite (proj2 (Z.compare_lt_iff ha hb)) by lia.
    by rewrite (proj2 (Z.compare_lt_iff a b)) by lia.
  - rewrite !to_key_varuint32_be by lia. rewrite Hn in *.
    rewrite lex_compare_same_length by (by rewrite !length_rev, !length_le_bytes).
    rewrite be_compare by (rewrite pow256, Z2Nat.id by lia; lia).
    rewrite !(Z.add_comm _ (varuint32_marker _)), Z.add_compare_mono_l. done.
  - destruct (varuint32_first_mono _ _ (proj1 Hnb) (proj2 Hna) Hn) as [? ?]. rewrite Ea, Eb.
    cbn [app lex_compare]. rewrite (proj2 (Z.compare_gt_iff ha hb)) by lia.
    by rewrite (proj2 (Z.compare_gt_iff a b)) by lia.
Qed.

(** *** Floating point *)

Lemma float_magnitude_mono size a b :
  0 <= float_frac size -> 0 <= a -> a < b -> float_magnitude size a < float_magnitude size b.
Proof.
  intros Hf Ha Hab. unfold float_magnitude. set (f := float_frac size) in *.
  assert (Hp : 0 < 2 ^ f) by (apply Z.pow_pos_nonneg; lia).
  pose proof (Z.div_mod a (2 ^ f) ltac:(lia)). pose proof (Z.div_mod b (2 ^ f) ltac:(lia)).
  pose proof (Z.mod_pos_bound a (2 ^ f) Hp). pose proof (Z.mod_pos_bound b (2 ^ f) Hp).
  assert (0 <= a / 2 ^ f <= b / 2 ^ f) as [Ha0 Hle] by (split; [apply Z.div_pos | apply Z.div_le_mono]; lia).
  set (ea := a / 2 ^ f) in *. set (eb := b / 2 ^ f) in *.
  destruct (Z.eqb_spec ea 0), (Z.eqb_spec eb 0); [nia | | lia |].
  - assert (1 <= 2 ^ (eb - 1)) by (apply (Z.pow_le_mono_r 2 0); lia). nia.
  - assert (0 < 2 ^ (ea - 1)) by (apply Z.pow_pos_nonneg; lia).
    destruct (Z.eq_dec ea eb) as [->|]; [nia|].
    assert (2 * 2 ^ (ea - 1) <= 2 ^ (eb - 1)).
    { rewrite <- Z.pow_succ_r by lia. apply Z.pow_le_mono_r; lia. }
    nia.
Qed.

Lemma float_magnitude_nonneg size a :
  0 <= float_frac size -> 0 <= a -> 0 <= float_magnitude size a.
Proof.
  intros. unfold float_magnitude. assert (0 < 2 ^ float_frac size) by (apply Z.pow_pos_nonneg; lia).
  pose proof (Z.mod_pos_bound a (2 ^ float_frac size) ltac:(lia)).
  destruct (Z.eqb_spec (a / 2 ^ float_frac size) 0); [lia|].
  apply Z.mul_nonneg_nonneg; [lia | apply Z.pow_nonneg; lia].
Qed.

Lemma float_magnitude_zero size : 0 <= float_frac size -> float_magnitude size 0 = 0.
Proof. intros. unfold float_magnitude. by rewrite Zdiv_0_l, Zmod_0_l. Qed.

Lemma testbit_high x w i : 0 <= x < 2 ^ w -> 0 <= w <= i -> Z.testbit x i = false.
Proof.
  intros Hx Hi. destruct (Z.eq_dec x 0) as [->|]; [apply Z.bits_0|].
  apply Z.bits_above_log2; [lia|]. apply Z.lt_le_trans with w; [apply Z.log2_lt_pow2; lia | lia].
Qed.

Lemma lxor_ones x w : 0 <= w -> 0 <= x < 2 ^ w -> Z.lxor x (2 ^ w - 1) = 2 ^ w - 1 - x.
Proof.
  intros Hw Hx. replace (2 ^ w - 1) with (Z.ones w) by (rewrite Z.ones_equiv; lia).
  rewrite Z.sub_nocarry_ldiff.
  - apply Z.bits_inj'. intros i Hi. rewrite Z.lxor_spec, Z.ldiff_spec.
    destruct (Z_lt_ge_dec i w).
    + rewrite Z.ones_spec_low by lia. by destruct (Z.testbit x i).
    + rewrite Z.ones_spec_high, (testbit_high x w) by lia. done.
  - rewrite Z.ldiff_ones_r, Z.shiftr_div_pow2, Z.div_small by lia. apply Z.shiftl_0_l.
Qed.

Lemma land_signbit x w :
  1 <= w -> 0 <= x < 2 ^ w -> Z.land x (2 ^ (w - 1)) = if x <? 2 ^ (w - 1) then 0 else 2 ^ (w - 1).
Proof.
  intros Hw Hx. assert (2 ^ w = 2 * 2 ^ (w - 1)) by (rewrite <- Z.pow_succ_r by lia; f_equal; lia).
  apply Z.bits_inj'. intros i Hi. rewrite Z.land_spec.
  destruct (Z.eq_dec i (w - 1)) as [->|].
  - rewrite Z.pow2_bits_true by lia. rewrite andb_true_r.
    destruct (Z.ltb_spec x (2 ^ (w - 1))).
    + rewrite Z.bits_0. apply testbit_high with (w - 1); lia.
    + rewrite Z.pow2_bits_true by lia. apply Z.testbit_true; [lia|].
      replace (x / 2 ^ (w - 1)) with 1; [done|]. apply Z.div_unique with (x - 2 ^ (w - 1)); lia.
  - rewrite Z.pow2_bits_false, andb_false_r by lia.
    destruct (x <? 2 ^ (w - 1)); [by rewrite Z.bits_0 | by rewrite Z.pow2_bits_false by lia].
Qed.

(** Positive values get the sign bit, negative values are complemented; minus
    zero is made equal to zero. *)
Lemma float_to_key_spec w bits :
  1 <= w -> 0 <= bits < 2 ^ w ->
  float_to_key w bits =
    if bits <=? 2 ^ (w - 1) then (bits mod 2 ^ (w - 1)) + 2 ^ (w - 1) else 2 ^ w - 1 - bits.
Proof.
  intros Hw Hb. assert (H2 : 2 ^ w = 2 * 2 ^ (w - 1)) by (rewrite <- Z.pow_succ_r by lia; f_equal; lia).
  assert (Hp : 0 < 2 ^ (w - 1)) by (apply Z.pow_pos_nonneg; lia).
  unfold float_to_key. rewrite Z.shiftl_1_l, (wrap_small w (2 ^ (w - 1))) by lia.
  destruct (Z.eqb_spec bits (2 ^ (w - 1))) as [->|Hne].
  - rewrite Z.land_0_l. cbn [Z.eqb negb]. rewrite Z.lor_0_l, Z.lxor_0_l, Z.leb_refl, Z.mod_same by lia. done.
  - rewrite land_signbit by lia. destruct (Z.leb_spec bits (2 ^ (w - 1))).
    + rewrite (proj2 (Z.ltb_lt _ _)) by lia. cbn [Z.eqb negb]. rewrite Z.lor_0_l, Z.mod_small by lia.
      symmetry. apply Z.add_nocarry_lxor. rewrite land_signbit by lia.
      by rewrite (proj2 (Z.ltb_lt _ _)) by lia.
    + rewrite (proj2 (Z.ltb_ge _ _)) by lia. rewrite (proj2 (Z.eqb_neq _ _)) by lia. cbn [negb].
      replace (wrap w (Z.lnot 0)) with (2 ^ w - 1)
        by (unfold wrap; change (Z.lnot 0) with (-1); apply Z.mod_unique with (-1); lia).
      rewrite Z.lor_comm. rewrite <- (lxor_ones bits w) by lia. f_equal.
      replace (2 ^ w - 1) with (Z.ones w) by (rewrite Z.ones_equiv; lia).
      apply Z.bits_inj'. intros i Hi. rewrite Z.lor_spec. destruct (Z_lt_ge_dec i w).
      * by rewrite Z.ones_spec_low, orb_true_r by lia.
      * by rewrite Z.ones_spec_high, Z.pow2_bits_false by lia.
Qed.

(** The sign and magnitude of a value determine both its order and its key. *)
Lemma float_key_cases size x :
  let w := 8 * Z.of_nat size in let h := 2 ^ (w - 1) in
  0 <= float_frac size -> 1 <= w -> 0 <= x < 2 ^ w ->
  exists m, (0 <= m < h /\ float_value size x = float_magnitude size m /\ float_to_key w x = m + h)
    \/ (0 < m < h /\ float_value size x = - float_magnitude size m /\ float_to_key w x = h - 1 - m).
Proof.
  intros w h Hf Hw Hx.
  assert (H2 : 2 ^ w = 2 * h) by (subst h; rewrite <- Z.pow_succ_r by lia; f_equal; lia).
  rewrite float_to_key_spec by lia. unfold float_value. fold w. fold h.
  exists (x mod h). destruct (Z.ltb_spec x h); [|destruct (Z.leb_spec x h)].
  - left. rewrite Z.mod_small, (proj2 (Z.leb_le _ _)) by lia. lia.
  - left. replace x with h by lia. rewrite Z.mod_same by lia. rewrite float_magnitude_zero by lia. lia.
  - right. replace (x mod h) with (x - h) by (apply Z.mod_unique with 1; lia). lia.
Qed.

Lemma float_order_code size :
  (size = 4 \/ size = 8)%nat ->
  order_code (fun b => 0 <= b < 2 ^ (8 * Z.of_nat size))
    (fun b => to_key_int false size (float_to_key (8 * Z.of_nat size) b))
    (fun a b => float_value size a ?= float_value size b).
Proof.
  intros Hs a b s t Ha Hb. set (w := 8 * Z.of_nat size) in *.
  assert (Hf : 0 <= float_frac size) by (destruct Hs as [-> | ->]; vm_compute; congruence).
  assert (Hw : 1 <= w) by lia.
  destruct (float_key_cases size a Hf Hw Ha) as (ma & Ca).
  destruct (float_key_cases size b Hf Hw Hb) as (mb & Cb). fold w in Ca, Cb.
  assert (H2 : 2 ^ w = 2 * 2 ^ (w - 1)) by (rewrite <- Z.pow_succ_r by lia; f_equal; lia).
  rewrite (int_order_code false size) by (try lia; unfold in_range, int_min, int_max; fold w; lia).
  f_equal. pose proof (float_magnitude_zero size Hf).
  pose proof (float_magnitude_mono size 0 ma Hf). pose proof (float_magnitude_mono size 0 mb Hf).
  pose proof (float_magnitude_nonneg size ma Hf). pose proof (float_magnitude_nonneg size mb Hf).
  pose proof (float_magnitude_mono size ma mb Hf). pose proof (float_magnitude_mono size mb ma Hf).
  assert (ma = mb -> float_magnitude size ma = float_magnitude size mb) by congruence.
  destruct Ca as [(? & -> & ->)|(? & -> & ->)], Cb as [(? & -> & ->)|(? & -> & ->)];
    match goal with |- (?x ?= ?y) = _ => destruct (Z.compare_spec x y) end;
    symmetry; rewrite ?Z.compare_eq_iff, ?Z.compare_lt_iff, ?Z.compare_gt_iff; lia.
Qed.

(** *** Optional values and sequences *)

Lemma order_code_ext {A} (P Q : A -> Prop) enc cmp :
  (forall a, P a -> Q a) -> order_code Q enc cmp -> order_code P enc cmp.
Proof. intros H Hc a b s t Ha Hb. apply Hc; auto. Qed.

Section optional.
Context (P : kval -> Prop) (key : kval -> bytes) (cmp : kval -> kval -> comparison)
  (Hkey : order_code P key cmp).

Definition opt_ok (o : option kval) : Prop := match o with Some v => P v | None => True end.

Lemma optional_order_code : order_code opt_ok (to_key_optional false key) (opt_compare cmp).
Proof. intros [a|] [b|] s t Ha Hb; cbn; [by apply Hkey | done..]. Qed.

Lemma optional_single_order_code :
  (forall v, P v -> exists b, key v = [b] /\ 0 <= b) ->
  order_code opt_ok (to_key_optional true key) (opt_compare cmp).
Proof.
  intros H1 [a|] [b|] s t Ha Hb; cbn; [|..|done].
  - destruct (H1 a Ha) as (x & Ex & Hx), (H1 b Hb) as (y & Ey & Hy).
    pose proof (Hkey a b [] [] Ha Hb) as E. rewrite Ex, Ey in *. cbn in E |- *.
    destruct (Z.compare_spec x y) as [->|?|?], (cmp a b); try done; cbn.
    destruct (y =? 0); [by cbn | done].
  - destruct (H1 a Ha) as (x & -> & Hx). destruct x; [done | done | lia].
  - destruct (H1 b Hb) as (y & -> & Hy). destruct y; [done | done | lia].
Qed.

Lemma range_order_code single :
  order_code opt_ok (to_key_optional single key) (opt_compare cmp) ->
  order_code (Forall P) (to_key_range single key) (seq_compare cmp).
Proof.
  intros Ho a b s t Ha. unfold to_key_range. rewrite <- !app_assoc.
  revert b. induction Ha as [|x a Hx Ha IH]; intros b Hb; destruct Hb as [|y b Hy Hb];
    cbn [map concat]; rewrite <- ?app_assoc, ?app_nil_l; rewrite Ho by done; cbn [opt_compare then_compare seq_compare];
    [done..|]. by rewrite IH, then_compare_assoc.
Qed.

Lemma array_order_code n :
  order_code (fun l => length l = n /\ Forall P l) (to_key_array key) (seq_compare cmp).
Proof.
  intros a b s t [<- Ha] [Hn Hb]. unfold to_key_array. revert b Hn Hb.
  induction Ha as [|x a Hx Ha IH]; intros [|y b] Hn Hb; try done.
  apply Forall_cons in Hb as [Hy Hb]. injection Hn as Hn. cbn [map concat seq_compare].
  rewrite <- !app_assoc, Hkey, then_compare_assoc by done. by rewrite IH.
Qed.
End optional.

Lemma one_byte_key t v :
  one_byte t = true -> has_type t v = true -> exists b, to_key t v = [b] /\ 0 <= b.
Proof.
  assert (Hint : forall s z, exists b, to_key_int s 1 z = [b] /\ 0 <= b).
  { intros s z. eexists. split; [reflexivity|]. apply Z.mod_pos_bound. lia. }
  destruct t as [|s [|[|]]|s [|[|]]| | | | | | | |], v; try done; intros _ _; try apply Hint.
  destruct b; eexists; (split; [reflexivity | lia]).
Qed.

Lemma optional_key_order_code t :
  order_code (fun v => has_type t v = true) (to_key t) (value_compare t) ->
  order_code (opt_ok (fun v => has_type t v = true)) (to_key_optional (one_byte t) (to_key t))
    (opt_compare (value_compare t)).
Proof.
  intros H. destruct (one_byte t) eqn:E.
  - apply optional_single_order_code; [done|]. intros v. by apply one_byte_key.
  - by apply optional_order_code.
Qed.

(** ** The promise of the header *)

Lemma forallb_Forall_true {A} (f : A -> bool) l : forallb f l = true <-> Forall (fun x => f x = true) l.
Proof.
  induction l; cbn; [done|]. by rewrite andb_true_iff, Forall_cons, IHl.
Qed.

(** Values of the right shape, for the constructors that carry one. *)
Ltac shape v := destruct v; cbn [has_type] in *; try discriminate.

Lemma variant_index ts i v :
  has_type (KVariant ts) (VVariant i v) = true -> Z.of_nat i < Z.of_nat (length ts).
Proof.
  cbn. revert i. induction ts as [|t ts IH]; [done|]. cbn [length].
  intros [|i] H; [lia|]. apply IH in H. lia.
Qed.

Lemma to_key_order_code t :
  kty_ok t = true -> order_code (fun v => has_type t v = true) (to_key t) (value_compare t).
Proof.
  induction t as [|sg n|sg n|n| | |n t IH|t IH|t IH|ts IH|ts IH] using kty_nested_ind; cbn [kty_ok]; intros Hk a b s t' Ha Hb;
    shape a; shape b; cbn [to_key value_compare].
  - by destruct b0, b.
  - zbool. by apply int_order_code.
  - zbool. by apply int_order_code.
  - unfold in_range in *. zbool. apply (float_order_code n); [|lia..].
    destruct Hk as [?|?]; zbool; auto.
  - apply string_order_code; (eapply Forall_impl; [by apply forallb_Forall_true|]);
      unfold in_range; intros; zbool; lia.
  - by apply varuint32_order_code.
  - zbool. apply (array_order_code (fun v => has_type t v = true) (to_key t) (value_compare t) (IH Hk) n);
      (split; [done | by apply forallb_Forall_true]).
  - apply (range_order_code (fun v => has_type t v = true)); try by apply forallb_Forall_true.
    apply optional_key_order_code. auto.
  - apply (optional_key_order_code t (IH Hk)); [by destruct o | by destruct o0].
  - revert l l0 Hk Ha Hb. induction IH as [|t ts IHt _ IHts]; intros [|x l] [|y l0] Hk Ha Hb; try done.
    cbn [forallb to_key_tuple] in *. zbool. rewrite <- !app_assoc. rewrite IHt by done.
    rewrite then_compare_assoc. f_equal. by apply IHts.
  - apply andb_true_iff in Hk as [Hk Hlen]. zbool.
    pose proof (variant_index _ _ _ Ha). pose proof (variant_index _ _ _ Hb).
    unfold to_key_variant. rewrite <- !app_assoc, then_compare_assoc. rewrite !wrap_small by lia.
    rewrite varuint32_order_code by (unfold in_range; lia).
    destruct (Z.compare_spec (Z.of_nat index) (Z.of_nat index0)) as [Heq|?|?]; [|done..].
    apply Nat2Z.inj in Heq as <-. cbn [then_compare].
    clear Hlen. revert index Hk Ha Hb H H0.
    induction IH as [|t ts IHt _ IHts]; intros [|i] Hk Ha Hb H H0; try done; cbn [forallb] in Hk; zbool.
    + by apply IHt.
    + cbn [length] in *. apply IHts; auto; lia.
Qed.

(** Keys compare like values. *)
Theorem to_key_order t a b :
  kty_ok t = true -> has_type t a = true -> has_type t b = true ->
  lex_compare (to_key t a) (to_key t b) = value_compare t a b.
Proof.
  intros Hk Ha Hb. pose proof (to_key_order_code t Hk a b [] [] Ha Hb) as E.
  rewrite !app_nil_r in E. rewrite E. by destruct (value_compare t a b).
Qed.

(** No key is a proper prefix of another: when one key is an initial segment of
    another the values are equivalent and nothing follows. *)
Theorem to_key_prefix_free t a b rest :
  kty_ok t = true -> has_type t a = true -> has_type t b = true ->
  to_key t b = to_key t a ++ rest -> value_compare t a b = Eq /\ rest = [].
Proof.
  intros Hk Ha Hb E. pose proof (to_key_order_code t Hk a b rest [] Ha Hb) as H.
  rewrite E, app_nil_r, lex_compare_refl in H.
  destruct (value_compare t a b); cbn in H; [|done..]. split; [done|].
  by apply lex_compare_eq.
Qed.

Definition example_type : kty := KTuple [KInt true 4; KVector (KInt false 1); KOptional (KFloat 8)].
Definition example_a : kval := VTuple [VInt (-1); VSeq [VInt 0; VInt 7]; VOpt None].
Definition example_b : kval := VTuple [VInt (-1); VSeq [VInt 0; VInt 7; VInt 0]; VOpt (Some (VFloat 0))].

Lemma to_key_order_witness :
  kty_ok example_type = true /\ has_type example_type example_a = true /\
  has_type example_type example_b = true /\
  lex_compare (to_key example_type example_a) (to_key example_type example_b)
    = value_compare example_type example_a example_b.
Proof.
  split; [vm_compute; reflexivity|]. split; [vm_compute; reflexivity|]. split; [vm_compute; reflexivity|].
  apply (to_key_order example_type example_a example_b); vm_compute; reflexivity.
Defined.

Lemma to_key_prefix_free_witness :
  to_key KString (VString [0]) = to_key KString (VString [0]) ++ [] /\
  (value_compare KString (VString [0]) (VString [0]) = Eq /\ @nil Z = []).
Proof.
  split; [vm_compute; reflexivity|].
  apply (to_key_prefix_free KString (VString [0]) (VString [0]) []); vm_compute; reflexivity.
Defined.

(** A composite key is the key of the tuple of its parts. *)
Theorem composite_key_tuple l :
  composite_key l = to_key (KTuple (map fst l)) (VTuple (map snd l)).
Proof.
  unfold composite_key. change (to_key (KTuple (map fst l)) (VTuple (map snd l)))
    with ([] ++ to_key (KTuple (map fst l)) (VTuple (map snd l))).
  generalize (@nil Z). induction l as [|[t v] l IH]; intros acc; cbn [foldl map fst snd].
  - cbn. by rewrite app_nil_r.
  - rewrite IH. unfold convert_to_key. by rewrite <- app_assoc.
Qed.
