(* ===== verification/Fracpack.v ===== *)
(** * psio: fracpack

    Source: libraries/psio/include/psio/fracpack.hpp, and the streams of
    stream.hpp that it writes to.  fracpack is the binary format of blocks,
    transactions, actions and rows.

    [is_packable<T>] is a class of static members; here it is a record of
    operations ([packable]), and every specialization is a function that makes
    such a record.  [fty] has the types that the templates cover, and
    [is_packable] puts the records together the way the templates are
    instantiated.

    [unpack] works on references: it changes the positions and the flags also when
    it fails, and the members after the one that failed are still read.  So an
    operation returns its result, the value, and the new positions and flags; a
    read outside of the data is undefined behaviour, [None].  Positions are
    [uint32_t]. *)

From S2P Require Import Prelude ToKey.

#[local] Open Scope Z_scope.
#[local] Set Warnings "-register-all".

(** ** Values *)

(** A value of a type that is copied with [memcpy] is its bytes. *)
Inductive fval :=
  | v_memcpy (bs : bytes)
  | v_bool (b : bool)
  | v_bytes (bs : bytes)
  | v_list (vs : list fval)
  | v_opt (v : option fval)
  | v_fields (vs : list fval)
  | v_variant (i : nat) (v : fval).

(** What an object is before it is unpacked. *)
Definition v_none : fval := v_opt None.

(** ** Streams *)

(** [vector_stream]: [written] is the length. *)
Definition write (bs : bytes) (s : bytes) : bytes := s ++ bs.
Definition rewrite_raw (offset : Z) (bs : bytes) (s : bytes) : bytes :=
  take (Z.to_nat offset) s ++ bs ++ drop (Z.to_nat offset + length bs) s.
Definition written (s : bytes) : Z := u32 (Z.of_nat (length s)).

(** ** Reading *)

(** [memcpy(value, src + pos, n)] *)
Definition read (src : bytes) (pos : Z) (n : nat) : option bytes :=
  if (0 <=? pos) && (pos + Z.of_nat n <=? Z.of_nat (length src)) then Some (take n (drop (Z.to_nat pos) src)) else None.

Fixpoint of_le (bs : bytes) : Z := match bs with [] => 0 | b :: bs => b + 256 * of_le bs end.

(** The template arguments [Unpack] and [Verify]. *)
Record mode := { Unpack : bool; Verify : bool }.

(** The references of [unpack]: [has_unknown], [known_end], [pos]. *)
Record cursor := { has_unknown : bool; known_end : bool; pos : Z }.
(** The references of [embedded_unpack]: [has_unknown], [known_pos], [fixed_pos], [heap_pos]. *)
Record ecursor := { e_unknown : bool; known_pos : bool; fixed_pos : Z; heap_pos : Z }.

(** ** The members of [is_packable<T>] *)

Record packable := {
  fixed_size : Z;
  is_variable_size : bool;
  is_optional : bool;
  supports_0_offset : bool;
  has_value : fval -> bool;
  has_value_at : bool -> bytes -> Z -> Z -> option bool;
  pack : fval -> bytes -> bytes;
  is_empty_container : fval -> bool;
  embedded_fixed_pack : fval -> bytes -> bytes;
  embedded_fixed_repack : fval -> Z -> Z -> bytes -> bytes;
  embedded_variable_pack : fval -> bytes -> bytes;
  unpack : mode -> bytes -> cursor -> Z -> option (bool * fval * cursor);
  embedded_variable_unpack : mode -> bytes -> ecursor -> Z -> Z -> option (bool * fval * ecursor);
  embedded_unpack : mode -> bytes -> ecursor -> Z -> Z -> option (bool * fval * ecursor)
}.

(** [unpack_numeric<Verify>] of a number of [n] bytes: whether it succeeded, the number, the position. *)
Definition unpack_numeric (verify : bool) (n : nat) (src : bytes) (p end_pos : Z) : option (bool * Z * Z) :=
  if verify && (u32 (end_pos - p) <? Z.of_nat n) then Some (false, 0, p)
  else bs ← read src p n; Some (true, of_le bs, u32 (p + Z.of_nat n)).

Definition u32_bytes (x : Z) : bytes := le_bytes 4 (u32 x).

(** ** [base_packable_impl] *)

Section base.
Context (t_fixed_size : Z) (t_variable t_zero : bool) (t_pack : fval -> bytes -> bytes) (t_empty : fval -> bool) (t_empty_at : bytes -> Z ->
  Z -> option bool) (t_cleared : fval)
  (t_unpack : mode -> bytes -> cursor -> Z -> option (bool * fval * cursor)).

Definition base_fixed_pack (value : fval) (stream : bytes) : bytes :=
  if t_variable then write (u32_bytes 0) stream else t_pack value stream.
Definition base_fixed_repack (value : fval) (fixed_pos heap_pos : Z) (stream : bytes) : bytes :=
  if t_variable && negb (t_empty value) then rewrite_raw fixed_pos (u32_bytes (heap_pos - fixed_pos)) stream else stream.
Definition base_variable_pack (value : fval) (stream : bytes) : bytes :=
  if t_variable && negb (t_empty value) then t_pack value stream else stream.

Definition base_variable_unpack (m : mode) (src : bytes) (e : ecursor) (end_fixed_pos end_heap_pos : Z) : option (bool * fval * ecursor) :=
  let orig_pos := fixed_pos e in
  '(ok, offset, fixed_pos') ← unpack_numeric (Verify m) 4 src (fixed_pos e) end_fixed_pos;
  if negb ok then Some (false, v_none, e)
  else if t_zero && (offset =? 0) then
    Some (true, t_cleared, {| e_unknown := e_unknown e; known_pos := Verify m || known_pos e; fixed_pos := fixed_pos';
      heap_pos := heap_pos e |})
  else
    let new_heap_pos := u32 (orig_pos + offset) in
    let failed :=
      Some (false, v_none, {| e_unknown := e_unknown e; known_pos := known_pos e; fixed_pos := fixed_pos'; heap_pos := heap_pos e |}) in
    if Verify m && ((offset <? 4) || (new_heap_pos <? heap_pos e) || (end_heap_pos <? new_heap_pos)) then failed
    else if Verify m && (negb (new_heap_pos =? heap_pos e) && known_pos e) then failed
    else
      empty ← (if Verify m && t_zero then t_empty_at src new_heap_pos end_heap_pos else Some false);
      if (empty : bool) then failed
      else
        '(ok, v, c) ← t_unpack m src {| has_unknown := e_unknown e; known_end := known_pos e; pos := new_heap_pos |} end_heap_pos;
        Some (ok, v, {| e_unknown := has_unknown c; known_pos := known_end c; fixed_pos := fixed_pos'; heap_pos := pos c |}).

Definition base_embedded_unpack (m : mode) (src : bytes) (e : ecursor) (end_fixed_pos end_heap_pos : Z) : option (bool * fval * ecursor) :=
  if t_variable then base_variable_unpack m src e end_fixed_pos end_heap_pos
  else
    '(ok, v, c) ← t_unpack m src {| has_unknown := e_unknown e; known_end := known_pos e; pos := fixed_pos e |} end_fixed_pos;
    Some (ok, v, {| e_unknown := has_unknown c; known_pos := known_end c; fixed_pos := pos c; heap_pos := heap_pos e |}).

Definition base_packable_impl : packable :=
  {| fixed_size := t_fixed_size; is_variable_size := t_variable; is_optional := false; supports_0_offset := t_zero;
     has_value := fun _ => true; has_value_at := fun _ _ _ _ => Some true;
     pack := t_pack; is_empty_container := t_empty;
     embedded_fixed_pack := base_fixed_pack; embedded_fixed_repack := base_fixed_repack; embedded_variable_pack := base_variable_pack;
     unpack := t_unpack; embedded_variable_unpack := base_variable_unpack; embedded_unpack := base_embedded_unpack |}.
End base.

Definition never_empty (_ : fval) : bool := false.
Definition never_empty_at (_ : bytes) (_ _ : Z) : option bool := Some false.

(** ** [is_packable<PackableMemcpy>], [is_packable<bool>] *)

Definition val_bytes (v : fval) : bytes := match v with v_memcpy bs | v_bytes bs => bs | _ => [] end.

Definition memcpy_unpack (n : nat) (m : mode) (src : bytes) (c : cursor) (end_pos : Z) : option (bool * fval * cursor) :=
  if Verify m && (u32 (end_pos - pos c) <? Z.of_nat n) then
    Some (false, v_none, {| has_unknown := has_unknown c; known_end := true; pos := pos c |})
  else
    v ← (if Unpack m then bs ← read src (pos c) n; Some (v_memcpy bs) else Some v_none);
    Some (true, v, {| has_unknown := has_unknown c; known_end := Verify m || known_end c; pos := u32 (pos c + Z.of_nat n) |}).
Definition memcpy_packable (n : nat) : packable :=
  base_packable_impl (Z.of_nat n) false false (fun v s => write (val_bytes v) s) never_empty never_empty_at v_none (memcpy_unpack n).

Definition bool_unpack (m : mode) (src : bytes) (c : cursor) (end_pos : Z) : option (bool * fval * cursor) :=
  let failed := Some (false, v_none, {| has_unknown := has_unknown c; known_end := true; pos := pos c |}) in
  let go b :=
    Some (true, if Unpack m then v_bool (negb (b =? 0)) else v_none, {| has_unknown := has_unknown c; known_end := Verify m || known_end c;
    pos := u32 (pos c + 1) |}) in
  if Verify m then
    if u32 (end_pos - pos c) <? 1 then failed
    else bs ← read src (pos c) 1; if 1 <? of_le bs then failed else go (of_le bs)
  else if Unpack m then bs ← read src (pos c) 1; go (of_le bs)
  else go 0.
Definition bool_packable : packable :=
  base_packable_impl 1 false false (fun v s => write (match v with v_bool true => [1] | _ => [0] end) s) never_empty never_empty_at v_none
  bool_unpack.

(** ** [packable_container_memcpy_impl] *)

(** [is_empty_container] of the data: the position is a copy. *)
Definition container_empty_at (src : bytes) (p end_pos : Z) : option bool :=
  '(ok, size, _) ← unpack_numeric true 4 src p end_pos; Some (ok && (size =? 0)).

Definition bytes_unpack (n : nat) (m : mode) (src : bytes) (c : cursor) (end_pos : Z) : option (bool * fval * cursor) :=
  '(ok, fixed_size, p) ← unpack_numeric (Verify m) 4 src (pos c) end_pos;
  if negb ok then Some (false, v_none, c)
  else
    let new_pos := u32 (p + fixed_size) in
    let known := Verify m || known_end c in
    if Verify m && (negb (fixed_size mod Z.of_nat n =? 0) || (new_pos <? p) || (end_pos <? new_pos)) then
      Some (false, v_none, {| has_unknown := has_unknown c; known_end := known; pos := p |})
    else
      let size := fixed_size / Z.of_nat n in
      v ← (if Unpack m then (if size =? 0 then Some (v_bytes []) else bs ← read src p (Z.to_nat fixed_size);
        Some (v_bytes bs)) else Some v_none);
      Some (true, v, {| has_unknown := has_unknown c; known_end := known; pos := new_pos |}).
Definition bytes_packable (n : nat) : packable :=
  base_packable_impl 4 true true (fun v s => write (val_bytes v) (write (u32_bytes (Z.of_nat (length (val_bytes v)))) s)) (fun v => match
    val_bytes v with [] => true | _ => false end) container_empty_at (v_bytes []) (bytes_unpack n).

(** ** [packable_container_impl], for a vector of a type that is not copied with [memcpy] *)

Definition val_list (v : fval) : list fval := match v with v_list vs | v_fields vs => vs | _ => [] end.

Definition fixed_pack_all (p : packable) (vs : list fval) (stream : bytes) : bytes :=
  foldl (fun s v => embedded_fixed_pack p v s) stream vs.
Fixpoint variable_pack_all (p : packable) (step fixed_pos : Z) (vs : list fval) (stream : bytes) : bytes :=
  match vs with
  | [] => stream
  | v :: vs =>
      let stream := embedded_fixed_repack p v fixed_pos (written stream) stream in
      let stream := embedded_variable_pack p v stream in
      variable_pack_all p step (u32 (fixed_pos + step)) vs stream
  end.

(** The loops of [unpack_items], of [unpack] and of arrays: they end at the first failure. *)
Fixpoint unpack_items (p : packable) (n : nat) (m : mode) (src : bytes) (e : ecursor) (end_fixed_pos end_pos : Z) :
  option (bool * list fval * ecursor) :=
  match n with
  | O => Some (true, [], e)
  | S n =>
      '(ok, v, e) ← embedded_unpack p m src e end_fixed_pos end_pos;
      if (ok : bool) then
        '(ok, vs, e) ← unpack_items p n m src e end_fixed_pos end_pos;
        Some (ok, v :: vs, e)
      else Some (false, [], e)
  end.

(** The steps of [fixed_pos] are of [is_packable<T>::fixed_size], which is 4, for the container [T].
    The size is divided by the fixed size of an element, so that an element of size 0 is undefined. *)
Definition vector_pack (p : packable) (value : fval) (stream : bytes) : bytes :=
  let vs := val_list value in
  let num_bytes := u32 (Z.of_nat (length vs) * fixed_size p) in
  let stream := write (u32_bytes num_bytes) stream in
  let fixed_pos := written stream in
  variable_pack_all p 4 fixed_pos vs (fixed_pack_all p vs stream).
Definition vector_unpack (p : packable) (m : mode) (src : bytes) (c : cursor) (end_pos : Z) : option (bool * fval * cursor) :=
  '(ok, size_bytes, ps) ← unpack_numeric (Verify m) 4 src (pos c) end_pos;
  if negb ok then Some (false, v_none, c)
  else if fixed_size p =? 0 then None
  else
    let size := size_bytes / fixed_size p in
    let heap := u32 (ps + size_bytes) in
    let known := Verify m || known_end c in
    if Verify m && (negb (size_bytes mod fixed_size p =? 0) || (heap <? ps) || (end_pos <? heap)) then
      Some (false, v_none, {| has_unknown := has_unknown c; known_end := known; pos := ps |})
    else
      '(ok, vs, e) ← unpack_items p (Z.to_nat size) m src {| e_unknown := has_unknown c; known_pos := known; fixed_pos := ps;
        heap_pos := heap |} heap end_pos;
      Some (ok, v_list vs, {| has_unknown := e_unknown e; known_end := known_pos e; pos := if (ok : bool) then heap_pos e else ps |}).
Definition vector_packable (p : packable) : packable :=
  base_packable_impl 4 true true (vector_pack p) (fun v => match val_list v with [] => true | _ => false end) container_empty_at (v_list [])
    (vector_unpack p).

(** ** [is_packable<std::array<T, N>>], for a type that is not copied with [memcpy] *)

Definition array_pack (p : packable) (value : fval) (stream : bytes) : bytes :=
  let vs := val_list value in
  let fixed_pos := written stream in
  variable_pack_all p (fixed_size p) fixed_pos vs (fixed_pack_all p vs stream).
Definition array_unpack (p : packable) (n : nat) (m : mode) (src : bytes) (c : cursor) (end_pos : Z) : option (bool * fval * cursor) :=
  let heap := u32 (pos c + fixed_size p * Z.of_nat n) in
  let known := Verify m || known_end c in
  if Verify m && ((heap <? pos c) || (end_pos <? heap)) then
    Some (false, v_none, {| has_unknown := has_unknown c; known_end := known; pos := pos c |})
  else
    '(ok, vs, e) ← unpack_items p n m src {| e_unknown := has_unknown c; known_pos := known; fixed_pos := pos c;
      heap_pos := heap |} heap end_pos;
    Some (ok, v_list vs, {| has_unknown := e_unknown e; known_end := known_pos e; pos := if (ok : bool) then heap_pos e else pos c |}).
Definition array_packable (p : packable) (n : nat) : packable :=
  base_packable_impl (if is_variable_size p then 4 else fixed_size p * Z.of_nat n) (is_variable_size p) false (array_pack p) never_empty
    never_empty_at v_none (array_unpack p n).

(** ** [is_packable<std::optional<T>>] *)

Section optional.
Context (p : packable).

Definition opt_value (v : fval) : option fval := match v with v_opt o => o | _ => None end.
Definition opt_has_value (v : fval) : bool := match opt_value v with Some _ => true | None => false end.
(** The offset is that of the value itself. *)
Definition transparent : bool := negb (is_optional p) && is_variable_size p.

Definition opt_has_value_at (verify : bool) (src : bytes) (ps end_pos : Z) : option bool :=
  '(ok, offset, _) ← unpack_numeric verify 4 src ps end_pos; Some ((ok : bool) && negb (offset =? 1)).
Definition opt_fixed_pack (value : fval) (stream : bytes) : bytes :=
  match opt_value value with
  | Some v => if transparent then embedded_fixed_pack p v stream else write (u32_bytes 1) stream
  | None => write (u32_bytes 1) stream
  end.
Definition opt_fixed_repack (value : fval) (fixed_pos heap_pos : Z) (stream : bytes) : bytes :=
  match opt_value value with
  | Some v => if transparent then embedded_fixed_repack p v fixed_pos heap_pos stream else
    rewrite_raw fixed_pos (u32_bytes (heap_pos - fixed_pos)) stream
  | None => stream
  end.
Definition opt_variable_pack (value : fval) (stream : bytes) : bytes :=
  match opt_value value with
  | Some v => if is_empty_container p v then stream else pack p v stream
  | None => stream
  end.
Definition opt_pack (value : fval) (stream : bytes) : bytes :=
  let fixed_pos := written stream in
  let stream := opt_fixed_pack value stream in
  let heap_pos := written stream in
  opt_variable_pack value (opt_fixed_repack value fixed_pos heap_pos stream).

Definition opt_embedded_unpack (m : mode) (src : bytes) (e : ecursor) (end_fixed_pos end_heap_pos : Z) : option (bool * fval * ecursor) :=
  '(ok, offset, fixed_pos') ← unpack_numeric (Verify m) 4 src (fixed_pos e) end_fixed_pos;
  if negb ok then Some (false, v_none, e)
  else if offset =? 1 then Some (true, v_none, {| e_unknown := e_unknown e; known_pos := known_pos e; fixed_pos := fixed_pos';
    heap_pos := heap_pos e |})
  else
    '(ok, v, e) ← embedded_variable_unpack p m src e end_fixed_pos end_heap_pos;
    Some (ok, v_opt (Some v), e).
Definition opt_unpack (m : mode) (src : bytes) (c : cursor) (end_pos : Z) : option (bool * fval * cursor) :=
  if Verify m && (u32 (end_pos - pos c) <? 4) then Some (false, v_none, {| has_unknown := has_unknown c; known_end := true; pos := pos c |})
  else
    let pos' := u32 (pos c + 4) in
    '(ok, v, e) ← opt_embedded_unpack m src {| e_unknown := has_unknown c; known_pos := Verify m || known_end c; fixed_pos := pos c;
      heap_pos := pos' |} pos' end_pos;
    Some (ok, v, {| has_unknown := e_unknown e; known_end := known_pos e; pos := heap_pos e |}).
Definition optional_packable : packable :=
  {| fixed_size := 4; is_variable_size := true; is_optional := true; supports_0_offset := false;
     has_value := opt_has_value; has_value_at := opt_has_value_at;
     pack := opt_pack; is_empty_container := never_empty;
     embedded_fixed_pack := opt_fixed_pack; embedded_fixed_repack := opt_fixed_repack; embedded_variable_pack := opt_variable_pack;
     unpack := opt_unpack; embedded_variable_unpack := base_variable_unpack false never_empty_at v_none opt_unpack; embedded_unpack :=
       opt_embedded_unpack |}.
End optional.

(** ** Members of tuples and of reflected classes *)

(** [verify_extensions]: the members that the reader does not know have offsets. *)
Fixpoint extensions_loop (turns : nat) (src : bytes) (known last_has_value : bool) (fixed heap end_heap : Z) : option (bool * bool * Z) :=
  match turns with
  | O => Some (true, last_has_value, heap)
  | S turns =>
      '(_, offset, fixed') ← unpack_numeric false 4 src fixed 0;
      let last := negb (offset =? 1) in
      if 2 <=? offset then
        if (offset <? 4) || (known && negb (u32 (offset + fixed) =? heap)) || (u32 (end_heap - fixed) <? offset) ||
          (offset <? u32 (heap - fixed)) then Some (false, last, heap)
        else extensions_loop turns src false last fixed' (u32 (fixed + offset)) end_heap
      else extensions_loop turns src known last fixed' heap end_heap
  end.
Definition verify_extensions (src : bytes) (known last_has_value : bool) (fixed end_fixed heap end_heap : Z) : option (bool * bool * Z) :=
  let size := u32 (end_fixed - fixed) in
  if negb (size mod 4 =? 0) then Some (false, last_has_value, heap) else
    extensions_loop (Z.to_nat (size / 4)) src known last_has_value fixed heap end_heap.

(** [num_present_fn]: the members up to the last that is not an empty optional. *)
Fixpoint num_present_fn (fixed_definition : bool) (i present : nat) (ps : list packable) (vs : list fval) : nat :=
  match ps, vs with
  | p :: ps, v :: vs => num_present_fn fixed_definition (S i) (if fixed_definition || negb (is_optional p) || has_value p v then S i else
    present) ps vs
  | _, _ => present
  end.
(** [fixed_size_fn]: a [uint16_t]. *)
Definition fixed_size_fn (num_present : nat) (ps : list packable) : Z :=
  foldl (fun n p => wrap 16 (n + fixed_size p)) 0 (take num_present ps).
Fixpoint fixed_pack_fields (ps : list packable) (vs : list fval) (stream : bytes) : bytes :=
  match ps, vs with
  | p :: ps, v :: vs => fixed_pack_fields ps vs (embedded_fixed_pack p v stream)
  | _, _ => stream
  end.
Fixpoint variable_pack_fields (ps : list packable) (vs : list fval) (fixed_pos : Z) (stream : bytes) : bytes :=
  match ps, vs with
  | p :: ps, v :: vs =>
      let stream := embedded_fixed_repack p v fixed_pos (written stream) stream in
      let stream := embedded_variable_pack p v stream in
      variable_pack_fields ps vs (u32 (fixed_pos + fixed_size p)) stream
  | _, _ => stream
  end.
Definition pack_fields (fixed_definition : bool) (ps : list packable) (value : fval) (stream : bytes) : bytes :=
  let vs := val_list value in
  let num_present := num_present_fn fixed_definition 0 0 ps vs in
  let size := fixed_size_fn num_present ps in
  let stream := if fixed_definition then stream else write (le_bytes 2 size) stream in
  let fixed_pos := written stream in
  variable_pack_fields (take num_present ps) (take num_present vs) fixed_pos (fixed_pack_fields (take num_present ps) (take num_present vs)
    stream).

(** The members, one after the other: [ok &= ...] goes on after a failure.  A tuple
    that is unpacked looks at the value for [last_has_value] ([late]), otherwise
    the data is looked at before. *)
Fixpoint unpack_fields (late fixed_definition : bool) (ps : list packable) (m : mode) (src : bytes) (ok last : bool) (e : ecursor)
  (end_fixed_pos end_pos : Z) : option (bool * bool * list fval * ecursor) :=
  match ps with
  | [] => Some (ok, last, [], e)
  | p :: ps =>
      if (fixed_pos e <? end_fixed_pos) || negb (is_optional p) then
        last ← (if Verify m then
                  if is_optional p && negb fixed_definition && negb late then
                    has_value_at p (Verify m) src (fixed_pos e) end_fixed_pos else Some true
                else Some last);
        '(ok', v, e) ← embedded_unpack p m src e end_fixed_pos end_pos;
        let last := if Verify m && is_optional p && late then has_value p v else last in
        '(ok, last, vs, e) ← unpack_fields late fixed_definition ps m src (ok && ok') last e end_fixed_pos end_pos;
        Some (ok, last, v :: vs, e)
      else
        '(ok, last, vs, e) ← unpack_fields late fixed_definition ps m src ok last e end_fixed_pos end_pos;
        Some (ok, last, v_none :: vs, e)
  end.
(** What follows the size of the fixed part, in [unpack] of tuples and of classes. *)
Definition unpack_members (late fixed_definition : bool) (ps : list packable) (m : mode) (src : bytes) (c : cursor) (start : Z) (heap
  end_pos : Z) : option (bool * fval * cursor) :=
  '(ok, last, vs, e) ← unpack_fields late fixed_definition ps m src true true {| e_unknown := has_unknown c; known_pos := known_end c;
    fixed_pos := start; heap_pos := heap |} heap end_pos;
  let result ok unknown known ps := Some (ok, v_fields vs, {| has_unknown := unknown; known_end := known; pos := ps |}) in
  if negb ok then result false (e_unknown e) (known_pos e) start
  else if Verify m then
    if fixed_pos e <? heap then
      '(ok, last, heap') ← verify_extensions src (known_pos e) last (fixed_pos e) heap (heap_pos e) end_pos;
      if negb ok then result false (e_unknown e) (known_pos e) start
      else if negb last then result false true false start
      else result true true false heap'
    else if negb last then result false (e_unknown e) (known_pos e) start
    else result true (e_unknown e) (known_pos e) (heap_pos e)
  else result true (e_unknown e) (known_pos e) (heap_pos e).

(** ** [is_packable<std::tuple<Ts...>>] *)

Definition tuple_unpack (ps : list packable) (m : mode) (src : bytes) (c : cursor) (end_pos : Z) : option (bool * fval * cursor) :=
  '(ok, size, start) ← unpack_numeric (Verify m) 2 src (pos c) end_pos;
  if negb ok then Some (false, v_none, c)
  else
    let heap := u32 (start + size) in
    let c := {| has_unknown := has_unknown c; known_end := Verify m || known_end c; pos := start |} in
    if Verify m && ((heap <? start) || (end_pos <? heap)) then Some (false, v_none, c)
    else unpack_members (Unpack m) false ps m src c start heap end_pos.
Definition tuple_packable (ps : list packable) : packable :=
  base_packable_impl 4 true false (pack_fields false ps) never_empty never_empty_at v_none (tuple_unpack ps).

(** ** [is_packable_reflected<T, true>] *)

Definition members_fixed_size (ps : list packable) : Z := foldr (fun p n => fixed_size p + n) 0 ps.
Definition get_is_var_size (fixed_definition : bool) (ps : list packable) : bool := negb fixed_definition || existsb is_variable_size ps.

Fixpoint pack_all (ps : list packable) (vs : list fval) (stream : bytes) : bytes :=
  match ps, vs with
  | p :: ps, v :: vs => pack_all ps vs (pack p v stream)
  | _, _ => stream
  end.
Fixpoint unpack_all (ps : list packable) (m : mode) (src : bytes) (ok : bool) (c : cursor) (end_pos : Z) :
  option (bool * list fval * cursor) :=
  match ps with
  | [] => Some (ok, [], c)
  | p :: ps =>
      '(ok', v, c) ← unpack p m src c end_pos;
      '(ok, vs, c) ← unpack_all ps m src (ok && ok') c end_pos;
      Some (ok, v :: vs, c)
  end.
Definition struct_pack (fixed_definition : bool) (ps : list packable) (value : fval) (stream : bytes) : bytes :=
  if get_is_var_size fixed_definition ps then pack_fields fixed_definition ps value stream else pack_all ps (val_list value) stream.
Definition struct_unpack (fixed_definition : bool) (ps : list packable) (m : mode) (src : bytes) (c : cursor) (end_pos : Z) :
  option (bool * fval * cursor) :=
  if get_is_var_size fixed_definition ps then
    '(ok, size, start) ← (if fixed_definition then Some (true, members_fixed_size ps, pos c) else unpack_numeric (Verify m) 2 src (pos c)
      end_pos);
    if negb ok then Some (false, v_none, c)
    else
      let heap := u32 (start + size) in
      if Verify m && ((heap <? start) || (end_pos <? heap)) then
        Some (false, v_none, {| has_unknown := has_unknown c; known_end := known_end c; pos := start |})
      else unpack_members false fixed_definition ps m src {| has_unknown := has_unknown c; known_end := Verify m || known_end c;
        pos := start |} start heap end_pos
  else
    '(ok, vs, c) ← unpack_all ps m src true {| has_unknown := has_unknown c; known_end := Verify m || known_end c; pos := pos c |} end_pos;
    Some (ok, v_fields vs, c).
Definition struct_packable (fixed_definition : bool) (ps : list packable) : packable :=
  base_packable_impl (if get_is_var_size fixed_definition ps then 4 else members_fixed_size ps) (get_is_var_size fixed_definition ps) false
    (struct_pack fixed_definition ps) never_empty never_empty_at v_none (struct_unpack fixed_definition ps).

(** ** [is_packable<std::variant<Ts...>>] *)

Definition variant_parts (v : fval) : nat * fval := match v with v_variant i v => (i, v) | v => (0%nat, v) end.

Definition variant_pack (ps : list packable) (value : fval) (stream : bytes) : bytes :=
  let '(index, v) := variant_parts value in
  let stream := write (le_bytes 1 (u8 (Z.of_nat index))) stream in
  let size_pos := written stream in
  let stream := write (u32_bytes 0) stream in
  let content_pos := written stream in
  let stream := match ps !! index with Some p => pack p v stream | None => stream end in
  rewrite_raw size_pos (u32_bytes (written stream - content_pos)) stream.
(** [unpack_variant_impl] *)
Definition unpack_variant_impl (ps : list packable) (tag : Z) (m : mode) (src : bytes) (c : cursor) (end_pos : Z) :
  option (bool * fval * cursor) :=
  match ps !! Z.to_nat tag with
  | Some p => '(ok, v, c) ← unpack p m src c end_pos; Some (ok, v_variant (Z.to_nat tag) v, c)
  | None => Some (false, v_none, c)
  end.
Definition variant_unpack (ps : list packable) (m : mode) (src : bytes) (c : cursor) (end_pos : Z) : option (bool * fval * cursor) :=
  '(ok, tag, p1) ← unpack_numeric (Verify m) 1 src (pos c) end_pos;
  if negb ok then Some (false, v_none, c)
  else if Verify m && negb (Z.land tag 0x80 =? 0) then Some (false, v_none, {| has_unknown := has_unknown c; known_end := known_end c;
    pos := p1 |})
  else
    '(ok, size, content_pos) ← unpack_numeric (Verify m) 4 src p1 end_pos;
    if negb ok then Some (false, v_none, {| has_unknown := has_unknown c; known_end := known_end c; pos := p1 |})
    else
      let content_end := u32 (content_pos + size) in
      if Verify m && ((content_end <? content_pos) || (end_pos <? content_end)) then
        Some (false, v_none, {| has_unknown := has_unknown c; known_end := known_end c; pos := content_pos |})
      else
        '(ok, v, inner) ← unpack_variant_impl ps tag m src {| has_unknown := has_unknown c; known_end := false;
          pos := content_pos |} content_end;
        let result ok known ps := Some (ok, v, {| has_unknown := has_unknown inner; known_end := known; pos := ps |}) in
        if negb ok then result false (known_end c) content_pos
        else if Verify m && (known_end inner && negb (pos inner =? content_end)) then result false true content_pos
        else result true (Verify m || known_end c) content_end.
Definition variant_packable (ps : list packable) : packable :=
  base_packable_impl 4 true false (variant_pack ps) never_empty never_empty_at v_none (variant_unpack ps).

(** ** [is_packable<T>] *)

(** The types that the theorems are about.  Associative containers ([std::map],
    [std::set]) and wrappers with a validation of their own are not among them. *)
Inductive fty :=
  | t_memcpy (n : nat)
  | t_bool
  | t_bytes (n : nat)
  | t_vector (t : fty)
  | t_array (t : fty) (n : nat)
  | t_optional (t : fty)
  | t_tuple (ts : list fty)
  | t_struct (definitionWillNotChange : bool) (ts : list fty)
  | t_variant (ts : list fty).

Fixpoint is_packable (t : fty) : packable :=
  match t with
  | t_memcpy n => memcpy_packable n
  | t_bool => bool_packable
  | t_bytes n => bytes_packable n
  | t_vector t => vector_packable (is_packable t)
  | t_array t n => array_packable (is_packable t) n
  | t_optional t => optional_packable (is_packable t)
  | t_tuple ts => tuple_packable (map is_packable ts)
  | t_struct d ts => struct_packable d (map is_packable ts)
  | t_variant ts => variant_packable (map is_packable ts)
  end.

(** ** [to_frac], [fracpack_validate], [from_frac] *)

Definition to_frac (t : fty) (v : fval) : bytes := pack (is_packable t) v [].

Inductive validation_t := invalid | valid | extended.
(** [known_end] is not initialized. *)
Definition unpack_all_of (t : fty) (m : mode) (data : bytes) (garbage : bool) : option (bool * fval * cursor) :=
  unpack (is_packable t) m data {| has_unknown := false; known_end := garbage; pos := 0 |} (u32 (Z.of_nat (length data))).
Definition fracpack_validate (t : fty) (data : bytes) (garbage : bool) : option validation_t :=
  '(ok, _, c) ← unpack_all_of t {| Unpack := false; Verify := true |} data garbage;
  Some (if negb ok then invalid
        else if known_end c && negb (pos c =? Z.of_nat (length data)) then invalid
        else if has_unknown c then extended else valid).
Definition from_frac (strict : bool) (t : fty) (data : bytes) (garbage : bool) : option (option fval) :=
  '(ok, v, c) ← unpack_all_of t {| Unpack := true; Verify := true |} data garbage;
  Some (if negb ok then None
        else if strict && has_unknown c then None
        else if known_end c && negb (pos c =? Z.of_nat (length data)) then None
        else Some v).
(** [from_frac] of data that was validated before. *)
Definition from_frac_prevalidated (t : fty) (data : bytes) (garbage : bool) : option fval :=
  '(_, v, _) ← unpack_all_of t {| Unpack := true; Verify := false |} data garbage; Some v.
