(* ===== verification/FracpackSafe.v ===== *)
(** * fracpack: verified data is read within its bounds

    Whatever the data is, [unpack<Unpack, true>] reads only bytes of the data: no
    step is undefined, and every position stays between the one it started from
    and the end.  [has_unknown] is never reset. *)

From S2P Require Import Prelude ToKey Fracpack.

#[local] Open Scope Z_scope.

(** ** Numbers *)

(** The data is bytes, and its size is a [uint32_t]. *)
Definition data_ok (src : bytes) : Prop := bytes_ok src /\ Z.of_nat (length src) < 2 ^ 32.
Definition within (src : bytes) (p e : Z) : Prop := 0 <= p <= e /\ e <= Z.of_nat (length src).

Lemma u32_small x : 0 <= x < 2 ^ 32 -> u32 x = x.
Proof. apply wrap_small. Qed.
Lemma u32_range x : 0 <= u32 x < 2 ^ 32.
Proof. by apply wrap_range. Qed.

Lemma of_le_range bs : bytes_ok bs -> 0 <= of_le bs < 256 ^ Z.of_nat (length bs).
Proof. induction 1 as [|b bs Hb Hbs IH]; [done|]. cbn [of_le length]. rewrite Nat2Z.inj_succ, Z.pow_succ_r by lia.
unfold is_byte in Hb. lia. Qed.

(** The bytes that a read returns. *)
Definition at_pos (src : bytes) (p : Z) (n : nat) : bytes := take n (drop (Z.to_nat p) src).

Lemma at_pos_ok src p n : bytes_ok src -> bytes_ok (at_pos src p n).
Proof. intros. by apply Forall_take, Forall_drop. Qed.
Lemma length_at_pos src p n : 0 <= p -> p + Z.of_nat n <= Z.of_nat (length src) -> length (at_pos src p n) = n.
Proof. intros. unfold at_pos. rewrite length_take, length_drop. lia. Qed.
Lemma read_ok src p n : 0 <= p -> p + Z.of_nat n <= Z.of_nat (length src) -> read src p n = Some (at_pos src p n).
Proof. intros H1 H2. unfold read. rewrite (proj2 (Z.leb_le _ _)), (proj2 (Z.leb_le _ _)) by lia. done. Qed.
Lemma number_range src p n : data_ok src -> 0 <= p -> p + Z.of_nat n <= Z.of_nat (length src) ->
  0 <= of_le (at_pos src p n) < 256 ^ Z.of_nat n.
Proof. intros [Hs _] H1 H2. rewrite <- (length_at_pos src p n H1 H2) at 3. by apply of_le_range, at_pos_ok. Qed.

(** A verified read either fails, or moves by the size of the number. *)
Lemma unpack_numeric_verified n src p end_pos : data_ok src -> within src p end_pos ->
  unpack_numeric true n src p end_pos =
    (if end_pos - p <? Z.of_nat n then Some (false, 0, p) else Some (true, of_le (at_pos src p n), p + Z.of_nat n)).
Proof.
  unfold data_ok, within. intros Hs Hp. unfold unpack_numeric. rewrite u32_small by lia. cbn [andb].
  destruct (end_pos - p <? Z.of_nat n) eqn:E; [done|]. zbool.
  rewrite read_ok by lia. cbn. rewrite u32_small by lia. done.
Qed.

(** A sum that does not pass the end did not overflow. *)
Lemma u32_sum p x e : 0 <= p <= e -> e < 2 ^ 32 -> 0 <= x < 2 ^ 32 -> p <= u32 (p + x) <= e -> u32 (p + x) = p + x.
Proof. intros Hp He Hx H. destruct (Z_lt_dec (p + x) (2 ^ 32)); [by apply u32_small; lia|].
assert (Hw : u32 (p + x) = p + x - 2 ^ 32); [|lia]. unfold wrap. symmetry. apply (Z.mod_unique _ _ 1); lia. Qed.

(** ** What a step leaves, whether it succeeded or not *)

Definition unpack_safe (u : mode -> bytes -> cursor -> Z -> option (bool * fval * cursor)) : Prop :=
  forall m src c end_pos, Verify m = true -> data_ok src -> within src (pos c) end_pos ->
  exists ok v c', u m src c end_pos = Some (ok, v, c') /\ pos c <= pos c' <= end_pos /\ (has_unknown c = true -> has_unknown c' = true).
Definition embedded_safe (u : mode -> bytes -> ecursor -> Z -> Z -> option (bool * fval * ecursor)) : Prop :=
  forall m src e end_fixed end_heap, Verify m = true -> data_ok src -> within src (fixed_pos e) end_fixed ->
    within src (heap_pos e) end_heap ->
  exists ok v e', u m src e end_fixed end_heap = Some (ok, v, e') /\ fixed_pos e <= fixed_pos e' <= end_fixed /\
    heap_pos e <= heap_pos e' <= end_heap /\ (e_unknown e = true -> e_unknown e' = true).
Definition look_safe (f : bytes -> Z -> Z -> option bool) : Prop :=
  forall src p end_pos, data_ok src -> within src p end_pos -> exists b, f src p end_pos = Some b.

Record safe (p : packable) : Prop := {
  safe_unpack : unpack_safe (unpack p);
  safe_variable : embedded_safe (embedded_variable_unpack p);
  safe_embedded : embedded_safe (embedded_unpack p);
  safe_has_value : look_safe (has_value_at p true)
}.

Ltac safe_done :=
  cbn in *; unfold within in *; eexists _, _, _; split; [done|]; cbn [pos has_unknown fixed_pos heap_pos e_unknown]; repeat split; try done;
  lia.

(** ** The base class *)

Lemma base_variable_safe zero empty_at cleared u : look_safe empty_at -> unpack_safe u ->
  embedded_safe (base_variable_unpack zero empty_at cleared u).
Proof.
  intros He Hu m src e ef eh Hm Hs Hf Hh. unfold base_variable_unpack. rewrite Hm, unpack_numeric_verified by done.
  destruct (ef - fixed_pos e <? Z.of_nat 4) eqn:En; zbool; [safe_done|]. cbn [mbind option_bind negb orb andb].
  destruct (zero && (_ =? 0)); [safe_done|]. set (off := of_le _). set (nh := u32 (fixed_pos e + off)).
  destruct ((off <? 4) || (nh <? heap_pos e) || (eh <? nh)) eqn:E1; [safe_done|].
  destruct (negb (nh =? heap_pos e) && known_pos e); [safe_done|].
  zbool. assert (Hnh : within src nh eh) by (unfold within in *; pose proof (u32_range (fixed_pos e + off)); lia).
  assert (exists b, (if zero then empty_at src nh eh else Some false) = Some b) as [b ->] by (destruct zero;
    [by apply He|by eexists]). cbn [mbind option_bind]. destruct b; [safe_done|].
  destruct (Hu m src {| has_unknown := e_unknown e; known_end := known_pos e;
    pos := nh |} eh Hm Hs Hnh) as (ok & v & c' & -> & Hp & Hk). safe_done.
Qed.
Lemma base_safe fs var zero pk emp empty_at cleared u : look_safe empty_at -> unpack_safe u ->
  safe (base_packable_impl fs var zero pk emp empty_at cleared u).
Proof.
  intros He Hu. constructor; cbn.
  - done.
  - by apply base_variable_safe.
  - intros m src e ef eh Hm Hs Hf Hh. unfold base_embedded_unpack.
    destruct var; [by apply (base_variable_safe zero empty_at cleared u He Hu)|].
    destruct (Hu m src {| has_unknown := e_unknown e; known_end := known_pos e;
      pos := fixed_pos e |} ef Hm Hs Hf) as (ok & v & c' & -> & Hp & Hk). safe_done.
  - by eexists.
Qed.
Lemma never_safe : look_safe never_empty_at.
Proof. by eexists. Qed.
Lemma container_empty_safe : look_safe container_empty_at.
Proof. intros src p end_pos Hs Hp. unfold container_empty_at. rewrite unpack_numeric_verified by done.
destruct (_ <? _); cbn; by eexists. Qed.

(** ** Bytes and numbers *)

Lemma memcpy_safe n : unpack_safe (memcpy_unpack n).
Proof.
  intros m src c ep Hm Hs Hp. unfold memcpy_unpack. rewrite Hm. cbn [andb]. unfold data_ok, within in *.
  rewrite u32_small by lia. destruct (ep - pos c <? Z.of_nat n) eqn:E; zbool; [safe_done|].
  rewrite (u32_small (pos c + _)) by lia. rewrite read_ok by lia. destruct (Unpack m); safe_done.
Qed.
Lemma bool_safe : unpack_safe bool_unpack.
Proof.
  intros m src c ep Hm Hs Hp. unfold bool_unpack. rewrite Hm. cbn [andb]. unfold data_ok, within in *.
  rewrite (u32_small (ep - pos c)) by lia. destruct (ep - pos c <? 1) eqn:E; zbool; [safe_done|].
  rewrite (u32_small (pos c + 1)), read_ok by lia. cbn [mbind option_bind]. destruct (1 <? of_le _); safe_done.
Qed.
Lemma bytes_safe n : unpack_safe (bytes_unpack n).
Proof.
  intros m src c ep Hm Hs Hp. unfold bytes_unpack. rewrite Hm, unpack_numeric_verified by done.
  destruct (ep - pos c <? Z.of_nat 4) eqn:E; zbool; [safe_done|]. cbn [mbind option_bind negb orb andb].
  pose proof (number_range src (pos c) 4 Hs ltac:(unfold within in Hp; lia) ltac:(unfold within in Hp; lia)) as Hx.
  set (x := of_le _) in *. set (np := u32 (_ + x)).
  destruct (negb (x mod Z.of_nat n =? 0) || (np <? pos c + Z.of_nat 4) || (ep <? np)) eqn:E1; [safe_done|]. zbool.
  assert (Hnp : np = pos c + Z.of_nat 4 + x) by (apply (u32_sum _ _ ep); unfold within, data_ok in *; lia).
  destruct (Unpack m); [|safe_done]. destruct (_ =? 0); [safe_done|]. rewrite read_ok by (unfold within in *; lia). safe_done.
Qed.

(** ** Vectors and arrays *)

Lemma unpack_items_safe p n m src e ef eh : safe p -> Verify m = true -> data_ok src -> within src (fixed_pos e) ef ->
  within src (heap_pos e) eh ->
  exists ok vs e', unpack_items p n m src e ef eh = Some (ok, vs, e') /\ heap_pos e <= heap_pos e' <= eh /\
    (e_unknown e = true -> e_unknown e' = true).
Proof.
  intros Hp Hm Hs. revert e. induction n as [|n IH]; intros e Hf Hh; [safe_done|]. cbn [unpack_items].
  destruct (safe_embedded p Hp m src e ef eh Hm Hs Hf Hh) as (ok & v & e1 & -> & Hf1 & Hh1 & Hk1). cbn [mbind option_bind].
  destruct ok; [|safe_done].
  destruct (IH e1 ltac:(unfold within in *; lia) ltac:(unfold within in *; lia)) as (ok & vs & e2 & -> & Hh2 & Hk2). cbn.
  eexists _, _, _. split; [done|]. split; [lia|auto].
Qed.

Lemma vector_safe p : safe p -> 0 < fixed_size p -> unpack_safe (vector_unpack p).
Proof.
  intros Hp Hz m src c ep Hm Hs Hc. unfold vector_unpack. rewrite Hm, unpack_numeric_verified by done.
  destruct (ep - pos c <? Z.of_nat 4) eqn:E; zbool; [safe_done|]. cbn [mbind option_bind negb orb andb].
  rewrite (proj2 (Z.eqb_neq _ _)) by lia. set (x := of_le _). set (np := u32 (_ + x)).
  destruct (negb (x mod fixed_size p =? 0) || (np <? pos c + Z.of_nat 4) || (ep <? np)) eqn:E1; [safe_done|]. zbool.
  destruct (unpack_items_safe p (Z.to_nat (x / fixed_size p)) m src {| e_unknown := has_unknown c; known_pos := true;
    fixed_pos := pos c + Z.of_nat 4; heap_pos := np |} np ep Hp Hm Hs) as (ok & vs & e & -> & Hh & Hk);
    [unfold within in *; cbn; lia..|]. cbn in *. eexists _, _, _. split; [done|]. cbn.
    split; [unfold within in *; destruct ok; lia|done].
Qed.

Lemma array_safe p n : safe p -> unpack_safe (array_unpack p n).
Proof.
  intros Hp m src c ep Hm Hs Hc. unfold array_unpack. rewrite Hm. cbn [mbind option_bind negb orb andb].
  set (np := u32 _). destruct ((np <? pos c) || (ep <? np)) eqn:E1; [safe_done|]. zbool.
  destruct (unpack_items_safe p n m src {| e_unknown := has_unknown c; known_pos := true; fixed_pos := pos c;
    heap_pos := np |} np ep Hp Hm Hs) as (ok & vs & e & -> & Hh & Hk);
    [unfold within in *; cbn; lia..|]. cbn in *. eexists _, _, _. split; [done|]. cbn.
    split; [unfold within in *; destruct ok; lia|done].
Qed.

(** ** Optional *)

Lemma opt_embedded_safe p : safe p -> embedded_safe (opt_embedded_unpack p).
Proof.
  intros Hp m src e ef eh Hm Hs Hf Hh. unfold opt_embedded_unpack. rewrite Hm, unpack_numeric_verified by done.
  destruct (ef - fixed_pos e <? Z.of_nat 4) eqn:En; zbool; [safe_done|]. cbn [mbind option_bind negb].
  destruct (_ =? 1); [safe_done|]. destruct (safe_variable p Hp m src e ef eh Hm Hs Hf Hh) as (ok & v & e1 & -> & Hf1 & Hh1 &
    Hk1). safe_done.
Qed.
Lemma opt_safe p : safe p -> safe (optional_packable p).
Proof.
  intros Hp. assert (Hu : unpack_safe (opt_unpack p)).
  { intros m src c ep Hm Hs Hc. unfold opt_unpack. rewrite Hm. cbn [andb orb]. unfold data_ok, within in *.
    rewrite (u32_small (ep - pos c)) by lia. destruct (ep - pos c <? 4) eqn:E; zbool; [safe_done|]. rewrite u32_small by lia.
    destruct (opt_embedded_safe p Hp m src {| e_unknown := has_unknown c; known_pos := true; fixed_pos := pos c;
      heap_pos := pos c + 4 |} (pos c + 4) ep Hm Hs) as (ok & v & e & -> & Hf & Hh & Hk);
      [unfold within; cbn; lia..|]. safe_done. }
  constructor; cbn; [done|by apply base_variable_safe; [apply never_safe|]|by apply opt_embedded_safe|].
  intros src q ep Hs Hq. unfold opt_has_value_at. rewrite unpack_numeric_verified by done. destruct (_ <? _); cbn; by eexists.
Qed.

(** ** Members *)

Lemma extensions_safe turns src known last fixed heap end_heap : data_ok src -> 0 <= fixed ->
  fixed + 4 * Z.of_nat turns <= heap -> within src heap end_heap ->
  exists ok last' heap', extensions_loop turns src known last fixed heap end_heap = Some (ok, last', heap') /\
    heap <= heap' <= end_heap.
Proof.
  intros Hs. revert known last fixed heap. induction turns as [|n IH]; intros known last fixed heap Hf Hfh Hh; [eexists _, _, _;
    unfold within in *; split; [done|lia]|]. cbn [extensions_loop].
  unfold unpack_numeric. cbn [andb]. unfold within in *. rewrite read_ok by lia. cbn [mbind option_bind].
  destruct Hs as [Hb Hs]. rewrite !(u32_small (fixed + Z.of_nat 4)), (u32_small (end_heap - fixed)), (u32_small (heap - fixed))
    by lia. destruct (2 <=? _) eqn:E2.
  - destruct ((_ <? 4) || _ || (end_heap - fixed <? _) || (_ <? heap - fixed)) eqn:E; [eexists _, _, _; split; [done|lia]|].
    zbool. rewrite u32_small by lia.
    destruct (IH false (negb (of_le (at_pos src fixed 4) =? 1)) (fixed + Z.of_nat 4) (fixed + of_le (at_pos src fixed 4))) as
      (ok & l & h & Heq & Hl); [lia..|]. exists ok, l, h. split; [exact Heq|lia].
  - destruct (IH known (negb (of_le (at_pos src fixed 4) =? 1)) (fixed + Z.of_nat 4) heap) as (ok & l & h & Heq & Hl); [lia..|].
    exists ok, l, h. split; [exact Heq|lia].
Qed.

Lemma unpack_fields_safe late fd ps m src : Verify m = true -> data_ok src -> Forall safe ps ->
  forall ok last e ef eh, within src (fixed_pos e) ef -> within src (heap_pos e) eh ->
  exists ok' last' vs e', unpack_fields late fd ps m src ok last e ef eh = Some (ok', last', vs, e') /\
    fixed_pos e <= fixed_pos e' <= ef /\ heap_pos e <= heap_pos e' <= eh /\ (e_unknown e = true -> e_unknown e' = true).
Proof.
  intros Hm Hs. induction 1 as [|p ps Hp _ IH]; intros ok last e ef eh Hf Hh; cbn [unpack_fields].
  { eexists _, _, _, _. split; [done|]. unfold within in *. split; [lia|]. split; [lia|done]. }
  rewrite Hm. cbn [andb]. destruct ((fixed_pos e <? ef) || negb (is_optional p)).
  - assert (exists l, (if is_optional p && negb fd && negb late then has_value_at p true src (fixed_pos e) ef else Some true) =
      Some l) as [l ->].
    { destruct (_ && _ && _); [by apply (safe_has_value p Hp)|by eexists]. }
    cbn [mbind option_bind]. destruct (safe_embedded p Hp m src e ef eh Hm Hs Hf Hh) as (ok1 & v & e1 & -> & Hf1 & Hh1 & Hk1).
    cbn [mbind option_bind].
    destruct (IH (ok && ok1) (if is_optional p && late then has_value p v else l) e1 ef eh) as (ok2 & l2 & vs & e2 & -> & Hf2 &
      Hh2 & Hk2); [unfold within in *; lia..|]. cbn.
    eexists _, _, _, _. split; [done|]. split; [lia|]. split; [lia|auto].
  - destruct (IH ok last e ef eh Hf Hh) as (ok2 & l2 & vs & e2 & -> & Hr). cbn. by eexists _, _, _, _.
Qed.

Lemma unpack_members_safe late fd ps m src c start heap ep : Verify m = true -> data_ok src -> Forall safe ps ->
  within src start heap -> within src heap ep ->
  exists ok v c', unpack_members late fd ps m src c start heap ep = Some (ok, v, c') /\ start <= pos c' <= ep /\
    (has_unknown c = true -> has_unknown c' = true).
Proof.
  intros Hm Hs Hps Hst Hhe. unfold unpack_members.
  destruct (unpack_fields_safe late fd ps m src Hm Hs Hps true true {| e_unknown := has_unknown c; known_pos := known_end c;
    fixed_pos := start; heap_pos := heap |} heap ep Hst Hhe) as (ok & last & vs & e & -> & Hf & Hh & Hk).
  cbn in Hf, Hh, Hk. rewrite Hm. cbn [mbind option_bind]. destruct ok; cbn [negb]; [|safe_done].
  destruct (fixed_pos e <? heap) eqn:E; zbool.
  - unfold verify_extensions. unfold data_ok, within in *. rewrite u32_small by lia.
    destruct (_ mod 4 =? 0) eqn:E4; cbn [negb]; zbool.
    + pose proof (Z.div_mod (heap - fixed_pos e) 4 ltac:(lia)).
      pose proof (Z.div_pos (heap - fixed_pos e) 4 ltac:(lia) ltac:(lia)).
      destruct (extensions_safe (Z.to_nat ((heap - fixed_pos e) / 4)) src (known_pos e) last (fixed_pos e) (heap_pos e) ep) as
        (ok & l & h & -> & Hh'); [unfold within; try done; lia..|]. cbn [mbind option_bind].
      destruct ok; cbn [negb]; [|safe_done]. destruct l; safe_done.
    + cbn. safe_done.
  - destruct last; cbn [negb]; safe_done.
Qed.

Lemma tuple_safe ps : Forall safe ps -> unpack_safe (tuple_unpack ps).
Proof.
  intros Hps m src c ep Hm Hs Hc. unfold tuple_unpack. rewrite Hm, unpack_numeric_verified by done.
  destruct (ep - pos c <? Z.of_nat 2) eqn:E; zbool; [safe_done|]. cbn [mbind option_bind negb orb andb].
  set (x := of_le _). set (np := u32 (_ + x)). destruct ((np <? pos c + Z.of_nat 2) || (ep <? np)) eqn:E1; [safe_done|]. zbool.
  destruct (unpack_members_safe (Unpack m) false ps m src {| has_unknown := has_unknown c; known_end := true;
    pos := pos c + Z.of_nat 2 |} (pos c + Z.of_nat 2) np ep Hm Hs Hps) as (ok & v & c' & -> & Hp & Hk); [unfold within in *;
    cbn; lia..|]. safe_done.
Qed.

Lemma unpack_all_safe ps m src : Verify m = true -> data_ok src -> Forall safe ps -> forall ok c ep, within src (pos c) ep ->
  exists ok' vs c', unpack_all ps m src ok c ep = Some (ok', vs, c') /\ pos c <= pos c' <= ep /\
    (has_unknown c = true -> has_unknown c' = true).
Proof.
  intros Hm Hs. induction 1 as [|p ps Hp _ IH]; intros ok c ep Hc; cbn [unpack_all]; [safe_done|].
  destruct (safe_unpack p Hp m src c ep Hm Hs Hc) as (ok1 & v & c1 & -> & Hp1 & Hk1). cbn [mbind option_bind].
  destruct (IH (ok && ok1) c1 ep) as (ok2 & vs & c2 & -> & Hp2 & Hk2); [unfold within in *; lia|]. cbn. eexists _, _, _.
  split; [done|]. split; [lia|auto].
Qed.

Lemma struct_safe fd ps : Forall safe ps -> unpack_safe (struct_unpack fd ps).
Proof.
  intros Hps m src c ep Hm Hs Hc. unfold struct_unpack. rewrite Hm. destruct (get_is_var_size fd ps).
  - assert (Hn : exists ok size start, (if fd then Some (true, members_fixed_size ps, pos c) else unpack_numeric true 2 src (pos
      c) ep) = Some (ok, size, start) /\ pos c <= start <= ep).
    { destruct fd; [eexists _, _, _; unfold within in *; split; [done|lia]|]. rewrite unpack_numeric_verified by done.
      destruct (_ <? _) eqn:E; zbool; eexists _, _, _; (split; [done|]); unfold within in *; lia. }
    destruct Hn as (ok & x & start & -> & Hst). cbn [mbind option_bind orb andb]. destruct ok; cbn [negb]; [|safe_done].
    set (np := u32 _). destruct ((np <? start) || (ep <? np)) eqn:E1; [safe_done|]. zbool.
    destruct (unpack_members_safe false fd ps m src {| has_unknown := has_unknown c; known_end := true;
      pos := start |} start np ep Hm Hs Hps) as (ok & v & c' & -> & Hp & Hk); [unfold within in *; cbn; lia..|]. safe_done.
  - destruct (unpack_all_safe ps m src Hm Hs Hps true {| has_unknown := has_unknown c; known_end := true;
      pos := pos c |} ep Hc) as (ok & vs & c' & Heq & Hp & Hk). cbn [orb]. rewrite Heq. safe_done.
Qed.

(** ** Variants *)

Lemma variant_safe ps : Forall safe ps -> unpack_safe (variant_unpack ps).
Proof.
  intros Hps m src c ep Hm Hs Hc. unfold variant_unpack. rewrite Hm, unpack_numeric_verified by done.
  destruct (ep - pos c <? Z.of_nat 1) eqn:E; zbool; [safe_done|]. cbn [mbind option_bind negb orb andb].
  set (tag := of_le _). destruct (negb (Z.land tag 0x80 =? 0)); [safe_done|].
  rewrite unpack_numeric_verified by (unfold within in *; try done; lia).
  destruct (_ <? Z.of_nat 4) eqn:E2; zbool; [safe_done|]. cbn [mbind option_bind negb].
  set (x := of_le (at_pos _ _ 4)). set (np := u32 (_ + x)).
  destruct ((np <? pos c + Z.of_nat 1 + Z.of_nat 4) || (ep <? np)) eqn:E3; [safe_done|]. zbool.
  unfold unpack_variant_impl. destruct (ps !! Z.to_nat tag) as [p|] eqn:Ep; cbn [mbind option_bind negb]; [|safe_done].
  destruct (safe_unpack p (proj1 (Forall_lookup _ _) Hps _ _ Ep) m src {| has_unknown := has_unknown c; known_end := false;
    pos := pos c + Z.of_nat 1 + Z.of_nat 4 |} np Hm Hs ltac:(unfold within in *; cbn; lia)) as (ok & v & c' & -> & Hp & Hk).
  cbn in Hp, Hk. cbn [mbind option_bind]. destruct ok; cbn [negb]; [|safe_done]. destruct (known_end c' && _); safe_done.
Qed.

(** ** All types *)

(** A type is made of types. *)
Section fty_rect.
Context (P : fty -> Prop) (Hmemcpy : forall n, P (t_memcpy n)) (Hbool : P t_bool) (Hbytes : forall n, P (t_bytes n)) (Hvector : forall t, P
  t -> P (t_vector t)) (Harray : forall t n, P t -> P (t_array t n))
  (Hoptional : forall t, P t -> P (t_optional t)) (Htuple : forall ts, Forall P ts -> P (t_tuple ts)) (Hstruct : forall d ts, Forall P ts ->
    P (t_struct d ts)) (Hvariant : forall ts, Forall P ts -> P (t_variant ts)).

Fixpoint fty_nested_ind (t : fty) : P t :=
  let all := fix all ts : Forall P ts :=
    match ts with [] => Forall_nil_2 P | t :: ts => Forall_cons_2 P t ts (fty_nested_ind t) (all ts) end in
  match t with
  | t_memcpy n => Hmemcpy n
  | t_bool => Hbool
  | t_bytes n => Hbytes n
  | t_vector t => Hvector t (fty_nested_ind t)
  | t_array t n => Harray t n (fty_nested_ind t)
  | t_optional t => Hoptional t (fty_nested_ind t)
  | t_tuple ts => Htuple ts (all ts)
  | t_struct d ts => Hstruct d ts (all ts)
  | t_variant ts => Hvariant ts (all ts)
  end.
End fty_rect.

(** No vector has elements of size 0. *)
Fixpoint vectors_ok (t : fty) : bool :=
  match t with
  | t_memcpy _ | t_bool | t_bytes _ => true
  | t_vector t => (0 <? fixed_size (is_packable t)) && vectors_ok t
  | t_array t _ | t_optional t => vectors_ok t
  | t_tuple ts | t_struct _ ts | t_variant ts => forallb vectors_ok ts
  end.

Lemma Forall_forallb_map {A B} (f : A -> bool) (g : A -> B) (P : B -> Prop) l : Forall (fun x => f x = true -> P (g x)) l ->
  forallb f l = true -> Forall P (map g l).
Proof. induction 1 as [|x l Hx _ IH]; cbn; [constructor|]. intros [Hf Hl]%andb_prop. constructor; auto. Qed.

Lemma is_packable_safe t : vectors_ok t = true -> safe (is_packable t).
Proof.
  induction t as [n| |n|t IH|t n IH|t IH|ts IH|d ts IH|ts IH] using fty_nested_ind; cbn [vectors_ok is_packable]; intros Hok.
  - apply base_safe; [apply never_safe|apply memcpy_safe].
  - apply base_safe; [apply never_safe|apply bool_safe].
  - apply base_safe; [apply container_empty_safe|apply bytes_safe].
  - apply andb_prop in Hok as [Hz Hok]. zbool. apply base_safe; [apply container_empty_safe|by apply vector_safe; [apply IH|]].
  - apply base_safe; [apply never_safe|by apply array_safe, IH].
  - by apply opt_safe, IH.
  - apply base_safe; [apply never_safe|by apply tuple_safe, (Forall_forallb_map vectors_ok)].
  - apply base_safe; [apply never_safe|by apply struct_safe, (Forall_forallb_map vectors_ok)].
  - apply base_safe; [apply never_safe|by apply variant_safe, (Forall_forallb_map vectors_ok)].
Qed.

(** C19: Unpacking data that does not come from a trusted party never reads outside of it,
    whatever the data and the uninitialized flag are: [fracpack_validate] and
    [from_frac] always have a result. *)
Theorem verified_reads_in_bounds (t : fty) (data : bytes) (garbage strict : bool) (Ht : vectors_ok t = true) (Hd : data_ok data)
  :
  (exists r, fracpack_validate t data garbage = Some r) /\ (exists r, from_frac strict t data garbage = Some r).
Proof.
  destruct Hd as [Hb Hl]. assert (Hw : within data 0 (u32 (Z.of_nat (length data)))) by (unfold within;
    rewrite u32_small by lia; lia).
  split; [unfold fracpack_validate|unfold from_frac]; unfold unpack_all_of.
  - destruct (safe_unpack _ (is_packable_safe t Ht) {| Unpack := false; Verify := true |} data {| has_unknown := false;
      known_end := garbage; pos := 0 |} _ eq_refl (conj Hb Hl) Hw) as (ok & v & c & -> & _). by eexists.
  - destruct (safe_unpack _ (is_packable_safe t Ht) {| Unpack := true; Verify := true |} data {| has_unknown := false;
      known_end := garbage; pos := 0 |} _ eq_refl (conj Hb Hl) Hw) as (ok & v & c & -> & _). by eexists.
Qed.
Lemma verified_reads_in_bounds_witness : let t := t_vector (t_optional t_bool) in let data := [8; 0; 0; 0; 255; 255; 255; 255;
  1; 0; 0; 0] in
  vectors_ok t = true /\ (exists r, fracpack_validate t data true = Some r) /\ (exists r, from_frac false t data true = Some r).
Proof.
  cbn zeta. split; [reflexivity|]. apply (verified_reads_in_bounds _ _ true false); [reflexivity|].
  split; [repeat (constructor; [unfold is_byte; lia|]); constructor|reflexivity].
Defined.
