(* ===== verification/FracpackLayout.v ===== *)
(** * fracpack: the format

    The format as a function from values to bytes, without streams and without
    positions: [l_enc] is the encoding of a value in one region; a value inside of
    another has a fixed part ([l_fixed], for most types the distance to its
    contents) and contents after the fixed parts ([l_heap]).  [pack] writes spaces
    for the distances and fills them in later; this file shows that it writes
    exactly the format. *)

From S2P Require Import Prelude ToKey Fracpack FracpackSafe.

#[local] Open Scope Z_scope.

(** ** The format *)

Record layout := {
  l_size : Z;
  l_var : bool;
  l_opt : bool;
  l_typed : fval -> bool;
  l_empty : fval -> bool;
  l_enc : fval -> bytes;
  l_fixed : fval -> Z -> bytes;
  l_heap : fval -> bytes
}.

(** The distance to the contents, 0 for an empty container, which has no contents. *)
Definition offset_of (l : layout) (v : fval) (gap : Z) : bytes := le_bytes 4 (if l_empty l v then 0 else gap).
Definition content_of (l : layout) (v : fval) : bytes := if l_empty l v then [] else l_enc l v.

Definition base_layout (size : Z) (var : bool) (typed empty : fval -> bool) (enc : fval -> bytes) : layout :=
  {| l_size := size; l_var := var; l_opt := false; l_typed := typed; l_empty := empty; l_enc := enc;
     l_fixed := fun v gap => if var then le_bytes 4 (if empty v then 0 else gap) else enc v;
     l_heap := fun v => if var then (if empty v then [] else enc v) else [] |}.

Definition byteb (b : Z) : bool := (0 <=? b) && (b <? 256).

Definition memcpy_layout (n : nat) : layout :=
  base_layout (Z.of_nat n) false (fun v => match v with v_memcpy bs => (length bs =? n)%nat && forallb byteb bs | _ => false end)
  never_empty val_bytes.
Definition bool_layout : layout :=
  base_layout 1 false (fun v => match v with v_bool _ => true | _ => false end) never_empty (fun v => match v with v_bool true => [1] | _ =>
  [0] end).
Definition bytes_layout (n : nat) : layout :=
  base_layout 4 true (fun v => match v with v_bytes bs => (Z.of_nat (length bs) mod Z.of_nat n =? 0) && forallb byteb bs | _ => false end)
    (fun v => match val_bytes v with [] => true | _ => false end)
    (fun v => le_bytes 4 (Z.of_nat (length (val_bytes v))) ++ val_bytes v).

(** Members, one after the other; [gap] is the distance to the free space after the fixed parts. *)
Fixpoint fixed_of (ls : list layout) (vs : list fval) (gap : Z) : bytes :=
  match ls, vs with
  | l :: ls, v :: vs => l_fixed l v gap ++ fixed_of ls vs (gap - l_size l + Z.of_nat (length (l_heap l v)))
  | _, _ => []
  end.
Fixpoint heap_of (ls : list layout) (vs : list fval) : bytes :=
  match ls, vs with
  | l :: ls, v :: vs => l_heap l v ++ heap_of ls vs
  | _, _ => []
  end.
Fixpoint sizes (ls : list layout) : Z := match ls with [] => 0 | l :: ls => l_size l + sizes ls end.
Definition members_of (ls : list layout) (vs : list fval) : bytes := fixed_of ls vs (sizes ls) ++ heap_of ls vs.
Fixpoint typed_members (ls : list layout) (vs : list fval) : bool :=
  match ls, vs with
  | [], [] => true
  | l :: ls, v :: vs => l_typed l v && typed_members ls vs
  | _, _ => false
  end.

Definition vector_layout (l : layout) : layout :=
  base_layout 4 true (fun v => match v with v_list vs => forallb (l_typed l) vs | _ => false end) (fun v => match val_list v with [] => true
    | _ => false end)
    (fun v => let n := length (val_list v) in le_bytes 4 (Z.of_nat n * l_size l) ++ members_of (replicate n l) (val_list v)).
Definition array_layout (l : layout) (n : nat) : layout :=
  base_layout (if l_var l then 4 else l_size l * Z.of_nat n) (l_var l) (fun v => match v with v_list vs => (length vs =? n)%nat && forallb
    (l_typed l) vs | _ => false end) never_empty
    (fun v => members_of (replicate n l) (val_list v)).

Definition opt_fixed (l : layout) (v : fval) (gap : Z) : bytes :=
  match opt_value v with Some w => offset_of l w gap | None => le_bytes 4 1 end.
Definition opt_heap (l : layout) (v : fval) : bytes := match opt_value v with Some w => content_of l w | None => [] end.
Definition optional_layout (l : layout) : layout :=
  {| l_size := 4; l_var := true; l_opt := true; l_typed := fun v => match v with v_opt (Some w) => l_typed l w | v_opt None => true | _ =>
    false end; l_empty := never_empty;
     l_enc := fun v => opt_fixed l v 4 ++ opt_heap l v; l_fixed := opt_fixed l; l_heap := opt_heap l |}.

(** The members up to the last one that is not an empty optional. *)
Definition absent (l : layout) (v : fval) : bool := l_opt l && negb (opt_has_value v).
Fixpoint present (fixed_definition : bool) (ls : list layout) (vs : list fval) : nat :=
  match ls, vs with
  | l :: ls, v :: vs => match present fixed_definition ls vs with O => if negb fixed_definition && absent l v then 0 else 1 | n => S n end
  | _, _ => 0
  end%nat.
Definition fields_enc (fixed_definition : bool) (ls : list layout) (v : fval) : bytes :=
  let n := present fixed_definition ls (val_list v) in
  (if fixed_definition then [] else le_bytes 2 (sizes (take n ls))) ++ members_of (take n ls) (take n (val_list v)).
Definition fields_typed (ls : list layout) (v : fval) : bool := match v with v_fields vs => typed_members ls vs | _ => false end.

Definition tuple_layout (ls : list layout) : layout := base_layout 4 true (fields_typed ls) never_empty (fields_enc false ls).
Definition struct_layout (fixed_definition : bool) (ls : list layout) : layout :=
  let var := negb fixed_definition || existsb l_var ls in
  base_layout (if var then 4 else sizes ls) var (fields_typed ls) never_empty (fields_enc fixed_definition ls).

Definition variant_enc (ls : list layout) (v : fval) : bytes :=
  let '(i, w) := variant_parts v in
  let content := match ls !! i with Some l => l_enc l w | None => [] end in
  Z.of_nat i :: le_bytes 4 (Z.of_nat (length content)) ++ content.
Definition variant_layout (ls : list layout) : layout :=
  base_layout 4 true (fun v => match v with v_variant i w => match ls !! i with Some l => l_typed l w | None => false end | _ => false end)
    never_empty (variant_enc ls).

Fixpoint layout_of (t : fty) : layout :=
  match t with
  | t_memcpy n => memcpy_layout n
  | t_bool => bool_layout
  | t_bytes n => bytes_layout n
  | t_vector t => vector_layout (layout_of t)
  | t_array t n => array_layout (layout_of t) n
  | t_optional t => optional_layout (layout_of t)
  | t_tuple ts => tuple_layout (map layout_of ts)
  | t_struct d ts => struct_layout d (map layout_of ts)
  | t_variant ts => variant_layout (map layout_of ts)
  end.

Definition typed (t : fty) : fval -> bool := l_typed (layout_of t).
Definition encoding (t : fty) : fval -> bytes := l_enc (layout_of t).

(** What the compiler checks of a type, and what it does not check: that a tuple
    fits into 16 bits. *)
Fixpoint ty_ok (t : fty) : bool :=
  match t with
  | t_memcpy n | t_bytes n => (0 <? n)%nat
  | t_bool => true
  | t_vector t => (0 <? l_size (layout_of t)) && ty_ok t
  | t_array t _ | t_optional t => ty_ok t
  | t_tuple ts | t_struct _ ts => (sizes (map layout_of ts) <? 2 ^ 16) && forallb ty_ok ts
  | t_variant ts => (length ts <? 128)%nat && forallb ty_ok ts
  end.

(** ** Laws of a format *)

Record layout_ok (l : layout) : Prop := {
  lo_size : 0 <= l_size l;
  lo_var : l_var l = true -> l_size l = 4;
  lo_len v : l_var l = false -> l_typed l v = true -> Z.of_nat (length (l_enc l v)) = l_size l;
  lo_plain v gap : l_var l = false -> l_fixed l v gap = l_enc l v /\ l_heap l v = [];
  lo_offset v gap : l_var l = true -> l_opt l = false -> l_fixed l v gap = offset_of l v gap /\ l_heap l v = content_of l v;
  lo_opt : l_opt l = true -> l_var l = true;
  lo_absent : l_opt l = true -> l_typed l v_none = true;
  lo_none v : l_opt l = true -> l_typed l v = true -> opt_has_value v = false -> v = v_none;
  lo_opt_fixed v gap : l_opt l = true -> length (l_fixed l v gap) = 4%nat;
  lo_never v : l_var l = false \/ l_opt l = true -> l_empty l v = false
}.

Lemma base_layout_ok size var ty emp enc : 0 <= size -> (var = true -> size = 4) -> (var = false -> forall v, emp v = false) ->
  (var = false -> forall v, ty v = true -> Z.of_nat (length (enc v)) = size) ->
  layout_ok (base_layout size var ty emp enc).
Proof. intros Hs Hv He Hl. constructor; cbn; intros; subst; try done; auto. destruct H as [H|H]; [auto|done]. Qed.

Lemma length_l_fixed l v gap : layout_ok l -> l_typed l v = true -> Z.of_nat (length (l_fixed l v gap)) = l_size l.
Proof.
  intros Hl Hv. destruct (l_var l) eqn:Ev.
  - rewrite (lo_var l Hl Ev). destruct (l_opt l) eqn:Eo; [by rewrite (lo_opt_fixed l Hl v gap Eo)|].
    rewrite (proj1 (lo_offset l Hl v gap Ev Eo)). unfold offset_of. by rewrite length_le_bytes.
  - rewrite (proj1 (lo_plain l Hl v gap Ev)). by apply lo_len.
Qed.
Lemma length_fixed_of ls : Forall layout_ok ls -> forall vs gap, typed_members ls vs = true ->
  Z.of_nat (length (fixed_of ls vs gap)) = sizes ls.
Proof.
  induction 1 as [|l ls Hl Hls IH]; intros [|v vs] gap; cbn [typed_members fixed_of]; try done. intros [Hv Hvs]%andb_prop.
  rewrite length_app, Nat2Z.inj_add, length_l_fixed, IH by done. done.
Qed.
Lemma sizes_nonneg ls : Forall layout_ok ls -> 0 <= sizes ls.
Proof. induction 1 as [|l ls Hl _ IH]; cbn; [done|]. pose proof (lo_size l Hl). lia. Qed.
Lemma sizes_app ls ls' : sizes (ls ++ ls') = sizes ls + sizes ls'.
Proof. induction ls as [|l ls IH]; cbn; [done|]. lia. Qed.
Lemma sizes_take ls n : Forall layout_ok ls -> 0 <= sizes (take n ls) <= sizes ls.
Proof.
  intros Hls. rewrite <- (take_drop n ls) at 3. rewrite sizes_app.
  pose proof (sizes_nonneg (take n ls) (Forall_take _ _ _ Hls)). pose proof (sizes_nonneg (drop n ls) (Forall_drop _ _ _ Hls)).
  lia.
Qed.
Lemma sizes_replicate n l : sizes (replicate n l) = Z.of_nat n * l_size l.
Proof. induction n as [|n IH]; cbn [replicate sizes]; [done|]. rewrite IH. lia. Qed.
Lemma typed_replicate l vs : typed_members (replicate (length vs) l) vs = forallb (l_typed l) vs.
Proof. induction vs as [|v vs IH]; cbn; [done|]. by rewrite IH. Qed.
Lemma typed_length ls vs : typed_members ls vs = true -> length ls = length vs.
Proof. revert vs. induction ls as [|l ls IH]; intros [|v vs]; cbn; try done. intros [_ Hvs]%andb_prop. by rewrite (IH vs). Qed.
Lemma typed_take ls vs n : typed_members ls vs = true -> typed_members (take n ls) (take n vs) = true.
Proof. revert vs n. induction ls as [|l ls IH]; intros [|v vs] [|n]; cbn; try done. intros [Hv Hvs]%andb_prop.
by rewrite Hv, IH. Qed.
Lemma present_fixed ls vs : typed_members ls vs = true -> present true ls vs = length ls.
Proof. revert vs. induction ls as [|l ls IH]; intros [|v vs]; cbn; try done. intros [_ Hvs]%andb_prop. rewrite (IH vs Hvs).
by destruct ls. Qed.
Lemma present_le fd ls vs : (present fd ls vs <= length ls)%nat.
Proof. revert vs. induction ls as [|l ls IH]; intros [|v vs]; cbn; try lia. specialize (IH vs).
destruct (present fd ls vs); [destruct (_ && _)|]; lia. Qed.
Lemma byteb_spec bs : forallb byteb bs = true <-> bytes_ok bs.
Proof.
  induction bs as [|b bs IH]; cbn; [split; [constructor|done]|]. rewrite andb_true_iff, IH, Forall_cons. unfold byteb, is_byte.
  split; intros [Hb Hbs]; (split; [|done]); [zbool; lia|apply andb_true_intro; split; [apply Z.leb_le|apply Z.ltb_lt]; lia].
Qed.

(** ** [pack] writes the format *)

Definition small (s : bytes) : Prop := Z.of_nat (length s) < 2 ^ 32.

(** The space that is left for the fixed part, and how it is filled in. *)
Record blank_ok (p : packable) (l : layout) (v : fval) (blank : bytes) : Prop := {
  bl_len : Z.of_nat (length blank) = l_size l;
  bl_pack s : small (s ++ blank) -> embedded_fixed_pack p v s = s ++ blank;
  bl_repack a b heap : Z.of_nat (length a) <= heap < 2 ^ 32 ->
    embedded_fixed_repack p v (Z.of_nat (length a)) heap (a ++ blank ++ b) = a ++ l_fixed l v (heap - Z.of_nat (length a)) ++ b
}.
Record packs (p : packable) (l : layout) : Prop := {
  pk_layout : layout_ok l;
  pk_size : fixed_size p = l_size l;
  pk_var : is_variable_size p = l_var l;
  pk_opt : is_optional p = l_opt l;
  pk_empty v : l_typed l v = true -> is_empty_container p v = l_empty l v;
  pk_value v : l_opt l = true -> has_value p v = opt_has_value v;
  pk_pack v s : l_typed l v = true -> small (s ++ l_enc l v) -> pack p v s = s ++ l_enc l v;
  pk_fixed v : l_typed l v = true -> exists blank, blank_ok p l v blank;
  pk_variable v s : l_typed l v = true -> small (s ++ l_heap l v) -> embedded_variable_pack p v s = s ++ l_heap l v;
  pk_plain v f h s : l_var l = false -> embedded_fixed_repack p v f h s = s
}.

Lemma rewrite_raw_app a bs blank b : length bs = length blank -> rewrite_raw (Z.of_nat (length a)) bs (a ++ blank ++ b) = a ++
  bs ++ b.
Proof.
  intros H. unfold rewrite_raw. rewrite Nat2Z.id, take_app_length, H, (app_assoc a blank b), <- length_app, drop_app_length.
  done.
Qed.
Lemma written_small s : small s -> written s = Z.of_nat (length s).
Proof. unfold small, written. intros. rewrite u32_small; lia. Qed.
Lemma small_app a b : small (a ++ b) -> small a.
Proof. unfold small. rewrite length_app. lia. Qed.
Lemma u32_bytes_small x : 0 <= x < 2 ^ 32 -> u32_bytes x = le_bytes 4 x.
Proof. intros. unfold u32_bytes. by rewrite u32_small. Qed.

Lemma base_packs fs var zero pk emp at_ cleared u ty enc : layout_ok (base_layout fs var ty emp enc) ->
  (forall v s, ty v = true -> small (s ++ enc v) -> pk v s = s ++ enc v) ->
  packs (base_packable_impl fs var zero pk emp at_ cleared u) (base_layout fs var ty emp enc).
Proof.
  intros Hl Hp. constructor; cbn; try done.
  - intros v Hv. unfold base_fixed_pack, base_fixed_repack. destruct var; cbn [andb].
    + exists (le_bytes 4 0). constructor; cbn -[le_bytes]; [rewrite length_le_bytes; symmetry;
        apply (lo_var _ Hl eq_refl)|done|].
      intros a b h Hh. unfold base_fixed_repack. destruct (emp v); cbn [andb negb]; [done|]. rewrite rewrite_raw_app by done.
      by rewrite u32_bytes_small by lia.
    + exists (enc v). constructor; cbn; [by apply (lo_len _ Hl)|intros; by apply Hp|done].
  - intros v s Hv Hs. unfold base_variable_pack. destruct var; cbn [andb]; [|by rewrite app_nil_r].
    destruct (emp v); cbn; [by rewrite app_nil_r|by apply Hp].
  - intros v f h s ->. unfold base_fixed_repack. done.
Qed.

Lemma memcpy_packs n : packs (memcpy_packable n) (memcpy_layout n).
Proof. apply base_packs; [|done]. apply base_layout_ok; try done; [lia|]. intros _ [bs|b|bs|vs|o|vs|i v]; try done. cbn.
intros [H _]%andb_prop. zbool. lia. Qed.
Lemma bool_packs : packs bool_packable bool_layout.
Proof. apply base_packs; [|done]. apply base_layout_ok; try done. by intros _ [bs|[]|bs|vs|o|vs|i v]. Qed.
Lemma bytes_packs n : packs (bytes_packable n) (bytes_layout n).
Proof.
  apply base_packs; [by apply base_layout_ok|]. intros v s Hv Hs. unfold write.
  rewrite u32_bytes_small; [by rewrite app_assoc|]. unfold small in Hs. rewrite !length_app in Hs. lia.
Qed.

(** *** Lists of members *)

Lemma fixed_pack_blanks ps ls : Forall2 packs ps ls -> forall vs, typed_members ls vs = true ->
  exists blanks, Z.of_nat (length blanks) = sizes ls /\ (forall s, small (s ++ blanks) -> fixed_pack_fields ps vs s = s ++
    blanks) /\
  (forall a b, small (a ++ blanks ++ b ++ heap_of ls vs) ->
    variable_pack_fields ps vs (Z.of_nat (length a)) (a ++ blanks ++ b) = a ++ fixed_of ls vs (Z.of_nat (length (blanks ++ b)))
      ++ b ++ heap_of ls vs).
Proof.
  induction 1 as [|p l ps ls Hp _ IH]; intros [|v vs]; try done.
  { intros _. exists []. split; [done|]. split; cbn; [intros; by rewrite app_nil_r|intros; by rewrite app_nil_r]. }
  cbn [typed_members]. intros [Hv Hvs]%andb_prop. destruct (IH vs Hvs) as (bs & Hlen & Hfix & Hvar).
  destruct (pk_fixed p l Hp v Hv) as [bl Hbl]. pose proof (pk_layout p l Hp) as Hl. pose proof (lo_size l Hl) as Hsz.
  pose proof (bl_len _ _ _ _ Hbl) as Hbll. exists (bl ++ bs). split; [rewrite length_app; cbn [sizes]; lia|]. split.
  - intros s Hs. cbn [fixed_pack_fields]. rewrite app_assoc in Hs. rewrite (bl_pack _ _ _ _ Hbl) by (by eapply small_app).
    rewrite Hfix by done. by rewrite app_assoc.
  - intros a b Hs. cbn [variable_pack_fields fixed_of heap_of] in *. rewrite <- (app_assoc bl).
    assert (Hw : small (a ++ bl ++ bs ++ b)) by (revert Hs; unfold small; rewrite !length_app; lia).
    rewrite (written_small _ Hw).
    assert (Hlh := Hs). unfold small in Hlh. rewrite !length_app in Hlh.
    rewrite (bl_repack _ _ _ _ Hbl) by (rewrite !length_app; lia).
    set (gap := Z.of_nat (length (a ++ bl ++ bs ++ b)) - Z.of_nat (length a)).
    assert (Hgap : gap = Z.of_nat (length (bl ++ bs ++ b))) by (unfold gap; rewrite !length_app; lia). rewrite <- Hgap.
    pose proof (length_l_fixed l v gap Hl Hv) as Hlf.
    rewrite (pk_variable p l Hp v) by (try done; unfold small; rewrite !length_app; lia). rewrite (pk_size p l Hp).
    rewrite (u32_small (Z.of_nat (length a) + l_size l)) by lia.
    replace (Z.of_nat (length a) + l_size l) with (Z.of_nat (length (a ++ l_fixed l v gap))) by (rewrite length_app; lia).
    replace ((a ++ l_fixed l v gap ++ bs ++ b) ++ l_heap l v) with ((a ++ l_fixed l v gap) ++ bs ++ (b ++ l_heap l v)) by (by
      rewrite <- !app_assoc).
    rewrite Hvar by (unfold small; rewrite !length_app; lia). rewrite <- !app_assoc. do 4 f_equal. rewrite !length_app in *.
    lia.
Qed.

Lemma packs_layouts ps ls : Forall2 packs ps ls -> Forall layout_ok ls.
Proof. induction 1 as [|p l ps ls Hp _ IH]; constructor; [exact (pk_layout p l Hp)|done]. Qed.

(** The two loops write the members. *)
Lemma pack_members ps ls vs s : Forall2 packs ps ls -> typed_members ls vs = true -> small (s ++ members_of ls vs) ->
  variable_pack_fields ps vs (Z.of_nat (length s)) (fixed_pack_fields ps vs s) = s ++ members_of ls vs.
Proof.
  intros Hps Hvs Hs. destruct (fixed_pack_blanks ps ls Hps vs Hvs) as (bs & Hlen & Hfix & Hvar). unfold members_of in *.
  pose proof (length_fixed_of ls (packs_layouts ps ls Hps) vs (sizes ls) Hvs) as Hlf.
  unfold small in *. rewrite !length_app in Hs. rewrite Hfix by (rewrite length_app; lia). specialize (Hvar s []).
  rewrite app_nil_r in Hvar. rewrite Hvar by (rewrite !length_app; cbn; lia). by rewrite Hlen.
Qed.

Lemma fixed_pack_all_fields p vs s : fixed_pack_all p vs s = fixed_pack_fields (replicate (length vs) p) vs s.
Proof. revert s. induction vs as [|v vs IH]; intros s; [done|]. cbn. apply IH. Qed.
Lemma variable_pack_all_fields p l step vs f f' s : packs p l -> f = f' /\ step = l_size l \/ l_var l = false ->
  variable_pack_all p step f vs s = variable_pack_fields (replicate (length vs) p) vs f' s.
Proof.
  intros Hp. revert f f' s. induction vs as [|v vs IH]; intros f f' s H; [done|]. cbn. destruct H as [[-> ->]|Hn].
  - rewrite (pk_size p l Hp). by apply IH; left.
  - rewrite !(pk_plain p l Hp v _ _ _ Hn). by apply IH; right.
Qed.
Lemma Forall2_replicate_packs p l n : packs p l -> Forall2 packs (replicate n p) (replicate n l).
Proof. intros. by apply Forall2_replicate. Qed.
Lemma pack_elements p l step vs s : packs p l -> step = l_size l \/ l_var l = false -> forallb (l_typed l) vs = true ->
  small (s ++ members_of (replicate (length vs) l) vs) ->
  variable_pack_all p step (written s) vs (fixed_pack_all p vs s) = s ++ members_of (replicate (length vs) l) vs.
Proof.
  intros Hp Hst Hvs Hs. rewrite written_small by (by eapply small_app).
  rewrite fixed_pack_all_fields, (variable_pack_all_fields p l step vs _ (Z.of_nat (length s))) by first [done|destruct Hst;
    [by left|by right]].
  apply pack_members; [by apply Forall2_replicate_packs|by rewrite typed_replicate|done].
Qed.

Lemma vector_packs p l : packs p l -> packs (vector_packable p) (vector_layout l).
Proof.
  intros Hp. apply base_packs; [by apply base_layout_ok|]. intros v s Hv Hs. unfold vector_pack.
  destruct v as [| | |vs| | |]; try done. cbn [val_list] in *. rewrite (pk_size p l Hp).
  pose proof (lo_size l (pk_layout p l Hp)) as Hz. unfold write. assert (Hn : 0 <= Z.of_nat (length vs) * l_size l < 2 ^ 32).
  { unfold small, members_of in Hs. rewrite !length_app, !Nat2Z.inj_add in Hs.
    rewrite length_fixed_of, sizes_replicate in Hs by (first [by rewrite typed_replicate|apply Forall_replicate, (pk_layout p l
      Hp)]). lia. }
  unfold u32_bytes. rewrite (u32_small (_ * _)), (u32_small (_ * _)) by lia. rewrite app_assoc in Hs.
  rewrite (pack_elements p l) by first [done|destruct (l_var l) eqn:Ev; [left;
    by rewrite (lo_var l (pk_layout p l Hp) Ev)|by right]].
  by rewrite app_assoc.
Qed.
Lemma array_packs p l n : packs p l -> packs (array_packable p n) (array_layout l n).
Proof.
  intros Hp. unfold array_packable. rewrite (pk_size p l Hp), (pk_var p l Hp). pose proof (pk_layout p l Hp) as Hl.
  apply base_packs.
  - apply base_layout_ok; try done; [pose proof (lo_size l Hl); destruct (l_var l); lia|by intros ->|].
    intros Hv [| | |vs| | |]; try done. intros [Hn Hvs]%andb_prop. rewrite Hv. zbool. subst n. cbn [val_list].
    unfold members_of. rewrite length_app, Nat2Z.inj_add, length_fixed_of, sizes_replicate by (first [by rewrite
      typed_replicate|by apply Forall_replicate]).
    assert (heap_of (replicate (length vs) l) vs = []) as ->; [|cbn; lia]. clear Hvs. induction vs as [|v vs IH]; [done|]. cbn.
    rewrite (proj2 (lo_plain l Hl v 0 Hv)). done.
  - intros v s Hv Hs. unfold array_pack. destruct v as [| | |vs| | |]; try done. cbn [val_list] in *.
    apply andb_prop in Hv as [Hn Hvs]. zbool. subst n. rewrite (pk_size p l Hp).
    by rewrite (pack_elements p l) by (try done; by left).
Qed.

Lemma opt_packs p l : packs p l -> packs (optional_packable p) (optional_layout l).
Proof.
  intros Hp. pose proof (pk_layout p l Hp) as Hl.
  assert (Hlo : layout_ok (optional_layout l)).
  { constructor; cbn; try done; [by intros [| | | |[w|]| |] _ Hv Hn|]. intros v gap _. unfold opt_fixed, offset_of.
    by destruct (opt_value v); rewrite length_le_bytes. }
  assert (Htr : transparent p = negb (l_opt l) && l_var l) by (unfold transparent; by rewrite (pk_opt p l Hp), (pk_var p l Hp)).
  assert (Hne : forall v, transparent p = false -> l_empty l v = false).
  { intros v. rewrite Htr. intros H. apply (lo_never l Hl v). destruct (l_opt l), (l_var l); auto. }
  assert (Hfix : forall v, l_typed (optional_layout l) v = true -> exists blank, blank_ok (optional_packable p) (optional_layout
    l) v blank).
  { intros [bs|b|bs|vs|[w|]|vs|i w] Hv; try done.
    - cbn in Hv. destruct (transparent p) eqn:Et.
      + destruct (pk_fixed p l Hp w Hv) as [bl Hbl]. exists bl. pose proof Htr as Htr'. symmetry in Htr'.
        apply andb_prop in Htr' as [Ho Hvar]. apply negb_true_iff in Ho. constructor; cbn [l_size optional_layout].
        * rewrite (bl_len _ _ _ _ Hbl). by apply lo_var.
        * intros s Hs. cbn. unfold opt_fixed_pack. cbn. rewrite Et. by apply (bl_pack _ _ _ _ Hbl).
        * intros a b h Hh. cbn. unfold opt_fixed_repack, opt_fixed. cbn. rewrite Et. rewrite (bl_repack _ _ _ _ Hbl a b h Hh).
          by rewrite (proj1 (lo_offset l Hl w _ Hvar Ho)).
      + exists (le_bytes 4 1). constructor; [done|..].
        * intros s Hs. cbn -[le_bytes]. unfold opt_fixed_pack. cbn -[le_bytes]. by rewrite Et.
        * intros a b h Hh. cbn -[le_bytes]. unfold opt_fixed_repack, opt_fixed. cbn -[le_bytes]. rewrite Et.
          rewrite rewrite_raw_app by done. unfold offset_of. rewrite (Hne w eq_refl). by rewrite u32_bytes_small by lia.
    - exists (le_bytes 4 1). by constructor. }
  assert (Hvar : forall v s, l_typed (optional_layout l) v = true -> small (s ++ opt_heap l v) -> opt_variable_pack p v s = s ++
    opt_heap l v).
  { intros [bs|b|bs|vs|[w|]|vs|i w] s Hv Hs; try done; unfold opt_variable_pack, opt_heap in *; cbn in *;
      [|by rewrite app_nil_r]. unfold content_of in *. rewrite (pk_empty p l Hp w Hv).
    destruct (l_empty l w); [by rewrite app_nil_r|by apply (pk_pack p l Hp)]. }
  constructor; try done.
  intros v s Hv Hs. cbn [pack optional_packable]. unfold opt_pack. destruct (Hfix v Hv) as [bl Hbl].
  pose proof (bl_len _ _ _ _ Hbl) as Hlen. cbn [l_enc optional_layout l_size] in *.
  assert (Hlf : length (opt_fixed l v 4) = 4%nat) by (apply (lo_opt_fixed _ Hlo v 4 eq_refl)). unfold small in Hs.
  rewrite !length_app in Hs.
  rewrite (written_small s) by (unfold small; lia).
  assert (Hf : opt_fixed_pack p v s = s ++ bl) by (apply (bl_pack _ _ _ _ Hbl); unfold small; rewrite length_app; lia).
  rewrite Hf.
  rewrite written_small by (unfold small; rewrite length_app; lia).
  pose proof (bl_repack _ _ _ _ Hbl s [] (Z.of_nat (length (s ++ bl))) ltac:(rewrite length_app; lia)) as Hr.
  rewrite !app_nil_r in Hr. cbn [embedded_fixed_repack optional_packable l_fixed optional_layout] in Hr. rewrite Hr.
  replace (Z.of_nat (length (s ++ bl)) - Z.of_nat (length s)) with 4 by (rewrite length_app; lia).
  rewrite Hvar by (try done; unfold small; rewrite !length_app; lia). by rewrite app_assoc.
Qed.

(** *** Members of classes *)

Lemma num_present_spec fd ps ls : Forall2 packs ps ls -> forall vs i n, typed_members ls vs = true ->
  num_present_fn fd i n ps vs = match present fd ls vs with O => n | k => (i + k)%nat end.
Proof.
  induction 1 as [|p l ps ls Hp _ IH]; intros [|v vs] i n; cbn [typed_members]; try done. intros [Hv Hvs]%andb_prop.
  cbn [num_present_fn present]. rewrite (IH vs _ _ Hvs). destruct (present fd ls vs) as [|k]; [|lia].
  unfold absent. rewrite (pk_opt p l Hp). destruct fd; cbn; [lia|]. destruct (l_opt l) eqn:Eo; cbn; [|lia].
  rewrite (pk_value p l Hp v Eo). destruct (opt_has_value v); cbn; [lia|done].
Qed.
Lemma fixed_size_spec n ps ls : Forall2 packs ps ls -> sizes ls < 2 ^ 16 -> fixed_size_fn n ps = sizes (take n ls).
Proof.
  intros Hps Hs. unfold fixed_size_fn. assert (Hgen : forall k ps ls x, Forall2 packs ps ls -> 0 <= x -> x + sizes ls < 2 ^ 16
    -> foldl (fun n p => wrap 16 (n + fixed_size p)) x (take k ps) = x + sizes (take k ls)).
  { clear. intros k ps ls x Hps. revert k x. induction Hps as [|p l ps ls Hp Hps IH]; intros [|k] x Hx Hs; cbn; try lia.
    cbn in Hs. rewrite (pk_size p l Hp). pose proof (lo_size l (pk_layout p l Hp)).
    pose proof (sizes_nonneg ls (packs_layouts ps ls Hps)).
    rewrite (wrap_small 16) by lia. rewrite IH by lia. lia. }
  rewrite (Hgen n ps ls 0 Hps) by lia. lia.
Qed.
Lemma pack_fields_spec fd ps ls vs s : Forall2 packs ps ls -> sizes ls < 2 ^ 16 -> typed_members ls vs = true ->
  small (s ++ fields_enc fd ls (v_fields vs)) -> pack_fields fd ps (v_fields vs) s = s ++ fields_enc fd ls (v_fields vs).
Proof.
  intros Hps Hz Hvs Hs. unfold pack_fields, fields_enc in *. cbn [val_list] in *.
  rewrite (num_present_spec fd ps ls Hps vs 0 0 Hvs).
  replace (match present fd ls vs with O => 0 | k => 0 + k end)%nat with (present fd ls vs) by (by destruct (present fd ls vs)).
  set (n := present fd ls vs) in *. rewrite (fixed_size_spec n ps ls Hps Hz).
  rewrite app_assoc in Hs. rewrite app_assoc.
  replace (if fd then s else write (le_bytes 2 (sizes (take n ls))) s) with (s ++ (if fd then [] else le_bytes 2 (sizes (take n
    ls)))) by (destruct fd; [by rewrite app_nil_r|done]).
  rewrite written_small by (by eapply small_app). apply pack_members; [by apply Forall2_take|by apply typed_take|done].
Qed.
Lemma tuple_packs ps ls : Forall2 packs ps ls -> sizes ls < 2 ^ 16 -> packs (tuple_packable ps) (tuple_layout ls).
Proof. intros Hps Hz. apply base_packs; [by apply base_layout_ok|]. intros [| | | | |vs|] s Hv Hs; try done.
by apply pack_fields_spec. Qed.

(** Members of which none is variable. *)
Fixpoint enc_all (ls : list layout) (vs : list fval) : bytes :=
  match ls, vs with
  | l :: ls, v :: vs => l_enc l v ++ enc_all ls vs
  | _, _ => []
  end.
Lemma plain_members ls : Forall layout_ok ls -> existsb l_var ls = false -> forall vs gap, typed_members ls vs = true ->
  fixed_of ls vs gap = enc_all ls vs /\ heap_of ls vs = [].
Proof.
  induction 1 as [|l ls Hl _ IH]; intros Hn [|v vs] gap; cbn in *; try done. intros [Hv Hvs]%andb_prop.
  apply orb_false_elim in Hn as [Hn Hns]. destruct (lo_plain l Hl v gap Hn) as [-> ->]. cbn.
  split; [by rewrite (proj1 (IH Hns vs _ Hvs))|exact (proj2 (IH Hns vs 0 Hvs))].
Qed.
Lemma pack_all_spec ps ls : Forall2 packs ps ls -> forall vs s, typed_members ls vs = true -> small (s ++ enc_all ls vs) ->
  pack_all ps vs s = s ++ enc_all ls vs.
Proof.
  induction 1 as [|p l ps ls Hp _ IH]; intros [|v vs] s; cbn; try done; [intros _ _; by rewrite app_nil_r|].
  intros [Hv Hvs]%andb_prop Hs. rewrite app_assoc in Hs. rewrite (pk_pack p l Hp) by (try done; by eapply small_app).
  rewrite IH by done. by rewrite app_assoc.
Qed.
Lemma var_members ps ls : Forall2 packs ps ls -> existsb is_variable_size ps = existsb l_var ls.
Proof. induction 1 as [|p l ps ls Hp _ IH]; cbn; [done|]. by rewrite (pk_var p l Hp), IH. Qed.
Lemma members_fixed_size_spec ps ls : Forall2 packs ps ls -> members_fixed_size ps = sizes ls.
Proof. induction 1 as [|p l ps ls Hp _ IH]; cbn; [done|]. unfold members_fixed_size in IH. by rewrite (pk_size p l Hp), IH. Qed.
Lemma fixed_definition_enc ls vs : typed_members ls vs = true -> fields_enc true ls (v_fields vs) = members_of ls vs.
Proof. intros Hvs. unfold fields_enc. cbn [val_list]. rewrite present_fixed by done.
rewrite firstn_all, (typed_length ls vs Hvs), firstn_all. done. Qed.

Lemma struct_packs fd ps ls : Forall2 packs ps ls -> sizes ls < 2 ^ 16 -> packs (struct_packable fd ps) (struct_layout fd ls).
Proof.
  intros Hps Hz. pose proof (packs_layouts ps ls Hps) as Hls. unfold struct_packable, struct_layout.
  rewrite (members_fixed_size_spec ps ls Hps).
  assert (Hv : get_is_var_size fd ps = negb fd || existsb l_var ls) by (unfold get_is_var_size;
    by rewrite (var_members ps ls Hps)). rewrite Hv. apply base_packs.
  - apply base_layout_ok; [destruct (_ || _); [lia|by apply sizes_nonneg]|by intros ->|done|].
    intros Hn [| | | | |vs|] Ht; try done. rewrite Hn. destruct fd; [|done]. cbn in Hn. cbn in Ht.
    rewrite fixed_definition_enc by done. unfold members_of.
    rewrite (proj2 (plain_members ls Hls Hn vs 0 Ht)), app_nil_r. by apply length_fixed_of.
  - intros [| | | | |vs|] s Ht Hs; try done. unfold struct_pack. rewrite Hv.
    destruct (_ || _) eqn:E; [by apply pack_fields_spec|]. destruct fd; [|done]. cbn in E, Ht. cbn [val_list].
    rewrite fixed_definition_enc in * by done. unfold members_of in *.
    destruct (plain_members ls Hls E vs (sizes ls) Ht) as [Hf Hh]. rewrite Hf, Hh, app_nil_r in *. by apply pack_all_spec.
Qed.

(** *** Variants *)

Lemma variant_packs ps ls : Forall2 packs ps ls -> (length ls < 128)%nat -> packs (variant_packable ps) (variant_layout ls).
Proof.
  intros Hps Hn. apply base_packs; [by apply base_layout_ok|]. intros [| | | | | |i w] s Hv Hs; try done.
  unfold variant_pack, variant_enc in *. cbn [variant_parts] in *. destruct (ls !! i) as [l|] eqn:El; [|done].
  destruct (Forall2_lookup_r _ _ _ _ _ Hps El) as (p & Ep & Hp). rewrite Ep.
  assert (Hi : (i < 128)%nat) by (pose proof (lookup_lt_Some _ _ _ El); lia).
  unfold small in Hs. rewrite !length_app in Hs. cbn [length] in Hs. rewrite !length_app, length_le_bytes in Hs. unfold write.
  assert (Hb : le_bytes 1 (u8 (Z.of_nat i)) = [Z.of_nat i]) by (cbn; rewrite wrap_small by lia; rewrite Z.mod_small by lia;
    done). rewrite Hb, (u32_bytes_small 0) by lia.
  rewrite (pk_pack p l Hp) by (try done; unfold small; rewrite !length_app, length_le_bytes; cbn [length]; lia).
  rewrite (written_small (s ++ [Z.of_nat i])) by (unfold small; rewrite length_app; cbn [length]; lia).
  rewrite !written_small by (unfold small; rewrite !length_app, ?length_le_bytes; cbn [length]; lia).
  rewrite <- (app_assoc (s ++ [_])), rewrite_raw_app by done.
  rewrite u32_bytes_small by (rewrite !length_app, ?length_le_bytes; cbn [length]; lia). rewrite <- app_assoc. cbn [app].
  do 3 f_equal. f_equal. rewrite !length_app, !length_le_bytes. cbn [length]. lia.
Qed.

(** *** All types *)

Lemma Forall_Forall2_map {A B C} (f : A -> bool) (g : A -> B) (h : A -> C) (R : B -> C -> Prop) l :
  Forall (fun x => f x = true -> R (g x) (h x)) l -> forallb f l = true -> Forall2 R (map g l) (map h l).
Proof. induction 1 as [|x l Hx _ IH]; cbn; [constructor|]. intros [Hf Hl]%andb_prop. constructor; auto. Qed.

Lemma is_packable_packs t : ty_ok t = true -> packs (is_packable t) (layout_of t).
Proof.
  induction t as [n| |n|t IH|t n IH|t IH|ts IH|d ts IH|ts IH] using fty_nested_ind; cbn [ty_ok is_packable layout_of];
    intros Hok.
  - apply memcpy_packs.
  - apply bool_packs.
  - apply bytes_packs.
  - apply andb_prop in Hok as [_ Hok]. by apply vector_packs, IH.
  - by apply array_packs, IH.
  - by apply opt_packs, IH.
  - apply andb_prop in Hok as [Hz Hok]. zbool. apply tuple_packs; [by apply (Forall_Forall2_map ty_ok)|done].
  - apply andb_prop in Hok as [Hz Hok]. zbool. apply struct_packs; [by apply (Forall_Forall2_map ty_ok)|done].
  - apply andb_prop in Hok as [Hz Hok]. zbool. apply variant_packs; [by apply (Forall_Forall2_map ty_ok)|by rewrite length_map].
Qed.

(** [to_frac], which reserves places and fills them in later, writes the format,
    unless the result does not fit into 32 bits. *)
Theorem to_frac_writes_format (t : fty) (v : fval) (Ht : ty_ok t = true) (Hv : typed t v = true) (Hs : Z.of_nat (length
  (encoding t v)) < 2 ^ 32) : to_frac t v = encoding t v.
Proof. unfold to_frac. rewrite (pk_pack _ _ (is_packable_packs t Ht) v []) by done. done. Qed.

(** A class with members of most types. *)
Definition sample_type : fty :=
  t_struct false [t_memcpy 4; t_bytes 1; t_vector (t_variant [t_bool; t_bytes 1]); t_optional (t_array (t_optional t_bool) 2)].
Definition sample_value : fval :=
  v_fields [v_memcpy [1; 2; 3; 4]; v_bytes [104; 105]; v_list [v_variant 0 (v_bool true); v_variant 1 (v_bytes [])];
  v_opt (Some (v_list [v_opt (Some (v_bool false)); v_none]))].

Lemma to_frac_writes_format_witness : typed sample_type sample_value = true /\
  to_frac sample_type sample_value = encoding sample_type sample_value.
Proof. split; [reflexivity|]. apply to_frac_writes_format; reflexivity. Defined.
