(* ===== verification/FracpackRead.v ===== *)
(** * fracpack: what is packed is read back

    Where the data holds the format of a value, [unpack<true, true>] succeeds,
    yields the value, and ends at the end of the format, with nothing unknown. *)

From S2P Require Import Prelude ToKey Fracpack FracpackSafe FracpackLayout.

#[local] Open Scope Z_scope.

(** ** Parts of the data *)

Lemma of_le_bytes n x : 0 <= x < 256 ^ Z.of_nat n -> of_le (le_bytes n x) = x.
Proof.
  revert x. induction n as [|n IH]; intros x Hx; [cbn in *; lia|]. cbn [le_bytes of_le].
  rewrite Nat2Z.inj_succ, Z.pow_succ_r in Hx by lia. pose proof (Z.div_mod x 256 ltac:(lia)).
  rewrite IH by (split; [apply Z.div_pos|apply Z.div_lt_upper_bound]; lia). lia.
Qed.
Lemma le_bytes_of bs : bytes_ok bs -> le_bytes (length bs) (of_le bs) = bs.
Proof.
  induction 1 as [|b bs Hb Hbs IH]; [done|]. cbn [length le_bytes of_le]. unfold is_byte in Hb.
  rewrite (Z.mul_comm 256), Z.mod_add, Z.mod_small, Z.div_add, Z.div_small, Z.add_0_l, IH by lia. done.
Qed.

(** The data has the bytes [bs] at the position [p]. *)
Definition sub (src : bytes) (p : Z) (bs : bytes) : Prop :=
  0 <= p /\ p + Z.of_nat (length bs) <= Z.of_nat (length src) /\ at_pos src p (length bs) = bs.

Lemma at_pos_app src p n k : 0 <= p -> at_pos src p (n + k) = at_pos src p n ++ at_pos src (p + Z.of_nat n) k.
Proof. intros. unfold at_pos. rewrite Z2Nat.inj_add, Nat2Z.id, <- drop_drop, take_take_drop by lia. done. Qed.
Lemma sub_concat src p x y : sub src p (x ++ y) <-> sub src p x /\ sub src (p + Z.of_nat (length x)) y.
Proof.
  unfold sub. rewrite length_app. split.
  - intros (H0 & H1 & H2). rewrite at_pos_app in H2 by done.
    destruct (app_inj_1 _ _ _ _ (length_at_pos src p (length x) H0 ltac:(lia)) H2) as [Hx Hy]. repeat split; try done; lia.
  - intros [(H0 & H1 & Hx) (_ & H2 & Hy)]. rewrite at_pos_app by done. rewrite Hx, Hy. repeat split; lia.
Qed.
Lemma sub_nil src p : 0 <= p <= Z.of_nat (length src) -> sub src p [].
Proof. intros. unfold sub. cbn [length]. split; [lia|]. split; [lia|done]. Qed.
Lemma sub_whole data : sub data 0 data.
Proof. unfold sub, at_pos. rewrite drop_0, firstn_all. split; [done|]. split; [lia|done]. Qed.
Lemma sub_at src p n : 0 <= p -> p + Z.of_nat n <= Z.of_nat (length src) -> sub src p (at_pos src p n).
Proof. intros. unfold sub. rewrite length_at_pos by done. done. Qed.

Lemma unpack_numeric_sub n src p end_pos x : data_ok src -> end_pos <= Z.of_nat (length src) -> p + Z.of_nat n <= end_pos ->
  0 <= x < 256 ^ Z.of_nat n -> sub src p (le_bytes n x) ->
  unpack_numeric true n src p end_pos = Some (true, x, p + Z.of_nat n).
Proof.
  intros Hs He Hp Hx (H0 & _ & H). rewrite length_le_bytes in H.
  rewrite unpack_numeric_verified by (try done; unfold within; lia). rewrite (proj2 (Z.ltb_ge _ _)) by lia.
  by rewrite H, of_le_bytes.
Qed.

(** ** The laws of reading *)

Abbreviation rw := {| Unpack := true; Verify := true |}.

(** A fixed part at [f] and its contents at [h]. *)
Record placed (src : bytes) (ef eh : Z) (f h : Z) (fixed heap : bytes) : Prop := {
  pl_fixed : sub src f fixed;
  pl_heap : sub src h heap;
  pl_ends : f + Z.of_nat (length fixed) <= ef /\ ef <= Z.of_nat (length src) /\ h + Z.of_nat (length heap) <= eh /\
    eh <= Z.of_nat (length src);
  pl_gap : f + Z.of_nat (length fixed) <= h
}.

Definition reads_at (u : mode -> bytes -> ecursor -> Z -> Z -> option (bool * fval * ecursor)) (typed : fval -> bool) (fixed : fval -> Z ->
  bytes) (heap : fval -> bytes) : Prop :=
  forall src ef eh v f h unknown, data_ok src -> typed v = true -> placed src ef eh f h (fixed v (h - f)) (heap v) ->
  u rw src {| e_unknown := unknown; known_pos := true; fixed_pos := f; heap_pos := h |} ef eh =
    Some (true, v, {| e_unknown := unknown; known_pos := true; fixed_pos := f + Z.of_nat (length (fixed v (h - f)));
      heap_pos := h + Z.of_nat (length (heap v)) |}).
Definition unpack_reads (u : mode -> bytes -> cursor -> Z -> option (bool * fval * cursor)) (typed : fval -> bool) (enc : fval -> bytes) :
  Prop :=
  forall src c end_pos v, data_ok src -> typed v = true -> sub src (pos c) (enc v) -> pos c + Z.of_nat (length (enc v)) <= end_pos ->
    end_pos <= Z.of_nat (length src) ->
  u rw src c end_pos = Some (true, v, {| has_unknown := has_unknown c; known_end := true; pos := pos c + Z.of_nat (length (enc v)) |}).

Record reads (p : packable) (l : layout) : Prop := {
  rd_packs : packs p l;
  rd_unpack : unpack_reads (unpack p) (l_typed l) (l_enc l);
  rd_variable : reads_at (embedded_variable_unpack p) (l_typed l) (offset_of l) (content_of l);
  rd_embedded : reads_at (embedded_unpack p) (l_typed l) (l_fixed l) (l_heap l);
  rd_has_value src ef eh v f h : l_opt l = true -> data_ok src -> l_typed l v = true ->
    placed src ef eh f h (l_fixed l v (h - f)) (l_heap l v) -> has_value_at p true src f ef = Some (opt_has_value v)
}.

(** *** The base class *)

Record empty_reads (zero : bool) (typed empty : fval -> bool) (enc : fval -> bytes) (empty_at : bytes -> Z -> Z -> option bool) (cleared :
  fval) : Prop := {
  er_zero v : empty v = true -> zero = true;
  er_cleared v : typed v = true -> empty v = true -> v = cleared;
  er_at src p end_pos v : data_ok src -> typed v = true -> sub src p (enc v) -> p + Z.of_nat (length (enc v)) <= end_pos ->
    end_pos <= Z.of_nat (length src) -> zero = true -> empty_at src p end_pos = Some (empty v)
}.

Lemma never_reads typed enc : empty_reads false typed never_empty enc never_empty_at v_none.
Proof. by constructor. Qed.

Lemma base_variable_reads zero empty_at cleared u l : unpack_reads u (l_typed l) (l_enc l) ->
  empty_reads zero (l_typed l) (l_empty l) (l_enc l) empty_at cleared ->
  reads_at (base_variable_unpack zero empty_at cleared u) (l_typed l) (offset_of l) (content_of l).
Proof.
  intros Hu He src ef eh v f h unk Hs Hv [Hf Hh (Hef & Hef' & Heh & Heh') Hg]. unfold offset_of, content_of in *.
  rewrite length_le_bytes in *. unfold base_variable_unpack. cbn [Verify orb andb fixed_pos heap_pos e_unknown known_pos].
  assert (Hs' := proj2 Hs). assert (H0 := proj1 Hf).
  rewrite (unpack_numeric_sub 4 src f ef (if l_empty l v then 0 else h - f)) by (try done; destruct (l_empty l v); lia).
  cbn [mbind option_bind negb]. destruct (l_empty l v) eqn:Ee.
  - rewrite (er_zero _ _ _ _ _ _ He v Ee), (er_cleared _ _ _ _ _ _ He v Hv Ee). cbn. by rewrite Z.add_0_r.
  - rewrite (proj2 (Z.eqb_neq (h - f) 0)), andb_false_r by lia. replace (f + (h - f)) with h by lia. rewrite u32_small by lia.
    rewrite (proj2 (Z.ltb_ge (h - f) 4)), (Z.ltb_irrefl h), (proj2 (Z.ltb_ge eh h)), Z.eqb_refl by lia. cbn [orb negb andb].
    assert ((if zero then empty_at src h eh else Some false) = Some false) as ->. { destruct zero eqn:Ez; [|done].
    rewrite (er_at _ _ _ _ _ _ He src h eh v) by done. by rewrite Ee. }
    cbn [mbind option_bind]. rewrite (Hu src _ eh v) by done. done.
Qed.
Lemma base_reads fs var zero pk emp empty_at cleared u ty enc : let p := base_packable_impl fs var zero pk emp empty_at cleared
  u in let l := base_layout fs var ty emp enc in
  packs p l -> unpack_reads u ty enc -> empty_reads zero ty emp enc empty_at cleared -> reads p l.
Proof.
  intros p l Hp Hu He. pose proof (base_variable_reads zero empty_at cleared u l Hu He) as Hv. constructor; try done.
  cbn [embedded_unpack p base_packable_impl l_typed l_fixed l_heap l base_layout]. unfold base_embedded_unpack.
  destruct var eqn:Ev; [exact Hv|].
  intros src ef eh v f h unk Hs Ht [Hf Hh (Hef & Hef' & Heh & Heh') Hg]. cbn [fixed_pos heap_pos e_unknown known_pos length].
  rewrite (Hu src _ ef v) by done. cbn. by rewrite Z.add_0_r.
Qed.

(** *** Bytes and numbers *)

Lemma memcpy_reads n : reads (memcpy_packable n) (memcpy_layout n).
Proof.
  apply base_reads; [apply memcpy_packs| |apply never_reads]. intros src c ep v Hs Hv (H0 & H1 & H2) H3 H4.
  destruct v as [bs|b|bs|vs|o|vs|i w]; try done. apply andb_prop in Hv as [Hn _]. zbool. cbn [val_bytes] in *. rewrite Hn in *.
  unfold memcpy_unpack. cbn [Verify Unpack andb orb]. assert (Hs' := proj2 Hs). rewrite !u32_small by lia.
  rewrite (proj2 (Z.ltb_ge _ _)), read_ok by lia. cbn. by rewrite H2.
Qed.
Lemma bool_reads : reads bool_packable bool_layout.
Proof.
  apply base_reads; [apply bool_packs| |apply never_reads]. intros src c ep v Hs Hv (H0 & H1 & H2) H3 H4.
  destruct v as [bs|b|bs|vs|o|vs|i w]; try done. assert (Hs' := proj2 Hs).
  assert (Hl : length (if b then [1] else [0]) = 1%nat) by (by destruct b). rewrite Hl in *. unfold bool_unpack.
  cbn [Verify Unpack andb orb]. rewrite !u32_small by lia. rewrite (proj2 (Z.ltb_ge _ _)), read_ok by lia.
  cbn [mbind option_bind]. rewrite H2. by destruct b.
Qed.
Lemma container_reads ty emp body cleared : (forall v, ty v = true -> emp v = true -> v = cleared) ->
  (forall v, ty v = true -> exists n rest, body v = le_bytes 4 n ++ rest /\ (Z.of_nat (length (body v)) < 2 ^ 32 -> 0 <= n < 2 ^
    32 /\ (emp v = (n =? 0)))) -> empty_reads true ty emp body container_empty_at cleared.
Proof.
  intros Hc Hb. constructor; [done|done|]. intros src p ep v Hs Hv Hsub H1 H2 _. destruct (Hb v Hv) as (n & rest & Heq & Hn).
  rewrite Heq in Hsub. apply sub_concat in Hsub as [Hn' _]. unfold container_empty_at. assert (Hs' := proj2 Hs).
  assert (H0 := proj1 Hn').
  destruct Hn as [Hn1 Hn2]; [lia|]. rewrite (unpack_numeric_sub 4 src p ep n) by (try done;
    rewrite Heq, length_app, length_le_bytes in H1; lia). cbn. by rewrite Hn2.
Qed.
Lemma bytes_empty_reads n : let l := bytes_layout n in empty_reads true (l_typed l) (l_empty l) (l_enc l) container_empty_at
  (v_bytes []).
Proof.
  intros l. subst l. cbn [l_typed l_empty l_enc bytes_layout base_layout]. apply container_reads.
  - intros [bs|b|bs|vs|o|vs|i w]; try done. by destruct bs.
  - intros [bs|b|bs|vs|o|vs|i w]; try done. intros _. eexists _, _. split; [done|]. cbn [val_bytes].
    rewrite length_app, length_le_bytes. intros. split; [lia|]. by destruct bs.
Qed.
Lemma bytes_reads n : (0 < n)%nat -> reads (bytes_packable n) (bytes_layout n).
Proof.
  intros Hpos. apply base_reads; [apply bytes_packs| |].
  - intros src c ep v Hs Hv Hsub H3 H4. destruct v as [bs|b|bs|vs|o|vs|i w]; try done. apply andb_prop in Hv as [Hn _]. zbool.
    cbn [val_bytes] in *. apply sub_concat in Hsub as [Ha Hb]. rewrite length_app, length_le_bytes in *.
    assert (Hs' := proj2 Hs). assert (H0 := proj1 Ha).
    unfold bytes_unpack. cbn [Verify Unpack andb orb].
    rewrite (unpack_numeric_sub 4 src (pos c) ep (Z.of_nat (length bs))) by (try done; lia). cbn [mbind option_bind negb].
    rewrite u32_small by lia.
    rewrite (proj2 (Z.eqb_eq _ _) Hn), !(proj2 (Z.ltb_ge _ _)) by lia. cbn [negb orb]. destruct (_ / _ =? 0) eqn:Ed; zbool.
    + assert (length bs = 0%nat) as Hz%nil_length_inv by (pose proof (Z.div_mod (Z.of_nat (length bs)) (Z.of_nat n) ltac:(lia));
        lia). subst bs. cbn. do 3 f_equal. lia.
    + rewrite Nat2Z.id, read_ok by (destruct Hb; lia). rewrite (proj2 (proj2 Hb)). cbn. do 3 f_equal. lia.
  - apply bytes_empty_reads.
Qed.

(** *** Vectors and arrays *)

Lemma placed_app src ef eh f h x xs y ys : placed src ef eh f h (x ++ xs) (y ++ ys) ->
  placed src ef eh f h x y /\ placed src ef eh (f + Z.of_nat (length x)) (h + Z.of_nat (length y)) xs ys.
Proof.
  intros [Hf Hh (H1 & H2 & H3 & H4) Hg]. apply sub_concat in Hf as [Hf Hfs]. apply sub_concat in Hh as [Hh Hhs].
  rewrite !length_app in *. split; (constructor; [done|done|repeat split; lia|lia]).
Qed.
(** The members start in the space of the fixed parts, and have their contents after it. *)
Lemma members_placed src ep start ls vs : Forall layout_ok ls -> typed_members ls vs = true -> ep <= Z.of_nat (length src) ->
  start + Z.of_nat (length (members_of ls vs)) <= ep -> sub src start (members_of ls vs) ->
  let h := start + sizes ls in placed src h ep start h (fixed_of ls vs (h - start)) (heap_of ls vs).
Proof.
  intros Hls Hvs He Hp Hsub h. unfold members_of in *. apply sub_concat in Hsub as [Hf Hh].
  rewrite length_app, Nat2Z.inj_add in Hp. rewrite length_fixed_of in * by done. replace (h - start) with (sizes ls) by lia.
  constructor; [done|done|..]; rewrite !length_fixed_of by done; [repeat split; unfold h; lia|lia].
Qed.
Lemma length_members ls vs : Forall layout_ok ls -> typed_members ls vs = true ->
  Z.of_nat (length (members_of ls vs)) = sizes ls + Z.of_nat (length (heap_of ls vs)).
Proof. intros Hls Hvs. unfold members_of. rewrite length_app, Nat2Z.inj_add, length_fixed_of by done. done. Qed.

Lemma unpack_items_reads p l src ef eh unk : reads p l -> data_ok src -> forall vs f h, forallb (l_typed l) vs = true ->
  let ls := replicate (length vs) l in placed src ef eh f h (fixed_of ls vs (h - f)) (heap_of ls vs) ->
  exists f', unpack_items p (length vs) rw src {| e_unknown := unk; known_pos := true; fixed_pos := f; heap_pos := h |} ef eh =
    Some (true, vs, {| e_unknown := unk; known_pos := true; fixed_pos := f'; heap_pos := h + Z.of_nat (length (heap_of ls vs))
      |}).
Proof.
  intros Hp Hs. induction vs as [|v vs IH]; intros f h; cbn [forallb length replicate]. { intros _ _. exists f. cbn.
  by rewrite Z.add_0_r. }
  intros [Hv Hvs]%andb_prop. cbn [fixed_of heap_of]. intros [Hpl Hpls]%placed_app. cbn [unpack_items].
  rewrite (rd_embedded p l Hp src ef eh v f h unk Hs Hv Hpl). cbn [mbind option_bind].
  pose proof (length_l_fixed l v (h - f) (pk_layout p l (rd_packs p l Hp)) Hv) as Hl. rewrite Hl in *.
  replace (h - f - l_size l + Z.of_nat (length (l_heap l v))) with (h + Z.of_nat (length (l_heap l v)) - (f + l_size l)) in Hpls
    by lia. destruct (IH _ _ Hvs Hpls) as [f' ->]. exists f'. cbn. do 3 f_equal. rewrite length_app. lia.
Qed.

Lemma vector_empty_reads l : layout_ok l -> 0 < l_size l -> let l' := vector_layout l in empty_reads true (l_typed l') (l_empty
  l') (l_enc l') container_empty_at (v_list []).
Proof.
  intros Hl Hz l'. subst l'. cbn [l_typed l_empty l_enc vector_layout base_layout]. apply container_reads.
  - intros [| | |vs| | |]; try done. by destruct vs.
  - intros [| | |vs| | |]; try done. intros Hv. eexists _, _. split; [done|]. cbn [val_list] in *.
    rewrite length_app, length_le_bytes. rewrite <- typed_replicate in Hv. intros Hlt.
    rewrite Nat2Z.inj_add, length_members, sizes_replicate in Hlt by (try done; by apply Forall_replicate).
    split; [lia|]. destruct vs; [done|]. symmetry. apply Z.eqb_neq. cbn [length]. lia.
Qed.
Lemma vector_reads p l : reads p l -> 0 < l_size l -> reads (vector_packable p) (vector_layout l).
Proof.
  intros Hp Hz. pose proof (rd_packs p l Hp) as Hpk. pose proof (pk_layout p l Hpk) as Hl.
  apply base_reads; [by apply vector_packs| |].
  - intros src c ep v Hs Hv Hsub H3 H4. destruct v as [| | |vs| | |]; try done. cbn [val_list] in *.
    apply sub_concat in Hsub as [Ha Hb]. rewrite length_app, length_le_bytes in *. assert (Hs' := proj2 Hs).
    assert (H0 := proj1 Ha).
    pose proof (Forall_replicate layout_ok (length vs) l Hl) as Hls. pose proof Hv as Hvs. rewrite <- typed_replicate in Hvs.
    pose proof (length_members _ vs Hls Hvs) as Hlm. rewrite sizes_replicate in Hlm.
    unfold vector_unpack. cbn [Verify Unpack andb orb].
    rewrite (unpack_numeric_sub 4 src (pos c) ep (Z.of_nat (length vs) * l_size l)) by (try done; lia).
    cbn [mbind option_bind negb]. rewrite (pk_size p l Hpk).
    rewrite (proj2 (Z.eqb_neq _ _)), Z.mod_mul, Z.div_mul, Nat2Z.id, u32_small by lia.
    rewrite Z.eqb_refl, !(proj2 (Z.ltb_ge _ _)) by lia. cbn [negb orb].
    pose proof (members_placed src ep (pos c + Z.of_nat 4) _ vs Hls Hvs H4 ltac:(lia) Hb) as Hpl. cbn zeta in Hpl.
    rewrite sizes_replicate in Hpl. destruct (unpack_items_reads p l src _ ep (has_unknown c) Hp Hs vs _ _ Hv Hpl) as [f' ->].
    cbn. do 3 f_equal. lia.
  - by apply vector_empty_reads.
Qed.
Lemma array_reads p l n : reads p l -> reads (array_packable p n) (array_layout l n).
Proof.
  intros Hp. pose proof (rd_packs p l Hp) as Hpk. pose proof (pk_layout p l Hpk) as Hl.
  pose proof (array_packs p l n Hpk) as Ha. unfold array_packable in *. rewrite (pk_size p l Hpk), (pk_var p l Hpk) in *.
  apply base_reads; [exact Ha| |apply never_reads]. clear Ha.
  intros src c ep v Hs Hv Hsub H3 H4. destruct v as [| | |vs| | |]; try done. cbn [val_list] in *.
  apply andb_prop in Hv as [Hn Hv]. zbool. subst n. assert (Hs' := proj2 Hs). assert (H0 := proj1 Hsub).
  pose proof (Forall_replicate layout_ok (length vs) l Hl) as Hls. pose proof Hv as Hvs. rewrite <- typed_replicate in Hvs.
  pose proof (length_members _ vs Hls Hvs) as Hlm. rewrite sizes_replicate in Hlm. pose proof (lo_size l Hl) as Hz.
  unfold array_unpack. cbn [Verify Unpack andb orb]. rewrite (pk_size p l Hpk), (Z.mul_comm (l_size l)), u32_small by lia.
  rewrite !(proj2 (Z.ltb_ge _ _)) by lia. cbn [negb orb].
  pose proof (members_placed src ep (pos c) _ vs Hls Hvs H4 ltac:(lia) Hsub) as Hpl. cbn zeta in Hpl.
  rewrite sizes_replicate in Hpl. destruct (unpack_items_reads p l src _ ep (has_unknown c) Hp Hs vs _ _ Hv Hpl) as [f' ->].
  cbn. do 3 f_equal. lia.
Qed.

(** *** Optional *)

(** The first word tells whether there is a value. *)
Lemma opt_word l v src ef eh f h : data_ok src -> l_typed (optional_layout l) v = true ->
  placed src ef eh f h (opt_fixed l v (h - f)) (opt_heap l v) ->
  exists x, unpack_numeric true 4 src f ef = Some (true, x, f + 4) /\ (x =? 1) = negb (opt_has_value v).
Proof.
  intros Hs Hv [Hf Hh (H1 & H2 & H3 & H4) Hg]. assert (Hs' := proj2 Hs). assert (H0 := proj1 Hf). assert (H5 := proj1 Hh).
  destruct v as [| | | |[w|]| |]; try done; unfold opt_fixed, opt_heap in *; cbn [opt_value] in *; unfold offset_of in *;
    rewrite length_le_bytes in *.
  - exists (if l_empty l w then 0 else h - f).
    rewrite (unpack_numeric_sub 4 src f ef (if l_empty l w then 0 else h - f)) by (try done; destruct (l_empty l w); lia).
    split; [done|]. cbn. apply Z.eqb_neq. destruct (l_empty l w); lia.
  - exists 1. by rewrite (unpack_numeric_sub 4 src f ef 1) by (try done; lia).
Qed.
Lemma opt_reads p l : reads p l -> reads (optional_packable p) (optional_layout l).
Proof.
  intros Hp. pose proof (rd_packs p l Hp) as Hpk.
  assert (He : reads_at (opt_embedded_unpack p) (l_typed (optional_layout l)) (opt_fixed l) (opt_heap l)).
  { intros src ef eh v f h unk Hs Hv Hpl. unfold opt_embedded_unpack. cbn [Verify fixed_pos].
    destruct (opt_word l v src ef eh f h Hs Hv Hpl) as (x & -> & Hx). cbn [mbind option_bind negb]. rewrite Hx.
    destruct v as [| | | |[w|]| |]; try done; cbn [opt_has_value opt_value negb].
    - unfold opt_fixed, opt_heap in *. cbn [opt_value] in *. by rewrite (rd_variable p l Hp src ef eh w f h unk Hs Hv Hpl).
    - unfold opt_fixed, opt_heap. cbn [opt_value length heap_pos e_unknown known_pos]. by rewrite Z.add_0_r. }
  assert (Hu : unpack_reads (opt_unpack p) (l_typed (optional_layout l)) (l_enc (optional_layout l))).
  { intros src c ep v Hs Hv Hsub H3 H4. cbn [l_enc optional_layout] in *. apply sub_concat in Hsub as [Ha Hb].
    assert (Hl4 : length (opt_fixed l v 4) = 4%nat) by (unfold opt_fixed, offset_of; destruct (opt_value v);
      apply length_le_bytes). rewrite length_app, Hl4 in *.
    assert (Hs' := proj2 Hs). assert (H0 := proj1 Ha). assert (H5 := proj1 (proj2 Hb)). unfold opt_unpack.
    cbn [Verify andb orb]. rewrite !u32_small by lia. rewrite (proj2 (Z.ltb_ge _ _)) by lia.
    assert (Hg : pos c + 4 - pos c = 4) by lia.
    rewrite (He src (pos c + 4) ep v (pos c) (pos c + 4)); [|done|done|rewrite Hg; constructor; rewrite ?Hl4;
      [done|done|repeat split; lia|lia]]. cbn. do 3 f_equal. lia. }
  constructor; cbn; [by apply opt_packs|exact Hu| |exact He|].
  - apply (base_variable_reads false never_empty_at v_none (opt_unpack p) (optional_layout l) Hu (never_reads _ _)).
  - intros src ef eh v f h _ Hs Hv Hpl. unfold opt_has_value_at.
    destruct (opt_word l v src ef eh f h Hs Hv Hpl) as (x & -> & Hx). cbn. rewrite Hx. by rewrite negb_involutive.
Qed.

(** *** Members *)

Lemma present_cons fd l ls v vs : present fd (l :: ls) (v :: vs) = (if (present fd ls vs =? 0)%nat && negb fd && absent l v then
  0 else S (present fd ls vs))%nat.
Proof. cbn [present]. by destruct (present fd ls vs), fd, (absent l v). Qed.
Lemma present_zero fd ls vs : Forall layout_ok ls -> typed_members ls vs = true -> present fd ls vs = 0%nat ->
  Forall2 (fun l v => l_opt l = true /\ v = v_none) ls vs.
Proof.
  intros Hls. revert vs. induction Hls as [|l ls Hl _ IH]; intros [|v vs]; cbn [typed_members]; try done.
  intros [Hv Hvs]%andb_prop. rewrite present_cons. destruct (_ && _) eqn:E; [|done]. intros _.
  apply andb_prop in E as [[E1 E2]%andb_prop E3]. zbool. constructor; [|by apply IH].
  unfold absent in E3. apply andb_prop in E3 as [E3 E4%negb_true_iff]. split; [done|by apply (lo_none l Hl)].
Qed.

(** Optional members without space are not looked at. *)
Lemma unpack_fields_absent late fd ps ls vs src ok last e ef eh : Forall2 reads ps ls ->
  Forall2 (fun l v => l_opt l = true /\ v = v_none) ls vs -> ef <= fixed_pos e ->
  unpack_fields late fd ps rw src ok last e ef eh = Some (ok, last, vs, e).
Proof.
  intros Hps. revert vs. induction Hps as [|p l ps ls Hp _ IH]; intros vs Hvs He; inversion Hvs as [|? v ? vs' [Ho ->] Hvs'];
    subst; [done|]. cbn [unpack_fields]. rewrite (pk_opt p l (rd_packs p l Hp)), Ho, (proj2 (Z.ltb_ge _ _)) by lia.
  cbn [orb negb]. by rewrite (IH vs' Hvs' He).
Qed.

Lemma unpack_fields_reads late fd src eh unk : data_ok src -> late && fd = false -> forall ps ls, Forall2 reads ps ls ->
  forall vs ef f h last, typed_members ls vs = true ->
  let k := present fd ls vs in ef = f + sizes (take k ls) -> placed src ef eh f h (fixed_of (take k ls) (take k vs) (h - f))
    (heap_of (take k ls) (take k vs)) ->
  unpack_fields late fd ps rw src true last {| e_unknown := unk; known_pos := true; fixed_pos := f; heap_pos := h |} ef eh =
    Some (true, last || (0 <? k)%nat, vs, {| e_unknown := unk; known_pos := true; fixed_pos := ef; heap_pos := h + Z.of_nat
      (length (heap_of (take k ls) (take k vs))) |}).
Proof.
  intros Hs Hlf. induction 1 as [|p l ps ls Hp Hps IH]; intros [|v vs] ef f h last; cbn [typed_members]; try done.
  { intros _. cbn. intros -> _. by rewrite orb_false_r, !Z.add_0_r. }
  intros [Hv Hvs]%andb_prop. pose proof (rd_packs p l Hp) as Hpk. pose proof (pk_layout p l Hpk) as Hl.
  assert (Hls : Forall layout_ok ls) by (eapply Forall2_Forall_r; [exact Hps|]; by apply Forall_true; intros ?? Hr;
    apply (pk_layout _ _ (rd_packs _ _ Hr))).
  destruct (present fd (l :: ls) (v :: vs)) as [|k] eqn:Ek; cbn zeta.
  - intros -> Hpl. assert (Hz : Forall2 (fun l v => l_opt l = true /\ v = v_none) (l :: ls) (v :: vs)) by (apply (present_zero
      fd); [by constructor|cbn; by rewrite Hv, Hvs|done]).
    rewrite (unpack_fields_absent late fd (p :: ps) (l :: ls) (v :: vs)) by first [done|by constructor|cbn; lia]. cbn.
    by rewrite orb_false_r, !Z.add_0_r.
  - rewrite present_cons in Ek. destruct ((present fd ls vs =? 0)%nat && negb fd && absent l v) eqn:Ea; [done|].
    injection Ek as Ek. cbn [take fixed_of heap_of sizes]. intros -> [Hpl Hpls]%placed_app.
    pose proof (length_l_fixed l v (h - f) Hl Hv) as Hlen. rewrite Hlen in Hpls.
    replace (h - f - l_size l + Z.of_nat (length (l_heap l v))) with (h + Z.of_nat (length (l_heap l v)) - (f + l_size l)) in
      Hpls by lia. pose proof (sizes_take ls k Hls) as Hst.
    cbn [unpack_fields fixed_pos]. rewrite (pk_opt p l Hpk).
    assert ((f <? f + (l_size l + sizes (take k ls))) || negb (l_opt l) = true) as ->.
    { destruct (l_opt l) eqn:Eo; [|by rewrite orb_true_r]. rewrite (lo_var l Hl (lo_opt l Hl Eo)).
      by rewrite (proj2 (Z.ltb_lt _ _)) by lia. }
    cbn [Verify]. assert (Hhv : (if l_opt l && negb fd && negb late then has_value_at p true src f (f + (l_size l + sizes (take
      k ls))) else Some true) = Some (if l_opt l && negb fd && negb late then opt_has_value v else true)).
    { destruct (l_opt l) eqn:Eo; [|done]. cbn [andb]. destruct (negb fd && negb late); [|done].
      exact (rd_has_value p l Hp src _ eh v f h Eo Hs Hv Hpl). }
    rewrite Hhv. cbn [mbind option_bind]. rewrite (rd_embedded p l Hp src _ eh v f h unk Hs Hv Hpl).
    cbn [mbind option_bind andb]. rewrite Hlen. subst k.
    rewrite (IH vs (f + (l_size l + sizes (take (present fd ls vs) ls))) (f + l_size l) (h + Z.of_nat (length (l_heap l v))) _
      Hvs ltac:(lia) Hpls). cbn [mbind option_bind].
    assert ((if l_opt l && late then has_value p v else if l_opt l && negb fd && negb late then opt_has_value v else true) ||
      (0 <? present fd ls vs)%nat = last || (0 <? S (present fd ls vs))%nat) as ->.
    { change (0 <? S ?n)%nat with true. rewrite orb_true_r. destruct (present fd ls vs) as [|k]; [|by rewrite orb_true_r].
      cbn in Ea. rewrite orb_false_r. unfold absent in Ea. destruct (l_opt l) eqn:Eo; [|done]. cbn [andb] in *.
      rewrite (pk_value p l Hpk v Eo). destruct fd, late, (opt_has_value v); done. }
    rewrite length_app, Nat2Z.inj_add. do 3 f_equal. lia.
Qed.

Lemma unpack_members_reads late fd ps ls vs src c start ep : data_ok src -> late && fd = false -> Forall2 reads ps ls ->
  typed_members ls vs = true -> known_end c = true -> ep <= Z.of_nat (length src) ->
  let k := present fd ls vs in let body := members_of (take k ls) (take k vs) in start + Z.of_nat (length body) <= ep ->
    sub src start body ->
  unpack_members late fd ps rw src c start (start + sizes (take k ls)) ep = Some (true, v_fields vs, {| has_unknown :=
    has_unknown c; known_end := true; pos := start + Z.of_nat (length body) |}).
Proof.
  intros Hs Hlf Hps Hvs Hk He k body Hb Hsub.
  assert (Hls : Forall layout_ok ls) by (eapply Forall2_Forall_r; [exact Hps|]; by apply Forall_true; intros ?? Hr;
    apply (pk_layout _ _ (rd_packs _ _ Hr))).
  pose proof (members_placed src ep start (take k ls) (take k vs) (Forall_take _ _ _ Hls) (typed_take ls vs k Hvs) He Hb Hsub)
    as Hpl. cbn zeta in Hpl. unfold unpack_members. rewrite Hk.
  rewrite (unpack_fields_reads late fd src ep (has_unknown c) Hs Hlf ps ls Hps vs (start + sizes (take k ls)) start (start +
    sizes (take k ls)) true Hvs eq_refl Hpl). cbn [mbind option_bind negb Verify fixed_pos heap_pos e_unknown known_pos orb].
  rewrite Z.ltb_irrefl.
  do 3 f_equal. unfold body. rewrite length_members by (first [by apply Forall_take|by apply typed_take]). fold k. lia.
Qed.
Lemma reads_packs ps ls : Forall2 reads ps ls -> Forall2 packs ps ls.
Proof. intros H. eapply Forall2_impl; [exact H|]. intros p l Hr. exact (rd_packs p l Hr). Qed.

Lemma tuple_reads ps ls : Forall2 reads ps ls -> sizes ls < 2 ^ 16 -> reads (tuple_packable ps) (tuple_layout ls).
Proof.
  intros Hps Hz. apply base_reads; [apply tuple_packs; [by apply reads_packs|done]| |apply never_reads].
  intros src c ep v Hs Hv Hsub H3 H4. destruct v as [| | | | |vs|]; try done. unfold fields_enc in *.
  cbn [val_list fields_typed] in *. set (k := present false ls vs) in *.
  apply sub_concat in Hsub as [Ha Hb]. rewrite length_app, length_le_bytes in *. assert (Hs' := proj2 Hs).
  assert (H0 := proj1 Ha). pose proof (packs_layouts ps ls (reads_packs ps ls Hps)) as Hls.
  pose proof (sizes_take ls k Hls) as Hst.
  pose proof (length_members (take k ls) (take k vs) (Forall_take _ _ _ Hls) (typed_take ls vs k Hv)) as Hlm.
  unfold tuple_unpack. cbn [Verify Unpack andb orb].
  rewrite (unpack_numeric_sub 2 src (pos c) ep (sizes (take k ls))) by (try done; lia). cbn [mbind option_bind negb].
  rewrite u32_small by lia.
  rewrite !(proj2 (Z.ltb_ge _ _)) by lia. cbn [orb].
  rewrite (unpack_members_reads true false ps ls vs) by (try done; fold k; lia). fold k. cbn. do 3 f_equal. lia.
Qed.

Lemma unpack_all_reads ps ls src ep : Forall2 reads ps ls -> data_ok src -> ep <= Z.of_nat (length src) ->
  forall vs c, typed_members ls vs = true -> let bs := enc_all ls vs in sub src (pos c) bs ->
  pos c + Z.of_nat (length bs) <= ep -> known_end c = true ->
  unpack_all ps rw src true c ep = Some (true, vs, {| has_unknown := has_unknown c; known_end := true; pos := pos c + Z.of_nat
    (length bs) |}).
Proof.
  intros Hps Hs He. induction Hps as [|p l ps ls Hp _ IH]; intros [|v vs] c; cbn [typed_members]; try done. { intros _ _ _ Hk.
  cbn. rewrite Z.add_0_r. destruct c; cbn in *. by rewrite Hk. }
  intros [Hv Hvs]%andb_prop. cbn. intros [Ha Hb]%sub_concat Hep Hk. rewrite length_app in Hep.
  rewrite (rd_unpack p l Hp src c ep v Hs Hv Ha) by lia. cbn. rewrite (IH vs _ Hvs) by first [exact Hb|done|cbn [pos]; lia].
  cbn. do 3 f_equal. rewrite length_app. lia.
Qed.
Lemma struct_reads fd ps ls : Forall2 reads ps ls -> sizes ls < 2 ^ 16 -> reads (struct_packable fd ps) (struct_layout fd ls).
Proof.
  intros Hps Hz. pose proof (reads_packs ps ls Hps) as Hpk. pose proof (packs_layouts ps ls Hpk) as Hls.
  pose proof (struct_packs fd ps ls Hpk Hz) as Hst. unfold struct_packable, struct_layout in *.
  rewrite (members_fixed_size_spec ps ls Hpk) in *.
  assert (Hvar : get_is_var_size fd ps = negb fd || existsb l_var ls) by (unfold get_is_var_size;
    by rewrite (var_members ps ls Hpk)). rewrite Hvar in *. apply base_reads; [exact Hst| |apply never_reads]. clear Hst.
  intros src c ep v Hs Hv Hsub H3 H4. destruct v as [| | | | |vs|]; try done. cbn [fields_typed] in Hv.
  assert (Hs' := proj2 Hs). assert (H0 := proj1 Hsub). unfold struct_unpack. rewrite Hvar, (members_fixed_size_spec ps ls Hpk).
  destruct (negb fd || existsb l_var ls) eqn:E.
  - unfold fields_enc in *. cbn [val_list] in *. set (k := present fd ls vs) in *. apply sub_concat in Hsub as [Ha Hb].
    rewrite length_app in *. pose proof (sizes_take ls k Hls) as Hst.
    pose proof (length_members (take k ls) (take k vs) (Forall_take _ _ _ Hls) (typed_take ls vs k Hv)) as Hlm.
    cbn [Verify andb orb].
    assert (Hn : (if fd then Some (true, sizes ls, pos c) else unpack_numeric true 2 src (pos c) ep) = Some (true, sizes (take k
      ls), pos c + Z.of_nat (length (if fd then [] else le_bytes 2 (sizes (take k ls)))))).
    { destruct fd; [unfold k; rewrite present_fixed, firstn_all by done; cbn; by rewrite Z.add_0_r|].
      rewrite length_le_bytes in *. by rewrite (unpack_numeric_sub 2 src (pos c) ep (sizes (take k ls))) by (try done; lia). }
    rewrite Hn. cbn [mbind option_bind negb]. rewrite u32_small by lia. rewrite !(proj2 (Z.ltb_ge _ _)) by lia. cbn [orb].
    rewrite (unpack_members_reads false fd ps ls vs) by (try done; fold k; lia). fold k. cbn. do 3 f_equal. lia.
  - destruct fd; [|done]. cbn in E. rewrite fixed_definition_enc in * by done. unfold members_of in *.
    destruct (plain_members ls Hls E vs (sizes ls) Hv) as [Hf Hh]. rewrite Hf, Hh, app_nil_r in *. cbn [Verify orb].
    rewrite (unpack_all_reads ps ls src ep Hps Hs H4 vs _ Hv) by done. done.
Qed.

(** *** Variants *)

Lemma variant_reads ps ls : Forall2 reads ps ls -> (length ls < 128)%nat -> reads (variant_packable ps) (variant_layout ls).
Proof.
  intros Hps Hn. apply base_reads; [apply variant_packs; [by apply reads_packs|done]| |apply never_reads].
  intros src c ep v Hs Hv Hsub H3 H4. destruct v as [| | | | | |i w]; try done. unfold variant_enc in *.
  cbn [variant_parts] in *. destruct (ls !! i) as [l|] eqn:El; [|done].
  destruct (Forall2_lookup_r _ _ _ _ _ Hps El) as (p & Ep & Hp).
  assert (Hi : (i < 128)%nat) by (pose proof (lookup_lt_Some _ _ _ El); lia).
  change (Z.of_nat i :: ?x) with ([Z.of_nat i] ++ x) in *. apply sub_concat in Hsub as [Ha [Hb Hc]%sub_concat].
  rewrite !length_app, length_le_bytes in *. cbn [length] in *.
  assert (Hs' := proj2 Hs). assert (H0 := proj1 Ha). unfold variant_unpack. cbn [Verify andb orb].
  rewrite (unpack_numeric_sub 1 src (pos c) ep (Z.of_nat i)) by (try done; cbn -[Z.of_nat]; rewrite ?Z.mod_small; try done;
    lia). cbn [mbind option_bind negb].
  assert (Hland : (Z.land (Z.of_nat i) 0x80 =? 0) = true) by (rewrite <- (Nat2Z.id i); clear -Hi; do 128 (destruct i as [|i];
    [done|]); lia). rewrite Hland. cbn [negb].
  rewrite (unpack_numeric_sub 4 src _ ep (Z.of_nat (length (l_enc l w)))) by (try done; lia). cbn [mbind option_bind negb].
  rewrite u32_small by lia. rewrite !(proj2 (Z.ltb_ge _ _)) by lia. cbn [orb].
  unfold unpack_variant_impl. rewrite Nat2Z.id, Ep. rewrite (rd_unpack p l Hp src _ _ w Hs Hv) by (try done; cbn; lia).
  cbn [mbind option_bind negb known_end pos has_unknown]. rewrite Z.eqb_refl. cbn. do 3 f_equal. lia.
Qed.

(** ** All types *)

Lemma is_packable_reads t : ty_ok t = true -> reads (is_packable t) (layout_of t).
Proof.
  induction t as [n| |n|t IH|t n IH|t IH|ts IH|d ts IH|ts IH] using fty_nested_ind; cbn [ty_ok is_packable layout_of];
    intros Hok.
  - apply memcpy_reads.
  - apply bool_reads.
  - zbool. by apply bytes_reads.
  - apply andb_prop in Hok as [Hz Hok]. zbool. by apply vector_reads; [apply IH|].
  - by apply array_reads, IH.
  - by apply opt_reads, IH.
  - apply andb_prop in Hok as [Hz Hok]. zbool. apply tuple_reads; [by apply (Forall_Forall2_map ty_ok)|done].
  - apply andb_prop in Hok as [Hz Hok]. zbool. apply struct_reads; [by apply (Forall_Forall2_map ty_ok)|done].
  - apply andb_prop in Hok as [Hz Hok]. zbool. apply variant_reads; [by apply (Forall_Forall2_map ty_ok)|by rewrite length_map].
Qed.
