(* ===== verification/FracpackCanon.v ===== *)
(** * fracpack: only the format is read without unknown members

    A value that [unpack<true, true>] yields, with nothing unknown, is well typed and
    its encoding is what was read.  So strict reading accepts exactly what packing
    writes. *)

From S2P Require Import Prelude ToKey Fracpack FracpackSafe FracpackLayout FracpackRead.

#[local] Open Scope Z_scope.

(** ** The laws *)

Definition unpack_canon (u : mode -> bytes -> cursor -> Z -> option (bool * fval * cursor)) (typed : fval -> bool) (enc : fval -> bytes) :
  Prop :=
  forall src c ep v c', data_ok src -> within src (pos c) ep -> u rw src c ep = Some (true, v, c') -> has_unknown c' = false ->
  typed v = true /\ sub src (pos c) (enc v) /\ pos c' = pos c + Z.of_nat (length (enc v)) /\ known_end c' = true.
Definition canon_at (u : mode -> bytes -> ecursor -> Z -> Z -> option (bool * fval * ecursor)) (typed : fval -> bool) (fixed : fval -> Z ->
  bytes) (heap : fval -> bytes) : Prop :=
  forall src ef eh v e e', data_ok src -> within src (fixed_pos e) ef -> within src (heap_pos e) eh -> ef <= heap_pos e ->
    known_pos e = true -> u rw src e ef eh = Some (true, v, e') -> e_unknown e' = false ->
  typed v = true /\ placed src ef eh (fixed_pos e) (heap_pos e) (fixed v (heap_pos e - fixed_pos e)) (heap v) /\
  fixed_pos e' = fixed_pos e + Z.of_nat (length (fixed v (heap_pos e - fixed_pos e))) /\
    heap_pos e' = heap_pos e + Z.of_nat (length (heap v)) /\ known_pos e' = true.

Record canon (p : packable) (l : layout) : Prop := {
  ca_reads : reads p l;
  ca_safe : safe p;
  ca_unpack : unpack_canon (unpack p) (l_typed l) (l_enc l);
  ca_variable : canon_at (embedded_variable_unpack p) (l_typed l) (offset_of l) (content_of l);
  ca_embedded : canon_at (embedded_unpack p) (l_typed l) (l_fixed l) (l_heap l)
}.

Lemma unpack_bounds u src c ep ok v c' : unpack_safe u -> data_ok src -> within src (pos c) ep ->
  u rw src c ep = Some (ok, v, c') -> pos c <= pos c' <= ep /\ (has_unknown c' = false -> has_unknown c = false).
Proof. intros Hu Hs Hc Heq. destruct (Hu rw src c ep eq_refl Hs Hc) as (ok1 & v1 & c1 & Heq1 & Hp & Hk). rewrite Heq in Heq1.
injection Heq1 as <- <- <-. split; [done|]. intros H. destruct (has_unknown c); [|done]. by rewrite Hk in H. Qed.
Lemma embedded_bounds u src e ef eh ok v e' : embedded_safe u -> data_ok src -> within src (fixed_pos e) ef ->
  within src (heap_pos e) eh -> u rw src e ef eh = Some (ok, v, e') ->
  fixed_pos e <= fixed_pos e' <= ef /\ heap_pos e <= heap_pos e' <= eh /\ (e_unknown e' = false -> e_unknown e = false).
Proof. intros Hu Hs Hf Hh Heq. destruct (Hu rw src e ef eh eq_refl Hs Hf Hh) as (ok1 & v1 & c1 & Heq1 & Hp & Hq & Hk).
rewrite Heq in Heq1. injection Heq1 as <- <- <-. split; [done|]. split; [done|]. intros H. destruct (e_unknown e); [|done].
by rewrite Hk in H. Qed.

(** A number that was read is the format of the number. *)
Lemma number_sub src p n x : data_ok src -> 0 <= p -> p + Z.of_nat n <= Z.of_nat (length src) -> of_le (at_pos src p n) = x ->
  sub src p (le_bytes n x).
Proof.
  intros Hs H0 H1 <-. pose proof (length_at_pos src p n H0 H1) as Hl. rewrite <- Hl at 1.
  rewrite le_bytes_of by (apply at_pos_ok, Hs). by apply sub_at.
Qed.

(** ** The base class *)

Lemma base_variable_canon zero empty_at cleared u l : unpack_canon u (l_typed l) (l_enc l) -> unpack_safe u ->
  empty_reads zero (l_typed l) (l_empty l) (l_enc l) empty_at cleared ->
  (zero = true -> l_typed l cleared = true /\ l_empty l cleared = true) ->
    canon_at (base_variable_unpack zero empty_at cleared u) (l_typed l) (offset_of l) (content_of l).
Proof.
  intros Hu Hsafe He Hcl src ef eh v e e' Hs Hf Hh Hfh Hk Heq Hunk. unfold base_variable_unpack in Heq.
  cbn [Verify orb andb] in Heq. rewrite unpack_numeric_verified in Heq by done.
  destruct (ef - fixed_pos e <? Z.of_nat 4) eqn:E4; [done|]. zbool. cbn [mbind option_bind negb] in Heq.
  assert (Hs' := proj2 Hs). unfold within in Hf, Hh.
  pose proof (number_range src (fixed_pos e) 4 Hs ltac:(lia) ltac:(lia)) as Hr. set (x := of_le _) in *.
  assert (Hsub : sub src (fixed_pos e) (le_bytes 4 x)) by (apply number_sub; [done|lia|lia|done]).
  destruct (zero && (x =? 0)) eqn:Ez.
  - apply andb_prop in Ez as [-> Ez]. zbool. rewrite Ez in Hsub. injection Heq as <- <-.
    cbn [fixed_pos heap_pos e_unknown known_pos]. destruct (Hcl eq_refl) as [Hty Hem]. unfold offset_of, content_of.
    rewrite Hem, length_le_bytes. cbn [length]. split; [done|].
    split; [|repeat split; lia]. constructor; rewrite ?length_le_bytes; [done|apply sub_nil; lia|cbn [length]; lia|lia].
  - set (nh := u32 _) in Heq. destruct ((x <? 4) || (nh <? heap_pos e) || (eh <? nh)) eqn:E1; [done|].
    rewrite Hk, andb_true_r in Heq. destruct (nh =? heap_pos e) eqn:E2; cbn [negb] in Heq; [|done]. zbool.
    assert (Hx : fixed_pos e + x = heap_pos e) by (rewrite <- E2; symmetry; apply (u32_sum _ _ eh); fold nh; lia).
    rewrite E2 in Heq.
    destruct (if zero then empty_at src (heap_pos e) eh else Some false) as [b|] eqn:Eb; [|done].
    cbn [mbind option_bind] in Heq. destruct b; [done|].
    destruct (u rw src _ eh) as [[[ok w] c']|] eqn:Eu; [|done]. cbn in Heq. injection Heq as -> -> <-.
    cbn [e_unknown fixed_pos heap_pos known_pos] in *.
    set (c0 := {| has_unknown := e_unknown e; known_end := true; pos := heap_pos e |}) in Eu.
    destruct (Hu src c0 eh v c' Hs Hh Eu Hunk) as (Hty & Hsube & Hpos & Hkn).
    destruct (unpack_bounds u src c0 eh true v c' Hsafe Hs Hh Eu) as [Hb _]. cbn [pos c0] in *.
    assert (Hem : l_empty l v = false). { destruct (l_empty l v) eqn:Ev; [|done]. rewrite (er_zero _ _ _ _ _ _ He v Ev) in Eb.
    rewrite (er_at _ _ _ _ _ _ He src (heap_pos e) eh v) in Eb by (try done; try lia; by apply (er_zero _ _ _ _ _ _ He v)).
    by rewrite Ev in Eb. }
    unfold offset_of, content_of. rewrite Hem, length_le_bytes. replace (heap_pos e - fixed_pos e) with x by lia.
    split; [done|]. split; [|repeat split; try done; lia]. constructor; rewrite ?length_le_bytes; [done|done|lia|lia].
Qed.
Lemma base_canon fs var zero pk emp empty_at cleared u ty enc : let p := base_packable_impl fs var zero pk emp empty_at cleared
  u in let l := base_layout fs var ty emp enc in
  reads p l -> safe p -> unpack_canon u ty enc -> empty_reads zero ty emp enc empty_at cleared ->
    (zero = true -> ty cleared = true /\ emp cleared = true) -> canon p l.
Proof.
  intros p l Hr Hsafe Hu He Hcl. pose proof (base_variable_canon zero empty_at cleared u l Hu (safe_unpack p Hsafe) He Hcl) as
    Hv. constructor; try done. cbn [embedded_unpack p base_packable_impl l_typed l_fixed l_heap l base_layout].
  unfold base_embedded_unpack. destruct var eqn:Ev; [exact Hv|].
  intros src ef eh v e e' Hs Hf Hh Hfh Hk Heq Hunk. destruct (u rw src _ ef) as [[[ok w] c']|] eqn:Eu; [|done]. cbn in Heq.
  injection Heq as -> -> <-. cbn [e_unknown fixed_pos heap_pos known_pos length] in *.
  set (c0 := {| has_unknown := e_unknown e; known_end := known_pos e; pos := fixed_pos e |}) in Eu.
  destruct (Hu src c0 ef v c' Hs Hf Eu Hunk) as (Hty & Hsub & Hpos & Hkn).
  destruct (unpack_bounds u src c0 ef true v c' (safe_unpack p Hsafe) Hs Hf Eu) as [Hb _]. cbn [pos c0] in *.
  unfold within in *.
  split; [done|]. split; [|repeat split; try done; lia]. constructor; [done|apply sub_nil; lia|cbn [length]; lia|lia].
Qed.

(** ** Bytes and numbers *)

Lemma memcpy_canon n : canon (memcpy_packable n) (memcpy_layout n).
Proof.
  apply base_canon; [apply memcpy_reads|apply base_safe; [apply never_safe|apply memcpy_safe]| |apply never_reads|done].
  intros src c ep v c' Hs Hc Heq Hk. unfold memcpy_unpack in Heq. cbn [Verify Unpack andb orb] in Heq. assert (Hs' := proj2 Hs).
  unfold within in Hc. rewrite u32_small in Heq by lia. destruct (_ <? _) eqn:E; [done|]. zbool.
  rewrite read_ok, u32_small in Heq by lia. cbn in Heq. injection Heq as <- <-.
  pose proof (length_at_pos src (pos c) n ltac:(lia) ltac:(lia)) as Hl. cbn.
  rewrite Hl, Nat.eqb_refl, (proj2 (byteb_spec _)) by (apply at_pos_ok, Hs). split; [done|]. split; [apply sub_at; lia|done].
Qed.
Lemma bool_canon : canon bool_packable bool_layout.
Proof.
  apply base_canon; [apply bool_reads|apply base_safe; [apply never_safe|apply bool_safe]| |apply never_reads|done].
  intros src c ep v c' Hs Hc Heq Hk. unfold bool_unpack in Heq. cbn [Verify Unpack andb orb] in Heq. assert (Hs' := proj2 Hs).
  unfold within in Hc. rewrite (u32_small (ep - pos c)) in Heq by lia. destruct (_ <? 1) eqn:E; [done|]. zbool.
  rewrite read_ok, u32_small in Heq by lia. cbn [mbind option_bind] in Heq.
  pose proof (number_range src (pos c) 1 Hs ltac:(lia) ltac:(lia)) as Hr. set (x := of_le _) in *.
  assert (Hsub : sub src (pos c) (le_bytes 1 x)) by (apply number_sub; [done|lia|lia|done]). destruct (1 <? x) eqn:E1; [done|].
  zbool. injection Heq as <- <-. cbn [pos known_end].
  assert (x = 0 \/ x = 1) as [Hx|Hx] by lia; rewrite Hx in *; done.
Qed.
Lemma bytes_canon n : (0 < n)%nat -> canon (bytes_packable n) (bytes_layout n).
Proof.
  intros Hn. assert (Hr := bytes_reads n Hn).
  apply base_canon; [done|apply base_safe; [apply container_empty_safe|apply bytes_safe]| | |].
  - intros src c ep v c' Hs Hc Heq Hk. unfold bytes_unpack in Heq. cbn [Verify Unpack andb orb] in Heq.
    rewrite unpack_numeric_verified in Heq by done. destruct (ep - pos c <? Z.of_nat 4) eqn:E; [done|]. zbool.
    cbn [mbind option_bind negb] in Heq. assert (Hs' := proj2 Hs). unfold within in Hc.
    pose proof (number_range src (pos c) 4 Hs ltac:(lia) ltac:(lia)) as Hx. set (x := of_le _) in *.
    assert (Hsub : sub src (pos c) (le_bytes 4 x)) by (apply number_sub; [done|lia|lia|done]). set (np := u32 _) in Heq.
    destruct (negb (x mod Z.of_nat n =? 0) || (np <? pos c + Z.of_nat 4) || (ep <? np)) eqn:E1; [done|]. zbool.
    assert (Em : x mod Z.of_nat n = 0) by lia. assert (Hnp : np = pos c + Z.of_nat 4 + x) by (apply (u32_sum _ _ ep); lia).
    assert (Hv : v = v_bytes (at_pos src (pos c + Z.of_nat 4) (Z.to_nat x)) /\ c' = {| has_unknown := has_unknown c;
      known_end := true; pos := np |}).
    { destruct (x / Z.of_nat n =? 0) eqn:Ed; zbool; cbn [mbind option_bind] in Heq; [|rewrite read_ok in Heq by lia; cbn in Heq;
        injection Heq as <- <-; split; reflexivity]. injection Heq as <- <-. split; [|done].
      assert (x = 0) as -> by (pose proof (Z.div_mod x (Z.of_nat n) ltac:(lia)); lia). done. }
    destruct Hv as [-> ->]. cbn [val_bytes pos known_end].
    pose proof (length_at_pos src (pos c + Z.of_nat 4) (Z.to_nat x) ltac:(lia) ltac:(lia)) as Hl.
    rewrite length_app, length_le_bytes, Hl, Z2Nat.id, Em, (proj2 (byteb_spec _)) by (first [lia|apply at_pos_ok, Hs]).
    split; [done|]. split; [|split; [lia|done]]. apply sub_concat. rewrite length_le_bytes. split; [done|]. apply sub_at; lia.
  - apply bytes_empty_reads.
  - done.
Qed.

(** ** Vectors and arrays *)

Lemma placed_join src ef eh f h x xs y ys : ef <= h -> placed src ef eh f h x y ->
  placed src ef eh (f + Z.of_nat (length x)) (h + Z.of_nat (length y)) xs ys -> placed src ef eh f h (x ++ xs) (y ++ ys).
Proof. intros Hfh [Hf Hh (H1 & H2 & H3 & H4) Hg] [Hfs Hhs (H1' & _ & H3' & _) Hg'].
constructor; rewrite ?length_app; [by apply sub_concat|by apply sub_concat|lia|lia]. Qed.
Lemma placed_members src ep start ls vs : Forall layout_ok ls -> typed_members ls vs = true ->
  let h := start + sizes ls in placed src h ep start h (fixed_of ls vs (h - start)) (heap_of ls vs) ->
  sub src start (members_of ls vs).
Proof. intros Hls Hvs h [Hf Hh _ _]. unfold members_of. replace (h - start) with (sizes ls) in Hf by lia. apply sub_concat.
split; [done|]. by rewrite length_fixed_of. Qed.

Lemma placed_nil src ef eh f h : within src f ef -> within src h eh -> ef <= h -> placed src ef eh f h [] [].
Proof. unfold within. intros. constructor; cbn [length]; [apply sub_nil; lia|apply sub_nil; lia|lia|lia]. Qed.

Lemma unpack_items_canon p l src ef eh : canon p l -> data_ok src -> forall n e vs e', within src (fixed_pos e) ef ->
  within src (heap_pos e) eh -> ef <= heap_pos e -> known_pos e = true ->
  unpack_items p n rw src e ef eh = Some (true, vs, e') -> e_unknown e' = false ->
  let ls := replicate n l in length vs = n /\ typed_members ls vs = true /\
    placed src ef eh (fixed_pos e) (heap_pos e) (fixed_of ls vs (heap_pos e - fixed_pos e)) (heap_of ls vs) /\
  heap_pos e' = heap_pos e + Z.of_nat (length (heap_of ls vs)) /\ known_pos e' = true.
Proof.
  intros Hp Hs. induction n as [|n IH]; intros e vs e' Hf Hh Hfh Hk Heq Hunk; cbn [unpack_items] in Heq.
  { injection Heq as <- <-. cbn. split; [done|]. split; [done|]. split; [by apply placed_nil|split; [lia|done]]. }
  destruct (embedded_unpack p rw src e ef eh) as [[[ok v] e1]|] eqn:Ee; [|done]. cbn [mbind option_bind] in Heq.
  destruct ok; [|done]. destruct (unpack_items p n rw src e1 ef eh) as [[[ok ws] e2]|] eqn:Ei; [|done]. cbn in Heq.
  injection Heq as -> <- ->.
  destruct (embedded_bounds _ src e ef eh true v e1 (safe_embedded p (ca_safe p l Hp)) Hs Hf Hh Ee) as (Hf1 & Hh1 & Hk1).
  assert (Hf1' : within src (fixed_pos e1) ef) by (unfold within in *; lia).
  assert (Hh1' : within src (heap_pos e1) eh) by (unfold within in *; lia).
  destruct (unpack_items_safe p n rw src e1 ef eh (ca_safe p l Hp) eq_refl Hs Hf1' Hh1') as (ok2 & vs2 & e2 & Heq2 & _ & Hk2).
  rewrite Ei in Heq2. injection Heq2 as <- <- <-.
  assert (Hu1 : e_unknown e1 = false) by (destruct (e_unknown e1); [by rewrite Hk2 in Hunk|done]).
  destruct (ca_embedded p l Hp src ef eh v e e1 Hs Hf Hh Hfh Hk Ee Hu1) as (Hty & Hpl & Hfp & Hhp & Hkn).
  destruct (IH e1 ws e' Hf1' Hh1' ltac:(lia) Hkn Ei Hunk) as (Hlen & Htys & Hpls & Hhps & Hkns).
  cbn [replicate typed_members fixed_of heap_of length]. rewrite Hlen, Hty, Htys. split; [done|]. split; [done|].
  pose proof (length_l_fixed l v (heap_pos e - fixed_pos e) (pk_layout p l (rd_packs p l (ca_reads p l Hp))) Hty) as Hlf.
  split; [|rewrite length_app; split; [lia|done]]. apply placed_join; [done|done|]. rewrite Hfp, Hhp in Hpls.
  replace (heap_pos e - fixed_pos e - l_size l + Z.of_nat (length (l_heap l v))) with (heap_pos e + Z.of_nat (length (l_heap l
    v)) - (fixed_pos e + Z.of_nat (length (l_fixed l v (heap_pos e - fixed_pos e))))) by lia. done.
Qed.

Lemma vector_canon p l : canon p l -> 0 < l_size l -> canon (vector_packable p) (vector_layout l).
Proof.
  intros Hp Hz. pose proof (ca_reads p l Hp) as Hr. pose proof (rd_packs p l Hr) as Hpk. pose proof (pk_layout p l Hpk) as Hl.
  apply base_canon; [by apply vector_reads|apply base_safe; [apply container_empty_safe|apply vector_safe;
    [apply (ca_safe p l Hp)|by rewrite (pk_size p l Hpk)]]| |by apply vector_empty_reads|done].
  intros src c ep v c' Hs Hc Heq Hk. unfold vector_unpack in Heq. cbn [Verify Unpack andb orb] in Heq.
  rewrite unpack_numeric_verified in Heq by done. destruct (ep - pos c <? Z.of_nat 4) eqn:E; [done|]. zbool.
  cbn [mbind option_bind negb] in Heq. rewrite (pk_size p l Hpk), (proj2 (Z.eqb_neq _ _)) in Heq by lia.
  assert (Hs' := proj2 Hs). unfold within in Hc. pose proof (number_range src (pos c) 4 Hs ltac:(lia) ltac:(lia)) as Hx.
  set (x := of_le _) in *. assert (Hsub : sub src (pos c) (le_bytes 4 x)) by (apply number_sub; [done|lia|lia|done]).
  set (np := u32 _) in Heq.
  destruct (negb (x mod l_size l =? 0) || (np <? pos c + Z.of_nat 4) || (ep <? np)) eqn:E1; [done|]. zbool.
  assert (Hnp : np = pos c + Z.of_nat 4 + x) by (apply (u32_sum _ _ ep); lia).
  pose proof (Z.div_mod x (l_size l) ltac:(lia)) as Hdm. pose proof (Z.div_pos x (l_size l) ltac:(lia) ltac:(lia)) as Hd.
  set (e := {| e_unknown := _; known_pos := _; fixed_pos := _; heap_pos := _ |}) in Heq.
  destruct (unpack_items p _ rw src e np ep) as [[[ok vs] e']|] eqn:Ei; [|done]. cbn [mbind option_bind] in Heq.
  injection Heq as -> <- <-. cbn [has_unknown known_end pos] in *.
  destruct (unpack_items_canon p l src np ep Hp Hs _ e vs e' ltac:(unfold within; cbn; lia) ltac:(unfold within; cbn;
    lia) ltac:(cbn; lia) eq_refl Ei Hk) as (Hlen & Hty & Hpl & Hhp & Hkn). cbn [fixed_pos heap_pos e] in *. cbn [val_list].
  rewrite <- Hlen in Hty, Hpl, Hhp. assert (Hxx : Z.of_nat (length vs) * l_size l = x) by (rewrite Hlen, Z2Nat.id by lia; lia).
  pose proof (Forall_replicate layout_ok (length vs) l Hl) as Hls. rewrite Hxx. split; [by rewrite <- typed_replicate|].
  assert (Hsm : sub src (pos c + Z.of_nat 4) (members_of (replicate (length vs) l) vs)).
  { apply (placed_members src ep _ _ vs Hls Hty). cbn zeta. rewrite sizes_replicate, Hxx, <- Hnp. exact Hpl. }
  split; [apply sub_concat; by rewrite length_le_bytes|]. split; [|done].
  rewrite length_app, length_le_bytes, Nat2Z.inj_add, length_members, sizes_replicate by done. lia.
Qed.

Lemma array_canon p l n : canon p l -> canon (array_packable p n) (array_layout l n).
Proof.
  intros Hp. pose proof (ca_reads p l Hp) as Hr. pose proof (rd_packs p l Hr) as Hpk. pose proof (pk_layout p l Hpk) as Hl.
  pose proof (array_reads p l n Hr) as Ha. assert (Hsafe : safe (array_packable p n)) by (apply base_safe;
    [apply never_safe|apply array_safe, (ca_safe p l Hp)]).
  unfold array_packable in *. rewrite (pk_size p l Hpk), (pk_var p l Hpk) in *.
  apply base_canon; [exact Ha|exact Hsafe| |apply never_reads|done]. clear Ha Hsafe.
  intros src c ep v c' Hs Hc Heq Hk. unfold array_unpack in Heq. cbn [Verify Unpack andb orb] in Heq.
  rewrite (pk_size p l Hpk) in Heq. assert (Hs' := proj2 Hs). unfold within in Hc. pose proof (lo_size l Hl) as Hz.
  set (np := u32 _) in Heq. destruct ((np <? pos c) || (ep <? np)) eqn:E1; [done|]. zbool.
  set (e := {| e_unknown := _; known_pos := _; fixed_pos := _; heap_pos := _ |}) in Heq.
  destruct (unpack_items p _ rw src e np ep) as [[[ok vs] e']|] eqn:Ei; [|done]. cbn [mbind option_bind] in Heq.
  injection Heq as -> <- <-. cbn [has_unknown known_end pos] in *.
  destruct (unpack_items_canon p l src np ep Hp Hs _ e vs e' ltac:(unfold within; cbn; lia) ltac:(unfold within; cbn;
    lia) ltac:(cbn; lia) eq_refl Ei Hk) as (Hlen & Hty & Hpl & Hhp & Hkn). cbn [fixed_pos heap_pos e] in *. cbn [val_list].
  rewrite Hlen, Nat.eqb_refl.
  pose proof (Forall_replicate layout_ok n l Hl) as Hls. pose proof (length_fixed_of _ Hls vs (np - pos c) Hty) as Hlf.
  rewrite sizes_replicate in Hlf.
  assert (Hnp : np = pos c + sizes (replicate n l)). { rewrite sizes_replicate. destruct (pl_ends _ _ _ _ _ _ _ Hpl) as [Hle _].
  assert (np <= pos c + l_size l * Z.of_nat n) by (apply Z.mod_le; lia). lia. }
  split; [by rewrite <- typed_replicate, Hlen|]. rewrite Hnp in Hpl.
  pose proof (placed_members src ep (pos c) _ vs Hls Hty Hpl) as Hsm. split; [done|]. split; [|done].
  rewrite length_members by done. lia.
Qed.

(** ** Optional *)

Lemma opt_embedded_canon p l : canon p l -> canon_at (opt_embedded_unpack p) (l_typed (optional_layout l)) (opt_fixed l)
  (opt_heap l).
Proof.
  intros Hp src ef eh v e e' Hs Hf Hh Hfh Hk Heq Hunk. unfold opt_embedded_unpack in Heq. cbn [Verify] in Heq.
  rewrite unpack_numeric_verified in Heq by done. destruct (ef - fixed_pos e <? Z.of_nat 4) eqn:E4; [done|]. zbool.
  cbn [mbind option_bind negb] in Heq. destruct (_ =? 1) eqn:E1; zbool.
  - injection Heq as <- <-. unfold within in *.
    assert (Hsub : sub src (fixed_pos e) (le_bytes 4 1)) by (apply number_sub; [done|lia|lia|done]).
    cbn [fixed_pos heap_pos known_pos]. unfold opt_fixed, opt_heap. cbn [v_none opt_value]. rewrite length_le_bytes.
    cbn [length].
    split; [done|]. split; [|repeat split; try done; lia].
    constructor; rewrite ?length_le_bytes; cbn [length]; [done|apply sub_nil; lia|lia|lia].
  - destruct (embedded_variable_unpack p rw src e ef eh) as [[[ok w] e1]|] eqn:Ee; [|done]. cbn in Heq.
    injection Heq as -> <- ->. exact (ca_variable p l Hp src ef eh w e e' Hs Hf Hh Hfh Hk Ee Hunk).
Qed.
Lemma opt_canon p l : canon p l -> canon (optional_packable p) (optional_layout l).
Proof.
  intros Hp. pose proof (opt_embedded_canon p l Hp) as He. pose proof (opt_safe p (ca_safe p l Hp)) as Hsafe.
  assert (Hu : unpack_canon (opt_unpack p) (l_typed (optional_layout l)) (l_enc (optional_layout l))).
  { intros src c ep v c' Hs Hc Heq Hk. unfold opt_unpack in Heq. cbn [Verify andb orb] in Heq. assert (Hs' := proj2 Hs).
    unfold within in Hc. rewrite u32_small in Heq by lia. destruct (_ <? 4) eqn:E; [done|]. zbool.
    rewrite u32_small in Heq by lia.
    set (e := {| e_unknown := _; known_pos := _; fixed_pos := _; heap_pos := _ |}) in Heq.
    destruct (opt_embedded_unpack p rw src e _ ep) as [[[ok w] e1]|] eqn:Ee; [|done]. cbn in Heq. injection Heq as -> -> <-.
    cbn [has_unknown known_end pos] in *.
    destruct (He src (pos c + 4) ep v e e1 Hs ltac:(unfold within; cbn; lia) ltac:(unfold within; cbn; lia) ltac:(cbn;
      lia) eq_refl Ee Hk) as (Hty & Hpl & Hfp & Hhp & Hkn). cbn [fixed_pos heap_pos e] in *.
    replace (pos c + 4 - pos c) with 4 in * by lia. split; [done|]. cbn [l_enc optional_layout].
    assert (Hl4 : length (opt_fixed l v 4) = 4%nat) by (unfold opt_fixed, offset_of; destruct (opt_value v);
      apply length_le_bytes). rewrite sub_concat, length_app, Hl4.
    split; [split; [exact (pl_fixed _ _ _ _ _ _ _ Hpl)|exact (pl_heap _ _ _ _ _ _ _ Hpl)]|]. split; [lia|done]. }
  constructor; [apply opt_reads, (ca_reads p l Hp)|done|done| |done].
  exact (base_variable_canon false never_empty_at v_none (opt_unpack p) (optional_layout l) Hu (safe_unpack _ Hsafe)
    (never_reads _ _) ltac:(done)).
Qed.

(** ** Members *)

Lemma unpack_fields_ok late fd ps m src ok last e ef eh last' vs e' :
  unpack_fields late fd ps m src ok last e ef eh = Some (true, last', vs, e') -> ok = true.
Proof.
  revert ok last e last' vs e'. induction ps as [|p ps IH]; intros ok last e last' vs e'; cbn [unpack_fields];
    [by intros [= -> _ _ _]|]. destruct (_ || _).
  - destruct (if Verify m then _ else _) as [hv|]; [|done]. cbn [mbind option_bind].
    destruct (embedded_unpack _ _ _ _ _ _) as [[[ok1 v] e1]|]; [|done]. cbn [mbind option_bind].
    destruct (unpack_fields _ _ _ _ _ _ _ _ _ _) as [[[[ok2 last2] ws] e2]|] eqn:Ei; [|done]. cbn.
    intros [= -> _ _ _]. by apply IH, andb_prop in Ei as [-> _].
  - destruct (unpack_fields _ _ _ _ _ _ _ _ _ _) as [[[[ok2 last2] ws] e2]|] eqn:Ei; [|done]. cbn. intros [= -> _ _ _].
    by apply IH in Ei.
Qed.
(** A member that was read, and that the last flag accepts, is present. *)
Lemma read_member_present p l late fd src ef eh e v hv k : canon p l -> data_ok src -> l_typed l v = true ->
  placed src ef eh (fixed_pos e) (heap_pos e) (l_fixed l v (heap_pos e - fixed_pos e)) (l_heap l v) ->
  (if l_opt l && negb fd && negb late then has_value_at p true src (fixed_pos e) ef else Some true) = Some hv ->
  (k = 0%nat -> (if l_opt l && late then has_value p v else hv) = true) -> (k =? 0)%nat && negb fd && absent l v = false.
Proof.
  intros Hp Hs Hty Hpl Ehv Hlast. destruct k; [|done]. cbn [Nat.eqb andb]. specialize (Hlast eq_refl). unfold absent.
  destruct (l_opt l) eqn:Eo; [|by rewrite andb_false_r]. cbn [andb] in *. destruct fd; [done|]. cbn [negb andb] in *.
  destruct late; cbn [negb] in *.
  - rewrite (pk_value p l (rd_packs p l (ca_reads p l Hp)) v Eo) in Hlast. by rewrite Hlast.
  - rewrite (rd_has_value p l (ca_reads p l Hp) src ef eh v _ _ Eo Hs Hty Hpl) in Ehv. injection Ehv as Ehv.
    by rewrite Ehv, Hlast.
Qed.
(** Where there is no space left, no member is present. *)
Lemma no_space_no_member fd ls vs : Forall layout_ok ls -> Forall (fun l => 0 < l_size l) ls ->
  sizes (take (present fd ls vs) ls) <= 0 ->
  present fd ls vs = 0%nat.
Proof.
  intros Hls Hsz Hle. destruct (present fd ls vs) as [|k] eqn:Ep; [done|]. destruct ls as [|l ls]; [done|].
  cbn [take sizes] in Hle.
  apply Forall_cons in Hsz as [Hz _]. apply Forall_cons in Hls as [_ Hls]. pose proof (sizes_take ls k Hls). lia.
Qed.
Lemma canon_reads ps ls : Forall2 canon ps ls -> Forall2 reads ps ls.
Proof. intros H. eapply Forall2_impl; [exact H|]. intros p l Hr. exact (ca_reads p l Hr). Qed.
Lemma canon_safe ps ls : Forall2 canon ps ls -> Forall safe ps.
Proof. induction 1 as [|p l ps ls Hp _ IH]; constructor; [exact (ca_safe p l Hp)|done]. Qed.
Lemma canon_layouts ps ls : Forall2 canon ps ls -> Forall layout_ok ls.
Proof. intros H. exact (packs_layouts ps ls (reads_packs ps ls (canon_reads ps ls H))). Qed.

(** What was read of members: those that are present, one after the other. *)
Definition fields_read (fd : bool) (src : bytes) (ef eh : Z) (ls : list layout) (vs : list fval) (e e' : ecursor) : Prop :=
  let k := present fd ls vs in
  typed_members ls vs = true /\
  placed src ef eh (fixed_pos e) (heap_pos e) (fixed_of (take k ls) (take k vs) (heap_pos e - fixed_pos e)) (heap_of (take k ls) (take k vs)) /\
  fixed_pos e' = fixed_pos e + sizes (take k ls) /\ heap_pos e' = heap_pos e + Z.of_nat (length (heap_of (take k ls) (take k vs))) /\
  known_pos e' = true.

Lemma fields_read_cons fd src ef eh l ls v vs e e1 e' : layout_ok l -> ef <= heap_pos e ->
  (present fd ls vs =? 0)%nat && negb fd && absent l v = false ->
  l_typed l v = true -> placed src ef eh (fixed_pos e) (heap_pos e) (l_fixed l v (heap_pos e - fixed_pos e)) (l_heap l v) ->
  fixed_pos e1 = fixed_pos e + l_size l -> heap_pos e1 = heap_pos e + Z.of_nat (length (l_heap l v)) ->
  fields_read fd src ef eh ls vs e1 e' -> fields_read fd src ef eh (l :: ls) (v :: vs) e e'.
Proof.
  intros Hl Hfh Hna Hty Hpl Hfp Hhp (Htys & Hpls & Hfps & Hhps & Hkns). unfold fields_read. cbn zeta. rewrite present_cons, Hna.
  cbn [take typed_members fixed_of heap_of sizes length]. rewrite Hty, Htys, length_app. split; [done|].
  split; [|split; [lia|split; [lia|done]]].
  apply placed_join; [done|done|]. rewrite length_l_fixed by done. rewrite Hfp, Hhp in Hpls.
  replace (heap_pos e - fixed_pos e - l_size l + Z.of_nat (length (l_heap l v)))
    with (heap_pos e + Z.of_nat (length (l_heap l v)) - (fixed_pos e + l_size l)) by lia. done.
Qed.
Lemma fields_read_skip src ef eh l ls vs e e' : layout_ok l -> l_opt l = true -> present false ls vs = 0%nat ->
  fields_read false src ef eh ls vs e e' -> fields_read false src ef eh (l :: ls) (v_none :: vs) e e'.
Proof.
  intros Hl Ho Hk (Htys & Hpls & Hfps & Hhps & Hkns). unfold fields_read. cbn zeta. rewrite present_cons, Hk in *.
  unfold absent. rewrite Ho.
  cbn [v_none opt_has_value opt_value Nat.eqb negb andb take fixed_of heap_of sizes length] in *. cbn [typed_members].
  by rewrite Htys, (lo_absent l Hl Ho).
Qed.

(** Members that can be absent are not followed by members of size 0. *)
Fixpoint sized_after (ls : list layout) : bool :=
  match ls with
  | [] => true
  | l :: ls => (negb (l_opt l) || forallb (fun l => 0 <? l_size l) ls) && sized_after ls
  end.
Lemma sized_after_cons l ls : sized_after (l :: ls) = true -> (l_opt l = true -> Forall (fun l => 0 < l_size l) ls) /\ sized_after ls = true.
Proof.
  cbn. intros [H1 H2]%andb_prop. split; [|done]. intros Ho. rewrite Ho in H1. cbn [negb orb] in H1. apply Forall_forall. intros x Hx. rewrite forallb_forall in H1.
  apply list_elem_of_In, H1 in Hx. by zbool.
Qed.

Lemma unpack_fields_canon late fd src ef eh : data_ok src -> late && fd = false -> forall ps ls, Forall2 canon ps ls ->
  (fd = false -> sized_after ls = true) -> forall e ok last vs e',
  within src (fixed_pos e) ef -> within src (heap_pos e) eh -> ef <= heap_pos e -> known_pos e = true ->
  (fd = true -> ef = fixed_pos e + sizes ls) ->
  unpack_fields late fd ps rw src ok last e ef eh = Some (true, true, vs, e') -> e_unknown e' = false ->
  (present fd ls vs = 0%nat -> last = true) /\ fields_read fd src ef eh ls vs e e'.
Proof.
  intros Hs Hlf. induction 1 as [|p l ps ls Hp Hps IH]; intros Hsz e ok last vs e' Hf Hh Hfh Hk Htot Heq Hunk;
    cbn [unpack_fields] in Heq.
  { injection Heq as -> -> <- <-. unfold fields_read. cbn. split; [done|]. split; [done|]. split; [by apply placed_nil|].
    split; [lia|]. split; [lia|done]. }
  pose proof (rd_packs p l (ca_reads p l Hp)) as Hpk. pose proof (pk_layout p l Hpk) as Hl.
  pose proof (canon_layouts ps ls Hps) as Hls. pose proof (canon_safe ps ls Hps) as Hsafes. rewrite (pk_opt p l Hpk) in Heq.
  destruct ((fixed_pos e <? ef) || negb (l_opt l)) eqn:Ec.
  - cbn [Verify andb] in Heq.
    destruct (if l_opt l && negb fd && negb late then has_value_at p true src (fixed_pos e) ef else Some true) as [hv|] eqn:Ehv;
      [|done].
    cbn [mbind option_bind] in Heq. destruct (embedded_unpack p rw src e ef eh) as [[[ok1 v] e1]|] eqn:Ee; [|done].
    cbn [mbind option_bind] in Heq. set (last1 := if l_opt l && late then has_value p v else hv) in Heq.
    destruct (unpack_fields late fd ps rw src (ok && ok1) last1 e1 ef eh) as [[[[ok2 last2] ws] e2]|] eqn:Ei; [|done].
    cbn in Heq. injection Heq as -> -> <- ->.
    destruct (embedded_bounds _ src e ef eh ok1 v e1 (safe_embedded p (ca_safe p l Hp)) Hs Hf Hh Ee) as (Hf1 & Hh1 & Hk1).
    assert (Hf1' : within src (fixed_pos e1) ef) by (unfold within in *; lia).
    assert (Hh1' : within src (heap_pos e1) eh) by (unfold within in *; lia).
    destruct (unpack_fields_safe late fd ps rw src eq_refl Hs Hsafes (ok && ok1) last1 e1 ef eh Hf1' Hh1')
      as (? & ? & ? & ? & Heq2 & _ & _ & Hk2). rewrite Ei in Heq2. injection Heq2 as <- <- <- <-.
    assert (Hu1 : e_unknown e1 = false) by (destruct (e_unknown e1); [by rewrite Hk2 in Hunk|done]).
    destruct (andb_prop _ _ (unpack_fields_ok _ _ _ _ _ _ _ _ _ _ _ _ _ Ei)) as [_ ->].
    destruct (ca_embedded p l Hp src ef eh v e e1 Hs Hf Hh Hfh Hk Ee Hu1) as (Hty & Hpl & Hfp & Hhp & Hkn).
    rewrite length_l_fixed in Hfp by done.
    destruct (IH ltac:(intros Hfd; by apply Hsz, sized_after_cons in Hfd as [_ Hfd]) e1 (ok && true) last1 ws e' Hf1' Hh1' ltac:(lia) Hkn
      ltac:(intros Hfd; specialize (Htot Hfd); cbn in Htot; lia) Ei Hunk) as (Hlast & Hread).
    pose proof (read_member_present p l late fd src ef eh e v hv _ Hp Hs Hty Hpl Ehv Hlast) as Hna.
    split; [by rewrite present_cons, Hna|]. by apply (fields_read_cons fd src ef eh l ls v ws e e1 e').
  - apply orb_false_elim in Ec as [Ec%Z.ltb_ge Eo%negb_false_iff].
    destruct (unpack_fields late fd ps rw src ok last e ef eh) as [[[[ok2 last2] ws] e2]|] eqn:Ei; [|done]. cbn in Heq.
    injection Heq as -> -> <- ->. assert (Hfd : fd = false).
    { destruct fd; [|done]. specialize (Htot eq_refl). cbn in Htot. pose proof (sizes_nonneg ls Hls).
      rewrite (lo_var l Hl (lo_opt l Hl Eo)) in Htot. lia. }
    specialize (Hsz Hfd). apply sized_after_cons in Hsz as [Hpos Hsz]. specialize (Hpos Eo).
    destruct (IH ltac:(done) e ok last ws e' Hf Hh Hfh Hk ltac:(by rewrite Hfd) Ei Hunk) as (Hlast & Hread).
    destruct (unpack_fields_safe late fd ps rw src eq_refl Hs Hsafes ok last e ef eh Hf Hh) as (? & ? & ? & ? & Heq2 & Hb2 & _).
    rewrite Ei in Heq2. injection Heq2 as <- <- <- <-.
    assert (Hk0 : present fd ls ws = 0%nat) by (apply no_space_no_member; [done|done|]; destruct Hread as (_ & _ & Hr & _);
      lia).
    split; [auto|]. subst fd. by apply fields_read_skip.
Qed.

Lemma unpack_members_canon late fd ps ls src c start heap ep v c' : data_ok src -> late && fd = false -> Forall2 canon ps ls ->
  (fd = false -> sized_after ls = true) -> known_end c = true ->
  within src start heap -> within src heap ep -> (fd = true -> heap = start + sizes ls) ->
    unpack_members late fd ps rw src c start heap ep = Some (true, v, c') -> has_unknown c' = false ->
  exists vs, let k := present fd ls vs in let body := members_of (take k ls) (take k vs) in
  v = v_fields vs /\ typed_members ls vs = true /\ heap = start + sizes (take k ls) /\ sub src start body /\
    pos c' = start + Z.of_nat (length body) /\ known_end c' = true.
Proof.
  intros Hs Hlf Hps Hsz Hk Hst Hh Htot Heq Hunk. unfold unpack_members in Heq.
  set (e := {| e_unknown := _; known_pos := _; fixed_pos := _; heap_pos := _ |}) in Heq.
  destruct (unpack_fields late fd ps rw src true true e heap ep) as [[[[ok last] vs] e']|] eqn:Ei; [|done].
  cbn [mbind option_bind] in Heq. destruct ok; [|done]. cbn [negb Verify] in Heq.
  destruct (fixed_pos e' <? heap) eqn:Ef; [apply Z.ltb_lt in Ef|apply Z.ltb_ge in Ef].
  { exfalso. destruct (verify_extensions _ _ _ _ _ _ _) as [[[ok l2] h2]|]; [|done]. cbn [mbind option_bind] in Heq.
    destruct ok; [|done]. cbn [negb] in Heq. destruct l2; [|done]. injection Heq as <- <-. done. }
  destruct last; [|done]. cbn [negb] in Heq. injection Heq as <- <-. cbn [has_unknown known_end pos] in *.
  pose proof (canon_safe ps ls Hps) as Hsafes.
  pose proof (canon_layouts ps ls Hps) as Hls.
  destruct (unpack_fields_canon late fd src heap ep Hs Hlf ps ls Hps Hsz e true true vs e' Hst Hh ltac:(cbn;
    lia) Hk Htot Ei Hunk) as (_ & Hty & Hpl & Hfp & Hhp & Hkn). cbn [fixed_pos heap_pos e] in *.
  destruct (unpack_fields_safe late fd ps rw src eq_refl Hs Hsafes true true e heap ep Hst Hh) as (? & ? & ? & ? & Heq2 & Hb2 &
    _). rewrite Ei in Heq2. injection Heq2 as <- <- <- <-. cbn [fixed_pos e] in Hb2.
  exists vs. cbn zeta. set (k := present fd ls vs) in *. assert (Hheap : heap = start + sizes (take k ls)) by lia.
  split; [done|]. split; [done|]. split; [done|]. rewrite Hheap in Hpl.
  split; [exact (placed_members src ep start _ _ (Forall_take _ _ _ Hls) (typed_take ls vs k Hty) Hpl)|]. split; [|done].
  rewrite length_members by first [by apply Forall_take|by apply typed_take]. lia.
Qed.


Lemma tuple_canon ps ls : Forall2 canon ps ls -> sizes ls < 2 ^ 16 -> sized_after ls = true ->
  canon (tuple_packable ps) (tuple_layout ls).
Proof.
  intros Hps Hz Hsz. apply base_canon; [by apply tuple_reads; [apply canon_reads|]|apply base_safe;
    [apply never_safe|by eapply tuple_safe, canon_safe]| |apply never_reads|done].
  intros src c ep v c' Hs Hc Heq Hk. unfold tuple_unpack in Heq. cbn [Verify Unpack andb orb] in Heq.
  rewrite unpack_numeric_verified in Heq by done. destruct (ep - pos c <? Z.of_nat 2) eqn:E; [done|]. zbool.
  cbn [mbind option_bind negb] in Heq. assert (Hs' := proj2 Hs). unfold within in Hc.
  pose proof (number_range src (pos c) 2 Hs ltac:(lia) ltac:(lia)) as Hx. set (x := of_le _) in *.
  assert (Hsub : sub src (pos c) (le_bytes 2 x)) by (apply number_sub; [done|lia|lia|done]). set (np := u32 _) in Heq.
  destruct ((np <? pos c + Z.of_nat 2) || (ep <? np)) eqn:E1; [done|]. zbool.
  assert (Hnp : np = pos c + Z.of_nat 2 + x) by (apply (u32_sum _ _ ep); lia).
  set (c0 := {| has_unknown := _; known_end := _; pos := _ |}) in Heq.
  destruct (unpack_members_canon true false ps ls src c0 (pos c + Z.of_nat 2) np ep v c' Hs eq_refl Hps ltac:(done) eq_refl
    ltac:(unfold within; lia) ltac:(unfold within; lia) ltac:(done) Heq Hk) as (vs & -> & Hty & Hheap & Hsb & Hp & Hkn).
  split; [done|]. unfold fields_enc. cbn [val_list]. assert (Hxx : sizes (take (present false ls vs) ls) = x) by lia.
  rewrite Hxx, sub_concat, length_app, length_le_bytes. split; [done|]. split; [lia|done].
Qed.

Lemma unpack_all_ok ps m src ok c ep vs c' : unpack_all ps m src ok c ep = Some (true, vs, c') -> ok = true.
Proof.
  revert ok c vs c'. induction ps as [|p ps IH]; intros ok c vs c'; cbn [unpack_all]; [by intros [= -> _ _]|].
  destruct (unpack _ _ _ _ _) as [[[ok1 v] c1]|]; [|done]. cbn [mbind option_bind].
  destruct (unpack_all _ _ _ _ _ _) as [[[ok2 ws] c2]|] eqn:Ei; [|done]. cbn.
  intros [= -> _ _]. by apply IH, andb_prop in Ei as [-> _].
Qed.
Lemma unpack_all_canon ps ls src ep : Forall2 canon ps ls -> data_ok src -> forall c vs c', within src (pos c) ep ->
  unpack_all ps rw src true c ep = Some (true, vs, c') -> has_unknown c' = false -> known_end c = true ->
  typed_members ls vs = true /\ sub src (pos c) (enc_all ls vs) /\ pos c' = pos c + Z.of_nat (length (enc_all ls vs)) /\
    known_end c' = true.
Proof.
  intros Hps Hs. induction Hps as [|p l ps ls Hp Hps IH]; intros c vs c' Hc Heq Hunk Hk; cbn [unpack_all] in Heq.
  { injection Heq as <- <-. unfold within in Hc. cbn. split; [done|]. split; [apply sub_nil; lia|]. split; [lia|done]. }
  destruct (unpack p rw src c ep) as [[[ok1 v] c1]|] eqn:Ee; [|done]. cbn [mbind option_bind andb] in Heq.
  destruct (unpack_all ps rw src ok1 c1 ep) as [[[ok2 ws] c2]|] eqn:Ei; [|done]. cbn in Heq. injection Heq as -> <- ->.
  pose proof (unpack_all_ok _ _ _ _ _ _ _ _ Ei) as ->.
  destruct (unpack_bounds _ src c ep true v c1 (safe_unpack p (ca_safe p l Hp)) Hs Hc Ee) as [Hb _].
  assert (Hc1 : within src (pos c1) ep) by (unfold within in *; lia).
  destruct (unpack_all_safe ps rw src eq_refl Hs (canon_safe ps ls Hps) true c1 ep Hc1) as (? & ? & ? & Heq2 & _ & Hk2).
  rewrite Ei in Heq2. injection Heq2 as <- <- <-.
  assert (Hu1 : has_unknown c1 = false) by (destruct (has_unknown c1); [by rewrite Hk2 in Hunk|done]).
  destruct (ca_unpack p l Hp src c ep v c1 Hs Hc Ee Hu1) as (Hty & Hsub & Hp1 & Hk1).
  destruct (IH c1 ws c' Hc1 Ei Hunk Hk1) as (Htys & Hsubs & Hps1 & Hks). cbn. rewrite Hty, Htys, sub_concat, length_app, <- Hp1.
  split; [done|]. split; [done|]. split; [lia|done].
Qed.

Lemma struct_canon fd ps ls : Forall2 canon ps ls -> sizes ls < 2 ^ 16 -> (fd = false -> sized_after ls = true) ->
  canon (struct_packable fd ps) (struct_layout fd ls).
Proof.
  intros Hps Hz Hsz. pose proof (canon_reads ps ls Hps) as Hr. pose proof (reads_packs ps ls Hr) as Hpk.
  pose proof (packs_layouts ps ls Hpk) as Hls. pose proof (struct_reads fd ps ls Hr Hz) as Hst.
  assert (Hsafe : safe (struct_packable fd ps)) by (apply base_safe; [apply never_safe|by eapply struct_safe, canon_safe]).
  unfold struct_packable, struct_layout in *. rewrite (members_fixed_size_spec ps ls Hpk) in *.
  assert (Hvar : get_is_var_size fd ps = negb fd || existsb l_var ls) by (unfold get_is_var_size;
    by rewrite (var_members ps ls Hpk)). rewrite Hvar in *. apply base_canon; [exact Hst|exact Hsafe| |apply never_reads|done].
  clear Hst Hsafe.
  intros src c ep v c' Hs Hc Heq Hk. assert (Hs' := proj2 Hs). unfold within in Hc. unfold struct_unpack in Heq.
  rewrite Hvar, (members_fixed_size_spec ps ls Hpk) in Heq. pose proof (sizes_nonneg ls Hls) as Hnn.
  destruct (negb fd || existsb l_var ls) eqn:E.
  - cbn [Verify andb orb] in Heq. destruct (if fd then _ else _) as [[[ok x] start]|] eqn:En; [|done].
    cbn [mbind option_bind] in Heq. destruct ok; [|done]. cbn [negb] in Heq.
    assert (Hn : sub src (pos c) (if fd then [] else le_bytes 2 x) /\ start = pos c + Z.of_nat (length (if fd then [] else
      le_bytes 2 x)) /\ 0 <= x < 2 ^ 16 /\ start <= ep /\ (fd = true -> x = sizes ls)).
    { destruct fd; [injection En as <- <-; split; [apply sub_nil; lia|cbn; repeat split; try done; lia]|].
      rewrite unpack_numeric_verified in En by done. destruct (_ <? _) eqn:E2; [done|]. zbool. injection En as <- <-.
      rewrite length_le_bytes.
      pose proof (number_range src (pos c) 2 Hs ltac:(lia) ltac:(lia)) as Hx. split; [apply number_sub; [done|lia|lia|done]|].
      repeat split; try done; lia. }
    destruct Hn as (Hsub & Hstart & Hx & Hse & Hfd). set (np := u32 _) in Heq.
    destruct ((np <? start) || (ep <? np)) eqn:E1; [done|]. zbool.
    assert (Hnp : np = start + x) by (apply (u32_sum _ _ ep); lia).
    set (c0 := {| has_unknown := _; known_end := _; pos := _ |}) in Heq.
    destruct (unpack_members_canon false fd ps ls src c0 start np ep v c' Hs eq_refl Hps Hsz eq_refl ltac:(unfold within;
      lia) ltac:(unfold within; lia) ltac:(intros H'; rewrite <- (Hfd H');
      lia) Heq Hk) as (vs & -> & Hty & Hheap & Hsb & Hp & Hkn).
    split; [done|]. unfold fields_enc. cbn [val_list]. assert (Hxx : sizes (take (present fd ls vs) ls) = x) by lia.
    rewrite Hxx, sub_concat, length_app, <- Hstart. split; [done|]. split; [lia|done].
  - destruct fd; [|done]. cbn in E. set (c0 := {| has_unknown := _; known_end := _; pos := _ |}) in Heq.
    destruct (unpack_all ps rw src true c0 ep) as [[[ok vs] c1]|] eqn:Ei; [|done]. cbn in Heq. injection Heq as -> <- ->.
    destruct (unpack_all_canon ps ls src ep Hps Hs c0 vs c' Hc Ei Hk eq_refl) as (Hty & Hsub & Hp & Hkn). split; [done|].
    rewrite fixed_definition_enc by done. unfold members_of. destruct (plain_members ls Hls E vs (sizes ls) Hty) as [-> ->].
    by rewrite app_nil_r.
Qed.

(** ** Variants *)

Lemma variant_canon ps ls : Forall2 canon ps ls -> (length ls < 128)%nat -> canon (variant_packable ps) (variant_layout ls).
Proof.
  intros Hps Hn. apply base_canon; [by apply variant_reads; [apply canon_reads|]|apply base_safe;
    [apply never_safe|by eapply variant_safe, canon_safe]| |apply never_reads|done].
  intros src c ep v c' Hs Hc Heq Hk. assert (Hs' := proj2 Hs). unfold variant_unpack in Heq. cbn [Verify andb orb] in Heq.
  rewrite unpack_numeric_verified in Heq by done. unfold within in Hc. destruct (ep - pos c <? Z.of_nat 1) eqn:E; [done|].
  zbool. cbn [mbind option_bind negb] in Heq.
  pose proof (number_range src (pos c) 1 Hs ltac:(lia) ltac:(lia)) as Ht. set (tag := of_le _) in *.
  assert (Hst : sub src (pos c) (le_bytes 1 tag)) by (apply number_sub; [done|lia|lia|done]).
  destruct (Z.land tag 0x80 =? 0); [|done]. cbn [negb] in Heq.
  rewrite unpack_numeric_verified in Heq by (try done; unfold within; lia). destruct (_ <? Z.of_nat 4) eqn:E2; [done|]. zbool.
  cbn [mbind option_bind negb] in Heq. set (q := pos c + Z.of_nat 1) in *.
  pose proof (number_range src q 4 Hs ltac:(lia) ltac:(lia)) as Hx. set (x := of_le (at_pos src q 4)) in *.
  assert (Hsx : sub src q (le_bytes 4 x)) by (apply number_sub; [done|lia|lia|done]). set (np := u32 _) in Heq.
  destruct ((np <? q + Z.of_nat 4) || (ep <? np)) eqn:E3; [done|]. zbool.
  assert (Hnp : np = q + Z.of_nat 4 + x) by (apply (u32_sum _ _ ep); lia).
  unfold unpack_variant_impl in Heq. destruct (ps !! Z.to_nat tag) as [p|] eqn:Ep; [|done].
  destruct (Forall2_lookup_l _ _ _ _ _ Hps Ep) as (l & El & Hp).
  set (c0 := {| has_unknown := _; known_end := _; pos := _ |}) in Heq.
  destruct (unpack p rw src c0 np) as [[[ok w] c1]|] eqn:Eu; [|done]. cbn [mbind option_bind] in Heq. destruct ok; [|done].
  cbn [negb] in Heq. destruct (known_end c1 && negb (pos c1 =? np)) eqn:Ek; [done|]. injection Heq as <- <-.
  cbn [has_unknown known_end pos] in *.
  destruct (ca_unpack p l Hp src c0 np w c1 Hs ltac:(unfold within; cbn; lia) Eu Hk) as (Hty & Hsub & Hpos & Hkn).
  rewrite Hkn in Ek. cbn [andb] in Ek. apply negb_false_iff in Ek. zbool. cbn [pos c0] in *.
  rewrite El. split; [done|]. unfold variant_enc. cbn [variant_parts]. rewrite El, Z2Nat.id by lia.
  replace (Z.of_nat (length (l_enc l w))) with x by lia. change (tag :: ?t) with ([tag] ++ t).
  rewrite !sub_concat, !length_app, length_le_bytes. cbn [length]. fold q.
  assert (Htag : le_bytes 1 tag = [tag]) by (cbn; rewrite Z.mod_small by lia; done). rewrite Htag in Hst. split; [done|].
  split; [lia|done].
Qed.

(** ** All types *)

(** In tuples and extensible classes, at any depth, no member that can be absent is
    followed by a member of size 0. *)
Fixpoint sized_members (t : fty) : bool :=
  match t with
  | t_memcpy _ | t_bool | t_bytes _ => true
  | t_vector t | t_array t _ | t_optional t => sized_members t
  | t_tuple ts | t_struct false ts => sized_after (map layout_of ts) && forallb sized_members ts
  | t_struct true ts | t_variant ts => forallb sized_members ts
  end.

Lemma canon_members ts : Forall (fun t => ty_ok t = true -> sized_members t = true -> canon (is_packable t) (layout_of t)) ts ->
  forallb ty_ok ts = true -> forallb sized_members ts = true -> Forall2 canon (map is_packable ts) (map layout_of ts).
Proof. induction 1 as [|t ts Ht _ IH]; cbn; [constructor|]. intros [H1 H2]%andb_prop [H3 H4]%andb_prop. constructor; auto. Qed.

Lemma is_packable_canon t : ty_ok t = true -> sized_members t = true -> canon (is_packable t) (layout_of t).
Proof.
  induction t as [n| |n|t IH|t n IH|t IH|ts IH|d ts IH|ts IH] using fty_nested_ind;
    cbn [ty_ok is_packable layout_of sized_members]; intros Hok Hsz.
  - apply memcpy_canon.
  - apply bool_canon.
  - zbool. by apply bytes_canon.
  - apply andb_prop in Hok as [Hz Hok]. zbool. by apply vector_canon; [apply IH|].
  - by apply array_canon, IH.
  - by apply opt_canon, IH.
  - apply andb_prop in Hok as [Hz Hok]. apply andb_prop in Hsz as [Hsz Hsm]. zbool.
    apply tuple_canon; [by apply canon_members|done|done].
  - apply andb_prop in Hok as [Hz Hok]. zbool. destruct d; [by apply struct_canon; [apply canon_members| |]|].
    apply andb_prop in Hsz as [Hsz Hsm]. apply struct_canon; [by apply canon_members|done|done].
  - apply andb_prop in Hok as [Hz Hok]. zbool. apply variant_canon; [by apply canon_members|by rewrite length_map].
Qed.
