(* ===== verification/FracpackTheorems.v ===== *)
(** * fracpack: what packing and unpacking give

    The theorems about [to_frac], [from_frac] and [fracpack_validate], from the laws
    of every type. *)

From S2P Require Import Prelude ToKey Fracpack FracpackSafe FracpackLayout FracpackRead FracpackCanon.

#[local] Open Scope Z_scope.

(** ** The format is bytes *)

Definition layout_bytes (l : layout) : Prop :=
  forall v gap, l_typed l v = true -> bytes_ok (l_enc l v) /\ bytes_ok (l_fixed l v gap) /\ bytes_ok (l_heap l v).

Lemma base_bytes size var ty emp enc : (forall v, ty v = true -> bytes_ok (enc v)) ->
  layout_bytes (base_layout size var ty emp enc).
Proof.
  intros H v gap Hv. cbn -[le_bytes]. split; [auto|]. destruct var; split; auto using le_bytes_ok. destruct (emp v); auto.
Qed.
Lemma members_bytes ls : Forall layout_bytes ls -> forall vs gap, typed_members ls vs = true ->
  bytes_ok (fixed_of ls vs gap) /\ bytes_ok (heap_of ls vs).
Proof.
  induction 1 as [|l ls Hl _ IH]; intros [|v vs] gap; cbn; try done. intros [Hv Hvs]%andb_prop.
  destruct (Hl v gap Hv) as (_ & Hf & Hh). destruct (IH vs (gap - l_size l + Z.of_nat (length (l_heap l v))) Hvs) as [Hfs Hhs].
  by split; apply Forall_app.
Qed.
Lemma members_of_bytes ls vs : Forall layout_bytes ls -> typed_members ls vs = true -> bytes_ok (members_of ls vs).
Proof. intros Hls Hvs. unfold members_of. destruct (members_bytes ls Hls vs (sizes ls) Hvs). by apply Forall_app. Qed.
Lemma fields_bytes fd ls v : Forall layout_bytes ls -> fields_typed ls v = true -> bytes_ok (fields_enc fd ls v).
Proof.
  intros Hls Hv. destruct v as [| | | | |vs|]; try done. unfold fields_enc. cbn [val_list]. apply Forall_app.
  split; [destruct fd; [constructor|apply le_bytes_ok]|]. apply members_of_bytes; [by apply Forall_take|by apply typed_take].
Qed.

Lemma layout_of_bytes t : ty_ok t = true -> layout_bytes (layout_of t).
Proof.
  induction t as [n| |n|t IH|t n IH|t IH|ts IH|d ts IH|ts IH] using fty_nested_ind; cbn [ty_ok layout_of]; intros Hok.
  - apply base_bytes. intros [bs| | | | | |]; try done. by intros [_ Hb%byteb_spec]%andb_prop.
  - apply base_bytes. intros [|[]| | | | |]; try done; intros _; (constructor; [unfold is_byte; lia|constructor]).
  - apply base_bytes. intros [| |bs| | | |]; try done. intros [_ Hb%byteb_spec]%andb_prop. apply Forall_app.
    split; [apply le_bytes_ok|done].
  - apply andb_prop in Hok as [_ Hok]. apply base_bytes. intros [| | |vs| | |]; try done. intros Hv. apply Forall_app.
    split; [apply le_bytes_ok|]. apply members_of_bytes; [by apply Forall_replicate, IH|by rewrite typed_replicate].
  - apply base_bytes. intros [| | |vs| | |]; try done. intros [Hn Hv]%andb_prop. zbool. subst n.
    apply members_of_bytes; [by apply Forall_replicate, IH|by rewrite typed_replicate].
  - intros [| | | |[w|]| |] gap Hv; try done; cbn [l_enc l_fixed l_heap optional_layout];
      unfold opt_fixed, opt_heap, offset_of, content_of; cbn [opt_value].
    + destruct (IH Hok w gap Hv) as (He & _). rewrite Forall_app.
      assert (Hc : bytes_ok (if l_empty (layout_of t) w then [] else l_enc (layout_of t) w)) by (by destruct (l_empty _ w)).
      split; [split; [apply le_bytes_ok|done]|]. split; [apply le_bytes_ok|done].
    + rewrite app_nil_r. split; [apply le_bytes_ok|]. split; [apply le_bytes_ok|constructor].
  - apply andb_prop in Hok as [_ Hok]. apply base_bytes. intros v Hv.
    apply fields_bytes; [by apply (Forall_forallb_map ty_ok)|done].
  - apply andb_prop in Hok as [_ Hok]. apply base_bytes. intros v Hv.
    apply fields_bytes; [by apply (Forall_forallb_map ty_ok)|done].
  - apply andb_prop in Hok as [Hn Hok]. zbool. apply base_bytes. intros [| | | | | |i w]; try done. intros Hv.
    unfold variant_enc. cbn [variant_parts]. destruct (map layout_of ts !! i) as [l|] eqn:El; [|done].
    assert (Hl : layout_bytes l) by (eapply Forall_lookup_1;
      [exact (Forall_forallb_map ty_ok layout_of layout_bytes ts IH Hok)|exact El]).
    pose proof (lookup_lt_Some _ _ _ El) as Hlt. rewrite length_map in Hlt. constructor; [unfold is_byte; lia|].
    apply Forall_app. split; [apply le_bytes_ok|]. exact (proj1 (Hl w 0 Hv)).
Qed.
Lemma encoding_data_ok t v : ty_ok t = true -> typed t v = true -> Z.of_nat (length (encoding t v)) < 2 ^ 32 ->
  data_ok (encoding t v).
Proof. intros Ht Hv Hs. split; [exact (proj1 (layout_of_bytes t Ht v 0 Hv))|done]. Qed.

(** Reading the encoding. *)
Lemma unpack_encoding t v garbage : ty_ok t = true -> typed t v = true -> Z.of_nat (length (encoding t v)) < 2 ^ 32 ->
  unpack_all_of t rw (encoding t v) garbage = Some (true, v, {| has_unknown := false; known_end := true; pos := Z.of_nat (length
    (encoding t v)) |}).
Proof.
  intros Ht Hv Hs. unfold unpack_all_of. rewrite u32_small by lia.
  rewrite (rd_unpack _ _ (is_packable_reads t Ht) (encoding t v) _ _ v);
    [done|by apply encoding_data_ok|done|apply sub_whole|cbn; unfold encoding; lia|lia].
Qed.

(** ** Packing and unpacking *)

(** Positions and sizes are [uint32_t]. *)
Definition fits (t : fty) (v : fval) : Prop := Z.of_nat (length (encoding t v)) < 2 ^ 32.

(** C15: What [to_frac] writes, [from_frac] and [from_frac_strict] read back, whatever the
    uninitialized flag is, for every type and every value whose encoding fits
    into 32 bits. *)
Theorem from_frac_to_frac (t : fty) (v : fval) (strict garbage : bool) (Ht : ty_ok t = true) (Hv : typed t v = true) (Hs : fits
  t v) :
  from_frac strict t (to_frac t v) garbage = Some (Some v).
Proof.
  unfold to_frac. rewrite (pk_pack _ _ (is_packable_packs t Ht) v []) by done.
  change ([] ++ l_enc (layout_of t) v) with (encoding t v). unfold from_frac. rewrite unpack_encoding by done. cbn.
  rewrite Z.eqb_refl, andb_false_r. done.
Qed.

Lemma from_frac_to_frac_witness : from_frac true sample_type (to_frac sample_type sample_value) false = Some (Some
  sample_value).
Proof. apply from_frac_to_frac; reflexivity. Defined.

(** C16: Data that [from_frac_strict] accepts is what [to_frac] writes for the value: a
    value of a type of [fty] has one encoding, so that hashes and signatures of the
    packed form are those of the value.  The exception among these types are tuples and
    extensible classes in which a member of size 0 follows an optional member
    ([zero_size_member_two_encodings]).  [fty] has no [std::map], no [std::set] and no
    wrappers with a validation of their own; a packed map is accepted in any order and
    with duplicates, so it has several encodings. *)
Theorem to_frac_from_frac (t : fty) (data : bytes) (v : fval) (garbage : bool) (Ht : ty_ok t = true) (Hm : sized_members t =
  true) (Hd : data_ok data) (Hr : from_frac true t data garbage = Some (Some v)) :
  typed t v = true /\ fits t v /\ to_frac t v = data.
Proof.
  assert (Hl := proj2 Hd). unfold from_frac, unpack_all_of in Hr. rewrite u32_small in Hr by lia.
  set (c := {| has_unknown := _; known_end := _; pos := _ |}) in Hr.
  destruct (unpack (is_packable t) _ data c _) as [[[ok w] c']|] eqn:Eu; [|done]. cbn [mbind option_bind] in Hr.
  destruct ok; [|done]. cbn [negb] in Hr.
  destruct (has_unknown c') eqn:Eh; [done|]. cbn [andb] in Hr.
  destruct (ca_unpack _ _ (is_packable_canon t Ht Hm) data c (Z.of_nat (length data)) w c' Hd ltac:(unfold within; cbn;
    lia) Eu Eh) as (Hty & Hsub & Hp & Hk). rewrite Hk in Hr. destruct (pos c' =? _) eqn:Ep; [|done]. injection Hr as ->. zbool.
  cbn [pos c] in *.
  destruct Hsub as (_ & _ & Hsub). unfold at_pos in Hsub. cbn in Hsub. rewrite drop_0, take_ge in Hsub by lia. split; [done|].
  split; [unfold fits, encoding; lia|]. unfold to_frac.
  rewrite (pk_pack _ _ (is_packable_packs t Ht) v []) by (try done; cbn [app]; unfold small; lia). by rewrite Hsub.
Qed.
Lemma to_frac_from_frac_witness : let t := t_struct false [t_memcpy 1; t_optional (t_bytes 1)] in let data := [5; 0; 7; 4; 0; 0;
  0; 1; 0; 0; 0; 104] in
  let v := v_fields [v_memcpy [7]; v_opt (Some (v_bytes [104]))] in from_frac true t data false = Some (Some v) /\
    to_frac t v = data.
Proof.
  cbn zeta. split; [reflexivity|]. refine (proj2 (proj2 (to_frac_from_frac _ _ _ false _ _ _ _))); [reflexivity..|
    |reflexivity]. split; [repeat (constructor; [unfold is_byte; lia|]); constructor|reflexivity].
Defined.

(** Members of size 0 are the exception: an optional member and an empty class after it
    have two encodings, which are both accepted. *)
Theorem zero_size_member_two_encodings (garbage : bool) : let t := t_struct false [t_optional (t_memcpy 4); t_struct true []] in
  let v := v_fields [v_none; v_fields []] in
  to_frac t v = [4; 0; 1; 0; 0; 0] /\ from_frac true t [4; 0; 1; 0; 0; 0] garbage = Some (Some v) /\
    from_frac true t [0; 0] garbage = Some (Some v).
Proof. by destruct garbage. Qed.
