(* ===== verification/FracpackModes.v ===== *)
(** * fracpack: the modes of [unpack] agree

    [fracpack_validate] verifies without making a value, [from_frac] verifies and
    makes one, and [from_frac] of prevalidated data makes one without verifying.
    Verifying alone has the same result, and on data that was verified, reading
    without verification reads within the data and yields the same value. *)

From S2P Require Import Prelude ToKey Fracpack FracpackSafe FracpackLayout FracpackRead FracpackCanon.

#[local] Open Scope Z_scope.

(** Verify only. *)
Abbreviation vo := {| Unpack := false; Verify := true |}.
(** Unpack only. *)
Abbreviation uo := {| Unpack := true; Verify := false |}.

(** ** The laws *)

Definition unpack_agrees (u : mode -> bytes -> cursor -> Z -> option (bool * fval * cursor)) (var : bool) : Prop :=
  forall src c ep ok v c', data_ok src -> within src (pos c) ep -> u rw src c ep = Some (ok, v, c') ->
  (exists w, u vo src c ep = Some (ok, w, c')) /\
  (ok = true -> forall c0, pos c0 = pos c -> exists c1, u uo src c0 ep = Some (true, v, c1) /\ (var = false -> pos c1 = pos c')).
Definition embedded_agrees (u : mode -> bytes -> ecursor -> Z -> Z -> option (bool * fval * ecursor)) (var : bool) : Prop :=
  forall src e ef eh ok v e', data_ok src -> within src (fixed_pos e) ef -> within src (heap_pos e) eh ->
    u rw src e ef eh = Some (ok, v, e') ->
  (exists w, u vo src e ef eh = Some (ok, w, e')) /\
  (ok = true -> forall e0, fixed_pos e0 = fixed_pos e -> exists e1, u uo src e0 ef eh = Some (true, v, e1) /\ fixed_pos e1 = fixed_pos e' /\
    (var = false -> heap_pos e1 = heap_pos e0 /\ heap_pos e' = heap_pos e)).

Record agrees (p : packable) : Prop := {
  ag_safe : safe p;
  ag_unpack : unpack_agrees (unpack p) (is_variable_size p);
  ag_variable : embedded_agrees (embedded_variable_unpack p) true;
  ag_embedded : embedded_agrees (embedded_unpack p) (is_variable_size p);
  ag_value src e ef eh v e' : is_optional p = true -> data_ok src -> within src (fixed_pos e) ef ->
    embedded_unpack p rw src e ef eh = Some (true, v, e') -> has_value_at p true src (fixed_pos e) ef = Some (has_value p v)
}.

Lemma unpack_numeric_unverified n src p ep : data_ok src -> 0 <= p -> p + Z.of_nat n <= Z.of_nat (length src) ->
  unpack_numeric false n src p ep = Some (true, of_le (at_pos src p n), p + Z.of_nat n).
Proof. intros [_ Hs] H0 H1. unfold unpack_numeric. cbn [andb]. rewrite read_ok by lia. cbn. rewrite u32_small by lia. done. Qed.

(** ** The base class *)

Lemma base_variable_agrees zero empty_at cleared u var : unpack_agrees u var -> unpack_safe u ->
  embedded_agrees (base_variable_unpack zero empty_at cleared u) true.
Proof.
  intros Hu Hsafe src e ef eh ok v e' Hs Hf Hh Heq. assert (Hs' := proj2 Hs). unfold within in Hf, Hh.
  unfold base_variable_unpack in *. cbn [Verify orb andb] in *.
  rewrite unpack_numeric_verified in * by (try done; unfold within; lia).
  destruct (ef - fixed_pos e <? Z.of_nat 4) eqn:E4; cbn [mbind option_bind negb] in *. { injection Heq as <- <- <-.
  split; [by eexists|done]. } zbool.
  set (x := of_le _) in *. destruct (zero && (x =? 0)) eqn:Ez.
  { injection Heq as <- <- <-. split; [by eexists|]. intros _ e0 He0. rewrite He0, unpack_numeric_unverified by (try done; lia).
    fold x. cbn [mbind option_bind negb]. rewrite Ez. eexists. split; [done|]. done. }
  set (nh := u32 _) in *. assert (Hnhr := u32_range (fixed_pos e + x)). fold nh in Hnhr.
  destruct ((x <? 4) || (nh <? heap_pos e) || (eh <? nh)) eqn:E1. { injection Heq as <- <- <-. split; [by eexists|done]. }
  destruct (negb (nh =? heap_pos e) && known_pos e). { injection Heq as <- <- <-. split; [by eexists|done]. }
  destruct (if zero then empty_at src nh eh else Some false) as [b|]; [|done]. cbn [mbind option_bind] in *. destruct b.
  { injection Heq as <- <- <-. split; [by eexists|done]. }
  set (c := {| has_unknown := _; known_end := _; pos := nh |}) in *.
  destruct (u rw src c eh) as [[[ok1 w] c1]|] eqn:Eu; [|done]. cbn [mbind option_bind] in *. injection Heq as <- <- <-.
  assert (Hc : within src (pos c) eh) by (zbool; unfold within; cbn; lia).
  destruct (Hu src c eh ok1 w c1 Hs Hc Eu) as [[w' Hvo] Huo]. split.
  - rewrite Hvo. by eexists.
  - intros -> e0 He0. rewrite He0, unpack_numeric_unverified by (try done; lia). fold x. cbn [mbind option_bind negb].
    rewrite Ez. fold nh. destruct (Huo eq_refl {| has_unknown := e_unknown e0; known_end := known_pos e0;
      pos := nh |} eq_refl) as (c2 & Heq2 & _). rewrite Heq2. eexists. split; [done|]. done.
Qed.
Lemma base_agrees fs var zero pk emp empty_at cleared u : safe (base_packable_impl fs var zero pk emp empty_at cleared u) ->
  unpack_agrees u var -> agrees (base_packable_impl fs var zero pk emp empty_at cleared u).
Proof.
  intros Hsafe Hu. pose proof (base_variable_agrees zero empty_at cleared u var Hu (safe_unpack _ Hsafe)) as Hv.
  constructor; try done. cbn. unfold base_embedded_unpack. destruct var; [done|].
  intros src e ef eh ok v e' Hs Hf Hh Heq. set (c := {| has_unknown := _; known_end := _; pos := fixed_pos e |}) in *.
  destruct (u rw src c ef) as [[[ok1 w] c1]|] eqn:Eu; [|done]. cbn [mbind option_bind] in *. injection Heq as <- <- <-.
  destruct (Hu src c ef ok1 w c1 Hs Hf Eu) as [[w' Hvo] Huo]. split.
  - rewrite Hvo. by eexists.
  - intros -> e0 He0. destruct (Huo eq_refl {| has_unknown := e_unknown e0; known_end := known_pos e0;
      pos := fixed_pos e0 |} He0) as (c2 & Heq2 & Hp2). rewrite Heq2. eexists. split; [done|]. split; [by apply Hp2|done].
Qed.

(** ** Bytes and numbers *)

Lemma memcpy_agrees n : agrees (memcpy_packable n).
Proof.
  apply base_agrees; [apply base_safe; [apply never_safe|apply memcpy_safe]|]. intros src c ep ok v c' Hs Hc Heq.
  assert (Hs' := proj2 Hs). unfold within in Hc. unfold memcpy_unpack in *. cbn [Verify Unpack andb orb] in *.
  rewrite (u32_small (ep - _)) in * by lia.
  destruct (_ <? _) eqn:E. { injection Heq as <- <- <-. split; [by eexists|done]. } zbool. rewrite read_ok in Heq by lia.
  cbn [mbind option_bind] in *. injection Heq as <- <- <-. split; [by eexists|]. intros _ c0 ->. rewrite read_ok by lia. cbn.
  eexists. split; [done|done].
Qed.
Lemma bool_agrees : agrees bool_packable.
Proof.
  apply base_agrees; [apply base_safe; [apply never_safe|apply bool_safe]|]. intros src c ep ok v c' Hs Hc Heq.
  assert (Hs' := proj2 Hs). unfold within in Hc. unfold bool_unpack in *. cbn [Verify Unpack andb orb] in *.
  rewrite (u32_small (ep - _)) in * by lia.
  destruct (_ <? 1) eqn:E. { injection Heq as <- <- <-. split; [by eexists|done]. } zbool. rewrite read_ok in * by lia.
  cbn [mbind option_bind] in *. destruct (1 <? _). { injection Heq as <- <- <-. split; [by eexists|done]. }
  injection Heq as <- <- <-. split; [by eexists|]. intros _ c0 ->. rewrite read_ok by lia. cbn. eexists. split; [done|done].
Qed.
Lemma bytes_agrees n : (0 < n)%nat -> agrees (bytes_packable n).
Proof.
  intros Hn. apply base_agrees; [apply base_safe; [apply container_empty_safe|apply bytes_safe]|].
  intros src c ep ok v c' Hs Hc Heq. assert (Hs' := proj2 Hs). unfold within in Hc. unfold bytes_unpack in *.
  cbn [Verify Unpack andb orb] in *. rewrite unpack_numeric_verified in * by (try done; unfold within; lia).
  destruct (ep - pos c <? Z.of_nat 4) eqn:E; cbn [mbind option_bind negb] in *. { injection Heq as <- <- <-.
  split; [by eexists|done]. } zbool. set (x := of_le _) in *. set (np := u32 _) in *.
  destruct (negb (x mod Z.of_nat n =? 0) || (np <? pos c + Z.of_nat 4) || (ep <? np)) eqn:E1. { injection Heq as <- <- <-.
  split; [by eexists|done]. }
  destruct (if x / Z.of_nat n =? 0 then _ else _) as [w|] eqn:Ew; [|done]. cbn [mbind option_bind] in *.
  injection Heq as <- <- <-. split; [by eexists|]. intros _ c0 Hc0. rewrite Hc0, unpack_numeric_unverified by (try done; lia).
  fold x. cbn [mbind option_bind negb]. fold np. rewrite Ew. cbn. by eexists.
Qed.

(** ** Vectors and arrays *)

Lemma unpack_items_agrees p src ef eh : agrees p -> data_ok src -> forall n e ok vs e', within src (fixed_pos e) ef ->
  within src (heap_pos e) eh -> unpack_items p n rw src e ef eh = Some (ok, vs, e') ->
  (exists ws, unpack_items p n vo src e ef eh = Some (ok, ws, e')) /\
  (ok = true -> forall e0, fixed_pos e0 = fixed_pos e -> exists e1, unpack_items p n uo src e0 ef eh = Some (true, vs, e1) /\
    (is_variable_size p = false -> heap_pos e1 = heap_pos e0 /\ heap_pos e' = heap_pos e)).
Proof.
  intros Hp Hs. induction n as [|n IH]; intros e ok vs e' Hf Hh Heq; cbn [unpack_items] in *. { injection Heq as <- <- <-.
  split; [by eexists|]. intros _ e0 _. by eexists. }
  destruct (embedded_unpack p rw src e ef eh) as [[[ok1 v] e1]|] eqn:Ee; [|done].
  destruct (ag_embedded p Hp src e ef eh ok1 v e1 Hs Hf Hh Ee) as [[w Hvo] Huo]. rewrite Hvo. cbn [mbind option_bind] in *.
  destruct ok1; [|injection Heq as <- <- <-; split; [by eexists|done]].
  destruct (embedded_bounds _ src e ef eh true v e1 (safe_embedded p (ag_safe p Hp)) Hs Hf Hh Ee) as (Hf1 & Hh1 & _).
  destruct (unpack_items p n rw src e1 ef eh) as [[[ok2 vs2] e2]|] eqn:Ei; [|done]. cbn in Heq. injection Heq as <- <- <-.
  destruct (IH e1 ok2 vs2 e2 ltac:(unfold within in *; lia) ltac:(unfold within in *; lia) Ei) as [[ws Hvos] Huos].
  rewrite Hvos. split; [by eexists|]. intros -> e0 He0. destruct (Huo eq_refl e0 He0) as (e3 & Heq3 & Hf3 & Hv3). rewrite Heq3.
  cbn [mbind option_bind].
  destruct (Huos eq_refl e3 Hf3) as (e4 & Heq4 & Hv4). rewrite Heq4. cbn. eexists. split; [done|]. intros Hvar.
  destruct (Hv3 Hvar), (Hv4 Hvar). split; congruence.
Qed.
Lemma vector_agrees p : agrees p -> 0 < fixed_size p -> agrees (vector_packable p).
Proof.
  intros Hp Hz. apply base_agrees; [apply base_safe; [apply container_empty_safe|by apply vector_safe; [apply ag_safe|]]|].
  intros src c ep ok v c' Hs Hc Heq. assert (Hs' := proj2 Hs). unfold within in Hc. unfold vector_unpack in *.
  cbn [Verify Unpack andb orb] in *. rewrite unpack_numeric_verified in * by (try done; unfold within; lia).
  destruct (ep - pos c <? Z.of_nat 4) eqn:E; cbn [mbind option_bind negb] in *. { injection Heq as <- <- <-.
  split; [by eexists|done]. } zbool. rewrite (proj2 (Z.eqb_neq _ _)) in * by lia. set (x := of_le _) in *.
  set (np := u32 _) in *.
  destruct (negb (x mod fixed_size p =? 0) || (np <? pos c + Z.of_nat 4) || (ep <? np)) eqn:E1. { injection Heq as <- <- <-.
  split; [by eexists|done]. }
  set (e := {| e_unknown := _; known_pos := _; fixed_pos := _; heap_pos := _ |}) in *.
  destruct (unpack_items p _ rw src e np ep) as [[[ok1 vs] e1]|] eqn:Ei; [|done]. cbn [mbind option_bind] in *.
  injection Heq as <- <- <-. zbool.
  destruct (unpack_items_agrees p src np ep Hp Hs _ e ok1 vs e1 ltac:(unfold within; cbn; lia) ltac:(unfold within; cbn;
    lia) Ei) as [[ws Hvo] Huo]. rewrite Hvo. split; [by eexists|]. intros -> c0 Hc0.
  rewrite Hc0, unpack_numeric_unverified by (try done; lia). fold x. cbn [mbind option_bind negb]. fold np.
  set (e0 := {| e_unknown := has_unknown c0; known_pos := _; fixed_pos := _; heap_pos := _ |}).
  destruct (Huo eq_refl e0 eq_refl) as (e2 & Heq2 & _). rewrite Heq2. by eexists.
Qed.
Lemma array_agrees p n : agrees p -> agrees (array_packable p n).
Proof.
  intros Hp. apply base_agrees; [apply base_safe; [apply never_safe|apply array_safe, ag_safe, Hp]|].
  intros src c ep ok v c' Hs Hc Heq. assert (Hs' := proj2 Hs). unfold within in Hc. unfold array_unpack in *.
  cbn [Verify Unpack andb orb] in *. set (np := u32 _) in *.
  destruct ((np <? pos c) || (ep <? np)) eqn:E1. { injection Heq as <- <- <-. split; [by eexists|done]. }
  set (e := {| e_unknown := _; known_pos := _; fixed_pos := _; heap_pos := _ |}) in *.
  destruct (unpack_items p _ rw src e np ep) as [[[ok1 vs] e1]|] eqn:Ei; [|done]. cbn [mbind option_bind] in *.
  injection Heq as <- <- <-. zbool.
  destruct (unpack_items_agrees p src np ep Hp Hs _ e ok1 vs e1 ltac:(unfold within; cbn; lia) ltac:(unfold within; cbn;
    lia) Ei) as [[ws Hvo] Huo]. rewrite Hvo. split; [by eexists|]. intros -> c0 Hc0. rewrite Hc0. fold np.
  set (e0 := {| e_unknown := has_unknown c0; known_pos := _; fixed_pos := _; heap_pos := _ |}).
  destruct (Huo eq_refl e0 eq_refl) as (e2 & Heq2 & Hv2). rewrite Heq2. eexists. split; [done|]. intros Hvar.
  destruct (Hv2 Hvar) as [H1 H2]. cbn [pos]. by rewrite H1, H2.
Qed.

(** ** Optional *)

Lemma opt_embedded_agrees p : agrees p -> embedded_agrees (opt_embedded_unpack p) true.
Proof.
  intros Hp src e ef eh ok v e' Hs Hf Hh Heq. assert (Hf' := Hf). unfold within in Hf'. unfold opt_embedded_unpack in *.
  cbn [Verify] in *. rewrite unpack_numeric_verified in * by done.
  destruct (ef - fixed_pos e <? Z.of_nat 4) eqn:E4; cbn [mbind option_bind negb] in *. { injection Heq as <- <- <-.
  split; [by eexists|done]. } zbool.
  set (x := of_le _) in *. destruct (x =? 1) eqn:E1.
  - injection Heq as <- <- <-. split; [by eexists|]. intros _ e0 He0. rewrite He0, unpack_numeric_unverified by (try done; lia).
    fold x. cbn [mbind option_bind negb]. rewrite E1. by eexists.
  - destruct (embedded_variable_unpack p rw src e ef eh) as [[[ok1 w] e1]|] eqn:Ee; [|done]. cbn in Heq.
    injection Heq as <- <- <-. destruct (ag_variable p Hp src e ef eh ok1 w e1 Hs Hf Hh Ee) as [[w' Hvo] Huo]. rewrite Hvo.
    split; [by eexists|].
    intros -> e0 He0. rewrite He0, unpack_numeric_unverified by (try done; lia). fold x. cbn [mbind option_bind negb].
    rewrite E1. destruct (Huo eq_refl e0 He0) as (e2 & Heq2 & Hf2 & _). rewrite Heq2. cbn. by eexists.
Qed.
Lemma opt_agrees p : agrees p -> agrees (optional_packable p).
Proof.
  intros Hp. pose proof (opt_embedded_agrees p Hp) as He. pose proof (opt_safe p (ag_safe p Hp)) as Hsafe.
  assert (Hu : unpack_agrees (opt_unpack p) true).
  { intros src c ep ok v c' Hs Hc Heq. assert (Hs' := proj2 Hs). unfold within in Hc. unfold opt_unpack in *.
    cbn [Verify andb orb] in *. rewrite (u32_small (ep - _)) in * by lia. destruct (_ <? 4) eqn:E. { injection Heq as <- <- <-.
    split; [by eexists|done]. } zbool. rewrite u32_small in * by lia.
    set (e := {| e_unknown := _; known_pos := _; fixed_pos := _; heap_pos := _ |}) in *.
    destruct (opt_embedded_unpack p rw src e _ ep) as [[[ok1 w] e1]|] eqn:Ee; [|done]. cbn in Heq. injection Heq as <- <- <-.
    destruct (He src e (pos c + 4) ep ok1 w e1 Hs ltac:(unfold within; cbn; lia) ltac:(unfold within; cbn;
      lia) Ee) as [[w' Hvo] Huo]. rewrite Hvo. split; [by eexists|]. intros -> c0 Hc0. rewrite Hc0, u32_small by lia.
    set (e0 := {| e_unknown := has_unknown c0; known_pos := _; fixed_pos := _; heap_pos := _ |}).
    destruct (Huo eq_refl e0 eq_refl) as (e2 & Heq2 & _). rewrite Heq2. cbn. by eexists. }
  constructor; [done|done|exact (base_variable_agrees _ _ _ _ _ Hu (safe_unpack _ Hsafe))|done|].
  intros src e ef eh v e' _ Hs Hf Heq. cbn in *. unfold opt_embedded_unpack, opt_has_value_at in *. cbn [Verify] in *.
  rewrite unpack_numeric_verified in * by done. destruct (ef - fixed_pos e <? Z.of_nat 4); [done|].
  cbn [mbind option_bind negb] in *. destruct (_ =? 1); [by injection Heq as <- _|].
  destruct (embedded_variable_unpack p rw src e ef eh) as [[[ok1 w] e1]|]; [|done]. cbn in Heq. by injection Heq as _ <- _.
Qed.

(** ** Members *)

(** A failure stays; without one, the last flag agrees, whether the value or the data is looked at. *)
Lemma unpack_fields_failed late fd ps m src last e ef eh ok last' vs e' :
  unpack_fields late fd ps m src false last e ef eh = Some (ok, last', vs, e') -> ok = false.
Proof. intros H. destruct ok; [|done]. symmetry. exact (unpack_fields_ok _ _ _ _ _ _ _ _ _ _ _ _ _ H). Qed.
Lemma unpack_fields_agrees late fd src ef eh : data_ok src -> forall ps, Forall agrees ps ->
  forall ok last last0 e ok' last' vs e', within src (fixed_pos e) ef -> within src (heap_pos e) eh ->
  (ok = true -> last0 = last) ->
  unpack_fields late fd ps rw src ok last e ef eh = Some (ok', last', vs, e') ->
  (late && fd = false -> exists last1 ws, unpack_fields false fd ps vo src ok last0 e ef eh = Some (ok', last1, ws, e') /\ (ok'
    = true -> last1 = last')) /\
  (ok' = true -> forall last2 e0, fixed_pos e0 = fixed_pos e -> exists last1 e1, unpack_fields late fd ps uo src true last2 e0
    ef eh = Some (true, last1, vs, e1)).
Proof.
  intros Hs. induction 1 as [|p ps Hp Hps IH]; intros ok last last0 e ok' last' vs e' Hf Hh Hl Heq; cbn [unpack_fields] in *.
  { injection Heq as <- <- <- <-. split; [by eexists _, _|]. intros _ last2 e0 _. by eexists _, _. }
  assert (Hsafes : Forall safe ps) by (eapply Forall_impl; [exact Hps|]; intros ? Hr; apply (ag_safe _ Hr)).
  destruct ((fixed_pos e <? ef) || negb (is_optional p)) eqn:Ec; cbn [Verify andb] in *.
  - destruct (if is_optional p && negb fd && negb late then has_value_at p true src (fixed_pos e) ef else Some true) as [hv|]
      eqn:Ehv; [|done]. cbn [mbind option_bind] in *.
    destruct (embedded_unpack p rw src e ef eh) as [[[ok1 v] e1]|] eqn:Ee; [|done]. cbn [mbind option_bind] in *.
    set (last1 := if is_optional p && late then has_value p v else hv) in *.
    destruct (ag_embedded p Hp src e ef eh ok1 v e1 Hs Hf Hh Ee) as [[w Hvo] Huo].
    destruct (embedded_bounds _ src e ef eh ok1 v e1 (safe_embedded p (ag_safe p Hp)) Hs Hf Hh Ee) as (Hf1 & Hh1 & _).
    assert (Hf1' : within src (fixed_pos e1) ef) by (unfold within in *; lia).
    assert (Hh1' : within src (heap_pos e1) eh) by (unfold within in *; lia).
    destruct (unpack_fields late fd ps rw src (ok && ok1) last1 e1 ef eh) as [[[[ok2 last2] ws] e2]|] eqn:Ei; [|done].
    cbn in Heq. injection Heq as <- <- <- <-. split.
    + intros Hlf. assert (exists hv0, (if is_optional p && negb fd && negb false then has_value_at p true src (fixed_pos e) ef
        else Some true) = Some hv0 /\ (ok1 = true -> hv0 = last1)) as (hv0 & Hhv0 & Hhv1).
      { destruct (is_optional p) eqn:Eo; cbn [andb negb] in *; [|exists true; split; [done|]; intros _; injection Ehv as <-;
          done]. destruct fd; cbn [andb negb] in *; [injection Ehv as <-; exists true; split; [done|]; unfold last1;
          destruct late; done|].
        destruct (safe_has_value p (ag_safe p Hp) src (fixed_pos e) ef Hs Hf) as [b Hb]. exists b. split; [done|]. intros ->.
        pose proof (ag_value p Hp src e ef eh v e1 Eo Hs Hf Ee) as Hval. unfold last1.
        destruct late; cbn [negb] in *; congruence. }
      rewrite Hhv0. cbn [mbind option_bind]. rewrite Hvo. cbn [mbind option_bind]. rewrite !andb_false_r.
      destruct (IH (ok && ok1) last1 hv0 e1 ok2 last2 ws e2 Hf1' Hh1' ltac:(intros [_ H]%andb_prop; auto) Ei) as [IHv _].
      destruct (IHv Hlf) as (l1 & ws1 & Heq1 & Hl1). rewrite Heq1. cbn. by eexists _, _.
    + intros -> last3 e0 He0. rewrite He0, Ec. cbn [mbind option_bind].
      destruct (andb_prop _ _ (unpack_fields_ok _ _ _ _ _ _ _ _ _ _ _ _ _ Ei)) as [-> ->].
      destruct (Huo eq_refl e0 He0) as (e3 & Heq3 & Hf3 & _). rewrite Heq3. cbn [mbind option_bind andb].
      destruct (IH true last1 last1 e1 true last2 ws e2 Hf1' Hh1' ltac:(done) Ei) as [_ IHu].
      destruct (IHu eq_refl last3 e3 Hf3) as (l4 & e4 & Heq4). rewrite Heq4. cbn. by eexists _, _.
  - destruct (unpack_fields late fd ps rw src ok last e ef eh) as [[[[ok2 last2] ws] e2]|] eqn:Ei; [|done]. cbn in Heq.
    injection Heq as <- <- <- <-. destruct (IH ok last last0 e ok2 last2 ws e2 Hf Hh Hl Ei) as [IHv IHu]. split.
    + intros Hlf. destruct (IHv Hlf) as (l1 & ws1 & Heq1 & Hl1). rewrite Heq1. cbn. by eexists _, _.
    + intros -> last3 e0 He0. rewrite He0, Ec. destruct (IHu eq_refl last3 e0 He0) as (l4 & e4 & Heq4). rewrite Heq4. cbn.
      by eexists _, _.
Qed.

Lemma unpack_members_agrees late fd ps src c start heap ep ok v c' : data_ok src -> late && fd = false -> Forall agrees ps ->
  within src start heap -> within src heap ep -> unpack_members late fd ps rw src c start heap ep = Some (ok, v, c') ->
  (exists w, unpack_members false fd ps vo src c start heap ep = Some (ok, w, c')) /\
  (ok = true -> forall c0, exists c1, unpack_members late fd ps uo src c0 start heap ep = Some (true, v, c1)).
Proof.
  intros Hs Hlf Hps Hst Hh Heq. unfold unpack_members in *.
  set (e := {| e_unknown := _; known_pos := _; fixed_pos := _; heap_pos := _ |}) in *.
  destruct (unpack_fields late fd ps rw src true true e heap ep) as [[[[ok1 last] vs] e']|] eqn:Ei; [|done].
  destruct (unpack_fields_agrees late fd src heap ep Hs ps Hps true true true e ok1 last vs e' Hst Hh ltac:(done) Ei) as [Hv
    Hu].
  destruct (Hv Hlf) as (l1 & ws & Heq1 & Hl1). rewrite Heq1. cbn [mbind option_bind Verify] in *. split.
  - destruct ok1; cbn [negb] in *; [|injection Heq as <- <- <-; by eexists]. rewrite (Hl1 eq_refl).
    destruct (fixed_pos e' <? heap).
    + destruct (verify_extensions _ _ _ _ _ _ _) as [[[ok2 l2] h2]|]; [|done]. cbn [mbind option_bind] in *.
      destruct ok2, l2; cbn [negb] in *; injection Heq as <- <- <-; by eexists.
    + destruct last; cbn [negb] in *; injection Heq as <- <- <-; by eexists.
  - intros -> c0. destruct ok1; cbn [negb] in *; [|done].
    destruct (Hu eq_refl true {| e_unknown := has_unknown c0; known_pos := known_end c0; fixed_pos := start;
      heap_pos := heap |} eq_refl) as (l3 & e3 & Heq3). rewrite Heq3. cbn [mbind option_bind negb].
    assert (v = v_fields vs) as ->; [|by eexists].
    destruct (fixed_pos e' <? heap); [destruct (verify_extensions _ _ _ _ _ _ _) as [[[ok2 l2] h2]|]; [|done];
      cbn [mbind option_bind] in *; destruct ok2, l2; cbn [negb] in Heq; congruence|destruct last; cbn [negb] in Heq;
      congruence].
Qed.
Lemma agrees_safe ps : Forall agrees ps -> Forall safe ps.
Proof. intros H. eapply Forall_impl; [exact H|]. intros p Hp. exact (ag_safe p Hp). Qed.

Lemma tuple_agrees ps : Forall agrees ps -> agrees (tuple_packable ps).
Proof.
  intros Hps. apply base_agrees; [apply base_safe; [apply never_safe|by apply tuple_safe, agrees_safe]|].
  intros src c ep ok v c' Hs Hc Heq. assert (Hs' := proj2 Hs). unfold within in Hc. unfold tuple_unpack in *.
  cbn [Verify Unpack andb orb] in *. rewrite unpack_numeric_verified in * by (try done; unfold within; lia).
  destruct (ep - pos c <? Z.of_nat 2) eqn:E; cbn [mbind option_bind negb] in *. { injection Heq as <- <- <-.
  split; [by eexists|done]. } zbool. set (x := of_le _) in *. set (np := u32 _) in *.
  destruct ((np <? pos c + Z.of_nat 2) || (ep <? np)) eqn:E1. { injection Heq as <- <- <-. split; [by eexists|done]. } zbool.
  destruct (unpack_members_agrees true false ps src _ (pos c + Z.of_nat 2) np ep ok v c' Hs eq_refl Hps ltac:(unfold within;
    lia) ltac:(unfold within; lia) Heq) as [Hv Hu]. split; [done|]. intros -> c0 Hc0.
  rewrite Hc0, unpack_numeric_unverified by (try done; lia). fold x. cbn [mbind option_bind negb]. fold np.
  destruct (Hu eq_refl {| has_unknown := has_unknown c0; known_end := known_end c0; pos := pos c + Z.of_nat 2 |}) as [c1 Hc1].
  rewrite Hc1. by eexists.
Qed.

Lemma unpack_all_agrees ps src ep : Forall agrees ps -> existsb is_variable_size ps = false -> data_ok src ->
  forall ok c ok' vs c', within src (pos c) ep -> unpack_all ps rw src ok c ep = Some (ok', vs, c') ->
  (exists ws, unpack_all ps vo src ok c ep = Some (ok', ws, c')) /\
    (ok' = true -> forall c0, pos c0 = pos c -> exists c1, unpack_all ps uo src true c0 ep = Some (true, vs, c1) /\ pos c1 = pos
    c').
Proof.
  intros Hps Hvar Hs. induction Hps as [|p ps Hp Hps IH]; intros ok c ok' vs c' Hc Heq; cbn [unpack_all] in *.
  { injection Heq as <- <- <-. split; [by eexists|]. intros _ c0 Hc0. by eexists. }
  apply orb_false_elim in Hvar as [Hvar Hvars]. destruct (unpack p rw src c ep) as [[[ok1 v] c1]|] eqn:Ee; [|done].
  cbn [mbind option_bind] in *. destruct (unpack_all ps rw src (ok && ok1) c1 ep) as [[[ok2 ws] c2]|] eqn:Ei; [|done].
  cbn in Heq. injection Heq as <- <- <-.
  destruct (ag_unpack p Hp src c ep ok1 v c1 Hs Hc Ee) as [[w Hvo] Huo].
  destruct (unpack_bounds _ src c ep ok1 v c1 (safe_unpack p (ag_safe p Hp)) Hs Hc Ee) as [Hb _].
  destruct (IH Hvars (ok && ok1) c1 ok2 ws c2 ltac:(unfold within in *; lia) Ei) as [[ws' Hvos] Huos]. rewrite Hvo.
  cbn [mbind option_bind]. rewrite Hvos. split; [by eexists|].
  intros -> c0 Hc0. destruct (andb_prop _ _ (unpack_all_ok _ _ _ _ _ _ _ _ Ei)) as [-> ->].
  destruct (Huo eq_refl c0 Hc0) as (c3 & Heq3 & Hp3). rewrite Heq3. cbn [mbind option_bind andb].
  destruct (Huos eq_refl c3 (Hp3 Hvar)) as (c4 & Heq4 & Hp4). rewrite Heq4. cbn. by eexists.
Qed.
Lemma struct_agrees fd ps : Forall agrees ps -> agrees (struct_packable fd ps).
Proof.
  intros Hps. apply base_agrees; [apply base_safe; [apply never_safe|by apply struct_safe, agrees_safe]|].
  intros src c ep ok v c' Hs Hc Heq. assert (Hs' := proj2 Hs). assert (Hc' := Hc). unfold within in Hc'.
  unfold struct_unpack in *. destruct (get_is_var_size fd ps) eqn:Eg.
  - cbn [Verify andb orb] in *. assert (Hn : exists ok1 x start, (if fd then Some (true, members_fixed_size ps, pos c) else
      unpack_numeric true 2 src (pos c) ep) = Some (ok1, x, start) /\ pos c <= start <= ep /\
      (ok1 = true -> (if fd then Some (true, members_fixed_size ps, pos c) else unpack_numeric false 2 src (pos c) ep) = Some
        (true, x, start))).
    { destruct fd; [by eexists _, _, _; split; [done|]; split; [lia|]|]. rewrite unpack_numeric_verified by done.
      destruct (_ <? _) eqn:E; zbool; eexists _, _, _; (split; [done|]); (split; [lia|]); [done|]. intros _.
      by rewrite unpack_numeric_unverified by (try done; lia). }
    destruct Hn as (ok1 & x & start & Heq1 & Hst & Hun). rewrite Heq1 in *. cbn [mbind option_bind] in *.
    destruct ok1; cbn [negb] in *; [|injection Heq as <- <- <-; split; [by eexists|done]]. set (np := u32 _) in *.
    destruct ((np <? start) || (ep <? np)) eqn:E1. { injection Heq as <- <- <-. split; [by eexists|done]. } zbool.
    destruct (unpack_members_agrees false fd ps src _ start np ep ok v c' Hs eq_refl Hps ltac:(unfold within;
      lia) ltac:(unfold within; lia) Heq) as [Hv Hu]. split; [done|]. intros -> c0 Hc0. rewrite Hc0, (Hun eq_refl).
    cbn [mbind option_bind negb]. fold np.
    destruct (Hu eq_refl {| has_unknown := has_unknown c0; known_end := known_end c0; pos := start |}) as [c1 Hc1]. rewrite Hc1.
    by eexists.
  - unfold get_is_var_size in Eg. apply orb_false_elim in Eg as [_ Eg]. cbn [Verify orb] in *.
    set (c2 := {| has_unknown := _; known_end := _; pos := _ |}) in *.
    destruct (unpack_all ps rw src true c2 ep) as [[[ok1 vs] c3]|] eqn:Ei; [|done]. cbn in Heq. injection Heq as <- <- <-.
    destruct (unpack_all_agrees ps src ep Hps Eg Hs true c2 ok1 vs c3 Hc Ei) as [[ws Hvo] Huo]. rewrite Hvo.
    split; [by eexists|]. intros -> c0 Hc0. destruct (Huo eq_refl {| has_unknown := has_unknown c0; known_end := known_end c0;
      pos := pos c0 |} Hc0) as (c4 & Heq4 & Hp4). rewrite Heq4. cbn. by eexists.
Qed.

(** ** Variants *)

Lemma variant_agrees ps : Forall agrees ps -> agrees (variant_packable ps).
Proof.
  intros Hps. apply base_agrees; [apply base_safe; [apply never_safe|by apply variant_safe, agrees_safe]|].
  intros src c ep ok v c' Hs Hc Heq. assert (Hs' := proj2 Hs). unfold within in Hc. unfold variant_unpack in *.
  cbn [Verify andb orb] in *. rewrite unpack_numeric_verified in * by (try done; unfold within; lia).
  destruct (ep - pos c <? Z.of_nat 1) eqn:E; cbn [mbind option_bind negb] in *. { injection Heq as <- <- <-.
  split; [by eexists|done]. } zbool. set (tag := of_le _) in *.
  destruct (Z.land tag 0x80 =? 0); cbn [negb] in *; [|injection Heq as <- <- <-; split; [by eexists|done]].
  set (q := pos c + Z.of_nat 1) in *. rewrite unpack_numeric_verified in * by (try done; unfold within; lia).
  destruct (ep - q <? Z.of_nat 4) eqn:E2; cbn [mbind option_bind negb] in *. { injection Heq as <- <- <-.
  split; [by eexists|done]. } zbool. set (x := of_le (at_pos src q 4)) in *. set (np := u32 _) in *.
  destruct ((np <? q + Z.of_nat 4) || (ep <? np)) eqn:E3. { injection Heq as <- <- <-. split; [by eexists|done]. } zbool.
  unfold unpack_variant_impl in *. destruct (ps !! Z.to_nat tag) as [p|] eqn:Ep; [|cbn in *; injection Heq as <- <- <-; split;
    [by eexists|done]].
  set (c0 := {| has_unknown := _; known_end := _; pos := _ |}) in *. pose proof (Forall_lookup_1 _ _ _ _ Hps Ep) as Hp.
  destruct (unpack p rw src c0 np) as [[[ok1 w] c1]|] eqn:Eu; [|done].
  destruct (ag_unpack p Hp src c0 np ok1 w c1 Hs ltac:(unfold within; cbn; lia) Eu) as [[w' Hvo] Huo].
  rewrite Hvo. cbn [mbind option_bind] in *. destruct ok1; cbn [negb] in *; [|injection Heq as <- <- <-; split;
    [by eexists|done]]. destruct (known_end c1 && _); injection Heq as <- <- <-; (split; [by eexists|]); [done|].
  intros _ c2 Hc2. rewrite Hc2, unpack_numeric_unverified by (try done; lia). fold q tag. cbn [mbind option_bind negb].
  rewrite unpack_numeric_unverified by (try done; lia). fold x. cbn [mbind option_bind negb]. fold np. rewrite Ep.
  destruct (Huo eq_refl {| has_unknown := has_unknown c2; known_end := false;
    pos := q + Z.of_nat 4 |} eq_refl) as (c3 & Heq3 & _). rewrite Heq3. cbn. by eexists.
Qed.

(** ** All types *)

Lemma is_packable_agrees t : ty_ok t = true -> agrees (is_packable t).
Proof.
  induction t as [n| |n|t IH|t n IH|t IH|ts IH|d ts IH|ts IH] using fty_nested_ind; cbn [ty_ok is_packable]; intros Hok.
  - apply memcpy_agrees.
  - apply bool_agrees.
  - zbool. by apply bytes_agrees.
  - apply andb_prop in Hok as [Hz Hok]. zbool.
    apply vector_agrees; [by apply IH|by rewrite (pk_size _ _ (is_packable_packs t Hok))].
  - by apply array_agrees, IH.
  - by apply opt_agrees, IH.
  - apply andb_prop in Hok as [Hz Hok]. by apply tuple_agrees, (Forall_forallb_map ty_ok).
  - apply andb_prop in Hok as [Hz Hok]. by apply struct_agrees, (Forall_forallb_map ty_ok).
  - apply andb_prop in Hok as [Hz Hok]. by apply variant_agrees, (Forall_forallb_map ty_ok).
Qed.

(** What unpacking, with and without strictness, says of the data. *)
Definition verdict (t : fty) (data : bytes) (garbage : bool) : option validation_t :=
  match from_frac false t data garbage, from_frac true t data garbage with
  | Some None, Some None => Some invalid
  | Some (Some _), Some None => Some extended
  | Some (Some _), Some (Some _) => Some valid
  | _, _ => None
  end.

(** C20: [fracpack_validate], which makes no value, answers what [from_frac] and
    [from_frac_strict] do with the same data: [invalid] when both fail, [valid] when
    both succeed, [extended] when only the first one does.  Data that is not invalid
    is read without verification with the same value and within its bounds. *)
Theorem validate_predicts_from_frac (t : fty) (data : bytes) (garbage garbage' : bool) (Ht : ty_ok t = true) (Hd : data_ok data)
  :
  (exists r, fracpack_validate t data garbage = Some r) /\ fracpack_validate t data garbage = verdict t data garbage /\
  (forall v, from_frac false t data garbage = Some (Some v) -> from_frac_prevalidated t data garbage' = Some v) /\
    (forall v, from_frac true t data garbage = Some (Some v) -> from_frac false t data garbage = Some (Some v)).
Proof.
  assert (Hl := proj2 Hd). pose proof (is_packable_agrees t Ht) as Hp.
  assert (Hw : within data 0 (Z.of_nat (length data))) by (unfold within; lia).
  unfold verdict, fracpack_validate, from_frac, from_frac_prevalidated, unpack_all_of. rewrite u32_small by lia.
  set (c := {| has_unknown := false; known_end := garbage; pos := 0 |}).
  destruct (safe_unpack _ (ag_safe _ Hp) rw data c _ eq_refl Hd Hw) as (ok & v & c' & Heq & _).
  destruct (ag_unpack _ Hp data c _ ok v c' Hd Hw Heq) as [[w Hvo] Huo]. rewrite Hvo, Heq. cbn [mbind option_bind andb].
  split; [by eexists|]. destruct ok; cbn [negb]; [|done].
  destruct (Huo eq_refl {| has_unknown := false; known_end := garbage'; pos := 0 |} eq_refl) as (c1 & Heq1 & _). rewrite Heq1.
  cbn [mbind option_bind]. destruct (known_end c' && _), (has_unknown c'); cbn [mbind option_bind]; (split; [done|]); (split;
    [|done]); by intros ? [= <-].
Qed.
Lemma validate_predicts_from_frac_witness : let t := t_struct false [t_memcpy 4] in let data := [8; 0; 1; 2; 3; 4; 4; 0; 0; 0;
  5; 6; 7; 8] in
  verdict t data true = Some extended /\ fracpack_validate t data true = verdict t data true /\
    from_frac_prevalidated t data false = Some (v_fields [v_memcpy [1; 2; 3; 4]]).
Proof.
  cbn zeta. split; [reflexivity|]. destruct (validate_predicts_from_frac (t_struct false [t_memcpy 4]) [8; 0; 1; 2; 3; 4; 4; 0;
    0; 0; 5; 6; 7; 8] true false eq_refl) as (_ & Hv & Hr & _); [split; [repeat (constructor; [unfold is_byte; lia|]);
    constructor|reflexivity]|]. split; [exact Hv|]. by apply Hr.
Defined.
