(* ===== verification/FracpackEvolve.v ===== *)
(** * fracpack: classes that change

    A class that may change can get new optional members at its end.  Data of the
    old class is data of the new one, with the new members absent; and a reader of
    the old class accepts data of the new one, and sees the members that it knows. *)

From S2P Require Import Prelude ToKey Fracpack FracpackSafe FracpackLayout FracpackRead FracpackCanon FracpackTheorems.

#[local] Open Scope Z_scope.

(** ** Members up to the last one that is there *)

Lemma present_app fd ls es vs ws : length ls = length vs -> present fd (ls ++ es) (vs ++ ws) = (if present fd es ws =? 0 then
  present fd ls vs else length ls + present fd es ws)%nat.
Proof.
  revert vs. induction ls as [|l ls IH]; intros [|v vs] Hlen; try done; [cbn; by destruct (present fd es ws)|]. cbn [app].
  rewrite !present_cons, IH by (injection Hlen; done). destruct (present fd es ws =? 0)%nat eqn:E; [done|]. zbool. cbn [length].
  destruct (_ =? 0)%nat eqn:E2; zbool; [lia|]. done.
Qed.
Lemma present_nones es : Forall (fun l => l_opt l = true) es -> present false es (replicate (length es) v_none) = 0%nat.
Proof. induction 1 as [|l es Hl _ IH]; [done|]. cbn [length replicate]. rewrite present_cons, IH. unfold absent. by rewrite Hl.
Qed.
Lemma typed_app ls es vs ws : typed_members ls vs = true -> typed_members (ls ++ es) (vs ++ ws) = typed_members es ws.
Proof. revert vs. induction ls as [|l ls IH]; intros [|v vs]; cbn; try done. intros [-> Hvs]%andb_prop. by apply IH. Qed.
Lemma typed_nones es : Forall layout_ok es -> Forall (fun l => l_opt l = true) es ->
  typed_members es (replicate (length es) v_none) = true.
Proof. induction 1 as [|l es Hl _ IH]; intros Ho; [done|]. inversion Ho as [|? ? Hlo Hos]; subst. cbn.
by rewrite (lo_absent l Hl Hlo), IH. Qed.

(** The members that are all there. *)
Lemma unpack_fields_full late fd src ef eh unk : data_ok src -> forall ps ls, Forall2 reads ps ls ->
  forall vs f h last, typed_members ls vs = true -> f + sizes ls <= ef ->
  placed src ef eh f h (fixed_of ls vs (h - f)) (heap_of ls vs) ->
  exists last', unpack_fields late fd ps rw src true last {| e_unknown := unk; known_pos := true; fixed_pos := f; heap_pos := h
    |} ef eh =
    Some (true, last', vs, {| e_unknown := unk; known_pos := true; fixed_pos := f + sizes ls; heap_pos := h + Z.of_nat (length
      (heap_of ls vs)) |}).
Proof.
  intros Hs. induction 1 as [|p l ps ls Hp Hps IH]; intros [|v vs] f h last; cbn [typed_members]; try done. { intros _ _ _.
  exists last. cbn. by rewrite !Z.add_0_r. }
  intros [Hv Hvs]%andb_prop Hef. pose proof (rd_packs p l Hp) as Hpk. pose proof (pk_layout p l Hpk) as Hl.
  pose proof (sizes_nonneg ls (packs_layouts ps ls (reads_packs ps ls Hps))) as Hnn. cbn [fixed_of heap_of sizes] in *.
  intros [Hpl Hpls]%placed_app. pose proof (length_l_fixed l v (h - f) Hl Hv) as Hlen. rewrite Hlen in Hpls.
  replace (h - f - l_size l + Z.of_nat (length (l_heap l v))) with (h + Z.of_nat (length (l_heap l v)) - (f + l_size l)) in Hpls
    by lia. cbn [unpack_fields fixed_pos]. rewrite (pk_opt p l Hpk). assert ((f <? ef) || negb (l_opt l) = true) as ->.
  { destruct (l_opt l) eqn:Eo; [|by rewrite orb_true_r]. rewrite (lo_var l Hl (lo_opt l Hl Eo)) in Hef.
    by rewrite (proj2 (Z.ltb_lt _ _)) by lia. }
  cbn [Verify]. assert (exists hv, (if l_opt l && negb fd && negb late then has_value_at p true src f ef else Some true) = Some
    hv) as [hv ->].
  { destruct (l_opt l) eqn:Eo; [|by eexists]. cbn [andb]. destruct (negb fd && negb late); [|by eexists].
    rewrite (rd_has_value p l Hp src _ eh v f h Eo Hs Hv Hpl). by eexists. }
  cbn [mbind option_bind]. rewrite (rd_embedded p l Hp src _ eh v f h unk Hs Hv Hpl). cbn [mbind option_bind andb].
  rewrite Hlen. destruct (IH vs (f + l_size l) (h + Z.of_nat (length (l_heap l v))) (if l_opt l && late then has_value p v else
    hv) Hvs ltac:(lia) Hpls) as [last' Heq]. rewrite Heq. cbn [mbind option_bind]. exists last'.
  rewrite length_app, Nat2Z.inj_add. do 3 f_equal; lia.
Qed.

(** ** Members that the reader does not know *)

Lemma extensions_read src eh : data_ok src -> eh <= Z.of_nat (length src) ->
  forall es vs f h known heap last, typed_members (map optional_layout es) vs = true ->
  present false (map optional_layout es) vs = length es -> f + 4 * Z.of_nat (length es) <= heap <= h ->
  (known = true -> heap = h) ->
  sub src f (fixed_of (map optional_layout es) vs (h - f)) -> h + Z.of_nat (length (heap_of (map optional_layout es) vs)) <= eh
    ->
  exists heap', extensions_loop (length es) src known last f heap eh = Some (true, last || (0 <? length es)%nat, heap').
Proof.
  intros Hs He. assert (Hs' := proj2 Hs). induction es as [|l es IH]; intros [|v vs] f h known heap last;
    cbn [map typed_members]; try done. { intros _ _ _ _ _ _. exists heap. cbn. by rewrite orb_false_r. }
  intros [Hv Hvs]%andb_prop. rewrite present_cons. cbn [length]. intros Hpr Hh Hk Hsub Hb.
  cbn [fixed_of heap_of l_fixed l_heap optional_layout l_size] in *. apply sub_concat in Hsub as [Hw Hsub].
  assert (Hl4 : length (opt_fixed l v (h - f)) = 4%nat) by (unfold opt_fixed, offset_of; destruct (opt_value v);
    apply length_le_bytes).
  rewrite Hl4 in Hsub. rewrite length_app in Hb. destruct Hw as (H0 & H1 & Hw). rewrite Hl4 in H1, Hw.
  replace (h - f - 4 + Z.of_nat (length (opt_heap l v))) with (h + Z.of_nat (length (opt_heap l v)) - (f + 4)) in Hsub by lia.
  cbn [extensions_loop]. unfold unpack_numeric. cbn [andb]. rewrite read_ok by lia. cbn [mbind option_bind].
  rewrite !(u32_small (f + Z.of_nat 4)), (u32_small (eh - f)), (u32_small (heap - f)), Hw by lia.
  destruct ((present false (map optional_layout es) vs =? 0)%nat && negb false && absent (optional_layout l) v) eqn:Ea; [done|].
  injection Hpr as Hpr. change (last || (0 <? S ?n)%nat) with (last || true). rewrite orb_true_r.
  assert (Hrest : forall k hp lst, f + 4 * Z.of_nat (S (length es)) <= hp <= h + Z.of_nat (length (opt_heap l v)) -> (k = true
    -> hp = h + Z.of_nat (length (opt_heap l v))) -> (length es = 0%nat -> lst = true) -> exists heap', extensions_loop (length
    es) src k lst (f + 4) hp eh = Some (true, true, heap')).
  { intros k hp lst H2 H3 H4. destruct (IH vs (f + 4) (h + Z.of_nat (length (opt_heap l v))) k hp lst Hvs Hpr ltac:(lia) H3 Hsub
      ltac:(lia)) as [heap' Heq]. exists heap'. rewrite Heq. do 3 f_equal.
    destruct es; cbn; [by rewrite H4|by rewrite orb_true_r]. }
  destruct v as [| | | |[w|]| |]; try done; unfold opt_fixed, opt_heap, offset_of, content_of in *; cbn [opt_value] in *.
  - rewrite of_le_bytes by (destruct (l_empty l w); lia). destruct (l_empty l w) eqn:Ee; cbn [length] in *.
    + cbn. apply Hrest; [lia|intros ?; rewrite Hk by done; lia|done].
    + rewrite (proj2 (Z.leb_le 2 (h - f))) by lia. replace (h - f + f) with h by lia. replace (f + (h - f)) with h by lia.
      rewrite (u32_small h), (proj2 (Z.ltb_ge (h - f) 4)), (proj2 (Z.ltb_ge (eh - f) (h - f))), (proj2 (Z.ltb_ge (h - f) (heap -
        f))) by lia.
      assert (known && negb (h =? heap) = false) as ->. { destruct known; [|done]. rewrite (Hk eq_refl). by rewrite Z.eqb_refl.
      } cbn [orb]. apply Hrest; [lia|done|]. intros _. apply negb_true_iff, Z.eqb_neq. lia.
  - rewrite of_le_bytes by lia. cbn. apply Hrest; [cbn [length] in *; lia|intros ?; rewrite Hk by done; cbn; lia|]. intros Hz.
    destruct es; [|done]. by destruct vs.
Qed.

(** ** Classes *)

Lemma fixed_of_app ls es vs ws gap : typed_members ls vs = true ->
  fixed_of (ls ++ es) (vs ++ ws) gap = fixed_of ls vs gap ++ fixed_of es ws (gap - sizes ls + Z.of_nat (length (heap_of ls
  vs))).
Proof.
  revert vs gap. induction ls as [|l ls IH]; intros [|v vs] gap; cbn; try done; [intros _; f_equal; lia|].
  intros [_ Hvs]%andb_prop. rewrite IH by done. rewrite <- app_assoc, length_app. do 3 f_equal. lia.
Qed.
Lemma heap_of_app ls es vs ws : typed_members ls vs = true -> heap_of (ls ++ es) (vs ++ ws) = heap_of ls vs ++ heap_of es ws.
Proof. revert vs. induction ls as [|l ls IH]; intros [|v vs]; cbn; try done. intros [_ Hvs]%andb_prop. rewrite IH by done.
by rewrite app_assoc. Qed.
Lemma present_take fd ls vs : let k := present fd ls vs in present fd (take k ls) (take k vs) = k.
Proof.
  revert vs. induction ls as [|l ls IH]; intros [|v vs]; try done. cbn zeta in *. rewrite present_cons.
  destruct (_ && _) eqn:E; [done|]. cbn [take]. rewrite present_cons, IH, E. done.
Qed.
Lemma typed_split ls es vs : typed_members (ls ++ es) vs = true ->
  typed_members ls (take (length ls) vs) = true /\ typed_members es (drop (length ls) vs) = true.
Proof. revert vs. induction ls as [|l ls IH]; intros [|v vs]; cbn; try done. intros [-> Hvs]%andb_prop. by apply IH. Qed.

(** A class, and the class with more optional members at its end. *)
Definition old_class (ts : list fty) : fty := t_struct false ts.
Definition new_class (ts es : list fty) : fty := t_struct false (ts ++ map t_optional es).

Lemma new_class_ok ts es : ty_ok (new_class ts es) = true -> ty_ok (old_class ts) = true /\ forallb ty_ok es = true.
Proof.
  unfold new_class, old_class. cbn [ty_ok]. rewrite map_app, sizes_app, forallb_app. intros [Hz [Ht He]%andb_prop]%andb_prop.
  zbool. assert (Hes : forallb ty_ok es = true). { clear -He. induction es as [|t es IH]; cbn in *; [done|].
  apply andb_prop in He as [-> He]. by apply IH. }
  split; [|done]. rewrite Ht, andb_true_r. apply Z.ltb_lt. assert (0 <= sizes (map layout_of (map t_optional es))); [|lia].
  clear. induction es; cbn in *; lia.
Qed.
Lemma optional_layouts es : map layout_of (map t_optional es) = map optional_layout (map layout_of es).
Proof. induction es as [|t es IH]; cbn; [done|]. by rewrite IH. Qed.
Lemma sizes_optional ls : sizes (map optional_layout ls) = 4 * Z.of_nat (length ls).
Proof. induction ls as [|l ls IH]; [done|]. cbn [map sizes l_size optional_layout length]. lia. Qed.
Lemma optional_ok es : forallb ty_ok es = true -> forallb ty_ok (map t_optional es) = true.
Proof. induction es as [|t es IH]; cbn; [done|]. intros [-> Hes]%andb_prop. by apply IH. Qed.
Lemma optional_opt (ls : list layout) : Forall (fun l => l_opt l = true) (map optional_layout ls).
Proof. induction ls; constructor; done. Qed.
Lemma layouts_ok ts : forallb ty_ok ts = true -> Forall layout_ok (map layout_of ts).
Proof. intros H. apply (Forall_forallb_map ty_ok); [|done]. apply Forall_true. intros t Ht.
exact (pk_layout _ _ (is_packable_packs t Ht)). Qed.

(** The absent members have no bytes. *)
Lemma encoding_without es ts vs ws : typed_members (map layout_of ts) vs = true ->
  present false (map layout_of (map t_optional es)) ws = 0%nat ->
  encoding (new_class ts es) (v_fields (vs ++ ws)) = encoding (old_class ts) (v_fields vs).
Proof.
  intros Hvs Hp. unfold encoding, new_class, old_class. cbn. unfold fields_enc. cbn [val_list].
  rewrite map_app, present_app, Hp by (by apply typed_length). cbn [Nat.eqb]. set (k := present false (map layout_of ts) vs).
  assert (Hk : (k <= length (map layout_of ts))%nat) by apply present_le.
  rewrite !take_app_le; [done|rewrite <- (typed_length _ _ Hvs); lia|lia].
Qed.

(** What [to_frac] writes for an object of the old class, a reader of the new class
    reads, with and without strictness: the new members are absent. *)
Theorem new_class_reads_old_data (ts es : list fty) (vs : list fval) (strict garbage : bool)
  (Ht : ty_ok (new_class ts es) = true) (Hv : typed (old_class ts) (v_fields vs) = true) (Hs : fits (old_class ts) (v_fields
    vs)) :
  from_frac strict (new_class ts es) (to_frac (old_class ts) (v_fields vs)) garbage =
    Some (Some (v_fields (vs ++ replicate (length es) v_none))).
Proof.
  unfold fits in Hs. destruct (new_class_ok ts es Ht) as [Hto Hes]. unfold to_frac.
  rewrite (pk_pack _ _ (is_packable_packs _ Hto) (v_fields vs) []) by done.
  change ([] ++ l_enc (layout_of (old_class ts)) (v_fields vs)) with (encoding (old_class ts) (v_fields vs)).
  assert (Hls : Forall layout_ok (map layout_of (map t_optional es))) by (by apply layouts_ok, optional_ok).
  assert (Hopt : Forall (fun l => l_opt l = true) (map layout_of (map t_optional es))) by (rewrite optional_layouts;
    apply optional_opt). pose proof (present_nones _ Hopt) as Hpr. pose proof (typed_nones _ Hls Hopt) as Hty.
  rewrite !length_map in Hpr, Hty.
  pose proof (encoding_without es ts vs (replicate (length es) v_none) Hv Hpr) as He. rewrite <- He in *. unfold from_frac.
  rewrite unpack_encoding; [cbn; by rewrite Z.eqb_refl, andb_false_r|done| |done]. unfold typed, new_class. cbn.
  rewrite map_app, typed_app by done. exact Hty.
Qed.
Lemma new_class_reads_old_data_witness : from_frac true (new_class [t_memcpy 1] [t_bytes 1]) (to_frac (old_class [t_memcpy 1])
  (v_fields [v_memcpy [7]])) false = Some (Some (v_fields [v_memcpy [7]; v_none])).
Proof. apply (new_class_reads_old_data [t_memcpy 1] [t_bytes 1] [v_memcpy [7]]); reflexivity. Defined.

(** Known members, and at least one after them that the reader does not know. *)
Lemma unpack_members_extended ps ls es vs ws src c start ep : data_ok src -> Forall2 reads ps ls ->
  Forall layout_ok (map optional_layout es) ->
  typed_members ls vs = true -> typed_members (map optional_layout es) ws = true ->
    present false (map optional_layout es) ws = length es ->
  (0 < length es)%nat -> known_end c = true -> ep <= Z.of_nat (length src) ->
  let all := ls ++ map optional_layout es in
  start + Z.of_nat (length (members_of all (vs ++ ws))) <= ep -> sub src start (members_of all (vs ++ ws)) ->
  exists p, unpack_members false false ps rw src c start (start + sizes all) ep =
    Some (true, v_fields vs, {| has_unknown := true; known_end := false; pos := p |}).
Proof.
  intros Hd Hps Hes Hvs Hws Hpr Hlen Hk He all Hb Hsub. pose proof (packs_layouts ps ls (reads_packs ps ls Hps)) as Hls.
  assert (Hall : Forall layout_ok all) by (by apply Forall_app). assert (Hs' := proj2 Hd). assert (H0 := proj1 Hsub).
  assert (Htall : typed_members all (vs ++ ws) = true) by (unfold all; by rewrite typed_app).
  pose proof (sizes_nonneg ls Hls) as Hnn. pose proof (length_members _ _ Hall Htall) as Hlm.
  pose proof (members_placed src ep start _ _ Hall Htall He Hb Hsub) as Hpl. cbn zeta in Hpl. unfold all in Hpl, Hlm.
  rewrite fixed_of_app, heap_of_app in Hpl by done. apply placed_app in Hpl as [Hpl1 Hpl2].
  rewrite length_fixed_of in Hpl2 by done.
  fold all in Hpl1, Hpl2, Hlm. assert (Hsz : sizes all = sizes ls + 4 * Z.of_nat (length es)) by (unfold all;
    by rewrite sizes_app, sizes_optional).
  set (heap := start + sizes all) in *. unfold unpack_members. rewrite Hk.
  destruct (unpack_fields_full false false src heap ep (has_unknown c) Hd _ ls Hps vs start heap true Hvs ltac:(lia) Hpl1) as
    [last Hf].
  rewrite Hf. cbn [mbind option_bind negb Verify fixed_pos heap_pos e_unknown known_pos]. rewrite (proj2 (Z.ltb_lt _ _)) by lia.
  unfold verify_extensions. replace (heap - (start + sizes ls)) with (Z.of_nat (length es) * 4) by lia.
  rewrite u32_small, Z.mod_mul, Z.div_mul, Nat2Z.id by lia. cbn [Z.eqb negb]. destruct Hpl2 as [Hp1 Hp2 Hp3 Hp4].
  replace (heap - start - sizes ls + Z.of_nat (length (heap_of ls vs)))
    with (heap + Z.of_nat (length (heap_of ls vs)) - (start + sizes ls)) in Hp1 by lia.
  destruct (extensions_read src ep Hd He es ws (start + sizes ls) (heap + Z.of_nat (length (heap_of ls vs))) true
    (heap + Z.of_nat (length (heap_of ls vs))) last Hws Hpr ltac:(lia) ltac:(done) Hp1 ltac:(lia)) as [h Hx].
  rewrite Hx. cbn [mbind option_bind negb]. rewrite (proj2 (Nat.ltb_lt 0 _)), orb_true_r by lia. cbn [negb]. by eexists.
Qed.

Lemma encoding_extended ts es vs ws : typed_members (map layout_of ts) vs = true ->
  let k := present false (map layout_of (map t_optional es)) ws in k <> 0%nat ->
  let all := map layout_of ts ++ map optional_layout (map layout_of (take k es)) in
  encoding (new_class ts es) (v_fields (vs ++ ws)) = le_bytes 2 (sizes all) ++ members_of all (vs ++ take k ws).
Proof.
  intros Hvs k Hk all. pose proof (typed_length _ _ Hvs) as Hll. unfold encoding, new_class. cbn -[le_bytes]. unfold fields_enc.
  cbn [val_list]. rewrite map_app, present_app by done. fold k. rewrite (proj2 (Nat.eqb_neq k 0)) by lia.
  assert (Hta : take (length (map layout_of ts) + k) (vs ++ ws) = vs ++ take k ws) by (rewrite Hll; apply take_app_add).
  rewrite Hta, take_app_add. unfold all. by rewrite optional_layouts, !firstn_map.
Qed.

Lemma unpack_extended ts es vs ws garbage : ty_ok (new_class ts es) = true -> typed_members (map layout_of ts) vs = true ->
  typed_members (map layout_of (map t_optional es)) ws = true ->
  Z.of_nat (length (encoding (new_class ts es) (v_fields (vs ++ ws)))) < 2 ^ 32 ->
    present false (map layout_of (map t_optional es)) ws <> 0%nat ->
  exists p, unpack_all_of (old_class ts) rw (encoding (new_class ts es) (v_fields (vs ++ ws))) garbage =
    Some (true, v_fields vs, {| has_unknown := true; known_end := false; pos := p |}).
Proof.
  intros Ht Hv Hw Hs Hk. destruct (new_class_ok ts es Ht) as [Hto Hes].
  assert (Hvw : typed (new_class ts es) (v_fields (vs ++ ws)) = true).
  { unfold typed, new_class. cbn. rewrite map_app. by rewrite typed_app. }
  pose proof (encoding_data_ok _ _ Ht Hvw Hs) as Hd. pose proof (encoding_extended ts es vs ws Hv Hk) as Henc. cbn zeta in Henc.
  set (k := present false (map layout_of (map t_optional es)) ws) in *. assert (Hke : (k <= length es)%nat).
  { unfold k. pose proof (present_le false (map layout_of (map t_optional es)) ws) as H. by rewrite !length_map in H. }
  cbn [ty_ok old_class] in Hto. apply andb_prop in Hto as [_ Hts]. set (els := map layout_of (take k es)) in *.
  assert (Hels : take k (map layout_of (map t_optional es)) = map optional_layout els) by (by rewrite optional_layouts,
    !firstn_map).
  assert (Hlo : Forall layout_ok (map layout_of (map t_optional es))) by (by apply layouts_ok, optional_ok).
  assert (Hlels : length els = k) by (unfold els; rewrite length_map, length_take; lia).
  pose proof (typed_take _ _ k Hw) as Hwk. pose proof (present_take false (map layout_of (map t_optional es)) ws) as Hpk.
  cbn zeta in Hpk. fold k in Hpk.
  pose proof (Forall_take _ k _ Hlo) as Hlk. rewrite Hels in Hwk, Hpk, Hlk.
  assert (Hreads : Forall2 reads (map is_packable ts) (map layout_of ts)).
  { apply (Forall_Forall2_map ty_ok); [|done]. apply Forall_true. intros t H. by apply is_packable_reads. }
  set (src := encoding (new_class ts es) (v_fields (vs ++ ws))) in *.
  set (all := map layout_of ts ++ map optional_layout els) in *.
  assert (Hlsrc : Z.of_nat (length src) = 2 + Z.of_nat (length (members_of all (vs ++ take k ws)))) by (rewrite Henc,
    length_app, length_le_bytes; lia).
  assert (Hall : Forall layout_ok all) by (apply Forall_app; split; [by apply layouts_ok|done]).
  pose proof (length_members all (vs ++ take k ws) Hall ltac:(unfold all; by rewrite typed_app)) as Hlm.
  pose proof (sizes_nonneg all Hall) as Hnn.
  assert (H16 : sizes all < 2 ^ 16).
  { cbn [ty_ok new_class] in Ht. apply andb_prop in Ht as [Hz _]. rewrite map_app, sizes_app in Hz. zbool. unfold all.
    rewrite sizes_app, <- Hels.
    pose proof (sizes_take _ k Hlo). lia. }
  pose proof (sub_whole src) as Hsub. rewrite Henc in Hsub at 2. apply sub_concat in Hsub as [Hsz2 Hsub].
  rewrite length_le_bytes in Hsub.
  unfold unpack_all_of. rewrite u32_small by lia. cbn [old_class is_packable struct_packable base_packable_impl unpack].
  unfold struct_unpack. cbn [get_is_var_size negb orb Verify pos].
  rewrite (unpack_numeric_sub 2 src 0 _ (sizes all)) by (try done; lia).
  cbn [mbind option_bind negb andb]. rewrite u32_small by lia. rewrite !(proj2 (Z.ltb_ge _ _)) by lia. cbn [orb].
  apply (unpack_members_extended (map is_packable ts) (map layout_of ts) els vs (take k ws)); try done; fold all; lia.
Qed.

(** What [to_frac] writes for an object of the new class, a reader of the old class
    that is not strict reads, and gets the members that it knows. *)
Theorem old_class_reads_new_data (ts es : list fty) (vs : list fval) (garbage : bool)
  (Ht : ty_ok (new_class ts es) = true) (Hv : typed (new_class ts es) (v_fields vs) = true) (Hs : fits (new_class ts es)
    (v_fields vs)) :
  from_frac false (old_class ts) (to_frac (new_class ts es) (v_fields vs)) garbage = Some (Some (v_fields (take (length ts)
    vs))).
Proof.
  unfold fits in Hs. destruct (new_class_ok ts es Ht) as [Hto Hes]. unfold to_frac.
  rewrite (pk_pack _ _ (is_packable_packs _ Ht) (v_fields vs) []) by done.
  change ([] ++ l_enc (layout_of (new_class ts es)) (v_fields vs)) with (encoding (new_class ts es) (v_fields vs)).
  unfold typed, new_class in Hv. cbn in Hv. rewrite map_app in Hv. apply typed_split in Hv as [Hv1 Hv2].
  rewrite length_map in *. destruct (present false (map layout_of (map t_optional es)) (drop (length ts) vs)) as [|n] eqn:Ep.
  - pose proof (encoding_without es ts _ _ Hv1 Ep) as He. rewrite take_drop in He. rewrite He in *. unfold from_frac.
    rewrite unpack_encoding by done. cbn. by rewrite Z.eqb_refl.
  - destruct (unpack_extended ts es _ _ garbage Ht Hv1 Hv2 ltac:(by rewrite take_drop) ltac:(by rewrite Ep)) as [q Hq].
    rewrite take_drop in Hq. unfold from_frac. by rewrite Hq.
Qed.
Lemma old_class_reads_new_data_witness : from_frac false (old_class [t_memcpy 1; t_bytes 1]) (to_frac (new_class [t_memcpy 1;
  t_bytes 1] [t_bytes 1; t_bool]) (v_fields [v_memcpy [7]; v_bytes [104]; v_none; v_opt (Some (v_bool true))])) false
  = Some (Some (v_fields [v_memcpy [7]; v_bytes [104]])).
Proof. apply (old_class_reads_new_data [t_memcpy 1; t_bytes 1] [t_bytes 1; t_bool] [v_memcpy [7]; v_bytes [104]; v_none;
  v_opt (Some (v_bool true))]); reflexivity. Defined.

(** Inside of another class this is not so.  After a member with members that the
    reader does not know, the reader does not know where the next contents start;
    but an empty container and a number set [known_pos], as if it did.  So a
    reader of the old class accepts the data when the string in between is not
    empty, and rejects it when the string is empty, or when there is a number in
    its place. *)
Theorem nested_extension_rejected (garbage : bool) :
  let inner := v_fields [v_memcpy [1; 2; 3; 4]; v_opt (Some (v_memcpy [5; 6; 7; 8]))] in
  let outer t u := t_struct false [t; u; t_bytes 1] in
  let read u v := from_frac false (outer (old_class [t_memcpy 4]) u) (to_frac (outer (new_class [t_memcpy 4] [t_memcpy 4]) u)
    (v_fields [inner; v; v_bytes [104]])) garbage in
  read (t_bytes 1) (v_bytes [105]) = Some (Some (v_fields [v_fields [v_memcpy [1; 2; 3; 4]]; v_bytes [105]; v_bytes [104]])) /\
  read (t_bytes 1) (v_bytes []) = Some None /\ read (t_memcpy 1) (v_memcpy [9]) = Some None.
Proof. by destruct garbage; vm_compute. Qed.
