(* ===== verification/Names.v ===== *)
(** * Account names

    Sources: libraries/psibase/common/include/psibase/NameEncoder.hpp,
    name.hpp and AccountNumber.hpp.  [NameEncoder] numbers the valid names of
    at most [N] characters without gaps, in the order of the names; an account
    number is such a number, shifted by 8 bits, plus a subaccount.  Arithmetic
    is that of [std::uint64_t]. *)

From S2P Require Import Prelude.

(** ** [NameEncoder] *)

Record NameCount := { withSep : Z; withoutSep : Z }.

Section encoder.
(** The number of regular characters and the maximal length. *)
Context (numRegularChars : Z) (N : nat).

(** The entry [i] of [tailCounts], as the loop of the constructor computes it. *)
Fixpoint tailCount (i : nat) : NameCount :=
  match i with
  | O => {| withSep := 1; withoutSep := 0 |}
  | S i =>
      let prev := tailCount i in
      let wo := u64 (numRegularChars * withSep prev) in
      {| withSep := u64 (withoutSep prev + wo + 1); withoutSep := wo |}
  end.

Definition tailCounts : list NameCount := map tailCount (seq 0 N).
Definition tail_at (i : nat) : NameCount := nth i tailCounts {| withSep := 0; withoutSep := 0 |}.

Definition encoder_max : Z := u64 (numRegularChars * withSep (tail_at (N - 1))).

(** The value [-1] of the unsigned type. *)
Definition invalid_code : Z := u64 (-1).

(** The loop of [encode]; [maxlen] is how many characters may follow. *)
Fixpoint encode_loop (rng : list Z) (sepIdx : Z) (result : Z) (maxlen : nat)
    (allowsSep allowsEnd : bool) : Z :=
  match rng with
  | [] => if negb allowsEnd then invalid_code else result
  | idx :: rng =>
      match maxlen with
      | O => invalid_code
      | S m =>
          if (u64 (numRegularChars + 1) <=? idx) || ((idx =? sepIdx) && negb allowsSep)
          then invalid_code
          else
            let result := if allowsEnd then u64 (result + 1) else result in
            let result :=
              if idx <=? sepIdx then u64 (result + u64 (idx * withSep (tail_at m)))
              else
                let result := u64 (result + u64 ((idx - 1) * withSep (tail_at m))) in
                if allowsSep then u64 (result + withoutSep (tail_at m)) else result in
            let allows := negb (idx =? sepIdx) in
            encode_loop rng sepIdx result m allows allows
      end
  end.

Definition encode (rng : list Z) (sepIdx : Z) : Z := encode_loop rng sepIdx 0 N false true.

(** The loop of [decode].  [None] is an access to [tailCounts] at index -1. *)
Fixpoint decode_loop (maxlen : nat) (value sepIdx : Z) (allowsSep allowsEnd : bool) : option (list Z) :=
  if (value =? 0) && allowsEnd then Some []
  else
    match maxlen with
    | O => None
    | S m =>
        let value := if allowsEnd then u64 (value - 1) else value in
        let tail := withSep (tail_at m) in
        let '(value, idx) :=
          if allowsSep then
            let tailSep := withoutSep (tail_at m) in
            if u64 (u64 (tail * sepIdx) + tailSep) <=? value
            then (u64 (value - tailSep), 1) else (value, 0)
          else if u64 (tail * sepIdx) <=? value then (value, 1) else (value, 0) in
        let idx := u64 (idx + value / tail) in
        let value := value mod tail in
        let allows := negb (idx =? sepIdx) in
        match decode_loop m value sepIdx allows allows with
        | Some out => Some (idx :: out)
        | None => None
        end
    end.

Definition decode (value sepIdx : Z) : option (list Z) :=
  if encoder_max <? value then Some []
  else decode_loop N value sepIdx false true.

(** ** The names and their rank *)

(** The names [encode] accepts. *)
Fixpoint valid_suffix (rng : list Z) (sepIdx : Z) (maxlen : nat) (allowsSep allowsEnd : bool) : bool :=
  match rng, maxlen with
  | [], _ => allowsEnd
  | _ :: _, O => false
  | idx :: rng, S m =>
      (0 <=? idx) && (idx <=? numRegularChars) && (negb (idx =? sepIdx) || allowsSep)
      && valid_suffix rng sepIdx m (negb (idx =? sepIdx)) (negb (idx =? sepIdx))
  end.
Definition valid_name (rng : list Z) (sepIdx : Z) : bool := valid_suffix rng sepIdx N false true.
End encoder.

Definition accountEncode (rng : list Z) (sepIdx : Z) : Z := encode 36 10 rng sepIdx.
Definition accountDecode (value sepIdx : Z) : option (list Z) := decode 36 10 value sepIdx.

(** ** name.hpp *)

Definition subaccountSeparator : bytes := str "+".

(** [std::string_view::find]. *)
Fixpoint find (s sep : bytes) : option nat :=
  if decide (take (length sep) s = sep) then Some 0%nat
  else match s with
       | [] => None
       | _ :: s => option_map S (find s sep)
       end.

(** The digit loop of [subaccount_from_str]; [None] is the early [return 0]. *)
Fixpoint subaccount_digits (l : bytes) (sub : Z) : option Z :=
  match l with
  | [] => Some sub
  | ch :: l =>
      let digit := u32 (ch - chr "0") in
      if 10 <=? digit then None
      else
        let sub := u32 (sub * 10 + digit) in
        if 255 <? sub then None else subaccount_digits l sub
  end.

(** The subaccount, and the string with the subaccount removed. *)
Definition subaccount_from_str (s sep : bytes) : Z * bytes :=
  match find s sep with
  | None => (0, s)
  | Some pos =>
      match subaccount_digits (drop (pos + length sep) s) 0 with
      | None => (0, s)
      | Some sub => (sub, take pos s)
      end
  end.

(** [std::to_string] of an 8-bit value. *)
Definition to_string_u8 (n : Z) : bytes :=
  (if 100 <=? n then [chr "0" + n / 100] else []) ++
  (if 10 <=? n then [chr "0" + n / 10 mod 10] else []) ++ [chr "0" + n mod 10].

Definition subaccount_to_str (sub : Z) (out sep : bytes) : bytes :=
  if negb (sub =? 0) then out ++ sep ++ to_string_u8 sub else out.

(** The lambda of [name_to_number]. *)
Definition char_index (ch : Z) : Z :=
  if ch =? chr "-" then 0
  else if in_range (chr "0") (chr "9") ch then ch - chr "0" + 1
  else if in_range (chr "A") (chr "Z") ch then ch - chr "A" + 11
  else if in_range (chr "a") (chr "z") ch then ch - chr "a" + 11
  else u64 (-1).

Definition name_to_number (m_input sep : bytes) : Z :=
  let '(sub, m_input) := subaccount_from_str m_input sep in
  let result := accountEncode (map char_index m_input) 0 in
  if result =? u64 (-1) then 0
  else u64 (u64 (Z.shiftl result 8) + sub).

Definition name_chars : bytes := str "-0123456789abcdefghijklmnopqrstuvwxyz".

Definition number_to_name (input : Z) (sep : bytes) : option bytes :=
  let sub := Z.land input 0xff in
  match accountDecode (Z.shiftr input 8) 0 with
  | None => None
  | Some idxs =>
      let result := map (fun idx => nth (Z.to_nat idx) name_chars 0) idxs in
      Some (subaccount_to_str sub result sep)
  end.

(** ** AccountNumber.hpp *)

(** An account number is its [value]. *)
Definition subaccountMask : Z := 0xff.
Definition AccountNumber_of_name (s : bytes) : Z := name_to_number s subaccountSeparator.
Definition withSeparator (s sep : bytes) : Z := name_to_number s sep.
Definition subaccount (value : Z) : Z := u8 (Z.land value subaccountMask).
Definition base_account (value : Z) : Z := Z.land value (u64 (Z.lnot subaccountMask)).
Definition make_subaccount (base sub : Z) : Z := Z.lor (Z.land base (u64 (Z.lnot subaccountMask))) sub.
Definition account_str (value : Z) : option bytes := number_to_name value subaccountSeparator.

Example name_ex : account_str (AccountNumber_of_name (str "auth-sig+12")) = Some (str "auth-sig+12").
Proof. vm_compute. reflexivity. Qed.

(** ** Ranks without overflow *)

Section rank.
Context (C : Z) (N : nat) (s : Z) (HC : 1 <= C) (Hs : 0 <= s <= C).

(** The counts as unbounded integers. *)
Fixpoint counts (i : nat) : Z * Z :=
  match i with
  | O => (1, 0)
  | S i => let '(w, wo) := counts i in (wo + C * w + 1, C * w)
  end.
Definition ws (i : nat) : Z := (counts i).1.
Definition wo (i : nat) : Z := (counts i).2.

(** How many valid suffixes have at most [m] characters. *)
Definition total (m : nat) (allowsSep allowsEnd : bool) : Z :=
  Z.b2z allowsEnd + match m with O => 0 | S m => C * ws m + (if allowsSep then wo m else 0) end.

(** How many valid suffixes begin with a character below [idx]. *)
Definition below (m : nat) (allowsSep : bool) (idx : Z) : Z :=
  if idx <=? s then idx * ws m else (idx - 1) * ws m + (if allowsSep then wo m else 0).

(** The number of valid suffixes that are smaller than [l]. *)
Fixpoint rank (l : list Z) (m : nat) (allowsSep allowsEnd : bool) : Z :=
  match l, m with
  | idx :: l, S m =>
      Z.b2z allowsEnd + below m allowsSep idx + rank l m (negb (idx =? s)) (negb (idx =? s))
  | _, _ => 0
  end.

Lemma counts_step i : ws (S i) = wo i + C * ws i + 1 /\ wo (S i) = C * ws i.
Proof. unfold ws, wo. cbn [counts]. destruct (counts i). done. Qed.

Lemma counts_pos i : 0 <= wo i < ws i.
Proof.
  induction i as [|i IH]; [unfold ws, wo; cbn; lia|]. destruct (counts_step i) as [-> ->]. nia.
Qed.

Lemma counts_mono i j : (i <= j)%nat -> ws i <= ws j /\ wo i <= wo j.
Proof.
  induction 1 as [|j _ IH]; [lia|]. destruct (counts_step j) as [-> ->]. pose proof (counts_pos j). nia.
Qed.

(** [tailCounts] holds the totals of the suffixes with and without a leading
    separator. *)
Lemma total_both m : total m true true = ws m.
Proof. unfold total. destruct m; cbn [Z.b2z]; [done|]. destruct (counts_step m) as [-> _]. lia. Qed.

Lemma total_none m : total m false false = wo m.
Proof. unfold total. destruct m; cbn [Z.b2z]; [done|]. destruct (counts_step m) as [_ ->]. lia. Qed.

(** The suffixes that begin with [idx]. *)
Definition width (m : nat) (idx : Z) : Z := total m (negb (idx =? s)) (negb (idx =? s)).

Lemma width_spec m idx : width m idx = if idx =? s then wo m else ws m.
Proof. unfold width. destruct (idx =? s); [apply total_none | apply total_both]. Qed.

Lemma below_step m sep idx :
  (negb (idx =? s) || sep) = true ->
  below m sep (idx + 1) = below m sep idx + width m idx.
Proof.
  intros H. rewrite width_spec. unfold below.
  destruct (Z.leb_spec (idx + 1) s), (Z.leb_spec idx s), (Z.eqb_spec idx s), sep; try lia; try done; subst; lia.
Qed.

Lemma below_mono m sep i j : i <= j -> below m sep i <= below m sep j.
Proof.
  intros H. pose proof (counts_pos m). unfold below.
  destruct (Z.leb_spec i s), (Z.leb_spec j s), sep; nia.
Qed.

Lemma below_all m sep e : total (S m) sep e = Z.b2z e + below m sep (C + 1).
Proof. unfold total, below. rewrite (proj2 (Z.leb_gt (C + 1) s)) by lia. destruct sep; lia. Qed.

Lemma below_0 m sep : below m sep 0 = 0.
Proof. unfold below. rewrite (proj2 (Z.leb_le 0 s)) by lia. lia. Qed.

Lemma valid_cons idx l m sep e :
  valid_suffix C (idx :: l) s (S m) sep e = true <->
  (0 <= idx <= C /\ (negb (idx =? s) || sep) = true /\
   valid_suffix C l s m (negb (idx =? s)) (negb (idx =? s)) = true).
Proof. cbn [valid_suffix]. rewrite !andb_true_iff, !Z.leb_le. tauto. Qed.

(** What a first character contributes to a rank. *)
Lemma rank_cons_bound idx l m sep e :
  valid_suffix C (idx :: l) s (S m) sep e = true ->
  0 <= rank l m (negb (idx =? s)) (negb (idx =? s)) < width m idx ->
  0 <= below m sep idx /\ below m sep idx + width m idx <= below m sep (C + 1).
Proof.
  intros (Hi & Hsep & _)%valid_cons _. rewrite <- below_step by done.
  pose proof (below_mono m sep 0 idx ltac:(lia)). rewrite below_0 in *.
  split; [done | apply below_mono; lia].
Qed.

Lemma rank_bound l m sep e :
  valid_suffix C l s m sep e = true -> 0 <= rank l m sep e < total m sep e.
Proof.
  revert m sep e. induction l as [|idx l IH]; intros m sep e H.
  - cbn in H. subst e. unfold total. cbn. destruct m as [|m]; [lia|].
    pose proof (counts_pos m). destruct sep; nia.
  - destruct m as [|m]; [done|]. pose proof H as (Hi & Hsep & Hv)%valid_cons.
    specialize (IH m _ _ Hv). destruct (rank_cons_bound _ _ _ _ _ H IH). cbn [rank].
    rewrite below_all. unfold width in *. destruct e; cbn [Z.b2z]; lia.
Qed.

(** Names are numbered in their order. *)
Lemma rank_compare a b m sep e :
  valid_suffix C a s m sep e = true -> valid_suffix C b s m sep e = true ->
  (rank a m sep e ?= rank b m sep e) = lex_compare a b.
Proof.
  revert b m sep e. induction a as [|x a IH]; intros [|y b] m sep e Ha Hb; [done|..];
    (destruct m as [|m]; [done|]); cbn [rank lex_compare].
  - cbn in Ha. subst e. pose proof Hb as (_ & _ & Hv)%valid_cons. apply rank_bound in Hv.
    destruct (rank_cons_bound _ _ _ _ _ Hb Hv). apply Z.compare_lt_iff. cbn. lia.
  - cbn in Hb. subst e. pose proof Ha as (_ & _ & Hv)%valid_cons. apply rank_bound in Hv.
    destruct (rank_cons_bound _ _ _ _ _ Ha Hv). apply Z.compare_gt_iff. cbn. lia.
  - apply valid_cons in Ha as (Hx & Hsa & Hva), Hb as (Hy & Hsb & Hvb).
    pose proof (rank_bound _ _ _ _ Hva) as Hra. pose proof (rank_bound _ _ _ _ Hvb) as Hrb.
    pose proof (below_step m sep x Hsa). pose proof (below_step m sep y Hsb). unfold width in *.
    destruct (Z.compare_spec x y) as [->|Hlt|Hgt].
    + rewrite Z.add_compare_mono_l. by apply IH.
    + pose proof (below_mono m sep (x + 1) y ltac:(lia)). apply Z.compare_lt_iff. lia.
    + pose proof (below_mono m sep (y + 1) x ltac:(lia)). apply Z.compare_gt_iff. lia.
Qed.

(** ** The code computes ranks

    [Hfit]: the largest intermediate value fits in 64 bits. *)
Context (Hfit : C * ws N + ws N + wo N + C < 2 ^ 64).

Lemma fit_at m : (m <= N)%nat -> C * ws m + ws m + wo m + C < 2 ^ 64.
Proof. intros [? ?]%counts_mono. nia. Qed.

Lemma tailCount_exact i : (i <= N)%nat -> tailCount C i = {| withSep := ws i; withoutSep := wo i |}.
Proof.
  induction i as [|i IH]; intros Hi; [done|]. cbn [tailCount]. rewrite IH by lia. cbn [withSep withoutSep].
  pose proof (fit_at i ltac:(lia)). pose proof (fit_at (S i) Hi) as H1.
  pose proof (counts_pos i). destruct (counts_step i) as [E1 E2]. rewrite E1, E2 in *.
  rewrite !wrap_small; rewrite ?wrap_small; try nia. f_equal; lia.
Qed.

Lemma tail_at_exact i : (i < N)%nat -> tail_at C N i = {| withSep := ws i; withoutSep := wo i |}.
Proof.
  intros Hi. unfold tail_at, tailCounts.
  rewrite (nth_indep _ _ (tailCount C 0)) by (by rewrite length_map, length_seq).
  rewrite map_nth, seq_nth by done. apply tailCount_exact. lia.
Qed.

(** No intermediate value exceeds the total, so nothing wraps around. *)
Lemma below_exact m sep e idx r :
  (m < N)%nat -> 0 <= idx <= C -> 0 <= r -> r + total (S m) sep e < 2 ^ 64 ->
  let r1 := if e then u64 (r + 1) else r in
  (if idx <=? s then u64 (r1 + u64 (idx * withSep (tail_at C N m)))
   else let r2 := u64 (r1 + u64 ((idx - 1) * withSep (tail_at C N m))) in
        if sep then u64 (r2 + withoutSep (tail_at C N m)) else r2)
  = r + Z.b2z e + below m sep idx.
Proof.
  intros Hm Hi Hr Ht. rewrite tail_at_exact by done. cbn [withSep withoutSep].
  rewrite below_all in Ht. pose proof (below_mono m sep idx (C + 1) ltac:(lia)) as Hb.
  pose proof (counts_pos m). assert (0 <= below m sep (C + 1)).
  { rewrite <- (below_0 m sep). apply below_mono. lia. }
  assert (0 <= Z.b2z e <= 1) by (by destruct e).
  replace (if e then u64 (r + 1) else r) with (r + Z.b2z e)
    by (destruct e; cbn [Z.b2z] in *; [by rewrite wrap_small by lia | lia]).
  cbn zeta. unfold below at 1 in Hb. unfold below.
  destruct (Z.leb_spec idx s).
  - assert (0 <= idx * ws m) by nia. rewrite (wrap_small 64 (idx * ws m)), wrap_small by lia. done.
  - assert (0 <= (idx - 1) * ws m) by nia.
    rewrite (wrap_small 64 ((idx - 1) * ws m)) by (destruct sep; lia).
    rewrite (wrap_small 64 (_ + (idx - 1) * ws m)) by (destruct sep; lia).
    destruct sep; [rewrite wrap_small|]; lia.
Qed.

Lemma encode_loop_rank l m sep e r :
  (m <= N)%nat -> Forall (fun i => 0 <= i) l -> 0 <= r -> r + total m sep e < 2 ^ 64 ->
  encode_loop C N l s r m sep e =
    if valid_suffix C l s m sep e then r + rank l m sep e else invalid_code.
Proof.
  revert m sep e r. induction l as [|idx l IH]; intros m sep e r Hm Hl Hr Ht.
  { cbn. destruct e; cbn; [lia | done]. }
  destruct m as [|m]; [done|]. apply Forall_cons in Hl as [Hi Hl]. cbn [encode_loop].
  pose proof (fit_at N ltac:(lia)). pose proof (counts_pos N).
  rewrite (wrap_small 64 (C + 1)) by nia.
  destruct (Z.leb_spec (C + 1) idx) as [Hbig|Hsmall]; cbn [orb].
  { destruct (valid_suffix C (idx :: l) s (S m) sep e) eqn:E; [|done].
    apply valid_cons in E as (? & _). lia. }
  destruct ((idx =? s) && negb sep) eqn:Hsep.
  { destruct (valid_suffix C (idx :: l) s (S m) sep e) eqn:E; [|done].
    apply valid_cons in E as (_ & E & _). destruct (idx =? s), sep; done. }
  assert (Hsep' : (negb (idx =? s) || sep) = true) by (destruct (idx =? s), sep; done).
  rewrite below_exact by (try done; lia).
  assert (Hb : r + Z.b2z e + below m sep idx + width m idx <= r + total (S m) sep e).
  { rewrite below_all. pose proof (below_step m sep idx Hsep').
    pose proof (below_mono m sep (idx + 1) (C + 1) ltac:(lia)). lia. }
  assert (0 <= below m sep idx) by (rewrite <- (below_0 m sep); apply below_mono; lia).
  rewrite IH; [|lia | done | destruct e; cbn [Z.b2z]; lia | unfold width in Hb; lia].
  cbn [valid_suffix rank].
  rewrite (proj2 (Z.leb_le 0 idx)), (proj2 (Z.leb_le idx C)), Hsep' by lia. cbn [andb].
  destruct (valid_suffix C l s m _ _); [lia | done].
Qed.

(** One turn of [decode]: the character [idx] and the rest of the value. *)
Lemma decode_step m sep v :
  (m < N)%nat -> 0 <= v < below m sep (C + 1) ->
  let '(value, idx) :=
    if sep then
      if u64 (u64 (ws m * s) + wo m) <=? v then (u64 (v - wo m), 1) else (v, 0)
    else if u64 (ws m * s) <=? v then (v, 1) else (v, 0) in
  let i := u64 (idx + value / ws m) in
  0 <= i <= C /\ (negb (i =? s) || sep) = true /\
  v = below m sep i + value mod ws m /\ 0 <= value mod ws m < width m i.
Proof.
  intros Hm Hv. pose proof (counts_pos m) as Hp. pose proof (fit_at m ltac:(lia)) as Hf.
  assert (Hsw : 0 <= ws m * s <= C * ws m) by nia.
  assert (HvC : v < C * ws m + (if sep then wo m else 0)).
  { unfold below in Hv. rewrite (proj2 (Z.leb_gt (C + 1) s)) in Hv by lia. destruct sep; lia. }
  rewrite (wrap_small 64 (ws m * s)) by lia.
  rewrite (wrap_small 64 (ws m * s + wo m)) by lia.
  assert (Hdm : forall x, 0 <= x -> x = ws m * (x / ws m) + x mod ws m /\ 0 <= x mod ws m < ws m /\ 0 <= x / ws m).
  { intros x Hx. split_and!; [apply Z.div_mod; lia | apply Z.mod_pos_bound; lia.. | apply Z.div_pos; lia]. }
  (* an index above the separator, and one at or below it *)
  assert (Hup : forall q r, 0 <= r < ws m -> s <= q < C -> v = q * ws m + r + (if sep then wo m else 0) ->
    let i := u64 (1 + q) in 0 <= i <= C /\ (negb (i =? s) || sep) = true /\
    v = below m sep i + r /\ 0 <= r < width m i).
  { intros q r Hr Hq E i. assert (i = 1 + q) as -> by (apply wrap_small; nia).
    rewrite width_spec. unfold below. rewrite (proj2 (Z.eqb_neq (1 + q) s)), (proj2 (Z.leb_gt (1 + q) s)) by lia.
    cbn [negb orb]. split_and!; try done; destruct sep; lia. }
  assert (Hdn : forall q r, 0 <= r < ws m -> 0 <= q <= s -> v = q * ws m + r ->
    (q = s -> sep = true /\ r < wo m) ->
    let i := u64 (0 + q) in 0 <= i <= C /\ (negb (i =? s) || sep) = true /\
    v = below m sep i + r /\ 0 <= r < width m i).
  { intros q r Hr Hq E Hqs i. assert (i = q) as -> by (apply wrap_small; nia).
    rewrite width_spec. unfold below. rewrite (proj2 (Z.leb_le q s)) by lia.
    destruct (Z.eqb_spec q s) as [Heq|Hne]; [destruct (Hqs Heq) as [-> ?]|]; cbn [negb orb]; repeat split; lia. }
  assert (Hlo : forall x, ws m * s <= x -> s <= x / ws m) by (intros; apply Z.div_le_lower_bound; lia).
  assert (Hhi : forall x k, x < k * ws m -> x / ws m < k) by (intros; apply Z.div_lt_upper_bound; lia).
  destruct sep.
  - destruct (Z.leb_spec (ws m * s + wo m) v).
    + rewrite (wrap_small 64 (v - wo m)) by lia. destruct (Hdm (v - wo m) ltac:(lia)) as (E & Hr & Hq).
      apply Hup; [done | split; [apply Hlo | apply Hhi]; lia | lia].
    + destruct (Hdm v ltac:(lia)) as (E & Hr & Hq). specialize (Hhi v (s + 1) ltac:(lia)).
      apply Hdn; [done | lia | lia |]. intros Hqs. split; [done|]. rewrite Hqs in E. lia.
  - destruct (Z.leb_spec (ws m * s) v); destruct (Hdm v ltac:(lia)) as (E & Hr & Hq).
    + apply Hup; [done | split; [apply Hlo | apply Hhi]; lia | lia].
    + specialize (Hhi v s ltac:(lia)). apply Hdn; [done | lia | lia | lia].
Qed.

Lemma decode_loop_total m v sep e :
  (m <= N)%nat -> 0 <= v < total m sep e -> total m sep e < 2 ^ 64 ->
  exists l, decode_loop C N m v s sep e = Some l /\ valid_suffix C l s m sep e = true /\ rank l m sep e = v.
Proof.
  revert v sep e. induction m as [|m IH]; intros v sep e Hm Hv Ht; cbn [decode_loop].
  { exists []. unfold total in Hv. destruct e; cbn [Z.b2z] in Hv; [|lia].
    replace v with 0 by lia. done. }
  destruct ((v =? 0) && e) eqn:Hend.
  { exists []. apply andb_true_iff in Hend as [Hv0 ->]. zbool. subst v. done. }
  rewrite tail_at_exact by lia. cbn [withSep withoutSep].
  rewrite below_all in Hv, Ht.
  assert (Hv1 : (if e then u64 (v - 1) else v) = v - Z.b2z e /\ 0 <= v - Z.b2z e < below m sep (C + 1)).
  { destruct e; cbn [Z.b2z] in *; [|lia]. rewrite andb_true_r in Hend. zbool. rewrite wrap_small; lia. }
  destruct Hv1 as [-> Hv1]. pose proof (decode_step m sep _ ltac:(lia) Hv1) as Hstep.
  destruct (if sep then _ else _) as [value idx]. cbn zeta in Hstep |- *.
  set (i := u64 (idx + value / ws m)) in *.
  destruct Hstep as (Hi & Hsep & Hv2 & Hw).
  destruct (IH (value mod ws m) (negb (i =? s)) (negb (i =? s))) as (l & El & Hvl & Hrl);
    [lia | exact Hw | |].
  { fold (width m i). rewrite width_spec. pose proof (fit_at m ltac:(lia)). pose proof (counts_pos m).
    destruct (i =? s); nia. }
  exists (i :: l). rewrite El. split; [done|]. split; [by apply valid_cons|].
  cbn [rank]. rewrite Hrl. lia.
Qed.
End rank.

(** ** Theorems about the encoder *)

(** An encoder whose intermediate values fit in 64 bits. *)
Definition encoder_ok (C : Z) (N : nat) (s : Z) : Prop :=
  1 <= C /\ 0 <= s <= C /\ (1 <= N)%nat /\ C * ws C N + ws C N + wo C N + C < 2 ^ 64.

Section encoder_theorems.
Context (C : Z) (N : nat) (s : Z) (Hok : encoder_ok C N s).

Lemma total_top : total C N false true = 1 + wo C N /\ 0 <= wo C N /\ 1 + wo C N < 2 ^ 64.
Proof.
  destruct Hok as (HC & Hs & HN & Hfit). pose proof (counts_pos C HC N).
  split; [|nia]. unfold total. destruct N as [|n]; [lia|].
  destruct (counts_step C n) as [_ ->]. cbn [Z.b2z]. lia.
Qed.

Lemma encoder_max_exact : encoder_max C N = wo C N.
Proof.
  pose proof total_top as (_ & Hp & Hm). destruct Hok as (HC & Hs & HN & Hfit).
  unfold encoder_max. rewrite (tail_at_exact C N s HC Hs Hfit) by lia. cbn [withSep].
  destruct N as [|n]; [lia|]. replace (S n - 1)%nat with n by lia.
  destruct (counts_step C n) as [_ E]. rewrite <- E. apply wrap_small. lia.
Qed.

Lemma valid_suffix_nonneg l m sep e : valid_suffix C l s m sep e = true -> Forall (fun i => 0 <= i) l.
Proof.
  revert m sep e. induction l as [|i l IH]; intros [|m] sep e H; try done; [by constructor..|].
  apply valid_cons in H as (? & _ & H); try apply Hok. constructor; [lia | by eapply IH].
Qed.

(** [encode] returns the rank of a valid name, and the invalid code otherwise. *)
Lemma encode_rank l :
  Forall (fun i => 0 <= i) l ->
  encode C N l s = if valid_name C N l s then rank C s l N false true else invalid_code.
Proof.
  intros Hl. pose proof total_top as (Ht & Hp & Hm). destruct Hok as (HC & Hs & HN & Hfit).
  unfold encode, valid_name. rewrite (encode_loop_rank C N s HC Hs Hfit) by (done || lia).
  by rewrite Z.add_0_l.
Qed.

Lemma encode_valid l :
  valid_name C N l s = true ->
  encode C N l s = rank C s l N false true /\ 0 <= encode C N l s <= encoder_max C N.
Proof.
  intros H. rewrite encode_rank, H by (by eapply valid_suffix_nonneg). split; [done|].
  rewrite encoder_max_exact. pose proof total_top as (Ht & Hp & Hm).
  destruct Hok as (HC & Hs & HN & Hfit). apply (rank_bound C s HC Hs) in H. lia.
Qed.

Lemma decode_total v :
  0 <= v <= encoder_max C N ->
  exists l, decode C N v s = Some l /\ valid_name C N l s = true /\ rank C s l N false true = v.
Proof.
  intros Hv. unfold decode. rewrite (proj2 (Z.ltb_ge _ _)) by lia.
  rewrite encoder_max_exact in Hv. pose proof total_top as (Ht & Hp & Hm).
  destruct Hok as (HC & Hs & HN & Hfit). apply decode_loop_total; auto; lia.
Qed.
End encoder_theorems.

(** Valid names are numbered in their own order: [encode] is strictly monotone
    from names, ordered as strings, to numbers. *)
Theorem encode_monotone C N s a b :
  encoder_ok C N s -> valid_name C N a s = true -> valid_name C N b s = true ->
  (encode C N a s ?= encode C N b s) = lex_compare a b.
Proof.
  intros Hok Ha Hb. destruct (encode_valid C N s Hok a Ha) as [-> _].
  destruct (encode_valid C N s Hok b Hb) as [-> _].
  destruct Hok as (HC & Hs & _). by apply rank_compare.
Qed.

Lemma account_encoder_ok : encoder_ok 36 10 0.
Proof. split; [lia|]. split; [lia|]. split; [lia|]. vm_compute. reflexivity. Qed.

Lemma encode_monotone_witness :
  encoder_ok 36 10 0 /\ valid_name 36 10 [11; 0; 12] 0 = true /\ valid_name 36 10 [11; 1] 0 = true /\
  (encode 36 10 [11; 0; 12] 0 ?= encode 36 10 [11; 1] 0) = lex_compare [11; 0; 12] [11; 1].
Proof.
  split; [exact account_encoder_ok|]. split; [reflexivity|]. split; [reflexivity|].
  exact (encode_monotone 36 10 0 [11; 0; 12] [11; 1] account_encoder_ok eq_refl eq_refl).
Defined.

Lemma decode_of_encode C N s l :
  encoder_ok C N s -> valid_name C N l s = true -> decode C N (encode C N l s) s = Some l.
Proof.
  intros Hok H. destruct (encode_valid C N s Hok l H) as [E Hr].
  destruct (decode_total C N s Hok _ Hr) as (l' & El & Hv & Hrank).
  rewrite El. f_equal. apply lex_compare_eq. destruct Hok as (HC & Hs & _).
  rewrite <- (rank_compare C s HC Hs l' l N false true) by done. apply Z.compare_eq_iff. congruence.
Qed.

(** [decode] inverts [encode] on the valid names. *)
Theorem decode_encode C N s l :
  encoder_ok C N s -> valid_name C N l s = true -> decode C N (encode C N l s) s = Some l.
Proof. apply decode_of_encode. Qed.

Lemma decode_encode_witness :
  encoder_ok 36 10 0 /\ valid_name 36 10 [11; 0; 12] 0 = true /\
  decode 36 10 (encode 36 10 [11; 0; 12] 0) 0 = Some [11; 0; 12].
Proof.
  split; [exact account_encoder_ok|]. split; [reflexivity|].
  exact (decode_encode 36 10 0 [11; 0; 12] account_encoder_ok eq_refl).
Defined.

(** There are no gaps: every number up to the maximum decodes, without an
    access out of range, to the valid name that it encodes. *)
Theorem encode_surjective C N s v :
  encoder_ok C N s -> 0 <= v <= encoder_max C N ->
  exists l, decode C N v s = Some l /\ valid_name C N l s = true /\ encode C N l s = v.
Proof.
  intros Hok Hv. destruct (decode_total C N s Hok v Hv) as (l & El & Hl & Hr).
  exists l. split_and!; [done..|]. by rewrite (proj1 (encode_valid C N s Hok l Hl)).
Qed.

Lemma encode_surjective_witness :
  encoder_ok 36 10 0 /\ 0 <= 12345 <= encoder_max 36 10 /\
  exists l, decode 36 10 12345 0 = Some l /\ valid_name 36 10 l 0 = true /\ encode 36 10 l 0 = 12345.
Proof.
  assert (H : 0 <= 12345 <= encoder_max 36 10) by (vm_compute; split; congruence).
  split; [exact account_encoder_ok|]. split; [exact H|].
  exact (encode_surjective 36 10 0 12345 account_encoder_ok H).
Defined.

(** ** Account names *)

Lemma in_range_true lo hi z : in_range lo hi z = true <-> lo <= z <= hi.
Proof. unfold in_range. rewrite andb_true_iff, !Z.leb_le. done. Qed.

(** The characters of printed names and their index. *)
Lemma char_index_name i : 0 <= i <= 36 -> char_index (nth (Z.to_nat i) name_chars 0) = i.
Proof.
  intros Hi. assert (H : forallb (fun i => char_index (nth (Z.to_nat i) name_chars 0) =? i) (seqZ 0 37) = true)
    by (vm_compute; reflexivity).
  rewrite forallb_forall in H. apply Z.eqb_eq, H, list_elem_of_In, elem_of_seqZ. lia.
Qed.

Lemma name_char_not_plus i : 0 <= i <= 36 -> nth (Z.to_nat i) name_chars 0 <> chr "+".
Proof.
  intros Hi. assert (H : forallb (fun i => negb (nth (Z.to_nat i) name_chars 0 =? chr "+")) (seqZ 0 37) = true)
    by (vm_compute; reflexivity).
  rewrite forallb_forall in H. apply Z.eqb_neq, negb_true_iff, H, list_elem_of_In, elem_of_seqZ. lia.
Qed.

Lemma subaccount_digits_u8 n : 0 <= n < 256 -> subaccount_digits (to_string_u8 n) 0 = Some n.
Proof.
  intros Hn. assert (H : forallb (fun n => bool_decide (subaccount_digits (to_string_u8 n) 0 = Some n)) (seqZ 0 256) = true)
    by (vm_compute; reflexivity).
  rewrite forallb_forall in H. eapply bool_decide_eq_true, H, list_elem_of_In, elem_of_seqZ. lia.
Qed.

Lemma find_plus_none l : Forall (fun c => c <> chr "+") l -> find l (str "+") = None.
Proof.
  change (str "+") with [chr "+"]. induction 1 as [|c l Hc Hl IH]; [done|]. cbn [find length take].
  rewrite decide_False by congruence. by rewrite IH.
Qed.

Lemma find_plus_app l r :
  Forall (fun c => c <> chr "+") l -> find (l ++ str "+" ++ r) (str "+") = Some (length l).
Proof.
  change (str "+") with [chr "+"]. induction 1 as [|c l Hc Hl IH]; cbn [app find length take].
  - by rewrite decide_True.
  - rewrite decide_False by congruence. cbn [app] in IH. by rewrite IH.
Qed.

(** The printed form of a name and of a subaccount. *)
Definition print_name (idxs : list Z) (sub : Z) : bytes :=
  subaccount_to_str sub (map (fun idx => nth (Z.to_nat idx) name_chars 0) idxs) subaccountSeparator.

Lemma valid_suffix_range C s l m sep e :
  1 <= C -> 0 <= s <= C -> valid_suffix C l s m sep e = true -> Forall (fun i => 0 <= i <= C) l.
Proof.
  intros HC Hs. revert m sep e. induction l as [|i l IH]; intros [|m] sep e H; try done; [by constructor..|].
  apply valid_cons in H as (? & _ & H); try done. constructor; [lia | by eapply IH].
Qed.

Lemma print_name_parse idxs sub :
  Forall (fun i => 0 <= i <= 36) idxs -> 0 <= sub < 256 ->
  exists chars, subaccount_from_str (print_name idxs sub) subaccountSeparator = (sub, chars) /\
    map char_index chars = idxs.
Proof.
  intros Hi Hsub. set (chars := map (fun idx => nth (Z.to_nat idx) name_chars 0) idxs).
  assert (Hplus : Forall (fun c => c <> chr "+") chars).
  { unfold chars. apply Forall_map. eapply Forall_impl; [exact Hi|]. intros; by apply name_char_not_plus. }
  exists chars. split.
  2:{ unfold chars. rewrite map_map. rewrite <- (map_id idxs) at 2. apply map_ext_Forall.
      eapply Forall_impl; [exact Hi|]. intros; by apply char_index_name. }
  unfold print_name, subaccount_to_str, subaccount_from_str. fold chars.
  destruct (Z.eqb_spec sub 0) as [->|Hne]; cbn [negb].
  - by rewrite find_plus_none.
  - unfold subaccountSeparator. rewrite find_plus_app by done.
    replace (drop (length chars + length (str "+")) (chars ++ str "+" ++ to_string_u8 sub))
      with (to_string_u8 sub) by (by rewrite app_assoc, <- length_app, drop_app_length).
    rewrite subaccount_digits_u8 by lia. by rewrite take_app_length.
Qed.

Lemma account_max_bound : encoder_max 36 10 < 2 ^ 56 - 1.
Proof. vm_compute. reflexivity. Qed.

(** Splitting an account number into the name part and the subaccount. *)
Lemma account_split v : 0 <= v -> v = Z.shiftl (Z.shiftr v 8) 8 + Z.land v 0xff /\ 0 <= Z.land v 0xff < 256.
Proof.
  intros Hv. change 0xff with (2 ^ 8 - 1). rewrite land_ones_mod, Z.shiftl_mul_pow2, Z.shiftr_div_pow2 by lia.
  pose proof (Z.div_mod v (2 ^ 8) ltac:(lia)). pose proof (Z.mod_pos_bound v (2 ^ 8) ltac:(lia)).
  change (2 ^ 8) with 256 in *. lia.
Qed.

(** Every 64-bit value whose name part is in range prints as a name that parses
    back to it. *)
Theorem account_name_roundtrip v :
  0 <= v -> Z.shiftr v 8 <= encoder_max 36 10 ->
  exists name, account_str v = Some name /\ AccountNumber_of_name name = v.
Proof.
  intros Hv Hmax. destruct (account_split v Hv) as [Hsplit Hsub].
  assert (0 <= Z.shiftr v 8) by (by apply Z.shiftr_nonneg).
  destruct (decode_total 36 10 0 account_encoder_ok (Z.shiftr v 8) ltac:(lia)) as (idxs & Ed & Hval & Ee).
  rewrite <- (proj1 (encode_valid 36 10 0 account_encoder_ok idxs Hval)) in Ee.
  unfold account_str, number_to_name, accountDecode. rewrite Ed.
  exists (print_name idxs (Z.land v 0xff)). split; [done|].
  unfold AccountNumber_of_name, name_to_number, accountEncode.
  assert (Hr : Forall (fun i => 0 <= i <= 36) idxs) by (eapply valid_suffix_range; [..|exact Hval]; lia).
  destruct (print_name_parse idxs (Z.land v 0xff) Hr Hsub) as (chars & -> & ->). rewrite Ee.
  pose proof account_max_bound. change (2 ^ 56 - 1) with 72057594037927935 in *.
  assert (Z.shiftl (Z.shiftr v 8) 8 < 2 ^ 64 - 256)
    by (rewrite Z.shiftl_mul_pow2 by lia; change (2 ^ 8) with 256; change (2 ^ 64) with 18446744073709551616; lia).
  assert (0 <= Z.shiftl (Z.shiftr v 8) 8) by (by apply Z.shiftl_nonneg).
  destruct (Z.eqb_spec (Z.shiftr v 8) (u64 (-1))) as [E|_].
  { exfalso. change (u64 (-1)) with 18446744073709551615 in E. lia. }
  rewrite (wrap_small 64 (Z.shiftl _ _)), wrap_small by lia. lia.
Qed.

Lemma account_name_roundtrip_witness :
  Z.shiftr 5000007 8 <= encoder_max 36 10 /\
  exists name, account_str 5000007 = Some name /\ AccountNumber_of_name name = 5000007.
Proof.
  assert (H : Z.shiftr 5000007 8 <= encoder_max 36 10) by (vm_compute; congruence).
  split; [exact H | exact (account_name_roundtrip 5000007 ltac:(lia) H)].
Defined.

(** A name in canonical form (lower case, and a subaccount without leading
    zeros when there is one) is what its number prints as. *)
Theorem account_number_roundtrip idxs sub :
  valid_name 36 10 idxs 0 = true -> 0 <= sub < 256 ->
  account_str (AccountNumber_of_name (print_name idxs sub)) = Some (print_name idxs sub).
Proof.
  intros Hval Hsub. destruct (encode_valid 36 10 0 account_encoder_ok idxs Hval) as [_ Hr].
  assert (Hi : Forall (fun i => 0 <= i <= 36) idxs) by (eapply valid_suffix_range; [..|exact Hval]; lia).
  unfold AccountNumber_of_name, name_to_number, accountEncode.
  destruct (print_name_parse idxs sub Hi Hsub) as (chars & -> & ->).
  set (e := encode 36 10 idxs 0) in *. pose proof account_max_bound as Hm.
  change (2 ^ 56 - 1) with 72057594037927935 in Hm.
  destruct (Z.eqb_spec e (u64 (-1))) as [E|_].
  { exfalso. change (u64 (-1)) with 18446744073709551615 in E. lia. }
  rewrite Z.shiftl_mul_pow2 by lia. change (2 ^ 8) with 256.
  rewrite (wrap_small 64 (e * 256)), wrap_small by (change (2 ^ 64) with 18446744073709551616; lia).
  unfold account_str, number_to_name, accountDecode.
  replace (Z.shiftr (e * 256 + sub) 8) with e
    by (rewrite Z.shiftr_div_pow2 by lia; change (2 ^ 8) with 256; apply Z.div_unique with sub; lia).
  replace (Z.land (e * 256 + sub) 0xff) with sub
    by (change 0xff with (2 ^ 8 - 1); rewrite land_ones_mod by lia; change (2 ^ 8) with 256;
        apply Z.mod_unique with e; lia).
  unfold e. by rewrite (decode_of_encode 36 10 0 idxs account_encoder_ok Hval).
Qed.

Lemma account_number_roundtrip_witness :
  valid_name 36 10 [30; 15; 29; 30] 0 = true /\
  account_str (AccountNumber_of_name (print_name [30; 15; 29; 30] 7)) = Some (print_name [30; 15; 29; 30] 7).
Proof.
  split; [reflexivity|]. exact (account_number_roundtrip [30; 15; 29; 30] 7 eq_refl ltac:(lia)).
Defined.

(** ** Subaccounts *)

Lemma base_account_spec v : 0 <= v < 2 ^ 64 -> base_account v = v / 256 * 256.
Proof.
  intros Hv. unfold base_account, subaccountMask.
  replace (u64 (Z.lnot 255)) with (Z.ldiff (2 ^ 64 - 1) 255) by (vm_compute; reflexivity).
  replace (Z.land v (Z.ldiff (2 ^ 64 - 1) 255)) with (Z.ldiff (Z.land v (2 ^ 64 - 1)) 255)
    by (apply Z.bits_inj'; intros n Hn; rewrite ?Z.ldiff_spec, ?Z.land_spec, ?Z.ldiff_spec; apply eq_sym, andb_assoc).
  rewrite land_ones_mod, Z.mod_small by lia. change 255 with (Z.ones 8).
  rewrite Z.ldiff_ones_r, Z.shiftl_mul_pow2, Z.shiftr_div_pow2 by lia. done.
Qed.

Lemma subaccount_spec v : subaccount v = v mod 256.
Proof.
  unfold subaccount, subaccountMask. change 255 with (2 ^ 8 - 1). rewrite land_ones_mod by lia.
  apply wrap_small, Z.mod_pos_bound. lia.
Qed.

(** A subaccount belongs to the base account it was made from. *)
Theorem make_subaccount_parts b k :
  0 <= b < 2 ^ 64 -> 0 <= k < 256 ->
  base_account (make_subaccount b k) = base_account b /\ subaccount (make_subaccount b k) = k.
Proof.
  intros Hb Hk. assert (E : make_subaccount b k = b / 256 * 256 + k).
  { unfold make_subaccount. fold (base_account b). rewrite base_account_spec by done.
    change 256 with (2 ^ 8) at 2. rewrite <- Z.shiftl_mul_pow2 by lia.
    rewrite lor_shiftl_add by (change (2 ^ 8) with 256; lia). done. }
  rewrite E, subaccount_spec, !base_account_spec by mlia. mlia.
Qed.

Lemma make_subaccount_parts_witness :
  base_account (make_subaccount 512 3) = base_account 512 /\ subaccount (make_subaccount 512 3) = 3.
Proof. exact (make_subaccount_parts 512 3 ltac:(lia) ltac:(lia)). Defined.
