(* ===== verification/Services.v ===== *)
(** * psibase: data and state shared by the system services

    The structs of [psibase/block.hpp] and [psibase/nativeTables.hpp] that the
    services under [src/packages/system] exchange, the tables and the static
    variables each service keeps, the monad their actions run in, and the
    interface of an auth service ([AuthInterface] of
    [services/system/Transact.hpp]).

    An action that aborts ends its transaction, so an action is a function from
    the state to a result that carries the new state only when it succeeds.
    Tables are finite maps from the primary key; a singleton table is an
    [option].  Times are in microseconds ([BlockTime]); a [TimePointSec] is in
    seconds and is compared after conversion, as [std::chrono] does. *)

From S2P Require Import Prelude Names.

(** ** Identifiers *)

Abbreviation AccountNumber := Z (only parsing).
Abbreviation MethodNumber := Z (only parsing).
Abbreviation BlockNum := Z (only parsing).
Abbreviation Checksum256 := (list Z) (only parsing).

(** [Checksum256{}]. *)
Definition zero_hash : Checksum256 := replicate 32 0.

Definition accounts_service : AccountNumber := Eval vm_compute in AccountNumber_of_name (str "accounts").
Definition namemarket_service : AccountNumber := Eval vm_compute in AccountNumber_of_name (str "namemarket").
Definition auth_any_service : AccountNumber := Eval vm_compute in AccountNumber_of_name (str "auth-any").
Definition auth_sig_service : AccountNumber := Eval vm_compute in AccountNumber_of_name (str "auth-sig").
Definition auth_delegate_service : AccountNumber := Eval vm_compute in AccountNumber_of_name (str "auth-delg").
Definition verify_sig_service : AccountNumber := Eval vm_compute in AccountNumber_of_name (str "verify-sig").
Definition producers_service : AccountNumber := Eval vm_compute in AccountNumber_of_name (str "producers").
Definition producerAccountWeak : AccountNumber := Eval vm_compute in AccountNumber_of_name (str "producers+2").
Definition producerAccountStrong : AccountNumber := Eval vm_compute in AccountNumber_of_name (str "producers+3").
Definition setcode_service : AccountNumber := Eval vm_compute in AccountNumber_of_name (str "setcode").
Definition transact_service : AccountNumber := Eval vm_compute in AccountNumber_of_name (str "transact").
Definition rtransact_service : AccountNumber := Eval vm_compute in AccountNumber_of_name (str "transact+1").
Definition virtual_server_service : AccountNumber := Eval vm_compute in AccountNumber_of_name (str "vserver").

(** ** Actions, claims and transactions *)

Record Action := { act_sender : AccountNumber; act_service : AccountNumber; act_method : MethodNumber; act_rawData : bytes }.
Record Claim := { claim_service : AccountNumber; claim_rawData : bytes }.
Record ServiceMethod := { sm_service : AccountNumber; sm_method : MethodNumber }.

#[export] Instance Action_eq_dec : EqDecision Action.
Proof. solve_decision. Defined.
#[export] Instance Claim_eq_dec : EqDecision Claim.
Proof. solve_decision. Defined.

(** [Claim{}]. *)
Definition no_claim : Claim := {| claim_service := 0; claim_rawData := [] |}.

Record Tapos := { expiration : Z; refBlockSuffix : Z; tapos_flags : Z; refBlockIndex : Z }.
Definition valid_flags : Z := 0x0001.

Record Transaction := { tapos : Tapos; actions : list Action; claims : list Claim }.

(** ** Consensus and blocks *)

Record BlockHeaderAuthAccount := { baa_codeNum : AccountNumber; baa_codeHash : Checksum256; baa_vmType : Z; baa_vmVersion : Z }.
Record VMOptions := { max_mutable_global_bytes : Z; max_pages : Z; max_table_elements : Z; max_stack_bytes : Z }.
Record BlockHeaderWasmConfig := { bw_numExecutionMemories : Z; bw_vmOptions : VMOptions }.

Record Producer := { prod_name : AccountNumber; prod_auth : Claim }.
Inductive ConsensusData :=
| CftConsensus (producers : list Producer)
| BftConsensus (producers : list Producer).

(** [std::visit([](const auto& c) { return c.producers; }, data)]. *)
Definition consensus_producers (data : ConsensusData) : list Producer :=
  match data with CftConsensus p => p | BftConsensus p => p end.

Record Consensus := { data : ConsensusData; services : list BlockHeaderAuthAccount; wasmConfig : BlockHeaderWasmConfig }.
Record PendingConsensus := { pending_consensus : Consensus; pending_blockNum : BlockNum }.
Record JointConsensus := { current_consensus : Consensus; next_consensus : option PendingConsensus }.

(** The fields of a block header that the services read. *)
Record BlockHeader := { blockNum : BlockNum; time : Z; eventMerkleRoot : Checksum256 }.
Record BlockInfo := { header : BlockHeader; blockId : Checksum256 }.

Record StatusRow := { chainId : Checksum256; current : BlockHeader; head : option BlockInfo; consensus : JointConsensus }.

(** ** Native tables *)

Record CodeRow := { codeNum : AccountNumber; code_flags : Z; codeHash : Checksum256; vmType : Z; vmVersion : Z }.
Definition isPrivileged : Z := Z.shiftl 1 0.
Definition isVerify : Z := Z.shiftl 1 1.

(** [account.emplace(); account->codeNum = service;]. *)
Definition new_code_row (service : AccountNumber) : CodeRow :=
  {| codeNum := service; code_flags := 0; codeHash := zero_hash; vmType := 0; vmVersion := 0 |}.

(** The key of [CodeByHashTable] and of [CodeRefCountTable]. *)
Abbreviation code_key := (list Z * Z * Z)%type.

Inductive NotifyType :=
| acceptBlock
| acceptTransaction
| rejectTransaction
| nextTransaction
| preverifyTransaction.

(** The enumerator's value, which is the primary key of [NotifyTable]. *)
Definition notify_value (t : NotifyType) : Z :=
  match t with
  | acceptBlock => 0
  | acceptTransaction => 1
  | rejectTransaction => 2
  | nextTransaction => 3
  | preverifyTransaction => 4
  end.

Record ConfigRow := { maxKeySize : Z; maxValueSize : Z }.
Record WasmConfigRow := { numExecutionMemories : Z; vmOptions : VMOptions; maxHandles : Z }.
Definition default_ConfigRow : ConfigRow := {| maxKeySize := 128; maxValueSize := Z.shiftl 8 20 |}.
Definition default_VMOptions : VMOptions :=
  {| max_mutable_global_bytes := 1024; max_pages := 512; max_table_elements := 8192; max_stack_bytes := 1024 * 1024 |}.
Definition default_WasmConfigRow : WasmConfigRow :=
  {| numExecutionMemories := 32; vmOptions := default_VMOptions; maxHandles := 64 |}.

Record NativeTables := {
  n_status : option StatusRow;
  n_code : gmap Z CodeRow;
  n_codeByHash : gmap code_key bytes;
  n_notify : gmap Z (list Action);
  n_config : option ConfigRow;
  n_transactionWasmConfig : option WasmConfigRow;
  n_proofWasmConfig : option WasmConfigRow;
  n_scheduledSnapshots : gset Z;
}.

(** ** Tables and static variables of the services *)

(** [Accounts]: [AccountsStatusTable], [AccountTable] and the static vector of
    the accounts preapproved in this transaction. *)
Record Account := { accountNum : AccountNumber; authService : AccountNumber; authSequence : Z }.
#[export] Instance Account_eq_dec : EqDecision Account.
Proof. solve_decision. Defined.

Record AccountsTables := {
  a_status : option Z;
  a_accounts : gmap Z Account;
  a_preapproved : list AccountNumber;
}.

(** [SetCode]: [CodeRefCountTable], [StagedCodeTable] and
    [VerifySequenceTable]. *)
Record StagedCodeRow := {
  staged_from : AccountNumber;
  staged_service : AccountNumber;
  staged_id : Z;
  staged_codeHash : Checksum256;
  staged_vmType : Z;
  staged_vmVersion : Z;
}.
Record CodeRefCountRow := { ref_codeHash : Checksum256; ref_vmType : Z; ref_vmVersion : Z; numRefs : Z }.

Record SetCodeTables := {
  s_refs : gmap code_key CodeRefCountRow;
  s_staged : gmap (Z * Z * Z) StagedCodeRow;
  s_verifySeq : option Z;
}.

(** [Producers]: [CandidateInfoTable] and [ProdsConfigTable]. *)
Record CandidateInfo := { cand_account : AccountNumber; cand_endpoint : bytes; cand_claim : Claim }.
Record ProducersTables := {
  p_candidates : gmap Z CandidateInfo;
  p_maxProds : option Z;
}.

(** [Transact]: its tables, and the static variables of its translation unit. *)
Record TransactStatus := { enforceAuth : bool; bootTransactions : option (list Checksum256) }.
Record BlockSummary := { blockSuffixes : list Z; summary_blockNum : BlockNum }.
Record SnapshotInfo := { lastSnapshot : Z; snapshotInterval : Z }.
Inductive CallbackType := onTransaction | onBlock | onFailedTransaction.
Definition callback_value (t : CallbackType) : Z :=
  match t with onTransaction => 0 | onBlock => 1 | onFailedTransaction => 2 end.

(** [RunAsKey], as the key of [runAsMap]. *)
Abbreviation RunAsKey := (Z * Z * Z * Z)%type.

Record TransactTables := {
  t_status : option TransactStatus;
  t_resMonitoring : option bool;
  t_blockSummary : option BlockSummary;
  t_included : gset (Z * Checksum256);
  t_callbacks : gmap Z (list Action);
  t_eventIndexer : option AccountNumber;
  t_snapshotInfo : option SnapshotInfo;
}.

Record TransactStatics := {
  systemWriteBudget : Z;
  skipDiskWrites : option Z;
  trxSender : option AccountNumber;
  trxData : option bytes;
  runAsMap : gmap RunAsKey Z;
  cached_summary : option BlockSummary;
}.

(** [getOptionalStatus] keeps the status row in a function-local static of each
    service that calls it: [w_status_cache] has an entry for a service once it
    has read the row. *)
Record world := {
  w_native : NativeTables;
  w_accounts : AccountsTables;
  w_sig : gmap Z bytes;
  w_delegate : gmap Z AccountNumber;
  w_setcode : SetCodeTables;
  w_producers : ProducersTables;
  w_transact : TransactTables;
  w_statics : TransactStatics;
  w_status_cache : gmap Z (option StatusRow);
}.

(** ** Field updates *)

Definition set_n_status x (r : NativeTables) : NativeTables :=
  {| n_status := x; n_code := n_code r; n_codeByHash := n_codeByHash r; n_notify := n_notify r; n_config := n_config r; n_transactionWasmConfig := n_transactionWasmConfig r; n_proofWasmConfig := n_proofWasmConfig r; n_scheduledSnapshots := n_scheduledSnapshots r |}.
Definition set_n_code x (r : NativeTables) : NativeTables :=
  {| n_status := n_status r; n_code := x; n_codeByHash := n_codeByHash r; n_notify := n_notify r; n_config := n_config r; n_transactionWasmConfig := n_transactionWasmConfig r; n_proofWasmConfig := n_proofWasmConfig r; n_scheduledSnapshots := n_scheduledSnapshots r |}.
Definition set_n_codeByHash x (r : NativeTables) : NativeTables :=
  {| n_status := n_status r; n_code := n_code r; n_codeByHash := x; n_notify := n_notify r; n_config := n_config r; n_transactionWasmConfig := n_transactionWasmConfig r; n_proofWasmConfig := n_proofWasmConfig r; n_scheduledSnapshots := n_scheduledSnapshots r |}.
Definition set_n_notify x (r : NativeTables) : NativeTables :=
  {| n_status := n_status r; n_code := n_code r; n_codeByHash := n_codeByHash r; n_notify := x; n_config := n_config r; n_transactionWasmConfig := n_transactionWasmConfig r; n_proofWasmConfig := n_proofWasmConfig r; n_scheduledSnapshots := n_scheduledSnapshots r |}.
Definition set_n_config x (r : NativeTables) : NativeTables :=
  {| n_status := n_status r; n_code := n_code r; n_codeByHash := n_codeByHash r; n_notify := n_notify r; n_config := x; n_transactionWasmConfig := n_transactionWasmConfig r; n_proofWasmConfig := n_proofWasmConfig r; n_scheduledSnapshots := n_scheduledSnapshots r |}.
Definition set_n_transactionWasmConfig x (r : NativeTables) : NativeTables :=
  {| n_status := n_status r; n_code := n_code r; n_codeByHash := n_codeByHash r; n_notify := n_notify r; n_config := n_config r; n_transactionWasmConfig := x; n_proofWasmConfig := n_proofWasmConfig r; n_scheduledSnapshots := n_scheduledSnapshots r |}.
Definition set_n_proofWasmConfig x (r : NativeTables) : NativeTables :=
  {| n_status := n_status r; n_code := n_code r; n_codeByHash := n_codeByHash r; n_notify := n_notify r; n_config := n_config r; n_transactionWasmConfig := n_transactionWasmConfig r; n_proofWasmConfig := x; n_scheduledSnapshots := n_scheduledSnapshots r |}.
Definition set_n_scheduledSnapshots x (r : NativeTables) : NativeTables :=
  {| n_status := n_status r; n_code := n_code r; n_codeByHash := n_codeByHash r; n_notify := n_notify r; n_config := n_config r; n_transactionWasmConfig := n_transactionWasmConfig r; n_proofWasmConfig := n_proofWasmConfig r; n_scheduledSnapshots := x |}.

Definition set_a_status x (r : AccountsTables) : AccountsTables :=
  {| a_status := x; a_accounts := a_accounts r; a_preapproved := a_preapproved r |}.
Definition set_a_accounts x (r : AccountsTables) : AccountsTables :=
  {| a_status := a_status r; a_accounts := x; a_preapproved := a_preapproved r |}.
Definition set_a_preapproved x (r : AccountsTables) : AccountsTables :=
  {| a_status := a_status r; a_accounts := a_accounts r; a_preapproved := x |}.

Definition set_s_refs x (r : SetCodeTables) : SetCodeTables :=
  {| s_refs := x; s_staged := s_staged r; s_verifySeq := s_verifySeq r |}.
Definition set_s_staged x (r : SetCodeTables) : SetCodeTables :=
  {| s_refs := s_refs r; s_staged := x; s_verifySeq := s_verifySeq r |}.
Definition set_s_verifySeq x (r : SetCodeTables) : SetCodeTables :=
  {| s_refs := s_refs r; s_staged := s_staged r; s_verifySeq := x |}.

Definition set_p_candidates x (r : ProducersTables) : ProducersTables :=
  {| p_candidates := x; p_maxProds := p_maxProds r |}.
Definition set_p_maxProds x (r : ProducersTables) : ProducersTables :=
  {| p_candidates := p_candidates r; p_maxProds := x |}.

Definition set_t_status x (r : TransactTables) : TransactTables :=
  {| t_status := x; t_resMonitoring := t_resMonitoring r; t_blockSummary := t_blockSummary r; t_included := t_included r; t_callbacks := t_callbacks r; t_eventIndexer := t_eventIndexer r; t_snapshotInfo := t_snapshotInfo r |}.
Definition set_t_resMonitoring x (r : TransactTables) : TransactTables :=
  {| t_status := t_status r; t_resMonitoring := x; t_blockSummary := t_blockSummary r; t_included := t_included r; t_callbacks := t_callbacks r; t_eventIndexer := t_eventIndexer r; t_snapshotInfo := t_snapshotInfo r |}.
Definition set_t_blockSummary x (r : TransactTables) : TransactTables :=
  {| t_status := t_status r; t_resMonitoring := t_resMonitoring r; t_blockSummary := x; t_included := t_included r; t_callbacks := t_callbacks r; t_eventIndexer := t_eventIndexer r; t_snapshotInfo := t_snapshotInfo r |}.
Definition set_t_included x (r : TransactTables) : TransactTables :=
  {| t_status := t_status r; t_resMonitoring := t_resMonitoring r; t_blockSummary := t_blockSummary r; t_included := x; t_callbacks := t_callbacks r; t_eventIndexer := t_eventIndexer r; t_snapshotInfo := t_snapshotInfo r |}.
Definition set_t_callbacks x (r : TransactTables) : TransactTables :=
  {| t_status := t_status r; t_resMonitoring := t_resMonitoring r; t_blockSummary := t_blockSummary r; t_included := t_included r; t_callbacks := x; t_eventIndexer := t_eventIndexer r; t_snapshotInfo := t_snapshotInfo r |}.
Definition set_t_eventIndexer x (r : TransactTables) : TransactTables :=
  {| t_status := t_status r; t_resMonitoring := t_resMonitoring r; t_blockSummary := t_blockSummary r; t_included := t_included r; t_callbacks := t_callbacks r; t_eventIndexer := x; t_snapshotInfo := t_snapshotInfo r |}.
Definition set_t_snapshotInfo x (r : TransactTables) : TransactTables :=
  {| t_status := t_status r; t_resMonitoring := t_resMonitoring r; t_blockSummary := t_blockSummary r; t_included := t_included r; t_callbacks := t_callbacks r; t_eventIndexer := t_eventIndexer r; t_snapshotInfo := x |}.

Definition set_systemWriteBudget x (r : TransactStatics) : TransactStatics :=
  {| systemWriteBudget := x; skipDiskWrites := skipDiskWrites r; trxSender := trxSender r; trxData := trxData r; runAsMap := runAsMap r; cached_summary := cached_summary r |}.
Definition set_skipDiskWrites x (r : TransactStatics) : TransactStatics :=
  {| systemWriteBudget := systemWriteBudget r; skipDiskWrites := x; trxSender := trxSender r; trxData := trxData r; runAsMap := runAsMap r; cached_summary := cached_summary r |}.
Definition set_trxSender x (r : TransactStatics) : TransactStatics :=
  {| systemWriteBudget := systemWriteBudget r; skipDiskWrites := skipDiskWrites r; trxSender := x; trxData := trxData r; runAsMap := runAsMap r; cached_summary := cached_summary r |}.
Definition set_trxData x (r : TransactStatics) : TransactStatics :=
  {| systemWriteBudget := systemWriteBudget r; skipDiskWrites := skipDiskWrites r; trxSender := trxSender r; trxData := x; runAsMap := runAsMap r; cached_summary := cached_summary r |}.
Definition set_runAsMap x (r : TransactStatics) : TransactStatics :=
  {| systemWriteBudget := systemWriteBudget r; skipDiskWrites := skipDiskWrites r; trxSender := trxSender r; trxData := trxData r; runAsMap := x; cached_summary := cached_summary r |}.
Definition set_cached_summary x (r : TransactStatics) : TransactStatics :=
  {| systemWriteBudget := systemWriteBudget r; skipDiskWrites := skipDiskWrites r; trxSender := trxSender r; trxData := trxData r; runAsMap := runAsMap r; cached_summary := x |}.

Definition set_w_native x (w : world) : world :=
  {| w_native := x; w_accounts := w_accounts w; w_sig := w_sig w; w_delegate := w_delegate w; w_setcode := w_setcode w; w_producers := w_producers w; w_transact := w_transact w; w_statics := w_statics w; w_status_cache := w_status_cache w |}.
Definition set_w_accounts x (w : world) : world :=
  {| w_native := w_native w; w_accounts := x; w_sig := w_sig w; w_delegate := w_delegate w; w_setcode := w_setcode w; w_producers := w_producers w; w_transact := w_transact w; w_statics := w_statics w; w_status_cache := w_status_cache w |}.
Definition set_w_sig x (w : world) : world :=
  {| w_native := w_native w; w_accounts := w_accounts w; w_sig := x; w_delegate := w_delegate w; w_setcode := w_setcode w; w_producers := w_producers w; w_transact := w_transact w; w_statics := w_statics w; w_status_cache := w_status_cache w |}.
Definition set_w_delegate x (w : world) : world :=
  {| w_native := w_native w; w_accounts := w_accounts w; w_sig := w_sig w; w_delegate := x; w_setcode := w_setcode w; w_producers := w_producers w; w_transact := w_transact w; w_statics := w_statics w; w_status_cache := w_status_cache w |}.
Definition set_w_setcode x (w : world) : world :=
  {| w_native := w_native w; w_accounts := w_accounts w; w_sig := w_sig w; w_delegate := w_delegate w; w_setcode := x; w_producers := w_producers w; w_transact := w_transact w; w_statics := w_statics w; w_status_cache := w_status_cache w |}.
Definition set_w_producers x (w : world) : world :=
  {| w_native := w_native w; w_accounts := w_accounts w; w_sig := w_sig w; w_delegate := w_delegate w; w_setcode := w_setcode w; w_producers := x; w_transact := w_transact w; w_statics := w_statics w; w_status_cache := w_status_cache w |}.
Definition set_w_transact x (w : world) : world :=
  {| w_native := w_native w; w_accounts := w_accounts w; w_sig := w_sig w; w_delegate := w_delegate w; w_setcode := w_setcode w; w_producers := w_producers w; w_transact := x; w_statics := w_statics w; w_status_cache := w_status_cache w |}.
Definition set_w_statics x (w : world) : world :=
  {| w_native := w_native w; w_accounts := w_accounts w; w_sig := w_sig w; w_delegate := w_delegate w; w_setcode := w_setcode w; w_producers := w_producers w; w_transact := w_transact w; w_statics := x; w_status_cache := w_status_cache w |}.
Definition set_w_status_cache x (w : world) : world :=
  {| w_native := w_native w; w_accounts := w_accounts w; w_sig := w_sig w; w_delegate := w_delegate w; w_setcode := w_setcode w; w_producers := w_producers w; w_transact := w_transact w; w_statics := w_statics w; w_status_cache := x |}.

(** The state of a chain before its first block. *)
Definition empty_world : world := {|
  w_native := {| n_status := None; n_code := ∅; n_codeByHash := ∅; n_notify := ∅; n_config := None;
                 n_transactionWasmConfig := None; n_proofWasmConfig := None; n_scheduledSnapshots := ∅ |};
  w_accounts := {| a_status := None; a_accounts := ∅; a_preapproved := [] |};
  w_sig := ∅;
  w_delegate := ∅;
  w_setcode := {| s_refs := ∅; s_staged := ∅; s_verifySeq := None |};
  w_producers := {| p_candidates := ∅; p_maxProds := None |};
  w_transact := {| t_status := None; t_resMonitoring := None; t_blockSummary := None; t_included := ∅;
                   t_callbacks := ∅; t_eventIndexer := None; t_snapshotInfo := None |};
  w_statics := {| systemWriteBudget := 0; skipDiskWrites := None; trxSender := None; trxData := None;
                  runAsMap := ∅; cached_summary := None |};
  w_status_cache := ∅;
|}.

(** ** Actions *)

Definition act (A : Type) : Type := world -> result (A * world).

#[export] Instance act_ret : MRet act := fun A a w => Ok (a, w).
#[export] Instance act_bind : MBind act := fun A B f m w =>
  match m w with Ok (a, w') => f a w' | Abort e => Abort e end.

#[export] Instance act_fmap : FMap act := fun A B f m w =>
  match m w with Ok (a, w') => Ok (f a, w') | Abort e => Abort e end.

(** [psibase::check] and [psibase::abortMessage] inside an action. *)
Definition require (b : bool) (msg : string) : act unit := fun w =>
  if b then Ok (tt, w) else Abort msg.
Definition abortMessage {A} (msg : string) : act A := fun _ => Abort msg.

Definition gets {A} (f : world -> A) : act A := fun w => Ok (f w, w).
Definition modify (f : world -> world) : act unit := fun w => Ok (tt, f w).

(** Dereference of an [std::optional] the source does not test; on an empty one
    the behaviour is undefined. *)
Definition deref {A} (o : option A) : act A :=
  match o with Some a => mret a | None => abortMessage "dereference of an empty optional" end.

Arguments require b%_bool_scope msg%_string_scope.
Arguments abortMessage {A} msg%_string_scope.

Definition modify_native (f : NativeTables -> NativeTables) : act unit :=
  modify (fun w => set_w_native (f (w_native w)) w).
Definition modify_accounts (f : AccountsTables -> AccountsTables) : act unit :=
  modify (fun w => set_w_accounts (f (w_accounts w)) w).
Definition modify_setcode (f : SetCodeTables -> SetCodeTables) : act unit :=
  modify (fun w => set_w_setcode (f (w_setcode w)) w).
Definition modify_producers (f : ProducersTables -> ProducersTables) : act unit :=
  modify (fun w => set_w_producers (f (w_producers w)) w).
Definition modify_transact (f : TransactTables -> TransactTables) : act unit :=
  modify (fun w => set_w_transact (f (w_transact w)) w).
Definition modify_statics (f : TransactStatics -> TransactStatics) : act unit :=
  modify (fun w => set_w_statics (f (w_statics w)) w).

(** [SystemService::getOptionalStatus] and [getStatus], called from the code of
    the service [self]. *)
Definition getOptionalStatus (self : AccountNumber) : act (option StatusRow) := fun w =>
  match w_status_cache w !! self with
  | Some status => Ok (status, w)
  | None =>
      let status := n_status (w_native w) in
      Ok (status, set_w_status_cache (<[self := status]> (w_status_cache w)) w)
  end.
Definition getStatus (self : AccountNumber) : act StatusRow :=
  status ← getOptionalStatus self; deref status.

(** ** The interface of auth services

    What [Transact], [Accounts] and [AuthDelegate] call on the auth service of
    an account ([Actor<AuthInterface>]). *)

Definition readOnlyFlag : Z := 0x80000000.
Definition firstAuthFlag : Z := 0x40000000.
Definition requestMask : Z := 0x000000ff.
Definition topActionReq : Z := 0x01.
Definition runAsRequesterReq : Z := 0x02.
Definition runAsMatchedReq : Z := 0x03.
Definition runAsMatchedExpandedReq : Z := 0x04.
Definition runAsOtherReq : Z := 0x05.

Record AuthInterface := {
  checkAuthSys (flags : Z) (requester sender : AccountNumber) (action : ServiceMethod)
    (allowedActions : list ServiceMethod) (claims : list Claim) : act bool;
  canAuthUserSys (user : AccountNumber) : act unit;
  getDlgsSys (sender : AccountNumber) : act (list AccountNumber);
  isAuthSys (sender : AccountNumber) (authorizers : list AccountNumber) : act bool;
  isRejectSys (sender : AccountNumber) (rejecters : list AccountNumber) : act bool;
}.

(** The code deployed at an account, seen as an auth service:
    [to<AuthInterface>(account)]. *)
Class AuthDispatch := auth_service : AccountNumber -> AuthInterface.

(** [std::ranges::contains]. *)
Definition contains {A} `{EqDecision A} (l : list A) (x : A) : bool := bool_decide (x ∈ l).

(** ** Reasoning about actions *)

Lemma act_bind_ok {A B} (f : A -> act B) (m : act A) w r :
  (m ≫= f) w = Ok r <-> exists a w', m w = Ok (a, w') /\ f a w' = Ok r.
Proof.
  cbv [mbind act_bind]. destruct (m w) as [[a w']|e]; split.
  - intros. by exists a, w'.
  - by intros (? & ? & [= -> ->] & ?).
  - done.
  - by intros (? & ? & ? & ?).
Qed.

Lemma require_ok b msg w r : require b msg w = Ok r <-> b = true /\ r = (tt, w).
Proof. unfold require. destruct b; split; try (intros [= <-]; done); intros [? ->]; done. Qed.

Lemma contains_true {A} `{EqDecision A} (l : list A) x : contains l x = true <-> x ∈ l.
Proof. apply bool_decide_eq_true. Qed.

(** The status row as the code of [self] sees it, and the state once it has
    looked. *)
Definition status_of (self : AccountNumber) (w : world) : option StatusRow :=
  match w_status_cache w !! self with Some s => s | None => n_status (w_native w) end.
Definition touch (self : AccountNumber) (w : world) : world :=
  match w_status_cache w !! self with
  | Some _ => w
  | None => set_w_status_cache (<[self := n_status (w_native w)]> (w_status_cache w)) w
  end.

Lemma getOptionalStatus_eq self w : getOptionalStatus self w = Ok (status_of self w, touch self w).
Proof. unfold getOptionalStatus, status_of, touch. by destruct (_ !! self). Qed.

Lemma touch_touch self w : touch self (touch self w) = touch self w.
Proof.
  unfold touch. destruct (w_status_cache w !! self) eqn:E; [by rewrite E|]. cbn. by rewrite lookup_insert_eq.
Qed.

Lemma status_of_touch self w : status_of self (touch self w) = status_of self w.
Proof.
  unfold status_of, touch. destruct (w_status_cache w !! self) eqn:E; [by rewrite E|]. cbn. by rewrite lookup_insert_eq.
Qed.

Lemma getStatus_eq self w s : status_of self w = Some s -> getStatus self w = Ok (s, touch self w).
Proof. intros E. unfold getStatus. cbv [mbind act_bind]. by rewrite getOptionalStatus_eq, E. Qed.

Lemma Ok_inj {A} (a b : A) : Ok a = Ok b -> a = b.
Proof. congruence. Qed.

(** Decompose a successful action into its steps. *)
Ltac act_inv :=
  repeat match goal with
  | H : mbind _ _ _ = Ok _ |- _ =>
      apply act_bind_ok in H; destruct H as (? & ? & ? & H); cbn beta in H
  | H : (_ <$> ?m) ?w = Ok _ |- _ => cbv [fmap act_fmap] in H; destruct (m w) as [[? ?]|] eqn:?
  | H : require _ _ _ = Ok _ |- _ => apply require_ok in H as [? H]
  | H : modify _ _ = Ok _ |- _ => unfold modify in H
  | H : gets _ _ = Ok _ |- _ => unfold gets in H
  | H : mret _ _ = Ok _ |- _ => cbv [mret act_ret] in H
  | H : abortMessage _ _ = Ok _ |- _ => discriminate H
  | H : deref ?o _ = Ok _ |- _ => destruct o eqn:?; cbn [deref] in H
  | H : (if ?b then _ else _) _ = Ok _ |- _ => destruct b eqn:?
  | H : (match ?o with _ => _ end) _ = Ok _ |- _ => destruct o eqn:?
  | H : (_, _) = (_, _) |- _ => apply pair_equal_spec in H as [? ?]; subst
  | H : Ok _ = Ok _ |- _ => apply Ok_inj in H; subst
  | H : ?x = (_, _) |- _ => is_var x; subst x
  | H : (_, _) = ?x |- _ => is_var x; subst x
  end.
