(* ===== verification/AuthAny.v ===== *)
(** * psibase: the AuthAny service

    [src/packages/system/AuthAny/src/AuthAny.cpp]: an auth service that accepts
    every sender, used while a chain is booted and in tests. *)

From S2P Require Import Prelude Names Services.

Module AuthAny.

Definition checkAuthSys (flags : Z) (requester sender : AccountNumber) (action : ServiceMethod)
    (allowedActions : list ServiceMethod) (claims : list Claim) : act bool := mret true.

Definition canAuthUserSys (user : AccountNumber) : act unit := mret tt.

Definition getDlgsSys (sender : AccountNumber) : act (list AccountNumber) := mret [].

Definition isAuthSys (sender : AccountNumber) (authorizers : list AccountNumber) : act bool :=
  mret (contains authorizers sender).

Definition isRejectSys (sender : AccountNumber) (rejecters : list AccountNumber) : act bool :=
  mret (contains rejecters sender).

Definition auth : AuthInterface := {|
  Services.checkAuthSys := checkAuthSys;
  Services.canAuthUserSys := canAuthUserSys;
  Services.getDlgsSys := getDlgsSys;
  Services.isAuthSys := isAuthSys;
  Services.isRejectSys := isRejectSys;
|}.

End AuthAny.
