(* ===== verification/Accounts.v ===== *)
(** * psibase: the Accounts service

    [src/packages/system/Accounts/src/Accounts.cpp].  An action takes the
    account that called it as its first argument ([getSender()]); the receiver
    is the account the service is deployed to ([accounts]).  The auth service
    that [setAuthServ] consults is reached through [AuthDispatch]. *)

From S2P Require Import Prelude Names Services AuthAny.

Definition MIN_ALLOWED_ACCOUNT_LENGTH : Z := 8.

(** ** Operations *)

Module Accounts.

Definition put_account (a : Account) : act unit :=
  modify_accounts (fun t => set_a_accounts (<[accountNum a := a]> (a_accounts t)) t).

(** The loop over [CodeTable] in [init]. *)
Fixpoint init_loop (codes : list Z) (totalAccounts : Z) : act Z :=
  match codes with
  | [] => mret totalAccounts
  | codeNum :: codes =>
      put_account {| accountNum := codeNum; authService := auth_delegate_service; authSequence := 0 |} ;;
      init_loop codes (u32 (totalAccounts + 1))
  end.

Definition init : act unit :=
  status ← gets (fun w => a_status (w_accounts w));
  match status with
  | Some _ => mret tt
  | None =>
      codes ← gets (fun w => (map_to_list (n_code (w_native w))).*1);
      totalAccounts ← init_loop codes 0;
      modify_accounts (set_a_status (Some totalAccounts))
  end.

(** [str.starts_with("x-")]. *)
Definition starts_with_x (s : bytes) : bool := bool_decide (take 2 s = str "x-").

Definition preapproveAcc (sender name : AccountNumber) : act unit :=
  strName ← deref (account_str name);
  (if negb (subaccount name =? 0) then
     if negb (sender =? base_account name)
     then abortMessage "subaccount can only be created by its base account" else mret tt
   else if starts_with_x strName then
     require (sender =? accounts_service) "The 'x-' account prefix is reserved for infrastructure providers"
   else require ((sender =? accounts_service) || (sender =? namemarket_service)) "unauthorized") ;;
  modify_accounts (fun t => set_a_preapproved (a_preapproved t ++ [name]) t).

Definition getAccount (name : AccountNumber) : act (option Account) :=
  gets (fun w => a_accounts (w_accounts w) !! name).

(** The naming rules for an account that has not been preapproved. *)
Definition check_name_rules (sender name : AccountNumber) (strName : bytes) : act unit :=
  if negb (subaccount name =? 0) then
    require (sender =? base_account name) "Subaccounts can only be created by the primary account"
  else if negb (sender =? accounts_service) then
    require (negb (starts_with_x strName)) "The 'x-' account prefix is reserved for infrastructure providers" ;;
    require (MIN_ALLOWED_ACCOUNT_LENGTH <=? Z.of_nat (length strName)) "account name must be at least 8 characters"
  else mret tt.

Definition newAccount (sender name authSvc : AccountNumber) (requireMatch : bool) : act bool :=
  status ← gets (fun w => a_status (w_accounts w));
  totalAccounts ← (match status with Some n => mret n | None => abortMessage "not started" end);
  strName ← deref (account_str name);
  require (negb (name =? 0)) "invalid account name" ;;
  back ← deref (last strName);
  require (negb (back =? chr "-")) "account name must not end in a hyphen" ;;
  preapproved ← gets (fun w => a_preapproved (w_accounts w));
  (if contains preapproved name then mret tt else check_name_rules sender name strName) ;;
  require (negb (AccountNumber_of_name strName =? 0)) "invalid account name" ;;
  existing ← getAccount name;
  match existing with
  | Some existing =>
      if requireMatch && negb (authService existing =? authSvc)
      then abortMessage "account already exists" else mret false
  | None =>
      auth ← getAccount authSvc;
      require (bool_decide (auth <> None)) "unknown auth service" ;;
      put_account {| accountNum := name; authService := authSvc; authSequence := 0 |} ;;
      modify_accounts (set_a_status (Some (u32 (totalAccounts + 1)))) ;;
      mret true
  end.

Definition setAuthServ `{AuthDispatch} (sender authSvc : AccountNumber) : act unit :=
  account ← getAccount sender;
  account ← (match account with Some a => mret a | None => abortMessage "account does not exist" end);
  canAuthUserSys (auth_service authSvc) sender ;;
  put_account {| accountNum := accountNum account; authService := authSvc;
                 authSequence := u64 (authSequence account + 1) |}.

Definition getAuthOf (account : AccountNumber) : act AccountNumber :=
  accountRow ← getAccount account;
  match accountRow with
  | Some row => mret (authService row)
  | None => abortMessage "account does not exist"
  end.

Definition incAuthSeq (sender name : AccountNumber) : act unit :=
  accountRow ← getAccount name;
  match accountRow with
  | Some row =>
      if authService row =? sender
      then put_account {| accountNum := accountNum row; authService := authService row;
                          authSequence := u64 (authSequence row + 1) |}
      else mret tt
  | None => mret tt
  end.

Definition exists_account (name : AccountNumber) : act bool :=
  row ← getAccount name; mret (bool_decide (row <> None)).

(** The actions that change the service's state, as other services and
    transactions invoke them. *)
Inductive op :=
| Init
| PreapproveAcc (name : AccountNumber)
| NewAccount (name authSvc : AccountNumber) (requireMatch : bool)
| SetAuthServ (authSvc : AccountNumber)
| IncAuthSeq (name : AccountNumber).

Definition run `{AuthDispatch} (sender : AccountNumber) (o : op) : act unit :=
  match o with
  | Init => init
  | PreapproveAcc name => preapproveAcc sender name
  | NewAccount name a m => newAccount sender name a m ;; mret tt
  | SetAuthServ a => setAuthServ sender a
  | IncAuthSeq name => incAuthSeq sender name
  end.

#[local] Opaque account_str AccountNumber_of_name subaccount base_account.

(** ** The exact effect of newAccount *)

(** The naming rules of [check_name_rules]. *)
Definition rules (sender name : AccountNumber) (strName : bytes) : Prop :=
  (subaccount name <> 0 /\ sender = base_account name) \/
  (subaccount name = 0 /\
   (sender = accounts_service \/ (starts_with_x strName = false /\ 8 <= Z.of_nat (length strName)))).

(** What [newAccount] demands of a name, whether or not the account exists. *)
Definition name_ok (w : world) (sender name : AccountNumber) : Prop :=
  exists strName c,
    account_str name = Some strName /\ last strName = Some c /\ c <> chr "-" /\ name <> 0 /\
    AccountNumber_of_name strName <> 0 /\
    (name ∈ a_preapproved (w_accounts w) \/ rules sender name strName).

(** The state after the creation of an account. *)
Definition created (w : world) (total : Z) (name authSvc : AccountNumber) : world :=
  let t := w_accounts w in
  set_w_accounts {| a_status := Some (u32 (total + 1));
                    a_accounts := <[name := {| accountNum := name; authService := authSvc; authSequence := 0 |}]> (a_accounts t);
                    a_preapproved := a_preapproved t |} w.

Lemma check_name_rules_ok sender name strName w r :
  check_name_rules sender name strName w = Ok r <-> rules sender name strName /\ r = (tt, w).
Proof.
  unfold check_name_rules, rules, MIN_ALLOWED_ACCOUNT_LENGTH. split.
  - intros E. act_inv; zbool; split; auto.
  - intros [R ->]. cbv [mbind act_bind require mret act_ret].
    destruct (Z.eqb_spec (subaccount name) 0); cbn [negb]; [|by destruct R as [[_ ->]|[? _]]; [rewrite Z.eqb_refl|]].
    destruct R as [[? _]|[_ R]]; [done|]. destruct (Z.eqb_spec sender accounts_service); [done|].
    destruct R as [?|[-> ?]]; [done|]. cbn. by replace (8 <=? Z.of_nat (length strName)) with true by lia.
Qed.

Lemma newAccount_ok sender name authSvc m w b w' :
  newAccount sender name authSvc m w = Ok (b, w') <->
  exists total, a_status (w_accounts w) = Some total /\ name_ok w sender name /\
    match a_accounts (w_accounts w) !! name with
    | Some e => b = false /\ w' = w /\ (m = true -> authService e = authSvc)
    | None => b = true /\ is_Some (a_accounts (w_accounts w) !! authSvc) /\ w' = created w total name authSvc
    end.
Proof.
  unfold newAccount, getAccount, put_account, modify_accounts. split.
  - intros E. act_inv.
    all: match goal with H : check_name_rules _ _ _ _ = Ok _ |- _ => apply check_name_rules_ok in H as [? ?] | _ => idtac end.
    all: act_inv.
    all: zbool; eexists; (split; [eassumption|]).
    all: (split; [eexists _, _; do 2 (split; [eassumption|]); do 3 (split; [assumption|]);
      first [right; assumption | left; apply contains_true; assumption]|]).
    all: match goal with H : ?x = _ |- context [match ?x with _ => _ end] => rewrite H end.
    all: match goal with
         | H : bool_decide _ = true |- _ =>
             apply bool_decide_eq_true, not_eq_None_Some in H; split_and!; [reflexivity | exact H | reflexivity]
         | H : _ = false \/ _ = false |- _ =>
             split_and!; [reflexivity..|]; intros ->; destruct H as [?|?]; zbool; [discriminate|assumption]
         end.
  - intros (total & Es & (str & c & Estr & Elast & Hc & Hn & Hv & Hr) & Hex).
    cbv [mbind act_bind gets require modify]. rewrite Es. cbv [mret act_ret]. rewrite Estr. cbn [deref].
    cbv [mret act_ret]. rewrite (proj2 (Z.eqb_neq name 0)) by done. cbn [negb]. rewrite Elast. cbn [deref].
    cbv [mret act_ret]. rewrite (proj2 (Z.eqb_neq c _)) by done. cbn [negb].
    replace ((if contains (a_preapproved (w_accounts w)) name then fun w0 => Ok (tt, w0) else check_name_rules sender name str) w)
      with (Ok (tt, w)).
    2:{ destruct contains eqn:Ec; [done|]. symmetry. apply check_name_rules_ok. split; [|done].
        destruct Hr as [Hp|Hr]; [|done]. apply contains_true in Hp. congruence. }
    rewrite (proj2 (Z.eqb_neq (AccountNumber_of_name str) 0)) by done. cbn [negb].
    destruct (a_accounts (w_accounts w) !! name) as [e|] eqn:Ee.
    + destruct Hex as (-> & -> & Hm). destruct m; [|done]. by rewrite Hm, Z.eqb_refl.
    + destruct Hex as (-> & Ha & ->). by rewrite bool_decide_eq_true_2 by (by apply not_eq_None_Some).
Qed.

(** Creating an account succeeds with [true] exactly when the service has been
    initialised, the name obeys the naming rules for this sender, no such
    account exists and the auth service does; it then adds the account with
    authorization sequence 0 and counts it.  It succeeds with [false], changing
    nothing, exactly when the account exists, and uses the given auth service if
    a match is required. *)
Theorem newAccount_spec sender name authSvc m w b w' :
  newAccount sender name authSvc m w = Ok (b, w') <->
  exists total, a_status (w_accounts w) = Some total /\ name_ok w sender name /\
    match a_accounts (w_accounts w) !! name with
    | Some e => b = false /\ w' = w /\ (m = true -> authService e = authSvc)
    | None => b = true /\ is_Some (a_accounts (w_accounts w) !! authSvc) /\ w' = created w total name authSvc
    end.
Proof. apply newAccount_ok. Qed.

(** ** Invariant *)

Definition wf (t : AccountsTables) : Prop :=
  map_Forall (fun k a => accountNum a = k) (a_accounts t) /\
  match a_status t with
  | Some total => total = u32 (Z.of_nat (size (a_accounts t)))
  | None => a_accounts t = ∅
  end.

(** The auth service consulted by [setAuthServ] cannot write the tables of
    [Accounts]: a service writes only its own tables, and [Accounts] does not
    allow recursive calls. *)
Class Isolated (D : AuthDispatch) : Prop :=
  canAuthUserSys_isolated svc user w r w' :
    canAuthUserSys (auth_service svc) user w = Ok (r, w') -> w_accounts w' = w_accounts w.

Lemma wf_update t k a :
  wf t -> is_Some (a_accounts t !! k) -> accountNum a = k ->
  wf (set_a_accounts (<[k := a]> (a_accounts t)) t).
Proof.
  intros [Hk Hs] [a0 Ea] Ha. split; cbn.
  - apply map_Forall_insert_2; done.
  - destruct (a_status t); [|rewrite Hs in Ea; by rewrite lookup_empty in Ea].
    by rewrite map_size_insert_Some by eauto.
Qed.

Lemma init_loop_spec codes n w n' w' :
  init_loop codes n w = Ok (n', w') -> NoDup codes ->
  (forall c, c ∈ codes -> a_accounts (w_accounts w) !! c = None) ->
  map_Forall (fun k a => accountNum a = k) (a_accounts (w_accounts w)) ->
  map_Forall (fun k a => accountNum a = k) (a_accounts (w_accounts w')) /\
  Z.of_nat (size (a_accounts (w_accounts w'))) = Z.of_nat (size (a_accounts (w_accounts w))) + Z.of_nat (length codes) /\
  (n = u32 n -> n' = u32 (n + Z.of_nat (length codes))).
Proof.
  revert n w. induction codes as [|c codes IH]; intros n w E Hnd Hnew Hk; cbn in E.
  - act_inv. rewrite !Z.add_0_r. auto.
  - apply NoDup_cons in Hnd as [Hc Hnd]. unfold put_account, modify_accounts in E. act_inv.
    apply IH in E; [|done| |by apply map_Forall_insert_2]; cbn in *.
    + destruct E as (? & Hs & Hn). split; [done|].
      rewrite map_size_insert_None in Hs by (apply Hnew; by left). split; [lia|].
      intros _. rewrite Hn by (by rewrite wrap_wrap). unfold wrap. rewrite Zplus_mod_idemp_l. f_equal. lia.
    + intros c' Hc'. rewrite lookup_insert_ne by (by intros ->). apply Hnew. by right.
Qed.

Lemma run_wf `{HI : Isolated} sender o w r w' :
  run sender o w = Ok (r, w') -> wf (w_accounts w) -> wf (w_accounts w').
Proof.
  intros E Hwf. destruct o; cbn in E.
  - unfold init, modify_accounts in E. act_inv; [done|]. destruct Hwf as [Hk Hs].
    match goal with H : a_status _ = None, L : init_loop _ _ _ = _ |- _ => rewrite H in Hs; apply init_loop_spec in L; rename L into L' end.
    + destruct L' as (Hk' & Hsz & Hn). split; [done|]. cbn. rewrite Hs, map_size_empty in Hsz. rewrite Hn, Hsz by done. done.
    + apply NoDup_fst_map_to_list.
    + intros. by rewrite Hs, lookup_empty.
    + done.
  - unfold preapproveAcc, modify_accounts in E. act_inv; done.
  - apply act_bind_ok in E as (b & ? & E & E'). act_inv. apply newAccount_ok in E as (total & Es & Hn & E).
    destruct Hwf as [Hk Hs]. destruct (_ !! name) eqn:En; destruct E as (-> & E).
    { destruct E as [-> _]. by split. }
    destruct E as [_ ->]. split; cbn; [by apply map_Forall_insert_2|].
    rewrite map_size_insert_None by done. rewrite Es in Hs. subst total. unfold wrap. rewrite Zplus_mod_idemp_l. f_equal. lia.
  - unfold setAuthServ, getAccount, put_account, modify_accounts in E. act_inv.
    match goal with H : canAuthUserSys _ _ _ = _ |- _ => apply HI in H as Hw end.
    cbn. rewrite Hw. destruct (Hwf) as [Hk _].
    match goal with H : _ !! sender = Some _ |- _ => rewrite (Hk _ _ H); by apply wf_update end.
  - unfold incAuthSeq, getAccount, put_account, modify_accounts in E. act_inv; try done. cbn. destruct (Hwf) as [Hk _].
    match goal with H : _ !! name = Some _ |- _ => rewrite (Hk _ _ H); by apply wf_update end.
Qed.

(** The states the service can be in: from before [init], by its actions and by
    anything that leaves its tables alone, such as other services and the end of
    a transaction, which drops the preapprovals. *)
Inductive reachable `{AuthDispatch} : world -> Prop :=
| reach_start w : a_accounts (w_accounts w) = ∅ -> a_status (w_accounts w) = None -> reachable w
| reach_run sender o w r w' : reachable w -> run sender o w = Ok (r, w') -> reachable w'
| reach_other w w' : reachable w -> a_accounts (w_accounts w') = a_accounts (w_accounts w) ->
    a_status (w_accounts w') = a_status (w_accounts w) -> reachable w'.

Lemma reachable_wf `{HI : Isolated} w : reachable w -> wf (w_accounts w).
Proof.
  induction 1 as [w E0 E1|sender o w r w' _ IH E|w w' _ IH E0 E1].
  - split; [rewrite E0; apply map_Forall_empty | by rewrite E1].
  - by eapply run_wf.
  - unfold wf. by rewrite E0, E1.
Qed.

(** In every reachable state the number of accounts that the service publishes
    is the size of its account table (as a 32-bit number), and each row is
    stored under its own account number. *)
Theorem accounts_invariant `{HI : Isolated} w total :
  reachable w -> a_status (w_accounts w) = Some total ->
  total = u32 (Z.of_nat (size (a_accounts (w_accounts w)))) /\
  forall k a, a_accounts (w_accounts w) !! k = Some a -> accountNum a = k.
Proof. intros [Hk Hs]%reachable_wf E. rewrite E in Hs. split; [done|]. apply Hk. Qed.

(** ** Who may change an account *)

(** C35: No action removes an account.  An action changes an existing account only
    when its sender is that account, which may change its auth service and
    thereby advances the authorization sequence, or is the account's auth
    service, which may only advance the sequence. *)
Theorem account_authority `{HI : Isolated} sender o w r w' k a :
  reachable w -> run sender o w = Ok (r, w') -> a_accounts (w_accounts w) !! k = Some a ->
  exists a', a_accounts (w_accounts w') !! k = Some a' /\ accountNum a' = k /\
    (a' = a \/
     (sender = k /\ authSequence a' = u64 (authSequence a + 1)) \/
     (sender = authService a /\ authService a' = authService a /\ authSequence a' = u64 (authSequence a + 1))).
Proof.
  intros Hr E Ea. pose proof (reachable_wf w Hr) as [Hk Hs]. pose proof (Hk _ _ Ea) as Hka.
  destruct o; cbn in E.
  - unfold init, modify_accounts in E. act_inv; [by eauto|].
    match goal with H : a_status _ = None |- _ => rewrite H in Hs end. rewrite Hs in Ea. by rewrite lookup_empty in Ea.
  - unfold preapproveAcc, modify_accounts in E. act_inv; eauto.
  - apply act_bind_ok in E as (b & ? & E & E'). act_inv. apply newAccount_ok in E as (total & Es & Hn & E).
    destruct (_ !! name) eqn:En; destruct E as (-> & E); [by destruct E as [-> _]; eauto|].
    destruct E as [_ ->]. exists a. cbn. rewrite lookup_insert_ne by congruence. auto.
  - unfold setAuthServ, getAccount, put_account, modify_accounts in E. act_inv.
    match goal with H : canAuthUserSys _ _ _ = _ |- _ => apply HI in H as Hw end. cbn. rewrite Hw.
    match goal with H : _ !! sender = Some _ |- _ => rewrite (Hk _ _ H); rename H into Hsend end.
    destruct (decide (sender = k)) as [->|Hne].
    + rewrite lookup_insert_eq. simplify_eq. eexists. split; [done|]. cbn. auto.
    + rewrite lookup_insert_ne by done. eauto.
  - unfold incAuthSeq, getAccount, put_account, modify_accounts in E. act_inv; [|by eauto..].
    match goal with H : _ !! name = Some _ |- _ => pose proof (Hk _ _ H) as Hkn end. cbn. rewrite Hkn.
    destruct (decide (name = k)) as [->|Hne].
    + rewrite lookup_insert_eq. simplify_eq. zbool. eexists. split; [done|]. cbn. auto 6.
    + rewrite lookup_insert_ne by done. eauto.
Qed.

(** ** Examples *)

(** A chain whose only code is that of [accounts] and [auth-any], initialised,
    on which [accounts] has created [alice-abcd]. *)
Definition example_start : world :=
  let n := w_native empty_world in
  set_w_native (set_n_code
    (<[accounts_service := new_code_row accounts_service]> (<[auth_any_service := new_code_row auth_any_service]> ∅)) n)
    empty_world.
Definition example_alice : AccountNumber := Eval vm_compute in AccountNumber_of_name (str "alice-abcd").
Definition example_ops : act unit :=
  run (H := fun _ => AuthAny.auth) accounts_service Init ;;
  run (H := fun _ => AuthAny.auth) auth_any_service (NewAccount example_alice auth_any_service true).
Definition example_world : world :=
  match example_ops example_start with Ok (_, w) => w | Abort _ => example_start end.

#[local] Transparent account_str AccountNumber_of_name subaccount base_account.

#[global] Instance any_isolated : Isolated (fun _ => AuthAny.auth).
Proof. intros svc user w r w' [=]. by subst. Qed.

Lemma example_reachable : reachable (H := fun _ => AuthAny.auth) example_world.
Proof.
  unfold example_world. destruct (example_ops example_start) as [[[] w]|] eqn:E; [|by vm_compute in E].
  apply act_bind_ok in E as (r & w1 & E1 & E2).
  eapply (reach_run (H := fun _ => AuthAny.auth)); [|exact E2]. eapply reach_run; [|exact E1]. by apply reach_start.
Qed.

Lemma accounts_invariant_witness :
  a_status (w_accounts example_world) = Some 3 /\ 3 = u32 (Z.of_nat (size (a_accounts (w_accounts example_world)))).
Proof.
  assert (E : a_status (w_accounts example_world) = Some 3) by (vm_compute; reflexivity).
  split; [exact E|]. exact (proj1 (accounts_invariant (D := fun _ => AuthAny.auth) _ _ example_reachable E)).
Defined.

(** [alice-abcd] moves to the auth service [auth-sig]. *)
Definition example_moved : world :=
  match run (H := fun _ => AuthAny.auth) example_alice (SetAuthServ auth_sig_service) example_world with
  | Ok (_, w) => w | Abort _ => example_world end.
Definition example_row : Account :=
  {| accountNum := example_alice; authService := auth_any_service; authSequence := 0 |}.

Lemma account_authority_witness :
  exists a', a_accounts (w_accounts example_moved) !! example_alice = Some a' /\ accountNum a' = example_alice /\
    (a' = example_row \/
     (example_alice = example_alice /\ authSequence a' = u64 (authSequence example_row + 1)) \/
     (example_alice = authService example_row /\ authService a' = authService example_row /\
      authSequence a' = u64 (authSequence example_row + 1))).
Proof.
  refine (account_authority (D := fun _ => AuthAny.auth) example_alice (SetAuthServ auth_sig_service)
           example_world tt example_moved example_alice example_row example_reachable _ _);
    vm_compute; reflexivity.
Defined.

End Accounts.
