(* ===== verification/AuthServices.v ===== *)
(** * psibase: the auth services AuthSig and AuthDelegate

    [src/packages/system/AuthSig/src/AuthSig.cpp] and
    [src/packages/system/AuthDelegate/src/AuthDelegate.cpp].  The first
    authorizes a sender by a public key among the verified claims of the
    transaction, the second forwards the decision to the owner of the sender. *)

From S2P Require Import Prelude Names Services AuthAny Accounts.

(** ** AuthSig *)

Module AuthSig.

Definition getKey (account : AccountNumber) : act (option bytes) := gets (fun w => w_sig w !! account).
Definition put_key (account : AccountNumber) (pubkey : bytes) : act unit :=
  modify (fun w => set_w_sig (<[account := pubkey]> (w_sig w)) w).

Definition equalByteVector (lhs rhs : bytes) : bool := bool_decide (lhs = rhs).

(** The loop over the claims; [first] holds while the claim at hand is
    [claims[0]]. *)
Fixpoint check_claims (flags : Z) (expected : bytes) (first : bool) (claims : list Claim) : act bool :=
  match claims with
  | [] => mret false
  | claim :: claims =>
      if (claim_service claim =? verify_sig_service) && equalByteVector (claim_rawData claim) expected then
        if negb (Z.land flags firstAuthFlag =? 0) && negb first
        then abortMessage "first sender is not verified by first signature"
        else mret true
      else check_claims flags expected false claims
  end.

(** The request types that both AuthSig and Producers decide without looking
    at the claims; [None] is [topActionReq]. *)
Definition check_request_type (flags : Z) : act (option bool) :=
  let type := Z.land flags requestMask in
  if type =? runAsRequesterReq then mret (Some true)
  else if type =? runAsMatchedReq then mret (Some true)
  else if type =? runAsMatchedExpandedReq then abortMessage "runAs: caller attempted to expand powers"
  else if type =? runAsOtherReq then abortMessage "runAs: caller is not authorized"
  else if negb (type =? topActionReq) then abortMessage "unsupported auth type"
  else mret None.

Definition checkAuthSys (flags : Z) (requester sender : AccountNumber) (action : ServiceMethod)
    (allowedActions : list ServiceMethod) (claims : list Claim) : act bool :=
  decided ← check_request_type flags;
  match decided with
  | Some b => mret b
  | None =>
      row ← getKey sender;
      expected ← (match row with Some k => mret k | None => abortMessage "sender does not have a public key" end);
      check_claims flags expected true claims
  end.

Definition canAuthUserSys (user : AccountNumber) : act unit :=
  row ← getKey user;
  require (bool_decide (row <> None)) "sender does not have a public key".

Definition setKey (sender : AccountNumber) (key : bytes) : act unit := put_key sender key.

Definition getDlgsSys (sender : AccountNumber) : act (list AccountNumber) := mret [].

Definition isAuthSys (sender : AccountNumber) (authorizers : list AccountNumber) : act bool :=
  mret (contains authorizers sender).

Definition isRejectSys (sender : AccountNumber) (rejecters : list AccountNumber) : act bool :=
  mret (contains rejecters sender).

Definition newAccount (sender name : AccountNumber) (key : bytes) : act unit :=
  put_key name key ;;
  Accounts.newAccount auth_sig_service name auth_sig_service true ;;
  mret tt.

Definition auth : AuthInterface := {|
  Services.checkAuthSys := checkAuthSys;
  Services.canAuthUserSys := canAuthUserSys;
  Services.getDlgsSys := getDlgsSys;
  Services.isAuthSys := isAuthSys;
  Services.isRejectSys := isRejectSys;
|}.

(** *** Top-level authorization *)

(** The claim that proves control of the key. *)
Definition key_claim (key : bytes) : Claim := {| claim_service := verify_sig_service; claim_rawData := key |}.

Lemma matches_key_claim c key :
  (claim_service c =? verify_sig_service) && equalByteVector (claim_rawData c) key = true <-> c = key_claim key.
Proof.
  unfold equalByteVector. rewrite andb_true_iff, Z.eqb_eq, bool_decide_eq_true.
  destruct c; cbn; split; [intros [-> ->]; done | intros [= -> ->]; done].
Qed.

(** The position of the first matching claim decides. *)
Lemma check_claims_spec flags key first cs w :
  check_claims flags key first cs w =
  if bool_decide (key_claim key ∈ cs) then
    if negb (Z.land flags firstAuthFlag =? 0) && negb (first && bool_decide (hd_error cs = Some (key_claim key)))
    then Abort "first sender is not verified by first signature" else Ok (true, w)
  else Ok (false, w).
Proof.
  revert first. induction cs as [|c cs IH]; intros first; [done|]. cbn [check_claims hd_error].
  destruct (_ && _) eqn:E.
  - apply matches_key_claim in E as ->. rewrite bool_decide_eq_true_2 by (by left). cbn.
    rewrite bool_decide_eq_true_2 by done. rewrite andb_true_r. by destruct (_ && _).
  - assert (c <> key_claim key) by (intros Hc%matches_key_claim; congruence).
    rewrite IH. cbn [andb negb hd_error]. rewrite (bool_decide_eq_false_2 (Some c = _)) by congruence.
    rewrite andb_false_r. cbn [negb].
    rewrite (bool_decide_ext (key_claim key ∈ c :: cs) (key_claim key ∈ cs)); [done|].
    rewrite elem_of_cons. split; [intros [?|?]; congruence | by right].
Qed.

Lemma top_request flags w :
  Z.land flags requestMask = topActionReq -> check_request_type flags w = Ok (None, w).
Proof. intros E. unfold check_request_type. by rewrite E. Qed.

(** A top-level action of a sender with a registered key is authorized exactly
    when the claims contain a [verify-sig] claim of that key, and, for the
    first sender of a transaction, which is billed for it, exactly when that
    claim is the first one; it is refused without an error exactly when the
    key is not among the claims. *)
Theorem checkAuthSys_top flags requester sender action allowed claims key w :
  Z.land flags requestMask = topActionReq -> w_sig w !! sender = Some key ->
  (checkAuthSys flags requester sender action allowed claims w = Ok (true, w) <->
   if Z.land flags firstAuthFlag =? 0 then key_claim key ∈ claims else hd_error claims = Some (key_claim key)) /\
  (checkAuthSys flags requester sender action allowed claims w = Ok (false, w) <-> key_claim key ∉ claims).
Proof.
  intros Ht Hk. unfold checkAuthSys, getKey, gets. cbv [mbind act_bind]. rewrite top_request, Hk by done.
  cbv [mret act_ret]. rewrite check_claims_spec. cbn [andb].
  assert (Hh : hd_error claims = Some (key_claim key) -> key_claim key ∈ claims)
    by (destruct claims as [|c cs]; cbn; [done | intros [= ->]; by left]).
  case_bool_decide as Hin; [|destruct (_ =? 0); split; [split; [done|tauto]|done|split; [done|tauto]|done]].
  destruct (_ =? 0); cbn [negb andb]; [split; split; done|].
  case_bool_decide; cbn [negb]; split; split; done.
Qed.

Lemma checkAuthSys_top_witness :
  let w := set_w_sig (<[7 := [1; 2]]> ∅) empty_world in
  let claims := [key_claim [9]; key_claim [1; 2]] in
  let action := {| sm_service := 0; sm_method := 0 |} in
  checkAuthSys topActionReq 0 7 action [] claims w = Ok (true, w) /\
  checkAuthSys (Z.lor topActionReq firstAuthFlag) 0 7 action [] claims w <> Ok (true, w).
Proof.
  set (w := set_w_sig (<[7 := [1; 2]]> ∅) empty_world). set (claims := [key_claim [9]; key_claim [1; 2]]).
  set (action := {| sm_service := 0; sm_method := 0 |}). cbv zeta. split.
  - apply (proj1 (checkAuthSys_top topActionReq 0 7 action [] claims [1; 2] w eq_refl eq_refl)).
    right. left.
  - intros H. apply (proj1 (checkAuthSys_top (Z.lor topActionReq firstAuthFlag) 0 7 action [] claims [1; 2] w eq_refl eq_refl)) in H.
    discriminate H.
Defined.

(** *** Registration *)

(** [newAccount] stores the key before it asks [Accounts] for the account, and
    [Accounts] reports an account that already uses [auth-sig] as a match: for
    such an account any caller replaces its key, and nothing else changes. *)
Theorem newAccount_existing caller name key w a :
  a_accounts (w_accounts w) !! name = Some a -> authService a = auth_sig_service ->
  Accounts.name_ok w auth_sig_service name -> is_Some (a_status (w_accounts w)) ->
  newAccount caller name key w = Ok (tt, set_w_sig (<[name := key]> (w_sig w)) w).
Proof.
  intros Ha Hauth Hn [total Hs]. set (w' := set_w_sig (<[name := key]> (w_sig w)) w).
  unfold newAccount, put_key, modify. cbv [mbind act_bind]. fold w'.
  assert (E : Accounts.newAccount auth_sig_service name auth_sig_service true w' = Ok (false, w')).
  { apply Accounts.newAccount_ok. exists total. split; [done|]. split; [done|]. cbn. by rewrite Ha. }
  by rewrite E.
Qed.

Lemma newAccount_existing_witness :
  let w := set_w_sig (<[Accounts.example_alice := [1]]> ∅) Accounts.example_moved in
  w_sig w !! Accounts.example_alice = Some [1] /\
  newAccount 5 Accounts.example_alice [2] w =
    Ok (tt, set_w_sig (<[Accounts.example_alice := [2]]> (w_sig w)) w).
Proof.
  intros w. split; [reflexivity|].
  refine (newAccount_existing 5 Accounts.example_alice [2] w
    {| accountNum := Accounts.example_alice; authService := auth_sig_service; authSequence := 1 |} _ _ _ _).
  - vm_compute. reflexivity.
  - reflexivity.
  - exists (str "alice-abcd"), (chr "d"). split_and!; try (vm_compute; congruence).
    right. right. split; [vm_compute; reflexivity|]. right. split; [vm_compute; reflexivity|]. vm_compute; congruence.
  - vm_compute. by eexists.
Defined.

End AuthSig.

(** ** AuthDelegate *)

Module AuthDelegate.

Definition getOwner (account : AccountNumber) : act AccountNumber :=
  row ← gets (fun w => w_delegate w !! account);
  match row with
  | Some owner => mret owner
  | None => abortMessage "account does not have an owning account"
  end.

Definition put_owner (account owner : AccountNumber) : act unit :=
  modify (fun w => set_w_delegate (<[account := owner]> (w_delegate w)) w).

Section dispatch.
Context {D : AuthDispatch}.

Definition authServiceOf (account : AccountNumber) : act AuthInterface :=
  svc ← Accounts.getAuthOf account; mret (auth_service svc).

Definition checkAuthSys (flags : Z) (requester sender : AccountNumber) (action : ServiceMethod)
    (allowedActions : list ServiceMethod) (claims : list Claim) : act bool :=
  owner ← getOwner sender;
  let flags := if requester =? owner
               then Z.lor (Z.land flags (u32 (Z.lnot requestMask))) runAsRequesterReq else flags in
  svc ← authServiceOf owner;
  Services.checkAuthSys svc flags requester owner action allowedActions claims.

Definition canAuthUserSys (user : AccountNumber) : act unit := getOwner user ;; mret tt.

Definition getDlgsSys (sender : AccountNumber) : act (list AccountNumber) :=
  owner ← getOwner sender; mret [owner].

Definition isAuthSys (sender : AccountNumber) (authorizers : list AccountNumber) : act bool :=
  owner ← getOwner sender; mret (contains authorizers owner).

Definition isRejectSys (sender : AccountNumber) (rejecters : list AccountNumber) : act bool :=
  owner ← getOwner sender; mret (contains rejecters owner).

Definition auth : AuthInterface := {|
  Services.checkAuthSys := checkAuthSys;
  Services.canAuthUserSys := canAuthUserSys;
  Services.getDlgsSys := getDlgsSys;
  Services.isAuthSys := isAuthSys;
  Services.isRejectSys := isRejectSys;
|}.
End dispatch.

Definition setOwner (sender owner : AccountNumber) : act unit :=
  record ← gets (fun w => w_delegate w !! owner);
  (if (sender =? owner) || (match record with Some o => o =? sender | None => false end)
   then abortMessage "circular ownership" else mret tt) ;;
  Accounts.incAuthSeq auth_delegate_service sender ;;
  put_owner sender owner.

Definition newAccount (sender name owner : AccountNumber) (requireMatch : bool) : act bool :=
  (if requireMatch then
     record ← gets (fun w => w_delegate w !! name);
     match record with
     | Some o => if negb (o =? owner) then abortMessage "account is owned by another account" else mret tt
     | None => mret tt
     end
   else mret tt) ;;
  ex ← Accounts.exists_account owner;
  require ex "owner account does not exist" ;;
  created ← Accounts.newAccount auth_delegate_service name auth_delegate_service requireMatch;
  (if (created : bool) then put_owner name owner else mret tt) ;;
  mret created.

(** The actions that change the table of owners. *)
Inductive op :=
| SetOwner (owner : AccountNumber)
| NewAccount (name owner : AccountNumber) (requireMatch : bool).
Definition run (sender : AccountNumber) (o : op) : act bool :=
  match o with
  | SetOwner owner => setOwner sender owner ;; mret true
  | NewAccount name owner m => newAccount sender name owner m
  end.

Lemma incAuthSeq_frame sender name w r w' :
  Accounts.incAuthSeq sender name w = Ok (r, w') -> w_delegate w' = w_delegate w.
Proof.
  unfold Accounts.incAuthSeq, Accounts.getAccount, Accounts.put_account, modify_accounts. intros. by act_inv.
Qed.

Lemma newAccount_frame sender name authSvc m w b w' :
  Accounts.newAccount sender name authSvc m w = Ok (b, w') ->
  w_delegate w' = w_delegate w /\ (b = true -> a_accounts (w_accounts w) !! name = None).
Proof.
  intros (total & _ & _ & H)%Accounts.newAccount_ok.
  destruct (_ !! name); destruct H as (-> & H); [by destruct H as [-> _]|]. by destruct H as [_ ->].
Qed.

(** The sequence of an account under this service advances. *)
Lemma incAuthSeq_owned name w a :
  a_accounts (w_accounts w) !! name = Some a -> accountNum a = name -> authService a = auth_delegate_service ->
  exists w', Accounts.incAuthSeq auth_delegate_service name w = Ok (tt, w') /\
    a_accounts (w_accounts w') !! name =
      Some {| accountNum := name; authService := auth_delegate_service; authSequence := u64 (authSequence a + 1) |}.
Proof.
  intros E En Ea. eexists. unfold Accounts.incAuthSeq, Accounts.getAccount, gets. cbv [mbind act_bind].
  rewrite E, Ea, Z.eqb_refl. split; [reflexivity|]. cbn. by rewrite En, lookup_insert_eq.
Qed.

(** The owner of an existing account changes only through [setOwner] called by
    the account itself, which advances the account's authorization sequence if
    it uses this service, so that stored approvals expire. *)
Theorem owner_authority sender o w b w' k a :
  run sender o w = Ok (b, w') -> Accounts.wf (w_accounts w) -> a_accounts (w_accounts w) !! k = Some a ->
  w_delegate w' !! k <> w_delegate w !! k ->
  exists owner, o = SetOwner owner /\ sender = k /\ w_delegate w' !! k = Some owner /\ owner <> k /\
    w_delegate w !! owner <> Some k /\
    (authService a = auth_delegate_service ->
     exists a', a_accounts (w_accounts w') !! k = Some a' /\ authSequence a' = u64 (authSequence a + 1)).
Proof.
  intros E [Hwf _] Ha Hne. destruct o as [owner|name owner m]; cbn in E.
  - unfold setOwner, put_owner in E. act_inv. zbool. pose proof (Hwf _ _ Ha) as Hk.
    match goal with H : Accounts.incAuthSeq _ _ _ = _ |- _ => rename H into Hinc end.
    pose proof (incAuthSeq_frame _ _ _ _ _ Hinc) as Hd. cbn in Hne |- *. rewrite Hd in *.
    destruct (decide (sender = k)) as [->|]; [|by rewrite lookup_insert_ne in Hne].
    exists owner. rewrite lookup_insert_eq. split_and!; [done..|congruence| |].
    + intros Ho. rewrite Ho in *. by zbool.
    + intros Hauth. destruct (incAuthSeq_owned k _ a Ha Hk Hauth) as (w1 & E1 & E2).
      rewrite Hinc in E1. injection E1 as -> ->. eauto.
  - unfold newAccount, put_owner, Accounts.exists_account, Accounts.getAccount in E. act_inv; exfalso; apply Hne.
    all: match goal with H : Accounts.newAccount _ _ _ _ _ = _ |- _ => apply newAccount_frame in H as [Hd Hnew] end.
    all: cbn; rewrite ?lookup_insert_ne by (intros ->; by rewrite Hnew in Ha); by rewrite Hd.
Qed.

(** The owner of [alice-abcd], recorded by that account. *)
Lemma owner_authority_witness :
  let w := Accounts.example_world in
  let w' := match setOwner Accounts.example_alice 77 w with Ok (_, w') => w' | Abort _ => w end in
  w_delegate w' !! Accounts.example_alice = Some 77 /\
  exists owner, SetOwner 77 = SetOwner owner /\ Accounts.example_alice = Accounts.example_alice /\
    w_delegate w' !! Accounts.example_alice = Some owner /\ owner <> Accounts.example_alice /\
    w_delegate w !! owner <> Some Accounts.example_alice /\
    (authService Accounts.example_row = auth_delegate_service ->
     exists a', a_accounts (w_accounts w') !! Accounts.example_alice = Some a' /\
       authSequence a' = u64 (authSequence Accounts.example_row + 1)).
Proof.
  cbv zeta. set (w' := match setOwner _ _ _ with Ok (_, w') => w' | Abort _ => _ end).
  split; [vm_compute; reflexivity|].
  refine (owner_authority Accounts.example_alice (SetOwner 77) Accounts.example_world true w'
    Accounts.example_alice Accounts.example_row _ _ _ _).
  - vm_compute. reflexivity.
  - exact (Accounts.reachable_wf (D := fun _ => AuthAny.auth) _ Accounts.example_reachable).
  - vm_compute. reflexivity.
  - vm_compute. discriminate.
Defined.

End AuthDelegate.
