(* ===== verification/Transact.v ===== *)
(** * psibase: the Transact service

    [src/packages/system/Transact/src/Transact.cpp] and the inline functions of
    [services/system/Transact.hpp].  Every transaction enters the chain through
    this service: it checks the reference block, the expiration and duplicates
    (TAPoS), runs the authorization of each action, calls the actions and keeps
    the bookkeeping of resource billing.

    The services Transact calls are reached through interfaces: the auth
    services ([AuthDispatch]), the VirtualServer service, the event indexer, the
    CPU clock and the services that the actions of a transaction name ([call]).
    Parsing and hashing of a packed transaction are parameters.  A table write
    by a service runs [kvNotify] natively; that call is an operation of its own
    here and is composed with a write only where the caller counts the writes
    ([Producers]). *)

From S2P Require Import Prelude Names Services AuthAny Accounts.

(** ** What Transact calls *)

Class VirtualServer := {
  useNetSys (user : AccountNumber) (amount_bytes : Z) : act unit;
  useCpuSys (user : AccountNumber) (amount_ns : Z) : act unit;
  finishTx : act unit;
  useDiskSys (user : AccountNumber) (db : Z) (amount_bytes : Z) : act unit;
  notifyBlock (block_num : BlockNum) : act unit;
  prestartTx (actor : AccountNumber) : act unit;
  setBillableAcc (account : AccountNumber) : act unit;
}.

Class EventIndexer := {
  ei_startBlock (service : AccountNumber) : act unit;
  ei_sync (service : AccountNumber) : act unit;
  ei_saveMerkle (service : AccountNumber) : act Checksum256;
}.

Class Environment := {
  call (action : Action) : act bytes;
  getCpuTime : act Z;
  unpack_transaction (packed : bytes) : option Transaction;
  sha256 (data : bytes) : Checksum256;
  method_to_number (name : bytes) : MethodNumber;
}.

(** ** Time *)

(** A duration in seconds converted to microseconds, in 64-bit arithmetic. *)
Definition int64 (z : Z) : Z := to_signed 64 (u64 z).
Definition usec (seconds : Z) : Z := int64 (seconds * 1000000).
Definition maxTrxLifetime : Z := 60 * 60.

Module Transact.

(** ** Resource billing *)

Definition resMonitoringEnabled : act bool :=
  config ← gets (fun w => t_resMonitoring (w_transact w));
  mret (match config with Some enabled => enabled | None => false end).

(** Constructor and destructor of [SystemWriteGuard]. *)
Definition SystemWriteGuard_enter : act unit :=
  budget ← gets (fun w => systemWriteBudget (w_statics w));
  require (budget =? 0) "system write already active" ;;
  modify_statics (set_systemWriteBudget (u64 (-1))).
Definition SystemWriteGuard_exit : act unit := modify_statics (set_systemWriteBudget 0).

Definition chargeSystemWrite (delta : Z) : act bool :=
  budget ← gets (fun w => systemWriteBudget (w_statics w));
  if budget =? 0 then mret false
  else if 0 <? delta then
    let d := u64 delta in
    if budget <? d then modify_statics (set_systemWriteBudget 0) ;; mret false
    else modify_statics (set_systemWriteBudget (u64 (budget - d))) ;; mret true
  else mret true.

Definition checkPrivilegedSender (sender : AccountNumber) : act unit :=
  code ← gets (fun w => n_code (w_native w) !! sender);
  require (match code with Some c => negb (Z.land (code_flags c) isPrivileged =? 0) | None => false end)
    "operation requires a privileged service".

Definition resMonitoring (sender : AccountNumber) (enable : bool) : act unit :=
  require (sender =? virtual_server_service) "Wrong sender" ;;
  modify_transact (set_t_resMonitoring (Some enable)).

Definition isResMonitoring : act bool := resMonitoringEnabled.

Definition skipBilling (sender : AccountNumber) (numWrites : Z) : act unit :=
  checkPrivilegedSender sender ;;
  skip ← gets (fun w => skipDiskWrites (w_statics w));
  require (bool_decide (skip = None)) "skipBilling already active" ;;
  modify_statics (set_skipDiskWrites (Some numWrites)).

Definition endSkipBilling (sender : AccountNumber) : act unit :=
  checkPrivilegedSender sender ;;
  skip ← gets (fun w => skipDiskWrites (w_statics w));
  skip ← (match skip with Some n => mret n | None => abortMessage "endSkipBilling without active skipBilling" end);
  require (skip =? 0) "endSkipBilling called before all skipped writes occurred" ;;
  modify_statics (set_skipDiskWrites None).

Definition systemWrite (sender : AccountNumber) (numBytes : Z) : act unit :=
  require (sender =? virtual_server_service) "Wrong sender" ;;
  (if 0 <? numBytes then
     budget ← gets (fun w => systemWriteBudget (w_statics w));
     require (budget =? 0) "system write already active"
   else mret tt) ;;
  modify_statics (set_systemWriteBudget numBytes).

Definition DNE : Z := u32 (-1).

(** The change of the stored size reported by a write. *)
Definition write_delta (keyLen oldValueLen newValueLen : Z) : Z :=
  if oldValueLen =? DNE then keyLen + newValueLen
  else if newValueLen =? DNE then - (keyLen + oldValueLen)
  else newValueLen - oldValueLen.

Definition kvNotify `{VirtualServer} (sender service : AccountNumber) (db keyLen oldValueLen newValueLen : Z) : act unit :=
  require (sender =? 0) "Wrong sender" ;;
  require (negb ((oldValueLen =? DNE) && (newValueLen =? DNE))) "Invalid kv notify" ;;
  enabled ← resMonitoringEnabled;
  if (enabled : bool) then
    skip ← gets (fun w => skipDiskWrites (w_statics w));
    match skip with
    | Some n =>
        require (0 <? n) "more writes occurred than promised by skipBilling" ;;
        modify_statics (set_skipDiskWrites (Some (u32 (n - 1))))
    | None =>
        let delta := write_delta keyLen oldValueLen newValueLen in
        if negb (delta =? 0) then
          system ← chargeSystemWrite delta;
          user ← (if (system : bool) then mret 0
                  else sender ← gets (fun w => trxSender (w_statics w));
                       match sender with
                       | Some s => mret s
                       | None => abortMessage "unauthorized db write: trxSender not set"
                       end);
          useDiskSys user db delta
        else mret tt
    end
  else mret tt.

(** ** Boot, snapshots, callbacks *)

Definition startBoot (boot : list Checksum256) : act unit :=
  status ← gets (fun w => t_status (w_transact w));
  require (match status with None => true | Some _ => false end) "already started" ;;
  modify_transact (set_t_status (Some {| enforceAuth := false; bootTransactions := Some boot |})).

Definition finishBoot : act unit :=
  status ← gets (fun w => t_status (w_transact w));
  (match status with
   | None =>
       stat ← getStatus transact_service;
       require (match head stat with None => true | Some _ => false end)
         "fatal error: The boot process must use startBoot when split across multiple blocks"
   | Some status =>
       require (negb (enforceAuth status)) "already started" ;;
       boot ← (match bootTransactions status with Some b => mret b | None => abortMessage "Invariant failure" end);
       require (match boot with [] => true | _ => false end) "Not all boot transactions have been run"
   end) ;;
  modify_transact (set_t_status (Some {| enforceAuth := true; bootTransactions := None |})) ;;
  modify_native (set_n_config (Some default_ConfigRow)) ;;
  modify_native (set_n_transactionWasmConfig (Some default_WasmConfigRow)) ;;
  modify_native (set_n_proofWasmConfig (Some default_WasmConfigRow)).

Definition setSnapTime (sender : AccountNumber) (seconds : Z) : act unit :=
  require (sender =? transact_service) "Wrong sender" ;;
  stat ← getStatus transact_service;
  row ← gets (fun w => t_snapshotInfo (w_transact w));
  let row := match row with
             | None => {| lastSnapshot := match head stat with Some h => time (header h) | None => time (current stat) end;
                          snapshotInterval := seconds |}
             | Some r => {| lastSnapshot := lastSnapshot r; snapshotInterval := seconds |}
             end in
  modify_transact (set_t_snapshotInfo (Some row)).

Definition checkObjectiveCallback (type : CallbackType) : act unit :=
  match type with
  | onBlock => abortMessage "Objective block callbacks not supported"
  | onTransaction => mret tt
  | onFailedTransaction => abortMessage "Objective failed transaction callbacks not supported"
  end.

Definition getNotifyType (type : CallbackType) : NotifyType :=
  match type with
  | onBlock => acceptBlock
  | onTransaction => acceptTransaction
  | onFailedTransaction => rejectTransaction
  end.

Definition addCallback (sender : AccountNumber) (type : CallbackType) (objective : bool) (a : Action) : act unit :=
  require (sender =? transact_service) "Wrong sender" ;;
  if objective then
    require (act_sender a =? transact_service) "Objective callbacks must have 'transact' as sender" ;;
    checkObjectiveCallback type ;;
    value ← gets (fun w => t_callbacks (w_transact w) !! callback_value type);
    if contains (default [] value) a then mret tt
    else modify_transact (fun t => set_t_callbacks (<[callback_value type := default [] value ++ [a]]> (t_callbacks t)) t)
  else
    require (act_sender a =? 0) "Subjective callbacks must not have a sender" ;;
    let ntype := notify_value (getNotifyType type) in
    value ← gets (fun w => n_notify (w_native w) !! ntype);
    if contains (default [] value) a then mret tt
    else modify_native (fun n => set_n_notify (<[ntype := default [] value ++ [a]]> (n_notify n)) n).

(** [std::ranges::find] followed by [erase]; [None] when there is no match. *)
Fixpoint erase_action (acts : list Action) (a : Action) : option (list Action) :=
  match acts with
  | [] => None
  | x :: acts => if decide (x = a) then Some acts else cons x <$> erase_action acts a
  end.

(** A row without actions is removed from its table. *)
Definition store_actions (k : Z) (acts : list Action) (m : gmap Z (list Action)) : gmap Z (list Action) :=
  match acts with [] => delete k m | _ => <[k := acts]> m end.

Definition removeCallback (sender : AccountNumber) (type : CallbackType) (objective : bool) (a : Action) : act unit :=
  require (sender =? transact_service) "Wrong sender" ;;
  if objective then
    value ← gets (fun w => t_callbacks (w_transact w) !! callback_value type);
    match value ≫= fun acts => erase_action acts a with
    | Some acts => modify_transact (fun t => set_t_callbacks (store_actions (callback_value type) acts (t_callbacks t)) t)
    | None => abortMessage "Callback not found"
    end
  else
    let ntype := notify_value (getNotifyType type) in
    value ← gets (fun w => n_notify (w_native w) !! ntype);
    match value ≫= fun acts => erase_action acts a with
    | Some acts => modify_native (fun n => set_n_notify (store_actions ntype acts (n_notify n)) n)
    | None => abortMessage "Callback not found"
    end.

Definition regEvIdx (sender service : AccountNumber) : act unit :=
  require (sender =? transact_service) "Wrong sender" ;;
  modify_transact (set_t_eventIndexer (Some service)).

(** ** Block summaries *)

(** The last four bytes of a block id as a little-endian number. *)
Definition block_suffix (id : Checksum256) : Z :=
  foldr (fun b acc => b + 256 * acc) 0 (drop (length id - 4) id).

(** [update(i)] with the index truncated to a byte. *)
Definition update_suffix (suffixes : list Z) (i : Z) (id : Checksum256) : list Z :=
  <[Z.to_nat (u8 i) := block_suffix id]> suffixes.

Definition empty_summary : BlockSummary := {| blockSuffixes := replicate 256 0; summary_blockNum := 0 |}.

(** The stored summary brought up to date with the status row. *)
Definition update_summary (summary : BlockSummary) (stat : option StatusRow) : BlockSummary :=
  match stat with
  | None => summary
  | Some stat =>
      let suffixes :=
        match head stat with
        | None => blockSuffixes summary
        | Some h =>
            let num := blockNum (header h) in
            let suffixes := update_suffix (blockSuffixes summary) (Z.land num 0x7f) (blockId h) in
            if Z.land num 0x1fff =? 0
            then update_suffix suffixes (Z.lor (Z.shiftr num 13) 0x80) (blockId h) else suffixes
        end in
      {| blockSuffixes := suffixes; summary_blockNum := blockNum (current stat) |}
  end.

Definition getBlockSummary : act BlockSummary :=
  cached ← gets (fun w => cached_summary (w_statics w));
  match cached with
  | Some summary => mret summary
  | None =>
      stored ← gets (fun w => t_blockSummary (w_transact w));
      stat ← getOptionalStatus transact_service;
      let summary := update_summary (default empty_summary stored) stat in
      modify_statics (set_cached_summary (Some summary)) ;;
      mret summary
  end.

Definition headTapos : act (Z * Z) :=
  stat ← getOptionalStatus transact_service;
  match stat ≫= head with
  | Some h =>
      summary ← getBlockSummary;
      let index := Z.land (blockNum (header h)) 0x7f in
      mret (index, nth (Z.to_nat index) (blockSuffixes summary) 0)
  | None => mret (0, 0)
  end.

Definition currentBlock : act BlockHeader := stat ← getStatus transact_service; mret (current stat).

Definition headBlock : act BlockHeader :=
  stat ← getStatus transact_service;
  match head stat with Some h => mret (header h) | None => abortMessage "head does not exist yet" end.

Definition headBlockTime : act Z :=
  stat ← getStatus transact_service;
  mret (match head stat with Some h => time (header h) | None => 0 end).

(** ** Duplicate detection *)

(** The order of [IncludedTrx::Key]: expiration, then id. *)
Definition included_le (a b : Z * Checksum256) : bool :=
  match a.1 ?= b.1 with Lt => true | Gt => false | Eq => match lex_compare a.2 b.2 with Gt => false | _ => true end end.

(** [includedIndex.begin()]. *)
Definition included_begin (s : gset (Z * Checksum256)) : option (Z * Checksum256) :=
  foldr (fun x m => match m with Some y => Some (if included_le x y then x else y) | None => Some x end)
        None (elements s).

(** The loop of [startBlock] that removes expired ids, at most [n] of them. *)
Fixpoint remove_expired (n : nat) (now : Z) : act unit :=
  match n with
  | O => mret tt
  | S n =>
      it ← gets (fun w => included_begin (t_included (w_transact w)));
      match it with
      | None => mret tt
      | Some obj =>
          if now <? usec obj.1 then mret tt
          else modify_transact (fun t => set_t_included (t_included t ∖ {[obj]}) t) ;;
               remove_expired n now
      end
  end.

(** ** Blocks *)

Section actions.
Context {D : AuthDispatch} {VS : VirtualServer} {EI : EventIndexer} {Env : Environment}.

Definition startBlock (sender : AccountNumber) : act unit :=
  require (sender =? 0) "Only native code may call startBlock" ;;
  SystemWriteGuard_enter ;;
  indexer ← gets (fun w => t_eventIndexer (w_transact w));
  (match indexer with Some service => ei_startBlock service | None => mret tt end) ;;
  summary ← getBlockSummary;
  modify_transact (set_t_blockSummary (Some summary)) ;;
  stat ← getStatus transact_service;
  remove_expired 20 (time (current stat)) ;;
  snapRow ← gets (fun w => t_snapshotInfo (w_transact w));
  (match snapRow with
   | Some row =>
       if negb (snapshotInterval row =? 0) &&
          (usec (snapshotInterval row) <=? int64 (time (current stat) - lastSnapshot row))
       then
         modify_native (fun n => set_n_scheduledSnapshots ({[blockNum (current stat)]} ∪ n_scheduledSnapshots n) n) ;;
         modify_transact (set_t_snapshotInfo (Some {| lastSnapshot := time (current stat); snapshotInterval := snapshotInterval row |}))
       else mret tt
   | None =>
       h ← deref (head stat);
       modify_transact (set_t_snapshotInfo (Some {| lastSnapshot := time (header h); snapshotInterval := 0 |}))
   end) ;;
  enabled ← resMonitoringEnabled;
  (if (enabled : bool) then notifyBlock (blockNum (current stat)) else mret tt) ;;
  SystemWriteGuard_exit.

(** ** Running as another account *)

(** A nonzero entry of [runAsMap] that covers the request. *)
Definition runAs_matches (m : gmap RunAsKey Z) (action : Action) (requester : AccountNumber) : bool :=
  existsb (fun '((sender, authorizedSender, receiver, method), count) =>
             (sender =? act_sender action) && (authorizedSender =? requester) && negb (count =? 0) &&
             ((receiver =? 0) || (receiver =? act_service action)) &&
             ((method =? 0) || (method =? act_method action)))
          (map_to_list m).

Definition runAs_flags (m : gmap RunAsKey Z) (requester : AccountNumber) (action : Action)
    (allowedActions : list ServiceMethod) : Z :=
  if requester =? act_sender action then runAsRequesterReq
  else if runAs_matches m action requester then
    match allowedActions with [] => runAsMatchedReq | _ => runAsMatchedExpandedReq end
  else runAsOtherReq.

Definition runAs_key (action : Action) (a : ServiceMethod) : RunAsKey :=
  (act_sender action, act_service action, sm_service a, sm_method a).

(** [++runAsMap[key]] or [--runAsMap[key]] for each allowed action. *)
Definition adjust_runAs (d : Z) (action : Action) (allowedActions : list ServiceMethod) (m : gmap RunAsKey Z) : gmap RunAsKey Z :=
  foldl (fun m a => <[runAs_key action a := u32 (default 0 (m !! runAs_key action a) + d)]> m) m allowedActions.

Definition runAs (requester : AccountNumber) (action : Action) (allowedActions : list ServiceMethod) : act bytes :=
  transactStatus ← gets (fun w => t_status (w_transact w));
  (if match transactStatus with Some s => enforceAuth s | None => false end then
     authSvc ← Accounts.getAuthOf (act_sender action);
     if negb (requester =? authSvc) && negb (requester =? base_account (act_sender action)) then
       m ← gets (fun w => runAsMap (w_statics w));
       ok ← checkAuthSys (auth_service authSvc) (runAs_flags m requester action allowedActions) requester
              (act_sender action) {| sm_service := act_service action; sm_method := act_method action |}
              allowedActions [];
       if (ok : bool) then mret tt else abortMessage "Not authorized"
     else mret tt
   else mret tt) ;;
  modify_statics (fun t => set_runAsMap (adjust_runAs 1 action allowedActions (runAsMap t)) t) ;;
  result ← call action;
  modify_statics (fun t => set_runAsMap (adjust_runAs (-1) action allowedActions (runAsMap t)) t) ;;
  mret result.

(** ** Transactions *)

Definition getTransaction : act Transaction :=
  data ← gets (fun w => trxData (w_statics w));
  data ← (match data with Some d => mret d | None => abortMessage "No transaction" end);
  deref (unpack_transaction data).

Definition isTransaction : act bool :=
  data ← gets (fun w => trxData (w_statics w));
  mret (match data with Some _ => true | None => false end).

Definition startBlock_method : MethodNumber := method_to_number (str "startBlock").

Definition isStartBlock_action (a : Action) : bool :=
  (act_sender a =? 0) && (act_service a =? transact_service) && (act_method a =? startBlock_method).
Definition isStartBlock (trx : Transaction) : bool :=
  match actions trx with [a] => isStartBlock_action a | _ => false end.

(** The reference block check against the summary, once the chain has booted. *)
Definition checkRefBlock (tp : Tapos) (stat : StatusRow) (summary : BlockSummary) : act unit :=
  h ← deref (head stat);
  let num := blockNum (header h) in
  let offset := Z.land (refBlockIndex tp - 2) 0x7f in
  (if negb (Z.land (refBlockIndex tp) 0x80 =? 0)
   then require (offset <=? u32 (Z.shiftr num 13 - 2)) "transaction references non-existing block"
   else require (offset <=? u32 (num - 2)) "transaction references non-existing block") ;;
  require (refBlockSuffix tp =? nth (Z.to_nat (refBlockIndex tp)) (blockSuffixes summary) 0)
    "transaction references non-existing block".

Definition zero_ref (tp : Tapos) : bool := (refBlockIndex tp =? 0) && (refBlockSuffix tp =? 0).

Definition checkTapos (id : Checksum256) (tp : Tapos) (speculative isStart : bool) : act bool :=
  stat ← getStatus transact_service;
  require (Z.land (tapos_flags tp) (u32 (Z.lnot valid_flags)) =? 0) "unsupported flags on transaction" ;;
  require (time (current stat) <? usec (expiration tp)) "transaction has expired" ;;
  require (usec (expiration tp) <? int64 (time (current stat) + usec maxTrxLifetime)) "transaction was submitted too early" ;;
  transactStatus ← gets (fun w => t_status (w_transact w));
  summary ← (if speculative then Some <$> getBlockSummary else gets (fun w => t_blockSummary (w_transact w)));
  let num := blockNum (current stat) in
  if isStart then
    (match summary with
     | Some s =>
         require (num <=? u32 (summary_blockNum s + 1)) "startBlock was not run in the previous block" ;;
         require (u32 (summary_blockNum s + 1) =? num) "startBlock has already been run"
     | None => mret tt
     end) ;;
    require (zero_ref tp) "tapos must be zero for startBlock" ;;
    mret false
  else
    (match summary with
     | None => require (match head stat with None => true | Some _ => false end) "startBlock has not been run"
     | Some s => require (summary_blockNum s =? num) "startBlock has not been run"
     end) ;;
    (match transactStatus ≫= bootTransactions, summary with
     | Some boot, _ =>
         require (match boot with [] => false | _ => true end)
           "fatal error: All boot transactions have been pushed, but finishBoot was not run." ;;
         require (zero_ref tp) "transaction references non-existing block" ;;
         if negb speculative then
           require (bool_decide (hd_error boot = Some id)) "Wrong transaction during boot" ;;
           modify_transact (set_t_status (option_map (fun s =>
             {| enforceAuth := enforceAuth s; bootTransactions := Some (tail boot) |}) transactStatus))
         else require (contains boot id) "Wrong transaction during boot"
     | None, Some s => checkRefBlock tp stat s
     | None, None => require (zero_ref tp) "transaction references non-existing block"
     end) ;;
    mret (match transactStatus with Some s => enforceAuth s | None => false end).

Definition checkAuth (a : Action) (claims : list Claim) (first readOnly : bool) : act unit :=
  authSvc ← Accounts.getAuthOf (act_sender a);
  let billable := first && negb readOnly in
  (if billable then
     enabled ← resMonitoringEnabled;
     if (enabled : bool) then setBillableAcc (act_sender a) else mret tt
   else mret tt) ;;
  let flags := Z.lor (if billable then Z.lor topActionReq firstAuthFlag else topActionReq)
                     (if readOnly then readOnlyFlag else 0) in
  ok ← checkAuthSys (auth_service authSvc) flags 0 (act_sender a)
         {| sm_service := act_service a; sm_method := act_method a |} [] claims;
  if (ok : bool) then mret tt else abortMessage "Authorization failed".

Definition checkFirstAuth (id : Checksum256) (trx : Transaction) : act bool :=
  first ← (match actions trx with a :: _ => mret a | [] => abortMessage "transaction has no actions" end);
  enforce ← checkTapos id (tapos trx) true false;
  (if (enforce : bool) then checkAuth first (claims trx) true true else mret tt) ;;
  mret enforce.

(** The loop over the actions of a transaction. *)
Fixpoint run_actions (enforce : bool) (size : Z) (claims : list Claim) (first : bool) (acts : list Action) : act unit :=
  match acts with
  | [] => mret tt
  | a :: acts =>
      (if enforce then
         checkAuth a claims first false ;;
         if first then
           enabled ← resMonitoringEnabled;
           if (enabled : bool) then useNetSys (act_sender a) size else mret tt
         else mret tt
       else mret tt) ;;
      call a ;;
      run_actions enforce size claims false acts
  end.

Fixpoint call_all (acts : list Action) : act unit :=
  match acts with [] => mret tt | a :: acts => call a ;; call_all acts end.

Definition include (tp : Tapos) (id : Checksum256) : act unit :=
  modify_transact (fun t => set_t_included ({[(expiration tp, id)]} ∪ t_included t) t).

Definition processTransactionImpl (t : bytes) (speculative : bool) : act unit :=
  trx ← (match unpack_transaction t with Some x => mret x | None => abortMessage "transaction has invalid format" end);
  modify_statics (set_trxData (Some t)) ;;
  let id := sha256 t in
  sender ← (match actions trx with a :: _ => mret (act_sender a) | [] => abortMessage "transaction has no actions" end);
  modify_statics (set_trxSender (Some sender)) ;;
  included ← gets (fun w => t_included (w_transact w));
  require (bool_decide ((expiration (tapos trx), id) ∉ included)) "duplicate transaction" ;;
  enforce ← checkTapos id (tapos trx) speculative (isStartBlock trx);
  enabled ← resMonitoringEnabled;
  (if (enforce : bool) && enabled then prestartTx sender else mret tt) ;;
  run_actions enforce (Z.of_nat (length t)) (claims trx) true (actions trx) ;;
  include (tapos trx) id ;;
  callbacks ← gets (fun w => t_callbacks (w_transact w) !! callback_value onTransaction);
  (match callbacks with Some acts => call_all acts | None => mret tt end) ;;
  (if (enforce : bool) then
     enabled ← resMonitoringEnabled;
     if (enabled : bool) then cpuUsage ← getCpuTime; useCpuSys sender cpuUsage ;; finishTx else mret tt
   else mret tt) ;;
  indexer ← gets (fun w => t_eventIndexer (w_transact w));
  (match indexer with
   | Some service =>
       ei_sync service ;;
       mroot ← ei_saveMerkle service;
       status ← gets (fun w => n_status (w_native w));
       status ← deref status;
       let c := current status in
       modify_native (set_n_status (Some {| chainId := chainId status;
         current := {| blockNum := blockNum c; time := time c; eventMerkleRoot := mroot |};
         head := head status; consensus := consensus status |}))
   | None => mret tt
   end) ;;
  modify_statics (set_trxData None) ;;
  modify_statics (set_trxSender None).

Definition execTrx (sender : AccountNumber) (trx : bytes) (speculative : bool) : act unit :=
  data ← gets (fun w => trxData (w_statics w));
  require (match data with None => true | Some _ => false end) "Cannot reenter execTrx" ;;
  require ((sender =? 0) || (sender =? rtransact_service)) "Wrong sender" ;;
  processTransactionImpl trx speculative.

Definition processTransaction (trx : bytes) : act unit := processTransactionImpl trx false.

(** [nextTransaction] forwards the action it was called with to [r-transact]. *)
Definition nextTransaction (a : Action) : act bytes :=
  call {| act_sender := act_service a; act_service := rtransact_service;
          act_method := method_to_number (str "next"); act_rawData := act_rawData a |}.

End actions.

End Transact.
