(* ===== verification/Replay.v ===== *)
(** * psibase: transactions execute at most once

    [Transact] records the id and the expiration of each transaction it has
    executed, and forgets a record only once the transaction has expired.  This
    file shows that, along any run of a chain, no transaction executes twice. *)

From S2P Require Import Prelude Names Services AuthAny Accounts Transact.
Import Transact.

(** The time of the current block, as [getStatus] reports it to [Transact]. *)
Definition now (w : world) : option Z :=
  match w_status_cache w !! transact_service with
  | Some status => (fun s => time (current s)) <$> status
  | None => (fun s => time (current s)) <$> n_status (w_native w)
  end.

Definition included (w : world) : gset (Z * Checksum256) := t_included (w_transact w).

Definition expired (e : Z * Checksum256) (t : option Z) : Prop :=
  match t with Some t => usec e.1 <= t | None => False end.

(** A computation that keeps the time of the block and forgets only expired
    transactions. *)
Definition keeps {A} (m : act A) : Prop := forall w r w',
  m w = Ok (r, w') -> now w' = now w /\ forall e, e ∈ included w -> e ∈ included w' \/ expired e (now w).

Section keeps.
Context {A B : Type}.
Implicit Types (m : act A).

Lemma keeps_bind m (f : A -> act B) : keeps m -> (forall a, keeps (f a)) -> keeps (m ≫= f).
Proof.
  intros Hm Hf w r w' (a & w1 & E1 & E2)%act_bind_ok.
  destruct (Hm _ _ _ E1) as [N1 I1]. destruct (Hf a _ _ _ E2) as [N2 I2].
  split; [congruence|]. intros e [He|He]%I1; [|by right]. destruct (I2 e He); [by left|right; congruence].
Qed.

Lemma keeps_fmap m (f : A -> B) : keeps m -> keeps (f <$> m).
Proof.
  intros Hm w r w' E. cbv [fmap act_fmap] in E. destruct (m w) as [[a w1]|] eqn:E1; [|done].
  injection E as _ <-. by eapply Hm.
Qed.

(** A computation that writes neither the records nor the status. *)
Lemma keeps_frame m :
  (forall w r w', m w = Ok (r, w') -> included w' = included w /\ now w' = now w) -> keeps m.
Proof. intros H w r w' E. destruct (H _ _ _ E) as [-> ->]. auto. Qed.

Lemma keeps_ret (a : A) : keeps (mret a : act A).
Proof. apply keeps_frame. intros w r w' E. by act_inv. Qed.
Lemma keeps_gets (f : world -> A) : keeps (gets f).
Proof. apply keeps_frame. intros w r w' E. by act_inv. Qed.
Lemma keeps_abort msg : keeps (abortMessage msg : act A).
Proof. intros w r w' E. discriminate E. Qed.
Lemma keeps_deref (o : option A) : keeps (deref o).
Proof. destruct o; [apply keeps_ret | intros w r w' E; discriminate E]. Qed.
End keeps.

Lemma keeps_require b msg : keeps (require b msg).
Proof. apply keeps_frame. intros w r w' E. by act_inv. Qed.
Lemma keeps_modify f :
  (forall w, included (f w) = included w /\ now (f w) = now w) -> keeps (modify f).
Proof. intros H. apply keeps_frame. intros w r w' E. act_inv. apply H. Qed.
Lemma keeps_statics f : keeps (modify_statics f).
Proof. by apply keeps_modify. Qed.

Lemma keeps_getOptionalStatus self : keeps (getOptionalStatus self).
Proof.
  apply keeps_frame. unfold getOptionalStatus. intros w r w' E.
  destruct (w_status_cache w !! self) eqn:Ec; injection E as _ <-; [done|]. split; [done|].
  unfold now. cbn. destruct (decide (self = transact_service)) as [->|Hne].
  - by rewrite lookup_insert_eq, Ec.
  - by rewrite lookup_insert_ne.
Qed.

Create HintDb keeps.
#[export] Hint Resolve keeps_bind keeps_fmap keeps_ret keeps_gets keeps_abort keeps_deref keeps_require
  keeps_statics keeps_getOptionalStatus : keeps.

(** Prove [keeps] of a computation by its structure. *)
Ltac keeps_step :=
  first
    [ progress intros
    | match goal with
      | |- keeps (mbind _ _) => apply keeps_bind
      | |- keeps (if ?b then _ else _) => destruct b
      | |- keeps (match ?o with _ => _ end) => destruct o
      | |- keeps (let _ := _ in _) => cbv zeta
      | |- keeps (modify_transact _) => apply keeps_modify; intros ?; by split
      | |- keeps (modify_native _) => apply keeps_modify; intros ?; by split
      end
    | solve [eauto 3 with keeps] ].
Ltac keeps_tac := repeat keeps_step.

Lemma keeps_getStatus self : keeps (getStatus self).
Proof. unfold getStatus. keeps_tac. Qed.
Lemma keeps_getBlockSummary : keeps getBlockSummary.
Proof. unfold getBlockSummary. keeps_tac. Qed.
Lemma keeps_resMonitoring : keeps resMonitoringEnabled.
Proof. unfold resMonitoringEnabled. keeps_tac. Qed.
Lemma keeps_getAuthOf a : keeps (Accounts.getAuthOf a).
Proof. unfold Accounts.getAuthOf, Accounts.getAccount. keeps_tac. Qed.
#[export] Hint Resolve keeps_getStatus keeps_getBlockSummary keeps_resMonitoring keeps_getAuthOf : keeps.

Lemma keeps_checkRefBlock tp stat s : keeps (checkRefBlock tp stat s).
Proof. unfold checkRefBlock. keeps_tac. Qed.
#[export] Hint Resolve keeps_checkRefBlock : keeps.

Lemma keeps_checkTapos id tp spec start : keeps (checkTapos id tp spec start).
Proof. unfold checkTapos. keeps_tac. Qed.

Lemma keeps_include tp id : keeps (include tp id).
Proof.
  intros w r w' E. unfold include, modify_transact in E. act_inv. split; [done|]. intros e He. left. unfold included in *. cbn. set_solver.
Qed.
#[export] Hint Resolve keeps_checkTapos keeps_include : keeps.

(** ** The services a transaction reaches

    A service writes only its own tables, native code does not change the time
    of a block while the block runs, and the actions of [Transact] that write
    the records are [execTrx], which cannot be entered while a transaction runs,
    and [startBlock], which [keeps_startBlock] covers. *)
Class Keeping {D : AuthDispatch} {VS : VirtualServer} {EI : EventIndexer} {Env : Environment} : Prop := {
  keeps_auth svc flags requester sender action allowed claims :
    keeps (checkAuthSys (auth_service svc) flags requester sender action allowed claims);
  keeps_useNet user n : keeps (useNetSys user n);
  keeps_useCpu user n : keeps (useCpuSys user n);
  keeps_finishTx : keeps finishTx;
  keeps_notifyBlock n : keeps (notifyBlock n);
  keeps_prestartTx a : keeps (prestartTx a);
  keeps_setBillable a : keeps (setBillableAcc a);
  keeps_ei_start s : keeps (ei_startBlock s);
  keeps_ei_sync s : keeps (ei_sync s);
  keeps_ei_save s : keeps (ei_saveMerkle s);
  keeps_call a : keeps (call a);
  keeps_cpu : keeps getCpuTime;
}.
#[export] Hint Resolve keeps_auth keeps_useNet keeps_useCpu keeps_finishTx keeps_notifyBlock keeps_prestartTx
  keeps_setBillable keeps_ei_start keeps_ei_sync keeps_ei_save keeps_call keeps_cpu : keeps.

Section chain.
Context {D : AuthDispatch} {VS : VirtualServer} {EI : EventIndexer} {Env : Environment} {K : Keeping}.

Lemma keeps_checkAuth a cs first ro : keeps (checkAuth a cs first ro).
Proof. unfold checkAuth. keeps_tac. Qed.
#[local] Hint Resolve keeps_checkAuth : keeps.

Lemma keeps_run_actions enforce size cs first acts : keeps (run_actions enforce size cs first acts).
Proof. revert first. induction acts; cbn [run_actions]; keeps_tac. Qed.

Lemma keeps_call_all acts : keeps (call_all acts).
Proof. induction acts; cbn [call_all]; keeps_tac. Qed.
#[local] Hint Resolve keeps_run_actions keeps_call_all : keeps.

(** [startBlock] removes only records of expired transactions. *)
Lemma remove_expired_keeps n w r w' t :
  now w = Some t -> remove_expired n t w = Ok (r, w') ->
  now w' = now w /\ forall e, e ∈ included w -> e ∈ included w' \/ expired e (now w).
Proof.
  revert w. induction n as [|n IH]; intros w Hn E; cbn [remove_expired] in E; [by act_inv; auto|].
  act_inv; [by auto| |by auto]. unfold modify_transact in *. act_inv. zbool.
  apply IH in E as [N I]; [|done]. split; [done|]. intros e He.
  destruct (decide (e = p)) as [->|Hne].
  - right. rewrite Hn. done.
  - destruct (I e) as [?|?]; [|by left|by right]. clear - He Hne. unfold included in *. cbn. set_solver.
Qed.

Lemma getStatus_now w stat w' : getStatus transact_service w = Ok (stat, w') -> now w' = Some (time (current stat)).
Proof.
  unfold getStatus, getOptionalStatus. intros (o & w1 & E & E2)%act_bind_ok. act_inv. unfold now.
  destruct (_ !! transact_service) eqn:Ec; injection E as -> <-; cbn.
  - by rewrite Ec.
  - by rewrite lookup_insert_eq.
Qed.

(** [keeps] when the block time is known to be [t]. *)
Definition keeps_at {A} (t : Z) (m : act A) : Prop := forall w r w',
  now w = Some t -> m w = Ok (r, w') -> now w' = now w /\ forall e, e ∈ included w -> e ∈ included w' \/ expired e (now w).

Lemma keeps_at_of {A} t (m : act A) : keeps m -> keeps_at t m.
Proof. intros H w r w' _. apply H. Qed.

Lemma keeps_at_bind {A B} t (m : act A) (f : A -> act B) :
  keeps_at t m -> (forall a, keeps_at t (f a)) -> keeps_at t (m ≫= f).
Proof.
  intros Hm Hf w r w' Ht (a & w1 & E1 & E2)%act_bind_ok.
  destruct (Hm _ _ _ Ht E1) as [N1 I1]. destruct (Hf a w1 r w') as [N2 I2]; [congruence|done|].
  split; [congruence|]. intros e [He|He]%I1; [|by right]. destruct (I2 e He); [by left|right; congruence].
Qed.

Lemma keeps_bind_status {A} (f : StatusRow -> act A) :
  (forall stat, keeps_at (time (current stat)) (f stat)) -> keeps (getStatus transact_service ≫= f).
Proof.
  intros Hf w r w' (stat & w1 & E1 & E2)%act_bind_ok.
  destruct (keeps_getStatus _ _ _ _ E1) as [N1 I1]. pose proof (getStatus_now _ _ _ E1) as Hn.
  destruct (Hf stat w1 r w' Hn E2) as [N2 I2].
  split; [congruence|]. intros e [He|He]%I1; [|by right]. destruct (I2 e He); [by left|right; congruence].
Qed.

Lemma keeps_startBlock sender : keeps (startBlock sender).
Proof.
  unfold startBlock, SystemWriteGuard_enter, SystemWriteGuard_exit.
  do 4 (apply keeps_bind; [keeps_tac|intros ?]).
  do 2 (apply keeps_bind; [keeps_tac|intros ?]).
  apply keeps_bind_status. intros stat. apply keeps_at_bind.
  - intros w r w' Ht. apply remove_expired_keeps. done.
  - intros ?. apply keeps_at_of. keeps_tac.
Qed.

(** *** One transaction *)

Lemma keeps_then {A B} (m : act A) (f : A -> act B) w r w' :
  (m ≫= f) w = Ok (r, w') -> keeps m ->
  exists a w1, f a w1 = Ok (r, w') /\ now w1 = now w /\
    (forall e, e ∈ included w -> e ∈ included w1 \/ expired e (now w)).
Proof. intros (a & w1 & E1 & E2)%act_bind_ok Hm. destruct (Hm _ _ _ E1). eauto 6. Qed.

Lemma include_then {A} tp id (f : unit -> act A) w r w' :
  (include tp id ≫= f) w = Ok (r, w') -> (forall u, keeps (f u)) ->
  (expiration tp, id) ∈ included w' \/ expired (expiration tp, id) (now w).
Proof.
  intros (u & w1 & E1 & E2)%act_bind_ok Hf. destruct (Hf u _ _ _ E2) as [_ I].
  unfold include, modify_transact in E1. act_inv. cbn in I. apply I. unfold included. cbn. set_solver.
Qed.

Lemma checkTapos_fresh id tp spec start w b w' :
  checkTapos id tp spec start w = Ok (b, w') -> exists t, now w = Some t /\ t < usec (expiration tp).
Proof.
  unfold checkTapos. intros (stat & w1 & E1 & E)%act_bind_ok.
  pose proof (getStatus_now _ _ _ E1) as Hn. destruct (keeps_getStatus _ _ _ _ E1) as [N _].
  apply act_bind_ok in E as (? & ? & E2 & E). apply act_bind_ok in E as (? & ? & E3 & E).
  clear E. act_inv. zbool. exists (time (current stat)). split; [congruence|done].
Qed.

Lemma keeps_status_update (f : StatusRow -> StatusRow) :
  (forall s, time (current (f s)) = time (current s)) ->
  keeps (status ← gets (fun w => n_status (w_native w)); status ← deref status; modify_native (set_n_status (Some (f status)))).
Proof.
  intros Hf. apply keeps_frame. intros w r w' E. unfold modify_native in E. act_inv. split; [done|].
  unfold now. cbn. destruct (_ !! transact_service); [done|]. cbn.
  match goal with H : n_status _ = Some _ |- _ => rewrite H end. cbn. by rewrite Hf.
Qed.

Ltac keeps_tac' :=
  repeat first [ apply keeps_status_update; intros ?; reflexivity | keeps_step ].

Lemma keeps_processTransactionImpl t spec : keeps (processTransactionImpl t spec).
Proof. unfold processTransactionImpl. keeps_tac'. Qed.

Lemma processTransaction_once t spec w r w' :
  processTransactionImpl t spec w = Ok (r, w') ->
  exists trx time, unpack_transaction t = Some trx /\ now w = Some time /\ now w' = now w /\
    time < usec (expiration (tapos trx)) /\
    ((expiration (tapos trx), sha256 t) ∉ included w) /\ (expiration (tapos trx), sha256 t) ∈ included w' /\
    forall e, e ∈ included w -> e ∈ included w' \/ expired e (now w).
Proof.
  intros E. destruct (keeps_processTransactionImpl _ _ _ _ _ E) as [Nw Iw].
  unfold processTransactionImpl in E. apply act_bind_ok in E as (trx & w1 & Eu & E).
  destruct (unpack_transaction t) as [trx'|]; [|done]. injection Eu as <- <-.
  apply keeps_then in E as (? & w2 & E & N2 & I2); [|keeps_tac].
  apply keeps_then in E as (sender & w3 & E & N3 & I3); [|keeps_tac].
  apply keeps_then in E as (? & w4 & E & N4 & I4); [|keeps_tac].
  apply act_bind_ok in E as (inc & w5 & Ei & E). injection Ei as <- <-.
  apply act_bind_ok in E as (? & w5 & Er & E). apply require_ok in Er as [Hfresh [= -> ->]].
  apply bool_decide_eq_true in Hfresh. fold (included w4) in Hfresh.
  apply act_bind_ok in E as (enforce & w6 & Et & E).
  destruct (checkTapos_fresh _ _ _ _ _ _ _ Et) as (tm & Htm & Hlt). destruct (keeps_checkTapos _ _ _ _ _ _ _ Et) as [N6 I6].
  apply keeps_then in E as (? & w7 & E & N7 & I7); [|keeps_tac].
  apply keeps_then in E as (? & w8 & E & N8 & I8); [|keeps_tac].
  apply keeps_then in E as (? & w9 & E & N9 & I9); [|keeps_tac].
  apply include_then in E as He; [|keeps_tac'].
  assert (Hnow : now w = Some tm) by congruence.
  exists trx', tm. split_and!; [done..| | |done].
  - intros Hin. apply Hfresh. assert (forall e, e ∈ included w -> usec e.1 <= tm \/ e ∈ included w4) as Hk.
    { intros e H. unfold expired in *. destruct (I2 e H) as [H2|H2]; [|left; by rewrite Hnow in H2].
      destruct (I3 e H2) as [H3|H3]; [|left; rewrite N2, Hnow in H3; done].
      destruct (I4 e H3) as [H4|H4]; [|left; rewrite N3, N2, Hnow in H4; done]. by right. }
    destruct (Hk _ Hin) as [Hx|Hx]; [cbn in Hx; lia|done].
  - destruct He as [He|He]; [done|]. replace (now w9) with (Some tm) in He by congruence. cbn in He. lia.
Qed.

(** ** Runs of a chain *)

(** [run w ts]: a chain in state [w] that has executed the packed transactions
    [ts], the latest first.  Between transactions blocks end and begin and
    failed transactions are rolled back: time does not decrease and the records
    stay. *)
Inductive run : world -> list bytes -> Prop :=
| run_start w : run w []
| run_transaction t spec w r w' ts :
    run w ts -> processTransactionImpl t spec w = Ok (r, w') -> run w' (t :: ts)
| run_time w w' ts t t' :
    run w ts -> now w = Some t -> now w' = Some t' -> t <= t' -> included w' = included w -> run w' ts.

(** The record of an executed transaction, or its expiration, blocks it. *)
Definition blocked (w : world) (t : bytes) : Prop :=
  exists trx, unpack_transaction t = Some trx /\
    ((expiration (tapos trx), sha256 t) ∈ included w \/ expired (expiration (tapos trx), sha256 t) (now w)).

Lemma run_blocked w ts : run w ts -> Forall (blocked w) ts /\ NoDup ts.
Proof.
  induction 1 as [w|t spec w r w' ts _ [IHb IHn] E|w w' ts t t' _ [IHb IHn] Hw Hw' Hle Hi].
  - split; constructor.
  - apply processTransaction_once in E as (trx & tm & Eu & Hnow & Hnow' & Hlt & Hnew & Hin & Hkeep). split.
    + constructor; [exists trx; auto|]. eapply Forall_impl; [exact IHb|].
      intros t' (trx' & Eu' & [Hi|Hx]); exists trx'; (split; [done|]); rewrite Hnow'; auto.
    + constructor; [|done]. intros Ht. rewrite Forall_forall in IHb. destruct (IHb t Ht) as (trx' & Eu' & Hb).
      rewrite Eu in Eu'. injection Eu' as <-. destruct Hb as [Hb|Hb]; [done|]. rewrite Hnow in Hb. cbn in Hb. lia.
  - split; [|done]. eapply Forall_impl; [exact IHb|]. intros t0 (trx & Eu & Hb). exists trx. split; [done|].
    rewrite Hi, Hw'. destruct Hb as [Hb|Hb]; [by left|right]. rewrite Hw in Hb. cbn in *. lia.
Qed.

(** C1: Along every run of the chain, no packed transaction is executed twice,
    although the service forgets the ids of expired transactions. *)
Theorem no_replay w ts : run w ts -> NoDup ts.
Proof. apply run_blocked. Qed.
End chain.

(** ** Example *)

Module example.
#[local] Instance D : AuthDispatch := fun _ => AuthAny.auth.
#[local] Instance VS : VirtualServer := {|
  useNetSys _ _ := mret tt; useCpuSys _ _ := mret tt; finishTx := mret tt; useDiskSys _ _ _ := mret tt;
  notifyBlock _ := mret tt; prestartTx _ := mret tt; setBillableAcc _ := mret tt |}.
#[local] Instance EI : EventIndexer := {|
  ei_startBlock _ := mret tt; ei_sync _ := mret tt; ei_saveMerkle _ := mret zero_hash |}.

(** A packed transaction of this example is its expiration and the sender of
    its only action. *)
Definition unpack (t : bytes) : option Transaction :=
  match t with
  | [e; sender] => Some {| tapos := {| expiration := e; refBlockSuffix := 0; tapos_flags := 0; refBlockIndex := 0 |};
      actions := [{| act_sender := sender; act_service := 1; act_method := 2; act_rawData := [] |}]; claims := [] |}
  | _ => None
  end.
#[local] Instance Env : Environment := {|
  call _ := mret []; getCpuTime := mret 0; unpack_transaction := unpack; sha256 t := t;
  method_to_number _ := 3 |}.

#[local] Instance K : Keeping.
Proof. constructor; intros; cbn; try apply keeps_ret. Qed.

Definition status (tm : Z) : StatusRow := {|
  chainId := zero_hash; current := {| blockNum := 2; time := tm; eventMerkleRoot := zero_hash |}; head := None;
  consensus := {| current_consensus := {| data := CftConsensus []; services := []; wasmConfig :=
    {| bw_numExecutionMemories := 0; bw_vmOptions := default_VMOptions |} |}; next_consensus := None |} |}.
Definition start : world := set_w_native (set_n_status (Some (status 0)) (w_native empty_world)) empty_world.

Definition exec (t : bytes) (w : world) : world :=
  match processTransactionImpl t false w with Ok (_, w') => w' | Abort _ => w end.
Definition w1 : world := exec [10; 5] start.
Definition w2 : world := exec [10; 6] w1.

Lemma executed : run w2 [[10; 6]; [10; 5]].
Proof.
  apply (run_transaction [10; 6] false w1 tt w2 [[10; 5]]); [|vm_compute; reflexivity].
  apply (run_transaction [10; 5] false start tt w1 []); [apply run_start | vm_compute; reflexivity].
Qed.

Lemma no_replay_witness : NoDup [[10; 6]; [10; 5]] /\ is_ok (processTransactionImpl [10; 5] false w2) = false.
Proof. split; [exact (no_replay w2 [[10; 6]; [10; 5]] executed) | vm_compute; reflexivity]. Defined.
End example.
