(* ===== verification/TransactTheorems.v ===== *)
(** * psibase: theorems about the Transact service

    Resource billing of system writes and of skipped writes, the scope of the
    powers granted by [runAs], and the reference-block check (TAPoS) against
    the history of the chain. *)

From S2P Require Import Prelude Names Services AuthAny Accounts Transact.
Import Transact.

(** ** System writes *)

(** The attribution of a sequence of writes, each [true] if it was charged to
    the system account. *)
Fixpoint charge_all (deltas : list Z) : act (list bool) :=
  match deltas with
  | [] => mret []
  | d :: deltas => b ← chargeSystemWrite d; bs ← charge_all deltas; mret (b :: bs)
  end.

(** The bytes by which the writes charged to the system account grew the
    database. *)
Fixpoint system_charged (deltas : list Z) (bs : list bool) : Z :=
  match deltas, bs with
  | d :: deltas, b :: bs => (if b : bool then Z.max 0 d else 0) + system_charged deltas bs
  | _, _ => 0
  end.

Definition budget (w : world) : Z := systemWriteBudget (w_statics w).

Lemma chargeSystemWrite_spec d w b w' :
  chargeSystemWrite d w = Ok (b, w') -> 0 <= budget w < 2 ^ 64 -> d < 2 ^ 63 ->
  0 <= budget w' < 2 ^ 64 /\ (if b : bool then Z.max 0 d else 0) + budget w' <= budget w /\
  (b = false -> budget w' = 0).
Proof.
  unfold chargeSystemWrite, modify_statics. intros E Hb Hd. fold (budget w) in *. unfold budget in *. act_inv; zbool; cbn; try lia.
  all: rewrite (wrap_small 64 d) in * by (change (2 ^ 64) with (2 * 2 ^ 63); lia).
  rewrite wrap_small by lia. lia.
Qed.

Lemma charge_all_exhausted deltas bs w w' :
  charge_all deltas w = Ok (bs, w') -> budget w = 0 -> Forall (fun b => b = false) bs.
Proof.
  revert bs w. induction deltas as [|d deltas IH]; intros bs w E Hb; cbn in E; [by act_inv|].
  unfold chargeSystemWrite, gets in E. cbv [mbind act_bind] in E. unfold budget in Hb. rewrite Hb in E. cbn in E.
  cbv [mret act_ret] in E. destruct (charge_all deltas w) as [[bs' w1]|] eqn:E1; [|done]. injection E as <- <-.
  constructor; [done|]. by eapply IH.
Qed.

(** However many writes happen, the system account pays for at most the budget,
    and once a write has been charged to the transaction's sender all later ones
    are. *)
Theorem system_write_bound deltas bs w w' :
  charge_all deltas w = Ok (bs, w') -> 0 <= budget w < 2 ^ 64 -> Forall (fun d => d < 2 ^ 63) deltas ->
  system_charged deltas bs + budget w' <= budget w /\
  (forall i j, (i <= j)%nat -> bs !! i = Some false -> bs !! j = Some true -> False).
Proof.
  revert bs w. induction deltas as [|d deltas IH]; intros bs w E Hb Hd; cbn in E.
  { act_inv. split; [cbn; lia|]. intros i j _ H. by rewrite lookup_nil in H. }
  act_inv. inversion_clear Hd as [|? ? Hd1 Hd2].
  match goal with H : chargeSystemWrite _ _ = Ok (?b, _), H' : charge_all _ _ = Ok (?l, _) |- _ =>
    destruct (chargeSystemWrite_spec _ _ _ _ H Hb Hd1) as (Hb' & Hle & Hz); pose proof (charge_all_exhausted _ _ _ _ H') as Hex;
    destruct (IH _ _ H' Hb' Hd2) as [IH1 IH2]; rename b into c end.
  split; [cbn; lia|]. intros [|i] [|j] Hij Hi Hj; cbn in Hi, Hj; [congruence| |lia|by eapply (IH2 i j); [lia|..]].
  injection Hi as ->. rewrite Forall_forall in Hex. apply list_elem_of_lookup_2 in Hj.
  by specialize (Hex (Hz eq_refl) _ Hj).
Qed.

Lemma system_write_bound_witness :
  let w := set_w_statics (set_systemWriteBudget 100 (w_statics empty_world)) empty_world in
  exists bs w', charge_all [60; -5; 50; 1] w = Ok (bs, w') /\ bs = [true; true; false; false] /\
    system_charged [60; -5; 50; 1] bs + budget w' <= budget w.
Proof.
  intros w. eexists _, _. split; [vm_compute; reflexivity|]. split; [reflexivity|].
  refine (proj1 (system_write_bound [60; -5; 50; 1] _ w _ _ _ _)).
  - vm_compute. reflexivity.
  - vm_compute. split; congruence.
  - repeat constructor; vm_compute; reflexivity.
Defined.

(** ** Skipped writes *)

Record kv_write := { kw_service : AccountNumber; kw_db : Z; kw_keyLen : Z; kw_old : Z; kw_new : Z }.

(** The native notifications of a sequence of writes. *)
Fixpoint notify_all `{VirtualServer} (ws : list kv_write) : act unit :=
  match ws with
  | [] => mret tt
  | k :: ws => kvNotify 0 (kw_service k) (kw_db k) (kw_keyLen k) (kw_old k) (kw_new k) ;; notify_all ws
  end.

(** A write inserts, replaces or removes: not both lengths are absent. *)
Definition valid_write (k : kv_write) : Prop := ~ (kw_old k = DNE /\ kw_new k = DNE).

Definition privileged (w : world) (svc : AccountNumber) : Prop :=
  exists c, n_code (w_native w) !! svc = Some c /\ Z.land (code_flags c) isPrivileged <> 0.

Definition with_skip (s : option Z) (w : world) : world := set_w_statics (set_skipDiskWrites s (w_statics w)) w.

Lemma with_skip_id w : with_skip (skipDiskWrites (w_statics w)) w = w.
Proof. by destruct w as [? ? ? ? ? ? ? [] ?]. Qed.

Section skip.
Context {VS : VirtualServer}.

Lemma checkPrivilegedSender_ok svc w : privileged w svc -> checkPrivilegedSender svc w = Ok (tt, w).
Proof.
  intros (c & Ec & Hc). unfold checkPrivilegedSender, gets, require. cbv [mbind act_bind]. rewrite Ec.
  by rewrite (proj2 (Z.eqb_neq _ _) Hc).
Qed.

Lemma kvNotify_skip k n w :
  t_resMonitoring (w_transact w) = Some true -> valid_write k ->
  kvNotify 0 (kw_service k) (kw_db k) (kw_keyLen k) (kw_old k) (kw_new k) (with_skip (Some n) w) =
  if 0 <? n then Ok (tt, with_skip (Some (u32 (n - 1))) w)
  else Abort "more writes occurred than promised by skipBilling".
Proof.
  intros Hr Hv. unfold kvNotify, resMonitoringEnabled, gets, require. cbv [mbind act_bind mret act_ret].
  cbn [Z.eqb]. destruct ((kw_old k =? DNE) && (kw_new k =? DNE)) eqn:E.
  { exfalso. apply Hv. zbool. done. }
  cbn -[Z.ltb wrap]. rewrite Hr. cbn -[Z.ltb wrap]. by destruct (0 <? n).
Qed.

Lemma notify_all_skip ws n w :
  t_resMonitoring (w_transact w) = Some true -> Forall valid_write ws -> 0 <= n < 2 ^ 32 ->
  notify_all ws (with_skip (Some n) w) =
  if Z.of_nat (length ws) <=? n then Ok (tt, with_skip (Some (n - Z.of_nat (length ws))) w)
  else Abort "more writes occurred than promised by skipBilling".
Proof.
  intros Hr Hv. revert n. induction Hv as [|k ws Hk Hv IH]; intros n Hn; cbn [notify_all].
  - replace (Z.of_nat (length [])) with 0 by done. rewrite Z.sub_0_r. by rewrite (proj2 (Z.leb_le 0 n)) by lia.
  - cbv [mbind act_bind]. rewrite kvNotify_skip by done. cbn [length]. destruct (Z.ltb_spec 0 n).
    + rewrite wrap_small, IH by lia. replace (n - 1 - Z.of_nat (length ws)) with (n - Z.of_nat (S (length ws))) by lia.
      destruct (Z.leb_spec (Z.of_nat (length ws)) (n - 1)), (Z.leb_spec (Z.of_nat (S (length ws))) n); done || lia.
    + by rewrite (proj2 (Z.leb_gt _ _)) by lia.
Qed.

(** While resources are monitored, a privileged service that brackets its
    writes with [skipBilling(n)] and [endSkipBilling()] must perform exactly [n]
    writes: with [n] writes the bracket succeeds, bills nobody and leaves no
    trace, with more or fewer it aborts. *)
Theorem skipBilling_exact svc n ws w :
  t_resMonitoring (w_transact w) = Some true -> privileged w svc -> skipDiskWrites (w_statics w) = None ->
  0 <= n < 2 ^ 32 -> Forall valid_write ws ->
  if Z.of_nat (length ws) =? n
  then (skipBilling svc n ;; notify_all ws ;; endSkipBilling svc) w = Ok (tt, w)
  else is_ok ((skipBilling svc n ;; notify_all ws ;; endSkipBilling svc) w) = false.
Proof.
  intros Hr Hp Hs Hn Hv.
  assert (E1 : skipBilling svc n w = Ok (tt, with_skip (Some n) w)).
  { unfold skipBilling, gets, require. cbv [mbind act_bind]. rewrite checkPrivilegedSender_ok by done. by rewrite Hs. }
  cbv [mbind act_bind]. rewrite E1, notify_all_skip by done.
  unfold endSkipBilling, gets, require. cbv [mbind act_bind].
  destruct (Z.leb_spec (Z.of_nat (length ws)) n); [|by rewrite (proj2 (Z.eqb_neq _ _)) by lia].
  rewrite checkPrivilegedSender_ok by done. cbn.
  destruct (Z.eqb_spec (n - Z.of_nat (length ws)) 0), (Z.eqb_spec (Z.of_nat (length ws)) n); try lia; [|done].
  cbn. f_equal. f_equal. rewrite <- (with_skip_id w) at 2. by rewrite Hs.
Qed.
End skip.

(** A chain where [producers] is privileged and resources are monitored. *)
Definition monitored_world : world :=
  set_w_transact (set_t_resMonitoring (Some true) (w_transact empty_world))
    (set_w_native (set_n_code (<[producers_service :=
       {| codeNum := producers_service; code_flags := isPrivileged; codeHash := zero_hash; vmType := 0; vmVersion := 0 |}]> ∅)
       (w_native empty_world)) empty_world).
Definition null_VirtualServer : VirtualServer := {|
  useNetSys _ _ := mret tt; useCpuSys _ _ := mret tt; finishTx := mret tt; useDiskSys _ _ _ := mret tt;
  notifyBlock _ := mret tt; prestartTx _ := mret tt; setBillableAcc _ := mret tt |}.

Lemma skipBilling_exact_witness :
  let k := {| kw_service := 1; kw_db := 0; kw_keyLen := 3; kw_old := 10; kw_new := 20 |} in
  (skipBilling producers_service 1 ;; notify_all (H := null_VirtualServer) [k] ;; endSkipBilling producers_service) monitored_world
    = Ok (tt, monitored_world) /\
  is_ok ((skipBilling producers_service 1 ;; notify_all (H := null_VirtualServer) [k; k] ;; endSkipBilling producers_service) monitored_world)
    = false.
Proof.
  cbv zeta. set (k := {| kw_service := 1; kw_db := 0; kw_keyLen := 3; kw_old := 10; kw_new := 20 |}).
  assert (Hp : privileged monitored_world producers_service) by (eexists; split; [vm_compute; reflexivity | vm_compute; congruence]).
  assert (Hk : valid_write k) by (intros [? _]; vm_compute in *; congruence). split.
  - exact (skipBilling_exact (VS := null_VirtualServer) producers_service 1 [k] monitored_world eq_refl Hp eq_refl
      ltac:(vm_compute; split; congruence) ltac:(repeat constructor; exact Hk)).
  - exact (skipBilling_exact (VS := null_VirtualServer) producers_service 1 [k; k] monitored_world eq_refl Hp eq_refl
      ltac:(vm_compute; split; congruence) ltac:(repeat constructor; exact Hk)).
Defined.

(** ** The powers granted by runAs *)

(** The request [b], made while [action] runs, is covered by the allowed action
    [a]; a zero service or method is a wildcard. *)
Definition covers (a : ServiceMethod) (b : Action) : Prop :=
  (sm_service a = 0 \/ sm_service a = act_service b) /\ (sm_method a = 0 \/ sm_method a = act_method b).

Definition count_of (m : gmap RunAsKey Z) (k : RunAsKey) : Z := default 0 (m !! k).

(** A key of [runAsMap] that covers the request. *)
Definition key_covers (k : RunAsKey) (b : Action) (requester : AccountNumber) : Prop :=
  let '(s, r, svc, meth) := k in
  s = act_sender b /\ r = requester /\ (svc = 0 \/ svc = act_service b) /\ (meth = 0 \/ meth = act_method b).

Lemma runAs_matches_spec m b requester :
  runAs_matches m b requester = true <-> exists k, count_of m k <> 0 /\ key_covers k b requester.
Proof.
  unfold runAs_matches, count_of. rewrite existsb_exists. split.
  - intros ([[[[s r] svc] meth] c] & Hin & Hc). apply list_elem_of_In, elem_of_map_to_list in Hin.
    exists (s, r, svc, meth). rewrite Hin. cbn.
    repeat (apply andb_true_iff in Hc as [Hc ?]). zbool. rewrite !Z.eqb_eq in *. tauto.
  - intros ([[[s r] svc] meth] & Hc & Hk). destruct (m !! (s, r, svc, meth)) as [c|] eqn:E; [|done].
    exists ((s, r, svc, meth), c). split; [by apply list_elem_of_In, elem_of_map_to_list|].
    cbn in *. destruct Hk as (-> & -> & H1 & H2). rewrite !Z.eqb_refl, (proj2 (Z.eqb_neq c 0) Hc). cbn.
    destruct H1 as [->| ->], H2 as [->| ->]; rewrite ?Z.eqb_refl, ?orb_true_r; done.
Qed.

Lemma adjust_runAs_count d action allowed m k :
  (forall k, 0 <= count_of m k < 2 ^ 32) ->
  count_of (adjust_runAs d action allowed m) k =
  u32 (count_of m k + d * Z.of_nat (length (filter (fun a => runAs_key action a = k) allowed))).
Proof.
  unfold adjust_runAs. revert m. induction allowed as [|a allowed IH]; intros m Hm; cbn [foldl].
  - rewrite filter_nil. cbn [length]. rewrite Z.mul_0_r, Z.add_0_r, wrap_small; auto.
  - rewrite IH.
    + rewrite filter_cons. unfold count_of at 1. destruct (decide (runAs_key action a = k)) as [<-|Hne].
      * rewrite lookup_insert_eq. cbn [default length id]. unfold wrap. rewrite Zplus_mod_idemp_l. f_equal. unfold count_of. lia.
      * by rewrite lookup_insert_ne.
    + intros k'. unfold count_of. destruct (decide (runAs_key action a = k')) as [<-|Hne].
      * rewrite lookup_insert_eq. cbn. apply wrap_range. lia.
      * rewrite lookup_insert_ne by done. apply Hm.
Qed.

(** While the action passed to [runAs] executes, its service may act for the
    sender exactly as before and, in addition, exactly for the allowed actions:
    no other service and no other sender is affected. *)
Theorem runAs_grants action allowed m b requester :
  (forall k, 0 <= count_of m k /\ count_of m k + Z.of_nat (length allowed) < 2 ^ 32) ->
  runAs_matches (adjust_runAs 1 action allowed m) b requester = true <->
  runAs_matches m b requester = true \/
  (requester = act_service action /\ act_sender b = act_sender action /\ exists a, a ∈ allowed /\ covers a b).
Proof.
  intros Hm. assert (Hc : forall k, count_of (adjust_runAs 1 action allowed m) k =
    count_of m k + Z.of_nat (length (filter (fun a => runAs_key action a = k) allowed))).
  { intros k. rewrite adjust_runAs_count, Z.mul_1_l; [|intros k'; specialize (Hm k'); lia].
    apply wrap_small. specialize (Hm k). pose proof (length_filter (fun a => runAs_key action a = k) allowed). lia. }
  rewrite !runAs_matches_spec. setoid_rewrite Hc. split.
  - intros (k & Hk & Hcov). destruct (decide (count_of m k = 0)) as [E|]; [|left; eauto]. right.
    destruct (filter (fun a => runAs_key action a = k) allowed) as [|a l] eqn:El; [cbn in Hk; lia|].
    assert (Ha : a ∈ filter (fun a => runAs_key action a = k) allowed) by (rewrite El; left).
    apply list_elem_of_filter in Ha as [<- Ha]. unfold runAs_key in Hcov. cbn in Hcov.
    destruct Hcov as (Hs & -> & H1 & H2). split; [done|]. split; [done|]. exists a. done.
  - intros [(k & Hk & Hcov)|(-> & Hs & a & Ha & Hcov)].
    + exists k. split; [|done]. specialize (Hm k). lia.
    + exists (runAs_key action a). split; [|by unfold runAs_key; cbn; rewrite Hs; destruct Hcov].
      assert (Hf : a ∈ filter (fun a' => runAs_key action a' = runAs_key action a) allowed) by (by apply list_elem_of_filter).
      specialize (Hm (runAs_key action a)). destruct (filter _ allowed); [by apply not_elem_of_nil in Hf|]. cbn. lia.
Qed.

Lemma runAs_grants_witness :
  let action := {| act_sender := 10; act_service := 20; act_method := 1; act_rawData := [] |} in
  let b := {| act_sender := 10; act_service := 30; act_method := 7; act_rawData := [] |} in
  runAs_matches (adjust_runAs 1 action [{| sm_service := 30; sm_method := 0 |}] ∅) b 20 = true.
Proof.
  cbv zeta. refine (proj2 (runAs_grants {| act_sender := 10; act_service := 20; act_method := 1; act_rawData := [] |}
    [{| sm_service := 30; sm_method := 0 |}] ∅ {| act_sender := 10; act_service := 30; act_method := 7; act_rawData := [] |} 20 _) _).
  - intros k. unfold count_of. rewrite lookup_empty. vm_compute. split; congruence.
  - right. split; [reflexivity|]. split; [reflexivity|]. exists {| sm_service := 30; sm_method := 0 |}.
    split; [left|]. split; [by right | by left].
Defined.

(** ** Reference blocks *)

(** [history chain hd s]: the summary [s] after the block [hd] has become the
    head of a chain whose block [n] has the id [chain n]; the first block of a
    chain has number 2. *)
Inductive history (chain : Z -> Checksum256) : Z -> BlockSummary -> Prop :=
| history_start : history chain 1 empty_summary
| history_block hd s stat h :
    history chain hd s -> head stat = Some h -> blockNum (header h) = hd + 1 -> blockId h = chain (hd + 1) ->
    history chain (hd + 1) (update_summary s (Some stat)).

(** The two families of blocks a summary holds: the 128 most recent ones, and
    the 128 most recent ones whose number is a multiple of 8192. *)
Definition summary_ok (chain : Z -> Checksum256) (hd : Z) (l : list Z) : Prop :=
  length l = 256%nat /\
  (forall n, 2 <= n <= hd -> hd - n < 128 -> l !! Z.to_nat (n mod 128) = Some (block_suffix (chain n))) /\
  (forall m, 1 <= m <= hd / 8192 -> hd / 8192 - m < 128 ->
     l !! Z.to_nat (128 + m mod 128) = Some (block_suffix (chain (8192 * m)))).

Lemma high_slot a : 0 <= a -> u8 (Z.lor a 0x80) = 128 + a mod 128.
Proof.
  intros Ha. unfold wrap. rewrite <- Z.land_ones, Z.land_lor_distr_l by lia.
  rewrite !Z.land_ones by lia. change (128 mod 2 ^ 8) with 128. change (2 ^ 8) with 256.
  replace (a mod 128) with ((a mod 256) mod 128) by mlia.
  pose proof (Z.mod_pos_bound a 256 ltac:(lia)). generalize dependent (a mod 256). intros x Hx.
  assert (H : forallb (fun n => Z.lor (Z.of_nat n) 128 =? 128 + Z.of_nat n mod 128) (seq 0 256) = true) by (vm_compute; reflexivity).
  rewrite forallb_forall in H. specialize (H (Z.to_nat x)). rewrite Z2Nat.id in H by lia.
  apply Z.eqb_eq, H, in_seq. lia.
Qed.

Lemma low_slot a : 0 <= a -> u8 (Z.land a 0x7f) = a mod 128.
Proof.
  intros Ha. change 0x7f with (2 ^ 7 - 1). rewrite land_ones_mod by lia. apply wrap_small.
  change (2 ^ 7) with 128. change (2 ^ 8) with 256. mlia.
Qed.

Lemma insert_slot (l : list Z) i j v x :
  length l = 256%nat -> 0 <= i < 256 -> 0 <= j -> (i = j -> x = Some v) -> (i <> j -> l !! Z.to_nat j = x) ->
  <[Z.to_nat i := v]> l !! Z.to_nat j = x.
Proof.
  intros Hl Hi Hj Heq Hne. destruct (decide (i = j)) as [->|Hn].
  - rewrite list_lookup_insert_eq by lia. symmetry. auto.
  - rewrite list_lookup_insert_ne by lia. auto.
Qed.

(** One block keeps the summary right. *)
Lemma update_ok chain hd l id num :
  summary_ok chain hd l -> 1 <= hd -> num = hd + 1 -> id = chain num ->
  summary_ok chain num
    (let l := update_suffix l (Z.land num 0x7f) id in
     if Z.land num 0x1fff =? 0 then update_suffix l (Z.lor (Z.shiftr num 13) 0x80) id else l).
Proof.
  intros (Hl & Hlow & Hhigh) Hhd -> ->. cbv zeta. unfold update_suffix.
  rewrite Z.shiftr_div_pow2, low_slot by lia. change (2 ^ 13) with 8192.
  rewrite high_slot by (apply Z.div_pos; lia).
  change 0x1fff with (2 ^ 13 - 1). rewrite land_ones_mod by lia. change (2 ^ 13) with 8192.
  set (l1 := <[_ := _]> l).
  assert (H1 : length l1 = 256%nat) by (unfold l1; by rewrite length_insert).
  assert (Hlow1 : forall n, 2 <= n <= hd + 1 -> hd + 1 - n < 128 -> l1 !! Z.to_nat (n mod 128) = Some (block_suffix (chain n))).
  { intros n Hn Hr. apply insert_slot; [done|mlia|mlia| |].
    - intros E. replace n with (hd + 1) by mlia. done.
    - intros E. apply Hlow; [|lia]. assert (n <> hd + 1) by (intros ->; done). lia. }
  assert (Hhigh1 : forall m, 1 <= m <= hd / 8192 -> hd / 8192 - m < 128 ->
                   l1 !! Z.to_nat (128 + m mod 128) = Some (block_suffix (chain (8192 * m)))).
  { intros m Hm Hr. apply insert_slot; [done|mlia|mlia|mlia|]. intros _. by apply Hhigh. }
  destruct (Z.eqb_spec ((hd + 1) mod 8192) 0) as [E|E].
  - split; [by rewrite length_insert|]. split.
    + intros n Hn Hr. apply insert_slot; [done|mlia|mlia|mlia|]. intros _. by apply Hlow1.
    + intros m Hm Hr. assert (Ed : (hd + 1) / 8192 = hd / 8192 + 1) by mlia.
      apply insert_slot; [done|mlia|mlia| |].
      * intros Em. replace (8192 * m) with (hd + 1) by mlia. done.
      * intros Em. assert (m <> (hd + 1) / 8192) by (intros ->; lia). apply Hhigh1; lia.
  - split; [done|]. assert (Ed : (hd + 1) / 8192 = hd / 8192) by mlia. rewrite Ed. done.
Qed.

Lemma history_ok chain hd s : history chain hd s -> 1 <= hd /\ summary_ok chain hd (blockSuffixes s).
Proof.
  induction 1 as [|hd s stat h _ [Hhd IH] Eh En Ei].
  - split; [lia|]. split; [done|]. split; intros; [lia|]. change (1 / 8192) with 0 in *. lia.
  - split; [lia|]. unfold update_summary. rewrite Eh. cbn [blockSuffixes]. rewrite En. by eapply update_ok.
Qed.

(** The latest number at most [hd] with the residue [i]. *)
Lemma latest_residue hd i :
  0 <= i < 128 -> 2 <= hd -> (i - 2) mod 128 <= hd - 2 ->
  exists n, 2 <= n <= hd /\ hd - n < 128 /\ n mod 128 = i.
Proof.
  intros Hi Hhd Ho. exists (hd - (hd - i) mod 128). assert (0 <= (hd - i) mod 128 < 128) by mlia.
  assert ((hd - (hd - i) mod 128) mod 128 = i) by mlia. split; [|split; [lia|done]]. split; [|lia]. mlia.
Qed.

(** C17: A reference accepted by [checkRefBlock] names a block of this chain: the
    block number has the referenced residue, the suffix is that of the block's
    id, and the block is among the 128 most recent blocks or, for an index with
    the high bit and a head of at least 16384, among the 128 most recent multiples
    of 8192.  Below 16384 an index with the high bit is not checked: a slot that no
    block has written is accepted with suffix 0 ([tapos_phantom_reference]). *)
Theorem tapos_sound chain hd s stat h tp w r w' :
  history chain hd s -> head stat = Some h -> blockNum (header h) = hd -> 2 <= hd < 2 ^ 32 ->
  0 <= refBlockIndex tp < 256 -> checkRefBlock tp stat s w = Ok (r, w') ->
  if refBlockIndex tp <? 128 then
    exists n, 2 <= n <= hd /\ hd - n < 128 /\ n mod 128 = refBlockIndex tp /\
      refBlockSuffix tp = block_suffix (chain n)
  else
    16384 <= hd ->
    exists m, 2 <= m <= hd / 8192 /\ hd / 8192 - m < 128 /\ m mod 128 = refBlockIndex tp - 128 /\
      refBlockSuffix tp = block_suffix (chain (8192 * m)).
Proof.
  intros (_ & Hlen & Hlow & Hhigh)%history_ok Eh En Hhd Hi E. unfold checkRefBlock in E. rewrite Eh in E. cbn [deref] in E.
  apply act_bind_ok in E as (? & ? & E1 & E). cbv [mret act_ret] in E1. injection E1 as <- <-. rewrite En in E.
  set (off := Z.land (refBlockIndex tp - 2) 0x7f) in E. apply act_bind_ok in E as (? & w1 & E1 & E2).
  apply require_ok in E2 as [E2 _]. zbool.
  assert (Hoff : off = (refBlockIndex tp - 2) mod 128)
    by (unfold off; change 0x7f with (2 ^ 7 - 1); by rewrite land_ones_mod by lia).
  assert (Hbit : Z.land (refBlockIndex tp) 0x80 = 0 <-> refBlockIndex tp < 128).
  { assert (H : forallb (fun n => Bool.eqb (Z.land (Z.of_nat n) 128 =? 0) (Z.of_nat n <? 128)) (seq 0 256) = true) by (vm_compute; reflexivity).
    rewrite forallb_forall in H. specialize (H (Z.to_nat (refBlockIndex tp)) ltac:(apply in_seq; lia)).
    rewrite Z2Nat.id in H by lia. apply Bool.eqb_prop in H. rewrite <- Z.eqb_eq, <- Z.ltb_lt. by rewrite H. }
  destruct (Z.ltb_spec (refBlockIndex tp) 128) as [Hlo|Hge].
  - rewrite (proj2 (Z.eqb_eq _ _) (proj2 Hbit Hlo)) in E1. cbn [negb] in E1. apply require_ok in E1 as [E1 _]. zbool.
    rewrite wrap_small in E1 by lia.
    destruct (latest_residue hd (refBlockIndex tp)) as (n & Hn & Hr & Hmod); [lia..|].
    exists n. split_and!; [lia..|]. specialize (Hlow n Hn Hr). rewrite Hmod in Hlow.
    by rewrite E2, (nth_lookup_Some _ _ _ _ Hlow).
  - intros Hbig. rewrite (proj2 (Z.eqb_neq _ _)) in E1 by (rewrite Hbit; lia). cbn [negb] in E1.
    apply require_ok in E1 as [E1 _]. zbool. rewrite Z.shiftr_div_pow2 in E1 by lia. change (2 ^ 13) with 8192 in E1.
    assert (2 <= hd / 8192) by mlia. assert (hd / 8192 < 2 ^ 32) by mlia. rewrite wrap_small in E1 by lia.
    destruct (latest_residue (hd / 8192) (refBlockIndex tp - 128)) as (m & Hm & Hr & Hmod); [lia..|mlia|].
    exists m. split_and!; [lia..|]. specialize (Hhigh m ltac:(lia) Hr). rewrite Hmod in Hhigh.
    replace (128 + (refBlockIndex tp - 128)) with (refBlockIndex tp) in Hhigh by lia.
    by rewrite E2, (nth_lookup_Some _ _ _ _ Hhigh).
Qed.

(** A chain with blocks 2 and 3. *)
Definition example_chain (n : Z) : Checksum256 := replicate 28 0 ++ [n; 1; 2; 3].
Definition example_status (n : Z) : StatusRow := {|
  chainId := zero_hash; current := {| blockNum := n + 1; time := 0; eventMerkleRoot := zero_hash |};
  head := Some {| header := {| blockNum := n; time := 0; eventMerkleRoot := zero_hash |}; blockId := example_chain n |};
  consensus := {| current_consensus := {| data := CftConsensus []; services := []; wasmConfig :=
    {| bw_numExecutionMemories := 0; bw_vmOptions := default_VMOptions |} |}; next_consensus := None |} |}.
Definition example_summary : BlockSummary :=
  update_summary (update_summary empty_summary (Some (example_status 2))) (Some (example_status 3)).

Lemma example_history : history example_chain 3 example_summary.
Proof.
  refine (history_block example_chain 2 _ (example_status 3) _ _ eq_refl eq_refl eq_refl).
  refine (history_block example_chain 1 _ (example_status 2) _ _ eq_refl eq_refl eq_refl).
  apply history_start.
Qed.

Lemma tapos_sound_witness :
  let tp := {| expiration := 0; refBlockSuffix := 50462978; tapos_flags := 0; refBlockIndex := 2 |} in
  exists n, 2 <= n <= 3 /\ 3 - n < 128 /\ n mod 128 = 2 /\ 50462978 = block_suffix (example_chain n).
Proof.
  intros tp. refine (tapos_sound example_chain 3 example_summary (example_status 3) _ tp empty_world tt empty_world
    example_history eq_refl eq_refl _ _ _); vm_compute; intuition congruence.
Defined.

(** Below block 16384 the bound for indices with the high bit wraps around: a
    reference to a slot that no block has written is accepted with suffix 0. *)
Lemma tapos_phantom_reference tp stat h s w :
  head stat = Some h -> 2 <= blockNum (header h) < 16384 -> 128 <= refBlockIndex tp < 256 ->
  refBlockSuffix tp = 0 -> nth (Z.to_nat (refBlockIndex tp)) (blockSuffixes s) 0 = 0 ->
  checkRefBlock tp stat s w = Ok (tt, w).
Proof.
  intros Eh Hn Hi Hs Hz. unfold checkRefBlock. rewrite Eh. cbn [deref]. cbv [mbind act_bind mret act_ret].
  assert (Hoff : Z.land (refBlockIndex tp - 2) 0x7f < 128)
    by (change 0x7f with (2 ^ 7 - 1); rewrite land_ones_mod by lia; change (2 ^ 7) with 128; mlia).
  assert (Hsh : Z.shiftr (blockNum (header h)) 13 = 0 \/ Z.shiftr (blockNum (header h)) 13 = 1)
    by (rewrite Z.shiftr_div_pow2 by lia; change (2 ^ 13) with 8192; mlia).
  assert (Hw : Z.land (refBlockIndex tp - 2) 0x7f <= u32 (Z.shiftr (blockNum (header h)) 13 - 2))
    by (destruct Hsh as [-> | ->]; [change (u32 (0 - 2)) with 4294967294 | change (u32 (1 - 2)) with 4294967295]; lia).
  rewrite Hs, Hz, Z.eqb_refl. apply Z.leb_le in Hw. rewrite Hw.
  destruct (Z.land (refBlockIndex tp) 128 =? 0) eqn:E; [|done]. exfalso. zbool.
  assert (H : forallb (fun n => (Z.of_nat n <? 128) || negb (Z.land (Z.of_nat n) 128 =? 0)) (seq 0 256) = true) by (vm_compute; reflexivity).
  rewrite forallb_forall in H. specialize (H (Z.to_nat (refBlockIndex tp)) ltac:(apply in_seq; lia)).
  rewrite Z2Nat.id in H by lia. rewrite E in H. apply orb_true_iff in H as [H|H]; zbool; [lia|done].
Qed.

(** *** The restoration of powers after runAs *)

Section runAs.
Context {D : AuthDispatch} {Env : Environment}.

(** Actions leave the granted powers as they found them, as [runAs] itself does. *)
Definition restores {A} (m : act A) : Prop := forall w r w', m w = Ok (r, w') ->
  forall k, count_of (runAsMap (w_statics w')) k = count_of (runAsMap (w_statics w)) k.

Definition counts_ok (w : world) : Prop := forall k, 0 <= count_of (runAsMap (w_statics w)) k < 2 ^ 32.

(** Granting and revoking the same actions leaves every count as it was. *)
Lemma adjust_inverse action allowed m m' k :
  (forall k, 0 <= count_of m k < 2 ^ 32) ->
  (forall k, count_of m' k = count_of (adjust_runAs 1 action allowed m) k) ->
  count_of (adjust_runAs (-1) action allowed m') k = count_of m k.
Proof.
  intros Hm Hm'. rewrite adjust_runAs_count.
  - rewrite Hm', adjust_runAs_count, Z.mul_1_l by done. unfold wrap. rewrite Zplus_mod_idemp_l.
    set (n := Z.of_nat _). replace (count_of m k + n + -1 * n) with (count_of m k) by lia. apply Z.mod_small, Hm.
  - intros k'. rewrite Hm', adjust_runAs_count by done. apply wrap_range. lia.
Qed.

(** Once [runAs] returns, the powers it granted are gone: every count of
    [runAsMap] is what it was before the call. *)
Theorem runAs_restores requester action allowed w r w' :
  (forall svc flags, restores (checkAuthSys (auth_service svc) flags requester (act_sender action)
     {| sm_service := act_service action; sm_method := act_method action |} allowed [])) ->
  restores (call action) -> counts_ok w -> runAs requester action allowed w = Ok (r, w') ->
  forall k, count_of (runAsMap (w_statics w')) k = count_of (runAsMap (w_statics w)) k.
Proof.
  intros Hauth Hcall Hok E. unfold runAs in E. apply act_bind_ok in E as (? & w0 & E0 & E). injection E0 as <- <-.
  apply act_bind_ok in E as (? & w1 & E1 & E).
  assert (H1 : forall k, count_of (runAsMap (w_statics w1)) k = count_of (runAsMap (w_statics w)) k).
  { unfold Accounts.getAuthOf, Accounts.getAccount in E1. act_inv; try done.
    match goal with H : checkAuthSys _ _ _ _ _ _ _ _ = _ |- _ => apply Hauth in H; done end. }
  intros k. clear E1. unfold modify_statics in E. act_inv.
  match goal with H : call _ _ = _ |- _ => apply Hcall in H as H2; cbn in H2 end.
  cbn. rewrite <- H1. apply adjust_inverse; [|exact H2]. intros k'. rewrite H1. apply Hok.
Qed.
End runAs.

Definition null_Environment : Environment := {|
  call _ := mret []; getCpuTime := mret 0; unpack_transaction _ := None; sha256 t := t; method_to_number _ := 0 |}.

Lemma runAs_restores_witness :
  let action := {| act_sender := 10; act_service := 20; act_method := 1; act_rawData := [] |} in
  let allowed := [{| sm_service := 30; sm_method := 0 |}] in
  exists r w', runAs (D := fun _ => AuthAny.auth) (Env := null_Environment) 5 action allowed empty_world = Ok (r, w') /\
    forall k, count_of (runAsMap (w_statics w')) k = count_of (runAsMap (w_statics empty_world)) k.
Proof.
  cbv zeta. set (action := {| act_sender := 10; act_service := 20; act_method := 1; act_rawData := [] |}).
  set (allowed := [{| sm_service := 30; sm_method := 0 |}]). eexists _, _. split; [reflexivity|].
  refine (runAs_restores (D := fun _ => AuthAny.auth) (Env := null_Environment) 5 action allowed empty_world _ _ _ _ _ eq_refl).
  - intros svc flags w r w' [= <- <-] k. reflexivity.
  - intros w r w' [= <- <-] k. reflexivity.
  - intros k. unfold count_of. cbn. rewrite lookup_empty. vm_compute. split; congruence.
Defined.
