(* ===== verification/Producers.v ===== *)
(** * psibase: the Producers service

    [src/packages/system/Producers/src/Producers.cpp]: the block producers, the
    thresholds of their votes, and the auth service of the accounts
    [prods-weak] and [prods-strong].  A write of the native status row runs
    [Transact::kvNotify]; the service brackets it with
    [skipBilling]/[endSkipBilling], so the notification is part of the model
    here.  The packed sizes it reports are a parameter ([row_sizes]). *)

From S2P Require Import Prelude Names Services AuthAny Accounts AuthServices Transact TransactTheorems.

Module Producers.

Definition DEFAULT_MAX_PRODS : Z := 13.

(** ** Claims *)

(** The order of [std::tie(service, rawData)]: [char] is signed. *)
Definition compare_claim (a b : Claim) : comparison :=
  then_compare (claim_service a ?= claim_service b)
    (lex_compare (map (to_signed 8) (claim_rawData a)) (map (to_signed 8) (claim_rawData b))).
Definition claim_lt (a b : Claim) : bool := match compare_claim a b with Lt => true | _ => false end.
Definition claim_le (a b : Claim) : Prop := compare_claim a b <> Gt.
#[export] Instance claim_le_dec a b : Decision (claim_le a b).
Proof. unfold claim_le. apply _. Defined.

(** [std::ranges::lower_bound]: the search among [len] elements from [first]. *)
Fixpoint lower_bound_loop (fuel : nat) (l : list Claim) (value : Claim) (first len : nat) : nat :=
  match fuel with
  | O => first
  | S fuel =>
      if (len =? 0)%nat then first
      else
        let half := (len / 2)%nat in
        let mid := (first + half)%nat in
        if claim_lt (nth mid l no_claim) value
        then lower_bound_loop fuel l value (mid + 1) (len - half - 1)
        else lower_bound_loop fuel l value first half
  end.

(** [std::ranges::binary_search]. *)
Definition binary_search (l : list Claim) (value : Claim) : bool :=
  let first := lower_bound_loop (length l) l value 0 (length l) in
  (first <? length l)%nat && negb (claim_lt value (nth first l no_claim)).

Definition satisfiesClaim (expected : Claim) (claims_sorted : list Claim) : bool :=
  bool_decide (expected = no_claim) || binary_search claims_sorted expected.

(** ** Thresholds *)

Definition getThreshold_cft (producers : list Producer) (account : AccountNumber) : Z :=
  if account =? producerAccountWeak then 1 else Z.of_nat (length producers) / 2 + 1.
Definition getThreshold_bft (producers : list Producer) (account : AccountNumber) : Z :=
  if account =? producerAccountWeak then (Z.of_nat (length producers) + 2) / 3
  else Z.of_nat (length producers) * 2 / 3 + 1.

Definition status_threshold (d : ConsensusData) (account : AccountNumber) : Z :=
  match d with CftConsensus p => getThreshold_cft p account | BftConsensus p => getThreshold_bft p account end.

Definition getCurrentData : act ConsensusData :=
  status ← getStatus producers_service;
  mret (data (current_consensus (consensus status))).

Definition getNrProds : act Z :=
  d ← getCurrentData; mret (Z.of_nat (length (consensus_producers d))).

(** [::getProducers] and [::getNextProducers]. *)
Definition getProducerRows : act (list Producer) :=
  d ← getCurrentData; mret (consensus_producers d).
Definition getNextProducers : act (list Producer) :=
  status ← getStatus producers_service;
  mret (match next_consensus (consensus status) with
        | None => []
        | Some next => consensus_producers (data (pending_consensus next))
        end).

Definition countOverlapping (producers authorizers : list AccountNumber) : Z :=
  Z.of_nat (length (filter (fun p => contains authorizers p = true) producers)).

(** ** Actions *)

(** [std::unique] on a sorted vector. *)
Fixpoint unique (l : list Z) : list Z :=
  match l with
  | [] => []
  | x :: l => match unique l with y :: r => if x =? y then y :: r else x :: y :: r | [] => [x] end
  end.

Fixpoint check_each_service (accounts : list AccountNumber) : act unit :=
  match accounts with
  | [] => mret tt
  | account :: accounts =>
      code ← gets (fun w => n_code (w_native w) !! account);
      code ← (match code with Some c => mret c | None => abortMessage "Unknown service account" end);
      require (negb (Z.land (code_flags code) isVerify =? 0)) "Service account cannot be used for block production" ;;
      check_each_service accounts
  end.

Definition checkVerifyServices (producers : list Producer) : act unit :=
  let accounts := map (fun p => claim_service (prod_auth p)) (filter (fun p => prod_auth p <> no_claim) producers) in
  check_each_service (unique (merge_sort Z.le accounts)).

Definition getMaxProds : act Z :=
  config ← gets (fun w => p_maxProds (w_producers w));
  mret (match config with Some m => m | None => DEFAULT_MAX_PRODS end).

Definition setMaxProds (sender : AccountNumber) (maxProds : Z) : act unit :=
  require (sender =? producers_service) "sender must match service account" ;;
  modify_producers (set_p_maxProds (Some maxProds)).

(** [skipBilling] and [endSkipBilling] of the anonymous namespace. *)
Definition skipBilling : act unit :=
  enabled ← Transact.isResMonitoring;
  if (enabled : bool) then Transact.skipBilling producers_service 1 else mret tt.
Definition endSkipBilling : act unit :=
  enabled ← Transact.isResMonitoring;
  if (enabled : bool) then Transact.endSkipBilling producers_service else mret tt.

(** The producers of a consensus replaced, with its kind kept. *)
Definition with_producers (d : ConsensusData) (prods : list Producer) : ConsensusData :=
  match d with CftConsensus _ => CftConsensus prods | BftConsensus _ => BftConsensus prods end.

Definition set_next (status : StatusRow) (d : ConsensusData) : StatusRow :=
  let cur := current_consensus (consensus status) in
  {| chainId := chainId status; current := current status; head := head status;
     consensus := {| current_consensus := cur;
       next_consensus := Some {|
         pending_consensus := {| data := d; services := services cur; wasmConfig := wasmConfig cur |};
         pending_blockNum := blockNum (current status) |} |} |}.

(** [!next || next->blockNum == current.blockNum]. *)
Definition no_update_pending (status : StatusRow) : bool :=
  match next_consensus (consensus status) with
  | None => true
  | Some next => pending_blockNum next =? blockNum (current status)
  end.

Section actions.
Context {VS : VirtualServer} (row_sizes : StatusRow -> Z * Z).

(** [table.put(status)] on the native status table, which exists already. *)
Definition put_status (status : StatusRow) : act unit :=
  let '(keyLen, len) := row_sizes status in
  old ← gets (fun w => n_status (w_native w));
  modify_native (set_n_status (Some status)) ;;
  Transact.kvNotify 0 producers_service 0 keyLen
    (match old with Some o => (row_sizes o).2 | None => Transact.DNE end) len.

(** The common end of [setConsensus] and [setProducers]. *)
Definition update_next (d : ConsensusData -> ConsensusData) : act unit :=
  status ← gets (fun w => n_status (w_native w));
  status ← (match status with Some s => mret s | None => abortMessage "Missing status row" end);
  require (no_update_pending status) "Consensus update pending" ;;
  skipBilling ;;
  put_status (set_next status (d (data (current_consensus (consensus status))))) ;;
  endSkipBilling.

Definition check_producers (prods : list Producer) : act unit :=
  maxProds ← getMaxProds;
  require (match prods with [] => false | _ => true end) "There must be at least one producer" ;;
  require (Z.of_nat (length prods) <=? maxProds) "Maximum producers exceeded" ;;
  checkVerifyServices prods.

Definition setConsensus (sender : AccountNumber) (d : ConsensusData) : act unit :=
  require (sender =? producers_service) "sender must match service account" ;;
  check_producers (consensus_producers d) ;;
  update_next (fun _ => d).

Definition setProducers (sender : AccountNumber) (prods : list Producer) : act unit :=
  require (sender =? producers_service) "sender must match service account" ;;
  check_producers prods ;;
  update_next (fun old => with_producers old prods).
End actions.

Definition regCandidate (sender : AccountNumber) (endpoint : bytes) (claim : Claim) : act unit :=
  modify_producers (fun t => set_p_candidates
    (<[sender := {| cand_account := sender; cand_endpoint := endpoint; cand_claim := claim |}]> (p_candidates t)) t).

Definition unregCand (sender : AccountNumber) : act unit :=
  producers ← getProducerRows;
  require (negb (contains (map prod_name producers) sender)) "Cannot unregister: account is an active producer" ;;
  nextProducers ← getNextProducers;
  require (negb (contains (map prod_name nextProducers) sender))
    "Cannot unregister: account is scheduled to become a producer" ;;
  modify_producers (fun t => set_p_candidates (delete sender (p_candidates t)) t).

Definition getProducers : act (list AccountNumber) :=
  producers ← getProducerRows; mret (map prod_name producers).

Definition getThreshold (account : AccountNumber) : act Z :=
  require ((account =? producerAccountWeak) || (account =? producerAccountStrong)) "Invalid account" ;;
  d ← getCurrentData;
  mret (u32 (status_threshold d account)).

Definition antiThreshold (account : AccountNumber) : act Z :=
  n ← getNrProds;
  t ← getThreshold account;
  mret (u32 (n - t + 1)).

Definition checkAuthSys (flags : Z) (requester sender : AccountNumber) (action : ServiceMethod)
    (allowedActions : list ServiceMethod) (claims : list Claim) : act bool :=
  decided ← AuthSig.check_request_type flags;
  match decided with
  | Some b => mret b
  | None =>
      producers ← getProducerRows;
      let expectedClaims := map prod_auth producers in
      let claims := merge_sort claim_le claims in
      let matching := Z.of_nat (length (filter (fun c => satisfiesClaim c claims = true) expectedClaims)) in
      threshold ← (match expectedClaims with [] => mret 0 | _ => getThreshold sender end);
      mret (threshold <=? matching)
  end.

Definition canAuthUserSys (user : AccountNumber) : act unit :=
  require ((user =? producerAccountStrong) || (user =? producerAccountWeak)) "Can only authorize predefined accounts".

Definition getDlgsSys (sender : AccountNumber) : act (list AccountNumber) := getProducers.

Definition isAuthSys (sender : AccountNumber) (authorizers : list AccountNumber) : act bool :=
  producers ← getProducers;
  threshold ← (match producers with [] => mret 0 | _ => getThreshold sender end);
  mret (threshold <=? countOverlapping producers authorizers).

Definition isRejectSys (sender : AccountNumber) (rejecters : list AccountNumber) : act bool :=
  producers ← getProducers;
  match producers with
  | [] => mret false
  | _ => threshold ← antiThreshold sender;
         mret (threshold <=? countOverlapping producers rejecters)
  end.

Definition auth : AuthInterface := {|
  Services.checkAuthSys := checkAuthSys;
  Services.canAuthUserSys := canAuthUserSys;
  Services.getDlgsSys := getDlgsSys;
  Services.isAuthSys := isAuthSys;
  Services.isRejectSys := isRejectSys;
|}.

(** ** Votes *)

(** The fact that the producers of the chain are [prods], under [d]. *)
Definition has_consensus (w : world) (d : ConsensusData) : Prop :=
  exists s, status_of producers_service w = Some s /\ data (current_consensus (consensus s)) = d.

Definition names (d : ConsensusData) : list AccountNumber := map prod_name (consensus_producers d).

Definition quorum_account (a : AccountNumber) : Prop := a = producerAccountWeak \/ a = producerAccountStrong.

Abbreviation touched := (touch producers_service).

Lemma getCurrentData_eq w d : has_consensus w d -> getCurrentData w = Ok (d, touched w).
Proof. intros (s & E & <-). unfold getCurrentData. cbv [mbind act_bind]. by rewrite (getStatus_eq _ _ _ E). Qed.

Lemma has_consensus_touch w d : has_consensus w d -> has_consensus (touched w) d.
Proof. intros (s & E & <-). exists s. by rewrite status_of_touch. Qed.

Lemma getProducers_eq w d : has_consensus w d -> getProducers w = Ok (names d, touched w).
Proof.
  intros H. unfold getProducers, getProducerRows. cbv [mbind act_bind]. by rewrite (getCurrentData_eq _ _ H).
Qed.

(** The thresholds are below the number of producers plus one. *)
Lemma threshold_bounds d a :
  names d <> [] -> 1 <= status_threshold d a <= Z.of_nat (length (names d)).
Proof.
  unfold names. intros Hne. rewrite length_map.
  assert (1 <= Z.of_nat (length (consensus_producers d))) by (destruct d as [[|]|[|]]; cbn in *; try done; lia).
  destruct d as [p|p]; cbn in *; unfold getThreshold_cft, getThreshold_bft; destruct (_ =? _); mlia.
Qed.

Definition small (d : ConsensusData) : Prop := Z.of_nat (length (names d)) < 2 ^ 31.

Lemma getThreshold_eq w d a :
  has_consensus w d -> small d -> names d <> [] -> quorum_account a ->
  getThreshold a w = Ok (status_threshold d a, touched w).
Proof.
  intros H Hs Hne Ha. unfold getThreshold, require. cbv [mbind act_bind].
  replace ((a =? producerAccountWeak) || (a =? producerAccountStrong)) with true
    by (destruct Ha as [-> | ->]; reflexivity).
  rewrite (getCurrentData_eq _ _ H). cbv [mret act_ret]. rewrite wrap_small; [done|].
  pose proof (threshold_bounds d a Hne). unfold small in Hs. lia.
Qed.

(** What [isAuthSys] and [isRejectSys] compute. *)
Lemma isAuthSys_eq w d a authorizers :
  has_consensus w d -> small d -> quorum_account a ->
  isAuthSys a authorizers w =
  Ok (match names d with [] => true | _ => status_threshold d a <=? countOverlapping (names d) authorizers end, touched w).
Proof.
  intros H Hs Ha. unfold isAuthSys. cbv [mbind act_bind]. rewrite (getProducers_eq _ _ H).
  destruct (names d) eqn:En; [done|].
  rewrite (getThreshold_eq (touched w) d a); [|by apply has_consensus_touch|done|by rewrite En|done].
  by rewrite touch_touch.
Qed.

Lemma isRejectSys_eq w d a rejecters :
  has_consensus w d -> small d -> quorum_account a ->
  isRejectSys a rejecters w =
  Ok (match names d with [] => false
      | _ => Z.of_nat (length (names d)) - status_threshold d a + 1 <=? countOverlapping (names d) rejecters end, touched w).
Proof.
  intros H Hs Ha. unfold isRejectSys, antiThreshold, getNrProds. cbv [mbind act_bind]. rewrite (getProducers_eq _ _ H).
  assert (H' := has_consensus_touch _ _ H).
  destruct (names d) as [|p l] eqn:En; [done|].
  rewrite (getCurrentData_eq _ _ H'). cbv [mret act_ret]. rewrite touch_touch.
  rewrite (getThreshold_eq (touched w) d a); [|done|done|by rewrite En|done]. rewrite touch_touch.
  pose proof (threshold_bounds d a ltac:(by rewrite En)). unfold small in Hs. rewrite En in *.
  rewrite wrap_small.
  - do 3 f_equal. rewrite <- En. unfold names. by rewrite length_map.
  - rewrite <- En in *. unfold names in *. rewrite length_map in *. lia.
Qed.

(** *** Quorums *)

(** Counting the positions of a list that satisfy a test. *)
Abbreviation count f l := (Z.of_nat (length (List.filter f l))).

Lemma count_split {A} (f : A -> bool) l : count f l + count (fun x => negb (f x)) l = Z.of_nat (length l).
Proof. induction l as [|x l IH]; cbn; [done|]. destruct (f x); cbn [negb length]; lia. Qed.

Lemma count_inter {A} (f g : A -> bool) l : count f l + count g l <= Z.of_nat (length l) + count (fun x => f x && g x) l.
Proof. induction l as [|x l IH]; cbn; [done|]. destruct (f x), (g x); cbn [andb length]; lia. Qed.

Lemma count_pos {A} (f : A -> bool) l : 0 < count f l -> exists x, x ∈ l /\ f x = true.
Proof.
  intros H. destruct (List.filter f l) as [|x r] eqn:E; [cbn in H; lia|]. exists x.
  assert (Hx : In x (List.filter f l)) by (rewrite E; left; done). apply filter_In in Hx as [Hx Hf].
  split; [by apply list_elem_of_In|done].
Qed.

Lemma countOverlapping_count ps l : countOverlapping ps l = count (contains l) ps.
Proof.
  unfold countOverlapping. f_equal. induction ps as [|p ps IH]; [done|]. rewrite filter_cons. cbn.
  destruct (contains l p) eqn:E; [rewrite decide_True by done; cbn; lia | by rewrite decide_False by congruence].
Qed.

(** A set of dishonest producers that the consensus tolerates: none for crash
    faults, less than a third of the producers for byzantine faults. *)
Definition tolerated (d : ConsensusData) (bad : AccountNumber -> bool) : Prop :=
  match d with
  | CftConsensus _ => count bad (names d) = 0
  | BftConsensus _ => 3 * count bad (names d) < Z.of_nat (length (names d))
  end.

(** Two authorizations share an honest producer when their thresholds together
    exceed the number of producers by more than the dishonest ones. *)
Lemma shared_honest (ps l1 l2 : list AccountNumber) bad :
  Z.of_nat (length ps) + count bad ps < countOverlapping ps l1 + countOverlapping ps l2 ->
  exists p, p ∈ ps /\ p ∈ l1 /\ p ∈ l2 /\ bad p = false.
Proof.
  rewrite !countOverlapping_count. intros H. pose proof (count_inter (contains l1) (contains l2) ps).
  pose proof (count_inter (fun x => contains l1 x && contains l2 x) (fun x => negb (bad x)) ps).
  pose proof (count_split bad ps).
  destruct (count_pos (fun x => contains l1 x && contains l2 x && negb (bad x)) ps) as (p & Hp & Hf); [lia|].
  exists p. zbool. rewrite !contains_true in *. done.
Qed.

(** C6: What the documentation of the service promises of its two accounts, for
    every set of dishonest producers that the consensus tolerates: whatever
    [prods-weak] authorizes was authorized by an honest producer, and for any
    two authorizations of [prods-strong] there is one honest producer that
    authorized both. *)
Theorem quorums_honest w d bad l1 l2 :
  has_consensus w d -> small d -> names d <> [] -> tolerated d bad ->
  (isAuthSys producerAccountWeak l1 w = Ok (true, touched w) ->
   exists p, p ∈ names d /\ p ∈ l1 /\ bad p = false) /\
  (isAuthSys producerAccountStrong l1 w = Ok (true, touched w) ->
   isAuthSys producerAccountStrong l2 w = Ok (true, touched w) ->
   exists p, p ∈ names d /\ p ∈ l1 /\ p ∈ l2 /\ bad p = false).
Proof.
  intros H Hs Hne Hbad. rewrite (isAuthSys_eq w d producerAccountWeak), !(isAuthSys_eq w d producerAccountStrong)
    by first [done | by left | by right].
  assert (Hn : 1 <= Z.of_nat (length (names d))) by (destruct (names d); [done | cbn [length]; lia]).
  assert (Hlen : length (names d) = length (consensus_producers d)) by apply length_map.
  destruct (names d) as [|p0 ps] eqn:En; [done|]. rewrite <- En in *. split.
  - intros [= E]. zbool. assert (Hc : count bad (names d) < countOverlapping (names d) l1).
    { destruct d as [p|p]; cbn [tolerated status_threshold consensus_producers] in *;
        unfold getThreshold_cft, getThreshold_bft in E; rewrite Z.eqb_refl in E; rewrite Hlen in *; mlia. }
    rewrite countOverlapping_count in Hc. pose proof (count_inter (contains l1) (fun x => negb (bad x)) (names d)).
    pose proof (count_split bad (names d)).
    destruct (count_pos (fun x => contains l1 x && negb (bad x)) (names d)) as (p & Hp & Hf); [lia|].
    exists p. zbool. by rewrite contains_true in *.
  - intros [= E1] [= E2]. zbool. apply shared_honest.
    destruct d as [p|p]; cbn [tolerated status_threshold consensus_producers] in *;
      unfold getThreshold_cft, getThreshold_bft in E1, E2;
      change (producerAccountStrong =? producerAccountWeak) with false in *; cbv iota in E1, E2; rewrite Hlen in *; mlia.
Qed.

(** When every producer has either authorized or rejected and none has done
    both, exactly one of [isAuthSys] and [isRejectSys] holds. *)
Theorem votes_decide w d a authorizers rejecters :
  has_consensus w d -> small d -> quorum_account a ->
  (forall p, p ∈ names d -> contains rejecters p = negb (contains authorizers p)) ->
  exists b, isAuthSys a authorizers w = Ok (b, touched w) /\ isRejectSys a rejecters w = Ok (negb b, touched w).
Proof.
  intros H Hs Ha Hv. rewrite (isAuthSys_eq w d), (isRejectSys_eq w d) by done.
  eexists. split; [reflexivity|]. do 2 f_equal. destruct (names d) as [|p0 ps] eqn:En; [done|]. rewrite <- En in *.
  rewrite !countOverlapping_count.
  assert (E : count (contains rejecters) (names d) = count (fun x => negb (contains authorizers x)) (names d)).
  { f_equal. f_equal. apply filter_ext_in. intros p Hp. apply Hv. by apply list_elem_of_In. }
  pose proof (count_split (contains authorizers) (names d)). rewrite E.
  destruct (Z.leb_spec (status_threshold d a) (count (contains authorizers) (names d))); cbn [negb]; lia.
Qed.

(** ** The search among the claims *)

Definition claim_key (c : Claim) : list Z := claim_service c :: map (to_signed 8) (claim_rawData c).

Lemma compare_claim_key a b : compare_claim a b = lex_compare (claim_key a) (claim_key b).
Proof. unfold compare_claim, claim_key. cbn. by destruct (_ ?= _). Qed.

Lemma to_signed_8_inj (a b : bytes) :
  bytes_ok a -> bytes_ok b -> map (to_signed 8) a = map (to_signed 8) b -> a = b.
Proof.
  intros Ha. revert b. induction Ha as [|x a Hx Ha IH]; intros [|y b] Hb; cbn; try done.
  inversion_clear Hb as [|? ? Hy Hb']. intros [= E1 E2]. f_equal; [|by apply IH].
  unfold to_signed, is_byte in *. change (2 ^ (8 - 1)) with 128 in E1. change (2 ^ 8) with 256 in E1.
  destruct (Z.ltb_spec x 128), (Z.ltb_spec y 128); lia.
Qed.

Definition claim_ok (c : Claim) : Prop := bytes_ok (claim_rawData c).

Lemma compare_claim_eq a b : claim_ok a -> claim_ok b -> compare_claim a b = Eq -> a = b.
Proof.
  intros Ha Hb E. rewrite compare_claim_key in E. apply lex_compare_eq in E. injection E as Es Er.
  destruct a, b; cbn in *. f_equal; [done|]. by apply to_signed_8_inj.
Qed.

#[export] Instance claim_le_trans : Transitive claim_le.
Proof. intros a b c. unfold claim_le. rewrite !compare_claim_key. apply lex_compare_le_trans. Qed.
#[export] Instance claim_le_total : Total claim_le.
Proof.
  intros a b. unfold claim_le. rewrite !compare_claim_key, (lex_compare_antisym (claim_key a)).
  destruct (lex_compare _ _); cbn; auto.
Qed.

Lemma claim_lt_spec a b : claim_lt a b = false <-> claim_le b a.
Proof.
  unfold claim_lt, claim_le. rewrite !compare_claim_key, (lex_compare_antisym (claim_key a) (claim_key b)).
  destruct (lex_compare _ _); cbn; split; congruence.
Qed.

Lemma sorted_nth l i j :
  StronglySorted claim_le l -> (i <= j)%nat -> (j < length l)%nat -> claim_le (nth i l no_claim) (nth j l no_claim).
Proof.
  intros Hs. revert i j. induction Hs as [|x l Hs IH Hx]; intros [|i] [|j] Hij Hj; cbn [length nth] in Hj |- *; try lia.
  - unfold claim_le. rewrite compare_claim_key, lex_compare_refl. done.
  - rewrite Forall_forall in Hx. apply Hx, list_elem_of_In, nth_In. lia.
  - apply IH; lia.
Qed.

Lemma lower_bound_spec l v fuel first len :
  StronglySorted claim_le l -> (len <= fuel)%nat -> (first + len <= length l)%nat ->
  (forall i, (i < first)%nat -> claim_lt (nth i l no_claim) v = true) ->
  (forall i, (first + len <= i < length l)%nat -> claim_lt (nth i l no_claim) v = false) ->
  let k := lower_bound_loop fuel l v first len in
  (forall i, (i < k)%nat -> claim_lt (nth i l no_claim) v = true) /\
  (forall i, (k <= i < length l)%nat -> claim_lt (nth i l no_claim) v = false).
Proof.
  intros Hs. revert first len. induction fuel as [|fuel IH]; intros first len Hf Hlen Hlo Hhi; cbn [lower_bound_loop].
  { replace len with 0%nat in * by lia. rewrite Nat.add_0_r in Hhi. auto. }
  destruct (Nat.eqb_spec len 0) as [->|Hne]; [rewrite Nat.add_0_r in Hhi; auto|].
  set (half := (len / 2)%nat). assert (Hhalf : (half < len)%nat) by (apply Nat.div_lt; lia).
  destruct (claim_lt (nth (first + half) l no_claim) v) eqn:E.
  - apply IH; [lia|lia| |intros i Hi; apply Hhi; lia]. intros i Hi.
    destruct (claim_lt (nth i l no_claim) v) eqn:Ei; [done|]. apply claim_lt_spec in Ei.
    pose proof (sorted_nth l i (first + half) Hs ltac:(lia) ltac:(lia)) as Hle.
    assert (claim_lt (nth (first + half) l no_claim) v = false) by (apply claim_lt_spec; by etransitivity). congruence.
  - apply IH; [lia|lia|done|]. intros i Hi. apply claim_lt_spec. apply claim_lt_spec in E.
    etransitivity; [exact E|]. apply sorted_nth; [done|lia|lia].
Qed.

Lemma binary_search_spec l v :
  StronglySorted claim_le l -> Forall claim_ok l -> claim_ok v -> binary_search l v = contains l v.
Proof.
  intros Hs Hl Hv. unfold binary_search. set (k := lower_bound_loop _ _ _ _ _).
  destruct (lower_bound_spec l v (length l) 0 (length l) Hs ltac:(lia) ltac:(lia)) as [Hlo Hhi]; [lia|lia|]. fold k in Hlo, Hhi.
  apply Bool.eq_iff_eq_true. rewrite contains_true. split.
  - intros [Hk Hlt]%andb_true_iff. zbool. specialize (Hhi k ltac:(lia)).
    apply claim_lt_spec in Hhi, Hlt. assert (Hin : In (nth k l no_claim) l) by (by apply nth_In).
    apply list_elem_of_In in Hin. rewrite Forall_forall in Hl. pose proof (Hl _ Hin) as Hok.
    assert (E : compare_claim v (nth k l no_claim) = Eq).
    { unfold claim_le in *. rewrite !compare_claim_key in *. rewrite (lex_compare_antisym (claim_key v)) in Hlt.
      destruct (lex_compare _ _); cbn in *; congruence. }
    apply compare_claim_eq in E; [|done..]. by rewrite E.
  - intros Hin. apply list_elem_of_In in Hin. destruct (In_nth l v no_claim Hin) as (j & Hj & Ej).
    assert (Hkj : (k <= j)%nat).
    { destruct (Nat.lt_ge_cases j k) as [H|H]; [|done]. specialize (Hlo j H). rewrite Ej in Hlo.
      assert (claim_lt v v = false) by (apply claim_lt_spec; unfold claim_le; by rewrite compare_claim_key, lex_compare_refl). congruence. }
    apply andb_true_iff. split; [by apply Nat.ltb_lt; lia|]. apply negb_true_iff, claim_lt_spec. rewrite <- Ej.
    by apply sorted_nth.
Qed.

(** The votes among the claims: a producer without a key always counts. *)
Definition claims_votes (d : ConsensusData) (claims : list Claim) : Z :=
  count (fun p => bool_decide (prod_auth p = no_claim) || contains claims (prod_auth p)) (consensus_producers d).

(** A top-level action of one of the two accounts is authorized exactly when
    the number of producers whose claim is among the claims of the transaction,
    in whatever order they come, reaches the threshold of the account. *)
Theorem checkAuthSys_counts flags requester sender action allowed claims w d :
  has_consensus w d -> small d -> quorum_account sender -> names d <> [] ->
  Forall claim_ok claims -> Forall (fun p => claim_ok (prod_auth p)) (consensus_producers d) ->
  Z.land flags requestMask = topActionReq ->
  checkAuthSys flags requester sender action allowed claims w =
  Ok (status_threshold d sender <=? claims_votes d claims, touched w).
Proof.
  intros H Hs Ha Hne Hc Hp Ht. unfold checkAuthSys, getProducerRows. cbv [mbind act_bind].
  rewrite AuthSig.top_request, (getCurrentData_eq _ _ H) by done. cbv [mret act_ret].
  assert (Hne' : map prod_auth (consensus_producers d) <> []) by (intros E; apply Hne; unfold names; by destruct (consensus_producers d)).
  destruct (map prod_auth (consensus_producers d)) as [|e es] eqn:Em; [done|]. rewrite <- Em. clear Hne'.
  rewrite (getThreshold_eq (touched w) d sender) by (done || by apply has_consensus_touch). rewrite touch_touch. do 4 f_equal.
  set (sorted := merge_sort claim_le claims).
  assert (Hsorted : StronglySorted claim_le sorted) by (apply StronglySorted_merge_sort; apply _).
  assert (Hperm : sorted ≡ₚ claims) by apply merge_sort_Permutation.
  assert (Hok : Forall claim_ok sorted) by (by rewrite Hperm).
  clear Em. unfold claims_votes. f_equal. induction Hp as [|p ps Hpp Hps IH]; [done|]. cbn [map].
  assert (Hsat : satisfiesClaim (prod_auth p) sorted = bool_decide (prod_auth p = no_claim) || contains claims (prod_auth p)).
  { unfold satisfiesClaim. rewrite binary_search_spec by done. f_equal. unfold contains. apply bool_decide_ext. by rewrite Hperm. }
  rewrite filter_cons. cbn [List.filter]. rewrite <- Hsat.
  destruct (satisfiesClaim (prod_auth p) sorted); [rewrite decide_True by done | rewrite decide_False by done]; cbn [length]; [by rewrite IH|done].
Qed.

(** ** Setting the producers *)

Section set_producers.
Context {VS : VirtualServer} (row_sizes : StatusRow -> Z * Z).

(** The bracketed write changes the status row and nothing else. *)
Lemma put_status_ok st w r w' :
  put_status row_sizes st w = Ok (r, w') ->
  exists k, valid_write k /\
    Transact.kvNotify 0 (kw_service k) (kw_db k) (kw_keyLen k) (kw_old k) (kw_new k)
      (set_w_native (set_n_status (Some st) (w_native w)) w) = Ok (r, w').
Proof.
  unfold put_status, modify_native. destruct (row_sizes st) as [kl vl]. intros E.
  apply act_bind_ok in E as (? & ? & Eo & E). unfold gets in Eo. injection Eo as <- <-.
  apply act_bind_ok in E as (? & ? & Em & E). unfold modify in Em. injection Em as _ <-.
  eexists {| kw_service := _; kw_db := _; kw_keyLen := _; kw_old := _; kw_new := _ |}. split; [|exact E].
  intros [Ho Hn]. cbn in Ho, Hn. unfold Transact.kvNotify in E. rewrite Ho, Hn, Z.eqb_refl in E.
  apply act_bind_ok in E as (? & ? & _ & E). apply act_bind_ok in E as (? & ? & E & _). discriminate E.
Qed.

Lemma resMonitoring_eq w :
  Transact.resMonitoringEnabled w = Ok (match t_resMonitoring (w_transact w) with Some b => b | None => false end, w).
Proof. reflexivity. Qed.

Lemma bracketed_put st w r w' :
  (skipBilling ;; put_status row_sizes st ;; endSkipBilling) w = Ok (r, w') -> skipDiskWrites (w_statics w) = None ->
  w' = set_w_native (set_n_status (Some st) (w_native w)) w.
Proof.
  intros E Hs. apply act_bind_ok in E as (? & w1 & E1 & E). apply act_bind_ok in E as (? & w2 & E2 & E3).
  set (w0 := set_w_native (set_n_status (Some st) (w_native w)) w).
  unfold skipBilling, endSkipBilling, Transact.isResMonitoring in E1, E3. cbv [mbind act_bind] in E1, E3.
  rewrite resMonitoring_eq in E1, E3. apply put_status_ok in E2 as (k & Hk & E2).
  destruct (match t_resMonitoring (w_transact w) with Some b => b | None => false end) eqn:En.
  - assert (Hr : t_resMonitoring (w_transact w) = Some true) by (by destruct (t_resMonitoring (w_transact w)) as [[]|]).
    assert (w1 = with_skip (Some 1) w) as ->.
    { unfold Transact.skipBilling, Transact.checkPrivilegedSender, modify_statics in E1. clear E2 E3. by act_inv. }
    change (set_w_native _ (with_skip (Some 1) w)) with (with_skip (Some 1) w0) in E2. rewrite kvNotify_skip in E2 by done.
    cbn [Z.ltb Z.compare] in E2. injection E2 as _ <-. change (t_resMonitoring (w_transact (with_skip _ w0))) with (t_resMonitoring (w_transact w)) in E3.
    rewrite Hr in E3. unfold Transact.endSkipBilling, Transact.checkPrivilegedSender, modify_statics in E3. act_inv.
    transitivity (with_skip (skipDiskWrites (w_statics w0)) w0); [|apply with_skip_id]. change (w_statics w0) with (w_statics w). by rewrite Hs.
  - cbv [mret act_ret] in E1. injection E1 as _ <-. fold w0 in E2.
    assert (w2 = w0) as ->.
    { unfold Transact.kvNotify in E2. do 2 (apply act_bind_ok in E2 as (? & ? & [_ [= _ ->]]%require_ok & E2)).
      cbv [mbind act_bind] in E2. rewrite resMonitoring_eq in E2. change (w_transact w0) with (w_transact w) in E2.
      rewrite En in E2. by act_inv. }
    change (w_transact w0) with (w_transact w) in E3. rewrite En in E3. by act_inv.
Qed.

Lemma unique_elem l x : x ∈ unique l <-> x ∈ l.
Proof.
  induction l as [|y l IH]; [done|]. cbn [unique]. rewrite elem_of_cons, <- IH.
  destruct (unique l) as [|z r]; [by rewrite elem_of_cons|]. destruct (Z.eqb_spec y z) as [->|].
  - rewrite !elem_of_cons. tauto.
  - by rewrite elem_of_cons.
Qed.

(** A service that may verify block signatures. *)
Definition verify_service (w : world) (svc : AccountNumber) : Prop :=
  exists c, n_code (w_native w) !! svc = Some c /\ Z.land (code_flags c) isVerify <> 0.

Lemma check_each_service_ok l w r w' :
  check_each_service l w = Ok (r, w') -> w' = w /\ forall a, a ∈ l -> verify_service w a.
Proof.
  induction l as [|a l IH]; cbn [check_each_service]; intros E; [act_inv; split; [done|]; intros a Ha; by apply not_elem_of_nil in Ha|].
  apply act_bind_ok in E as (c & ? & Ec & E). unfold gets in Ec. injection Ec as <- <-.
  apply act_bind_ok in E as (c & ? & Ec & E). destruct (_ !! a) as [c'|] eqn:Ea; [|done]. injection Ec as <- <-.
  apply act_bind_ok in E as (? & ? & [Hv [= _ ->]]%require_ok & E). apply IH in E as [-> Hl]. split; [done|].
  intros b [->|Hb]%elem_of_cons; [|by apply Hl]. exists c'. zbool. done.
Qed.

Lemma check_producers_ok prods w r w' :
  check_producers prods w = Ok (r, w') ->
  w' = w /\ prods <> [] /\
  Z.of_nat (length prods) <= (match p_maxProds (w_producers w) with Some m => m | None => DEFAULT_MAX_PRODS end) /\
  forall p, p ∈ prods -> prod_auth p <> no_claim -> verify_service w (claim_service (prod_auth p)).
Proof.
  unfold check_producers, getMaxProds, checkVerifyServices. intros E.
  apply act_bind_ok in E as (m & ? & Em & E). cbv [mbind act_bind gets mret act_ret] in Em. injection Em as <- <-.
  apply act_bind_ok in E as (? & ? & [Hne [= _ ->]]%require_ok & E).
  apply act_bind_ok in E as (? & ? & [Hlen [= _ ->]]%require_ok & E). zbool.
  apply check_each_service_ok in E as [-> Hall]. split_and!; [done|by destruct prods|done|].
  intros p Hp Hc. apply Hall, unique_elem. rewrite merge_sort_Permutation.
  apply list_elem_of_In, (in_map (fun p => claim_service (prod_auth p))), list_elem_of_In, list_elem_of_filter. done.
Qed.

(** Only the service itself can schedule producers.  When it does, the list is
    not empty, respects the maximum and names only services that may verify
    block signatures, no earlier update is pending, and the status row gets the
    new producers as the next consensus of the current block, with the kind, the
    services and the configuration of the current one; nothing else changes,
    whether or not resources are monitored. *)
Theorem setProducers_effect sender prods w r w' :
  setProducers row_sizes sender prods w = Ok (r, w') -> skipDiskWrites (w_statics w) = None ->
  sender = producers_service /\ prods <> [] /\
  Z.of_nat (length prods) <= (match p_maxProds (w_producers w) with Some m => m | None => DEFAULT_MAX_PRODS end) /\
  (forall p, p ∈ prods -> prod_auth p <> no_claim -> verify_service w (claim_service (prod_auth p))) /\
  exists s, n_status (w_native w) = Some s /\ no_update_pending s = true /\
    w' = set_w_native (set_n_status (Some (set_next s (with_producers (data (current_consensus (consensus s))) prods))) (w_native w)) w.
Proof.
  unfold setProducers, update_next. intros E Hs. apply act_bind_ok in E as (? & ? & [Hsend [= _ ->]]%require_ok & E). zbool.
  apply act_bind_ok in E as (? & ? & E1 & E). apply check_producers_ok in E1 as (-> & Hne & Hlen & Hv).
  apply act_bind_ok in E as (o & ? & Eo & E). unfold gets in Eo. injection Eo as <- <-.
  apply act_bind_ok in E as (s & ? & Es & E). destruct (n_status (w_native w)) as [s'|] eqn:En; [|done]. injection Es as <- <-.
  apply act_bind_ok in E as (? & ? & [Hp [= _ ->]]%require_ok & E). apply bracketed_put in E; [|done].
  split_and!; [done..|]. exists s'. done.
Qed.
End set_producers.

(** ** Examples *)

Definition prod (n : Z) : Producer := {| prod_name := n; prod_auth := {| claim_service := producers_service; claim_rawData := [n] |} |}.
Definition example_data : ConsensusData := BftConsensus (map prod [1; 2; 3; 4]).
Definition example_row : StatusRow := {|
  chainId := zero_hash; current := {| blockNum := 7; time := 0; eventMerkleRoot := zero_hash |}; head := None;
  consensus := {| current_consensus := {| data := example_data; services := []; wasmConfig :=
    {| bw_numExecutionMemories := 0; bw_vmOptions := default_VMOptions |} |}; next_consensus := None |} |}.
(** Four producers, monitored resources; [producers] may verify blocks. *)
Definition example_world : world :=
  let n := w_native monitored_world in
  set_w_native (set_n_status (Some example_row) (set_n_code (<[producers_service :=
    {| codeNum := producers_service; code_flags := Z.lor isPrivileged isVerify; codeHash := zero_hash; vmType := 0; vmVersion := 0 |}]> ∅) n))
    monitored_world.

Lemma example_consensus : has_consensus example_world example_data.
Proof. by exists example_row. Qed.
Lemma example_small : small example_data.
Proof. vm_compute. reflexivity. Qed.

Lemma quorums_honest_witness :
  exists p, p ∈ names example_data /\ p ∈ [1; 2; 3] /\ p ∈ [2; 3; 4] /\ (p =? 3) = false.
Proof.
  refine (proj2 (quorums_honest example_world example_data (fun p => p =? 3) [1; 2; 3] [2; 3; 4]
    example_consensus example_small _ _) _ _); vm_compute; congruence.
Defined.

Lemma votes_decide_witness :
  exists b, isAuthSys producerAccountStrong [1; 2; 9] example_world = Ok (b, touched example_world) /\
            isRejectSys producerAccountStrong [3; 4; 8] example_world = Ok (negb b, touched example_world).
Proof.
  refine (votes_decide example_world example_data producerAccountStrong [1; 2; 9] [3; 4; 8] example_consensus example_small _ _).
  - right. reflexivity.
  - intros p Hp. assert (H : Forall (fun p => contains [3; 4; 8] p = negb (contains [1; 2; 9] p)) (names example_data)) by (repeat constructor).
    rewrite Forall_forall in H. by apply H.
Defined.

Lemma checkAuthSys_counts_witness :
  let claims := map (fun n => {| claim_service := producers_service; claim_rawData := [n] |}) [4; 200; 1; 3] in
  checkAuthSys topActionReq 0 producerAccountStrong {| sm_service := 0; sm_method := 0 |} [] claims example_world =
  Ok (true, touched example_world).
Proof.
  intros claims. refine (checkAuthSys_counts topActionReq 0 producerAccountStrong {| sm_service := 0; sm_method := 0 |} [] claims
    example_world example_data example_consensus example_small _ _ _ _ _).
  - right. reflexivity.
  - discriminate.
  - repeat constructor; vm_compute; congruence.
  - repeat constructor; vm_compute; congruence.
  - reflexivity.
Defined.

Lemma setProducers_effect_witness :
  let sizes := fun _ : StatusRow => (3, 100) in
  exists w', setProducers (VS := null_VirtualServer) sizes producers_service [prod 9] example_world = Ok (tt, w') /\
    producers_service = producers_service /\ [prod 9] <> [] /\
    Z.of_nat (length [prod 9]) <= 13 /\
    (forall p, p ∈ [prod 9] -> prod_auth p <> no_claim -> verify_service example_world (claim_service (prod_auth p))) /\
    exists s, n_status (w_native example_world) = Some s /\ no_update_pending s = true /\
      w' = set_w_native (set_n_status (Some (set_next s (with_producers (data (current_consensus (consensus s))) [prod 9])))
             (w_native example_world)) example_world.
Proof.
  intros sizes. eexists. split; [vm_compute; reflexivity|].
  refine (setProducers_effect (VS := null_VirtualServer) sizes producers_service [prod 9] example_world tt _ _ eq_refl).
  vm_compute. reflexivity.
Defined.

End Producers.
