(* ===== verification/SetCode.v ===== *)
(** * psibase: the SetCode service

    [src/packages/system/SetCode/src/SetCode.cpp]: the code of services, stored
    once per hash ([CodeByHashTable]) with reference counts, code staged for a
    later installation, and the sequence number of the verify services.

    [CodeRefCountRow] reflects only [codeHash], [vmType] and [vmVersion]: what
    [Table::put] packs and [Table::get] unpacks has no [numRefs], so a row read
    from the table has the default count 0 ([reflected]). *)

From S2P Require Import Prelude Names Services.

Module SetCode.

(** ** Reference counts *)

(** A row after a trip through its packed form. *)
Definition reflected (row : CodeRefCountRow) : CodeRefCountRow :=
  {| ref_codeHash := ref_codeHash row; ref_vmType := ref_vmType row; ref_vmVersion := ref_vmVersion row; numRefs := 0 |}.

Definition ref_key (row : CodeRefCountRow) : code_key := (ref_codeHash row, ref_vmType row, ref_vmVersion row).
Definition put_ref (row : CodeRefCountRow) : act unit :=
  modify_setcode (fun t => set_s_refs (<[ref_key row := reflected row]> (s_refs t)) t).

Definition with_numRefs (row : CodeRefCountRow) (n : Z) : CodeRefCountRow :=
  {| ref_codeHash := ref_codeHash row; ref_vmType := ref_vmType row; ref_vmVersion := ref_vmVersion row; numRefs := n |}.

Definition incrementRefCount (hash : Checksum256) (type version : Z) : act bool :=
  row ← gets (fun w => s_refs (w_setcode w) !! (hash, type, version));
  let count := match row with
               | Some row => row
               | None => {| ref_codeHash := hash; ref_vmType := type; ref_vmVersion := version; numRefs := 0 |}
               end in
  let count := with_numRefs count (u32 (numRefs count + 1)) in
  require (negb (numRefs count =? 0)) "Integer overflow" ;;
  put_ref count ;;
  mret (1 <? numRefs count).

Definition erase_code (k : code_key) : act unit :=
  modify_native (fun n => set_n_codeByHash (delete k (n_codeByHash n)) n).

Definition decrementRefCount (hash : Checksum256) (type version : Z) : act unit :=
  row ← gets (fun w => s_refs (w_setcode w) !! (hash, type, version));
  prevCount ← (match row with Some r => mret r | None => abortMessage "Missing reference count" end);
  let prevCount := with_numRefs prevCount (u32 (numRefs prevCount - 1)) in
  if negb (numRefs prevCount =? 0) then put_ref prevCount
  else
    modify_setcode (fun t => set_s_refs (delete (ref_key prevCount) (s_refs t)) t) ;;
    erase_code (hash, type, version).

Definition incrementVerifySeq (flags : Z) : act unit :=
  if negb (Z.land flags isVerify =? 0) then
    status ← getStatus setcode_service;
    (match next_consensus (consensus status) with
     | Some next => if negb (pending_blockNum next =? blockNum (current status))
                    then abortMessage "Cannot update verify services while a consensus update is pending" else mret tt
     | None => mret tt
     end) ;;
    row ← gets (fun w => s_verifySeq (w_setcode w));
    modify_setcode (set_s_verifySeq (Some (u64 (default 0 row + 1))))
  else mret tt.

(** ** Code rows *)

Definition get_code_row (service : AccountNumber) : act CodeRow :=
  account ← gets (fun w => n_code (w_native w) !! service);
  mret (match account with Some c => c | None => new_code_row service end).
Definition put_code_row (row : CodeRow) : act unit :=
  modify_native (fun n => set_n_code (<[codeNum row := row]> (n_code n)) n).
Definition remove_code_row (row : CodeRow) : act unit :=
  modify_native (fun n => set_n_code (delete (codeNum row) (n_code n)) n).
Definition put_code (k : code_key) (code : bytes) : act unit :=
  modify_native (fun n => set_n_codeByHash (<[k := code]> (n_codeByHash n)) n).

(** [if (codeHash != Checksum256{} || flags) put else remove]. *)
Definition store_code_row (row : CodeRow) : act unit :=
  if bool_decide (codeHash row <> zero_hash) || negb (code_flags row =? 0)
  then put_code_row row else remove_code_row row.

Definition same_code (row : CodeRow) (hash : Checksum256) (type version : Z) : bool :=
  (type =? vmType row) && (version =? vmVersion row) && bool_decide (hash = codeHash row).

Definition with_code (row : CodeRow) (hash : Checksum256) (type version : Z) : CodeRow :=
  {| codeNum := codeNum row; code_flags := code_flags row; codeHash := hash; vmType := type; vmVersion := version |}.
Definition with_flags (row : CodeRow) (flags : Z) : CodeRow :=
  {| codeNum := codeNum row; code_flags := flags; codeHash := codeHash row; vmType := vmType row; vmVersion := vmVersion row |}.

(** ** Actions *)

Fixpoint increment_all (keys : list code_key) : act unit :=
  match keys with
  | [] => mret tt
  | (hash, type, version) :: keys => incrementRefCount hash type version ;; increment_all keys
  end.

Definition code_row_key (row : CodeRow) : code_key := (codeHash row, vmType row, vmVersion row).
Definition staged_key (row : StagedCodeRow) : code_key := (staged_codeHash row, staged_vmType row, staged_vmVersion row).

Definition init : act unit :=
  modify_setcode (set_s_refs ∅) ;;
  codes ← gets (fun w => map (fun '(_, row) => code_row_key row) (map_to_list (n_code (w_native w))));
  increment_all codes ;;
  staged ← gets (fun w => map (fun '(_, row) => staged_key row) (map_to_list (s_staged (w_setcode w))));
  increment_all staged.

(** The parts of the state the service keeps. *)
Abbreviation refs w := (s_refs (w_setcode w)).
Abbreviation staged w := (s_staged (w_setcode w)).
Abbreviation seq w := (default 0 (s_verifySeq (w_setcode w))).
Abbreviation codes w := (n_code (w_native w)).
Abbreviation store w := (n_codeByHash (w_native w)).

Section actions.
Context (sha256 : bytes -> Checksum256).

Definition setCode (sender service : AccountNumber) (type version : Z) (code : bytes) : act unit :=
  require (sender =? service) "sender must match service account" ;;
  require ((type =? 0) && (version =? 0)) "unsupported type or version" ;;
  account ← get_code_row service;
  let hash := match code with [] => zero_hash | _ => sha256 code end in
  if same_code account hash type version then mret tt
  else
    (if bool_decide (codeHash account <> zero_hash)
     then decrementRefCount (codeHash account) (vmType account) (vmVersion account) else mret tt) ;;
    incrementVerifySeq (code_flags account) ;;
    let account := with_code account hash type version in
    store_code_row account ;;
    match code with
    | [] => mret tt
    | _ => shared ← incrementRefCount hash type version;
           if negb shared then put_code (code_row_key account) code else mret tt
    end.

Definition stageCode (sender service : AccountNumber) (id type version : Z) (code : bytes) : act unit :=
  require (match code with [] => false | _ => true end) "Cannot stage empty code" ;;
  require ((type =? 0) && (version =? 0)) "unsupported type or version" ;;
  let hash := sha256 code in
  let row := {| staged_from := sender; staged_service := service; staged_id := id; staged_codeHash := hash;
                staged_vmType := type; staged_vmVersion := version |} in
  existing ← gets (fun w => s_staged (w_setcode w) !! (sender, id, service));
  require (match existing with None => true | Some _ => false end) "staged code id must be unique" ;;
  shared ← incrementRefCount hash type version;
  (if negb shared then put_code (hash, type, version) code else mret tt) ;;
  modify_setcode (fun t => set_s_staged (<[(sender, id, service) := row]> (s_staged t)) t).

Definition unstageCode (sender service : AccountNumber) (id : Z) : act unit :=
  row ← gets (fun w => s_staged (w_setcode w) !! (sender, id, service));
  row ← (match row with Some r => mret r | None => abortMessage "staged code does not exist" end);
  decrementRefCount (staged_codeHash row) (staged_vmType row) (staged_vmVersion row) ;;
  modify_setcode (fun t => set_s_staged (delete (sender, id, service) (s_staged t)) t).

Definition setCodeStaged (sender from : AccountNumber) (id type version : Z) (hash : Checksum256) : act unit :=
  require ((type =? 0) && (version =? 0)) "unsupported type or version" ;;
  staged ← gets (fun w => s_staged (w_setcode w) !! (from, id, sender));
  staged ← (match staged with Some r => mret r | None => abortMessage "staged code does not exist" end);
  require (bool_decide (staged_codeHash staged = hash) && (staged_vmType staged =? type) && (staged_vmVersion staged =? version))
    "staged code does not match" ;;
  modify_setcode (fun t => set_s_staged (delete (from, id, sender) (s_staged t)) t) ;;
  account ← get_code_row sender;
  if same_code account hash type version then mret tt
  else
    (if bool_decide (codeHash account <> zero_hash)
     then decrementRefCount (codeHash account) (vmType account) (vmVersion account) else mret tt) ;;
    incrementVerifySeq (code_flags account) ;;
    put_code_row (with_code account hash type version).

Definition setFlags (sender service : AccountNumber) (flags : Z) : act unit :=
  require (sender =? setcode_service) "incorrect sender" ;;
  account ← get_code_row service;
  incrementVerifySeq (Z.lxor (code_flags account) flags) ;;
  store_code_row (with_flags account flags).

Definition verifySeq : act Z := row ← gets (fun w => s_verifySeq (w_setcode w)); mret (default 0 row).

(** The actions that change the service's tables. *)
Inductive op :=
| Init
| SetCode (service : AccountNumber) (type version : Z) (code : bytes)
| StageCode (service : AccountNumber) (id type version : Z) (code : bytes)
| UnstageCode (service : AccountNumber) (id : Z)
| SetCodeStaged (from : AccountNumber) (id type version : Z) (hash : Checksum256)
| SetFlags (service : AccountNumber) (flags : Z).

Definition run (sender : AccountNumber) (o : op) : act unit :=
  match o with
  | Init => init
  | SetCode service type version code => setCode sender service type version code
  | StageCode service id type version code => stageCode sender service id type version code
  | UnstageCode service id => unstageCode sender service id
  | SetCodeStaged from id type version hash => setCodeStaged sender from id type version hash
  | SetFlags service flags => setFlags sender service flags
  end.

(** ** Availability of code *)

(** Every stored count reads back as 0. *)
Definition refs_zero (m : gmap code_key CodeRefCountRow) : Prop := map_Forall (fun k r => ref_key r = k /\ numRefs r = 0) m.

Definition available (m : gmap code_key bytes) (k : code_key) : Prop :=
  exists code, m !! k = Some code /\ sha256 code = k.1.1.

Definition wf (w : world) : Prop :=
  refs_zero (refs w) /\
  map_Forall (fun svc c => codeNum c = svc /\ (codeHash c <> zero_hash -> available (store w) (code_row_key c))) (codes w) /\
  map_Forall (fun _ r => available (store w) (staged_key r)) (staged w).

Lemma incrementRefCount_ok hash type version w b w' :
  incrementRefCount hash type version w = Ok (b, w') -> refs_zero (refs w) ->
  b = false /\ refs_zero (refs w') /\ w_native w' = w_native w /\ staged w' = staged w /\ seq w' = seq w.
Proof.
  intros E Hz. unfold incrementRefCount, put_ref, modify_setcode in E.
  apply act_bind_ok in E as (row & ? & Er & E). unfold gets in Er. injection Er as <- <-.
  set (count := match refs w !! _ with Some r => r | None => _ end) in E.
  assert (Hc : ref_key count = (hash, type, version) /\ numRefs count = 0).
  { unfold count. destruct (refs w !! (hash, type, version)) as [c|] eqn:El; [exact (Hz _ _ El)|done]. }
  destruct Hc as [Hk Hn]. act_inv. split_and!; try done; cbn.
  - by rewrite Hn.
  - apply map_Forall_insert_2; [done|exact Hz].
Qed.

Lemma decrementRefCount_ok hash type version w r w' :
  decrementRefCount hash type version w = Ok (r, w') -> refs_zero (refs w) ->
  refs_zero (refs w') /\ w_native w' = w_native w /\ staged w' = staged w /\ seq w' = seq w.
Proof.
  intros E Hz. unfold decrementRefCount, put_ref, modify_setcode in E.
  apply act_bind_ok in E as (row & ? & Er & E). unfold gets in Er. injection Er as <- <-.
  apply act_bind_ok in E as (row & ? & Er & E). destruct (refs w !! _) as [row'|] eqn:El; [|done]. injection Er as <- <-.
  apply Hz in El as [Hk Hn]. cbn [with_numRefs numRefs] in E. rewrite Hn in E. change (u32 (0 - 1) =? 0) with false in E. cbn [negb] in E.
  act_inv. split_and!; try done. cbn. apply map_Forall_insert_2; [done|exact Hz].
Qed.

Lemma incrementVerifySeq_ok flags w r w' :
  incrementVerifySeq flags w = Ok (r, w') ->
  w_native w' = w_native w /\ refs w' = refs w /\ staged w' = staged w /\
  seq w' = (if Z.land flags isVerify =? 0 then seq w else u64 (seq w + 1)).
Proof.
  unfold incrementVerifySeq, modify_setcode. destruct (Z.land flags isVerify =? 0); cbn [negb]; intros E; [by act_inv|].
  apply act_bind_ok in E as (st & w1 & Es & E).
  assert (H1 : w_native w1 = w_native w /\ w_setcode w1 = w_setcode w).
  { unfold getStatus in Es. apply act_bind_ok in Es as (o & w2 & Eo & Es). rewrite getOptionalStatus_eq in Eo.
    injection Eo as <- <-. clear E. act_inv. unfold touch. by destruct (_ !! _). }
  destruct H1 as [Hn Hs]. act_inv; cbn; by rewrite ?Hn, ?Hs.
Qed.

(** The row of a service, and the table after a row has been stored. *)
Definition row_of (w : world) (svc : AccountNumber) : CodeRow :=
  match codes w !! svc with Some c => c | None => new_code_row svc end.
Definition stored (row : CodeRow) (m : gmap Z CodeRow) : gmap Z CodeRow :=
  if bool_decide (codeHash row <> zero_hash) || negb (code_flags row =? 0)
  then <[codeNum row := row]> m else delete (codeNum row) m.

Lemma store_code_row_eq row w :
  store_code_row row w = Ok (tt, set_w_native (set_n_code (stored row (codes w)) (w_native w)) w).
Proof. unfold store_code_row, stored. by destruct (_ || _). Qed.

Lemma release_ok (c : CodeRow) w r w' :
  (if bool_decide (codeHash c <> zero_hash)
   then decrementRefCount (codeHash c) (vmType c) (vmVersion c) else mret tt) w = Ok (r, w') -> refs_zero (refs w) ->
  refs_zero (refs w') /\ w_native w' = w_native w /\ staged w' = staged w /\ seq w' = seq w.
Proof. case_bool_decide; intros E Hz; [by eapply decrementRefCount_ok|by act_inv]. Qed.

Lemma get_code_row_eq svc w : get_code_row svc w = Ok (row_of w svc, w).
Proof. reflexivity. Qed.

(** [seq'] has advanced if [flags] has the verify flag. *)
Definition advanced (flags : Z) (s s' : Z) : Prop := s' = (if Z.land flags isVerify =? 0 then s else u64 (s + 1)).

Lemma setCode_ok sender service type version code w r w' :
  setCode sender service type version code w = Ok (r, w') -> refs_zero (refs w) ->
  let hash := match code with [] => zero_hash | _ => sha256 code end in
  let row := row_of w service in
  sender = service /\
  ((same_code row hash type version = true /\ w' = w) \/
   (same_code row hash type version = false /\ refs_zero (refs w') /\ staged w' = staged w /\
    codes w' = stored (with_code row hash type version) (codes w) /\
    store w' = (match code with [] => store w | _ => <[(hash, type, version) := code]> (store w) end) /\
    advanced (code_flags row) (seq w) (seq w'))).
Proof.
  intros E Hz hash row. unfold setCode in E. fold hash in E.
  apply act_bind_ok in E as (? & ? & [Hs [= _ ->]]%require_ok & E). zbool. split; [done|].
  apply act_bind_ok in E as (? & ? & [_ [= _ ->]]%require_ok & E).
  apply act_bind_ok in E as (row' & ? & Er & E). rewrite get_code_row_eq in Er. injection Er as <- <-. fold row in E.
  destruct (same_code row hash type version); [left; by act_inv|right]. split; [done|].
  apply act_bind_ok in E as (? & w1 & E1 & E). apply release_ok in E1 as (Hz1 & Hn1 & Hs1 & Hq1); [|done].
  apply act_bind_ok in E as (? & w2 & E2 & E). apply incrementVerifySeq_ok in E2 as (Hn2 & Hr2 & Hs2 & Hq2).
  apply act_bind_ok in E as (? & w3 & E3 & E). rewrite store_code_row_eq in E3. injection E3 as _ <-. rewrite Hn2, Hn1 in E.
  rewrite <- Hr2 in Hz1. rewrite Hq1 in Hq2. destruct code as [|b code'].
  - act_inv. cbn. rewrite Hs2, Hs1. split_and!; done.
  - apply act_bind_ok in E as (shared & w4 & E4 & E). apply incrementRefCount_ok in E4 as (-> & Hz4 & Hn4 & Hs4 & Hq4); [|done].
    cbn [negb] in E. unfold put_code, modify_native in E. act_inv. cbn. rewrite Hn4, Hs4, Hq4. cbn. rewrite Hs2, Hs1. split_and!; done.
Qed.

Lemma stageCode_ok sender service id type version code w r w' :
  stageCode sender service id type version code w = Ok (r, w') -> refs_zero (refs w) ->
  refs_zero (refs w') /\ codes w' = codes w /\ store w' = <[(sha256 code, type, version) := code]> (store w) /\
  staged w' = <[(sender, id, service) := {| staged_from := sender; staged_service := service; staged_id := id;
    staged_codeHash := sha256 code; staged_vmType := type; staged_vmVersion := version |}]> (staged w) /\
  staged w !! (sender, id, service) = None /\ seq w' = seq w.
Proof.
  intros E Hz. unfold stageCode in E. do 2 (apply act_bind_ok in E as (? & ? & [_ [= _ ->]]%require_ok & E)).
  apply act_bind_ok in E as (ex & ? & Ee & E). unfold gets in Ee. injection Ee as <- <-.
  apply act_bind_ok in E as (? & ? & [Hnew [= _ ->]]%require_ok & E).
  apply act_bind_ok in E as (shared & w1 & E1 & E). apply incrementRefCount_ok in E1 as (-> & Hz1 & Hn1 & Hs1 & Hq1); [|done].
  cbn [negb] in E. unfold put_code, modify_native, modify_setcode in E. act_inv. cbn. rewrite Hn1, Hs1.
  split_and!; try done. by destruct (staged w !! _).
Qed.

Lemma unstageCode_ok sender service id w r w' :
  unstageCode sender service id w = Ok (r, w') -> refs_zero (refs w) ->
  refs_zero (refs w') /\ w_native w' = w_native w /\ staged w' = delete (sender, id, service) (staged w) /\
  is_Some (staged w !! (sender, id, service)) /\ seq w' = seq w.
Proof.
  intros E Hz. unfold unstageCode in E. apply act_bind_ok in E as (ex & ? & Ee & E). unfold gets in Ee. injection Ee as <- <-.
  apply act_bind_ok in E as (row & ? & Er & E). destruct (staged w !! _) as [row'|] eqn:El; [|done]. injection Er as <- <-.
  apply act_bind_ok in E as (? & w1 & E1 & E). apply decrementRefCount_ok in E1 as (Hz1 & Hn1 & Hs1 & Hq1); [|done].
  unfold modify_setcode in E. act_inv. cbn. rewrite Hs1. split_and!; eauto.
Qed.

Lemma setCodeStaged_ok sender from id type version hash w r w' :
  setCodeStaged sender from id type version hash w = Ok (r, w') -> refs_zero (refs w) ->
  let row := row_of w sender in
  exists st, staged w !! (from, id, sender) = Some st /\ staged_key st = (hash, type, version) /\
    refs_zero (refs w') /\ store w' = store w /\ staged w' = delete (from, id, sender) (staged w) /\
    (if same_code row hash type version then codes w' = codes w /\ seq w' = seq w
     else codes w' = <[codeNum row := with_code row hash type version]> (codes w) /\ advanced (code_flags row) (seq w) (seq w')).
Proof.
  intros E Hz row. unfold setCodeStaged in E. apply act_bind_ok in E as (? & ? & [_ [= _ ->]]%require_ok & E).
  apply act_bind_ok in E as (ex & ? & Ee & E). unfold gets in Ee. injection Ee as <- <-.
  apply act_bind_ok in E as (st & ? & Er & E). destruct (staged w !! _) as [st'|] eqn:El; [|done]. injection Er as <- <-.
  apply act_bind_ok in E as (? & ? & [Hm [= _ ->]]%require_ok & E).
  apply act_bind_ok in E as (? & w1 & E1 & E). unfold modify_setcode, modify in E1. injection E1 as _ <-.
  exists st'. split; [done|]. split.
  { zbool. match goal with H : bool_decide _ = true |- _ => apply bool_decide_eq_true in H end. unfold staged_key. congruence. }
  apply act_bind_ok in E as (row' & ? & Er & E). rewrite get_code_row_eq in Er. injection Er as <- <-.
  change (row_of (set_w_setcode _ w) sender) with row in E.
  destruct (same_code row hash type version); [by act_inv|].
  apply act_bind_ok in E as (? & w2 & E2 & E). apply release_ok in E2 as (Hz2 & Hn2 & Hs2 & Hq2); [|done].
  apply act_bind_ok in E as (? & w3 & E3 & E). apply incrementVerifySeq_ok in E3 as (Hn3 & Hr3 & Hs3 & Hq3).
  unfold put_code_row, modify_native in E. act_inv. cbn in *. rewrite Hn3, Hn2, Hs3, Hs2, Hr3. rewrite Hq2 in Hq3. split_and!; done.
Qed.

Lemma setFlags_ok sender service flags w r w' :
  setFlags sender service flags w = Ok (r, w') ->
  let row := row_of w service in
  sender = setcode_service /\ refs w' = refs w /\ staged w' = staged w /\ store w' = store w /\
  codes w' = stored (with_flags row flags) (codes w) /\ advanced (Z.lxor (code_flags row) flags) (seq w) (seq w').
Proof.
  intros E row. unfold setFlags in E. apply act_bind_ok in E as (? & ? & [Hs [= _ ->]]%require_ok & E). zbool.
  apply act_bind_ok in E as (row' & ? & Er & E). rewrite get_code_row_eq in Er. injection Er as <- <-. fold row in E.
  apply act_bind_ok in E as (? & w1 & E1 & E). apply incrementVerifySeq_ok in E1 as (Hn & Hr & Hst & Hq).
  rewrite store_code_row_eq in E. injection E as _ <-. cbn. rewrite Hn. split_and!; done.
Qed.

Lemma increment_all_ok keys w r w' :
  increment_all keys w = Ok (r, w') -> refs_zero (refs w) ->
  refs_zero (refs w') /\ w_native w' = w_native w /\ staged w' = staged w /\ seq w' = seq w.
Proof.
  revert w. induction keys as [|[[h t] v] keys IH]; intros w E Hz; cbn [increment_all] in E; [by act_inv|].
  apply act_bind_ok in E as (b & w1 & E1 & E). apply incrementRefCount_ok in E1 as (_ & Hz1 & Hn1 & Hs1 & Hq1); [|done].
  apply IH in E as (Hz2 & Hn2 & Hs2 & Hq2); [|done]. split_and!; [done|congruence..].
Qed.

Lemma init_ok w r w' :
  init w = Ok (r, w') -> refs_zero (refs w') /\ w_native w' = w_native w /\ staged w' = staged w /\ seq w' = seq w.
Proof.
  unfold init, modify_setcode. intros E. apply act_bind_ok in E as (? & w1 & E1 & E). unfold modify in E1. injection E1 as _ <-.
  apply act_bind_ok in E as (cs & ? & Ec & E). unfold gets in Ec. injection Ec as _ <-.
  apply act_bind_ok in E as (? & w2 & E2 & E). apply increment_all_ok in E2 as (Hz2 & Hn2 & Hs2 & Hq2); [|apply map_Forall_empty].
  apply act_bind_ok in E as (ss & ? & Ec & E). unfold gets in Ec. injection Ec as _ <-.
  apply increment_all_ok in E as (Hz3 & Hn3 & Hs3 & Hq3); [|done]. cbn in *. split_and!; [done|congruence..].
Qed.

Lemma row_of_num w svc : wf w -> codeNum (row_of w svc) = svc.
Proof. intros (_ & Hc & _). unfold row_of. destruct (codes w !! svc) eqn:E; [by apply Hc in E as [? _]|done]. Qed.

Lemma available_insert m k code t v : available m k -> available (<[(sha256 code, t, v) := code]> m) k.
Proof.
  intros (c & E & H). unfold available. destruct (decide ((sha256 code, t, v) = k)) as [<-|Hne].
  - exists code. by rewrite lookup_insert_eq.
  - exists c. by rewrite lookup_insert_ne.
Qed.

Lemma available_new m code t v : available (<[(sha256 code, t, v) := code]> m) (sha256 code, t, v).
Proof. exists code. by rewrite lookup_insert_eq. Qed.

(** A table of rows whose code is available stays one when the store grows and
    one row with available code is stored. *)
Lemma stored_available (m : gmap Z CodeRow) (s s' : gmap code_key bytes) row :
  map_Forall (fun svc c => codeNum c = svc /\ (codeHash c <> zero_hash -> available s (code_row_key c))) m ->
  (forall k, available s k -> available s' k) ->
  (codeHash row <> zero_hash -> available s' (code_row_key row)) ->
  map_Forall (fun svc c => codeNum c = svc /\ (codeHash c <> zero_hash -> available s' (code_row_key c))) (<[codeNum row := row]> m) /\
  map_Forall (fun svc c => codeNum c = svc /\ (codeHash c <> zero_hash -> available s' (code_row_key c))) (stored row m).
Proof.
  intros Hm Hmono Hrow.
  assert (H' : map_Forall (fun svc c => codeNum c = svc /\ (codeHash c <> zero_hash -> available s' (code_row_key c))) m)
    by (eapply map_Forall_impl; [exact Hm|]; cbn; intros ? ? [? ?]; auto).
  assert (Hi : map_Forall (fun svc c => codeNum c = svc /\ (codeHash c <> zero_hash -> available s' (code_row_key c))) (<[codeNum row := row]> m))
    by (by apply map_Forall_insert_2).
  split; [done|]. unfold stored. destruct (_ || _); [done|]. by apply map_Forall_delete.
Qed.

Lemma setcode_run_wf sender o w r w' : run sender o w = Ok (r, w') -> wf w -> wf w'.
Proof.
  intros E Hwf. assert (Hz := proj1 Hwf). destruct (Hwf) as (_ & Hc & Hst). unfold wf.
  destruct o as [|service type version code|service id type version code|service id|from id type version hash|service flags]; cbn [run] in E.
  - apply init_ok in E as (? & -> & -> & _). done.
  - apply setCode_ok in E as [-> [[_ ->]|(_ & Hz' & -> & -> & -> & _)]]; [done| |done]. split; [done|].
    assert (Hmono : forall k, available (store w) k -> available (match code with [] => store w
      | _ => <[(match code with [] => zero_hash | _ => sha256 code end, type, version) := code]> (store w) end) k).
    { intros k Hk. destruct code; [done|]. by apply available_insert. }
    split; [|eapply map_Forall_impl; [exact Hst|]; eauto].
    apply (stored_available _ (store w)); [done|done|]. cbn. intros Hne. destruct code; [done|]. apply available_new.
  - apply stageCode_ok in E as (Hz' & -> & -> & -> & _ & _); [|done]. split; [done|]. split.
    + eapply map_Forall_impl; [exact Hc|]. cbn. intros k c [? Ha]. split; [done|]. intros Hne. by apply available_insert, Ha.
    + apply map_Forall_insert_2; [apply available_new|]. eapply map_Forall_impl; [exact Hst|]. intros. by apply available_insert.
  - apply unstageCode_ok in E as (Hz' & -> & -> & _ & _); [|done]. split; [done|]. split; [done|]. by apply map_Forall_delete.
  - apply setCodeStaged_ok in E as (st & El & Ek & Hz' & -> & -> & E); [|done]. split; [done|].
    split; [|by apply map_Forall_delete]. destruct (same_code _ _ _ _); destruct E as [-> _]; [done|].
    apply (stored_available (codes w) (store w) _ (with_code (row_of w sender) hash type version)); [done|done|].
    intros _. change (code_row_key _) with (hash, type, version). rewrite <- Ek. exact (Hst _ _ El).
  - apply setFlags_ok in E as (_ & -> & -> & -> & -> & _). split; [done|]. split; [|done].
    apply (stored_available _ (store w)); [done|done|]. cbn. intros Hne.
    unfold row_of in *. destruct (codes w !! service) eqn:El; [|done]. by apply (Hc _ _ El).
Qed.

(** The states of a chain: from one where the code installed at genesis is
    available, by the actions of the service and by anything that leaves its
    tables and the code tables alone. *)
Inductive reachable : world -> Prop :=
| reach_start w : wf w -> reachable w
| reach_run sender o w r w' : reachable w -> run sender o w = Ok (r, w') -> reachable w'
| reach_other w w' : reachable w -> codes w' = codes w -> store w' = store w -> w_setcode w' = w_setcode w -> reachable w'.

Lemma setcode_reachable_wf w : reachable w -> wf w.
Proof.
  induction 1 as [|sender o w r w' _ IH E|w w' _ IH E1 E2 E3]; [done|by eapply setcode_run_wf|].
  unfold wf. by rewrite E1, E2, E3.
Qed.

(** C32: In every reachable state the code of each service that has any, and the
    code of each staged installation, is stored under its hash, and the stored
    bytes have that hash. *)
Theorem code_available w :
  reachable w ->
  (forall svc c, codes w !! svc = Some c -> codeHash c <> zero_hash -> available (store w) (code_row_key c)) /\
  (forall k st, staged w !! k = Some st -> available (store w) (staged_key st)).
Proof. intros (_ & Hc & Hs)%setcode_reachable_wf. split; [intros svc c E; by apply (Hc _ _ E) | intros k st; apply Hs]. Qed.

(** No action removes code from the store, not even the removal of its last
    reference: the counts are not kept in the table. *)
Theorem code_never_erased sender o w r w' k code :
  reachable w -> run sender o w = Ok (r, w') -> store w !! k = Some code -> is_Some (store w' !! k).
Proof.
  intros (Hz & _ & _)%setcode_reachable_wf E Ek.
  destruct o as [|service type version cd|service id type version cd|service id|from id type version hash|service flags]; cbn [run] in E.
  - apply init_ok in E as (_ & -> & _). eauto.
  - apply setCode_ok in E as [_ [[_ ->]|(_ & _ & _ & _ & -> & _)]]; [by eauto| |done].
    destruct cd; [by eauto|]. apply lookup_insert_is_Some'. eauto.
  - apply stageCode_ok in E as (_ & _ & -> & _); [|done]. apply lookup_insert_is_Some'. eauto.
  - apply unstageCode_ok in E as (_ & -> & _); [|done]. eauto.
  - apply setCodeStaged_ok in E as (st & _ & _ & _ & -> & _); [|done]. eauto.
  - apply setFlags_ok in E as (_ & _ & _ & -> & _). eauto.
Qed.

(** ** The sequence of verify services *)

Definition view_row (c : CodeRow) : option code_key := if Z.land (code_flags c) isVerify =? 0 then None else Some (code_row_key c).

(** The code of the verify services, which block signatures depend on. *)
Definition verify_view (w : world) (svc : AccountNumber) : option code_key := (codes w !! svc) ≫= view_row.

Lemma verify_view_row w svc : verify_view w svc = view_row (row_of w svc).
Proof. unfold verify_view, row_of. by destruct (codes w !! svc). Qed.

Lemma view_stored row m svc :
  (stored row m !! svc) ≫= view_row = if decide (svc = codeNum row) then view_row row else (m !! svc) ≫= view_row.
Proof.
  unfold stored. destruct (decide (svc = codeNum row)) as [->|Hne].
  - destruct (_ || _) eqn:E; [by rewrite lookup_insert_eq|]. rewrite lookup_delete_eq. zbool.
    unfold view_row. by replace (code_flags row) with 0.
  - by destruct (_ || _); [rewrite lookup_insert_ne | rewrite lookup_delete_ne].
Qed.

Lemma isVerify_bit f : (Z.land f isVerify =? 0) = negb (Z.testbit f 1).
Proof.
  destruct (Z.testbit f 1) eqn:E; cbn [negb].
  - apply Z.eqb_neq. intros H. assert (Hb := Z.land_spec f isVerify 1). rewrite H, E in Hb. discriminate Hb.
  - apply Z.eqb_eq, Z.bits_inj'. intros n Hn. rewrite Z.land_spec, Z.bits_0. unfold isVerify.
    rewrite Z.shiftl_mul_pow2 by lia. change (1 * 2 ^ 1) with (2 ^ 1). rewrite Z.pow2_bits_eqb by lia.
    destruct (Z.eqb_spec 1 n) as [<-|]; [by rewrite E|apply andb_false_r].
Qed.

Lemma same_code_key row hash type version :
  same_code row hash type version = true <-> code_row_key (with_code row hash type version) = code_row_key row.
Proof.
  unfold same_code, code_row_key. cbn. rewrite !andb_true_iff, !Z.eqb_eq, bool_decide_eq_true.
  split; [intros [[-> ->] ->]; done | intros [= -> -> ->]; done].
Qed.

(** What the actions promise about the sequence number. *)
Definition tracks (w w' : world) : Prop :=
  ((exists svc, verify_view w' svc <> verify_view w svc) /\ seq w' = u64 (seq w + 1)) \/
  ((forall svc, verify_view w' svc = verify_view w svc) /\ seq w' = seq w).

Lemma tracks_same w w' : codes w' = codes w -> seq w' = seq w -> tracks w w'.
Proof. intros Hc Hq. right. unfold verify_view. by rewrite Hc. Qed.

(** Replacing the row of one service. *)
Lemma tracks_store w w' svc row f :
  (forall s, verify_view w' s = if decide (s = svc) then view_row row else verify_view w s) ->
  advanced f (seq w) (seq w') -> (Z.land f isVerify = 0 <-> view_row row = view_row (row_of w svc)) ->
  tracks w w'.
Proof.
  intros Hl Ha Hv. unfold advanced in Ha. rewrite <- verify_view_row in Hv.
  destruct (Z.eqb_spec (Z.land f isVerify) 0) as [E0|E0].
  - right. split; [|done]. intros s. rewrite Hl. destruct (decide (s = svc)) as [->|]; [by apply Hv|done].
  - left. split; [|done]. exists svc. rewrite Hl, decide_True by done. by rewrite <- Hv.
Qed.

Lemma view_with_code row hash type version :
  same_code row hash type version = false ->
  (Z.land (code_flags row) isVerify = 0 <-> view_row (with_code row hash type version) = view_row row).
Proof.
  intros Hsame. unfold view_row. cbn [code_flags with_code].
  destruct (Z.eqb_spec (Z.land (code_flags row) isVerify) 0); [by split|].
  split; [done|]. intros Ek%(inj Some). exfalso. apply not_true_iff_false in Hsame. by apply Hsame, same_code_key.
Qed.

Lemma view_with_flags row flags :
  Z.land (Z.lxor (code_flags row) flags) isVerify = 0 <-> view_row (with_flags row flags) = view_row row.
Proof.
  rewrite <- Z.eqb_eq. unfold view_row. cbn [code_flags with_flags]. rewrite !isVerify_bit, Z.lxor_spec.
  change (code_row_key (with_flags row flags)) with (code_row_key row).
  destruct (Z.testbit (code_flags row) 1), (Z.testbit flags 1); cbn; split; congruence.
Qed.

(** The sequence number, which light clients and block headers rely on, advances
    by one in exactly those actions that change the code of a verify service or
    the set of verify services. *)
Theorem verifySeq_tracks sender o w r w' : reachable w -> run sender o w = Ok (r, w') -> tracks w w'.
Proof.
  intros Hwf%setcode_reachable_wf E. assert (Hz := proj1 Hwf).
  destruct o as [|service type version cd|service id type version cd|service id|from id type version hash|service flags]; cbn [run] in E.
  - apply init_ok in E as (_ & Hn & _ & Hq). apply tracks_same; [by rewrite Hn|done].
  - apply setCode_ok in E as [_ [[_ ->]|(Hsame & _ & _ & Hcd & _ & Ha)]]; [by apply tracks_same| |done].
    eapply tracks_store; [|exact Ha|by apply view_with_code].
    intros s. unfold verify_view. rewrite Hcd, view_stored. cbn [codeNum with_code]. by rewrite row_of_num.
  - apply stageCode_ok in E as (_ & Hcd & _ & _ & _ & Hq); [|done]. by apply tracks_same.
  - apply unstageCode_ok in E as (_ & Hn & _ & _ & Hq); [|done]. apply tracks_same; [by rewrite Hn|done].
  - apply setCodeStaged_ok in E as (st & _ & _ & _ & _ & _ & E); [|done].
    destruct (same_code _ _ _ _) eqn:Hsame; destruct E as [Hcd Hq]; [by apply tracks_same|].
    eapply tracks_store; [|exact Hq|by apply view_with_code].
    intros s. unfold verify_view. rewrite Hcd, row_of_num by done.
    destruct (decide (s = sender)) as [->|]; [by rewrite lookup_insert_eq|by rewrite lookup_insert_ne].
  - apply setFlags_ok in E as (_ & _ & _ & _ & Hcd & Ha).
    eapply tracks_store; [|exact Ha|by apply view_with_flags].
    intros s. unfold verify_view. rewrite Hcd, view_stored. cbn [codeNum with_flags]. by rewrite row_of_num.
Qed.

End actions.

(** ** Examples *)

(** The hash of the examples: the length of the code. *)
Definition example_hash (code : bytes) : Checksum256 := [Z.of_nat (length code)].
Definition example_step (sender : AccountNumber) (o : op) (w : world) : world :=
  match run example_hash sender o w with Ok (_, w') => w' | Abort _ => w end.
(** Account 5 installs code and becomes a verify service. *)
Definition example_start : world := set_w_native (set_n_status (Some {|
  chainId := zero_hash; current := {| blockNum := 2; time := 0; eventMerkleRoot := zero_hash |}; head := None;
  consensus := {| current_consensus := {| data := CftConsensus []; services := []; wasmConfig :=
    {| bw_numExecutionMemories := 0; bw_vmOptions := default_VMOptions |} |}; next_consensus := None |} |})
  (w_native empty_world)) empty_world.
Definition example_1 : world := example_step 5 (SetCode 5 0 0 [1; 2]) example_start.
Definition example_2 : world := example_step setcode_service (SetFlags 5 isVerify) example_1.
Definition example_3 : world := example_step 5 (SetCode 5 0 0 [3; 4; 5]) example_2.

Lemma setcode_example_reachable : reachable example_hash example_2.
Proof.
  apply (reach_run _ setcode_service (SetFlags 5 isVerify) example_1 tt); [|vm_compute; reflexivity].
  apply (reach_run _ 5 (SetCode 5 0 0 [1; 2]) example_start tt); [|vm_compute; reflexivity].
  apply reach_start. split_and!; apply map_Forall_empty.
Qed.

Lemma code_available_witness :
  exists c, codes example_2 !! 5 = Some c /\ available example_hash (store example_2) (code_row_key c).
Proof.
  eexists. split; [vm_compute; reflexivity|].
  refine (proj1 (code_available example_hash example_2 setcode_example_reachable) 5 _ _ _); vm_compute; congruence.
Defined.

(** The code [1; 2] is still there after account 5 has replaced it. *)
Lemma code_never_erased_witness :
  is_Some (store example_3 !! ([2], 0, 0)) /\ is_Some (store example_3 !! ([3], 0, 0)).
Proof.
  split; [|vm_compute; eauto].
  refine (code_never_erased example_hash 5 (SetCode 5 0 0 [3; 4; 5]) example_2 tt example_3 ([2], 0, 0) [1; 2]
    setcode_example_reachable _ _); vm_compute; reflexivity.
Defined.

Lemma verifySeq_tracks_witness : seq example_2 = 1 /\ seq example_3 = 2 /\ tracks example_2 example_3.
Proof.
  split; [vm_compute; reflexivity|]. split; [vm_compute; reflexivity|].
  refine (verifySeq_tracks example_hash 5 (SetCode 5 0 0 [3; 4; 5]) example_2 tt example_3 setcode_example_reachable _).
  vm_compute. reflexivity.
Defined.

End SetCode.
