(* ===== verification/System.v ===== *)
(** * psibase: the auth services of a chain, composed

    [to<AuthInterface>(account)] runs the code deployed at the account.  Here
    the four system auth services are composed with the auth services that users
    deploy ([others], a parameter).  AuthDelegate calls the auth service of the
    owner, which may be AuthDelegate again: the nesting depth is bounded by the
    native stack ([NativeFunctions::call] aborts with "stack overflow"), which
    the fuel stands for. *)

From S2P Require Import Prelude Names Services AuthAny Accounts AuthServices Transact TransactTheorems Producers.

Definition stack_overflow : AuthInterface := {|
  checkAuthSys _ _ _ _ _ _ := abortMessage "stack overflow";
  canAuthUserSys _ := abortMessage "stack overflow";
  getDlgsSys _ := abortMessage "stack overflow";
  isAuthSys _ _ := abortMessage "stack overflow";
  isRejectSys _ _ := abortMessage "stack overflow";
|}.

Section dispatch.
Context (others : AccountNumber -> AuthInterface).

Fixpoint auth_dispatch (fuel : nat) (svc : AccountNumber) : AuthInterface :=
  if svc =? auth_any_service then AuthAny.auth
  else if svc =? auth_sig_service then AuthSig.auth
  else if svc =? producers_service then Producers.auth
  else if svc =? auth_delegate_service then
    match fuel with
    | O => stack_overflow
    | S fuel => AuthDelegate.auth (D := auth_dispatch fuel)
    end
  else others svc.

(** ** Chains of owners *)

Definition auth_of (w : world) (a : AccountNumber) : option AccountNumber :=
  authService <$> a_accounts (w_accounts w) !! a.

(** [chain w a p r]: following the owners from [a] visits the accounts [p] and
    ends at [r], the first account that does not use AuthDelegate. *)
Inductive chain (w : world) : AccountNumber -> list AccountNumber -> AccountNumber -> Prop :=
| chain_end a svc : auth_of w a = Some svc -> svc <> auth_delegate_service -> chain w a [] a
| chain_owner a o p r :
    auth_of w a = Some auth_delegate_service -> w_delegate w !! a = Some o -> chain w o p r -> chain w a (o :: p) r.

(** The request as the owner [requester] of an account makes it. *)
Definition as_requester (flags : Z) : Z := Z.lor (Z.land flags (u32 (Z.lnot requestMask))) runAsRequesterReq.

(** The authorization of an action of account [a], by its own auth service. *)
Definition authorize (fuel : nat) (flags : Z) (requester a : AccountNumber) (action : ServiceMethod)
    (allowed : list ServiceMethod) (claims : list Claim) : act bool :=
  svc ← Accounts.getAuthOf a;
  checkAuthSys (auth_dispatch fuel svc) flags requester a action allowed claims.

Lemma getAuthOf_eq w a svc : auth_of w a = Some svc -> Accounts.getAuthOf a w = Ok (svc, w).
Proof.
  unfold auth_of, Accounts.getAuthOf, Accounts.getAccount, gets. cbv [mbind act_bind].
  destruct (_ !! a); [|done]. by intros [= ->].
Qed.

Lemma dispatch_other fuel fuel' svc : svc <> auth_delegate_service -> auth_dispatch fuel svc = auth_dispatch fuel' svc.
Proof.
  intros H. apply Z.eqb_neq in H. destruct fuel, fuel'; cbn; rewrite H; done.
Qed.

Lemma dispatch_delegate fuel : auth_dispatch (S fuel) auth_delegate_service = AuthDelegate.auth (D := auth_dispatch fuel).
Proof. reflexivity. Qed.

(** One step of delegation. *)
Lemma authorize_delegate fuel flags requester a o action allowed claims w :
  auth_of w a = Some auth_delegate_service -> w_delegate w !! a = Some o ->
  authorize (S fuel) flags requester a action allowed claims w =
  authorize fuel (if requester =? o then as_requester flags else flags) requester o action allowed claims w.
Proof.
  intros Ha Ho. unfold authorize at 1. cbv [mbind act_bind]. rewrite (getAuthOf_eq _ _ _ Ha), dispatch_delegate.
  cbn [checkAuthSys AuthDelegate.auth]. unfold AuthDelegate.checkAuthSys, AuthDelegate.getOwner, AuthDelegate.authServiceOf, gets.
  cbv [mbind act_bind]. rewrite Ho. cbv [mret act_ret]. unfold authorize. cbv [mbind act_bind].
  destruct (Accounts.getAuthOf o w) as [[svc w']|]; done.
Qed.

Lemma as_requester_idem flags : as_requester (as_requester flags) = as_requester flags.
Proof.
  unfold as_requester. apply Z.bits_inj'. intros n Hn. rewrite !Z.lor_spec, !Z.land_spec, !Z.lor_spec, !Z.land_spec.
  destruct (Z.testbit flags n), (Z.testbit (u32 (Z.lnot requestMask)) n), (Z.testbit runAsRequesterReq n); done.
Qed.

(** C30: An action of an account that delegates is decided by the auth service of
    the last owner of the chain, asked about that owner; if the requester is one
    of the owners on the way, the request counts as made by the account itself.
    As many nested calls suffice as the chain is long. *)
Theorem delegate_chain w a p r fuel flags requester action allowed claims :
  chain w a p r -> (length p <= fuel)%nat ->
  authorize fuel flags requester a action allowed claims w =
  authorize 0 (if contains p requester then as_requester flags else flags) requester r action allowed claims w.
Proof.
  intros Hc. revert fuel flags. induction Hc as [a svc Ha Hne|a o p r Ha Ho Hc IH]; intros fuel flags Hf.
  - unfold authorize. cbv [mbind act_bind]. rewrite (getAuthOf_eq _ _ _ Ha). by rewrite (dispatch_other fuel 0) by done.
  - cbn in Hf. destruct fuel as [|fuel]; [lia|]. rewrite (authorize_delegate _ _ _ _ _ _ _ _ _ Ha Ho), IH by lia.
    assert (E : contains (o :: p) requester = (requester =? o) || contains p requester).
    { unfold contains. apply Bool.eq_iff_eq_true. rewrite orb_true_iff, !bool_decide_eq_true, elem_of_cons, Z.eqb_eq. done. }
    rewrite E. destruct (requester =? o), (contains p requester); cbn [orb]; by rewrite ?as_requester_idem.
Qed.

(** Accounts that delegate among themselves, whatever the requester is. *)
Lemma circle_overflows w (S : gset AccountNumber) fuel flags requester a action allowed claims :
  (forall x, x ∈ S -> auth_of w x = Some auth_delegate_service /\ exists o, w_delegate w !! x = Some o /\ o ∈ S) ->
  a ∈ S -> authorize fuel flags requester a action allowed claims w = Abort "stack overflow".
Proof.
  intros HS. revert a flags. induction fuel as [|fuel IH]; intros a flags Ha; destruct (HS a Ha) as (Hd & o & Ho & Hin).
  - unfold authorize. cbv [mbind act_bind]. by rewrite (getAuthOf_eq _ _ _ Hd).
  - by rewrite (authorize_delegate _ _ _ _ _ _ _ _ _ Hd Ho), IH.
Qed.

(** What [setOwner] does. *)
Lemma setOwner_spec w x o : auth_of w x = Some auth_delegate_service ->
  if (x =? o) || (match w_delegate w !! o with Some y => y =? x | None => false end) then AuthDelegate.setOwner x o w = Abort "circular ownership"
  else exists w', AuthDelegate.setOwner x o w = Ok (tt, w') /\ w_delegate w' = <[x := o]> (w_delegate w) /\
    forall y, auth_of w y = Some auth_delegate_service -> auth_of w' y = Some auth_delegate_service.
Proof.
  intros Hx. unfold auth_of in Hx. destruct (a_accounts (w_accounts w) !! x) as [row|] eqn:Er; [|done]. injection Hx as Hrow.
  unfold AuthDelegate.setOwner, gets. cbv [mbind act_bind]. destruct (_ || _); [done|]. cbv [mret act_ret].
  unfold Accounts.incAuthSeq, Accounts.getAccount, gets. cbv [mbind act_bind]. rewrite Er, Hrow, Z.eqb_refl. eexists. split; [reflexivity|]. split; [done|].
  intros y Hy. unfold auth_of in *. cbn. destruct (decide (accountNum row = y)) as [->|Hne]; [by rewrite lookup_insert_eq|by rewrite lookup_insert_ne].
Qed.

(** C36: [setOwner] refuses a circle of one or two accounts, and only those.  Let the owners of
    the accounts of a set [S], which all use auth-delegate, be in [S], except for [x]: when
    [x] makes an account [o] of [S] its owner, [setOwner] aborts if [o] is [x] or is owned
    by [x].  Otherwise it succeeds, and no account of [S] can ever be authorized again: every
    request ends in a stack overflow. *)
Theorem circular_ownership w (S : gset AccountNumber) x o :
  (forall y, y ∈ S -> auth_of w y = Some auth_delegate_service) ->
  (forall y, y ∈ S -> y <> x -> exists p, w_delegate w !! y = Some p /\ p ∈ S) -> x ∈ S -> o ∈ S ->
  if decide (o = x \/ w_delegate w !! o = Some x) then AuthDelegate.setOwner x o w = Abort "circular ownership"
  else exists w', AuthDelegate.setOwner x o w = Ok (tt, w') /\
    forall fuel flags requester a action allowed claims, a ∈ S -> authorize fuel flags requester a action allowed claims w' = Abort "stack overflow".
Proof.
  intros Hauth Hown Hx Ho. pose proof (setOwner_spec w x o (Hauth x Hx)) as Hset.
  assert (Hcond : (x =? o) || (match w_delegate w !! o with Some y => y =? x | None => false end) = bool_decide (o = x \/ w_delegate w !! o = Some x)).
  { apply Bool.eq_iff_eq_true. rewrite orb_true_iff, bool_decide_eq_true, Z.eqb_eq. destruct (w_delegate w !! o) as [y|]; [rewrite Z.eqb_eq|]; intuition congruence. }
  rewrite Hcond in Hset. destruct (decide _) as [Hc|Hc]; [by rewrite bool_decide_true in Hset|]. rewrite bool_decide_false in Hset by done.
  destruct Hset as (w' & E & Hd & Ha). exists w'. split; [done|]. intros fuel flags requester a action allowed claims Hin. apply (circle_overflows w' S); [|done].
  intros y Hy. split; [by apply Ha, Hauth|]. rewrite Hd. destruct (decide (y = x)) as [->|Hne]; [exists o; by rewrite lookup_insert_eq|].
  rewrite lookup_insert_ne by done. by apply Hown.
Qed.

(** ** The composed services keep the promises their clients rely on *)

#[global] Instance dispatch_isolated fuel :
  Accounts.Isolated (fun svc => others svc) -> Accounts.Isolated (auth_dispatch fuel).
Proof.
  intros Ho svc user w r w'. unfold auth_service, auth_dispatch.
  destruct fuel; cbn; repeat match goal with |- context [if ?b then _ else _] => destruct b end; cbn; intros E;
    try exact (Ho svc user w r w' E); try done.
  all: unfold AuthAny.canAuthUserSys, AuthSig.canAuthUserSys, AuthSig.getKey, Producers.canAuthUserSys,
         AuthDelegate.canAuthUserSys, AuthDelegate.getOwner in E; by act_inv.
Qed.
End dispatch.

(** ** Examples *)

Module example.
Definition others : AccountNumber -> AuthInterface := fun _ => AuthAny.auth.
Definition account (a svc : AccountNumber) : Account := {| accountNum := a; authService := svc; authSequence := 0 |}.
(** 1 is owned by 2, 2 by 3, and 3 holds a key. *)
Definition w : world :=
  let t := w_accounts empty_world in
  set_w_sig (<[3 := [7]]> ∅) (set_w_delegate (<[1 := 2]> (<[2 := 3]> ∅))
    (set_w_accounts (set_a_accounts (<[1 := account 1 auth_delegate_service]> (<[2 := account 2 auth_delegate_service]>
       (<[3 := account 3 auth_sig_service]> ∅))) t) empty_world)).
Definition action : ServiceMethod := {| sm_service := 9; sm_method := 9 |}.

Lemma owners : chain w 1 [2; 3] 3.
Proof.
  apply chain_owner; [reflexivity..|]. apply chain_owner; [reflexivity..|].
  apply (chain_end w 3 auth_sig_service); [reflexivity|]. vm_compute. congruence.
Qed.

Lemma delegate_chain_witness :
  authorize others 5 topActionReq 0 1 action [] [AuthSig.key_claim [7]] w = Ok (true, w).
Proof.
  transitivity (authorize others 0 topActionReq 0 3 action [] [AuthSig.key_claim [7]] w); [|vm_compute; reflexivity].
  exact (delegate_chain others w 1 [2; 3] 3 5 topActionReq 0 action [] [AuthSig.key_claim [7]] owners ltac:(vm_compute; lia)).
Defined.

(** Three accounts of which 1 is owned by 2 and 2 by 3; then 3 hands itself over to 1. *)
Definition circle_start : world :=
  let t := w_accounts empty_world in
  set_w_delegate (<[1 := 2]> (<[2 := 3]> ∅)) (set_w_accounts (set_a_accounts (<[1 := account 1 auth_delegate_service]> (<[2 := account 2 auth_delegate_service]>
       (<[3 := account 3 auth_delegate_service]> ∅))) t) empty_world).

Lemma circular_ownership_witness :
  exists w', AuthDelegate.setOwner 3 1 circle_start = Ok (tt, w') /\ authorize others 100 topActionReq 0 1 action [] [] w' = Abort "stack overflow".
Proof.
  pose proof (circular_ownership others circle_start {[1; 2; 3]} 3 1) as H. rewrite decide_False in H by (vm_compute; intuition congruence). destruct H as (w' & E & H).
  - intros x [[->%elem_of_singleton| ->%elem_of_singleton]%elem_of_union| ->%elem_of_singleton]%elem_of_union; vm_compute; reflexivity.
  - intros x [[->%elem_of_singleton| ->%elem_of_singleton]%elem_of_union| ->%elem_of_singleton]%elem_of_union Hne;
      [exists 2; split; [vm_compute; reflexivity|set_solver]|exists 3; split; [vm_compute; reflexivity|set_solver]|done].
  - set_solver.
  - set_solver.
  - exists w'. split; [exact E|]. apply H. set_solver.
Defined.
End example.
