(* ===== verification/HttpServer.v ===== *)
(** * psibase: who may answer a request

    The part of [packages/system/HttpServer/src/HttpServer.cpp] that keeps the owner of each
    socket on which a reply is awaited: [deferReply], [claimReply], [sendReply],
    [giveSocket], [takeSocket] and [sendProds].  [requests] is the session table
    [PendingRequestTable]; [owned] is the temporary table of the running context.  Calls into
    [XHttp] are recorded in [sent] in their order; that they may fail is not modelled. *)

From S2P Require Import Prelude Names Services.
Close Scope nat_scope.

(** ** A monad of state and errors

    The state at an abort is kept: an action may have committed some of its subjective
    transactions before it aborts. *)

Definition st (S A : Type) : Type := S -> result A * S.
#[export] Instance st_ret {S} : MRet (st S) := fun A a s => (Ok a, s).
#[export] Instance st_bind {S} : MBind (st S) := fun A B f m s =>
  match m s with (Ok a, s') => f a s' | (Abort e, s') => (Abort e, s') end.
Definition st_abort {S A} (msg : string) : st S A := fun s => (Abort msg, s).
Definition st_check {S} (b : bool) (msg : string) : st S unit := fun s => (check b msg, s).
Definition st_gets {S A} (f : S -> A) : st S A := fun s => (Ok (f s), s).
Definition st_put {S} (f : S -> S) : st S unit := fun s => (Ok tt, f s).
Arguments st_abort {S A} msg%_string_scope.
Arguments st_check {S} b%_bool_scope msg%_string_scope.

(** [PSIBASE_SUBJECTIVE_TX]: the writes of the block are kept only when it is committed. *)
Definition subjective_tx {S A} (m : st S A) : st S A := fun s =>
  match m s with (Ok a, s') => (Ok a, s') | (Abort e, _) => (Abort e, s) end.

(** [for (auto x : l) f(x)]. *)
Fixpoint st_iter {S A} (f : A -> st S unit) (l : list A) : st S unit :=
  match l with [] => mret tt | x :: l => f x ;; st_iter f l end.

Module HttpServer.

(** ** State *)

Definition service : AccountNumber := Eval vm_compute in AccountNumber_of_name (str "http").
Definition xhttp_service : AccountNumber := Eval vm_compute in AccountNumber_of_name (str "x-http").

Record HttpReply := { status : Z; contentType : bytes; body : bytes; headers : list bytes }.

(** [TempPendingRequestRow], by socket. *)
Record TempPendingRequestRow := { owner : AccountNumber; prevOwners : option (list AccountNumber) }.

(** A message for another node: its sender, its receiver and the argument of [recv]. *)
Record Message (T : Type) := { m_sender : AccountNumber; m_service : AccountNumber; m_is_recv : bool; m_arg : T }.
Arguments m_sender {T} _. Arguments m_service {T} _. Arguments m_is_recv {T} _. Arguments m_arg {T} _.

(** The calls into [XHttp]. *)
Inductive event (T : Type) :=
| autoClose (socket : Z) (value : bool)
| send_reply (socket : Z) (reply : HttpReply)
| multicast (msg : Message T).
Arguments autoClose {T} _ _. Arguments send_reply {T} _ _. Arguments multicast {T} _.

Section ops.
Context {T : Type}.

Record state := {
  requests : gmap Z AccountNumber;
  owned : gmap Z TempPendingRequestRow;
  sent : list (event T)
}.
Definition set_requests r (s : state) : state := {| requests := r; owned := owned s; sent := sent s |}.
Definition set_owned o (s : state) : state := {| requests := requests s; owned := o; sent := sent s |}.
Definition emit (e : event T) : st state unit :=
  st_put (fun s => {| requests := requests s; owned := owned s; sent := sent s ++ [e] |}).

(** ** Operations *)

Definition allowedHeaders : list bytes := map str
  ["Access-Control-Allow-Credentials"; "Access-Control-Allow-Headers"; "Access-Control-Allow-Methods";
   "Access-Control-Allow-Origin"; "Allow"; "Cache-Control"; "Content-Encoding"; "Content-Security-Policy";
   "ETag"; "Location"; "Set-Cookie"; "X-Content-Type-Options"]%string.

Definition sendReplyImpl (socket : Z) (result : HttpReply) : st state unit :=
  st_check (forallb (fun h => bool_decide (h ∈ allowedHeaders)) (headers result)) "attempted to set http header" ;;
  emit (send_reply socket result).

Definition cannot_send {A} : st state A := st_abort "cannot send a response on socket".

Definition deferReply (sender : AccountNumber) (socket : Z) : st state unit :=
  o ← st_gets owned;
  match o !! socket with
  | Some row =>
      if owner row =? sender then
        subjective_tx (
          st_put (fun s => set_requests (<[socket := owner row]> (requests s)) s) ;;
          st_put (fun s => set_owned (delete socket (owned s)) s) ;;
          emit (autoClose socket false))
      else cannot_send
  | None => cannot_send
  end.

Definition claimReply (sender : AccountNumber) (socket : Z) : st state unit :=
  subjective_tx (
    r ← st_gets requests;
    match r !! socket with
    | Some o =>
        if o =? sender then
          st_put (fun s => set_requests (delete socket (requests s)) s) ;;
          st_put (fun s => set_owned (<[socket := {| owner := o; prevOwners := None |}]> (owned s)) s)
        else cannot_send
    | None => cannot_send
    end ;;
    emit (autoClose socket true)).

Definition sendReply (sender : AccountNumber) (socket : Z) (result : HttpReply) : st state unit :=
  o ← st_gets owned;
  okay ← match o !! socket with
         | Some row =>
             if owner row =? sender then st_put (fun s => set_owned (delete socket (owned s)) s) ;; mret true
             else mret false
         | None =>
             subjective_tx (
               r ← st_gets requests;
               match r !! socket with
               | Some o =>
                   if o =? sender then
                     st_put (fun s => set_requests (delete socket (requests s)) s) ;;
                     emit (autoClose socket true) ;; mret true
                   else mret false
               | None => mret false
               end)
         end;
  if (okay : bool) then sendReplyImpl socket result else cannot_send.

Definition giveSocket (sender : AccountNumber) (socket : Z) (service : AccountNumber) : st state unit :=
  if sender =? xhttp_service then
    st_put (fun s => set_owned (<[socket := {| owner := service; prevOwners := None |}]> (owned s)) s)
  else
    o ← st_gets owned;
    match o !! socket with
    | Some row =>
        st_check (owner row =? sender) "does not own socket" ;;
        let prev := default [] (prevOwners row) ++ [sender] in
        st_check (negb (bool_decide (service ∈ prev))) "recursive transfer of socket" ;;
        st_put (fun s => set_owned (<[socket := {| owner := service; prevOwners := Some prev |}]> (owned s)) s)
    | None => st_abort "does not own socket"
    end.

(** [erase(find(prev, sender), end)], when [sender] is there. *)
Fixpoint before (sender : AccountNumber) (prev : list AccountNumber) : option (list AccountNumber) :=
  match prev with
  | [] => None
  | p :: prev => if p =? sender then Some [] else cons p <$> before sender prev
  end.

Definition takeSocket (sender : AccountNumber) (socket : Z) : st state bool :=
  o ← st_gets owned;
  if sender =? xhttp_service then
    match o !! socket with
    | None => mret false
    | Some _ => st_put (fun s => set_owned (delete socket (owned s)) s) ;; mret true
    end
  else
    match o !! socket with
    | Some {| prevOwners := Some prev |} =>
        match before sender prev with
        | None => mret false
        | Some prev' =>
            st_put (fun s => set_owned (<[socket := {| owner := sender;
              prevOwners := match prev' with [] => None | _ => Some prev' end |}]> (owned s)) s) ;;
            mret true
        end
    | _ => mret false
    end.

Definition checkRecvAuth (act : Message T) : st state unit :=
  st_check (m_sender act =? service) "messages must have http as the sender" ;;
  st_check ((m_service act =? rtransact_service) && m_is_recv act) "is not authorized to receive messages".

Definition sendProds (sender : AccountNumber) (act : Message T) : st state unit :=
  st_check (sender =? m_service act) "cannot send messages to" ;;
  checkRecvAuth act ;;
  emit (multicast act).

End ops.
Arguments state T : clear implicits.

(** ** Properties *)

(** A service that has an owner's socket by [giveSocket] loses it again to [takeSocket] of
    that owner, and the row is the one of before, while it has not been answered or deferred. *)
Lemma take_give {T} (a b : AccountNumber) socket (s : state T) row :
  a <> xhttp_service -> owned s !! socket = Some row -> owner row = a ->
  match prevOwners row with Some p => p <> [] /\ a ∉ p | None => True end ->
  b ∉ default [] (prevOwners row) -> b <> a ->
  exists s', giveSocket a socket b s = (Ok tt, s') /\ takeSocket a socket s' = (Ok true, s).
Proof.
  intros Ha%Z.eqb_neq Ho Hrow Hp Hb Hba. unfold giveSocket. rewrite Ha. unfold mbind, st_bind, st_gets. rewrite Ho.
  subst a. unfold st_check. rewrite Z.eqb_refl, bool_decide_false by (intros [?|?%list_elem_of_singleton]%elem_of_app;
    congruence). eexists. split; [reflexivity|].
  unfold takeSocket, mbind, st_bind, st_gets. rewrite Ha. cbn [set_owned owned]. rewrite lookup_insert_eq. cbn [prevOwners].
  assert (before (owner row) (default [] (prevOwners row) ++ [owner row]) = Some (default [] (prevOwners row))) as ->.
  { assert (owner row ∉ default [] (prevOwners row)) as Hn by (destruct (prevOwners row); [tauto | set_solver]).
    revert Hn. generalize (default [] (prevOwners row)). clear. intros l. induction l as [|x l IH]; intros Hn; cbn.
    - by rewrite Z.eqb_refl.
    - apply not_elem_of_cons in Hn as [Hx Hn]. destruct (Z.eqb_spec x (owner row)); [congruence|]. by rewrite IH. }
  cbn. rewrite insert_insert_eq. destruct s as [r o e], row as [w p]. cbn in *. unfold set_owned. cbn. do 2 f_equal.
  apply insert_id. rewrite Ho. do 2 f_equal. destruct p as [[|]|]; cbn in *; tauto.
Qed.

(** What [deferReply] of the owner and [claimReply] do, with the socket kept in exactly one
    of the tables. *)
Lemma deferReply_ok {T} sender socket (s : state T) row :
  owned s !! socket = Some row -> owner row = sender ->
  deferReply sender socket s =
    (Ok tt, {| requests := <[socket := sender]> (requests s); owned := delete socket (owned s); sent := sent s ++ [autoClose
      socket false] |}).
Proof. intros Ho <-. unfold deferReply, st_gets, mbind, st_bind. rewrite Ho, Z.eqb_refl. done. Qed.

Lemma claimReply_ok {T} sender socket (s : state T) :
  requests s !! socket = Some sender ->
  claimReply sender socket s =
    (Ok tt, {| requests := delete socket (requests s); owned := <[socket := {| owner := sender; prevOwners := None |}]> (owned
      s);
               sent := sent s ++ [autoClose socket true] |}).
Proof. intros Hr. unfold claimReply, subjective_tx, st_gets, mbind, st_bind. rewrite Hr, Z.eqb_refl. done. Qed.

Lemma claimReply_fails {T} sender socket (s : state T) :
  requests s !! socket <> Some sender -> exists e, claimReply sender socket s = (Abort e, s).
Proof.
  intros Hr. unfold claimReply, subjective_tx, st_gets, mbind, st_bind.
  destruct (requests s !! socket) as [o|] eqn:E; [|by eexists]. destruct (Z.eqb_spec o sender); [congruence | by eexists].
Qed.

Lemma sendReply_owned {T} sender socket reply (s : state T) row :
  owned s !! socket = Some row -> owner row = sender -> Forall (.∈ allowedHeaders) (headers reply) ->
  sendReply sender socket reply s =
    (Ok tt, {| requests := requests s; owned := delete socket (owned s); sent := sent s ++ [send_reply socket reply] |}).
Proof.
  intros Ho <- Hh. unfold sendReply, st_gets, mbind, st_bind. rewrite Ho, Z.eqb_refl. cbn.
  unfold sendReplyImpl, st_check, mbind, st_bind, check. rewrite (proj2 (forallb_forall _ _)); [done|].
  intros h Hin. apply bool_decide_eq_true. rewrite Forall_forall in Hh. apply Hh. by apply list_elem_of_In.
Qed.

End HttpServer.
