(* ===== verification/RTransact.v ===== *)
(** * psibase: pending transactions of a node

    [packages/system/Transact/src/RTransact.cpp] (the queue of transactions that wait to be
    included in a block), [packages/local/XRun/src/XRun.cpp] (the table of asynchronous runs)
    and [packages/local/XTransact/src/XTransact.cpp] (the callbacks native calls).

    A transaction enters through [recv] or [push_transaction]; a run verifies each of its
    signatures and one executes it speculatively; [onVerify] and [onSpecTrx] are called with
    what they found.  A verified transaction is queued, [next] hands the queue to the producer
    of blocks, and [onBlock] drops what is final or expired and answers the clients that wait.

    Tables are finite maps by primary key, a singleton table is an [option].  The subjective
    and session tables are shared by all the contexts that run at the same time, so each
    [PSIBASE_SUBJECTIVE_TX] block that writes them is a definition of its own ([.._tx]), and an
    entry point is the sequence of its blocks.  The write-only tables ([wo]) follow forks. *)

From S2P Require Import Prelude Services Transact HttpServer.
Close Scope nat_scope.

Module RTransact.

(** ** Data *)

Record SignedTransaction := { transaction : Transaction; proofs : list bytes }.

(** The trace of a transaction: its error, and its pruned form as JSON and as fracpack. *)
Record TransactionTrace := { error : option bytes; json_of_trace : bytes; frac_of_trace : bytes }.

Abbreviation RunToken := bytes (only parsing).
Abbreviation TransactionId := Checksum256 (only parsing).

Record PendingTransactionRecord := {
  p_expiration : Z; p_ctime : Z; p_sequence : Z; p_verifies : list RunToken; p_speculative : option Z }.
(** [VerifyStatus]: the run that verifies a signature, or the token of its success. *)
Inductive VerifyStatus := Running (runid : Z) | Verified (token : RunToken).
#[export] Instance VerifyStatus_eq_dec : EqDecision VerifyStatus.
Proof. solve_decision. Defined.
Record UnverifiedTransactionRecord := {
  u_expiration : Z; u_verifies : list VerifyStatus; u_verifyId : Checksum256; u_verified : bool; u_speculative : option Z }.
Record ReverifySignaturesRecord := { endSequence : Z; rv_verifyId : Checksum256; running : bool }.
Record VerifyIdRecord := { verifyCodeSequence : Z; verifyId : Checksum256 }.
Record TraceClientInfo := { socket : Z; json : bool; waitFor : Z }.
Record TraceClientRow := { c_expiration : Z; c_clients : list TraceClientInfo }.
Record TxStatsRecord := { unprocessed : Z; total : Z; failed : Z; succeeded : Z; expired : Z }.
Record TxFailedRecord := { f_expiration : Z; f_trace : TransactionTrace }.
Record TxSuccessRecord := { s_blockNum : BlockNum; s_trace : TransactionTrace }.

(** [ReverifySignaturesRecord{}], [VerifyIdRecord{}] and [TxStatsRecord{}]. *)
Definition no_reverify : ReverifySignaturesRecord := {| endSequence := 0; rv_verifyId := zero_hash; running := false |}.
Definition no_verifyId : VerifyIdRecord := {| verifyCodeSequence := 0; verifyId := zero_hash |}.
Definition no_stats : TxStatsRecord := {| unprocessed := 0; total := 0; failed := 0; succeeded := 0; expired := 0 |}.

(** The methods that are registered as callbacks. *)
Inductive Method := m_next | m_preverify | m_onVerify | m_onSpecTrx | m_onRequeue.
#[export] Instance Method_eq_dec : EqDecision Method.
Proof. solve_decision. Defined.

(** A row of [RunTable]. *)
Inductive RunMode := mode_verify | mode_speculative | mode_rpc.
Inductive RunAction :=
| verifySys (service : AccountNumber) (transactionHash : Checksum256) (claim : Claim) (proof : bytes)
| execTrx (trx : Transaction) (speculative : bool)
| requeue_action
| nop.
Record RunRow := { r_mode : RunMode; r_maxTime : Z; r_action : RunAction; r_service : AccountNumber; r_method : Method }.

(** The write-only tables. *)
Record wtables := {
  UnappliedTransaction : option Z;
  ReversibleBlocks : gmap Z Z;
  TxSuccess : gmap TransactionId TxSuccessRecord;
  VerifyIdRow : option VerifyIdRecord;
  BlockSize : option Z
}.

Record mempool := {
  Pending : gmap TransactionId PendingTransactionRecord;
  TransactionData : gmap TransactionId SignedTransaction;
  AvailableSequence : option Z;
  TxFailed : gmap TransactionId TxFailedRecord;
  Unverified : gmap TransactionId UnverifiedTransactionRecord;
  PendingVerify : gmap Z TransactionId;
  ReverifySignatures : option ReverifySignaturesRecord;
  Speculative : gmap Z TransactionId;
  TxStats : option TxStatsRecord;
  TraceClients : gmap TransactionId TraceClientRow;
  Runs : gmap Z RunRow;
  Notify : gmap Z (list (AccountNumber * Method));
  http : HttpServer.state SignedTransaction;
  wo : wtables
}.

Abbreviation mp := (st mempool).

(** ** Writes *)

Definition set_Pending x (w : mempool) : mempool :=
  {| Pending := x; TransactionData := TransactionData w; AvailableSequence := AvailableSequence w; TxFailed := TxFailed w;
     Unverified := Unverified w; PendingVerify := PendingVerify w; ReverifySignatures := ReverifySignatures w;
     Speculative := Speculative w; TxStats := TxStats w; TraceClients := TraceClients w; Runs := Runs w;
     Notify := Notify w; http := http w; wo := wo w |}.
Definition set_TransactionData x (w : mempool) : mempool :=
  {| Pending := Pending w; TransactionData := x; AvailableSequence := AvailableSequence w; TxFailed := TxFailed w;
     Unverified := Unverified w; PendingVerify := PendingVerify w; ReverifySignatures := ReverifySignatures w;
     Speculative := Speculative w; TxStats := TxStats w; TraceClients := TraceClients w; Runs := Runs w;
     Notify := Notify w; http := http w; wo := wo w |}.
Definition set_AvailableSequence x (w : mempool) : mempool :=
  {| Pending := Pending w; TransactionData := TransactionData w; AvailableSequence := x; TxFailed := TxFailed w;
     Unverified := Unverified w; PendingVerify := PendingVerify w; ReverifySignatures := ReverifySignatures w;
     Speculative := Speculative w; TxStats := TxStats w; TraceClients := TraceClients w; Runs := Runs w;
     Notify := Notify w; http := http w; wo := wo w |}.
Definition set_TxFailed x (w : mempool) : mempool :=
  {| Pending := Pending w; TransactionData := TransactionData w; AvailableSequence := AvailableSequence w; TxFailed := x;
     Unverified := Unverified w; PendingVerify := PendingVerify w; ReverifySignatures := ReverifySignatures w;
     Speculative := Speculative w; TxStats := TxStats w; TraceClients := TraceClients w; Runs := Runs w;
     Notify := Notify w; http := http w; wo := wo w |}.
Definition set_Unverified x (w : mempool) : mempool :=
  {| Pending := Pending w; TransactionData := TransactionData w; AvailableSequence := AvailableSequence w;
     TxFailed := TxFailed w; Unverified := x; PendingVerify := PendingVerify w; ReverifySignatures := ReverifySignatures w;
     Speculative := Speculative w; TxStats := TxStats w; TraceClients := TraceClients w; Runs := Runs w;
     Notify := Notify w; http := http w; wo := wo w |}.
Definition set_PendingVerify x (w : mempool) : mempool :=
  {| Pending := Pending w; TransactionData := TransactionData w; AvailableSequence := AvailableSequence w;
     TxFailed := TxFailed w; Unverified := Unverified w; PendingVerify := x; ReverifySignatures := ReverifySignatures w;
     Speculative := Speculative w; TxStats := TxStats w; TraceClients := TraceClients w; Runs := Runs w;
     Notify := Notify w; http := http w; wo := wo w |}.
Definition set_ReverifySignatures x (w : mempool) : mempool :=
  {| Pending := Pending w; TransactionData := TransactionData w; AvailableSequence := AvailableSequence w;
     TxFailed := TxFailed w; Unverified := Unverified w; PendingVerify := PendingVerify w; ReverifySignatures := x;
     Speculative := Speculative w; TxStats := TxStats w; TraceClients := TraceClients w; Runs := Runs w;
     Notify := Notify w; http := http w; wo := wo w |}.
Definition set_Speculative x (w : mempool) : mempool :=
  {| Pending := Pending w; TransactionData := TransactionData w; AvailableSequence := AvailableSequence w;
     TxFailed := TxFailed w; Unverified := Unverified w; PendingVerify := PendingVerify w;
     ReverifySignatures := ReverifySignatures w; Speculative := x; TxStats := TxStats w; TraceClients := TraceClients w;
     Runs := Runs w; Notify := Notify w; http := http w; wo := wo w |}.
Definition set_TxStats x (w : mempool) : mempool :=
  {| Pending := Pending w; TransactionData := TransactionData w; AvailableSequence := AvailableSequence w;
     TxFailed := TxFailed w; Unverified := Unverified w; PendingVerify := PendingVerify w;
     ReverifySignatures := ReverifySignatures w; Speculative := Speculative w; TxStats := x;
     TraceClients := TraceClients w; Runs := Runs w; Notify := Notify w; http := http w; wo := wo w |}.
Definition set_TraceClients x (w : mempool) : mempool :=
  {| Pending := Pending w; TransactionData := TransactionData w; AvailableSequence := AvailableSequence w;
     TxFailed := TxFailed w; Unverified := Unverified w; PendingVerify := PendingVerify w;
     ReverifySignatures := ReverifySignatures w; Speculative := Speculative w; TxStats := TxStats w; TraceClients := x;
     Runs := Runs w; Notify := Notify w; http := http w; wo := wo w |}.
Definition set_Runs x (w : mempool) : mempool :=
  {| Pending := Pending w; TransactionData := TransactionData w; AvailableSequence := AvailableSequence w;
     TxFailed := TxFailed w; Unverified := Unverified w; PendingVerify := PendingVerify w;
     ReverifySignatures := ReverifySignatures w; Speculative := Speculative w; TxStats := TxStats w;
     TraceClients := TraceClients w; Runs := x; Notify := Notify w; http := http w; wo := wo w |}.
Definition set_Notify x (w : mempool) : mempool :=
  {| Pending := Pending w; TransactionData := TransactionData w; AvailableSequence := AvailableSequence w;
     TxFailed := TxFailed w; Unverified := Unverified w; PendingVerify := PendingVerify w;
     ReverifySignatures := ReverifySignatures w; Speculative := Speculative w; TxStats := TxStats w;
     TraceClients := TraceClients w; Runs := Runs w; Notify := x; http := http w; wo := wo w |}.
Definition set_http x (w : mempool) : mempool :=
  {| Pending := Pending w; TransactionData := TransactionData w; AvailableSequence := AvailableSequence w;
     TxFailed := TxFailed w; Unverified := Unverified w; PendingVerify := PendingVerify w;
     ReverifySignatures := ReverifySignatures w; Speculative := Speculative w; TxStats := TxStats w;
     TraceClients := TraceClients w; Runs := Runs w; Notify := Notify w; http := x; wo := wo w |}.
Definition set_wo x (w : mempool) : mempool :=
  {| Pending := Pending w; TransactionData := TransactionData w; AvailableSequence := AvailableSequence w;
     TxFailed := TxFailed w; Unverified := Unverified w; PendingVerify := PendingVerify w;
     ReverifySignatures := ReverifySignatures w; Speculative := Speculative w; TxStats := TxStats w;
     TraceClients := TraceClients w; Runs := Runs w; Notify := Notify w; http := http w; wo := x |}.

Definition set_UnappliedTransaction x (v : wtables) : wtables :=
  {| UnappliedTransaction := x; ReversibleBlocks := ReversibleBlocks v; TxSuccess := TxSuccess v;
     VerifyIdRow := VerifyIdRow v; BlockSize := BlockSize v |}.
Definition set_ReversibleBlocks x (v : wtables) : wtables :=
  {| UnappliedTransaction := UnappliedTransaction v; ReversibleBlocks := x; TxSuccess := TxSuccess v;
     VerifyIdRow := VerifyIdRow v; BlockSize := BlockSize v |}.
Definition set_TxSuccess x (v : wtables) : wtables :=
  {| UnappliedTransaction := UnappliedTransaction v; ReversibleBlocks := ReversibleBlocks v; TxSuccess := x;
     VerifyIdRow := VerifyIdRow v; BlockSize := BlockSize v |}.
Definition set_VerifyIdRow x (v : wtables) : wtables :=
  {| UnappliedTransaction := UnappliedTransaction v; ReversibleBlocks := ReversibleBlocks v; TxSuccess := TxSuccess v;
     VerifyIdRow := x; BlockSize := BlockSize v |}.
Definition set_BlockSize x (v : wtables) : wtables :=
  {| UnappliedTransaction := UnappliedTransaction v; ReversibleBlocks := ReversibleBlocks v; TxSuccess := TxSuccess v;
     VerifyIdRow := VerifyIdRow v; BlockSize := x |}.

(** Reads and writes of one table. *)
Definition http_call {A} (m : st (HttpServer.state SignedTransaction) A) : mp A :=
  fun w => let '(r, h) := m (http w) in (r, set_http h w).
Definition put_pending id p : mp unit := st_put (fun w => set_Pending (<[id := p]> (Pending w)) w).
Definition remove_pending id : mp unit := st_put (fun w => set_Pending (delete id (Pending w)) w).
Definition put_data id t : mp unit := st_put (fun w => set_TransactionData (<[id := t]> (TransactionData w)) w).
Definition erase_data id : mp unit := st_put (fun w => set_TransactionData (delete id (TransactionData w)) w).
Definition put_failed id f : mp unit := st_put (fun w => set_TxFailed (<[id := f]> (TxFailed w)) w).
Definition erase_failed id : mp unit := st_put (fun w => set_TxFailed (delete id (TxFailed w)) w).
Definition put_unverified id u : mp unit := st_put (fun w => set_Unverified (<[id := u]> (Unverified w)) w).
Definition remove_unverified id : mp unit := st_put (fun w => set_Unverified (delete id (Unverified w)) w).
Definition put_verify runid id : mp unit := st_put (fun w => set_PendingVerify (<[runid := id]> (PendingVerify w)) w).
Definition erase_verify runid : mp unit := st_put (fun w => set_PendingVerify (delete runid (PendingVerify w)) w).
Definition put_speculative runid id : mp unit := st_put (fun w => set_Speculative (<[runid := id]> (Speculative w)) w).
Definition erase_speculative runid : mp unit := st_put (fun w => set_Speculative (delete runid (Speculative w)) w).
Definition put_clients id c : mp unit := st_put (fun w => set_TraceClients (<[id := c]> (TraceClients w)) w).
Definition remove_clients id : mp unit := st_put (fun w => set_TraceClients (delete id (TraceClients w)) w).
Definition put_stats s : mp unit := st_put (set_TxStats (Some s)).
Definition put_wo (f : wtables -> wtables) : mp unit := st_put (fun w => set_wo (f (wo w)) w).

(** ** XRun *)

(** The id of [RunTable::last()]. *)
Definition last_run (runs : gmap Z RunRow) : option Z :=
  map_fold (fun id _ acc => Some (match acc with Some a => Z.max a id | None => id end)) None runs.

Definition not_allowed : string := "is not allowed to post async actions".
Definition new_run (row : RunRow) : mp Z :=
  runs ← st_gets Runs;
  let id := match last_run runs with Some prev => u64 (prev + 1) | None => 0 end in
  st_put (set_Runs (<[id := row]> runs)) ;; mret id.

Definition post (sender : AccountNumber) (mode : RunMode) (act_sender : AccountNumber) (action : RunAction)
    (maxTime : Z) (callback : Method) : mp Z :=
  st_check (sender =? rtransact_service) not_allowed ;;
  st_check (act_sender =? sender) "Wrong sender" ;;
  new_run {| r_mode := mode; r_maxTime := maxTime; r_action := action; r_service := sender; r_method := callback |}.

Definition verify (sender : AccountNumber) (transactionHash : Checksum256) (claim : Claim) (proof : bytes)
    (maxTime : Z) (callback : Method) : mp Z :=
  st_check (sender =? rtransact_service) not_allowed ;;
  new_run {| r_mode := mode_verify; r_maxTime := maxTime; r_action := verifySys (claim_service claim) transactionHash claim proof;
             r_service := sender; r_method := callback |}.

Definition cancel (sender : AccountNumber) (id : Z) (callback : Method) : mp unit :=
  st_check (sender =? rtransact_service) not_allowed ;;
  runs ← st_gets Runs;
  st_check (match runs !! id with Some row => r_service row =? sender | None => false end)
    "A service can only cancel its own runs" ;;
  st_put (set_Runs (<[id := {| r_mode := mode_rpc; r_maxTime := 0; r_action := nop; r_service := sender; r_method := callback |}]> runs)).

Definition finish (sender : AccountNumber) (id : Z) : mp unit :=
  st_check (sender =? rtransact_service) not_allowed ;;
  runs ← st_gets Runs;
  st_check (match runs !! id with Some row => r_service row =? sender | None => false end)
    "A service can only finish its own runs" ;;
  st_put (set_Runs (delete id runs)).

(** ** XTransact *)

Definition addCallback (sender : AccountNumber) (type : NotifyType) (callback : Method) : mp unit :=
  st_check (sender =? rtransact_service) not_allowed ;;
  t ← st_gets Notify;
  match t !! notify_value type with
  | Some acts =>
      if bool_decide ((sender, callback) ∈ acts) then mret tt
      else st_put (set_Notify (<[notify_value type := acts ++ [(sender, callback)]]> t))
  | None => st_put (set_Notify (<[notify_value type := [(sender, callback)]]> t))
  end.

Definition removeCallback (sender : AccountNumber) (type : NotifyType) (callback : Method) : mp unit :=
  st_check (sender =? rtransact_service) not_allowed ;;
  t ← st_gets Notify;
  match t !! notify_value type with
  | Some acts =>
      match filter (fun a => a <> (sender, callback)) acts with
      | [] => st_put (set_Notify (delete (notify_value type) t))
      | acts' => st_put (set_Notify (<[notify_value type := acts']> t))
      end
  | None => mret tt
  end.

(** ** The queue *)

Definition self : AccountNumber := rtransact_service.

(** The rows of [PendingTransactionTable] by sequence, from [n]. *)
Abbreviation pending_row := (TransactionId * PendingTransactionRecord)%type.
Definition sequence_le (a b : pending_row) : Prop := p_sequence a.2 <= p_sequence b.2.
#[export] Instance sequence_le_dec : RelDecision sequence_le.
Proof. intros a b. unfold sequence_le. apply _. Defined.
Definition from_sequence (n : Z) (t : gmap TransactionId PendingTransactionRecord) : list pending_row :=
  filter (fun r => n <= p_sequence r.2) (merge_sort sequence_le (map_to_list t)).

(** [MicroSeconds::max()]. *)
Definition max_time : Z := 2 ^ 63 - 1.

(** [flushTransactions]: the row as the caller has it afterwards. *)
Definition flushTransactions (row : ReverifySignaturesRecord) (verifyId : Checksum256) : mp ReverifySignaturesRecord :=
  available ← st_gets AvailableSequence;
  let row' := {| endSequence := default 0 available; rv_verifyId := verifyId; running := true |} in
  st_put (set_ReverifySignatures (Some row')) ;;
  (if running row then mret tt
   else post self mode_rpc self requeue_action max_time m_onRequeue ;; mret tt) ;;
  mret row'.

Definition isResMonitoring (t : TransactTables) : bool := default false (t_resMonitoring t).

(** The loop of [next] over the queue. *)
Fixpoint next_scan (included : gset (Z * Checksum256)) (data : gmap TransactionId SignedTransaction)
    (rows : list pending_row) (nextSequence : Z) (found : option SignedTransaction) : result (Z * option SignedTransaction) :=
  match rows with
  | [] => Ok (nextSequence, found)
  | (id, item) :: rows =>
      let n := u64 (p_sequence item + 1) in
      if bool_decide ((p_expiration item, id) ∈ included) then next_scan included data rows n found
      else match data !! id with
           | Some trx => Ok (n, Some trx)
           | None => Abort "Internal error: missing transaction data"
           end
  end.

(** The block of [next], which may be run again when it cannot be committed: [nextSequence]
    and [result] are declared outside of it. *)
Definition next_tx (included : gset (Z * Checksum256)) (verifyId : Checksum256) (locals : Z * option SignedTransaction)
    : mp (Z * option SignedTransaction) :=
  let '(nextSequence, found) := locals in
  row ← st_gets (fun w => default no_reverify (ReverifySignatures w));
  invalidated ← (if bool_decide (rv_verifyId row = verifyId) then mret row else flushTransactions row verifyId);
  let nextSequence := Z.max nextSequence (endSequence invalidated) in
  w ← st_gets id;
  r ← (fun w' => (next_scan included (TransactionData w) (from_sequence nextSequence (Pending w)) nextSequence found, w'));
  put_wo (set_UnappliedTransaction (Some r.1)) ;;
  (match r.2 with
   | None => removeCallback self nextTransaction m_next
   | Some _ => mret tt
   end) ;;
  mret r.

Definition blockLimit : Z := 8 * 1024 * 1024.

Definition next (sender : AccountNumber) (chain : TransactTables) (can_push_tx : bool) : mp (option SignedTransaction) :=
  st_check (sender =? 0) "Wrong sender" ;;
  v ← st_gets wo;
  if (if isResMonitoring chain then negb can_push_tx
      else match BlockSize v with Some size => blockLimit <=? size | None => false end)
  then mret None
  else
    r ← subjective_tx (next_tx (t_included chain) (verifyId (default no_verifyId (VerifyIdRow v)))
          (default 0 (UnappliedTransaction v), None));
    mret r.2.

Definition preverify (id : TransactionId) : mp (option (list (option RunToken))) :=
  p ← st_gets Pending;
  mret (match p !! id with Some row => Some (map Some (p_verifies row)) | None => None end).

(** [resolveVerifies]: [std::get] throws on a run that has not finished. *)
Fixpoint resolveVerifies (tokens : list VerifyStatus) : result (list RunToken) :=
  match tokens with
  | [] => Ok []
  | Verified t :: tokens => rest ← resolveVerifies tokens; mret (t :: rest)
  | Running _ :: _ => Abort "bad_variant_access"
  end.

Definition st_lift {S A} (r : result A) : st S A := fun s => (r, s).

Section clock.
(** [system_clock::now()], in seconds. *)
Context (now : Z).

Definition queueTransaction (id : TransactionId) (expiration : Z) (verifies : list VerifyStatus) (speculative : option Z) : mp unit :=
  available ← st_gets AvailableSequence;
  let sequence := default 0 available in
  st_put (set_AvailableSequence (Some (u64 (sequence + 1)))) ;;
  tokens ← st_lift (resolveVerifies verifies);
  put_pending id {| p_expiration := expiration; p_ctime := now; p_sequence := sequence; p_verifies := tokens; p_speculative := speculative |} ;;
  addCallback self nextTransaction m_next ;;
  addCallback self preverifyTransaction m_preverify.

(** ** Runs of a transaction *)

Definition scheduleSpeculative (id : TransactionId) (trx : SignedTransaction) : mp Z :=
  runid ← post self mode_speculative self (execTrx (transaction trx) true) 1000000 m_onSpecTrx;
  put_speculative runid id ;; mret runid.

Fixpoint verify_claims (id : TransactionId) (l : list (Claim * bytes)) : mp (list VerifyStatus) :=
  match l with
  | [] => mret []
  | (claim, proof) :: l =>
      runid ← verify self id claim proof 200000 m_onVerify;
      put_verify runid id ;;
      remaining ← verify_claims id l;
      mret (Running runid :: remaining)
  end.

Definition scheduleVerify (id : TransactionId) (trx : SignedTransaction) (verified : bool) (speculative : option Z) : mp unit :=
  let cs := claims (transaction trx) in
  let exp := expiration (tapos (transaction trx)) in
  st_check (length cs =? length (proofs trx))%nat "Claims and proofs must have the same size" ;;
  remaining ← verify_claims id (zip cs (proofs trx));
  match cs with
  | [] => queueTransaction id exp remaining speculative
  | _ => put_unverified id {| u_expiration := exp; u_verifies := remaining; u_verifyId := zero_hash; u_verified := verified;
                              u_speculative := speculative |}
  end.

Definition cancelVerify (tx : UnverifiedTransactionRecord) : mp unit :=
  st_iter (fun v => match v with
                    | Running runid => erase_verify runid ;; cancel self runid m_onVerify
                    | Verified _ => mret tt
                    end) (u_verifies tx).

Definition cancelSpeculative (id : option Z) : mp unit :=
  match id with
  | Some runid => erase_speculative runid ;; cancel self runid m_onSpecTrx
  | None => mret tt
  end.

(** ** Clients that wait for a trace *)

Definition final_flag : Z := 1.
Definition applied_flag : Z := 2.
Definition isApplied (client : TraceClientInfo) : bool := waitFor client =? applied_flag.
Definition isFinal (client : TraceClientInfo) : bool := waitFor client =? final_flag.
Definition noFilter (client : TraceClientInfo) : bool := true.

(** [WaitFor::flag]. *)
Definition wait_flag (wait_for : bytes) : result Z :=
  if bool_decide (wait_for = str "final") then Ok final_flag
  else if bool_decide (wait_for = str "applied") then Ok applied_flag
  else if bool_decide (wait_for = []) then Ok final_flag
  else Abort "Invalid wait_for parameter".

(** The sockets that wait for JSON, and those that wait for fracpack. *)
Definition ClaimedSockets : Type := list Z * list Z.

Definition claimClientReply (id : TransactionId) (clientFilter : TraceClientInfo -> bool) : mp ClaimedSockets :=
  subjective_tx (
    clients ← st_gets TraceClients;
    match clients !! id with
    | None => mret ([], [])
    | Some row =>
        let filtered := filter (fun c => clientFilter c = true) (c_clients row) in
        st_iter (fun c => http_call (HttpServer.claimReply self (socket c))) filtered ;;
        let json_clients := map socket (filter (fun c => json c = true) filtered) in
        let bin_clients := map socket (filter (fun c => json c = false) filtered) in
        let rest := filter (fun c => (socket c ∉ json_clients) /\ (socket c ∉ bin_clients)) (c_clients row) in
        (match rest with
         | [] => remove_clients id
         | _ => put_clients id {| c_expiration := c_expiration row; c_clients := rest |}
         end) ;;
        mret (json_clients, bin_clients)
    end).

Definition cors_headers : list bytes :=
  map str ["Access-Control-Allow-Origin"; "Access-Control-Allow-Methods"; "Access-Control-Allow-Headers"]%string.
Definition json_reply (trace : TransactionTrace) : HttpServer.HttpReply :=
  {| HttpServer.status := 200; HttpServer.contentType := str "application/json"; HttpServer.body := json_of_trace trace;
     HttpServer.headers := cors_headers |}.
Definition bin_reply (trace : TransactionTrace) : HttpServer.HttpReply :=
  {| HttpServer.status := 200; HttpServer.contentType := str "application/octet-stream"; HttpServer.body := frac_of_trace trace;
     HttpServer.headers := cors_headers |}.

Definition send_claimed (clients : ClaimedSockets) (trace : TransactionTrace) : mp unit :=
  st_iter (fun s => http_call (HttpServer.sendReply self s (json_reply trace))) clients.1 ;;
  st_iter (fun s => http_call (HttpServer.sendReply self s (bin_reply trace))) clients.2.

Definition sendReply (id : TransactionId) (trace : TransactionTrace) (clientFilter : TraceClientInfo -> bool) : mp unit :=
  claimed ← claimClientReply id clientFilter;
  send_claimed claimed trace.

(** ** Statistics *)

Definition incFailedCount : mp unit :=
  stats ← st_gets (fun w => default no_stats (TxStats w));
  put_stats {| unprocessed := u64 (unprocessed stats - 1); total := total stats; failed := u64 (failed stats + 1);
               succeeded := succeeded stats; expired := expired stats |}.

(** Remove a row of the queue, with the run that executes it. *)
Definition drop_pending (id : TransactionId) : mp unit :=
  p ← st_gets Pending;
  match p !! id with
  | Some pending => remove_pending id ;; cancelSpeculative (p_speculative pending)
  | None => mret tt
  end.

Definition stopTracking_tx (txids : list TransactionId) (statsDelta : TxStatsRecord) : mp unit :=
  st_iter (fun id => drop_pending id ;; erase_data id) txids ;;
  stats ← st_gets (fun w => default no_stats (TxStats w));
  put_stats {| unprocessed := u64 (unprocessed stats - Z.of_nat (length txids)); total := total stats;
               failed := u64 (failed stats + failed statsDelta); succeeded := u64 (succeeded stats + succeeded statsDelta);
               expired := u64 (expired stats + expired statsDelta) |}.

(** ** Replies to finished transactions *)

(** [TransactionTrace{.error = "Transaction expired"}]: its rendered forms. *)
Context (expired_trace : TransactionTrace).

(** The trace for a reply, and the count it adds to. *)
Definition reply_trace (id : TransactionId) (stats : TxStatsRecord) : mp (TransactionTrace * TxStatsRecord) :=
  v ← st_gets wo;
  match TxSuccess v !! id with
  | Some tx =>
      put_wo (fun v => set_TxSuccess (delete id (TxSuccess v)) v) ;;
      subjective_tx (erase_failed id) ;;
      mret (s_trace tx, {| unprocessed := unprocessed stats; total := total stats; failed := failed stats;
                           succeeded := u64 (succeeded stats + 1); expired := expired stats |})
  | None =>
      subjective_tx (
        f ← st_gets TxFailed;
        match f !! id with
        | Some tx =>
            erase_failed id ;;
            mret (f_trace tx, {| unprocessed := unprocessed stats; total := total stats; failed := u64 (failed stats + 1);
                                 succeeded := succeeded stats; expired := expired stats |})
        | None =>
            mret (expired_trace, {| unprocessed := unprocessed stats; total := total stats; failed := failed stats;
                                    succeeded := succeeded stats; expired := u64 (expired stats + 1) |})
        end)
  end.

Fixpoint send_each (txids : list TransactionId) (stats : TxStatsRecord) : mp TxStatsRecord :=
  match txids with
  | [] => mret stats
  | id :: txids =>
      r ← reply_trace id stats;
      sendReply id r.1 noFilter ;;
      send_each txids r.2
  end.

Definition sendReplies (txids : list TransactionId) : mp unit :=
  stats ← send_each txids no_stats;
  subjective_tx (stopTracking_tx txids stats).

(** [TxFailedTable] by expiration and id. *)
Abbreviation failed_row := (TransactionId * TxFailedRecord)%type.
Definition failed_le (a b : failed_row) : Prop :=
  then_compare (f_expiration a.2 ?= f_expiration b.2) (lex_compare a.1 b.1) <> Gt.
#[export] Instance failed_le_dec : RelDecision failed_le.
Proof. intros a b. unfold failed_le. apply _. Defined.
Definition failed_begin (t : gmap TransactionId TxFailedRecord) : option failed_row :=
  hd_error (merge_sort failed_le (map_to_list t)).

(** Times in seconds are compared with times in microseconds. *)
Definition usec (sec : Z) : Z := sec * 1000000.

Definition failure_tx (finalizedTime : Z) : mp (option (TransactionTrace * ClaimedSockets)) :=
  f ← st_gets TxFailed;
  match failed_begin f with
  | Some (id, failedTx) =>
      if usec (f_expiration failedTx) <=? finalizedTime then
        erase_failed id ;;
        claimed ← claimClientReply id noFilter;
        mret (Some (f_trace failedTx, claimed))
      else mret None
  | None => mret None
  end.

(** [false] when the fuel runs out. *)
Fixpoint sendFailureTraces (fuel : nat) (finalizedTime : Z) : mp bool :=
  match fuel with
  | O => mret false
  | S fuel =>
      r ← subjective_tx (failure_tx finalizedTime);
      match r with
      | Some (trace, claimed) => send_claimed claimed trace ;; sendFailureTraces fuel finalizedTime
      | None => mret true
      end
  end.

(** ** Blocks *)

(** What [onBlock] reads of [StatusRow::head]. *)
Record HeadInfo := { h_blockId : Checksum256; h_blockNum : BlockNum; h_commitNum : BlockNum; h_time : Z }.

Definition checkReverify (headId : Checksum256) (verifySeq : Z) : mp unit :=
  v ← st_gets wo;
  let row := default no_verifyId (VerifyIdRow v) in
  id ← (if verifyCodeSequence row =? verifySeq then mret (verifyId row)
        else put_wo (set_VerifyIdRow (Some {| verifyCodeSequence := verifySeq; verifyId := headId |})) ;; mret headId);
  subjective_tx (
    row ← st_gets (fun w => default no_reverify (ReverifySignatures w));
    if bool_decide (id = rv_verifyId row) then mret tt else flushTransactions row id ;; mret tt).

Record FinalizedBlocks := { first : BlockNum; count : Z; f_time : Z }.

(** The loop over the reversible blocks by number; the result and the blocks that are left. *)
Fixpoint finalize_scan (commitNum headNum : BlockNum) (rows : list (BlockNum * Z)) (res : option FinalizedBlocks) (t : gmap Z Z)
    : option FinalizedBlocks * gmap Z Z :=
  match rows with
  | [] => (res, t)
  | (n, tm) :: rows =>
      if commitNum <? n then (res, t)
      else
        let res' := match res with
                    | None => {| first := n; count := 1; f_time := tm |}
                    | Some f => {| first := first f; count := if n <? headNum then count f + 1 else count f; f_time := tm |}
                    end in
        finalize_scan commitNum headNum rows (Some res') (if n <? commitNum then delete n t else t)
  end.

Definition num_le (a b : BlockNum * Z) : Prop := a.1 <= b.1.
#[export] Instance num_le_dec : RelDecision num_le.
Proof. intros a b. unfold num_le. apply _. Defined.

Definition finalizeBlocks (head : HeadInfo) : mp (option FinalizedBlocks) :=
  put_wo (fun v => set_ReversibleBlocks (<[h_blockNum head := h_time head]> (ReversibleBlocks v)) v) ;;
  v ← st_gets wo;
  let r := finalize_scan (h_commitNum head) (h_blockNum head) (merge_sort num_le (map_to_list (ReversibleBlocks v))) None
             (ReversibleBlocks v) in
  put_wo (set_ReversibleBlocks r.2) ;;
  mret r.1.

(** The successful transactions of a block, by id. *)
Definition id_le (a b : TransactionId) : Prop := lex_compare a b <> Gt.
#[export] Instance id_le_dec : RelDecision id_le.
Proof. intros a b. unfold id_le. apply _. Defined.
Definition successful_in (t : gmap TransactionId TxSuccessRecord) (n : BlockNum) : list TransactionId :=
  merge_sort id_le (filter (fun r => s_blockNum r.2 = n) (map_to_list t)).*1.

(** The queue by expiration and sequence, up to [time]. *)
Definition expiration_le (a b : pending_row) : Prop :=
  then_compare (p_expiration a.2 ?= p_expiration b.2) (p_sequence a.2 ?= p_sequence b.2) <> Gt.
#[export] Instance expiration_le_dec : RelDecision expiration_le.
Proof. intros a b. unfold expiration_le. apply _. Defined.
Fixpoint expired_until (time : Z) (rows : list pending_row) : list TransactionId :=
  match rows with
  | [] => []
  | (id, row) :: rows => if time <? usec (p_expiration row) then [] else id :: expired_until time rows
  end.

(** The block of [onBlock] for a transaction that nobody waits for: whether it needs a reply. *)
Definition finish_one_tx (successful : bool) (id : TransactionId) : mp bool :=
  clients ← st_gets TraceClients;
  match clients !! id with
  | Some _ => mret true
  | None =>
      drop_pending id ;;
      erase_data id ;;
      put_wo (fun v => set_TxSuccess (delete id (TxSuccess v)) v) ;;
      erase_failed id ;;
      stats ← st_gets (fun w => default no_stats (TxStats w));
      put_stats {| unprocessed := u64 (unprocessed stats - 1); total := total stats; failed := failed stats;
                   succeeded := if successful then u64 (succeeded stats + 1) else succeeded stats;
                   expired := if successful then expired stats else u64 (expired stats + 1) |} ;;
      mret false
  end.

Fixpoint finish_each (nSuccessful : nat) (i : nat) (txids : list TransactionId) : mp (list TransactionId) :=
  match txids with
  | [] => mret []
  | id :: txids =>
      reply ← subjective_tx (finish_one_tx (i <? nSuccessful)%nat id);
      rest ← finish_each nSuccessful (S i) txids;
      mret (if (reply : bool) then id :: rest else rest)
  end.

Definition onBlock (sender : AccountNumber) (chain : TransactTables) (head : option HeadInfo) (verifySeq : Z) : mp unit :=
  st_check (sender =? 0) "Wrong sender" ;;
  match head with
  | None => st_abort "Head block should be set before calling onBlock"
  | Some head =>
      checkReverify (h_blockId head) verifySeq ;;
      (if isResMonitoring chain then mret tt else put_wo (set_BlockSize None)) ;;
      finalized ← finalizeBlocks head;
      match finalized with
      | None => mret tt
      | Some fin =>
          v ← st_gets wo;
          let good := concat (map (successful_in (TxSuccess v)) (seqZ (first fin) (count fin))) in
          pending ← st_gets Pending;
          let old := filter (fun id => TxSuccess v !! id = None)
                       (expired_until (f_time fin) (merge_sort expiration_le (map_to_list pending))) in
          needsReply ← finish_each (length good) 0 (good ++ old);
          sendReplies needsReply ;;
          f ← st_gets TxFailed;
          sendFailureTraces (S (size f)) (f_time fin) ;;
          mret tt
      end
  end.

(** ** Callbacks of the runs *)

(** The id when a client waits for the transaction to be applied. *)
Definition reportSpeculativeFailure (trace : TransactionTrace) (id : TransactionId) (expiration : Z) : mp (option TransactionId) :=
  erase_data id ;;
  incFailedCount ;;
  clients ← st_gets TraceClients;
  match clients !! id with
  | Some client =>
      (if existsb isFinal (c_clients client) then put_failed id {| f_expiration := expiration; f_trace := trace |} else mret tt) ;;
      mret (if existsb isApplied (c_clients client) then Some id else None)
  | None => mret None
  end.

(** The loop of [onVerify]: the signatures with the token in the place of the run, and
    whether no run is left.  The token is read with [token.value()]. *)
Fixpoint set_token (id : Z) (token : option RunToken) (verifies : list VerifyStatus) : result (list VerifyStatus * bool) :=
  match verifies with
  | [] => Ok ([], true)
  | Running vid :: verifies =>
      if vid =? id then
        match token with
        | Some t => '(rest, ready) ← set_token id token verifies; mret (Verified t :: rest, ready)
        | None => Abort "bad_optional_access"
        end
      else '(rest, ready) ← set_token id token verifies; mret (Running vid :: rest, false)
  | v :: verifies => '(rest, ready) ← set_token id token verifies; mret (v :: rest, ready)
  end.

(** The block of [onVerify]: [errorTxId] and [broadcastTxId]. *)
Definition onVerify_tx (id : Z) (trace : TransactionTrace) (token : option RunToken) (runVerifyId : Checksum256)
    : mp (option TransactionId * option TransactionId) :=
  finish self id ;;
  pv ← st_gets PendingVerify;
  match pv !! id with
  | None => mret (None, None)
  | Some txid =>
      erase_verify id ;;
      unverified ← st_gets Unverified;
      match unverified !! txid with
      | None => st_abort "Missing unverified transaction"
      | Some tx =>
          r ← st_lift (set_token id token (u_verifies tx));
          let '(verifies, ready) := r in
          headVerifyId ← st_gets (fun w => rv_verifyId (default no_reverify (ReverifySignatures w)));
          let txVerifyId := if bool_decide (u_verifyId tx = zero_hash) then runVerifyId else u_verifyId tx in
          let verified := u_verified tx || ready in
          let tx' := {| u_expiration := u_expiration tx; u_verifies := verifies; u_verifyId := txVerifyId; u_verified := verified;
                        u_speculative := u_speculative tx |} in
          if bool_decide (error trace = None) && bool_decide (headVerifyId = txVerifyId) && bool_decide (txVerifyId = runVerifyId) then
            if ready then
              queueTransaction txid (u_expiration tx) verifies (u_speculative tx) ;;
              remove_unverified txid ;;
              mret (None, if negb (u_verified tx) && bool_decide (u_speculative tx = None) then Some txid else None)
            else put_unverified txid tx' ;; mret (None, None)
          else
            cancelVerify tx' ;;
            match error trace with
            | Some _ =>
                remove_unverified txid ;;
                cancelSpeculative (u_speculative tx) ;;
                e ← reportSpeculativeFailure trace txid (u_expiration tx);
                mret (e, None)
            | None =>
                data ← st_gets TransactionData;
                match data !! txid with
                | Some trx => scheduleVerify txid trx verified (u_speculative tx) ;; mret (None, None)
                | None => st_abort "Missing transaction data"
                end
            end
      end
  end.

Definition forwardTransaction (trx : SignedTransaction) : mp unit :=
  http_call (HttpServer.sendProds self {| HttpServer.m_sender := HttpServer.service; HttpServer.m_service := self;
                                          HttpServer.m_is_recv := true; HttpServer.m_arg := trx |}).

(** What [onVerify] and [onSpecTrx] do after their block. *)
Definition after_run (trace : TransactionTrace) (r : option TransactionId * option TransactionId) : mp unit :=
  (match r.1 with Some id => sendReply id trace isApplied | None => mret tt end) ;;
  match r.2 with
  | Some id =>
      data ← st_gets TransactionData;
      match data !! id with Some trx => forwardTransaction trx | None => mret tt end
  | None => mret tt
  end.

Definition onVerify (sender : AccountNumber) (id : Z) (trace : TransactionTrace) (token : option RunToken) : mp unit :=
  st_check (sender =? 0) "Wrong sender" ;;
  v ← st_gets wo;
  r ← subjective_tx (onVerify_tx id trace token (verifyId (default no_verifyId (VerifyIdRow v))));
  after_run trace r.

Definition onRequeue (sender : AccountNumber) (id : Z) : mp unit :=
  st_check (sender =? 0) "Wrong sender" ;;
  subjective_tx (finish self id).

Definition without_speculative (u : UnverifiedTransactionRecord) : UnverifiedTransactionRecord :=
  {| u_expiration := u_expiration u; u_verifies := u_verifies u; u_verifyId := u_verifyId u; u_verified := u_verified u; u_speculative := None |}.
Definition p_without_speculative (p : PendingTransactionRecord) : PendingTransactionRecord :=
  {| p_expiration := p_expiration p; p_ctime := p_ctime p; p_sequence := p_sequence p; p_verifies := p_verifies p; p_speculative := None |}.
Definition should_be_cancelled : string := "Speculative execution should be cancelled when a transaction is dropped".

Definition onSpecTrx_tx (id : Z) (trace : TransactionTrace) : mp (option TransactionId * option TransactionId) :=
  finish self id ;;
  sp ← st_gets Speculative;
  match sp !! id with
  | None => mret (None, None)
  | Some txid =>
      erase_speculative id ;;
      unverified ← st_gets Unverified;
      pending ← st_gets Pending;
      match error trace with
      | None =>
          match unverified !! txid, pending !! txid with
          | Some trx, _ =>
              st_check (bool_decide (is_Some (u_speculative trx))) "Missing speculative runid in unverified" ;;
              st_check (bool_decide (u_speculative trx = Some id)) "Wrong runid for speculative transaction in unverified" ;;
              put_unverified txid (without_speculative trx) ;;
              mret (None, if u_verified trx then Some txid else None)
          | None, Some trx =>
              st_check (bool_decide (is_Some (p_speculative trx))) "Missing speculative runid in pending" ;;
              st_check (bool_decide (p_speculative trx = Some id)) "Wrong runid for speculative transaction in pening" ;;
              put_pending txid (p_without_speculative trx) ;;
              mret (None, Some txid)
          | None, None => st_abort should_be_cancelled
          end
      | Some _ =>
          expiration ← (match unverified !! txid, pending !! txid with
                        | Some trx, _ => remove_unverified txid ;; cancelVerify trx ;; mret (u_expiration trx)
                        | None, Some trx => remove_pending txid ;; mret (p_expiration trx)
                        | None, None => st_abort should_be_cancelled
                        end);
          e ← reportSpeculativeFailure trace txid expiration;
          mret (e, None)
      end
  end.

Definition onSpecTrx (sender : AccountNumber) (id : Z) (trace : TransactionTrace) : mp unit :=
  st_check (sender =? 0) "Wrong sender" ;;
  r ← subjective_tx (onSpecTrx_tx id trace);
  after_run trace r.

(** [onTrx]: the size of the row of the transaction is that of its packed form. *)
Definition onTrx (sender : AccountNumber) (chain : TransactTables) (packed_size : SignedTransaction -> Z) (currentBlock : BlockNum)
    (id : TransactionId) (trace : TransactionTrace) : mp unit :=
  st_check (sender =? 0) "Wrong sender" ;;
  clients ← st_gets TraceClients;
  let row := clients !! id in
  (if isResMonitoring chain then mret tt
   else
     data ← st_gets TransactionData;
     let txSize := u32 (match data !! id with Some t => packed_size t | None => 0 end) in
     put_wo (fun v => set_BlockSize (Some (u32 (default 0 (BlockSize v) + txSize))) v)) ;;
  match row with
  | None => mret tt
  | Some row =>
      (match error trace with
       | None => put_wo (fun v => set_TxSuccess (<[id := {| s_blockNum := currentBlock; s_trace := trace |}]> (TxSuccess v)) v)
       | Some _ => subjective_tx (put_failed id {| f_expiration := c_expiration row; f_trace := trace |})
       end) ;;
      if existsb isApplied (c_clients row) then sendReply id trace isApplied else mret tt
  end.

(** ** Entry of transactions *)

Definition pushTransaction_tx (id : TransactionId) (trx : SignedTransaction) (speculate : bool) (client : option TraceClientInfo) : mp bool :=
  (match client with
   | Some c =>
       clients ← st_gets TraceClients;
       let row := default {| c_expiration := expiration (tapos (transaction trx)); c_clients := [] |} (clients !! id) in
       put_clients id {| c_expiration := c_expiration row; c_clients := c_clients row ++ [c] |} ;;
       http_call (HttpServer.deferReply self (socket c))
   | None => mret tt
   end) ;;
  pending ← st_gets Pending;
  unverified ← st_gets Unverified;
  if bool_decide (is_Some (pending !! id)) || bool_decide (is_Some (unverified !! id)) then mret false
  else
    speculative ← (if speculate then runid ← scheduleSpeculative id trx; mret (Some runid) else mret None);
    scheduleVerify id trx false speculative ;;
    put_data id trx ;;
    stats ← st_gets (fun w => default no_stats (TxStats w));
    put_stats {| unprocessed := u64 (unprocessed stats + 1); total := u64 (total stats + 1); failed := failed stats;
                 succeeded := succeeded stats; expired := expired stats |} ;;
    mret true.

Definition pushTransaction (id : TransactionId) (trx : SignedTransaction) (speculate : bool) (client : option TraceClientInfo) : mp bool :=
  added ← subjective_tx (pushTransaction_tx id trx speculate client);
  (if added && negb speculate && bool_decide (claims (transaction trx) = []) then forwardTransaction trx else mret tt) ;;
  mret added.

(** ** Verifying the queue again *)

(** The blocks of [requeue]: whether the end is reached, with the end; and one row of the queue. *)
Definition requeue_end_tx (nextSequence : Z) : mp (option Z) :=
  row ← st_gets (fun w => default no_reverify (ReverifySignatures w));
  if endSequence row <=? nextSequence then
    st_put (set_ReverifySignatures (Some {| endSequence := endSequence row; rv_verifyId := rv_verifyId row; running := false |})) ;;
    mret None
  else mret (Some (endSequence row)).

Definition requeue_item_tx (nextSequence endSequence : Z) : mp Z :=
  pending ← st_gets Pending;
  match from_sequence nextSequence pending with
  | [] => st_abort "no such key"
  | (id, item) :: _ =>
      (if p_sequence item <? endSequence then
         data ← st_gets TransactionData;
         match data !! id with
         | Some trx => remove_pending id ;; scheduleVerify id trx true (p_speculative item)
         | None => st_abort "Missing transaction data"
         end
       else mret tt) ;;
      mret (p_sequence item)
  end.

(** The loops, with fuel; [None] when it runs out. *)
Fixpoint requeue_items (fuel : nat) (nextSequence endSequence : Z) : mp (option Z) :=
  match fuel with
  | O => mret None
  | S fuel =>
      found ← subjective_tx (requeue_item_tx nextSequence endSequence);
      let n := u64 (found + 1) in
      if endSequence <=? n then mret (Some n) else requeue_items fuel n endSequence
  end.

Fixpoint requeue_loop (fuel inner : nat) (nextSequence : Z) : mp bool :=
  match fuel with
  | O => mret false
  | S fuel =>
      e ← subjective_tx (requeue_end_tx nextSequence);
      match e with
      | None => mret true
      | Some endSequence =>
          n ← requeue_items inner nextSequence endSequence;
          match n with Some n => requeue_loop fuel inner n | None => mret false end
      end
  end.

Definition requeue (fuel inner : nat) : mp bool := requeue_loop fuel inner 0.

End clock.

(** ** Transactions from the network and from HTTP *)

Section entry.
Context (sha256 : Transaction -> Checksum256).
Context {D : AuthDispatch} {VS : Transact.VirtualServer} {EI : Transact.EventIndexer} {Env : Transact.Environment}.
(** The state of the chain and the time. *)
Context (chain : world) (now : Z).

Definition validateTransaction (id : TransactionId) (trx : SignedTransaction) : result bool :=
  check (length (claims (transaction trx)) =? length (proofs trx))%nat "proofs and claims must have same size" ;;
  fst <$> Transact.checkFirstAuth id (transaction trx) chain.

Definition recv (sender : AccountNumber) (trx : SignedTransaction) : mp unit :=
  st_check (sender =? HttpServer.service) "Wrong sender" ;;
  let id := sha256 (transaction trx) in
  enforceAuth ← st_lift (validateTransaction id trx);
  pushTransaction now id trx enforceAuth None ;; mret tt.

(** The branch of [serveSys] for [POST /push_transaction], after the body is unpacked. *)
Definition push_transaction (sender : AccountNumber) (socket : option Z) (trx : SignedTransaction) (json : bool) (wait_for : bytes) : mp unit :=
  st_check (sender =? HttpServer.service) "Wrong sender" ;;
  match socket with
  | None => st_abort "Missing socket"
  | Some s =>
      let id := sha256 (transaction trx) in
      enforceAuth ← st_lift (validateTransaction id trx);
      flag ← st_lift (wait_flag wait_for);
      pushTransaction now id trx enforceAuth (Some {| socket := s; json := json; waitFor := flag |}) ;; mret tt
  end.

End entry.

End RTransact.
