(* ===== verification/RTransactInv.v ===== *)
(** * psibase: the tables of pending transactions agree

    The tables of [RTransact] refer to each other: a transaction that is verified has a row
    for each of the runs that verify it, a transaction that is executed speculatively one
    for that run, the runs are in the table of [XRun], the queue has its own sequence
    numbers, and the transaction itself is kept while one of the tables has it.
    [consistent] says so, possibly but for one transaction that is between two tables. *)

From S2P Require Import Prelude Services Transact HttpServer RTransact.
Import RTransact.
Close Scope nat_scope.

(** ** Rules for the monad *)

(** [m] from [w] gives a result and a state in [Q], or aborts with a message in [E]. *)
Definition mwp {A} (m : mp A) (w : mempool) (Q : A -> mempool -> Prop) (E : string -> Prop) : Prop :=
  match m w with (Ok a, w') => Q a w' | (Abort e, _) => E e end.
Lemma mwp_bind {A B} (m : mp A) (f : A -> mp B) w Q E :
  mwp m w (fun a w' => mwp (f a) w' Q E) E -> mwp (m ≫= f) w Q E.
Proof. unfold mwp, mbind, st_bind. destruct (m w) as [[a|e] w']; auto. Qed.
Lemma mwp_tx {A} (m : mp A) w Q E : mwp m w Q E -> mwp (subjective_tx m) w Q E.
Proof. unfold mwp, subjective_tx. destruct (m w) as [[a|e] w']; auto. Qed.
Lemma mwp_mono {A} (m : mp A) w Q Q' (E E' : string -> Prop) :
  mwp m w Q E -> (forall a w', Q a w' -> Q' a w') -> (forall e, E e -> E' e) -> mwp m w Q' E'.
Proof. unfold mwp. destruct (m w) as [[a|e] w']; auto. Qed.

(** ** Run ids *)

Definition next_id (runs : gmap Z RunRow) : Z := match last_run runs with Some prev => u64 (prev + 1) | None => 0 end.
(** Ids for [n] more runs are left. *)
Definition room (n : nat) (runs : gmap Z RunRow) : Prop :=
  Z.of_nat n < 2 ^ 64 /\ forall id row, runs !! id = Some row -> 0 <= id /\ id + Z.of_nat n < 2 ^ 64.

Lemma last_run_spec runs :
  match last_run runs with
  | Some l => is_Some (runs !! l) /\ forall id row, runs !! id = Some row -> id <= l
  | None => runs = ∅
  end.
Proof.
  unfold last_run. apply (map_fold_weak_ind (fun acc runs => match acc with
    | Some l => is_Some (runs !! l) /\ forall id row, runs !! id = Some row -> id <= l | None => runs = ∅ end)); [done|].
  intros i x m acc Hi IH. destruct acc as [l|].
  - destruct IH as [Hl IH]. split.
    + destruct (Z.max_spec l i) as [[? ->]|[? ->]]; [by rewrite lookup_insert_eq; eauto|].
      destruct (decide (i = l)) as [->|]; [by rewrite lookup_insert_eq; eauto | by rewrite lookup_insert_ne].
    + intros id row. destruct (decide (i = id)) as [->|]; [lia|]. rewrite lookup_insert_ne by done. intros ?%IH. lia.
  - subst. rewrite lookup_insert_eq. split; [by eauto|]. intros id row. destruct (decide (i = id)) as [->|]; [lia|].
    by rewrite lookup_insert_ne, lookup_empty by done.
Qed.

Lemma next_id_bound runs n : room (S n) runs -> 0 <= next_id runs /\ next_id runs + Z.of_nat n < 2 ^ 64.
Proof.
  intros [Hn Hr]. unfold next_id. pose proof (last_run_spec runs) as Hl. destruct (last_run runs) as [l|]; [|lia].
  destruct Hl as [[row Hrow] _]. pose proof (Hr _ _ Hrow). rewrite wrap_small by lia. lia.
Qed.
Lemma next_id_fresh runs n : room (S n) runs -> runs !! next_id runs = None.
Proof.
  intros [Hn Hr]. destruct (runs !! next_id runs) as [row|] eqn:E; [|done]. pose proof (Hr _ _ E).
  unfold next_id in *. pose proof (last_run_spec runs) as Hl. destruct (last_run runs) as [l|].
  - destruct Hl as [[? Hrow] Hl]. pose proof (Hr _ _ Hrow). rewrite wrap_small in E by lia. apply Hl in E. lia.
  - subst. by rewrite lookup_empty in E.
Qed.
Lemma next_id_room runs n row : room (S n) runs -> room n (<[next_id runs := row]> runs).
Proof.
  intros Hr. pose proof (next_id_bound _ _ Hr). destruct Hr as [Hn Hr]. split; [lia|]. intros id r.
  destruct (decide (next_id runs = id)) as [<-|]; [lia|]. rewrite lookup_insert_ne by done. intros ?%Hr. lia.
Qed.
Lemma room_less n m runs : (m <= n)%nat -> room n runs -> room m runs.
Proof. intros Hle [Hn Hr]. split; [lia|]. intros id row ?%Hr. lia. Qed.

(** ** Loops over the signatures of a transaction *)

(** A run whose callback is [m]. *)
Definition calls (m : Method) (runs : gmap Z RunRow) (r : Z) : Prop :=
  exists row, runs !! r = Some row /\ r_service row = self /\ r_method row = m.

Definition running_ids (l : list VerifyStatus) : list Z :=
  flat_map (fun v => match v with Running r => [r] | Verified _ => [] end) l.
Lemma elem_of_running_ids l r : r ∈ running_ids l <-> Running r ∈ l.
Proof.
  induction l as [|[r'|t] l IH]; cbn; [set_solver| |].
  - rewrite !elem_of_cons, IH. naive_solver.
  - rewrite elem_of_cons, IH. naive_solver.
Qed.
Lemma running_ids_map ids : running_ids (map Running ids) = ids.
Proof. induction ids as [|r ids IH]; cbn; [done | by f_equal]. Qed.

(** The tables after runs were added for [id], and after runs were cancelled. *)
Definition with_runs (pv : gmap Z TransactionId) (runs : gmap Z RunRow) (w : mempool) : mempool :=
  set_PendingVerify pv (set_Runs runs w).

Lemma new_run_eq row w : new_run row w = (Ok (next_id (Runs w)), set_Runs (<[next_id (Runs w) := row]> (Runs w)) w).
Proof. done. Qed.

Lemma verify_claims_spec id l w : room (length l) (Runs w) ->
  exists ids pv runs, verify_claims id l w = (Ok (map Running ids), with_runs pv runs w) /\
    length ids = length l /\ NoDup ids /\
    (forall r, r ∈ ids -> Runs w !! r = None /\ pv !! r = Some id /\ calls m_onVerify runs r) /\
    (forall r, r ∉ ids -> pv !! r = PendingVerify w !! r /\ runs !! r = Runs w !! r) /\
    (forall k, room (length l + k) (Runs w) -> room k runs).
Proof.
  revert w. induction l as [|[c p] l IH]; intros w Hr.
  - exists [], (PendingVerify w), (Runs w). split; [by destruct w|]. split_and!; try done; [constructor | set_solver].
  - set (r0 := next_id (Runs w)) in *.
    set (row := {| r_mode := mode_verify; r_maxTime := 200000; r_action := verifySys (claim_service c) id c p;
                   r_service := self; r_method := m_onVerify |}).
    set (w1 := set_PendingVerify (<[r0 := id]> (PendingVerify w)) (set_Runs (<[r0 := row]> (Runs w)) w)).
    assert (verify_claims id ((c, p) :: l) w = match verify_claims id l w1 with
      (Ok rs, w2) => (Ok (Running r0 :: rs), w2) | (Abort e, w2) => (Abort e, w2) end) as -> by reflexivity.
    destruct (IH w1) as (ids & pv & runs & Hv & Hlen & Hnd & Hin & Hout & Hk); [by apply next_id_room|].
    pose proof (next_id_fresh _ _ Hr) as Hf. fold r0 in Hf.
    assert (r0 ∉ ids) as Hr0 by (intros [Hx _]%Hin; cbn in Hx; by rewrite lookup_insert_eq in Hx).
    exists (r0 :: ids), pv, runs. rewrite Hv. split; [done|].
    split_and!; [cbn; by rewrite Hlen | by constructor | ..]; cbn in *.
    + intros r [->|Hx]%elem_of_cons.
      * destruct (Hout _ Hr0) as [-> Hrun]. rewrite lookup_insert_eq. split; [done|]. split; [done|]. exists row.
        rewrite Hrun, lookup_insert_eq. by split.
      * destruct (Hin _ Hx) as (Hn & ? & ?). rewrite lookup_insert_ne in Hn by congruence. done.
    + intros r [Hne Hx]%not_elem_of_cons. destruct (Hout _ Hx) as [-> ->]. by rewrite !lookup_insert_ne by done.
    + intros k Hroom. apply Hk. by apply next_id_room.
Qed.

Lemma cancel_ok m r w : calls m (Runs w) r \/ (exists m', calls m' (Runs w) r) ->
  cancel self r m w = (Ok tt, set_Runs (<[r := {| r_mode := mode_rpc; r_maxTime := 0; r_action := nop; r_service := self;
    r_method := m |}]> (Runs w)) w).
Proof.
  intros H. assert (exists row, Runs w !! r = Some row /\ r_service row = self) as (row & Hr & Hs) by (unfold calls in H;
    naive_solver).
  unfold cancel, mbind, st_bind, st_check, st_gets, check. rewrite Z.eqb_refl, Hr, Hs, Z.eqb_refl. done.
Qed.

Lemma calls_insert m runs r row r' : calls m runs r' -> (r = r' -> r_service row = self /\ r_method row = m) ->
  calls m (<[r := row]> runs) r'.
Proof.
  intros (row' & ? & ? & ?) Hrow. destruct (decide (r = r')) as [->|].
  - exists row. rewrite lookup_insert_eq. naive_solver.
  - exists row'. by rewrite lookup_insert_ne.
Qed.

Lemma cancelVerify_spec tx w :
  (forall r, Running r ∈ u_verifies tx -> calls m_onVerify (Runs w) r) ->
  exists pv runs, cancelVerify tx w = (Ok tt, with_runs pv runs w) /\
    (forall r, pv !! r = if decide (Running r ∈ u_verifies tx) then None else PendingVerify w !! r) /\
    (forall r m, calls m (Runs w) r -> calls m runs r) /\
    (forall n, room n (Runs w) -> room n runs).
Proof.
  unfold cancelVerify. generalize (u_verifies tx). intros l. revert w. induction l as [|[r0|t] l IH]; intros w H.
  - exists (PendingVerify w), (Runs w). split; [by destruct w|]. split_and!; [|naive_solver..]. intros r.
    rewrite decide_False by set_solver. done.
  - set (row := {| r_mode := mode_rpc; r_maxTime := 0; r_action := nop; r_service := self; r_method := m_onVerify |}).
    set (w1 := set_Runs (<[r0 := row]> (Runs w)) (set_PendingVerify (delete r0 (PendingVerify w)) w)).
    destruct (IH w1) as (pv & runs & Hc & Hpv & Hcalls & Hroom).
    { intros r Hr. apply calls_insert; [apply H; set_solver | done]. }
    exists pv, runs. match goal with |- st_iter ?f _ w = _ /\ _ =>
      assert (st_iter f (Running r0 :: l) w = match cancel self r0 m_onVerify (set_PendingVerify (delete r0 (PendingVerify w))
        w) with
        (Ok _, w2) => st_iter f l w2 | (Abort e, w2) => (Abort e, w2) end) as -> by reflexivity end.
    rewrite cancel_ok by (left; apply H; set_solver).
    split; [exact Hc|]. cbn in *. split_and!.
    + intros r. rewrite Hpv. cbn. destruct (decide (Running r ∈ l)); [by rewrite decide_True by set_solver|].
      destruct (decide (r = r0)) as [->|Hne]; [by rewrite lookup_delete_eq, decide_True by set_solver|].
      rewrite lookup_delete_ne by done. rewrite decide_False; [done|]. intros [[= ->]|?]%elem_of_cons; done.
    + intros r m Hm. apply Hcalls, calls_insert; [done|]. intros <-. destruct Hm as (? & Hx & ? & ?).
      destruct (H r0 ltac:(set_solver)) as (? & Hy & ? & ?). naive_solver.
    + intros n [Hn Hr]. apply Hroom. split; [done|]. intros id row'. destruct (H r0 ltac:(set_solver)) as (? & Hy & _).
      destruct (decide (r0 = id)) as [<-|]; [intros _; by eapply Hr|]. rewrite lookup_insert_ne by done. apply Hr.
  - destruct (IH w) as (pv & runs & Hc & Hpv & Hrest); [intros r Hr; apply H; set_solver|].
    exists pv, runs. split; [exact Hc|]. split; [|done]. intros r. rewrite Hpv.
    destruct (decide (Running r ∈ l)); [by rewrite decide_True by set_solver|]. rewrite decide_False; [done|].
    intros [[=]|?]%elem_of_cons; done.
Qed.

(** ** Consistent tables *)

(** The run that executes a transaction. *)
Definition spec_of (w : mempool) (x : TransactionId) : option Z :=
  match Unverified w !! x with
  | Some u => u_speculative u
  | None => match Pending w !! x with Some p => p_speculative p | None => None end
  end.
Definition available (w : mempool) : Z := default 0 (AvailableSequence w).
Definition tracked (w : mempool) (x : TransactionId) : Prop := is_Some (Unverified w !! x) \/ is_Some (Pending w !! x).

(** [o]: the transaction that is in neither table for now, with the run that executes it. *)
Record consistent (o : option (TransactionId * option Z)) (w : mempool) : Prop := {
  c_open : forall x sp, o = Some (x, sp) -> Unverified w !! x = None /\ Pending w !! x = None;
  c_verify : forall r x, PendingVerify w !! r = Some x <-> exists u, Unverified w !! x = Some u /\ Running r ∈ u_verifies u;
  c_nodup : forall x u, Unverified w !! x = Some u -> NoDup (running_ids (u_verifies u));
  c_spec : forall r x, Speculative w !! r = Some x <-> spec_of w x = Some r \/ o = Some (x, Some r);
  c_disj : forall x, Unverified w !! x = None \/ Pending w !! x = None;
  c_runs_v : forall r x, PendingVerify w !! r = Some x -> calls m_onVerify (Runs w) r;
  c_runs_s : forall r x, Speculative w !! r = Some x -> calls m_onSpecTrx (Runs w) r;
  c_seq : forall x p, Pending w !! x = Some p -> 0 <= p_sequence p < available w;
  c_uniq : forall x y p q, Pending w !! x = Some p -> Pending w !! y = Some q -> p_sequence p = p_sequence q -> x = y;
  c_avail : 0 <= available w < 2 ^ 64;
  c_data : forall x t, TransactionData w !! x = Some t -> tracked w x \/ exists sp, o = Some (x, sp);
  c_sizes : forall x t, TransactionData w !! x = Some t -> length (claims (transaction t)) = length (proofs t);
  c_shape_u : forall x u t, Unverified w !! x = Some u -> TransactionData w !! x = Some t ->
    claims (transaction t) <> [] /\ length (u_verifies u) = length (claims (transaction t));
  c_shape_p : forall x p t, Pending w !! x = Some p -> TransactionData w !! x = Some t ->
    length (p_verifies p) = length (claims (transaction t))
}.

(** An equivalence that follows by rewriting with what is known. *)
Ltac iffs := first [ solve [clear; naive_solver] | intuition congruence | intuition (destruct_and?; congruence) ].

(** A row of the queue is taken out. *)
Lemma open_pending w x p : consistent None w -> Pending w !! x = Some p ->
  consistent (Some (x, p_speculative p)) (set_Pending (delete x (Pending w)) w).
Proof.
  intros [] Hp. assert (Unverified w !! x = None) as Hu by (destruct (c_disj0 x); congruence).
  split; unfold spec_of, available, tracked in *; cbn.
  - intros y sp [= <- <-]. by rewrite lookup_delete_eq.
  - done.
  - done.
  - intros r y. rewrite c_spec0. destruct (decide (x = y)) as [<-|Hne].
    + rewrite Hu, Hp, lookup_delete_eq. iffs.
    + rewrite lookup_delete_ne by done. iffs.
  - intros y. destruct (c_disj0 y) as [|Hy]; [by left|]. right. by apply lookup_delete_None; right.
  - done.
  - done.
  - intros y q [_ Hq]%lookup_delete_Some. eauto.
  - intros y z q q' [_ Hq]%lookup_delete_Some [_ Hq']%lookup_delete_Some. eauto.
  - done.
  - intros y t Ht. destruct (decide (x = y)) as [<-|Hne]; [right; by eexists|]. rewrite lookup_delete_ne by done.
    destruct (c_data0 _ _ Ht) as [|[? ?]]; [by left | done].
  - done.
  - done.
  - intros y q t [_ Hq]%lookup_delete_Some. eauto.
Qed.

(** A transaction that is verified is taken out, its runs being cancelled. *)
Lemma open_unverified w x u pv runs : consistent None w -> Unverified w !! x = Some u ->
  (forall r, pv !! r = if decide (Running r ∈ u_verifies u) then None else PendingVerify w !! r) ->
  (forall r m, calls m (Runs w) r -> calls m runs r) ->
  consistent (Some (x, u_speculative u)) (set_Unverified (delete x (Unverified w)) (with_runs pv runs w)).
Proof.
  intros [] Hu Hpv Hcalls. assert (Pending w !! x = None) as Hp by (destruct (c_disj0 x); congruence).
  split; unfold spec_of, available, tracked in *; cbn.
  - intros y sp [= <- <-]. by rewrite lookup_delete_eq.
  - intros r y. rewrite Hpv. destruct (decide (Running r ∈ u_verifies u)) as [Hr|Hr].
    + split; [done|]. intros (u' & Hu'%lookup_delete_Some & Hr'). destruct Hu' as [Hne Hu'].
      assert (PendingVerify w !! r = Some x) by (apply c_verify0; eauto).
      assert (PendingVerify w !! r = Some y) by (apply c_verify0; eauto). congruence.
    + rewrite c_verify0. destruct (decide (x = y)) as [<-|Hne]; [|by rewrite lookup_delete_ne].
      rewrite lookup_delete_eq, Hu. split; [|by intros (? & ? & ?)]. intros (? & [= <-] & ?). done.
  - intros y u' [_ Hu']%lookup_delete_Some. eauto.
  - intros r y. rewrite c_spec0. destruct (decide (x = y)) as [<-|Hne].
    + rewrite Hu, Hp, lookup_delete_eq. iffs.
    + rewrite lookup_delete_ne by done. iffs.
  - intros y. destruct (c_disj0 y) as [Hy|]; [|by right]. left. by apply lookup_delete_None; right.
  - intros r y. rewrite Hpv. destruct (decide _); [done|]. eauto.
  - eauto.
  - done.
  - done.
  - done.
  - intros y t Ht. destruct (decide (x = y)) as [<-|Hne]; [right; by eexists|]. rewrite lookup_delete_ne by done.
    destruct (c_data0 _ _ Ht) as [|[? ?]]; [by left | done].
  - done.
  - intros y u' t [_ Hu']%lookup_delete_Some. eauto.
  - done.
Qed.

(** A transaction enters the queue. *)
Lemma close_pending w x sp exp ctime tokens : consistent (Some (x, sp)) w -> available w + 1 < 2 ^ 64 ->
  (forall t, TransactionData w !! x = Some t -> length tokens = length (claims (transaction t))) ->
  consistent None (set_Pending (<[x := {| p_expiration := exp; p_ctime := ctime; p_sequence := available w; p_verifies :=
    tokens;
                                          p_speculative := sp |}]> (Pending w)) (set_AvailableSequence (Some (available w + 1))
                                            w)).
Proof.
  intros [] Hroom Hlen. destruct (c_open0 _ _ eq_refl) as [Hu Hp].
  split; unfold spec_of, available, tracked in *; cbn.
  - done.
  - done.
  - done.
  - intros r y. rewrite c_spec0. destruct (decide (x = y)) as [<-|Hne].
    + rewrite Hu, Hp, lookup_insert_eq. cbn. iffs.
    + rewrite lookup_insert_ne by done. iffs.
  - intros y. destruct (decide (x = y)) as [<-|Hne]; [by left|]. rewrite lookup_insert_ne by done. done.
  - done.
  - done.
  - intros y q. destruct (decide (x = y)) as [<-|Hne].
    + rewrite lookup_insert_eq. intros [= <-]. cbn. lia.
    + rewrite lookup_insert_ne by done. intros ?%c_seq0. lia.
  - intros y z q q'. rewrite !lookup_insert_Some. intros [[<- <-]|[? Hq]] [[<- <-]|[? Hq']]; cbn; try done.
    + intros E. apply c_seq0 in Hq'. lia.
    + intros E. apply c_seq0 in Hq. lia.
    + eauto.
  - lia.
  - intros y t Ht. left. destruct (decide (x = y)) as [<-|Hne]; [right; rewrite lookup_insert_eq; eauto|].
    rewrite lookup_insert_ne by done. destruct (c_data0 _ _ Ht) as [|[? ?]]; [done | congruence].
  - done.
  - done.
  - intros y q t. destruct (decide (x = y)) as [<-|Hne].
    + rewrite lookup_insert_eq. intros [= <-] Ht. cbn. auto.
    + rewrite lookup_insert_ne by done. eauto.
Qed.

(** The signatures of a transaction are given to new runs. *)
Lemma close_unverified w x sp u pv runs ids : consistent (Some (x, sp)) w ->
  u_verifies u = map Running ids -> u_speculative u = sp -> NoDup ids ->
  (forall r, r ∈ ids -> Runs w !! r = None /\ pv !! r = Some x /\ calls m_onVerify runs r) ->
  (forall r, r ∉ ids -> pv !! r = PendingVerify w !! r /\ runs !! r = Runs w !! r) ->
  (forall t, TransactionData w !! x = Some t -> claims (transaction t) <> [] /\ length ids = length (claims (transaction t))) ->
  consistent None (set_Unverified (<[x := u]> (Unverified w)) (with_runs pv runs w)).
Proof.
  intros [] Hv Hsp Hnd Hin Hout Hlen. destruct (c_open0 _ _ eq_refl) as [Hu Hp].
  assert (forall r, Running r ∈ u_verifies u <-> r ∈ ids) as Hids by (intros r;
    rewrite <- elem_of_running_ids, Hv, running_ids_map; done).
  assert (forall r m, calls m (Runs w) r -> (r ∉ ids) /\ calls m runs r) as Hcalls.
  { intros r m (row & Hr & ?). assert (r ∉ ids) as Hni by (intros [? _]%Hin; congruence). split; [done|].
    exists row. destruct (Hout _ Hni) as [_ ->]. done. }
  split; unfold spec_of, available, tracked in *; cbn.
  - done.
  - intros r y. destruct (decide (r ∈ ids)) as [Hr|Hr].
    + destruct (Hin _ Hr) as (Hn & -> & _). split.
      * intros [= <-]. exists u. rewrite lookup_insert_eq, Hids. done.
      * intros (u' & [[<- ?]|[Hne Hu']]%lookup_insert_Some & Hr'); [done|].
        assert (PendingVerify w !! r = Some y) as (? & ? & _)%c_runs_v0 by (apply c_verify0; eauto). congruence.
    + destruct (Hout _ Hr) as [-> _]. rewrite c_verify0. destruct (decide (x = y)) as [<-|Hne].
      * rewrite Hu, lookup_insert_eq. split; [by intros (? & ? & ?)|]. intros (? & [= <-] & ?%Hids). done.
      * by rewrite lookup_insert_ne.
  - intros y u' [[<- <-]|[? ?]]%lookup_insert_Some; [rewrite Hv, running_ids_map; done | eauto].
  - intros r y. rewrite c_spec0. destruct (decide (x = y)) as [<-|Hne].
    + rewrite Hu, Hp, lookup_insert_eq. iffs.
    + rewrite lookup_insert_ne by done. iffs.
  - intros y. destruct (decide (x = y)) as [<-|Hne]; [by right | by rewrite lookup_insert_ne].
  - intros r y. destruct (decide (r ∈ ids)) as [Hr|Hr]; [intros _; by apply Hin|].
    destruct (Hout _ Hr) as [-> _]. intros H. by eapply Hcalls, c_runs_v0.
  - intros r y H. by eapply Hcalls, c_runs_s0.
  - done.
  - done.
  - done.
  - intros y t Ht. left. destruct (decide (x = y)) as [<-|Hne]; [left; rewrite lookup_insert_eq; eauto|].
    rewrite lookup_insert_ne by done. destruct (c_data0 _ _ Ht) as [|[? ?]]; [done | congruence].
  - done.
  - intros y u' t [[<- <-]|[? Hu']]%lookup_insert_Some Ht; [|eauto]. rewrite Hv, length_map. auto.
  - done.
Qed.

(** Only these tables matter. *)
Record same_books (w w' : mempool) : Prop := {
  sb_pending : Pending w' = Pending w;
  sb_data : TransactionData w' = TransactionData w;
  sb_available : AvailableSequence w' = AvailableSequence w;
  sb_unverified : Unverified w' = Unverified w;
  sb_verify : PendingVerify w' = PendingVerify w;
  sb_speculative : Speculative w' = Speculative w;
  sb_runs : Runs w' = Runs w
}.
Lemma consistent_frame o w w' : same_books w w' -> consistent o w -> consistent o w'.
Proof.
  intros [EP ED EA EU EV ES ER] []. split; unfold spec_of, available, tracked in *; rewrite ?EP, ?ED, ?EA, ?EU, ?EV, ?ES, ?ER;
    auto.
Qed.

(** A transaction that is not there enters, and one that is out is forgotten. *)
Lemma open_untracked w x : consistent None w -> ~ tracked w x -> consistent (Some (x, None)) w.
Proof.
  intros [] Hx. assert (Unverified w !! x = None /\ Pending w !! x = None) as [Hu Hp].
  { unfold tracked in Hx. split; [destruct (Unverified w !! x) eqn:E | destruct (Pending w !! x) eqn:E]; try done;
      destruct Hx; unfold is_Some; eauto. }
  split; try done; [by intros ? ? [= <- <-] | | intros; left; by destruct (c_data0 _ _ H) as [|[? ?]]].
  intros r y. rewrite c_spec0. iffs.
Qed.
Lemma untracked_no_data w x : consistent None w -> ~ tracked w x -> TransactionData w !! x = None.
Proof. intros [] Hx. destruct (TransactionData w !! x) as [t|] eqn:E; [|done]. destruct (c_data0 _ _ E) as [|[? ?]]; done. Qed.

Lemma close_forget w x : consistent (Some (x, None)) w -> consistent None (set_TransactionData (delete x (TransactionData w))
  w).
Proof.
  intros []. split; unfold spec_of, available, tracked in *; cbn; try done.
  - intros r y. rewrite c_spec0. iffs.
  - intros y t [Hne Ht]%lookup_delete_Some. destruct (c_data0 _ _ Ht) as [|[? [= <-]]]; [by left | done].
  - intros y t [Hne Ht]%lookup_delete_Some. eauto.
  - intros y u t Hu [Hne Ht]%lookup_delete_Some. eauto.
  - intros y p t Hp [Hne Ht]%lookup_delete_Some. eauto.
Qed.

(** The transaction that is out gets the data it is kept with. *)
Lemma put_data_tracked w x t : consistent None w -> tracked w x -> length (claims (transaction t)) = length (proofs t) ->
  (forall u, Unverified w !! x = Some u -> claims (transaction t) <> [] /\ length (u_verifies u) = length (claims (transaction
    t))) ->
  (forall p, Pending w !! x = Some p -> length (p_verifies p) = length (claims (transaction t))) ->
  consistent None (set_TransactionData (<[x := t]> (TransactionData w)) w).
Proof.
  intros [] Hx Hlen Hu Hp. split; unfold spec_of, available, tracked in *; cbn; try done.
  - intros y t' [[<- <-]|[? Ht]]%lookup_insert_Some; [by left | eauto].
  - intros y t' [[<- <-]|[? Ht]]%lookup_insert_Some; [done | eauto].
  - intros y u t' ? [[<- <-]|[? Ht]]%lookup_insert_Some; [auto | eauto].
  - intros y p t' ? [[<- <-]|[? Ht]]%lookup_insert_Some; [auto | eauto].
Qed.

Lemma cancelSpeculative_spec w x sp : consistent (Some (x, sp)) w ->
  exists s runs, cancelSpeculative sp w = (Ok tt, set_Speculative s (set_Runs runs w)) /\
    consistent (Some (x, None)) (set_Speculative s (set_Runs runs w)) /\ (forall n, room n (Runs w) -> room n runs).
Proof.
  intros HC. destruct sp as [r|].
  2:{ exists (Speculative w), (Runs w). split; [by destruct w|]. split; [|done]. eapply consistent_frame; [|exact HC]. done. }
  pose proof HC as []. assert (Speculative w !! r = Some x) as Hr by (apply c_spec0; by right).
  destruct (c_runs_s0 _ _ Hr) as (row & Hrow & Hs & Hm).
  set (row' := {| r_mode := mode_rpc; r_maxTime := 0; r_action := nop; r_service := self; r_method := m_onSpecTrx |}).
  exists (delete r (Speculative w)), (<[r := row']> (Runs w)). split_and!.
  - cbn [cancelSpeculative]. unfold mbind, st_bind, erase_speculative, st_put. rewrite cancel_ok; [done|]. right.
    exists (r_method row), row. done.
  - split; unfold spec_of, available, tracked in *; cbn; try done.
    + intros y sp [= <- <-]. eauto.
    + intros r' y. destruct (decide (r = r')) as [<-|Hne].
      * rewrite lookup_delete_eq. split; [done|]. intros [H|[=]]. destruct (c_open0 _ _ eq_refl) as [E1 E2].
        assert (Speculative w !! r = Some y) as Hy by (apply c_spec0; by left).
        assert (x = y) as <- by congruence. by rewrite E1, E2 in H.
      * rewrite lookup_delete_ne by done. rewrite c_spec0. iffs.
    + intros r' y H%c_runs_v0. apply calls_insert; [done|]. intros <-. destruct H as (? & ? & ? & ?). congruence.
    + intros r' y [Hne H]%lookup_delete_Some. eapply calls_insert; [eauto|]. done.
    + intros y t Ht. destruct (c_data0 _ _ Ht) as [|[? [= <- <-]]]; [by left | eauto].
  - intros n [Hn Hroom]. split; [done|]. intros id row''. destruct (decide (r = id)) as [<-|]; [intros _; by eapply Hroom|].
    rewrite lookup_insert_ne by done. apply Hroom.
Qed.

Lemma scheduleSpeculative_spec w x trx n : consistent (Some (x, None)) w -> room (S n) (Runs w) ->
  exists r s runs, scheduleSpeculative x trx w = (Ok r, set_Speculative s (set_Runs runs w)) /\
    consistent (Some (x, Some r)) (set_Speculative s (set_Runs runs w)) /\ room n runs.
Proof.
  intros HC Hr. pose proof HC as []. pose proof (next_id_fresh _ _ Hr) as Hf.
  set (row := {| r_mode := mode_speculative; r_maxTime := 1000000; r_action := execTrx (transaction trx) true;
    r_service := self; r_method := m_onSpecTrx |}).
  exists (next_id (Runs w)), (<[next_id (Runs w) := x]> (Speculative w)), (<[next_id (Runs w) := row]> (Runs w)).
  split; [done|]. split; [|by apply next_id_room]. destruct (c_open0 _ _ eq_refl) as [E1 E2].
  assert (forall m r, calls m (Runs w) r -> calls m (<[next_id (Runs w) := row]> (Runs w)) r) as Hcalls.
  { intros m r H. apply calls_insert; [done|]. intros <-. destruct H as (? & ? & ?). congruence. }
  split; unfold spec_of, available, tracked in *; cbn; try done.
  - intros y sp [= <- <-]. eauto.
  - intros r y. destruct (decide (next_id (Runs w) = r)) as [<-|Hne].
    + rewrite lookup_insert_eq. split; [intros [= <-]; by right|]. intros [H|[= <-]]; [|done].
      assert (Speculative w !! next_id (Runs w) = Some y) as (? & ? & _)%c_runs_s0 by (apply c_spec0; by left). congruence.
    + rewrite lookup_insert_ne by done. rewrite c_spec0. iffs.
  - eauto.
  - intros r y [[<- <-]|[? H]]%lookup_insert_Some; [|eauto]. exists row. by rewrite lookup_insert_eq.
  - intros y t Ht. destruct (c_data0 _ _ Ht) as [|[? [= <- <-]]]; [by left | eauto].
Qed.
