(* ===== verification/RTransactSteps.v ===== *)
(** * psibase: what each subjective transaction of RTransact does

    For each block of [RTransact.v] that writes the shared tables: from consistent tables it
    ends with consistent tables, which transactions it adds or drops, and how it can abort. *)

From S2P Require Import Prelude Services Transact HttpServer RTransact RTransactInv.
Import RTransact.
Close Scope nat_scope.

(** The tables that the queue functions leave alone. *)
Record same_rest (w w' : mempool) : Prop := {
  sr_data : TransactionData w' = TransactionData w;
  sr_failed : TxFailed w' = TxFailed w;
  sr_reverify : ReverifySignatures w' = ReverifySignatures w;
  sr_stats : TxStats w' = TxStats w;
  sr_clients : TraceClients w' = TraceClients w;
  sr_http : http w' = http w;
  sr_wo : wo w' = wo w
}.

(** ** Tokens *)

Lemma resolve_verified l : running_ids l = [] -> exists tokens, resolveVerifies l = Ok tokens /\ l = map Verified tokens.
Proof.
  induction l as [|[r|t] l IH]; cbn; intros H.
  - by exists [].
  - done.
  - destruct (IH H) as (ts & -> & ->). by exists (t :: ts).
Qed.

Lemma set_token_spec id t l : exists l' ready, set_token id (Some t) l = Ok (l', ready) /\ length l' = length l /\
  (forall r, Running r ∈ l' <-> Running r ∈ l /\ r <> id) /\
  (ready = true <-> running_ids l' = []) /\ (NoDup (running_ids l) -> NoDup (running_ids l')) /\
  (forall i v, l !! i = Some v -> l' !! i = Some (if decide (v = Running id) then Verified t else v)).
Proof.
  induction l as [|v l IH].
  - exists [], true. split_and!; try done. set_solver.
  - destruct IH as (l' & ready & E & Hlen & Hr & Hready & Hnd & Hi). cbn [set_token]. rewrite E. destruct v as [r|t'].
    + destruct (Z.eqb_spec r id) as [->|Hne]; cbn.
      * exists (Verified t :: l'), ready. split_and!; [done | by rewrite <- Hlen | | done | |].
        -- intros r. rewrite !elem_of_cons, Hr. naive_solver.
        -- intros [_ ?]%NoDup_cons. auto.
        -- intros [|i] v; cbn; [|auto]. intros [= <-]. by rewrite decide_True.
      * exists (Running r :: l'), false. split_and!; [done | by rewrite <- Hlen | | done | |].
        -- intros r'. rewrite !elem_of_cons, Hr. naive_solver.
        -- intros [Hni Hnd']%NoDup_cons. apply NoDup_cons. split; [|auto]. rewrite elem_of_running_ids, Hr.
           rewrite elem_of_running_ids in Hni. naive_solver.
        -- intros [|i] v; cbn; [|auto]. intros [= <-]. rewrite decide_False; [done | congruence].
    + exists (Verified t' :: l'), ready. split_and!; [done | cbn; by rewrite <- Hlen | | done | auto |].
      * intros r. rewrite !elem_of_cons, Hr. naive_solver.
      * intros [|i] v; cbn; [|auto]. intros [= <-]. by rewrite decide_False.
Qed.

(** ** Runs that end *)

Lemma finish_ok m id w : calls m (Runs w) id -> finish self id w = (Ok tt, set_Runs (delete id (Runs w)) w).
Proof.
  intros (row & Hr & Hs & _). unfold finish, mbind, st_bind, st_check, st_gets, check. rewrite Z.eqb_refl, Hr, Hs, Z.eqb_refl.
  done.
Qed.
Lemma calls_delete m runs id r : calls m runs r -> id <> r -> calls m (delete id runs) r.
Proof. intros (row & ? & ?) ?. exists row. by rewrite lookup_delete_ne. Qed.
Lemma room_delete n runs id : room n runs -> room n (delete id runs).
Proof. intros [? Hr]. split; [done|]. intros id' row [_ ?]%lookup_delete_Some. eauto. Qed.

(** A run that no transaction waits for. *)
Lemma finish_stray m id w : consistent None w -> calls m (Runs w) id ->
  (m = m_onVerify -> PendingVerify w !! id = None) -> (m = m_onSpecTrx -> Speculative w !! id = None) ->
  consistent None (set_Runs (delete id (Runs w)) w).
Proof.
  intros [] (row & Hrow & Hs & Hm) Hv Hsp. split; unfold spec_of, available, tracked in *; cbn; try done.
  - intros r x Hr. pose proof (c_runs_v _ _ Hr) as Hc. apply calls_delete; [done|]. intros <-.
    destruct Hc as (? & ? & ? & ?). rewrite Hv in Hr; [done | congruence].
  - intros r x Hr. pose proof (c_runs_s _ _ Hr) as Hc. apply calls_delete; [done|]. intros <-.
    destruct Hc as (? & ? & ? & ?). rewrite Hsp in Hr; [done | congruence].
Qed.

(** A run that verified a signature, with its token stored in its place. *)
Lemma verify_done id x u u' w : consistent None w -> PendingVerify w !! id = Some x -> Unverified w !! x = Some u ->
  (forall r, Running r ∈ u_verifies u' <-> Running r ∈ u_verifies u /\ r <> id) -> NoDup (running_ids (u_verifies u')) ->
  length (u_verifies u') = length (u_verifies u) -> u_speculative u' = u_speculative u ->
  consistent None (set_Unverified (<[x := u']> (Unverified w)) (with_runs (delete id (PendingVerify w)) (delete id (Runs w))
    w)).
Proof.
  intros [] Hid Hu Hr Hnd Hlen Hsp. assert (Pending w !! x = None) as Hp by (destruct (c_disj x); congruence).
  destruct (c_runs_v _ _ Hid) as (row & Hrow & _ & Hm).
  split; unfold spec_of, available, tracked in *; cbn; try done.
  - intros r y. rewrite lookup_delete_Some, c_verify. destruct (decide (x = y)) as [<-|Hne].
    + rewrite lookup_insert_eq. split.
      * intros (? & u1 & E & ?). assert (u1 = u) as -> by congruence. exists u'. split; [done|]. apply Hr. by split.
      * intros (? & [= <-] & [? ?]%Hr). split; [congruence | eauto].
    + rewrite lookup_insert_ne by done. split; [by intros [_ ?]|]. intros (u1 & E & Hr1). split; [|eauto].
      intros <-. assert (PendingVerify w !! id = Some y) by (apply c_verify; eauto). congruence.
  - intros y u1 [[<- <-]|[? ?]]%lookup_insert_Some; eauto.
  - intros r y. rewrite c_spec. destruct (decide (x = y)) as [<-|Hne]; [|by rewrite lookup_insert_ne].
    by rewrite Hu, lookup_insert_eq, Hsp.
  - intros y. destruct (decide (x = y)) as [<-|Hne]; [by right | by rewrite lookup_insert_ne].
  - intros r y [Hne Hy]%lookup_delete_Some. apply calls_delete; eauto.
  - intros r y Hy. pose proof (c_runs_s _ _ Hy) as Hc. apply calls_delete; [done|]. intros <-.
    destruct Hc as (? & ? & ? & ?). congruence.
  - intros y t Ht. left. destruct (decide (x = y)) as [<-|Hne]; [left; rewrite lookup_insert_eq; eauto|].
    rewrite lookup_insert_ne by done. destruct (c_data _ _ Ht) as [|[? ?]]; done.
  - intros y u1 t [[<- <-]|[? Hu1]]%lookup_insert_Some Ht; [rewrite Hlen; eauto | eauto].
Qed.

(** A run that executed a transaction, which is noted in the transaction's row. *)
Lemma spec_done id x w w' : consistent None w -> Speculative w !! id = Some x ->
  w' = (match Unverified w !! x with
        | Some u => set_Unverified (<[x := without_speculative u]> (Unverified w)) w
        | None => match Pending w !! x with
                  | Some p => set_Pending (<[x := p_without_speculative p]> (Pending w)) w
                  | None => w
                  end
        end) ->
  consistent None (set_Speculative (delete id (Speculative w)) (set_Runs (delete id (Runs w)) w')).
Proof.
  intros [] Hid ->. destruct (c_runs_s _ _ Hid) as (row & Hrow & _ & Hm).
  assert (spec_of w x = Some id) as Hx by (destruct (proj1 (c_spec _ _) Hid); done).
  assert (forall r y, PendingVerify w !! r = Some y -> calls m_onVerify (delete id (Runs w)) r) as Hv.
  { intros r y Hy. pose proof (c_runs_v _ _ Hy) as Hc. apply calls_delete; [done|]. intros <-. destruct Hc as (? & ? & ? & ?).
    congruence. }
  assert (forall r y, delete id (Speculative w) !! r = Some y -> calls m_onSpecTrx (delete id (Runs w)) r) as Hs.
  { intros r y [? ?]%lookup_delete_Some. apply calls_delete; eauto. }
  unfold spec_of in Hx. destruct (Unverified w !! x) as [u|] eqn:Hu; [|destruct (Pending w !! x) as [p|] eqn:Hp; [|done]].
  - split; unfold spec_of, available, tracked in *; cbn; try done.
    + intros r y. destruct (decide (x = y)) as [<-|Hne]; [|by rewrite lookup_insert_ne].
      rewrite lookup_insert_eq, c_verify, Hu. clear. naive_solver.
    + intros y u1 [[<- <-]|[? ?]]%lookup_insert_Some; [exact (c_nodup _ _ Hu) | eauto].
    + intros r y. rewrite lookup_delete_Some, c_spec. destruct (decide (x = y)) as [<-|Hne].
      * rewrite lookup_insert_eq, Hu. cbn. split; [|intros [?|?]; done]. intros [? [?|?]]; congruence.
      * rewrite lookup_insert_ne by done. split; [by intros [_ ?]|]. intros [H|H]; [|done]. split; [|by left].
        intros <-. assert (Speculative w !! id = Some y) by (apply c_spec; by left). congruence.
    + intros y. destruct (decide (x = y)) as [<-|Hne]; [right; destruct (c_disj x); congruence | by rewrite lookup_insert_ne].
    + intros y t Ht. left. destruct (decide (x = y)) as [<-|Hne]; [left; rewrite lookup_insert_eq; eauto|].
      rewrite lookup_insert_ne by done. destruct (c_data _ _ Ht) as [|[? ?]]; done.
    + intros y u1 t [[<- <-]|[? Hu1]]%lookup_insert_Some Ht; [exact (c_shape_u _ _ _ Hu Ht) | eauto].
  - split; unfold spec_of, available, tracked in *; cbn; try done.
    + intros r y. rewrite lookup_delete_Some, c_spec. destruct (decide (x = y)) as [<-|Hne].
      * rewrite lookup_insert_eq, Hu, Hp. cbn. split; [|intros [?|?]; done]. intros [? [?|?]]; congruence.
      * rewrite lookup_insert_ne by done. split; [by intros [_ ?]|]. intros [H|H]; [|done]. split; [|by left].
        intros <-. assert (Speculative w !! id = Some y) by (apply c_spec; by left). congruence.
    + intros y. destruct (decide (x = y)) as [<-|Hne]; [by left | by rewrite lookup_insert_ne].
    + intros y p1 [[<- <-]|[? ?]]%lookup_insert_Some; [exact (c_seq _ _ Hp) | eauto].
    + assert (forall y p1, <[x:=p_without_speculative p]> (Pending w) !! y = Some p1 ->
        exists p2, Pending w !! y = Some p2 /\ p_sequence p2 = p_sequence p1) as Hseq.
      { intros y p1 [[<- <-]|[? ?]]%lookup_insert_Some; eauto. }
      intros y z p1 p2 (q1 & ? & <-)%Hseq (q2 & ? & <-)%Hseq. eauto.
    + intros y t Ht. left. destruct (decide (x = y)) as [<-|Hne]; [right; rewrite lookup_insert_eq; eauto|].
      rewrite lookup_insert_ne by done. destruct (c_data _ _ Ht) as [|[? ?]]; done.
    + intros y p1 t [[<- <-]|[? Hu1]]%lookup_insert_Some Ht; [exact (c_shape_p _ _ _ Hp Ht) | eauto].
Qed.

(** ** The queue *)

Lemma addCallback_ok type m w : exists nt, addCallback self type m w = (Ok tt, set_Notify nt w).
Proof.
  unfold addCallback, mbind, st_bind, st_check, st_gets, check. rewrite Z.eqb_refl.
  destruct (Notify w !! notify_value type) as [acts|]; [|by eexists]. destruct (bool_decide _); [|by eexists].
  exists (Notify w). by destruct w.
Qed.
Lemma removeCallback_ok type m w : exists nt, removeCallback self type m w = (Ok tt, set_Notify nt w).
Proof.
  unfold removeCallback, mbind, st_bind, st_check, st_gets, check. rewrite Z.eqb_refl.
  destruct (Notify w !! notify_value type) as [acts|]; [|exists (Notify w); by destruct w].
  destruct (filter _ acts); by eexists.
Qed.

Definition queued_row (now exp : Z) (w : mempool) (tokens : list bytes) (sp : option Z) : PendingTransactionRecord :=
  {| p_expiration := exp; p_ctime := now; p_sequence := available w; p_verifies := tokens; p_speculative := sp |}.

Lemma queueTransaction_eq now x exp vs sp w : running_ids vs = [] -> 0 <= available w -> available w + 1 < 2 ^ 64 ->
  exists nt tokens, vs = map Verified tokens /\
    queueTransaction now x exp vs sp w =
      (Ok tt, set_Notify nt (set_Pending (<[x := queued_row now exp w tokens sp]> (Pending w)) (set_AvailableSequence (Some
        (available w + 1)) w))).
Proof.
  intros Hv Ha Hroom. destruct (resolve_verified _ Hv) as (tokens & Hr & ->).
  set (w1 := set_Pending (<[x := queued_row now exp w tokens sp]> (Pending w)) (set_AvailableSequence (Some (available w + 1))
    w)).
  destruct (addCallback_ok nextTransaction m_next w1) as [n1 E1].
  destruct (addCallback_ok preverifyTransaction m_preverify (set_Notify n1 w1)) as [n2 E2].
  exists n2, tokens. split; [done|].
  assert (queueTransaction now x exp (map Verified tokens) sp w = match resolveVerifies (map Verified tokens) with
    | Ok ts => (addCallback self nextTransaction m_next ;; addCallback self preverifyTransaction m_preverify)
        (set_Pending (<[x := queued_row now exp w ts sp]> (Pending w)) (set_AvailableSequence (Some (u64 (available w + 1))) w))
    | Abort e => (Abort e, set_AvailableSequence (Some (u64 (available w + 1))) w) end) as ->.
  { unfold queueTransaction, mbind, st_bind, st_gets, st_put, st_lift. by destruct (resolveVerifies _). }
  rewrite Hr, wrap_small by lia. fold w1. unfold mbind, st_bind. rewrite E1, E2. done.
Qed.

(** [x] becomes tracked, and nothing else changes of what is. *)
Definition tracks_also (x : TransactionId) (w w' : mempool) : Prop := forall y, tracked w' y <-> y = x \/ tracked w y.

Lemma scheduleVerify_spec now x trx verified sp w :
  let w0 := set_Unverified (delete x (Unverified w)) w in
  let cs := claims (transaction trx) in
  consistent (Some (x, sp)) w0 -> length cs = length (proofs trx) ->
  (forall t, TransactionData w !! x = Some t -> t = trx) -> (cs = [] -> Unverified w !! x = None) ->
  room (length cs) (Runs w) -> available w + 1 < 2 ^ 64 ->
  exists w', scheduleVerify now x trx verified sp w = (Ok tt, w') /\ consistent None w' /\ same_rest w w' /\
    tracks_also x w w' /\
    (forall u, Unverified w' !! x = Some u -> cs <> [] /\ length (u_verifies u) = length cs) /\
    (forall p, Pending w' !! x = Some p -> length (p_verifies p) = length cs /\ p_sequence p = available w) /\
    (forall y, y <> x -> Pending w' !! y = Pending w !! y) /\ (available w <= available w' <= available w + 1) /\
    (forall k, room (length cs + k) (Runs w) -> room k (Runs w')).
Proof.
  intros w0 cs HC Hlen Hdata Hempty Hroom Havail.
  assert (Pending w !! x = None) as Hp by (destruct HC; by destruct (c_open _ _ eq_refl)).
  destruct (verify_claims_spec x (zip cs (proofs trx)) w) as (ids & pv & runs & Hv & Hids & Hnd & Hin & Hout & Hk).
  { rewrite length_zip_with, <- Hlen, Nat.min_id. done. }
  rewrite length_zip_with, <- Hlen, Nat.min_id in Hids, Hk.
  assert (scheduleVerify now x trx verified sp w = match verify_claims x (zip cs (proofs trx)) w with
    | (Ok remaining, w1) => (match cs with [] => queueTransaction now x (expiration (tapos (transaction trx))) remaining sp
        | _ => put_unverified x {| u_expiration := expiration (tapos (transaction trx)); u_verifies := remaining;
          u_verifyId := zero_hash;
                                   u_verified := verified; u_speculative := sp |} end) w1
    | (Abort e, w1) => (Abort e, w1) end) as ->.
  { unfold scheduleVerify, mbind, st_bind, st_check, check. fold cs. rewrite (proj2 (Nat.eqb_eq _ _) Hlen). done. }
  rewrite Hv. destruct cs as [|c cs'] eqn:Ecs.
  - destruct ids as [|]; [|done]. pose proof (Hempty eq_refl) as Hu.
    destruct (queueTransaction_eq now x (expiration (tapos (transaction trx))) [] sp (with_runs pv runs w)) as (nt & tokens & Ht
      & Hq);
      [done | exact (proj1 (c_avail _ _ HC)) | done |]. destruct tokens; [|done]. cbn [map] in *. rewrite Hq. eexists.
      split; [done|].
    assert (pv = PendingVerify w) as -> by (apply map_eq; intros r; apply Hout; set_solver).
    assert (runs = Runs w) as -> by (apply map_eq; intros r; apply Hout; set_solver).
    split_and!.
    + eapply consistent_frame; [|apply (close_pending w0 x sp (expiration (tapos (transaction trx))) now [] HC); [done|]].
      * split; cbn; try done. by rewrite delete_id.
      * cbn. intros t ->%Hdata. fold cs. by rewrite Ecs.
    + done.
    + intros y. unfold tracked. cbn. destruct (decide (y = x)) as [->|Hne].
      * rewrite lookup_insert_eq. split; [by left | intros _; right; by eexists].
      * rewrite lookup_insert_ne by done. split; [by right | by intros [?|?]].
    + cbn. rewrite Hu. done.
    + cbn. rewrite lookup_insert_eq. by intros p [= <-].
    + intros y Hy. cbn. by rewrite lookup_insert_ne.
    + unfold available. cbn. lia.
    + unfold available. cbn. lia.
    + exact Hk.
  - set (u := {| u_expiration := expiration (tapos (transaction trx)); u_verifies := map Running ids; u_verifyId := zero_hash;
                 u_verified := verified; u_speculative := sp |}).
    exists (set_Unverified (<[x := u]> (Unverified w)) (with_runs pv runs w)). split; [reflexivity|]. split_and!.
    + eapply consistent_frame; [|eapply (close_unverified w0 x sp u pv runs ids HC); [done | done | done | exact Hin |
        exact Hout |]].
      * split; cbn; try done. by rewrite insert_delete_eq.
      * cbn. intros t ->%Hdata. fold cs. rewrite Ecs. done.
    + done.
    + intros y. unfold tracked. cbn. destruct (decide (y = x)) as [->|Hne].
      * rewrite lookup_insert_eq. split; [by left | intros _; left; by eexists].
      * rewrite lookup_insert_ne by done. split; [by right | by intros [?|?]].
    + cbn. rewrite lookup_insert_eq. intros u' [= <-]. cbn. rewrite length_map. done.
    + cbn. rewrite Hp. done.
    + done.
    + unfold available. cbn. lia.
    + unfold available. cbn. lia.
    + exact Hk.
Qed.

(** ** Outcomes *)

(** Room for the runs and the sequence number that a block may need. *)
Definition fits (w : mempool) : Prop :=
  available w + 1 < 2 ^ 64 /\ room 1 (Runs w) /\
  forall x t, TransactionData w !! x = Some t -> room (length (claims (transaction t))) (Runs w).

Definition unprocessed_of (w : mempool) : Z := unprocessed (default no_stats (TxStats w)).

(** The transactions that are tracked afterwards: all of before but [drop]. *)
Record outcome (drop : option TransactionId) (w w' : mempool) : Prop := {
  oc_consistent : consistent None w';
  oc_tracked : forall y, tracked w' y <-> tracked w y /\ drop <> Some y;
  oc_data : forall y, drop <> Some y -> TransactionData w' !! y = TransactionData w !! y;
  oc_gone : forall y, drop = Some y -> tracked w y /\ TransactionData w' !! y = None;
  oc_stats : unprocessed_of w' = match drop with Some _ => u64 (unprocessed_of w - 1) | None => unprocessed_of w end
}.

(** What depends on the books alone. *)
Lemma tracked_same w w' y : same_books w w' -> tracked w' y <-> tracked w y.
Proof. intros []. unfold tracked. by rewrite sb_unverified, sb_pending. Qed.
Lemma outcome_frame drop w w1 w' : outcome drop w w1 -> same_books w1 w' -> TxStats w' = TxStats w1 -> outcome drop w w'.
Proof.
  intros [] Hs Hst. split.
  - exact (consistent_frame _ _ _ Hs oc_consistent0).
  - intros y. rewrite (tracked_same _ _ _ Hs). apply oc_tracked0.
  - intros y Hy. destruct Hs. rewrite sb_data. auto.
  - intros y Hy. destruct Hs. rewrite sb_data. auto.
  - unfold unprocessed_of in *. by rewrite Hst.
Qed.

Lemma outcome_none w w' : consistent None w' -> (forall y, tracked w' y <-> tracked w y) ->
  TransactionData w' = TransactionData w ->
  TxStats w' = TxStats w -> outcome None w w'.
Proof.
  intros HC Ht Hd Hs. split; [done | | by rewrite Hd | done | by unfold unprocessed_of; rewrite Hs].
  intros y. rewrite Ht. split; [done | by intros [? _]].
Qed.

(** The end of a failed transaction that has just left the tables. *)
Lemma reportSpeculativeFailure_spec trace x exp w w0 :
  consistent (Some (x, None)) w -> tracked w0 x -> (forall y, tracked w y <-> tracked w0 y /\ y <> x) ->
  TransactionData w = TransactionData w0 -> TxStats w = TxStats w0 ->
  exists e w', reportSpeculativeFailure trace x exp w = (Ok e, w') /\ outcome (Some x) w0 w'.
Proof.
  intros HC Hx Ht Hd Hs.
  set (w1 := set_TransactionData (delete x (TransactionData w)) w).
  set (s := default no_stats (TxStats w)).
  set (w2 := set_TxStats (Some {| unprocessed := u64 (unprocessed s - 1); total := total s; failed := u64 (failed s + 1);
                                  succeeded := succeeded s; expired := expired s |}) w1).
  assert (outcome (Some x) w0 w2) as Ho.
  { split.
    - eapply consistent_frame; [|apply (close_forget w x HC)]. done.
    - intros y. change (tracked w2 y) with (tracked w y). rewrite Ht. split; intros [? ?]; (split; [done | congruence]).
    - intros y Hy. cbn. rewrite lookup_delete_ne by congruence. by rewrite Hd.
    - intros y [= <-]. split; [done|]. cbn. by rewrite lookup_delete_eq.
    - unfold unprocessed_of. cbn. unfold s. by rewrite Hs. }
  assert (reportSpeculativeFailure trace x exp w = match TraceClients w !! x with
    | Some client =>
        ((if existsb isFinal (c_clients client) then put_failed x {| f_expiration := exp; f_trace := trace |} else mret tt) ;;
         mret (if existsb isApplied (c_clients client) then Some x else None)) w2
    | None => (Ok None, w2) end) as ->.
  { unfold reportSpeculativeFailure, erase_data, incFailedCount, put_stats, mbind, st_bind, st_put, st_gets. cbn.
    by destruct (TraceClients w !! x). }
  destruct (TraceClients w !! x) as [client|]; [|by eexists _, _].
  unfold mbind, st_bind. destruct (existsb isFinal _); eexists _, _; (split; [reflexivity|]); [|done].
  by eapply outcome_frame.
Qed.

(** ** [onVerify] *)

(** The row with the token, and the state when the block has read it. *)
Definition verified_row (rv : Checksum256) (u : UnverifiedTransactionRecord) (l : list VerifyStatus) (ready : bool) : UnverifiedTransactionRecord :=
  {| u_expiration := u_expiration u; u_verifies := l; u_verifyId := if bool_decide (u_verifyId u = zero_hash) then rv else u_verifyId u;
     u_verified := u_verified u || ready; u_speculative := u_speculative u |}.
Definition run_ended (id : Z) (w : mempool) : mempool := with_runs (delete id (PendingVerify w)) (delete id (Runs w)) w.

(** The signature was verified for the state that the chain has now. *)
Definition current_verify (trace : TransactionTrace) (rv : Checksum256) (u : UnverifiedTransactionRecord) (w : mempool) : bool :=
  let v := u_verifyId (verified_row rv u [] false) in
  bool_decide (error trace = None) && bool_decide (rv_verifyId (default no_reverify (ReverifySignatures w)) = v) && bool_decide (v = rv).

Lemma onVerify_tx_eq now id trace t rv w x u l ready :
  calls m_onVerify (Runs w) id -> PendingVerify w !! id = Some x -> Unverified w !! x = Some u ->
    set_token id (Some t) (u_verifies u) = Ok (l, ready) ->
  onVerify_tx now id trace (Some t) rv w =
    (if current_verify trace rv u w then
       if ready then
         queueTransaction now x (u_expiration u) l (u_speculative u) ;; remove_unverified x ;;
         mret (None, if negb (u_verified u) && bool_decide (u_speculative u = None) then Some x else None)
       else put_unverified x (verified_row rv u l ready) ;; mret (None, None)
     else
       cancelVerify (verified_row rv u l ready) ;;
       match error trace with
       | Some _ => remove_unverified x ;; cancelSpeculative (u_speculative u) ;; e ← reportSpeculativeFailure trace x
         (u_expiration u); mret (e, None)
       | None =>
           data ← st_gets TransactionData;
           match data !! x with
           | Some trx => scheduleVerify now x trx (u_verified u || ready) (u_speculative u) ;; mret (None, None)
           | None => st_abort "Missing transaction data"
           end
       end) (run_ended id w).
Proof.
  intros Hc Hx Hu Ht. unfold onVerify_tx. unfold mbind at 1, st_bind at 1. rewrite (finish_ok _ _ _ Hc).
  unfold mbind at 1, st_bind at 1, st_gets at 1. cbn [set_Runs PendingVerify]. rewrite Hx.
  unfold mbind at 1, st_bind at 1, erase_verify, st_put. unfold mbind at 1, st_bind at 1, st_gets at 1.
  cbn [set_Runs set_PendingVerify Unverified]. rewrite Hu. unfold mbind at 1, st_bind at 1, st_lift. rewrite Ht. reflexivity.
Qed.

(** From here the row is rewritten or leaves the table. *)
Section verified.
Context (id : Z) (t rv : bytes) (w : mempool) (x : TransactionId) (u : UnverifiedTransactionRecord) (l : list VerifyStatus) (ready : bool).
Hypothesis (HC : consistent None w) (Hx : PendingVerify w !! id = Some x) (Hu : Unverified w !! x = Some u)
  (Ht : set_token id (Some t) (u_verifies u) = Ok (l, ready)).
#[local] Set Default Proof Using "Type".

Lemma ended_consistent : consistent None (set_Unverified (<[x := verified_row rv u l ready]> (Unverified w)) (run_ended id w)).
Proof using HC Hx Hu Ht.
  destruct (set_token_spec id t (u_verifies u)) as (l' & ready' & E & Hlen & Hr & _ & Hnd & _). rewrite Ht in E.
  injection E as <- <-.
  apply verify_done with u; auto. by destruct HC; eauto.
Qed.

Lemma ended_open pv runs :
  (forall r, pv !! r = if decide (Running r ∈ l) then None else PendingVerify (run_ended id w) !! r) ->
  (forall r m, calls m (Runs (run_ended id w)) r -> calls m runs r) ->
  consistent (Some (x, u_speculative u)) (set_Unverified (delete x (Unverified w)) (with_runs pv runs w)).
Proof using HC Hx Hu Ht rv.
  intros Hpv Hruns. eapply consistent_frame; [|apply (open_unverified _ x (verified_row rv u l ready) pv runs
    ended_consistent)].
  - split; cbn; try done. by rewrite delete_insert_eq.
  - cbn. by rewrite lookup_insert_eq.
  - done.
  - done.
Qed.

Lemma ended_tracked w' : Unverified w' = delete x (Unverified w) -> Pending w' = Pending w -> forall y, tracked w' y <->
  tracked w y /\ y <> x.
Proof using HC Hu.
  intros HU HP y. unfold tracked. rewrite HU, HP. destruct (decide (x = y)) as [<-|Hne].
  - rewrite lookup_delete_eq. split; [|by intros [_ ?]]. intros [[? ?]|[p Hp]]; [done|]. destruct (c_disj _ _ HC x); congruence.
  - rewrite lookup_delete_ne by done. split; [|by intros [? _]]. split; congruence.
Qed.

(** The runs that are left are cancelled. *)
Lemma ended_cancel : exists pv runs, cancelVerify (verified_row rv u l ready) (run_ended id w) = (Ok tt, with_runs pv runs w) /\
  consistent (Some (x, u_speculative u)) (set_Unverified (delete x (Unverified w)) (with_runs pv runs w)) /\
  (forall n, room n (Runs w) -> room n runs).
Proof using HC Hx Hu Ht.
  destruct (cancelVerify_spec (verified_row rv u l ready) (run_ended id w)) as (pv & runs & Hc & Hpv & Hcalls & Hroom).
  { intros r Hr. eapply (c_runs_v _ _ ended_consistent r x). apply (c_verify _ _ ended_consistent). cbn.
    rewrite lookup_insert_eq. eauto. }
  exists pv, runs. split; [exact Hc|]. split; [by apply ended_open|]. intros n Hn. apply Hroom. cbn. by apply room_delete.
Qed.

End verified.

Lemma tracked_closed w x w' : (forall y, tracked w' y <-> tracked w y /\ y <> x) -> tracked w x ->
  forall w2, tracks_also x w' w2 -> forall y, tracked w2 y <-> tracked w y.
Proof. intros Ht Hx w2 H2 y. rewrite (H2 y), Ht. destruct (decide (y = x)) as [->|]; intuition. Qed.

(** A signature is verified, but not for the state the chain has now: all of them again. *)
Lemma onVerify_again now u ready x trx pv runs w :
  consistent None w -> Unverified w !! x = Some u -> fits w -> TransactionData w !! x = Some trx ->
  consistent (Some (x, u_speculative u)) (set_Unverified (delete x (Unverified w)) (with_runs pv runs w)) ->
  (forall n, room n (Runs w) -> room n runs) ->
  exists w', scheduleVerify now x trx ready (u_speculative u) (with_runs pv runs w) = (Ok tt, w') /\ outcome None w w'.
Proof.
  intros HC Hu (Ha & _ & Hr) Hd Ho Hroom. pose proof (c_shape_u _ _ HC _ _ _ Hu Hd) as [Hne _].
  destruct (scheduleVerify_spec now x trx ready (u_speculative u) (with_runs pv runs w)) as (w' & E & HC' & Hsr & Ht & _);
    try done.
  - apply (c_sizes _ _ HC _ _ Hd).
  - cbn. intros t'. congruence.
  - cbn. apply Hroom. eauto.
  - exists w'. split; [done|]. destruct Hsr. apply outcome_none; try done. intros y. rewrite (Ht y).
    change (tracked (with_runs pv runs w) y) with (tracked w y). split; [|by right]. intros [->|]; [left; eauto | done].
Qed.

(** The last signature is verified: the transaction is queued. *)
Lemma ended_queue now id t w x u tokens nt :
  consistent None w -> PendingVerify w !! id = Some x -> Unverified w !! x = Some u ->
  set_token id (Some t) (u_verifies u) = Ok (map Verified tokens, true) -> available w + 1 < 2 ^ 64 ->
  outcome None w (set_Unverified (delete x (Unverified w)) (set_Notify nt (set_Pending
    (<[x := queued_row now (u_expiration u) w tokens (u_speculative u)]> (Pending w)) (set_AvailableSequence (Some (available w
      + 1)) (run_ended id w))))).
Proof.
  intros HC Hx Hu Ht Ha. destruct (set_token_spec id t (u_verifies u)) as (l' & ready' & E & Hlen & _). rewrite Ht in E.
  injection E as <- <-.
  rewrite length_map in Hlen. apply outcome_none; try done.
  - pose proof (ended_open id t t w x u _ _ HC Hx Hu Ht (delete id (PendingVerify w)) (delete id (Runs w))) as Ho.
    eapply consistent_frame; [|eapply (close_pending _ x _ (u_expiration u) now tokens (Ho _ _)); [done|]]; [done|].
    cbn. intros trx Hd. rewrite Hlen. apply (c_shape_u _ _ HC _ _ _ Hu Hd).
    Unshelve.
    + intros r. rewrite decide_False; [done|]. rewrite <- elem_of_running_ids. clear.
      induction tokens; cbn; [set_solver | done].
    + done.
  - intros y. unfold tracked. cbn. destruct (decide (x = y)) as [<-|Hne].
    + rewrite lookup_insert_eq. split; [left; eauto | right; eauto].
    + by rewrite lookup_delete_ne, lookup_insert_ne.
Qed.

(** [onVerify]: a transaction is dropped when its verification failed; the block aborts only
    when the transaction has to be verified again and is no longer there. *)
Lemma onVerify_tx_spec now id trace token rv w :
  consistent None w -> fits w -> calls m_onVerify (Runs w) id -> (is_Some (PendingVerify w !! id) -> is_Some token) ->
  match onVerify_tx now id trace token rv w with
  | (Ok _, w') => outcome (match error trace with Some _ => PendingVerify w !! id | None => None end) w w'
  | (Abort _, _) => exists x, PendingVerify w !! id = Some x /\ TransactionData w !! x = None
  end.
Proof.
  intros HC Hfit Hcall Htok. destruct (PendingVerify w !! id) as [x|] eqn:Hx.
  2:{ assert (onVerify_tx now id trace token rv w = (Ok (None, None), set_Runs (delete id (Runs w)) w)) as ->.
      { unfold onVerify_tx. unfold mbind at 1, st_bind at 1. rewrite (finish_ok _ _ _ Hcall). unfold mbind, st_bind, st_gets.
        cbn [set_Runs PendingVerify].
        rewrite Hx. done. }
      assert (outcome None w (set_Runs (delete id (Runs w)) w)) by (apply outcome_none; try done; by eapply finish_stray).
      by destruct (error trace). }
  destruct (Htok ltac:(eauto)) as [t ->]. destruct (proj1 (c_verify _ _ HC id x) Hx) as (u & Hu & Hrun).
  destruct (set_token_spec id t (u_verifies u)) as (l & ready & Ht & _ & _ & Hready & _).
  rewrite (onVerify_tx_eq now id trace t rv w x u l ready) by done.
  assert (tracked w x) as Htx by (left; eauto).
  destruct (current_verify trace rv u w) eqn:Hcur.
  - assert (error trace = None) as -> by (unfold current_verify in Hcur; zbool;
      by destruct (bool_decide_reflect (error trace = None))).
    destruct ready.
    + destruct (queueTransaction_eq now x (u_expiration u) l (u_speculative u) (run_ended id w)) as (nt & tokens & -> & Hq);
        [by apply Hready | apply (c_avail _ _ HC) | apply Hfit |]. unfold mbind at 1, st_bind at 1. rewrite Hq.
      exact (ended_queue now id t w x u tokens nt HC Hx Hu Ht (proj1 Hfit)).
    + apply outcome_none; try done; [exact (ended_consistent id t rv w x u l false HC Hx Hu Ht)|]. intros y. unfold tracked.
      cbn.
      destruct (decide (x = y)) as [<-|Hne]; [|by rewrite lookup_insert_ne]. rewrite lookup_insert_eq. split; left; eauto.
  - destruct (ended_cancel id t rv w x u l ready HC Hx Hu Ht) as (pv & runs & Hc & Hopen & Hroom).
    unfold mbind at 1, st_bind at 1. rewrite Hc. destruct (error trace) as [e|] eqn:He.
    + unfold mbind at 1, st_bind at 1, remove_unverified, st_put. unfold mbind at 1, st_bind at 1.
      destruct (cancelSpeculative_spec _ x _ Hopen) as (s & runs' & Hs & Hnone & _).
      change (Unverified (with_runs pv runs w)) with (Unverified w). rewrite Hs. unfold mbind at 1, st_bind at 1.
      match goal with |- context [reportSpeculativeFailure trace x ?e ?w2] =>
        destruct (reportSpeculativeFailure_spec trace x e w2 w Hnone Htx) as (er & w' & -> & Ho); try done end.
      intros y. apply (ended_tracked w x u HC Hu); done.
    + unfold mbind at 1, st_bind at 1, st_gets. change (TransactionData (with_runs pv runs w)) with (TransactionData w).
      destruct (TransactionData w !! x) as [trx|] eqn:Hd; [|by exists x].
      destruct (onVerify_again now u (u_verified u || ready) x trx pv runs w) as (w' & Hs & Ho); try done.
      unfold mbind at 1, st_bind at 1. rewrite Hs. done.
Qed.

(** ** [onSpecTrx] *)

Definition spec_ended (id : Z) (w : mempool) : mempool := set_Speculative (delete id (Speculative w)) (set_Runs (delete id (Runs w)) w).

Lemma onSpecTrx_tx_eq id trace w x : calls m_onSpecTrx (Runs w) id -> Speculative w !! id = Some x ->
  onSpecTrx_tx id trace w =
    (match error trace with
     | None =>
         match Unverified w !! x, Pending w !! x with
         | Some trx, _ =>
             st_check (bool_decide (is_Some (u_speculative trx))) "Missing speculative runid in unverified" ;;
             st_check (bool_decide (u_speculative trx = Some id)) "Wrong runid for speculative transaction in unverified" ;;
             put_unverified x (without_speculative trx) ;; mret (None, if u_verified trx then Some x else None)
         | None, Some trx =>
             st_check (bool_decide (is_Some (p_speculative trx))) "Missing speculative runid in pending" ;;
             st_check (bool_decide (p_speculative trx = Some id)) "Wrong runid for speculative transaction in pening" ;;
             put_pending x (p_without_speculative trx) ;; mret (None, Some x)
         | None, None => st_abort should_be_cancelled
         end
     | Some _ =>
         exp ← (match Unverified w !! x, Pending w !! x with
                | Some trx, _ => remove_unverified x ;; cancelVerify trx ;; mret (u_expiration trx)
                | None, Some trx => remove_pending x ;; mret (p_expiration trx)
                | None, None => st_abort should_be_cancelled
                end);
         e ← reportSpeculativeFailure trace x exp; mret (e, None)
     end) (spec_ended id w).
Proof.
  intros Hc Hx. unfold onSpecTrx_tx. unfold mbind at 1, st_bind at 1. rewrite (finish_ok _ _ _ Hc).
  unfold mbind at 1, st_bind at 1, st_gets at 1. cbn [set_Runs Speculative]. rewrite Hx. reflexivity.
Qed.

(** The row of a transaction that failed leaves the tables. *)
Lemma spec_failed_open id w x :
  consistent None w -> Speculative w !! id = Some x ->
  exists exp w', (match Unverified w !! x, Pending w !! x with
    | Some trx, _ => remove_unverified x ;; cancelVerify trx ;; mret (u_expiration trx)
    | None, Some trx => remove_pending x ;; mret (p_expiration trx)
    | None, None => st_abort should_be_cancelled
    end) (spec_ended id w) = (Ok exp, w') /\ consistent (Some (x, None)) w' /\ same_rest w w' /\ tracked w x /\
    forall y, tracked w' y <-> tracked w y /\ y <> x.
Proof.
  intros HC Hx. pose proof (spec_done id x w _ HC Hx eq_refl) as HC1.
  assert (spec_of w x = Some id) as Hsp by (destruct (proj1 (c_spec _ _ HC _ _) Hx); done).
  unfold spec_of in Hsp. destruct (Unverified w !! x) as [u|] eqn:Hu.
  - destruct (cancelVerify_spec u (set_Unverified (delete x (Unverified w)) (spec_ended id w))) as (pv & runs & Hc & Hpv &
      Hcalls & _).
    { intros r Hr. eapply (c_runs_v _ _ HC1 r x). apply (c_verify _ _ HC1). cbn. rewrite lookup_insert_eq. eauto. }
    eexists _, _. split; [|split_and!].
    + unfold mbind at 1, st_bind at 1, remove_unverified, st_put. unfold mbind at 1, st_bind at 1.
      change (Unverified (spec_ended id w)) with (Unverified w). rewrite Hc. reflexivity.
    + eapply consistent_frame; [|apply (open_unverified _ x (without_speculative u) pv runs HC1)]; cbn.
      * split; cbn; try done. by rewrite delete_insert_eq.
      * by rewrite lookup_insert_eq.
      * exact Hpv.
      * exact Hcalls.
    + done.
    + left. eauto.
    + intros y. apply (ended_tracked w x u HC Hu); done.
  - destruct (Pending w !! x) as [p|] eqn:Hp; [|done]. eexists _, _. split; [reflexivity|]. split_and!.
    + eapply consistent_frame; [|apply (open_pending _ x (p_without_speculative p) HC1)]; cbn; [|by rewrite lookup_insert_eq].
      split; cbn; try done. by rewrite delete_insert_eq.
    + done.
    + right. eauto.
    + intros y. unfold tracked. cbn. destruct (decide (x = y)) as [<-|Hne].
      * rewrite lookup_delete_eq, Hu. split; [by intros [[? ?]|[? ?]] | by intros [_ ?]].
      * rewrite lookup_delete_ne by done. split; [|by intros [? _]]. split; congruence.
Qed.

Lemma onSpecTrx_tx_spec id trace w : consistent None w -> calls m_onSpecTrx (Runs w) id ->
  exists r w', onSpecTrx_tx id trace w = (Ok r, w') /\
    outcome (match error trace with Some _ => Speculative w !! id | None => None end) w w'.
Proof.
  intros HC Hcall. destruct (Speculative w !! id) as [x|] eqn:Hx.
  2:{ exists (None, None), (set_Runs (delete id (Runs w)) w). split.
      - unfold onSpecTrx_tx. unfold mbind at 1, st_bind at 1. rewrite (finish_ok _ _ _ Hcall).
        unfold mbind, st_bind, st_gets. cbn [set_Runs Speculative]. rewrite Hx. done.
      - assert (outcome None w (set_Runs (delete id (Runs w)) w)) by (apply outcome_none; try done; by eapply finish_stray).
        by destruct (error trace). }
  rewrite (onSpecTrx_tx_eq id trace w x) by done. destruct (error trace) as [e|].
  - destruct (spec_failed_open id w x HC Hx) as (exp & w1 & E & Ho & [] & Htx & Ht). unfold mbind at 1, st_bind at 1. rewrite E.
    destruct (reportSpeculativeFailure_spec trace x exp w1 w Ho Htx) as (er & w' & Er & Hout); [done..|].
    exists (er, None), w'. split; [|done]. unfold mbind at 1, st_bind at 1. by rewrite Er.
  - pose proof (spec_done id x w _ HC Hx eq_refl) as HC1.
    assert (spec_of w x = Some id) as Hsp by (destruct (proj1 (c_spec _ _ HC _ _) Hx); done).
    unfold spec_of in Hsp. destruct (Unverified w !! x) as [u|] eqn:Hu; [|destruct (Pending w !! x) as [p|] eqn:Hp; [|done]];
      unfold mbind, st_bind, st_check; rewrite Hsp, !bool_decide_true by eauto; eexists _, _; (split; [reflexivity|]).
    + apply outcome_none; [exact HC1 | | done | done]. intros y. unfold tracked. cbn.
      destruct (decide (x = y)) as [<-|Hne]; [|by rewrite lookup_insert_ne]. rewrite lookup_insert_eq. split; left; eauto.
    + apply outcome_none; [exact HC1 | | done | done]. intros y. unfold tracked. cbn.
      destruct (decide (x = y)) as [<-|Hne]; [|by rewrite lookup_insert_ne]. rewrite lookup_insert_eq. split; right; eauto.
Qed.
