(* ===== verification/RTransactBlocks.v ===== *)
(** * psibase: the other subjective transactions of RTransact

    [pushTransaction], [requeue], [next] and the blocks of [onBlock]: what they do to
    consistent tables. *)

From S2P Require Import Prelude Services Transact HttpServer RTransact RTransactInv RTransactSteps.
Import RTransact.
Close Scope nat_scope.

(** ** The queue by sequence *)

Lemma StronglySorted_filter {A} (R : relation A) (P : A -> Prop) `{!forall x, Decision (P x)} l :
  StronglySorted R l -> StronglySorted R (filter P l).
Proof.
  induction 1 as [|x l Hs IH Hx]; [constructor|]. rewrite filter_cons. destruct (decide (P x)); [|done].
  constructor; [done|]. rewrite Forall_forall in *. intros y [_ Hy]%list_elem_of_filter. auto.
Qed.

#[export] Instance sequence_le_trans : Transitive sequence_le.
Proof. intros a b c. unfold sequence_le. lia. Qed.
#[export] Instance sequence_le_total : Total sequence_le.
Proof. intros a b. unfold sequence_le. lia. Qed.

Lemma from_sequence_elem n t x p : (x, p) ∈ from_sequence n t <-> t !! x = Some p /\ n <= p_sequence p.
Proof.
  unfold from_sequence. rewrite list_elem_of_filter, merge_sort_Permutation, elem_of_map_to_list. cbn. tauto.
Qed.

Lemma from_sequence_sorted n t : StronglySorted sequence_le (from_sequence n t).
Proof. unfold from_sequence. apply StronglySorted_filter, StronglySorted_merge_sort; apply _. Qed.

Lemma from_sequence_nil n t : from_sequence n t = [] -> forall x p, t !! x = Some p -> p_sequence p < n.
Proof.
  intros E x p Hx. destruct (decide (n <= p_sequence p)) as [Hn|]; [|lia].
  assert ((x, p) ∈ from_sequence n t) as H by (by apply from_sequence_elem). rewrite E in H. by apply not_elem_of_nil in H.
Qed.

(** The first row is the least. *)
Lemma from_sequence_cons n t x p l : from_sequence n t = (x, p) :: l ->
  t !! x = Some p /\ n <= p_sequence p /\ forall y q, t !! y = Some q -> n <= p_sequence q -> p_sequence p <= p_sequence q.
Proof.
  intros E. pose proof (from_sequence_sorted n t) as Hs. rewrite E in Hs. apply StronglySorted_inv in Hs as [_ Hs].
  assert ((x, p) ∈ from_sequence n t) as Hx by (rewrite E; set_solver). apply from_sequence_elem in Hx as [Hx Hn].
  split_and!; [done..|]. intros y q Hy Hq. assert ((y, q) ∈ from_sequence n t) as Hin by (by apply from_sequence_elem).
  rewrite E in Hin. apply elem_of_cons in Hin as [[= -> ->]|Hin]; [lia|]. rewrite Forall_forall in Hs. apply (Hs _ Hin).
Qed.

(** ** [requeue] *)

(** One row: it is the first from [n], and when it is before [e] it is verified again.  The
    block aborts when no row is left from [n], or the transaction is not there. *)
Lemma requeue_item_spec now n e w : consistent None w -> fits w ->
  match requeue_item_tx now n e w with
  | (Ok s, w') => outcome None w w' /\ exists x p, Pending w !! x = Some p /\ p_sequence p = s /\ n <= s /\
      (forall y q, Pending w !! y = Some q -> n <= p_sequence q -> s <= p_sequence q) /\ (e <= s -> w' = w) /\
      (s < e -> forall q, Pending w' !! x = Some q -> p_sequence q = available w) /\
      (forall y, y <> x -> Pending w' !! y = Pending w !! y) /\ available w <= available w' <= available w + 1 /\
      (forall k N, (forall y t, TransactionData w !! y = Some t -> (length (claims (transaction t)) <= N)%nat) ->
         room (N + k) (Runs w) -> room k (Runs w')) /\ ReverifySignatures w' = ReverifySignatures w
  | (Abort _, _) => (forall y q, Pending w !! y = Some q -> p_sequence q < n) \/
      exists x p, Pending w !! x = Some p /\ n <= p_sequence p < e /\ TransactionData w !! x = None
  end.
Proof.
  intros HC Hfit. unfold requeue_item_tx. unfold mbind at 1, st_bind at 1, st_gets at 1.
  destruct (from_sequence n (Pending w)) as [|[x p] l] eqn:E.
  - left. by apply from_sequence_nil.
  - apply from_sequence_cons in E as (Hx & Hn & Hmin). unfold mbind at 1, st_bind at 1.
    destruct (Z.ltb_spec (p_sequence p) e) as [Hlt|Hge].
    + unfold mbind at 1, st_bind at 1, st_gets. destruct (TransactionData w !! x) as [trx|] eqn:Hd.
      * unfold mbind at 1, st_bind at 1, remove_pending, st_put.
        destruct (scheduleVerify_spec now x trx true (p_speculative p) (set_Pending (delete x (Pending w)) w)) as (w' & Es & HC'
          & [] & Ht & _ & Hseq & Hoth & Hav & Hk).
        -- eapply consistent_frame; [|by apply open_pending].
          assert (Unverified w !! x = None) by (destruct (c_disj _ _ HC x); congruence).
           split; cbn; try done. by rewrite delete_id.
        -- apply (c_sizes _ _ HC _ _ Hd).
        -- cbn. intros t. congruence.
        -- intros _. cbn. destruct (c_disj _ _ HC x); congruence.
        -- apply Hfit with x. done.
        -- apply Hfit.
        -- rewrite Es. cbn. split; [|exists x, p; split_and!; try done; [lia | intros _ q Hq; by apply Hseq | | apply Hav |
            apply Hav |]].
           2:{ intros y Hy. rewrite Hoth by done. cbn. by rewrite lookup_delete_ne. }
           2:{ intros k N HN Hr. apply Hk. apply room_less with (N + k)%nat; [|done]. specialize (HN x trx Hd). lia. }
           apply outcome_none; try done. intros y. rewrite (Ht y). unfold tracked. cbn. destruct (decide (x = y)) as [<-|Hne].
           ++ rewrite lookup_delete_eq. split; [right; eauto | by left].
           ++ rewrite lookup_delete_ne by done. split; [by intros [?|?] | by right].
      * right. exists x, p. done.
    + cbn. split; [by apply outcome_none|]. exists x, p. split_and!; try done; try lia.
      intros k N _. apply room_less. lia.
Qed.

Lemma requeue_end_spec n w : consistent None w ->
  exists r w', requeue_end_tx n w = (Ok r, w') /\ outcome None w w'.
Proof.
  intros HC. unfold requeue_end_tx, mbind, st_bind, st_gets. destruct (_ <=? n); eexists _, _; (split; [reflexivity|]).
  - apply outcome_none; try done. by apply (consistent_frame _ w).
  - by apply outcome_none.
Qed.

(** ** Flushing *)

Lemma post_consistent mode act time m w n : consistent None w -> room (S n) (Runs w) ->
  exists r w', post self mode self act time m w = (Ok r, w') /\ outcome None w w' /\ room n (Runs w') /\ same_rest w w' /\
    Pending w' = Pending w.
Proof.
  intros HC Hr. pose proof (next_id_fresh _ _ Hr) as Hf.
  set (row := {| r_mode := mode; r_maxTime := time; r_action := act; r_service := self; r_method := m |}).
  exists (next_id (Runs w)), (set_Runs (<[next_id (Runs w) := row]> (Runs w)) w). split; [done|].
  split; [|by split; [apply next_id_room|]].
  apply outcome_none; try done. pose proof HC as [].
  assert (forall m r, calls m (Runs w) r -> calls m (<[next_id (Runs w) := row]> (Runs w)) r) as Hcalls.
  { intros m' r H. apply calls_insert; [done|]. intros <-. destruct H as (? & ? & ?). congruence. }
  split; unfold spec_of, available, tracked in *; cbn; eauto.
Qed.

Lemma flush_spec row v w : consistent None w -> fits w ->
  exists w', flushTransactions row v w = (Ok {| endSequence := available w; rv_verifyId := v; running := true |}, w') /\
    outcome None w w' /\ ReverifySignatures w' = Some {| endSequence := available w; rv_verifyId := v; running := true |} /\
    Pending w' = Pending w /\ TransactionData w' = TransactionData w /\ wo w' = wo w.
Proof.
  intros HC (_ & Hr & _). unfold flushTransactions, mbind, st_bind, st_gets, st_put.
  set (row' := {| endSequence := _ |}). set (w1 := set_ReverifySignatures (Some row') w).
  assert (consistent None w1) as HC1 by (by apply (consistent_frame _ w)). destruct (running row).
  - exists w1. split; [done|]. split; [|done]. by apply outcome_none.
  - destruct (post_consistent mode_rpc requeue_action max_time m_onRequeue w1 0 HC1 Hr) as (r & w' & -> & Ho & _ & Hsr & Hp).
    exists w'. split; [done|]. destruct Hsr. rewrite sr_reverify, Hp, sr_data, sr_wo. split; [|done].
    destruct Ho. split; try done.
Qed.

(** ** [next] *)

(** A row that was put into a block already. *)
Definition in_block (included : gset (Z * Checksum256)) (x : TransactionId) (p : PendingTransactionRecord) : Prop := (p_expiration p, x) ∈ included.

Lemma next_scan_spec included data rows n : StronglySorted sequence_le rows ->
  Forall (fun r => 0 <= p_sequence r.2 /\ p_sequence r.2 + 1 < 2 ^ 64) rows ->
  match next_scan included data rows n None with
  | Ok (n', Some trx) => exists x p, (x, p) ∈ rows /\ ~ in_block included x p /\ data !! x = Some trx /\
    n' = p_sequence p + 1 /\
      forall y q, (y, q) ∈ rows -> p_sequence q < p_sequence p -> in_block included y q
  | Ok (n', None) => (forall y q, (y, q) ∈ rows -> in_block included y q) /\ (rows = [] -> n' = n) /\
      (forall y q, (y, q) ∈ rows -> p_sequence q < n')
  | Abort _ => exists x p, (x, p) ∈ rows /\ ~ in_block included x p /\ data !! x = None
  end.
Proof.
  intros Hs. revert n. induction Hs as [|[x p] rows Hs IH Hx]; intros n Hb; cbn; [split_and!; set_solver|].
  apply Forall_cons in Hb as [Hp Hb]. cbn in Hp. rewrite wrap_small by lia. rewrite Forall_forall in Hx.
  case_bool_decide as Hin.
  - specialize (IH (p_sequence p + 1) Hb). destruct (next_scan included data rows (p_sequence p + 1) None) as [[n' [trx|]]|e].
    + destruct IH as (y & q & Hy & Hn & Hd & Hseq & Hmin). exists y, q. split_and!; [by right | done..|].
      intros z r [[= -> ->]|Hz]%elem_of_cons; [done | eauto].
    + destruct IH as (Hall & Hnil & Hlt). split_and!; [intros y q [[= -> ->]|Hy]%elem_of_cons; [done | eauto] | done |].
      intros y q [[= -> ->]|Hy]%elem_of_cons; [|eauto]. destruct rows as [|[z r] rows]; [rewrite Hnil by done; lia|].
      assert (p_sequence r < n') by (apply (Hlt z); set_solver).
      assert (sequence_le (x, p) (z, r)) as Hle by (apply Hx; set_solver).
      unfold sequence_le in Hle. cbn in Hle. lia.
    + destruct IH as (y & q & Hy & ?). exists y, q. split; [by right | done].
  - destruct (data !! x) as [trx|] eqn:Hd; [|exists x, p; split; [by left | done]].
    exists x, p. split_and!; [by left | done | done | done|]. intros y q [[= -> ->]|Hy]%elem_of_cons; [lia|].
    apply Hx in Hy. unfold sequence_le in Hy. cbn in Hy. lia.
Qed.

(** The least row from [n] that is in no block is returned; none is when there is none. *)
Definition next_result (included : gset (Z * Checksum256)) (n : Z) (w : mempool) (r : Z * option SignedTransaction) : Prop :=
  match r.2 with
  | Some trx => exists x p, Pending w !! x = Some p /\ n <= p_sequence p /\ ~ in_block included x p /\ TransactionData w !! x = Some trx /\
      r.1 = p_sequence p + 1 /\ forall y q, Pending w !! y = Some q -> n <= p_sequence q < p_sequence p -> in_block included y q
  | None => (forall y q, Pending w !! y = Some q -> n <= p_sequence q -> in_block included y q) /\
      (n <= r.1) /\ forall y q, Pending w !! y = Some q -> p_sequence q < r.1
  end.

Lemma next_scan_result included n w : consistent None w -> fits w ->
  match next_scan included (TransactionData w) (from_sequence n (Pending w)) n None with
  | Ok r => next_result included n w r
  | Abort _ => exists x p, Pending w !! x = Some p /\ ~ in_block included x p /\ TransactionData w !! x = None
  end.
Proof.
  intros HC Hfit. assert (Forall (fun r => 0 <= p_sequence r.2 /\ p_sequence r.2 + 1 < 2 ^ 64) (from_sequence n (Pending w))) as
    Hb.
  { apply Forall_forall. intros [x p] [Hx _]%from_sequence_elem. apply (c_seq _ _ HC) in Hx as ?. destruct Hfit as (? & _). cbn.
    lia. }
  pose proof (next_scan_spec included (TransactionData w) (from_sequence n (Pending w)) n (from_sequence_sorted _ _) Hb) as Hs.
  destruct (next_scan _ _ _ _ _) as [[n' [trx|]]|e].
  - destruct Hs as (x & p & Hx & Hn & Hd & -> & Hmin). apply from_sequence_elem in Hx as [Hx Hge]. exists x, p.
    split_and!; try done.
    intros y q Hy [Hle Hlt]. apply Hmin; [by apply from_sequence_elem | done].
  - destruct Hs as (Hall & Hnil & Hlt). unfold next_result. cbn. split_and!.
    + intros y q Hy Hq. apply Hall, from_sequence_elem. done.
    + destruct (from_sequence n (Pending w)) as [|[z r] l] eqn:E; [rewrite Hnil by done; lia|].
      apply from_sequence_cons in E as (_ & Hz & _). assert (p_sequence r < n') by (apply (Hlt z); set_solver). lia.
    + intros y q Hy. destruct (decide (n <= p_sequence q)); [apply (Hlt y), from_sequence_elem; done|].
      destruct (from_sequence n (Pending w)) as [|[z r] l] eqn:E; [rewrite Hnil by done; lia|].
      apply from_sequence_cons in E as (_ & Hz & _). assert (p_sequence r < n') by (apply (Hlt z); set_solver). lia.
  - destruct Hs as (x & p & Hx & Hn & Hd). apply from_sequence_elem in Hx as [Hx _]. eauto.
Qed.

(** The block of [next], run once: what it returns, and that nothing is returned that was
    queued before the verify services changed. *)
Lemma next_tx_spec included v n w : consistent None w -> fits w ->
  match next_tx included v (n, None) w with
  | (Ok r, w') => outcome None w w' /\
      (let row := default no_reverify (ReverifySignatures w) in
       if bool_decide (rv_verifyId row = v) then next_result included (Z.max n (endSequence row)) w r
       else r.2 = None /\ ReverifySignatures w' = Some {| endSequence := available w; rv_verifyId := v; running := true |})
  | (Abort _, _) => exists x p, Pending w !! x = Some p /\ ~ in_block included x p /\ TransactionData w !! x = None
  end.
Proof.
  intros HC Hfit. unfold next_tx. unfold mbind at 1, st_bind at 1, st_gets at 1.
  set (row := default no_reverify (ReverifySignatures w)). unfold mbind at 1, st_bind at 1.
  assert (exists row' w1, (if bool_decide (rv_verifyId row = v) then mret row else flushTransactions row v) w = (Ok row', w1) /\
    outcome None w w1 /\ Pending w1 = Pending w /\ TransactionData w1 = TransactionData w /\
    (if bool_decide (rv_verifyId row = v) then row' = row
     else endSequence row' = available w /\ ReverifySignatures w1 = Some {| endSequence := available w; rv_verifyId := v;
       running := true |}))
    as (row' & w1 & -> & Ho & Hp & Hd & Hrow).
  { destruct (bool_decide _).
    - exists row, w. split; [done|]. split; [|done]. by apply outcome_none.
    - destruct (flush_spec row v w HC Hfit) as (w1 & E & Ho & Hr & Hp & Hd & _). eexists _, w1. split; [exact E|]. done. }
  unfold mbind at 1, st_bind at 1, st_gets. unfold mbind at 1, st_bind at 1. change (id w1) with w1.
  pose proof (next_scan_result included (Z.max n (endSequence row')) w HC Hfit) as Hs. rewrite Hp, Hd.
  destruct (next_scan included (TransactionData w) _ _ None) as [[n' found]|e]; [|done].
  set (w2 := set_wo (set_UnappliedTransaction (Some n') (wo w1)) w1).
  assert (forall w3, same_books w2 w3 -> TxStats w3 = TxStats w2 -> ReverifySignatures w3 = ReverifySignatures w2 -> outcome
    None w w3 /\
    (if bool_decide (rv_verifyId row = v) then next_result included (Z.max n (endSequence row)) w (n', found)
     else found = None /\ ReverifySignatures w3 = Some {| endSequence := available w; rv_verifyId := v;
       running := true |})) as Hfin.
  { intros w3 Hb Hst Hrv. split; [apply (outcome_frame _ _ w1); [done | destruct Hb; by split | exact Hst]|].
    destruct (bool_decide _); [by subst|]. destruct Hrow as [He Hr].
    rewrite Hrv. split; [|done]. rewrite He in Hs. unfold next_result in Hs. cbn in Hs. destruct found as [trx|]; [|done].
    destruct Hs as (x & p & Hx & Hn & _). apply (c_seq _ _ HC) in Hx. lia. }
  unfold mbind, st_bind, put_wo, st_put. fold w2. cbn [fst snd]. fold w2. destruct found as [trx|]; cbn [mret st_ret].
  - apply Hfin; done.
  - destruct (removeCallback_ok nextTransaction m_next w2) as [nt ->]. apply Hfin; done.
Qed.

(** ** [pushTransaction] *)

(** The entry of the client: it changes none of the books. *)
Definition add_client (id : TransactionId) (trx : SignedTransaction) (client : option TraceClientInfo) : mp unit :=
  match client with
  | Some c =>
      clients ← st_gets TraceClients;
      let row := default {| c_expiration := expiration (tapos (transaction trx)); c_clients := [] |} (clients !! id) in
      put_clients id {| c_expiration := c_expiration row; c_clients := c_clients row ++ [c] |} ;;
      http_call (HttpServer.deferReply self (socket c))
  | None => mret tt
  end.

Lemma add_client_spec id trx client w :
  match add_client id trx client w with
  | (Ok _, w') => same_books w w' /\ TxStats w' = TxStats w
  | (Abort _, _) => exists c, client = Some c /\ forall row, HttpServer.owned (http w) !! socket c = Some row ->
    HttpServer.owner row <> self
  end.
Proof.
  destruct client as [c|]; [|by split]. unfold add_client, mbind, st_bind, st_gets, put_clients, st_put, http_call.
  cbn [http set_TraceClients]. destruct (HttpServer.owned (http w) !! socket c) as [row|] eqn:Ho.
  - destruct (decide (HttpServer.owner row = self)) as [E|E].
    + rewrite (HttpServer.deferReply_ok self (socket c) (http w) row) by done. by split.
    + assert (HttpServer.deferReply self (socket c) (http w) = (Abort "cannot send a response on socket", http w)) as ->.
      { unfold HttpServer.deferReply, mbind, st_bind, st_gets. rewrite Ho. apply Z.eqb_neq in E. by rewrite E. }
      exists c. split; [done|]. congruence.
  - assert (HttpServer.deferReply self (socket c) (http w) = (Abort "cannot send a response on socket", http w)) as ->.
    { unfold HttpServer.deferReply, mbind, st_bind, st_gets. by rewrite Ho. }
    exists c. split; [done|]. congruence.
Qed.

(** A new transaction is tracked with its data and counted; one that is tracked is left alone. *)
Definition pushed (x : TransactionId) (trx : SignedTransaction) (w : mempool) (added : bool) (w' : mempool) : Prop :=
  if added then
    ~ tracked w x /\ consistent None w' /\ tracks_also x w w' /\ TransactionData w' = <[x := trx]> (TransactionData w) /\
    unprocessed_of w' = u64 (unprocessed_of w + 1)
  else tracked w x /\ outcome None w w'.

Lemma scheduleVerify_sizes now x trx verified sp w : length (claims (transaction trx)) <> length (proofs trx) ->
  scheduleVerify now x trx verified sp w = (Abort "Claims and proofs must have the same size", w).
Proof. intros Hlen%Nat.eqb_neq. unfold scheduleVerify, mbind, st_bind, st_check, check. by rewrite Hlen. Qed.

(** The runs of a new transaction. *)
Lemma push_schedule now x trx (speculate : bool) w : consistent None w -> ~ tracked w x ->
  length (claims (transaction trx)) = length (proofs trx) -> room (S (length (claims (transaction trx)))) (Runs w) ->
    available w + 1 < 2 ^ 64 ->
  exists w', (sp ← (if speculate then runid ← scheduleSpeculative x trx; mret (Some runid) else mret None);
              scheduleVerify now x trx false sp) w = (Ok tt, w') /\
    consistent None (set_TransactionData (<[x := trx]> (TransactionData w)) w') /\ tracks_also x w w' /\
    TransactionData w' = TransactionData w /\ TxStats w' = TxStats w.
Proof.
  intros HC Hx Hlen Hroom Ha. pose proof (open_untracked w x HC Hx) as Hopen. pose proof (untracked_no_data w x HC Hx) as Hd.
  assert (Unverified w !! x = None) as Hu by (destruct (c_open _ _ Hopen _ _ eq_refl); done).
  assert (exists sp w1, (if speculate then runid ← scheduleSpeculative x trx;
    mret (Some runid) else mret None) w = (Ok sp, w1) /\
    consistent (Some (x, sp)) w1 /\ room (length (claims (transaction trx))) (Runs w1) /\ same_rest w w1 /\
    Unverified w1 = Unverified w /\ Pending w1 = Pending w /\ AvailableSequence w1 = AvailableSequence w)
    as (sp & w1 & E1 & Ho1 & Hroom1 & [] & HU & HP & HA).
  { destruct speculate.
    - destruct (scheduleSpeculative_spec w x trx _ Hopen Hroom) as (r & s & runs & E & Ho & Hr).
      exists (Some r), (set_Speculative s (set_Runs runs w)). unfold mbind, st_bind. rewrite E. done.
    - exists None, w. split_and!; try done. by apply room_less with (S (length (claims (transaction trx)))); [lia|]. }
  destruct (scheduleVerify_spec now x trx false sp w1) as (w' & E2 & HC' & [] & Ht & Hsu & Hsp & _); try done.
  - eapply consistent_frame; [|exact Ho1]. split; cbn; try done. by rewrite delete_id by (by rewrite HU).
  - rewrite sr_data, Hd. done.
  - by rewrite HU.
  - unfold available. by rewrite HA.
  - exists w'. split; [|split_and!].
    + unfold mbind at 1, st_bind at 1. by rewrite E1.
    + rewrite <- sr_data, <- sr_data0. apply put_data_tracked; [done | | done | exact Hsu | intros p ?; by apply Hsp]. apply Ht.
      by left.
    + intros y. rewrite (Ht y). unfold tracked. by rewrite HU, HP.
    + congruence.
    + congruence.
Qed.

Lemma pushTransaction_tx_spec now x trx speculate client w : consistent None w -> fits w ->
  room (S (length (claims (transaction trx)))) (Runs w) ->
  match pushTransaction_tx now x trx speculate client w with
  | (Ok added, w') => pushed x trx w added w'
  | (Abort _, _) => length (claims (transaction trx)) <> length (proofs trx) \/
      exists c, client = Some c /\ forall row, HttpServer.owned (http w) !! socket c = Some row -> HttpServer.owner row <> self
  end.
Proof.
  intros HC Hfit Hroom. pose proof (add_client_spec x trx client w) as Hc. unfold pushTransaction_tx.
  fold (add_client x trx client). unfold mbind at 1, st_bind at 1.
  destruct (add_client x trx client w) as [[[]|e] w1]; [|by right].
  destruct Hc as [Hb Hst]. unfold mbind at 1, st_bind at 1, st_gets at 1. unfold mbind at 1, st_bind at 1, st_gets at 1.
  assert (forall y, tracked w1 y <-> tracked w y) as Htr by (intros y; by apply tracked_same).
  assert (consistent None w1) as HC1 by (by apply (consistent_frame _ w)).
  destruct (bool_decide (is_Some (Pending w1 !! x)) || bool_decide (is_Some (Unverified w1 !! x))) eqn:E.
  - cbn. split.
    + apply Htr. zbool. destruct E as [E|E]; apply bool_decide_eq_true in E; [by right | by left].
    + apply (outcome_frame _ _ w); [by apply outcome_none | done..].
  - assert (~ tracked w1 x) as Hnt. { apply orb_false_iff in E as [E1 E2]. apply bool_decide_eq_false in E1, E2.
    by intros [?|?]. }
    destruct (decide (length (claims (transaction trx)) = length (proofs trx))) as [Hlen|Hlen].
    + destruct Hb. destruct (push_schedule now x trx speculate w1 HC1 Hnt Hlen) as (w2 & E2 & HC2 & Ht2 & Hd2 & Hs2).
      { by rewrite sb_runs. } { unfold available. rewrite sb_available. apply Hfit. }
      revert E2. unfold mbind, st_bind. match goal with |- context [match ?m with _ => _ end] => destruct m as [[sp|e] w1'] end;
        [|done]. intros ->. cbn.
      split; [by rewrite <- Htr|]. split_and!.
      * rewrite Hd2. eapply consistent_frame; [|exact HC2]. by split.
      * intros y. rewrite <- (Htr y). exact (Ht2 y).
      * by rewrite Hd2, sb_data.
      * unfold unprocessed_of. cbn. by rewrite Hs2, Hst.
    + unfold mbind at 1, st_bind at 1.
      destruct ((if speculate then runid ← scheduleSpeculative x trx; mret (Some runid) else mret None) w1) as [[sp|e] w1'];
        [|by left].
      unfold mbind at 1, st_bind at 1. rewrite scheduleVerify_sizes by done. by left.
Qed.

(** ** The blocks of [onBlock] *)

Lemma erase_data_consistent x w : consistent None w -> consistent None (set_TransactionData (delete x (TransactionData w)) w).
Proof.
  intros []. split; unfold spec_of, available, tracked in *; cbn; try done.
  - intros y t [_ ?]%lookup_delete_Some. eauto.
  - intros y t [_ ?]%lookup_delete_Some. eauto.
  - intros y u t ? [_ ?]%lookup_delete_Some. eauto.
  - intros y p t ? [_ ?]%lookup_delete_Some. eauto.
Qed.

(** A transaction leaves the queue with its data; the table of transactions that are
    verified is not looked at. *)
Lemma drop_one_spec x w : consistent None w ->
  exists w', (drop_pending x ;; erase_data x) w = (Ok tt, w') /\ consistent None w' /\
    Pending w' = delete x (Pending w) /\ Unverified w' = Unverified w /\ TransactionData w' = delete x (TransactionData w) /\
    TxStats w' = TxStats w /\ wo w' = wo w /\ TraceClients w' = TraceClients w /\ http w' = http w.
Proof.
  intros HC. unfold drop_pending. unfold mbind at 1, st_bind at 1. unfold mbind at 1, st_bind at 1, st_gets.
  destruct (Pending w !! x) as [p|] eqn:Hp.
  - destruct (cancelSpeculative_spec _ x _ (open_pending w x p HC Hp)) as (s & runs & E & Ho & _).
    eexists. split; [unfold mbind, st_bind, remove_pending, st_put; rewrite E; reflexivity|]. split_and!; try done.
    exact (close_forget _ x Ho).
  - eexists. split; [reflexivity|]. cbn. rewrite (delete_id (Pending w)) by done. split_and!; try done.
    by apply erase_data_consistent.
Qed.

(** A block keeps the tables consistent whatever it returns. *)
Definition preserves {A} (m : mp A) : Prop := forall w, consistent None w -> mwp m w (fun _ w' => consistent None w') (fun _ => True).

Lemma preserves_bind {A B} (m : mp A) (f : A -> mp B) : preserves m -> (forall a, preserves (f a)) -> preserves (m ≫= f).
Proof.
  intros Hm Hf w HC. apply mwp_bind. eapply mwp_mono; [exact (Hm w HC) | | done]. intros a w' HC'. by apply Hf.
Qed.
Lemma preserves_ret {A} (a : A) : preserves (mret a).
Proof. intros w HC. exact HC. Qed.
Lemma preserves_gets {A} (g : mempool -> A) : preserves (st_gets g).
Proof. intros w HC. exact HC. Qed.
Lemma preserves_frame g : (forall w, same_books w (g w)) -> preserves (st_put g).
Proof. intros Hg w HC. by apply (consistent_frame _ w). Qed.
Lemma preserves_http {A} (m : st (HttpServer.state SignedTransaction) A) : preserves (http_call m).
Proof. intros w HC. unfold mwp, http_call. destruct (m (http w)) as [[a|e] h]; [|done]. by apply (consistent_frame _ w). Qed.
Lemma preserves_iter {A} (f : A -> mp unit) l : (forall a, preserves (f a)) -> preserves (st_iter f l).
Proof. intros Hf. induction l as [|a l IH]; cbn [st_iter]; [apply preserves_ret|]. by apply preserves_bind. Qed.
Lemma preserves_tx {A} (m : mp A) : preserves m -> preserves (subjective_tx m).
Proof. intros Hm w HC. by apply mwp_tx, Hm. Qed.

Lemma claimClientReply_preserves x f : preserves (claimClientReply x f).
Proof.
  apply preserves_tx, preserves_bind; [apply preserves_gets|]. intros clients.
  destruct (clients !! x) as [row|]; [|apply preserves_ret].
  apply preserves_bind; [apply preserves_iter; intros; apply preserves_http|]. intros _.
  apply preserves_bind; [|intros; apply preserves_ret]. destruct (filter _ _); by apply preserves_frame.
Qed.
Lemma send_claimed_preserves clients trace : preserves (send_claimed clients trace).
Proof. apply preserves_bind; [|intros _]; apply preserves_iter; intros; apply preserves_http. Qed.
Lemma drop_one_preserves x : preserves (drop_pending x ;; erase_data x).
Proof. intros w HC. unfold mwp. by destruct (drop_one_spec x w HC) as (w' & -> & ? & _). Qed.

Lemma stopTracking_preserves txids delta : preserves (stopTracking_tx txids delta).
Proof.
  apply preserves_bind; [apply preserves_iter, drop_one_preserves|]. intros _. apply preserves_bind; [apply preserves_gets|].
  intros s. by apply preserves_frame.
Qed.

Lemma finish_one_preserves b x : preserves (finish_one_tx b x).
Proof.
  apply preserves_bind; [apply preserves_gets|]. intros clients. destruct (clients !! x); [apply preserves_ret|].
  intros w HC. unfold mwp. unfold mbind at 1, st_bind at 1. unfold mbind at 1, st_bind at 1.
  pose proof (drop_one_spec x w HC) as (w' & E & HC' & _). revert E. unfold mbind at 1, st_bind at 1.
  destruct (drop_pending x w) as [[[]|e] w1]; [|done]. intros ->.
  match goal with |- match ?m w' with _ => _ end => assert (preserves m) as Hm; [|exact (Hm w' HC')] end.
  apply preserves_bind; [by apply preserves_frame|intros _]. apply preserves_bind; [by apply preserves_frame|intros _].
  apply preserves_bind; [apply preserves_gets|intros s]. apply preserves_bind; [by apply preserves_frame|intros _].
  apply preserves_ret.
Qed.

Lemma failure_tx_preserves time : preserves (failure_tx time).
Proof.
  apply preserves_bind; [apply preserves_gets|]. intros f. destruct (failed_begin f) as [[x row]|]; [|apply preserves_ret].
  destruct (_ <=? time); [|apply preserves_ret]. apply preserves_bind; [by apply preserves_frame|intros _].
  apply preserves_bind; [apply claimClientReply_preserves|]. intros. apply preserves_ret.
Qed.

Lemma reply_trace_preserves exp_trace x s : preserves (reply_trace exp_trace x s).
Proof.
  apply preserves_bind; [apply preserves_gets|]. intros v. destruct (TxSuccess v !! x) as [tx|].
  - apply preserves_bind; [by apply preserves_frame|intros _]. apply preserves_bind; [by apply preserves_tx, preserves_frame|].
    intros. apply preserves_ret.
  - apply preserves_tx, preserves_bind; [apply preserves_gets|]. intros f. destruct (f !! x); [|apply preserves_ret].
    apply preserves_bind; [by apply preserves_frame|intros _]. apply preserves_ret.
Qed.
