(* ===== verification/RTransactTheorems.v ===== *)
(** * psibase: pending transactions, theorems

    [qstep] and [bstep] are the subjective transactions that contexts commit in any order:
    those of the queue and those of [onBlock].  The tables agree after any of them.  While
    only the queue works, every tracked transaction is there and counted, and no callback
    fails.  Then what [next], [requeue] and the replies do, and where the code does not do
    what it says. *)

From S2P Require Import Prelude Services Transact HttpServer RTransact RTransactInv RTransactSteps RTransactBlocks.
Import RTransact.
Close Scope nat_scope.

(** ** Steps *)

Definition init : mempool :=
  {| Pending := ∅; TransactionData := ∅; AvailableSequence := None; TxFailed := ∅; Unverified := ∅; PendingVerify := ∅;
     ReverifySignatures := None; Speculative := ∅; TxStats := None; TraceClients := ∅; Runs := ∅; Notify := ∅;
     http := {| HttpServer.requests := ∅; HttpServer.owned := ∅; HttpServer.sent := [] |};
     wo := {| UnappliedTransaction := None; ReversibleBlocks := ∅; TxSuccess := ∅; VerifyIdRow := None; BlockSize := None |} |}.

(** A committed block of the queue.  Native calls the callback of a run that is in the table,
    and passes a token to the callback of a run that verifies. *)
Inductive qstep (w : mempool) : mempool -> Prop :=
| q_push now id trx speculate client added w' :
    fits w -> room (S (length (claims (transaction trx)))) (Runs w) ->
    pushTransaction_tx now id trx speculate client w = (Ok added, w') -> qstep w w'
| q_verify now id trace token rv r w' :
    fits w -> calls m_onVerify (Runs w) id -> (is_Some (PendingVerify w !! id) -> is_Some token) ->
    onVerify_tx now id trace token rv w = (Ok r, w') -> qstep w w'
| q_spec id trace r w' : calls m_onSpecTrx (Runs w) id -> onSpecTrx_tx id trace w = (Ok r, w') -> qstep w w'
| q_requeued id w' : calls m_onRequeue (Runs w) id -> finish self id w = (Ok tt, w') -> qstep w w'
| q_requeue_end n r w' : requeue_end_tx n w = (Ok r, w') -> qstep w w'
| q_requeue_item now n e s w' : fits w -> requeue_item_tx now n e w = (Ok s, w') -> qstep w w'
| q_next included v n r w' : fits w -> next_tx included v (n, None) w = (Ok r, w') -> qstep w w'
| q_flush row v row' w' : fits w -> flushTransactions row v w = (Ok row', w') -> qstep w w'
| q_claim id f clients w' : claimClientReply id f w = (Ok clients, w') -> qstep w w'
| q_send clients trace w' : send_claimed clients trace w = (Ok tt, w') -> qstep w w'
| q_failed id f : qstep w (set_TxFailed (<[id := f]> (TxFailed w)) w)
| q_fork v : qstep w (set_wo v w)
| q_context o : qstep w (set_http (HttpServer.set_owned o (http w)) w).

(** A committed block of [onBlock]. *)
Inductive bstep (w : mempool) : mempool -> Prop :=
| b_finish good id r w' : finish_one_tx good id w = (Ok r, w') -> bstep w w'
| b_trace exp_trace id s r w' : reply_trace exp_trace id s w = (Ok r, w') -> bstep w w'
| b_stop ids delta w' : stopTracking_tx ids delta w = (Ok tt, w') -> bstep w w'
| b_failure time r w' : failure_tx time w = (Ok r, w') -> bstep w w'.

Definition step (w w' : mempool) : Prop := qstep w w' \/ bstep w w'.

(** Every tracked transaction is there, and they are the ones that are counted. *)
Definition tracked_set (w : mempool) : gset TransactionId := dom (Unverified w) ∪ dom (Pending w).
Definition complete (w : mempool) : Prop :=
  (forall x, tracked w x -> is_Some (TransactionData w !! x)) /\ unprocessed_of w = u64 (Z.of_nat (size (tracked_set w))).

Lemma tracked_set_spec w x : x ∈ tracked_set w <-> tracked w x.
Proof. unfold tracked_set, tracked. by rewrite elem_of_union, !elem_of_dom. Qed.

Lemma init_consistent : consistent None init.
Proof. split; try done. - intros r x. cbn. split; [done|]. by intros (u & ? & _). - intros r x. cbn.
split; [done | by intros [?|?]]. - by left. Qed.

(** ** Steps keep the tables consistent *)

Lemma preserves_ok {A} (m : mp A) w a w' : preserves m -> consistent None w -> m w = (Ok a, w') -> consistent None w'.
Proof. intros Hm HC E. pose proof (Hm w HC) as H. unfold mwp in H. by rewrite E in H. Qed.

Lemma complete_same w w' : (forall y, tracked w' y <-> tracked w y) -> TransactionData w' = TransactionData w ->
  unprocessed_of w' = unprocessed_of w ->
  complete w -> complete w'.
Proof.
  intros Ht Hd Hs [Hk Hc]. split; [intros x Hx; rewrite Hd; apply Hk; by apply Ht|]. rewrite Hs, Hc. do 3 f_equal. apply set_eq.
  intros x. by rewrite !tracked_set_spec.
Qed.

(** A block that drops nothing, or one transaction. *)
Lemma outcome_complete drop w w' : outcome drop w w' -> complete w -> complete w'.
Proof.
  intros [] [Hk Hc]. destruct drop as [x|].
  - destruct (oc_gone x eq_refl) as [Hx _]. split.
    + intros y [Hy Hne]%oc_tracked. rewrite oc_data by done. auto.
    + assert (tracked_set w = {[x]} ∪ tracked_set w') as E.
      { apply set_eq. intros y. rewrite elem_of_union, elem_of_singleton, !tracked_set_spec, oc_tracked.
        destruct (decide (y = x)) as [->|Hne]; [split; [by left | done]|].
        split; [intros ?; right; split; congruence | by intros [?|[? _]]]. }
      assert (x ∉ tracked_set w') as Hni by (rewrite tracked_set_spec, oc_tracked; by intros [_ ?]).
      rewrite oc_stats, Hc, E, size_union, size_singleton by set_solver.
      unfold wrap. rewrite Zminus_mod_idemp_l. f_equal. lia.
  - apply (complete_same w); try done; [intros y; rewrite oc_tracked; split; [by intros [? _] | done] | apply map_eq; auto].
Qed.

Lemma push_complete x trx w w' : pushed x trx w true w' -> complete w -> complete w'.
Proof.
  intros (Hx & HC & Ht & Hd & Hs) [Hk Hc]. split.
  - intros y Hy. rewrite Hd. destruct (decide (x = y)) as [->|Hne]; [rewrite lookup_insert_eq; eauto|].
    rewrite lookup_insert_ne by done.
    apply Hk. destruct (proj1 (Ht y) Hy); [congruence | done].
  - assert (tracked_set w' = {[x]} ∪ tracked_set w) as ->.
    { apply set_eq. intros y. by rewrite elem_of_union, elem_of_singleton, !tracked_set_spec, (Ht y). }
    assert (x ∉ tracked_set w) by (by rewrite tracked_set_spec).
    rewrite Hs, Hc, size_union, size_singleton by set_solver. unfold wrap. rewrite Zplus_mod_idemp_l. f_equal. lia.
Qed.

Lemma frame_complete w w' : same_books w w' -> TxStats w' = TxStats w -> complete w -> complete w'.
Proof.
  intros Hb Hst. apply complete_same; [intros y; by apply tracked_same | by destruct Hb | unfold unprocessed_of;
    by rewrite Hst].
Qed.

(** What a block does to the books is in [consistent] and [complete] alone. *)
Definition leaves {A} (m : mp A) : Prop := forall w, mwp m w (fun _ w' => same_books w w' /\ TxStats w' = TxStats w) (fun _ => True).
Lemma leaves_bind {A B} (m : mp A) (f : A -> mp B) : leaves m -> (forall a, leaves (f a)) -> leaves (m ≫= f).
Proof.
  intros Hm Hf w. apply mwp_bind. eapply mwp_mono; [exact (Hm w) | | done]. intros a w1 [Hb Hs].
  eapply mwp_mono; [exact (Hf a w1) | | done].
  intros b w2 [Hb' Hs']. split; [|congruence]. destruct Hb, Hb'. split; congruence.
Qed.
Lemma leaves_put g : (forall w, same_books w (g w) /\ TxStats (g w) = TxStats w) -> leaves (st_put g).
Proof. intros Hg w. apply Hg. Qed.
Lemma leaves_ret {A} (a : A) : leaves (mret a).
Proof. by intros w. Qed.
Lemma leaves_http {A} (m : st (HttpServer.state SignedTransaction) A) : leaves (http_call m).
Proof. intros w. unfold mwp, http_call. by destruct (m (http w)) as [[a|e] h]. Qed.
Lemma leaves_iter {A} (f : A -> mp unit) l : (forall a, leaves (f a)) -> leaves (st_iter f l).
Proof. intros Hf. induction l as [|a l IH]; cbn [st_iter]; [apply leaves_ret|]. by apply leaves_bind. Qed.
Lemma claimClientReply_leaves x f : leaves (claimClientReply x f).
Proof.
  intros w. apply mwp_tx. revert w. apply leaves_bind; [by intros w|]. intros clients.
  destruct (clients !! x) as [row|]; [|apply leaves_ret].
  apply leaves_bind; [apply leaves_iter; intros; apply leaves_http|]. intros _.
  apply leaves_bind; [|intros; apply leaves_ret]. destruct (filter _ _); by apply leaves_put.
Qed.
Lemma send_claimed_leaves clients trace : leaves (send_claimed clients trace).
Proof. apply leaves_bind; [|intros _]; apply leaves_iter; intros; apply leaves_http. Qed.
Lemma leaves_ok {A} (m : mp A) w a w' : leaves m -> m w = (Ok a, w') -> same_books w w' /\ TxStats w' = TxStats w.
Proof. intros Hm E. pose proof (Hm w) as H. unfold mwp in H. by rewrite E in H. Qed.

(** A step of the queue, seen from the tables. *)
Lemma qstep_cases w w' : consistent None w -> qstep w w' ->
  (exists drop, outcome drop w w') \/ exists x trx, pushed x trx w true w'.
Proof.
  intros HC Hs. assert (forall w', same_books w w' -> TxStats w' = TxStats w -> exists drop, outcome drop w w') as Hframe.
  { intros w1 Hb Ht. exists None. apply (outcome_frame _ _ w); [by apply outcome_none | done..]. }
  destruct Hs as [now id trx speculate client added w' Hf Hr E | now id trace token rv r w' Hf Hc Ht E | id trace r w' Hc E
    | id w' Hc E | n r w' E | now n e s w' Hf E | included v n r w' Hf E | row v row' w' Hf E | id f clients w' E |
      clients trace w' E | | |];
    [| left ..].
  - pose proof (pushTransaction_tx_spec now id trx speculate client w HC Hf Hr) as H. rewrite E in H.
    destruct added; [right; eauto | left; exists None; apply H].
  - pose proof (onVerify_tx_spec now id trace token rv w HC Hf Hc Ht) as H. rewrite E in H. eauto.
  - destruct (onSpecTrx_tx_spec id trace w HC Hc) as (r' & w1 & E' & H). rewrite E in E'. injection E' as <- <-. eauto.
  - rewrite (finish_ok _ _ _ Hc) in E. injection E as <-. exists None. apply outcome_none; try done. by eapply finish_stray.
  - destruct (requeue_end_spec n w HC) as (r' & w1 & E' & H). rewrite E in E'. injection E' as <- <-. eauto.
  - pose proof (requeue_item_spec now n e w HC Hf) as H. rewrite E in H. destruct H as [H _]. eauto.
  - pose proof (next_tx_spec included v n w HC Hf) as H. rewrite E in H. destruct H as [H _]. eauto.
  - destruct (flush_spec row v w HC Hf) as (w1 & E' & H & _). rewrite E in E'. injection E' as -> <-. eauto.
  - apply leaves_ok in E as [? ?]; [auto | apply claimClientReply_leaves].
  - apply leaves_ok in E as [? ?]; [auto | apply send_claimed_leaves].
  - by apply Hframe.
  - by apply Hframe.
  - by apply Hframe.
Qed.

Lemma step_consistent w w' : step w w' -> consistent None w -> consistent None w'.
Proof.
  intros [Hs|Hs] HC.
  - destruct (qstep_cases w w' HC Hs) as [(drop & [])|(x & trx & _ & ? & _)]; done.
  - destruct Hs as [? ? ? ? E | ? ? ? ? ? E | ? ? ? E | ? ? ? E]; (eapply preserves_ok; [| exact HC | exact E]).
    + apply finish_one_preserves.
    + apply reply_trace_preserves.
    + apply stopTracking_preserves.
    + apply failure_tx_preserves.
Qed.

Lemma qsteps_complete w : rtc qstep init w -> consistent None w /\ complete w.
Proof.
  apply (rtc_ind_r (fun w => consistent None w /\ complete w) init).
  - split; [apply init_consistent|]. split; [|done]. intros x [[? ?]|[? ?]]; done.
  - intros y z _ Hs [HC Hk]. split; [eapply step_consistent; [by left | done]|].
    destruct (qstep_cases _ _ HC Hs) as [(drop & Ho)|(x & trx & Hp)]; [by eapply outcome_complete | by eapply push_complete].
Qed.

Lemma steps_consistent w : rtc step init w -> consistent None w.
Proof. apply (rtc_ind_r (consistent None) init); [apply init_consistent|]. intros y z _ Hs HC. by apply (step_consistent y).
Qed.

(** ** The tables *)

(** C13: The tables agree in every state that the committed blocks of the queue and of [onBlock]
    reach, in any order and on any fork: each run that verifies or executes a transaction is
    noted with it and with [XRun], a transaction is queued or verified but not both, and the
    queue has its own numbers. *)
Theorem books_agree w : rtc step init w -> consistent None w.
Proof. apply steps_consistent. Qed.


(** ** Where the code differs from what it says *)

(** [running] is set, and no run of [requeue] is there. *)
Definition no_requeue (w : mempool) : Prop := forall r run, Runs w !! r = Some run -> r_action run <> requeue_action.
Definition stuck (w : mempool) : Prop := running (default no_reverify (ReverifySignatures w)) = true /\ no_requeue w.

(** The blocks but those of [requeue], which native calls for a run of [requeue]. *)
Inductive later (w : mempool) : mempool -> Prop :=
| l_push now id trx speculate client added w' : pushTransaction_tx now id trx speculate client w = (Ok added, w') -> later w w'
| l_verify now id trace token rv r w' : onVerify_tx now id trace token rv w = (Ok r, w') -> later w w'
| l_spec id trace r w' : onSpecTrx_tx id trace w = (Ok r, w') -> later w w'
| l_finish id w' : finish self id w = (Ok tt, w') -> later w w'
| l_next included v n r w' : next_tx included v (n, None) w = (Ok r, w') -> later w w'
| l_reverify headId seq w' : checkReverify headId seq w = (Ok tt, w') -> later w w'
| l_claim id f clients w' : claimClientReply id f w = (Ok clients, w') -> later w w'
| l_send clients trace w' : send_claimed clients trace w = (Ok tt, w') -> later w w'
| l_failed id f : later w (set_TxFailed (<[id := f]> (TxFailed w)) w)
| l_fork v : later w (set_wo v w)
| l_context o : later w (set_http (HttpServer.set_owned o (http w)) w)
| l_block w' : bstep w w' -> later w w'.

Definition keeps_stuck {A} (m : mp A) : Prop := forall w, stuck w -> mwp m w (fun _ => stuck) (fun _ => True).
Lemma stuck_bind {A B} (m : mp A) (f : A -> mp B) : keeps_stuck m -> (forall a, keeps_stuck (f a)) -> keeps_stuck (m ≫= f).
Proof. intros Hm Hf w Hw. apply mwp_bind. eapply mwp_mono; [exact (Hm w Hw) | intros a w1 H1; by apply Hf | done]. Qed.
Lemma stuck_tx {A} (m : mp A) : keeps_stuck m -> keeps_stuck (subjective_tx m).
Proof. intros Hm w Hw. by apply mwp_tx, Hm. Qed.
Lemma stuck_same {A} (m : mp A) : (forall w, mwp m w (fun _ w' => ReverifySignatures w' = ReverifySignatures w /\ Runs w' = Runs w) (fun _ => True)) -> keeps_stuck m.
Proof. intros Hm w [H1 H2]. eapply mwp_mono; [apply Hm | | done]. intros a w' [E1 E2]. split; [by rewrite E1 | intros r run; rewrite E2; apply H2]. Qed.
Lemma stuck_read {A} (f : mempool -> result A) : keeps_stuck (fun w => (f w, w)).
Proof. apply stuck_same. intros w. unfold mwp. by destruct (f w). Qed.
Lemma stuck_http {A} (m : st (HttpServer.state SignedTransaction) A) : keeps_stuck (http_call m).
Proof. apply stuck_same. intros w. unfold mwp, http_call. by destruct (m (http w)) as [[a|e] h]. Qed.
Lemma stuck_iter {A} (f : A -> mp unit) l : (forall a, keeps_stuck (f a)) -> keeps_stuck (st_iter f l).
Proof. intros Hf. induction l as [|a l IH]; cbn [st_iter]; [by apply stuck_same|]. by apply stuck_bind. Qed.
Lemma stuck_runs runs w : stuck w -> (forall r run, runs !! r = Some run -> Runs w !! r = Some run \/ r_action run <> requeue_action) -> stuck (set_Runs runs w).
Proof. intros [H1 H2] Hr. split; [done|]. intros r run E. destruct (Hr r run E) as [E'|?]; [by apply (H2 r) | done]. Qed.
Lemma stuck_new_run row : r_action row <> requeue_action -> keeps_stuck (new_run row).
Proof.
  intros Hrow w Hw. apply stuck_runs; [done|]. intros r run E. apply lookup_insert_Some in E as [[_ <-]|[_ E]]; [by right | by left].
Qed.
Lemma stuck_cancel sender id m : keeps_stuck (cancel sender id m).
Proof.
  intros w Hw. unfold mwp, cancel, mbind, st_bind, st_check, st_gets, st_put, check. destruct (sender =? rtransact_service); [|done].
  destruct (match Runs w !! id with Some row => _ | None => _ end); [|done]. apply stuck_runs; [done|]. intros r run E. apply lookup_insert_Some in E as [[_ <-]|[_ E]]; [by right | by left].
Qed.
Lemma stuck_finish sender id : keeps_stuck (finish sender id).
Proof.
  intros w Hw. unfold mwp, finish, mbind, st_bind, st_check, st_gets, st_put, check. destruct (sender =? rtransact_service); [|done].
  destruct (match Runs w !! id with Some row => _ | None => _ end); [|done]. apply stuck_runs; [done|]. intros r run E. left. apply lookup_delete_Some in E as [_ E]. done.
Qed.

(** The blocks are made of these. *)
Ltac keep_stuck :=
  repeat match goal with
  | |- keeps_stuck (_ ≫= _) => apply stuck_bind; [|intros]
  | |- keeps_stuck (subjective_tx _) => apply stuck_tx
  | |- keeps_stuck (st_iter _ _) => apply stuck_iter; intros
  | |- keeps_stuck (http_call _) => apply stuck_http
  | |- keeps_stuck (new_run _) => by apply stuck_new_run
  | |- keeps_stuck (cancel _ _ _) => apply stuck_cancel
  | |- keeps_stuck (finish _ _) => apply stuck_finish
  | |- keeps_stuck (match ?x with _ => _ end) => destruct x
  | |- keeps_stuck _ => first [by apply stuck_read | by apply stuck_same]
  end.

Lemma stuck_schedule now id trx verified spec : keeps_stuck (scheduleVerify now id trx verified spec).
Proof.
  unfold scheduleVerify. apply stuck_bind; [apply stuck_read|]. intros _. apply stuck_bind; [|intros; unfold queueTransaction, addCallback; keep_stuck].
  generalize (zip (claims (transaction trx)) (proofs trx)) as l. induction l as [|[c p] l IH]; cbn [verify_claims]; [by apply stuck_same|]. unfold verify. keep_stuck; done.
Qed.
Lemma stuck_cancelVerify tx : keeps_stuck (cancelVerify tx).
Proof. unfold cancelVerify. keep_stuck. Qed.
Lemma stuck_drop id : keeps_stuck (drop_pending id).
Proof. unfold drop_pending, cancelSpeculative. keep_stuck. Qed.
Lemma stuck_claim id f : keeps_stuck (claimClientReply id f).
Proof. unfold claimClientReply. keep_stuck. Qed.

(** A change of the verify services, when [running] is set. *)
Lemma stuck_flush v w : stuck w -> mwp (flushTransactions (default no_reverify (ReverifySignatures w)) v) w (fun _ => stuck) (fun _ => True).
Proof. intros [Hr Hn]. unfold mwp, flushTransactions, mbind, st_bind, st_gets, st_put. by rewrite Hr. Qed.
Lemma stuck_next included v n : keeps_stuck (next_tx included v n).
Proof.
  intros w Hw. unfold next_tx. destruct n as [n found]. apply mwp_bind. unfold mwp at 1, st_gets at 1. apply mwp_bind. apply (mwp_mono _ _ (fun _ => stuck) _ (fun _ => True)); [| |done].
  - case_bool_decide; [exact Hw | by apply stuck_flush].
  - intros row w1 Hw1. refine ((_ : keeps_stuck _) w1 Hw1). unfold removeCallback. keep_stuck.
Qed.
Lemma stuck_reverify headId seq : keeps_stuck (checkReverify headId seq).
Proof.
  unfold checkReverify. apply stuck_bind; [apply stuck_read|]. intros v. apply stuck_bind; [keep_stuck|]. intros id. apply stuck_tx. intros w Hw. apply mwp_bind. unfold mwp at 1, st_gets at 1.
  case_bool_decide; [exact Hw|]. apply mwp_bind. apply (mwp_mono _ _ (fun _ => stuck) _ (fun _ => True)); [by apply stuck_flush | | done]. intros a w1 Hw1. exact Hw1.
Qed.

Lemma keeps_ok {A} (m : mp A) w a w' : keeps_stuck m -> stuck w -> m w = (Ok a, w') -> stuck w'.
Proof. intros Hm Hw E. pose proof (Hm w Hw) as H. unfold mwp in H. by rewrite E in H. Qed.
Lemma later_stuck w w' : later w w' -> stuck w -> stuck w'.
Proof.
  intros Hs Hw. assert (Hb : bstep w w' -> stuck w').
  { intros [? ? ? ? E | ? ? ? ? ? E | ? ? ? E | ? ? ? E]; (eapply keeps_ok; [|exact Hw|exact E]).
    - unfold finish_one_tx. keep_stuck; apply stuck_drop.
    - unfold reply_trace. keep_stuck.
    - unfold stopTracking_tx. keep_stuck; apply stuck_drop.
    - unfold failure_tx. keep_stuck; apply stuck_claim. }
  destruct Hs as [? ? ? ? ? ? ? E | ? ? ? ? ? ? ? E | ? ? ? ? E | ? ? E | ? ? ? ? ? E | ? ? ? E | ? ? ? ? E | ? ? ? E | | | |]; try done; try (by apply Hb); (eapply keeps_ok; [|exact Hw|exact E]).
  - unfold pushTransaction_tx, scheduleSpeculative, post. keep_stuck; try done; apply stuck_schedule.
  - unfold onVerify_tx, queueTransaction, addCallback, cancelSpeculative, reportSpeculativeFailure, incFailedCount. keep_stuck; try apply stuck_cancelVerify; apply stuck_schedule.
  - unfold onSpecTrx_tx, reportSpeculativeFailure, incFailedCount. keep_stuck; apply stuck_cancelVerify.
  - apply stuck_finish.
  - apply stuck_next.
  - apply stuck_reverify.
  - apply stuck_claim.
  - unfold send_claimed. keep_stuck.
Qed.

(** C40: [requeue] reads [*iter] at the end of the queue.  When the verify services change while the
    queue is empty but was used before ([0 < available]; a queue that was never used ends
    normally), the run that this posts aborts and leaves [running] set.  Its callback removes
    the run; whatever blocks of the queue and of [onBlock] follow, further changes of the verify
    services among them, [running] stays set and no run of [requeue] is posted, so that the
    transactions that are queued by then are never verified again. *)
Theorem requeue_stuck now fuel inner v w :
  let row := default no_reverify (ReverifySignatures w) in
  Pending w = ∅ -> 0 < available w -> running row = false -> no_requeue w ->
  exists row1 w1 r w2, flushTransactions row v w = (Ok row1, w1) /\ r_action <$> Runs w1 !! r = Some requeue_action /\
    requeue now (S fuel) (S inner) w1 = (Abort "no such key", w1) /\ onRequeue 0 r w1 = (Ok tt, w2) /\
    forall w3, rtc later w2 w3 -> running (default no_reverify (ReverifySignatures w3)) = true /\ no_requeue w3.
Proof.
  intros row HP Ha Hrun Hno. unfold flushTransactions, mbind, st_bind, st_gets, st_put. rewrite Hrun.
  set (id := match last_run (Runs w) with Some prev => u64 (prev + 1) | None => 0 end).
  eexists _, _, id, _. split; [reflexivity|]. split; [cbn; by rewrite lookup_insert_eq|]. split; [|split].
  - unfold requeue. cbn [requeue_loop requeue_items].
    unfold mbind at 1, st_bind at 1, subjective_tx at 1, requeue_end_tx, mbind, st_bind, st_gets.
    cbn [ReverifySignatures set_Runs set_ReverifySignatures default].
    cbn. fold (available w). destruct (Z.leb_spec (available w) 0); [lia|]. cbn.
    unfold subjective_tx, requeue_item_tx, mbind, st_bind, st_gets.
    cbn. rewrite HP. done.
  - unfold onRequeue, subjective_tx, finish, mbind, st_bind, st_check, st_gets, st_put. cbn. fold id. rewrite lookup_insert_eq. cbn. reflexivity.
  - intros w3 Hw3. change (stuck w3). refine (rtc_ind_r (fun w => stuck w) _ _ _ w3 Hw3); [|intros y z _ Hs; by apply later_stuck].
    split; [done|]. intros r run E. cbn in E. fold id in E. apply lookup_delete_Some in E as [Hne E]. rewrite lookup_insert_ne in E by done. by apply (Hno r).
Qed.

(** A transaction that other nodes put into a block while this one verifies it: [onBlock]
    drops the transaction but not its row, so that the row has no transaction, although the
    comment says it has, and it is counted as processed while it is still tracked. *)
Theorem finished_while_verified w x u good :
  consistent None w -> complete w -> Unverified w !! x = Some u -> TraceClients w !! x = None ->
  exists w', finish_one_tx good x w = (Ok false, w') /\ consistent None w' /\ Unverified w' !! x = Some u /\
    TransactionData w' !! x = None /\
    tracked_set w' = tracked_set w /\ unprocessed_of w' = u64 (Z.of_nat (size (tracked_set w')) - 1).
Proof.
  intros HC [_ Hc] Hu Hcl. assert (Pending w !! x = None) as Hp by (destruct (c_disj _ _ HC x); congruence).
  pose proof (drop_one_spec x w HC) as (w1 & E & HC1 & HP & HU & HD & HS & _).
  assert (finish_one_tx good x w = match (drop_pending x ;; erase_data x) w with
    | (Ok _, w1) => (put_wo (fun v => set_TxSuccess (delete x (TxSuccess v)) v) ;; erase_failed x ;;
        stats ← st_gets (fun w => default no_stats (TxStats w));
        put_stats {| unprocessed := u64 (unprocessed stats - 1); total := total stats; failed := failed stats;
                     succeeded := if good then u64 (succeeded stats + 1) else succeeded stats;
                     expired := if good then expired stats else u64 (expired stats + 1) |} ;; mret false) w1
    | (Abort e, w1) => (Abort e, w1) end) as ->.
  { unfold finish_one_tx. unfold mbind at 1, st_bind at 1, st_gets at 1. rewrite Hcl. unfold mbind, st_bind.
    by destruct (drop_pending x w) as [[[]|] ?]. }
  rewrite E. eexists. split; [reflexivity|]. cbn.
  assert (tracked_set w1 = tracked_set w) as Ht by (unfold tracked_set; rewrite HU, HP, delete_id by done; done).
  split_and!; [by apply (consistent_frame _ w1) | by rewrite HU | by rewrite HD, lookup_delete_eq | exact Ht |].
  unfold unprocessed_of. cbn. rewrite HS. fold (unprocessed_of w). change (tracked_set _) with (tracked_set w1) at 1.
  rewrite Ht, Hc. unfold wrap. by rewrite Zminus_mod_idemp_l.
Qed.

(** ** Examples *)

Definition roomb (n : nat) (runs : gmap Z RunRow) : bool :=
  (Z.of_nat n <? 2 ^ 64) && forallb (fun r => (0 <=? r.1) && (r.1 + Z.of_nat n <? 2 ^ 64)) (map_to_list runs).
Definition fitsb (w : mempool) : bool :=
  (available w + 1 <? 2 ^ 64) && roomb 1 (Runs w) && forallb (fun t => roomb (length (claims (transaction t.2))) (Runs w)) (map_to_list (TransactionData w)).

Lemma roomb_ok n runs : roomb n runs = true -> room n runs.
Proof.
  unfold roomb. intros [H1 H2]%andb_true_iff. split; [zbool; lia|]. intros id row Hr. rewrite forallb_forall in H2.
  specialize (H2 (id, row) ltac:(by apply list_elem_of_In, elem_of_map_to_list)). cbn in H2. zbool. lia.
Qed.
Lemma fitsb_ok w : fitsb w = true -> fits w.
Proof.
  unfold fitsb. intros [[H1 H2]%andb_true_iff H3]%andb_true_iff. split; [zbool; lia|]. split; [by apply roomb_ok|].
  intros x t Ht. apply roomb_ok. rewrite forallb_forall in H3. apply (H3 (x, t)). by apply list_elem_of_In, elem_of_map_to_list.
Qed.

(** A transaction with one signature, of which the node hears from another node. *)
Definition ex_trx : SignedTransaction :=
  {| transaction := {| tapos := {| expiration := 100; refBlockSuffix := 0; tapos_flags := 0; refBlockIndex := 0 |}; actions := []; claims := [no_claim] |};
     proofs := [[1]] |}.
Definition ex_id : TransactionId := [7].
Definition ex_pushed : mempool := (pushTransaction_tx 5 ex_id ex_trx true None init).2.
Definition ok_trace : TransactionTrace := {| error := None; json_of_trace := []; frac_of_trace := [] |}.
Definition ex_verified : mempool := (onVerify_tx 6 1 ok_trace (Some [9]) zero_hash ex_pushed).2.

(** Its signature is run 1, its execution run 0; then it is queued with its token. *)
Example ex_pushed_runs : PendingVerify ex_pushed !! 1 = Some ex_id /\ Speculative ex_pushed !! 0 = Some ex_id /\
  Pending ex_verified !! ex_id = Some {| p_expiration := 100; p_ctime := 6; p_sequence := 0; p_verifies := [[9]]; p_speculative
    := Some 0 |} /\
  (preverify ex_id ex_verified).1 = Ok (Some [Some [9]]) /\ (next_tx ∅ zero_hash (0, None) ex_verified).1 = Ok (1, Some ex_trx).
Proof. by vm_compute. Qed.

Lemma ex_steps : qstep init ex_pushed /\ qstep ex_pushed ex_verified.
Proof.
  split.
  - eapply (q_push init 5 ex_id ex_trx true None true); [by apply fitsb_ok | by apply roomb_ok | by vm_compute].
  - eapply (q_verify ex_pushed 6 1 ok_trace (Some [9]) zero_hash); [by apply fitsb_ok; vm_compute | | done | by vm_compute].
    eexists. split; [by vm_compute | done].
Qed.

Lemma books_agree_witness : consistent None ex_verified.
Proof.
  apply (books_agree ex_verified). destruct ex_steps as [H1 H2].
  apply (rtc_l _ _ ex_pushed); [left; exact H1 | apply rtc_once; left; exact H2].
Defined.


Lemma requeue_stuck_witness : exists row1 w1 r w2, flushTransactions no_reverify [1] (set_AvailableSequence (Some 3) init) = (Ok row1, w1) /\
  requeue 5 1 1 w1 = (Abort "no such key", w1) /\ onRequeue 0 r w1 = (Ok tt, w2) /\ running (default no_reverify (ReverifySignatures w2)) = true.
Proof.
  destruct (requeue_stuck 5 0 0 [1] (set_AvailableSequence (Some 3) init)) as (row1 & w1 & r & w2 & H1 & _ & H2 & H3 & H4);
    [reflexivity | vm_compute; reflexivity | reflexivity | by intros r run E |].
  exists row1, w1, r, w2. split; [exact H1|]. split; [exact H2|]. split; [exact H3|]. apply H4. apply rtc_refl.
Defined.

Example ex_finished : exists w', finish_one_tx true ex_id ex_pushed = (Ok false, w') /\ tracked w' ex_id /\
  TransactionData w' !! ex_id = None /\
  unprocessed_of w' = 0.
Proof. eexists. split; [by vm_compute|]. split; [left; by eexists|]. by vm_compute. Qed.
