(* ===== verification/RTransactRequeue.v ===== *)
(** * psibase: verifying the queue again, retries, and replies

    [requeue] as a whole when nothing interferes; what happens when the block of [next] is run
    again because it could not be committed; and the replies to the clients of a transaction. *)

From S2P Require Import Prelude Services Transact HttpServer RTransact RTransactInv RTransactSteps RTransactBlocks RTransactTheorems.
Import RTransact.
Close Scope nat_scope.

(** ** [requeue] *)

(** Room to verify [k] transactions with at most [N] signatures. *)
Definition ample (N k : nat) (w : mempool) : Prop :=
  available w + Z.of_nat k < 2 ^ 64 /\ room (N * k) (Runs w) /\
  forall y t, TransactionData w !! y = Some t -> (length (claims (transaction t)) <= N)%nat.

Lemma ample_fits N k w : (1 <= N)%nat -> ample N (S k) w -> fits w.
Proof.
  intros HN (Ha & Hr & Hd). split; [lia|]. split; [by eapply room_less; [|exact Hr]; lia|].
  intros x t Ht. eapply room_less; [|exact Hr]. specialize (Hd x t Ht). lia.
Qed.

(** The rows before [e] are all from [n], and the last one is there. *)
Definition requeueing (n e : Z) (w : mempool) : Prop :=
  (forall y q, Pending w !! y = Some q -> p_sequence q < e -> n <= p_sequence q) /\
  exists y q, Pending w !! y = Some q /\ p_sequence q = e - 1.

Lemma requeue_items_spec now N e fuel : (1 <= N)%nat -> forall n w,
  consistent None w -> complete w -> ample N fuel w -> e <= available w -> 0 <= n < e -> requeueing n e w ->
    e - n <= Z.of_nat fuel ->
  exists n' w', requeue_items now fuel n e w = (Ok (Some n'), w') /\ e <= n' /\ consistent None w' /\ complete w' /\
    (forall y, tracked w' y <-> tracked w y) /\ (forall y q, Pending w' !! y = Some q -> e <= p_sequence q) /\
    ReverifySignatures w' = ReverifySignatures w.
Proof.
  intros HN. induction fuel as [|fuel IH]; intros n w HC Hk Ham He Hn (Hall & y0 & q0 & Hy0 & Hq0) Hfuel; [lia|].
  cbn [requeue_items]. unfold mbind, st_bind. unfold subjective_tx at 1.
  pose proof (requeue_item_spec now n e w HC (ample_fits _ _ _ HN Ham)) as Hi.
  destruct (requeue_item_tx now n e w) as [[s|msg] w1].
  2:{ destruct Hi as [Hi|(x & p & Hx & Hs & Hd)]; [specialize (Hi _ _ Hy0); lia|].
  destruct (proj1 Hk x) as [t Ht]; [right; eauto | congruence]. }
  destruct Hi as (Ho & x & p & Hx & Hs & Hns & Hmin & _ & Hnew & Hoth & Hav & Hroom & Hrv).
  assert (s <= e - 1) as Hse by (rewrite <- Hq0; apply (Hmin y0); [done | lia]).
  destruct Ham as (Ha & Hr & HD). rewrite wrap_small by (pose proof (c_avail _ _ HC); lia).
  assert (forall y, tracked w1 y <-> tracked w y) as Ht1 by (intros y; rewrite (oc_tracked _ _ _ Ho); split; [by intros [? _] |
    done]).
  assert (complete w1) as Hk1 by (by apply (outcome_complete _ _ _ Ho)).
  assert (forall y q, Pending w1 !! y = Some q -> p_sequence q < e -> s + 1 <= p_sequence q) as Hall1.
  { intros y q Hy Hq. destruct (decide (y = x)) as [->|Hne]; [rewrite (Hnew ltac:(lia) q Hy) in Hq; lia|].
    rewrite Hoth in Hy by done. assert (s <= p_sequence q) by (apply (Hmin y); [done | by apply (Hall y)]).
    destruct (decide (p_sequence q = s)) as [E|]; [|lia]. destruct Hne.
    apply (c_uniq _ _ HC y x q p); [done | done | congruence]. }
  destruct (Z.leb_spec e (s + 1)) as [Hend|Hmore].
  - exists (s + 1), w1. split; [done|]. split_and!; try done; [apply Ho|]. intros y q Hy.
    destruct (decide (p_sequence q < e)) as [Hq|]; [|lia]. specialize (Hall1 y q Hy Hq). lia.
  - destruct (IH (s + 1) w1) as (n' & w' & E & Hn' & HC' & Hk' & Ht' & Hq' & Hrv'); try done.
    + apply Ho.
    + split; [lia|]. split; [apply (Hroom _ N HD); eapply room_less; [|exact Hr]; lia|].
      intros y t. rewrite (oc_data _ _ _ Ho) by done. apply HD.
    + lia.
    + lia.
    + split; [done|]. exists y0, q0. split; [|done]. rewrite Hoth; [done|]. intros ->. rewrite Hx in Hy0. injection Hy0 as <-.
      lia.
    + lia.
    + exists n', w'. split; [exact E|]. split_and!; try done; [|congruence]. intros y. by rewrite Ht'.
Qed.

Lemma requeue_end_eq n w row : ReverifySignatures w = Some row ->
  requeue_end_tx n w = if endSequence row <=? n
    then (Ok None, set_ReverifySignatures (Some {| endSequence := endSequence row; rv_verifyId := rv_verifyId row; running :=
      false |}) w)
    else (Ok (Some (endSequence row)), w).
Proof. intros Hr. unfold requeue_end_tx, mbind, st_bind, st_gets. rewrite Hr. cbn [default]. by destruct (_ <=? n). Qed.

Lemma requeue_spec now N fuel w row : (1 <= N)%nat -> consistent None w -> complete w -> ample N fuel w ->
  ReverifySignatures w = Some row -> endSequence row <= available w -> 0 < endSequence row ->
    endSequence row <= Z.of_nat fuel ->
  (exists y q, Pending w !! y = Some q /\ p_sequence q = endSequence row - 1) ->
  exists w', requeue now 2 fuel w = (Ok true, w') /\ consistent None w' /\ complete w' /\
    (forall y, tracked w' y <-> tracked w y) /\ (forall y q, Pending w' !! y = Some q -> endSequence row <= p_sequence q) /\
    ReverifySignatures w' = Some {| endSequence := endSequence row; rv_verifyId := rv_verifyId row; running := false |}.
Proof.
  intros HN HC Hk Ham Hrow He Hpos Hfuel Hlast. set (e := endSequence row) in *.
  destruct (requeue_items_spec now N e fuel HN 0 w HC Hk Ham He ltac:(lia)) as (n' & w' & E & Hn' & HC' & Hk' & Ht' & Hq' &
    Hrv').
  { split; [|done]. intros y q Hy _. apply (c_seq _ _ HC _ _ Hy). } { lia. }
  set (row' := {| endSequence := e; rv_verifyId := rv_verifyId row; running := false |}).
  exists (set_ReverifySignatures (Some row') w').
  split; [|split; [by apply (consistent_frame _ w') | split; [by apply (frame_complete w') | done]]].
  unfold requeue. cbn [requeue_loop]. unfold mbind at 1, st_bind at 1. unfold subjective_tx at 1.
  rewrite (requeue_end_eq _ _ _ Hrow). fold e.
  destruct (Z.leb_spec e 0); [lia|]. unfold mbind at 1, st_bind at 1. rewrite E. unfold mbind at 1, st_bind at 1.
  unfold subjective_tx at 1. rewrite (requeue_end_eq n' w' row) by congruence. fold e. destruct (Z.leb_spec e n'); [done | lia].
Qed.

(** ** The block of [next] run twice *)

Lemma next_scan_found included data rows n t :
  next_scan included data rows n (Some t) = match next_scan included data rows n None with
    | Ok (n', None) => Ok (n', Some t) | r => r end.
Proof.
  revert n. induction rows as [|[x p] rows IH]; intros n; cbn; [done|]. destruct (bool_decide _); [apply IH|].
  by destruct (data !! x).
Qed.

(** The block when the verify services are the same. *)
Lemma next_tx_eq included n found w : let row := default no_reverify (ReverifySignatures w) in
  next_tx included (rv_verifyId row) (n, found) w =
    match next_scan included (TransactionData w) (from_sequence (Z.max n (endSequence row)) (Pending w)) (Z.max n (endSequence
      row)) found with
    | Ok (n', r) => (match r with None => removeCallback self nextTransaction m_next | Some _ => mret tt end ;; mret (n', r))
                      (set_wo (set_UnappliedTransaction (Some n') (wo w)) w)
    | Abort e => (Abort e, w)
    end.
Proof.
  intros row. unfold next_tx. unfold mbind at 1, st_bind at 1, st_gets at 1. fold row. rewrite bool_decide_true by done.
  unfold mbind at 1, st_bind at 1. cbn [mret st_ret]. unfold mbind at 1, st_bind at 1, st_gets. unfold mbind at 1, st_bind at 1.
  change (id w) with w. destruct (next_scan _ _ _ _ found) as [[n' [t|]]|e]; [done | | done].
  unfold mbind, st_bind, put_wo, st_put. cbn [fst snd]. by destruct (removeCallback self nextTransaction m_next _) as [[[]|] ?].
Qed.

(** The variables [nextSequence] and [result] of [next] are declared outside of the block that
    is run again when its changes cannot be committed.  The second run starts behind the
    transaction [t1] that the first one found: it returns another one when there is one, and
    [t1] is behind the position that is stored, so that no later call on this fork offers it. *)
Theorem next_retry_skips included n n1 t1 w w1 n2 r2 w2 :
  let row := default no_reverify (ReverifySignatures w) in
  consistent None w -> fits w ->
  next_tx included (rv_verifyId row) (n, None) w = (Ok (n1, Some t1), w1) ->
  (exists y q, Pending w !! y = Some q /\ n1 <= p_sequence q /\ ~ in_block included y q) ->
  next_tx included (rv_verifyId row) (n1, Some t1) w = (Ok (n2, r2), w2) ->
  exists x p y q t2, Pending w !! x = Some p /\ TransactionData w !! x = Some t1 /\ ~ in_block included x p /\
    Pending w !! y = Some q /\ TransactionData w !! y = Some t2 /\ r2 = Some t2 /\ x <> y /\
    p_sequence p < n2 /\ UnappliedTransaction (wo w2) = Some n2.
Proof.
  intros row HC Hfit E1 (y0 & q0 & Hy0 & Hq0 & Hb0) E2. unfold row in *. rewrite next_tx_eq in E1, E2. fold row in E1, E2.
  rewrite next_scan_found in E2.
  pose proof (next_scan_result included (Z.max n (endSequence row)) w HC Hfit) as H1.
  pose proof (next_scan_result included (Z.max n1 (endSequence row)) w HC Hfit) as H2.
  destruct (next_scan _ _ _ (Z.max n (endSequence row)) None) as [[m1 f1]|]; [|done].
  destruct f1 as [t|]; unfold mbind, st_bind in E1; [|by destruct (removeCallback _ _ _ _) as [[[]|] ?]].
  injection E1 as -> -> _.
  destruct H1 as (x & p & Hx & Hn & Hnb & Hd & Hm & _). cbn in Hm. subst n1.
  destruct (next_scan _ _ _ (Z.max (p_sequence p + 1) (endSequence row)) None) as [[m2 f2]|]; [|done].
  destruct f2 as [t2|].
  - unfold mbind, st_bind in E2. injection E2 as -> <- <-. destruct H2 as (y & q & Hy & Hn2 & Hnb2 & Hd2 & Hm2 & _). cbn in Hm2.
    exists x, p, y, q, t2. split_and!; try done; [|lia]. intros ->. rewrite Hx in Hy. injection Hy as ->. lia.
  - destruct H2 as (Hall & _). destruct Hb0. apply (Hall y0 q0 Hy0). lia.
Qed.

(** ** Examples *)

(** Two transactions without signatures are queued. *)
Definition ex_plain (n : Z) : SignedTransaction :=
  {| transaction := {| tapos := {| expiration := n; refBlockSuffix := 0; tapos_flags := 0; refBlockIndex := 0 |}; actions := []; claims := [] |};
     proofs := [] |}.
Definition ex_two : mempool :=
  (pushTransaction_tx 5 [2] (ex_plain 200) false None (pushTransaction_tx 5 [1] (ex_plain 100) false None init).2).2.

(** [next] finds the first of them; when its block is run again it returns the second and
    stores the position behind both. *)
Example ex_retry :
  (next_tx ∅ zero_hash (0, None) ex_two).1 = Ok (1, Some (ex_plain 100)) /\
  (next_tx ∅ zero_hash (1, Some (ex_plain 100)) ex_two).1 = Ok (2, Some (ex_plain 200)) /\
  UnappliedTransaction (wo (next_tx ∅ zero_hash (1, Some (ex_plain 100)) ex_two).2) = Some 2.
Proof. by vm_compute. Qed.

(** The verify services change while [ex_verified] has its transaction queued: its signature
    is verified again, by a new run. *)
Example ex_requeue : let w := (flushTransactions no_reverify [1] ex_verified).2 in let r := requeue 7 2 2 w in
  r.1 = Ok true /\ Pending r.2 !! ex_id = None /\
  (u_verifies <$> Unverified r.2 !! ex_id) = Some [Running 2] /\ (running <$> ReverifySignatures r.2) = Some false.
Proof. by vm_compute. Qed.

(** ** Replies to the clients of a transaction *)

Abbreviation hstate := (HttpServer.state SignedTransaction).
Abbreviation claim c := (http_call (HttpServer.claimReply self (socket c))).

(** *** The loops *)

Lemma claim_iter cs w : NoDup (map socket cs) -> (forall c, c ∈ cs -> HttpServer.requests (http w) !! socket c = Some self) ->
  exists h : hstate, st_iter (fun c => claim c) cs w = (Ok tt, set_http h w) /\
    (forall s, s ∈ map socket cs -> HttpServer.requests h !! s = None /\
       HttpServer.owned h !! s = Some {| HttpServer.owner := self; HttpServer.prevOwners := None |}) /\
    (forall s, s ∉ map socket cs -> HttpServer.requests h !! s = HttpServer.requests (http w) !! s /\
       HttpServer.owned h !! s = HttpServer.owned (http w) !! s) /\
    HttpServer.sent h = HttpServer.sent (http w) ++ map (fun c => HttpServer.autoClose (socket c) true) cs.
Proof.
  revert w. induction cs as [|c cs IH]; intros w Hnd Hreq.
  - exists (http w). split; [by destruct w|]. split_and!; [set_solver | done | by rewrite app_nil_r].
  - cbn in Hnd. apply NoDup_cons in Hnd as [Hc Hnd].
    set (h1 := {| HttpServer.requests := delete (socket c) (HttpServer.requests (http w));
                  HttpServer.owned := <[socket c := {| HttpServer.owner := self;
                    HttpServer.prevOwners := None |}]> (HttpServer.owned (http w));
                  HttpServer.sent := HttpServer.sent (http w) ++ [HttpServer.autoClose (socket c) true] |}).
    destruct (IH (set_http h1 w)) as (h & E & Hin & Hout & Hsent).
    { done. } { intros c' Hc'. cbn. rewrite lookup_delete_ne; [apply Hreq; by right|]. intros Heq. apply Hc. rewrite Heq.
      by apply (list_elem_of_fmap_2 socket). }
    exists h. split; [|split_and!].
    + cbn [st_iter]. unfold mbind, st_bind, http_call at 1. rewrite HttpServer.claimReply_ok by (apply Hreq; by left). exact E.
    + intros s [->|Hs]%elem_of_cons; [|by apply Hin]. destruct (Hout _ Hc) as [-> ->]. cbn.
      by rewrite lookup_delete_eq, lookup_insert_eq.
    + intros s [Hne Hs]%not_elem_of_cons. destruct (Hout _ Hs) as [-> ->]. cbn. by rewrite lookup_delete_ne, lookup_insert_ne.
    + rewrite Hsent. cbn. by rewrite <- app_assoc.
Qed.

Lemma send_iter reply ss w : NoDup ss -> Forall (.∈ HttpServer.allowedHeaders) (HttpServer.headers reply) ->
  (forall s, s ∈ ss -> exists row, HttpServer.owned (http w) !! s = Some row /\ HttpServer.owner row = self) ->
  exists h : hstate, st_iter (fun s => http_call (HttpServer.sendReply self s reply)) ss w = (Ok tt, set_http h w) /\
    HttpServer.requests h = HttpServer.requests (http w) /\
    (forall s, s ∉ ss -> HttpServer.owned h !! s = HttpServer.owned (http w) !! s) /\
    HttpServer.sent h = HttpServer.sent (http w) ++ map (fun s => HttpServer.send_reply s reply) ss.
Proof.
  intros Hnd Hh. revert w. induction Hnd as [|s ss Hs Hnd IH]; intros w Hown.
  - exists (http w). split; [by destruct w|]. split_and!; [done.. | by rewrite app_nil_r].
  - destruct (Hown s ltac:(by left)) as (row & Hrow & Hself).
    set (h1 := {| HttpServer.requests := HttpServer.requests (http w); HttpServer.owned := delete s (HttpServer.owned (http w));
                  HttpServer.sent := HttpServer.sent (http w) ++ [HttpServer.send_reply s reply] |}).
    destruct (IH (set_http h1 w)) as (h & E & Hreq & Hout & Hsent).
    { intros s' Hs'. cbn. rewrite lookup_delete_ne by congruence. apply Hown. by right. }
    exists h. split; [|split_and!].
    + cbn [st_iter]. unfold mbind, st_bind, http_call at 1.
      rewrite (HttpServer.sendReply_owned self s reply (http w) row) by done. exact E.
    + by rewrite Hreq.
    + intros s' [Hne Hs']%not_elem_of_cons. rewrite Hout by done. cbn. by rewrite lookup_delete_ne.
    + rewrite Hsent. cbn. by rewrite <- app_assoc.
Qed.

(** *** Selecting the clients *)

Lemma NoDup_filter_map {A B} (f : A -> B) (P : A -> Prop) `{!forall x, Decision (P x)} l : NoDup (map f l) ->
  NoDup (map f (filter P l)).
Proof.
  induction l as [|a l IH]; [done|]. intros [Ha Hnd]%NoDup_cons. rewrite filter_cons. destruct (decide (P a)); [|auto].
  cbn. apply NoDup_cons. split; [|auto]. intros (b & Hb & Hin)%list_elem_of_fmap. apply list_elem_of_filter in Hin as [_ Hin].
  apply Ha. rewrite Hb. by apply list_elem_of_fmap_2.
Qed.
Lemma NoDup_map_inj {A B} (f : A -> B) l a b : NoDup (map f l) -> a ∈ l -> b ∈ l -> f a = f b -> a = b.
Proof.
  induction l as [|c l IH]; [set_solver|]. cbn. intros [Hc Hnd]%NoDup_cons Ha Hb E.
  apply elem_of_cons in Ha as [->|Ha], Hb as [->|Hb]; [done | | | auto].
  - destruct Hc. rewrite E. by apply list_elem_of_fmap_2.
  - destruct Hc. rewrite <- E. by apply list_elem_of_fmap_2.
Qed.

Lemma list_filter_ext {A} (P Q : A -> Prop) `{!forall x, Decision (P x), !forall x, Decision (Q x)} (l : list A) :
  (forall x, x ∈ l -> P x <-> Q x) -> filter P l = filter Q l.
Proof.
  induction l as [|a l IH]; intros Heq; [done|]. rewrite !filter_cons, IH by (intros; apply Heq; by right).
  pose proof (Heq a ltac:(by left)). destruct (decide (P a)), (decide (Q a)); tauto.
Qed.

Definition selected (f : TraceClientInfo -> bool) (row : TraceClientRow) : list TraceClientInfo := filter (fun c => f c = true) (c_clients row).
Definition json_sockets (cs : list TraceClientInfo) : list Z := map socket (filter (fun c => json c = true) cs).
Definition bin_sockets (cs : list TraceClientInfo) : list Z := map socket (filter (fun c => json c = false) cs).

Lemma socket_claimed cs s : s ∈ json_sockets cs \/ s ∈ bin_sockets cs <-> s ∈ map socket cs.
Proof.
  unfold json_sockets, bin_sockets. rewrite !list_elem_of_fmap. split.
  - intros [(c & -> & [_ Hc]%list_elem_of_filter)|(c & -> & [_ Hc]%list_elem_of_filter)]; eauto.
  - intros (c & -> & Hc). destruct (json c) eqn:E; [left | right]; exists c; (split; [done|]); by apply list_elem_of_filter.
Qed.

(** The clients that are left are those that the filter does not select. *)
Lemma clients_left f row : NoDup (map socket (c_clients row)) ->
  filter (fun c => (socket c ∉ json_sockets (selected f row)) /\ (socket c ∉ bin_sockets (selected f row))) (c_clients row) =
  filter (fun c => f c = false) (c_clients row).
Proof.
  intros Hnd. apply list_filter_ext. intros c Hc.
  pose proof (socket_claimed (selected f row) (socket c)) as Hs.
  assert (socket c ∈ map socket (selected f row) <-> f c = true) as Hf.
  { rewrite list_elem_of_fmap. split.
    - intros (c' & E & [Hf Hc']%list_elem_of_filter). by rewrite (NoDup_map_inj socket _ c c' Hnd Hc Hc' E).
    - intros Hf. exists c. split; [done|]. by apply list_elem_of_filter. }
  destruct (f c); intuition congruence.
Qed.

(** *** [sendReply] *)

(** Each client of the transaction waits on its own socket, which [HttpServer] keeps for us. *)
Definition waiting (row : TraceClientRow) (w : mempool) : Prop :=
  NoDup (map socket (c_clients row)) /\ forall c, c ∈ c_clients row -> HttpServer.requests (http w) !! socket c = Some self.

Lemma claimClientReply_spec x f w row : TraceClients w !! x = Some row -> waiting row w ->
  exists h : hstate, let left_ := filter (fun c => f c = false) (c_clients row) in
    claimClientReply x f w = (Ok (json_sockets (selected f row), bin_sockets (selected f row)),
      set_TraceClients (match left_ with [] => delete x (TraceClients w)
        | _ => <[x := {| c_expiration := c_expiration row; c_clients := left_ |}]> (TraceClients w) end) (set_http h w)) /\
    (forall s, s ∈ map socket (selected f row) ->
       HttpServer.owned h !! s = Some {| HttpServer.owner := self; HttpServer.prevOwners := None |} /\
         HttpServer.requests h !! s = None) /\
    (forall s, s ∉ map socket (selected f row) -> HttpServer.requests h !! s = HttpServer.requests (http w) !! s) /\
    HttpServer.sent h = HttpServer.sent (http w) ++ map (fun c => HttpServer.autoClose (socket c) true) (selected f row).
Proof.
  intros Hx [Hnd Hreq]. destruct (claim_iter (selected f row) w) as (h & E & Hin & Hout & Hsent).
  { by apply NoDup_filter_map. } { intros c [_ Hc]%list_elem_of_filter. by apply Hreq. }
  exists h. split; [|split_and!; [intros s Hs; destruct (Hin s Hs); done | intros s Hs; by apply Hout | done]].
  unfold claimClientReply, subjective_tx, mbind, st_bind, st_gets. rewrite Hx. fold (selected f row). rewrite E.
  change (map socket (filter (fun c => json c = true) (selected f row))) with (json_sockets (selected f row)).
  change (map socket (filter (fun c => json c = false) (selected f row))) with (bin_sockets (selected f row)).
  rewrite clients_left by done. by destruct (filter (fun c => f c = false) (c_clients row)).
Qed.

Lemma cors_allowed : Forall (.∈ HttpServer.allowedHeaders) cors_headers.
Proof.
  assert (forallb (fun h => bool_decide (h ∈ HttpServer.allowedHeaders)) cors_headers = true) as H by (vm_compute; reflexivity).
  apply Forall_forall. intros h Hh. rewrite forallb_forall in H. apply list_elem_of_In, H in Hh.
  by apply bool_decide_eq_true_1 in Hh.
Qed.

(** Every client that the filter selects is claimed and answered with the trace once, in the
    form it asked for; the others keep waiting, and nothing of the queue changes. *)
Theorem replies_once x trace f w row : TraceClients w !! x = Some row -> waiting row w ->
  exists w', sendReply x trace f w = (Ok tt, w') /\ same_books w w' /\
    TraceClients w' !! x = (match filter (fun c => f c = false) (c_clients row) with
      [] => None | l => Some {| c_expiration := c_expiration row; c_clients := l |} end) /\
    (forall y, y <> x -> TraceClients w' !! y = TraceClients w !! y) /\
    HttpServer.sent (http w') = HttpServer.sent (http w) ++ map (fun c => HttpServer.autoClose (socket c) true) (selected f row)
      ++
      map (fun s => HttpServer.send_reply s (json_reply trace)) (json_sockets (selected f row)) ++
      map (fun s => HttpServer.send_reply s (bin_reply trace)) (bin_sockets (selected f row)) /\
    (forall c, c ∈ c_clients row -> HttpServer.requests (http w') !! socket c = (if f c then None else Some self)).
Proof.
  intros Hx Hw. destruct (claimClientReply_spec x f w row Hx Hw) as (h & E & Hin & Hout & Hsent). destruct Hw as [Hnd Hreq].
  assert (NoDup (map socket (selected f row))) as Hnds by (by apply NoDup_filter_map).
  pose proof cors_allowed as Hcors.
  unfold sendReply, mbind, st_bind. rewrite E. unfold send_claimed. cbn [fst snd]. set (w1 := set_TraceClients _ _).
  destruct (send_iter (json_reply trace) (json_sockets (selected f row)) w1) as (h1 & E1 & R1 & O1 & S1);
    [by apply NoDup_filter_map | done | |].
  { intros s Hs. eexists. split; [apply Hin, socket_claimed; by left | done]. }
  destruct (send_iter (bin_reply trace) (bin_sockets (selected f row)) (set_http h1 w1)) as (h2 & E2 & R2 & O2 & S2);
    [by apply NoDup_filter_map | done | |].
  { intros s Hs. eexists. cbn. rewrite O1; [split; [apply Hin, socket_claimed; by right | done]|].
    intros Hj. unfold json_sockets, bin_sockets in *. apply list_elem_of_fmap in Hs as (c & -> & [Hc1 Hc2]%list_elem_of_filter).
    apply list_elem_of_fmap in Hj as (c' & Heq & [Hc3 Hc4]%list_elem_of_filter).
    rewrite (NoDup_map_inj socket _ c c' Hnds Hc2 Hc4 Heq) in Hc1. congruence. }
  exists (set_http h2 (set_http h1 w1)). split; [unfold mbind, st_bind; by rewrite E1|]. split; [done|]. cbn. split_and!.
  - destruct (filter _ _); [by rewrite lookup_delete_eq | by rewrite lookup_insert_eq].
  - intros y Hy. destruct (filter _ _); [by rewrite lookup_delete_ne | by rewrite lookup_insert_ne].
  - rewrite S2. cbn. rewrite S1. cbn. rewrite Hsent, !app_assoc. done.
  - intros c Hc. rewrite R2. cbn. rewrite R1. cbn. destruct (f c) eqn:Hf.
    + apply Hin. apply list_elem_of_fmap_2, list_elem_of_filter. done.
    + rewrite Hout; [by apply Hreq|]. intros (c' & Heq & [Hf' Hc']%list_elem_of_filter)%list_elem_of_fmap.
      rewrite (NoDup_map_inj socket _ c c' Hnd Hc Hc' Heq) in Hf. congruence.
Qed.
