(* ===== verification/Merkle.v ===== *)
(** * psibase: incremental merkle trees

    [struct Merkle] of [psibase/crypto.hpp] and [crypto.cpp]: a merkle tree of
    minimal depth, built leaf by leaf with a stack of complete subtrees.  The
    hash function is a parameter.  The stack is kept with its back at the head
    of the list. *)

From S2P Require Import Prelude.

Section merkle.
Context (sha256 : bytes -> bytes).

Abbreviation hash := (list Z) (only parsing).
Definition no_hash : hash := replicate 32 0.

(** [Merkle::combine]. *)
Definition combine (lhs rhs : hash) : hash := sha256 (1 :: lhs ++ rhs).

(** [Merkle::hash_leaf] of a value that packs to the given bytes. *)
Definition hash_leaf (packed : bytes) : hash := sha256 (0 :: packed).

Record merkle := { m_i : Z; m_stack : list hash }.
Definition merkle_empty : merkle := {| m_i := 0; m_stack := [] |}.

(** The loop of [push_impl]; [None] is an access below the stack.  [x] has 64
    bits. *)
Fixpoint push_loop (fuel : nat) (x : Z) (stack : list hash) : option (list hash) :=
  match fuel with
  | O => Some stack
  | S fuel =>
      if negb (Z.land x 1 =? 0) then
        match stack with
        | top :: second :: rest => push_loop fuel (Z.shiftr x 1) (combine second top :: rest)
        | _ => None
        end
      else Some stack
  end.

Definition push_impl (m : merkle) (value : hash) : option merkle :=
  match push_loop 65 (m_i m) (value :: m_stack m) with
  | Some stack => Some {| m_i := u64 (m_i m + 1); m_stack := stack |}
  | None => None
  end.

Definition merkle_root (m : merkle) : hash :=
  match m_stack m with
  | [] => no_hash
  | top :: rest => foldl (fun result node => combine node result) top rest
  end.

Fixpoint push_leaves (m : merkle) (leaves : list hash) : option merkle :=
  match leaves with
  | [] => Some m
  | h :: leaves => match push_impl m h with Some m => push_leaves m leaves | None => None end
  end.

(** ** The tree that the documentation describes

    Minimal depth, left subtrees filled first: the left subtree is complete and
    has the largest power of two of leaves that is below their number. *)
Definition left_size (n : nat) : nat := 2 ^ Nat.log2 (n - 1).

Fixpoint tree (fuel : nat) (leaves : list hash) : hash :=
  match fuel with
  | O => no_hash
  | S fuel =>
      match leaves with
      | [] => no_hash
      | [h] => h
      | _ => let k := left_size (length leaves) in combine (tree fuel (take k leaves)) (tree fuel (drop k leaves))
      end
  end.
Definition merkle_tree (leaves : list hash) : hash := tree (length leaves) leaves.

Lemma left_size_bounds n : (2 <= n)%nat -> (1 <= left_size n < n)%nat /\ (n <= 2 * left_size n)%nat.
Proof.
  intros Hn. unfold left_size. destruct (Nat.log2_spec (n - 1) ltac:(lia)) as [H1 H2].
  rewrite Nat.pow_succ_r' in H2. pose proof (Nat.pow_nonzero 2 (Nat.log2 (n - 1)) ltac:(lia)). lia.
Qed.

Lemma left_size_unique n k : (2 ^ k < n <= 2 * 2 ^ k)%nat -> left_size n = (2 ^ k)%nat.
Proof.
  intros H. unfold left_size. f_equal. apply Nat.log2_unique; [lia|]. rewrite Nat.pow_succ_r'. lia.
Qed.

Lemma tree_fuel f g leaves : (length leaves <= f)%nat -> (length leaves <= g)%nat -> tree f leaves = tree g leaves.
Proof.
  revert g leaves. induction f as [|f IH]; intros [|g] leaves Hf Hg; try (by destruct leaves; cbn in *; lia || done).
  destruct leaves as [|a [|b l]]; [done..|]. cbn [tree]. set (ls := a :: b :: l) in *.
  assert (Hl : (2 <= length ls)%nat) by (cbn; lia). pose proof (left_size_bounds _ Hl).
  f_equal; apply IH; rewrite ?length_take, ?length_drop; lia.
Qed.

(** Joining a complete tree and a tree that is not larger. *)
Lemma merkle_tree_app k l r :
  length l = (2 ^ k)%nat -> (0 < length r <= 2 ^ k)%nat ->
  merkle_tree (l ++ r) = combine (merkle_tree l) (merkle_tree r).
Proof.
  intros Hl Hr. unfold merkle_tree. rewrite length_app. pose proof (Nat.pow_nonzero 2 k ltac:(lia)).
  destruct (length l + length r)%nat as [|f] eqn:Ef; [lia|].
  destruct (l ++ r) as [|a [|b ls]] eqn:E; [by apply (f_equal length) in E; rewrite length_app in E; cbn in E; lia..|].
  cbn [tree]. rewrite <- E, length_app, Hl, (left_size_unique _ k) by lia.
  rewrite take_app_length', drop_app_length' by done. f_equal; apply tree_fuel; lia.
Qed.

(** [peaks j x st ls]: the stack [st] holds the complete trees of the leaves
    [ls], one of [2 ^ (j + b)] leaves for each bit [b] of [x]. *)
Inductive peaks : nat -> Z -> list hash -> list hash -> Prop :=
| peaks_nil j : peaks j 0 [] []
| peaks_even j x st ls : 0 < x -> peaks (S j) x st ls -> peaks j (2 * x) st ls
| peaks_odd j x st ls c : 0 <= x -> peaks (S j) x st ls -> length c = (2 ^ j)%nat ->
    peaks j (2 * x + 1) (merkle_tree c :: st) (ls ++ c).

Lemma odd_step x : 0 <= x -> (Z.land (2 * x + 1) 1 =? 0) = false /\ Z.shiftr (2 * x + 1) 1 = x /\ (Z.land (2 * x) 1 =? 0) = true.
Proof.
  intros Hx. change 1 with (2 ^ 1 - 1) at 2 5. rewrite !land_ones_mod, Z.shiftr_div_pow2 by lia. change (2 ^ 1) with 2.
  split_and!; [apply Z.eqb_neq; mlia | mlia | apply Z.eqb_eq; mlia].
Qed.

Lemma push_loop_peaks j x st ls c fuel :
  peaks j x st ls -> length c = (2 ^ j)%nat -> 0 <= x < 2 ^ Z.of_nat fuel ->
  exists st', push_loop (S fuel) x (merkle_tree c :: st) = Some st' /\ peaks j (x + 1) st' (ls ++ c).
Proof.
  intros Hp. revert c fuel. induction Hp as [j|j x st ls Hx Hp _|j x st ls c0 Hx Hp IH Hc0]; intros c fuel Hc Hb.
  - exists [merkle_tree c]. split; [done|]. apply (peaks_odd j 0 [] [] c); [lia|constructor|done].
  - exists (merkle_tree c :: st). split; [|by apply peaks_odd; [lia|..]].
    cbn [push_loop]. by rewrite (proj2 (proj2 (odd_step x ltac:(lia)))).
  - destruct (odd_step x Hx) as (E1 & E2 & _). cbn [push_loop]. rewrite E1, E2. cbn [negb].
    pose proof (Nat.pow_nonzero 2 j ltac:(lia)).
    rewrite <- (merkle_tree_app j) by lia.
    destruct fuel as [|fuel]; [cbn in Hb; lia|]. rewrite Nat2Z.inj_succ, Z.pow_succ_r in Hb by lia.
    destruct (IH (c0 ++ c) fuel) as (st' & E & Hp'); [rewrite length_app; cbn; lia|lia|].
    exists st'. split; [done|]. rewrite <- app_assoc. replace (2 * x + 1 + 1) with (2 * (x + 1)) by lia.
    apply peaks_even; [lia|done].
Qed.

Lemma fold_peaks j x st ls c :
  peaks j x st ls -> (0 < length c <= 2 ^ j)%nat ->
  foldl (fun result node => combine node result) (merkle_tree c) st = merkle_tree (ls ++ c).
Proof.
  intros Hp. revert c. induction Hp as [j|j x st ls Hx Hp IH|j x st ls c0 Hx Hp IH Hc0]; intros c Hc; cbn [foldl].
  - done.
  - apply IH. cbn. lia.
  - rewrite <- (merkle_tree_app j) by lia. rewrite <- app_assoc. apply IH. rewrite length_app. cbn. lia.
Qed.

Lemma root_peaks j x st ls : peaks j x st ls -> merkle_root {| m_i := x; m_stack := st |} = merkle_tree ls.
Proof.
  induction 1 as [j|j x st ls Hx Hp IH|j x st ls c Hx Hp IH Hc]; [done|exact IH|].
  unfold merkle_root. cbn [m_stack]. apply (fold_peaks (S j) x); [done|]. rewrite Hc. pose proof (Nat.pow_nonzero 2 j). cbn. lia.
Qed.

Lemma push_leaves_peaks leaves x st ls :
  peaks 0 x st ls -> 0 <= x -> x + Z.of_nat (length leaves) < 2 ^ 64 ->
  exists st', push_leaves {| m_i := x; m_stack := st |} leaves = Some {| m_i := x + Z.of_nat (length leaves); m_stack := st' |} /\
    peaks 0 (x + Z.of_nat (length leaves)) st' (ls ++ leaves).
Proof.
  revert x st ls. induction leaves as [|h leaves IH]; intros x st ls Hp Hx Hb; cbn [push_leaves length].
  - exists st. rewrite app_nil_r, Z.add_0_r. done.
  - cbn [length] in Hb. destruct (push_loop_peaks 0 x st ls [h] 64 Hp) as (st' & E & Hp'); [done|cbn; lia|].
    change (merkle_tree [h]) with h in E. unfold push_impl. cbn [m_i m_stack]. rewrite E, wrap_small by lia.
    destruct (IH (x + 1) st' (ls ++ [h])) as (st'' & E' & Hp''); [done|lia|lia|].
    exists st''. rewrite E', <- app_assoc in *. replace (x + Z.of_nat (S (length leaves))) with (x + 1 + Z.of_nat (length leaves)) by lia. done.
Qed.

(** After any number of leaves the root is that of the documented tree: minimal
    depth, left subtrees filled first; no push reaches below the stack. *)
Theorem merkle_root_correct leaves :
  Z.of_nat (length leaves) < 2 ^ 64 ->
  exists m, push_leaves merkle_empty leaves = Some m /\ merkle_root m = merkle_tree leaves.
Proof.
  intros Hn. destruct (push_leaves_peaks leaves 0 [] []) as (st & E & Hp); [constructor|lia|lia|].
  eexists. split; [exact E|]. by apply (root_peaks 0 (0 + Z.of_nat (length leaves))) in Hp.
Qed.
End merkle.

Lemma merkle_root_correct_witness :
  let h := fun l : bytes => 7 :: l in
  exists m, push_leaves h merkle_empty [[1]; [2]; [3]; [4]; [5]] = Some m /\
    merkle_root h m = combine h (combine h (combine h [1] [2]) (combine h [3] [4])) [5].
Proof. exact (merkle_root_correct (fun l : bytes => 7 :: l) [[1]; [2]; [3]; [4]; [5]] ltac:(vm_compute; reflexivity)). Defined.
