(* ===== verification/KvMerkle.v ===== *)
(** * psibase: the merkle root of a key-value database

    [KvMerkle.hpp] and [KvMerkle.cpp]: the items of a database, pushed in the
    order of their keys, are combined into a merkle root with a stack of partial
    subtrees.  The reference is the binary trie that the header documents.  The
    hash function is a parameter; the stack is kept with its back at the head of
    the list. *)

From S2P Require Import Prelude Merkle.

(** ** Items *)

Definition le32 (n : Z) : bytes := [u8 n; u8 (Z.shiftr n 8); u8 (Z.shiftr n 16); u8 (Z.shiftr n 24)].
Definition from_le32 (l : bytes) : Z := foldr (fun b acc => b + 256 * acc) 0 (take 4 l).

(** [Item::from]: the first byte of [data] is kept (or zero-initialised). *)
Definition item_from (data key value : bytes) : bytes :=
  match data with b :: _ => [b] | [] => [0] end ++
  le32 (u32 (Z.of_nat (length key))) ++ key ++ le32 (u32 (Z.of_nat (length value))) ++ value.
Definition item_key_size (data : bytes) : Z := from_le32 (drop 1 data).
Definition item_key (data : bytes) : bytes := take (Z.to_nat (item_key_size data)) (drop 5 data).
Definition item_value (data : bytes) : bytes :=
  let rest := drop (5 + Z.to_nat (item_key_size data)) data in
  take (Z.to_nat (from_le32 rest)) (drop 4 rest).

(** [std::vector::resize]. *)
Definition vector_resize (n : nat) (l : bytes) : bytes := take n l ++ replicate (n - length l) 0.

(** [Item::nextKey]: the item becomes a bare key, the smallest one after its key. *)
Definition item_nextKey (data : bytes) : bytes :=
  let keySize := u32 (item_key_size data + 1) in
  let data := vector_resize (Z.to_nat (u32 (5 + keySize))) data in
  let data := take 1 data ++ le32 keySize ++ drop 5 data in
  take (length data - 1) data ++ [0].

Lemma from_le32_app n rest : 0 <= n < 2 ^ 32 -> from_le32 (le32 n ++ rest) = n.
Proof.
  intros H. unfold from_le32, le32, wrap. cbn [app take foldr]. rewrite !Z.shiftr_div_pow2 by lia.
  change (2 ^ 24) with (2 ^ 8 * 2 ^ 8 * 2 ^ 8). change (2 ^ 16) with (2 ^ 8 * 2 ^ 8). rewrite <- !Z.div_div by lia.
  pose proof (Z.div_mod n (2 ^ 8)). pose proof (Z.div_mod (n / 2 ^ 8) (2 ^ 8)). pose proof (Z.div_mod (n / 2 ^ 8 / 2 ^ 8) (2 ^ 8)).
  rewrite (Z.mod_small (n / 2 ^ 8 / 2 ^ 8 / 2 ^ 8)). 
  - rewrite take_0. cbn [foldr]. lia.
  - rewrite !Z.div_div by lia. split; [apply Z.div_pos; lia|apply Z.div_lt_upper_bound; lia].
Qed.

Definition item_ok (kv : bytes * bytes) : Prop :=
  bytes_ok kv.1 /\ Z.of_nat (length kv.1) < 2 ^ 32 /\ Z.of_nat (length kv.2) < 2 ^ 32.

Lemma item_parts data key value :
  item_ok (key, value) ->
  exists b, item_from data key value = b :: le32 (Z.of_nat (length key)) ++ key ++ le32 (Z.of_nat (length value)) ++ value.
Proof.
  intros (_ & Hk & Hv). cbn in Hk, Hv. unfold item_from, u32. rewrite !Z.mod_small by lia. destruct data as [|b ?]; [by exists 0|by exists b].
Qed.

Lemma item_key_from data key value : item_ok (key, value) -> item_key (item_from data key value) = key.
Proof.
  intros H. destruct (item_parts data key value H) as [b ->]. destruct H as (_ & Hk & _). cbn in Hk.
  unfold item_key, item_key_size. rewrite skipn_cons, drop_0. rewrite from_le32_app by lia.
  change (drop 5 (b :: le32 ?n ++ ?l)) with l. by rewrite Nat2Z.id, take_app_length.
Qed.

Lemma item_value_from data key value : item_ok (key, value) -> item_value (item_from data key value) = value.
Proof.
  intros H. destruct (item_parts data key value H) as [b ->]. destruct H as (_ & Hk & Hv). cbn in Hk, Hv.
  unfold item_value, item_key_size. rewrite skipn_cons, drop_0. rewrite from_le32_app by lia. rewrite Nat2Z.id.
  change (drop (5 + ?n) (b :: le32 ?k ++ ?l)) with (drop n l). rewrite drop_app_length, from_le32_app by lia.
  change (drop 4 (le32 ?n ++ ?l)) with l. by rewrite Nat2Z.id, take_ge.
Qed.

Lemma resize_snoc l x r : vector_resize (length l + 1) (l ++ x :: r) = l ++ [x].
Proof.
  unfold vector_resize. rewrite take_app_add. replace (length l + 1 - length (l ++ x :: r))%nat with 0%nat by (rewrite length_app; cbn; lia).
  cbn. by rewrite take_0, app_nil_r.
Qed.

Lemma item_next_key data key value :
  item_ok (key, value) -> Z.of_nat (length key) + 6 < 2 ^ 32 ->
  item_key (item_nextKey (item_from data key value)) = key ++ [0].
Proof.
  intros H Hs. destruct (item_parts data key value H) as [b ->]. destruct H as (_ & Hk & Hv). cbn in Hk, Hv.
  unfold item_nextKey, item_key_size. rewrite skipn_cons, drop_0. rewrite from_le32_app by lia. cbv zeta.
  assert (Ew : forall z, 0 <= z < 2 ^ 32 -> u32 z = z) by (intros; by apply Z.mod_small). rewrite (Ew (Z.of_nat _ + 1)), Ew by lia.
  set (rest := le32 (Z.of_nat (length value)) ++ value).
  assert (Er : exists x rest', rest = x :: rest') by (do 2 eexists; reflexivity). destruct Er as (x & rest' & ->).
  set (hd := b :: le32 (Z.of_nat (length key))).
  change (b :: le32 (Z.of_nat (length key)) ++ key ++ x :: rest') with (hd ++ key ++ x :: rest'). rewrite (app_assoc hd).
  replace (Z.to_nat (5 + (Z.of_nat (length key) + 1))) with (length (hd ++ key) + 1)%nat by (rewrite length_app; cbn [length hd le32]; lia).
  rewrite resize_snoc. replace (take 1 _ ++ _ ++ drop 5 _) with ((b :: le32 (Z.of_nat (length key) + 1) ++ key) ++ [x]) by done.
  rewrite length_app, Nat.add_sub, take_app_length. unfold item_key, item_key_size. cbn [app]. rewrite skipn_cons, drop_0, <- app_assoc.
  rewrite from_le32_app by lia. change (drop 5 (b :: le32 ?n ++ ?l)) with l. apply take_ge. rewrite length_app. cbn. lia.
Qed.

Lemma next_least key other : bytes_ok other -> lex_compare key other = Lt -> lex_compare (key ++ [0]) other <> Gt.
Proof.
  revert other. induction key as [|x key IH]; intros [|y other] Hok; cbn [lex_compare app]; try done;
    inversion_clear Hok as [|? ? Hy Ho]; unfold is_byte in Hy.
  - intros _. destruct (Z.compare_spec 0 y); [by destruct other|done|lia].
  - destruct (x ?= y); [apply IH; done|done|done].
Qed.

(** ** Bits *)

Definition bits (b : Z) : list bool := map (Z.testbit b) [7; 6; 5; 4; 3; 2; 1; 0].
Fixpoint ones (l : list bool) : nat := match l with [] => 0 | true :: l => S (ones l) | false :: l => ones l end.
Definition popcount (b : Z) : nat := ones (bits b).

(** [common_prefix_bits] of two bytes: [__builtin_clz(x) - 24] for [x < 256]. *)
Definition common_prefix_bits_byte (lhs rhs : Z) : nat :=
  let x := Z.lxor lhs rhs in if x =? 0 then 8%nat else Z.to_nat (7 - Z.log2 x).

(** The loop of [common_prefix_bits] from index [i] on. *)
Fixpoint common_prefix_loop (i : nat) (lhs rhs : bytes) : result nat :=
  match lhs, rhs with
  | x :: lhs, y :: rhs =>
      if negb (x =? y) then
        check (x <? y) "Keys must be inserted in increasing order" ;;
        mret (i * 8 + common_prefix_bits_byte x y)%nat
      else common_prefix_loop (S i) lhs rhs
  | [], _ :: _ => mret (i * 8)%nat
  | _, [] => Abort "Keys must be inserted in increasing order"
  end.
Definition common_prefix_bits (lhs rhs : bytes) : result nat := common_prefix_loop 0 lhs rhs.

Definition get_stack_after (key : bytes) (n : nat) : nat :=
  let i := (n / 8)%nat in
  match drop i key with
  | [] => 0
  | b :: rest =>
      foldl (fun result b => result + (1 + popcount b))%nat
        (1 + popcount (Z.land b (Z.shiftr 0xff (Z.of_nat (n mod 8)))))%nat rest
  end.
Definition get_stack_size (key : bytes) : nat :=
  foldl (fun result b => result + popcount b)%nat (1 + length key)%nat key.

(** ** Facts about bits *)

Definition byte_diff_check (a b : Z) : bool :=
  let n := common_prefix_bits_byte a b in
  let m := Z.shiftr 0xff (Z.of_nat n) in
  (n <? 8)%nat && bool_decide (take n (bits a) = take n (bits b)) && negb (nth n (bits a) true) && nth n (bits b) false &&
  (popcount (Z.land a m) =? ones (drop (S n) (bits a)))%nat && (popcount (Z.land b m) =? S (ones (drop (S n) (bits b))))%nat.

Lemma byte_diff_checked : forallb (fun a => forallb (fun k => byte_diff_check (Z.of_nat a) (Z.of_nat (a + 1 + k))) (seq 0 (255 - a))) (seq 0 256) = true.
Proof. vm_compute. reflexivity. Qed.

Lemma nth_split_list {A} (l : list A) n d : (n < length l)%nat -> l = take n l ++ nth n l d :: drop (S n) l.
Proof.
  revert n. induction l as [|x l IH]; intros [|n] H; cbn in *; try lia; [by rewrite drop_0|].
  f_equal. apply IH. lia.
Qed.

(** Where two bytes first differ. *)
Lemma byte_diff a b : 0 <= a -> a < b -> b < 256 ->
  let n := common_prefix_bits_byte a b in let m := Z.shiftr 0xff (Z.of_nat n) in
  (n < 8)%nat /\ exists p x y, bits a = p ++ false :: x /\ bits b = p ++ true :: y /\
    popcount (Z.land a m) = ones x /\ popcount (Z.land b m) = S (ones y).
Proof.
  intros Ha Hab Hb n m. pose proof byte_diff_checked as H. rewrite forallb_forall in H.
  specialize (H (Z.to_nat a) ltac:(apply in_seq; lia)). rewrite forallb_forall in H.
  specialize (H (Z.to_nat (b - a - 1)) ltac:(apply in_seq; lia)).
  replace (Z.of_nat (Z.to_nat a)) with a in H by lia.
  replace (Z.of_nat (Z.to_nat a + 1 + Z.to_nat (b - a - 1))) with b in H by lia.
  unfold byte_diff_check in H. fold n in H. fold m in H. zbool.
  match goal with H : bool_decide _ = true |- _ => apply bool_decide_eq_true in H end.
  split; [done|]. exists (take n (bits a)), (drop (S n) (bits a)), (drop (S n) (bits b)). split_and!; [| |done..].
  - rewrite (nth_split_list (bits a) n true) at 1 by done. congruence.
  - rewrite (nth_split_list (bits b) n false) at 1 by done. congruence.
Qed.

Lemma popcount_full b : 0 <= b < 256 -> popcount (Z.land b (Z.shiftr 0xff 0)) = popcount b.
Proof. intros H. rewrite Z.shiftr_0_r. change 0xff with (2 ^ 8 - 1). rewrite land_ones_mod by lia. by rewrite Z.mod_small. Qed.

Section kv.
Context (sha256 : bytes -> bytes).

Definition item_hash (data : bytes) : bytes := sha256 data.

(** [KvMerkle::combine]: the zero hash stands for an absent subtree. *)
Definition kv_combine (lhs rhs : bytes) : bytes :=
  if decide (lhs = no_hash) then rhs
  else if decide (rhs = no_hash) then lhs
  else combine sha256 lhs rhs.

Record kv_merkle := { kv_stack : list bytes; current_key : bytes }.
Definition kv_empty : kv_merkle := {| kv_stack := []; current_key := [] |}.

(** The loop of [pop_n]; an access below the stack is an error of the model. *)
Fixpoint pop_loop (n : nat) (top : bytes) (stack : list bytes) : result (list bytes) :=
  match n with
  | O => Ok (top :: stack)
  | S n => match stack with
           | node :: stack => pop_loop n (kv_combine node top) stack
           | [] => Abort "empty stack"
           end
  end.
Definition pop_n (n : nat) (stack : list bytes) : result (list bytes) :=
  match stack with top :: stack => pop_loop n top stack | [] => Abort "empty stack" end.

Definition kv_root (m : kv_merkle) : result bytes :=
  match kv_stack m with
  | [] => Ok no_hash
  | _ => stack ← pop_n (length (kv_stack m) - 1) (kv_stack m);
         match stack with top :: _ => Ok top | [] => Abort "empty stack" end
  end.

(** [stack.resize(size); stack.back() = value]. *)
Definition resize_back (stack : list bytes) (size : nat) (value : bytes) : list bytes :=
  value :: tail (replicate (size - length stack) no_hash ++ stack).

Definition push_hash (m : kv_merkle) (key value : bytes) : result kv_merkle :=
  match kv_stack m, key with
  | [], [] => Ok {| kv_stack := [value]; current_key := current_key m |}
  | _, _ =>
      let stack := match kv_stack m with [] => [no_hash] | s => s end in
      n ← common_prefix_bits (current_key m) key;
      let bits_to_remove := get_stack_after (current_key m) n in
      let bits_to_add := get_stack_after key n in
      let new_stack_size := (length stack - bits_to_remove + bits_to_add)%nat in
      stack ← (if (bits_to_remove =? 0)%nat then Ok stack else pop_n (bits_to_remove - 1) stack);
      check (length stack <? new_stack_size)%nat "assertion failed" ;;
      let stack := resize_back stack new_stack_size value in
      let current_key := take (n / 8) (current_key m) ++ drop (n / 8) key in
      check (get_stack_size current_key =? length stack)%nat "assertion failed" ;;
      mret {| kv_stack := stack; current_key := current_key |}
  end.

Definition kv_push (m : kv_merkle) (data : bytes) : result kv_merkle :=
  push_hash m (item_key data) (item_hash data).

Fixpoint push_all (m : kv_merkle) (entries : list (bytes * bytes)) : result kv_merkle :=
  match entries with
  | [] => Ok m
  | (key, value) :: entries => m ← push_hash m key value; push_all m entries
  end.

(** ** The documented trie

    A key is a path in a binary tree: at each byte, [true] to go past the leaf
    of the keys that end here, then the bits of the byte; [false] at the end
    leads to the leaf.  A node combines its two subtrees, if both exist. *)
Fixpoint path (key : bytes) : list bool :=
  match key with [] => [false] | b :: key => true :: bits b ++ path key end.

Abbreviation entry := (list bool * list Z)%type.

(** The entries below one of the two subtrees. *)
Fixpoint sub (b : bool) (l : list entry) : list entry :=
  match l with
  | [] => []
  | ([], _) :: l => sub b l
  | (c :: p, h) :: l => if Bool.eqb b c then (p, h) :: sub b l else sub b l
  end.

Fixpoint trie (depth : nat) (l : list entry) : bytes :=
  match l with
  | [] => no_hash
  | ([], h) :: _ => h
  | _ => match depth with
         | O => no_hash
         | S depth => kv_combine (trie depth (sub false l)) (trie depth (sub true l))
         end
  end.
Fixpoint depth (l : list entry) : nat := match l with [] => 0 | e :: l => Nat.max (length e.1) (depth l) end.
Definition trie_root (l : list entry) : bytes := trie (S (depth l)) l.

(** The reference: the root of a database. *)
Definition database_root (entries : list (bytes * bytes)) : bytes :=
  trie_root (map (fun '(key, value) => (path key, value)) entries).

(** Keys in strictly increasing order. *)
Fixpoint increasing (keys : list bytes) : bool :=
  match keys with
  | a :: ((b :: _) as keys) => match lex_compare a b with Lt => increasing keys | _ => false end
  | _ => true
  end.

(** ** Tries *)

Definition under (b : bool) (l : list entry) : list entry := map (fun e => (b :: e.1, e.2)) l.

Lemma sub_under b c l : sub b (under c l) = if Bool.eqb b c then l else [].
Proof.
  unfold under. induction l as [|[p h] l IH]; cbn; [by destruct (Bool.eqb b c)|]. rewrite IH. by destruct (Bool.eqb b c).
Qed.
Lemma sub_app b l r : sub b (l ++ r) = sub b l ++ sub b r.
Proof. induction l as [|[[|c p] h] l IH]; cbn; [done..|]. destruct (Bool.eqb b c); cbn; by rewrite IH. Qed.

Lemma depth_app l r : depth (l ++ r) = Nat.max (depth l) (depth r).
Proof. induction l as [|e l IH]; cbn; [done|]. rewrite IH. lia. Qed.
Lemma depth_sub b l : (depth (sub b l) <= Nat.pred (depth l))%nat.
Proof. induction l as [|[[|c p] h] l IH]; cbn; [done|lia|]. destruct (Bool.eqb b c); cbn; lia. Qed.

Lemma trie_depth l d d' : (depth l < d)%nat -> (depth l < d')%nat -> trie d l = trie d' l.
Proof.
  revert l d'. induction d as [|d IH]; intros l [|d'] Hd Hd'; [lia..|].
  destruct l as [|[[|c p] h] l]; cbn [trie]; [done..|]. set (L := (c :: p, h) :: l) in *.
  assert (Hb : forall b, (depth (sub b L) <= Nat.pred (depth L))%nat) by (intros; apply depth_sub).
  assert (0 < depth L)%nat by (cbn; lia). pose proof (Hb false). pose proof (Hb true).
  f_equal; apply IH; lia.
Qed.

(** A list whose first entry is not a leaf splits. *)
Lemma trie_split l : l <> [] -> Forall (fun e => e.1 <> []) l ->
  trie_root l = kv_combine (trie_root (sub false l)) (trie_root (sub true l)).
Proof.
  intros Hne Hf. unfold trie_root. destruct l as [|[[|c p] h] l]; [done|by inversion Hf|].
  set (L := (c :: p, h) :: l) in *.
  change (trie (S (depth L)) L) with (kv_combine (trie (depth L) (sub false L)) (trie (depth L) (sub true L))).
  pose proof (depth_sub false L). pose proof (depth_sub true L). assert (0 < depth L)%nat by (cbn; lia).
  f_equal; apply trie_depth; lia.
Qed.

Lemma kv_combine_l h : kv_combine no_hash h = h.
Proof. unfold kv_combine. by rewrite decide_True by done. Qed.
Lemma kv_combine_r h : kv_combine h no_hash = h.
Proof. unfold kv_combine. case_decide; [done|]. by rewrite decide_True by done. Qed.

Lemma under_paths b l : Forall (fun e => e.1 <> []) (under b l).
Proof. apply Forall_map, Forall_true. done. Qed.

Lemma trie_under l z : trie_root (under false z ++ under true l) = kv_combine (trie_root z) (trie_root l).
Proof.
  destruct (decide (under false z ++ under true l = [])) as [E|E].
  - apply app_eq_nil in E as [Ez El]. apply map_eq_nil in Ez, El. subst. by rewrite kv_combine_l.
  - rewrite trie_split; [|done|apply Forall_app; split; apply under_paths].
    rewrite !sub_app, !sub_under. cbn. by rewrite app_nil_r.
Qed.

(** ** The stack as a path through the trie *)

(** The value that the stack (bottom first) folds to. *)
Fixpoint fold_stack (s : list bytes) : bytes :=
  match s with [] => no_hash | [h] => h | h :: s => kv_combine h (fold_stack s) end.

Lemma fold_stack_cons h s : fold_stack (h :: s) = kv_combine h (fold_stack s).
Proof. destruct s; [symmetry; apply kv_combine_r | done]. Qed.

(** [inv c s l]: the last entry of [l] has the path [c], and [s] holds, for each
    [true] of [c], the subtree to its left, and on top the leaf. *)
Inductive inv : list bool -> list bytes -> list entry -> Prop :=
| inv_leaf h : inv [] [h] [([], h)]
| inv_left c s l : inv c s l -> inv (false :: c) s (under false l)
| inv_right c s l z : inv c s l -> inv (true :: c) (trie_root z :: s) (under false z ++ under true l).

Lemma inv_fold c s l : inv c s l -> fold_stack s = trie_root l.
Proof.
  induction 1 as [h|c s l H IH|c s l z H IH]; [done| |].
  - rewrite IH. rewrite <- (app_nil_r (under false l)). change (@nil entry) with (under true []).
    by rewrite trie_under, kv_combine_r.
  - by rewrite fold_stack_cons, IH, trie_under.
Qed.

Lemma inv_length c s l : inv c s l -> length s = S (ones c).
Proof. induction 1; cbn; lia. Qed.

Lemma inv_fresh y v : inv y (replicate (ones y) no_hash ++ [v]) [(y, v)].
Proof.
  induction y as [|[] y IH].
  - apply inv_leaf.
  - exact (inv_right y _ [(y, v)] [] IH).
  - exact (inv_left y _ _ IH).
Qed.

(** Pushing an entry that turns right where the previous one turned left. *)
Lemma inv_push p x y v s l :
  inv (p ++ false :: x) s l ->
  exists s1 s2, s = s1 ++ s2 /\ length s1 = ones p /\ length s2 = S (ones x) /\
    inv (p ++ true :: y) (s1 ++ fold_stack s2 :: replicate (ones y) no_hash ++ [v]) (l ++ [(p ++ true :: y, v)]).
Proof.
  revert s l. induction p as [|[] p IH]; intros s l H; cbn [app] in H; inversion H; subst; clear H.
  - match goal with H : inv _ _ _ |- _ => rename H into Hi end.
    exists [], s. split; [done|]. split; [done|]. split; [by eapply inv_length|]. cbn [app].
    rewrite (inv_fold _ _ _ Hi). exact (inv_right y _ [(y, v)] _ (inv_fresh y v)).
  - match goal with H : inv _ _ _ |- _ => destruct (IH _ _ H) as (s1 & s2 & -> & L1 & L2 & L3) end.
    exists (trie_root z :: s1), s2. split; [done|]. split; [cbn; lia|]. split; [done|]. cbn [app].
    apply (inv_right _ _ _ z) in L3. unfold under in *. rewrite map_app in L3. rewrite <- app_assoc. exact L3.
  - match goal with H : inv _ _ _ |- _ => destruct (IH _ _ H) as (s1 & s2 & -> & L1 & L2 & L3) end.
    exists s1, s2. split; [done|]. split; [cbn; lia|]. split; [done|]. cbn [app].
    apply inv_left in L3. unfold under in *. rewrite map_app in L3. exact L3.
Qed.

(** [pop_n] folds the top of the stack. *)
Lemma pop_loop_fold s2 top rest :
  pop_loop (length s2) top (rev s2 ++ rest) = Ok (fold_stack (s2 ++ [top]) :: rest).
Proof.
  revert top. induction s2 as [|h s2 IH] using rev_ind; intros top; [done|].
  rewrite rev_app_distr, length_app. cbn [length rev app]. rewrite Nat.add_1_r. cbn [pop_loop].
  rewrite IH. do 2 f_equal. clear. rewrite <- app_assoc. cbn [app].
  induction s2 as [|a s2 IH]; [cbn; by destruct top|]. cbn [app]. by rewrite !fold_stack_cons, IH.
Qed.

Lemma pop_n_fold s1 s2 :
  s2 <> [] -> pop_n (length s2 - 1) (rev (s1 ++ s2)) = Ok (fold_stack s2 :: rev s1).
Proof.
  intros Hne. destruct (exists_last Hne) as (s' & top & ->). rewrite rev_app_distr, rev_app_distr, length_app.
  cbn [length rev app]. rewrite Nat.add_sub. cbn [pop_n]. apply pop_loop_fold.
Qed.

(** ** Keys and paths *)

Lemma ones_app l r : ones (l ++ r) = (ones l + ones r)%nat.
Proof. induction l as [|[] l IH]; cbn; lia. Qed.

Lemma path_app q k : exists p, path (q ++ k) = p ++ path k /\ forall k', path (q ++ k') = p ++ path k'.
Proof.
  induction q as [|b q (p & E & H)]; [by exists []|]. exists (true :: bits b ++ p). cbn [app path]. rewrite E, <- app_assoc.
  split; [done|]. intros k'. by rewrite H, app_assoc.
Qed.

Lemma foldl_popcount rest acc :
  foldl (fun result b => result + (1 + popcount b))%nat acc rest = (acc + ones (path rest))%nat.
Proof.
  revert acc. induction rest as [|b rest IH]; intros acc; cbn [foldl path]; [cbn; lia|]. rewrite IH. cbn [ones]. rewrite ones_app. unfold popcount. lia.
Qed.

Lemma get_stack_size_path key : get_stack_size key = S (ones (path key)).
Proof.
  unfold get_stack_size. enough (H : forall acc, (foldl (fun result b => result + popcount b)%nat acc key + length key = acc + ones (path key))%nat).
  { specialize (H (1 + length key)%nat). lia. }
  induction key as [|b key IH]; intros acc; cbn [foldl path length]; [cbn; lia|]. cbn [ones]. rewrite ones_app. specialize (IH (acc + popcount b)%nat). unfold popcount in *. lia.
Qed.

Lemma get_stack_after_at q b rest r :
  (r < 8)%nat ->
  get_stack_after (q ++ b :: rest) (length q * 8 + r) =
  S (popcount (Z.land b (Z.shiftr 0xff (Z.of_nat r))) + ones (path rest)).
Proof.
  intros Hr. unfold get_stack_after. rewrite Nat.div_add_l, Nat.div_small, Nat.add_0_r by lia.
  rewrite drop_app_length, foldl_popcount. replace ((length q * 8 + r) mod 8)%nat with r by mlia. lia.
Qed.

Lemma get_stack_after_end q : get_stack_after q (length q * 8) = 0%nat.
Proof. unfold get_stack_after. by rewrite Nat.div_mul, drop_all by lia. Qed.

(** What [common_prefix_bits] finds for increasing keys. *)
Lemma common_prefix_lt i cur key :
  lex_compare cur key = Lt ->
  exists q c b k r, cur = q ++ c /\ key = q ++ b :: k /\ common_prefix_loop i cur key = Ok ((i + length q) * 8 + r)%nat /\
    match c with [] => r = 0%nat | a :: _ => a < b /\ r = common_prefix_bits_byte a b end.
Proof.
  revert i key. induction cur as [|x cur IH]; intros i [|y key]; cbn [lex_compare]; try done.
  - intros _. exists [], [], y, key, 0%nat. split_and!; [done..| |done]. cbn. do 2 f_equal. lia.
  - destruct (Z.compare_spec x y) as [->|Hlt|Hgt]; intros H; [|clear H|done].
    + destruct (IH (S i) key H) as (q & c & b & k & r & -> & -> & E & Hc). exists (y :: q), c, b, k, r.
      split_and!; [done..| |done]. cbn [common_prefix_loop app]. rewrite Z.eqb_refl. cbn [negb]. rewrite E. do 2 f_equal. cbn. lia.
    + exists [], (x :: cur), y, key, (common_prefix_bits_byte x y). do 2 (split; [done|]). split; [|by split]. cbn [common_prefix_loop].
      rewrite (proj2 (Z.eqb_neq x y)) by lia. cbn [negb]. unfold check. rewrite (proj2 (Z.ltb_lt x y)) by lia. cbn. do 2 f_equal. lia.
Qed.

Lemma common_prefix_not_lt i cur key :
  lex_compare cur key <> Lt -> common_prefix_loop i cur key = Abort "Keys must be inserted in increasing order".
Proof.
  revert i key. induction cur as [|x cur IH]; intros i [|y key]; cbn [lex_compare]; try done.
  destruct (Z.compare_spec x y) as [->|Hlt|Hgt]; intros H; [|done|]; cbn [common_prefix_loop].
  - rewrite Z.eqb_refl. by apply IH.
  - rewrite (proj2 (Z.eqb_neq x y)) by lia. cbn [negb]. unfold check. by rewrite (proj2 (Z.ltb_ge x y)) by lia.
Qed.

(** The paths of two increasing keys part with [false] and [true], and the
    counts of the stack positions after the common prefix. *)
Lemma paths_part cur key :
  bytes_ok cur -> bytes_ok key -> lex_compare cur key = Lt ->
  exists n p x y, common_prefix_bits cur key = Ok n /\ path cur = p ++ false :: x /\ path key = p ++ true :: y /\
    take (n / 8) cur ++ drop (n / 8) key = key /\
    ((x = [] /\ get_stack_after cur n = 0%nat /\ get_stack_after key n = S (ones y)) \/
     (get_stack_after cur n = S (ones x) /\ get_stack_after key n = S (S (ones y)))).
Proof.
  intros Hcur Hkey Hlt. destruct (common_prefix_lt 0 cur key Hlt) as (q & c & b & k & r & -> & -> & E & Hc).
  exists (length q * 8 + r)%nat. apply Forall_app in Hcur as [_ Hcur]. apply Forall_app in Hkey as [_ Hkey].
  inversion_clear Hkey as [|? ? Hb Hk]. destruct (path_app q c) as (pq & Eq & Hpath).
  assert (Hkeep : (r < 8)%nat -> take ((length q * 8 + r) / 8) (q ++ c) ++ drop ((length q * 8 + r) / 8) (q ++ b :: k) = q ++ b :: k).
  { intros Hr. by rewrite Nat.div_add_l, Nat.div_small, Nat.add_0_r, take_app_length, drop_app_length by lia. }
  destruct c as [|a c].
  - subst r. exists pq, [], (bits b ++ path k). split; [exact E|]. rewrite Eq, (Hpath (b :: k)). split_and!; [done..|apply Hkeep; lia|].
    left. split; [done|]. rewrite get_stack_after_at, app_nil_r, Nat.add_0_r, get_stack_after_end by lia.
    unfold is_byte in Hb. rewrite popcount_full by done. rewrite ones_app. done.
  - destruct Hc as [Hab ->]. inversion_clear Hcur as [|? ? Ha Hc']. unfold is_byte in *.
    destruct (byte_diff a b ltac:(lia) Hab ltac:(lia)) as (Hn & p & x & y & Ea & Eb & P1 & P2).
    exists (pq ++ true :: p), (x ++ path c), (y ++ path k). split; [exact E|]. rewrite Eq, (Hpath (b :: k)). cbn [path].
    rewrite Ea, Eb, <- !app_assoc. cbn [app]. rewrite <- ?app_assoc. cbn [app]. split_and!; [done..|by apply Hkeep|].
    right. rewrite !get_stack_after_at, !ones_app, P1, P2 by lia. lia.
Qed.

(** ** Pushing *)

Lemma resize_back_eq stack k v : resize_back stack (length stack + S k) v = v :: replicate k no_hash ++ stack.
Proof. unfold resize_back. replace (length stack + S k - length stack)%nat with (S k) by lia. done. Qed.

(** The part of [push_hash] after the special case. *)
Lemma push_hash_step s cur l key v m :
  inv (path cur) s l -> bytes_ok cur -> bytes_ok key -> current_key m = cur ->
  (kv_stack m = rev s \/ (kv_stack m = [] /\ key <> [] /\ s = [no_hash])) ->
  if decide (lex_compare cur key = Lt) then
    exists s', push_hash m key v = Ok {| kv_stack := rev s'; current_key := key |} /\ inv (path key) s' (l ++ [(path key, v)])
  else is_ok (push_hash m key v) = false.
Proof.
  intros Hi Hcur Hkey Ecur Hstack. pose proof (inv_length _ _ _ Hi) as Hlen.
  assert (Hs : (match kv_stack m with [] => [no_hash] | s => s end) = rev s).
  { destruct Hstack as [->|(-> & _ & ->)]; [|done]. destruct s as [|h s']; [cbn in Hlen; lia|].
    destruct (rev (h :: s')) eqn:Er; [by apply (f_equal length) in Er; rewrite length_rev in Er|done]. }
  assert (Hpush : push_hash m key v =
     (n ← common_prefix_bits cur key;
      let new := (length (rev s) - get_stack_after cur n + get_stack_after key n)%nat in
      stack ← (if (get_stack_after cur n =? 0)%nat then Ok (rev s) else pop_n (get_stack_after cur n - 1) (rev s));
      check (length stack <? new)%nat "assertion failed" ;;
      check (get_stack_size (take (n / 8) cur ++ drop (n / 8) key) =? length (resize_back stack new v))%nat "assertion failed" ;;
      mret {| kv_stack := resize_back stack new v; current_key := take (n / 8) cur ++ drop (n / 8) key |})).
  { unfold push_hash. rewrite Hs, Ecur. destruct (kv_stack m) eqn:Em; [|done].
    destruct Hstack as [E|(_ & Hne & _)]; [|by destruct key].
    destruct s; [cbn in Hlen; lia|]. by apply (f_equal length) in E; rewrite length_rev in E. }
  rewrite Hpush. case_decide as Hlt.
  2:{ unfold common_prefix_bits. by rewrite common_prefix_not_lt. }
  destruct (paths_part cur key Hcur Hkey Hlt) as (n & p & x & y & En & Ep & Ey & Ek & Hcount).
  rewrite En. cbn [mbind result_bind]. rewrite Ek.
  rewrite Ep in Hi. destruct (inv_push p x y v s l Hi) as (s1 & s2 & -> & L1 & L2 & Hnew). rewrite <- Ey in Hnew.
  eexists. split; [|exact Hnew]. rewrite length_rev, length_app, L1, L2.
  assert (Hpop : (if (get_stack_after cur n =? 0)%nat then Ok (rev (s1 ++ s2)) else pop_n (get_stack_after cur n - 1) (rev (s1 ++ s2)))
    = Ok (fold_stack s2 :: rev s1)).
  { destruct Hcount as [(-> & -> & _)|[-> _]].
    - destruct s2 as [|h [|]]; [cbn in L2; lia| |cbn in L2; lia]. by rewrite rev_app_distr.
    - replace (S (ones x) - 1)%nat with (length s2 - 1)%nat by lia. apply pop_n_fold. by destruct s2. }
  rewrite Hpop. cbn [mbind result_bind].
  replace (ones p + S (ones x) - get_stack_after cur n + get_stack_after key n)%nat
    with (length (fold_stack s2 :: rev s1) + S (ones y))%nat
    by (cbn [length]; rewrite length_rev, L1; destruct Hcount as [(-> & -> & ->)|[-> ->]]; cbn [ones]; lia).
  rewrite resize_back_eq. unfold check. rewrite (proj2 (Nat.ltb_lt _ _)) by lia. cbn [mbind result_bind].
  rewrite get_stack_size_path, Ey, ones_app. cbn [ones].
  rewrite (proj2 (Nat.eqb_eq _ _)) by (cbn [length]; rewrite length_app, length_replicate; cbn [length]; rewrite length_rev, L1; lia).
  cbn [mbind result_bind]. cbv [mret result_ret]. do 2 f_equal.
  rewrite rev_app_distr. cbn [rev]. rewrite rev_app_distr. cbn [rev app]. 
  f_equal. rewrite <- app_assoc. f_equal. clear. induction (ones y) as [|k IH]; [done|]. cbn [replicate rev]. rewrite <- IH.
  clear. induction k as [|k IH]; [done|]. cbn [replicate app]. by rewrite IH.
Qed.

(** ** Runs *)

Abbreviation as_paths := (map (fun '(key, value) => (path key, value))).

Lemma push_run s cur l entries :
  inv (path cur) s l -> bytes_ok cur -> Forall (fun e => bytes_ok e.1) entries ->
  if increasing (cur :: entries.*1) then
    exists s' cur', push_all {| kv_stack := rev s; current_key := cur |} entries = Ok {| kv_stack := rev s'; current_key := cur' |} /\
      inv (path cur') s' (l ++ as_paths entries)
  else is_ok (push_all {| kv_stack := rev s; current_key := cur |} entries) = false.
Proof.
  revert s cur l. induction entries as [|[key v] entries IH]; intros s cur l Hi Hcur Hok.
  - exists s, cur. rewrite app_nil_r. done.
  - inversion_clear Hok as [|? ? Hkey Hrest]. cbn [fst] in Hkey.
    pose proof (push_hash_step s cur l key v {| kv_stack := rev s; current_key := cur |} Hi Hcur Hkey eq_refl (or_introl eq_refl)) as H.
    cbn [fmap list_fmap fst push_all]. change (increasing (cur :: key :: entries.*1)) with
      (match lex_compare cur key with Lt => increasing (key :: entries.*1) | _ => false end).
    destruct (lex_compare cur key) eqn:Ec; cbn [decide] in H;
      [rewrite decide_False in H by done; by destruct (push_hash _ key v)| |rewrite decide_False in H by done; by destruct (push_hash _ key v)].
    rewrite decide_True in H by done. destruct H as (s' & -> & Hi'). cbn [mbind result_bind].
    specialize (IH s' key _ Hi' Hkey Hrest). cbn [map]. by rewrite <- app_assoc in IH.
Qed.

Lemma root_fold c s l m : inv c s l -> kv_stack m = rev s -> kv_root m = Ok (trie_root l).
Proof.
  intros Hi Hm. pose proof (inv_length _ _ _ Hi) as Hl. unfold kv_root. rewrite Hm, length_rev.
  pose proof (pop_n_fold [] s ltac:(by destruct s)) as E. cbn [app rev] in E. rewrite E, (inv_fold _ _ _ Hi).
  destruct (rev s) eqn:Er; [|done]. apply (f_equal length) in Er. by rewrite length_rev, Hl in Er.
Qed.

Lemma increasing_nonempty a keys : increasing (a :: keys) = true -> Forall (fun k => k <> []) keys.
Proof.
  revert a. induction keys as [|k keys IH]; intros a H; [done|]. cbn in H.
  destruct (lex_compare a k) eqn:E; [done| |done]. constructor; [|by eapply IH]. intros ->. by destruct a.
Qed.

(** The leaf of the empty key, when it has no hash, does not change the root. *)
Lemma phantom_leaf entries :
  Forall (fun k => k <> []) entries.*1 -> trie_root (([false], no_hash) :: as_paths entries) = trie_root (as_paths entries).
Proof.
  intros H. assert (E : exists l, as_paths entries = under true l).
  { induction entries as [|[k v] entries IH]; [by exists []|]. inversion_clear H as [|? ? Hk Hr].
    destruct (IH Hr) as [l E]. destruct k as [|b k]; [done|]. exists ((bits b ++ path k, v) :: l). cbn [map]. by rewrite E. }
  destruct E as [l ->]. change (([false], no_hash) :: under true l) with (under false [([], no_hash)] ++ under true l).
  change (under true l) with (under false [] ++ under true l) at 2. by rewrite !trie_under.
Qed.

Lemma push_all_root entries :
  Forall (fun e => bytes_ok e.1) entries ->
  if increasing entries.*1 then exists m, push_all kv_empty entries = Ok m /\ kv_root m = Ok (database_root entries)
  else is_ok (push_all kv_empty entries) = false.
Proof.
  intros Hok. destruct entries as [|[key v] entries]; [by exists kv_empty|].
  inversion Hok as [|? ? Hkey Hrest]; subst. cbn [fst] in Hkey. destruct key as [|b key].
  - pose proof (push_run [v] [] [([false], v)] entries (inv_left _ _ _ (inv_leaf v)) ltac:(done) Hrest) as H.
    cbn [fmap list_fmap fst] in *. destruct (increasing _); [|done]. destruct H as (s' & cur' & E & Hi).
    eexists. split; [exact E|]. by eapply root_fold.
  - set (k := b :: key) in *.
    assert (Hne : k <> []) by done.
    pose proof (push_hash_step [no_hash] [] [([false], no_hash)] k v kv_empty (inv_left _ _ _ (inv_leaf no_hash)) ltac:(done) Hkey eq_refl
      (or_intror (conj eq_refl (conj Hne eq_refl)))) as (s & E & Hi).
    pose proof (push_run s k _ entries Hi Hkey Hrest) as H. cbn [push_all fmap list_fmap fst]. rewrite E. cbn [mbind result_bind].
    destruct (increasing (k :: entries.*1)) eqn:Einc; [|done]. destruct H as (s' & cur' & E' & Hi').
    eexists. split; [exact E'|]. erewrite root_fold; [|exact Hi'|reflexivity]. f_equal.
    unfold database_root. apply (phantom_leaf ((k, v) :: entries)). constructor; [done|]. by eapply increasing_nonempty.
Qed.

(** Pushing the items of a database, each built by [Item(key, value)]. *)
Definition push_items (m : kv_merkle) (items : list (bytes * bytes)) : result kv_merkle :=
  foldl (fun m '(key, value) => m ← m; kv_push m (item_from [] key value)) (Ok m) items.

Lemma push_items_all items m :
  Forall item_ok items ->
  push_items m items = push_all m (map (fun '(key, value) => (key, sha256 (item_from [] key value))) items).
Proof.
  unfold push_items. intros H. revert m. induction H as [|[k v] items Hkv _ IH]; intros m; [done|]. cbn [foldl map push_all mbind result_bind].
  assert (Ep : kv_push m (item_from [] k v) = push_hash m k (sha256 (item_from [] k v))) by (unfold kv_push; by rewrite item_key_from).
  rewrite Ep.
  destruct (push_hash m k _) as [m'|e]; cbn [mbind result_bind]; [apply IH|].
  clear. induction items as [|[k v] items IH]; [done|]. exact IH.
Qed.

(** C29: The merkle root of a key-value database, computed with the stack of
    [KvMerkle], is the root of the documented trie: when the items are pushed in
    strictly increasing order of their keys (none is needed to be nonempty, and
    keys may be prefixes of others), [push] never fails, none of its assertions
    does, and [root] is the hash of the binary trie over all the items.  When
    the keys are not in this order, pushing aborts. *)
Theorem kv_merkle_correct items :
  Forall item_ok items ->
  if increasing items.*1 then
    exists m, push_items kv_empty items = Ok m /\
      kv_root m = Ok (database_root (map (fun '(key, value) => (key, item_hash (item_from [] key value))) items))
  else is_ok (push_items kv_empty items) = false.
Proof.
  intros H. rewrite push_items_all by done. set (entries := map _ items).
  assert (E : entries.*1 = items.*1). { unfold entries. clear. induction items as [|[k v] items IH]; [done|]. cbn. by f_equal. }
  rewrite <- E. apply push_all_root. unfold entries. apply Forall_map. eapply Forall_impl; [exact H|].
  intros [k v] (? & _). done.
Qed.
End kv.

(** A parsed item gives back the key and the value it was made from, and
    [nextKey] turns it into the smallest key after its own. *)
Theorem item_roundtrip data key value :
  item_ok (key, value) -> Z.of_nat (length key) + 6 < 2 ^ 32 ->
  let item := item_from data key value in
  let next := item_key (item_nextKey item) in
  item_key item = key /\ item_value item = value /\ lex_compare key next = Lt /\
  forall other, bytes_ok other -> lex_compare key other = Lt -> lex_compare next other <> Gt.
Proof.
  intros H Hsize. cbv zeta. split; [by apply item_key_from|]. rewrite item_value_from, item_next_key by done.
  split; [done|]. split; [|by apply next_least]. rewrite <- (app_nil_r key) at 1. by rewrite lex_compare_app.
Qed.

Definition example_items : list (bytes * bytes) :=
  [([], [1]); ([3], [2]); ([3; 0], []); ([3; 0; 255], [4]); ([3; 1], [5]); ([200; 1], [6])].

Lemma example_items_ok : Forall item_ok example_items.
Proof. repeat constructor; cbn; lia. Qed.

Lemma kv_merkle_correct_witness :
  increasing example_items.*1 = true /\
  exists m, push_items (fun l => 9 :: l) kv_empty example_items = Ok m /\
    kv_root (fun l => 9 :: l) m = Ok (database_root (fun l => 9 :: l)
      (map (fun '(key, value) => (key, item_hash (fun l => 9 :: l) (item_from [] key value))) example_items)).
Proof. split; [reflexivity|]. exact (kv_merkle_correct (fun l => 9 :: l) example_items example_items_ok). Defined.

Lemma item_roundtrip_witness : item_key (item_from [] [3; 255] [7]) = [3; 255].
Proof. apply (item_roundtrip [] [3; 255] [7]); [repeat constructor; cbn; lia|cbn; lia]. Defined.
