(* ===== verification/Semver.v ===== *)
(** * psibase: semantic versions

    [semver.cpp]: version comparison, and version requirements, which are parsed
    with an operator stack into a graph of primitive tests that [VersionExpr]
    runs.  A [std::string_view&] that a function advances is an argument and a
    part of its result, and messages leave out the text they quote.  The reference for the parser is a grammar over the
    tokens of the requirement, with the evaluation of the syntax tree. *)

From S2P Require Import Prelude Text.

(** ** Numbers and identifiers *)

(** The longest prefix whose characters satisfy [f], and the rest. *)
Fixpoint span (f : Z -> bool) (s : bytes) : bytes * bytes :=
  match s with
  | [] => ([], [])
  | ch :: t => if f ch then let '(a, b) := span f t in (ch :: a, b) else ([], s)
  end.
Definition find_first_of (chars : string) (s : bytes) : bytes * bytes :=
  span (fun ch => negb (existsb (Z.eqb ch) (str chars))) s.

(** The result and the new value of [s]. *)
Definition parseDecNum (s : bytes) : result (bytes * bytes) :=
  let '(num, rest) := span is_digit s in
  check (negb (length num =? 0)%nat) "Expected number" ;;
  check (negb (bool_decide (hd_error s = Some (chr "0"))) || (length num =? 1)%nat) "Leading zero not allowed" ;;
  mret (num, rest).

Definition size_compare (a b : bytes) : comparison := Nat.compare (length a) (length b).

Definition compareDecNum (lhs rhs : bytes) : result (comparison * bytes * bytes) :=
  '(lnum, lhs) ← parseDecNum lhs;
  '(rnum, rhs) ← parseDecNum rhs;
  mret (then_compare (size_compare lnum rnum) (lex_compare lnum rnum), lhs, rhs).

Inductive VersionOp := op_eq | op_ne | op_lt | op_le | op_gt | op_ge | op_compat | op_patch.

Definition tryConsume (s : bytes) (ch : Z) : result (bool * bytes) :=
  match s with
  | [] => Ok (false, s)
  | c :: t => if negb (c =? ch) then Abort "expected character" else Ok (true, t)
  end.

Definition consumeChar (lhs rhs : bytes) (ch : Z) : result (bool * bytes * bytes) :=
  '(consumed, lhs) ← tryConsume lhs ch;
  if negb consumed then mret (false, lhs, rhs)
  else match rhs with
       | c :: t => if negb (c =? ch) then Abort "expected character" else Ok (true, lhs, t)
       | [] => Abort "expected character"
       end.

Definition consumeIdent (s : bytes) : bytes * bytes := find_first_of ".+" s.

Definition isPrerelease (version : bytes) : bool :=
  bool_decide (hd_error (find_first_of "-+" version).2 = Some (chr "-")).

Definition starts_with (s prefix : bytes) : bool := bool_decide (take (length prefix) s = prefix).

(** [true] when there is no character but digits. *)
Definition isnum (id : bytes) : bool := bool_decide ((span is_digit id).2 = []).

(** The loop of [comparePrerelease].  Both identifiers are taken from
    [pattern], as in the source. *)
Fixpoint comparePrerelease_loop (fuel : nat) (pattern version : bytes) : result comparison :=
  match fuel with
  | O => Abort "fuel"
  | S fuel =>
      let pattern := tail pattern in
      let version := tail version in
      let '(lid, pattern) := consumeIdent pattern in
      let '(rid, pattern) := consumeIdent pattern in
      let lisnum := isnum lid in
      let risnum := isnum rid in
      if lisnum && negb risnum then Ok Lt
      else if negb lisnum && risnum then Ok Gt
      else match (if lisnum then size_compare lid rid else Eq) with
           | Lt => Ok Lt
           | Gt => Ok Gt
           | Eq =>
               match lex_compare lid rid with
               | Lt => Ok Lt
               | Gt => Ok Gt
               | Eq =>
                   let lnext := starts_with pattern (str ".") in
                   let rnext := starts_with version (str ".") in
                   if negb lnext && negb rnext then Ok Eq
                   else if lnext && negb rnext then Ok Gt
                   else if negb lnext && rnext then Ok Lt
                   else comparePrerelease_loop fuel pattern version
               end
           end
  end.

Definition comparePrerelease (pattern version : bytes) : result comparison :=
  let lpre := starts_with pattern (str "-") in
  let rpre := starts_with version (str "-") in
  if negb lpre && negb rpre then Ok Eq
  else if lpre && negb rpre then Ok Lt
  else if negb lpre && rpre then Ok Gt
  else comparePrerelease_loop (length pattern) pattern version.

(** [if (result != 0) return result; k] with a result that may abort. *)
Definition or_else (r : result (comparison * bytes * bytes)) (k : bytes -> bytes -> result comparison) : result comparison :=
  '(c, lhs, rhs) ← r; match c with Eq => k lhs rhs | c => mret c end.

Definition comparePattern (pattern version : bytes) : result comparison :=
  if decide (pattern = str "*") then Ok Eq
  else or_else (compareDecNum pattern version) (fun pattern version =>
    '(consumed, pattern, version) ← consumeChar pattern version (chr ".");
    if negb consumed then mret Eq
    else or_else (compareDecNum pattern version) (fun pattern version =>
      '(consumed, pattern, version) ← consumeChar pattern version (chr ".");
      if negb consumed then mret Eq
      else or_else (compareDecNum pattern version) comparePrerelease)).

Definition versionCompare (lhs rhs : bytes) : result comparison :=
  or_else (compareDecNum lhs rhs) (fun lhs rhs =>
    '(consumed, lhs, rhs) ← consumeChar lhs rhs (chr ".");
    if negb consumed then Abort "expected ."
    else or_else (compareDecNum lhs rhs) (fun lhs rhs =>
      '(consumed, lhs, rhs) ← consumeChar lhs rhs (chr ".");
      if negb consumed then Abort "expected ."
      else or_else (compareDecNum lhs rhs) comparePrerelease)).

(** ** Primitive tests *)

(** [dest[0]] and [dest[1]]: where to branch after the test. *)
Record VersionMatch := { op : VersionOp; pattern : bytes; dest0 : Z; dest1 : Z }.

Definition matchNum (lhs rhs : bytes) (exact : bool) : result (option bool * bytes * bytes) :=
  '(c, lhs, rhs) ← compareDecNum lhs rhs;
  mret (if exact then match c with Eq => None | _ => Some false end
        else match c with Gt => Some false | Lt => Some (negb (isPrerelease rhs)) | Eq => None end, lhs, rhs).

Definition match_compat (o : VersionOp) (pattern version : bytes) : result bool :=
  let copy := pattern in
  if decide (copy = str "*") then Ok (negb (isPrerelease version))
  else
    '(c, copy, version) ← compareDecNum copy version;
    match c with
    | Eq =>
        '(consumed, copy, version) ← consumeChar copy version (chr ".");
        if negb consumed then mret (negb (isPrerelease version))
        else
          '(res, copy, version) ← matchNum copy version (starts_with pattern (str "0") || match o with op_patch => true | _ => false end);
          match res with
          | Some b => mret b
          | None =>
              '(consumed, copy, version) ← consumeChar copy version (chr ".");
              if negb consumed then mret (negb (isPrerelease version))
              else
                '(res, copy, version) ← matchNum copy version (starts_with pattern (str "0.0"));
                match res with
                | Some b => mret b
                | None => c ← comparePrerelease copy version; mret (match c with Eq => true | _ => false end)
                end
          end
    | _ => mret false
    end.

Definition VersionMatch_match (m : VersionMatch) (version : bytes) : result bool :=
  let compared f := c ← comparePattern (pattern m) version; mret (f c) in
  match op m with
  | op_eq => compared (fun c => match c with Eq => true | _ => false end)
  | op_ne => compared (fun c => match c with Eq => false | _ => true end)
  | op_lt => compared (fun c => match c with Gt => true | _ => false end)
  | op_le => compared (fun c => match c with Lt => false | _ => true end)
  | op_gt => compared (fun c => match c with Lt => true | _ => false end)
  | op_ge => compared (fun c => match c with Gt => false | _ => true end)
  | op_compat | op_patch => match_compat (op m) (pattern m) version
  end.

(** ** Running a requirement *)

Definition dest (m : VersionMatch) (pass : bool) : Z := if pass then dest1 m else dest0 m.
Definition set_dest (m : VersionMatch) (pass : bool) (d : Z) : VersionMatch :=
  if pass then {| op := op m; pattern := pattern m; dest0 := dest0 m; dest1 := d |}
  else {| op := op m; pattern := pattern m; dest0 := d; dest1 := dest1 m |}.

(** The loop of [VersionExpr::match], with the value of [result]. *)
Fixpoint match_loop (fuel : nat) (items : list VersionMatch) (version : bytes) (i : Z) (result : bool) : Prelude.result bool :=
  if i <? Z.of_nat (length items) then
    match fuel with
    | O => Abort "fuel"
    | S fuel =>
        match items !! Z.to_nat i with
        | Some m => result ← VersionMatch_match m version; match_loop fuel items version (dest m result) result
        | None => Abort "out of range"
        end
    end
  else Ok result.
Definition VersionExpr_match (items : list VersionMatch) (version : bytes) : result bool :=
  match_loop (length items) items version 0 false.

(** ** Parsing *)

Definition and_ : Z := -1.
Definition or_ : Z := -2.
Definition comma : Z := -3.
Definition group : Z := -4.

(** [stack] has its back at the head. *)
Record VersionExprParser := { items : list VersionMatch; stack : list Z }.

Definition consume_ws (expr : bytes) : bytes :=
  (span (fun ch => existsb (Z.eqb ch) [chr " "; 9]) expr).2.
Definition consume_token (expr : bytes) (token : string) : option bytes :=
  if starts_with expr (str token) then Some (drop (length (str token)) expr) else None.
(** The terminators are ['('], [')'], ['&'], ['|'], ['!'], ['='], ['<'], ['>'],
    ['^'], ['~'], [','], space and tab. *)
Definition version_end : list Z := str "()&|!=<>^~, " ++ [9].
Definition consume_version (expr : bytes) (o : VersionOp) : VersionMatch * bytes :=
  let '(pat, rest) := span (fun ch => negb (existsb (Z.eqb ch) version_end)) expr in
  ({| op := o; pattern := pat; dest0 := 0; dest1 := 0 |}, rest).
Definition consume_op (expr : bytes) : VersionOp * bytes :=
  match consume_token expr "=" with Some e => (op_eq, e) | None =>
  match consume_token expr "!=" with Some e => (op_ne, e) | None =>
  match consume_token expr "<=" with Some e => (op_le, e) | None =>
  match consume_token expr "<" with Some e => (op_lt, e) | None =>
  match consume_token expr ">=" with Some e => (op_ge, e) | None =>
  match consume_token expr ">" with Some e => (op_gt, e) | None =>
  match consume_token expr "^" with Some e => (op_compat, e) | None =>
  match consume_token expr "~" with Some e => (op_patch, e) | None => (op_compat, expr)
  end end end end end end end end.

Definition branch_id (idx : Z) (pass : bool) : Z := - (idx * 2 + (if pass then 1 else 0)).
(** [*branch(idx)], and an assignment to it. *)
Definition branch (items : list VersionMatch) (idx : Z) : result Z :=
  match items !! Z.to_nat (- idx / 2) with
  | Some m => Ok (dest m (Z.odd idx))
  | None => Abort "out of range"
  end.
Definition branch_assign (items : list VersionMatch) (idx value : Z) : result (list VersionMatch) :=
  match items !! Z.to_nat (- idx / 2) with
  | Some m => Ok (<[Z.to_nat (- idx / 2) := set_dest m (Z.odd idx) value]> items)
  | None => Abort "out of range"
  end.
Definition branch_unify (items : list VersionMatch) (lhs rhs : Z) : result (list VersionMatch) := branch_assign items lhs rhs.
Definition branch_set (items : list VersionMatch) (src dest : Z) : result (list VersionMatch) := branch_assign items src dest.

Definition apply_binop (items : list VersionMatch) (op lhs rhs : Z) : result (list VersionMatch) :=
  let next := lhs + 1 in
  if (op =? and_) || (op =? comma) then
    items ← branch_unify items (branch_id lhs false) (branch_id rhs false);
    branch_set items (branch_id lhs true) next
  else if op =? or_ then
    items ← branch_unify items (branch_id lhs true) (branch_id rhs true);
    branch_set items (branch_id lhs false) next
  else Abort "Wrong binary op".

Definition pop_version (st : list Z) : result (Z * list Z) :=
  match st with result :: st => Ok (result, st) | [] => Abort "empty stack" end.

(** The loop of [pop_binop]: each iteration removes two elements. *)
Fixpoint pop_binop_loop (fuel : nat) (items : list VersionMatch) (st : list Z) (min top : Z) : result (Z * list VersionMatch * list Z) :=
  match fuel, st with
  | S fuel, op :: st' =>
      if min <=? op then
        '(prev, st'') ← pop_version st';
        items ← apply_binop items op prev top;
        pop_binop_loop fuel items st'' min top
      else Ok (top, items, st)
  | _, _ => Ok (top, items, st)
  end.
Definition pop_binop (p : VersionExprParser) (min : Z) : result (Z * VersionExprParser) :=
  '(top, st) ← pop_version (stack p);
  '(top, items, st) ← pop_binop_loop (length st) (items p) st min top;
  mret (top, {| items := items; stack := st |}).

Definition push (p : VersionExprParser) (v : Z) : VersionExprParser := {| items := items p; stack := v :: stack p |}.

Definition pop_group (p : VersionExprParser) : result (Z * VersionExprParser) :=
  '(result, p) ← pop_binop p comma;
  match stack p with
  | top :: st => if top =? group then mret (result, {| items := items p; stack := st |}) else Abort "Unexpected )"
  | [] => Abort "Unexpected )"
  end.

(** A binary operator: reduce, and push the operator. *)
Definition push_binop (p : VersionExprParser) (o : Z) : result VersionExprParser :=
  '(top, p) ← pop_binop p o; mret (push (push p top) o).

(** The two labels of [parse]. *)
Inductive label := VERSION | OPERATOR.

Fixpoint parse_loop (fuel : nat) (l : label) (p : VersionExprParser) (expr : bytes) : result VersionExprParser :=
  match fuel with
  | O => Abort "fuel"
  | S fuel =>
      let expr := consume_ws expr in
      match l with
      | VERSION =>
          match consume_token expr "(" with
          | Some expr => parse_loop fuel VERSION (push p group) expr
          | None =>
              let '(o, expr) := consume_op expr in
              let expr := consume_ws expr in
              let p := push p (Z.of_nat (length (items p))) in
              let '(item, expr) := consume_version expr o in
              parse_loop fuel OPERATOR {| items := items p ++ [item]; stack := stack p |} expr
          end
      | OPERATOR =>
          match expr with
          | [] => Ok p
          | _ =>
              match consume_token expr ")" with
              | Some expr => '(result, p) ← pop_group p; parse_loop fuel OPERATOR (push p result) expr
              | None =>
              match consume_token expr "&&" with
              | Some expr => p ← push_binop p and_; parse_loop fuel VERSION p expr
              | None =>
              match consume_token expr "||" with
              | Some expr => p ← push_binop p or_; parse_loop fuel VERSION p expr
              | None =>
              match consume_token expr "," with
              | Some expr => p ← push_binop p comma; parse_loop fuel VERSION p expr
              | None => Abort "Expected operator"
              end end end end
          end
      end
  end.

(** One [dest] of the item [i], when all later items are resolved. *)
Definition resolve_dest (items : list VersionMatch) (i : nat) (pass : bool) : result (list VersionMatch) :=
  match items !! i with
  | None => Abort "out of range"
  | Some m => if dest m pass <=? 0 then d ← branch items (dest m pass); mret (<[i := set_dest m pass d]> items)
              else mret items
  end.
(** The loop from item [i - 1] down. *)
Fixpoint resolve_loop (i : nat) (items : list VersionMatch) : result (list VersionMatch) :=
  match i with
  | O => Ok items
  | S i => items ← resolve_dest items i false; items ← resolve_dest items i true; resolve_loop i items
  end.

Definition close_last (items : list VersionMatch) : result (list VersionMatch) :=
  let n := Z.of_nat (length items) in
  match items !! (length items - 1)%nat with
  | Some m => Ok (<[(length items - 1)%nat := set_dest (set_dest m false n) true n]> items)
  | None => Abort "out of range"
  end.

Definition parse (expr : bytes) : result (list VersionMatch) :=
  p ← parse_loop (2 * length expr + 2) VERSION {| items := []; stack := [] |} expr;
  '(end_, p) ← pop_binop p comma;
  check (bool_decide (stack p = [])) "Expected )" ;;
  check (end_ =? Z.of_nat (length (items p)) - 1) "assertion failed" ;;
  items ← close_last (items p);
  resolve_loop (length items) items.

Definition versionMatch (lhs rhs : bytes) : result bool :=
  items ← parse lhs; VersionExpr_match items rhs.

(** ** The grammar of requirements

    Tests combined by [&&], [||] and [,], which bind less and less tightly and
    associate to the left; [,] means the same as [&&]. *)

Inductive binop := BAnd | BOr | BComma.
Definition binop_code (o : binop) : Z := match o with BAnd => and_ | BOr => or_ | BComma => comma end.

Inductive token := TOpen | TClose | TBin (o : binop) | TTest (o : VersionOp) (pattern : bytes).

(** The tokens of a requirement.  Where a version is expected, anything that is
    not an opening parenthesis is a test, possibly with an empty pattern. *)
Fixpoint lex (fuel : nat) (l : label) (expr : bytes) : result (list token) :=
  match fuel with
  | O => Abort "fuel"
  | S fuel =>
      let expr := consume_ws expr in
      let emit (t : token) (l : label) (expr : bytes) : result (list token) := ts ← lex fuel l expr; mret (t :: ts) in
      match l with
      | VERSION =>
          match consume_token expr "(" with
          | Some expr => emit TOpen VERSION expr
          | None =>
              let '(o, expr) := consume_op expr in
              let '(item, expr) := consume_version (consume_ws expr) o in
              emit (TTest o (pattern item)) OPERATOR expr
          end
      | OPERATOR =>
          match expr with
          | [] => Ok []
          | _ =>
              match consume_token expr ")" with
              | Some expr => emit TClose OPERATOR expr
              | None =>
              match consume_token expr "&&" with
              | Some expr => emit (TBin BAnd) VERSION expr
              | None =>
              match consume_token expr "||" with
              | Some expr => emit (TBin BOr) VERSION expr
              | None =>
              match consume_token expr "," with
              | Some expr => emit (TBin BComma) VERSION expr
              | None => Abort "Expected operator"
              end end end end
          end
      end
  end.
Definition tokens (expr : bytes) : result (list token) := lex (2 * length expr + 2) VERSION expr.

Inductive requirement :=
| Test (o : VersionOp) (pattern : bytes)
| Bin (o : binop) (lhs rhs : requirement).

Definition run_test (o : VersionOp) (pattern version : bytes) : result bool :=
  VersionMatch_match {| op := o; pattern := pattern; dest0 := 0; dest1 := 0 |} version.

(** Evaluation, from left to right and no more tests than needed. *)
Fixpoint eval (version : bytes) (e : requirement) : result bool :=
  match e with
  | Test o pattern => run_test o pattern version
  | Bin (BAnd | BComma) lhs rhs => a ← eval version lhs; if (a : bool) then eval version rhs else Ok false
  | Bin BOr lhs rhs => a ← eval version lhs; if (a : bool) then Ok true else eval version rhs
  end.

(** [derives l ts e]: the tokens [ts] are an expression [e] whose operators
    outside of parentheses bind at least as tightly as [l]. *)
Inductive derives : Z -> list token -> requirement -> Prop :=
| derives_test o pattern : derives 0 [TTest o pattern] (Test o pattern)
| derives_group ts e : derives comma ts e -> derives 0 (TOpen :: ts ++ [TClose]) e
| derives_lift l ts e : comma <= l < 0 -> derives (l + 1) ts e -> derives l ts e
| derives_bin o ts1 ts2 e1 e2 :
    derives (binop_code o) ts1 e1 -> derives (binop_code o + 1) ts2 e2 ->
    derives (binop_code o) (ts1 ++ TBin o :: ts2) (Bin o e1 e2).

(** ** A parser with syntax trees on its stack *)

Inductive sym := SExpr (e : requirement) | SOp (o : binop) | SGroup.

Fixpoint sreduce (l : Z) (e : requirement) (st : list sym) : requirement * list sym :=
  match st with
  | SOp o :: SExpr e1 :: st' => if l <=? binop_code o then sreduce l (Bin o e1 e) st' else (e, st)
  | _ => (e, st)
  end.

Fixpoint sparse (l : label) (st : list sym) (ts : list token) : option (requirement * list sym) :=
  match l, ts with
  | VERSION, TOpen :: ts => sparse VERSION (SGroup :: st) ts
  | VERSION, TTest o pat :: ts => sparse OPERATOR (SExpr (Test o pat) :: st) ts
  | OPERATOR, ts =>
      match st with
      | SExpr e :: st =>
          match ts with
          | [] => Some (sreduce comma e st)
          | TClose :: ts =>
              match sreduce comma e st with
              | (e, SGroup :: st) => sparse OPERATOR (SExpr e :: st) ts
              | _ => None
              end
          | TBin o :: ts => let '(e, st) := sreduce (binop_code o) e st in sparse VERSION (SOp o :: SExpr e :: st) ts
          | _ => None
          end
      | _ => None
      end
  | _, _ => None
  end.

(** The level of the operator on top. *)
Definition top_level (st : list sym) : Z := match st with SOp o :: _ => binop_code o | _ => group end.

Lemma binop_code_range o : comma <= binop_code o < 0.
Proof. by destruct o. Qed.

Lemma sreduce_stop l e st : top_level st < l -> sreduce l e st = (e, st).
Proof.
  destruct st as [|[|o|] [|[e1| |] st]]; cbn [sreduce top_level]; try done. intros H. by rewrite (proj2 (Z.leb_gt _ _)).
Qed.

Lemma sreduce_twice l k e st : l <= k -> sreduce l e st = sreduce l (sreduce k e st).1 (sreduce k e st).2.
Proof.
  intros Hlk. enough (H : forall n e st, (length st <= n)%nat -> sreduce l e st = sreduce l (sreduce k e st).1 (sreduce k e st).2) by eauto using Nat.le_refl.
  clear e st. induction n as [|n IH]; intros e st Hn; [destruct st; [done|cbn in Hn; lia]|].
  destruct st as [|[|o|] [|[e1| |] st]]; cbn [sreduce]; try done.
  destruct (k <=? binop_code o) eqn:E; cbn [fst snd]; [|done]. zbool.
  rewrite (proj2 (Z.leb_le l _)) by lia. apply IH. cbn in Hn. lia.
Qed.

(** Completeness: the tokens of an expression leave it on the stack, up to
    reductions. *)
Lemma sparse_derives l ts e : derives l ts e -> forall st rest, top_level st < l ->
  exists e' st', sparse VERSION st (ts ++ rest) = sparse OPERATOR (SExpr e' :: st') rest /\ sreduce l e' st' = (e, st).
Proof.
  induction 1 as [o pat|ts e H IH|l ts e Hl H IH|o ts1 ts2 e1 e2 H1 IH1 H2 IH2]; intros st rest Ht.
  - exists (Test o pat), st. split; [by destruct rest|]. by apply sreduce_stop.
  - destruct (IH (SGroup :: st) (TClose :: rest) ltac:(done)) as (e' & st' & E & R). exists e, st.
    split; [|by apply sreduce_stop]. cbn [app sparse]. rewrite <- app_assoc. cbn [app]. rewrite E. cbn [sparse]. by rewrite R.
  - destruct (IH st rest ltac:(lia)) as (e' & st' & E & R). exists e', st'. split; [done|].
    rewrite (sreduce_twice l (l + 1)) by lia. rewrite R. by apply sreduce_stop.
  - destruct (IH1 st (TBin o :: ts2 ++ rest) Ht) as (e1' & st1 & E1 & R1).
    destruct (IH2 (SOp o :: SExpr e1 :: st) rest ltac:(cbn; lia)) as (e2' & st2 & E2 & R2).
    exists e2', st2. split.
    + rewrite <- app_assoc. cbn [app]. rewrite E1. cbn [sparse]. by rewrite R1.
    + rewrite (sreduce_twice _ (binop_code o + 1)) by lia. rewrite R2. cbn [sreduce fst snd].
      rewrite (proj2 (Z.leb_le _ _)) by lia. by apply sreduce_stop.
Qed.

(** Soundness: what the stack holds derives the tokens that were read. *)
Inductive stacked : list sym -> list token -> Prop :=
| stacked_nil : stacked [] []
| stacked_group st ts : stacked st ts -> stacked (SGroup :: st) (ts ++ [TOpen])
| stacked_bin o e st ts ts1 :
    stacked st ts -> top_level st < binop_code o -> derives (binop_code o) ts1 e ->
    stacked (SOp o :: SExpr e :: st) (ts ++ ts1 ++ [TBin o]).

Lemma derives_weaken l k ts e : comma <= l <= k -> k <= 0 -> derives k ts e -> derives l ts e.
Proof.
  intros Hl Hk H. remember (Z.to_nat (k - l)) as n eqn:En. revert l Hl En.
  induction n as [|n IH]; intros l Hl En; [by replace l with k by lia|]. apply derives_lift; [lia|]. apply IH; lia.
Qed.

Lemma sreduce_sound st ts0 : stacked st ts0 -> forall k l ts1 e,
  derives k ts1 e -> top_level st < k <= 0 -> comma <= l <= k ->
  exists ts0' ts1', ts0 ++ ts1 = ts0' ++ ts1' /\ stacked (sreduce l e st).2 ts0' /\
    derives l ts1' (sreduce l e st).1 /\ top_level (sreduce l e st).2 < l.
Proof.
  induction 1 as [|st ts H IH|o e1 st ts ts1 H IH Ht He1]; intros k l ts' e He Hk Hl; cbn [sreduce fst snd].
  - exists [], ts'. split_and!; [done|apply stacked_nil|by eapply derives_weaken; [..|exact He]; lia|cbn; unfold comma, group in *; lia].
  - exists (ts ++ [TOpen]), ts'. split_and!; [done|by apply stacked_group|by eapply derives_weaken; [..|exact He]; lia|cbn; unfold comma, group in *; lia].
  - pose proof (binop_code_range o). cbn in Hk. destruct (l <=? binop_code o) eqn:E; zbool.
    + destruct (IH (binop_code o) l (ts1 ++ TBin o :: ts') (Bin o e1 e)) as (a & b & E' & R); [|lia..|].
      * apply derives_bin; [done|]. eapply derives_weaken; [..|exact He]; lia.
      * exists a, b. split; [|done]. rewrite <- E', <- !app_assoc. done.
    + exists (ts ++ ts1 ++ [TBin o]), ts'. split_and!; [done|by apply stacked_bin|by eapply derives_weaken; [..|exact He]; lia|done].
Qed.

(** A derivation read so far, for each label. *)
Definition read (l : label) (st : list sym) (ts : list token) : Prop :=
  match l with
  | VERSION => stacked st ts
  | OPERATOR => exists e st0 ts0 ts1, st = SExpr e :: st0 /\ ts = ts0 ++ ts1 /\ stacked st0 ts0 /\ derives 0 ts1 e
  end.

Lemma top_level_neg st : top_level st < 0.
Proof. destruct st as [|[|o|] st]; cbn; [done..| |done]. by destruct o. Qed.

Lemma sparse_sound ts : forall l st ts0 e,
  read l st ts0 -> sparse l st ts = Some (e, []) -> derives comma (ts0 ++ ts) e.
Proof.
  induction ts as [|t ts IH]; intros [|] st ts0 e Hr E; cbn [sparse] in E.
  - done.
  - destruct Hr as (e0 & st0 & ta & tb & -> & -> & Hs & Hd). injection E as E. pose proof (top_level_neg st0).
    destruct (sreduce_sound st0 ta Hs 0 comma tb e0 Hd ltac:(lia) ltac:(unfold comma; lia)) as (a & b & E' & Hs' & Hd' & _).
    rewrite E in Hs', Hd'. cbn in Hs', Hd'. inversion Hs'; subst. by rewrite app_nil_r, E'.
  - destruct t as [| |o|o pat]; try done.
    + rewrite (cons_middle TOpen ts0 ts), app_assoc. apply (IH VERSION (SGroup :: st)); [by apply stacked_group|done].
    + rewrite (cons_middle _ ts0 ts), app_assoc. apply (IH OPERATOR (SExpr (Test o pat) :: st)); [|done].
      exists (Test o pat), st, ts0, [TTest o pat]. split_and!; [done..|]. apply derives_test.
  - destruct Hr as (e0 & st0 & ta & tb & -> & -> & Hs & Hd). pose proof (top_level_neg st0). destruct t as [| |o|]; try done.
    + destruct (sreduce_sound st0 ta Hs 0 comma tb e0 Hd ltac:(lia) ltac:(unfold comma; lia)) as (a & b & E' & Hs' & Hd' & _).
      destruct (sreduce comma e0 st0) as [e1 [|[| |] st1]]; try done. cbn in Hs', Hd'. inversion Hs' as [|? ts1 Hs1|]; subst.
      rewrite (cons_middle _ _ ts), app_assoc. apply (IH OPERATOR (SExpr e1 :: st1)); [|done].
      exists e1, st1, ts1, (TOpen :: b ++ [TClose]). split_and!; [done| |done|by apply derives_group].
      rewrite E', <- !app_assoc. done.
    + pose proof (binop_code_range o).
      destruct (sreduce_sound st0 ta Hs 0 (binop_code o) tb e0 Hd ltac:(lia) ltac:(lia)) as (a & b & E' & Hs' & Hd' & Ht').
      destruct (sreduce (binop_code o) e0 st0) as [e1 st1]. cbn in Hs', Hd', Ht'.
      rewrite (cons_middle _ _ ts), app_assoc. apply (IH VERSION (SOp o :: SExpr e1 :: st1)); [|done].
      rewrite E', <- app_assoc. by apply stacked_bin.
Qed.

(** ** Syntax trees as graphs *)

(** The result of the left side that decides the whole. *)
Definition decides (o : binop) : bool := match o with BOr => true | _ => false end.

(** [code items a b e]: the items [a .. b] are the tests of [e]; the two
    branches of [b] are the two results of [e]. *)
Inductive code (items : list VersionMatch) : nat -> nat -> requirement -> Prop :=
| code_test i m : items !! i = Some m -> code items i i (Test (op m) (pattern m))
| code_bin o a m b x e1 e2 :
    code items a m e1 -> code items (S m) b e2 -> items !! m = Some x ->
    dest x (decides o) = branch_id (Z.of_nat b) (decides o) -> dest x (negb (decides o)) = Z.of_nat m + 1 ->
    code items a b (Bin o e1 e2).

Lemma code_range items a b e : code items a b e -> (a <= b < length items)%nat.
Proof. induction 1 as [i m H|]; [apply lookup_lt_Some in H; lia|lia]. Qed.

(** Same tests, whatever the branches. *)
Definition same_test (x y : option VersionMatch) : Prop :=
  option_map (fun m => (op m, pattern m)) x = option_map (fun m => (op m, pattern m)) y.

Lemma code_stable items items' a b e :
  code items a b e -> (forall i, (a <= i < b)%nat -> items' !! i = items !! i) -> same_test (items !! b) (items' !! b) ->
  code items' a b e.
Proof.
  induction 1 as [i m H|o a m b x e1 e2 H1 IH1 H2 IH2 Hx D1 D2]; intros Hsame Hb.
  - unfold same_test in Hb. rewrite H in Hb. destruct (items' !! i) as [m'|] eqn:E; [|done]. cbn in Hb.
    injection Hb as E1 E2. rewrite E1, E2. by apply code_test.
  - pose proof (code_range _ _ _ _ H1). pose proof (code_range _ _ _ _ H2).
    eapply code_bin; [apply IH1|apply IH2| |done|done].
    + intros i Hi. apply Hsame. lia.
    + rewrite Hsame by lia. done.
    + intros i Hi. apply Hsame. lia.
    + done.
    + by rewrite Hsame by lia.
Qed.

(** The stack of indices and the stack of syntax trees, over the items below [n]. *)
Inductive sim (items : list VersionMatch) : list Z -> list sym -> nat -> Prop :=
| sim_nil : sim items [] [] 0
| sim_group st ss a : sim items st ss a -> sim items (group :: st) (SGroup :: ss) a
| sim_bin o st ss a b e :
    sim items st ss a -> code items a b e ->
    sim items (binop_code o :: Z.of_nat b :: st) (SOp o :: SExpr e :: ss) (S b).

Lemma sim_stable items items' st ss n :
  sim items st ss n -> (forall i, (i < n)%nat -> items' !! i = items !! i) -> sim items' st ss n.
Proof.
  induction 1 as [|st ss a H IH|o st ss a b e H IH Hc]; intros Hsame; [apply sim_nil|by apply sim_group, IH|].
  pose proof (code_range _ _ _ _ Hc). apply sim_bin with (a := a).
  - apply IH. intros i Hi. apply Hsame. lia.
  - eapply code_stable; [done|intros i Hi; apply Hsame; lia|]. unfold same_test. by rewrite Hsame by lia.
Qed.

Lemma branch_index k (pass : bool) : Z.to_nat (- branch_id (Z.of_nat k) pass / 2) = k /\ Z.odd (branch_id (Z.of_nat k) pass) = pass.
Proof.
  unfold branch_id. rewrite Z.opp_involutive. split.
  - destruct pass; [rewrite Z.div_add_l by lia; change (1 / 2) with 0; lia|]. rewrite Z.add_0_r, Z.div_mul by lia. lia.
  - rewrite Z.odd_opp, Z.odd_add, Z.odd_mul, andb_false_r. by destruct pass.
Qed.

Lemma set_dest_test m p d : op (set_dest m p d) = op m /\ pattern (set_dest m p d) = pattern m.
Proof. by destruct p. Qed.
Lemma set_dest_eq m p d : dest (set_dest m p d) p = d.
Proof. by destruct p. Qed.
Lemma set_dest_ne m p q d : p <> q -> dest (set_dest m p d) q = dest m q.
Proof. by destruct p, q. Qed.

Lemma branch_assign_at items k (pass : bool) d m :
  items !! k = Some m -> branch_assign items (branch_id (Z.of_nat k) pass) d = Ok (<[k := set_dest m pass d]> items).
Proof. intros H. unfold branch_assign. destruct (branch_index k pass) as [-> ->]. by rewrite H. Qed.

(** One reduction links the branches of the left side. *)
Lemma apply_binop_code items o a m b e1 e2 :
  code items a m e1 -> code items (S m) b e2 ->
  exists items', apply_binop items (binop_code o) (Z.of_nat m) (Z.of_nat b) = Ok items' /\
    length items' = length items /\ (forall i, i <> m -> items' !! i = items !! i) /\ code items' a b (Bin o e1 e2).
Proof.
  intros H1 H2. pose proof (code_range _ _ _ _ H1) as R1. pose proof (code_range _ _ _ _ H2) as R2.
  destruct (lookup_lt_is_Some_2 items m ltac:(lia)) as [x Hx].
  set (y := set_dest (set_dest x (decides o) (branch_id (Z.of_nat b) (decides o))) (negb (decides o)) (Z.of_nat m + 1)).
  assert (Hx' : forall z, <[m := z]> items !! m = Some z) by (intros; apply list_lookup_insert_eq; lia).
  exists (<[m := y]> items). split.
  - unfold apply_binop. destruct o; cbn [binop_code decides] in *; cbn [Z.eqb Pos.eqb and_ or_ comma orb]; unfold branch_unify, branch_set.
    all: rewrite (branch_assign_at _ m _ _ x Hx); cbn [mbind result_bind].
    all: rewrite (branch_assign_at _ _ _ _ _ (Hx' _)); by rewrite list_insert_insert_eq.
  - split; [apply length_insert|]. split; [intros i Hi; by rewrite list_lookup_insert_ne|].
    apply code_bin with (m := m) (x := y).
    + eapply code_stable; [exact H1|intros i Hi; rewrite list_lookup_insert_ne by lia; done|].
      unfold same_test. rewrite list_lookup_insert_eq, Hx by lia. cbn. unfold y. by destruct (decides o).
    + eapply code_stable; [exact H2|intros i Hi; rewrite list_lookup_insert_ne by lia; done|].
      unfold same_test. by rewrite list_lookup_insert_ne by lia.
    + by rewrite list_lookup_insert_eq by lia.
    + unfold y. rewrite set_dest_ne by (by destruct (decides o)). apply set_dest_eq.
    + apply set_dest_eq.
Qed.

Lemma pop_binop_sim n : forall ss items st a l b e fuel, (length ss <= n)%nat ->
  sim items st ss a -> code items a b e -> comma <= l -> (length st <= fuel)%nat ->
  exists items' st' a', pop_binop_loop fuel items st l (Z.of_nat b) = Ok (Z.of_nat b, items', st') /\
    length items' = length items /\ sim items' st' (sreduce l e ss).2 a' /\ code items' a' b (sreduce l e ss).1.
Proof.
  induction n as [|n IH]; intros ss items st a l b e fuel Hn Hsim Hcode Hl Hfuel;
    destruct Hsim as [|st ss a Hsim|o st ss a b0 e0 Hsim Hc]; cbn in Hn; try lia.
  1, 2: exists items, [], 0%nat; split_and!; [by destruct fuel|done|apply sim_nil|done].
  - exists items, (group :: st), a. destruct fuel as [|fuel]; [cbn in Hfuel; lia|]. cbn [pop_binop_loop].
    rewrite (proj2 (Z.leb_gt l group)) by (unfold comma, group in *; lia). split; [done|]. split; [done|]. split; [by apply sim_group|done].
  - destruct fuel as [|fuel]; [cbn in Hfuel; lia|]. cbn [pop_binop_loop sreduce]. destruct (l <=? binop_code o) eqn:E.
    + cbn [pop_version mbind result_bind].
      destruct (apply_binop_code items o a b0 b e0 e Hc Hcode) as (items2 & -> & Hlen & Hsame & Hc2). cbn [mbind result_bind].
      pose proof (code_range _ _ _ _ Hc). rewrite <- Hlen.
      apply (IH ss items2 st a); [lia| |done|done|cbn in Hfuel; lia].
      eapply sim_stable; [exact Hsim|]. intros i Hi. apply Hsame. lia.
    + exists items, (binop_code o :: Z.of_nat b0 :: st), (S b0). do 2 (split; [done|]). split; [by apply (sim_bin _ o st ss a)|done].
Qed.

(** What the parser holds at each label. *)
Definition holds (l : label) (p : VersionExprParser) (ss : list sym) : Prop :=
  match l with
  | VERSION => sim (items p) (stack p) ss (length (items p))
  | OPERATOR => exists st ss0 a b e, stack p = Z.of_nat b :: st /\ ss = SExpr e :: ss0 /\
      sim (items p) st ss0 a /\ code (items p) a b e /\ length (items p) = S b
  end.

(** [pop_binop] reduces the stack of syntax trees. *)
Lemma pop_binop_holds p e ss l :
  holds OPERATOR p (SExpr e :: ss) -> comma <= l ->
  exists p' a b, pop_binop p l = Ok (Z.of_nat b, p') /\ length (items p') = S b /\
    sim (items p') (stack p') (sreduce l e ss).2 a /\ code (items p') a b (sreduce l e ss).1.
Proof.
  intros (st & ss0 & a & b & e0 & Est & Ess & Hsim & Hc & Hlen) Hl. injection Ess as <- <-.
  unfold pop_binop. rewrite Est. cbn [pop_version mbind result_bind].
  destruct (pop_binop_sim _ _ _ _ _ _ _ _ (length st) (Nat.le_refl _) Hsim Hc Hl (Nat.le_refl _)) as (items' & st' & a' & -> & Hlen' & Hs' & Hc').
  cbn [mbind result_bind]. eexists _, a', b. split; [done|]. cbn [items stack]. split; [lia|]. done.
Qed.

Lemma push_binop_holds p e ss o :
  holds OPERATOR p (SExpr e :: ss) ->
  exists p', push_binop p (binop_code o) = Ok p' /\
    holds VERSION p' (SOp o :: SExpr (sreduce (binop_code o) e ss).1 :: (sreduce (binop_code o) e ss).2).
Proof.
  intros H. destruct (pop_binop_holds p e ss (binop_code o) H) as (p' & a & b & E & Hlen & Hs & Hc); [by destruct o|].
  unfold push_binop. rewrite E. eexists. split; [done|]. cbn [holds push items stack]. rewrite Hlen. by apply (sim_bin _ o _ _ a).
Qed.

Lemma pop_group_holds p e ss :
  holds OPERATOR p (SExpr e :: ss) ->
  match sreduce comma e ss with
  | (e', SGroup :: ss') => exists r p', pop_group p = Ok (r, p') /\ holds OPERATOR (push p' r) (SExpr e' :: ss')
  | _ => is_ok (pop_group p) = false
  end.
Proof.
  intros H. destruct (pop_binop_holds p e ss comma H) as (p' & a & b & E & Hlen & Hs & Hc); [done|].
  unfold pop_group. rewrite E. cbn [mbind result_bind]. destruct (sreduce comma e ss) as [e' ss']. cbn [fst snd] in *.
  destruct Hs as [|st ss1 a Hs|o st ss1 a b0 e0 Hs Hc0]; cbn [stack]; [done| |by destruct o].
  rewrite Z.eqb_refl. eexists _, _. split; [done|]. cbn [holds push items stack].
  exists st, ss1, a, b, e'. done.
Qed.

Lemma not_ok {A B} (r : result A) (f : A -> result B) : is_ok r = false -> is_ok (r ≫= f) = false.
Proof. by destruct r. Qed.

(** The end of [parse], on a parser. *)
Definition finish (p : VersionExprParser) : result (list VersionMatch) :=
  '(end_, p) ← pop_binop p comma;
  check (bool_decide (stack p = [])) "Expected )" ;;
  check (end_ =? Z.of_nat (length (items p)) - 1) "assertion failed" ;;
  items ← close_last (items p);
  resolve_loop (length items) items.

(** The parser of the code accepts the same tokens as that of syntax trees, and
    builds their graph. *)
Definition simulates (r : result VersionExprParser) (ref : option (requirement * list sym)) : Prop :=
  match ref with
  | Some (e, []) => exists p items, r = Ok p /\ code items 0 (length items - 1) e /\
      finish p = (items ← close_last items; resolve_loop (length items) items)
  | _ => is_ok (r ≫= finish) = false
  end.

Lemma finish_holds p e ss : holds OPERATOR p (SExpr e :: ss) -> simulates (Ok p) (Some (sreduce comma e ss)).
Proof.
  intros H. destruct (pop_binop_holds p e ss comma H) as (p' & a & b & E & Hlen & Hs & Hc); [done|].
  unfold simulates, finish. cbn [mbind result_bind]. rewrite E. cbn [mbind result_bind]. destruct (sreduce comma e ss) as [e' ss'].
  destruct p' as [its st0]. cbn [fst snd items stack] in *. destruct Hs as [|st ss1 a Hs|o st ss1 a b0 e0 Hs Hc0]; cbn [stack]; [|done|done].
  exists p, its. split; [done|]. rewrite Hlen, Nat.sub_succ, Nat.sub_0_r. split; [done|].
  rewrite E. cbn [mbind result_bind stack items]. unfold check. rewrite bool_decide_true by done. rewrite (proj2 (Z.eqb_eq _ _)) by lia. done.
Qed.

Lemma consume_version_item s o :
  exists pat rest, consume_version s o = ({| op := o; pattern := pat; dest0 := 0; dest1 := 0 |}, rest).
Proof. unfold consume_version. destruct (span _ s) as [pat rest]. eauto. Qed.

Lemma parse_loop_sim fuel : forall l p ss s, holds l p ss ->
  simulates (parse_loop fuel l p s) (match lex fuel l s with Ok ts => sparse l ss ts | Abort _ => None end).
Proof.
  induction fuel as [|fuel IH]; intros l p ss s H; [done|]. cbn [parse_loop lex]. generalize (consume_ws s). clear s. intros s'.
  destruct l.
  - destruct (consume_token s' "(") as [s1|].
    + specialize (IH VERSION (push p group) (SGroup :: ss) s1 ltac:(by apply sim_group)).
      destruct (lex fuel VERSION s1) as [ts|]; exact IH.
    + destruct (consume_op s') as [o s1]. destruct (consume_version_item (consume_ws s1) o) as (pat & rest & ->). cbn [pattern].
      cbn [holds] in H. match goal with |- simulates (parse_loop _ _ ?q _) _ => set (p1 := q) end.
      assert (Hp : holds OPERATOR p1 (SExpr (Test o pat) :: ss)).
      { exists (stack p), ss, (length (items p)), (length (items p)), (Test o pat). do 2 (split; [done|]).
        unfold p1. cbn [items push]. split; [eapply sim_stable; [exact H|]; intros i Hi; by rewrite lookup_app_l|].
        split; [|rewrite length_app; cbn; lia].
        refine (code_test _ _ {| op := o; pattern := pat; dest0 := 0; dest1 := 0 |} _). by rewrite lookup_app_r, Nat.sub_diag by lia. }
      specialize (IH OPERATOR p1 _ rest Hp). destruct (lex fuel OPERATOR rest) as [ts|]; exact IH.
  - pose proof H as (st & ss0 & a & b & e & _ & -> & _).
    destruct s' as [|c s']; [by apply finish_holds|].
    assert (Hbin : forall o s1, simulates (p ← push_binop p (binop_code o); parse_loop fuel VERSION p s1)
      (match (ts ← lex fuel VERSION s1; mret (TBin o :: ts)) with Ok ts => sparse OPERATOR (SExpr e :: ss0) ts | Abort _ => None end)).
    { intros o s1. destruct (push_binop_holds p e ss0 o H) as (p' & -> & Hp'). cbn [mbind result_bind].
      specialize (IH VERSION p' _ s1 Hp'). destruct (lex fuel VERSION s1) as [ts|]; [|exact IH]. cbn [mbind result_bind mret result_ret sparse].
      destruct (sreduce (binop_code o) e ss0). exact IH. }
    destruct (consume_token _ ")") as [s1|].
    { pose proof (pop_group_holds p e ss0 H) as Hg.
      destruct (lex fuel OPERATOR s1) as [ts|] eqn:El; cbn [mbind result_bind mret result_ret sparse].
      - destruct (sreduce comma e ss0) as [e' [|[| |] ss1]]; try by (unfold simulates; apply not_ok, not_ok).
        destruct Hg as (r & p' & -> & Hp'). cbn [mbind result_bind]. specialize (IH OPERATOR _ _ s1 Hp'). by rewrite El in IH.
      - destruct (sreduce comma e ss0) as [e' [|[| |] ss1]]; try by (unfold simulates; apply not_ok, not_ok).
        destruct Hg as (r & p' & -> & Hp'). cbn [mbind result_bind]. specialize (IH OPERATOR _ _ s1 Hp'). by rewrite El in IH. }
    destruct (consume_token _ "&&") as [s1|]; [exact (Hbin BAnd s1)|].
    destruct (consume_token _ "||") as [s1|]; [exact (Hbin BOr s1)|].
    destruct (consume_token _ ",") as [s1|]; [exact (Hbin BComma s1)|]. done.
Qed.

(** ** Resolving the branches *)

(** Each branch goes to a later item, or is another name for a branch of one. *)
Definition forward (items : list VersionMatch) (i : nat) (d : Z) : Prop :=
  Z.of_nat i < d \/ exists j q, (i < j < length items)%nat /\ d = branch_id (Z.of_nat j) q.
Definition all_forward (items : list VersionMatch) : Prop :=
  forall i m p, items !! i = Some m -> forward items i (dest m p).

(** The branch [d] of an item, in the resolved items. *)
Definition leads (items' : list VersionMatch) (d d' : Z) : Prop :=
  (0 < d -> d' = d) /\
  (forall j q, (0 < j)%nat -> d = branch_id (Z.of_nat j) q -> exists x, items' !! j = Some x /\ d' = dest x q).
Definition resolved_at (items items' : list VersionMatch) (i : nat) : Prop :=
  forall m, items !! i = Some m -> exists m', items' !! i = Some m' /\ op m' = op m /\ pattern m' = pattern m /\
    forall p, leads items' (dest m p) (dest m' p).

Lemma branch_at items k (pass : bool) m :
  items !! k = Some m -> branch items (branch_id (Z.of_nat k) pass) = Ok (dest m pass).
Proof. intros H. unfold branch. destruct (branch_index k pass) as [-> ->]. by rewrite H. Qed.

Lemma branch_id_inj j k (p q : bool) : branch_id (Z.of_nat j) p = branch_id (Z.of_nat k) q -> j = k /\ p = q.
Proof. unfold branch_id. destruct p, q; intros; split; (lia || done). Qed.

(** The target of one branch, and that it can be read. *)
Lemma resolve_dest_at items i m p :
  all_forward items -> items !! i = Some m ->
  exists d', resolve_dest items i p = Ok (<[i := set_dest m p d']> items) /\ leads items (dest m p) d' /\ forward items i d'.
Proof.
  intros Hf Hm. unfold resolve_dest. rewrite Hm. pose proof (Hf i m p Hm) as [Hd|(j & q & Hj & Hd)].
  - exists (dest m p). rewrite (proj2 (Z.leb_gt _ _)) by lia. split; [|split; [|by left]].
    + rewrite list_insert_id; [done|]. rewrite Hm. by destruct m, p.
    + split; [done|]. intros j q Hj E. unfold branch_id in E. destruct q; lia.
  - destruct (lookup_lt_is_Some_2 items j ltac:(lia)) as [x Hx]. exists (dest x q). rewrite Hd.
    rewrite (proj2 (Z.leb_le _ _)) by (unfold branch_id; destruct q; lia). rewrite (branch_at _ _ _ _ Hx). split; [done|]. split.
    + split; [unfold branch_id; destruct q; lia|]. intros k r _ E. apply branch_id_inj in E as [<- <-]. eauto.
    + destruct (Hf j x q Hx) as [Hx'|(k & r & Hk & E)]; [left; lia|]. right. exists k, r. split; [lia|done].
Qed.

Lemma leads_later items items' i d d' :
  forward items i d -> (forall j, (i < j)%nat -> items' !! j = items !! j) -> leads items d d' -> leads items' d d'.
Proof.
  intros Hf Hs [H1 H2]. split; [done|]. intros j q Hj E. destruct (H2 j q Hj E) as (x & Hx & Ex).
  destruct Hf as [Hd|(k & r & Hk & Ek)]; [unfold branch_id in E; destruct q; lia|].
  rewrite Ek in E. apply branch_id_inj in E as [-> _]. exists x. by rewrite Hs by lia.
Qed.

Lemma all_forward_insert items i m :
  all_forward items -> (forall p, forward items i (dest m p)) -> all_forward (<[i := m]> items).
Proof.
  intros Hf Hm j x p Hj. unfold forward. rewrite length_insert. apply list_lookup_insert_Some in Hj as [(<- & <- & _)|(Hne & Hj)]; [apply Hm|by apply Hf].
Qed.

Lemma resolve_step items i m :
  all_forward items -> items !! i = Some m ->
  exists items1, (items ← resolve_dest items i false; resolve_dest items i true) = Ok items1 /\
    all_forward items1 /\ length items1 = length items /\ (forall j, j <> i -> items1 !! j = items !! j) /\ resolved_at items items1 i.
Proof.
  intros Hf Hm. pose proof (lookup_lt_Some _ _ _ Hm) as Hi.
  destruct (resolve_dest_at items i m false Hf Hm) as (d0 & E0 & L0 & F0). rewrite E0. cbn [mbind result_bind].
  set (m0 := set_dest m false d0) in *. set (items0 := <[i := m0]> items) in *.
  assert (Hf0 : all_forward items0) by (apply all_forward_insert; [done|]; intros [|]; [apply (Hf i m true Hm)|done]).
  assert (Hm0 : items0 !! i = Some m0) by (apply list_lookup_insert_eq; lia).
  destruct (resolve_dest_at items0 i m0 true Hf0 Hm0) as (d1 & E1 & L1 & F1). rewrite E1. unfold items0 at 1. rewrite list_insert_insert_eq.
  eexists. split; [done|]. assert (Hlen : length items0 = length items) by apply length_insert.
  assert (Hlater : forall j, (i < j)%nat -> <[i := set_dest m0 true d1]> items !! j = items !! j)
    by (intros; by rewrite list_lookup_insert_ne by lia).
  split; [|split; [apply length_insert|split; [intros j Hj; by rewrite list_lookup_insert_ne by done|]]].
  - apply all_forward_insert; [done|]. unfold forward in *. rewrite Hlen in F1. by intros [|].
  - intros x Hx. rewrite Hm in Hx. injection Hx as <-. exists (set_dest m0 true d1). rewrite list_lookup_insert_eq by lia.
    do 3 (split; [done|]). intros [|]; cbn [dest set_dest m0].
    + apply (leads_later items0 _ i); [exact (Hf0 i m0 true Hm0)| |exact L1]. intros j Hj. rewrite Hlater by done. unfold items0. by rewrite list_lookup_insert_ne by lia.
    + apply (leads_later items _ i); [exact (Hf i m false Hm)|done|exact L0].
Qed.

Lemma resolve_loop_spec i : forall items, all_forward items -> (i <= length items)%nat ->
  exists items', resolve_loop i items = Ok items' /\ length items' = length items /\
    (forall j, (i <= j)%nat -> items' !! j = items !! j) /\ (forall j, (j < i)%nat -> resolved_at items items' j).
Proof.
  induction i as [|i IH]; intros items Hf Hi; [exists items; split_and!; [done..|lia]|].
  destruct (lookup_lt_is_Some_2 items i ltac:(lia)) as [m Hm].
  destruct (resolve_step items i m Hf Hm) as (items1 & E1 & Hf1 & Hlen & Hsame & Hres).
  destruct (IH items1 Hf1 ltac:(lia)) as (items' & E' & Hlen' & Hkeep & Hdone). exists items'. cbn [resolve_loop].
  split; [|split; [lia|split; [intros j Hj; rewrite Hkeep, Hsame by lia; done|]]].
  - destruct (resolve_dest items i false) as [x|]; [|done]. cbn [mbind result_bind] in *. by rewrite E1.
  - intros j Hj. destruct (decide (j = i)) as [->|Hne].
    + intros x Hx. destruct (Hres x Hx) as (m' & Hm' & Eo & Ep & Hl). exists m'. rewrite Hkeep by lia. split_and!; [done..|].
      intros p. rewrite Hm in Hx. injection Hx as <-. destruct (Hl p) as [L1 L2]. split; [done|]. intros k q Hk E.
      destruct (L2 k q Hk E) as (y & Hy & Ey). exists y. rewrite Hkeep; [done|].
      destruct (Hf i m p Hm) as [Hd|(k' & q' & Hk' & Ek)]; [unfold branch_id in E; destruct q; lia|].
      rewrite Ek in E. apply branch_id_inj in E as [-> _]. lia.
    + intros x Hx. apply Hdone; [lia|]. by rewrite Hsame.
Qed.

(** ** Running the graph *)

Lemma code_forward items a b e : code items a b e -> forall i m p, (a <= i < b)%nat -> items !! i = Some m -> forward items i (dest m p).
Proof.
  induction 1 as [k0 m0 H|o a m b x e1 e2 H1 IH1 H2 IH2 Hx D1 D2]; intros i y p Hi Hy; [lia|].
  pose proof (code_range _ _ _ _ H2). destruct (Nat.lt_trichotomy i m) as [?|[->|?]]; [apply IH1; [lia|done]| |apply IH2; [lia|done]].
  rewrite Hx in Hy. injection Hy as <-. destruct (decide (p = decides o)) as [->|Hne].
  - right. exists b, (decides o). split; [lia|done].
  - left. replace p with (negb (decides o)) by (destruct p, (decides o); done). lia.
Qed.

Lemma close_last_code items e :
  code items 0 (length items - 1) e ->
  exists items1, close_last items = Ok items1 /\ length items1 = length items /\ code items1 0 (length items - 1) e /\
    all_forward items1 /\ forall m p, items1 !! (length items - 1)%nat = Some m -> dest m p = Z.of_nat (length items).
Proof.
  intros H. pose proof (code_range _ _ _ _ H) as Hr. set (n := length items) in *. set (k := (n - 1)%nat) in *.
  destruct (lookup_lt_is_Some_2 items k ltac:(lia)) as [x Hx]. unfold close_last. fold n. fold k. rewrite Hx.
  set (y := set_dest (set_dest x false (Z.of_nat n)) true (Z.of_nat n)). exists (<[k := y]> items). split; [done|].
  assert (Hc : code (<[k := y]> items) 0 k e).
  { eapply code_stable; [exact H|intros i Hi; by rewrite list_lookup_insert_ne by lia|]. unfold same_test. rewrite list_lookup_insert_eq, Hx by lia. done. }
  assert (Hlast : forall m p, <[k := y]> items !! k = Some m -> dest m p = Z.of_nat n).
  { intros m p Hm. rewrite list_lookup_insert_eq in Hm by lia. injection Hm as <-. by destruct p. }
  split; [apply length_insert|]. split; [done|]. split; [|done]. intros i m p Hm.
  pose proof (lookup_lt_Some _ _ _ Hm) as Hi. rewrite length_insert in Hi. fold n in Hi.
  destruct (decide (i = k)) as [->|Hne]; [left; rewrite (Hlast m p Hm); lia|]. eapply code_forward; [exact Hc|lia|done].
Qed.

Lemma match_test m m' version : op m' = op m -> pattern m' = pattern m -> VersionMatch_match m' version = run_test (op m) (pattern m) version.
Proof. intros E1 E2. unfold run_test, VersionMatch_match. cbn [op pattern]. by rewrite E1, E2. Qed.

Section run.
Context (items items' : list VersionMatch) (version : bytes).
Hypothesis Hlen : length items' = length items.
Hypothesis Hforward : all_forward items.
Hypothesis Hresolved : forall i, resolved_at items items' i.

(** Resolved branches go forward. *)
Lemma resolved_increasing k : forall i m' p, (length items - i <= k)%nat -> items' !! i = Some m' -> Z.of_nat i < dest m' p.
Proof.
  induction k as [|k IH]; intros i m' p Hi Hm'; pose proof (lookup_lt_Some _ _ _ Hm') as Hlt; [lia|].
  destruct (lookup_lt_is_Some_2 items i ltac:(lia)) as [m Hm]. destruct (Hresolved i m Hm) as (m1 & Hm1 & _ & _ & Hl).
  rewrite Hm' in Hm1. injection Hm1 as <-. destruct (Hl p) as [L1 L2].
  destruct (Hforward i m p Hm) as [Hd|(j & q & Hj & Hd)]; [rewrite L1; lia|].
  destruct (L2 j q ltac:(lia) Hd) as (x & Hx & ->). specialize (IH j x q ltac:(lia) Hx). lia.
Qed.

Lemma match_loop_fuel f : forall g i r, 0 <= i ->
  (length items' - Z.to_nat i <= f)%nat -> (length items' - Z.to_nat i <= g)%nat ->
  match_loop f items' version i r = match_loop g items' version i r.
Proof.
  induction f as [|f IH]; intros g i r Hi Hf Hg; destruct g as [|g]; cbn [match_loop]; [done|..];
    destruct (i <? Z.of_nat (length items')) eqn:E; try done; zbool; [lia..|].
  destruct (items' !! Z.to_nat i) as [m|] eqn:Em; [|done]. destruct (VersionMatch_match m version) as [b|]; [|done]. cbn [mbind result_bind].
  pose proof (resolved_increasing _ _ _ b (Nat.le_refl _) Em). apply IH; lia.
Qed.

(** The loop, with enough fuel. *)
Definition run_from (i : Z) (r : bool) : result bool := match_loop (length items') items' version i r.

Lemma run_item i m' r : items' !! i = Some m' ->
  run_from (Z.of_nat i) r = (b ← VersionMatch_match m' version; run_from (dest m' b) b).
Proof.
  intros Hm. pose proof (lookup_lt_Some _ _ _ Hm) as Hi. destruct (Nat.lt_exists_pred i (length items') Hi) as (n & En & _).
  unfold run_from. rewrite En at 1. cbn [match_loop]. rewrite (proj2 (Z.ltb_lt _ _)), Nat2Z.id, Hm by lia. destruct (VersionMatch_match m' version) as [b|]; [|done]. cbn [mbind result_bind].
  pose proof (resolved_increasing _ _ _ b (Nat.le_refl _) Hm). apply match_loop_fuel; lia.
Qed.

(** Running the items of an expression continues at a branch of the last one. *)
Lemma run_code a b e : code items a b e -> forall r0,
  exists m', items' !! b = Some m' /\ run_from (Z.of_nat a) r0 = (r ← eval version e; run_from (dest m' r) r).
Proof.
  induction 1 as [i m H|o a m b x e1 e2 H1 IH1 H2 IH2 Hx D1 D2]; intros r0.
  - destruct (Hresolved i m H) as (m' & Hm' & Eo & Ep & _). exists m'. split; [done|].
    rewrite (run_item _ _ _ Hm'), (match_test m m') by done. done.
  - destruct (IH1 r0) as (x' & Hx' & ->). destruct (IH2 (negb (decides o))) as (m' & Hm' & E2). exists m'. split; [done|].
    destruct (Hresolved m x Hx) as (x1 & Hx1 & _ & _ & Hl). rewrite Hx' in Hx1. injection Hx1 as <-.
    pose proof (code_range _ _ _ _ H2).
    assert (Hstop : dest x' (decides o) = dest m' (decides o)).
    { destruct (Hl (decides o)) as [_ L]. destruct (L b _ ltac:(lia) D1) as (y & Hy & ->). congruence. }
    assert (Hgo : dest x' (negb (decides o)) = Z.of_nat (S m)) by (destruct (Hl (negb (decides o))) as [L _]; rewrite L; lia).
    assert (Heval : eval version (Bin o e1 e2) = (r ← eval version e1; if Bool.eqb r (decides o) then Ok r else eval version e2)).
    { destruct o; cbn [eval decides]; destruct (eval version e1) as [[|]|]; done. }
    rewrite Heval. destruct (eval version e1) as [r|]; [|done]. cbn [mbind result_bind].
    destruct (Bool.eqb r (decides o)) eqn:Er.
    + apply Bool.eqb_prop in Er as ->. by rewrite Hstop.
    + assert (r = negb (decides o)) as -> by (destruct r, o; done). by rewrite Hgo, E2.
Qed.
End run.

Lemma graph_correct items e :
  code items 0 (length items - 1) e ->
  exists items', (items ← close_last items; resolve_loop (length items) items) = Ok items' /\
    forall version, VersionExpr_match items' version = eval version e.
Proof.
  intros H. destruct (close_last_code items e H) as (items1 & -> & Hlen1 & Hc1 & Hf1 & Hlast). cbn [mbind result_bind].
  destruct (resolve_loop_spec _ items1 Hf1 (Nat.le_refl _)) as (items' & E' & Hlen & _ & Hres). exists items'. split; [done|]. intros version.
  assert (Hall : forall i, resolved_at items1 items' i).
  { intros i m Hm. pose proof (lookup_lt_Some _ _ _ Hm). by apply Hres. }
  rewrite <- Hlen1 in Hc1, Hlast. pose proof (code_range _ _ _ _ Hc1).
  destruct (run_code items1 items' version Hlen Hf1 Hall _ _ _ Hc1 false) as (m' & Hm' & E).
  unfold VersionExpr_match. unfold run_from in E. change (Z.of_nat 0) with 0 in E. rewrite E.
  destruct (lookup_lt_is_Some_2 items1 (length items1 - 1) ltac:(lia)) as [m Hm].
  destruct (Hall _ m Hm) as (m1 & Hm1 & _ & _ & Hl). rewrite Hm' in Hm1. injection Hm1 as <-.
  destruct (eval version e) as [r|]; [|done]. cbn [mbind result_bind]. destruct (Hl r) as [L _].
  rewrite L by (rewrite (Hlast m r Hm); lia). rewrite (Hlast m r Hm). destruct (length items') eqn:En; [lia|]. cbn [match_loop].
  by rewrite En, (proj2 (Z.ltb_ge _ _)) by lia.
Qed.

(** ** The tokens end *)

Lemma span_app f s : (span f s).1 ++ (span f s).2 = s.
Proof. induction s as [|c s IH]; cbn; [done|]. destruct (f c); [|done]. destruct (span f s). cbn in *. by rewrite IH. Qed.
Lemma span_length f s : (length (span f s).2 <= length s)%nat.
Proof. rewrite <- (span_app f s) at 2. rewrite length_app. lia. Qed.

Lemma consume_token_length s t s1 :
  consume_token s t = Some s1 -> (length s1 + length (str t) = length s)%nat.
Proof.
  unfold consume_token, starts_with. case_bool_decide as H; [|done]. intros [= <-]. rewrite length_drop.
  apply (f_equal length) in H. rewrite length_take in H. lia.
Qed.

Lemma consume_op_length s : (length (consume_op s).2 <= length s)%nat.
Proof.
  unfold consume_op.
  repeat match goal with |- context [consume_token s ?t] => destruct (consume_token s t) eqn:E; [apply consume_token_length in E; cbn; lia|clear E] end.
  done.
Qed.

Lemma lex_fuel fuel : forall l s, (2 * length s + match l with VERSION => 2 | OPERATOR => 1 end <= fuel)%nat -> lex fuel l s <> Abort "fuel".
Proof.
  induction fuel as [|fuel IH]; intros l s Hf; [destruct l; lia|]. cbn [lex].
  assert (Hws : forall s, (length (consume_ws s) <= length s)%nat) by (intros; apply span_length).
  pose proof (Hws s) as H1. generalize dependent (consume_ws s). intros s' H1.
  assert (Hemit : forall t l s1, (2 * length s1 + match l with VERSION => 2 | OPERATOR => 1 end <= fuel)%nat ->
    (ts ← lex fuel l s1; mret (t :: ts)) <> Abort "fuel" :> result (list token)).
  { intros t l1 s1 Hs1. specialize (IH l1 s1 Hs1). by destruct (lex fuel l1 s1) as [|m]; cbn; [|congruence]. }
  destruct l.
  - destruct (consume_token s' "(") as [s1|] eqn:E.
    + apply consume_token_length in E. change (length (str "(")) with 1%nat in E. apply Hemit. lia.
    + destruct (consume_op s') as [o s1] eqn:Eo. pose proof (consume_op_length s') as H2. rewrite Eo in H2. cbn in H2.
      destruct (consume_version (consume_ws s1) o) as [item rest] eqn:Ev. apply Hemit.
      pose proof (Hws s1). unfold consume_version in Ev. pose proof (span_length (fun ch => negb (existsb (Z.eqb ch) version_end)) (consume_ws s1)) as H3.
      destruct (span _ (consume_ws s1)). injection Ev as <- <-. cbn in H3. lia.
  - destruct s' as [|c s']; [done|].
    repeat match goal with |- context [consume_token (c :: s') ?t] =>
      destruct (consume_token (c :: s') t) as [s1|] eqn:E;
      [apply consume_token_length in E; apply Hemit; cbn in E, H1 |- *; lia|clear E] end. done.
Qed.

(** C31: Version requirements mean what their grammar says.  The tokens of every
    requirement are found (the scan ends).  When they form an expression of the
    grammar, it is the only one, the requirement is parsed, and running its graph
    on any version gives the result of evaluating the expression from left to
    right without needless tests: the same answer, and an abort exactly when a
    test that is reached aborts.  When they do not, parsing fails. *)
Theorem versionMatch_correct expr :
  tokens expr <> Abort "fuel" /\
  match tokens expr with
  | Ok ts =>
      (forall e, derives comma ts e ->
        (forall e', derives comma ts e' -> e' = e) /\ forall version, versionMatch expr version = eval version e) /\
      (is_ok (parse expr) = true -> exists e, derives comma ts e)
  | Abort _ => is_ok (parse expr) = false
  end.
Proof.
  split; [apply lex_fuel; lia|].
  pose proof (parse_loop_sim (2 * length expr + 2) VERSION {| items := []; stack := [] |} [] expr (sim_nil [])) as H.
  fold (tokens expr) in H. destruct (tokens expr) as [ts|]; [|exact H].
  assert (Hcomplete : forall e, derives comma ts e -> sparse VERSION [] ts = Some (e, [])).
  { intros e He. destruct (sparse_derives comma ts e He [] [] ltac:(done)) as (e' & st' & E & R). rewrite app_nil_r in E. by rewrite E; cbn; rewrite R. }
  split.
  - intros e He. rewrite (Hcomplete e He) in H. destruct H as (p & its & Ep & Hc & Hfin). split.
    + intros e' He'. pose proof (Hcomplete e He) as E1. rewrite (Hcomplete e' He') in E1. by injection E1.
    + intros version. destruct (graph_correct its e Hc) as (items' & E & Hrun). rewrite <- Hfin in E.
      unfold versionMatch, parse. rewrite Ep. cbn [mbind result_bind]. fold (finish p). rewrite E. apply Hrun.
  - intros Hok. destruct (sparse VERSION [] ts) as [[e [|x st]]|] eqn:Es.
    + exists e. by apply (sparse_sound ts VERSION [] [] e stacked_nil).
    + unfold parse in Hok. by rewrite H in Hok.
    + unfold parse in Hok. by rewrite H in Hok.
Qed.

Lemma versionMatch_correct_witness :
  versionMatch (str "1 || (2, >=0.3)") (str "1.0.0") = eval (str "1.0.0")
    (Bin BOr (Test op_compat (str "1")) (Bin BComma (Test op_compat (str "2")) (Test op_ge (str "0.3")))).
Proof.
  refine (proj2 (proj1 (proj2 (versionMatch_correct (str "1 || (2, >=0.3)"))) _ _) (str "1.0.0")).
  apply derives_lift; [done|].
  refine (derives_bin BOr [TTest op_compat (str "1")] [TOpen; TTest op_compat (str "2"); TBin BComma; TTest op_ge (str "0.3"); TClose] _ _ _ _).
  - do 2 (apply derives_lift; [done|]). apply derives_test.
  - apply derives_lift; [done|]. apply (derives_group [TTest op_compat (str "2"); TBin BComma; TTest op_ge (str "0.3")]).
    apply (derives_bin BComma [TTest op_compat (str "2")] [TTest op_ge (str "0.3")]).
    + do 3 (apply derives_lift; [done|]). apply derives_test.
    + do 2 (apply derives_lift; [done|]). apply derives_test.
Defined.

(** ** Numbers *)

(** A decimal number as the code accepts it, and its value. *)
Definition numeral (s : bytes) : bool :=
  forallb is_digit s && negb (length s =? 0)%nat && (negb (bool_decide (hd_error s = Some (chr "0"))) || (length s =? 1)%nat).
Definition value (s : bytes) : Z := foldl (fun acc d => acc * 10 + (d - chr "0")) 0 s.

Definition not_digit (s : bytes) : Prop := match s with [] => True | c :: _ => is_digit c = false end.

Lemma span_digits x r : forallb is_digit x = true -> not_digit r -> span is_digit (x ++ r) = (x, r).
Proof.
  intros Hx Hr. induction x as [|c x IH]; cbn in *.
  - destruct r as [|c r]; cbn in *; [done|]. by rewrite Hr.
  - apply andb_true_iff in Hx as [Hc Hx]. rewrite Hc, IH by done. done.
Qed.

Lemma parseDecNum_numeral x r : numeral x = true -> not_digit r -> parseDecNum (x ++ r) = Ok (x, r).
Proof.
  unfold numeral. intros H Hr. zbool. unfold parseDecNum. rewrite span_digits by done. unfold check.
  destruct x as [|c x]; [done|]. cbn [length Nat.eqb negb app hd_error] in *. cbn [mbind result_bind].
  match goal with H : _ \/ _ |- _ => destruct H as [E|E]; rewrite E end; [done|]. by rewrite orb_true_r.
Qed.

(** The value of the digits that follow a prefix of value [acc]. *)
Definition value_from (acc : Z) (s : bytes) : Z := foldl (fun acc d => acc * 10 + (d - chr "0")) acc s.

Lemma digit_range c : is_digit c = true -> 0 <= c - chr "0" <= 9.
Proof. unfold is_digit, in_range. intros H. zbool. change (chr "0") with 48 in *. change (chr "9") with 57 in *. lia. Qed.

Lemma value_bounds s acc : forallb is_digit s = true ->
  acc * 10 ^ Z.of_nat (length s) <= value_from acc s < (acc + 1) * 10 ^ Z.of_nat (length s).
Proof.
  revert acc. induction s as [|c s IH]; intros acc H; cbn [value_from foldl length forallb] in *; [change (10 ^ Z.of_nat 0) with 1; lia|].
  apply andb_true_iff in H as [Hc Hs]. apply digit_range in Hc. specialize (IH (acc * 10 + (c - chr "0")) Hs). unfold value_from in IH.
  rewrite Nat2Z.inj_succ, Z.pow_succ_r by lia. assert (0 < 10 ^ Z.of_nat (length s)) by (apply Z.pow_pos_nonneg; lia). nia.
Qed.

Lemma value_lex a b x : forallb is_digit a = true -> forallb is_digit b = true -> length a = length b ->
  lex_compare a b = (value_from x a ?= value_from x b).
Proof.
  revert b x. induction a as [|c a IH]; intros [|d b] x Ha Hb Hl; try done; [by cbn; rewrite Z.compare_refl|].
  cbn [forallb length lex_compare] in *. apply andb_true_iff in Ha as [Hc Ha]. apply andb_true_iff in Hb as [Hd Hb]. injection Hl as Hl.
  pose proof (digit_range c Hc). pose proof (digit_range d Hd).
  change (value_from x (c :: a)) with (value_from (x * 10 + (c - chr "0")) a). change (value_from x (d :: b)) with (value_from (x * 10 + (d - chr "0")) b).
  pose proof (value_bounds a (x * 10 + (c - chr "0")) Ha). pose proof (value_bounds b (x * 10 + (d - chr "0")) Hb). rewrite <- Hl in *.
  assert (0 < 10 ^ Z.of_nat (length a)) by (apply Z.pow_pos_nonneg; lia).
  destruct (Z.compare_spec c d) as [->|Hlt|Hgt]; [by apply IH|symmetry; apply Z.compare_lt_iff|symmetry; apply Z.compare_gt_iff]; nia.
Qed.

Lemma numeral_length s : numeral s = true -> (length s = 1%nat /\ 0 <= value s <= 9) \/ 10 ^ (Z.of_nat (length s) - 1) <= value s.
Proof.
  unfold numeral. intros H. zbool. destruct s as [|c s]; [done|]. cbn [forallb length hd_error] in *. zbool.
  match goal with H : is_digit c = true |- _ => pose proof (digit_range c H) end.
  match goal with H : forallb is_digit s = true |- _ => pose proof (value_bounds s (0 * 10 + (c - chr "0")) H) end.
  change (value (c :: s)) with (value_from (0 * 10 + (c - chr "0")) s).
  match goal with H : _ \/ _ |- _ => destruct H as [Hz|Hz] end.
  - right. apply negb_true_iff, bool_decide_eq_false in Hz. assert (c <> chr "0") by congruence. rewrite Nat2Z.inj_succ.
    replace (Z.succ (Z.of_nat (length s)) - 1) with (Z.of_nat (length s)) by lia.
    assert (0 < 10 ^ Z.of_nat (length s)) by (apply Z.pow_pos_nonneg; lia). nia.
  - left. apply Nat.eqb_eq in Hz. destruct s; [|done]. cbn. cbn in *. lia.
Qed.

Lemma numeral_value_lt a b : numeral a = true -> numeral b = true -> (length a < length b)%nat -> value a < value b.
Proof.
  intros Ha Hb Hl. pose proof Ha as Ha'. unfold numeral in Ha'. zbool.
  match goal with H : forallb is_digit a = true |- _ => pose proof (value_bounds a 0 H) as Hv end. change (value_from 0 a) with (value a) in Hv.
  destruct (numeral_length b Hb) as [[E _]|Hge].
  { match goal with H : length a <> 0%nat |- _ => lia end. }
  assert (10 ^ Z.of_nat (length a) <= 10 ^ (Z.of_nat (length b) - 1)) by (apply Z.pow_le_mono_r; lia). lia.
Qed.

(** Comparing sizes and then characters compares the numbers. *)
Lemma numeral_compare a b : numeral a = true -> numeral b = true ->
  then_compare (size_compare a b) (lex_compare a b) = (value a ?= value b).
Proof.
  intros Ha Hb. unfold size_compare. destruct (Nat.compare_spec (length a) (length b)) as [E|E|E]; cbn [then_compare].
  - unfold numeral in *. zbool. by apply value_lex.
  - symmetry. apply Z.compare_lt_iff. by apply numeral_value_lt.
  - symmetry. apply Z.compare_gt_iff. by apply numeral_value_lt.
Qed.

Lemma compareDecNum_numeral a b r s : numeral a = true -> numeral b = true -> not_digit r -> not_digit s ->
  compareDecNum (a ++ r) (b ++ s) = Ok (value a ?= value b, r, s).
Proof. intros Ha Hb Hr Hs. unfold compareDecNum. rewrite !parseDecNum_numeral by done. cbn [mbind result_bind]. by rewrite numeral_compare. Qed.

(** ** Releases *)

(** A version without a pre-release part, and possibly with build metadata. *)
Definition release (x y z build : bytes) : bytes := x ++ str "." ++ y ++ str "." ++ z ++ build.
Definition build_ok (build : bytes) : Prop := build = [] \/ hd_error build = Some (chr "+").
Definition release_ok (x y z build : bytes) : Prop :=
  numeral x = true /\ numeral y = true /\ numeral z = true /\ build_ok build.

Lemma build_not_digit b : build_ok b -> not_digit b.
Proof. intros [->|H]; [done|]. destruct b; [done|]. by injection H as ->. Qed.

Lemma build_prerelease b s : build_ok b -> build_ok s -> comparePrerelease b s = Ok Eq.
Proof.
  intros Hb Hs. assert (H : forall t, build_ok t -> starts_with t (str "-") = false).
  { intros t [->|Ht]; [done|]. destruct t; [done|]. by injection Ht as ->. }
  unfold comparePrerelease. by rewrite !H.
Qed.

Lemma numeral_plain z : forallb is_digit z = true -> forall r, isPrerelease (z ++ r) = isPrerelease r.
Proof.
  induction z as [|c z IH]; intros H r; [done|]. cbn in H. apply andb_true_iff in H as [Hc Hz]. rewrite <- (IH Hz r).
  unfold isPrerelease, find_first_of. cbn [app span].
  assert (E : existsb (Z.eqb c) (str "-+") = false).
  { apply digit_range in Hc. cbn. change (chr "-") with 45. change (chr "+") with 43. change (chr "0") with 48 in Hc.
    rewrite !(proj2 (Z.eqb_neq _ _)) by lia. done. }
  rewrite E. cbn [negb]. by destruct (span _ (z ++ r)).
Qed.

Lemma release_not_prerelease z b : numeral z = true -> build_ok b -> isPrerelease (str "." ++ z ++ b) = false /\ isPrerelease b = false.
Proof.
  intros Hz Hb. assert (E : isPrerelease b = false) by (destruct Hb as [->|Hb]; [done|]; destruct b; [done|]; by injection Hb as ->).
  split; [|done]. trans (isPrerelease (z ++ b)); [|rewrite numeral_plain; [done|]; unfold numeral in Hz; by zbool].
  unfold isPrerelease, find_first_of. cbn [app str span]. by destruct (span _ (z ++ b)).
Qed.

Lemma numeral_zero a : numeral a = true -> bool_decide (take 1 a = str "0") = (value a =? 0) /\ (value a = 0 -> a = str "0").
Proof.
  intros H. pose proof H as H'. unfold numeral in H'. zbool. destruct a as [|c a]; [done|]. cbn [forallb] in *. zbool.
  assert (E : c = chr "0" -> a = []).
  { intros ->. match goal with H : _ \/ _ |- _ => destruct H as [Hz|Hz] end; [by apply negb_true_iff, bool_decide_eq_false in Hz|].
    apply Nat.eqb_eq in Hz. by destruct a. }
  match goal with H : is_digit c = true |- _ => pose proof (digit_range c H) as Hc end.
  match goal with H : forallb is_digit a = true |- _ => pose proof (value_bounds a (0 * 10 + (c - chr "0")) H) as Hv end.
  change (value_from _ a) with (value (c :: a)) in Hv. assert (0 < 10 ^ Z.of_nat (length a)) by (apply Z.pow_pos_nonneg; lia).
  destruct (decide (c = chr "0")) as [->|Hne]; [by rewrite E|].
  assert (value (c :: a) <> 0) by nia. split; [|done]. rewrite (proj2 (Z.eqb_neq _ _)) by done.
  apply bool_decide_eq_false. cbn. rewrite take_0. by injection 1.
Qed.

Lemma starts_zero a r : numeral a = true -> starts_with (a ++ r) (str "0") = (value a =? 0).
Proof.
  intros H. destruct (numeral_zero a H) as [<- _]. unfold starts_with. destruct a as [|c a]; [done|]. cbn. by rewrite !take_0.
Qed.

Lemma starts_zero_zero a b r : numeral a = true -> numeral b = true ->
  starts_with (a ++ str "." ++ b ++ r) (str "0.0") = ((value a =? 0) && (value b =? 0)).
Proof.
  intros Ha Hb. destruct (value a =? 0) eqn:Ea; cbn [andb].
  - apply Z.eqb_eq in Ea. destruct (numeral_zero a Ha) as [_ Hz]. rewrite (Hz Ea).
    rewrite <- (starts_zero b r Hb). unfold starts_with. cbn. rewrite ?take_0. destruct (take 1 (b ++ r)); case_bool_decide as E1; case_bool_decide as E2; congruence.
  - rewrite <- (starts_zero a (str "." ++ b ++ r) Ha) in Ea. unfold starts_with in *. apply bool_decide_eq_false. apply bool_decide_eq_false in Ea.
    intros E. apply Ea. destruct (a ++ str "." ++ b ++ r) as [|c s]; [done|]. cbn in *. rewrite take_0. by injection E as ->.
Qed.

(** What the operators mean for releases. *)
Definition satisfies (o : VersionOp) (a b c x y z : Z) : bool :=
  let ge := match then_compare (a ?= x) (then_compare (b ?= y) (c ?= z)) with Gt => false | _ => true end in
  let eq := (a =? x) && (b =? y) && (c =? z) in
  match o with
  | op_eq => eq
  | op_ne => negb eq
  | op_ge => ge
  | op_gt => ge && negb eq
  | op_le => negb ge || eq
  | op_lt => negb ge
  | op_compat => if negb (a =? 0) then (a =? x) && ge
                 else if negb (b =? 0) then (x =? 0) && (b =? y) && (c <=? z) else eq
  | op_patch => (a =? x) && (b =? y) && (if (a =? 0) && (b =? 0) then c =? z else c <=? z)
  end.

Section release_match.
Context (a b c bl x y z br : bytes).
Hypothesis Hl : release_ok a b c bl.
Hypothesis Hr : release_ok x y z br.

Lemma dot_not_digit s : not_digit (str "." ++ s).
Proof. done. Qed.

Lemma comparePattern_release :
  comparePattern (release a b c bl) (release x y z br) =
  Ok (then_compare (value a ?= value x) (then_compare (value b ?= value y) (value c ?= value z))).
Proof.
  destruct Hl as (Ha & Hb & Hc & Hbl), Hr as (Hx & Hy & Hz & Hbr). unfold comparePattern, release.
  rewrite decide_False.
  2:{ intros E. destruct a as [|d a']; [done|]. injection E as -> _. unfold numeral in Ha. by cbn in Ha. }
  unfold or_else. rewrite (compareDecNum_numeral a x) by done. cbn [mbind result_bind].
  destruct (value a ?= value x); [|done..]. cbn [then_compare]. cbn [consumeChar tryConsume str app mbind result_bind]. rewrite !Z.eqb_refl. cbn [negb mbind result_bind].
  rewrite (compareDecNum_numeral b y) by done. cbn [mbind result_bind].
  destruct (value b ?= value y); [|done..]. cbn [then_compare]. cbn [consumeChar tryConsume str app mbind result_bind]. rewrite !Z.eqb_refl. cbn [negb mbind result_bind].
  rewrite (compareDecNum_numeral c z) by eauto using build_not_digit. cbn [mbind result_bind].
  destruct (value c ?= value z); [|done..]. by apply build_prerelease.
Qed.

Lemma match_compat_release o :
  match_compat o (release a b c bl) (release x y z br) =
  Ok ((value a =? value x) &&
      (let exact := (value a =? 0) || match o with op_patch => true | _ => false end in
       if value b =? value y then (if (value a =? 0) && (value b =? 0) then value c =? value z else value c <=? value z)
       else negb exact && (value b <? value y))).
Proof.
  destruct Hl as (Ha & Hb & Hc & Hbl), Hr as (Hx & Hy & Hz & Hbr). unfold match_compat.
  rewrite decide_False.
  2:{ unfold release. intros E. destruct a as [|d a']; [done|]. injection E as -> _. unfold numeral in Ha. by cbn in Ha. }
  assert (Z0 : starts_with (release a b c bl) (str "0") = (value a =? 0)) by (unfold release; by apply starts_zero).
  assert (Z00 : starts_with (release a b c bl) (str "0.0") = ((value a =? 0) && (value b =? 0))) by (unfold release; by apply starts_zero_zero).
  rewrite Z0, Z00. clear Z0 Z00. unfold release.
  rewrite (compareDecNum_numeral a x) by done. cbn [mbind result_bind].
  destruct (Z.compare_spec (value a) (value x)) as [Eax|Eax|Eax];
    [rewrite (proj2 (Z.eqb_eq _ _) Eax)|by rewrite (proj2 (Z.eqb_neq _ _)) by lia..].
  cbn [consumeChar tryConsume str app mbind result_bind]. rewrite !Z.eqb_refl. cbn [negb mbind result_bind andb]. unfold matchNum.
  rewrite (compareDecNum_numeral b y) by done. cbn [mbind result_bind mret result_ret].
  destruct (release_not_prerelease z br Hz Hbr) as [Np1 Np2]. cbn [str app] in Np1.
  destruct (Z.compare_spec (value b) (value y)) as [Eby|Eby|Eby].
  2:{ rewrite (proj2 (Z.eqb_neq (value b) (value y))), (proj2 (Z.ltb_lt (value b) (value y))) by lia. destruct ((value a =? 0) || _); [done|]. by rewrite Np1. }
  2:{ rewrite (proj2 (Z.eqb_neq (value b) (value y))), (proj2 (Z.ltb_ge (value b) (value y))), andb_false_r by lia. by destruct ((value a =? 0) || _). }
  rewrite (proj2 (Z.eqb_eq _ _) Eby).
  assert (En : forall e : bool, (if e then @None bool else None) = None) by (by intros [|]). rewrite En.
  cbn [consumeChar tryConsume str app mbind result_bind]. rewrite !Z.eqb_refl. cbn [negb mbind result_bind].
  rewrite (compareDecNum_numeral c z) by eauto using build_not_digit. cbn [mbind result_bind mret result_ret].
  destruct (Z.compare_spec (value c) (value z)) as [Ecz|Ecz|Ecz].
  - rewrite (proj2 (Z.eqb_eq _ _) Ecz), (proj2 (Z.leb_le _ _)) by lia. destruct ((value a =? 0) && _); by rewrite build_prerelease.
  - rewrite (proj2 (Z.eqb_neq (value c) (value z))), (proj2 (Z.leb_le _ _)) by lia. destruct ((value a =? 0) && _); [done|]. by rewrite Np2.
  - rewrite (proj2 (Z.eqb_neq (value c) (value z))), (proj2 (Z.leb_gt _ _)) by lia. by destruct ((value a =? 0) && _).
Qed.

Lemma versionCompare_release :
  versionCompare (release a b c bl) (release x y z br) =
  Ok (then_compare (value a ?= value x) (then_compare (value b ?= value y) (value c ?= value z))).
Proof.
  rewrite <- comparePattern_release. unfold comparePattern. rewrite decide_False.
  2:{ destruct Hl as (Ha & _). unfold release. intros E. destruct a as [|d a']; [done|]. injection E as -> _. unfold numeral in Ha. by cbn in Ha. }
  destruct Hl as (Ha & Hb & Hc & Hbl), Hr as (Hx & Hy & Hz & Hbr). unfold versionCompare, release, or_else.
  rewrite (compareDecNum_numeral a x) by done. cbn [mbind result_bind]. destruct (value a ?= value x); [|done..].
  cbn [consumeChar tryConsume str app mbind result_bind]. rewrite !Z.eqb_refl. cbn [negb mbind result_bind].
  rewrite (compareDecNum_numeral b y) by done. cbn [mbind result_bind]. destruct (value b ?= value y); [|done..].
  cbn [consumeChar tryConsume str app mbind result_bind]. by rewrite !Z.eqb_refl.
Qed.
End release_match.

Lemma numeral_nonneg a : numeral a = true -> 0 <= value a.
Proof.
  intros H. unfold numeral in H. zbool. match goal with H : forallb is_digit a = true |- _ => pose proof (value_bounds a 0 H) as Hv end.
  change (value_from 0 a) with (value a) in Hv. lia.
Qed.

(** Every operator on releases, with or without build metadata: versions are
    ordered by their numbers, of any number of digits, [^] accepts the later
    versions with the same leftmost number that is not zero, and [~] those with
    the same minor version; for [0.0.z] both require the same version. *)
Theorem release_match o a b c bl x y z br :
  release_ok a b c bl -> release_ok x y z br ->
  run_test o (release a b c bl) (release x y z br) = Ok (satisfies o (value a) (value b) (value c) (value x) (value y) (value z)) /\
  versionCompare (release a b c bl) (release x y z br) =
    Ok (then_compare (value a ?= value x) (then_compare (value b ?= value y) (value c ?= value z))).
Proof.
  intros Hl Hr. split; [|by apply versionCompare_release]. unfold run_test, VersionMatch_match. cbn [op pattern].
  pose proof Hl as (Ha & Hb & Hc & _). pose proof Hr as (Hx & Hy & Hz & _).
  pose proof (numeral_nonneg a Ha). pose proof (numeral_nonneg b Hb). pose proof (numeral_nonneg x Hx).
  rewrite comparePattern_release, !match_compat_release by done. cbn [mbind result_bind mret result_ret]. unfold satisfies.
  destruct o; f_equal; destruct (Z.compare_spec (value a) (value x)), (Z.compare_spec (value b) (value y)), (Z.compare_spec (value c) (value z)); cbn [then_compare];
    repeat match goal with |- context [?u =? ?v] => destruct (Z.eqb_spec u v) end;
    repeat match goal with |- context [?u <=? ?v] => destruct (Z.leb_spec u v) end;
    repeat match goal with |- context [?u <? ?v] => destruct (Z.ltb_spec u v) end; (done || lia).
Qed.

Lemma release_match_witness :
  run_test op_compat (str "1.9.0") (str "1.10.0+x") = Ok true.
Proof.
  refine (proj1 (release_match op_compat (str "1") (str "9") (str "0") [] (str "1") (str "10") (str "0") (str "+x") _ _));
    (do 3 (split; [reflexivity|])); [by left|by right].
Defined.

(** ** Pre-releases *)

Lemma consumeIdent_span id rest :
  forallb (fun ch => negb (existsb (Z.eqb ch) (str ".+"))) id = true ->
  (rest = [] \/ exists ch s, rest = ch :: s /\ existsb (Z.eqb ch) (str ".+") = true) ->
  consumeIdent (id ++ rest) = (id, rest).
Proof.
  intros Hid Hrest. unfold consumeIdent, find_first_of. induction id as [|c id IH]; cbn [app span].
  - destruct Hrest as [->|(ch & s & -> & E)]; [done|]. cbn [span]. by rewrite E.
  - cbn [forallb] in Hid. apply andb_true_iff in Hid as [Hc Hid]. rewrite Hc, IH by done. done.
Qed.

Lemma prerelease_loop_total fuel : forall pattern version, (0 < length pattern <= fuel)%nat ->
  is_ok (comparePrerelease_loop fuel pattern version) = true.
Proof.
  induction fuel as [|fuel IH]; intros pattern version Hf; [lia|]. cbn [comparePrerelease_loop].
  assert (Hlen : forall s, (length (consumeIdent s).2 <= length s)%nat) by (intros; apply span_length).
  destruct (consumeIdent (tail pattern)) as [lid p1] eqn:E1. destruct (consumeIdent p1) as [rid p2] eqn:E2.
  assert (length p2 < length pattern)%nat.
  { pose proof (Hlen (tail pattern)) as H1. pose proof (Hlen p1) as H2. rewrite E1 in H1. rewrite E2 in H2. cbn in H1, H2. destruct pattern; cbn in *; lia. }
  destruct (isnum lid && negb (isnum rid)); [done|]. destruct (negb (isnum lid) && isnum rid); [done|].
  destruct (if isnum lid then size_compare lid rid else Eq); try done. destruct (lex_compare lid rid); try done.
  destruct (starts_with p2 (str ".")) eqn:Es, (starts_with (tail version) (str ".")); try done. cbn.
  apply IH. destruct p2; [done|]. cbn in *. lia.
Qed.

Lemma comparePrerelease_total pattern version : is_ok (comparePrerelease pattern version) = true.
Proof.
  unfold comparePrerelease. destruct (starts_with pattern (str "-")) eqn:E, (starts_with version (str "-")); try done. cbn [negb andb].
  apply prerelease_loop_total. destruct pattern; [done|]. cbn. lia.
Qed.

(** The comparison of pre-releases always ends, but two pre-releases of the same
    version never compare equal: whatever the pre-release of the version is, that
    of the pattern is found to be greater, because both identifiers are read from
    the pattern. *)
Theorem prerelease_greater :
  (forall pattern version, is_ok (comparePrerelease pattern version) = true) /\
  forall id rest version,
    id <> [] -> forallb (fun ch => negb (existsb (Z.eqb ch) (str ".+"))) id = true ->
    (rest = [] \/ exists ch s, rest = ch :: s /\ existsb (Z.eqb ch) (str ".+") = true) ->
    comparePrerelease (str "-" ++ id ++ rest) (str "-" ++ version) = Ok Gt.
Proof.
  split; [apply comparePrerelease_total|]. intros id rest version.
  intros Hne Hid Hrest. unfold comparePrerelease, starts_with. cbn [str app length take]. rewrite !take_0, bool_decide_true by done.
  cbn [negb andb comparePrerelease_loop tail]. rewrite consumeIdent_span by done.
  assert (E : consumeIdent rest = ([], rest)) by (apply (consumeIdent_span []); done). rewrite E.
  change (isnum []) with true. cbn [negb andb]. rewrite andb_false_r, andb_true_r.
  destruct (isnum id); cbn [negb]; [|done]. by destruct id.
Qed.

Lemma prerelease_greater_witness : comparePrerelease (str "-alpha.1") (str "-alpha.1") = Ok Gt.
Proof.
  apply (proj2 prerelease_greater (str "alpha") (str ".1") (str "alpha.1")); [done|reflexivity|].
  right. exists (chr "."), (str "1"). split; reflexivity.
Defined.
