(* ===== verification/BucketSet.v ===== *)
(** * psibase: database handles

    [BucketSet.hpp] and [BucketSet.cpp] of [libraries/psibase/native], and the
    database ids and modes of [psibase/db.hpp].  A handle of a running service
    is an index of its bucket set; a bucket names a database, a key prefix and a
    mode, and a closed bucket has the mode [none] and is reused. *)

From S2P Require Import Prelude.

Inductive DbId :=
| db_service | db_writeOnly | db_native | db_blockLog | db_blockProof | db_prevAuthServices
| db_subjective | db_nativeSubjective | db_session | db_nativeSession | db_temporary.
#[export] Instance DbId_eq_dec : EqDecision DbId.
Proof. solve_decision. Defined.

(** The numbers of the enumeration, and [static_cast<DbId>] on a known one. *)
Definition DbId_code (db : DbId) : Z :=
  match db with
  | db_service => 0 | db_writeOnly => 1 | db_native => 2 | db_blockLog => 3 | db_blockProof => 4 | db_prevAuthServices => 5
  | db_subjective => 64 | db_nativeSubjective => 65 | db_session => 66 | db_nativeSession => 67 | db_temporary => 68
  end.
Definition DbId_of_code (n : Z) : option DbId :=
  find (fun db => DbId_code db =? n)
    [db_service; db_writeOnly; db_native; db_blockLog; db_blockProof; db_prevAuthServices;
     db_subjective; db_nativeSubjective; db_session; db_nativeSession; db_temporary].

(** [KvMode] is a number of two bits: 1 to read, 2 to write. *)
Abbreviation KvMode := Z (only parsing).
Definition mode_none : KvMode := 0.
Definition mode_read : KvMode := 1.
Definition mode_write : KvMode := 2.
Definition mode_readWrite : KvMode := 3.

Record Bucket := { b_db : DbId; b_prefix : bytes; b_mode : KvMode }.

Definition live (b : Bucket) : bool := negb (b_mode b =? mode_none).
Definition bucket_key (b : Bucket) (subkey : bytes) : bytes := b_prefix b ++ subkey.
Definition isRead (b : Bucket) : bool := (b_mode b =? mode_read) || (b_mode b =? mode_readWrite).
Definition isWrite (b : Bucket) : bool := (b_mode b =? mode_write) || (b_mode b =? mode_readWrite).
(** [trimResult] drops the prefix of a found key. *)
Definition trimResult (b : Bucket) (r : option (bytes * bytes)) : option (bytes * bytes) :=
  match r with Some (key, value) => Some (drop (length (b_prefix b)) key, value) | None => None end.

Abbreviation BucketSet := (list Bucket) (only parsing).

(** The loop of [open] from index [i] on: reuse a closed bucket. *)
Fixpoint open_loop (i : nat) (buckets : BucketSet) (new : Bucket) : option (nat * BucketSet) :=
  match buckets with
  | [] => None
  | b :: rest => if negb (live b) then Some (i, new :: rest)
                 else match open_loop (S i) rest new with Some (h, rest) => Some (h, b :: rest) | None => None end
  end.
Definition open (buckets : BucketSet) (db : DbId) (prefix : bytes) (mode : KvMode) (limit : Z) : result (Z * BucketSet) :=
  check (negb (mode =? mode_none)) "Invalid mode" ;;
  let new := {| b_db := db; b_prefix := prefix; b_mode := mode |} in
  match open_loop 0 buckets new with
  | Some (h, buckets) => mret (Z.of_nat h, buckets)
  | None => check (Z.of_nat (length buckets) <? limit) "Too many database handles" ;;
            mret (Z.of_nat (length buckets), buckets ++ [new])
  end.

(** The loop of [add]: [dest] are the buckets from [destIter], at index [i]. *)
Fixpoint add_loop (i : nat) (dest : BucketSet) (src : list Bucket) (limit : Z) : result (list Z * BucketSet) :=
  match src with
  | [] => Ok ([], dest)
  | s :: src' =>
      match dest with
      | [] =>
          check (Z.of_nat (length src) <=? u64 (limit - Z.of_nat i)) "Too many database handles" ;;
          mret (map Z.of_nat (seq i (length src)), src)
      | b :: dest =>
          if live b then '(hs, dest) ← add_loop (S i) dest src limit; mret (hs, b :: dest)
          else '(hs, dest) ← add_loop (S i) dest src' limit; mret (Z.of_nat i :: hs, s :: dest)
      end
  end.
Definition add (buckets : BucketSet) (src : list Bucket) (limit : Z) : result (list Z * BucketSet) :=
  add_loop 0 buckets src limit.

(** [operator\[\]] on an unsigned handle. *)
Definition bucket_at (buckets : BucketSet) (handle : Z) : result Bucket :=
  match buckets !! Z.to_nat handle with
  | Some b => check (negb (b_mode b =? mode_none)) "Invalid bucket" ;; mret b
  | None => Abort "Invalid bucket"
  end.
Definition close (buckets : BucketSet) (handle : Z) : result BucketSet :=
  match buckets !! Z.to_nat handle with
  | Some b => check (negb (b_mode b =? mode_none)) "Invalid bucket" ;;
              mret (<[Z.to_nat handle := {| b_db := b_db b; b_prefix := b_prefix b; b_mode := mode_none |}]> buckets)
  | None => Abort "Invalid bucket"
  end.

(** ** Handles as a finite map *)

(** The bucket of an open handle. *)
Definition handle (bs : BucketSet) (i : nat) : option Bucket :=
  match bs !! i with Some b => if live b then Some b else None | None => None end.
Definition open_count (bs : BucketSet) : nat := length (filter (fun b => live b = true) bs).

Lemma open_count_le bs : (open_count bs <= length bs)%nat.
Proof. apply length_filter. Qed.

Lemma open_count_cons b bs : open_count (b :: bs) = (if live b then S (open_count bs) else open_count bs).
Proof. unfold open_count. rewrite filter_cons. destruct (live b); [rewrite decide_True by done|rewrite decide_False by done]; done. Qed.

Lemma open_loop_spec bs new : forall i,
  match open_loop i bs new with
  | Some (h, bs') => exists k, h = (i + k)%nat /\ (k < length bs)%nat /\ handle bs k = None /\ bs' = <[k := new]> bs
  | None => open_count bs = length bs
  end.
Proof.
  induction bs as [|b bs IH]; intros i; cbn [open_loop]; [done|]. destruct (live b) eqn:El; cbn [negb].
  - specialize (IH (S i)). destruct (open_loop (S i) bs new) as [[h bs']|].
    + destruct IH as (k & -> & Hk & Hh & ->). exists (S k). split; [lia|]. split; [cbn; lia|]. done.
    + rewrite open_count_cons, El. cbn. lia.
  - exists 0%nat. split; [lia|]. split; [cbn; lia|]. split; [|done]. unfold handle. cbn. by rewrite El.
Qed.

Lemma handle_insert bs k b i :
  (k < length bs)%nat -> handle (<[k := b]> bs) i = if decide (i = k) then (if live b then Some b else None) else handle bs i.
Proof.
  intros Hk. unfold handle. destruct (decide (i = k)) as [->|Hne]; [by rewrite list_lookup_insert_eq|by rewrite list_lookup_insert_ne].
Qed.

Lemma handle_snoc bs b i :
  handle (bs ++ [b]) i = if decide (i = length bs) then (if live b then Some b else None) else handle bs i.
Proof.
  unfold handle. destruct (decide (i = length bs)) as [->|Hne]; [by rewrite lookup_app_r, Nat.sub_diag by lia|].
  destruct (decide (i < length bs)%nat); [by rewrite lookup_app_l|]. rewrite !lookup_ge_None_2; [done|lia|]. rewrite length_app. cbn. lia.
Qed.

(** The result of [add_loop]: fresh handles, in order, for the new buckets. *)
Definition added (i : nat) (bs : BucketSet) (src : list Bucket) (hs : list Z) (bs' : BucketSet) : Prop :=
  length hs = length src /\ NoDup hs /\
  (forall h, h ∈ hs -> Z.of_nat i <= h /\ handle bs (Z.to_nat h - i) = None) /\
  (forall k h s, hs !! k = Some h -> src !! k = Some s -> bs' !! (Z.to_nat h - i)%nat = Some s) /\
  (forall j, Z.of_nat (i + j) ∉ hs -> handle bs' j = handle bs j).

Lemma added_cons_live i b bs src hs bs' :
  live b = true -> added (S i) bs src hs bs' -> added i (b :: bs) src hs (b :: bs').
Proof.
  intros Hb (Hlen & Hnd & Hfresh & Hget & Hkeep). split_and!; [done|done| | |].
  - intros h Hh. destruct (Hfresh h Hh) as [H1 H2]. split; [lia|]. replace (Z.to_nat h - i)%nat with (S (Z.to_nat h - S i)) by lia. exact H2.
  - intros k h s Hk Hs. destruct (Hfresh h (list_elem_of_lookup_2 _ _ _ Hk)) as [H1 _].
    replace (Z.to_nat h - i)%nat with (S (Z.to_nat h - S i)) by lia. exact (Hget k h s Hk Hs).
  - intros [|j] Hj; [done|]. apply (Hkeep j). by replace (S i + j)%nat with (i + S j)%nat by lia.
Qed.

Lemma added_cons_free i b s bs src hs bs' :
  live b = false -> added (S i) bs src hs bs' -> added i (b :: bs) (s :: src) (Z.of_nat i :: hs) (s :: bs').
Proof.
  intros Hb (Hlen & Hnd & Hfresh & Hget & Hkeep).
  assert (Hi : Z.of_nat i ∉ hs) by (intros Hin; destruct (Hfresh _ Hin); lia).
  split_and!; [cbn; lia|by constructor| | |].
  - intros h Hh. apply elem_of_cons in Hh as [->|Hh]; [split; [lia|]; rewrite Nat2Z.id, Nat.sub_diag; unfold handle; cbn; by rewrite Hb|].
    destruct (Hfresh h Hh) as [H1 H2]. split; [lia|]. replace (Z.to_nat h - i)%nat with (S (Z.to_nat h - S i)) by lia. exact H2.
  - intros [|k] h x Hk Hs; cbn in Hk, Hs.
    + injection Hk as <-. injection Hs as <-. by rewrite Nat2Z.id, Nat.sub_diag.
    + destruct (Hfresh h (list_elem_of_lookup_2 _ _ _ Hk)) as [H1 _].
      replace (Z.to_nat h - i)%nat with (S (Z.to_nat h - S i)) by lia. exact (Hget k h x Hk Hs).
  - intros [|j] Hj; [rewrite Nat.add_0_r in Hj; exfalso; apply Hj; left|]. apply (Hkeep j).
    intros Hin. apply Hj. right. by replace (i + S j)%nat with (S i + j)%nat by lia.
Qed.

Lemma added_end i src : added i [] src (map Z.of_nat (seq i (length src))) src.
Proof.
  split_and!.
  - by rewrite length_map, length_seq.
  - apply NoDup_fmap_2; [intros ? ? ?; lia|]. apply NoDup_ListNoDup, seq_NoDup.
  - intros h Hh. apply list_elem_of_In, in_map_iff in Hh as (k & <- & Hk). apply in_seq in Hk. split; [lia|done].
  - intros k h s Hk Hs. apply list_lookup_fmap_Some in Hk as (n & -> & Hn). apply lookup_seq in Hn as [-> _].
    by replace (Z.to_nat (Z.of_nat (i + k)) - i)%nat with k by lia.
  - intros j Hj. unfold handle. destruct (src !! j) eqn:E; [|done]. exfalso. apply Hj. apply lookup_lt_Some in E.
    apply list_elem_of_In, in_map_iff. exists (i + j)%nat. split; [done|]. apply in_seq. lia.
Qed.

Lemma added_nil i bs : added i bs [] [] bs.
Proof. split_and!; [done|constructor| |done|done]. intros h Hh. by apply elem_of_nil in Hh. Qed.

Lemma add_loop_spec limit dest : forall i src,
  Z.of_nat (i + length dest) <= limit -> limit < 2 ^ 64 ->
  match add_loop i dest src limit with
  | Ok (hs, bs') => added i dest src hs bs' /\ Z.of_nat (i + length bs') <= limit /\
      Z.of_nat (i + open_count dest + length src) <= limit
  | Abort _ => limit < Z.of_nat (i + open_count dest + length src)
  end.
Proof.
  induction dest as [|b dest IH]; intros i [|s src] Hlen Hl; cbn [add_loop].
  - split; [apply added_nil|]. cbn in *. lia.
  - unfold check. rewrite wrap_small by (cbn in Hlen; lia). cbn in Hlen.
    destruct (Z.of_nat (length (s :: src)) <=? limit - Z.of_nat i) eqn:E; zbool; cbn [mbind result_bind mret result_ret].
    + split; [apply added_end|]. cbn in *. lia.
    + cbn in *. lia.
  - split; [apply added_nil|]. pose proof (open_count_le (b :: dest)). cbn [length] in *. lia.
  - rewrite open_count_cons. cbn [length] in *. destruct (live b) eqn:Eb.
    + specialize (IH (S i) (s :: src) ltac:(lia) Hl). destruct (add_loop (S i) dest (s :: src) limit) as [[hs bs']|]; cbn [mbind result_bind mret result_ret].
      * destruct IH as (IH & H1 & H2). split; [by apply added_cons_live|]. cbn [length] in *. lia.
      * cbn [length] in *. lia.
    + specialize (IH (S i) src ltac:(lia) Hl). destruct (add_loop (S i) dest src limit) as [[hs bs']|]; cbn [mbind result_bind mret result_ret].
      * destruct IH as (IH & H1 & H2). split; [by apply added_cons_free|]. cbn [length] in *. lia.
      * cbn [length] in *. lia.
Qed.

(** Where the open handles come from. *)
Lemma open_handles bs db prefix mode limit h bs' :
  open bs db prefix mode limit = Ok (h, bs') ->
  forall i b, handle bs' i = Some b -> b = {| b_db := db; b_prefix := prefix; b_mode := mode |} \/ handle bs i = Some b.
Proof.
  unfold open, check. destruct (negb _); [|done]. cbn [mbind result_bind]. set (new := {| b_db := db; b_prefix := prefix; b_mode := mode |}).
  pose proof (open_loop_spec bs new 0) as H. destruct (open_loop 0 bs new) as [[k bs1]|]; cbn.
  - destruct H as (j & -> & Hj & _ & ->). intros [= <- <-] i b. rewrite handle_insert by done.
    case_decide; [|by right]. destruct (live new); [intros [= <-]; by left|done].
  - destruct (_ <? _); [|done]. intros [= <- <-] i b. rewrite handle_snoc. case_decide; [|by right]. destruct (live new); [intros [= <-]; by left|done].
Qed.

Lemma add_handles limit bs : forall i src hs bs', add_loop i bs src limit = Ok (hs, bs') ->
  forall j b, handle bs' j = Some b -> b ∈ src \/ handle bs j = Some b.
Proof.
  induction bs as [|b0 bs IH]; intros i [|s src] hs bs' E j b Hb; cbn [add_loop] in E.
  - injection E as <- <-. by right.
  - unfold check in E. destruct (_ <=? _); [|done]. injection E as <- <-. left. unfold handle in Hb.
    destruct ((s :: src) !! j) as [x|] eqn:Ex; [|done]. destruct (live x); [|done]. injection Hb as ->. by eapply list_elem_of_lookup_2.
  - injection E as <- <-. by right.
  - destruct (live b0) eqn:El.
    + destruct (add_loop (S i) bs (s :: src) limit) as [[hs1 bs1]|] eqn:E1; [|done]. injection E as <- <-.
      destruct j as [|j]; [by right|]. exact (IH _ _ _ _ E1 j b Hb).
    + destruct (add_loop (S i) bs src limit) as [[hs1 bs1]|] eqn:E1; [|done]. injection E as <- <-. destruct j as [|j].
      * left. unfold handle in Hb. cbn in Hb. destruct (live s); [|done]. injection Hb as ->. left.
      * destruct (IH _ _ _ _ E1 j b Hb) as [Hin|Hh]; [left; by right|by right].
Qed.

Lemma close_handles bs h bs' : close bs h = Ok bs' -> forall i b, handle bs' i = Some b -> handle bs i = Some b.
Proof.
  unfold close, check. destruct (bs !! Z.to_nat h) as [b0|] eqn:E; [|done]. destruct (negb _); [|done]. intros [= <-] i b.
  rewrite handle_insert by (by eapply lookup_lt_Some). case_decide; done.
Qed.

(** Handles are a finite map with at most [limit] entries: [open] and [add] give
    new handles for exactly the given buckets and fail exactly when there would
    be too many (closed handles are reused), [close] removes one, [operator[]]
    looks one up, and no operation changes another handle. *)
Theorem handles_refine bs limit :
  Z.of_nat (length bs) <= limit < 2 ^ 32 ->
  (forall db prefix mode, match open bs db prefix mode limit with
   | Ok (h, bs') => mode <> mode_none /\ handle bs (Z.to_nat h) = None /\ Z.of_nat (length bs') <= limit /\
       forall i, handle bs' i = if decide (Z.of_nat i = h) then Some {| b_db := db; b_prefix := prefix; b_mode := mode |} else handle bs i
   | Abort _ => mode = mode_none \/ Z.of_nat (open_count bs) = limit
   end) /\
  (forall src, match add bs src limit with
   | Ok (hs, bs') => length hs = length src /\ NoDup hs /\ Z.of_nat (length bs') <= limit /\
       (forall h, h ∈ hs -> handle bs (Z.to_nat h) = None) /\
       (forall k h b, hs !! k = Some h -> src !! k = Some b -> handle bs' (Z.to_nat h) = if live b then Some b else None) /\
       (forall i, Z.of_nat i ∉ hs -> handle bs' i = handle bs i)
   | Abort _ => limit < Z.of_nat (open_count bs + length src)
   end) /\
  (forall h, match bucket_at bs h, close bs h with
   | Ok b, Ok bs' => handle bs (Z.to_nat h) = Some b /\ Z.of_nat (length bs') <= limit /\
       forall i, handle bs' i = if decide (i = Z.to_nat h) then None else handle bs i
   | Abort _, Abort _ => handle bs (Z.to_nat h) = None
   | _, _ => False
   end).
Proof.
  intros Hl. split; [|split].
  - intros db prefix mode. unfold open, check. destruct (negb (mode =? mode_none)) eqn:Em; [|left; zbool; done]. zbool. cbn [mbind result_bind].
    set (new := {| b_db := db; b_prefix := prefix; b_mode := mode |}).
    assert (Hnew : live new = true) by (unfold live; cbn; by rewrite (proj2 (Z.eqb_neq _ _))).
    pose proof (open_loop_spec bs new 0) as H. destruct (open_loop 0 bs new) as [[h bs']|]; cbn [mbind result_bind mret result_ret].
    + destruct H as (k & -> & Hk & Hh & ->). rewrite Nat2Z.id. split_and!; [done|done|rewrite length_insert; lia|].
      intros i. rewrite handle_insert, Hnew by done. cbn. destruct (decide (i = k)), (decide (Z.of_nat i = Z.of_nat k)); (done || lia).
    + destruct (Z.of_nat (length bs) <? limit) eqn:El; zbool; cbn [mbind result_bind mret result_ret]; [|right; lia].
      rewrite Nat2Z.id. split_and!; [done|by unfold handle; rewrite lookup_ge_None_2|rewrite length_app; cbn; lia|].
      intros i. rewrite handle_snoc, Hnew. destruct (decide (i = length bs)), (decide (Z.of_nat i = Z.of_nat (length bs))); (done || lia).
  - intros src. unfold add. pose proof (add_loop_spec limit bs 0 src ltac:(lia) ltac:(lia)) as H.
    destruct (add_loop 0 bs src limit) as [[hs bs']|]; [|exact H]. destruct H as ((H1 & H2 & H3 & H4 & H5) & H6 & _).
    split_and!; [done|done|lia| | |exact H5].
    + intros h Hh. destruct (H3 h Hh) as [_ E]. by rewrite Nat.sub_0_r in E.
    + intros k h b Hk Hb. specialize (H4 k h b Hk Hb). rewrite Nat.sub_0_r in H4. unfold handle. by rewrite H4.
  - intros h. unfold bucket_at, close, check, handle at 1 4. destruct (bs !! Z.to_nat h) as [b|] eqn:E; [|done]. unfold live.
    destruct (negb (b_mode b =? mode_none)) eqn:Em; cbn [mbind result_bind mret result_ret]; [|done].
    split; [done|]. split; [rewrite length_insert; lia|]. intros i. rewrite handle_insert by (by eapply lookup_lt_Some). done.
Qed.

Lemma handles_refine_witness :
  let bs := [{| b_db := db_service; b_prefix := [1]; b_mode := mode_none |}; {| b_db := db_native; b_prefix := []; b_mode := mode_read |}] in
  is_ok (open bs db_service [2] mode_write 2) = true /\
  match open bs db_service [2] mode_write 2 with Ok (h, _) => handle bs (Z.to_nat h) = None | Abort _ => True end.
Proof.
  intros bs. split; [reflexivity|].
  pose proof (proj1 (handles_refine bs 2 ltac:(split; [discriminate|reflexivity])) db_service [2] mode_write) as H.
  destruct (open bs db_service [2] mode_write 2) as [[h bs']|]; [apply H|exact I].
Defined.
