(* ===== verification/Database.v ===== *)
(** * psibase: the database behind the handles

    The key-value operations of [Database] ([useTriedent.cpp]) over a session of
    the triedent library, whose operations are an interface here: [Storage] has
    the operations, [StorageLaws] the documented behaviour of an ordered map of
    byte strings, and finite maps are an instance. *)

From S2P Require Import Prelude.

Class Storage (St : Type) := {
  st_get : St -> bytes -> option bytes;
  st_upsert : St -> bytes -> bytes -> St;
  st_remove : St -> bytes -> St;
  st_greater_equal : St -> bytes -> option (bytes * bytes);
  st_less_than : St -> bytes -> option (bytes * bytes);
  st_max : St -> bytes -> option (bytes * bytes)
}.

(** The order of keys. *)
Definition lle (a b : bytes) : bool := match lex_compare a b with Gt => false | _ => true end.

(** [found P best]: [best] is the entry of [s] with the first key that satisfies
    [P], in the order [before]. *)
Definition found `{Storage St} (s : St) (P : bytes -> bool) (before : bytes -> bytes -> bool) (r : option (bytes * bytes)) : Prop :=
  match r with
  | Some (k, v) => st_get s k = Some v /\ P k = true /\ forall k', is_Some (st_get s k') -> P k' = true -> before k k' = true
  | None => forall k', is_Some (st_get s k') -> P k' = false
  end.

Definition has_prefix (p k : bytes) : bool := bool_decide (take (length p) k = p).

Class StorageLaws (St : Type) `{Storage St} := {
  get_upsert s k v k' : st_get (st_upsert s k v) k' = if decide (k' = k) then Some v else st_get s k';
  get_remove s k k' : st_get (st_remove s k) k' = if decide (k' = k) then None else st_get s k';
  greater_equal_found s k : found s (fun k' => lle k k') lle (st_greater_equal s k);
  less_than_found s k : found s (fun k' => negb (lle k k')) (fun a b => lle b a) (st_less_than s k);
  max_found s p : found s (has_prefix p) (fun a b => lle b a) (st_max s p)
}.

(** ** The operations of [Database] *)

Section database.
Context `{Storage St}.

Definition kvPutRaw (s : St) (key value : bytes) : St := st_upsert s key value.
Definition kvRemoveRaw (s : St) (key : bytes) : St := st_remove s key.
Definition kvGetRaw (s : St) (key : bytes) : option bytes := st_get s key.

(** The found key is kept when its first [matchKeySize] bytes are those of [key]. *)
Definition matched (r : option (bytes * bytes)) (key : bytes) (matchKeySize : nat) : option (bytes * bytes) :=
  match r with
  | Some (k, v) => if (length k <? matchKeySize)%nat || negb (bool_decide (take matchKeySize k = take matchKeySize key)) then None else Some (k, v)
  | None => None
  end.
Definition kvGreaterEqualRaw (s : St) (key : bytes) (matchKeySize : nat) : option (bytes * bytes) := matched (st_greater_equal s key) key matchKeySize.
Definition kvLessThanRaw (s : St) (key : bytes) (matchKeySize : nat) : option (bytes * bytes) := matched (st_less_than s key) key matchKeySize.
Definition kvMaxRaw (s : St) (key : bytes) : option (bytes * bytes) := st_max s key.
End database.

(** ** The order of keys *)

Lemma lle_refl a : lle a a = true.
Proof. unfold lle. by rewrite lex_compare_refl. Qed.
Lemma lle_spec a b : lle a b = true <-> lex_compare a b <> Gt.
Proof. unfold lle. destruct (lex_compare a b); split; (done || congruence). Qed.
Lemma lle_trans a b c : lle a b = true -> lle b c = true -> lle a c = true.
Proof. rewrite !lle_spec. apply lex_compare_le_trans. Qed.
Lemma lle_total a b : lle a b = true \/ lle b a = true.
Proof. rewrite !lle_spec, (lex_compare_antisym a b). destruct (lex_compare a b); cbn; [by left..|by right]. Qed.
Lemma lle_antisym a b : lle a b = true -> lle b a = true -> a = b.
Proof. rewrite !lle_spec, (lex_compare_antisym a b). destruct (lex_compare a b) eqn:E; cbn; try done. intros. by apply lex_compare_eq. Qed.
Lemma lle_app p a b : lle (p ++ a) (p ++ b) = lle a b.
Proof. unfold lle. by rewrite lex_compare_app. Qed.
Lemma lle_not a b : lle a b = false -> lle b a = true.
Proof. intros H. destruct (lle_total a b); congruence. Qed.

(** Keys between two keys with a common prefix have it. *)
Lemma lle_between p a b k : lle (p ++ a) k = true -> lle k (p ++ b) = true -> exists c, k = p ++ c.
Proof.
  unfold lle. revert k. induction p as [|x p IH]; intros k H1 H2; [by exists k|]. destruct k as [|y k]; cbn in H1, H2; [done|].
  rewrite (Z.compare_antisym x y) in H2. destruct (Z.compare_spec x y) as [->|Hlt|Hgt]; cbn in H1, H2; try done.
  destruct (IH k H1 H2) as [c ->]. by exists c.
Qed.

Lemma has_prefix_app p k : has_prefix p k = true <-> exists c, k = p ++ c.
Proof.
  unfold has_prefix. rewrite bool_decide_eq_true. split.
  - intros E. exists (drop (length p) k). by rewrite <- E at 1; rewrite take_drop.
  - intros [c ->]. by rewrite take_app_length.
Qed.

(** ** Finite maps are a storage *)

(** The entry that is before all others. *)
Fixpoint pick (before : bytes -> bytes -> bool) (l : list (bytes * bytes)) : option (bytes * bytes) :=
  match l with
  | [] => None
  | e :: l => match pick before l with Some e' => Some (if before e.1 e'.1 then e else e') | None => Some e end
  end.
Definition pick_where (P : bytes -> bool) (before : bytes -> bytes -> bool) (m : gmap bytes bytes) : option (bytes * bytes) :=
  pick before (List.filter (fun e => P e.1) (map_to_list m)).

#[export] Instance gmap_storage : Storage (gmap bytes bytes) := {
  st_get m k := m !! k;
  st_upsert m k v := <[k := v]> m;
  st_remove m k := delete k m;
  st_greater_equal m k := pick_where (fun k' => lle k k') lle m;
  st_less_than m k := pick_where (fun k' => negb (lle k k')) (fun a b => lle b a) m;
  st_max m p := pick_where (has_prefix p) (fun a b => lle b a) m
}.

Lemma pick_best (before : bytes -> bytes -> bool) l :
  (forall a b, before a b = true \/ before b a = true) -> (forall a b c, before a b = true -> before b c = true -> before a c = true) ->
  match pick before l with Some e => e ∈ l /\ forall e', e' ∈ l -> before e.1 e'.1 = true | None => l = [] end.
Proof.
  intros Htot Htr. induction l as [|e l IH]; [done|]. cbn [pick]. destruct (pick before l) as [e'|].
  - destruct IH as [Hin Hbest]. destruct (before e.1 e'.1) eqn:E.
    + split; [left|]. intros x Hx. apply elem_of_cons in Hx as [->|Hx]; [by destruct (Htot e.1 e.1)|]. eapply Htr; [exact E|by apply Hbest].
    + split; [by right|]. intros x Hx. apply elem_of_cons in Hx as [->|Hx]; [|by apply Hbest]. by destruct (Htot e.1 e'.1); [congruence|].
  - subst l. split; [left|]. intros x Hx. apply elem_of_cons in Hx as [->|Hx]; [by destruct (Htot e.1 e.1)|by apply elem_of_nil in Hx].
Qed.

Lemma pick_where_found (P : bytes -> bool) (before : bytes -> bytes -> bool) (m : gmap bytes bytes) :
  (forall a b, before a b = true \/ before b a = true) -> (forall a b c, before a b = true -> before b c = true -> before a c = true) ->
  found m P before (pick_where P before m).
Proof.
  intros Htot Htr. unfold pick_where. set (l := List.filter _ _).
  assert (Hl : forall k v, (k, v) ∈ l <-> m !! k = Some v /\ P k = true).
  { intros k v. unfold l. rewrite list_elem_of_In, filter_In, <- list_elem_of_In, elem_of_map_to_list. done. }
  pose proof (pick_best before l Htot Htr) as H. destruct (pick before l) as [[k v]|].
  - destruct H as [Hin Hbest]. apply Hl in Hin as [Hk HP]. split; [done|]. split; [done|]. intros k' [v' Hk'] HP'.
    apply (Hbest (k', v')), Hl. done.
  - intros k' [v' Hk']. destruct (P k') eqn:E; [|done]. exfalso. assert (Hin : (k', v') ∈ l) by by apply Hl.
    rewrite H in Hin. by apply elem_of_nil in Hin.
Qed.

#[export] Instance gmap_storage_laws : StorageLaws (gmap bytes bytes).
Proof.
  assert (Hge : forall a b, lle b a = true \/ lle a b = true) by (intros; apply lle_total).
  assert (Htr : forall a b c, lle b a = true -> lle c b = true -> lle c a = true) by eauto using lle_trans.
  split; cbn.
  - intros. destruct (decide (k' = k)) as [->|]; [apply lookup_insert_eq|by rewrite lookup_insert_ne].
  - intros. destruct (decide (k' = k)) as [->|]; [apply lookup_delete_eq|by rewrite lookup_delete_ne].
  - intros. apply pick_where_found; [apply lle_total|apply lle_trans].
  - intros. by apply pick_where_found.
  - intros. by apply pick_where_found.
Qed.
