(* ===== verification/NativeKv.v ===== *)
(** * psibase: the database functions that services call

    The database imports of [NativeFunctions.cpp]: opening handles, passing them
    to another service, reading, writing and the resource accounting of writes.
    The state of one running service is [native]; the databases are storages
    ([Database]).  What a write does outside of this code is a parameter: the
    call of [Transact::kvNotify] ([notify]) and the validation of the packed rows
    of the native tables ([RowChecks]); packing a list of handles for the result
    buffer is one too. *)

From S2P Require Import Prelude BucketSet Database.

Definition isPrivileged : Z := Z.shiftl 1 0.
Definition isLocal : Z := Z.shiftl 1 63.

Record DbMode := { isSubjective : bool; isSync : bool; sockets : bool; verifyOnly : bool }.
Definition mode_transaction : DbMode := {| isSubjective := false; isSync := true; sockets := true; verifyOnly := false |}.
Definition mode_verify : DbMode := {| isSubjective := false; isSync := false; sockets := false; verifyOnly := true |}.
Definition mode_callback : DbMode := {| isSubjective := true; isSync := true; sockets := true; verifyOnly := false |}.
Definition mode_rpc : DbMode := {| isSubjective := true; isSync := false; sockets := true; verifyOnly := false |}.

(** The running service and the limits of the chain. *)
Record NativeContext := { codeNum : Z; flags : Z; dbMode : DbMode; maxKeySize : Z; maxValueSize : Z; maxHandles : Z }.

(** ** Resource deltas *)

Record KvResourceKey := { r_service : Z; r_db : Z }.
#[export] Instance KvResourceKey_eq_dec : EqDecision KvResourceKey.
Proof. solve_decision. Defined.
Definition resource_compare (a b : KvResourceKey) : comparison :=
  then_compare (r_service a ?= r_service b) (r_db a ?= r_db b).
Record KvResourceDelta := { records : Z; keyBytes : Z; valueBytes : Z }.
Definition no_delta : KvResourceDelta := {| records := 0; keyBytes := 0; valueBytes := 0 |}.
Definition i64 (z : Z) : Z := to_signed 64 (u64 z).
Definition add_to_delta (d : KvResourceDelta) (r k v : Z) : KvResourceDelta :=
  {| records := i64 (records d + r); keyBytes := i64 (keyBytes d + k); valueBytes := i64 (valueBytes d + v) |}.

Abbreviation KvResourceMap := (list (KvResourceKey * KvResourceDelta)).

(** [std::ranges::lower_bound]: the first entry whose key is not less. *)
Fixpoint lower_bound (deltas : KvResourceMap) (key : KvResourceKey) : nat :=
  match deltas with
  | [] => 0
  | e :: deltas => match resource_compare e.1 key with Lt => S (lower_bound deltas key) | _ => 0 end
  end.
(** The map, with a new entry if there is none at or after [key], and the
    position of the entry that [getDelta] returns. *)
Definition getDelta (deltas : KvResourceMap) (key : KvResourceKey) : KvResourceMap * nat :=
  let pos := lower_bound deltas key in
  if (pos =? length deltas)%nat then (deltas ++ [(key, no_delta)], pos) else (deltas, pos).
Definition charge (deltas : KvResourceMap) (key : KvResourceKey) (r k v : Z) : KvResourceMap :=
  let '(deltas, pos) := getDelta deltas key in
  alter (fun e => (e.1, add_to_delta e.2 r k v)) pos deltas.

(** ** The accounting of resources *)

(** The delta of a key. *)
Definition delta_of (deltas : KvResourceMap) (key : KvResourceKey) : option KvResourceDelta :=
  snd <$> find (fun e => bool_decide (e.1 = key)) deltas.

Lemma resource_compare_refl a : resource_compare a a = Eq.
Proof. unfold resource_compare. by rewrite !Z.compare_refl. Qed.
Lemma resource_compare_eq a b : resource_compare a b = Eq -> a = b.
Proof.
  unfold resource_compare. destruct a as [s d], b as [s' d']. cbn. destruct (Z.compare_spec s s'); cbn; try done.
  intros E. apply Z.compare_eq in E. by subst.
Qed.
Lemma resource_compare_trans a b c : resource_compare a b = Lt -> resource_compare b c = Lt -> resource_compare a c = Lt.
Proof.
  unfold resource_compare. destruct a as [s d], b as [s' d'], c as [s'' d'']. cbn.
  destruct (Z.compare_spec s s'), (Z.compare_spec s' s''), (Z.compare_spec s s''); cbn; try done; try lia.
  rewrite !Z.compare_lt_iff. lia.
Qed.

(** Strictly increasing keys. *)
Abbreviation increasing_keys := (StronglySorted (fun a b : KvResourceKey * KvResourceDelta => resource_compare a.1 b.1 = Lt)).

(** Where the charge of a key goes: to the entry at this position. *)
Lemma lower_bound_split deltas key :
  exists l r, deltas = l ++ r /\ length l = lower_bound deltas key /\
    Forall (fun e => resource_compare e.1 key = Lt) l /\ match r with [] => True | e :: _ => resource_compare e.1 key <> Lt end.
Proof.
  induction deltas as [|e deltas (l & r & -> & Hl & Hf & Hr)]; [by exists [], []|]. cbn [lower_bound].
  destruct (resource_compare e.1 key) eqn:E.
  1, 3: exists [], (e :: l ++ r); split_and!; [done|done|done|congruence].
  exists (e :: l), r. split_and!; [done|cbn; lia|by constructor|done].
Qed.

Lemma find_skip l r key :
  Forall (fun e => resource_compare e.1 key = Lt) l -> delta_of (l ++ r) key = delta_of r key.
Proof.
  induction 1 as [|e l He Hl IH]; [done|]. unfold delta_of in *. cbn. rewrite bool_decide_false; [exact IH|].
  intros E. rewrite E, resource_compare_refl in He. done.
Qed.

Lemma delta_of_app l r key : delta_of (l ++ r) key = match delta_of l key with Some d => Some d | None => delta_of r key end.
Proof. unfold delta_of. induction l as [|e l IH]; cbn; [done|]. by case_bool_decide. Qed.

Lemma sorted_absent e r key : increasing_keys (e :: r) -> resource_compare e.1 key = Gt -> delta_of (e :: r) key = None.
Proof.
  intros Hs He. apply StronglySorted_inv in Hs as [_ Hf]. unfold delta_of. cbn. rewrite bool_decide_false.
  2:{ intros E. by rewrite E, resource_compare_refl in He. }
  induction Hf as [|x r Hx Hf IH]; [done|]. cbn. rewrite bool_decide_false; [exact IH|]. intros <-. congruence.
Qed.

Lemma alter_at {A} (f : A -> A) (l r : list A) e : alter f (length l) (l ++ e :: r) = l ++ f e :: r.
Proof. induction l as [|x l IH]; [done|]. cbn. by rewrite IH. Qed.

Lemma i64_add a b : i64 (i64 a + b) = i64 (a + b).
Proof.
  unfold i64. f_equal. unfold wrap. assert (E : exists q, to_signed 64 (a mod 2 ^ 64) = a + q * 2 ^ 64).
  { unfold to_signed. pose proof (Z.div_mod a (2 ^ 64) ltac:(lia)). destruct (_ <? _); [exists (- (a / 2 ^ 64))|exists (- (a / 2 ^ 64) - 1)]; lia. }
  destruct E as [q ->]. replace (a + q * 2 ^ 64 + b) with (a + b + q * 2 ^ 64) by lia. apply Z.mod_add. lia.
Qed.

(** Two charges of the same key in a row. *)
Lemma charge_charge deltas key r k v r' k' v' :
  charge (charge deltas key r k v) key r' k' v' = charge deltas key (r + r') (k + k') (v + v').
Proof.
  unfold charge at 2 3. unfold getDelta. destruct (lower_bound_split deltas key) as (l & s & -> & Hl & Hf & Hr). rewrite <- Hl.
  assert (Hlb : forall e s', resource_compare e.1 key <> Lt -> lower_bound (l ++ e :: s') key = length l).
  { intros e s' He. clear -Hf He. induction Hf as [|x l Hx Hf IH]; cbn; [by destruct (resource_compare e.1 key)|]. by rewrite Hx, IH. }
  assert (Hend : forall e s', resource_compare e.1 key <> Lt ->
    charge (l ++ (e.1, add_to_delta e.2 r k v) :: s') key r' k' v' = l ++ (e.1, add_to_delta e.2 (r + r') (k + k') (v + v')) :: s').
  { intros e s' He. unfold charge, getDelta. rewrite Hlb by done. rewrite (proj2 (Nat.eqb_neq _ _)) by (rewrite length_app; cbn; lia).
    rewrite alter_at. cbn [fst snd]. do 3 f_equal. unfold add_to_delta. cbn. rewrite !i64_add. f_equal; f_equal; lia. }
  destruct s as [|e s].
  - rewrite app_nil_r, Nat.eqb_refl, !alter_at. apply (Hend (key, no_delta) []). cbn. by rewrite resource_compare_refl.
  - rewrite (proj2 (Nat.eqb_neq _ _)) by (rewrite length_app; cbn; lia). rewrite !alter_at. by apply Hend.
Qed.

(** The charge of a key goes to its own entry only when it has one, or when it
    is greater than every key charged before: otherwise the first entry with a
    greater key, of another service or database, is charged in its place. *)
Theorem resource_attribution deltas key r k v :
  increasing_keys deltas ->
  increasing_keys (charge deltas key r k v) /\
  exists charged, (forall x, delta_of (charge deltas key r k v) x =
      if decide (x = charged) then Some (add_to_delta (default no_delta (delta_of deltas charged)) r k v) else delta_of deltas x) /\
    (charged = key <-> is_Some (delta_of deltas key) \/ Forall (fun e => resource_compare e.1 key = Lt) deltas).
Proof.
  intros Hs. unfold charge, getDelta. destruct (lower_bound_split deltas key) as (l & s & -> & Hl & Hf & Hr). rewrite <- Hl.
  assert (Hkey : forall (e : KvResourceKey * KvResourceDelta) s x, delta_of (e :: s) x = if decide (e.1 = x) then Some e.2 else delta_of s x).
  { intros e s0 x. unfold delta_of. cbn. by case_bool_decide; case_decide. }
  destruct s as [|e s].
  - rewrite app_nil_r, Nat.eqb_refl, alter_at in *. cbn [fst snd]. split.
    + clear -Hs Hf. induction l as [|x l IH]; [by repeat constructor|]. apply StronglySorted_inv in Hs as [Hs Hx]. inversion_clear Hf.
      cbn. constructor; [by apply IH|]. apply Forall_app. split; [done|]. by repeat constructor.
    + exists key. split; [|split; [by right|done]]. intros x. rewrite delta_of_app, Hkey. cbn [fst snd].
      pose proof (find_skip l [] key Hf) as E. rewrite app_nil_r in E. destruct (decide (x = key)) as [->|Hne].
      * rewrite E. by rewrite decide_True by done.
      * rewrite decide_False by congruence. by destruct (delta_of l x).
  - rewrite length_app. cbn [length]. rewrite (proj2 (Nat.eqb_neq _ _)) by lia. rewrite alter_at. split.
    + clear -Hs. induction l as [|x l IH]; cbn in *; apply StronglySorted_inv in Hs as [Hs Hx]; constructor; [done|done|by apply IH|].
      apply Forall_app in Hx as [Hx1 Hx2]. inversion_clear Hx2. apply Forall_app. split; [done|]. by constructor.
    + exists e.1. assert (Hle : delta_of l e.1 = None).
      { clear -Hs. induction l as [|x l IH]; [done|]. cbn in Hs. apply StronglySorted_inv in Hs as [Hs Hx]. unfold delta_of in *. cbn.
        rewrite bool_decide_false; [by apply IH|]. intros E. apply Forall_app in Hx as [_ Hx]. inversion_clear Hx. by rewrite E, resource_compare_refl in *. }
      split.
      * intros x. rewrite !delta_of_app, !Hkey, Hle. cbn [fst snd]. destruct (decide (x = e.1)) as [->|Hne].
        -- rewrite Hle. by rewrite !decide_True by done.
        -- by rewrite !decide_False by congruence.
      * rewrite find_skip by done. split.
        -- intros <-. left. rewrite Hkey, decide_True by done. by eexists.
        -- intros [[d Hd]|Hall].
           ++ destruct (resource_compare e.1 key) eqn:Ec; [by apply resource_compare_eq|done|].
              rewrite sorted_absent in Hd; [done| |done]. clear -Hs. induction l as [|x l IH]; [done|]. cbn in Hs. apply StronglySorted_inv in Hs as [Hs _]. by apply IH.
           ++ apply Forall_app in Hall as [_ Hall]. inversion_clear Hall. done.
Qed.

Lemma resource_attribution_witness :
  let deltas := [({| r_service := 5; r_db := 0 |}, no_delta)] in
  increasing_keys (charge deltas {| r_service := 3; r_db := 0 |} 1 10 20) /\
  charge deltas {| r_service := 3; r_db := 0 |} 1 10 20 = [({| r_service := 5; r_db := 0 |}, {| records := 1; keyBytes := 10; valueBytes := 20 |})].
Proof.
  intros deltas. split; [|reflexivity].
  exact (proj1 (resource_attribution deltas {| r_service := 3; r_db := 0 |} 1 10 20 ltac:(repeat constructor))).
Defined.

Section native.
Context {St : Type} `{Storage St}.

Record native := {
  dbs : DbId -> St;
  buckets : BucketSet;
  result_key : bytes;
  result_value : bytes;
  kvResourceDeltas : KvResourceMap;
  importedHandles : list Bucket;
  exportedHandles : list Bucket
}.

Definition set_dbs (d : DbId -> St) (n : native) : native :=
  {| dbs := d; buckets := buckets n; result_key := result_key n; result_value := result_value n;
     kvResourceDeltas := kvResourceDeltas n; importedHandles := importedHandles n; exportedHandles := exportedHandles n |}.
Definition set_buckets (b : BucketSet) (n : native) : native :=
  {| dbs := dbs n; buckets := b; result_key := result_key n; result_value := result_value n;
     kvResourceDeltas := kvResourceDeltas n; importedHandles := importedHandles n; exportedHandles := exportedHandles n |}.
Definition set_result (k v : bytes) (n : native) : native :=
  {| dbs := dbs n; buckets := buckets n; result_key := k; result_value := v;
     kvResourceDeltas := kvResourceDeltas n; importedHandles := importedHandles n; exportedHandles := exportedHandles n |}.
Definition set_deltas (d : KvResourceMap) (n : native) : native :=
  {| dbs := dbs n; buckets := buckets n; result_key := result_key n; result_value := result_value n;
     kvResourceDeltas := d; importedHandles := importedHandles n; exportedHandles := exportedHandles n |}.
Definition set_passed (imported exported : list Bucket) (n : native) : native :=
  {| dbs := dbs n; buckets := buckets n; result_key := result_key n; result_value := result_value n;
     kvResourceDeltas := kvResourceDeltas n; importedHandles := imported; exportedHandles := exported |}.

Definition set_db (db : DbId) (s : St) (d : DbId -> St) : DbId -> St := fun x => if decide (x = db) then s else d x.

(** The arguments of [kvNotify]. *)
Record Mutation := { m_service : Z; m_db : DbId; m_keyLen : Z; m_oldValueLen : Z; m_newValueLen : Z }.

(** The checks of the rows of the native tables. *)
Class RowChecks := {
  verifyWriteConstrained : bytes -> bytes -> option bytes -> result unit;
  verifyRemoveConstrained : bytes -> bytes -> result unit;
  verifyWriteSubjective : bytes -> bytes -> result unit;
  verifyWriteSession : bytes -> bytes -> result unit
}.

Context (ctx : NativeContext) (pack_handles : list Z -> bytes) `{RowChecks} (notify : Mutation -> native -> result native).

(** ** Results *)

Definition u32_size (l : bytes) : Z := u32 (Z.of_nat (length l)).
Definition clearResult (n : native) : Z * native := (u32 (-1), set_result [] [] n).
Definition setResult (n : native) (r : option bytes) : Z * native :=
  match r with Some v => (u32_size v, set_result [] v n) | None => clearResult n end.
Definition setResult_kv (n : native) (r : option (bytes * bytes)) : Z * native :=
  match r with Some (k, v) => (u32_size v, set_result k v n) | None => clearResult n end.

(** The bytes copied to a destination of the given size, and the returned size. *)
Definition getResult (n : native) (size offset : nat) : bytes * Z :=
  (take (Nat.min (length (result_value n) - offset) size) (drop offset (result_value n)), u32_size (result_value n)).
Definition getKey (n : native) (size : nat) : bytes * Z :=
  (take (Nat.min (length (result_key n)) size) (result_key n), u32_size (result_key n)).

(** ** Handles *)

Definition has_flag (f : Z) : bool := negb (Z.land (flags ctx) f =? 0).

(** The [switch (db)] of [kvOpen]. *)
Definition check_db (db : option DbId) (isR isW : bool) : result unit :=
  let m := dbMode ctx in
  match db with
  | Some (db_native | db_service) =>
      check (isSubjective m || isSync m) "database access disabled during proof verification" ;;
      check (negb isW || negb (isSubjective m)) "database cannot be written in subjective context" ;;
      check (negb isW || isSync m) "database cannot be written in async context"
  | Some (db_blockLog | db_writeOnly) =>
      check (negb isR || isSubjective m) "subjective databases cannot be read in a deterministic context" ;;
      check (negb isW || isSync m) "database cannot be written in async context"
  | Some (db_nativeSubjective | db_nativeSession | db_subjective | db_session | db_temporary) =>
      check (isSubjective m) "subjective databases cannot be accessed in a deterministic context" ;;
      check (has_flag isLocal) "service may not open this db"
  | _ => Abort "service may not read this db, or must use another intrinsic"
  end.

Definition kvOpen (n : native) (dbRaw : Z) (prefix : bytes) (mode : Z) : result (Z * native) :=
  check (Z.of_nat (length prefix) <=? maxKeySize ctx) "key is too big" ;;
  let db := DbId_of_code dbRaw in
  '(isR, isW) ← (if mode =? mode_read then Ok (true, false)
                 else if mode =? mode_write then Ok (false, true)
                 else if mode =? mode_readWrite then Ok (true, true)
                 else Abort "invalid mode");
  check (has_flag isPrivileged) "service may not open databases" ;;
  check_db db isR isW ;;
  match db with
  | Some db => '(h, bs) ← open (buckets n) db prefix mode (maxHandles ctx); mret (h, set_buckets bs n)
  | None => Abort "unreachable"
  end.

Definition kvOpenAt (n : native) (h : Z) (prefix : bytes) (mode : Z) : result (Z * native) :=
  bucket ← bucket_at (buckets n) h;
  let newPrefix := bucket_key bucket prefix in
  check (Z.of_nat (length newPrefix) <=? maxKeySize ctx) "key is too big" ;;
  check (Z.land (b_mode bucket) mode =? mode) "Cannot increase permissions" ;;
  '(h, bs) ← open (buckets n) (b_db bucket) newPrefix mode (maxHandles ctx);
  mret (h, set_buckets bs n).

Definition kvClose (n : native) (h : Z) : result native :=
  bs ← close (buckets n) h; mret (set_buckets bs n).

Fixpoint export_loop (bs : BucketSet) (handles : list Z) : result (list Bucket) :=
  match handles with
  | [] => Ok []
  | h :: handles => b ← bucket_at bs h; rest ← export_loop bs handles; mret (b :: rest)
  end.
Definition exportHandles (n : native) (handles : list Z) : result native :=
  check (Z.of_nat (length handles) <=? maxHandles ctx) "Too many handles exported" ;;
  bs ← export_loop (buckets n) handles;
  mret (set_passed (importedHandles n) bs n).

Definition importHandles (n : native) : result (Z * native) :=
  '(hs, bs) ← add (buckets n) (importedHandles n) (maxHandles ctx);
  mret (setResult (set_passed [] (exportedHandles n) (set_buckets bs n)) (Some (pack_handles hs))).

(** ** Writing *)

(** [chargeable] and [refundable]. *)
Definition getDbWrite (db : DbId) : result (bool * bool) :=
  match db with
  | db_subjective | db_session | db_temporary | db_nativeSubjective | db_nativeSession => Ok (false, false)
  | db_writeOnly => Ok (negb (isSubjective (dbMode ctx)), false)
  | db_service | db_native => Ok (true, true)
  | _ => Abort "service may not write this db"
  end.

(** The call of [kvNotify] keeps the handles that are being passed. *)
Definition notifyKvMut (n : native) (db : DbId) (keyLen oldValueLen newValueLen : Z) : result native :=
  n' ← notify {| m_service := codeNum ctx; m_db := db; m_keyLen := u32 keyLen; m_oldValueLen := u32 oldValueLen; m_newValueLen := u32 newValueLen |} n;
  mret (set_passed (importedHandles n) (exportedHandles n) n').

Definition zlen (l : bytes) : Z := Z.of_nat (length l).

(** The part of [kvPut] before the value is stored. *)
Definition bill_put (n : native) (db : DbId) (fullKey value : bytes) (chargeable refundable : bool) : result native :=
  if chargeable then
    let rkey := {| r_service := codeNum ctx; r_db := DbId_code db |} in
    let n := set_deltas (charge (kvResourceDeltas n) rkey 1 (zlen fullKey) (zlen value)) n in
    if refundable then
      let existing := kvGetRaw (dbs n db) fullKey in
      let n := match existing with
               | Some old => set_deltas (charge (kvResourceDeltas n) rkey (-1) (- zlen fullKey) (- zlen old)) n
               | None => n
               end in
      (if decide (db = db_native) then verifyWriteConstrained fullKey value existing else mret tt) ;;
      notifyKvMut n db (zlen fullKey) (match existing with Some old => zlen old | None => -1 end) (zlen value)
    else notifyKvMut n db (zlen fullKey) (-1) (zlen value)
  else if decide (db = db_nativeSubjective) then verifyWriteSubjective fullKey value ;; mret n
  else if decide (db = db_nativeSession) then verifyWriteSession fullKey value ;; mret n
  else mret n.

Definition kvPut (n : native) (h : Z) (key value : bytes) : result native :=
  let n := (clearResult n).2 in
  bucket ← bucket_at (buckets n) h;
  check (isWrite bucket) "Cannot write to this db handle" ;;
  let fullKey := bucket_key bucket key in
  let db := b_db bucket in
  check (zlen fullKey <=? maxKeySize ctx) "key is too big" ;;
  check (zlen value <=? maxValueSize ctx) "value is too big" ;;
  '(chargeable, refundable) ← getDbWrite db;
  n ← bill_put n db fullKey value chargeable refundable;
  mret (set_dbs (set_db db (kvPutRaw (dbs n db) fullKey value) (dbs n)) n).

(** The part of [kvRemove] before the key is removed. *)
Definition bill_remove (n : native) (db : DbId) (fullKey : bytes) (refundable : bool) : result native :=
  if refundable then
    match kvGetRaw (dbs n db) fullKey with
    | Some old =>
        let rkey := {| r_service := codeNum ctx; r_db := DbId_code db |} in
        let n := set_deltas (charge (kvResourceDeltas n) rkey (-1) (- zlen fullKey) (- zlen old)) n in
        (if decide (db = db_native) then verifyRemoveConstrained fullKey old else mret tt) ;;
        notifyKvMut n db (zlen fullKey) (zlen old) (-1)
    | None => mret n
    end
  else mret n.

Definition kvRemove (n : native) (h : Z) (key : bytes) : result native :=
  let n := (clearResult n).2 in
  bucket ← bucket_at (buckets n) h;
  check (isWrite bucket) "Cannot write to this db handle" ;;
  let fullKey := bucket_key bucket key in
  let db := b_db bucket in
  '(chargeable, refundable) ← getDbWrite db;
  n ← bill_remove n db fullKey refundable;
  mret (set_dbs (set_db db (kvRemoveRaw (dbs n db) fullKey) (dbs n)) n).

(** ** Reading *)

Definition readable (n : native) (h : Z) : result Bucket :=
  bucket ← bucket_at (buckets n) h;
  check (isRead bucket) "Cannot read from this db handle" ;;
  mret bucket.

Definition kvGet (n : native) (h : Z) (key : bytes) : result (Z * native) :=
  bucket ← readable n h;
  mret (setResult n (kvGetRaw (dbs n (b_db bucket)) (bucket_key bucket key))).

Definition kvGreaterEqual (n : native) (h : Z) (key : bytes) (matchKeySize : nat) : result (Z * native) :=
  check (matchKeySize <=? length key)%nat "matchKeySize is larger than key" ;;
  bucket ← readable n h;
  mret (setResult_kv n (trimResult bucket (kvGreaterEqualRaw (dbs n (b_db bucket)) (bucket_key bucket key) (length (b_prefix bucket) + matchKeySize)))).

Definition kvLessThan (n : native) (h : Z) (key : bytes) (matchKeySize : nat) : result (Z * native) :=
  check (matchKeySize <=? length key)%nat "matchKeySize is larger than key" ;;
  bucket ← readable n h;
  mret (setResult_kv n (trimResult bucket (kvLessThanRaw (dbs n (b_db bucket)) (bucket_key bucket key) (length (b_prefix bucket) + matchKeySize)))).

Definition kvMax (n : native) (h : Z) (key : bytes) : result (Z * native) :=
  bucket ← readable n h;
  mret (setResult_kv n (trimResult bucket (kvMaxRaw (dbs n (b_db bucket)) (bucket_key bucket key)))).


(** ** Reads *)

(** What a handle shows: the keys of its database that begin with its prefix,
    without the prefix. *)
Definition view (b : Bucket) (n : native) : bytes -> option bytes := fun k => st_get (dbs n (b_db b)) (b_prefix b ++ k).

(** The first entry of a view that satisfies [P]. *)
Definition found_in (w : bytes -> option bytes) (P : bytes -> bool) (before : bytes -> bytes -> bool) (r : option (bytes * bytes)) : Prop :=
  match r with
  | Some (k, v) => w k = Some v /\ P k = true /\ forall k', is_Some (w k') -> P k' = true -> before k k' = true
  | None => forall k', is_Some (w k') -> P k' = false
  end.
Lemma found_in_ext w P Q before r : (forall k, P k = Q k) -> found_in w P before r -> found_in w Q before r.
Proof. intros E. unfold found_in. destruct r as [[k v]|]; [|by setoid_rewrite E]. rewrite (E k). intros (H1 & H2 & H3). split_and!; [done..|]. intros k' Hk. rewrite <- E. by apply H3. Qed.
Definition same_start (m : nat) (key k : bytes) : bool := bool_decide (take m k = take m key).

Lemma same_start_split p key m k :
  same_start m key k = true -> p ++ k = (p ++ take m key) ++ drop m k.
Proof. unfold same_start. intros E. apply bool_decide_eq_true in E. by rewrite <- E, <- app_assoc, take_drop. Qed.

Lemma matched_view s p key m (Pfull : bytes -> bool) before r b :
  b_prefix b = p -> (m <= length key)%nat -> found s Pfull before r ->
  (forall x y, before (p ++ x) (p ++ y) = before x y) ->
  (forall k k', Pfull k = true -> Pfull (p ++ k') = true -> same_start m key k' = true -> before k (p ++ k') = true ->
     exists c, k = (p ++ take m key) ++ c) ->
  found_in (fun k => st_get s (p ++ k)) (fun k => Pfull (p ++ k) && same_start m key k) before
    (trimResult b (matched r (p ++ key) (length p + m))).
Proof.
  intros Hp Hm Hr Hbefore Hconvex. unfold matched. destruct r as [[k v]|]; cbn [found trimResult found_in] in *.
  2:{ intros k' Hk'. by rewrite (Hr _ Hk'). }
  destruct Hr as (Hk & HP & Hbest). rewrite take_app_add.
  assert (Hcheck : forall c, k = (p ++ take m key) ++ c -> ((length k <? length p + m)%nat || negb (bool_decide (take (length p + m) k = p ++ take m key))) = false).
  { intros c ->. rewrite (proj2 (Nat.ltb_ge _ _)) by (rewrite !length_app, length_take; lia).
    rewrite bool_decide_true; [done|]. replace (length p + m)%nat with (length (p ++ take m key)) by (rewrite length_app, length_take; lia). apply take_app_length. }
  destruct ((length k <? length p + m)%nat || _) eqn:Ec; cbn [trimResult found_in].
  - intros k' Hk'. destruct (Pfull (p ++ k')) eqn:EP; [|done]. destruct (same_start m key k') eqn:Es; [|done]. exfalso.
    destruct (Hconvex k k' HP EP Es (Hbest _ Hk' EP)) as [c Hc]. specialize (Hcheck c Hc). congruence.
  - apply orb_false_iff in Ec as [_ Ec]. apply negb_false_iff, bool_decide_eq_true in Ec.
    assert (Ek : k = p ++ take m key ++ drop (length p + m) k) by (rewrite app_assoc, <- Ec; by rewrite take_drop).
    rewrite Hp. set (c := drop (length p + m) k) in *. assert (Ed : drop (length p) k = take m key ++ c) by (rewrite Ek; apply drop_app_length).
    rewrite Ed. rewrite <- Ek. split; [done|]. split.
    + rewrite HP. unfold same_start. apply bool_decide_eq_true. rewrite take_app_le by (rewrite length_take; lia). by rewrite take_take, Nat.min_id.
    + intros k' Hk' HP'. apply andb_true_iff in HP' as [HP' _]. rewrite <- (Hbefore (take m key ++ c) k'), <- Ek. by apply Hbest.
Qed.

Context `{!StorageLaws St}.

(** The entry with the least key from [key] on, or the greatest one before it,
    among the keys that share the first [m] bytes of [key]; and the greatest
    entry with a given prefix. *)
Lemma greater_equal_view n b key m : (m <= length key)%nat ->
  found_in (view b n) (fun k => lle key k && same_start m key k) lle
    (trimResult b (kvGreaterEqualRaw (dbs n (b_db b)) (bucket_key b key) (length (b_prefix b) + m))).
Proof.
  intros Hm. pose proof (greater_equal_found (dbs n (b_db b)) (bucket_key b key)) as Hf.
  pose proof (matched_view (dbs n (b_db b)) (b_prefix b) key m _ lle _ b eq_refl Hm Hf) as H1. unfold bucket_key in *.
  assert (H2 := H1 ltac:(intros; apply lle_app)). clear H1.
  unfold kvGreaterEqualRaw. eapply found_in_ext; [|apply H2]; [intros k; cbn; by rewrite lle_app|].
  intros k k' HP HP' Hs Hb. rewrite (same_start_split _ _ _ _ Hs) in Hb.
  apply (lle_between _ (drop m key) (drop m k')); [|done]. by rewrite <- app_assoc, take_drop.
Qed.

Lemma less_than_view n b key m : (m <= length key)%nat ->
  found_in (view b n) (fun k => negb (lle key k) && same_start m key k) (fun x y => lle y x)
    (trimResult b (kvLessThanRaw (dbs n (b_db b)) (bucket_key b key) (length (b_prefix b) + m))).
Proof.
  intros Hm. pose proof (less_than_found (dbs n (b_db b)) (bucket_key b key)) as Hf.
  pose proof (matched_view (dbs n (b_db b)) (b_prefix b) key m _ (fun x y => lle y x) _ b eq_refl Hm Hf) as H1. unfold bucket_key in *.
  assert (H2 := H1 ltac:(intros; apply lle_app)). clear H1.
  unfold kvLessThanRaw. eapply found_in_ext; [|apply H2]; [intros k; cbn; by rewrite lle_app|].
  intros k k' HP HP' Hs Hb. apply negb_true_iff, lle_not in HP. rewrite (same_start_split _ _ _ _ Hs) in Hb.
  apply (lle_between _ (drop m k') (drop m key)); [done|]. by rewrite <- app_assoc, take_drop.
Qed.

Lemma max_view n b key :
  found_in (view b n) (has_prefix key) (fun x y => lle y x) (trimResult b (kvMaxRaw (dbs n (b_db b)) (bucket_key b key))).
Proof.
  unfold kvMaxRaw, bucket_key. pose proof (max_found (dbs n (b_db b)) (b_prefix b ++ key)) as Hf.
  assert (Hp : forall k, has_prefix (b_prefix b ++ key) (b_prefix b ++ k) = has_prefix key k).
  { intros k. apply eq_true_iff_eq. rewrite !has_prefix_app. split; intros [c E]; exists c.
    - rewrite <- app_assoc in E. by apply app_inv_head in E.
    - by rewrite E, app_assoc. }
  destruct (st_max _ _) as [[k v]|]; cbn [found trimResult found_in] in *; unfold view.
  - destruct Hf as (Hk & HP & Hbest). apply has_prefix_app in HP as [c ->]. rewrite <- app_assoc, drop_app_length, app_assoc.
    split; [done|]. split; [apply has_prefix_app; by exists c|]. intros k' Hk' HP'. rewrite <- (lle_app (b_prefix b)), app_assoc. apply Hbest; [done|by rewrite Hp].
  - intros k' Hk'. rewrite <- Hp. by apply Hf.
Qed.

Lemma bucket_at_handle bs h :
  bucket_at bs h = match handle bs (Z.to_nat h) with Some b => Ok b | None => Abort "Invalid bucket" end.
Proof. unfold bucket_at, handle, check, live. destruct (bs !! Z.to_nat h) as [b|]; [|done]. by destruct (negb _). Qed.

Lemma readable_handle n h :
  readable n h = match handle (buckets n) (Z.to_nat h) with
                 | Some b => if isRead b then Ok b else Abort "Cannot read from this db handle"
                 | None => Abort "Invalid bucket"
                 end.
Proof. unfold readable. rewrite bucket_at_handle. destruct (handle _ _) as [b|]; [|done]. cbn. unfold check. by destruct (isRead b). Qed.

(** Reading through a handle.  With an open handle that may read, each function
    sets the result to an entry of the view of the handle and nothing outside of
    it: the entry of a key, the first one from a key on or the last one before it
    among the keys with the same first [matchKeySize] bytes, and the last one
    with a given prefix; and it reports that there is none exactly when there is
    none.  With any other handle they fail. *)
Theorem kv_reads n h :
  match handle (buckets n) (Z.to_nat h) with
  | Some b =>
      if isRead b then
        (forall key, kvGet n h key = Ok (setResult n (view b n key))) /\
        (forall key m, (m <= length key)%nat -> exists r, kvGreaterEqual n h key m = Ok (setResult_kv n r) /\
           found_in (view b n) (fun k => lle key k && same_start m key k) lle r) /\
        (forall key m, (m <= length key)%nat -> exists r, kvLessThan n h key m = Ok (setResult_kv n r) /\
           found_in (view b n) (fun k => negb (lle key k) && same_start m key k) (fun x y => lle y x) r) /\
        (forall key, exists r, kvMax n h key = Ok (setResult_kv n r) /\
           found_in (view b n) (has_prefix key) (fun x y => lle y x) r)
      else forall key m, is_ok (kvGet n h key) || is_ok (kvGreaterEqual n h key m) || is_ok (kvLessThan n h key m) || is_ok (kvMax n h key) = false
  | None => forall key m, is_ok (kvGet n h key) || is_ok (kvGreaterEqual n h key m) || is_ok (kvLessThan n h key m) || is_ok (kvMax n h key) = false
  end.
Proof.
  unfold kvGet, kvGreaterEqual, kvLessThan, kvMax. rewrite !readable_handle.
  destruct (handle (buckets n) (Z.to_nat h)) as [b|]; [|intros key m; unfold check; by destruct (m <=? length key)%nat].
  destruct (isRead b); [|intros key m; unfold check; by destruct (m <=? length key)%nat].
  cbn [mbind result_bind mret result_ret]. split_and!.
  - done.
  - intros key m Hm. unfold check. rewrite (proj2 (Nat.leb_le _ _) Hm). eexists. split; [done|]. by apply greater_equal_view.
  - intros key m Hm. unfold check. rewrite (proj2 (Nat.leb_le _ _) Hm). eexists. split; [done|]. by apply less_than_view.
  - intros key. eexists. split; [done|]. apply max_view.
Qed.

(** ** Writes *)

(** The amounts that a write adds to the resources of the service. *)
Definition put_amounts (fullKey value : bytes) (existing : option bytes) : Z * Z * Z :=
  match existing with
  | Some old => (0, 0, zlen value - zlen old)
  | None => (1, zlen fullKey, zlen value)
  end.

Definition resource_key (db : DbId) : KvResourceKey := {| r_service := codeNum ctx; r_db := DbId_code db |}.
Definition old_size (existing : option bytes) : Z := u32 (match existing with Some old => zlen old | None => -1 end).

(** [n1] is the state after the service was charged the amounts and [kvNotify]
    was told about the change of the key. *)
Definition charged_and_notified (n : native) (db : DbId) (fullKey : bytes) (amounts : Z * Z * Z) (oldSize newSize : Z) (n1 : native) : Prop :=
  let n0 := set_deltas (charge (kvResourceDeltas n) (resource_key db) amounts.1.1 amounts.1.2 amounts.2) (set_result [] [] n) in
  exists n2, notify {| m_service := codeNum ctx; m_db := db; m_keyLen := u32 (zlen fullKey); m_oldValueLen := oldSize; m_newValueLen := newSize |} n0 = Ok n2 /\
    n1 = set_passed (importedHandles n) (exportedHandles n) n2.

(** Which databases are charged in the current context. *)
Definition is_charged (db : DbId) : bool :=
  match db with db_service | db_native => true | db_writeOnly => negb (isSubjective (dbMode ctx)) | _ => false end.
(** The existing value that a write replaces, where the code looks for one. *)
Definition replaced (n : native) (db : DbId) (fullKey : bytes) : option bytes :=
  match db with db_service | db_native => st_get (dbs n db) fullKey | _ => None end.

Lemma notify_inv n db fullKey old new n1 :
  notifyKvMut n db (zlen fullKey) old new = Ok n1 ->
  exists n2, notify {| m_service := codeNum ctx; m_db := db; m_keyLen := u32 (zlen fullKey); m_oldValueLen := u32 old; m_newValueLen := u32 new |} n = Ok n2 /\
    n1 = set_passed (importedHandles n) (exportedHandles n) n2.
Proof. unfold notifyKvMut. intros E. destruct (notify _ n) as [n2|]; [|done]. injection E as <-. eauto. Qed.

Lemma set_db_get db s d x k : st_get (set_db db s d x) k = if decide (x = db) then st_get s k else st_get (d x) k.
Proof. unfold set_db. by case_decide. Qed.

Lemma bill_refundable n db fullKey value n1 :
  bill_put (set_result [] [] n) db fullKey value true true = Ok n1 ->
  charged_and_notified n db fullKey (put_amounts fullKey value (st_get (dbs n db) fullKey)) (old_size (st_get (dbs n db) fullKey)) (u32 (zlen value)) n1.
Proof.
  unfold bill_put, kvGetRaw. intros E. cbn [dbs set_deltas set_result kvResourceDeltas] in E.
  match type of E with (?f ≫= _) = _ => destruct f as [u|]; [|done] end. cbn [mbind result_bind] in E.
  apply notify_inv in E as (n2 & E & ->). exists n2. split; [|by destruct (st_get (dbs n db) fullKey)].
  rewrite <- E. destruct (st_get (dbs n db) fullKey) as [old|]; [|done]. cbn [put_amounts fst snd]. f_equal.
  unfold set_deltas. cbn [dbs buckets set_result result_key result_value kvResourceDeltas importedHandles exportedHandles].
  unfold resource_key. rewrite charge_charge. f_equal. f_equal; lia.
Qed.

Lemma bill_put_spec n db fullKey value c r n1 :
  getDbWrite db = Ok (c, r) -> bill_put (set_result [] [] n) db fullKey value c r = Ok n1 ->
  if is_charged db
  then charged_and_notified n db fullKey (put_amounts fullKey value (replaced n db fullKey)) (old_size (replaced n db fullKey)) (u32 (zlen value)) n1
  else n1 = set_result [] [] n.
Proof.
  intros Hw E.
  assert (Hnone : forall f : result unit, (f ;; mret (set_result [] [] n)) = Ok n1 -> n1 = set_result [] [] n)
    by (intros [u|m] Ef; [by injection Ef as <-|done]).
  assert (Hfree : bill_put (set_result [] [] n) db fullKey value false r = Ok n1 -> n1 = set_result [] [] n).
  { unfold bill_put. repeat case_decide; [apply Hnone..|]. by intros [= <-]. }
  destruct db; cbn [getDbWrite] in Hw; try done; injection Hw as <- <-; cbn [is_charged replaced]; try by apply Hfree.
  - by apply bill_refundable.
  - destruct (negb (isSubjective (dbMode ctx))); [|by apply Hfree]. unfold bill_put in E. apply notify_inv in E as (n2 & E & ->). by exists n2.
  - by apply bill_refundable.
Qed.

(** [kvPut] needs an open handle that may write; it stores the value under the
    prefix of the handle and changes no other key of any database, apart from
    what [kvNotify] does.  Before that, in a charged database, exactly the growth
    of the database is charged and reported to [kvNotify]. *)
Theorem kv_put_effect n h key value n' :
  kvPut n h key value = Ok n' ->
  exists b n1, let db := b_db b in let fullKey := b_prefix b ++ key in
    handle (buckets n) (Z.to_nat h) = Some b /\ isWrite b = true /\
    zlen fullKey <= maxKeySize ctx /\ zlen value <= maxValueSize ctx /\
    (if is_charged db
     then charged_and_notified n db fullKey (put_amounts fullKey value (replaced n db fullKey)) (old_size (replaced n db fullKey)) (u32 (zlen value)) n1
     else n1 = set_result [] [] n) /\
    buckets n' = buckets n1 /\ kvResourceDeltas n' = kvResourceDeltas n1 /\
    forall db' k, st_get (dbs n' db') k = if decide (db' = db /\ k = fullKey) then Some value else st_get (dbs n1 db') k.
Proof.
  unfold kvPut. cbn [clearResult snd buckets set_result]. rewrite bucket_at_handle. intros E.
  destruct (handle (buckets n) (Z.to_nat h)) as [b|]; [|done]. cbn [mbind result_bind] in E. unfold check in E.
  destruct (isWrite b) eqn:Ew; [|done]. cbn [mbind result_bind] in E. unfold bucket_key in E.
  destruct (zlen (b_prefix b ++ key) <=? maxKeySize ctx) eqn:Ek; [|done]. cbn [mbind result_bind] in E.
  destruct (zlen value <=? maxValueSize ctx) eqn:Ev; [|done]. cbn [mbind result_bind] in E. zbool.
  destruct (getDbWrite (b_db b)) as [[c r]|] eqn:Eg; [|done]. cbn [mbind result_bind] in E.
  destruct (bill_put _ _ _ _ c r) as [n1|] eqn:Eb; [|done]. injection E as <-.
  exists b, n1. cbv zeta. split_and!; [done..|by eapply bill_put_spec|done|done|].
  intros db' k. cbn [dbs set_dbs]. rewrite set_db_get. unfold kvPutRaw. rewrite get_upsert.
  destruct (decide (db' = b_db b)) as [->|]; [|rewrite decide_False; [done|by intros [? ?]]].
  destruct (decide (k = b_prefix b ++ key)) as [->|]; [by rewrite decide_True|rewrite decide_False; [done|by intros [? ?]]].
Qed.

(** ** Authority *)

Inductive native_op :=
| OpOpen (dbRaw : Z) (prefix : bytes) (mode : Z)
| OpOpenAt (h : Z) (prefix : bytes) (mode : Z)
| OpClose (h : Z)
| OpExport (handles : list Z)
| OpImport
| OpPut (h : Z) (key value : bytes)
| OpRemove (h : Z) (key : bytes)
| OpGet (h : Z) (key : bytes)
| OpGreaterEqual (h : Z) (key : bytes) (m : nat)
| OpLessThan (h : Z) (key : bytes) (m : nat)
| OpMax (h : Z) (key : bytes).

Definition exec (o : native_op) (n : native) : result native :=
  match o with
  | OpOpen dbRaw prefix mode => snd <$> kvOpen n dbRaw prefix mode
  | OpOpenAt h prefix mode => snd <$> kvOpenAt n h prefix mode
  | OpClose h => kvClose n h
  | OpExport handles => exportHandles n handles
  | OpImport => snd <$> importHandles n
  | OpPut h key value => kvPut n h key value
  | OpRemove h key => kvRemove n h key
  | OpGet h key => snd <$> kvGet n h key
  | OpGreaterEqual h key m => snd <$> kvGreaterEqual n h key m
  | OpLessThan h key m => snd <$> kvLessThan n h key m
  | OpMax h key => snd <$> kvMax n h key
  end.

(** What a handle may be in the mode of the running code: code whose result is
    part of consensus does not see subjective data, proofs do not depend on the
    state, and subjective code does not write objective data. *)
Definition permitted (b : Bucket) : bool :=
  let m := dbMode ctx in
  ((1 <=? b_mode b) && (b_mode b <=? 3)) &&
  match b_db b with
  | db_native | db_service => (isSubjective m || isSync m) && (negb (isWrite b) || negb (isSubjective m) && isSync m)
  | db_blockLog | db_writeOnly => (negb (isRead b) || isSubjective m) && (negb (isWrite b) || isSync m)
  | db_nativeSubjective | db_nativeSession | db_subjective | db_session | db_temporary => isSubjective m
  | db_blockProof | db_prevAuthServices => false
  end.

(** [b] gives no more than [g]. *)
Definition derived (g b : Bucket) : Prop :=
  b_db b = b_db g /\ (exists c, b_prefix b = b_prefix g ++ c) /\ Z.land (b_mode g) (b_mode b) = b_mode b.

Definition opened (o : native_op) : list Bucket :=
  match o with
  | OpOpen dbRaw prefix mode =>
      match DbId_of_code dbRaw with Some db => [{| b_db := db; b_prefix := prefix; b_mode := mode |}] | None => [] end
  | _ => []
  end.

(** The states that a service reaches by its calls, with the buckets that
    [kvOpen] gave it or that other services passed to it.  The buckets that it
    receives are permitted in the mode of the running code: the sender's are, by the
    same theorem, and [TransactionContext] clears the handles when the mode changes
    between the two, which is not modelled here. *)
Inductive reach : native -> list Bucket -> Prop :=
| reach_start n : buckets n = [] -> importedHandles n = [] -> reach n []
| reach_op o n n' g : reach n g -> exec o n = Ok n' -> reach n' (opened o ++ g)
| reach_receive n g given : reach n g -> Forall (fun b => permitted b = true) given ->
    reach (set_passed given [] n) (given ++ g).

Lemma derived_refl b : permitted b = true -> derived b b.
Proof. intros _. split; [done|]. split; [exists []; by rewrite app_nil_r|apply Z.land_diag]. Qed.

Lemma derived_trans g b c : derived g b -> derived b c -> derived g c.
Proof.
  intros (D1 & (p & P1) & M1) (D2 & (q & P2) & M2). split; [congruence|]. split; [exists (p ++ q); by rewrite P2, P1, app_assoc|].
  by rewrite <- M2 at 2; rewrite <- M1, <- Z.land_assoc, M2.
Qed.

(** A restricted handle is permitted when the original one is. *)
Lemma permitted_derived g b : permitted g = true -> derived g b -> b_mode b <> mode_none -> permitted b = true.
Proof.
  intros Hg (D & _ & M) Hn. unfold permitted in *. zbool. rewrite D.
  assert (Hr : 0 <= b_mode b < 4).
  { replace (b_mode b) with (Z.land 3 (b_mode b)).
    - change 3 with (2 ^ 2 - 1). rewrite Z.land_comm, land_ones_mod by lia. apply Z.mod_pos_bound. lia.
    - rewrite <- M, Z.land_assoc. f_equal. assert (Hm : b_mode g = 1 \/ b_mode g = 2 \/ b_mode g = 3) by lia. by destruct Hm as [->|[->| ->]]. }
  assert (Hm : b_mode g = 1 \/ b_mode g = 2 \/ b_mode g = 3) by lia. unfold mode_none in Hn.
  assert (Hb : b_mode b = 1 \/ b_mode b = 2 \/ b_mode b = 3) by lia.
  unfold isRead, isWrite in *. destruct Hm as [Hm|[Hm|Hm]], Hb as [Hb|[Hb|Hb]]; rewrite Hm, Hb in *; try done;
    destruct (b_db g); destruct (dbMode ctx) as [[|] [|] ? ?]; cbn in *; done.
Qed.

Lemma kvOpen_permitted n dbRaw prefix mode h n' :
  kvOpen n dbRaw prefix mode = Ok (h, n') ->
  exists db bs, DbId_of_code dbRaw = Some db /\ permitted {| b_db := db; b_prefix := prefix; b_mode := mode |} = true /\
    open (buckets n) db prefix mode (maxHandles ctx) = Ok (h, bs) /\ n' = set_buckets bs n /\ has_flag isPrivileged = true.
Proof.
  unfold kvOpen. intros E. destruct (check _ "key is too big"); [|done]. cbn [mbind result_bind] in E.
  match type of E with (?r ≫= _) = _ => destruct r as [[isR isW]|] eqn:Em; [|done] end. cbn [mbind result_bind] in E.
  unfold check at 1 in E. destruct (has_flag isPrivileged); [|done]. cbn [mbind result_bind] in E.
  destruct (check_db _ isR isW) as [u|] eqn:Ec; [|done]. cbn [mbind result_bind] in E.
  destruct (DbId_of_code dbRaw) as [db|]; [|done]. destruct (open _ _ _ _ _) as [[k bs]|] eqn:Eo; [|done]. injection E as <- <-.
  exists db, bs. split; [done|]. split; [|done]. clear Eo.
  assert (Hm : (mode = 1 /\ isR = true /\ isW = false) \/ (mode = 2 /\ isR = false /\ isW = true) \/ (mode = 3 /\ isR = true /\ isW = true)).
  { destruct (Z.eqb_spec mode mode_read) as [->|]; [injection Em as <- <-; auto|]. destruct (Z.eqb_spec mode mode_write) as [->|]; [injection Em as <- <-; auto|].
    destruct (Z.eqb_spec mode mode_readWrite) as [->|]; [injection Em as <- <-; auto|done]. }
  clear Em. unfold permitted, isRead, isWrite, check_db, check in *. cbn [b_mode b_db].
  destruct Hm as [(-> & -> & ->)|[(-> & -> & ->)|(-> & -> & ->)]]; destruct db; destruct (dbMode ctx) as [[|] [|] ? ?]; cbn in *; done.
Qed.

Lemma kvOpenAt_derived n h0 prefix mode h n' :
  kvOpenAt n h0 prefix mode = Ok (h, n') ->
  exists b bs, let new := {| b_db := b_db b; b_prefix := b_prefix b ++ prefix; b_mode := mode |} in
    handle (buckets n) (Z.to_nat h0) = Some b /\ derived b new /\ mode <> mode_none /\
    open (buckets n) (b_db b) (b_prefix b ++ prefix) mode (maxHandles ctx) = Ok (h, bs) /\ n' = set_buckets bs n.
Proof.
  unfold kvOpenAt. rewrite bucket_at_handle. intros E. destruct (handle _ _) as [b|]; [|done]. cbn [mbind result_bind] in E.
  destruct (check _ "key is too big"); [|done]. cbn [mbind result_bind] in E. unfold check in E.
  destruct (Z.eqb_spec (Z.land (b_mode b) mode) mode) as [Em|]; [|done]. cbn [mbind result_bind] in E. unfold bucket_key in E.
  destruct (open _ _ _ _ _) as [[k bs]|] eqn:Eo; [|done]. injection E as <- <-. exists b, bs. split; [done|]. split; [|split; [|done]].
  - split; [done|]. split; [by exists prefix|done].
  - unfold open, check in Eo. destruct (Z.eqb_spec mode mode_none); [done|done].
Qed.

(** The handles and the handles being passed. *)
Definition same_handles (n n' : native) : Prop := buckets n' = buckets n /\ importedHandles n' = importedHandles n.

Definition good (g : list Bucket) (b : Bucket) : Prop := permitted b = true /\ exists g0, g0 ∈ g /\ derived g0 b.
Definition authority (n : native) (g : list Bucket) : Prop :=
  (forall i b, handle (buckets n) i = Some b -> good g b) /\ Forall (good g) (importedHandles n).

Lemma good_more g g' b : good g b -> good (g' ++ g) b.
Proof. intros (Hp & g0 & Hin & Hd). split; [done|]. exists g0. split; [apply elem_of_app; by right|done]. Qed.
Lemma authority_same n n' g : same_handles n n' -> authority n g -> authority n' g.
Proof. intros [E1 E2] [H1 H2]. split; [by rewrite E1|by rewrite E2]. Qed.
Lemma authority_more n g g' : authority n g -> authority n (g' ++ g).
Proof. intros [H1 H2]. split; [intros i b Hb; by eapply good_more, H1|]. eapply Forall_impl; [exact H2|]. intros b. apply good_more. Qed.

Lemma setResult_handles n r : same_handles n (setResult n r).2.
Proof. by destruct r. Qed.
Lemma setResult_kv_handles n r : same_handles n (setResult_kv n r).2.
Proof. by destruct r as [[? ?]|]. Qed.

Section with_notify.
(** [kvNotify] runs in another service, whose handles are its own. *)
Hypothesis notify_handles : forall m n n', notify m n = Ok n' -> buckets n' = buckets n.

Lemma notify_same n db k old new n1 : notifyKvMut n db (zlen k) old new = Ok n1 -> same_handles n n1.
Proof. intros E. apply notify_inv in E as (n2 & E & ->). apply notify_handles in E. done. Qed.

Lemma bill_put_handles n db k v c r n1 : bill_put n db k v c r = Ok n1 -> same_handles n n1.
Proof.
  unfold bill_put. intros E. destruct c; [destruct r|].
  - match type of E with (?f ≫= _) = _ => destruct f as [u|]; [|done] end. cbn [mbind result_bind] in E. apply notify_same in E.
    by destruct (kvGetRaw _ k).
  - by apply notify_same in E.
  - repeat case_decide; cbn in E; [destruct (verifyWriteSubjective k v)|destruct (verifyWriteSession k v)|]; cbn in E; try done; by injection E as <-.
Qed.

Lemma bill_remove_handles n db k r n1 : bill_remove n db k r = Ok n1 -> same_handles n n1.
Proof.
  unfold bill_remove. intros E. destruct r; [|by injection E as <-]. destruct (kvGetRaw _ k); [|by injection E as <-].
  match type of E with (?f ≫= _) = _ => destruct f as [u|]; [|done] end. cbn [mbind result_bind] in E. by apply notify_same in E.
Qed.

Lemma kvPut_handles n h k v n' : kvPut n h k v = Ok n' -> same_handles n n'.
Proof.
  unfold kvPut. intros E. cbn [clearResult snd] in E. ok_inv. repeat case_match; ok_inv.
  match goal with H : bill_put _ _ _ _ _ _ = Ok _ |- _ => apply bill_put_handles in H; exact H end.
Qed.

Lemma kvRemove_handles n h k n' : kvRemove n h k = Ok n' -> same_handles n n'.
Proof.
  unfold kvRemove. intros E. cbn [clearResult snd] in E. ok_inv. repeat case_match; ok_inv.
  match goal with H : bill_remove _ _ _ _ = Ok _ |- _ => apply bill_remove_handles in H; exact H end.
Qed.

(** The functions that do not open or receive handles. *)
Lemma exec_handles o n n' : exec o n = Ok n' ->
  match o with
  | OpOpen _ _ _ | OpOpenAt _ _ _ | OpImport => True
  | OpClose h => (forall i b, handle (buckets n') i = Some b -> handle (buckets n) i = Some b) /\ importedHandles n' = importedHandles n
  | _ => same_handles n n'
  end.
Proof.
  destruct o; cbn [exec]; intros E; try done.
  - unfold kvClose in E. destruct (close (buckets n) h) as [bs|] eqn:Ec; [|done]. injection E as <-. split; [|done].
    cbn [buckets set_buckets]. by eapply close_handles.
  - unfold exportHandles in E. ok_inv. done.
  - by eapply kvPut_handles.
  - by eapply kvRemove_handles.
  - unfold kvGet in E. destruct (readable n h); [|done]. injection E as <-. apply setResult_handles.
  - unfold kvGreaterEqual in E. destruct (check _ _); [|done]. cbn in E. destruct (readable n h); [|done]. injection E as <-. apply setResult_kv_handles.
  - unfold kvLessThan in E. destruct (check _ _); [|done]. cbn in E. destruct (readable n h); [|done]. injection E as <-. apply setResult_kv_handles.
  - unfold kvMax in E. destruct (readable n h); [|done]. injection E as <-. apply setResult_kv_handles.
Qed.

Lemma exec_authority o n n' g : authority n g -> exec o n = Ok n' -> authority n' (opened o ++ g).
Proof.
  intros Ha E. pose proof (exec_handles o n n' E) as Hh. destruct o as [dbRaw pfx mode|h pfx mode| | | | | | | | |]; cbn [exec opened app] in *; try by eapply authority_same.
  - destruct (kvOpen n dbRaw pfx mode) as [[h n1]|] eqn:Eo; [|done]. injection E as <-.
    apply kvOpen_permitted in Eo as (db & bs & -> & Hp & Eo & -> & _). pose proof (authority_more n g [{| b_db := db; b_prefix := pfx; b_mode := mode |}] Ha) as [H1 H2].
    split; [|exact H2]. intros i b Hb. cbn in Hb. destruct (open_handles _ _ _ _ _ _ _ Eo i b Hb) as [->|Hold]; [|by eapply H1].
    split; [done|]. eexists. split; [left|by apply derived_refl].
  - destruct (kvOpenAt n h pfx mode) as [[h1 n1]|] eqn:Eo; [|done]. injection E as <-.
    apply kvOpenAt_derived in Eo as (b0 & bs & Hb0 & Hd & Hn & Eo & ->). destruct Ha as [H1 H2]. split; [|exact H2]. intros i b Hb. cbn in Hb.
    destruct (open_handles _ _ _ _ _ _ _ Eo i b Hb) as [->|Hold]; [|by eapply H1]. destruct (H1 _ _ Hb0) as (Hp & g0 & Hin & Hg0).
    split; [by eapply permitted_derived|]. exists g0. split; [done|]. by eapply derived_trans.
  - destruct Ha as [H1 H2], Hh as [Hh1 Hh2]. split; [intros i b Hb; exact (H1 i b (Hh1 i b Hb))|by rewrite Hh2].
  - unfold importHandles in E. destruct (add _ _ _) as [[hs bs]|] eqn:Eadd; [|done]. injection E as <-. destruct Ha as [H1 H2].
    split; [|by apply Forall_nil]. cbn. intros i b Hb. destruct (add_handles _ _ _ _ _ _ Eadd i b Hb) as [Hin|Hold]; [|by eapply H1].
    rewrite Forall_forall in H2. by apply H2.
Qed.

Lemma reach_authority n g : reach n g -> authority n g.
Proof.
  induction 1 as [n Hb Hi|o n n' g _ IH E|n g given _ [H1 H2] Hg].
  - split; [rewrite Hb; done|by rewrite Hi].
  - by eapply exec_authority.
  - split; [intros i b Hb; by eapply good_more, H1|]. cbn [importedHandles set_passed]. rewrite Forall_forall in Hg |- *. intros b Hb.
    specialize (Hg b Hb). split; [done|]. exists b. split; [|by apply derived_refl]. apply elem_of_app. by left.
Qed.

(** C28: The authority of a service over databases.  In every state that it reaches
    with database calls, each open handle is a restriction of a bucket that
    [kvOpen] gave it or that another service passed to it: the same database, a
    key range within its range, and no more rights; and, given that what it receives
    is, it is permitted in the mode of the running code.  So deterministic code never reads subjective data,
    verification of proofs has no handle on the state, and subjective code never
    writes objective data.  Only a privileged service gets anything from
    [kvOpen]. *)
Theorem kv_authority n g :
  reach n g ->
  (forall i b, handle (buckets n) i = Some b -> permitted b = true /\ exists g0, g0 ∈ g /\ derived g0 b) /\
  (has_flag isPrivileged = false -> forall dbRaw prefix mode, is_ok (kvOpen n dbRaw prefix mode) = false).
Proof.
  intros Hr. split; [exact (proj1 (reach_authority n g Hr))|]. intros Hf dbRaw prefix mode.
  destruct (kvOpen n dbRaw prefix mode) as [[h n']|] eqn:E; [|done]. apply kvOpen_permitted in E as (? & ? & _ & _ & _ & _ & Hp). congruence.
Qed.
End with_notify.
End native.

(** ** An example *)

Definition example_ctx : NativeContext :=
  {| codeNum := 7; flags := isPrivileged; dbMode := mode_transaction; maxKeySize := 128; maxValueSize := 1000; maxHandles := 8 |}.
#[export] Instance example_checks : RowChecks :=
  {| verifyWriteConstrained _ _ _ := Ok tt; verifyRemoveConstrained _ _ := Ok tt; verifyWriteSubjective _ _ := Ok tt; verifyWriteSession _ _ := Ok tt |}.
Definition example_notify (m : Mutation) (n : native (St := gmap bytes bytes)) : result native := Ok n.
Definition example_native : native (St := gmap bytes bytes) :=
  {| dbs := fun _ => {[ [1; 5] := [10] ]}; buckets := []; result_key := []; result_value := [];
     kvResourceDeltas := []; importedHandles := []; exportedHandles := [] |}.
(** A handle on the keys of the service database that begin with 1, and one that
    is restricted to those that begin with 1, 5. *)
Definition example_granted : native :=
  match exec example_ctx (fun _ => []) example_notify (OpOpen 0 [1] mode_readWrite) example_native with Ok n => n | Abort _ => example_native end.
Definition example_open : native :=
  match exec example_ctx (fun _ => []) example_notify (OpOpenAt 0 [5] mode_read) example_granted with Ok n => n | Abort _ => example_native end.

Lemma kv_reads_witness :
  match handle (buckets example_open) 1 with
  | Some b => isRead b = true /\ kvGet example_open 1 [] = Ok (1, set_result [] [10] example_open)
  | None => False
  end.
Proof. pose proof (kv_reads example_open 1) as H. split; [reflexivity|]. exact (proj1 H []). Defined.

Lemma kv_put_effect_witness :
  exists n', kvPut example_ctx example_notify example_open 0 [6] [11; 12] = Ok n' /\
    exists b n1, handle (buckets example_open) 0 = Some b /\
      forall db' k, st_get (dbs n' db') k = if decide (db' = b_db b /\ k = b_prefix b ++ [6]) then Some [11; 12] else st_get (dbs n1 db') k.
Proof.
  eexists. split; [reflexivity|].
  destruct (kv_put_effect example_ctx example_notify example_open 0 [6] [11; 12] _ eq_refl) as (b & n1 & Hb & _ & _ & _ & _ & _ & _ & H).
  exists b, n1. split; [exact Hb|exact H].
Defined.

Lemma kv_authority_witness :
  exists b, handle (buckets example_open) 1 = Some b /\ permitted example_ctx b = true.
Proof.
  assert (Hr : exists g, reach example_ctx (fun _ => []) example_notify example_open g).
  { eexists. apply (reach_op _ _ _ (OpOpenAt 0 [5] mode_read) example_granted); [|reflexivity].
    apply (reach_op _ _ _ (OpOpen 0 [1] mode_readWrite) example_native); [|reflexivity]. apply reach_start; reflexivity. }
  destruct Hr as [g Hr]. eexists. split; [reflexivity|].
  assert (Hn : forall m (n n' : native), example_notify m n = Ok n' -> buckets n' = buckets n) by (intros m n n' [= <-]; reflexivity).
  exact (proj1 (proj1 (kv_authority example_ctx (fun _ => []) example_notify Hn example_open g Hr) 1%nat _ eq_refl)).
Defined.
