(* ===== verification/TableKeys.v ===== *)
(** * psibase: keys of tables

    What [Table.hpp] needs of the keys of [to_key.hpp]: they are bytes, the key of
    the first fields of a tuple is a prefix of the key of the tuple, and the byte
    string that [TableIndex::upper_bound] computes is the end of the range of the
    strings with a given prefix. *)

From S2P Require Import Prelude ToKey Database.

(** ** Keys are bytes *)

Lemma to_key_int_ok s n z : bytes_ok (to_key_int s n z).
Proof. unfold to_key_int. apply Forall_rev, le_bytes_ok. Qed.

Lemma to_key_chars_ok s : bytes_ok s -> bytes_ok (to_key_chars s).
Proof.
  induction 1 as [|c s Hc Hs IH]; cbn; [constructor|]. constructor; [done|]. destruct (c =? 0); [|done]. by constructor.
Qed.

Lemma to_key_varuint32_ok z : bytes_ok (to_key_varuint32 z).
Proof.
  unfold to_key_varuint32. constructor; [apply (wrap_range 8); lia|]. generalize (Z.to_nat (varuint32_num_bytes z - 1)).
  induction n as [|n IH]; [constructor|]. cbn [varuint32_tail]. constructor; [|done]. rewrite (land_ones_mod _ 8) by lia.
  apply Z.mod_pos_bound. lia.
Qed.

Lemma to_key_optional_ok single (key : kval -> bytes) o :
  (forall v, o = Some v -> bytes_ok (key v)) -> bytes_ok (to_key_optional single key o).
Proof.
  intros H. unfold to_key_optional. destruct single, o as [v|]; [|repeat constructor; lia| |repeat constructor; lia].
  - specialize (H v eq_refl). destruct (key v) as [|b [|]]; [constructor| |constructor]. inversion_clear H.
    constructor; [done|]. destruct (b =? 0); repeat constructor; lia.
  - constructor; [unfold is_byte; lia|auto].
Qed.

Lemma to_key_range_ok single (key : kval -> bytes) l :
  Forall (fun v => bytes_ok (key v)) l -> bytes_ok (to_key_range single key l).
Proof.
  intros H. unfold to_key_range. apply Forall_app. split; [|by apply to_key_optional_ok].
  induction H as [|v l Hv Hl IH]; cbn; [constructor|]. apply Forall_app. split; [|done]. apply to_key_optional_ok.
  by intros ? [= <-].
Qed.

Lemma to_key_bytes t v : has_type t v = true -> bytes_ok (to_key t v).
Proof.
  revert v. induction t as [|sg n|sg n|n| | |n t IH|t IH|t IH|ts IH|ts IH] using kty_nested_ind; intros v Hv; shape v;
    cbn [to_key];
    auto using to_key_int_ok, to_key_varuint32_ok.
  - destruct b; repeat constructor; lia.
  - apply Forall_app. split; [|repeat constructor; lia]. apply to_key_chars_ok. apply forallb_Forall_true in Hv.
    eapply Forall_impl; [exact Hv|]. intros c Hc. unfold in_range, is_byte in *. zbool. lia.
  - apply andb_prop in Hv as [_ Hv]. apply forallb_Forall_true in Hv. unfold to_key_array.
    induction Hv as [|v l Hv Hl IHl]; cbn; [constructor|]. apply Forall_app. by split; [apply IH|].
  - apply to_key_range_ok. apply forallb_Forall_true in Hv. eapply Forall_impl; [exact Hv|]. apply IH.
  - apply to_key_optional_ok. intros v ->. by apply IH.
  - revert l Hv. induction IH as [|t ts IHt _ IHts]; intros [|v l] Hv; try constructor; try done.
    apply andb_prop in Hv as [Hv Hl].
    cbn [to_key_tuple]. apply Forall_app. split; [by apply IHt|by apply IHts].
  - unfold to_key_variant. apply Forall_app. split; [apply to_key_varuint32_ok|]. revert index Hv.
    induction IH as [|t ts IHt _ IHts]; intros [|i] Hv; try constructor; try done; cbn [to_key_visit];
      [by apply IHt|by apply IHts].
Qed.

(** Keys compare like values; equal keys are those of equivalent values. *)
Lemma to_key_compare t a b : kty_ok t = true -> has_type t a = true -> has_type t b = true ->
  lex_compare (to_key t a) (to_key t b) = value_compare t a b.
Proof.
  intros Hk Ha Hb. pose proof (to_key_order_code t Hk a b [] [] Ha Hb) as E. rewrite !app_nil_r in E. rewrite E.
  by destruct (value_compare t a b).
Qed.
Lemma to_key_eq t a b : kty_ok t = true -> has_type t a = true -> has_type t b = true ->
  to_key t a = to_key t b <-> value_compare t a b = Eq.
Proof.
  intros Hk Ha Hb. by rewrite <- lex_compare_eq, to_key_compare.
Qed.

(** ** The first fields of a tuple *)

Lemma tuple_key_app ts us vs ws : length vs = length ts ->
  to_key (KTuple (ts ++ us)) (VTuple (vs ++ ws)) = to_key (KTuple ts) (VTuple vs) ++ to_key (KTuple us) (VTuple ws).
Proof.
  revert vs. induction ts as [|t ts IH]; intros [|v vs] E; try done. injection E as E. specialize (IH vs E).
  cbn [to_key app to_key_tuple] in *. by rewrite <- app_assoc, IH.
Qed.

Lemma has_type_tuple_cons t ts v vs :
  has_type (KTuple (t :: ts)) (VTuple (v :: vs)) = has_type t v && has_type (KTuple ts) (VTuple vs).
Proof. done. Qed.

Lemma has_type_tuple_app ts us vs : has_type (KTuple (ts ++ us)) (VTuple vs) = true ->
  exists vs1 vs2, vs = vs1 ++ vs2 /\ length vs1 = length ts /\ has_type (KTuple ts) (VTuple vs1) = true /\
    has_type (KTuple us) (VTuple vs2) = true.
Proof.
  revert vs. induction ts as [|t ts IH]; intros vs H; [by exists [], vs|]. destruct vs as [|v vs]; [done|].
  cbn [app] in H. rewrite has_type_tuple_cons in H. apply andb_prop in H as [Hv H].
  destruct (IH vs H) as (vs1 & vs2 & -> & Hl & H1 & H2).
  exists (v :: vs1), vs2. rewrite has_type_tuple_cons, Hv, H1. cbn. by rewrite Hl.
Qed.

Lemma kty_ok_tuple_app ts us : kty_ok (KTuple (ts ++ us)) = true -> kty_ok (KTuple ts) = true /\ kty_ok (KTuple us) = true.
Proof. cbn. rewrite forallb_app. apply andb_prop. Qed.

(** ** The end of the range of a prefix *)

(** The strings that follow every string with the prefix [a]. *)
Definition after (a k : bytes) : bool := lle a k && negb (has_prefix a k).

Lemma lle_nil k : lle [] k = true.
Proof. by destruct k. Qed.
Lemma lle_cons_bool x a y k : lle (x :: a) (y :: k) = (x <? y) || ((x =? y) && lle a k).
Proof.
  unfold lle. cbn. unfold Z.ltb. destruct (Z.compare_spec x y) as [->|Hlt|Hgt]; [by rewrite Z.eqb_refl|done|].
  by rewrite (proj2 (Z.eqb_neq x y)) by lia.
Qed.
Lemma has_prefix_cons_bool x a y k : has_prefix (x :: a) (y :: k) = (x =? y) && has_prefix a k.
Proof.
  apply eq_true_iff_eq. rewrite andb_true_iff, Z.eqb_eq, !has_prefix_app. split.
  - intros [c [= -> ->]]. split; [done|by exists c].
  - intros [-> [c ->]]. by exists c.
Qed.
Lemma after_nil k : after [] k = false.
Proof. unfold after. by rewrite lle_nil. Qed.
Lemma after_cons x a y k : after (x :: a) (y :: k) = (x <? y) || ((x =? y) && after a k).
Proof.
  unfold after. rewrite lle_cons_bool, has_prefix_cons_bool. destruct (Z.eqb_spec x y) as [->|]; [by rewrite Z.ltb_irrefl|].
  by destruct (x <? y).
Qed.

Lemma after_last_max a k : bytes_ok k -> after (a ++ [255]) k = after a k.
Proof.
  intros Hk. revert a. induction Hk as [|y k Hy Hk IH]; intros [|x a]; try done; cbn [app].
  - rewrite after_cons, !after_nil. unfold is_byte in Hy. rewrite andb_false_r, orb_false_r. apply Z.ltb_ge. lia.
  - by rewrite !after_cons, IH.
Qed.
Lemma after_last_succ a x k : lle (a ++ [x + 1]) k = after (a ++ [x]) k.
Proof.
  revert k. induction a as [|z a IH]; intros [|y k]; try done; cbn [app].
  - rewrite lle_cons_bool, after_cons, after_nil, lle_nil, andb_true_r, andb_false_r, orb_false_r.
    destruct (Z.ltb_spec (x + 1) y), (Z.eqb_spec (x + 1) y), (Z.ltb_spec x y); cbn; try done; lia.
  - by rewrite lle_cons_bool, after_cons, IH.
Qed.

(** The strings from [a] on are the ones with the prefix [a] and those after it. *)
Lemma lle_after a k : lle a k = has_prefix a k || after a k.
Proof.
  unfold after. destruct (has_prefix a k) eqn:E; [|by rewrite andb_true_r]. apply has_prefix_app in E as [c ->].
  rewrite <- (app_nil_r a) at 1. by rewrite lle_app, lle_nil.
Qed.

(** What follows a string in the order of keys of bytes. *)
Lemma lle_push_zero a k : bytes_ok k -> lle (a ++ [0]) k = negb (lle k a).
Proof.
  intros Hk. revert a. induction Hk as [|y k Hy Hk IH]; intros a; [by rewrite lle_nil; destruct a|].
  destruct a as [|x a]; cbn [app].
  - unfold is_byte in Hy. rewrite lle_cons_bool, lle_nil, andb_true_r. change (lle (y :: k) []) with false.
    destruct (Z.ltb_spec 0 y), (Z.eqb_spec 0 y); cbn; try done; lia.
  - rewrite !lle_cons_bool, IH. destruct (Z.ltb_spec x y), (Z.eqb_spec x y), (Z.ltb_spec y x), (Z.eqb_spec y x); cbn; try done; lia.
Qed.

Lemma has_prefix_trans a b k : has_prefix b k = true -> has_prefix a b = true -> has_prefix a k = true.
Proof. rewrite !has_prefix_app. intros [c ->] [d ->]. exists (d ++ c). by rewrite app_assoc. Qed.
Lemma has_prefix_refl a c : has_prefix a (a ++ c) = true.
Proof. apply has_prefix_app. by exists c. Qed.

(** The key of a value is a lower bound of the keys that begin with the key of a
    greater or equivalent value; the keys that begin with an equivalent one; and
    those after it. *)
Section bounds.
Context (t : kty) (Ht : kty_ok t = true) (a b : kval) (Ha : has_type t a = true) (Hb : has_type t b = true) (rest : bytes).

Lemma lle_key : lle (to_key t a) (to_key t b ++ rest) = true <-> value_compare t a b <> Gt.
Proof using Ht Ha Hb.
  rewrite lle_spec. pose proof (to_key_order_code t Ht a b [] rest Ha Hb) as E. rewrite app_nil_r in E. rewrite E.
  destruct (value_compare t a b); cbn; [by destruct rest|done..].
Qed.
Lemma has_prefix_key : has_prefix (to_key t a) (to_key t b ++ rest) = true <-> value_compare t a b = Eq.
Proof using Ht Ha Hb.
  rewrite has_prefix_app. split.
  - intros [c E]. pose proof (to_key_order_code t Ht a b c rest Ha Hb) as Ec. rewrite <- E, lex_compare_refl in Ec.
    by destruct (value_compare t a b).
  - intros E. exists rest. by rewrite (proj2 (to_key_eq t a b Ht Ha Hb) E).
Qed.
Lemma after_key : after (to_key t a) (to_key t b ++ rest) = true <-> value_compare t a b = Lt.
Proof using Ht Ha Hb.
  unfold after. rewrite andb_true_iff, negb_true_iff, <- not_true_iff_false, lle_key, has_prefix_key.
  destruct (value_compare t a b); split; [intros []|..]; try done; by destruct 1.
Qed.
Lemma value_compare_sym : value_compare t b a = CompOpp (value_compare t a b).
Proof using Ht Ha Hb. rewrite <- !to_key_compare by done. apply lex_compare_antisym. Qed.
End bounds.

Lemma has_prefix_app_both p a k : has_prefix (p ++ a) (p ++ k) = has_prefix a k.
Proof.
  apply eq_true_iff_eq. rewrite !has_prefix_app.
  split; intros [c E]; exists c; [rewrite <- app_assoc in E; by apply app_inv_head in E|by rewrite E, app_assoc].
Qed.
Lemma after_app p a k : after (p ++ a) (p ++ k) = after a k.
Proof.
  unfold after. by rewrite lle_app, has_prefix_app_both.
Qed.
