(* ===== verification/Table.v ===== *)
(** * psibase: tables

    [Table], [TableIndex] and the iterators of
    [libraries/psibase/common/include/psibase/Table.hpp].  The database calls that
    a table makes through its handle are an interface: [RawKv] has the calls, with
    the result buffer that is read right after each of them, and [RawKvLaws] what
    they do to the entries that the handle shows.  A table type ([TableType]) has
    the rows, how they are packed, and the key functions of its indexes. *)

From S2P Require Import Prelude ToKey Database NativeKv TableKeys.

(** ** The calls through a handle *)

Class RawKv (S : Type) := {
  raw_kvGet : S -> bytes -> result (option bytes);
  raw_kvGreaterEqual : S -> bytes -> nat -> result (option (bytes * bytes));
  raw_kvLessThan : S -> bytes -> nat -> result (option (bytes * bytes));
  raw_kvMax : S -> bytes -> result (option (bytes * bytes));
  raw_kvPut : S -> bytes -> bytes -> result S;
  raw_kvRemove : S -> bytes -> result S
}.

(** The state after a write: the entries, and still open. *)
Definition wrote {S} (at_key : S -> bytes -> option bytes) (reads writes : S -> Prop) (s : S) (k : bytes) (v : option bytes) (s' : S) : Prop :=
  (forall k', at_key s' k' = if decide (k' = k) then v else at_key s k') /\ (reads s -> reads s') /\ (writes s -> writes s').

(** [kv_at] are the entries that the handle shows; [kv_reads] and [kv_writes] say
    that it is open and may read or write; [kv_room] are the limits of the sizes. *)
Class RawKvLaws (S : Type) `{RawKv S} := {
  kv_at : S -> bytes -> option bytes;
  kv_reads : S -> Prop;
  kv_writes : S -> Prop;
  kv_room : bytes -> bytes -> Prop;
  kv_get s k : kv_reads s -> raw_kvGet s k = Ok (kv_at s k);
  kv_greater_equal s key m : kv_reads s -> (m <= length key)%nat ->
    exists r, raw_kvGreaterEqual s key m = Ok r /\ found_in (kv_at s) (fun k => lle key k && same_start m key k) lle r;
  kv_less_than s key m : kv_reads s -> (m <= length key)%nat ->
    exists r, raw_kvLessThan s key m = Ok r /\ found_in (kv_at s) (fun k => negb (lle key k) && same_start m key k) (fun x y => lle y x) r;
  kv_max s key : kv_reads s -> exists r, raw_kvMax s key = Ok r /\ found_in (kv_at s) (has_prefix key) (fun x y => lle y x) r;
  kv_put s k v : kv_writes s -> kv_room k v -> exists s', raw_kvPut s k v = Ok s' /\ wrote kv_at kv_reads kv_writes s k (Some v) s';
  kv_remove s k : kv_writes s -> exists s', raw_kvRemove s k = Ok s' /\ wrote kv_at kv_reads kv_writes s k None s'
}.

(** ** Table types *)

(** A key function: the type of the keys and the key of a row. *)
Record KeyFn (row : Type) := { key_type : kty; invoke : row -> kval }.
Arguments key_type {row} _.
Arguments invoke {row} _ _.

(** [NestedKey]: a member of a member, and [CompositeKey]: a tuple of keys. *)
Definition NestedKey {row inner : Type} (member : row -> inner) (k : KeyFn inner) : KeyFn row :=
  {| key_type := key_type k; invoke value := invoke k (member value) |}.
Definition CompositeKey {row : Type} (ks : list (KeyFn row)) : KeyFn row :=
  {| key_type := KTuple (map key_type ks); invoke value := VTuple (map (fun k => invoke k value) ks) |}.
Definition SingletonKey {row : Type} : KeyFn row := CompositeKey [].

(** [from_frac] of prevalidated data has no value where it reads out of bounds. *)
Record TableType := {
  row : Type;
  convert_to_frac : row -> bytes;
  from_frac_row : bytes -> option row;
  Primary : KeyFn row;
  Secondary : list (KeyFn row)
}.

(** ** Iterators *)

Record kv_raw_iterator := { it_key : bytes; prefix_size : nat; is_secondary : bool; is_end : bool }.

(** The constructor. *)
Definition make_iterator (key : bytes) (prefix_size : nat) (is_secondary is_end : bool) : result kv_raw_iterator :=
  check (prefix_size <=? length key)%nat "prefix is longer than key" ;;
  mret {| it_key := key; prefix_size := prefix_size; is_secondary := is_secondary; is_end := is_end |}.

(** [set], with the key that [getKey] returns. *)
Definition set (r : option (bytes * bytes)) (it : kv_raw_iterator) : kv_raw_iterator :=
  match r with
  | Some (k, _) => {| it_key := k; prefix_size := prefix_size it; is_secondary := is_secondary it; is_end := false |}
  | None => {| it_key := take (prefix_size it) (it_key it); prefix_size := prefix_size it; is_secondary := is_secondary it; is_end := true |}
  end.

(** [operator<=>]: end iterators are after all others; [compare_blob] is the order
    of byte strings. *)
Definition compare_iterators (lhs rhs : kv_raw_iterator) : comparison :=
  if negb (Bool.eqb (is_end lhs) (is_end rhs)) then bool_compare (is_end lhs) (is_end rhs)
  else lex_compare (it_key lhs) (it_key rhs).
Definition same_iterator (lhs rhs : kv_raw_iterator) : bool :=
  match compare_iterators lhs rhs with Eq => true | _ => false end.

(** [move_to(span)] and [keyWithoutPrefix]. *)
Definition move_to (keyWithoutPrefix : bytes) (it : kv_raw_iterator) : kv_raw_iterator :=
  {| it_key := take (prefix_size it) (it_key it) ++ keyWithoutPrefix; prefix_size := prefix_size it; is_secondary := is_secondary it;
     is_end := negb (bool_decide (keyWithoutPrefix = [])) |}.
Definition keyWithoutPrefix (it : kv_raw_iterator) : bytes := drop (prefix_size it) (it_key it).

Section table.
Context {S : Type} `{RawKv S}.

Definition increment (s : S) (it : kv_raw_iterator) : result kv_raw_iterator :=
  let key := if is_end it then it_key it else it_key it ++ [0] in
  r ← raw_kvGreaterEqual s key (prefix_size it);
  mret (set r {| it_key := key; prefix_size := prefix_size it; is_secondary := is_secondary it; is_end := is_end it |}).

Definition decrement (s : S) (it : kv_raw_iterator) : result kv_raw_iterator :=
  r ← (if is_end it then raw_kvMax s (it_key it) else raw_kvLessThan s (it_key it) (prefix_size it));
  mret (set r it).

Definition read (s : S) (it : kv_raw_iterator) : result bytes :=
  c ← raw_kvGet s (it_key it);
  match c with
  | None => Abort "no such key"
  | Some c =>
      if is_secondary it then
        c ← raw_kvGet s c;
        match c with Some c => mret c | None => Abort "primary key not found" end
      else mret c
  end.

(** ** Indexes *)

Record TableIndex := { ix_prefix : bytes; ix_secondary : bool }.

Definition ix_end (ix : TableIndex) : result kv_raw_iterator :=
  make_iterator (ix_prefix ix) (length (ix_prefix ix)) (ix_secondary ix) true.
Definition ix_begin (s : S) (ix : TableIndex) : result kv_raw_iterator :=
  it ← ix_end ix; increment s it.
Definition ix_empty (s : S) (ix : TableIndex) : result bool :=
  b ← ix_begin s ix; e ← ix_end ix; mret (same_iterator b e).

(** [composite_key(key_base, k)]: [k] is a value of type [t]. *)
Definition ix_key (ix : TableIndex) (t : kty) (k : kval) : bytes := convert_to_key t k (ix_prefix ix).

(** [kvGreaterEqual] of a key, and the iterator there. *)
Definition found_iterator (s : S) (ix : TableIndex) (key : bytes) : result kv_raw_iterator :=
  res ← raw_kvGreaterEqual s key (length (ix_prefix ix));
  it ← make_iterator key (length (ix_prefix ix)) (ix_secondary ix) true;
  mret (set res it).
Definition ix_lower_bound (s : S) (ix : TableIndex) (t : kty) (k : kval) : result kv_raw_iterator :=
  found_iterator s ix (ix_key ix t k).

(** The loop of [upper_bound], on the bytes of the key from the last one on; no
    key is the [return end()]. *)
Fixpoint next_prefix (prefix_size : nat) (rkey : bytes) : option bytes :=
  match rkey with
  | [] => None
  | back :: rest =>
      if (length rkey <=? prefix_size)%nat then None
      else if negb (back =? 255) then Some (rev (u8 (back + 1) :: rest))
      else next_prefix prefix_size rest
  end.
Definition ix_upper_bound (s : S) (ix : TableIndex) (t : kty) (k : kval) : result kv_raw_iterator :=
  match next_prefix (length (ix_prefix ix)) (rev (ix_key ix t k)) with
  | None => ix_end ix
  | Some key => found_iterator s ix key
  end.

Definition subindex (ix : TableIndex) (t : kty) (k : kval) : TableIndex :=
  {| ix_prefix := ix_key ix t k; ix_secondary := ix_secondary ix |}.

(** ** Tables *)

Context (T : TableType).
Abbreviation Row := (row T).

(** [operator*] of [KvIterator]. *)
Definition unpack_row (data : bytes) : result Row :=
  match from_frac_row T data with Some v => mret v | None => Abort "read out of bounds" end.
Definition deref (s : S) (it : kv_raw_iterator) : result Row := data ← read s it; unpack_row data.

Definition ix_first (s : S) (ix : TableIndex) : result (option Row) :=
  b ← ix_begin s ix; e ← ix_end ix;
  if same_iterator b e then mret None else v ← deref s b; mret (Some v).
Definition ix_last (s : S) (ix : TableIndex) : result (option Row) :=
  e ← ix_end ix; prev ← decrement s e;
  if same_iterator prev e then mret None else v ← deref s prev; mret (Some v).

(** [getImpl]. *)
Definition ix_get (s : S) (ix : TableIndex) (t : kty) (k : kval) : result (option Row) :=
  res ← raw_kvGet s (ix_key ix t k);
  match res with
  | None => mret None
  | Some buffer =>
      buffer ← (if ix_secondary ix then
                  res ← raw_kvGet s buffer;
                  match res with Some buffer => mret buffer | None => Abort "primary key not found" end
                else mret buffer);
      v ← unpack_row buffer; mret (Some v)
  end.

(** The member [prefix] is never set: the handle has the prefix of the table. *)
Definition table_prefix : bytes := [].
Definition getIndex (Idx : Z) : TableIndex := {| ix_prefix := table_prefix ++ [u8 Idx]; ix_secondary := 0 <? Idx |}.
Definition get (s : S) (key : kval) : result (option Row) := ix_get s (getIndex 0) (key_type (Primary T)) key.
Definition first (s : S) : result (option Row) := ix_first s (getIndex 0).
Definition last (s : S) : result (option Row) := ix_last s (getIndex 0).

(** [composite_key(key_base, idx, k)]. *)
Definition serialize_key (idx : Z) (t : kty) (k : kval) : bytes :=
  table_prefix ++ composite_key [(KInt false 1, VInt idx); (t, k)].

Definition kvInsertUnique (s : S) (key value : bytes) : result S :=
  existing ← raw_kvGet s key;
  match existing with
  | Some _ => Abort "key already exists"
  | None => raw_kvPut s key value
  end.

(** The fold over the key functions, with the index number [idx]. *)
Fixpoint for_keys (step : Z -> KeyFn Row -> S -> result S) (idx : Z) (fs : list (KeyFn Row)) (s : S) : result S :=
  match fs with
  | [] => mret s
  | f :: fs => s ← step idx f s; for_keys step (u8 (idx + 1)) fs s
  end.

(** The buffer holds the prefix and the index number. *)
Definition key_buffer (idx : Z) (f : KeyFn Row) (key : kval) : bytes := convert_to_key (key_type f) key (table_prefix ++ [idx]).

Definition replace_secondary (data value : Row) (pk : bytes) (idx : Z) (f : KeyFn Row) (s : S) : result S :=
  let old_key := invoke f data in
  let new_key := invoke f value in
  match value_compare (key_type f) old_key new_key with
  | Eq => mret s
  | _ =>
      s ← raw_kvRemove s (key_buffer idx f old_key);
      kvInsertUnique s (key_buffer idx f new_key) pk
  end.
Definition write_secondary (value : Row) (pk : bytes) (idx : Z) (f : KeyFn Row) (s : S) : result S :=
  kvInsertUnique s (key_buffer idx f (invoke f value)) pk.

Definition putImpl (s : S) (value : Row) (serialized : bytes) : result S :=
  let pk := serialize_key 0 (key_type (Primary T)) (invoke (Primary T) value) in
  s ← match Secondary T with
      | [] => mret s
      | fs =>
          sz ← raw_kvGet s pk;
          match sz with
          | Some buffer => data ← unpack_row buffer; for_keys (replace_secondary data value pk) 1 fs s
          | None => for_keys (write_secondary value pk) 1 fs s
          end
      end;
  raw_kvPut s pk serialized.
Definition put (s : S) (value : Row) : result S := putImpl s value (convert_to_frac T value).

Definition erase_key (oldValue : Row) (idx : Z) (f : KeyFn Row) (s : S) : result S :=
  raw_kvRemove s (key_buffer idx f (invoke f oldValue)).
Definition remove (s : S) (oldValue : Row) : result S :=
  for_keys (erase_key oldValue) 0 (Primary T :: Secondary T) s.

Definition erase (s : S) (key : kval) : result S :=
  match Secondary T with
  | [] => raw_kvRemove s (serialize_key 0 (key_type (Primary T)) key)
  | _ =>
      value ← get s key;
      match value with Some value => remove s value | None => mret s end
  end.
End table.
