(* ===== verification/TableMap.v ===== *)
(** * psibase: a table is a map of rows

    What the operations of [Table] do, in terms of the map from primary keys to
    rows: [holds] says that the entries behind the handle are exactly the rows and
    the secondary index entries of a map.  [put] aborts exactly when a secondary
    key belongs to another row and otherwise inserts the row; [remove] and [erase]
    delete a row; [get] on any index finds the row with a key. *)

From S2P Require Import Prelude ToKey Database NativeKv TableKeys Table.

Definition key_bytes {row} (f : KeyFn row) (r : row) : bytes := to_key (key_type f) (invoke f r).

(** What a table type must satisfy: a row that may be stored is read back, its keys
    are values of their types, and there are few enough indexes
    ([static_assert(1 + sizeof...(Secondary) <= 255)]). *)
Class TableOk (T : TableType) := {
  row_ok : row T -> Prop;
  row_roundtrip r : row_ok r -> from_frac_row T (convert_to_frac T r) = Some r;
  row_keys r f : row_ok r -> f ∈ Primary T :: Secondary T -> has_type (key_type f) (invoke f r) = true;
  key_types f : f ∈ Primary T :: Secondary T -> kty_ok (key_type f) = true;
  few_indexes : (1 + length (Secondary T) <= 255)%nat
}.

Section table_map.
Context {S : Type} `{Hkv : RawKv S} `{Hlaws : !RawKvLaws S} (T : TableType) `{Htable : !TableOk T}.
#[local] Set Default Proof Using "Type".
Abbreviation Row := (row T).
Implicit Types (s : S) (m : gmap bytes Row) (r : Row).

Definition indexes : list (KeyFn Row) := Primary T :: Secondary T.
Abbreviation pk r := (key_bytes (Primary T) r).

(** The entries of a map of rows. *)
Inductive entry m : bytes -> bytes -> Prop :=
| primary_entry p r : m !! p = Some r -> entry m (0 :: p) (convert_to_frac T r)
| secondary_entry i f p r : Secondary T !! i = Some f -> m !! p = Some r -> entry m (1 + Z.of_nat i :: key_bytes f r) (0 :: p).

(** The handle shows the entries of the map, which has its rows at their keys. *)
Record holds s m : Prop := {
  held_rows p r : m !! p = Some r -> row_ok r /\ p = pk r;
  held_entries k v : kv_at s k = Some v <-> entry m k v
}.

(** A new row would have a secondary key of another row. *)
Definition conflict m r : Prop :=
  exists f p r', f ∈ Secondary T /\ m !! p = Some r' /\ p <> pk r /\ key_bytes f r' = key_bytes f r.

(** The sizes of the entries of a row are within the limits. *)
Definition row_fits r : Prop :=
  kv_room (0 :: pk r) (convert_to_frac T r) /\
  forall i f, Secondary T !! i = Some f -> kv_room (1 + Z.of_nat i :: key_bytes f r) (0 :: pk r).

(** Only a table with secondary indexes reads when it writes. *)
Definition can_write s : Prop := kv_writes s /\ (Secondary T <> [] -> kv_reads s).

Lemma key_buffer_eq idx (f : KeyFn Row) r : key_buffer T idx f (invoke f r) = idx :: key_bytes f r.
Proof. done. Qed.
Lemma serialize_key_eq t k : serialize_key 0 t k = 0 :: to_key t k.
Proof. done. Qed.

(** ** The entries of a map *)

Lemma entry_primary m p v : entry m (0 :: p) v <-> exists r, m !! p = Some r /\ v = convert_to_frac T r.
Proof.
  split.
  - inversion 1; [eauto|]. lia.
  - intros (r & Hr & ->). by constructor.
Qed.
Lemma entry_secondary m i f k v : Secondary T !! i = Some f ->
  entry m (1 + Z.of_nat i :: k) v <-> exists p r, m !! p = Some r /\ k = key_bytes f r /\ v = 0 :: p.
Proof.
  intros Hf. split.
  - inversion 1 as [|j g p r Hg Hr E]; [lia|]. assert (j = i) as -> by lia. assert (g = f) as -> by congruence. eauto.
  - intros (p & r & Hr & -> & ->). by eapply secondary_entry.
Qed.
Lemma entry_shape m k v : entry m k v ->
  (exists p, k = 0 :: p) \/ exists i f k', Secondary T !! i = Some f /\ k = 1 + Z.of_nat i :: k'.
Proof. destruct 1; [left|right]; eauto 8. Qed.

(** Two maps have the same entries when they agree on each index. *)
Lemma entries_by_index s m :
  (forall k v, kv_at s k = Some v -> (exists p, k = 0 :: p) \/ exists i f k', Secondary T !! i = Some f /\ k = 1 + Z.of_nat i ::
    k') ->
  (forall p, kv_at s (0 :: p) = convert_to_frac T <$> m !! p) ->
  (forall i f k v, Secondary T !! i = Some f -> kv_at s (1 + Z.of_nat i :: k) = Some v <-> exists p r, m !! p = Some r /\ k =
    key_bytes f r /\ v = 0 :: p) ->
  forall k v, kv_at s k = Some v <-> entry m k v.
Proof.
  intros Hshape Hp Hs k v. split.
  - intros E. destruct (Hshape k v E) as [[p ->]|(i & f & k' & Hf & ->)].
    + rewrite Hp in E. apply fmap_Some in E as (r & Hr & ->). by constructor.
    + apply (entry_secondary m i f k' v Hf), (Hs i f k' v Hf), E.
  - destruct 1 as [p r Hr|i f p r Hf Hr]; [by rewrite Hp, Hr|]. apply (Hs i f _ _ Hf). eauto.
Qed.

Section held.
Context s m (Hm : holds s m).

Lemma held_primary p : kv_at s (0 :: p) = convert_to_frac T <$> m !! p.
Proof using Hm.
  destruct (m !! p) as [r|] eqn:E; cbn.
  - apply (held_entries s m Hm). by constructor.
  - destruct (kv_at s (0 :: p)) as [v|] eqn:Ev; [|done]. apply (held_entries s m Hm), entry_primary in Ev as (r & Hr & _).
    congruence.
Qed.
Lemma held_secondary i f k v : Secondary T !! i = Some f ->
  kv_at s (1 + Z.of_nat i :: k) = Some v <-> exists p r, m !! p = Some r /\ k = key_bytes f r /\ v = 0 :: p.
Proof using Hm. intros Hf. rewrite (held_entries s m Hm). by apply entry_secondary. Qed.
Lemma held_unique i f p1 r1 p2 r2 : Secondary T !! i = Some f -> m !! p1 = Some r1 -> m !! p2 = Some r2 ->
  key_bytes f r1 = key_bytes f r2 -> p1 = p2.
Proof using Hm.
  intros Hf H1 H2 E. assert (E1 : kv_at s (1 + Z.of_nat i :: key_bytes f r1) = Some (0 :: p1)) by (apply (held_secondary i f);
    eauto).
  assert (E2 : kv_at s (1 + Z.of_nat i :: key_bytes f r1) = Some (0 :: p2)) by (apply (held_secondary i f); eauto). congruence.
Qed.
Lemma held_pk r p : m !! p = Some r -> m !! pk r = Some r.
Proof using Hm. intros Hr. destruct (held_rows s m Hm p r Hr) as [_ E]. by rewrite <- E. Qed.
End held.

(** ** The secondary entries of a row *)

(** One step of a write: the entry of the old row goes, the one of the new row
    comes. *)
Definition moved (w : bytes -> option bytes) (idx : Z) (f : KeyFn Row) (old new : option Row) (v : bytes) : bytes -> option bytes :=
  fun k => if decide (Some k = (fun r => idx :: key_bytes f r) <$> new) then Some v
           else if decide (Some k = (fun r => idx :: key_bytes f r) <$> old) then None else w k.

(** The new row would take the entry of another one. *)
Definition taken (w : bytes -> option bytes) (idx : Z) (f : KeyFn Row) (new : option Row) (v : bytes) : Prop :=
  exists r v', new = Some r /\ w (idx :: key_bytes f r) = Some v' /\ v' <> v.
(** The entries of the row are those of the old row. *)
Definition own (w : bytes -> option bytes) (idx : Z) (f : KeyFn Row) (old : option Row) (v : bytes) : Prop :=
  forall k, w (idx :: k) = Some v <-> key_bytes f <$> old = Some k.

(** What a write makes of a state: the entries, and the handle is still open. *)
Definition became s (w : bytes -> option bytes) s' : Prop :=
  can_write s' /\ (kv_reads s -> kv_reads s') /\ forall k, kv_at s' k = w k.

(** A step aborts when the entry is taken, and otherwise moves the entry; [good] is
    what it needs of the entries of its index. *)
Definition step_ok (step : Z -> KeyFn Row -> S -> result S) (good : (bytes -> option bytes) -> Z -> KeyFn Row -> Prop)
    (old new : option Row) (v : bytes) (base : Z) (fs : list (KeyFn Row)) : Prop :=
  forall i f s, fs !! i = Some f -> can_write s -> let idx := base + Z.of_nat i in good (kv_at s) idx f ->
    (taken (kv_at s) idx f new v /\ step idx f s = Abort "key already exists") \/
    (~ taken (kv_at s) idx f new v /\ exists s', step idx f s = Ok s' /\ became s (moved (kv_at s) idx f old new v) s').

(** The entries after the steps for [fs], numbered from [idx] on. *)
Definition all_moved (w : bytes -> option bytes) (idx : Z) (fs : list (KeyFn Row)) (old new : option Row) (v : bytes) : bytes -> option bytes :=
  fun k => match k with
           | x :: _ => match (if x <? idx then None else fs !! Z.to_nat (x - idx)) with
                       | Some f => moved w x f old new v k
                       | None => w k
                       end
           | [] => w k
           end.

Definition local (good : (bytes -> option bytes) -> Z -> KeyFn Row -> Prop) : Prop :=
  forall w w' idx f, (forall k, w (idx :: k) = w' (idx :: k)) -> good w idx f -> good w' idx f.

Lemma moved_other w idx f old new v x k : x <> idx -> moved w idx f old new v (x :: k) = w (x :: k).
Proof. intros Hx. unfold moved. rewrite !decide_False; [done|by destruct old; intros [= ? ?]|by destruct new; intros [= ? ?]].
Qed.
Lemma moved_nil w idx f old new v : moved w idx f old new v [] = w [].
Proof. unfold moved. by rewrite !decide_False by (by destruct old, new). Qed.
Lemma moved_ext w w' idx f old new v k : w k = w' k -> moved w idx f old new v k = moved w' idx f old new v k.
Proof. intros E. unfold moved. by rewrite E. Qed.
Lemma taken_local new v : local (fun w idx f => taken w idx f new v).
Proof. intros w w' idx f E (r & v' & -> & Hw & Hv). exists r, v'. by rewrite <- E. Qed.
Lemma own_local old v : local (fun w idx f => own w idx f old v).
Proof. intros w w' idx f E Ho k. by rewrite <- E. Qed.

Lemma all_moved_cons w w1 base f fs old new v : (forall k, w1 k = moved w base f old new v k) ->
  forall k, all_moved w1 (base + 1) fs old new v k = all_moved w base (f :: fs) old new v k.
Proof.
  intros E [|x k]; cbn [all_moved]; [by rewrite E, moved_nil|].
  destruct (Z.ltb_spec x base), (Z.ltb_spec x (base + 1)); try lia.
  - rewrite E. apply moved_other. lia.
  - assert (x = base) as -> by lia. by rewrite Z.sub_diag, E.
  - replace (Z.to_nat (x - base)) with (Datatypes.S (Z.to_nat (x - (base + 1)))) by lia. cbn [lookup list_lookup].
    assert (Ek : w1 (x :: k) = w (x :: k)) by (rewrite E; apply moved_other; lia).
    destruct (fs !! _); [by apply moved_ext|done].
Qed.

(** All steps in order. *)
Lemma for_keys_spec step good old new v fs : local good -> forall base s,
  step_ok step good old new v base fs -> 0 <= base -> base + Z.of_nat (length fs) <= 256 -> can_write s ->
  (forall i f, fs !! i = Some f -> good (kv_at s) (base + Z.of_nat i) f) ->
  ((exists i f, fs !! i = Some f /\ taken (kv_at s) (base + Z.of_nat i) f new v) /\ for_keys T step base fs s = Abort
    "key already exists") \/
  ((forall i f, fs !! i = Some f -> ~ taken (kv_at s) (base + Z.of_nat i) f new v) /\
   exists s', for_keys T step base fs s = Ok s' /\ became s (all_moved (kv_at s) base fs old new v) s').
Proof.
  intros Hl. induction fs as [|f fs IH]; intros base s Hstep Hb Hlen Hw Hg.
  { right. split; [done|]. exists s. split; [done|]. split; [done|]. split; [done|]. intros [|x k]; cbn; [done|].
    by destruct (x <? base). }
  cbn [length for_keys] in *. pose proof (Hstep 0%nat f s eq_refl Hw) as Hs0. cbn in Hs0. rewrite Z.add_0_r in Hs0.
  destruct Hs0 as [[Ht ->]|(Ht & s1 & -> & Hw1 & Hr1 & E1)]; [by specialize (Hg 0%nat f eq_refl); rewrite Z.add_0_r in Hg| |].
  { left. split; [|done]. exists 0%nat, f. by rewrite Z.add_0_r. }
  cbn [mbind result_bind]. assert (Hshift : forall i, base + 1 + Z.of_nat i = base + Z.of_nat (Datatypes.S i)) by lia.
  assert (Hidx : forall i (g : KeyFn Row), fs !! i = Some g -> forall k, kv_at s (base + 1 + Z.of_nat i :: k) = kv_at s1 (base +
    1 + Z.of_nat i :: k))
    by (intros i g _ k; rewrite E1, moved_other by lia; done).
  assert (Hkeys : for_keys T step (u8 (base + 1)) fs s1 = for_keys T step (base + 1) fs s1).
  { destruct fs as [|g fs']; [done|]. cbn [length] in Hlen. by rewrite wrap_small by (change (2 ^ 8) with 256; lia). }
  rewrite Hkeys. clear Hkeys.
  destruct (IH (base + 1) s1) as [[(i & g & Hgi & Hti) ->]|(Hn & s' & -> & Hw' & Hr' & E')]; [|lia|lia|done| | |].
  - intros i g s0 Hgi Hw0. cbn zeta. rewrite Hshift. by apply (Hstep (Datatypes.S i)).
  - intros i g Hgi. eapply Hl; [by apply (Hidx i g Hgi)|]. rewrite Hshift. by apply Hg.
  - left. split; [|done]. exists (Datatypes.S i), g. split; [done|]. rewrite <- Hshift. eapply taken_local; [|exact Hti].
    intros k. symmetry. by apply (Hidx i g).
  - right. split.
    + intros [|i] g Hgi; [rewrite Z.add_0_r; by injection Hgi as ->|]. intros Hti. apply (Hn i g Hgi). rewrite Hshift.
      eapply taken_local; [|exact Hti]. intros k. rewrite <- Hshift. by apply (Hidx i g).
    + exists s'. split; [done|]. split; [done|]. split; [auto|]. intros k. rewrite E'. by apply all_moved_cons.
Qed.

(** ** The steps *)

Lemma wrote_became s k v s' : can_write s -> wrote kv_at kv_reads kv_writes s k v s' ->
  became s (fun k' => if decide (k' = k) then v else kv_at s k') s'.
Proof. intros [Hw Hr] (E & Hr' & Hw'). split; [split; auto|]. by split. Qed.

Lemma became_ext s w w' s' : (forall k, w k = w' k) -> became s w s' -> became s w' s'.
Proof. intros E (Hc & Hr & Hk). split; [done|]. split; [done|]. intros k. by rewrite Hk, E. Qed.

Lemma insert_unique s k v : can_write s -> kv_reads s -> kv_room k v ->
  (is_Some (kv_at s k) /\ kvInsertUnique s k v = Abort "key already exists") \/
  (kv_at s k = None /\ exists s', kvInsertUnique s k v = Ok s' /\ became s (fun k' => if decide (k' = k) then Some v else kv_at
    s k') s').
Proof.
  intros Hc Hr Hroom. unfold kvInsertUnique. rewrite kv_get by done. cbn [mbind result_bind].
  destruct (kv_at s k) as [v'|]; [left; by eauto|right]. split; [done|].
  destruct (kv_put s k v) as (s' & -> & Hs'); [apply Hc|done|].
  exists s'. split; [done|]. by apply wrote_became.
Qed.

Lemma reads_of s i f : can_write s -> Secondary T !! i = Some f -> kv_reads s.
Proof. intros [_ Hr] Hf. apply Hr. by intros E; rewrite E in Hf. Qed.

Lemma write_step r : row_fits r ->
  step_ok (write_secondary T r (0 :: pk r)) (fun w idx f => own w idx f None (0 :: pk r)) None (Some r) (0 :: pk r) 1 (Secondary
    T).
Proof.
  intros [_ Hfit] i f s Hf Hc idx Ho. unfold write_secondary. rewrite key_buffer_eq. specialize (Ho (key_bytes f r)).
  cbn [fmap option_fmap option_map] in Ho.
  destruct (insert_unique s (idx :: key_bytes f r) (0 :: pk r)) as [[[v' Hv'] ->]|(Hn & s' & -> & Hs')];
    [done|by eapply reads_of|by apply Hfit| |].
  - left. split; [|done]. exists r, v'. split; [done|]. split; [done|]. intros ->. by apply Ho in Hv'.
  - right. split; [intros (r' & v' & [= <-] & Hv' & _); congruence|]. exists s'. split; [done|].
    eapply became_ext; [|exact Hs'].
    intros k. unfold moved. cbn. destruct (decide (k = idx :: key_bytes f r)) as [->|Hne]; [by rewrite decide_True|].
    by rewrite !decide_False by congruence.
Qed.

Lemma same_key f o r : f ∈ Secondary T -> row_ok o -> row_ok r ->
  value_compare (key_type f) (invoke f o) (invoke f r) = Eq <-> key_bytes f o = key_bytes f r.
Proof using Htable.
  intros Hf Ho Hr. assert (Hi : f ∈ Primary T :: Secondary T) by by right. symmetry.
  apply to_key_eq; [by apply key_types|by apply row_keys|by apply row_keys].
Qed.

Lemma replace_step o r : row_ok o -> row_ok r -> row_fits r ->
  step_ok (replace_secondary T o r (0 :: pk r)) (fun w idx f => own w idx f (Some o) (0 :: pk r)) (Some o) (Some r) (0 :: pk r)
    1 (Secondary T).
Proof using Htable.
  intros Ho Hr [_ Hfit] i f s Hf Hc idx Hown. unfold replace_secondary. rewrite !key_buffer_eq.
  assert (Hin : f ∈ Secondary T) by by eapply list_elem_of_lookup_2. pose proof (same_key f o r Hin Ho Hr) as Hsame.
  pose proof (Hown (key_bytes f o)) as Hold. cbn [fmap option_fmap option_map] in Hold.
  pose proof (Hown (key_bytes f r)) as Hnew. cbn [fmap option_fmap option_map] in Hnew.
  destruct (decide (key_bytes f o = key_bytes f r)) as [E|Hne].
  - rewrite (proj2 Hsame E). right. split; [intros (r' & v' & [= <-] & Hv' & Hv); rewrite <- E, (proj2 Hold eq_refl) in Hv';
      congruence|].
    exists s. split; [done|]. split; [done|]. split; [done|]. intros k. unfold moved. cbn.
    case_decide as Ek; [|by rewrite E, decide_False].
    injection Ek as ->. rewrite <- E. by apply Hold.
  - assert (Hif : forall A (a b : A), match value_compare (key_type f) (invoke f o) (invoke f r) with Eq => a | _ => b end = b)
      by (intros A a b; destruct (value_compare _ _ _); [exfalso; by apply Hne, Hsame|done..]). rewrite Hif.
    destruct (kv_remove s (idx :: key_bytes f o)) as (s1 & -> & Hs1); [apply Hc|]. cbn [mbind result_bind].
    apply wrote_became in Hs1 as (Hc1 & Hr1 & E1); [|done]. assert (Hreads : kv_reads s) by by eapply reads_of.
    assert (Ek : kv_at s1 (idx :: key_bytes f r) = kv_at s (idx :: key_bytes f r)) by (rewrite E1, decide_False by congruence;
      done).
    destruct (insert_unique s1 (idx :: key_bytes f r) (0 :: pk r)) as [[[v' Hv'] ->]|(Hn & s' & -> & Hc' & Hr' & E')];
      [done|by apply Hr1|by apply Hfit| |].
    + left. split; [|done]. exists r, v'. rewrite <- Ek. split; [done|]. split; [done|]. intros ->. rewrite Ek in Hv'.
      apply Hnew in Hv'. congruence.
    + right. split; [intros (r' & v' & [= <-] & Hv' & _); congruence|]. exists s'. split; [done|]. split; [done|].
      split; [auto|].
      intros k. rewrite E'. unfold moved. cbn. destruct (decide (k = _)) as [->|]; [by rewrite decide_True|].
      rewrite decide_False by congruence.
      rewrite E1. destruct (decide (k = _)) as [->|]; [by rewrite decide_True|by rewrite decide_False by congruence].
Qed.

Lemma erase_step r : step_ok (erase_key T r) (fun _ _ _ => True) (Some r) None [] 0 indexes.
Proof.
  intros i f s Hf Hc idx _. unfold erase_key. rewrite key_buffer_eq. right. split; [by intros (r' & v' & [=] & _)|].
  destruct (kv_remove s (idx :: key_bytes f r)) as (s1 & -> & Hs1); [apply Hc|]. exists s1. split; [done|].
  apply wrote_became in Hs1; [|done]. eapply became_ext; [|exact Hs1]. intros k. unfold moved. cbn.
  rewrite (decide_False (P := Some k = None)) by done.
  destruct (decide (k = _)) as [->|]; [by rewrite decide_True|by rewrite decide_False by congruence].
Qed.

(** ** Writing rows *)

Lemma held_own s m r i f : holds s m -> Secondary T !! i = Some f -> own (kv_at s) (1 + Z.of_nat i) f (m !! pk r) (0 :: pk r).
Proof.
  intros Hm Hf k. rewrite (held_secondary s m Hm i f) by done. split.
  - intros (p & r' & Hr & -> & [= ->]). by rewrite Hr.
  - intros (r' & Hr & ->)%fmap_Some. eauto.
Qed.
Lemma taken_conflict s m r : holds s m ->
  (exists i f, Secondary T !! i = Some f /\ taken (kv_at s) (1 + Z.of_nat i) f (Some r) (0 :: pk r)) <-> conflict m r.
Proof.
  intros Hm. split.
  - intros (i & f & Hf & r0 & v & [= <-] & Hv & Hne).
    apply (held_secondary s m Hm i f) in Hv as (p & r' & Hr & E & ->); [|done].
    exists f, p, r'. split; [by eapply list_elem_of_lookup_2|]. split; [done|]. split; [congruence|done].
  - intros (f & p & r' & Hf & Hr & Hp & E). apply list_elem_of_lookup_1 in Hf as [i Hf]. exists i, f. split; [done|].
    exists r, (0 :: p). split; [done|]. split; [|congruence]. apply (held_secondary s m Hm i f); eauto.
Qed.

(** The part of [putImpl] before the row is stored. *)
Definition put_secondaries s r : result S :=
  match Secondary T with
  | [] => mret s
  | fs =>
      sz ← raw_kvGet s (0 :: pk r);
      match sz with
      | Some buffer => data ← unpack_row T buffer; for_keys T (replace_secondary T data r (0 :: pk r)) 1 fs s
      | None => for_keys T (write_secondary T r (0 :: pk r)) 1 fs s
      end
  end.

Lemma put_secondaries_spec s m r : holds s m -> can_write s -> row_ok r -> row_fits r ->
  (conflict m r /\ put_secondaries s r = Abort "key already exists") \/
  (~ conflict m r /\ exists s', put_secondaries s r = Ok s' /\ became s (all_moved (kv_at s) 1 (Secondary T) (m !! pk r) (Some
    r) (0 :: pk r)) s').
Proof using Htable.
  intros Hm Hc Hr Hfit. rewrite <- (taken_conflict s m r Hm).
  assert (Hbound : 1 + Z.of_nat (length (Secondary T)) <= 256) by (pose proof few_indexes; lia).
  assert (Hown := fun i f => held_own s m r i f Hm).
  assert (Hdone : forall step, step_ok step (fun w idx f => own w idx f (m !! pk r) (0 :: pk r)) (m !! pk r) (Some r) (0 :: pk
    r) 1 (Secondary T) ->
    put_secondaries s r = for_keys T step 1 (Secondary T) s ->
    ((exists i f, Secondary T !! i = Some f /\ taken (kv_at s) (1 + Z.of_nat i) f (Some r) (0 :: pk r)) /\ put_secondaries s r =
      Abort "key already exists") \/
    (~ (exists i f, Secondary T !! i = Some f /\ taken (kv_at s) (1 + Z.of_nat i) f (Some r) (0 :: pk r)) /\
     exists s', put_secondaries s r = Ok s' /\ became s (all_moved (kv_at s) 1 (Secondary T) (m !! pk r) (Some r) (0 :: pk r))
       s')).
  { intros step Hstep E. rewrite E. destruct (for_keys_spec step _ _ _ _ _ (own_local _ _) 1 s Hstep ltac:(lia) Hbound Hc Hown)
      as [?|[Hn ?]]; [by left|right].
    split; [|done]. intros (i & f & Hf & Ht). by apply (Hn i f). }
  destruct (Secondary T) as [|f0 fs0] eqn:Es.
  { apply (Hdone (write_secondary T r (0 :: pk r))); [by intros i f s0 Hf|]. unfold put_secondaries. by rewrite Es. }
  assert (Hreads : kv_reads s) by (apply Hc; by rewrite Es).
  destruct (m !! pk r) as [o|] eqn:Eo.
  - apply (Hdone (replace_secondary T o r (0 :: pk r))).
    + rewrite <- Es. apply replace_step; [|done|done]. by apply (held_rows s m Hm _ _ Eo).
    + unfold put_secondaries. rewrite Es, kv_get, (held_primary s m Hm), Eo by done.
      cbn [fmap option_fmap option_map mbind result_bind].
      unfold unpack_row. rewrite row_roundtrip by (by apply (held_rows s m Hm _ _ Eo)). done.
  - apply (Hdone (write_secondary T r (0 :: pk r))); [rewrite <- Es; by apply write_step|].
    unfold put_secondaries. by rewrite Es, kv_get, (held_primary s m Hm), Eo.
Qed.

Lemma all_moved_at w base fs old new v i f k : fs !! i = Some f ->
  all_moved w base fs old new v (base + Z.of_nat i :: k) = moved w (base + Z.of_nat i) f old new v (base + Z.of_nat i :: k).
Proof.
  intros Hf. cbn [all_moved]. destruct (Z.ltb_spec (base + Z.of_nat i) base); [lia|].
  replace (Z.to_nat (base + Z.of_nat i - base)) with i by lia. by rewrite Hf.
Qed.
Lemma all_moved_shape w base fs old new v k x : all_moved w base fs old new v k = Some x ->
  w k = Some x \/ exists i f k', fs !! i = Some f /\ k = base + Z.of_nat i :: k'.
Proof.
  destruct k as [|y k]; cbn [all_moved]; [by left|]. destruct (Z.ltb_spec y base); [by left|].
  destruct (fs !! _) as [f|] eqn:E; [|by left]. intros _. right. exists (Z.to_nat (y - base)), f, k. split; [done|]. f_equal.
  lia.
Qed.
Lemma held_shape s m k v : holds s m -> kv_at s k = Some v ->
  (exists p, k = 0 :: p) \/ exists i f k', Secondary T !! i = Some f /\ k = 1 + Z.of_nat i :: k'.
Proof. intros Hm Hk. eapply entry_shape, (held_entries s m Hm), Hk. Qed.

(** The entries of a secondary index after a row is put. *)
Lemma put_secondary_entry s m r i f k v : holds s m -> ~ conflict m r -> Secondary T !! i = Some f ->
  moved (kv_at s) (1 + Z.of_nat i) f (m !! pk r) (Some r) (0 :: pk r) (1 + Z.of_nat i :: k) = Some v <->
  exists p r', <[pk r := r]> m !! p = Some r' /\ k = key_bytes f r' /\ v = 0 :: p.
Proof.
  intros Hm Hn Hf. unfold moved. cbn [fmap option_fmap option_map]. destruct (decide (k = key_bytes f r)) as [->|Hk].
  - rewrite decide_True by done. split; [intros [= <-]; exists (pk r), r; by rewrite lookup_insert_eq|].
    intros (p & r' & Hr & E & ->). f_equal. f_equal. destruct (decide (p = pk r)) as [->|Hp]; [done|].
    rewrite lookup_insert_ne in Hr by done.
    exfalso. apply Hn. exists f, p, r'. split; [by eapply list_elem_of_lookup_2|done].
  - rewrite decide_False by congruence. split.
    + intros E. case_decide as Ho; [done|]. apply (held_secondary s m Hm i f) in E as (p & r' & Hr & -> & ->); [|done].
      exists p, r'.
      split; [|done]. rewrite lookup_insert_ne; [done|]. intros <-. apply Ho. by rewrite Hr.
    + intros (p & r' & Hr & -> & ->). destruct (decide (p = pk r)) as [->|Hp]; [rewrite lookup_insert_eq in Hr;
        by injection Hr as ->|].
      rewrite lookup_insert_ne in Hr by done. rewrite decide_False; [apply (held_secondary s m Hm i f); eauto|].
      intros E. destruct (m !! pk r) as [o|] eqn:Eo; [|done]. injection E as E. apply Hp.
      exact (held_unique s m Hm i f _ _ _ _ Hf Hr Eo E).
Qed.

Lemma put_spec s m r : holds s m -> can_write s -> row_ok r -> row_fits r ->
  (conflict m r /\ put T s r = Abort "key already exists") \/
  (~ conflict m r /\ exists s', put T s r = Ok s' /\ can_write s' /\ (kv_reads s -> kv_reads s') /\ holds s' (<[pk r := r]> m)).
Proof using Htable.
  intros Hm Hc Hr Hfit. assert (Eput : put T s r = put_secondaries s r ≫= fun s => raw_kvPut s (0 :: pk r) (convert_to_frac T
    r)) by done.
  rewrite Eput. clear Eput. destruct (put_secondaries_spec s m r Hm Hc Hr Hfit) as [[Hx ->]|(Hn & s1 & -> & Hc1 & Hr1 & E1)];
    [by left|right].
  split; [done|]. cbn [mbind result_bind]. destruct (kv_put s1 (0 :: pk r) (convert_to_frac T r)) as (s2 & -> & Hs2);
    [apply Hc1|apply Hfit|].
  apply wrote_became in Hs2 as (Hc2 & Hr2 & E2); [|done]. exists s2. split; [done|]. split; [done|]. split; [auto|]. split.
  - intros p r'. destruct (decide (p = pk r)) as [->|Hp]; [rewrite lookup_insert_eq; by intros [= <-]|].
    rewrite lookup_insert_ne by done. apply (held_rows s m Hm).
  - apply entries_by_index.
    + intros k v. rewrite E2. case_decide as Ek; [subst k; eauto|]. rewrite E1.
      intros [Hk|Hk]%all_moved_shape; [by eapply held_shape|by right].
    + intros p. rewrite E2. destruct (decide (p = pk r)) as [->|Hp]; [by rewrite decide_True, lookup_insert_eq by done|].
      rewrite decide_False, lookup_insert_ne, E1 by congruence. by apply (held_primary s m).
    + intros i f k v Hf. rewrite E2, decide_False, E1 by (injection; lia). rewrite (all_moved_at _ 1 _ _ _ _ i f) by done.
      by apply put_secondary_entry.
Qed.

(** ** Removing rows *)

Lemma remove_spec s m r : holds s m -> can_write s -> m !! pk r = Some r ->
  exists s', remove T s r = Ok s' /\ can_write s' /\ (kv_reads s -> kv_reads s') /\ holds s' (delete (pk r) m).
Proof using Htable.
  intros Hm Hc Hr. assert (Hlen : 0 + Z.of_nat (length indexes) <= 256) by (pose proof few_indexes; cbn [indexes length]; lia).
  assert (Hlocal : local (fun _ _ _ => True)) by (by intros ? ? ? ?).
  destruct (for_keys_spec _ _ _ _ _ _ Hlocal 0 s (erase_step r) ltac:(lia) Hlen Hc ltac:(done)) as [[(i & f & _ & r' & v' & [=]
    & _) _]|(_ & s' & Hs' & Hc' & Hr' & E')].
  exists s'. split; [exact Hs'|]. split; [done|]. split; [done|].
  assert (Hat : forall i f k, indexes !! i = Some f -> kv_at s' (Z.of_nat i :: k) = if decide (k = key_bytes f r) then None else
    kv_at s (Z.of_nat i :: k)).
  { intros i f k Hf. rewrite E'. pose proof (all_moved_at (kv_at s) 0 indexes (Some r) None [] i f k Hf) as Ea.
    rewrite Z.add_0_l in Ea. rewrite Ea.
    unfold moved. cbn. rewrite (decide_False (P := Some _ = None)) by done.
    destruct (decide (k = _)) as [->|]; [by rewrite decide_True|by rewrite decide_False by congruence]. }
  split.
  - intros p r' Hp. apply lookup_delete_Some in Hp as [_ Hp]. by apply (held_rows s m Hm).
  - apply entries_by_index.
    + intros k v. rewrite E'. intros [Hk|(i & f & k' & Hf & ->)]%all_moved_shape; [by eapply held_shape|].
      destruct i as [|i]; [by left; eexists|right]. exists i, f, k'. split; [done|]. f_equal. lia.
    + intros p. pose proof (Hat 0%nat (Primary T) p eq_refl) as E0. change (Z.of_nat 0) with 0 in E0. rewrite E0, lookup_delete.
      destruct (decide (p = pk r)) as [->|Hp]; [by rewrite !decide_True by done|]. rewrite !decide_False by congruence.
      by apply (held_primary s m).
    + intros i f k v Hf. replace (1 + Z.of_nat i) with (Z.of_nat (Datatypes.S i)) by lia. rewrite (Hat (Datatypes.S i) f k Hf).
      replace (Z.of_nat (Datatypes.S i)) with (1 + Z.of_nat i) by lia. split.
      * case_decide as Hk; [done|]. intros E. apply (held_secondary s m Hm i f k v Hf) in E as (p & r' & Hp & -> & ->).
        exists p, r'. split; [|done].
        rewrite lookup_delete_ne; [done|]. intros <-. apply Hk. congruence.
      * intros (p & r' & [Hp Hr'']%lookup_delete_Some & -> & ->).
        rewrite decide_False; [apply (held_secondary s m Hm i f); eauto|].
        intros E. apply Hp. symmetry. exact (held_unique s m Hm i f _ _ _ _ Hf Hr'' Hr E).
Qed.

(** ** Looking up rows *)

Lemma index_byte i f : indexes !! i = Some f -> u8 (Z.of_nat i) = Z.of_nat i.
Proof using Htable.
  intros Hf%lookup_lt_Some. pose proof few_indexes. cbn [indexes length] in Hf. apply wrap_small. change (2 ^ 8) with 256. lia.
Qed.

(** The entry of a key in the index [i], which is the row or the key of the row. *)
Lemma held_index s m i f k : holds s m -> indexes !! i = Some f ->
  match kv_at s (Z.of_nat i :: k) with
  | Some v => exists p r, m !! p = Some r /\ k = key_bytes f r /\ v = if 0 <? Z.of_nat i then 0 :: p else convert_to_frac T r
  | None => forall p r, m !! p = Some r -> k <> key_bytes f r
  end.
Proof.
  intros Hm Hf. destruct i as [|i].
  - injection Hf as <-. change (Z.of_nat 0) with 0. rewrite (held_primary s m Hm). destruct (m !! k) as [r|] eqn:Er; cbn.
    + exists k, r. split; [done|]. split; [by apply (held_rows s m Hm)|done].
    + intros p r Hp ->. rewrite (held_pk s m Hm r p Hp) in Er. done.
  - change (indexes !! Datatypes.S i) with (Secondary T !! i) in Hf.
    replace (Z.of_nat (Datatypes.S i)) with (1 + Z.of_nat i) by lia.
    rewrite (proj2 (Z.ltb_lt 0 (1 + Z.of_nat i))) by lia.
    destruct (kv_at s _) as [v|] eqn:Ev; [by apply (held_secondary s m Hm i f)|].
    intros p r Hp ->. enough (kv_at s (1 + Z.of_nat i :: key_bytes f r) = Some (0 :: p)) by congruence.
    apply (held_secondary s m Hm i f); eauto.
Qed.

(** Following an entry to its row: the end of [getImpl] and of [read]. *)
Definition follow s (secondary : bool) (v : bytes) : result bytes :=
  if secondary then c ← raw_kvGet s v; match c with Some c => mret c | None => Abort "primary key not found" end else mret v.
Lemma follow_row s m i p r : holds s m -> kv_reads s -> m !! p = Some r ->
  follow s (0 <? Z.of_nat i) (if 0 <? Z.of_nat i then 0 :: p else convert_to_frac T r) = Ok (convert_to_frac T r).
Proof.
  intros Hm Hr Hp. unfold follow. destruct (0 <? Z.of_nat i); [|done]. rewrite kv_get by done. cbn [mbind result_bind].
  by rewrite (held_primary s m Hm), Hp.
Qed.
Lemma unpack_held s m p r : holds s m -> m !! p = Some r -> unpack_row T (convert_to_frac T r) = Ok r.
Proof using Htable. intros Hm Hp. unfold unpack_row. rewrite row_roundtrip; [done|]. by apply (held_rows s m Hm p). Qed.

Lemma ix_get_spec s m i f k : holds s m -> kv_reads s -> indexes !! i = Some f ->
  exists o, ix_get T s (getIndex (Z.of_nat i)) (key_type f) k = Ok o /\
    match o with
    | Some r => exists p, m !! p = Some r /\ key_bytes f r = to_key (key_type f) k
    | None => forall p r, m !! p = Some r -> key_bytes f r <> to_key (key_type f) k
    end.
Proof using Htable.
  intros Hm Hr Hf. unfold ix_get. rewrite kv_get by done. cbn [mbind result_bind].
  change (ix_key (getIndex (Z.of_nat i)) (key_type f) k) with (u8 (Z.of_nat i) :: to_key (key_type f) k).
  rewrite (index_byte i f) by done.
  pose proof (held_index s m i f (to_key (key_type f) k) Hm Hf) as Hi. destruct (kv_at s _) as [v|].
  - destruct Hi as (p & r & Hp & Hk & ->). pose proof (follow_row s m i p r Hm Hr Hp) as Hfollow. unfold follow in Hfollow.
    exists (Some r). split; [|by exists p]. cbn [getIndex ix_secondary]. rewrite Hfollow. cbn [mbind result_bind].
    by rewrite (unpack_held s m p r Hm Hp).
  - exists None. split; [done|]. intros p r Hp E. by apply (Hi p r Hp).
Qed.

(** ** Erasing a key *)

Lemma holds_ext s s' m : (forall k, kv_at s' k = kv_at s k) -> holds s m -> holds s' m.
Proof. intros E Hm. split; [apply (held_rows s m Hm)|]. intros k v. rewrite E. apply (held_entries s m Hm). Qed.

Lemma erase_spec s m k : holds s m -> can_write s ->
  exists s', erase T s k = Ok s' /\ can_write s' /\ (kv_reads s -> kv_reads s') /\
    holds s' (delete (to_key (key_type (Primary T)) k) m).
Proof using Htable.
  intros Hm Hc. set (p := to_key (key_type (Primary T)) k). unfold erase. destruct (Secondary T) as [|f0 fs0] eqn:Es.
  - rewrite serialize_key_eq. fold p. destruct (kv_remove s (0 :: p)) as (s' & Es' & Hs'); [apply Hc|].
    destruct (m !! p) as [r|] eqn:Ep.
    + destruct (held_rows s m Hm p r Ep) as [_ Hpk]. rewrite Hpk in Ep. destruct (remove_spec s m r Hm Hc Ep) as (s2 & E2 & H2).
      exists s2. rewrite <- Hpk in H2. split; [|done]. rewrite <- E2. unfold remove. rewrite Es. cbn [for_keys].
      unfold erase_key. rewrite key_buffer_eq, <- Hpk.
      by rewrite Es'.
    + apply wrote_became in Hs' as (Hc' & Hr' & E'); [|done]. exists s'. split; [done|]. split; [done|]. split; [done|].
      rewrite delete_id by done.
      eapply holds_ext; [|exact Hm]. intros k'. rewrite E'. case_decide as Ek; [|done]. subst k'.
      by rewrite (held_primary s m Hm), Ep.
  - assert (Hr : kv_reads s) by (apply Hc; by rewrite Es).
    destruct (ix_get_spec s m 0 (Primary T) k Hm Hr eq_refl) as (o & Eo & Ho).
    change (ix_get T s (getIndex (Z.of_nat 0)) (key_type (Primary T)) k) with (get T s k) in Eo. rewrite Eo.
    cbn [mbind result_bind]. destruct o as [r|].
    + destruct Ho as (q & Hq & Ek). fold p in Ek. rewrite <- Ek. apply remove_spec; [done|done|]. by eapply held_pk.
    + exists s. split; [done|]. split; [done|]. split; [done|]. rewrite delete_id; [done|].
      destruct (m !! p) as [r|] eqn:Ep; [|done].
      destruct (Ho p r Ep). by destruct (held_rows s m Hm p r Ep) as [_ <-].
Qed.
End table_map.
