(* ===== verification/TableScan.v ===== *)
(** * psibase: iterating over the indexes of a table

    An iterator stands at the first entry of an index that satisfies a predicate
    on keys, its cut: the begin, the bounds of [lower_bound] and [upper_bound] and
    the end are such cuts.  Going from one to another visits the rows in between,
    in the order of the keys of the index.  At the end, a storage ([Database]) as the
    database of a table, and the table types whose rows are classes in fracpack with
    members as keys. *)

From S2P Require Import Prelude ToKey BucketSet Database NativeKv Fracpack FracpackSafe FracpackLayout FracpackRead FracpackTheorems FracpackModes TableKeys Table TableMap.

(** ** Found entries *)

Lemma found_in_present w P Q before r : (forall k, is_Some (w k) -> P k = Q k) -> found_in w P before r ->
  found_in w Q before r.
Proof.
  intros E. unfold found_in. destruct r as [[k v]|].
  - intros (Hk & HP & Hb). split; [done|]. split; [by rewrite <- E|]. intros k' Hk'. rewrite <- E by done. by apply Hb.
  - intros Hn k' Hk'. rewrite <- E by done. by apply Hn.
Qed.

Lemma found_in_unique w P r1 r2 : found_in w P lle r1 -> found_in w P lle r2 -> r1 = r2.
Proof.
  destruct r1 as [[k1 v1]|], r2 as [[k2 v2]|]; [|intros (Hk & HP & _) Hn|intros Hn (Hk & HP & _)|done].
  - intros (Hk1 & HP1 & Hb1) (Hk2 & HP2 & Hb2). assert (k1 = k2) as -> by (apply lle_antisym; [apply Hb1|apply Hb2]; eauto).
    congruence.
  - rewrite (Hn k1) in HP; [done|eauto].
  - rewrite (Hn k2) in HP; [done|eauto].
Qed.

(** ** Where an iterator stands *)

(** The iterator at a found entry, or at the end. *)
Definition iterator_at (P : bytes) (secondary : bool) (r : option (bytes * bytes)) : kv_raw_iterator :=
  match r with
  | Some (k, _) => {| it_key := k; prefix_size := length P; is_secondary := secondary; is_end := false |}
  | None => {| it_key := P; prefix_size := length P; is_secondary := secondary; is_end := true |}
  end.

Lemma same_iterator_at P sec r1 r2 : same_iterator (iterator_at P sec r1) (iterator_at P sec r2) = bool_decide (fst <$> r1 = fst
  <$> r2).
Proof.
  unfold same_iterator, compare_iterators. destruct r1 as [[k1 v1]|], r2 as [[k2 v2]|]; cbn; try done.
  - destruct (lex_compare k1 k2) eqn:E; [apply lex_compare_eq in E as ->; by rewrite bool_decide_true|..];
      rewrite bool_decide_false; try done; intros [= ->]; by rewrite lex_compare_refl in E.
  - rewrite lex_compare_refl. by rewrite bool_decide_true.
Qed.

Section scan.
Context {S : Type} `{Hkv : RawKv S} `{Hlaws : !RawKvLaws S}.
#[local] Set Default Proof Using "Type".
Implicit Types (s : S).

Definition keys_are_bytes s : Prop := forall k, is_Some (kv_at s k) -> bytes_ok k.
Definition stands s (P : bytes) (sec : bool) (C : bytes -> bool) (it : kv_raw_iterator) : Prop :=
  exists r, found_in (kv_at s) (fun k => has_prefix P k && C k) lle r /\ it = iterator_at P sec r.
(** The keys from some point on. *)
Definition upward (C : bytes -> bool) : Prop := forall a b, lle a b = true -> C a = true -> C b = true.

Lemma stands_ext s P sec C C' it : (forall k, is_Some (kv_at s k) -> has_prefix P k = true -> C k = C' k) ->
  stands s P sec C it -> stands s P sec C' it.
Proof.
  intros E (r & Hr & ->). exists r. split; [|done]. eapply found_in_present; [|exact Hr]. intros k Hk. cbn.
  destruct (has_prefix P k) eqn:Ep; [|done]. by rewrite E.
Qed.

Lemma same_start_prefix P c k : same_start (length P) (P ++ c) k = has_prefix P k.
Proof. unfold same_start, has_prefix. by rewrite take_app_length. Qed.

Lemma set_iterator P c r sec e : set r {| it_key := P ++ c; prefix_size := length P; is_secondary := sec; is_end := e |} =
  iterator_at P sec r.
Proof. destruct r as [[k v]|]; [done|]. unfold set, iterator_at. cbn. by rewrite take_app_length. Qed.

Lemma greater_equal_stands s P c : kv_reads s -> exists r, raw_kvGreaterEqual s (P ++ c) (length P) = Ok r /\
  found_in (kv_at s) (fun k => has_prefix P k && lle (P ++ c) k) lle r.
Proof.
  intros Hr. destruct (kv_greater_equal s (P ++ c) (length P) Hr) as (r & -> & Hf); [rewrite length_app; lia|]. exists r.
  split; [done|].
  eapply found_in_ext; [|exact Hf]. intros k. cbn. by rewrite same_start_prefix, andb_comm.
Qed.

Section index.
Context s (ix : TableIndex) (Hreads : kv_reads s).
Abbreviation P := (ix_prefix ix).
Abbreviation sec := (ix_secondary ix).

Lemma end_stands : exists it, ix_end ix = Ok it /\ it = iterator_at P sec None /\ stands s P sec (fun _ => false) it.
Proof.
  unfold ix_end, make_iterator, check. rewrite Nat.leb_refl. eexists. split; [done|]. split; [done|]. exists None.
  split; [|done].
  intros k _. by rewrite andb_false_r.
Qed.

Lemma found_stands c : exists it, found_iterator s ix (P ++ c) = Ok it /\ stands s P sec (lle (P ++ c)) it.
Proof using Hreads.
  unfold found_iterator. destruct (greater_equal_stands s P c Hreads) as (r & -> & Hf). cbn [mbind result_bind].
  unfold make_iterator, check. rewrite (proj2 (Nat.leb_le _ _)) by (rewrite length_app; lia).
  cbn [mbind result_bind mret result_ret].
  rewrite set_iterator. eexists. split; [done|]. exists r. split; [exact Hf|done].
Qed.

(** Incrementing the end iterator goes to the first entry. *)
Lemma increment_end : exists it, increment s (iterator_at P sec None) = Ok it /\ stands s P sec (fun _ => true) it.
Proof using Hreads.
  unfold increment. cbn [iterator_at is_end it_key prefix_size is_secondary].
  destruct (greater_equal_stands s P [] Hreads) as (r & Er & Hf). pose proof (set_iterator P [] r sec true) as Es.
  rewrite app_nil_r in Er, Es.
  rewrite Er. cbn [mbind result_bind]. rewrite Es. eexists. split; [done|]. eapply stands_ext; [|exists r; by split].
  intros k _ Hp. cbn. by rewrite app_nil_r, lle_after, Hp.
Qed.

Lemma begin_stands : exists it, ix_begin s ix = Ok it /\ stands s P sec (fun _ => true) it.
Proof using Hreads.
  unfold ix_begin. destruct end_stands as (it & -> & -> & _). cbn [mbind result_bind]. exact increment_end.
Qed.

(** Incrementing an iterator at an entry goes to the next one. *)
Lemma increment_at k v : keys_are_bytes s -> has_prefix P k = true ->
  exists it, increment s (iterator_at P sec (Some (k, v))) = Ok it /\ stands s P sec (fun k' => negb (lle k' k)) it.
Proof using Hreads.
  intros Hbytes [c ->]%has_prefix_app. unfold increment. cbn [iterator_at is_end it_key prefix_size is_secondary].
  rewrite <- app_assoc. destruct (greater_equal_stands s P (c ++ [0]) Hreads) as (r & -> & Hf). cbn [mbind result_bind].
  rewrite set_iterator.
  eexists. split; [done|]. eapply stands_ext; [|exists r; by split]. intros k Hk _. cbn. rewrite app_assoc. apply lle_push_zero.
  by apply Hbytes.
Qed.

(** Decrementing goes to the entry before, or to the last one from the end. *)
Lemma decrement_at k v : has_prefix P k = true -> exists r, decrement s (iterator_at P sec (Some (k, v))) = Ok (iterator_at P
  sec r) /\
  found_in (kv_at s) (fun k' => has_prefix P k' && negb (lle k k')) (fun x y => lle y x) r.
Proof using Hreads.
  intros [c ->]%has_prefix_app. unfold decrement. cbn [iterator_at is_end it_key prefix_size is_secondary].
  destruct (kv_less_than s (P ++ c) (length P) Hreads) as (r & -> & Hf); [rewrite length_app; lia|]. cbn [mbind result_bind].
  rewrite set_iterator.
  exists r. split; [done|]. eapply found_in_ext; [|exact Hf]. intros k. cbn. by rewrite same_start_prefix, andb_comm.
Qed.
Lemma decrement_end : exists r, decrement s (iterator_at P sec None) = Ok (iterator_at P sec r) /\
  found_in (kv_at s) (has_prefix P) (fun x y => lle y x) r.
Proof using Hreads.
  unfold decrement. cbn [iterator_at is_end it_key prefix_size is_secondary]. destruct (kv_max s P Hreads) as (r & -> & Hf).
  cbn [mbind result_bind].
  pose proof (set_iterator P [] r sec true) as Es. rewrite app_nil_r in Es. rewrite Es. by exists r.
Qed.

(** Incrementing and then decrementing comes back to the entry. *)
Lemma decrement_increment k v : keys_are_bytes s -> kv_at s k = Some v -> has_prefix P k = true ->
  exists it, increment s (iterator_at P sec (Some (k, v))) = Ok it /\ decrement s it = Ok (iterator_at P sec (Some (k, v))).
Proof using Hreads.
  intros Hb Hk Hp. destruct (increment_at k v Hb Hp) as (it & Ei & r & Hr & ->). exists (iterator_at P sec r). split; [done|].
  assert (Hbest : forall r', found_in (kv_at s) (fun k' => has_prefix P k' && lle k' k) (fun x y => lle y x) r' -> r' = Some (k,
    v)).
  { assert (Pk : has_prefix P k && lle k k = true) by (by rewrite Hp, lle_refl).
    intros [[k' v']|] Hf; [|by rewrite (Hf k) in Pk by eauto].
    destruct Hf as (Hk' & [_ Hle]%andb_prop & Hmax). assert (k' = k) as -> by (apply lle_antisym; [done|apply Hmax; eauto]).
    congruence. }
  destruct r as [[k2 v2]|].
  - destruct Hr as (Hk2 & [Hp2 Hlt]%andb_prop & Hmin). destruct (decrement_at k2 v2 Hp2) as (r' & -> & Hf).
    rewrite (Hbest r'); [done|].
    eapply found_in_present; [|exact Hf]. intros k' Hk'. cbn. destruct (has_prefix P k') eqn:Ep; [|done]. cbn.
    apply negb_true_iff in Hlt.
    destruct (lle k' k) eqn:E1; [apply negb_true_iff; destruct (lle k2 k') eqn:E2; [|done];
      by rewrite (lle_trans _ _ _ E2 E1) in Hlt|].
    by rewrite Hmin by (rewrite ?Ep, ?E1; done).
  - destruct decrement_end as (r' & -> & Hf). rewrite (Hbest r'); [done|]. eapply found_in_present; [|exact Hf]. intros k' Hk'.
    cbn.
    specialize (Hr k' Hk'). cbn in Hr. destruct (has_prefix P k'); [|done]. by apply negb_false_iff in Hr.
Qed.

(** *** The bounds *)

Lemma next_prefix_spec c : bytes_ok c ->
  match next_prefix (length P) (rev (P ++ c)) with
  | None => forall k, bytes_ok k -> has_prefix P k = true -> after (P ++ c) k = false
  | Some key => (exists c', key = P ++ c') /\ forall k, bytes_ok k -> lle key k = after (P ++ c) k
  end.
Proof.
  induction c as [|x c IH] using rev_ind; intros Hc.
  - rewrite app_nil_r. assert (Hn : next_prefix (length P) (rev P) = None).
    { destruct (rev P) as [|y l] eqn:E; [done|]. cbn [next_prefix]. rewrite <- E, length_rev, Nat.leb_refl. done. }
    rewrite Hn. intros k _ Hp. unfold after. by rewrite Hp, andb_false_r.
  - apply Forall_app in Hc as [Hc Hx]. inversion_clear Hx as [|? ? Hx' _]. unfold is_byte in Hx'.
    rewrite app_assoc, rev_app_distr. cbn [rev app next_prefix length].
    rewrite (proj2 (Nat.leb_gt _ _)) by (rewrite length_rev, length_app; lia).
    destruct (Z.eqb_spec x 255) as [->|Hne]; cbn [negb].
    + specialize (IH Hc). destruct (next_prefix _ _) as [key|]; [destruct IH as [Hk IH]; split; [done|]|]; intros k Hk';
        rewrite after_last_max by done; auto.
    + cbn [rev]. rewrite rev_involutive, wrap_small by (change (2 ^ 8) with 256; lia).
      split; [exists (c ++ [x + 1]); by rewrite app_assoc|].
      intros k _. apply after_last_succ.
Qed.

Lemma lower_bound_stands t k : exists it, ix_lower_bound s ix t k = Ok it /\ stands s P sec (lle (P ++ to_key t k)) it.
Proof using Hreads. apply found_stands. Qed.
Lemma upper_bound_stands t k : keys_are_bytes s -> has_type t k = true ->
  exists it, ix_upper_bound s ix t k = Ok it /\ stands s P sec (after (P ++ to_key t k)) it.
Proof using Hreads.
  intros Hb Ht. unfold ix_upper_bound. pose proof (next_prefix_spec (to_key t k) (to_key_bytes t k Ht)) as Hn.
  change (ix_key ix t k) with (P ++ to_key t k). destruct (next_prefix _ _) as [key|].
  - destruct Hn as [[c ->] Hn]. destruct (found_stands c) as (it & -> & Hit). exists it. split; [done|].
    eapply stands_ext; [|exact Hit]. intros k' Hk' _. apply Hn. by apply Hb.
  - destruct end_stands as (it & -> & _ & Hit). exists it. split; [done|]. eapply stands_ext; [|exact Hit].
    intros k' Hk' Hp. symmetry. apply Hn; [by apply Hb|done].
Qed.
End index.

Lemma upward_lle a : upward (lle a).
Proof. intros x y Hxy Ha. by eapply lle_trans. Qed.
Lemma upward_after a : upward (after a).
Proof.
  intros x y Hxy [Ha Hp]%andb_prop. apply andb_true_iff. split; [by eapply lle_trans|]. apply negb_true_iff.
  destruct (has_prefix a y) eqn:Ey; [|done].
  apply has_prefix_app in Ey as [c ->]. apply negb_true_iff in Hp. rewrite <- Hp. symmetry. apply has_prefix_app.
  apply (lle_between a [] c); [by rewrite app_nil_r|done].
Qed.
Lemma upward_beyond k : upward (fun k' => negb (lle k' k)).
Proof.
  intros x y Hxy Hx. apply negb_true_iff in Hx. apply negb_true_iff. destruct (lle y k) eqn:E; [|done].
  by rewrite (lle_trans _ _ _ Hxy E) in Hx.
Qed.
End scan.

(** ** Visiting rows *)

Lemma filter_length_lt {A} (P Q : A -> bool) (l : list A) x : x ∈ l -> Q x = true -> P x = false ->
  (forall y, P y = true -> Q y = true) ->
  (length (List.filter P l) < length (List.filter Q l))%nat.
Proof.
  intros Hx HQ HP Himp. assert (Hle : forall l, (length (List.filter P l) <= length (List.filter Q l))%nat).
  { induction l0 as [|y l0 IH]; [done|]. cbn. destruct (P y) eqn:E; [rewrite (Himp y E); cbn; lia|]. destruct (Q y); cbn; lia. }
  induction Hx as [x l|x y l Hx IH]; cbn.
  - rewrite HP, HQ. cbn. specialize (Hle l). lia.
  - specialize (IH HQ HP). destruct (P y) eqn:E; [rewrite (Himp y E); cbn; lia|]. destruct (Q y); cbn; lia.
Qed.

Section rows.
Context {S : Type} `{Hkv : RawKv S} `{Hlaws : !RawKvLaws S} (T : TableType) `{Htable : !TableOk T}.
#[local] Set Default Proof Using "Type".
Implicit Types (s : S) (m : gmap bytes (row T)) (r : row T).

(** [for (; it != last; ++it)], with the rows that are visited. *)
Fixpoint visit (fuel : nat) s (it last : kv_raw_iterator) : result (list (row T)) :=
  match fuel with
  | O => Abort "not finished"
  | Datatypes.S fuel =>
      if same_iterator it last then mret []
      else r ← deref T s it; it ← increment s it; rest ← visit fuel s it last; mret (r :: rest)
  end.

(** A view of the index [i], which may be restricted to a prefix of its keys. *)
Definition index_view (i : nat) (ix : TableIndex) : Prop :=
  (exists q, ix_prefix ix = Z.of_nat i :: q) /\ ix_secondary ix = (0 <? Z.of_nat i).

Lemma getIndex_view i f : indexes T !! i = Some f -> index_view i (getIndex (Z.of_nat i)).
Proof using Htable. intros Hf. split; [|done]. exists []. cbn [getIndex ix_prefix table_prefix app].
by rewrite (index_byte T i f). Qed.
Lemma subindex_view i ix t k : index_view i ix -> index_view i (subindex ix t k).
Proof. intros [[q E] Hs]. split; [|done]. exists (q ++ to_key t k). cbn. unfold ix_key, convert_to_key. by rewrite E. Qed.

Section held.
Context s m (Hm : holds T s m) (Hreads : kv_reads s).

Lemma held_bytes : keys_are_bytes s.
Proof using Hm Htable.
  assert (Hkey : forall f r p, f ∈ indexes T -> m !! p = Some r -> bytes_ok (key_bytes f r)).
  { intros f r p Hf Hr. apply to_key_bytes, row_keys; [|done]. by apply (held_rows T s m Hm p). }
  pose proof few_indexes as Hfew. intros k [v Hk]. apply (held_entries T s m Hm) in Hk as [p r Hr|i f p r Hf Hr].
  - constructor; [unfold is_byte; lia|]. destruct (held_rows T s m Hm p r Hr) as [_ ->]. eapply Hkey; [left|done].
  - apply lookup_lt_Some in Hf as Hlt. constructor; [unfold is_byte; lia|]. eapply Hkey; [|done]. right.
    by eapply list_elem_of_lookup_2.
Qed.

Lemma index_row_unique i f p1 r1 p2 r2 : indexes T !! i = Some f -> m !! p1 = Some r1 -> m !! p2 = Some r2 ->
  key_bytes f r1 = key_bytes f r2 -> r1 = r2.
Proof using Hm.
  intros Hf H1 H2 E. destruct i as [|i].
  - injection Hf as <-. apply (held_pk T s m Hm) in H1, H2. congruence.
  - assert (p1 = p2) as -> by exact (held_unique T s m Hm i f _ _ _ _ Hf H1 H2 E). congruence.
Qed.

(** The full key of a row in the index [i]. *)
Definition full_key (i : nat) (f : KeyFn (row T)) r : bytes := Z.of_nat i :: key_bytes f r.

Lemma row_entry i f p r : indexes T !! i = Some f -> m !! p = Some r -> is_Some (kv_at s (full_key i f r)).
Proof using Hm.
  intros Hf Hr. pose proof (held_index T s m i f (key_bytes f r) Hm Hf) as Hi. unfold full_key. destruct (kv_at s _); [eauto|].
  by destruct (Hi p r Hr).
Qed.

Lemma deref_row i f ix k v : indexes T !! i = Some f -> index_view i ix -> kv_at s k = Some v ->
  has_prefix (ix_prefix ix) k = true ->
  exists p r, m !! p = Some r /\ k = full_key i f r /\ deref T s (iterator_at (ix_prefix ix) (ix_secondary ix) (Some (k, v))) =
    Ok r.
Proof using Hm Hreads Htable.
  intros Hf [[q Eq] Es] Hk [c ->]%has_prefix_app. rewrite Eq in Hk |- *. cbn [app] in *.
  pose proof (held_index T s m i f (q ++ c) Hm Hf) as Hi.
  rewrite Hk in Hi. destruct Hi as (p & r & Hr & Ek & ->). exists p, r. split; [done|].
  split; [by unfold full_key; rewrite Ek|].
  unfold deref, read. cbn [iterator_at it_key is_secondary]. rewrite kv_get, Hk, Es by done. cbn [mbind result_bind].
  pose proof (follow_row T s m i p r Hm Hreads Hr) as Hfollow. unfold follow in Hfollow. rewrite Hfollow.
  cbn [mbind result_bind].
  by apply (unpack_held T s m p).
Qed.

Section visiting.
Context (i : nat) (f : KeyFn (row T)) (Hf : indexes T !! i = Some f) (ix : TableIndex) (Hix : index_view i ix).
Abbreviation P := (ix_prefix ix).
Abbreviation sec := (ix_secondary ix).

(** The rows of the view whose keys are in a set. *)
Definition rows_in (C : bytes -> bool) r : Prop := (exists p, m !! p = Some r) /\ has_prefix P (full_key i f r) && C (full_key i f r) = true.
Definition count_in (C : bytes -> bool) : nat :=
  length (List.filter (fun e => has_prefix P (full_key i f e.2) && C (full_key i f e.2)) (map_to_list m)).

Lemma visit_spec fuel : forall C1 C2 it last, stands s P sec C1 it -> stands s P sec C2 last ->
  upward C1 -> upward C2 -> (forall k, C2 k = true -> C1 k = true) -> (count_in C1 < fuel)%nat ->
  exists l, visit fuel s it last = Ok l /\ (forall r, r ∈ l <-> rows_in (fun k => C1 k && negb (C2 k)) r) /\
    StronglySorted (fun a b => lex_compare (key_bytes f a) (key_bytes f b) = Lt) l.
Proof using Hm Hreads Htable Hf Hix.
  induction fuel as [|fuel IH]; intros C1 C2 it last (r1 & Hr1 & ->) (r2 & Hr2 & ->) U1 U2 Hsub Hfuel; [lia|]. cbn [visit].
  rewrite same_iterator_at.
  assert (Hcomp : forall r, rows_in (fun k => C1 k && negb (C2 k)) r -> is_Some (kv_at s (full_key i f r)) /\ has_prefix P
    (full_key i f r) && C1 (full_key i f r) = true /\ C2 (full_key i f r) = false).
  { intros r ((p & Hp) & [Hpre [H1 H2]%andb_prop]%andb_prop). split; [by eapply row_entry|].
    split; [by rewrite Hpre|by apply negb_true_iff]. }
  destruct r1 as [[k v]|].
  2:{ rewrite bool_decide_true.
      - exists []. split; [done|]. split; [|constructor]. intros r. split; [by intros ?%elem_of_nil|].
        intros (Hs & Hc & _)%Hcomp. by rewrite (Hr1 _ Hs) in Hc.
      - destruct r2 as [[k2 v2]|]; [|done]. destruct Hr2 as (Hk2 & [Hp2 H2]%andb_prop & _). specialize (Hr1 k2 ltac:(eauto)).
        cbn in Hr1. by rewrite Hp2, (Hsub _ H2) in Hr1. }
  destruct Hr1 as (Hk & [Hp H1]%andb_prop & Hmin). destruct (C2 k) eqn:H2.
  { rewrite bool_decide_true.
    - exists []. split; [done|]. split; [|constructor]. intros r. split; [by intros ?%elem_of_nil|].
      intros (Hs & Hc & Hn)%Hcomp.
      rewrite (U2 k _ (Hmin _ Hs Hc) H2) in Hn. done.
    - assert (Hself : found_in (kv_at s) (fun k => has_prefix P k && C2 k) lle (Some (k, v))).
      { split; [done|]. split; [by rewrite Hp, H2|]. intros k' Hk' [Hp' H2']%andb_prop. apply Hmin; [done|].
        by rewrite Hp', (Hsub _ H2'). }
      by rewrite (found_in_unique _ _ _ _ Hr2 Hself). }
  rewrite bool_decide_false; [|intros E; destruct r2 as [[k2 v2]|]; [|done]; injection E as ->;
    destruct Hr2 as (_ & [_ Hc2]%andb_prop & _); congruence].
  destruct (deref_row i f ix k v Hf Hix Hk Hp) as (p0 & r0 & Hr0 & Ek & ->). cbn [mbind result_bind].
  destruct (increment_at s ix Hreads k v held_bytes Hp) as (it' & -> & Hit'). cbn [mbind result_bind].
  destruct (IH (fun k' => negb (lle k' k)) C2 it' (iterator_at P sec r2)) as (l & -> & Hl & Hsort);
    [done|by exists r2|apply upward_beyond|done| | |].
  - intros k' Hk'. apply negb_true_iff. destruct (lle k' k) eqn:E; [|done]. by rewrite (U2 _ _ E Hk') in H2.
  - eapply Nat.lt_le_trans; [|apply (proj1 (Nat.lt_succ_r _ _) Hfuel)]. apply (filter_length_lt _ _ _ (p0, r0)).
    + by apply elem_of_map_to_list.
    + cbn. by rewrite <- Ek, Hp, H1.
    + cbn. by rewrite <- Ek, lle_refl, andb_false_r.
    + intros [p r] [Hp' Hlt]%andb_prop. cbn in *. rewrite Hp'. cbn. apply (U1 k); [|done]. apply negb_true_iff in Hlt.
      by apply lle_not.
  - exists (r0 :: l). split; [done|]. split.
    + intros r. rewrite elem_of_cons, Hl. split.
      * intros [->|((p & Hpr) & [Hpre [Hlt Hn]%andb_prop]%andb_prop)].
        -- split; [by exists p0|]. by rewrite <- Ek, Hp, H1, H2.
        -- split; [by exists p|]. rewrite Hpre. cbn. apply andb_true_iff. split; [|done]. apply (U1 k); [|done].
          apply negb_true_iff in Hlt. by apply lle_not.
      * intros Hr. destruct (Hcomp r Hr) as (Hs & Hc & Hn). destruct Hr as ((p & Hpr) & [Hpre [_ Hn']%andb_prop]%andb_prop).
        destruct (lle (full_key i f r) k) eqn:E.
        -- left. assert (E2 : full_key i f r = full_key i f r0) by (rewrite <- Ek; apply lle_antisym; [done|by apply Hmin]).
          injection E2 as E2.
           by eapply index_row_unique.
        -- right. split; [by exists p|]. rewrite Hpre. cbn. by rewrite E, Hn'.
    + constructor; [done|]. rewrite Forall_forall. intros r Hr. apply Hl in Hr as (_ & [_ [Hlt _]%andb_prop]%andb_prop).
      apply negb_true_iff in Hlt.
      rewrite Ek in Hlt. unfold full_key, lle in Hlt. cbn [lex_compare] in Hlt. rewrite Z.compare_refl in Hlt.
      rewrite lex_compare_antisym. by destruct (lex_compare (key_bytes f r) (key_bytes f r0)).
Qed.
End visiting.
End held.
End rows.

(** ** A storage without a prefix *)

Section storage.
Context {St : Type} `{Hst : Storage St}.

#[export] Instance storage_kv : RawKv St := {
  raw_kvGet s k := Ok (kvGetRaw s k);
  raw_kvGreaterEqual s key m := check (m <=? length key)%nat "matchKeySize is larger than key" ;; Ok (kvGreaterEqualRaw s key m);
  raw_kvLessThan s key m := check (m <=? length key)%nat "matchKeySize is larger than key" ;; Ok (kvLessThanRaw s key m);
  raw_kvMax s key := Ok (kvMaxRaw s key);
  raw_kvPut s k v := Ok (kvPutRaw s k v);
  raw_kvRemove s k := Ok (kvRemoveRaw s k)
}.

Context `{Hlaws : !StorageLaws St}.

Lemma trim_nothing db mode r : trimResult {| b_db := db; b_prefix := []; b_mode := mode |} r = r.
Proof. by destruct r as [[k v]|]. Qed.

(** [greater_equal_view] and the others, for the handle on everything. *)
Definition whole (s : St) : native :=
  {| dbs := fun _ => s; buckets := []; result_key := []; result_value := []; kvResourceDeltas := []; importedHandles := []; exportedHandles := [] |}.
Definition no_prefix : Bucket := {| b_db := db_service; b_prefix := []; b_mode := mode_readWrite |}.

#[export] Instance storage_kv_laws : RawKvLaws St.
Proof.
  refine {| kv_at s k := st_get s k; kv_reads _ := True; kv_writes _ := True; kv_room _ _ := True |}.
  - done.
  - intros s key m _ Hm. cbn. unfold check. rewrite (proj2 (Nat.leb_le _ _) Hm). eexists. split; [done|].
    pose proof (greater_equal_view (whole s) no_prefix key m Hm) as Hf. unfold no_prefix in Hf. rewrite trim_nothing in Hf.
    exact Hf.
  - intros s key m _ Hm. cbn. unfold check. rewrite (proj2 (Nat.leb_le _ _) Hm). eexists. split; [done|].
    pose proof (less_than_view (whole s) no_prefix key m Hm) as Hf. unfold no_prefix in Hf. rewrite trim_nothing in Hf.
    exact Hf.
  - intros s key _. eexists. split; [done|]. pose proof (max_view (whole s) no_prefix key) as Hf. unfold no_prefix in Hf.
    rewrite trim_nothing in Hf. exact Hf.
  - intros s k v _ _. eexists. split; [done|]. split; [|done]. intros k'. apply get_upsert.
  - intros s k _. eexists. split; [done|]. split; [|done]. intros k'. apply get_remove.
Defined.
End storage.

(** ** Rows in fracpack *)

(** The uninitialized flag of [from_frac] does not matter. *)
Definition frac_table (t : fty) (primary : KeyFn fval) (secondary : list (KeyFn fval)) : TableType :=
  {| row := fval; convert_to_frac := to_frac t; from_frac_row data := from_frac_prevalidated t data false; Primary := primary; Secondary := secondary |}.

(** A row that may be stored. *)
Definition frac_row_ok (t : fty) (fs : list (KeyFn fval)) (r : fval) : Prop :=
  typed t r = true /\ fits t r /\ forall f, f ∈ fs -> has_type (key_type f) (invoke f r) = true.

Lemma prevalidated_to_frac t v garbage : ty_ok t = true -> typed t v = true -> fits t v ->
  from_frac_prevalidated t (to_frac t v) garbage = Some v.
Proof.
  intros Ht Hv Hs. unfold to_frac. rewrite (pk_pack _ _ (is_packable_packs t Ht) v []) by done.
  change ([] ++ l_enc (layout_of t) v) with (encoding t v).
  pose proof (encoding_data_ok t v Ht Hv Hs) as Hd. pose proof (unpack_encoding t v false Ht Hv Hs) as Heq.
  unfold from_frac_prevalidated, unpack_all_of in *. rewrite u32_small in * by (unfold fits in Hs; lia).
  assert (Hw : within (encoding t v) 0 (Z.of_nat (length (encoding t v)))) by (unfold within; lia).
  destruct (ag_unpack _ (is_packable_agrees t Ht) (encoding t v) {| has_unknown := false; known_end := false;
    pos := 0 |} _ _ _ _ Hd Hw Heq) as [_ Huo].
  destruct (Huo eq_refl {| has_unknown := false; known_end := garbage; pos := 0 |} eq_refl) as (c & -> & _). done.
Qed.

Lemma frac_table_ok t primary secondary : ty_ok t = true -> (forall f, f ∈ primary :: secondary -> kty_ok (key_type f) = true)
  ->
  (1 + length secondary <= 255)%nat -> TableOk (frac_table t primary secondary).
Proof.
  intros Ht Hk Hn. refine {| row_ok := frac_row_ok t (primary :: secondary) : row (frac_table t primary secondary) -> Prop |}.
  - intros r (Hv & Hs & _). by apply prevalidated_to_frac.
  - intros r f (_ & _ & Hkeys) Hf. by apply Hkeys.
  - done.
  - done.
Defined.

(** Keys that are members of a class: an unsigned integer and a string. *)
Fixpoint le_value (l : bytes) : Z := match l with [] => 0 | b :: l => b + 256 * le_value l end.
Definition member (i : nat) (v : fval) : fval := default v_none (val_list v !! i).
Definition int_member (i size : nat) : KeyFn fval := {| key_type := KInt false size; invoke v := VInt (le_value (val_bytes (member i v))) |}.
Definition string_member (i : nat) : KeyFn fval := {| key_type := KString; invoke v := VString (val_bytes (member i v)) |}.
