(* ===== verification/TableTheorems.v ===== *)
(** * psibase: what tables promise

    The properties of [Table] and [TableIndex]: any sequence of writes refines a
    map of rows with unique secondary keys, lookups and iteration by any index see
    exactly the rows of that map, in the order of the keys. *)

From S2P Require Import Prelude ToKey Database NativeKv Fracpack FracpackLayout FracpackTheorems TableKeys Table TableMap TableScan.

(** ** Writes *)

Inductive table_op (T : TableType) :=
| Put (value : row T)
| Remove (oldValue : row T)
| Erase (key : kval).
Arguments Put {T} value.
Arguments Remove {T} oldValue.
Arguments Erase {T} key.

(** A conjunct may be assumed. *)
Lemma and_under (A B C : Prop) : (A -> (B <-> C)) -> (A /\ B <-> A /\ C).
Proof. tauto. Qed.

Section theorems.
Context {S : Type} `{Hkv : RawKv S} `{Hlaws : !RawKvLaws S} (T : TableType) `{Htable : !TableOk T}.
#[local] Set Default Proof Using "Type".
Implicit Types (s : S) (m : gmap bytes (row T)) (r : row T).

Definition run_op (o : table_op T) s : result S :=
  match o with Put r => put T s r | Remove r => remove T s r | Erase k => erase T s k end.
Fixpoint run_ops (os : list (table_op T)) s : result S :=
  match os with [] => mret s | o :: os => s ← run_op o s; run_ops os s end.

(** The same on a map of rows: [put] refuses a secondary key of another row. *)
Definition conflicting m r : bool :=
  existsb (fun f => existsb (fun e => negb (bool_decide (e.1 = key_bytes (Primary T) r)) && bool_decide (key_bytes f e.2 = key_bytes f r)) (map_to_list m)) (Secondary T).
Definition map_op (o : table_op T) m : result (gmap bytes (row T)) :=
  match o with
  | Put r => if conflicting m r then Abort "key already exists" else Ok (<[key_bytes (Primary T) r := r]> m)
  | Remove r => Ok (delete (key_bytes (Primary T) r) m)
  | Erase k => Ok (delete (to_key (key_type (Primary T)) k) m)
  end.
Fixpoint map_ops (os : list (table_op T)) m : result (gmap bytes (row T)) :=
  match os with [] => mret m | o :: os => m ← map_op o m; map_ops os m end.

(** What the caller must observe: rows are valid and within the limits, and a removed
    object is the stored one. *)
Definition op_ok (o : table_op T) m : Prop :=
  match o with Put r => row_ok r /\ row_fits T r | Remove r => m !! key_bytes (Primary T) r = Some r | Erase _ => True end.
Fixpoint ops_ok (os : list (table_op T)) m : Prop :=
  match os with [] => True | o :: os => op_ok o m /\ match map_op o m with Ok m => ops_ok os m | Abort _ => True end end.

(** Writes that are always allowed. *)
Lemma ops_ok_all os m : Forall (fun o => forall m, op_ok o m) os -> ops_ok os m.
Proof. intros Hos. revert m. induction Hos as [|o os Ho _ IH]; intros m; cbn [ops_ok]; [done|]. split; [done|].
by destruct (map_op o m). Qed.

Lemma conflicting_spec m r : conflicting m r = true <-> conflict T m r.
Proof.
  unfold conflicting, conflict. rewrite existsb_exists. setoid_rewrite existsb_exists. setoid_rewrite <- list_elem_of_In. split.
  - intros (f & Hf & [p r'] & Hr%elem_of_map_to_list & [Hp He]%andb_prop). apply negb_true_iff, bool_decide_eq_false in Hp.
    apply bool_decide_eq_true in He. eauto 8.
  - intros (f & p & r' & Hf & Hr & Hp & He). exists f. split; [done|]. exists (p, r'). split; [by apply elem_of_map_to_list|].
    rewrite bool_decide_false, bool_decide_true by done. done.
Qed.

Lemma run_op_spec o s m : holds T s m -> can_write T s -> op_ok o m ->
  match map_op o m with
  | Ok m' => exists s', run_op o s = Ok s' /\ can_write T s' /\ (kv_reads s -> kv_reads s') /\ holds T s' m'
  | Abort msg => run_op o s = Abort msg
  end.
Proof using Htable.
  intros Hm Hc Ho. destruct o as [r|r|k]; cbn [map_op run_op op_ok] in *.
  - destruct Ho as [Hr Hfit]. pose proof (conflicting_spec m r) as Hx.
    destruct (put_spec T s m r Hm Hc Hr Hfit) as [[Hcf ->]|(Hcf & Hs)].
    + by rewrite (proj2 Hx Hcf).
    + destruct (conflicting m r); [by destruct Hcf; apply Hx|done].
  - by apply remove_spec.
  - by apply erase_spec.
Qed.

Lemma run_ops_spec os s m : holds T s m -> can_write T s -> ops_ok os m ->
  match map_ops os m with
  | Ok m' => exists s', run_ops os s = Ok s' /\ can_write T s' /\ (kv_reads s -> kv_reads s') /\ holds T s' m'
  | Abort msg => run_ops os s = Abort msg
  end.
Proof using Htable.
  revert s m. induction os as [|o os IH]; intros s m Hm Hc Hos; cbn [map_ops run_ops]; [by exists s|]. destruct Hos as [Ho Hos].
  pose proof (run_op_spec o s m Hm Hc Ho) as H1. destruct (map_op o m) as [m1|msg]; cbn [mbind result_bind]; [|by rewrite H1].
  destruct H1 as (s1 & -> & Hc1 & Hr1 & Hm1). specialize (IH s1 m1 Hm1 Hc1 Hos). cbn [mbind result_bind].
  destruct (map_ops os m1); [|done].
  destruct IH as (s' & -> & Hc' & Hr' & Hm'). exists s'. split; [done|]. split; [done|]. split; [tauto|done].
Qed.

(** What every write through the handle keeps, the operations of a table keep. *)
Section related.
Context (R : S -> S -> Prop) (Hrefl : forall s, R s s) (Htrans : forall s1 s2 s3, R s1 s2 -> R s2 s3 -> R s1 s3).
Context (Hput : forall s k v s', raw_kvPut s k v = Ok s' -> R s s') (Hremove : forall s k s', raw_kvRemove s k = Ok s' -> R s s').

Lemma insert_unique_related s k v s' : kvInsertUnique s k v = Ok s' -> R s s'.
Proof using Hput. unfold kvInsertUnique. intros E. ok_inv. destruct a; ok_inv. by eapply Hput. Qed.
Lemma for_keys_related step fs : (forall idx f s s', step idx f s = Ok s' -> R s s') ->
  forall idx s s', for_keys T step idx fs s = Ok s' -> R s s'.
Proof using Hrefl Htrans.
  intros Hstep. induction fs as [|f fs IH]; intros idx s s' E; cbn [for_keys] in E; ok_inv; [done|].
  eapply Htrans; [by eapply Hstep|by eapply IH].
Qed.
Lemma remove_related r s s' : remove T s r = Ok s' -> R s s'.
Proof using Hrefl Htrans Hremove. apply for_keys_related. intros idx f s1 s2 E. by eapply Hremove. Qed.
Lemma run_op_related o s s' : run_op o s = Ok s' -> R s s'.
Proof using Hrefl Htrans Hput Hremove.
  destruct o as [r|r|k]; cbn [run_op].
  - unfold put, putImpl. intros E. ok_inv. eapply Htrans; [|by eapply Hput].
    destruct (Secondary T) as [|f0 fs0]; ok_inv; [done|].
    destruct a0 as [buffer|]; ok_inv; (eapply for_keys_related; [|done]); intros idx f s1 s2 E1.
    + unfold replace_secondary in E1. destruct (value_compare _ _ _); ok_inv; [done|..]; (eapply Htrans;
        [by eapply Hremove|by eapply insert_unique_related]).
    + by eapply insert_unique_related.
  - apply remove_related.
  - unfold erase. intros E. destruct (Secondary T) as [|f0 fs0]; [by eapply Hremove|]. ok_inv.
    destruct a as [r|]; ok_inv; [by eapply remove_related|done].
Qed.
Lemma run_ops_related os s s' : run_ops os s = Ok s' -> R s s'.
Proof using Hrefl Htrans Hput Hremove.
  revert s. induction os as [|o os IH]; intros s E; cbn [run_ops] in E; ok_inv; [done|].
  eapply Htrans; [by eapply run_op_related|by eapply IH].
Qed.
End related.

(** C11: A table is a map of rows.  Any sequence of [put], [remove] of stored objects and
    [erase], on a table that holds the rows of a map, ends with the rows that the
    same changes of the map give, and it aborts exactly when a [put] would give two
    rows the same secondary key, with "key already exists". *)
Theorem table_refines_map os s m :
  holds T s m -> can_write T s -> ops_ok os m ->
  match map_ops os m with
  | Ok m' => exists s', run_ops os s = Ok s' /\ can_write T s' /\ holds T s' m'
  | Abort msg => run_ops os s = Abort msg
  end.
Proof using Htable.
  intros Hm Hc Hos. pose proof (run_ops_spec os s m Hm Hc Hos) as Hrun. destruct (map_ops os m); [|done].
  destruct Hrun as (s' & E & Hc' & _ & Hm'). by exists s'.
Qed.

(** ** Lookups *)

(** [get] on the index [i] (0 is the primary one) gives the row with that key,
    through the primary key for a secondary index, and none when there is no such
    row; it does not abort. *)
Theorem index_get s m i f k :
  holds T s m -> kv_reads s -> indexes T !! i = Some f -> has_type (key_type f) k = true ->
  exists o, ix_get T s (getIndex (Z.of_nat i)) (key_type f) k = Ok o /\
    forall r, o = Some r <-> (exists p, m !! p = Some r) /\ value_compare (key_type f) (invoke f r) k = Eq.
Proof using Htable.
  intros Hm Hr Hf Hk. destruct (ix_get_spec T s m i f k Hm Hr Hf) as (o & Ho & Hspec). exists o. split; [done|]. intros r.
  assert (Heq : forall p r, m !! p = Some r -> key_bytes f r = to_key (key_type f) k <-> value_compare (key_type f) (invoke f r)
    k = Eq).
  { intros p r' Hp. assert (Hin : f ∈ Primary T :: Secondary T) by by eapply list_elem_of_lookup_2. unfold key_bytes.
    apply to_key_eq; [by apply key_types|apply row_keys; [by apply (held_rows T s m Hm p)|done]|done]. }
  split.
  - intros ->. destruct Hspec as (p & Hp & E). split; [by exists p|]. by apply (Heq p).
  - intros ((p & Hp) & E). apply (Heq p r Hp) in E. destruct o as [r'|]; [|by destruct (Hspec p r Hp)].
    destruct Hspec as (p' & Hp' & E'). f_equal.
    eapply (index_row_unique T s m Hm i f); [done|exact Hp'|exact Hp|congruence].
Qed.

(** ** Iteration *)

(** A part of the key of an index that comes first: the whole key, or the first
    fields of a tuple. *)
Definition key_part (f : KeyFn (row T)) (t : kty) (part : row T -> kval) : Prop :=
  kty_ok t = true /\ forall r, row_ok r -> has_type t (part r) = true /\ exists rest, key_bytes f r = to_key t (part r) ++ rest.

Lemma whole_key f : f ∈ indexes T -> key_part f (key_type f) (invoke f).
Proof. intros Hf. split; [by apply key_types|]. intros r Hr. split; [by apply row_keys|]. exists []. by rewrite app_nil_r. Qed.

Definition first_fields (n : nat) (v : kval) : kval := match v with VTuple vs => VTuple (take n vs) | v => v end.
Lemma first_fields_part f ts us : f ∈ indexes T -> key_type f = KTuple (ts ++ us) ->
  key_part f (KTuple ts) (fun r => first_fields (length ts) (invoke f r)).
Proof.
  intros Hf E. pose proof (key_types f Hf) as Hk. rewrite E in Hk. split; [by apply (kty_ok_tuple_app ts us)|]. intros r Hr.
  pose proof (row_keys r f Hr Hf) as Ht. unfold key_bytes. rewrite E in Ht |- *.
  destruct (invoke f r) as [| | | | | |vs|]; try done.
  destruct (has_type_tuple_app ts us vs Ht) as (vs1 & vs2 & -> & Hl & H1 & _). cbn [first_fields].
  rewrite <- Hl, take_app_length.
  split; [done|]. eexists. by apply tuple_key_app.
Qed.

(** The rows are in the order of the keys of the index. *)
Definition in_order (f : KeyFn (row T)) (l : list (row T)) : Prop :=
  StronglySorted (fun a b => value_compare (key_type f) (invoke f a) (invoke f b) = Lt) l.

Lemma sorted_in_order s m i f l : holds T s m -> indexes T !! i = Some f -> (forall r, r ∈ l -> exists p, m !! p = Some r) ->
  StronglySorted (fun a b => lex_compare (key_bytes f a) (key_bytes f b) = Lt) l -> in_order f l.
Proof using Htable.
  intros Hm Hf Hl Hs. assert (Hin : f ∈ indexes T) by by eapply list_elem_of_lookup_2.
  assert (Hkey : forall r, r ∈ l -> has_type (key_type f) (invoke f r) = true).
  { intros r Hr. destruct (Hl r Hr) as [p Hp]. apply row_keys; [|done]. by apply (held_rows T s m Hm p). }
  unfold in_order. clear Hl. induction Hs as [|a l Hs IH Ha]; [constructor|].
  constructor; [apply IH; intros r Hr; apply Hkey; by right|].
  rewrite Forall_forall in Ha |- *. intros b Hb.
  rewrite <- to_key_compare; [by apply Ha|by apply key_types|apply Hkey; left|apply Hkey; by right].
Qed.

Lemma count_fuel m i f ix C : (count_in T m i f ix C < 1 + size m)%nat.
Proof.
  unfold count_in. assert (Hle : forall l : list (bytes * row T), (length (List.filter (fun e => has_prefix (ix_prefix ix)
    (full_key T i f e.2) && C (full_key T i f e.2)) l) <= length l)%nat).
  { induction l as [|e l IH]; [done|]. cbn. destruct (_ && _); cbn; lia. }
  specialize (Hle (map_to_list m)). rewrite length_map_to_list in Hle. lia.
Qed.

(** C21: Iterating from [lower_bound(lo)] to [upper_bound(hi)] on an index ends and visits
    exactly the rows with [lo <= key <= hi], each once and in the order of their
    keys; when [lo] and [hi] are the first fields of the key, the comparison is that
    of these fields. *)
Theorem range_visits s m i f t part lo hi :
  holds T s m -> kv_reads s -> indexes T !! i = Some f -> key_part f t part ->
  has_type t lo = true -> has_type t hi = true -> value_compare t lo hi <> Gt ->
  exists first last l, ix_lower_bound s (getIndex (Z.of_nat i)) t lo = Ok first /\
    ix_upper_bound s (getIndex (Z.of_nat i)) t hi = Ok last /\
    visit T (1 + size m) s first last = Ok l /\ in_order f l /\
    forall r, r ∈ l <-> (exists p, m !! p = Some r) /\ value_compare t lo (part r) <> Gt /\ value_compare t (part r) hi <> Gt.
Proof using Htable.
  intros Hm Hr Hf [Hkt Hpart] Hlo Hhi Hle. set (ix := getIndex (Z.of_nat i)). pose proof (held_bytes T s m Hm) as Hb.
  assert (Hix : index_view i ix) by by eapply getIndex_view.
  assert (HP : ix_prefix ix = [Z.of_nat i]) by (cbn; by rewrite (index_byte T i f)).
  destruct (lower_bound_stands s ix Hr t lo) as (itl & El & Sl).
  destruct (upper_bound_stands s ix Hr t hi Hb Hhi) as (ith & Eh & Sh).
  destruct (visit_spec T s m Hm Hr i f Hf ix Hix (1 + size m) _ _ _ _ Sl Sh) as (l & Ev & Hl & Hs);
    [apply upward_lle|apply upward_after| |apply count_fuel|].
  { intros k [Hk _]%andb_prop. eapply lle_trans; [|exact Hk]. rewrite lle_app, lle_spec, to_key_compare by done. done. }
  exists itl, ith, l. split; [done|]. split; [done|]. split; [done|]. split.
  { eapply sorted_in_order; [done|done| |done]. intros r Hin. by apply Hl in Hin as [? _]. }
  intros r. rewrite Hl. unfold rows_in. apply and_under. intros [p Hp].
  destruct (Hpart r) as [Ht (rest & Ek)]; [by apply (held_rows T s m Hm p)|].
  assert (Efull : full_key T i f r = ix_prefix ix ++ to_key t (part r) ++ rest) by (rewrite HP; unfold full_key; by rewrite Ek).
  rewrite Efull, has_prefix_refl, lle_app, after_app. cbn [andb]. rewrite andb_true_iff, negb_true_iff, <- not_true_iff_false.
  rewrite lle_key, after_key, (value_compare_sym t Hkt hi (part r) Hhi Ht) by done.
  apply and_under. intros _. destruct (value_compare t hi (part r)); cbn; split; try done; by intros [].
Qed.

(** A sub-index, which holds the first fields of the key constant, has exactly the
    rows with these fields: iterating over it from the begin to the end visits each
    of them once, in the order of the keys. *)
Theorem subindex_visits s m i f t part k :
  holds T s m -> kv_reads s -> indexes T !! i = Some f -> key_part f t part -> has_type t k = true ->
  let ix := subindex (getIndex (Z.of_nat i)) t k in
  exists first last l, ix_begin s ix = Ok first /\ ix_end ix = Ok last /\ visit T (1 + size m) s first last = Ok l /\
    in_order f l /\
    forall r, r ∈ l <-> (exists p, m !! p = Some r) /\ value_compare t k (part r) = Eq.
Proof using Htable.
  intros Hm Hr Hf [Hkt Hpart] Hk ix. assert (Hix : index_view i ix) by (apply subindex_view; by eapply getIndex_view).
  assert (HP : ix_prefix ix = [Z.of_nat i] ++ to_key t k) by (cbn; unfold ix_key, convert_to_key; cbn;
    by rewrite (index_byte T i f)).
  destruct (begin_stands s ix Hr) as (itb & Eb & Sb). destruct (end_stands s ix) as (ite & Ee & _ & Se).
  destruct (visit_spec T s m Hm Hr i f Hf ix Hix (1 + size m) _ _ _ _ Sb Se) as (l & Ev & Hl & Hs);
    [done|done|done|apply count_fuel|].
  exists itb, ite, l. split; [done|]. split; [done|]. split; [done|]. split.
  { eapply sorted_in_order; [done|done| |done]. intros r Hin. by apply Hl in Hin as [? _]. }
  intros r. rewrite Hl. unfold rows_in. apply and_under. intros [p Hp].
  destruct (Hpart r) as [Ht (rest & Ek)]; [by apply (held_rows T s m Hm p)|].
  assert (Efull : full_key T i f r = [Z.of_nat i] ++ to_key t (part r) ++ rest) by (unfold full_key; by rewrite Ek).
  rewrite andb_true_r, HP, Efull, has_prefix_app_both. by apply has_prefix_key.
Qed.

(** Iterating over a whole index. *)
Corollary index_visits s m i f : holds T s m -> kv_reads s -> indexes T !! i = Some f ->
  let ix := getIndex (Z.of_nat i) in
  exists first last l, ix_begin s ix = Ok first /\ ix_end ix = Ok last /\ visit T (1 + size m) s first last = Ok l /\
    in_order f l /\
    forall r, r ∈ l <-> exists p, m !! p = Some r.
Proof using Htable.
  intros Hm Hr Hf ix. assert (Hix : index_view i ix) by (by eapply getIndex_view).
  assert (HP : ix_prefix ix = [Z.of_nat i]) by (cbn; by rewrite (index_byte T i f)).
  destruct (begin_stands s ix Hr) as (itb & Eb & Sb). destruct (end_stands s ix) as (ite & Ee & _ & Se).
  destruct (visit_spec T s m Hm Hr i f Hf ix Hix (1 + size m) _ _ _ _ Sb Se) as (l & Ev & Hl & Hs);
    [done|done|done|apply count_fuel|].
  exists itb, ite, l. split; [done|]. split; [done|]. split; [done|].
  split; [eapply sorted_in_order; [done|done| |done]; intros r Hin; by apply Hl in Hin as [? _]|].
  intros r. rewrite Hl. unfold rows_in. rewrite HP, andb_true_r. split; [by intros [? _]|]. intros Hp. split; [done|].
  apply (has_prefix_refl [Z.of_nat i]).
Qed.

(** [first] and [last] give the rows with the least and the greatest primary key, and
    none when the table is empty. *)
Definition is_extreme (f : KeyFn (row T)) m (o : option (row T)) (c : comparison) : Prop :=
  match o with
  | Some r => (exists p, m !! p = Some r) /\ forall p r', m !! p = Some r' -> lex_compare (key_bytes f r') (key_bytes f r) <> c
  | None => m = ∅
  end.
Lemma extreme_row s m i f (o : option (bytes * bytes)) (before : bytes -> bytes -> bool) (c : comparison) :
  holds T s m -> kv_reads s -> indexes T !! i = Some f -> (forall a b, before a b = true -> lex_compare b a <> c) ->
  found_in (kv_at s) (has_prefix [Z.of_nat i]) before o ->
  let at_row o := iterator_at [Z.of_nat i] (0 <? Z.of_nat i) o in
  exists x, (if same_iterator (at_row o) (at_row None) then mret None else v ← deref T s (at_row o); mret (Some v)) = Ok x /\
    is_extreme f m x c.
Proof using Htable.
  intros Hm Hr Hf Hbefore Hfound at_row. unfold at_row. rewrite same_iterator_at.
  set (ix := {| ix_prefix := [Z.of_nat i]; ix_secondary := 0 <? Z.of_nat i |}).
  assert (Hix : index_view i ix) by (split; [by exists []|done]). destruct o as [[k v]|]; cbn [fmap option_fmap option_map fst].
  - rewrite bool_decide_false by done. destruct Hfound as (Hk & Hp & Hbest).
    destruct (deref_row T s m Hm Hr i f ix k v Hf Hix Hk Hp) as (p & r & Hpr & Ek & Ed). cbn [ix ix_prefix ix_secondary] in Ed.
    rewrite Ed.
    exists (Some r). split; [done|]. split; [by exists p|]. intros p' r' Hp'.
    assert (Hb : before k (full_key T i f r') = true) by (apply Hbest;
      [by eapply row_entry|apply (has_prefix_refl [Z.of_nat i])]).
    apply Hbefore in Hb. rewrite Ek in Hb. unfold full_key in Hb. cbn [lex_compare] in Hb. by rewrite Z.compare_refl in Hb.
  - rewrite bool_decide_true by done. exists None. split; [done|]. apply map_empty. intros p.
    destruct (m !! p) as [r|] eqn:Ep; [|done].
    specialize (Hfound (full_key T i f r) ltac:(by eapply row_entry)).
    pose proof (has_prefix_refl [Z.of_nat i] (key_bytes f r)) as Hp.
    unfold full_key in Hfound. cbn [app] in Hp. congruence.
Qed.
Theorem first_last s m : holds T s m -> kv_reads s ->
  (exists o, first T s = Ok o /\ is_extreme (Primary T) m o Lt) /\ exists o, last T s = Ok o /\ is_extreme (Primary T) m o Gt.
Proof using Htable.
  intros Hm Hr. set (ix := getIndex 0). destruct (end_stands s ix) as (ite & Ee & -> & _).
  unfold first, last, ix_first, ix_last. fold ix. rewrite Ee.
  destruct (begin_stands s ix Hr) as (itb & -> & rb & Hb & ->). destruct (decrement_end s ix Hr) as (rl & El & Hl).
  cbn [mbind result_bind]. rewrite El. cbn [mbind result_bind].
  split.
  - apply (extreme_row s m 0%nat (Primary T) rb lle Lt Hm Hr eq_refl); [|eapply found_in_ext; [|exact Hb]; intros k; cbn;
      by rewrite andb_true_r].
    intros a b Hab E. rewrite lex_compare_antisym in E. apply lle_spec in Hab. by destruct (lex_compare a b).
  - apply (extreme_row s m 0%nat (Primary T) rl (fun x y => lle y x) Gt Hm Hr eq_refl); [|done].
    intros a b Hab E. apply lle_spec in Hab. done.
Qed.
End theorems.

(** ** Moving iterators *)

(** Iterators are circular: from the end they go to the first entry and to the last
    one, from the last entry to the end, and decrementing undoes incrementing. *)
Theorem iterator_steps {S : Type} `{Hkv : RawKv S} `{Hlaws : !RawKvLaws S} (s : S) (ix : TableIndex) k v :
  kv_reads s -> keys_are_bytes s -> kv_at s k = Some v -> has_prefix (ix_prefix ix) k = true ->
  let it := iterator_at (ix_prefix ix) (ix_secondary ix) (Some (k, v)) in
  let last := iterator_at (ix_prefix ix) (ix_secondary ix) None in
  (exists next, increment s it = Ok next /\ decrement s next = Ok it) /\
  increment s last = ix_begin s ix /\ ix_end ix = Ok last /\
  (forall first, ix_begin s ix = Ok first -> decrement s first = Ok last).
Proof.
  intros Hr Hb Hk Hp it last. destruct (end_stands s ix) as (e & Ee & -> & _). split; [by apply decrement_increment|].
  assert (Ebegin : ix_begin s ix = increment s last) by (unfold ix_begin; by rewrite Ee). split; [done|]. split; [done|].
  intros first Hf. destruct (begin_stands s ix Hr) as (first' & Hf' & r & Hfound & ->). rewrite Hf in Hf'. injection Hf' as ->.
  destruct r as [[k1 v1]|]; [|by specialize (Hfound k ltac:(eauto)); cbn in Hfound; rewrite Hp in Hfound].
  destruct Hfound as (Hk1 & [Hp1 _]%andb_prop & Hmin).
  destruct (decrement_at s ix Hr k1 v1 Hp1) as (r & -> & Hback). destruct r as [[k2 v2]|]; [|done].
  destruct Hback as (Hk2 & [Hp2 Hlt]%andb_prop & _). by rewrite Hmin in Hlt by (rewrite ?Hp2; eauto).
Qed.

(** [moveTo] of the key of an entry does not move there: the iterator is marked as an
    end iterator when the key is not empty, so it differs from the iterator that the
    key was taken from, and incrementing it gives that entry and not the next one. *)
Theorem move_to_misses {S : Type} `{Hkv : RawKv S} `{Hlaws : !RawKvLaws S} (s : S) (ix : TableIndex) c v :
  kv_reads s -> c <> [] -> kv_at s (ix_prefix ix ++ c) = Some v ->
  let it := iterator_at (ix_prefix ix) (ix_secondary ix) (Some (ix_prefix ix ++ c, v)) in
  let moved := move_to (keyWithoutPrefix it) it in
  same_iterator moved it = false /\ increment s moved = Ok it.
Proof.
  intros Hr Hc Hk it moved. unfold moved, it, move_to, keyWithoutPrefix. cbn [iterator_at it_key prefix_size is_secondary].
  rewrite drop_app_length, take_app_length, bool_decide_false by done. split; [done|]. unfold increment.
  cbn [is_end it_key prefix_size is_secondary negb].
  destruct (greater_equal_stands s (ix_prefix ix) c Hr) as (r & -> & Hf). cbn [mbind result_bind]. rewrite set_iterator.
  assert (Hself : found_in (kv_at s) (fun k => has_prefix (ix_prefix ix) k && lle (ix_prefix ix ++ c) k) lle (Some (ix_prefix ix
    ++ c, v))).
  { split; [done|]. split; [by rewrite has_prefix_refl, lle_refl|]. by intros k' _ [_ Hle]%andb_prop. }
  by rewrite (found_in_unique _ _ _ _ Hf Hself).
Qed.

(** ** An example *)

Lemma holds_empty {S : Type} `{Hkv : RawKv S} `{Hlaws : !RawKvLaws S} (T : TableType) `{!TableOk T} (s : S) :
  (forall k, kv_at s k = None) -> holds T s ∅.
Proof. intros E. split; [done|]. intros k v. rewrite E. split; [done|]. by destruct 1 as [p r Hr|i f p r Hf Hr]. Qed.

(** A class with a number, a name and a price; the secondary keys are the name, and
    the price with the number. *)
Definition item_type : fty := t_struct false [t_memcpy 8; t_bytes 1; t_memcpy 4].
Definition items : TableType := frac_table item_type (int_member 0 8) [string_member 1; CompositeKey [int_member 2 4; int_member 0 8]].
#[export] Instance items_ok : TableOk items.
Proof. apply frac_table_ok; [reflexivity| |cbn; lia]. intros f Hf.
by repeat (apply elem_of_cons in Hf as [->|Hf]; [reflexivity|]); apply elem_of_nil in Hf. Defined.
Definition item (id : Z) (name : bytes) (price : Z) : fval := v_fields [v_memcpy (le_bytes 8 id); v_bytes name; v_memcpy (le_bytes 4 price)].

(** Two items, and the tables before and after they are put. *)
Definition item_a : row items := item 7 (str "a") 300.
Definition item_b : row items := item 9 (str "b") 300.
Definition item_c : row items := item 8 (str "a") 100.
Definition empty_table : gmap bytes bytes := ∅.
Definition two_items : gmap bytes (row items) := <[key_bytes (Primary items) item_b := item_b]> (<[key_bytes (Primary items) item_a := item_a]> ∅).

Lemma item_row_ok r : r ∈ [item_a; item_b; item_c] -> row_ok (T := items) r /\ row_fits (S := gmap bytes bytes) items r.
Proof.
  intros Hr. split; [|by split]. repeat (apply elem_of_cons in Hr as [->|Hr]; [split; [reflexivity|]; split; [reflexivity|];
    intros f Hf; repeat (apply elem_of_cons in Hf as [->|Hf]; [vm_compute; reflexivity|]); by apply elem_of_nil in Hf|]);
      by apply elem_of_nil in Hr.
Qed.
Definition filled_table : gmap bytes bytes := match run_ops items [Put item_a; Put item_b] empty_table with Ok s => s | Abort _ => ∅ end.
Lemma filled_holds : holds items filled_table two_items.
Proof.
  assert (H0 : holds items empty_table ∅) by (by apply holds_empty).
  pose proof (run_op_spec items (Put item_a) empty_table ∅ H0 ltac:(done) ltac:(apply item_row_ok; left)) as H1.
  change (map_op items (Put item_a) ∅) with (Ok (<[key_bytes (Primary items) item_a := item_a]> (∅ : gmap bytes (row items))))
    in H1.
  destruct H1 as (s1 & E1 & Hc1 & _ & Hs1).
  pose proof (run_op_spec items (Put item_b) s1 _ Hs1 Hc1 ltac:(apply item_row_ok; right; left)) as H2.
  assert (Ec : map_op items (Put item_b) (<[key_bytes (Primary items) item_a := item_a]> ∅) = Ok two_items) by (vm_compute;
    reflexivity).
  rewrite Ec in H2. destruct H2 as (s2 & E2 & _ & _ & Hs2). replace filled_table with s2; [done|].
  unfold filled_table. cbn [run_ops]. rewrite E1. cbn [mbind result_bind run_ops]. by rewrite E2.
Qed.

Lemma table_refines_map_witness :
  let os := [Put item_a; Put item_b; Erase (VInt 7); Put item_c] in
  (exists m, map_ops items os ∅ = Ok m /\ exists s, run_ops items os empty_table = Ok s /\ holds items s m) /\
  run_ops items [Put item_a; Put item_c] empty_table = Abort "key already exists".
Proof.
  cbn zeta. assert (H0 : holds items empty_table ∅) by (by apply holds_empty).
  assert (Hok : forall r, r ∈ [item_a; item_b; item_c] -> forall m, op_ok (S := gmap bytes bytes) items (Put r) m) by (intros r
    Hr m; exact (item_row_ok r Hr)).
  assert (Hops : ops_ok (S := gmap bytes bytes) items [Put item_a; Put item_b; Erase (VInt 7); Put item_c] ∅).
  { apply ops_ok_all. repeat apply Forall_cons_2; [apply Hok; left|apply Hok; right; left|done|apply Hok; right; right;
      left|apply Forall_nil_2]. }
  assert (Hops2 : ops_ok (S := gmap bytes bytes) items [Put item_a; Put item_c] ∅).
  { apply ops_ok_all. repeat apply Forall_cons_2; [apply Hok; left|apply Hok; right; right; left|apply Forall_nil_2]. }
  assert (Hc : can_write items empty_table) by (split; [exact I|intros _; exact I]).
  pose proof (table_refines_map items [Put item_a; Put item_b; Erase (VInt 7); Put item_c] empty_table ∅ H0 Hc Hops) as H1.
  pose proof (table_refines_map items [Put item_a; Put item_c] empty_table ∅ H0 Hc Hops2) as H2. split.
  - destruct (map_ops items [Put item_a; Put item_b; Erase (VInt 7); Put item_c] ∅) as [m|msg] eqn:Em; [|vm_compute in Em;
      discriminate Em].
    exists m. split; [reflexivity|]. destruct H1 as (s & E & _ & Hs). exists s. split; [exact E|exact Hs].
  - destruct (map_ops items [Put item_a; Put item_c] ∅) as [m|msg] eqn:Em; vm_compute in Em; [discriminate Em|].
    injection Em as <-. exact H2.
Defined.

Lemma index_get_witness :
  exists o, ix_get items filled_table (getIndex 1) KString (VString (str "b")) = Ok o /\ o = Some item_b.
Proof.
  destruct (index_get items filled_table two_items 1 (string_member 1) (VString (str "b")) filled_holds I eq_refl eq_refl) as (o
    & Ho & Hr).
  exists o. split; [exact Ho|]. apply Hr. split; [|reflexivity]. exists (key_bytes (Primary items) item_b). vm_compute.
  reflexivity.
Defined.

(** The items with the price 300, by the first field of the second secondary key. *)
Lemma range_visits_witness :
  let part r := first_fields 1 (invoke (CompositeKey [int_member 2 4; int_member 0 8]) r) in
  exists l, in_order items (CompositeKey [int_member 2 4; int_member 0 8]) l /\
    forall r, r ∈ l <-> (exists p, two_items !! p = Some r) /\ value_compare (KTuple [KInt false 4]) (VTuple [VInt 300]) (part
      r) <> Gt /\
      value_compare (KTuple [KInt false 4]) (part r) (VTuple [VInt 300]) <> Gt.
Proof.
  intros part.
  assert (Hpart : key_part items (CompositeKey [int_member 2 4; int_member 0 8]) (KTuple [KInt false 4]) part).
  { apply (first_fields_part items (CompositeKey [int_member 2 4; int_member 0 8]) [KInt false 4] [KInt false 8]); [right;
      right; left|reflexivity]. }
  destruct (range_visits items filled_table two_items 2 _ (KTuple [KInt false 4]) part (VTuple [VInt 300]) (VTuple [VInt 300])
    filled_holds I eq_refl Hpart
    eq_refl eq_refl ltac:(discriminate)) as (_ & _ & l & _ & _ & _ & Ho & Hl). exists l. split; [exact Ho|exact Hl].
Defined.
Lemma subindex_visits_witness :
  let part r := first_fields 1 (invoke (CompositeKey [int_member 2 4; int_member 0 8]) r) in
  exists l : list fval, forall r, r ∈ l <-> (exists p, two_items !! p = Some r) /\
    value_compare (KTuple [KInt false 4]) (VTuple [VInt 300]) (part r) = Eq.
Proof.
  intros part.
  assert (Hpart : key_part items (CompositeKey [int_member 2 4; int_member 0 8]) (KTuple [KInt false 4]) part).
  { apply (first_fields_part items (CompositeKey [int_member 2 4; int_member 0 8]) [KInt false 4] [KInt false 8]); [right;
      right; left|reflexivity]. }
  destruct (subindex_visits items filled_table two_items 2 _ (KTuple [KInt false 4]) part (VTuple [VInt 300]) filled_holds I
    eq_refl Hpart eq_refl)
    as (_ & _ & l & _ & _ & _ & _ & Hl). exists l. exact Hl.
Defined.

Lemma move_to_misses_witness :
  let it := iterator_at [0] false (Some (0 :: key_bytes (Primary items) item_a, convert_to_frac items item_a)) in
  increment filled_table (move_to (keyWithoutPrefix it) it) = Ok it.
Proof.
  exact (proj2 (move_to_misses filled_table (getIndex 0) (key_bytes (Primary items) item_a) (convert_to_frac items item_a) I
    ltac:(discriminate) ltac:(vm_compute; reflexivity))).
Defined.
