(* ===== verification/TableNative.v ===== *)
(** * psibase: tables over the database functions

    The calls of a table through a handle of the running service ([NativeKv])
    satisfy the interface that the theorems about tables assume, and tables with
    different prefixes do not affect each other.  [DbTables] and [ExternTables]
    open a table at the prefix of the service account and the table number; the
    services [Db] and [XDb] decide which prefixes a service may open. *)

From S2P Require Import Prelude ToKey Names BucketSet Database NativeKv Fracpack FracpackLayout TableKeys Table TableMap TableScan TableTheorems.

(** ** A handle as the database of a table *)

Section native_table.
Context {St : Type} `{Hst : Storage St}.
Abbreviation Native := (native (St := St)).
Context (ctx : NativeContext) `{Hrow : RowChecks} (notify : Mutation -> Native -> result Native).

(** [int sz = raw::kvGet(...)], and the buffer that [getResult] fills. *)
Definition result_bytes (r : result (Z * Native)) : result (option bytes) :=
  '(sz, n) ← r;
  mret (if to_signed 32 sz <? 0 then None else Some (getResult n (Z.to_nat sz) 0).1).
(** The key that [getKey] returns, of the size that it returned before. *)
Definition result_entry (r : result (Z * Native)) : result (option (bytes * bytes)) :=
  '(sz, n) ← r;
  mret (if to_signed 32 sz <? 0 then None
        else Some ((getKey n (Z.to_nat (getKey n 0).2)).1, (getResult n (Z.to_nat sz) 0).1)).

Definition handle_kv (h : Z) : RawKv Native := {|
  raw_kvGet n k := result_bytes (kvGet n h k);
  raw_kvGreaterEqual n k m := result_entry (kvGreaterEqual n h k m);
  raw_kvLessThan n k m := result_entry (kvLessThan n h k m);
  raw_kvMax n k := result_entry (kvMax n h k);
  raw_kvPut n k v := kvPut ctx notify n h k v;
  raw_kvRemove n k := kvRemove ctx notify n h k
|}.

(** Sizes that an [int] can hold. *)
Definition small_entry (k v : bytes) : Prop := zlen k < 2 ^ 31 /\ zlen v < 2 ^ 31.

Lemma result_bytes_set n o : (forall v, o = Some v -> zlen v < 2 ^ 31) -> result_bytes (Ok (setResult n o)) = Ok o.
Proof.
  intros Hs. unfold result_bytes, setResult, clearResult. destruct o as [v|]; [|done]. cbn [mbind result_bind].
  specialize (Hs v eq_refl). unfold zlen in Hs.
  unfold u32_size. rewrite wrap_small by (change (2 ^ 32) with (2 * 2 ^ 31); lia). unfold to_signed. change (32 - 1) with 31.
  rewrite (proj2 (Z.ltb_lt _ (2 ^ 31))), (proj2 (Z.ltb_ge _ 0)) by lia.
  cbn [mret result_ret getResult fst set_result result_value].
  rewrite drop_0, Nat2Z.id, Nat.sub_0_r, Nat.min_id, firstn_all. done.
Qed.
Lemma result_entry_set n o : (forall k v, o = Some (k, v) -> small_entry k v) -> result_entry (Ok (setResult_kv n o)) = Ok o.
Proof.
  intros Hs. unfold result_entry, setResult_kv, clearResult. destruct o as [[k v]|]; [|done]. cbn [mbind result_bind].
  destruct (Hs k v eq_refl) as [Hk Hv]. unfold zlen in *.
  unfold getKey, u32_size. cbn [set_result result_key result_value fst snd].
  rewrite !wrap_small by (change (2 ^ 32) with (2 * 2 ^ 31); lia).
  unfold to_signed. change (32 - 1) with 31. rewrite (proj2 (Z.ltb_lt _ (2 ^ 31))), (proj2 (Z.ltb_ge _ 0)) by lia.
  cbn [mret result_ret getResult fst set_result result_value]. rewrite drop_0, !Nat2Z.id, Nat.sub_0_r, !Nat.min_id, !firstn_all.
  done.
Qed.

(** The databases of tables: the others have rows that the native code checks. *)
Definition table_db (db : DbId) : bool :=
  match db with db_service | db_writeOnly | db_subjective | db_session | db_temporary => true | _ => false end.

Context `{Hlaws : !StorageLaws St} (h : Z) (b : Bucket).
Context (Hdb : table_db (b_db b) = true) (Hkey : maxKeySize ctx < 2 ^ 31) (Hvalue : maxValueSize ctx < 2 ^ 31).

(** [kvNotify] accepts the change, and does not change what the handles show.  The
    theorems below have this for [accepting], a [kvNotify] that does not refuse. *)
Definition notify_accepts (bs : list Bucket) : Prop :=
  forall mu n, exists n', notify mu n = Ok n' /\ buckets n' = buckets n /\ forall b k, b ∈ bs -> view b n' k = view b n k.

(** What a call leaves alone. *)
Definition keeps (bs : list Bucket) (n n' : Native) : Prop := buckets n' = buckets n /\ forall b k, b ∈ bs -> view b n' k = view b n k.
Lemma keeps_views_trans bs n1 n2 n3 : keeps bs n1 n2 -> keeps bs n2 n3 -> keeps bs n1 n3.
Proof. intros [E1 V1] [E2 V2]. split; [congruence|]. intros b' k Hb. by rewrite V2, V1. Qed.

Lemma notified bs n db keyLen old new : notify_accepts bs -> exists n', notifyKvMut ctx notify n db keyLen old new = Ok n' /\
  keeps bs n n'.
Proof. intros Hn. unfold notifyKvMut. destruct (Hn {| m_service := codeNum ctx; m_db := db; m_keyLen := u32 keyLen;
  m_oldValueLen := u32 old; m_newValueLen := u32 new |} n) as (n' & -> & Hk). by eexists. Qed.

Lemma bill_put_accepted bs n db k v : table_db db = true -> notify_accepts bs ->
  exists c r n', getDbWrite ctx db = Ok (c, r) /\ bill_put ctx notify n db k v c r = Ok n' /\ keeps bs n n'.
Proof.
  intros Ht Hn. assert (Hid : forall n : native, keeps bs n n) by done.
  destruct db; try done; cbn [getDbWrite]; [exists true, true|exists (negb (isSubjective (dbMode ctx))), false|exists false,
    false; by exists n..].
  - unfold bill_put. rewrite decide_False by done. cbn [mbind result_bind mret result_ret].
    match goal with |- context [notifyKvMut _ _ ?n' ?db ?kl ?old ?new] => destruct (notified bs n' db kl old new Hn) as (n2 & E
      & Hk) end.
    exists n2. split; [done|]. split; [exact E|]. eapply keeps_views_trans; [|exact Hk]. by destruct (kvGetRaw _ k).
  - destruct (isSubjective (dbMode ctx)); cbn [negb]; [by exists n|]. unfold bill_put.
    match goal with |- context [notifyKvMut _ _ ?n' ?db ?kl ?old ?new] => destruct (notified bs n' db kl old new Hn) as (n2 & E
      & Hk) end.
    exists n2. split; [done|]. split; [exact E|exact Hk].
Qed.
Lemma bill_remove_accepted bs n db k : table_db db = true -> notify_accepts bs ->
  exists c r n', getDbWrite ctx db = Ok (c, r) /\ bill_remove ctx notify n db k r = Ok n' /\ keeps bs n n'.
Proof.
  intros Ht Hn. assert (Hid : forall n : native, keeps bs n n) by done.
  destruct db; try done; cbn [getDbWrite]; [exists true, true|exists (negb (isSubjective (dbMode ctx))), false;
    by exists n|exists false, false; by exists n..].
  unfold bill_remove. destruct (kvGetRaw _ k) as [old|]; [|by exists n]. rewrite decide_False by done.
  cbn [mbind result_bind mret result_ret].
  match goal with |- context [notifyKvMut _ _ ?n' ?db ?kl ?old ?new] => destruct (notified bs n' db kl old new Hn) as (n2 & E &
    Hk) end.
  exists n2. split; [done|]. split; [exact E|exact Hk].
Qed.

(** A write through the handle, as every handle in [bs] shows it. *)
Definition shown (bs : list Bucket) (n : Native) (k : bytes) (v : option bytes) (n' : Native) : Prop :=
  buckets n' = buckets n /\
  forall b' k', b' ∈ bs -> view b' n' k' = if decide (b_db b' = b_db b /\ b_prefix b' ++ k' = b_prefix b ++ k) then v else view b' n k'.

Lemma view_set_db (n : Native) db s full v b' k' : (forall k, st_get s k = if decide (k = full) then v else st_get (dbs n db) k)
  ->
  view b' (set_dbs (set_db db s (dbs n)) n) k' = if decide (b_db b' = db /\ b_prefix b' ++ k' = full) then v else view b' n k'.
Proof using Type.
  intros E. unfold view. cbn [dbs set_dbs]. rewrite set_db_get. destruct (decide (b_db b' = db)) as [->|Hne].
  - rewrite E. destruct (decide (b_prefix b' ++ k' = full)); [by rewrite decide_True|by rewrite decide_False by tauto].
  - by rewrite decide_False by tauto.
Qed.

Section writes.
Context (bs : list Bucket) (Hn : notify_accepts bs).

Lemma handle_put n k v : handle (buckets n) (Z.to_nat h) = Some b -> isWrite b = true ->
  zlen (b_prefix b ++ k) <= maxKeySize ctx -> zlen v <= maxValueSize ctx ->
  exists n', kvPut ctx notify n h k v = Ok n' /\ shown bs n k (Some v) n'.
Proof using Hdb Hn Hlaws.
  intros Hh Hw Hk Hv. unfold kvPut. cbn [clearResult snd buckets set_result]. rewrite bucket_at_handle, Hh.
  cbn [mbind result_bind]. unfold check.
  unfold bucket_key. rewrite Hw, (proj2 (Z.leb_le _ _) Hk), (proj2 (Z.leb_le _ _) Hv). cbn [mbind result_bind].
  destruct (bill_put_accepted bs (set_result [] [] n) (b_db b) (b_prefix b ++ k) v Hdb Hn) as (c & r & n1 & -> & E & Hbk &
    Hview).
  cbn [mbind result_bind]. rewrite E. cbn [mbind result_bind]. eexists. split; [done|]. split; [exact Hbk|]. intros b' k' Hb'.
  rewrite (view_set_db n1 (b_db b) _ (b_prefix b ++ k) (Some v)); [|intros k0; apply get_upsert]. case_decide; [done|].
  by rewrite Hview.
Qed.
Lemma handle_remove n k : handle (buckets n) (Z.to_nat h) = Some b -> isWrite b = true ->
  exists n', kvRemove ctx notify n h k = Ok n' /\ shown bs n k None n'.
Proof using Hdb Hn Hlaws.
  intros Hh Hw. unfold kvRemove. cbn [clearResult snd buckets set_result]. rewrite bucket_at_handle, Hh.
  cbn [mbind result_bind]. unfold check.
  unfold bucket_key. rewrite Hw. cbn [mbind result_bind].
  destruct (bill_remove_accepted bs (set_result [] [] n) (b_db b) (b_prefix b ++ k) Hdb Hn) as (c & r & n1 & -> & E & Hbk &
    Hview).
  cbn [mbind result_bind]. rewrite E. cbn [mbind result_bind]. eexists. split; [done|]. split; [exact Hbk|]. intros b' k' Hb'.
  rewrite (view_set_db n1 (b_db b) _ (b_prefix b ++ k) None); [|intros k0; apply get_remove]. case_decide; [done|].
  by rewrite Hview.
Qed.
End writes.

(** ** The interface *)

Definition handle_reads (n : Native) : Prop :=
  handle (buckets n) (Z.to_nat h) = Some b /\ isRead b = true /\ forall k v, view b n k = Some v -> small_entry k v.
Definition handle_writes (n : Native) : Prop := handle (buckets n) (Z.to_nat h) = Some b /\ isWrite b = true.
Definition handle_room (k v : bytes) : Prop := zlen (b_prefix b ++ k) <= maxKeySize ctx /\ zlen v <= maxValueSize ctx.

Lemma wrote_shown (n : Native) k v n' bs : b ∈ bs -> shown bs n k v n' -> (forall x, v = Some x -> small_entry k x) ->
  wrote (fun n => view b n) handle_reads handle_writes n k v n'.
Proof using Type.
  intros Hin [Hbk Hview] Hsmall. assert (E : forall k', view b n' k' = if decide (k' = k) then v else view b n k').
  { intros k'. rewrite Hview by done. destruct (decide (k' = k)) as [->|Hne]; [by rewrite decide_True|].
    rewrite decide_False; [done|]. intros [_ E]. by apply app_inv_head in E. }
  split; [exact E|]. split.
  - intros (Hh & Hr & Hs). split; [by rewrite Hbk|]. split; [done|]. intros k' x. rewrite E.
    case_decide as Hk; [subst k'; apply Hsmall|apply Hs].
  - intros [Hh Hw]. split; [by rewrite Hbk|done].
Qed.

Lemma handle_kv_laws : notify_accepts [b] -> @RawKvLaws Native (handle_kv h).
Proof using Hdb Hkey Hvalue Hlaws.
  intros Hn. refine (@Build_RawKvLaws Native (handle_kv h) (fun n k => view b n k) handle_reads handle_writes handle_room _ _ _
    _ _ _); cbn [raw_kvGet raw_kvGreaterEqual raw_kvLessThan raw_kvMax raw_kvPut raw_kvRemove handle_kv].
  - intros n k (Hh & Hr & Hs). unfold kvGet. rewrite readable_handle, Hh, Hr. cbn [mbind result_bind].
    apply (result_bytes_set n (view b n k)).
    intros v Hv. by apply (Hs k v).
  - intros n key m (Hh & Hr & Hs) Hm. unfold kvGreaterEqual, check.
    rewrite (proj2 (Nat.leb_le _ _) Hm), readable_handle, Hh, Hr. cbn [mbind result_bind].
    pose proof (greater_equal_view n b key m Hm) as Hf. eexists. split; [|exact Hf]. apply result_entry_set. intros k v E.
    rewrite E in Hf. by apply Hs, Hf.
  - intros n key m (Hh & Hr & Hs) Hm. unfold kvLessThan, check. rewrite (proj2 (Nat.leb_le _ _) Hm), readable_handle, Hh, Hr.
    cbn [mbind result_bind].
    pose proof (less_than_view n b key m Hm) as Hf. eexists. split; [|exact Hf]. apply result_entry_set. intros k v E.
    rewrite E in Hf. by apply Hs, Hf.
  - intros n key (Hh & Hr & Hs). unfold kvMax. rewrite readable_handle, Hh, Hr. cbn [mbind result_bind].
    pose proof (max_view n b key) as Hf. eexists. split; [|exact Hf]. apply result_entry_set. intros k v E. rewrite E in Hf.
    by apply Hs, Hf.
  - intros n k v [Hh Hw] [Hk Hv]. destruct (handle_put [b] Hn n k v Hh Hw Hk Hv) as (n' & E & Hs). exists n'. split; [exact E|].
    eapply wrote_shown; [by apply list_elem_of_singleton|exact Hs|]. intros x [= <-]. unfold small_entry, zlen in *.
    rewrite length_app in Hk. lia.
  - intros n k [Hh Hw]. destruct (handle_remove [b] Hn n k Hh Hw) as (n' & E & Hs). exists n'. split; [exact E|].
    by eapply wrote_shown; [apply list_elem_of_singleton|exact Hs|].
Defined.
End native_table.

(** ** Tables do not affect each other *)

(** The keys behind two handles have nothing in common. *)
Definition disjoint_handles (b1 b2 : Bucket) : Prop := b_db b1 = b_db b2 -> forall k1 k2, b_prefix b1 ++ k1 <> b_prefix b2 ++ k2.

(** The handle shows a table with these rows. *)
Definition table_at {St : Type} `{Hst : Storage St} (b : Bucket) (T : TableType) `{Htable : !TableOk T} (n : native (St := St)) (m : gmap bytes (row T)) : Prop :=
  (forall p r, m !! p = Some r -> row_ok r /\ p = key_bytes (Primary T) r) /\ forall k v, view b n k = Some v <-> entry T m k v.

Section isolation.
Context {St : Type} `{Hst : Storage St} `{Hlaws : !StorageLaws St}.
Context (ctx : NativeContext) `{Hrow : RowChecks} (notify : Mutation -> native (St := St) -> result (native (St := St))).
Context (h : Z) (b1 b2 : Bucket) (Hdb : table_db (b_db b1) = true) (Hkey : maxKeySize ctx < 2 ^ 31) (Hvalue : maxValueSize ctx < 2 ^ 31).
Context (Hn : notify_accepts notify [b1; b2]) (Hdisjoint : disjoint_handles b1 b2).
#[local] Instance h_kv : RawKv native := handle_kv ctx notify h.

(** A write through [h] leaves what [b2] shows. *)
Definition unaffected (n n' : native (St := St)) : Prop :=
  handle_writes h b1 n -> handle_writes h b1 n' /\ forall k, view b2 n' k = view b2 n k.

Lemma shown_unaffected n k v n' : shown b1 [b1; b2] n k v n' -> unaffected n n'.
Proof using Hdisjoint.
  intros [Hbk Hview] [Hh Hw]. split; [split; [by rewrite Hbk|done]|]. intros k'. rewrite Hview by (right; left).
  rewrite decide_False; [done|].
  intros [E1 E2]. by apply (Hdisjoint (eq_sym E1) k k').
Qed.
Lemma put_unaffected n k v n' : raw_kvPut n k v = Ok n' -> unaffected n n'.
Proof using Hdb Hn Hdisjoint Hlaws.
  intros E Hw. pose proof Hw as [Hh Hwr]. cbn in E.
  assert (Hsize : zlen (b_prefix b1 ++ k) <= maxKeySize ctx /\ zlen v <= maxValueSize ctx).
  { unfold kvPut in E. cbn [clearResult snd buckets set_result] in E. rewrite bucket_at_handle, Hh in E. ok_inv.
    unfold bucket_key in *. zbool. done. }
  destruct (handle_put ctx notify h b1 Hdb [b1; b2] Hn n k v Hh Hwr (proj1 Hsize) (proj2 Hsize)) as (n2 & E2 & Hs).
  assert (n2 = n') as <- by congruence.
  by eapply shown_unaffected.
Qed.
Lemma remove_unaffected n k n' : raw_kvRemove n k = Ok n' -> unaffected n n'.
Proof using Hdb Hn Hdisjoint Hlaws.
  intros E Hw. pose proof Hw as [Hh Hwr]. destruct (handle_remove ctx notify h b1 Hdb [b1; b2] Hn n k Hh Hwr) as (n2 & E2 & Hs).
  cbn in E. assert (n2 = n') as <- by congruence.
  by eapply shown_unaffected.
Qed.

Lemma notify_accepts_less bs bs' : notify_accepts notify bs -> (forall b, b ∈ bs' -> b ∈ bs) -> notify_accepts notify bs'.
Proof. intros H Hsub mu n. destruct (H mu n) as (n' & E & Hb & Hv). exists n'. split; [done|]. split; [done|]. intros b k Hin.
by apply Hv, Hsub. Qed.
Lemma accepts_one : notify_accepts notify [b1].
Proof using Hn. eapply notify_accepts_less; [exact Hn|]. intros b ->%list_elem_of_singleton. left. Qed.
End isolation.

(** A [kvNotify] that does not refuse. *)
Lemma table_ops_isolated {St : Type} `{Hst : Storage St} `{Hlaws : !StorageLaws St} (ctx : NativeContext) `{Hrow : RowChecks}
    (notify : Mutation -> native (St := St) -> result (native (St := St))) (T1 T2 : TableType) `{H1 : !TableOk T1} `{H2 :
      !TableOk T2}
    (h : Z) (b1 b2 : Bucket) (n : native (St := St)) m1 m2 os
    (Hdb : table_db (b_db b1) = true) (Hkey : maxKeySize ctx < 2 ^ 31) (Hvalue : maxValueSize ctx < 2 ^ 31)
    (Hn : notify_accepts notify [b1; b2]) (Hdisjoint : disjoint_handles b1 b2)
    (Hw : handle_writes h b1 n) (Hr : handle_reads h b1 n) (Ht1 : table_at b1 T1 n m1) (Ht2 : table_at b2 T2 n m2)
    (Hos : @ops_ok _ (handle_kv ctx notify h) (handle_kv_laws ctx notify h b1 Hdb Hkey Hvalue (accepts_one notify b1 b2 Hn)) T1
      H1 os m1) :
  match map_ops T1 os m1 with
  | Ok m1' => exists n', @run_ops _ (handle_kv ctx notify h) T1 os n = Ok n' /\ table_at b1 T1 n' m1' /\ table_at b2 T2 n' m2
  | Abort msg => @run_ops _ (handle_kv ctx notify h) T1 os n = Abort msg
  end.
Proof.
  set (laws := handle_kv_laws _ _ _ _ _ _ _ _) in *.
  assert (Hm : @holds _ _ laws T1 H1 n m1) by (destruct Ht1; by split).
  assert (Hc : @can_write _ _ laws T1 n) by (by split).
  pose proof (@run_ops_spec _ _ laws T1 H1 os n m1 Hm Hc Hos) as Hrun. destruct (map_ops T1 os m1) as [m1'|msg]; [|done].
  destruct Hrun as (n' & E & _ & _ & Hm'). exists n'. split; [done|].
  split; [split; [exact (@held_rows _ _ laws T1 H1 n' m1' Hm')|exact (@held_entries _ _ laws T1 H1 n' m1' Hm')]|].
  assert (Hun : unaffected h b1 b2 n n').
  { eapply (@run_ops_related _ (handle_kv ctx notify h) T1 (unaffected h b1 b2)); [done| | | |exact E].
    - intros n1 n2 n3 H12 H23 Hw1. destruct (H12 Hw1) as [Hw2 V12]. destruct (H23 Hw2) as [Hw3 V23]. split; [done|]. intros k.
      by rewrite V23, V12.
    - intros n1 k v n2. by apply put_unaffected.
    - intros n1 k n2. by apply remove_unaffected. }
  destruct (Hun Hw) as [_ Hv]. destruct Ht2 as [Hrows Hent]. split; [done|]. intros k v. rewrite Hv. apply Hent.
Qed.

(** ** A [kvNotify] that refuses *)

(** Two databases that differ in the writes that the first one refuses. *)
Section refusing.
Context {S : Type} (kv kv' : RawKv S) (refused : string -> Prop).

Definition agrees {A} (r r' : result A) : Prop := match r with Ok a => r' = Ok a | Abort msg => r' = Abort msg \/ refused msg end.
Lemma agrees_refl {A} (r : result A) : agrees r r.
Proof. destruct r; [done|by left]. Qed.
Lemma agrees_bind {A B} (r r' : result A) (f f' : A -> result B) : agrees r r' -> (forall a, agrees (f a) (f' a)) -> agrees (r ≫= f) (r' ≫= f').
Proof. intros H Hf. destruct r as [a|msg]; cbn in H; [subst r'; apply Hf|]. cbn. destruct H as [->|H]; [by left|by right]. Qed.

Context (Hget : forall s k, @raw_kvGet _ kv s k = @raw_kvGet _ kv' s k).
Context (Hput : forall s k v, agrees (@raw_kvPut _ kv s k v) (@raw_kvPut _ kv' s k v)).
Context (Hremove : forall s k, agrees (@raw_kvRemove _ kv s k) (@raw_kvRemove _ kv' s k)).

Lemma insert_agrees s k v : agrees (@kvInsertUnique _ kv s k v) (@kvInsertUnique _ kv' s k v).
Proof using Hget Hput. unfold kvInsertUnique. rewrite Hget. apply agrees_bind; [apply agrees_refl|]. intros [x|]; [apply agrees_refl|apply Hput]. Qed.
Lemma for_keys_agrees (T : TableType) step step' fs : (forall idx f s, agrees (step idx f s) (step' idx f s)) ->
  forall idx (s : S), agrees (for_keys T step idx fs s) (for_keys T step' idx fs s).
Proof using Type. intros Hs. induction fs as [|f fs IH]; intros idx s; cbn [for_keys]; [apply agrees_refl|]. apply agrees_bind; [apply Hs|]. intros s1. apply IH. Qed.
Lemma remove_agrees (T : TableType) s r : agrees (@remove _ kv T s r) (@remove _ kv' T s r).
Proof using Hremove. apply for_keys_agrees. intros idx f s1. apply Hremove. Qed.
Lemma run_op_agrees (T : TableType) o s : agrees (@run_op _ kv T o s) (@run_op _ kv' T o s).
Proof using Hget Hput Hremove.
  destruct o as [r|r|k]; cbn [run_op].
  - unfold put, putImpl. apply agrees_bind; [|intros s1; apply Hput]. destruct (Secondary T) as [|f0 fs0]; [apply agrees_refl|]. rewrite Hget.
    apply agrees_bind; [apply agrees_refl|]. intros [buffer|]; [|apply for_keys_agrees; intros; apply insert_agrees].
    apply agrees_bind; [apply agrees_refl|]. intros old. apply for_keys_agrees. intros idx f s1. unfold replace_secondary.
    destruct (value_compare _ _ _); [apply agrees_refl|..]; (apply agrees_bind; [apply Hremove|intros s2; apply insert_agrees]).
  - apply remove_agrees.
  - unfold erase. destruct (Secondary T) as [|f0 fs0]; [apply Hremove|]. assert (@get _ kv T s k = @get _ kv' T s k) as ->.
    { unfold get, ix_get. rewrite Hget. by destruct (raw_kvGet s _) as [[x|]|]. }
    apply agrees_bind; [apply agrees_refl|]. intros [r|]; [apply remove_agrees|apply agrees_refl].
Qed.
Lemma run_ops_agrees (T : TableType) os s : agrees (@run_ops _ kv T os s) (@run_ops _ kv' T os s).
Proof using Hget Hput Hremove. revert s. induction os as [|o os IH]; intros s; cbn [run_ops]; [apply agrees_refl|]. apply agrees_bind; [apply run_op_agrees|]. intros s1. apply IH. Qed.
End refusing.

Section accepting.
Context {St : Type} `{Hst : Storage St}.
Context (ctx : NativeContext) `{Hrow : RowChecks} (notify : Mutation -> native (St := St) -> result (native (St := St))).

(** [kvNotify] of [Transact] bills the change: it can refuse it, and it runs other
    services, which write rows of their own.  It does not change what the handles in
    [bs] show. *)
Definition notify_keeps (bs : list Bucket) : Prop := forall mu n n', notify mu n = Ok n' -> keeps bs n n'.
Definition accepting (mu : Mutation) (n : native (St := St)) : result (native (St := St)) := match notify mu n with Ok n' => Ok n' | Abort _ => Ok n end.
Lemma accepting_accepts bs : notify_keeps bs -> notify_accepts accepting bs.
Proof using Type. intros H mu n. unfold accepting. destruct (notify mu n) as [n'|msg] eqn:E; [exists n'; split; [done|exact (H _ _ _ E)]|by exists n]. Qed.

Definition refused (msg : string) : Prop := exists mu n, notify mu n = Abort msg.
Abbreviation agree := (agrees refused).
Lemma notified_agrees n db keyLen old new : agree (notifyKvMut ctx notify n db keyLen old new) (notifyKvMut ctx accepting n db keyLen old new).
Proof using Type.
  unfold notifyKvMut, accepting. destruct (notify _ n) as [n'|msg] eqn:E; [done|]. cbn. right. by eexists _, _.
Qed.
Lemma put_agrees h n k v : agree (kvPut ctx notify n h k v) (kvPut ctx accepting n h k v).
Proof using Type.
  unfold kvPut. apply agrees_bind; [apply agrees_refl|]. intros b. do 3 (apply agrees_bind; [apply agrees_refl|]; intros []). apply agrees_bind; [apply agrees_refl|]. intros [c r]. apply agrees_bind; [|intros; apply agrees_refl].
  unfold bill_put. destruct c; [|apply agrees_refl]. destruct r; [|apply notified_agrees]. apply agrees_bind; [apply agrees_refl|]. intros []. apply notified_agrees.
Qed.
Lemma remove_key_agrees h n k : agree (kvRemove ctx notify n h k) (kvRemove ctx accepting n h k).
Proof using Type.
  unfold kvRemove. apply agrees_bind; [apply agrees_refl|]. intros b. apply agrees_bind; [apply agrees_refl|]. intros []. apply agrees_bind; [apply agrees_refl|]. intros [c r]. apply agrees_bind; [|intros; apply agrees_refl].
  unfold bill_remove. destruct r; [|apply agrees_refl]. destruct (kvGetRaw _ _); [|apply agrees_refl]. apply agrees_bind; [apply agrees_refl|]. intros []. apply notified_agrees.
Qed.
End accepting.

(** C22: The operations of a table, through a handle of the running service, that end without
    an exception do what they do to a map of rows, and a table behind another handle, of
    another database or with a prefix such that neither of the two prefixes starts with the
    other, keeps its rows.  They abort when the operation on the map does, with the same
    message, or when [kvNotify] refuses a change; [kvNotify] can write, but not to the
    two tables. *)
Theorem tables_isolated {St : Type} `{Hst : Storage St} `{Hlaws : !StorageLaws St} (ctx : NativeContext) `{Hrow : RowChecks}
    (notify : Mutation -> native (St := St) -> result (native (St := St))) (T1 T2 : TableType) `{H1 : !TableOk T1} `{H2 :
      !TableOk T2}
    (h : Z) (b1 b2 : Bucket) (n : native (St := St)) m1 m2 os
    (Hdb : table_db (b_db b1) = true) (Hkey : maxKeySize ctx < 2 ^ 31) (Hvalue : maxValueSize ctx < 2 ^ 31)
    (Hn : notify_keeps notify [b1; b2]) (Hdisjoint : disjoint_handles b1 b2)
    (Hw : handle_writes h b1 n) (Hr : handle_reads h b1 n) (Ht1 : table_at b1 T1 n m1) (Ht2 : table_at b2 T2 n m2)
    (Hos : @ops_ok _ (handle_kv ctx (accepting notify) h)
      (handle_kv_laws ctx (accepting notify) h b1 Hdb Hkey Hvalue (accepts_one (accepting notify) b1 b2 (accepting_accepts notify _ Hn))) T1 H1 os m1) :
  match @run_ops _ (handle_kv ctx notify h) T1 os n with
  | Ok n' => exists m1', map_ops T1 os m1 = Ok m1' /\ table_at b1 T1 n' m1' /\ table_at b2 T2 n' m2
  | Abort msg => map_ops T1 os m1 = Abort msg \/ refused notify msg
  end.
Proof.
  pose proof (table_ops_isolated ctx (accepting notify) T1 T2 h b1 b2 n m1 m2 os Hdb Hkey Hvalue (accepting_accepts notify _ Hn) Hdisjoint Hw Hr Ht1 Ht2 Hos) as H.
  pose proof (run_ops_agrees (handle_kv ctx notify h) (handle_kv ctx (accepting notify) h) (refused notify) (fun _ _ => eq_refl)
    (put_agrees ctx notify h) (remove_key_agrees ctx notify h) T1 os n) as Ha.
  destruct (@run_ops _ (handle_kv ctx notify h) T1 os n) as [n'|msg]; cbn in Ha.
  - rewrite Ha in H. destruct (map_ops T1 os m1) as [m1'|msg]; [|done]. destruct H as (n2 & [= <-] & H). by exists m1'.
  - destruct Ha as [Ha|Ha]; [|by right]. left. rewrite Ha in H. destruct (map_ops T1 os m1) as [m1'|msg']; [by destruct H as (? & ? & _)|congruence].
Qed.

(** ** An example *)

(** Two tables of items in a service. *)
Definition table_handle (i : Z) : Bucket := {| b_db := db_service; b_prefix := [5; i]; b_mode := mode_readWrite |}.
Definition two_tables : native (St := gmap bytes bytes) :=
  {| dbs := fun _ => ∅; buckets := [table_handle 0; table_handle 1]; result_key := []; result_value := [];
     kvResourceDeltas := []; importedHandles := []; exportedHandles := [] |}.

Lemma tables_isolated_witness :
  exists m n', map_ops items [Put item_a] ∅ = Ok m /\ @run_ops _ (handle_kv example_ctx example_notify 0) items [Put item_a]
    two_tables = Ok n' /\
    table_at (table_handle 0) items n' m /\ table_at (table_handle 1) items n' ∅.
Proof.
  assert (Hn : notify_keeps example_notify [table_handle 0; table_handle 1]) by (intros mu n n' [= <-]; split; [reflexivity|reflexivity]).
  assert (Hempty : forall i, table_at (table_handle i) items two_tables ∅).
  { intros i. split; [intros p r Hr; discriminate Hr|]. intros k v. split; [intros Hk; discriminate Hk|]. intros He.
    destruct He as [p r Hr|j f p r Hf Hr]; discriminate Hr. }
  assert (Hdisjoint : disjoint_handles (table_handle 0) (table_handle 1)) by (intros _ k1 k2 E; discriminate E).
  assert (Hr : handle_reads 0 (table_handle 0) two_tables) by (split; [reflexivity|split; [reflexivity|intros k v Hk;
    discriminate Hk]]).
  pose proof (tables_isolated example_ctx example_notify items items 0 (table_handle 0) (table_handle 1) two_tables ∅ ∅ [Put
    item_a]
    eq_refl eq_refl eq_refl Hn Hdisjoint (conj eq_refl eq_refl) Hr (Hempty 0) (Hempty 1)) as H.
  assert (Hrow : row_ok (T := items) item_a) by (exact (proj1 (item_row_ok item_a (list_elem_of_here _ _)))).
  destruct (@run_ops _ (handle_kv example_ctx example_notify 0) items [Put item_a] two_tables) as [n'|msg] eqn:En; [|vm_compute in En; discriminate En].
  destruct H as (m & E & H1 & H2); [|exists m, n'; split; [exact E|split; [reflexivity|split; [exact H1|exact H2]]]].
  split; [|exact I]. split; [exact Hrow|]. split; [split; vm_compute; discriminate|]. intros i f Hf.
  destruct i as [|[|i]]; [injection Hf as <-; split; vm_compute; discriminate|injection Hf as <-; split; vm_compute;
    discriminate|discriminate Hf].
Defined.
