(* ===== verification/DbService.v ===== *)
(** * psibase: opening tables, and the services Db and XDb

    A service does not open databases itself: [proxyKvOpen] asks the service [Db],
    or [XDb] for the databases that are not part of consensus, which check the
    prefix against the account of the caller before they open the handle
    ([packages/system/Db], [packages/local/XDb], [service/src/Table.cpp]).
    [DbTables] and [ExternTables] choose the prefixes of tables. *)

From S2P Require Import Prelude Text ToKey Names BucketSet Database NativeKv TableKeys Table TableMap TableNative.

(** ** Prefixes of tables *)

(** [to_key] of an account, which is a class with one number, and of a table number. *)
Definition account_type : kty := KTuple [KInt false 8].
Definition account_key (account : Z) : bytes := to_key account_type (VTuple [VInt account]).
Definition DbTables_prefix (account table : Z) : bytes := composite_key [(account_type, VTuple [VInt account]); (KInt false 2, VInt table)].
Definition ExternTables_prefix (table : Z) : bytes := convert_to_key (KInt false 2) (VInt table) [].

(** [defaultMode]. *)
Definition defaultMode (receiver account : Z) : Z := if account =? receiver then mode_readWrite else mode_read.

(** ** Error messages *)

Definition DbId_to_string (dbRaw : Z) : bytes :=
  match DbId_of_code dbRaw with
  | Some db_service => str "service"
  | Some db_writeOnly => str "writeOnly"
  | Some db_native => str "native"
  | Some db_blockLog => str "blockLog"
  | Some db_blockProof => str "blockProof"
  | Some db_subjective => str "subjective"
  | Some db_nativeSubjective => str "nativeSubjective"
  | Some db_session => str "session"
  | Some db_nativeSession => str "nativeSession"
  | Some db_temporary => str "temporary"
  | _ => decimal 10 dbRaw
  end.

Definition account_text (account : Z) : bytes := default [] (account_str account).

Definition dbError (sender dbRaw : Z) (verb : bytes) : string :=
  string_of (account_text sender ++ str " cannot " ++ verb ++ str " db " ++ DbId_to_string dbRaw).

(** [std::reverse_copy] of bytes into a number. *)
Definition be_value (l : bytes) : Z := foldl (fun v b => v * 256 + b) 0 l.

Definition prefixError (sender : Z) (prefix verb : bytes) : string :=
  let message := account_text sender ++ str " cannot " ++ verb ++ str " another service's prefix" in
  let message :=
    if (8 <=? length prefix)%nat then
      let message := message ++ str ": " ++ account_text (be_value (take 8 prefix)) in
      if (2 <=? length (drop 8 prefix))%nat then message ++ str ":" ++ decimal 5 (be_value (take 2 (drop 8 prefix))) else message
    else message in
  string_of message.

(** ** The services *)

Definition mode_isWrite (mode : Z) : bool := (mode =? mode_write) || (mode =? mode_readWrite).
Definition starts_with (prefix expected : bytes) : bool := has_prefix expected prefix.

Section services.
(** The flags of the code rows of the chain, and of the local ones. *)
Context (codeFlags localFlags : Z -> option Z).

Definition row_privileged (row : option Z) : bool := match row with Some flags => negb (Z.land flags isPrivileged =? 0) | None => false end.

(** What [Db::open] checks. *)
Definition Db_check (sender dbRaw : Z) (prefix : bytes) (mode : Z) : result unit :=
  if (dbRaw =? DbId_code db_service) || (dbRaw =? DbId_code db_writeOnly) then
    let expected := account_key sender in
    if mode_isWrite mode then
      if negb (starts_with prefix expected) then Abort (prefixError sender prefix (str "write to")) else mret tt
    else
      let expected := removelast expected in
      if negb (starts_with prefix expected) then Abort (prefixError sender prefix (str "read from")) else mret tt
  else if dbRaw =? DbId_code db_native then
    if mode_isWrite mode && negb (row_privileged (codeFlags sender)) then Abort (dbError sender dbRaw (str "write")) else mret tt
  else if dbRaw =? DbId_code db_blockLog then
    if mode_isWrite mode then Abort (dbError sender dbRaw (str "write")) else mret tt
  else Abort (dbError sender dbRaw (str "open")).

(** What [XDb::open] checks. *)
Definition XDb_check (sender dbRaw : Z) (prefix : bytes) (mode : Z) : result unit :=
  if (dbRaw =? DbId_code db_subjective) || (dbRaw =? DbId_code db_session) || (dbRaw =? DbId_code db_temporary) then
    check (starts_with prefix (account_key sender)) "key prefix must match service" ;;
    check (negb (mode_isWrite mode && negb (bool_decide (is_Some (localFlags sender))) && negb (row_privileged (codeFlags sender)))) "Service cannot write this db"
  else if (dbRaw =? DbId_code db_nativeSubjective) || (dbRaw =? DbId_code db_nativeSession) then
    check (row_privileged (localFlags sender)) "Service cannot access this db"
  else if dbRaw =? DbId_code db_native then
    check (negb (mode_isWrite mode)) "Service cannot write this db"
  else Abort "Service cannot open this db".

Context {St : Type} `{Hst : Storage St} (ctx : NativeContext).

Definition Db_open (n : native (St := St)) (sender dbRaw : Z) (prefix : bytes) (mode : Z) : result (Z * native (St := St)) :=
  Db_check sender dbRaw prefix mode ;; kvOpen ctx n dbRaw prefix mode.
Definition XDb_open (n : native (St := St)) (sender dbRaw : Z) (prefix : bytes) (mode : Z) : result (Z * native (St := St)) :=
  XDb_check sender dbRaw prefix mode ;; kvOpen ctx n dbRaw prefix mode.

(** [proxyKvOpen]: the service that is asked, with its own handles; the new handle is
    passed back to the caller. *)
Definition proxyKvOpen (n : native (St := St)) (sender dbRaw : Z) (prefix : bytes) (mode : Z) : result (Z * native (St := St)) :=
  if dbRaw <? 64 then Db_open n sender dbRaw prefix mode else XDb_open n sender dbRaw prefix mode.

(** [DbTables::open] of a service. *)
Definition DbTables_open (n : native (St := St)) (sender dbRaw account table mode : Z) : result (Z * native (St := St)) :=
  proxyKvOpen n sender dbRaw (DbTables_prefix account table) mode.
End services.

(** ** Keys of accounts *)

Lemma account_key_be a : 0 <= a < 2 ^ 64 -> account_key a = rev (le_bytes 8 a).
Proof.
  intros Ha. unfold account_key, account_type. cbn [to_key to_key_tuple]. rewrite app_nil_r. unfold to_key_int.
  change (8 * Z.of_nat 8) with 64. change (int_min false 8) with 0.
  rewrite (wrap_small 64 0), (wrap_small 64 a), Z.sub_0_r, wrap_small by lia. done.
Qed.
Lemma account_key_last a : 0 <= a < 2 ^ 64 -> account_key a = rev (le_bytes 7 (a / 256)) ++ [a mod 256].
Proof. intros Ha. rewrite account_key_be by done. reflexivity. Qed.

Lemma be_inj n x y : 0 <= x < 256 ^ Z.of_nat n -> 0 <= y < 256 ^ Z.of_nat n -> rev (le_bytes n x) = rev (le_bytes n y) -> x = y.
Proof. intros Hx Hy E. pose proof (be_compare n x y Hx Hy) as Hc. rewrite E, lex_compare_refl in Hc. symmetry in Hc.
by apply Z.compare_eq in Hc. Qed.

Lemma app_same_length {A} (a b c d : list A) : length a = length b -> a ++ c = b ++ d -> a = b /\ c = d.
Proof. apply app_inj_1. Qed.

Lemma account_key_inj a b k l : 0 <= a < 2 ^ 64 -> 0 <= b < 2 ^ 64 -> account_key a ++ k = account_key b ++ l -> a = b /\ k = l.
Proof.
  intros Ha Hb E. rewrite !account_key_be in E by done.
  apply app_same_length in E as [E ->]; [|by rewrite !length_rev, !length_le_bytes].
  split; [|done]. apply (be_inj 8); [exact Ha|exact Hb|exact E].
Qed.
(** Without its last byte, the key is that of the base account. *)
Lemma account_key_base a b k l : 0 <= a < 2 ^ 64 -> 0 <= b < 2 ^ 64 -> removelast (account_key a) ++ k = account_key b ++ l ->
  base_account a = base_account b.
Proof.
  intros Ha Hb E. rewrite !account_key_last in E by done. rewrite removelast_last, <- app_assoc in E.
  apply app_same_length in E as [E _]; [|by rewrite !length_rev, !length_le_bytes]. rewrite !base_account_spec by done.
  f_equal. apply (be_inj 7); [|..|exact E]; change (256 ^ Z.of_nat 7) with (2 ^ 56); (split; [apply Z.div_pos;
    lia|apply Z.div_lt_upper_bound; lia]).
Qed.

Lemma DbTables_prefix_eq account table : DbTables_prefix account table = account_key account ++ to_key (KInt false 2) (VInt
  table).
Proof. unfold DbTables_prefix. rewrite composite_key_tuple. unfold account_key. cbn [map fst snd to_key to_key_tuple].
by rewrite app_nil_r. Qed.
Lemma table_key_inj t t' : 0 <= t < 2 ^ 16 -> 0 <= t' < 2 ^ 16 ->
  to_key (KInt false 2) (VInt t) = to_key (KInt false 2) (VInt t') -> t = t'.
Proof.
  assert (Hk : forall t, 0 <= t < 2 ^ 16 -> to_key (KInt false 2) (VInt t) = rev (le_bytes 2 t)).
  { intros u Hu. cbn [to_key]. unfold to_key_int. change (8 * Z.of_nat 2) with 16. change (int_min false 2) with 0.
    by rewrite (wrap_small 16 0), (wrap_small 16 u), Z.sub_0_r, wrap_small by lia. }
  intros Ht Ht' E. rewrite !Hk in E by done. apply (be_inj 2); [exact Ht|exact Ht'|exact E].
Qed.

(** Tables of different accounts or with different numbers have disjoint keys. *)
Lemma DbTables_disjoint db mode mode' a t a' t' :
  0 <= a < 2 ^ 64 -> 0 <= a' < 2 ^ 64 -> 0 <= t < 2 ^ 16 -> 0 <= t' < 2 ^ 16 -> (a, t) <> (a', t') ->
  disjoint_handles {| b_db := db; b_prefix := DbTables_prefix a t; b_mode := mode |} {| b_db := db; b_prefix := DbTables_prefix
    a' t'; b_mode := mode' |}.
Proof.
  intros Ha Ha' Ht Ht' Hne _ k1 k2. cbn [b_prefix]. rewrite !DbTables_prefix_eq, <- !app_assoc. intros E.
  apply account_key_inj in E as [-> E]; [|done..].
  apply app_same_length in E as [E _]; [|cbn [to_key]; by rewrite !length_to_key_int].
  apply table_key_inj in E as ->; [|done..]. done.
Qed.

(** ** What a service may open *)

(** The handle that [open] gives. *)
Lemma open_new bs db prefix mode limit h bs' : open bs db prefix mode limit = Ok (h, bs') ->
  handle bs' (Z.to_nat h) = Some {| b_db := db; b_prefix := prefix; b_mode := mode |}.
Proof.
  unfold open, check. destruct (negb (mode =? mode_none)) eqn:Em; [|done]. cbn [mbind result_bind].
  set (new := {| b_db := db; b_prefix := prefix; b_mode := mode |}).
  assert (Hlive : live new = true) by exact Em. pose proof (open_loop_spec bs new 0) as Hl.
  destruct (open_loop 0 bs new) as [[k bs1]|].
  - destruct Hl as (i & -> & Hi & _ & ->). cbn. intros [= <- <-]. rewrite Nat2Z.id, handle_insert, decide_True by done.
    by rewrite Hlive.
  - cbn. destruct (_ <? limit); [|done]. cbn. intros [= <- <-]. rewrite Nat2Z.id, handle_snoc, decide_True by done.
    by rewrite Hlive.
Qed.

Section confined.
Context (codeFlags localFlags : Z -> option Z) {St : Type} `{Hst : Storage St} (ctx : NativeContext).

(** What the caller is, for a key of [account] in the range of an opened handle. *)
Definition entitled (sender dbRaw account : Z) (writes : bool) : Prop :=
  match DbId_of_code dbRaw with
  | Some (db_service | db_writeOnly) => (writes = true -> account = sender) /\ base_account account = base_account sender
  | Some (db_subjective | db_session | db_temporary) =>
      account = sender /\ (writes = true -> is_Some (localFlags sender) \/ row_privileged (codeFlags sender) = true)
  | Some db_native => writes = true -> row_privileged (codeFlags sender) = true
  | Some (db_nativeSubjective | db_nativeSession) => row_privileged (localFlags sender) = true
  | Some db_blockLog => writes = false
  | _ => False
  end.

Lemma DbId_of_code_inv dbRaw db : DbId_of_code dbRaw = Some db -> dbRaw = DbId_code db.
Proof. intros E. apply find_some in E as [_ E]. symmetry. by apply Z.eqb_eq. Qed.

Lemma Db_check_entitled sender dbRaw prefix mode account k rest : 0 <= sender < 2 ^ 64 -> 0 <= account < 2 ^ 64 ->
  is_Some (DbId_of_code dbRaw) -> dbRaw < 64 ->
  Db_check codeFlags sender dbRaw prefix mode = Ok tt -> prefix ++ k = account_key account ++ rest ->
    entitled sender dbRaw account (mode_isWrite mode).
Proof.
  intros Hs Ha [db Hdb] Hlow E Hk. unfold entitled. rewrite Hdb. apply DbId_of_code_inv in Hdb as ->. unfold Db_check in E.
  assert (Hwrite : starts_with prefix (account_key sender) = true -> account = sender).
  { intros [c ->]%has_prefix_app. rewrite <- app_assoc in Hk. by apply account_key_inj in Hk as [-> _]. }
  assert (Hread : starts_with prefix (removelast (account_key sender)) = true -> base_account account = base_account sender).
  { intros [c ->]%has_prefix_app. rewrite <- app_assoc in Hk. symmetry. by apply account_key_base in Hk. }
  destruct db; cbn in E, Hlow; try lia; try discriminate E.
  1, 2: destruct (mode_isWrite mode); destruct (starts_with prefix _) eqn:Es; try discriminate E;
    [specialize (Hwrite eq_refl) as ->; by split|by split; [|apply Hread]].
  - destruct (mode_isWrite mode); [|done]. cbn in E. destruct (row_privileged _); done.
  - by destruct (mode_isWrite mode).
Qed.

Lemma XDb_check_entitled sender dbRaw prefix mode account k rest : 0 <= sender < 2 ^ 64 -> 0 <= account < 2 ^ 64 ->
  is_Some (DbId_of_code dbRaw) -> 64 <= dbRaw ->
  XDb_check codeFlags localFlags sender dbRaw prefix mode = Ok tt -> prefix ++ k = account_key account ++ rest ->
    entitled sender dbRaw account (mode_isWrite mode).
Proof.
  intros Hs Ha [db Hdb] Hhigh E Hk. unfold entitled. rewrite Hdb. apply DbId_of_code_inv in Hdb as ->. unfold XDb_check in E.
  assert (Hown : starts_with prefix (account_key sender) = true -> account = sender).
  { intros [c ->]%has_prefix_app. rewrite <- app_assoc in Hk. by apply account_key_inj in Hk as [-> _]. }
  assert (Hlocal : check (negb (mode_isWrite mode && negb (bool_decide (is_Some (localFlags sender))) && negb (row_privileged
    (codeFlags sender)))) "Service cannot write this db" = Ok tt ->
    mode_isWrite mode = true -> is_Some (localFlags sender) \/ row_privileged (codeFlags sender) = true).
  { rewrite check_ok. intros Hc Hm. rewrite Hm in Hc.
    destruct (bool_decide _) eqn:Eb; [left; by apply bool_decide_eq_true in Eb|right]. by destruct (row_privileged _). }
  destruct db; cbn in E, Hhigh; try lia.
  1, 3, 5: destruct (starts_with prefix _); [|discriminate E]; by split; [apply Hown|apply Hlocal].
  all: by destruct (row_privileged _).
Qed.

(** C23: A service has no handle on the rows of another one.  When [proxyKvOpen] succeeds,
    the new handle has the database, prefix and mode that were asked for, and every
    key in its range that begins with the key of an account is one that the caller is
    entitled to: in the databases of services it is the caller's own key, or for
    reading one of the same base account; in the subjective ones always the caller's,
    and writing needs local code or privilege.  Every service may read the native
    database and the block log; writing the native database, and any handle on
    [nativeSubjective] and [nativeSession], needs privileged code, and the block log is
    never writable.  The other databases are not opened at all. *)
Theorem handles_confined (n : native (St := St)) sender dbRaw prefix mode h n' account k rest :
  0 <= sender < 2 ^ 64 -> 0 <= account < 2 ^ 64 ->
  proxyKvOpen codeFlags localFlags ctx n sender dbRaw prefix mode = Ok (h, n') ->
  (exists db, DbId_of_code dbRaw = Some db /\ handle (buckets n') (Z.to_nat h) = Some {| b_db := db; b_prefix := prefix; b_mode
    := mode |}) /\
  (prefix ++ k = account_key account ++ rest -> entitled sender dbRaw account (mode_isWrite mode)).
Proof.
  intros Hs Ha E. unfold proxyKvOpen, Db_open, XDb_open in E.
  assert (Hopen : kvOpen ctx n dbRaw prefix mode = Ok (h, n')) by (destruct (dbRaw <? 64); ok_inv; done).
  apply kvOpen_permitted in Hopen as (db & bs & Hdb & _ & Hopen & -> & _). apply open_new in Hopen. split; [by exists db|].
  intros Hk.
  destruct (Z.ltb_spec dbRaw 64); ok_inv; destruct a.
  - by eapply Db_check_entitled.
  - by eapply XDb_check_entitled.
Qed.
End confined.

(** A service can always open its own tables in the databases of services. *)
Theorem own_tables_allowed codeFlags sender table dbRaw mode :
  0 <= sender < 2 ^ 64 -> dbRaw = DbId_code db_service \/ dbRaw = DbId_code db_writeOnly ->
  Db_check codeFlags sender dbRaw (DbTables_prefix sender table) mode = Ok tt.
Proof.
  intros Hs Hdb. assert (Hw : forall c, starts_with (account_key sender ++ c) (account_key sender) = true) by (intros c;
    apply has_prefix_refl).
  assert (Hr : forall c, starts_with (account_key sender ++ c) (removelast (account_key sender)) = true).
  { intros c. rewrite account_key_last by done. rewrite removelast_last, <- app_assoc. apply has_prefix_refl. }
  rewrite DbTables_prefix_eq. unfold Db_check.
  destruct Hdb as [-> | ->]; cbn [DbId_code Z.eqb orb]; destruct (mode_isWrite mode); by rewrite ?Hw, ?Hr.
Qed.

Lemma handles_confined_witness :
  exists h n', proxyKvOpen (fun _ => None) (fun _ => None) example_ctx example_native 1025 (DbId_code db_service)
    (DbTables_prefix 1026 3) mode_read = Ok (h, n') /\
    entitled (fun _ => None) (fun _ => None) 1025 (DbId_code db_service) 1026 false.
Proof.
  do 2 eexists. split; [vm_compute; reflexivity|].
  refine (proj2 (handles_confined (fun _ => None) (fun _ => None) example_ctx example_native 1025 (DbId_code db_service)
    (DbTables_prefix 1026 3) mode_read _ _ 1026 [] [0; 3]
    ltac:(lia) ltac:(lia) eq_refl) _). vm_compute. reflexivity.
Defined.
