(* ===== verification/Decimals.v ===== *)
(** * Tokens: quantities and decimals

    [Precision], [Quantity] and [Decimal] of
    [packages/user/Tokens/include/services/user/tokenTypes.hpp]: amounts of a token
    as 64-bit numbers, and their text with a decimal point. *)

From S2P Require Import Prelude Text.

Definition precisionMin : Z := 0.
Definition precisionMax : Z := 8.

(** The constructor of [Precision] of an 8-bit number. *)
Definition Precision (p : Z) : result Z :=
  if (p <? precisionMin) || (precisionMax <? p)
  then Abort (string_of (str "Value " ++ decimal 3 p ++ str " outside allowed Precision range: " ++ decimal 3 precisionMin ++ str " to " ++ decimal 3 precisionMax))
  else Ok p.

(** ** Quantities *)

Definition u64_max : Z := 2 ^ 64 - 1.
Definition error_overflow : string := "overflow in Quantity arithmetic".
Definition error_underflow : string := "underflow in Quantity arithmetic".
Definition quantity_add (value q2 : Z) : result Z :=
  check (value <=? u64 (u64_max - q2)) error_overflow ;; mret (u64 (value + q2)).
Definition quantity_sub (value q2 : Z) : result Z :=
  check (q2 <=? value) error_underflow ;; mret (u64 (value - q2)).

(** ** Decimals *)

Record Decimal := { quantity : Z; precision : Z }.

Fixpoint pow10_unsafe (exp : nat) : Z :=
  match exp with O => 1 | S exp => u64 (pow10_unsafe exp * 10) end.

Definition format_fractional_part (value : Z) (precision : nat) : bytes := last_digits precision value.

Definition decimal_str (d : Decimal) : bytes :=
  if precision d =? 0 then decimal 20 (quantity d)
  else
    let divisor := pow10_unsafe (Z.to_nat (precision d)) in
    let integer_part := quantity d / divisor in
    let fractional_part := quantity d mod divisor in
    decimal 20 integer_part ++ [chr "."] ++ format_fractional_part fractional_part (Z.to_nat (precision d)).

(** The loop with [has_digit]. *)
Fixpoint validate_loop (s : bytes) (has_digit : bool) : result bool :=
  match s with
  | [] => Ok has_digit
  | c :: s =>
      if negb (c =? chr ".") && negb (is_digit c) then Abort "Invalid number: contains non-digit characters"
      else validate_loop s (has_digit || is_digit c)
  end.
Definition validate_decimal_string (s : bytes) : result unit :=
  has_digit ← validate_loop s false; check has_digit "Invalid number: must contain at least one digit".

(** The text before and after the first point. *)
Fixpoint split_at_point (s : bytes) : option (bytes * bytes) :=
  match s with
  | [] => None
  | c :: s => if c =? chr "." then Some ([], s) else match split_at_point s with Some (a, b) => Some (c :: a, b) | None => None end
  end.
Definition split_decimal_string (s : bytes) : bytes * bytes * Z :=
  match split_at_point s with
  | Some (integer, fraction) => (integer, fraction, u8 (Z.of_nat (length fraction)))
  | None => (s, [], 0)
  end.

Definition parse_u64 (s : bytes) : result Z :=
  match s with
  | [] => Ok 0
  | _ => match from_chars_u64 s with Some (v, []) => Ok v | _ => Abort "Invalid number: parse error" end
  end.

Fixpoint pow10_safe_loop (exp : nat) (value : Z) : result Z :=
  match exp with
  | O => Ok value
  | S exp => check (value <=? u64_max / 10) "Invalid number: overflow" ;; pow10_safe_loop exp (u64 (value * 10))
  end.
Definition pow10_safe (exp : Z) : result Z := pow10_safe_loop (Z.to_nat exp) 1.

Definition parse_integer_part (integer_part : bytes) (precision_val : Z) : result Z :=
  integer_value ← parse_u64 integer_part;
  multiplier ← pow10_safe precision_val;
  check (integer_value <=? u64_max / multiplier) "Invalid number: overflow" ;;
  mret (u64 (integer_value * multiplier)).
Definition parse_fraction_part (fraction_part : bytes) (precision_val : Z) : result Z :=
  fraction_value ← parse_u64 fraction_part;
  let remaining_pow := u8 (precision_val - u8 (Z.of_nat (length fraction_part))) in
  multiplier ← pow10_safe remaining_pow;
  check (fraction_value <=? u64_max / multiplier) "Invalid number: overflow" ;;
  mret (u64 (fraction_value * multiplier)).

Definition fromStr (s : bytes) : result Decimal :=
  validate_decimal_string s ;;
  let '(integer_part, fraction_part, precision_val) := split_decimal_string s in
  prec ← Precision precision_val;
  quantity_val ← (match integer_part with [] => mret 0 | _ => parse_integer_part integer_part precision_val end);
  quantity_val ← (match fraction_part with
                  | [] => mret quantity_val
                  | _ => fraction ← parse_fraction_part fraction_part precision_val; mret (u64 (quantity_val + fraction))
                  end);
  mret {| quantity := quantity_val; precision := prec |}.

(** ** Quantities do not wrap *)

(** The operators give the sum and the difference, or abort when it is not a number of
    64 bits. *)
Theorem quantity_exact a b : 0 <= a < 2 ^ 64 -> 0 <= b < 2 ^ 64 ->
  quantity_add a b = (if a + b <? 2 ^ 64 then Ok (a + b) else Abort error_overflow) /\
  quantity_sub a b = (if b <=? a then Ok (a - b) else Abort error_underflow).
Proof.
  intros Ha Hb. unfold quantity_add, quantity_sub, check, u64_max. rewrite (wrap_small 64 (2 ^ 64 - 1 - b)) by lia. split.
  - destruct (Z.leb_spec a (2 ^ 64 - 1 - b)), (Z.ltb_spec (a + b) (2 ^ 64)); try lia; [|done]. cbn.
    by rewrite wrap_small by lia.
  - destruct (Z.leb_spec b a); [|done]. cbn. by rewrite wrap_small by lia.
Qed.

(** ** Text and back *)

Lemma pow10_value p : 0 <= p <= 8 -> pow10_unsafe (Z.to_nat p) = 10 ^ p /\ pow10_safe p = Ok (10 ^ p).
Proof.
  intros Hp. assert (Hc : p = 0 \/ p = 1 \/ p = 2 \/ p = 3 \/ p = 4 \/ p = 5 \/ p = 6 \/ p = 7 \/ p = 8) by lia.
  repeat (destruct Hc as [->|Hc]; [split; vm_compute; reflexivity|]). subst p. split; vm_compute; reflexivity.
Qed.
Lemma Precision_ok p : 0 <= p <= 8 -> Precision p = Ok p.
Proof. intros Hp. unfold Precision, precisionMin, precisionMax. destruct (Z.ltb_spec p 0), (Z.ltb_spec 8 p); try lia. done. Qed.

Lemma validate_digits ds b : Forall (fun c => is_digit c = true) ds ->
  validate_loop ds b = Ok (b || negb (bool_decide (ds = []))).
Proof.
  intros H. revert b. induction H as [|c ds Hc Hds IH]; intros b; cbn [validate_loop]; [by rewrite orb_false_r|].
  rewrite Hc, andb_false_r, IH.
  by rewrite orb_true_r, orb_true_l, orb_true_r.
Qed.
Lemma validate_app a b r : validate_loop (a ++ b) r = (r' ← validate_loop a r; validate_loop b r').
Proof. revert r. induction a as [|c a IH]; intros r; cbn [app validate_loop]; [done|]. destruct (_ && _); [done|]. apply IH.
Qed.
Lemma split_digits ds rest : Forall (fun c => is_digit c = true) ds ->
  split_at_point (ds ++ rest) = (match split_at_point rest with Some (a, b) => Some (ds ++ a, b) | None => None end).
Proof.
  intros H. induction H as [|c ds Hc Hds IH]; cbn [app split_at_point]; [by destruct (split_at_point rest) as [[a b]|]|].
  destruct (Z.eqb_spec c (chr ".")) as [->|]; [done|]. rewrite IH. by destruct (split_at_point rest) as [[a b]|].
Qed.

Lemma parse_digits ds : Forall (fun c => is_digit c = true) ds -> ds <> [] -> digits_value ds < 2 ^ 64 ->
  parse_u64 ds = Ok (digits_value ds).
Proof. intros Hd Hne Hv. unfold parse_u64. rewrite from_chars_digits by done. by destruct ds. Qed.

Lemma parse_integer_ok ds p : Forall (fun c => is_digit c = true) ds -> ds <> [] -> 0 <= p <= 8 -> 0 <= digits_value ds ->
  digits_value ds * 10 ^ p < 2 ^ 64 ->
  parse_integer_part ds p = Ok (digits_value ds * 10 ^ p).
Proof.
  intros Hd Hne Hp H0 Hv. destruct (pow10_value p Hp) as [_ Hs]. assert (HD : 0 < 10 ^ p) by (apply Z.pow_pos_nonneg; lia).
  unfold parse_integer_part. rewrite parse_digits by (done || nia). cbn [mbind result_bind]. rewrite Hs.
  cbn [mbind result_bind].
  unfold check, u64_max. rewrite (proj2 (Z.leb_le _ _)) by (apply Z.div_le_lower_bound; lia).
  cbn [mbind result_bind mret result_ret].
  by rewrite wrap_small by nia.
Qed.
Lemma parse_fraction_ok ds : Forall (fun c => is_digit c = true) ds -> ds <> [] -> (length ds <= 8)%nat ->
  0 <= digits_value ds < 2 ^ 64 ->
  parse_fraction_part ds (Z.of_nat (length ds)) = Ok (digits_value ds).
Proof.
  intros Hd Hne Hl Hv. unfold parse_fraction_part. rewrite parse_digits by (done || lia). cbn [mbind result_bind].
  rewrite (wrap_small 8 (Z.of_nat (length ds))), Z.sub_diag by (change (2 ^ 8) with 256; lia).
  change (pow10_safe (u8 0)) with (@Ok Z 1). cbn [mbind result_bind].
  unfold check, u64_max. rewrite Z.div_1_r, (proj2 (Z.leb_le _ _)) by lia. cbn [mbind result_bind mret result_ret].
  by rewrite Z.mul_1_r, wrap_small by lia.
Qed.

(** Digits without a point, and digits around a point. *)
Lemma fromStr_integer ds : Forall (fun c => is_digit c = true) ds -> ds <> [] -> 0 <= digits_value ds < 2 ^ 64 ->
  fromStr ds = Ok {| quantity := digits_value ds; precision := 0 |}.
Proof.
  intros Hd Hne Hv. unfold fromStr, validate_decimal_string. rewrite validate_digits, bool_decide_false by done.
  cbn [mbind result_bind negb orb check].
  unfold split_decimal_string. rewrite <- (app_nil_r ds) at 1. rewrite split_digits by done. cbn [split_at_point].
  rewrite Precision_ok by lia. cbn [mbind result_bind]. destruct ds as [|c ds]; [done|].
  rewrite parse_integer_ok by (done || (change (10 ^ 0) with 1; lia)). cbn [mbind result_bind mret result_ret].
  by rewrite Z.mul_1_r.
Qed.
Lemma fromStr_point ip fp : Forall (fun c => is_digit c = true) ip -> Forall (fun c => is_digit c = true) fp -> ip <> [] ->
  fp <> [] -> (length fp <= 8)%nat ->
  0 <= digits_value ip -> 0 <= digits_value fp -> digits_value ip * 10 ^ Z.of_nat (length fp) + digits_value fp < 2 ^ 64 ->
  fromStr (ip ++ [chr "."] ++ fp) =
    Ok {| quantity := digits_value ip * 10 ^ Z.of_nat (length fp) + digits_value fp; precision := Z.of_nat (length fp) |}.
Proof.
  intros Hip Hfp Nip Nfp Hl Vip Vfp Hv. assert (HD : 0 < 10 ^ Z.of_nat (length fp)) by (apply Z.pow_pos_nonneg; lia).
  unfold fromStr, validate_decimal_string. rewrite validate_app, validate_digits, bool_decide_false by done.
  cbn [mbind result_bind negb orb app validate_loop].
  change (negb (chr "." =? chr ".") && negb (is_digit (chr "."))) with false. cbn [orb]. rewrite validate_digits by done.
  cbn [mbind result_bind orb check].
  unfold split_decimal_string. rewrite split_digits by done. cbn [split_at_point].
  rewrite Z.eqb_refl, app_nil_r, (wrap_small 8) by (change (2 ^ 8) with 256; lia).
  rewrite Precision_ok by lia. cbn [mbind result_bind]. rewrite (parse_integer_ok ip) by (done || nia).
  rewrite (parse_fraction_ok fp) by (done || nia).
  destruct ip; [done|]. destruct fp; [done|]. cbn [mbind result_bind mret result_ret]. by rewrite wrap_small by nia.
Qed.

(** What a decimal prints as, [fromStr] reads back: for every quantity of 64 bits and
    every precision, nothing overflows and no digit is lost. *)
Theorem decimal_roundtrip q p : 0 <= q < 2 ^ 64 -> 0 <= p <= precisionMax ->
  fromStr (decimal_str {| quantity := q; precision := p |}) = Ok {| quantity := q; precision := p |}.
Proof.
  intros Hq Hp. unfold precisionMax in Hp. assert (H20 : 2 ^ 64 < 10 ^ Z.of_nat 20) by (vm_compute; reflexivity).
  unfold decimal_str. cbn [precision quantity]. destruct (Z.eqb_spec p 0) as [->|Hp0].
  { rewrite fromStr_integer; rewrite ?decimal_value by lia; [reflexivity|apply decimal_ok|apply (decimal_nonempty 19)|lia]. }
  destruct (pow10_value p Hp) as [-> _]. unfold format_fractional_part.
  assert (HD : 0 < 10 ^ p) by (apply Z.pow_pos_nonneg; lia).
  pose proof (Z.div_mod q (10 ^ p) ltac:(lia)) as Hdm. pose proof (Z.mod_pos_bound q (10 ^ p) HD) as Hmod.
  assert (Hdiv : 0 <= q / 10 ^ p <= q) by (split; [apply Z.div_pos; lia|apply Z.div_le_upper_bound; nia]).
  pose proof (length_last_digits (Z.to_nat p) (q mod 10 ^ p)) as Hl.
  rewrite fromStr_point; rewrite ?Hl, ?Z2Nat.id, ?decimal_value, ?last_digits_value by (rewrite ?Z2Nat.id; lia);
    [do 2 f_equal; lia|apply decimal_ok|apply last_digits_ok|apply (decimal_nonempty 19)| |lia..].
  intros E. rewrite E in Hl. cbn in Hl. lia.
Qed.
Lemma decimal_roundtrip_witness :
  decimal_str {| quantity := 2 ^ 64 - 1; precision := 8 |} = str "184467440737.09551615" /\
  fromStr (str "184467440737.09551615") = Ok {| quantity := 2 ^ 64 - 1; precision := 8 |}.
Proof. split; [vm_compute; reflexivity|]. apply (decimal_roundtrip (2 ^ 64 - 1) 8); unfold precisionMax; lia. Defined.

Lemma quantity_exact_witness : quantity_add (2 ^ 64 - 1) 1 = Abort error_overflow /\ quantity_sub 5 3 = Ok 2.
Proof. split; [apply (quantity_exact (2 ^ 64 - 1) 1); lia|apply (quantity_exact 5 3); lia]. Defined.

(** ** Texts that are not what they say *)

(** The sum of the two parts is not checked: the integer part fits, the fraction fits,
    and their sum wraps. *)
Example fraction_sum_wraps : fromStr (str "1844674407370955161.9") = Ok {| quantity := 3; precision := 1 |}.
Proof. vm_compute. reflexivity. Qed.

(** The length of the fraction is kept in eight bits: with 256 digits it is 0, and the
    number is read with the precision 0. *)
Example long_fraction_truncated :
  fromStr (str "0." ++ repeat (chr "0") 255 ++ str "1") = Ok {| quantity := 1; precision := 0 |}.
Proof. vm_compute. reflexivity. Qed.
