(* ===== verification/Times.v ===== *)
(** * Time points and their text

    [format_system_time] and [parse_system_time] of [libraries/psio/src/chrono.cpp], the
    JSON of a [std::chrono] time point in [psio/chrono.hpp], and the time points of a
    schema ([TimePointImpl] in [libraries/psio/src/schema.cpp]).

    [std::chrono::days] counts in a type that the standard library chooses: 64 bits in
    the one the native programs are built with, [int] in the one of WebAssembly.  The
    flag [rep64] says which, since the product [count() * 86400] is computed in it. *)

From S2P Require Import Prelude ToKey Fracpack FracpackRead FracpackSafe Text.

(** ** The calendar of [std::chrono] *)

Record year_month_day := { year : Z; month : Z; day : Z }.

(** [sys_days(year / month / day)]: the days since 1970-01-01 in the proleptic Gregorian
    calendar, counted in eras of 400 years that begin in March. *)
Definition day_of_era (yoe m d : Z) : Z :=
  let doy := (153 * (if 2 <? m then m - 3 else m + 9) + 2) / 5 + d - 1 in
  yoe * 365 + yoe / 4 - yoe / 100 + doy.
Definition sys_days (c : year_month_day) : Z :=
  let y := if month c <=? 2 then year c - 1 else year c in
  y / 400 * 146097 + day_of_era (y mod 400) (month c) (day c) - 719468.

(** [year_month_day{sys_days}]. *)
Definition year_of_era (doe : Z) : Z := (doe - doe / 1460 + doe / 36524 - doe / 146096) / 365.
Definition march_date (yoe doy : Z) : year_month_day :=
  let mp := (5 * doy + 2) / 153 in
  let m := if mp <? 10 then mp + 3 else mp - 9 in
  {| year := if m <=? 2 then yoe + 1 else yoe; month := m; day := doy - (153 * mp + 2) / 5 + 1 |}.
Definition era_date (doe : Z) : year_month_day :=
  let yoe := year_of_era doe in
  march_date yoe (doe - (365 * yoe + yoe / 4 - yoe / 100)).
Definition date_of_days (days : Z) : year_month_day :=
  let z := days + 719468 in
  let c := era_date (z mod 146097) in
  {| year := year c + z / 146097 * 400; month := month c; day := day c |}.

(** ** Formatting *)

Definition append_uint (value : Z) (digits : nat) : bytes := last_digits digits (u64 value).

Definition format_system_time (sec subsec : Z) (digits : nat) : bytes :=
  let sd := sec / 86400 in
  let ymd := date_of_days sd in
  let time := sec - sd * 86400 in
  append_uint (year ymd) 4 ++ chr "-" :: append_uint (month ymd) 2 ++ chr "-" :: append_uint (day ymd) 2 ++
  chr "T" :: append_uint (time / 3600 mod 60) 2 ++ chr ":" :: append_uint (time / 60 mod 60) 2 ++
  chr ":" :: append_uint (time mod 60) 2 ++
  (match digits with O => [] | _ => chr "." :: append_uint subsec digits end) ++ [chr "Z"].

(** ** Parsing *)

(** A text is rejected ([return false]), or parsed; or a signed product overflows, which
    C++ leaves undefined. *)
Inductive parsed (A : Type) :=
| Rejected
| Overflowed
| Parsed (x : A).
Arguments Rejected {A}.
Arguments Overflowed {A}.
Arguments Parsed {A} x.
#[export] Instance parsed_ret : MRet parsed := @Parsed.
#[export] Instance parsed_bind : MBind parsed := fun A B f r =>
  match r with Rejected => Rejected | Overflowed => Overflowed | Parsed x => f x end.
Definition reject_if (b : bool) : parsed unit := if b then Rejected else Parsed tt.

(** The lambdas: what they return, what they leave in their argument, and the text that
    is left. *)
Fixpoint parse_uint_loop (digits : nat) (s : bytes) (result : Z) : bool * Z * bytes :=
  match digits, s with
  | O, _ => (true, result, s)
  | S digits, c :: rest =>
      if is_digit c then parse_uint_loop digits rest (u32 (result * 10 + c - chr "0")) else (false, result, s)
  | S _, [] => (false, result, s)
  end.
Definition parse_uint (s : bytes) (digits : nat) : bool * Z * bytes :=
  if (length s <? digits)%nat then (false, 0, s)
  else match parse_uint_loop digits s 0 with
       | (true, result, rest) => (true, result, rest)
       | (false, result, _) => (false, result, s)
       end.
Definition parse_char (s : bytes) (ch : Z) : bool * bytes :=
  match s with c :: rest => if c =? ch then (true, rest) else (false, s) | [] => (false, s) end.
Definition parse_str (s m : bytes) : bool * bytes :=
  if bool_decide (take (length m) s = m) then (true, drop (length m) s) else (false, s).

Definition need_uint (s : bytes) (digits : nat) : parsed (Z * bytes) :=
  let '(ok, v, s) := parse_uint s digits in if ok then Parsed (v, s) else Rejected.
Definition need_char (s : bytes) (ch : Z) : parsed bytes :=
  let '(ok, s) := parse_char s ch in if ok then Parsed s else Rejected.

Definition days_in_month : list Z := [31; 29; 31; 30; 31; 30; 31; 31; 30; 31; 30; 31].
Definition days_in (m : Z) : Z := nth (Z.to_nat (m - 1)) days_in_month 0.
Definition bad_leap_day (y m d : Z) : bool :=
  (m =? 2) && (d =? 29) && (negb (y mod 4 =? 0) || (y mod 100 =? 0) && negb (y mod 400 =? 0)).

(** [count() * 86400 + h * 3600 + min * 60 + sec]: when [days] counts in [int], the
    product is an [int] and the sum an unsigned number of 32 bits. *)
Definition total_seconds (rep64 : bool) (days h min sec : Z) : parsed Z :=
  if rep64 then Parsed (days * 86400 + h * 3600 + min * 60 + sec)
  else if in_range (- 2 ^ 31) (2 ^ 31 - 1) (days * 86400) then Parsed (u32 (days * 86400 + h * 3600 + min * 60 + sec))
  else Overflowed.

Fixpoint parse_nsec (s : bytes) (nsec scale : Z) : Z * bytes :=
  match s with
  | c :: rest => if is_digit c then parse_nsec rest (u32 (nsec + scale * (c - chr "0"))) (scale / 10) else (nsec, s)
  | [] => (nsec, s)
  end.
Definition parse_subsec (s : bytes) : Z * bytes :=
  let '(dot, s) := parse_char s (chr ".") in
  let '(point, s) := if dot then (true, s) else parse_char s (chr ",") in
  if point then parse_nsec s 0 100000000 else (0, s).

Definition parse_offset (s : bytes) : parsed (Z * Z * bytes) :=
  '(h, s) ← need_uint s 2;
  let '(has_sep, s) := parse_char s (chr ":") in
  let '(has_min, min, s) := parse_uint s 2 in
  reject_if (has_sep && negb has_min) ;;
  reject_if ((14 <? h) || (59 <? min)) ;;
  Parsed (h, min, s).

(** The code of the minus sign U+2212 in UTF-8. *)
Definition minus_sign : bytes := [226; 136; 146].
Definition parse_zone (s : bytes) (result : Z) : parsed (Z * bytes) :=
  let '(z, s) := parse_char s (chr "Z") in
  if z then Parsed (result, s)
  else
    let '(plus, s) := parse_char s (chr "+") in
    if plus then
      '(h, min, s) ← parse_offset s;
      Parsed (result - (h * 60 + min) * 60, s)
    else
      let '(minus, s) := parse_char s (chr "-") in
      let '(minus, s) := if minus then (true, s) else parse_str s minus_sign in
      if minus then
        '(h, min, s) ← parse_offset s;
        reject_if ((h =? 0) && (min =? 0)) ;;
        Parsed (result + (h * 60 + min) * 60, s)
      else Rejected.

(** The date and the time, as numbers. *)
Record civil := { y : Z; m : Z; d : Z; h : Z; min : Z; sec : Z }.
Definition parse_civil (s : bytes) : parsed (civil * bytes) :=
  '(y, s) ← need_uint s 4;
  s ← need_char s (chr "-");
  '(m, s) ← need_uint s 2;
  s ← need_char s (chr "-");
  '(d, s) ← need_uint s 2;
  s ← need_char s (chr "T");
  '(h, s) ← need_uint s 2;
  s ← need_char s (chr ":");
  '(min, s) ← need_uint s 2;
  s ← need_char s (chr ":");
  '(sec, s) ← need_uint s 2;
  Parsed ({| y := y; m := m; d := d; h := h; min := min; sec := sec |}, s).

(** The checks of their ranges; a leap second is read as the second before. *)
Definition check_civil (c : civil) : parsed civil :=
  reject_if ((m c <? 1) || (12 <? m c)) ;;
  reject_if ((d c <? 1) || (days_in (m c) <? d c)) ;;
  reject_if (bad_leap_day (y c) (m c) (d c)) ;;
  reject_if ((24 <? h c) || (59 <? min c) || (60 <? sec c)) ;;
  Parsed {| y := y c; m := m c; d := d c; h := h c; min := min c; sec := if sec c =? 60 then 59 else sec c |}.

Definition parse_system_time (rep64 : bool) (s : bytes) : parsed (Z * Z) :=
  '(c, s) ← parse_civil s;
  c ← check_civil c;
  result ← total_seconds rep64 (sys_days {| year := y c; month := m c; day := d c |}) (h c) (min c) (sec c);
  let '(nsec, s) := parse_subsec s in
  reject_if ((h c =? 24) && (negb (min c =? 0) || negb (sec c =? 0) || negb (nsec =? 0))) ;;
  '(result, s) ← parse_zone s result;
  match s with [] => Parsed (result, nsec) | _ => Rejected end.

(** ** The JSON of a time point with the period [1 / den] *)

Fixpoint ratio_frac_loop (fuel : nat) (result : nat) (D : Z) : nat :=
  match fuel with
  | O => 6%nat
  | S fuel =>
      if D =? 1 then result
      else if D mod 10 =? 0 then ratio_frac_loop fuel (S result) (D / 10)
      else if D mod 5 =? 0 then ratio_frac_loop fuel (S result) (D / 5)
      else if D mod 2 =? 0 then ratio_frac_loop fuel (S result) (D / 2)
      else 6%nat
  end.
Definition ratio_frac_digits (D : Z) : nat := ratio_frac_loop 19 0 D.

Definition time_point_to_json (den t : Z) : bytes :=
  let sec := t / den in
  let subsec := t - sec * den in
  let digits := ratio_frac_digits den in
  format_system_time sec (Z.quot (subsec * 10 ^ Z.of_nat digits) den) digits.
Definition time_point_from_json (rep64 : bool) (den : Z) (s : bytes) : parsed Z :=
  '(sec, nsec) ← parse_system_time rep64 s;
  Parsed (sec * den + Z.quot (nsec * den) (10 ^ 9)).

(** ** The time points of a schema: an integer of [bits] bits *)

Definition int_bytes (bits : Z) : nat := Z.to_nat ((bits + 7) / 8).

(** The number of the bytes [raw], extended with its sign. *)
Definition raw_value (isSigned : bool) (bits raw : Z) : result Z :=
  if isSigned && Z.testbit raw (bits - 1) then
    if bits =? 64 then Ok (to_signed 64 raw)
    else Ok (to_signed 64 (Z.lor raw (u64 (Z.lnot (2 ^ bits - 1)))))
  else check (negb (Z.testbit raw 63)) "Time point out of range" ;; mret raw.

Definition split_seconds (digits : nat) (value : Z) : Z * Z :=
  let divisor := 10 ^ Z.of_nat digits in
  let subsec := Z.rem value divisor in
  let sec := Z.quot value divisor in
  if subsec <? 0 then (sec - 1, subsec + divisor) else (sec, subsec).

(** The text and what follows the number, or nothing ([return false]) when the input is
    too short. *)
Definition frac2json (isSigned : bool) (bits : Z) (digits : nat) (src : bytes) : result (option (bytes * bytes)) :=
  if (length src <? int_bytes bits)%nat then mret None
  else
    value ← raw_value isSigned bits (of_le (take (int_bytes bits) src));
    let '(sec, subsec) := split_seconds digits value in
    mret (Some (format_system_time sec subsec digits, drop (int_bytes bits) src)).

Fixpoint divide10 (n : nat) (v : Z) : Z := match n with O => v | S n => divide10 n (Z.quot v 10) end.
Definition subsec_of (digits : nat) (nsec : Z) : Z :=
  if (digits <? 9)%nat then divide10 (9 - digits) nsec else nsec * 10 ^ Z.of_nat (digits - 9).

Definition json2frac (rep64 isSigned : bool) (bits : Z) (digits : nat) (s : bytes) : parsed (result bytes) :=
  match parse_system_time rep64 s with
  | Rejected => Parsed (Abort "Invalid time point")
  | Overflowed => Overflowed
  | Parsed (sec, nsec) =>
      let value := sec * 10 ^ Z.of_nat digits + subsec_of digits nsec in
      if negb (in_range (- 2 ^ 63) (2 ^ 63 - 1) value) then Overflowed
      else Parsed (
        check (isSigned || (0 <=? value)) "Time point out of range" ;;
        (if bits <? 64 then
           let extra := Z.shiftr value bits in
           check ((extra =? 0) || (extra =? -1)) "Time point out of range"
         else mret tt) ;;
        check (bits <=? 64) "Integer types larger than 64 bits not supported" ;;
        mret (le_bytes (int_bytes bits) (u64 value)))
  end.

(** ** Texts *)

Definition sys_ns (s : bytes) : parsed Z := time_point_from_json true (10 ^ 9) s.

Example text_zones :
  map sys_ns [str "2024-11-18T12:34:56.789012345Z"; str "2024-11-18T12:34:56.7890123456789Z";
              str "2024-11-18T12:34:56.789012345+0000"; str "2024-11-18T12:34:56.789012345-01:23";
              str "2024-11-18T12:34:56.789012345+0123"; str "2024-11-18T24:00:00.000Z"; str "2016-12-31T23:59:60Z"] =
  [Parsed 1731933296789012345; Parsed 1731933296789012345; Parsed 1731933296789012345; Parsed 1731938276789012345;
   Parsed 1731928316789012345; Parsed 1731974400000000000; Parsed 1483228799000000000].
Proof. vm_compute. reflexivity. Qed.
Example text_rejected :
  Forall (fun s => parse_system_time true s = Rejected)
    [str "2024-13-18T12:34:56Z"; str "2024-00-18T12:34:56Z"; str "2023-04-31T12:34:56Z"; str "2024-12-32T12:34:56Z";
     str "2023-02-29T12:34:56Z"; str "1900-02-29T12:34:56Z"; str "2024-11-18T24:01:00Z"; str "2024-11-18T24:00:00.1Z";
     str "2024-11-18T00:00:00+010"; str "2024-11-18T00:00:00-010"; str "2024-11-18T00:00:00+01:"; str "2024-11-18T00:00:00-00"].
Proof. repeat constructor; vm_compute; reflexivity. Qed.
