(* ===== verification/TimesTheorems.v ===== *)
(** * Time points: the calendar, and text and back *)

From S2P Require Import Prelude ToKey Fracpack FracpackRead FracpackSafe Text Times.

(** ** The calendar *)

Fixpoint all_from (n : nat) (z : Z) (f : Z -> bool) : bool :=
  match n with O => true | S n => f z && all_from n (z + 1) f end.
Lemma all_from_spec n z f : all_from n z f = true -> forall x, z <= x < z + Z.of_nat n -> f x = true.
Proof.
  revert z. induction n as [|n IH]; intros z H x Hx; [lia|]. cbn [all_from] in H. apply andb_true_iff in H as [Hz H].
  destruct (Z.eq_dec x z) as [->|]; [done|]. apply (IH (z + 1)); [done|lia].
Qed.

Definition month_length (y m : Z) : Z := if bad_leap_day y m 29 then 28 else days_in m.
Definition valid_date (c : year_month_day) : bool :=
  in_range 1 12 (month c) && in_range 1 (month_length (year c) (month c)) (day c).

(** The day after, as a calendar has it. *)
Definition next_day (c : year_month_day) : year_month_day :=
  if day c <? month_length (year c) (month c) then {| year := year c; month := month c; day := day c + 1 |}
  else if month c <? 12 then {| year := year c; month := month c + 1; day := 1 |}
  else {| year := year c + 1; month := 1; day := 1 |}.

(** The first day of a year of the era, and the days it has. *)
Definition first_day (y : Z) : Z := 365 * y + y / 4 - y / 100 + y / 400.
Definition year_ok (y : Z) : bool :=
  let f doe := doe - doe / 1460 + doe / 36524 - doe / 146096 in
  (365 * y <=? f (first_day y)) && (f (first_day (y + 1) - 1) <? 365 * (y + 1)) &&
  (first_day (y + 1) - first_day y =? (if bad_leap_day (y + 1) 2 29 then 365 else 366)).
Lemma years_checked y : 0 <= y < 400 -> year_ok y = true.
Proof. intros H. apply (all_from_spec 400 0); [vm_compute; reflexivity|lia]. Qed.

(** The days of a year that begins in March. *)
Definition doy_ok (doy : Z) : bool :=
  let c := march_date 0 doy in
  in_range 1 12 (month c) && in_range 1 (days_in (month c)) (day c) && (day_of_era 0 (month c) (day c) =? doy) &&
  eqb ((month c =? 2) && (day c =? 29)) (doy =? 365) && eqb (month c <=? 2) (306 <=? doy) &&
  ((365 <=? doy) ||
   (let n := march_date 0 (doy + 1) in
    if day c <? days_in (month c) then (month n =? month c) && (day n =? day c + 1)
    else (month n =? (if month c <? 12 then month c + 1 else 1)) && (day n =? 1) && negb (month c =? 2))).
Lemma doys_checked doy : 0 <= doy < 366 -> doy_ok doy = true.
Proof. intros H. apply (all_from_spec 366 0); [vm_compute; reflexivity|lia]. Qed.

Lemma year_of_first y doe : 0 <= y < 400 -> first_day y <= doe < first_day (y + 1) -> year_of_era doe = y.
Proof.
  intros Hy Hd. pose proof (years_checked y Hy) as Hok. unfold year_ok in Hok. zbool. unfold year_of_era.
  assert (Hf : 0 <= first_day y /\ first_day (y + 1) <= 146097) by (unfold first_day; Z.to_euclidean_division_equations; lia).
  set (f x := x - x / 1460 + x / 36524 - x / 146096) in *.
  assert (Hm : forall n x, 0 <= x -> x + Z.of_nat n < 146097 -> f x <= f (x + Z.of_nat n)).
  { induction n as [|n IH]; intros x Hx Hn; [rewrite Z.add_0_r; lia|]. etransitivity; [apply IH; lia|].
    unfold f. rewrite Nat2Z.inj_succ. set (z := x + Z.of_nat n) in *. replace (x + Z.succ (Z.of_nat n)) with (z + 1) by lia.
    Z.to_euclidean_division_equations; lia. }
  pose proof (Hm (Z.to_nat (doe - first_day y)) (first_day y) ltac:(lia) ltac:(lia)) as Ha.
  pose proof (Hm (Z.to_nat (first_day (y + 1) - 1 - doe)) doe ltac:(lia) ltac:(lia)) as Hb.
  rewrite Z2Nat.id in Ha, Hb by lia. replace (first_day y + _) with doe in Ha by lia.
  replace (doe + _) with (first_day (y + 1) - 1) in Hb by lia.
  change (365 * y <= f (first_day y)) in H. change (f (first_day (y + 1) - 1) < 365 * (y + 1)) in H1.
  change (doe - doe / 1460 + doe / 36524 - doe / 146096) with (f doe). symmetry. apply Z.div_unique with (f doe - 365 * y); lia.
Qed.

Lemma era_split doe : 0 <= doe < 146097 -> exists y doy, 0 <= y < 400 /\ doe = first_day y + doy /\
  0 <= doy < first_day (y + 1) - first_day y.
Proof.
  intros Hd. assert (H : forall n, doe < first_day (Z.of_nat n) -> exists y, 0 <= y < Z.of_nat n /\ first_day y <= doe <
    first_day (y + 1)).
  { induction n as [|n IH]; intros Hn; [change (first_day (Z.of_nat 0)) with 0 in Hn; lia|].
    replace (Z.of_nat (S n)) with (Z.of_nat n + 1) in * by lia.
    destruct (Z_lt_le_dec doe (first_day (Z.of_nat n))) as [Hlt|]; [|exists (Z.of_nat n); lia].
    destruct (IH Hlt) as (y & Hy & Hb). exists y. lia. }
  destruct (H 400%nat) as (y & Hy & Hb); [change (first_day (Z.of_nat 400)) with 146097; lia|]. exists y, (doe - first_day y).
  lia.
Qed.

Lemma first_day_year y : 0 <= y < 400 -> 365 * y + y / 4 - y / 100 = first_day y.
Proof. intros Hy. unfold first_day. rewrite (Z.div_small y 400) by lia. lia. Qed.
Lemma era_date_split y doy : 0 <= y < 400 -> 0 <= doy < first_day (y + 1) - first_day y ->
  era_date (first_day y + doy) = march_date y doy.
Proof. intros Hy Hd. unfold era_date. rewrite (year_of_first y), first_day_year by lia. f_equal. lia. Qed.

Lemma leap_period y k m d : bad_leap_day (y + k * 400) m d = bad_leap_day y m d.
Proof.
  unfold bad_leap_day. replace (k * 400) with (k * 100 * 4) at 1 by lia. replace (k * 400) with (k * 4 * 100) at 1 by lia.
  by rewrite !Z_mod_plus_full.
Qed.
Lemma march_year y doy : year (march_date y doy) = if month (march_date 0 doy) <=? 2 then y + 1 else y.
Proof. done. Qed.
Lemma year_days y : 0 <= y < 400 -> first_day (y + 1) - first_day y = if bad_leap_day (y + 1) 2 29 then 365 else 366.
Proof. intros Hy. pose proof (years_checked y Hy) as H. unfold year_ok in H. by zbool. Qed.

(** What the check of the days says. *)
Lemma doy_facts doy : 0 <= doy < 366 -> let M := month (march_date 0 doy) in let D := day (march_date 0 doy) in
  1 <= M <= 12 /\ 1 <= D <= days_in M /\ day_of_era 0 M D = doy /\ (M = 2 /\ D = 29 <-> doy = 365) /\
    (M <=? 2) = (306 <=? doy) /\
  (doy < 365 -> let M' := month (march_date 0 (doy + 1)) in let D' := day (march_date 0 (doy + 1)) in
     if D <? days_in M then M' = M /\ D' = D + 1 else M' = (if M <? 12 then M + 1 else 1) /\ D' = 1 /\ M <> 2).
Proof.
  intros Hd M D. pose proof (doys_checked doy Hd) as Hok. unfold doy_ok in Hok. cbn zeta in Hok. fold M D in Hok.
  unfold in_range in Hok.
  rewrite !andb_true_iff in Hok. destruct Hok as (((((H1 & H2) & H3) & H4) & H5) & H6).
  apply eqb_prop in H4, H5. apply Z.eqb_eq in H3. rewrite !Z.leb_le in H1, H2. split; [done|]. split; [done|]. split; [done|].
  split; [|split; [done|]].
  - rewrite <- (Z.eqb_eq M 2), <- (Z.eqb_eq D 29), <- andb_true_iff, H4. apply Z.eqb_eq.
  - intros Hlt. cbn zeta. apply orb_true_iff in H6 as [?%Z.leb_le|H6]; [lia|].
    destruct (D <? days_in M); rewrite !andb_true_iff, ?negb_true_iff in H6;
      repeat match goal with H : _ /\ _ |- _ => destruct H end; zbool; auto.
Qed.

(** The parts of a date: the era, its year, and the day of that year. *)
Lemma date_parts z : exists e y doy, 0 <= y < 400 /\ 0 <= doy < (if bad_leap_day (y + 1) 2 29 then 365 else 366) /\
  z + 719468 = 146097 * e + first_day y + doy.
Proof.
  pose proof (Z.div_mod (z + 719468) 146097 ltac:(lia)) as Hz.
  destruct (era_split ((z + 719468) mod 146097)) as (y & doy & Hy & Hs & Hd); [by apply Z.mod_pos_bound|].
  exists ((z + 719468) / 146097), y, doy. rewrite year_days in Hd by done. repeat split; lia.
Qed.
Lemma date_of_parts z e y doy : 0 <= y < 400 -> 0 <= doy < (if bad_leap_day (y + 1) 2 29 then 365 else 366) ->
  z + 719468 = 146097 * e + first_day y + doy ->
  date_of_days z = {| year := (if 306 <=? doy then y + 1 else y) + e * 400; month := month (march_date 0 doy); day := day
    (march_date 0 doy) |}.
Proof.
  intros Hy Hd Hz. assert (Hb : 0 <= first_day y /\ first_day (y + 1) <= 146097) by (unfold first_day;
    Z.to_euclidean_division_equations; lia).
  pose proof (year_days y Hy) as Hl. assert (Hdoy : 0 <= doy < 366) by (destruct (bad_leap_day _ _ _); lia).
  assert (He : (z + 719468) / 146097 = e) by (symmetry; apply Z.div_unique with (first_day y + doy); lia).
  assert (Hm : (z + 719468) mod 146097 = first_day y + doy) by (symmetry; apply Z.mod_unique with e; lia).
  unfold date_of_days. rewrite He, Hm, era_date_split by lia. destruct (doy_facts doy Hdoy) as (_ & _ & _ & _ & <- & _).
  by rewrite march_year.
Qed.

(** The day that [sys_days] counts is the one [date_of_days] gives, and the date exists. *)
Lemma sys_days_of z : sys_days (date_of_days z) = z /\ valid_date (date_of_days z) = true.
Proof.
  destruct (date_parts z) as (e & y & doy & Hy & Hd & Hz). rewrite (date_of_parts z e y doy) by done.
  assert (Hdoy : 0 <= doy < 366) by (destruct (bad_leap_day _ _ _); lia).
  destruct (doy_facts doy Hdoy) as (HM & HD & Hdoe & Hleap & Hle & _).
  set (M := month (march_date 0 doy)) in *. set (D := day (march_date 0 doy)) in *. clearbody M D. split.
  - unfold sys_days. cbn [year month day]. rewrite Hle.
    replace (if 306 <=? doy then _ - 1 else _) with (y + e * 400) by (destruct (306 <=? doy); lia).
    rewrite Z.div_add, Z_mod_plus_full, Z.div_small, Z.mod_small by lia. unfold day_of_era in *.
    change (0 * 365 + 0 / 4 - 0 / 100) with 0 in Hdoe.
    pose proof (first_day_year y Hy). lia.
  - unfold valid_date, month_length. cbn [year month day]. rewrite leap_period. unfold in_range.
    destruct (bad_leap_day _ M 29) eqn:E; [|rewrite !(proj2 (Z.leb_le _ _)) by lia; done].
    assert (HM2 : M = 2) by (unfold bad_leap_day in E; zbool; done). subst M. change (2 <=? 2) with true in Hle.
    rewrite <- Hle in E.
    rewrite E in Hd. change (days_in 2) with 29 in HD. assert (D <> 29) by (intros ->; lia).
    rewrite !(proj2 (Z.leb_le _ _)) by lia. done.
Qed.

(** The last day of a year that begins in March, and the others. *)
Lemma next_last z e y doy : 0 <= y < 400 -> 0 <= doy -> z + 719468 = 146097 * e + first_day y + doy ->
  doy + 1 = first_day (y + 1) - first_day y -> date_of_days (z + 1) = next_day (date_of_days z).
Proof.
  intros Hy H0 Hz Hlast. pose proof (year_days y Hy) as Hl. rewrite (date_of_parts z e y doy) by (done || lia).
  assert (Hn : date_of_days (z + 1) = {| year := y + 1 + e * 400; month := 3; day := 1 |}).
  { destruct (Z.eq_dec y 399) as [->|].
    - rewrite (date_of_parts (z + 1) (e + 1) 0 0); [cbn; f_equal; lia|lia|vm_compute; split; congruence|].
      change (first_day (399 + 1)) with 146097 in Hlast. change (first_day 0) with 0. lia.
    - rewrite (date_of_parts (z + 1) e (y + 1) 0); [done|lia|destruct (bad_leap_day (y + 1 + 1) 2 29); lia|lia]. }
  rewrite Hn. unfold next_day, month_length. cbn [year month day]. rewrite leap_period.
  destruct (bad_leap_day (y + 1) 2 29) eqn:E.
  - assert (doy = 364) as -> by lia. change (month (march_date 0 364)) with 2. change (day (march_date 0 364)) with 28.
    change (306 <=? 364) with true.
    cbn iota. by rewrite E.
  - assert (doy = 365) as -> by lia. change (month (march_date 0 365)) with 2. change (day (march_date 0 365)) with 29.
    change (306 <=? 365) with true.
    cbn iota. by rewrite E.
Qed.
Lemma next_inner z e y doy : 0 <= y < 400 -> 0 <= doy -> z + 719468 = 146097 * e + first_day y + doy ->
  doy + 1 < first_day (y + 1) - first_day y -> date_of_days (z + 1) = next_day (date_of_days z).
Proof.
  intros Hy H0 Hz Hlt. pose proof (year_days y Hy) as Hl.
  rewrite (date_of_parts z e y doy), (date_of_parts (z + 1) e y (doy + 1)) by (done || lia).
  assert (Hdoy : doy < 365) by (destruct (bad_leap_day _ _ _); lia).
  destruct (doy_facts doy ltac:(lia)) as (HM & HD & _ & Hleap & Hle & Hnext).
  destruct (doy_facts (doy + 1) ltac:(lia)) as (_ & _ & _ & Hleap' & Hle' & _).
  specialize (Hnext Hdoy). cbn zeta in Hnext. unfold next_day, month_length. cbn [year month day]. rewrite leap_period.
  set (M := month (march_date 0 doy)) in *. set (D := day (march_date 0 doy)) in *.
  set (M' := month (march_date 0 (doy + 1))) in *. set (D' := day (march_date 0 (doy + 1))) in *. clearbody M D M' D'.
  rewrite <- Hle, <- Hle'.
  assert (Hsame : D < days_in M -> (if bad_leap_day (if M <=? 2 then y + 1 else y) M 29 then 28 else days_in M) = days_in M \/ D
    < 28 /\ days_in M = 29).
  { intros HlD. destruct (bad_leap_day (if M <=? 2 then y + 1 else y) M 29) eqn:E; [right|by left].
    assert (M = 2) as -> by (unfold bad_leap_day in E; zbool; done).
    change (2 <=? 2) with true in *. change (days_in 2) with 29 in *. rewrite E in Hl. split; [|done].
    apply Z.ltb_lt in HlD as Hb. rewrite Hb in Hnext. lia. }
  destruct (Z.ltb_spec D (days_in M)) as [HlD|HlD].
  - destruct Hnext as [-> ->]. destruct (Hsame HlD) as [->|[H28 H29]]; [by rewrite (proj2 (Z.ltb_lt _ _) HlD)|].
    destruct (bad_leap_day (if M <=? 2 then y + 1 else y) M 29); rewrite (proj2 (Z.ltb_lt _ _)) by lia; done.
  - destruct Hnext as (HM' & -> & HM2). assert (bad_leap_day (if M <=? 2 then y + 1 else y) M 29 = false) as ->.
    { unfold bad_leap_day. by rewrite (proj2 (Z.eqb_neq M 2) HM2). }
    rewrite (proj2 (Z.ltb_ge _ _)) by lia. rewrite HM'. destruct (Z.ltb_spec M 12); f_equal.
    + destruct (Z.leb_spec M 2), (Z.leb_spec (M + 1) 2); lia.
    + change (1 <=? 2) with true. destruct (Z.leb_spec M 2); lia.
Qed.

(** [date_of_days] counts the calendar: it begins at 1970-01-01, and the date of the day
    after is the date after. *)
Theorem calendar_counts z :
  date_of_days 0 = {| year := 1970; month := 1; day := 1 |} /\ date_of_days (z + 1) = next_day (date_of_days z).
Proof.
  split; [vm_compute; reflexivity|]. destruct (date_parts z) as (e & y & doy & Hy & Hd & Hz). pose proof (year_days y Hy) as Hl.
  destruct (Z.eq_dec (doy + 1) (first_day (y + 1) - first_day y)); [apply (next_last z e y doy)|apply (next_inner z e y doy)];
    lia.
Qed.

(** ** Numbers in the text *)

Lemma digits_value_cons c ds : digits_value (c :: ds) = (c - chr "0") * 10 ^ Z.of_nat (length ds) + digits_value ds.
Proof. change (c :: ds) with ([c] ++ ds). rewrite digits_value_app. unfold digits_value at 1. cbn [foldl]. lia. Qed.
Lemma is_digit_range c : is_digit c = true -> 0 <= c - chr "0" <= 9.
Proof. unfold is_digit, in_range. change (chr "0") with 48. change (chr "9") with 57. intros H. zbool. lia. Qed.
Lemma digits_value_nonneg ds : Forall (fun c => is_digit c = true) ds -> 0 <= digits_value ds < 10 ^ Z.of_nat (length ds).
Proof.
  induction 1 as [|c ds Hc Hds IH]; [vm_compute; split; congruence|]. rewrite digits_value_cons. apply is_digit_range in Hc.
  cbn [length]. rewrite Nat2Z.inj_succ, Z.pow_succ_r by lia. nia.
Qed.
Lemma parse_uint_loop_digits ds rest acc : Forall (fun c => is_digit c = true) ds -> 0 <= acc ->
  acc * 10 ^ Z.of_nat (length ds) + digits_value ds < 2 ^ 32 ->
  parse_uint_loop (length ds) (ds ++ rest) acc = (true, acc * 10 ^ Z.of_nat (length ds) + digits_value ds, rest).
Proof.
  intros Hds. revert acc. induction Hds as [|c ds Hc Hds IH]; intros acc H0 Hv; cbn [length app parse_uint_loop].
  - do 2 f_equal. change (digits_value []) with 0. rewrite Z.mul_1_r. lia.
  - rewrite Hc. pose proof (is_digit_range c Hc). pose proof (digits_value_nonneg ds Hds) as Hn.
    assert (Hp : 0 < 10 ^ Z.of_nat (length ds)) by lia.
    rewrite digits_value_cons in *. cbn [length] in *. rewrite Nat2Z.inj_succ, Z.pow_succ_r in * by lia.
    rewrite wrap_small by nia.
    rewrite IH by nia. do 2 f_equal. ring.
Qed.
Lemma parse_uint_digits n v rest : (n <= 9)%nat -> 0 <= v < 10 ^ Z.of_nat n ->
  parse_uint (last_digits n v ++ rest) n = (true, v, rest).
Proof.
  intros Hn Hv. assert (Hp : 10 ^ Z.of_nat n <= 10 ^ 9) by (apply Z.pow_le_mono_r; lia).
  unfold parse_uint. rewrite length_app, length_last_digits, (proj2 (Nat.ltb_ge _ _)) by lia.
  pose proof (parse_uint_loop_digits (last_digits n v) rest 0 (last_digits_ok n v)) as H.
  rewrite length_last_digits, last_digits_value, Z.mul_0_l, Z.add_0_l in H by done. rewrite H by lia. done.
Qed.
Lemma need_uint_append n v rest : (n <= 9)%nat -> 0 <= v < 10 ^ Z.of_nat n ->
  need_uint (append_uint v n ++ rest) n = Parsed (v, rest).
Proof.
  intros Hn Hv. assert (Hp : 10 ^ Z.of_nat n <= 10 ^ 9) by (apply Z.pow_le_mono_r; lia).
  unfold need_uint, append_uint. rewrite wrap_small, parse_uint_digits by lia. done.
Qed.
Lemma need_char_same c rest : need_char (c :: rest) c = Parsed rest.
Proof. unfold need_char, parse_char. by rewrite Z.eqb_refl. Qed.

(** The digits after the point, with those that are missing. *)
Lemma parse_nsec_digits ds rest nsec k : Forall (fun c => is_digit c = true) ds ->
  (match rest with c :: _ => is_digit c = false | [] => True end) ->
  (length ds <= k)%nat -> 0 <= nsec -> nsec + 10 ^ Z.of_nat k <= 10 ^ 9 ->
  parse_nsec (ds ++ rest) nsec (10 ^ Z.of_nat k / 10) = (nsec + digits_value ds * 10 ^ Z.of_nat (k - length ds), rest).
Proof.
  intros Hds Hr. revert nsec k. induction Hds as [|c ds Hc Hds IH]; intros nsec k Hk H0 Hn; cbn [length app parse_nsec].
  - destruct rest as [|c rest]; cbn; [f_equal; lia|]. rewrite Hr. f_equal. change (digits_value []) with 0. lia.
  - destruct k as [|k]; [cbn in Hk; lia|]. rewrite Hc. cbn [length] in Hk. apply is_digit_range in Hc.
    rewrite Nat2Z.inj_succ, Z.pow_succ_r in Hn |- * by lia. rewrite (Z.mul_comm 10), Z.div_mul by lia.
    assert (Hp : 0 < 10 ^ Z.of_nat k) by (apply Z.pow_pos_nonneg; lia). rewrite wrap_small by nia. rewrite IH; [|lia|nia|nia].
    rewrite digits_value_cons. f_equal. change (S k - S (length ds))%nat with (k - length ds)%nat.
    replace (10 ^ Z.of_nat k) with (10 ^ Z.of_nat (length ds) * 10 ^ Z.of_nat (k - length ds)) by (rewrite <- Z.pow_add_r by
      lia; f_equal; lia). ring.
Qed.

(** ** Text and back *)

(** The times of the years 0 to 9999. *)
Definition in_years (sec : Z) : Prop := -719528 * 86400 <= sec < 2932897 * 86400.

Lemma in_years_year z : -719528 <= z < 2932897 -> 0 <= year (date_of_days z) < 10000.
Proof.
  intros Hz. destruct (date_parts z) as (e & y & doy & Hy & Hd & Hs). rewrite (date_of_parts z e y doy) by done. cbn [year].
  pose proof (first_day_year y Hy) as Hf. assert (Hdoy : 0 <= doy < 366) by (destruct (bad_leap_day _ _ _); lia).
  destruct (Z.leb_spec 306 doy); Z.to_euclidean_division_equations; lia.
Qed.

Lemma valid_date_checks c : valid_date c = true ->
  1 <= month c <= 12 /\ 1 <= day c <= days_in (month c) /\ bad_leap_day (year c) (month c) (day c) = false.
Proof.
  unfold valid_date, month_length, in_range. intros H. rewrite !andb_true_iff, !Z.leb_le in H. destruct H as (HM & H1 & H2).
  split; [done|].
  destruct (bad_leap_day (year c) (month c) 29) eqn:E.
  - assert (Hm : month c = 2) by (unfold bad_leap_day in E; zbool; done). rewrite Hm in *. change (days_in 2) with 29.
    split; [lia|].
    unfold bad_leap_day. rewrite (proj2 (Z.eqb_neq (day c) 29)) by lia. done.
  - split; [lia|]. unfold bad_leap_day in *. destruct (Z.eqb_spec (day c) 29); [done|]. by rewrite andb_false_r.
Qed.
Lemma days_in_31 m : 1 <= m <= 12 -> days_in m <= 31.
Proof.
  intros Hm. unfold days_in, days_in_month. assert (Hn : (Z.to_nat (m - 1) < 12)%nat) by lia. revert Hn.
  generalize (Z.to_nat (m - 1)). intros n Hn.
  do 12 (destruct n as [|n]; [cbn; lia|]). lia.
Qed.

Lemma parse_subsec_format subsec digits rest : (digits <= 9)%nat -> 0 <= subsec < 10 ^ Z.of_nat digits ->
  (match rest with c :: _ => c = chr "Z" | [] => False end) ->
  parse_subsec ((match digits with O => [] | _ => chr "." :: append_uint subsec digits end) ++ rest) = (subsec * 10 ^ Z.of_nat
    (9 - digits), rest).
Proof.
  intros Hd Hs Hr. destruct rest as [|z rest]; [done|]. subst z. destruct digits as [|digits].
  { change (10 ^ Z.of_nat 0) with 1 in Hs. assert (subsec = 0) as -> by lia. done. }
  assert (Hp : 10 ^ Z.of_nat (S digits) <= 10 ^ 9) by (apply Z.pow_le_mono_r; lia).
  unfold parse_subsec, parse_char. cbn [app]. rewrite Z.eqb_refl. unfold append_uint. rewrite wrap_small by lia.
  change 100000000 with (10 ^ Z.of_nat 9 / 10).
  rewrite parse_nsec_digits, length_last_digits, last_digits_value by (done || apply last_digits_ok ||
    (rewrite ?length_last_digits; lia)). done.
Qed.

(** The date and the time of the text. *)
Lemma parse_fields rep64 y m d h min sec rest : 0 <= y < 10000 -> valid_date {| year := y; month := m; day := d |} = true ->
  0 <= h < 24 -> 0 <= min < 60 -> 0 <= sec < 60 ->
  parse_system_time rep64 (append_uint y 4 ++ chr "-" :: append_uint m 2 ++ chr "-" :: append_uint d 2 ++ chr "T" :: append_uint
    h 2 ++ chr ":" ::
    append_uint min 2 ++ chr ":" :: append_uint sec 2 ++ rest) =
  (result ← total_seconds rep64 (sys_days {| year := y; month := m; day := d |}) h min sec;
   let '(nsec, s) := parse_subsec rest in
   '(result, s) ← parse_zone s result;
   match s with [] => Parsed (result, nsec) | _ => Rejected end).
Proof.
  intros Hy Hv Hh Hmin Hsec. destruct (valid_date_checks _ Hv) as (HM & HD & HL). cbn [year month day] in *.
  pose proof (days_in_31 m HM).
  unfold parse_system_time, parse_civil. rewrite need_uint_append by (lia || change (10 ^ Z.of_nat 4) with 10000; lia).
  cbn [mbind parsed_bind].
  do 5 (rewrite need_char_same; cbn [mbind parsed_bind]; rewrite need_uint_append by (lia || change (10 ^ Z.of_nat 2) with 100;
    lia); cbn [mbind parsed_bind]).
  unfold check_civil, reject_if. cbn [Times.y Times.m Times.d Times.h Times.min Times.sec]. rewrite HL.
  rewrite (proj2 (Z.ltb_ge m 1)), (proj2 (Z.ltb_ge 12 m)), (proj2 (Z.ltb_ge d 1)), (proj2 (Z.ltb_ge (days_in m) d)) by lia.
  rewrite (proj2 (Z.ltb_ge 24 h)), (proj2 (Z.ltb_ge 59 min)), (proj2 (Z.ltb_ge 60 sec)), (proj2 (Z.eqb_neq sec 60)) by lia.
  cbn [orb andb mbind parsed_bind Times.y Times.m Times.d Times.h Times.min Times.sec]. rewrite (proj2 (Z.eqb_neq h 24)) by lia.
  destruct (total_seconds _ _ _ _ _); [done..|]. by destruct (parse_subsec rest).
Qed.

Lemma parse_format rep64 sec subsec digits : in_years sec -> (rep64 = false -> 0 <= sec < 2 ^ 31) ->
  (digits <= 9)%nat -> 0 <= subsec < 10 ^ Z.of_nat digits ->
  parse_system_time rep64 (format_system_time sec subsec digits) = Parsed (sec, subsec * 10 ^ Z.of_nat (9 - digits)).
Proof.
  intros Hy Hrep Hd Hs. unfold in_years in Hy. unfold format_system_time. set (sd := sec / 86400).
  pose proof (Z.div_mod sec 86400 ltac:(lia)) as Hdm. pose proof (Z.mod_pos_bound sec 86400 ltac:(lia)) as Hmod. fold sd in Hdm.
  destruct (sys_days_of sd) as [Hsd Hv]. pose proof (in_years_year sd ltac:(lia)) as Hyear. cbn zeta.
  set (t := sec - sd * 86400). assert (Ht : 0 <= t < 86400) by lia.
  destruct (date_of_days sd) as [y m d] eqn:E. cbn [year month day] in *.
  assert (Hh : t / 3600 mod 60 = t / 3600) by (apply Z.mod_small; Z.to_euclidean_division_equations; lia). rewrite Hh.
  rewrite parse_fields; [|done|done|Z.to_euclidean_division_equations; lia|apply Z.mod_pos_bound; lia|apply Z.mod_pos_bound;
    lia].
  rewrite Hsd. assert (Htot : sd * 86400 + t / 3600 * 3600 + t / 60 mod 60 * 60 + t mod 60 = sec) by (subst t;
    Z.to_euclidean_division_equations; lia).
  assert (total_seconds rep64 sd (t / 3600) (t / 60 mod 60) (t mod 60) = Parsed sec) as ->.
  { unfold total_seconds. destruct rep64; [by rewrite Htot|]. specialize (Hrep eq_refl). unfold in_range.
    rewrite (proj2 (Z.leb_le (- 2 ^ 31) _)), (proj2 (Z.leb_le (sd * 86400) _)) by lia. cbn [andb].
    rewrite Htot, wrap_small by lia. done. }
  cbn [mbind parsed_bind]. by rewrite parse_subsec_format by done.
Qed.

(** C34: What a time prints as, [parse_system_time] reads back: for every second of the years
    0 to 9999 and every fraction of at most nine digits; in the years 1970 to 2038 when
    [std::chrono::days] counts in [int]. *)
Theorem time_roundtrip rep64 sec subsec digits : in_years sec -> (rep64 = false -> 0 <= sec < 2 ^ 31) ->
  (digits <= 9)%nat -> 0 <= subsec < 10 ^ Z.of_nat digits ->
  parse_system_time rep64 (format_system_time sec subsec digits) = Parsed (sec, subsec * 10 ^ Z.of_nat (9 - digits)).
Proof. apply parse_format. Qed.
Lemma time_roundtrip_witness :
  format_system_time 1731933296 789012 6 = str "2024-11-18T12:34:56.789012Z" /\
  parse_system_time false (format_system_time 1731933296 789012 6) = Parsed (1731933296, 789012000).
Proof. split; [vm_compute; reflexivity|]. apply (time_roundtrip false 1731933296 789012 6); unfold in_years; cbn; lia. Defined.

(** ** The width of [std::chrono::days] *)

(** With days that count in [int], a time before 1970 is read as one 136 years later, and
    the product overflows after 2038; with 64 bits both are read. *)
Example narrow_days :
  parse_system_time true (str "1969-12-31T23:59:59Z") = Parsed (-1, 0) /\
  parse_system_time false (str "1969-12-31T23:59:59Z") = Parsed (4294967295, 0) /\
  parse_system_time true (str "2038-01-20T00:00:00Z") = Parsed (2147558400, 0) /\
  parse_system_time false (str "2038-01-20T00:00:00Z") = Overflowed.
Proof. repeat split; vm_compute; reflexivity. Qed.

(** ** Time points *)

Lemma ratio_frac_pow10 k : (k <= 9)%nat -> ratio_frac_digits (10 ^ Z.of_nat k) = k.
Proof. intros Hk. do 10 (destruct k as [|k]; [vm_compute; reflexivity|]). lia. Qed.

(** The JSON of a time point with a period of a power of ten, down to nanoseconds, reads
    back as it was. *)
Theorem time_point_roundtrip t k : (k <= 9)%nat -> in_years (t / 10 ^ Z.of_nat k) ->
  time_point_from_json true (10 ^ Z.of_nat k) (time_point_to_json (10 ^ Z.of_nat k) t) = Parsed t.
Proof.
  intros Hk Hy. set (D := 10 ^ Z.of_nat k) in *. assert (HD : 0 < D) by (apply Z.pow_pos_nonneg; lia).
  unfold time_point_to_json, D. rewrite ratio_frac_pow10 by done. fold D. rewrite Z.quot_mul by lia.
  pose proof (Z.div_mod t D ltac:(lia)) as Hdm. pose proof (Z.mod_pos_bound t D HD) as Hmod.
  unfold time_point_from_json. rewrite parse_format by (done || fold D; lia). cbn [mbind parsed_bind]. unfold D.
  rewrite <- Z.mul_assoc, <- Z.pow_add_r by lia. replace (Z.of_nat (9 - k) + Z.of_nat k) with 9 by lia.
  rewrite Z.quot_mul by lia. f_equal. lia.
Qed.
Lemma time_point_roundtrip_witness :
  time_point_to_json (10 ^ 6) (-1) = str "1969-12-31T23:59:59.999999Z" /\
  time_point_from_json true (10 ^ 6) (time_point_to_json (10 ^ 6) (-1)) = Parsed (-1).
Proof. split; [vm_compute; reflexivity|]. apply (time_point_roundtrip (-1) 6); [lia|vm_compute; split; congruence]. Defined.

(** ** Offsets *)

(** A text that ends in [Z] keeps its [Z] until the zone is read, and what comes before
    is read the same when a sign follows in its place. *)
Definition starts_sign (t : bytes) : Prop := match t with c :: _ => c = chr "+" \/ c = chr "-" | [] => False end.
Definition local_parser {A} (p : bytes -> parsed (A * bytes)) : Prop :=
  forall s v s', p (s ++ [chr "Z"]) = Parsed (v, s') ->
    exists s0, s' = s0 ++ [chr "Z"] /\ forall t, starts_sign t -> p (s ++ t) = Parsed (v, s0 ++ t).

Lemma parse_uint_loop_local n s acc ok v s' : parse_uint_loop n (s ++ [chr "Z"]) acc = (ok, v, s') ->
  exists s0, s' = s0 ++ [chr "Z"] /\ (ok = true -> (n <= length s)%nat /\ forall t, parse_uint_loop n (s ++ t) acc = (true, v,
    s0 ++ t)).
Proof.
  revert s acc. induction n as [|n IH]; intros s acc H.
  - injection H as <- <- <-. exists s. split; [done|]. intros _. split; [lia|done].
  - destruct s as [|c s]; cbn [app parse_uint_loop] in H; [injection H as <- <- <-; by exists []|].
    destruct (is_digit c) eqn:Hc.
    + destruct (IH _ _ H) as (s0 & -> & Hok). exists s0. split; [done|]. intros ->. destruct (Hok eq_refl) as [Hl Ht].
      split; [cbn; lia|].
      intros t. cbn [app parse_uint_loop]. rewrite Hc. apply Ht.
    + injection H as <- <- <-. by exists (c :: s).
Qed.
Lemma parse_uint_local n s ok v s' : parse_uint (s ++ [chr "Z"]) n = (ok, v, s') ->
  exists s0, s' = s0 ++ [chr "Z"] /\ (ok = true -> forall t, parse_uint (s ++ t) n = (true, v, s0 ++ t)).
Proof.
  unfold parse_uint. destruct (_ <? _)%nat; [intros [= <- <- <-]; by exists s|].
  destruct (parse_uint_loop _ _ _) as [[b w] r] eqn:E.
  destruct (parse_uint_loop_local _ _ _ _ _ _ E) as (s0 & -> & Hok). destruct b; intros [= <- <- <-]; [|by exists s].
  destruct (Hok eq_refl) as [Hl Ht]. exists s0. split; [done|]. intros _ t. rewrite length_app, (proj2 (Nat.ltb_ge _ _)) by lia.
  by rewrite Ht.
Qed.
Lemma need_uint_local n : local_parser (fun s => need_uint s n).
Proof.
  intros s v s'. unfold need_uint. destruct (parse_uint _ _) as [[ok w] r] eqn:E.
  destruct (parse_uint_local _ _ _ _ _ E) as (s0 & -> & Ht).
  destruct ok; [|done]. intros [= <- <-]. exists s0. split; [done|]. intros t _. by rewrite Ht.
Qed.
Lemma need_char_local c : c <> chr "Z" -> forall s s', need_char (s ++ [chr "Z"]) c = Parsed s' ->
  exists s0, s' = s0 ++ [chr "Z"] /\ forall t, need_char (s ++ t) c = Parsed (s0 ++ t).
Proof.
  intros Hc s s'. unfold need_char, parse_char. destruct s as [|x s]; cbn [app].
  - destruct (Z.eqb_spec (chr "Z") c); [congruence|done].
  - destruct (x =? c); [|done]. intros [= <-]. by exists s.
Qed.
Lemma parse_nsec_local s nsec scale : exists s0, snd (parse_nsec (s ++ [chr "Z"]) nsec scale) = s0 ++ [chr "Z"] /\
  forall t, starts_sign t -> parse_nsec (s ++ t) nsec scale = (fst (parse_nsec (s ++ [chr "Z"]) nsec scale), s0 ++ t).
Proof.
  revert nsec scale. induction s as [|c s IH]; intros nsec scale.
  - exists []. split; [done|]. intros [|c t] Ht; [done|]. by destruct Ht as [->| ->].
  - cbn [app parse_nsec]. destruct (is_digit c); [apply IH|]. by exists (c :: s).
Qed.
Lemma parse_subsec_local s : exists s0, snd (parse_subsec (s ++ [chr "Z"])) = s0 ++ [chr "Z"] /\
  forall t, starts_sign t -> parse_subsec (s ++ t) = (fst (parse_subsec (s ++ [chr "Z"])), s0 ++ t).
Proof.
  destruct s as [|c s].
  - exists []. split; [done|]. intros [|c t] Ht; [done|]. by destruct Ht as [->| ->].
  - unfold parse_subsec, parse_char. cbn [app]. destruct (c =? chr "."); [apply parse_nsec_local|].
    destruct (c =? chr ","); [apply parse_nsec_local|].
    by exists (c :: s).
Qed.
Lemma parse_char_keeps s c b r : c <> chr "Z" -> parse_char (s ++ [chr "Z"]) c = (b, r) -> exists s0, r = s0 ++ [chr "Z"].
Proof.
  intros Hc. unfold parse_char. destruct s as [|x s]; cbn [app].
  - destruct (Z.eqb_spec (chr "Z") c); [congruence|]. intros [= <- <-]. by exists [].
  - destruct (x =? c); intros [= <- <-]; [by exists s|by exists (x :: s)].
Qed.

Lemma parse_offset_keeps s h m r : parse_offset (s ++ [chr "Z"]) = Parsed (h, m, r) -> exists s0, r = s0 ++ [chr "Z"].
Proof.
  unfold parse_offset. destruct (need_uint _ _) as [| |[v s1]] eqn:E1; cbn [mbind parsed_bind]; [done..|].
  destruct (need_uint_local _ _ _ _ E1) as (s0 & -> & _). destruct (parse_char _ _) as [has_sep s2] eqn:E2.
  apply parse_char_keeps in E2 as (s3 & ->); [|done]. destruct (parse_uint _ _) as [[has_min w] s4] eqn:E3.
  destruct (parse_uint_local _ _ _ _ _ E3) as (s5 & -> & _). unfold reject_if. destruct (_ && _); [done|].
  cbn [mbind parsed_bind].
  destruct (_ || _); [done|]. intros [= <- <- <-]. by exists s5.
Qed.
Lemma minus_sign_keeps s r : parse_str (s ++ [chr "Z"]) minus_sign = (true, r) -> exists s0, r = s0 ++ [chr "Z"].
Proof.
  unfold parse_str, minus_sign. cbn [length]. case_bool_decide as E; [|done]. intros [= <-].
  do 3 (destruct s as [|? s]; [discriminate E|]). by exists s.
Qed.
Lemma parse_zone_last s r r' : parse_zone (s ++ [chr "Z"]) r = Parsed (r', []) -> s = [] /\ r' = r.
Proof.
  destruct s as [|c s]; [cbn; by intros [= <-]|]. intros H. exfalso. unfold parse_zone in H.
  destruct (parse_char _ (chr "Z")) as [z s1] eqn:Ez.
  unfold parse_char in Ez. cbn [app] in Ez. destruct (c =? chr "Z"); injection Ez as <- <-; [by destruct s|].
  change (c :: s ++ [chr "Z"]) with ((c :: s) ++ [chr "Z"]) in H. destruct (parse_char _ (chr "+")) as [plus s1] eqn:Ep.
  apply parse_char_keeps in Ep as (s2 & ->); [|done]. destruct plus.
  { destruct (parse_offset _) as [| |[[h m] s3]] eqn:Eo; [done..|]. apply parse_offset_keeps in Eo as (s4 & ->). cbn in H.
    injection H as _ H. by destruct s4. }
  destruct (parse_char _ (chr "-")) as [minus s1] eqn:Em. apply parse_char_keeps in Em as (s3 & ->); [|done].
  assert (Hs : exists b s4, (if minus then (true, s3 ++ [chr "Z"]) else parse_str (s3 ++ [chr "Z"]) minus_sign) = (b, s4) /\ (b
    = true -> exists s5, s4 = s5 ++ [chr "Z"])).
  { destruct minus; [eauto|]. destruct (parse_str _ _) as [b s4] eqn:E. exists b, s4. split; [done|]. intros ->.
    by apply minus_sign_keeps in E. }
  destruct Hs as (b & s4 & Hs & Hk). rewrite Hs in H. destruct b; [|done]. destruct (Hk eq_refl) as (s5 & ->).
  destruct (parse_offset _) as [| |[[h m] s6]] eqn:Eo; [done..|]. apply parse_offset_keeps in Eo as (s7 & ->).
  cbn [mbind parsed_bind] in H.
  unfold reject_if in H. destruct (_ && _); [done|]. cbn in H. injection H as _ H. by destruct s7.
Qed.

Lemma bind_local {A B} (p : bytes -> parsed (A * bytes)) (f : A -> bytes -> parsed (B * bytes)) :
  local_parser p -> (forall a, local_parser (f a)) -> local_parser (fun s => '(a, s) ← p s; f a s).
Proof.
  intros Hp Hf s v s' H. destruct (p _) as [| |[a s1]] eqn:E; [done..|]. destruct (Hp _ _ _ E) as (s0 & -> & Ht).
  cbn [mbind parsed_bind] in H.
  destruct (Hf _ _ _ _ H) as (s2 & -> & Ht2). exists s2. split; [done|]. intros t Hs. rewrite Ht by done. by apply Ht2.
Qed.
Lemma char_local {B} c (f : bytes -> parsed (B * bytes)) : c <> chr "Z" -> local_parser f ->
  local_parser (fun s => s ← need_char s c; f s).
Proof.
  intros Hc Hf s v s' H. destruct (need_char _ _) as [| |s1] eqn:E; [done..|].
  destruct (need_char_local c Hc _ _ E) as (s0 & -> & Ht).
  cbn [mbind parsed_bind] in H. destruct (Hf _ _ _ H) as (s2 & -> & Ht2). exists s2. split; [done|]. intros t Hs.
  rewrite Ht by done. by apply Ht2.
Qed.
Lemma ret_local {A} (a : A) : local_parser (fun s => Parsed (a, s)).
Proof. intros s v s' [= <- <-]. by exists s. Qed.
Lemma parse_civil_local : local_parser parse_civil.
Proof.
  unfold parse_civil. repeat first [apply ret_local | apply (char_local _ _); [done|] | apply bind_local;
    [apply need_uint_local|intros ?]].
Qed.

Lemma parse_offset_text h min : 0 <= h <= 14 -> 0 <= min < 60 ->
  parse_offset (append_uint h 2 ++ chr ":" :: append_uint min 2) = Parsed (h, min, []).
Proof.
  intros Hh Hm. unfold parse_offset. rewrite need_uint_append by (lia || change (10 ^ Z.of_nat 2) with 100; lia).
  cbn [mbind parsed_bind].
  unfold parse_char. rewrite Z.eqb_refl. rewrite <- (app_nil_r (append_uint min 2)). unfold append_uint.
  rewrite wrap_small by lia.
  rewrite parse_uint_digits by (lia || change (10 ^ Z.of_nat 2) with 100; lia). unfold reject_if.
  cbn [andb negb mbind parsed_bind].
  rewrite (proj2 (Z.ltb_ge 14 h)), (proj2 (Z.ltb_ge 59 min)) by lia. done.
Qed.
Lemma parse_zone_plus s r : parse_zone (chr "+" :: s) r = ('(h, min, s) ← parse_offset s; Parsed (r - (h * 60 + min) * 60, s)).
Proof. reflexivity. Qed.
Lemma parse_zone_minus s r : parse_zone (chr "-" :: s) r =
  ('(h, min, s) ← parse_offset s; reject_if ((h =? 0) && (min =? 0)) ;; Parsed (r + (h * 60 + min) * 60, s)).
Proof. reflexivity. Qed.
Definition offset_text (sign h min : Z) : bytes := sign :: append_uint h 2 ++ chr ":" :: append_uint min 2.

(** A text with [Z] and the same text with an offset: the offset is taken from the time
    when it is positive and added when it is negative, and nothing else changes. *)
Theorem offset_shift rep64 s result nsec h min : parse_system_time rep64 (s ++ [chr "Z"]) = Parsed (result, nsec) ->
  0 <= h <= 14 -> 0 <= min < 60 ->
  parse_system_time rep64 (s ++ offset_text (chr "+") h min) = Parsed (result - (h * 60 + min) * 60, nsec) /\
  parse_system_time rep64 (s ++ offset_text (chr "-") h min) =
    (if (h =? 0) && (min =? 0) then Rejected else Parsed (result + (h * 60 + min) * 60, nsec)).
Proof.
  intros H Hh Hm. unfold parse_system_time in *. destruct (parse_civil _) as [| |[c s1]] eqn:E1; [done..|].
  destruct (parse_civil_local _ _ _ E1) as (s2 & -> & Ht). rewrite !Ht by (by (left + right)). cbn [mbind parsed_bind] in *.
  destruct (check_civil c) as [| |c']; [done..|]. cbn [mbind parsed_bind] in *.
  destruct (total_seconds _ _ _ _ _) as [| |r]; [done..|]. cbn [mbind parsed_bind] in *.
  destruct (parse_subsec_local s2) as (s3 & Hs3 & Ht3). 
  rewrite (Ht3 (offset_text (chr "+") h min)), (Ht3 (offset_text (chr "-") h min)) by (by (left + right)).
  destruct (parse_subsec (s2 ++ _)) as [n s4]. cbn [fst snd] in *. subst s4.
  destruct (reject_if _) as [| |[]]; [done..|]. cbn [mbind parsed_bind] in *.
  destruct (parse_zone (s3 ++ [chr "Z"]) r) as [| |[r' s5]] eqn:Ez; [done..|].
  cbn [mbind parsed_bind] in H. destruct s5; [|done]. injection H as <- <-. apply parse_zone_last in Ez as [-> ->]. cbn [app].
  pose proof (parse_offset_text h min Hh Hm) as Ho. split.
  - unfold offset_text. by rewrite parse_zone_plus, Ho.
  - unfold offset_text. rewrite parse_zone_minus, Ho. cbn [mbind parsed_bind]. unfold reject_if. by destruct (_ && _).
Qed.
Lemma offset_shift_witness : parse_system_time true (str "2024-11-18T12:34:56.5+01:30") = Parsed (1731933296 - 5400, 500000000).
Proof. apply (offset_shift true (str "2024-11-18T12:34:56.5") 1731933296 500000000 1 30); [vm_compute; reflexivity|lia|lia].
Defined.

(** ** What a text can give *)

Lemma parse_uint_loop_bound n s acc k : 0 <= acc < 10 ^ Z.of_nat k -> (k + n <= 9)%nat ->
  0 <= snd (fst (parse_uint_loop n s acc)) < 10 ^ Z.of_nat (k + n).
Proof.
  revert s acc k. induction n as [|n IH]; intros s acc k Ha Hk; cbn [parse_uint_loop]; [by rewrite Nat.add_0_r|].
  assert (Hle : 10 ^ Z.of_nat k <= 10 ^ Z.of_nat (k + S n)) by (apply Z.pow_le_mono_r; lia).
  destruct s as [|c s]; [cbn; lia|]. destruct (is_digit c) eqn:Hc; [|cbn; lia]. apply is_digit_range in Hc.
  replace (k + S n)%nat with (S k + n)%nat by lia. apply IH; [|lia].
  assert (Hp : 10 ^ Z.of_nat (S k) <= 10 ^ 9) by (apply Z.pow_le_mono_r; lia).
  rewrite Nat2Z.inj_succ, Z.pow_succ_r in * by lia. rewrite wrap_small by lia. lia.
Qed.
Lemma parse_uint_bound s n : (n <= 9)%nat -> 0 <= snd (fst (parse_uint s n)) < 10 ^ Z.of_nat n.
Proof.
  intros Hn. unfold parse_uint. destruct (_ <? _)%nat; [cbn; split; [lia|apply Z.pow_pos_nonneg; lia]|].
  pose proof (parse_uint_loop_bound n s 0 0 ltac:(cbn; lia) ltac:(lia)) as H. by destruct (parse_uint_loop n s 0) as [[[] v] r].
Qed.
Lemma need_uint_bound s n v r : (n <= 9)%nat -> need_uint s n = Parsed (v, r) -> 0 <= v < 10 ^ Z.of_nat n.
Proof.
  intros Hn. unfold need_uint. pose proof (parse_uint_bound s n Hn) as H. destruct (parse_uint s n) as [[[] w] t]; [|done].
  by intros [= <- <-].
Qed.

Lemma parse_nsec_bound s nsec k : 0 <= nsec -> nsec + 10 ^ Z.of_nat k <= 10 ^ 9 ->
  0 <= fst (parse_nsec s nsec (10 ^ Z.of_nat k / 10)) < 10 ^ 9.
Proof.
  revert nsec k. induction s as [|c s IH]; intros nsec k H0 Hn; cbn [parse_nsec];
    assert (Hp : 0 < 10 ^ Z.of_nat k) by (apply Z.pow_pos_nonneg; lia); [cbn; lia|].
  destruct (is_digit c) eqn:Hc; [|cbn; lia]. apply is_digit_range in Hc. destruct k as [|k].
  - change (10 ^ Z.of_nat 0 / 10) with (10 ^ Z.of_nat 0 / 10 / 10). rewrite Z.mul_0_l, Z.add_0_r, wrap_small by lia.
    apply (IH nsec 0%nat); lia.
  - rewrite Nat2Z.inj_succ, Z.pow_succ_r in * by lia. rewrite (Z.mul_comm 10), Z.div_mul by lia.
    assert (0 < 10 ^ Z.of_nat k) by (apply Z.pow_pos_nonneg; lia).
    rewrite wrap_small by nia. apply IH; nia.
Qed.
Lemma parse_subsec_bound s : 0 <= fst (parse_subsec s) < 10 ^ 9.
Proof.
  assert (H : forall s, 0 <= fst (parse_nsec s 0 100000000) < 10 ^ 9) by (intros s'; apply (parse_nsec_bound s' 0 9); cbn; lia).
  unfold parse_subsec. destruct (parse_char s (chr ".")) as [[] s1]; [apply H|].
  destruct (parse_char s1 _) as [[] s2]; [apply H|cbn; lia].
Qed.

Lemma parse_offset_bound s h min r : parse_offset s = Parsed (h, min, r) -> 0 <= h <= 14 /\ 0 <= min <= 59.
Proof.
  unfold parse_offset. destruct (need_uint s 2) as [| |[v s1]] eqn:E1; [done..|]. apply need_uint_bound in E1; [|lia].
  cbn [mbind parsed_bind].
  destruct (parse_char s1 _) as [has_sep s2]. pose proof (parse_uint_bound s2 2 ltac:(lia)) as Hm.
  destruct (parse_uint s2 2) as [[has_min w] s3].
  cbn [fst snd] in Hm. unfold reject_if. destruct (_ && _); [done|]. cbn [mbind parsed_bind].
  destruct (_ || _) eqn:E; [done|]. intros [= <- <- <-]. apply orb_false_iff in E as [?%Z.ltb_ge ?%Z.ltb_ge]. lia.
Qed.
Lemma parse_zone_bound s r r' s' : parse_zone s r = Parsed (r', s') -> -53940 <= r' - r <= 53940.
Proof.
  unfold parse_zone. destruct (parse_char s (chr "Z")) as [[] s1]; [intros [= <- <-]; lia|].
  destruct (parse_char s1 (chr "+")) as [[] s2].
  { destruct (parse_offset s2) as [| |[[h min] s3]] eqn:E; [done..|]. apply parse_offset_bound in E. intros [= <- <-]. lia. }
  destruct (parse_char s2 (chr "-")) as [minus s3]. destruct (if minus then _ else _) as [[] s4]; [|done].
  destruct (parse_offset s4) as [| |[[h min] s5]] eqn:E; [done..|]. apply parse_offset_bound in E. cbn [mbind parsed_bind].
  unfold reject_if.
  destruct (_ && _); [done|]. intros [= <- <-]. lia.
Qed.

Lemma parse_civil_bound s c r : parse_civil s = Parsed (c, r) -> 0 <= y c < 10000 /\ 0 <= h c /\ 0 <= min c /\ 0 <= sec c.
Proof.
  unfold parse_civil. destruct (need_uint s 4) as [| |[v s1]] eqn:E1; [done..|]. apply need_uint_bound in E1; [|lia].
  cbn [mbind parsed_bind].
  repeat match goal with
  | |- need_char ?s ?c ≫= _ = _ -> _ => destruct (need_char s c); [done..|]; cbn [mbind parsed_bind]
  | |- need_uint ?s 2 ≫= _ = _ -> _ =>
      let E := fresh "E" in destruct (need_uint s 2) as [| |[? ?]] eqn:E; [done..|]; apply need_uint_bound in E; [|lia];
        cbn [mbind parsed_bind]
  end. intros [= <- <-]. cbn [y h min sec]. lia.
Qed.
Lemma check_civil_bound c c' : check_civil c = Parsed c' -> 1 <= m c' <= 12 /\ 1 <= d c' <= 31 /\ h c' <= 24 /\ min c' <= 59 /\
  sec c' <= 59 /\
  y c' = y c /\ h c' = h c /\ min c' = min c /\ (sec c' = sec c \/ sec c' = 59).
Proof.
  unfold check_civil, reject_if. destruct ((m c <? 1) || (12 <? m c)) eqn:E1; [done|]. cbn [mbind parsed_bind].
  destruct ((d c <? 1) || (days_in (m c) <? d c)) eqn:E2; [done|]. cbn [mbind parsed_bind].
  destruct (bad_leap_day _ _ _); [done|]. cbn [mbind parsed_bind].
  destruct ((24 <? h c) || (59 <? min c) || (60 <? sec c)) eqn:E3; [done|]. intros [= <-]. cbn.
  apply orb_false_iff in E1 as [?%Z.ltb_ge ?%Z.ltb_ge], E2 as [?%Z.ltb_ge ?%Z.ltb_ge], E3 as [[?%Z.ltb_ge
    ?%Z.ltb_ge]%orb_false_iff ?%Z.ltb_ge].
  pose proof (days_in_31 (m c) ltac:(lia)). destruct (Z.eqb_spec (sec c) 60); lia.
Qed.
Lemma sys_days_bound c : 0 <= year c < 10000 -> 1 <= month c <= 12 -> 1 <= day c <= 31 -> -1000000 <= sys_days c <= 3000000.
Proof.
  intros Hy Hm Hd. unfold sys_days, day_of_era.
  destruct (Z.leb_spec (month c) 2), (Z.ltb_spec 2 (month c)); try lia; Z.to_euclidean_division_equations; lia.
Qed.

(** Every text that is read gives a number of nanoseconds below a second, and seconds of
    41 bits. *)
Lemma parse_range rep64 s result nsec : parse_system_time rep64 s = Parsed (result, nsec) ->
  - 2 ^ 40 < result < 2 ^ 40 /\ 0 <= nsec < 10 ^ 9.
Proof.
  unfold parse_system_time. destruct (parse_civil s) as [| |[c s1]] eqn:E1; [done..|]. cbn [mbind parsed_bind].
  destruct (check_civil c) as [| |c'] eqn:E2; [done..|]. cbn [mbind parsed_bind].
  apply parse_civil_bound in E1 as (Hy & Hh & Hm & Hs).
  apply check_civil_bound in E2 as (Hm' & Hd' & Hh' & Hmin' & Hs' & Ey & Eh & Em & Es).
  pose proof (sys_days_bound {| year := y c'; month := m c'; day := d c' |} ltac:(cbn; lia) Hm' Hd') as Hsd.
  destruct (total_seconds _ _ _ _ _) as [| |r] eqn:Et; [done..|]. assert (Hr : -1000000 * 86400 <= r < 2 ^ 40 - 53940).
  { unfold total_seconds in Et. destruct rep64; [injection Et as <-; lia|]. destruct (in_range _ _ _); [|done].
    injection Et as <-.
    pose proof (wrap_range 32 (sys_days {| year := y c'; month := m c';
      day := d c' |} * 86400 + h c' * 3600 + min c' * 60 + sec c') ltac:(lia)). lia. }
  cbn [mbind parsed_bind]. pose proof (parse_subsec_bound s1) as Hn. destruct (parse_subsec s1) as [n s2]. cbn [fst] in Hn.
  destruct (reject_if _); [done..|]. cbn [mbind parsed_bind]. destruct (parse_zone s2 r) as [| |[r' s3]] eqn:Ez; [done..|].
  apply parse_zone_bound in Ez. cbn [mbind parsed_bind]. destruct s3; [|done]. intros [= <- <-]. lia.
Qed.

(** ** The time points of a schema *)

Lemma split_seconds_floor digits v : split_seconds digits v = (v / 10 ^ Z.of_nat digits, v mod 10 ^ Z.of_nat digits).
Proof.
  unfold split_seconds. set (D := 10 ^ Z.of_nat digits). assert (HD : 0 < D) by (apply Z.pow_pos_nonneg; lia).
  pose proof (Z.quot_rem' v D) as Hq. pose proof (Z.rem_bound_abs v D ltac:(lia)) as Hb.
  destruct (Z.ltb_spec (Z.rem v D) 0); f_equal.
  - apply Z.div_unique with (Z.rem v D + D); lia.
  - apply Z.mod_unique with (Z.quot v D - 1); lia.
  - apply Z.div_unique with (Z.rem v D); lia.
  - apply Z.mod_unique with (Z.quot v D); lia.
Qed.
Lemma divide10_pow n x : 0 <= x -> divide10 n (x * 10 ^ Z.of_nat n) = x.
Proof.
  revert x. induction n as [|n IH]; intros x Hx; cbn [divide10]; [rewrite Z.mul_1_r; lia|].
  rewrite Nat2Z.inj_succ, Z.pow_succ_r by lia. replace (x * (10 * 10 ^ Z.of_nat n)) with (x * 10 ^ Z.of_nat n * 10) by ring.
  rewrite Z.quot_mul by lia. by apply IH.
Qed.
Lemma subsec_of_scaled digits x : (digits <= 9)%nat -> 0 <= x -> subsec_of digits (x * 10 ^ Z.of_nat (9 - digits)) = x.
Proof.
  intros Hd Hx. unfold subsec_of. destruct (Nat.ltb_spec digits 9); [by apply divide10_pow|].
  replace digits with 9%nat by lia. cbn. lia.
Qed.

(** The number of [n] bytes: it is within the type, and its bytes are those it was read
    from. *)
Lemma raw_value_spec isSigned n raw v : (1 <= n <= 8)%nat -> 0 <= raw < 256 ^ Z.of_nat n ->
  raw_value isSigned (8 * Z.of_nat n) raw = Ok v ->
  (v = raw /\ raw < 2 ^ 63 \/ isSigned = true /\ v = raw - 256 ^ Z.of_nat n) /\
    (isSigned = true -> - 256 ^ Z.of_nat n <= 2 * v < 256 ^ Z.of_nat n) .
Proof.
  intros Hn Hraw. rewrite pow256 in *. set (b := 8 * Z.of_nat n) in *. assert (Hb : 8 <= b <= 64) by lia.
  assert (H2 : 2 ^ b = 2 * 2 ^ (b - 1)) by (rewrite <- Z.pow_succ_r by lia; f_equal; lia).
  assert (Hbit : Z.testbit raw (b - 1) = (2 ^ (b - 1) <=? raw)).
  { rewrite Z.testbit_eqb by lia. destruct (Z.leb_spec (2 ^ (b - 1)) raw).
    - replace (raw / 2 ^ (b - 1)) with 1; [done|]. apply Z.div_unique with (raw - 2 ^ (b - 1)); lia.
    - rewrite Z.div_small by lia. done. }
  assert (H63 : negb (Z.testbit raw 63) = true -> raw < 2 ^ 63).
  { intros Ht%negb_true_iff. assert (Hp : 2 ^ b <= 2 ^ 64) by (apply Z.pow_le_mono_r; lia). apply Z.nle_gt. intros Hge.
    rewrite Z.testbit_eqb in Ht by lia. replace (raw / 2 ^ 63) with 1 in Ht; [done|].
    apply Z.div_unique with (raw - 2 ^ 63); lia. }
  unfold raw_value. rewrite Hbit. destruct isSigned; cbn [andb].
  2:{ unfold check. destruct (negb _); [|done]. intros [= <-]. split; [left; auto|done]. }
  destruct (Z.leb_spec (2 ^ (b - 1)) raw).
  2:{ unfold check. destruct (negb _); [|done]. intros [= <-]. split; [left; auto|lia]. }
  intros Hv. assert (Hval : v = raw - 2 ^ b); [|split; [right; auto|lia]].
  destruct (Z.eqb_spec b 64) as [E64|].
  - injection Hv as <-. unfold to_signed. rewrite E64 in *. change (64 - 1) with 63 in *. rewrite (proj2 (Z.ltb_ge _ _)) by lia.
    done.
  - injection Hv as <-. assert (Hp : 2 ^ 64 = 2 ^ b * 2 ^ (64 - b)) by (rewrite <- Z.pow_add_r by lia; f_equal; lia).
    assert (H1 : 2 <= 2 ^ (64 - b)) by (change 2 with (2 ^ 1) at 1; apply Z.pow_le_mono_r; lia).
    assert (Hu : u64 (Z.lnot (2 ^ b - 1)) = Z.shiftl (2 ^ (64 - b) - 1) b).
    { rewrite Z.shiftl_mul_pow2 by lia. unfold wrap, Z.lnot. symmetry. apply Z.mod_unique with (-1); nia. }
    rewrite Hu, Z.lor_comm, lor_shiftl_add by lia. unfold to_signed. change (64 - 1) with 63.
    rewrite (proj2 (Z.ltb_ge _ _)) by (change (2 ^ 64) with (2 * 2 ^ 63) in Hp; nia). nia.
Qed.

Lemma le_bytes_add n x k : le_bytes n (x + k * 256 ^ Z.of_nat n) = le_bytes n x.
Proof.
  revert x. induction n as [|n IH]; intros x; [done|]. cbn [le_bytes]. rewrite Nat2Z.inj_succ, Z.pow_succ_r by lia.
  replace (k * (256 * 256 ^ Z.of_nat n)) with (k * 256 ^ Z.of_nat n * 256) by ring. rewrite Z_mod_plus_full, Z.div_add by lia.
  by rewrite IH.
Qed.
Lemma le_bytes_wrap n x k : (n <= 8)%nat -> le_bytes n (u64 (x - k * 256 ^ Z.of_nat n)) = le_bytes n x.
Proof.
  intros Hn. unfold wrap. rewrite Z.mod_eq by lia. set (q := (x - k * 256 ^ Z.of_nat n) / 2 ^ 64).
  assert (Hp : 2 ^ 64 = 256 ^ Z.of_nat (8 - n) * 256 ^ Z.of_nat n) by (change (2 ^ 64) with (256 ^ 8);
    rewrite <- Z.pow_add_r by lia; f_equal; lia).
  rewrite Hp. replace (x - k * 256 ^ Z.of_nat n - 256 ^ Z.of_nat (8 - n) * 256 ^ Z.of_nat n * q) with (x + (- k - 256 ^ Z.of_nat
    (8 - n) * q) * 256 ^ Z.of_nat n) by ring.
  apply le_bytes_add.
Qed.
Lemma int_bytes_mul n : int_bytes (8 * Z.of_nat n) = n.
Proof. unfold int_bytes. replace (8 * Z.of_nat n + 7) with (7 + Z.of_nat n * 8) by lia. rewrite Z.div_add by lia.
change (7 / 8) with 0. lia. Qed.

(** What [json2frac] checks of a number that the type holds. *)
Lemma extra_sign n v isSigned raw : (1 <= n <= 8)%nat -> 0 <= raw < 256 ^ Z.of_nat n ->
  v = raw \/ isSigned = true /\ v = raw - 256 ^ Z.of_nat n ->
  let extra := Z.shiftr v (8 * Z.of_nat n) in (extra =? 0) || (extra =? -1) = true.
Proof.
  intros Hn Hraw Hv. cbn zeta. rewrite Z.shiftr_div_pow2, <- pow256 by lia.
  destruct Hv as [->|[_ ->]]; [by rewrite Z.div_small by lia|].
  apply orb_true_iff. right. apply Z.eqb_eq. symmetry. apply Z.div_unique with raw; lia.
Qed.

(** A time point of a schema: its [n] bytes become a text, and the text the same bytes,
    for times of the years 0 to 9999. *)
Theorem schema_time_roundtrip isSigned n digits src v : (1 <= n <= 8)%nat -> (digits <= 9)%nat -> length src = n ->
  bytes_ok src ->
  raw_value isSigned (8 * Z.of_nat n) (of_le src) = Ok v -> in_years (v / 10 ^ Z.of_nat digits) ->
  exists text, frac2json isSigned (8 * Z.of_nat n) digits src = Ok (Some (text, [])) /\
               json2frac true isSigned (8 * Z.of_nat n) digits text = Parsed (Ok src).
Proof.
  intros Hn Hd Hl Hs Hv Hy. pose proof (of_le_range src Hs) as Hraw. rewrite Hl in Hraw.
  unfold frac2json. rewrite int_bytes_mul, Hl, Nat.ltb_irrefl, take_ge, drop_ge by lia. rewrite Hv. cbn [mbind result_bind].
  rewrite split_seconds_floor.
  eexists. split; [reflexivity|]. set (D := 10 ^ Z.of_nat digits) in *. assert (HD : 0 < D) by (apply Z.pow_pos_nonneg; lia).
  unfold json2frac. rewrite parse_format by (done || (fold D; apply Z.mod_pos_bound; lia)).
  rewrite subsec_of_scaled by (done || apply Z.mod_pos_bound; lia). fold D.
  replace (v / D * D + v mod D) with v by (pose proof (Z.div_mod v D); lia).
  destruct (raw_value_spec isSigned n (of_le src) v Hn Hraw Hv) as [Hval Hrange].
  assert (Hp : 256 ^ Z.of_nat n <= 2 ^ 64) by (rewrite pow256; apply Z.pow_le_mono_r; lia).
  assert (in_range (- 2 ^ 63) (2 ^ 63 - 1) v = true) as ->.
  { unfold in_range. apply andb_true_iff. rewrite !Z.leb_le. destruct Hval as [[-> ?]|[Hsg ?]]; [lia|]. specialize (Hrange Hsg).
    lia. }
  cbn [negb]. assert (isSigned || (0 <=? v) = true) as -> by (destruct Hval as [[-> ?]|[-> ?]]; [apply orb_true_iff; right;
    apply Z.leb_le; lia|done]).
  cbn [check mbind result_bind]. rewrite (extra_sign n v isSigned (of_le src)) by (done || (destruct Hval as [[? _]|?];
    [by left|by right])). rewrite (proj2 (Z.leb_le (8 * Z.of_nat n) 64)) by lia.
  replace (if 8 * Z.of_nat n <? 64 then check true _ else mret ()) with (@Ok unit tt) by (by destruct (_ <? 64)).
  cbn [check mbind result_bind].
  rewrite int_bytes_mul. do 2 f_equal. destruct Hval as [[-> ?]|[_ ->]].
  - rewrite wrap_small by lia. rewrite <- Hl at 1. by apply le_bytes_of.
  - rewrite <- (Z.mul_1_l (256 ^ Z.of_nat n)), le_bytes_wrap by lia. rewrite <- Hl at 1. by apply le_bytes_of.
Qed.
Lemma schema_time_roundtrip_witness : exists text,
  frac2json true (8 * Z.of_nat 8) 6 (le_bytes 8 (u64 (-1))) = Ok (Some (text, [])) /\
    json2frac true true (8 * Z.of_nat 8) 6 text = Parsed (Ok (le_bytes 8 (u64 (-1)))).
Proof. apply (schema_time_roundtrip true 8 6 (le_bytes 8 (u64 (-1))) (-1)); [lia|lia|reflexivity|apply le_bytes_ok|vm_compute;
  reflexivity|vm_compute; split; congruence]. Defined.

(** No product or sum of the conversion overflows when days count in 64 bits. *)
Lemma parse_defined s : parse_system_time true s <> Overflowed.
Proof.
  assert (Hu : forall s n, need_uint s n <> Overflowed) by (intros s' n; unfold need_uint;
    by destruct (parse_uint s' n) as [[[] ?] ?]).
  assert (Hc : forall s c, need_char s c <> Overflowed) by (intros s' c; unfold need_char;
    by destruct (parse_char s' c) as [[] ?]).
  assert (Ho : forall s, parse_offset s <> Overflowed).
  { intros s'. unfold parse_offset. destruct (need_uint s' 2) as [| |[? s1]] eqn:E; [done|by destruct (Hu s' 2%nat)|].
    cbn [mbind parsed_bind].
    destruct (parse_char s1 _) as [? s2]. destruct (parse_uint s2 2) as [[? ?] ?]. unfold reject_if.
    by repeat (case_match; cbn [mbind parsed_bind]). }
  assert (Hz : forall s r, parse_zone s r <> Overflowed).
  { intros s' r. unfold parse_zone. destruct (parse_char s' (chr "Z")) as [[] s1]; [done|].
    destruct (parse_char s1 (chr "+")) as [[] s2].
    { destruct (parse_offset s2) as [| |[[? ?] ?]] eqn:E; [done|by destruct (Ho s2)|done]. }
    destruct (parse_char s2 (chr "-")) as [minus s3]. destruct (if minus then _ else _) as [[] s4]; [|done].
    destruct (parse_offset s4) as [| |[[? ?] ?]] eqn:E; [done|by destruct (Ho s4)|]. cbn [mbind parsed_bind]. unfold reject_if.
    by case_match. }
  unfold parse_system_time. destruct (parse_civil s) as [| |[c s1]] eqn:E1; [done| |].
  { exfalso. revert E1. unfold parse_civil. repeat match goal with
    | |- need_char ?s ?c ≫= _ = _ -> _ => let E := fresh in destruct (need_char s c) eqn:E; [done|by destruct (Hc s c)|];
      cbn [mbind parsed_bind]
    | |- need_uint ?s ?n ≫= _ = _ -> _ => let E := fresh in destruct (need_uint s n) as [| |[? ?]] eqn:E;
      [done|by destruct (Hu s n)|]; cbn [mbind parsed_bind]
    end. done. }
  cbn [mbind parsed_bind]. destruct (check_civil c) as [| |c'] eqn:E2; [done|exfalso; revert E2; unfold check_civil, reject_if;
    by repeat (case_match; cbn [mbind parsed_bind])|].
  cbn [mbind parsed_bind total_seconds]. destruct (parse_subsec s1) as [n s2]. unfold reject_if at 1.
  destruct (_ && _); [done|]. cbn [mbind parsed_bind].
  destruct (parse_zone _ _) as [| |[? []]] eqn:E3; [done|by apply Hz in E3|done|done].
Qed.

(** The conversion of a text to a number of seconds or microseconds is defined for every
    text, and writes the bytes of its type or aborts. *)
Theorem json2frac_total isSigned bits digits s : (digits <= 6)%nat ->
  exists r, json2frac true isSigned bits digits s = Parsed r /\ (forall bs, r = Ok bs -> length bs = int_bytes bits).
Proof.
  intros Hd. unfold json2frac. pose proof (parse_defined s) as Hdef.
  destruct (parse_system_time true s) as [| |[sec nsec]] eqn:E; [by eexists|done|].
  apply parse_range in E as [Hs Hn]. assert (HD : 0 < 10 ^ Z.of_nat digits <= 10 ^ 6) by (split; [apply Z.pow_pos_nonneg;
    lia|apply Z.pow_le_mono_r; lia]).
  assert (Hsub : 0 <= subsec_of digits nsec < 10 ^ 9).
  { unfold subsec_of. rewrite (proj2 (Nat.ltb_lt _ _)) by lia. revert Hn. generalize (9 - digits)%nat. intros k. clear Hdef.
    revert nsec.
    induction k as [|k IH]; intros nsec Hn; [done|]. apply IH. split; [apply Z.quot_pos; lia|apply Z.quot_lt_upper_bound; lia].
    }
  assert (in_range (- 2 ^ 63) (2 ^ 63 - 1) (sec * 10 ^ Z.of_nat digits + subsec_of digits nsec) = true) as ->.
  { unfold in_range. apply andb_true_iff. rewrite !Z.leb_le. nia. }
  cbn [negb]. eexists. split; [reflexivity|]. intros bs H. ok_inv. apply length_le_bytes.
Qed.
Lemma json2frac_total_witness : exists r, json2frac true true 64 6 (str "2024-11-18T12:34:56Z") = Parsed r /\
  (forall bs, r = Ok bs -> length bs = int_bytes 64).
Proof. apply (json2frac_total true 64 6 (str "2024-11-18T12:34:56Z")). lia. Defined.

(** The check of the range does not see the sign: a time of the year 2106 passes for a
    signed number of 32 bits, and its bytes are those of 1969. *)
Example signed_range_unchecked :
  json2frac true true 32 0 (str "2106-02-07T06:28:15Z") = Parsed (Ok [255; 255; 255; 255]) /\
  frac2json true 32 0 [255; 255; 255; 255] = Ok (Some (str "1969-12-31T23:59:59Z", [])).
Proof. split; vm_compute; reflexivity. Qed.
