(* ===== verification/Ordered.v ===== *)
(** * The ordered containers and sorted-range algorithms of the C++ library

    [std::map], [std::set] and [boost::container::flat_map] as lists in strictly
    increasing order of their keys, and [std::sort] with [std::unique],
    [std::ranges::set_difference] and [std::ranges::includes] on ranges.  The
    order is a class with its laws; integers, byte strings and tuples are
    instances. *)

From S2P Require Import Prelude.

(** ** Three-way comparison *)

Class Compare (A : Type) := cmp : A -> A -> comparison.

Class CompareLaws (A : Type) `{Compare A} := {
  cmp_eq a b : cmp a b = Eq <-> a = b;
  cmp_antisym a b : cmp b a = CompOpp (cmp a b);
  cmp_trans a b c : cmp a b = Lt -> cmp b c = Lt -> cmp a c = Lt
}.

#[export] Instance Z_compare : Compare Z := Z.compare.
#[export] Instance bytes_compare : Compare bytes := lex_compare.
#[export] Instance prod_compare `{Compare A, Compare B} : Compare (A * B) :=
  fun x y => then_compare (cmp x.1 y.1) (cmp x.2 y.2).

#[export] Instance Z_compare_laws : CompareLaws Z.
Proof. unfold cmp, Z_compare. split; intros; rewrite ?Z.compare_eq_iff, ?Z.compare_lt_iff in *;
  [done|apply Z.compare_antisym|lia]. Qed.

#[export] Instance bytes_compare_laws : CompareLaws bytes.
Proof. unfold cmp, bytes_compare. split; [apply lex_compare_eq|apply lex_compare_antisym|]. intros a b c.
by apply lex_compare_trans. Qed.

#[export] Instance prod_compare_laws `{CompareLaws A, CompareLaws B} : CompareLaws (A * B).
Proof.
  split; unfold cmp, prod_compare, then_compare.
  - intros [a b] [a' b']; cbn. destruct (cmp a a') eqn:E; [apply cmp_eq in E as ->|..].
    + rewrite cmp_eq. split; congruence.
    + split; [done|]. intros [= -> ->]. assert (cmp a' a' = Eq) by by apply cmp_eq. congruence.
    + split; [done|]. intros [= -> ->]. assert (cmp a' a' = Eq) by by apply cmp_eq. congruence.
  - intros [a b] [a' b']; cbn. rewrite (cmp_antisym a a'). destruct (cmp a a'); cbn; [apply cmp_antisym|done|done].
  - intros [a b] [a' b'] [a'' b'']; cbn. destruct (cmp a a') eqn:E1; [apply cmp_eq in E1 as ->| |done].
    + destruct (cmp a' a''); [apply cmp_trans|done|done].
    + intros _. destruct (cmp a' a'') eqn:E2; [apply cmp_eq in E2 as <-| |done]; [by rewrite E1|].
      by rewrite (cmp_trans a a' a'' E1 E2).
Qed.

Section ordered.
Context `{CompareLaws A}.

Definition below (a b : A) : Prop := cmp a b = Lt.

Lemma cmp_refl a : cmp a a = Eq.
Proof. by apply cmp_eq. Qed.
Lemma below_irrefl a : ~ below a a.
Proof. unfold below. rewrite cmp_refl. done. Qed.
Lemma cmp_gt a b : cmp a b = Gt <-> below b a.
Proof. unfold below. rewrite (cmp_antisym a b). destruct (cmp a b); cbn; split; done. Qed.
#[export] Instance below_trans : Transitive below.
Proof. intros a b c. apply cmp_trans. Qed.
Lemma below_neq a b : below a b -> a <> b.
Proof. intros Hb ->. by apply below_irrefl in Hb. Qed.

Abbreviation sorted := (StronglySorted below).

Lemma sorted_cons a l : sorted (a :: l) <-> sorted l /\ Forall (below a) l.
Proof. split; [by inversion 1|]. intros []. by constructor. Qed.

Lemma sorted_app l1 l2 : sorted (l1 ++ l2) <-> sorted l1 /\ sorted l2 /\ forall a b, a ∈ l1 -> b ∈ l2 -> below a b.
Proof.
  induction l1 as [|a l1 IH]; cbn.
  - split; [intros; split; [constructor|split; [done|]]; intros ? ? ?%elem_of_nil; done|by intros (_ & ? & _)].
  - rewrite !sorted_cons, IH, Forall_app, !Forall_forall. split.
    + intros [(? & ? & Hb) [? ?]]. split; [done|]. split; [done|]. intros x y [->|Hx]%elem_of_cons Hy; eauto.
    + intros [[? ?] [? Hb]]. repeat split; [done|done| |done|]; intros; apply Hb; try done; by constructor.
Qed.

Lemma sorted_NoDup l : sorted l -> NoDup l.
Proof.
  induction 1 as [|a l _ IH Hl]; constructor; [|done]. intros Hin. rewrite Forall_forall in Hl.
  by apply (below_irrefl a), Hl.
Qed.

(** A sorted list is determined by its elements. *)
Lemma sorted_unique l1 l2 : sorted l1 -> sorted l2 -> (forall a, a ∈ l1 <-> a ∈ l2) -> l1 = l2.
Proof.
  intros H1. revert l2. induction H1 as [|a l1 Hs IH Hl]; intros l2 H2 He.
  - destruct l2 as [|b l2]; [done|]. exfalso. apply (not_elem_of_nil b), He. constructor.
  - inversion H2 as [|b l2' Hs2 Hl2]; subst.
    + exfalso. apply (not_elem_of_nil a), He. constructor.
    + rewrite Forall_forall in Hl, Hl2.
      assert (a = b) as ->.
      { assert (Ha : a ∈ b :: l2') by (apply He; constructor). assert (Hb : b ∈ a :: l1) by (apply He; constructor).
        apply elem_of_cons in Ha as [->|Ha]; [done|]. apply elem_of_cons in Hb as [->|Hb]; [done|].
        apply Hl in Hb. apply Hl2 in Ha. exfalso. apply (below_irrefl a). by trans b. }
      f_equal. apply IH; [done|]. intros x. specialize (He x). rewrite !elem_of_cons in He. split; intros Hx.
      * destruct (proj1 He (or_intror Hx)) as [->|]; [|done]. exfalso. by apply (below_irrefl b), Hl.
      * destruct (proj2 He (or_intror Hx)) as [->|]; [|done]. exfalso. by apply (below_irrefl b), Hl2.
Qed.

(** ** [std::sort] followed by [std::unique] *)

Fixpoint insert_unique (a : A) (l : list A) : list A :=
  match l with
  | [] => [a]
  | b :: l' => match cmp a b with Lt => a :: l | Eq => l | Gt => b :: insert_unique a l' end
  end.
Definition sort_unique (l : list A) : list A := foldr insert_unique [] l.

Lemma elem_of_insert_unique x a l : x ∈ insert_unique a l <-> x = a \/ x ∈ l.
Proof.
  induction l as [|b l IH]; cbn; [by rewrite list_elem_of_singleton, elem_of_nil; tauto|].
  destruct (cmp a b) eqn:E; rewrite ?elem_of_cons, ?IH; [|tauto|tauto]. apply cmp_eq in E as ->. tauto.
Qed.
Lemma insert_unique_sorted a l : sorted l -> sorted (insert_unique a l).
Proof.
  induction 1 as [|b l Hs IH Hl]; cbn; [by repeat constructor|]. destruct (cmp a b) eqn:E; [by constructor| |].
  - constructor; [by constructor|]. constructor; [done|]. eapply Forall_impl; [exact Hl|]. intros x Hx. by trans b.
  - constructor; [done|]. apply Forall_forall. intros x [->|Hx]%elem_of_insert_unique; [by apply cmp_gt|].
    rewrite Forall_forall in Hl. by apply Hl.
Qed.
Lemma elem_of_sort_unique x l : x ∈ sort_unique l <-> x ∈ l.
Proof. induction l as [|a l IH]; cbn; [done|]. by rewrite elem_of_insert_unique, IH, elem_of_cons. Qed.
Lemma sort_unique_sorted l : sorted (sort_unique l).
Proof. induction l; cbn; [constructor|by apply insert_unique_sorted]. Qed.

(** ** [std::ranges::set_difference] and [std::ranges::includes] *)

Fixpoint set_difference (l1 : list A) : list A -> list A :=
  match l1 with
  | [] => fun _ => []
  | a :: l1' =>
      fix go l2 :=
        match l2 with
        | [] => l1
        | b :: l2' => match cmp a b with Lt => a :: set_difference l1' l2 | Gt => go l2' | Eq => set_difference l1' l2' end
        end
  end.

(** Whether every element of [l2] is in [l1]. *)
Fixpoint includes (l1 : list A) : list A -> bool :=
  match l1 with
  | [] => fun l2 => match l2 with [] => true | _ => false end
  | a :: l1' =>
      fun l2 =>
        match l2 with
        | [] => true
        | b :: l2' => match cmp b a with Lt => false | Gt => includes l1' l2 | Eq => includes l1' l2' end
        end
  end.

Lemma elem_of_set_difference x l1 l2 : sorted l1 -> sorted l2 -> x ∈ set_difference l1 l2 <-> x ∈ l1 /\ x ∉ l2.
Proof.
  intros H1. revert l2. induction H1 as [|a l1 Hs IH Hl]; intros l2 H2.
  - cbn. rewrite elem_of_nil. tauto.
  - induction H2 as [|b l2 Hs2 IH2 Hl2]; cbn [set_difference]; [rewrite elem_of_nil; tauto|].
    rewrite Forall_forall in Hl, Hl2. destruct (cmp a b) eqn:E.
    + apply cmp_eq in E as ->. rewrite IH by done. rewrite !not_elem_of_cons, elem_of_cons.
      split; [intros [Hx ?]; split; [by right|]; split; [|done]; intros ->; by apply (below_irrefl b), Hl|].
      intros [[->|?] [? ?]]; done.
    + rewrite elem_of_cons, IH by by constructor; [|by apply Forall_forall].
      rewrite !elem_of_cons. split; [|tauto]. intros [->|?]; [|tauto]. split; [by left|].
      intros [->|Hx]; [by apply (below_irrefl b)|]. apply (below_irrefl a). trans b; [done|by apply Hl2].
    + rewrite IH2. rewrite not_elem_of_cons. split; [|tauto]. intros [Hx Hn]. split; [done|]. split; [|done].
      apply cmp_gt in E. apply elem_of_cons in Hx as [->|Hx]; [intros ->; by apply (below_irrefl b)|].
      intros ->. apply (below_irrefl b). trans a; [done|by apply Hl].
Qed.

Lemma includes_spec l1 l2 : sorted l1 -> sorted l2 -> includes l1 l2 = true <-> forall x, x ∈ l2 -> x ∈ l1.
Proof.
  intros H1. revert l2. induction H1 as [|a l1 Hs IH Hl]; intros l2 H2.
  - destruct l2 as [|b l2]; cbn; [split; [intros _ x Hx; exact Hx|done]|]. split; [done|]. intros Hx.
    destruct (not_elem_of_nil b). apply Hx. constructor.
  - destruct H2 as [|b l2 Hs2 Hl2]; cbn [includes]; [split; [intros _ x ?%elem_of_nil|]; done|].
    rewrite Forall_forall in Hl, Hl2. destruct (cmp b a) eqn:E.
    + apply cmp_eq in E as ->. rewrite IH by done. split; intros Hi x.
      * rewrite !elem_of_cons. intros [->|Hx]; [by left|right; by apply Hi].
      * intros Hx. destruct (elem_of_cons l1 x a) as [Hc _]. destruct Hc as [->|]; [apply Hi; by right| |done].
        exfalso. by apply (below_irrefl a), Hl2.
    + split; [done|]. intros Hi. exfalso. assert (Hb : b ∈ a :: l1) by (apply Hi; constructor).
      apply elem_of_cons in Hb as [->|Hb]; [by apply (below_irrefl a)|]. apply (below_irrefl b). trans a; [done|by apply Hl].
    + apply cmp_gt in E. rewrite IH by by constructor; [|by apply Forall_forall].
      split; intros Hi x Hx; [right; by apply Hi|]. destruct (elem_of_cons l1 x a) as [Hc _].
      destruct (Hc (Hi x Hx)) as [->|]; [|done]. exfalso. apply elem_of_cons in Hx as [->|Hx]; [by apply (below_irrefl b)|].
      apply (below_irrefl a). trans b; [done|by apply Hl2].
Qed.
End ordered.
Abbreviation sorted := (StronglySorted below).

(** ** [std::map] *)

Section map.
Context `{CompareLaws K} {V : Type}.

Abbreviation omap := (list (K * V)).

Fixpoint find (k : K) (m : omap) : option V :=
  match m with
  | [] => None
  | (k', v) :: m => match cmp k k' with Eq => Some v | _ => find k m end
  end.

(** [try_emplace] and [insert]: an existing entry stays. *)
Fixpoint emplace (k : K) (v : V) (m : omap) : omap :=
  match m with
  | [] => [(k, v)]
  | (k', v') :: m' => match cmp k k' with Lt => (k, v) :: m | Eq => m | Gt => (k', v') :: emplace k v m' end
  end.

(** Assignment through an iterator or a pointer to an existing element. *)
Definition assign (k : K) (v : V) (m : omap) : omap :=
  map (fun '(k', v') => match cmp k k' with Eq => (k', v) | _ => (k', v') end) m.

Definition erase (k : K) (m : omap) : omap := List.filter (fun '(k', _) => match cmp k k' with Eq => false | _ => true end) m.

(** [adopt_sequence] of a [flat_map]. *)
Definition adopt_sequence (l : omap) : omap := foldl (fun m '(k, v) => emplace k v m) [] l.

Abbreviation map_ok m := (sorted (map fst m)).

Lemma find_In k v m : map_ok m -> find k m = Some v <-> (k, v) ∈ m.
Proof.
  induction m as [|[k' v'] m IH]; cbn [map find]; intros Hs; [rewrite elem_of_nil; done|].
  apply sorted_cons in Hs as [Hs Hl]. rewrite Forall_forall in Hl. rewrite elem_of_cons.
  assert (Hnew : forall x, (k', x) ∉ m). { intros x Hx. apply (below_irrefl k'), Hl. apply (list_elem_of_fmap_2 fst _ _ Hx). }
  destruct (cmp k k') eqn:E; [apply cmp_eq in E as ->|..].
  - split; [intros [= ->]; by left|]. intros [[= ->]|Hm]; [done|]. by apply Hnew in Hm.
  - rewrite IH by done. split; [by right|]. intros [[= -> ->]|?]; [|done]. by rewrite cmp_refl in E.
  - rewrite IH by done. split; [by right|]. intros [[= -> ->]|?]; [|done]. by rewrite cmp_refl in E.
Qed.

Lemma find_None k m : find k m = None <-> k ∉ map fst m.
Proof.
  induction m as [|[k' v'] m IH]; cbn [map find fst]; [split; [intros _; apply not_elem_of_nil|done]|].
  rewrite not_elem_of_cons. destruct (cmp k k') eqn:E; [apply cmp_eq in E as ->; split; [done|tauto]|..];
    rewrite IH; (split; [|tauto]); intros ?; (split; [|done]); intros ->; by rewrite cmp_refl in E.
Qed.

Lemma find_Some_key k v m : find k m = Some v -> k ∈ map fst m.
Proof. intros E. destruct (decide (cmp k k = Eq)); [|by rewrite cmp_refl in *]. revert E.
  induction m as [|[k' v'] m IH]; cbn [map find fst]; [done|]. rewrite elem_of_cons.
  destruct (cmp k k') eqn:E; [apply cmp_eq in E as ->; by left|..]; intros Hf; right; by apply IH. Qed.

Lemma emplace_keys k v m x : x ∈ map fst (emplace k v m) <-> x = k \/ x ∈ map fst m.
Proof.
  induction m as [|[k' v'] m IH]; cbn; [by rewrite list_elem_of_singleton, elem_of_nil; tauto|].
  destruct (cmp k k') eqn:E; cbn; rewrite ?elem_of_cons, ?IH; [|tauto|tauto]. apply cmp_eq in E as ->. tauto.
Qed.
Lemma emplace_ok k v m : map_ok m -> map_ok (emplace k v m).
Proof.
  induction m as [|[k' v'] m IH]; cbn [map fst emplace]; intros Hs; [by repeat constructor|].
  apply sorted_cons in Hs as [Hs Hl]. destruct (cmp k k') eqn:E; cbn [map fst]; [by constructor| |].
  - constructor; [by constructor|]. constructor; [done|]. eapply Forall_impl; [exact Hl|]. intros x Hx. by trans k'.
  - constructor; [by apply IH|]. apply Forall_forall. intros x [->|Hx]%emplace_keys; [by apply cmp_gt|].
    rewrite Forall_forall in Hl. by apply Hl.
Qed.
Lemma find_below k m : Forall (below k) (map fst m) -> find k m = None.
Proof. intros Hl. apply find_None. intros Hk. rewrite Forall_forall in Hl. by apply (below_irrefl k), Hl. Qed.

Lemma find_emplace k v m x :
  map_ok m ->
  find x (emplace k v m) = match find x m with Some w => Some w | None => match cmp x k with Eq => Some v | _ => None end end.
Proof.
  induction m as [|[k' v'] m IH]; cbn [map fst find emplace]; intros Hs; [by destruct (cmp x k)|].
  apply sorted_cons in Hs as [Hs Hl]. destruct (cmp k k') eqn:E; cbn [find].
  - apply cmp_eq in E as ->. destruct (cmp x k'); [done|by destruct (find x m)..].
  - destruct (cmp x k) eqn:Ex; [apply cmp_eq in Ex as ->; rewrite E|..].
    + rewrite find_below; [done|]. eapply Forall_impl; [exact Hl|]. intros y Hy. by trans k'.
    + by destruct (cmp x k'); [|destruct (find x m)..].
    + by destruct (cmp x k'); [|destruct (find x m)..].
  - destruct (cmp x k'); [done|by apply IH..].
Qed.
Lemma find_emplace_new k v m x :
  map_ok m -> find k m = None -> find x (emplace k v m) = match cmp x k with Eq => Some v | _ => find x m end.
Proof.
  intros Hs Hn. rewrite find_emplace by done.
  destruct (cmp x k) eqn:E; [apply cmp_eq in E as ->; by rewrite Hn|..]; by destruct (find x m).
Qed.

Lemma emplace_elem k v m x y :
  map_ok m -> (forall v', (k, v') ∈ m -> v' = v) -> (x, y) ∈ emplace k v m <-> (x, y) = (k, v) \/ (x, y) ∈ m.
Proof.
  intros Hs Hv. rewrite <- (find_In x y (emplace k v m)), <- (find_In x y m) by (done || by apply emplace_ok).
  rewrite find_emplace by done.
  destruct (find x m) as [w|] eqn:E.
  - split; [by right|]. intros [[= -> ->]|?]; [|done]. apply find_In, Hv in E; [congruence|done].
  - destruct (cmp x k) eqn:Ec; [apply cmp_eq in Ec as ->; split; [intros [= ->]; by left|by intros [[= ->]|?]]|..];
      (split; [done|]; intros [[= -> ->]|?]; [by rewrite cmp_refl in Ec|done]).
Qed.

Lemma assign_keys k v m : map fst (assign k v m) = map fst m.
Proof. unfold assign. rewrite map_map. apply map_ext. intros [k' v']. by destruct (cmp k k'). Qed.
Lemma find_assign k v m x :
  find x (assign k v m) = match cmp x k with Eq => match find k m with Some _ => Some v | None => None end | _ => find x m end.
Proof.
  induction m as [|[k' v'] m IH]; cbn [assign map find]; [by destruct (cmp x k)|]. fold (assign k v m).
  destruct (cmp k k') eqn:E; [apply cmp_eq in E as ->; cbn [find]; rewrite IH; by destruct (cmp x k')|..]; cbn [find];
    rewrite IH;
    (destruct (cmp x k) eqn:Ex; [|done..]); apply cmp_eq in Ex as ->; by rewrite E.
Qed.

Lemma erase_elem k m x v : (x, v) ∈ erase k m <-> (x, v) ∈ m /\ x <> k.
Proof.
  unfold erase. rewrite list_elem_of_In, filter_In, <- list_elem_of_In. destruct (cmp k x) eqn:E; [apply cmp_eq in E as ->|..].
  - split; [intros [? [=]]|]. intros [? []]; done.
  - split; intros [? _]; (split; [done|]); [intros ->; by rewrite cmp_refl in E|done].
  - split; intros [? _]; (split; [done|]); [intros ->; by rewrite cmp_refl in E|done].
Qed.
Lemma filter_keys (f : K * V -> bool) m x : x ∈ map fst (List.filter f m) -> x ∈ map fst m.
Proof.
  rewrite !list_elem_of_In, !in_map_iff. intros (y & <- & Hy). apply filter_In in Hy as [Hy _]. by exists y.
Qed.
Lemma filter_ok (f : K * V -> bool) m : map_ok m -> map_ok (List.filter f m).
Proof.
  induction m as [|[k' v'] m IH]; cbn; intros Hs; [constructor|]. apply sorted_cons in Hs as [Hs Hl].
  destruct (f _); cbn; [|by apply IH]. constructor; [by apply IH|]. rewrite Forall_forall in *. intros x Hx.
  by apply Hl, (filter_keys f).
Qed.
Lemma sublist_map_ok (m m' : omap) : m' `sublist_of` m -> map_ok m -> map_ok m'.
Proof.
  induction 1 as [|[k v] m m' Hsub IH|[k v] m m' Hsub IH]; cbn; [done|..]; rewrite ?sorted_cons; [|tauto].
  intros [Hs Hl]. split; [by apply IH|]. rewrite Forall_forall in *. intros x (y & <- & Hy)%list_elem_of_In%in_map_iff.
  apply Hl, list_elem_of_In, in_map_iff. exists y. split; [done|]. apply list_elem_of_In. apply list_elem_of_In in Hy.
  by eapply elem_of_sublist.
Qed.
Lemma erase_ok k m : map_ok m -> map_ok (erase k m).
Proof. apply filter_ok. Qed.
Lemma find_erase k m x : find x (erase k m) = match cmp x k with Eq => None | _ => find x m end.
Proof.
  induction m as [|[k' v'] m IH]; cbn [erase List.filter find]; [by destruct (cmp x k)|]. fold (erase k m).
  destruct (cmp k k') eqn:E; [apply cmp_eq in E as ->; rewrite IH; by destruct (cmp x k')|..]; cbn [find]; rewrite IH;
    (destruct (cmp x k) eqn:Ex; [|done..]); apply cmp_eq in Ex as ->; by rewrite E.
Qed.

Lemma cmp_ne (a b : K) {X} (x y : X) : a <> b -> (match cmp a b with Eq => x | _ => y end) = y.
Proof. intros Hn. destruct (cmp a b) eqn:E; [by apply cmp_eq in E|done|done]. Qed.
Lemma find_emplace_ne k v m x : map_ok m -> x <> k -> find x (emplace k v m) = find x m.
Proof. intros Hs Hn. rewrite find_emplace, cmp_ne by done. by destruct (find x m). Qed.
Lemma find_emplace_eq k v m : map_ok m -> find k m = None -> find k (emplace k v m) = Some v.
Proof. intros Hs Hn. by rewrite find_emplace, Hn, cmp_refl by done. Qed.
Lemma find_assign_ne k v m x : x <> k -> find x (assign k v m) = find x m.
Proof. intros Hn. by rewrite find_assign, cmp_ne. Qed.
Lemma find_assign_eq k v w m : find k m = Some w -> find k (assign k v m) = Some v.
Proof. intros E. by rewrite find_assign, cmp_refl, E. Qed.
Lemma find_erase_ne k m x : x <> k -> find x (erase k m) = find x m.
Proof. intros Hn. by rewrite find_erase, cmp_ne. Qed.
Lemma assign_map_ok k v m : map_ok m -> map_ok (assign k v m).
Proof. intros Hs. by rewrite assign_keys. Qed.
Lemma find_filter_some (f : K * V -> bool) m k v : map_ok m -> find k (List.filter f m) = Some v <->
  find k m = Some v /\ f (k, v) = true.
Proof.
  intros Hs. rewrite !find_In by (done || by apply filter_ok). by rewrite list_elem_of_In, filter_In, <- list_elem_of_In.
Qed.

Lemma adopt_sequence_ok l : map_ok (adopt_sequence l).
Proof.
  unfold adopt_sequence. assert (Hi : map_ok ([] : omap)) by constructor. revert Hi. generalize ([] : omap) as m.
  induction l as [|[k v] l IH]; intros m Hm; cbn; [done|]. by apply IH, emplace_ok.
Qed.
Lemma adopt_sequence_keys l x : x ∈ map fst (adopt_sequence l) <-> x ∈ map fst l.
Proof.
  unfold adopt_sequence. transitivity (x ∈ map fst ([] : omap) \/ x ∈ map fst l); [|cbn; rewrite elem_of_nil; tauto].
  generalize ([] : omap) as m.
  induction l as [|[k v] l IH]; intros m; cbn; [rewrite elem_of_nil; tauto|]. rewrite IH, emplace_keys, elem_of_cons. tauto.
Qed.
Lemma adopt_sequence_elem l x : x ∈ adopt_sequence l -> x ∈ l.
Proof.
  unfold adopt_sequence. cut (forall m, x ∈ foldl (fun m '(k, v) => emplace k v m) m l -> x ∈ m \/ x ∈ l).
  { intros Hc Hx. destruct (Hc [] Hx) as [Hn|]; [by apply elem_of_nil in Hn|done]. }
  induction l as [|[k v] l IH]; intros m Hx; cbn in Hx; [by left|]. rewrite elem_of_cons.
  destruct (IH _ Hx) as [Hm|]; [|tauto]. assert (Hk : x = (k, v) \/ x ∈ m); [|tauto]. clear -Hm H0.
  induction m as [|[k' v'] m IH]; cbn in *; [apply list_elem_of_singleton in Hm; tauto|].
  destruct (cmp k k'); rewrite !elem_of_cons in *; tauto.
Qed.
Lemma length_emplace k v m : k ∉ map fst m -> length (emplace k v m) = S (length m).
Proof.
  induction m as [|[k' v'] m IH]; cbn; [done|]. rewrite not_elem_of_cons. intros [Hne Hn].
  destruct (cmp k k') eqn:E; cbn; [by apply cmp_eq in E|done|]. by rewrite IH.
Qed.
Lemma adopt_sequence_length l : NoDup (map fst l) -> length (adopt_sequence l) = length l.
Proof.
  unfold adopt_sequence. change (length l) with (length ([] : omap) + length l)%nat.
  assert (Hd : forall x, x ∈ map fst ([] : omap) -> x ∉ map fst l) by (intros ? ?%elem_of_nil; done). revert Hd.
  generalize ([] : omap) as m. induction l as [|[k v] l IH]; intros m Hd Hn; cbn; [lia|].
  cbn in Hn. apply NoDup_cons in Hn as [Hk Hn]. rewrite IH; [| |done].
  - rewrite length_emplace; [lia|]. intros Hin. apply (Hd k Hin). constructor.
  - intros x [->|Hx]%emplace_keys; [done|]. specialize (Hd x Hx). cbn in Hd. by apply not_elem_of_cons in Hd as [].
Qed.
End map.
Abbreviation omap K V := (list (K * V)).
Abbreviation map_ok m := (sorted (map fst m)).
