(* ===== verification/Routing.v ===== *)
(** * psibase: routes between nodes

    [shortest_path_routing] of [libraries/net/include/psibase/shortest_path_routing.hpp]:
    a node keeps for each producer the routes that its peers advertise, selects the
    shortest of the feasible ones, and advertises it to its peers.  The handlers return
    the new state and the messages that they send, in order.  The consensus is an
    argument: the name of the producer of the node and the active producers. *)

From S2P Require Import Prelude Ordered.

(** ** Sequence numbers, metrics and feasibility *)

Abbreviation u16 := (wrap 16).

Definition seqno_lt (lhs rhs : Z) : bool := negb (lhs =? rhs) && (Z.land (rhs - lhs) 0x8000 =? 0).
Definition seqno_ge (lhs rhs : Z) : bool := negb (seqno_lt lhs rhs).
Definition seqno_add (value i : Z) : Z := u16 (value + i).

Definition infinite : Z := 0xffff.
Definition metric_add (lhs rhs : Z) : Z := if infinite <? lhs + rhs then infinite else u16 (lhs + rhs).

Record Feasibility := { f_seqno : Z; f_metric : Z }.
Definition feasibility_lt (lhs rhs : Feasibility) : bool :=
  seqno_lt (f_seqno rhs) (f_seqno lhs) || (f_seqno lhs =? f_seqno rhs) && (f_metric lhs <? f_metric rhs).

(** ** Messages *)

Inductive message :=
| InitMessage (version : Z)
| RoutingEnvelope (destination : Z) (data : bytes)
| RouteUpdateMessage (producer seqno metric : Z) (router : option Z)
| RouteSeqnoRequest (producer seqno ttl : Z)
| RequestRoutesMessage
(** The messages of the consensus, and those that are serialized already. *)
| Serialized (data : bytes).

Abbreviation sends := (list (Z * message)).

(** ** State *)

Record RouteData := { rd_seqno : Z; rd_metric : Z }.
Definition rd_feasibility (d : RouteData) : Feasibility := {| f_seqno := rd_seqno d; f_metric := rd_metric d |}.
Record CachedSeqnoRequest := { cr_seqno : Z; cr_time : Z }.

(** A route is of a producer, a router and a peer; a source of a producer and a router. *)
Abbreviation RouteKey := (Z * (Z * Z))%type.
Abbreviation SourceKey := (Z * Z)%type.
Definition key_producer (k : RouteKey) : Z := k.1.
Definition key_router (k : RouteKey) : Z := k.2.1.
Definition key_peer (k : RouteKey) : Z := k.2.2.
Definition sourceKey (k : RouteKey) : SourceKey := (k.1, k.2.1).

Record routing := {
  routerId : Z;
  seqno : Z;
  lastSeqnoUpdate : Z;
  neighborTable : omap Z Z;
  routeTable : omap RouteKey RouteData;
  sourceTable : omap SourceKey Feasibility;
  selectedRoutes : omap Z (Z * Z);
  recentSeqnoRequests : omap Z CachedSeqnoRequest;
  seqnoTimer : option Z;
  deferredMessages : list (Z * (bytes * bytes))
}.

Definition with_seqno (r : routing) (n t : Z) : routing :=
  {| routerId := routerId r; seqno := n; lastSeqnoUpdate := t; neighborTable := neighborTable r; routeTable := routeTable r; sourceTable := sourceTable r;
     selectedRoutes := selectedRoutes r; recentSeqnoRequests := recentSeqnoRequests r; seqnoTimer := seqnoTimer r; deferredMessages := deferredMessages r |}.
Definition with_tables (r : routing) nt rt st sr : routing :=
  {| routerId := routerId r; seqno := seqno r; lastSeqnoUpdate := lastSeqnoUpdate r; neighborTable := nt; routeTable := rt; sourceTable := st;
     selectedRoutes := sr; recentSeqnoRequests := recentSeqnoRequests r; seqnoTimer := seqnoTimer r; deferredMessages := deferredMessages r |}.
Definition with_neighbors r nt := with_tables r nt (routeTable r) (sourceTable r) (selectedRoutes r).
Definition with_routes r rt := with_tables r (neighborTable r) rt (sourceTable r) (selectedRoutes r).
Definition with_sources r st := with_tables r (neighborTable r) (routeTable r) st (selectedRoutes r).
Definition with_selected r sr := with_tables r (neighborTable r) (routeTable r) (sourceTable r) sr.
Definition with_requests (r : routing) rq t : routing :=
  {| routerId := routerId r; seqno := seqno r; lastSeqnoUpdate := lastSeqnoUpdate r; neighborTable := neighborTable r; routeTable := routeTable r; sourceTable := sourceTable r;
     selectedRoutes := selectedRoutes r; recentSeqnoRequests := rq; seqnoTimer := t; deferredMessages := deferredMessages r |}.
Definition with_deferred (r : routing) d : routing :=
  {| routerId := routerId r; seqno := seqno r; lastSeqnoUpdate := lastSeqnoUpdate r; neighborTable := neighborTable r; routeTable := routeTable r; sourceTable := sourceTable r;
     selectedRoutes := selectedRoutes r; recentSeqnoRequests := recentSeqnoRequests r; seqnoTimer := seqnoTimer r; deferredMessages := d |}.

(** The constructor; [routerId] is random. *)
Definition initial_routing (id : Z) : routing :=
  {| routerId := id; seqno := 0; lastSeqnoUpdate := 0; neighborTable := []; routeTable := []; sourceTable := []; selectedRoutes := [];
     recentSeqnoRequests := []; seqnoTimer := None; deferredMessages := [] |}.

(** What the node knows of the consensus. *)
Record consensus := { producer_name : Z; is_producer : Z -> bool }.

(** ** Selecting routes *)

Definition multicast (r : routing) (msg : message) : sends := map (fun e => (e.1, msg)) (neighborTable r).

Definition getMetric (r : routing) (peer : Z) (d : RouteData) : Z :=
  match find peer (neighborTable r) with
  | None => infinite
  | Some transmissionCost => metric_add (rd_metric d) transmissionCost
  end.

Definition isFeasible (r : routing) (route : RouteKey * RouteData) : bool :=
  if rd_metric route.2 =? infinite then true
  else match find (sourceKey route.1) (sourceTable r) with
       | None => true
       | Some f => feasibility_lt (rd_feasibility route.2) f
       end.

(** [selectRoute] of a route: its source is updated and the route is advertised when it
    is new, or when its peer is the one that was heard from. *)
Definition commit_route (r : routing) (route : RouteKey * RouteData) (updatedRoute : Z) : routing * sends :=
  let key := route.1 in
  let selected := (key_router key, key_peer key) in
  let '(updated, sr) :=
    match find (key_producer key) (selectedRoutes r) with
    | None => (true, emplace (key_producer key) selected (selectedRoutes r))
    | Some old => if bool_decide (old = selected) then (false, selectedRoutes r) else (true, assign (key_producer key) selected (selectedRoutes r))
    end in
  let r := with_selected r sr in
  if updated || (key_peer key =? updatedRoute) then
    let metric := getMetric r (key_peer key) route.2 in
    let feasibility := {| f_seqno := rd_seqno route.2; f_metric := metric |} in
    let st :=
      match find (sourceKey key) (sourceTable r) with
      | None => emplace (sourceKey key) feasibility (sourceTable r)
      | Some f => if feasibility_lt feasibility f then assign (sourceKey key) feasibility (sourceTable r) else sourceTable r
      end in
    (with_sources r st, multicast r (RouteUpdateMessage (key_producer key) (rd_seqno route.2) metric (Some (key_router key))))
  else (r, []).

Definition getRoutes (r : routing) (producer : Z) : list (RouteKey * RouteData) :=
  List.filter (fun e => key_producer e.1 =? producer) (routeTable r).

Definition sendSeqnoRequest (r : routing) (producer router : Z) : sends :=
  match find (producer, router) (sourceTable r) with
  | None => []
  | Some f => multicast r (RouteSeqnoRequest producer (seqno_add (f_seqno f) 1) 64)
  end.

(** The first of the feasible routes with the least metric. *)
Definition better (r : routing) (best : option (RouteKey * RouteData) * Z) (route : RouteKey * RouteData) : option (RouteKey * RouteData) * Z :=
  if isFeasible r route then
    let metric := getMetric r (key_peer route.1) route.2 in
    if metric <? best.2 then (Some route, metric) else best
  else best.
Definition selectRoute (r : routing) (producer updated : Z) : routing * sends :=
  match (foldl (better r) (None, infinite) (getRoutes r producer)).1 with
  | Some best => commit_route r best updated
  | None =>
      match find producer (selectedRoutes r) with
      | None => (r, [])
      | Some removed =>
          let r := with_selected r (erase producer (selectedRoutes r)) in
          (r, multicast r (RouteUpdateMessage producer 0 infinite (Some removed.1)) ++ sendSeqnoRequest r producer removed.1)
      end
  end.

Definition updateRoute (r : routing) (key : RouteKey) (d : RouteData) (msg_seqno msg_metric : Z) : routing * sends :=
  if negb (rd_metric d =? msg_metric) || negb (rd_seqno d =? msg_seqno) then
    let r := with_routes r (assign key {| rd_seqno := msg_seqno; rd_metric := msg_metric |} (routeTable r)) in
    selectRoute r (key_producer key) (key_peer key)
  else (r, []).

(** ** Connections *)

Definition route_update (r : routing) (producer : Z) (selected : Z * Z) (d : RouteData) : message :=
  RouteUpdateMessage producer (rd_seqno d) (getMetric r selected.2 d) (Some selected.1).

Definition send_routes (c : consensus) (r : routing) (peer : Z) : sends :=
  flat_map (fun e =>
    match find (e.1, e.2) (routeTable r) with
    | Some d => [(peer, route_update r e.1 e.2 d)]
    | None => []
    end) (selectedRoutes r) ++
  (if is_producer c (producer_name c) then [(peer, RouteUpdateMessage (producer_name c) (seqno r) 0 (Some (routerId r)))] else []).

Definition connect (c : consensus) (r : routing) (peer : Z) : routing * sends :=
  let r := with_neighbors r (emplace peer 1 (neighborTable r)) in
  (r, (peer, InitMessage 0) :: send_routes c r peer).

Definition reselect (peer : Z) (rs : routing * sends) (producer : Z) : routing * sends :=
  let '(r, out) := rs in
  match find producer (selectedRoutes r) with
  | Some selected =>
      if selected.2 =? peer then let '(r, out') := selectRoute r producer peer in (r, out ++ out') else (r, out)
  | None => (r, out)
  end.
Definition disconnect (r : routing) (peer : Z) : routing * sends :=
  let r := with_routes r (List.filter (fun e => negb (key_peer e.1 =? peer)) (routeTable r)) in
  let r := with_neighbors r (erase peer (neighborTable r)) in
  foldl (reselect peer) (r, []) (map fst (selectedRoutes r)).

(** Routes to accounts that are not producers, or to this node, are forgotten. *)
Definition on_producer_change (c : consensus) (r : routing) : routing * sends :=
  let keep producer := is_producer c producer && negb (producer =? producer_name c) in
  let r := with_tables r (neighborTable r)
    (List.filter (fun e => keep (key_producer e.1)) (routeTable r))
    (List.filter (fun e => keep e.1.1) (sourceTable r))
    (List.filter (fun e => keep e.1) (selectedRoutes r)) in
  (r, (if is_producer c (producer_name c) then multicast r (RouteUpdateMessage (producer_name c) (seqno r) 0 (Some (routerId r))) else []) ++
      multicast r RequestRoutesMessage).

(** ** Messages of the protocol *)

Definition recv_update (c : consensus) (r : routing) (peer producer msg_seqno msg_metric : Z) (router : option Z) : routing * sends :=
  if producer =? producer_name c then (r, [])
  else if negb (is_producer c producer) then (r, [])
  else
    let routeKey := (producer, (default 0 router, peer)) in
    match find routeKey (routeTable r) with
    | None =>
        if negb (msg_metric =? infinite) then
          let r := with_routes r (emplace routeKey {| rd_seqno := msg_seqno; rd_metric := msg_metric |} (routeTable r)) in
          selectRoute r producer peer
        else (r, [])
    | Some d => updateRoute r routeKey d msg_seqno msg_metric
    end.

(** The update of the selected route: its sequence number, its metric and the message. *)
Definition makeUpdate (r : routing) (producer : Z) : Z * Z * message :=
  match find producer (selectedRoutes r) with
  | Some selected =>
      match find (producer, selected) (routeTable r) with
      | Some d => (rd_seqno d, getMetric r selected.2 d, route_update r producer selected d)
      | None => (0, infinite, RouteUpdateMessage producer 0 infinite None)
      end
  | None => (0, infinite, RouteUpdateMessage producer 0 infinite None)
  end.

Definition trySend (r : routing) (prod : Z) (msg : message) : option sends :=
  match find prod (selectedRoutes r) with
  | Some selected => Some [(selected.2, msg)]
  | None => None
  end.
Definition is_reachable (r : routing) (prod : Z) : bool := match find prod (selectedRoutes r) with Some _ => true | None => false end.

(** Times are in nanoseconds. *)
Definition minSeqnoUpdateInterval : Z := 10 ^ 9.
Definition seqnoCacheMaxAge : Z := 30 * 10 ^ 9.

Definition incrementSeqno (c : consensus) (r : routing) (now : Z) : routing * sends :=
  if minSeqnoUpdateInterval <? now - lastSeqnoUpdate r then
    let r := with_seqno r (seqno_add (seqno r) 1) now in
    (r, multicast r (RouteUpdateMessage (producer_name c) (seqno r) 0 (Some (routerId r))))
  else (with_requests r (recentSeqnoRequests r) (Some (lastSeqnoUpdate r + minSeqnoUpdateInterval)), []).

Definition cacheSeqnoRequest (r : routing) (producer msg_seqno now : Z) : bool * routing :=
  let entry := {| cr_seqno := msg_seqno; cr_time := now |} in
  match find producer (recentSeqnoRequests r) with
  | None => (true, with_requests r (emplace producer entry (recentSeqnoRequests r)) (seqnoTimer r))
  | Some e =>
      if (now - cr_time e <=? seqnoCacheMaxAge) && (cr_seqno e =? msg_seqno) then (false, r)
      else (true, with_requests r (assign producer entry (recentSeqnoRequests r)) (seqnoTimer r))
  end.

(** The peer of the first route with the least metric, feasible or not. *)
Definition shorter (r : routing) (best : option Z * Z) (route : RouteKey * RouteData) : option Z * Z :=
  let metric := getMetric r (key_peer route.1) route.2 in
  if metric <? best.2 then (Some (key_peer route.1), metric) else best.
Definition forwardSeqnoRequest (r : routing) (producer msg_seqno ttl now : Z) : routing * sends :=
  let msg := RouteSeqnoRequest producer msg_seqno (u16 (ttl - 1)) in
  let '(fresh, r) := cacheSeqnoRequest r producer msg_seqno now in
  if fresh then
    match trySend r producer msg with
    | Some out => (r, out)
    | None =>
        match (foldl (shorter r) (None, infinite) (getRoutes r producer)).1 with
        | Some bestRoute => (r, [(bestRoute, msg)])
        | None => (r, [])
        end
    end
  else (r, []).

Definition recv_seqno_request (c : consensus) (r : routing) (peer producer msg_seqno ttl now : Z) : routing * sends :=
  let '(response_seqno, response_metric, response) := makeUpdate r producer in
  if negb (response_metric =? infinite) && seqno_ge response_seqno msg_seqno then (r, [(peer, response)])
  else if producer =? producer_name c then incrementSeqno c r now
  else if 2 <=? ttl then forwardSeqnoRequest r producer msg_seqno ttl now
  else (r, []).

(** ** Messages of the consensus *)

Section envelopes.
Context (serialize : message -> bytes) (peer_has_block : Z -> bytes -> bool).

(** A message that refers to a block waits until the peer has the block. *)
Definition send_after_block (r : routing) (peer : Z) (blockid : bytes) (msg : message) : routing * sends :=
  if peer_has_block peer blockid then (r, [(peer, msg)])
  else (with_deferred r (insert_unique (peer, (blockid, serialize msg)) (deferredMessages r)), []).

Definition on_peer_block (r : routing) (peer : Z) (blockid : bytes) : routing * sends :=
  let matching (e : Z * (bytes * bytes)) := bool_decide ((e.1, e.2.1) = (peer, blockid)) in
  (with_deferred r (List.filter (fun e => negb (matching e)) (deferredMessages r)),
   map (fun e => (peer, Serialized e.2.2)) (List.filter matching (deferredMessages r))).

Definition sendto (r : routing) (producer : Z) (msg : message) : sends :=
  default [] (trySend r producer (RoutingEnvelope producer (serialize msg))).
Definition sendto_after (r : routing) (producer : Z) (id : bytes) (msg : message) : routing * sends :=
  match find producer (selectedRoutes r) with
  | Some selected => send_after_block r selected.2 id (RoutingEnvelope producer (serialize msg))
  | None => (r, [])
  end.

Definition multicast_producers (r : routing) (msg : message) : sends := flat_map (fun e => sendto r e.1 msg) (selectedRoutes r).
Definition each_send (f : routing -> Z -> routing * sends) (rs : routing * sends) (x : Z) : routing * sends :=
  let '(r, out) := rs in let '(r, out') := f r x in (r, out ++ out').
Definition multicast_after (r : routing) (id : bytes) (msg : message) : routing * sends :=
  foldl (each_send (fun r peer => send_after_block r peer id msg)) (r, []) (map fst (neighborTable r)).
Definition multicast_producers_after (r : routing) (id : bytes) (msg : message) : routing * sends :=
  foldl (each_send (fun r producer => sendto_after r producer id msg)) (r, []) (map fst (selectedRoutes r)).

(** What [validate_message] says of the data of an envelope: nothing when the data is not
    a message of the consensus or is refused, and the block that it waits for, if any. *)
Context (validate_message : bytes -> option (option bytes)).

(** An envelope for this node is delivered; another one goes to the next node. *)
Definition recv_envelope (c : consensus) (r : routing) (destination : Z) (data : bytes) : option bytes * (routing * sends) :=
  if destination =? producer_name c then (Some data, (r, []))
  else
    (None,
     match validate_message data with
     | None => (r, [])
     | Some id =>
         match find destination (selectedRoutes r) with
         | None => (r, [])
         | Some selected =>
             match id with
             | None => (r, [(selected.2, RoutingEnvelope destination data)])
             | Some blockid => send_after_block r selected.2 blockid (RoutingEnvelope destination data)
             end
         end
     end).

(** A message from a peer: what is delivered to the consensus, and what the node does. *)
Definition recv (c : consensus) (r : routing) (peer : Z) (msg : message) (now : Z) : option bytes * (routing * sends) :=
  match msg with
  | InitMessage version => (None, if version =? 0 then (r, []) else disconnect r peer)
  | RoutingEnvelope destination data => recv_envelope c r destination data
  | RouteUpdateMessage producer s m router => (None, recv_update c r peer producer s m router)
  | RouteSeqnoRequest producer s ttl => (None, recv_seqno_request c r peer producer s ttl now)
  | RequestRoutesMessage => (None, (r, send_routes c r peer))
  | Serialized data => (Some data, (r, []))
  end.
End envelopes.
