(* ===== verification/RoutingSelect.v ===== *)
(** * psibase: selecting routes

    What [selectRoute] of [Routing] chooses and what it changes: the order of sequence
    numbers and distances, the best feasible route, and the tables that stay. *)

From S2P Require Import Prelude Ordered Routing.

(** ** Orders *)

(** Below 32768 the order of sequence numbers is that of the numbers. *)
Lemma seqno_lt_small a b : 0 <= a < 2 ^ 15 -> 0 <= b < 2 ^ 15 -> seqno_lt a b = (a <? b).
Proof.
  intros Ha Hb. unfold seqno_lt. change 0x8000 with (2 ^ 15).
  assert (Hl : (Z.land (b - a) (2 ^ 15) =? 0) = negb (Z.testbit (b - a) 15)).
  { destruct (Z.testbit (b - a) 15) eqn:E; [apply Z.eqb_neq|apply Z.eqb_eq].
    - intros H0. apply (f_equal (fun z => Z.testbit z 15)) in H0.
      rewrite Z.land_spec, E, Z.pow2_bits_true, Z.bits_0 in H0 by lia. done.
    - apply Z.bits_inj'. intros n Hn. rewrite Z.land_spec, Z.bits_0, Z.pow2_bits_eqb by lia.
      destruct (Z.eqb_spec 15 n) as [<-|]; [by rewrite E|by rewrite andb_false_r]. }
  rewrite Hl, Z.testbit_eqb by lia. destruct (Z.ltb_spec a b).
  - rewrite (proj2 (Z.eqb_neq a b)), Z.div_small by lia. done.
  - destruct (Z.eqb_spec a b); [done|]. replace ((b - a) / 2 ^ 15) with (-1); [done|].
    apply Z.div_unique with (b - a + 2 ^ 15); lia.
Qed.

(** Feasible distances as one number, the smaller the better. *)
Definition distance (f : Feasibility) : Z := (2 ^ 15 - f_seqno f) * 2 ^ 16 + f_metric f.

(** ** The best route *)

Definition route_metric (r : routing) (e : RouteKey * RouteData) : Z := getMetric r (key_peer e.1) e.2.
Lemma better_spec r best x : let res := better r best x in
  res.2 <= best.2 /\ (res = best \/ isFeasible r x = true /\ res = (Some x, route_metric r x) /\ res.2 < best.2) /\
  (isFeasible r x = true -> res.2 <= route_metric r x).
Proof.
  unfold better. fold (route_metric r x). destruct (isFeasible r x); cbn; [|split; [lia|]; split; [by left|done]].
  destruct (Z.ltb_spec (route_metric r x) best.2); cbn; split; try lia; (split; [|lia]); [right; done|by left].
Qed.
Lemma foldl_better r l best : let res := foldl (better r) best l in
  res.2 <= best.2 /\ (res = best \/ exists e, e ∈ l /\ isFeasible r e = true /\ res = (Some e, route_metric r e) /\ res.2 <
    best.2) /\
  forall e, e ∈ l -> isFeasible r e = true -> res.2 <= route_metric r e.
Proof.
  revert best. induction l as [|x l IH]; intros best; cbn [foldl]; [split; [lia|]; split; [by left|]; intros e ?%elem_of_nil;
    done|].
  destruct (better_spec r best x) as (Hle & Hres & Hx). destruct (IH (better r best x)) as (Hle' & Hres' & Hl). split; [lia|].
  split.
  - destruct Hres' as [->|(e & He & Hf & -> & Hlt)]; [|right; exists e; split; [by right|]; split; [done|]; split; [done|];
      lia].
    destruct Hres as [->|(Hf & -> & Hlt)]; [by left|]. right. exists x. split; [by left|done].
  - intros e [->|He]%elem_of_cons Hf; [specialize (Hx Hf); lia|by apply Hl].
Qed.

(** The route that [selectRoute] takes is feasible, and no feasible one is shorter. *)
Lemma best_route r producer best : (foldl (better r) (None, infinite) (getRoutes r producer)).1 = Some best ->
  best ∈ getRoutes r producer /\ isFeasible r best = true /\ route_metric r best < infinite /\
  forall e, e ∈ getRoutes r producer -> isFeasible r e = true -> route_metric r best <= route_metric r e.
Proof.
  intros E. destruct (foldl_better r (getRoutes r producer) (None, infinite)) as (_ & [Hr|(e & He & Hf & Hr & Hlt)] & Hall);
    cbn zeta in *.
  - rewrite Hr in E. done.
  - rewrite Hr in *. cbn in *. injection E as <-. done.
Qed.
Lemma no_route r producer : (foldl (better r) (None, infinite) (getRoutes r producer)).1 = None ->
  forall e, e ∈ getRoutes r producer -> isFeasible r e = true -> infinite <= route_metric r e.
Proof.
  intros E e He Hf. destruct (foldl_better r (getRoutes r producer) (None, infinite)) as (_ & [Hr|(x & _ & _ & Hr & _)] & Hall);
    cbn zeta in *.
  - rewrite Hr in *. by apply Hall.
  - rewrite Hr in E. done.
Qed.
Lemma getRoutes_find r producer k d : map_ok (routeTable r) -> (k, d) ∈ getRoutes r producer <->
  key_producer k = producer /\ find k (routeTable r) = Some d.
Proof.
  intros Hs. unfold getRoutes. rewrite list_elem_of_In, filter_In, <- list_elem_of_In, find_In by done. cbn. rewrite Z.eqb_eq.
  tauto.
Qed.

#[local] Set Default Proof Using "Type".

(** ** What selecting a route changes *)

Definition tables_ok (r : routing) : Prop :=
  map_ok (neighborTable r) /\ map_ok (routeTable r) /\ map_ok (sourceTable r) /\ map_ok (selectedRoutes r).
Definition same_node (r r' : routing) : Prop :=
  routerId r' = routerId r /\ seqno r' = seqno r /\ neighborTable r' = neighborTable r /\ routeTable r' = routeTable r.
(** Only the selected route and the sources of the producer [x] may change. *)
Definition same_others (x : Z) (r r' : routing) : Prop :=
  forall y, y <> x -> find y (selectedRoutes r') = find y (selectedRoutes r) /\ forall q, find (y, q) (sourceTable r') = find (y, q) (sourceTable r).
Definition about (x : Z) (m : message) : Prop :=
  match m with RouteUpdateMessage p _ _ _ | RouteSeqnoRequest p _ _ => p = x | _ => False end.

Lemma multicast_elem r m e : e ∈ multicast r m <-> e.2 = m /\ is_Some (find e.1 (neighborTable r)).
Proof.
  unfold multicast. rewrite list_elem_of_In, in_map_iff. split.
  - intros ([p c] & <- & Hin). split; [done|]. cbn. apply not_eq_None_Some. intros Hn. apply find_None in Hn. apply Hn.
    apply list_elem_of_In, in_map_iff. by exists (p, c).
  - destruct e as [p m']. cbn. intros [-> [c Hc]].
    apply find_Some_key, list_elem_of_In, in_map_iff in Hc as ([p' c'] & Hp & Hin). exists (p', c'). cbn in *. by subst.
Qed.

Lemma commit_route_frame r route upd : tables_ok r -> let '(r', out) := commit_route r route upd in
  let x := key_producer route.1 in
  tables_ok r' /\ same_node r r' /\ same_others x r r' /\ find x (selectedRoutes r') = Some (key_router route.1, key_peer
    route.1) /\
  (forall q, q <> key_router route.1 -> find (x, q) (sourceTable r') = find (x, q) (sourceTable r)) /\
  forall e, e ∈ out -> is_Some (find e.1 (neighborTable r)) /\
    e.2 = RouteUpdateMessage x (rd_seqno route.2) (getMetric r (key_peer route.1) route.2) (Some (key_router route.1)).
Proof.
  intros (Hn & Hr & Hs & Hsel). unfold commit_route. set (x := key_producer route.1).
  set (sel := (key_router route.1, key_peer route.1)).
  set (p := match find x (selectedRoutes r) with None => _ | Some old => _ end).
  assert (Hp : map_ok p.2 /\ find x p.2 = Some sel /\ forall y, y <> x -> find y p.2 = find y (selectedRoutes r)).
  { unfold p. destruct (find x (selectedRoutes r)) as [old|] eqn:E.
    - case_bool_decide as Eo; cbn; [by subst old|]. split; [by apply assign_map_ok|]. split; [by eapply find_assign_eq|].
      intros y Hy. by apply find_assign_ne.
    - cbn. split; [by apply emplace_ok|]. split; [by apply find_emplace_eq|]. intros y Hy. by apply find_emplace_ne. }
  destruct p as [updated sr]. cbn [snd] in Hp. destruct Hp as (Hp1 & Hp2 & Hp3). destruct (updated || _).
  2:{ split; [done|]. split; [done|]. split; [intros y Hy; split; [by apply Hp3|done]|]. split; [done|]. split; [done|].
  intros e ?%elem_of_nil. done. }
  set (fe := {| f_seqno := _; f_metric := _ |}). set (st := match find _ _ with None => _ | Some f => _ end).
  assert (Hst : map_ok st /\ forall k, k <> sourceKey route.1 -> find k st = find k (sourceTable r)).
  { unfold st. cbn [sourceTable with_selected with_tables]. destruct (find (sourceKey route.1) (sourceTable r)) as [f|] eqn:E.
    - destruct (feasibility_lt _ f); [|done]. split; [by apply assign_map_ok|]. intros k Hk. by apply find_assign_ne.
    - split; [by apply emplace_ok|]. intros k Hk. by apply find_emplace_ne. }
  destruct Hst as [Hst Hoth]. split; [done|]. split; [done|].
  split; [intros y Hy; split; [by apply Hp3|]; intros q; apply Hoth; unfold sourceKey; fold x; by intros [= ? _]|].
  split; [done|]. split; [intros q Hq; apply Hoth; unfold sourceKey; by intros [= ->]|].
  intros [q m] Hin%multicast_elem. cbn in *. tauto.
Qed.

Lemma selectRoute_frame r x upd : tables_ok r -> let '(r', out) := selectRoute r x upd in
  tables_ok r' /\ same_node r r' /\ same_others x r r' /\ forall e, e ∈ out ->
    is_Some (find e.1 (neighborTable r)) /\ about x e.2.
Proof.
  intros Hok. pose proof Hok as (Hn & Hr & Hs & Hsel). unfold selectRoute. destruct (foldl _ _ _).1 as [[k d]|] eqn:E.
  - apply best_route in E as ([Hx _]%getRoutes_find & _); [|done]. pose proof (commit_route_frame r (k, d) upd Hok) as Hc.
    destruct (commit_route r (k, d) upd) as [r' out]. cbn [fst] in Hc. rewrite Hx in Hc.
    destruct Hc as (? & ? & ? & _ & _ & Hout). split; [done|].
    split; [done|]. split; [done|]. intros e He. destruct (Hout e He) as [? ->]. done.
  - destruct (find x (selectedRoutes r)) as [removed|] eqn:Ex; [|split; [done|]; split; [done|]; split; [done|];
      intros e ?%elem_of_nil; done].
    split; [split; [done|]; split; [done|]; split; [done|]; by apply erase_ok|]. split; [done|].
    split; [intros y Hy; split; [by apply find_erase_ne|done]|].
    intros e [He|He]%elem_of_app; [apply multicast_elem in He as [-> He]; by split|]. unfold sendSeqnoRequest in He.
    destruct (find (x, removed.1) _); [apply multicast_elem in He as [-> He]; by split|by apply elem_of_nil in He].
Qed.
