(* ===== verification/RoutingLoops.v ===== *)
(** * psibase: routes have no loops

    What the handlers of [Routing] guarantee together, in a network of nodes that take
    steps in any order, with messages that arrive late, more than once, or never. *)

From S2P Require Import Prelude Ordered Routing RoutingSelect.

#[local] Set Default Proof Using "Type".

Section producer.
(** One producer, the router of its node, and the last sequence number of the node. *)
Context (P R N : Z) (HN : 0 <= N < 2 ^ 15).

Definition valid (f : Feasibility) : Prop := 0 <= f_seqno f <= N /\ 0 <= f_metric f < infinite.

Lemma feasibility_lt_distance f g : valid f -> valid g -> feasibility_lt f g = true <-> distance f < distance g.
Proof using HN.
  intros [Hf Hfm] [Hg Hgm]. unfold feasibility_lt, distance, infinite in *. rewrite seqno_lt_small by lia.
  rewrite orb_true_iff, andb_true_iff, Z.ltb_lt, Z.eqb_eq, Z.ltb_lt. lia.
Qed.

(** The tables of a node: routes and sources of [P] are of the router [R], and valid;
    every link costs 1. *)
Record base (r : routing) : Prop := {
  base_ok : tables_ok r;
  base_cost p c : find p (neighborTable r) = Some c -> c = 1;
  base_route k d : find k (routeTable r) = Some d -> key_producer k = P -> key_router k = R /\ (rd_metric d <> infinite -> valid (rd_feasibility d));
  base_source f : find (P, R) (sourceTable r) = Some f -> valid f;
  base_selected s : find P (selectedRoutes r) = Some s -> s.1 = R }.

(** The selected route: its distance at the peer is below the distance of the node, and
    the node has advertised no more than it adds up to. *)
Definition selected_ok (r : routing) (s : Z * Z) : Prop :=
  exists d f, find (P, s) (routeTable r) = Some d /\ is_Some (find s.2 (neighborTable r)) /\ 0 <= rd_metric d /\ rd_metric d + 1 < infinite /\
    find (P, R) (sourceTable r) = Some f /\
    distance (rd_feasibility d) < distance f <= distance {| f_seqno := rd_seqno d; f_metric := rd_metric d + 1 |}.

Definition within (r : routing) (f : Feasibility) : Prop := exists g, find (P, R) (sourceTable r) = Some g /\ distance g <= distance f.
Definition improves (r r' : routing) : Prop := forall f, within r f -> within r' f.

(** What an update about [P] promises. *)
Definition advertised (r : routing) (m : message) : Prop :=
  match m with
  | RouteUpdateMessage p s mt router =>
      p = P -> router = Some R /\ (mt <> infinite -> valid {| f_seqno := s; f_metric := mt |} /\ within r {| f_seqno := s; f_metric := mt |})
  | _ => True
  end.

Lemma getMetric_finite r p d : base r -> 0 <= rd_metric d -> getMetric r p d < infinite ->
  is_Some (find p (neighborTable r)) /\ rd_metric d + 1 < infinite /\ getMetric r p d = rd_metric d + 1.
Proof.
  intros Hb H0. unfold getMetric, metric_add. destruct (find p (neighborTable r)) as [c|] eqn:E; [|lia].
  rewrite (base_cost r Hb _ _ E). destruct (Z.ltb_spec infinite (rd_metric d + 1)); [lia|]. unfold infinite in *.
  rewrite wrap_small by (change (2 ^ 16) with 65536; lia). split; [by eexists|lia].
Qed.

(** The source after committing: either nothing changed at all, or it is at most what
    it was and what is advertised. *)
Lemma commit_route_source r k d upd : base r -> find k (routeTable r) = Some d -> key_producer k = P ->
  isFeasible r (k, d) = true ->
  route_metric r (k, d) < infinite -> let '(r', out) := commit_route r (k, d) upd in
  (out = [] /\ sourceTable r' = sourceTable r /\ find P (selectedRoutes r) = Some (R, key_peer k) /\ key_peer k <> upd) \/
  exists g, find (P, R) (sourceTable r') = Some g /\ valid g /\ (forall f, within r f -> distance g <= distance f) /\
    distance (rd_feasibility d) < distance g <= distance {| f_seqno := rd_seqno d; f_metric := rd_metric d + 1 |}.
Proof using HN.
  intros Hb Hk HP Hf Hm. destruct (base_route r Hb _ _ Hk HP) as [HR Hv]. assert (Hi : rd_metric d <> infinite).
  { intros Hi. unfold route_metric in Hm. cbn [fst snd] in Hm.
    apply getMetric_finite in Hm; [unfold infinite in *; lia|done|unfold infinite in *; lia]. }
  specialize (Hv Hi). assert (H0 : 0 <= rd_metric d) by apply Hv.
  destruct (getMetric_finite r (key_peer k) d Hb H0 Hm) as (_ & Hlt & Hmet).
  unfold isFeasible in Hf. cbn [fst snd] in Hf. rewrite (proj2 (Z.eqb_neq _ _) Hi) in Hf. unfold sourceKey in Hf.
  change (k.1) with (key_producer k) in Hf.
  change (k.2.1) with (key_router k) in Hf. rewrite HP, HR in Hf. unfold commit_route. cbn [fst snd]. unfold sourceKey.
  change (k.1) with (key_producer k).
  change (k.2.1) with (key_router k). rewrite HP, HR.
  set (p := match find P (selectedRoutes r) with None => _ | Some old => _ end).
  assert (Hp : p.1 = false -> find P (selectedRoutes r) = Some (R, key_peer k)).
  { unfold p. destruct (find P (selectedRoutes r)) as [old|]; [|done]. case_bool_decide as Eo; [by subst old|done]. }
  destruct p as [updated sr]. cbn [fst] in Hp. cbn [sourceTable with_selected with_tables].
  change (getMetric (with_selected r sr)) with (getMetric r). rewrite Hmet.
  set (fe := {| f_seqno := rd_seqno d; f_metric := rd_metric d + 1 |}).
  assert (Hfe : valid fe) by (destruct Hv; split; cbn in *; lia).
  assert (Hd : distance (rd_feasibility d) < distance fe) by (unfold distance; cbn; lia).
  destruct (updated || _) eqn:Eu; [right|left; apply orb_false_iff in Eu as [-> Eu]; repeat split;
    [by apply Hp|by apply Z.eqb_neq]].
  cbn [sourceTable with_sources with_tables]. destruct (find (P, R) (sourceTable r)) as [f|] eqn:E.
  - pose proof (base_source r Hb f E) as Hvf. apply feasibility_lt_distance in Hf; [|done|done].
    destruct (feasibility_lt fe f) eqn:Ef.
    + apply feasibility_lt_distance in Ef; [|done|done]. exists fe. split; [by eapply find_assign_eq|]. split; [done|].
      split; [|lia]. intros g (g' & Hg & Hle). rewrite E in Hg. injection Hg as <-. lia.
    + assert (~ distance fe < distance f) by (rewrite <- feasibility_lt_distance by done; by rewrite Ef). exists f.
      split; [done|]. split; [done|].
      split; [|lia]. intros g (g' & Hg & Hle). rewrite E in Hg. by injection Hg as <-.
  - exists fe. split; [apply find_emplace_eq; [apply Hb|done]|]. split; [done|]. split; [|lia]. intros g (g' & Hg & _).
    rewrite E in Hg. done.
Qed.

(** Committing to a feasible route of [P]. *)
Lemma commit_route_ok r k d upd : base r -> find k (routeTable r) = Some d -> key_producer k = P ->
  isFeasible r (k, d) = true ->
  route_metric r (k, d) < infinite -> (forall s, find P (selectedRoutes r) = Some s -> s.2 <> upd -> selected_ok r s) ->
  let '(r', out) := commit_route r (k, d) upd in
  base r' /\ (forall s, find P (selectedRoutes r') = Some s -> selected_ok r' s) /\ improves r r' /\ forall e, e ∈ out ->
    advertised r' e.2.
Proof using HN.
  intros Hb Hk HP Hf Hm Hsel. destruct (base_route r Hb _ _ Hk HP) as [HR Hv].
  pose proof (commit_route_source r k d upd Hb Hk HP Hf Hm) as Hs.
  pose proof (commit_route_frame r (k, d) upd (base_ok r Hb)) as Hfr.
  assert (H0 : 0 <= rd_metric d) by (destruct (decide (rd_metric d = infinite)) as [->|Hi]; [unfold infinite;
    lia|apply (Hv Hi)]).
  destruct (getMetric_finite r (key_peer k) d Hb H0 Hm) as (Hnb & Hlt & Hmet). destruct (commit_route r (k, d) upd) as [r' out].
  cbn [fst snd] in Hfr.
  rewrite HP, HR in Hfr. destruct Hfr as (Hok & (_ & _ & En & Er) & _ & Hsel' & _ & Hout).
  assert (Hv' : valid (rd_feasibility d)) by (apply Hv; unfold infinite in *; lia).
  assert (Hkey : k = (P, (R, key_peer k))) by (destruct k as [? [? ?]]; cbn in *; congruence).
  assert (Hbase : (forall f, find (P, R) (sourceTable r') = Some f -> valid f) -> base r').
  { intros Hsrc. split; [done|rewrite En; apply Hb|rewrite Er; apply Hb|done|]. intros s'. rewrite Hsel'. by intros [= <-]. }
  destruct Hs as [(-> & Es & Ecur & Hne)|(g & Hg & Hvg & Hold & Hlo & Hhi)].
  - split; [apply Hbase; rewrite Es; apply Hb|].
    split; [|split; [intros f; unfold within; by rewrite Es|intros e ?%elem_of_nil; done]].
    intros s'. rewrite Hsel'. intros [= <-]. specialize (Hsel _ Ecur Hne). unfold selected_ok in *. by rewrite Er, En, Es.
  - split; [apply Hbase; intros f; rewrite Hg; by intros [= <-]|]. split; [|split].
    + intros s'. rewrite Hsel'. intros [= <-]. exists d, g. rewrite Er, En, Hkey in *. done.
    + intros f Hf'. exists g. split; [done|by apply Hold].
    + intros e He. destruct (Hout e He) as [_ ->]. cbn. intros _. rewrite Hmet. split; [done|]. intros _. split; [|by exists g].
      destruct Hv'. split; cbn in *; lia.
Qed.

Definition node_ok (r : routing) : Prop := base r /\ forall s, find P (selectedRoutes r) = Some s -> selected_ok r s.

(** Selecting a route of [P], when only routes of the peer [upd] have changed. *)
Lemma selectRoute_P r upd : base r -> (forall s, find P (selectedRoutes r) = Some s -> s.2 <> upd -> selected_ok r s) ->
  let '(r', out) := selectRoute r P upd in node_ok r' /\ improves r r' /\ forall e, e ∈ out -> advertised r' e.2.
Proof using HN.
  intros Hb Hsel. pose proof (selectRoute_frame r P upd (base_ok r Hb)) as Hfr. unfold selectRoute in *.
  destruct (foldl _ _ _).1 as [[k d]|] eqn:E.
  - apply best_route in E as ([HP Hk]%getRoutes_find & Hf & Hm & _); [|apply Hb].
    pose proof (commit_route_ok r k d upd Hb Hk HP Hf Hm Hsel) as Hc. destruct (commit_route r (k, d) upd) as [r' out].
    destruct Hc as (? & ? & ? & ?). split; [by split|by split].
  - destruct (find P (selectedRoutes r)) as [removed|] eqn:Ex.
    2:{ split; [split; [done|]; intros s' Hs'; congruence|]. split; [by intros f|]. intros e ?%elem_of_nil. done. }
    destruct Hfr as (Hok & _ & _ & _). assert (Hnone : find P (erase P (selectedRoutes r)) = None) by by rewrite find_erase,
      cmp_refl.
    split; [split; [|intros s'; cbn; by rewrite Hnone]|].
    { split; [done|apply Hb|apply Hb|apply Hb|]. intros s'. cbn. by rewrite Hnone. }
    split; [by intros f|]. intros e [He|He]%elem_of_app.
    + apply multicast_elem in He as [-> _]. cbn. intros _. split; [|done]. by rewrite (base_selected r Hb _ Ex).
    + unfold sendSeqnoRequest in He. destruct (find (P, removed.1) _); [apply multicast_elem in He as [-> _];
        done|by apply elem_of_nil in He].
Qed.

(** Selecting a route of another producer. *)
Lemma selectRoute_frame_P r x upd : base r -> x <> P -> let '(r', out) := selectRoute r x upd in
  base r' /\ find P (selectedRoutes r') = find P (selectedRoutes r) /\ (forall s, selected_ok r s -> selected_ok r' s) /\
  improves r r' /\ forall e, e ∈ out -> advertised r' e.2.
Proof.
  intros Hb Hx. pose proof (selectRoute_frame r x upd (base_ok r Hb)) as Hfr. destruct (selectRoute r x upd) as [r' out].
  destruct Hfr as (Hok & (_ & _ & En & Er) & Hoth & Hout). destruct (Hoth P ltac:(congruence)) as [Es Eq].
  split; [split; [done|rewrite En; apply Hb|rewrite Er; apply Hb|rewrite Eq; apply Hb|rewrite Es; apply Hb]|]. split; [done|].
  split; [intros s' Hs'; unfold selected_ok; by rewrite En, Er, Eq|]. split; [intros f; unfold within; by rewrite Eq|].
  intros e He. destruct (Hout e He) as [_ Ha]. destruct (e.2); try done. cbn in *. intros ->. by subst.
Qed.
Lemma selectRoute_ok r x upd : base r -> (forall s, find P (selectedRoutes r) = Some s -> x <> P \/ s.2 <> upd -> selected_ok r
  s) ->
  let '(r', out) := selectRoute r x upd in node_ok r' /\ improves r r' /\ forall e, e ∈ out -> advertised r' e.2.
Proof using HN.
  intros Hb Hsel. destruct (decide (x = P)) as [->|Hx]; [apply selectRoute_P; auto|].
  pose proof (selectRoute_frame_P r x upd Hb Hx) as H. destruct (selectRoute r x upd) as [r' out].
  destruct H as (Hb' & Es & Hok & Hrest). split; [|done].
  split; [done|]. intros s Hs. rewrite Es in Hs. auto.
Qed.


(** ** The handlers *)

Definition same_tables (r r' : routing) : Prop :=
  neighborTable r' = neighborTable r /\ routeTable r' = routeTable r /\ sourceTable r' = sourceTable r /\ selectedRoutes r' = selectedRoutes r.
Lemma node_ok_same r r' : same_tables r r' -> node_ok r -> node_ok r'.
Proof.
  intros (En & Er & Es & Esel) [Hb Hsel]. split.
  - destruct Hb. split; rewrite ?En, ?Er, ?Es, ?Esel; try done. unfold tables_ok in *. by rewrite En, Er, Es, Esel.
  - unfold selected_ok in *. by rewrite En, Er, Es, Esel.
Qed.
Lemma improves_same r r' : same_tables r r' -> improves r r'.
Proof. intros (_ & _ & Es & _) f. unfold within. by rewrite Es. Qed.
Lemma improves_trans r1 r2 r3 : improves r1 r2 -> improves r2 r3 -> improves r1 r3.
Proof. intros H1 H2 f Hf. auto. Qed.
Lemma advertised_improves r r' m : improves r r' -> advertised r m -> advertised r' m.
Proof. intros Hi. destruct m; try done. cbn. intros H HP. destruct (H HP) as [? Hm]. split; [done|]. intros Hf.
destruct (Hm Hf). auto. Qed.

(** What a handler leaves and sends. *)
Definition handled (r : routing) (res : routing * sends) : Prop :=
  node_ok res.1 /\ improves r res.1 /\ forall e, e ∈ res.2 -> advertised res.1 e.2.
Lemma handled_none r : node_ok r -> handled r (r, []).
Proof. intros H. split; [done|]. split; [by intros f|]. intros e ?%elem_of_nil. done. Qed.
Lemma handled_trans r1 r2 out1 res : improves r1 r2 -> (forall e, e ∈ out1 -> advertised r2 e.2) -> handled r2 res ->
  handled r1 (res.1, out1 ++ res.2).
Proof.
  intros H12 Hout (H1 & H2 & H3). split; [done|]. split; [by eapply improves_trans|].
  intros e [He|He]%elem_of_app; [|by apply H3].
  eapply advertised_improves; [exact H2|by apply Hout].
Qed.
Lemma selectRoute_handled r x upd : base r -> (forall s, find P (selectedRoutes r) = Some s -> x <> P \/ s.2 <> upd ->
  selected_ok r s) ->
  handled r (selectRoute r x upd).
Proof using HN. intros Hb Hsel. pose proof (selectRoute_ok r x upd Hb Hsel) as H. destruct (selectRoute r x upd). exact H. Qed.

(** Routes of the table that a peer may have changed. *)
Lemma base_routes r rt : base r -> map_ok rt ->
  (forall k d, find k rt = Some d -> key_producer k = P -> key_router k = R /\ (rd_metric d <> infinite -> valid (rd_feasibility
    d))) ->
  base (with_routes r rt).
Proof. intros [(? & ? & ? & ?) ? ? ? ?] Hs Hr. by split. Qed.
Lemma selected_ok_routes r rt s : find (P, s) rt = find (P, s) (routeTable r) -> selected_ok r s ->
  selected_ok (with_routes r rt) s.
Proof. intros E H. unfold selected_ok in *. cbn. by rewrite E. Qed.

Definition update_valid (producer s m : Z) (router : option Z) : Prop :=
  producer = P -> router = Some R /\ (m <> infinite -> valid {| f_seqno := s; f_metric := m |}).

Lemma recv_update_handled c r peer producer s m router : node_ok r -> update_valid producer s m router ->
  handled r (recv_update c r peer producer s m router).
Proof using HN.
  intros [Hb Hsel] Hu. unfold recv_update. destruct (producer =? producer_name c); [by apply handled_none|].
  destruct (negb _); [by apply handled_none|].
  set (k := (producer, (default 0 router, peer))). pose proof (base_ok r Hb) as (_ & Hrt & _).
  assert (Hnew : forall rt, map_ok rt -> find k rt = Some {| rd_seqno := s;
    rd_metric := m |} -> (forall k', k' <> k -> find k' rt = find k' (routeTable r)) ->
    handled r (selectRoute (with_routes r rt) producer peer)).
  { intros rt Hs Hk Hoth. assert (Hi : improves r (with_routes r rt)) by by intros f.
    assert (Hh : handled (with_routes r rt) (selectRoute (with_routes r rt) producer peer)).
    { apply selectRoute_handled.
      - apply base_routes; [done|done|]. intros k' d Hd HP.
        destruct (decide (k' = k)) as [->|Hne]; [|rewrite Hoth in Hd by done; by apply (base_route r Hb k')].
        rewrite Hk in Hd. injection Hd as <-. destruct (Hu HP) as [-> Hv]. done.
      - intros s' Hs' Hor. apply selected_ok_routes; [|by apply Hsel]. apply Hoth. unfold k. intros [= ? ?]. subst s'.
        cbn in Hor. destruct Hor; congruence. }
    destruct (selectRoute _ _ _) as [r' out]. apply (handled_trans r _ [] (r', out)) in Hh; [done|done|].
    intros e ?%elem_of_nil. done. }
  destruct (find k (routeTable r)) as [d|] eqn:E.
  - unfold updateRoute. destruct (_ || _); [|by apply handled_none].
    apply Hnew; [by apply assign_map_ok|by eapply find_assign_eq|].
    intros k' Hk'. by apply find_assign_ne.
  - destruct (negb (m =? infinite)); [|by apply handled_none]. apply Hnew; [by apply emplace_ok|by apply find_emplace_eq|].
    intros k' Hk'. by apply find_emplace_ne.
Qed.


(** The peer of a selected route has a route in the table. *)
Lemma selectRoute_peer r x upd peer : tables_ok r -> (forall k d, find k (routeTable r) = Some d -> key_peer k <> peer) ->
  forall s, find x (selectedRoutes (selectRoute r x upd).1) = Some s -> s.2 <> peer.
Proof.
  intros Hok Hno s. unfold selectRoute. destruct (foldl _ _ _).1 as [[k d]|] eqn:E.
  - apply best_route in E as ([Hx Hk]%getRoutes_find & _); [|apply Hok]. pose proof (commit_route_frame r (k, d) upd Hok) as Hc.
    destruct (commit_route r (k, d) upd) as [r' out]. cbn [fst] in *. rewrite Hx in Hc. destruct Hc as (_ & _ & _ & -> & _).
    intros [= <-]. by apply (Hno k d).
  - destruct (find x (selectedRoutes r)) eqn:Ex; cbn; [by rewrite find_erase, cmp_refl|by rewrite Ex].
Qed.

Lemma reselect_fold peer l r0 r out : base r -> (forall k d, find k (routeTable r) = Some d -> key_peer k <> peer) ->
  (forall s, find P (selectedRoutes r) = Some s -> s.2 <> peer -> selected_ok r s) ->
  (P ∈ l \/ forall s, find P (selectedRoutes r) = Some s -> s.2 <> peer) ->
  improves r0 r -> (forall e, e ∈ out -> advertised r e.2) -> handled r0 (foldl (reselect peer) (r, out) l).
Proof using HN.
  revert r out. induction l as [|x l IH]; intros r out Hb Hno Hweak Hdone Hi Hout; cbn [foldl].
  { destruct Hdone as [?%elem_of_nil|Hdone]; [done|]. split; [split; [done|]; intros s Hs; apply Hweak; [done|by apply Hdone]|].
    split; [done|done]. }
  assert (Hskip : (x <> P \/ forall s, find P (selectedRoutes r) = Some s -> s.2 <> peer) -> handled r0 (foldl (reselect peer)
    (r, out) l)).
  { intros Hx. apply IH; try done. destruct Hdone as [[->|]%elem_of_cons|]; [|by left|by right].
    destruct Hx as [|Hx]; [done|by right]. }
  unfold reselect at 2. destruct (find x (selectedRoutes r)) as [sel|] eqn:Ex.
  2:{ apply Hskip. destruct (decide (x = P)) as [->|]; [right; intros s; by rewrite Ex|by left]. }
  destruct (Z.eqb_spec sel.2 peer) as [Hp|Hp].
  2:{ apply Hskip. destruct (decide (x = P)) as [->|]; [right; intros s; rewrite Ex; by intros [= <-]|by left]. }
  pose proof (selectRoute_frame r x peer (base_ok r Hb)) as Hfr.
  pose proof (selectRoute_peer r x peer peer (base_ok r Hb) Hno) as Hpeer.
  destruct (decide (x = P)) as [->|HxP].
  - pose proof (selectRoute_P r peer Hb Hweak) as Hs. destruct (selectRoute r P peer) as [r' out'].
    destruct Hs as ([Hb' Hsel'] & Hi' & Hout').
    destruct Hfr as (_ & (_ & _ & _ & Er) & _).
    apply IH; [done|by rewrite Er|auto|right; exact Hpeer|by eapply improves_trans|].
    intros e [He|He]%elem_of_app; [eapply advertised_improves; [exact Hi'|]|]; auto.
  - pose proof (selectRoute_frame_P r x peer Hb HxP) as Hs. destruct (selectRoute r x peer) as [r' out'].
    destruct Hs as (Hb' & Es & Hsel' & Hi' & Hout').
    destruct Hfr as (_ & (_ & _ & _ & Er) & _). apply IH; [done|by rewrite Er|rewrite Es; auto| |by eapply improves_trans|].
    + rewrite Es. destruct Hdone as [[->|]%elem_of_cons|]; [done|by left|by right].
    + intros e [He|He]%elem_of_app; [eapply advertised_improves; [exact Hi'|]|]; auto.
Qed.


Lemma disconnect_handled r peer : node_ok r -> handled r (disconnect r peer).
Proof using HN.
  intros [Hb Hsel]. pose proof (base_ok r Hb) as (Hn & Hr & Hs & Hse). unfold disconnect. set (r1 := with_neighbors _ _).
  assert (Hrt : forall k d, find k (routeTable r1) = Some d <-> find k (routeTable r) = Some d /\ key_peer k <> peer).
  { intros k d. cbn. rewrite find_filter_some by done. by rewrite negb_true_iff, Z.eqb_neq. }
  assert (Hnt : forall p, p <> peer -> find p (neighborTable r1) = find p (neighborTable r)) by (intros p Hp;
    by apply find_erase_ne).
  apply reselect_fold.
  - split; [split; [by apply erase_ok|split; [by apply filter_ok|done]]| | |apply Hb|apply Hb].
    + intros p c. change (neighborTable r1) with (erase peer (neighborTable r)). rewrite find_erase.
      destruct (cmp p peer); [done|apply Hb..].
    + intros k d [Hk _]%Hrt. by apply Hb.
  - intros k d Hk. apply Hrt in Hk as [_ Hk]. exact Hk.
  - intros s Hs' Hp. destruct (Hsel s Hs') as (d & f & Hd & Hnb & Hrest). exists d, f. split; [apply Hrt; by split|].
    split; [by rewrite Hnt|done].
  - destruct (find P (selectedRoutes r)) as [s|] eqn:E; [left; by eapply find_Some_key|right; intros s; cbn; by rewrite E].
  - by intros f.
  - intros e ?%elem_of_nil. done.
Qed.

(** What a node says of itself. *)
Definition own_update (c : consensus) (r : routing) : message := RouteUpdateMessage (producer_name c) (seqno r) 0 (Some (routerId r)).
Definition handled_by (c : consensus) (r : routing) (res : routing * sends) : Prop :=
  node_ok res.1 /\ improves r res.1 /\ forall e, e ∈ res.2 -> advertised res.1 e.2 \/ e.2 = own_update c res.1.
Lemma handled_handled_by c r res : handled r res -> handled_by c r res.
Proof. intros (H1 & H2 & H3). split; [done|]. split; [done|]. intros e He. left. auto. Qed.

Lemma route_update_advertised r s d : node_ok r -> find P (selectedRoutes r) = Some s -> find (P, s) (routeTable r) = Some d ->
  advertised r (route_update r P s d).
Proof.
  intros [Hb Hsel] Hs Hd _. split; [by rewrite (base_selected r Hb _ Hs)|]. intros _.
  destruct (Hsel s Hs) as (d' & f & Hd' & [c Hc] & H0 & Hlt & Hf & _ & Hle).
  rewrite Hd in Hd'. injection Hd' as <-. assert (Hm : getMetric r s.2 d = rd_metric d + 1).
  { apply getMetric_finite; [done|done|]. unfold getMetric. rewrite Hc, (base_cost r Hb _ _ Hc).
    unfold metric_add, infinite in *.
    rewrite (proj2 (Z.ltb_ge _ _)) by lia. rewrite wrap_small by (change (2 ^ 16) with 65536; lia). lia. }
  rewrite Hm. split; [|by exists f]. destruct (base_route r Hb _ _ Hd eq_refl) as [_ Hv].
  destruct Hv as [Hv _]; [unfold infinite in *; lia|]. split; [exact Hv|cbn; lia].
Qed.
Lemma send_routes_advertised c r peer e : node_ok r -> e ∈ send_routes c r peer ->
  e.1 = peer /\ (advertised r e.2 \/ e.2 = own_update c r).
Proof.
  intros Hok [He|He]%elem_of_app.
  - apply list_elem_of_In, in_flat_map in He as ([x s] & Hin & He). cbn in He.
    destruct (find (x, s) (routeTable r)) as [d|] eqn:Ed; [|done].
    destruct He as [<-|[]]. split; [done|]. left. destruct (decide (x = P)) as [->|Hx]; [|done].
    apply route_update_advertised; [done| |done].
    apply find_In; [apply Hok|by apply list_elem_of_In].
  - destruct (is_producer _ _); [|by apply elem_of_nil in He]. apply list_elem_of_singleton in He as ->. split; [done|by right].
Qed.

Lemma connect_handled c r peer : node_ok r -> handled_by c r (connect c r peer).
Proof.
  intros Hok. unfold connect. set (r1 := with_neighbors _ _). pose proof Hok as [Hb Hsel].
  pose proof (base_ok r Hb) as (Hn & Hr & Hs & Hse).
  assert (Hok1 : node_ok r1).
  { split.
    - split; [split; [by apply emplace_ok|done]| |apply Hb..]. intros p c'. cbn. rewrite find_emplace by done.
      destruct (find p _) eqn:E; [intros [= <-]; by eapply Hb|]. destruct (cmp p peer); by intros [= <-].
    - intros s Hs'. destruct (Hsel s Hs') as (d & f & Hd & [x Hx] & Hrest). exists d, f. split; [done|]. split; [|done]. cbn.
      rewrite find_emplace, Hx by done. done. }
  split; [done|]. split; [by intros f|]. intros e [->|He]%elem_of_cons; [by left|]. by eapply send_routes_advertised.
Qed.

(** The producer [P] is still active, and is not this node. *)
Lemma on_producer_change_handled c r : node_ok r -> is_producer c P = true -> producer_name c <> P ->
  handled_by c r (on_producer_change c r).
Proof using HN.
  intros [Hb Hsel] Hact Hname. pose proof (base_ok r Hb) as (Hn & Hr & Hs & Hse). unfold on_producer_change.
  set (r1 := with_tables _ _ _ _ _).
  assert (Hkeep : is_producer c P && negb (P =? producer_name c) = true) by (rewrite Hact, (proj2 (Z.eqb_neq _ _)) by
    congruence; done).
  assert (Es : forall f, find (P, R) (sourceTable r1) = Some f <-> find (P, R) (sourceTable r) = Some f).
  { intros f. cbn. rewrite find_filter_some by done. cbn. rewrite Hkeep. tauto. }
  assert (Er : forall s d, find (P, s) (routeTable r1) = Some d <-> find (P, s) (routeTable r) = Some d).
  { intros s d. cbn. rewrite find_filter_some by done. cbn. rewrite Hkeep. tauto. }
  assert (Esel : forall s, find P (selectedRoutes r1) = Some s <-> find P (selectedRoutes r) = Some s).
  { intros s. cbn. rewrite find_filter_some by done. cbn. rewrite Hkeep. tauto. }
  split; [split|split].
  - split; [split; [done|]; split; [by apply filter_ok|]; split; by apply filter_ok|apply Hb| | |].
    + intros k d Hk. cbn in Hk. apply find_filter_some in Hk as [Hk _]; [|done]. by apply Hb.
    + intros f Hf. by apply Hb, Es.
    + intros s Hs'. by apply Hb, Esel.
  - intros s Hs'%Esel. destruct (Hsel s Hs') as (d & f & Hd & Hnb & H0 & Hlt & Hf & Hdist). exists d, f. rewrite Er, Es. done.
  - intros f (g & Hg & Hle). exists g. by rewrite Es.
  - intros e [He|He]%elem_of_app; [|apply multicast_elem in He as [-> _]; by left].
    destruct (is_producer c (producer_name c)); [|by apply elem_of_nil in He].
    apply multicast_elem in He as [-> _]. by right.
Qed.

(** Handlers that do not touch the tables. *)
Lemma same_tables_handled c r r' out : node_ok r -> same_tables r r' ->
  (forall e, e ∈ out -> advertised r' e.2 \/ e.2 = own_update c r') ->
  handled_by c r (r', out).
Proof. intros Hok Hs Hout. split; [by eapply node_ok_same|]. split; [by apply improves_same|done]. Qed.
Lemma nothing_sent c r : forall e : Z * message, e ∈ [] -> advertised r e.2 \/ e.2 = own_update c r.
Proof. intros e ?%elem_of_nil. done. Qed.
Lemma one_sent c r p m : advertised r m -> forall e : Z * message, e ∈ [(p, m)] -> advertised r e.2 \/ e.2 = own_update c r.
Proof. intros Hm e ->%list_elem_of_singleton. by left. Qed.

Lemma incrementSeqno_handled c r now : node_ok r -> handled_by c r (incrementSeqno c r now).
Proof.
  intros Hok. unfold incrementSeqno. destruct (_ <? _); apply same_tables_handled; try done; [|apply nothing_sent].
  intros e [-> _]%multicast_elem. by right.
Qed.
Lemma forwardSeqnoRequest_handled c r producer s ttl now : node_ok r ->
  handled_by c r (forwardSeqnoRequest r producer s ttl now).
Proof.
  intros Hok. unfold forwardSeqnoRequest, cacheSeqnoRequest.
  destruct (find producer (recentSeqnoRequests r)) as [x|]; [destruct (_ && _)|].
  { by apply same_tables_handled; [|done|apply nothing_sent]. }
  all: unfold trySend; destruct (find producer _); [apply same_tables_handled; [done|done|by apply one_sent]|];
    destruct (foldl _ _ _).1; (apply same_tables_handled; [done|done|]); [by apply one_sent|apply nothing_sent].
Qed.
Lemma recv_seqno_request_handled c r peer producer s ttl now : node_ok r ->
  handled_by c r (recv_seqno_request c r peer producer s ttl now).
Proof.
  intros Hok. unfold recv_seqno_request. destruct (makeUpdate r producer) as [[rs rm] m] eqn:E. destruct (_ && _) eqn:Eg.
  - apply same_tables_handled; [done|done|]. apply one_sent. apply andb_true_iff in Eg as [Hm _]. unfold makeUpdate in E.
    destruct (find producer (selectedRoutes r)) as [sel|] eqn:Es; [|by injection E as <- <- <-].
    destruct (find (producer, sel) (routeTable r)) as [d|] eqn:Ed; [|by injection E as <- <- <-]. injection E as <- <- <-.
    destruct (decide (producer = P)) as [->|Hx]; [by apply route_update_advertised|done].
  - destruct (producer =? producer_name c); [by apply incrementSeqno_handled|].
    destruct (2 <=? ttl); [by apply forwardSeqnoRequest_handled|].
    by apply same_tables_handled; [|done|apply nothing_sent].
Qed.

(** Messages of the consensus, alone or in envelopes. *)
Definition payload (m : message) : Prop := match m with RoutingEnvelope _ _ | Serialized _ => True | _ => False end.
Definition forwards (r : routing) (res : routing * sends) : Prop := same_tables r res.1 /\ seqno res.1 = seqno r /\ routerId res.1 = routerId r /\ forall e, e ∈ res.2 -> payload e.2.
Lemma forwards_handled c r res : node_ok r -> forwards r res -> handled_by c r res.
Proof. intros Hok (Hs & _ & _ & Hp). destruct res. apply same_tables_handled; [done|done|]. intros e He. left.
specialize (Hp e He). by destruct (e.2). Qed.
End producer.

Section forwarding.
Context (serialize : message -> bytes) (peer_has_block : Z -> bytes -> bool) (validate_message : bytes -> option (option bytes)).
Lemma forwards_none r : forwards r (r, []).
Proof. split; [done|]. split; [done|]. split; [done|]. intros e ?%elem_of_nil. done. Qed.
Lemma send_after_block_forwards r peer id m : payload m -> forwards r (send_after_block serialize peer_has_block r peer id m).
Proof.
  intros Hm. unfold send_after_block. destruct (peer_has_block peer id); (split; [done|split; [done|split; [done|]]]).
  - by intros e ->%list_elem_of_singleton.
  - intros e ?%elem_of_nil. done.
Qed.
Lemma recv_envelope_forwards c r destination data : forwards r (recv_envelope serialize peer_has_block validate_message c r
  destination data).2.
Proof.
  unfold recv_envelope. destruct (_ =? _); [apply forwards_none|]. cbn [snd].
  destruct (validate_message data) as [[id|]|]; [..|apply forwards_none];
    destruct (find destination (selectedRoutes r)); try apply forwards_none; [by apply send_after_block_forwards|].
  split; [done|]. split; [done|]. split; [done|]. by intros e ->%list_elem_of_singleton.
Qed.
Lemma on_peer_block_forwards r peer id : forwards r (on_peer_block r peer id).
Proof.
  split; [done|]. split; [done|]. split; [done|]. intros e He. apply list_elem_of_In, in_map_iff in He as (x & <- & _). done.
Qed.

(** What the consensus of a node sends. *)
Inductive consensus_send (r : routing) : routing * sends -> Prop :=
| cs_sendto producer data : consensus_send r (r, sendto serialize r producer (Serialized data))
| cs_sendto_after producer id data : consensus_send r (sendto_after serialize peer_has_block r producer id (Serialized data))
| cs_multicast data : consensus_send r (r, multicast r (Serialized data))
| cs_multicast_after id data : consensus_send r (multicast_after serialize peer_has_block r id (Serialized data))
| cs_multicast_producers data : consensus_send r (r, multicast_producers serialize r (Serialized data))
| cs_multicast_producers_after id data : consensus_send r (multicast_producers_after serialize peer_has_block r id (Serialized data)).

Lemma sendto_payload r producer m e : e ∈ sendto serialize r producer m -> payload e.2.
Proof. unfold sendto, trySend. destruct (find producer (selectedRoutes r)); cbn;
  [by intros ->%list_elem_of_singleton|by intros ?%elem_of_nil]. Qed.
Lemma sendto_after_forwards r producer id m : forwards r (sendto_after serialize peer_has_block r producer id m).
Proof. unfold sendto_after. destruct (find producer (selectedRoutes r));
  [by apply send_after_block_forwards|apply forwards_none]. Qed.
Lemma each_send_forwards f l : (forall r x, forwards r (f r x)) -> forall r0 r out, forwards r0 (r, out) ->
  forwards r0 (foldl (each_send f) (r, out) l).
Proof.
  intros Hf. induction l as [|x l IH]; intros r0 r out H; [done|]. cbn [foldl]. unfold each_send at 2. specialize (Hf r x).
  destruct (f r x) as [r' out'].
  apply IH. destruct H as ((? & ? & ? & ?) & ? & ? & Hout), Hf as ((? & ? & ? & ?) & ? & ? & Hout'). cbn in *.
  unfold forwards, same_tables. cbn.
  repeat split; try congruence. intros e [He|He]%elem_of_app; auto.
Qed.
Lemma consensus_send_forwards r res : consensus_send r res -> forwards r res.
Proof.
  intros H. destruct H; try (split; [done|]; split; [done|]; split; [done|]; intros e He).
  - by eapply sendto_payload.
  - apply sendto_after_forwards.
  - by apply multicast_elem in He as [-> _].
  - apply each_send_forwards; [|apply forwards_none]. intros. by apply send_after_block_forwards.
  - apply list_elem_of_In, in_flat_map in He as (x & _ & He). eapply sendto_payload. by apply list_elem_of_In.
  - apply each_send_forwards; [|apply forwards_none]. intros. apply sendto_after_forwards.
Qed.
End forwarding.

(** ** What stays *)

(** A node has nothing about its own producer. *)
Definition absent (P R : Z) (r : routing) : Prop :=
  find P (selectedRoutes r) = None /\ (forall k, key_producer k = P -> find k (routeTable r) = None) /\ find (P, R) (sourceTable r) = None.

Lemma absent_selectRoute P R r x upd : tables_ok r -> absent P R r -> absent P R (selectRoute r x upd).1.
Proof.
  intros Hok (Hs & Hr & Hf). pose proof (selectRoute_frame r x upd Hok) as Hfr. destruct (decide (x = P)) as [->|Hx].
  - unfold selectRoute in *. destruct (foldl _ _ _).1 as [[k d]|] eqn:E; [|by rewrite Hs].
    apply best_route in E as ([HP Hk]%getRoutes_find & _); [|apply Hok]. by rewrite Hr in Hk.
  - destruct (selectRoute r x upd) as [r' out]. destruct Hfr as (_ & (_ & _ & _ & Er) & Hoth & _).
    destruct (Hoth P ltac:(congruence)) as [E1 E2].
    unfold absent. cbn [fst]. by rewrite E1, Er, E2.
Qed.
(** Selecting leaves the identity of the node and its routes. *)
Definition same_identity (r r' : routing) : Prop := routerId r' = routerId r /\ seqno r' = seqno r.
Lemma reselect_same peer l r out : tables_ok r -> let r' := (foldl (reselect peer) (r, out) l).1 in
  same_identity r r' /\ routeTable r' = routeTable r /\ forall P R, absent P R r -> absent P R r'.
Proof.
  revert r out. induction l as [|x l IH]; intros r out Hok; cbn [foldl]; [done|]. unfold reselect at 2 4 6.
  destruct (find x (selectedRoutes r)) as [sel|] eqn:E; [|by apply IH]. destruct (sel.2 =? peer); [|by apply IH].
  pose proof (selectRoute_frame r x peer Hok) as Hfr. pose proof (fun P R => absent_selectRoute P R r x peer Hok) as Ha.
  destruct (selectRoute r x peer) as [r1 out1]. destruct Hfr as (Hok1 & (E1 & E2 & _ & E3) & _).
  destruct (IH r1 (out ++ out1) Hok1) as ((I1 & I2) & I3 & I4).
  split; [split; congruence|]. split; [congruence|]. auto.
Qed.
Lemma disconnect_same r peer : tables_ok r -> let r' := (disconnect r peer).1 in
  same_identity r r' /\ (forall k d, find k (routeTable r') = Some d -> find k (routeTable r) = Some d) /\
    forall P R, absent P R r -> absent P R r'.
Proof.
  intros (Hn & Hr & Hs & Hse). unfold disconnect. set (r1 := with_neighbors _ _). assert (Hok : tables_ok r1).
  { split; [by apply erase_ok|]. split; [by apply filter_ok|done]. }
  destruct (reselect_same peer (map fst (selectedRoutes r1)) r1 [] Hok) as (Hid & Hrt & Ha). split; [done|].
  assert (Hsub : forall k d, find k (routeTable r1) = Some d -> find k (routeTable r) = Some d).
  { intros k d Hk. cbn in Hk. by apply find_filter_some in Hk as [Hk _]. }
  split; [intros k d; rewrite Hrt; apply Hsub|]. intros P R (H1 & H2 & H3). apply Ha. split; [done|]. split; [|done].
  intros k HP. destruct (find k (routeTable r1)) eqn:E; [|done]. apply Hsub in E. rewrite H2 in E; done.
Qed.
Lemma recv_update_same c r peer producer s m router : tables_ok r -> let r' := (recv_update c r peer producer s m router).1 in
  same_identity r r' /\
  (forall k d, find k (routeTable r') = Some d -> find k (routeTable r) = Some d \/
     k = (producer, (default 0 router, peer)) /\ d = {| rd_seqno := s; rd_metric := m |}) /\
  forall R, absent (producer_name c) R r -> absent (producer_name c) R r'.
Proof.
  intros Hok. unfold recv_update. destruct (Z.eqb_spec producer (producer_name c)) as [|Hne]; [split; [done|]; split;
    [by left|done]|].
  destruct (negb _); [split; [done|]; split; [by left|done]|]. set (k := (producer, (default 0 router, peer))).
  destruct Hok as (Hn & Hr & Hs & Hse).
  assert (Hnew : forall rt, map_ok rt -> (forall k' d, find k' rt = Some d -> find k' (routeTable r) = Some d \/ k' = k /\ d =
    {| rd_seqno := s; rd_metric := m |}) ->
    let r' := (selectRoute (with_routes r rt) producer peer).1 in same_identity r r' /\
    (forall k' d, find k' (routeTable r') = Some d -> find k' (routeTable r) = Some d \/ k' = k /\ d = {| rd_seqno := s;
      rd_metric := m |}) /\
    forall R, absent (producer_name c) R r -> absent (producer_name c) R r').
  { intros rt Hrt Hk. assert (Hok : tables_ok (with_routes r rt)) by done.
    pose proof (selectRoute_frame (with_routes r rt) producer peer Hok) as Hfr.
    pose proof (fun R => absent_selectRoute (producer_name c) R (with_routes r rt) producer peer Hok) as Ha.
    destruct (selectRoute _ _ _) as [r' out]. destruct Hfr as (_ & (E1 & E2 & _ & E3) & _). split; [done|]. cbn [fst].
    rewrite E3. split; [apply Hk|].
    intros R (H1 & H2 & H3). apply Ha. split; [done|]. split; [|done]. intros k' HP. destruct (find k' rt) eqn:E; [|done].
    apply Hk in E as [E|[-> _]]; [rewrite H2 in E; done|done]. }
  destruct (find k (routeTable r)) as [d|] eqn:E.
  - unfold updateRoute. destruct (_ || _); [|split; [done|]; split; [by left|done]]. apply Hnew; [by apply assign_map_ok|].
    intros k' d' Hd. destruct (decide (k' = k)) as [->|Hk']; [|rewrite find_assign_ne in Hd by done; by left].
    rewrite (find_assign_eq _ _ d) in Hd by done. injection Hd as <-. by right.
  - destruct (negb _); [|split; [done|]; split; [by left|done]]. apply Hnew; [by apply emplace_ok|].
    intros k' d' Hd. destruct (decide (k' = k)) as [->|Hk']; [|rewrite find_emplace_ne in Hd by done; by left].
    rewrite find_emplace_eq in Hd by done. injection Hd as <-. by right.
Qed.
Lemma recv_seqno_request_same c r peer producer s ttl now :
  let r' := (recv_seqno_request c r peer producer s ttl now).1 in
  same_tables r r' /\ routerId r' = routerId r /\ (seqno r' = seqno r \/ producer_name c = producer /\ seqno r' = seqno_add
    (seqno r) 1).
Proof.
  assert (Hl : forall r', same_tables r r' -> routerId r' = routerId r -> seqno r' = seqno r -> same_tables r r' /\ routerId r'
    = routerId r /\
    (seqno r' = seqno r \/ producer_name c = producer /\ seqno r' = seqno_add (seqno r) 1)) by auto.
  unfold recv_seqno_request. destruct (makeUpdate r producer) as [[rs rm] m]. destruct (_ && _); [by apply Hl|].
  destruct (Z.eqb_spec producer (producer_name c)) as [HP|_].
  - unfold incrementSeqno. destruct (minSeqnoUpdateInterval <? now - lastSeqnoUpdate r); [|by apply Hl]. split; [done|].
    split; [done|]. right. by split.
  - destruct (2 <=? ttl); [|by apply Hl]. unfold forwardSeqnoRequest, cacheSeqnoRequest.
    destruct (find producer (recentSeqnoRequests r)) as [x|];
      [destruct ((now - cr_time x <=? seqnoCacheMaxAge) && (cr_seqno x =? s)); [by apply Hl|]|];
      (destruct (trySend _ _ _); [by apply Hl|destruct (foldl _ _ _).1; by apply Hl]).
Qed.

(** ** The network *)

Section network.
(** The node at the other end of each connection of a node, and the serialization of
    messages. *)
Context (remote : Z -> Z -> Z) (serialize : message -> bytes).

Record network := { nodes : Z -> routing; cons : Z -> consensus; sent : list (Z * (Z * message)) }.
Definition act (w : network) (a : Z) (c : consensus) (res : routing * sends) : network :=
  {| nodes := fun b => if b =? a then res.1 else nodes w b; cons := fun b => if b =? a then c else cons w b; sent := map (pair a) res.2 ++ sent w |}.

(** Nodes take steps in any order.  A message that was sent over a connection may be
    received at any time, any number of times or never, while the receiver has the
    connection. *)
Inductive step (w : network) : network -> Prop :=
| step_connect a p : step w (act w a (cons w a) (connect (cons w a) (nodes w a) p))
| step_disconnect a p : step w (act w a (cons w a) (disconnect (nodes w a) p))
| step_recv a p q m now has_block validate :
    is_Some (find p (neighborTable (nodes w a))) -> remote (remote a p) q = a -> (remote a p, (q, m)) ∈ sent w ->
    step w (act w a (cons w a) (recv serialize has_block validate (cons w a) (nodes w a) p m now).2)
| step_timer a now t : seqnoTimer (nodes w a) = Some t -> t <= now -> step w (act w a (cons w a) (incrementSeqno (cons w a) (nodes w a) now))
| step_producers a c : producer_name c = producer_name (cons w a) -> step w (act w a c (on_producer_change c (nodes w a)))
| step_peer_block a p id : step w (act w a (cons w a) (on_peer_block (nodes w a) p id))
| step_send a has_block res : consensus_send serialize has_block (nodes w a) res -> step w (act w a (cons w a) res).

(** One producer [P] at the node [o]. *)
Context (P o : Z).

Definition network_start (ids : Z -> Z) (w : network) : Prop :=
  (forall a, nodes w a = initial_routing (ids a)) /\ sent w = [] /\ forall a, producer_name (cons w a) = P <-> a = o.
(** [P] is an active producer for every node, and its node has not used up half of the
    sequence numbers. *)
Definition steady (w : network) : Prop := (forall a, is_producer (cons w a) P = true) /\ seqno (nodes w o) < 2 ^ 15.
Inductive run : network -> Prop :=
| run_start ids w : network_start ids w -> steady w -> run w
| run_step w w' : run w -> step w w' -> steady w' -> run w'.

Definition next_hop (w : network) (a b : Z) : Prop := exists s, find P (selectedRoutes (nodes w a)) = Some s /\ b = remote a s.2.

(** ** The invariant *)

Definition sent_ok (w : network) (a : Z) (m : message) : Prop :=
  match m with
  | RouteUpdateMessage p s mt router =>
      p = P -> router = Some (routerId (nodes w o)) /\ (mt <> infinite ->
        valid (seqno (nodes w o)) {| f_seqno := s; f_metric := mt |} /\
        (a <> o -> within P (routerId (nodes w o)) (nodes w a) {| f_seqno := s; f_metric := mt |}))
  | _ => True
  end.
Record inv (w : network) : Prop := {
  inv_seqno : 0 <= seqno (nodes w o) < 2 ^ 15;
  inv_names a : producer_name (cons w a) = P <-> a = o;
  inv_node a : node_ok P (routerId (nodes w o)) (seqno (nodes w o)) (nodes w a);
  inv_origin : absent P (routerId (nodes w o)) (nodes w o);
  inv_routes a p d : find (P, (routerId (nodes w o), p)) (routeTable (nodes w a)) = Some d -> rd_metric d <> infinite -> remote a p <> o ->
    within P (routerId (nodes w o)) (nodes w (remote a p)) (rd_feasibility d);
  inv_sent a q m : (a, (q, m)) ∈ sent w -> sent_ok w a m }.

Lemma valid_mono N N' f : N <= N' -> valid N f -> valid N' f.
Proof. intros HN [Hf Hm]. split; [lia|done]. Qed.
Lemma node_ok_mono R N N' r : N <= N' -> node_ok P R N r -> node_ok P R N' r.
Proof.
  intros HN [[H1 H2 H3 H4 H5] Hs]. split; [|done]. split; [done|done| |eauto using valid_mono|done].
  intros k d Hk HP. destruct (H3 k d Hk HP) as [? Hv]. split; [done|]. eauto using valid_mono.
Qed.

(** A step of one node: what its handler must do. *)
Lemma act_inv w a c res : inv w -> producer_name c = producer_name (cons w a) ->
  handled_by P (routerId (nodes w o)) (seqno (nodes w o)) c (nodes w a) res ->
  routerId res.1 = routerId (nodes w a) -> (a = o -> seqno (nodes w o) <= seqno res.1 < 2 ^ 15) ->
  (forall p d, find (P, (routerId (nodes w o), p)) (routeTable res.1) = Some d -> rd_metric d <> infinite ->
     find (P, (routerId (nodes w o), p)) (routeTable (nodes w a)) = Some d \/
     remote a p = o \/ within P (routerId (nodes w o)) (nodes w (remote a p)) (rd_feasibility d)) ->
  (a = o -> absent P (routerId (nodes w o)) res.1) -> inv (act w a c res).
Proof.
  intros [Hseq Hnames Hnode Horig Hroutes Hsent] Hc (Hok & Himp & Hout) Hid Hsq Hfrom Habs. set (w' := act w a c res).
  assert (Ha : forall b, nodes w' b = if b =? a then res.1 else nodes w b) by done.
  assert (HR : routerId (nodes w' o) = routerId (nodes w o)) by (rewrite Ha; destruct (Z.eqb_spec o a) as [->|]; congruence).
  assert (HN : seqno (nodes w o) <= seqno (nodes w' o) < 2 ^ 15) by (rewrite Ha; destruct (Z.eqb_spec o a) as [->|];
    [by apply Hsq|lia]).
  assert (Hw : forall b f, within P (routerId (nodes w o)) (nodes w b) f -> within P (routerId (nodes w o)) (nodes w' b) f).
  { intros b f Hf. rewrite Ha. destruct (Z.eqb_spec b a) as [->|]; [by apply Himp|done]. }
  split.
  - lia.
  - intros b. cbn. destruct (Z.eqb_spec b a) as [->|]; [rewrite Hc|]; apply Hnames.
  - intros b. rewrite HR. apply (node_ok_mono _ (seqno (nodes w o))); [lia|]. rewrite Ha. by destruct (b =? a).
  - rewrite HR, Ha. destruct (Z.eqb_spec o a) as [<-|]; [by apply Habs|done].
  - intros b p d Hd Hm Hne. rewrite HR in *. apply Hw. rewrite Ha in Hd.
    destruct (Z.eqb_spec b a) as [->|]; [|by apply Hroutes].
    destruct (Hfrom p d Hd Hm) as [?|[?|?]]; [by apply Hroutes|done|done].
  - intros b q m Hin. cbn in Hin. apply elem_of_app in Hin as [Hin|Hin].
    + apply list_elem_of_In, in_map_iff in Hin as ([q' m'] & E & Hin). injection E as <- <- <-. apply list_elem_of_In in Hin.
      destruct (Hout _ Hin) as [Hadv|Hown]; cbn in *.
      * destruct m'; try done. cbn in *. intros HP. destruct (Hadv HP) as [-> Hm]. rewrite HR. split; [done|]. intros Hi.
        destruct (Hm Hi) as [Hv Hwi].
        split; [by eapply valid_mono; [|exact Hv]; lia|]. intros _. by rewrite Z.eqb_refl.
      * subst m'. cbn. intros HP. rewrite Hc in HP. apply Hnames in HP as ->. rewrite Z.eqb_refl. split; [done|]. intros _.
        split; [|done].
        specialize (Hsq eq_refl). split; cbn; unfold infinite; lia.
    + specialize (Hsent _ _ _ Hin). destruct m; try done. cbn in *. intros HP. destruct (Hsent HP) as [-> Hm]. rewrite HR in *.
      split; [done|]. intros Hi.
      destruct (Hm Hi) as [Hv Hwi]. split; [by eapply valid_mono; [|exact Hv]; lia|]. intros Hb. apply Hw. by apply Hwi.
Qed.
(** Handlers that add no routes and keep the sequence number. *)
Lemma act_inv_subset w a c res : inv w -> producer_name c = producer_name (cons w a) ->
  handled_by P (routerId (nodes w o)) (seqno (nodes w o)) c (nodes w a) res -> same_identity (nodes w a) res.1 ->
  (forall k d, find k (routeTable res.1) = Some d -> find k (routeTable (nodes w a)) = Some d) ->
  (forall R, absent P R (nodes w a) -> absent P R res.1) -> inv (act w a c res).
Proof.
  intros Hi Hc Hh [Hid Hsq] Hsub Ha. apply act_inv; [done|done|done|done| | |].
  - intros ->. rewrite Hsq. pose proof (inv_seqno w Hi). lia.
  - intros p d Hd _. left. by apply Hsub.
  - intros ->. apply Ha, Hi.
Qed.
Lemma absent_same_tables R r r' : same_tables r r' -> absent P R r -> absent P R r'.
Proof. intros (_ & Er & Es & Esel). unfold absent. by rewrite Er, Es, Esel. Qed.
Lemma act_inv_same w a c res : inv w -> producer_name c = producer_name (cons w a) ->
  handled_by P (routerId (nodes w o)) (seqno (nodes w o)) c (nodes w a) res -> same_identity (nodes w a) res.1 ->
    same_tables (nodes w a) res.1 -> inv (act w a c res).
Proof.
  intros Hi Hc Hh Hid Hs. apply act_inv_subset; [done..| |by intros R; apply absent_same_tables]. intros k d.
  destruct Hs as (_ & -> & _). done.
Qed.

(** The origin increments its number; another node that answers a request does not. *)
Lemma act_inv_seqno w a res : inv w -> handled_by P (routerId (nodes w o)) (seqno (nodes w o)) (cons w a) (nodes w a) res ->
  same_tables (nodes w a) res.1 -> routerId res.1 = routerId (nodes w a) ->
    seqno res.1 = seqno (nodes w a) \/ seqno res.1 = seqno_add (seqno (nodes w a)) 1 ->
  (a = o -> seqno res.1 < 2 ^ 15) -> inv (act w a (cons w a) res).
Proof.
  intros Hi Hh Hs Hid Hsq Hlt. apply act_inv; [done|done|done|done| | |].
  - intros ->. split; [|by apply Hlt]. pose proof (inv_seqno w Hi). destruct Hsq as [->| ->]; [lia|]. unfold seqno_add.
    rewrite wrap_small by lia. lia.
  - intros p d Hd _. left. destruct Hs as (_ & <- & _). done.
  - intros ->. eapply absent_same_tables; [done|apply Hi].
Qed.

(** A change of the producers at the origin, which has nothing about itself. *)
Lemma origin_producer_change R N c r : node_ok P R N r -> absent P R r -> producer_name c = P ->
  handled_by P R N c r (on_producer_change c r) /\
  absent P R (on_producer_change c r).1.
Proof.
  intros [Hb Hsel] (H1 & H2 & H3) Hname. pose proof (base_ok _ _ _ r Hb) as (Hn & Hr & Hs & Hse).
  assert (Ha : absent P R (on_producer_change c r).1).
  { split; [|split]; cbn.
    - destruct (find P (List.filter _ _)) eqn:E; [|done]. apply find_filter_some in E as [E _]; [congruence|done].
    - intros k Hk. destruct (find k (List.filter _ _)) eqn:E; [|done].
      apply find_filter_some in E as [E _]; [rewrite H2 in E; done|done].
    - destruct (find _ (List.filter _ _)) eqn:E; [|done]. apply find_filter_some in E as [E _]; [congruence|done]. }
  split; [|done]. destruct Ha as (A1 & A2 & A3). split; [split|split].
  - split; [split; [done|]; split; [by apply filter_ok|]; split; by apply filter_ok|apply Hb| | |].
    + intros k d Hk HP. by rewrite A2 in Hk.
    + intros f Hf. by rewrite A3 in Hf.
    + intros s' Hs'. by rewrite A1 in Hs'.
  - intros s' Hs'. by rewrite A1 in Hs'.
  - intros f (g & Hg & _). congruence.
  - intros e [He|He]%elem_of_app; [|apply multicast_elem in He as [-> _]; by left].
    destruct (is_producer c (producer_name c)); [|by apply elem_of_nil in He].
    apply multicast_elem in He as [-> _]. by right.
Qed.

Lemma recv_inv w a p q m now has_block validate : inv w -> steady (act w a (cons w a) (recv serialize has_block validate (cons w
  a) (nodes w a) p m now).2) ->
  (remote a p, (q, m)) ∈ sent w -> inv (act w a (cons w a) (recv serialize has_block validate (cons w a) (nodes w a) p m
    now).2).
Proof.
  intros Hi [_ Hlt] Hsent. pose proof (inv_node w Hi a) as Hok. pose proof (base_ok _ _ _ _ (proj1 Hok)) as Ht.
  pose proof (inv_seqno w Hi) as HN.
  pose proof (inv_sent w Hi _ _ _ Hsent) as Hm.
  destruct m as [version|destination data|producer s mt router|producer s ttl| |data]; cbn [recv snd] in *.
  - destruct (version =? 0); [by apply act_inv_same; [| |apply same_tables_handled; [| |apply nothing_sent]| |]|].
    destruct (disconnect_same (nodes w a) p Ht) as (H1 & H2 & H3).
    apply act_inv_subset; [done|done|apply handled_handled_by; by apply disconnect_handled|done..|by intros R; apply H3].
  - pose proof (recv_envelope_forwards serialize has_block validate (cons w a) (nodes w a) destination data) as Hf.
    apply act_inv_same; [done|done|by apply forwards_handled|by destruct Hf as (_ & ? & ? & _)|by destruct Hf].
  - pose proof (recv_update_same (cons w a) (nodes w a) p producer s mt router Ht) as (H1 & H2 & H3). cbn in Hm.
    assert (Hu : update_valid P (routerId (nodes w o)) (seqno (nodes w o)) producer s mt router) by (intros HP;
      destruct (Hm HP) as [-> Hv]; split; [done|]; intros Hf; by apply Hv).
    apply act_inv; [done|done|apply handled_handled_by; by apply recv_update_handled|by destruct H1| | |].
    + intros ->. destruct H1 as [_ ->]. lia.
    + intros p' d Hd Hf. destruct (H2 _ _ Hd) as [?|[E ->]]; [by left|right]. injection E as <- _ <-. cbn [rd_metric] in Hf.
      destruct (Z.eq_dec (remote a p') o) as [|Hne]; [by left|right]. destruct (Hm eq_refl) as [_ Hv]. by apply Hv.
    + intros ->. pose proof (inv_origin w Hi) as Ha. pose proof (proj2 (inv_names w Hi o) eq_refl) as Hn.
      rewrite <- Hn in Ha |- * at 1. by apply H3.
  - pose proof (recv_seqno_request_same (cons w a) (nodes w a) p producer s ttl now) as (H1 & H2 & H3).
    apply act_inv_seqno; [done|by apply recv_seqno_request_handled|done|done|by destruct H3 as [?|[_ ?]]; [left|right]|].
    intros ->. cbn in Hlt. by rewrite Z.eqb_refl in Hlt.
  - apply act_inv_same; [done|done| |done|done]. apply same_tables_handled; [done|done|]. intros e He.
    by apply (send_routes_advertised P _ _ (cons w a) _ _ e Hok) in He as [_ ?].
  - by apply act_inv_same; [| |apply same_tables_handled; [| |apply nothing_sent]| |].
Qed.

Lemma step_inv w w' : inv w -> step w w' -> steady w' -> inv w'.
Proof.
  intros Hi Hstep Hst. destruct Hstep as [a p|a p|a p q m now hb val Hp Hr Hm|a now t Ht Hle|a c Hc|a p id|a hb res Hs];
    pose proof (inv_node w Hi a) as Hok; pose proof (base_ok _ _ _ _ (proj1 Hok)) as Htab; pose proof (inv_seqno w Hi) as HN.
  - apply act_inv_subset; [done|done|by apply connect_handled|done|done|done].
  - destruct (disconnect_same (nodes w a) p Htab) as (H1 & H2 & H3).
    apply act_inv_subset; [done|done|apply handled_handled_by; by apply disconnect_handled|done|done|by intros R; apply H3].
  - by apply (recv_inv w a p q).
  - apply act_inv_seqno; [done|by apply incrementSeqno_handled|..].
    1-3: unfold incrementSeqno; destruct (minSeqnoUpdateInterval <? now - lastSeqnoUpdate (nodes w a)); first [done | by left |
      by right].
    intros ->. destruct Hst as [_ Hlt]. cbn in Hlt. by rewrite Z.eqb_refl in Hlt.
  - assert (Hact : is_producer c P = true) by (destruct Hst as [Hst _]; specialize (Hst a); cbn in Hst;
      by rewrite Z.eqb_refl in Hst).
    destruct (Z.eq_dec a o) as [->|Hne].
    + assert (Hn : producer_name c = P) by (rewrite Hc; by apply (inv_names w Hi)).
      destruct (origin_producer_change _ _ c (nodes w o) Hok (inv_origin w Hi) Hn) as [Hh Ha].
      apply act_inv; [done|done|done|done|intros _; cbn; lia| |done]. intros p d Hd _. destruct Ha as (_ & Hr & _).
      by rewrite Hr in Hd.
    + assert (Hn : producer_name c <> P) by (rewrite Hc; intros ?%(inv_names w Hi); done).
      apply act_inv; [done|done|by apply on_producer_change_handled|done|done| |done].
      intros p d Hd _. left. cbn in Hd. by apply find_filter_some in Hd as [Hd _]; [|apply Htab].
  - pose proof (on_peer_block_forwards (nodes w a) p id) as Hf.
    apply act_inv_same; [done|done|by apply forwards_handled|by destruct Hf as (_ & ? & ? & _)|by destruct Hf].
  - apply consensus_send_forwards in Hs as Hf.
    apply act_inv_same; [done|done|by apply forwards_handled|by destruct Hf as (_ & ? & ? & _)|by destruct Hf].
Qed.
Lemma routing_run_inv w : run w -> inv w.
Proof.
  induction 1 as [ids w (Hn & Hs & Hc) [_ Hlt]|w w' _ IH Hstep Hst]; [|by eapply step_inv].
  assert (Hs0 : seqno (nodes w o) = 0) by by rewrite Hn. split; [lia|done| | | |].
  - intros a. rewrite (Hn a). split; [|done]. split; try done. repeat split; constructor.
  - by rewrite (Hn o).
  - intros a p d. by rewrite (Hn a).
  - intros a q m. rewrite Hs. by intros ?%elem_of_nil.
Qed.

(** Along a route the distances of the nodes decrease. *)
Definition node_distance (w : network) (a : Z) (x : Z) : Prop :=
  exists f, find (P, routerId (nodes w o)) (sourceTable (nodes w a)) = Some f /\ x = distance f.
Lemma next_hop_distance w a b : inv w -> next_hop w a b -> is_reachable (nodes w b) P = true ->
  exists x y, node_distance w a x /\ node_distance w b y /\ 0 <= y < x.
Proof.
  intros Hi (s & Hs & ->) Hb. destruct (inv_node w Hi a) as [Hba Hsel].
  destruct (Hsel s Hs) as (d & f & Hd & _ & H0 & Hlt & Hf & Hdist & _).
  pose proof (base_selected _ _ _ _ Hba s Hs) as HR. assert (Hne : remote a s.2 <> o).
  { intros E. rewrite E in Hb. unfold is_reachable in Hb. destruct (inv_origin w Hi) as (Ho & _). by rewrite Ho in Hb. }
  assert (Hw : within P (routerId (nodes w o)) (nodes w (remote a s.2)) (rd_feasibility d)).
  { apply (inv_routes w Hi a s.2 d); [|unfold infinite in *; lia|done]. rewrite <- HR. by destruct s. }
  destruct Hw as (g & Hg & Hle). exists (distance f), (distance g). split; [by exists f|]. split; [by exists g|].
  destruct (inv_node w Hi (remote a s.2)) as [Hbb _]. destruct (base_source _ _ _ _ Hbb g Hg) as [Hv1 Hv2].
  pose proof (inv_seqno w Hi).
  split; [|lia]. unfold distance. lia.
Qed.

Lemma node_distance_unique w a x y : node_distance w a x -> node_distance w a y -> x = y.
Proof. intros (f & Hf & ->) (g & Hg & ->). congruence. Qed.
Lemma next_hop_reachable w a b : next_hop w a b -> is_reachable (nodes w a) P = true.
Proof. intros (s & Hs & _). unfold is_reachable. by rewrite Hs. Qed.
Lemma path_distance w a b : inv w -> tc (next_hop w) a b -> is_reachable (nodes w b) P = true ->
  exists x y, node_distance w a x /\ node_distance w b y /\ y < x.
Proof.
  intros Hi Hp. induction Hp as [a b Hab|a b c Hab Hbc IH]; intros Hr.
  - destruct (next_hop_distance w a b Hi Hab Hr) as (x & y & Hx & Hy & Hlt). exists x, y. split; [done|]. split; [done|lia].
  - destruct (IH Hr) as (y & z & Hy & Hz & Hlt).
    assert (Hb : is_reachable (nodes w b) P = true) by (inversion Hbc; by eapply next_hop_reachable).
    destruct (next_hop_distance w a b Hi Hab Hb) as (x & y' & Hx & Hy' & Hlt').
    rewrite (node_distance_unique _ _ _ _ Hy' Hy) in Hlt'. exists x, z.
    split; [done|]. split; [done|lia].
Qed.
Lemma path_ends w n : inv w -> forall a x, node_distance w a x -> x < Z.of_nat n -> is_reachable (nodes w a) P = true ->
  exists b, rtc (next_hop w) a b /\ is_reachable (nodes w b) P = false.
Proof.
  intros Hi. induction n as [|n IH]; intros a x Hx Hlt Ha; unfold is_reachable in Ha;
    destruct (find P (selectedRoutes (nodes w a))) as [s|] eqn:Es; try done;
    assert (Hab : next_hop w a (remote a s.2)) by (by exists s); destruct (is_reachable (nodes w (remote a s.2)) P) eqn:Er.
  - destruct (next_hop_distance w a _ Hi Hab Er) as (x' & y & Hx' & _ & Hy).
    rewrite (node_distance_unique _ _ _ _ Hx' Hx) in Hy. lia.
  - exists (remote a s.2). split; [by apply rtc_once|done].
  - destruct (next_hop_distance w a _ Hi Hab Er) as (x' & y & Hx' & Hy & Hyx).
    rewrite (node_distance_unique _ _ _ _ Hx' Hx) in Hyx.
    destruct (IH _ y Hy ltac:(lia) Er) as (b & Hb & Hu). exists b. split; [by eapply rtc_l|done].
  - exists (remote a s.2). split; [by apply rtc_once|done].
Qed.

(** C12: At every moment of every run, whatever is delayed, repeated or lost, the selected
    routes to a producer have no loop: from every node they lead to a node without a
    selected route, which is the node of the producer unless the route is broken. *)
Theorem loop_free w : run w ->
  (forall a, ~ tc (next_hop w) a a) /\
  forall a, exists b, rtc (next_hop w) a b /\ is_reachable (nodes w b) P = false.
Proof.
  intros Hr%routing_run_inv. split.
  - intros a Hp. assert (Ha : is_reachable (nodes w a) P = true) by (inversion Hp; by eapply next_hop_reachable).
    destruct (path_distance w a a Hr Hp Ha) as (x & y & Hx & Hy & Hlt). rewrite (node_distance_unique _ _ _ _ Hx Hy) in Hlt.
    lia.
  - intros a. destruct (is_reachable (nodes w a) P) eqn:Ha; [|exists a; by split]. destruct (inv_node w Hr a) as [Hb Hsel].
    unfold is_reachable in Ha.
    destruct (find P (selectedRoutes (nodes w a))) as [s|] eqn:Es; [|done].
    destruct (Hsel s eq_refl) as (d & f & _ & _ & _ & _ & Hf & _).
    apply (path_ends w (Z.to_nat (distance f + 1)) Hr a (distance f)); [by exists f|lia|]. unfold is_reachable. by rewrite Es.
Qed.
End network.

(** ** Examples *)

Module Line.
(** Three nodes in a line, and the producer 7 at the first. *)
Definition remote (a p : Z) : Z := match a, p with 1, 0 => 2 | 2, 0 => 1 | 2, 1 => 3 | 3, 0 => 2 | _, _ => 0 end.
Definition consensus_of (a : Z) : consensus := {| producer_name := if a =? 1 then 7 else 0; is_producer := fun _ => true |}.
Definition w0 : network := {| nodes := fun a => initial_routing (10 * a); cons := consensus_of; sent := [] |}.
Definition do_connect (w : network) (a p : Z) : network := act w a (cons w a) (connect (cons w a) (nodes w a) p).
Definition do_recv (w : network) (a p : Z) (m : message) : network :=
  act w a (cons w a) (recv (fun _ => []) (fun _ _ => true) (fun _ => None) (cons w a) (nodes w a) p m 0).2.
Definition w1 : network := do_connect (do_connect w0 1 0) 2 0.
Definition w2 : network := do_recv w1 2 0 (RouteUpdateMessage 7 0 0 (Some 10)).
Definition w3 : network := do_connect (do_connect w2 2 1) 3 0.
Definition w4 : network := do_recv w3 3 0 (RouteUpdateMessage 7 0 1 (Some 10)).

Lemma still_steady w a res : steady 7 1 w -> seqno (nodes (act w a (cons w a) res) 1) < 2 ^ 15 ->
  steady 7 1 (act w a (cons w a) res).
Proof. intros [H _] Hs. split; [|done]. intros b. cbn. destruct (b =? a); apply H. Qed.
Lemma run_connect w a p : run remote (fun _ => []) 7 1 w -> steady 7 1 w -> seqno (nodes (do_connect w a p) 1) < 2 ^ 15 ->
  run remote (fun _ => []) 7 1 (do_connect w a p) /\ steady 7 1 (do_connect w a p).
Proof. intros Hr Hs Hlt. assert (Hst : steady 7 1 (do_connect w a p)) by by apply still_steady. split; [|done].
eapply run_step; [exact Hr|apply step_connect|done]. Qed.
Lemma run_recv w a p q m : run remote (fun _ => []) 7 1 w -> steady 7 1 w -> seqno (nodes (do_recv w a p m) 1) < 2 ^ 15 ->
  is_Some (find p (neighborTable (nodes w a))) -> remote (remote a p) q = a -> (remote a p, (q, m)) ∈ sent w ->
  run remote (fun _ => []) 7 1 (do_recv w a p m) /\ steady 7 1 (do_recv w a p m).
Proof.
  intros Hr Hs Hlt Hp Hq Hm. assert (Hst : steady 7 1 (do_recv w a p m)) by by apply still_steady. split; [|done].
  eapply run_step; [exact Hr|by eapply step_recv|done].
Qed.
Lemma run_w2 : run remote (fun _ => []) 7 1 w2 /\ steady 7 1 w2.
Proof.
  assert (H0 : steady 7 1 w0) by (split; [done|vm_compute; reflexivity]). assert (Hr0 : run remote (fun _ => []) 7 1 w0).
  { apply (run_start _ _ _ _ (fun a => 10 * a)); [|done]. split; [done|]. split; [done|]. intros a. cbn.
    destruct (Z.eqb_spec a 1); [done|]. done. }
  destruct (run_connect w0 1 0 Hr0 H0) as [Hr1 H1]; [vm_compute; reflexivity|].
  destruct (run_connect _ 2 0 Hr1 H1) as [Hr2 H2]; [vm_compute; reflexivity|].
  apply (run_recv w1 2 0 0); [done|done|vm_compute; reflexivity|vm_compute; by eexists|reflexivity|].
  apply list_elem_of_In. vm_compute. tauto.
Qed.
Lemma run_w4 : run remote (fun _ => []) 7 1 w4.
Proof.
  destruct run_w2 as [Hr2 H2]. destruct (run_connect w2 2 1 Hr2 H2) as [Hr3 H3]; [vm_compute; reflexivity|].
  destruct (run_connect _ 3 0 Hr3 H3) as [Hr4 H4]; [vm_compute; reflexivity|].
  apply (run_recv w3 3 0 1); [done|done|vm_compute; reflexivity|vm_compute; by eexists|reflexivity|].
  apply list_elem_of_In. vm_compute. tauto.
Qed.
End Line.

Lemma loop_free_witness :
  find 7 (selectedRoutes (nodes Line.w4 3)) = Some (10, 0) /\ find 7 (selectedRoutes (nodes Line.w4 2)) = Some (10, 0) /\
  (forall a, ~ tc (next_hop Line.remote 7 Line.w4) a a) /\
  forall a, exists b, rtc (next_hop Line.remote 7 Line.w4) a b /\ is_reachable (nodes Line.w4 b) 7 = false.
Proof.
  split; [vm_compute; reflexivity|]. split; [vm_compute; reflexivity|].
  apply (loop_free Line.remote (fun _ => []) 7 1 Line.w4), Line.run_w4.
Defined.

(** A node that forgets a producer and learns of it again has lost the distance that it
    had: it accepts the route of a node that routes through it, and the two send to each
    other until the next update arrives. *)
Definition do_producers (w : network) (a : Z) (active : bool) : network :=
  let c := {| producer_name := producer_name (cons w a); is_producer := fun _ => active |} in act w a c (on_producer_change c (nodes w a)).
Definition forgetful : network :=
  Line.do_recv (do_producers (do_producers Line.w4 2 false) 2 true) 2 1 (RouteUpdateMessage 7 0 2 (Some 10)).
Example forgotten_distance_loops :
  (3, (0, RouteUpdateMessage 7 0 2 (Some 10))) ∈ sent Line.w4 /\
  next_hop Line.remote 7 forgetful 2 3 /\ next_hop Line.remote 7 forgetful 3 2.
Proof.
  split; [apply list_elem_of_In; vm_compute; tauto|]. split; [exists (10, 1)|exists (10, 0)]; split; vm_compute; reflexivity.
Qed.
