(* ===== verification/RoutingPeers.v ===== *)
(** * psibase: routes go through connected peers

    One node of [Routing]: [selectRoute] takes the shortest feasible route, and whatever
    happens, messages go to peers that are connected. *)

From S2P Require Import Prelude Ordered Routing RoutingSelect RoutingLoops.

#[local] Set Default Proof Using "Type".

(** ** Selected routes and connections *)

(** [selectRoute] selects a feasible route of least metric, or none when no feasible
    route is finite; the routes and the other producers stay. *)
Theorem selectRoute_best r producer updated : tables_ok r -> let r' := (selectRoute r producer updated).1 in
  routeTable r' = routeTable r /\ (forall y, y <> producer -> find y (selectedRoutes r') = find y (selectedRoutes r)) /\
  match find producer (selectedRoutes r') with
  | Some s =>
      exists d, find (producer, s) (routeTable r) = Some d /\ isFeasible r ((producer, s), d) = true /\
        getMetric r s.2 d < infinite /\
        forall q e, find (producer, q) (routeTable r) = Some e -> isFeasible r ((producer, q), e) = true ->
          getMetric r s.2 d <= getMetric r q.2 e
  | None => forall q e, find (producer, q) (routeTable r) = Some e -> isFeasible r ((producer, q), e) = true ->
    infinite <= getMetric r q.2 e
  end.
Proof.
  intros Hok. cbn zeta. pose proof (selectRoute_frame r producer updated Hok) as Hfr.
  assert (Hin : forall q e, find (producer, q) (routeTable r) = Some e -> ((producer, q), e) ∈ getRoutes r producer).
  { intros q e He. apply getRoutes_find; [apply Hok|done]. }
  assert (Hsame : routeTable (selectRoute r producer updated).1 = routeTable r /\
    forall y, y <> producer -> find y (selectedRoutes (selectRoute r producer updated).1) = find y (selectedRoutes r)).
  { destruct (selectRoute r producer updated) as [r' out]. destruct Hfr as (_ & (_ & _ & _ & E) & Hoth & _). split; [done|].
    intros y Hy. by apply Hoth. }
  split; [apply Hsame|]. split; [apply Hsame|]. clear Hsame Hfr. unfold selectRoute. destruct (foldl _ _ _).1 as [[k d]|] eqn:E.
  - apply best_route in E as ([HP Hk]%getRoutes_find & Hf & Hm & Hbest); [|apply Hok].
    pose proof (commit_route_frame r (k, d) updated Hok) as Hc.
    destruct (commit_route r (k, d) updated) as [r' out]. cbn [fst] in *. rewrite HP in Hc. destruct Hc as (_ & _ & _ & -> & _).
    assert (Ek : k = (producer, (key_router k, key_peer k))) by (destruct k as [? [? ?]]; cbn in *; congruence). exists d.
    rewrite <- Ek.
    split; [done|]. split; [done|]. split; [exact Hm|]. intros q e He Hfe.
    apply (Hbest ((producer, q), e)); [by apply Hin|done].
  - assert (Hno : forall q e, find (producer, q) (routeTable r) = Some e -> isFeasible r ((producer, q), e) = true -> infinite
      <= getMetric r q.2 e).
    { intros q e He Hfe. apply (no_route r producer E ((producer, q), e)); [by apply Hin|done]. }
    destruct (find producer (selectedRoutes r)) as [removed|] eqn:Es; cbn [fst selectedRoutes with_selected with_tables];
      [|by rewrite Es].
    by rewrite find_erase, cmp_refl.
Qed.
Lemma selectRoute_best_witness : let r := nodes Line.w4 3 in
  match find 7 (selectedRoutes (selectRoute r 7 0).1) with
  | Some s => exists d, find (7, s) (routeTable r) = Some d /\ isFeasible r ((7, s), d) = true /\
    getMetric r s.2 d < infinite /\
      forall q e, find (7, q) (routeTable r) = Some e -> isFeasible r ((7, q), e) = true ->
        getMetric r s.2 d <= getMetric r q.2 e
  | None => False
  end.
Proof.
  pose proof (selectRoute_best (nodes Line.w4 3) 7 0) as H. cbv zeta in H |- *. destruct H as (_ & _ & H).
  - split; [|split; [|split]]; vm_compute; repeat constructor.
  - assert (E : find 7 (selectedRoutes (selectRoute (nodes Line.w4 3) 7 0).1) = Some (10, 0)) by (vm_compute; reflexivity).
    rewrite E in H |- *. exact H.
Defined.

(** A selected route goes through a connected peer. *)
Definition peers_ok (r : routing) : Prop := tables_ok r /\ forall x s, find x (selectedRoutes r) = Some s -> is_Some (find s.2 (neighborTable r)).
(** A handler keeps that, and sends to connected peers only. *)
Definition delivers (res : routing * sends) : Prop := peers_ok res.1 /\ forall e, e ∈ res.2 -> is_Some (find e.1 (neighborTable res.1)).

Lemma delivers_none r : peers_ok r -> delivers (r, []).
Proof. intros H. split; [done|]. intros e ?%elem_of_nil. done. Qed.
Lemma delivers_same r r' out : peers_ok r -> same_tables r r' -> (forall e, e ∈ out -> is_Some (find e.1 (neighborTable r))) ->
  delivers (r', out).
Proof.
  intros [(Hn & Hr & Hs & Hse) Hp] (E1 & E2 & E3 & E4) Hout. split; [split|]; cbn [fst snd].
  - unfold tables_ok. by rewrite E1, E2, E3, E4.
  - intros x s. rewrite E1, E4. apply Hp.
  - intros e He. rewrite E1. by apply Hout.
Qed.
Lemma multicast_delivers r m e : e ∈ multicast r m -> is_Some (find e.1 (neighborTable r)).
Proof. by intros [_ ?]%multicast_elem. Qed.

Lemma selectRoute_delivers r x upd : tables_ok r -> (forall y s, y <> x -> find y (selectedRoutes r) = Some s -> is_Some (find
  s.2 (neighborTable r))) ->
  delivers (selectRoute r x upd).
Proof.
  intros Hok Hp. pose proof (selectRoute_best r x upd Hok) as Hb. pose proof (selectRoute_frame r x upd Hok) as Hfr.
  destruct (selectRoute r x upd) as [r' out]. cbv zeta in Hb. cbn [fst] in Hb. destruct Hb as (_ & Hoth & Hbest).
  destruct Hfr as (Hok' & (_ & _ & En & _) & _ & Hout).
  split; [split; [done|]|]; cbn [fst snd]; rewrite En; [|intros e He; by apply Hout]. intros y s Hs.
  destruct (Z.eq_dec y x) as [->|Hy].
  - rewrite Hs in Hbest. destruct Hbest as (d & _ & _ & Hm & _). unfold getMetric in Hm.
    destruct (find s.2 (neighborTable r)); [by eexists|]. lia.
  - rewrite Hoth in Hs by done. by eapply Hp.
Qed.
Lemma recv_update_delivers c r peer producer s m router : peers_ok r -> delivers (recv_update c r peer producer s m router).
Proof.
  intros Hp. pose proof Hp as [(Hn & Hr & Hs & Hse) Hsel]. unfold recv_update.
  destruct (_ =? producer_name c); [by apply delivers_none|].
  destruct (negb _); [by apply delivers_none|].
  destruct (find _ (routeTable r)) eqn:E; [unfold updateRoute; destruct (_ || _)|destruct (negb _)];
    [|by apply delivers_none| |by apply delivers_none].
  - apply selectRoute_delivers; [|intros y s' _; apply Hsel]. split; [done|]. split; [by apply assign_map_ok|done].
  - apply selectRoute_delivers; [|intros y s' _; apply Hsel]. split; [done|]. split; [by apply emplace_ok|done].
Qed.

(** Reselecting: the producers that are left may still have the peer that is gone. *)
Lemma reselect_delivers peer l r out : tables_ok r -> (forall k d, find k (routeTable r) = Some d -> key_peer k <> peer) ->
  (forall x s, find x (selectedRoutes r) = Some s -> (s.2 = peer -> x ∈ l) /\ (s.2 <> peer -> is_Some (find s.2 (neighborTable
    r)))) ->
  (forall e, e ∈ out -> is_Some (find e.1 (neighborTable r))) -> delivers (foldl (reselect peer) (r, out) l).
Proof.
  revert r out. induction l as [|x l IH]; intros r out Hok Hno Hsel Hout; cbn [foldl].
  { split; [split; [done|]|done]. intros x s Hs. destruct (Hsel x s Hs) as [H1 H2]. apply H2. intros Hp.
    by apply (not_elem_of_nil x), H1. }
  assert (Hskip : (forall s, find x (selectedRoutes r) = Some s -> s.2 <> peer) -> delivers (foldl (reselect peer) (r, out) l)).
  { intros Hx. apply IH; try done. intros y s Hs. destruct (Hsel y s Hs) as [H1 H2]. split; [|done]. intros Hp.
    specialize (H1 Hp). apply elem_of_cons in H1 as [->|]; [|done].
    by destruct (Hx s Hs). }
  unfold reselect at 2. destruct (find x (selectedRoutes r)) as [sel|] eqn:Ex; [|by apply Hskip].
  destruct (Z.eqb_spec sel.2 peer) as [Hp|Hp]; [|by apply Hskip; intros s [= <-]].
  pose proof (selectRoute_frame r x peer Hok) as Hfr. pose proof (selectRoute_peer r x peer peer Hok Hno) as Hpeer.
  pose proof (selectRoute_best r x peer Hok) as Hb.
  destruct (selectRoute r x peer) as [r' out']. cbv zeta in Hb. cbn [fst] in Hpeer, Hb.
  destruct Hfr as (Hok' & (_ & _ & En & Er) & _ & Hout'). destruct Hb as (_ & Hoth & Hbest).
  apply IH; [done|by rewrite Er| |].
  - intros y s Hs. rewrite En. destruct (Z.eq_dec y x) as [->|Hy].
    + split; [intros E; by destruct (Hpeer s Hs)|]. intros _. rewrite Hs in Hbest. destruct Hbest as (d & _ & _ & Hm & _).
      unfold getMetric in Hm.
      destruct (find s.2 (neighborTable r)); [by eexists|]. lia.
    + rewrite Hoth in Hs by done. destruct (Hsel y s Hs) as [H1 H2]. split; [|done]. intros E. specialize (H1 E).
      by apply elem_of_cons in H1 as [->|].
  - intros e [He|He]%elem_of_app; rewrite En; [by apply Hout|by apply Hout'].
Qed.
Lemma disconnect_delivers r peer : peers_ok r -> delivers (disconnect r peer).
Proof.
  intros [(Hn & Hr & Hs & Hse) Hp]. unfold disconnect. apply reselect_delivers.
  - split; [by apply erase_ok|]. split; [by apply filter_ok|done].
  - intros k d Hk. cbn in Hk. apply find_filter_some in Hk as [_ Hk]; [|done]. by apply negb_true_iff, Z.eqb_neq in Hk.
  - intros x s Hx. split; [intros _; by eapply find_Some_key|]. intros Hne.
    change (is_Some (find s.2 (erase peer (neighborTable r)))).
    rewrite find_erase_ne by done. by apply (Hp x).
  - intros e ?%elem_of_nil. done.
Qed.

Section node.
Context (serialize : message -> bytes).

(** The events of one node, with what the consensus knows at the time. *)
Inductive node_event (r : routing) : routing * sends -> Prop :=
| ev_connect c peer : node_event r (connect c r peer)
| ev_disconnect peer : node_event r (disconnect r peer)
| ev_recv c peer m now has_block validate : is_Some (find peer (neighborTable r)) -> node_event r (recv serialize has_block validate c r peer m now).2
| ev_timer c now : node_event r (incrementSeqno c r now)
| ev_producers c : node_event r (on_producer_change c r)
| ev_peer_block peer id : is_Some (find peer (neighborTable r)) -> node_event r (on_peer_block r peer id)
| ev_send has_block res : consensus_send serialize has_block r res -> node_event r res.
Inductive node_run : routing -> Prop :=
| node_start id : node_run (initial_routing id)
| node_step r res : node_run r -> node_event r res -> node_run res.1.

Lemma sendto_delivers r producer m e : peers_ok r -> e ∈ sendto serialize r producer m -> is_Some (find e.1 (neighborTable r)).
Proof.
  intros [_ Hp]. unfold sendto, trySend. destruct (find producer (selectedRoutes r)) as [s|] eqn:E; cbn;
    [|by intros ?%elem_of_nil].
  intros ->%list_elem_of_singleton. by apply (Hp producer).
Qed.
Lemma send_after_block_delivers has_block r peer id m : peers_ok r -> is_Some (find peer (neighborTable r)) ->
  delivers (send_after_block serialize has_block r peer id m) /\ same_tables r (send_after_block serialize has_block r peer id
    m).1.
Proof.
  intros Hp Hc. unfold send_after_block. destruct (has_block peer id); (split; [|done]); (apply (delivers_same r);
    [done|done|]).
  - by intros e ->%list_elem_of_singleton.
  - intros e ?%elem_of_nil. done.
Qed.
Lemma sendto_after_delivers has_block r producer id m : peers_ok r ->
  delivers (sendto_after serialize has_block r producer id m) /\ same_tables r (sendto_after serialize has_block r producer id
    m).1.
Proof.
  intros Hp. unfold sendto_after. destruct (find producer (selectedRoutes r)) as [s|] eqn:E; [|split;
    [by apply delivers_none|done]].
  apply send_after_block_delivers; [done|]. destruct Hp as [_ Hp]. by apply (Hp producer).
Qed.
Lemma each_send_delivers f l r0 : (forall r x, same_tables r0 r -> x ∈ l -> delivers (f r x) /\ same_tables r (f r x).1) ->
  forall r out, same_tables r0 r -> delivers (r, out) -> delivers (foldl (each_send f) (r, out) l).
Proof.
  intros Hf. induction l as [|x l IH]; intros r out Hs Hd; [done|]. cbn [foldl]. unfold each_send at 2.
  destruct (Hf r x Hs ltac:(by left)) as [Hd' Hs'].
  destruct (f r x) as [r' out']. cbn [fst] in *. apply IH.
  - intros r1 y H1 Hy. apply Hf; [done|by right].
  - destruct Hs as (? & ? & ? & ?), Hs' as (? & ? & ? & ?). repeat split; congruence.
  - destruct Hd as [_ Hout], Hd' as [Hp' Hout']. split; [done|]. cbn [fst snd] in *.
    intros e [He|He]%elem_of_app; [|by apply Hout'].
    destruct Hs' as (-> & _). by apply Hout.
Qed.
Lemma peers_ok_same r r' : same_tables r r' -> peers_ok r -> peers_ok r'.
Proof. intros (E1 & E2 & E3 & E4) [Hok Hp]. split; [unfold tables_ok in *; by rewrite E1, E2, E3, E4|]. by rewrite E1, E4. Qed.
Lemma consensus_send_delivers has_block r res : peers_ok r -> consensus_send serialize has_block r res -> delivers res.
Proof.
  intros Hp H. destruct H.
  - apply (delivers_same r); [done|done|]. intros e. by apply sendto_delivers.
  - by apply sendto_after_delivers.
  - apply (delivers_same r); [done|done|]. intros e. apply multicast_delivers.
  - apply (each_send_delivers _ _ r); [|done|by apply delivers_none]. intros r1 x Hs Hx.
    apply send_after_block_delivers; [by eapply peers_ok_same|].
    destruct Hs as (-> & _). destruct (find x (neighborTable r)) eqn:E; [by eexists|]. by apply find_None in E.
  - apply (delivers_same r); [done|done|]. intros e He. apply list_elem_of_In, in_flat_map in He as (x & _ & He).
    eapply sendto_delivers; [done|]. by apply list_elem_of_In.
  - apply (each_send_delivers _ _ r); [|done|by apply delivers_none]. intros r1 x Hs Hx. apply sendto_after_delivers.
    by eapply peers_ok_same.
Qed.
Lemma forwardSeqnoRequest_delivers r producer s ttl now : peers_ok r -> delivers (forwardSeqnoRequest r producer s ttl now).
Proof.
  intros Hp. unfold forwardSeqnoRequest. assert (Hs : same_tables r (cacheSeqnoRequest r producer s now).2).
  { unfold cacheSeqnoRequest. destruct (find producer (recentSeqnoRequests r)); [destruct (_ && _)|]; done. }
  destruct (cacheSeqnoRequest r producer s now) as [fresh r1]. cbn [snd] in Hs. pose proof (peers_ok_same _ _ Hs Hp) as Hp1.
  destruct fresh; [|by apply delivers_none].
  unfold trySend. destruct (find producer (selectedRoutes r1)) as [sel|] eqn:E.
  { apply (delivers_same r1); [done|done|]. intros e ->%list_elem_of_singleton. destruct Hp1 as [_ Hp1].
    by apply (Hp1 producer). }
  assert (Hf : forall l best, (forall p, best.1 = Some p -> is_Some (find p (neighborTable r1))) -> best.2 <= infinite -> forall
    p, (foldl (shorter r1) best l).1 = Some p -> is_Some (find p (neighborTable r1))).
  { induction l as [|e l IH]; intros best Hb Hi p; cbn [foldl]; [apply Hb|].
    apply IH; unfold shorter; destruct (Z.ltb_spec (getMetric r1 (key_peer e.1) e.2) best.2); cbn; try done; [|lia].
    intros q [= <-]. unfold getMetric in *. destruct (find (key_peer e.1) (neighborTable r1)); [by eexists|lia]. }
  specialize (Hf (getRoutes r1 producer) (None, infinite)).
  destruct (foldl (shorter r1) (None, infinite) (getRoutes r1 producer)).1 as [p|]; [|by apply delivers_none].
  apply (delivers_same r1); [done|done|]. intros e ->%list_elem_of_singleton. by apply Hf.
Qed.
Lemma send_routes_delivers c r peer e : is_Some (find peer (neighborTable r)) -> e ∈ send_routes c r peer ->
  is_Some (find e.1 (neighborTable r)).
Proof.
  intros Hp [He|He]%elem_of_app.
  - apply list_elem_of_In, in_flat_map in He as (x & _ & He). destruct (find _ (routeTable r)); [|done].
    by destruct He as [<-|[]].
  - destruct (is_producer _ _); [by apply list_elem_of_singleton in He as ->|by apply elem_of_nil in He].
Qed.
Lemma recv_seqno_request_delivers c r peer producer s ttl now : peers_ok r -> is_Some (find peer (neighborTable r)) ->
  delivers (recv_seqno_request c r peer producer s ttl now).
Proof.
  intros Hp Hc. unfold recv_seqno_request. destruct (makeUpdate r producer) as [[rs rm] m]. destruct (_ && _).
  { apply (delivers_same r); [done|done|]. by intros e ->%list_elem_of_singleton. }
  destruct (producer =? _); [|destruct (2 <=? ttl); [by apply forwardSeqnoRequest_delivers|by apply delivers_none]].
  unfold incrementSeqno. destruct (minSeqnoUpdateInterval <? _); apply (delivers_same r); try done; [|intros e ?%elem_of_nil;
    done].
  intros e. apply multicast_delivers.
Qed.
Lemma recv_envelope_delivers has_block validate c r destination data : peers_ok r ->
  delivers (recv_envelope serialize has_block validate c r destination data).2.
Proof.
  intros Hp. unfold recv_envelope. destruct (_ =? _); [by apply delivers_none|]. cbn [snd].
  destruct (validate data) as [id|]; [|by apply delivers_none].
  destruct (find destination (selectedRoutes r)) as [s|] eqn:E; [|by apply delivers_none].
  assert (Hs : is_Some (find s.2 (neighborTable r))) by (destruct Hp as [_ Hp]; by apply (Hp destination)).
  destruct id; [by apply send_after_block_delivers|]. apply (delivers_same r); [done|done|].
  by intros e ->%list_elem_of_singleton.
Qed.
Lemma node_event_delivers r res : peers_ok r -> node_event r res -> delivers res.
Proof.
  intros Hp Hev. pose proof Hp as [(Hn & Hr & Hs & Hse) Hsel].
  destruct Hev as [c peer|peer|c peer m now hb val Hc|c now|c|peer id Hc|hb res Hsend].
  - assert (Hpeer : is_Some (find peer (emplace peer 1 (neighborTable r)))) by (rewrite find_emplace, cmp_refl by done;
      by destruct (find peer _)).
    split; [split; [split; [by apply emplace_ok|done]|]|].
    + intros x s Hx. cbn. destruct (Hsel x s Hx) as [v Hv]. by rewrite find_emplace, Hv by done.
    + intros e [->|He]%elem_of_cons; [done|]. by apply (send_routes_delivers c _ peer).
  - by apply disconnect_delivers.
  - destruct m; cbn [recv snd].
    + destruct (_ =? 0); [by apply delivers_none|by apply disconnect_delivers].
    + by apply recv_envelope_delivers.
    + by apply recv_update_delivers.
    + by apply recv_seqno_request_delivers.
    + apply (delivers_same r); [done|done|]. intros e. by apply send_routes_delivers.
    + by apply delivers_none.
  - unfold incrementSeqno. destruct (minSeqnoUpdateInterval <? _); apply (delivers_same r); try done; [|intros e ?%elem_of_nil;
      done].
    intros e. apply multicast_delivers.
  - split; [split; [split; [done|]; split; [by apply filter_ok|]; split; by apply filter_ok|]|].
    + intros x s Hx. cbn in Hx. apply find_filter_some in Hx as [Hx _]; [|done]. by apply (Hsel x).
    + intros e [He|He]%elem_of_app; [|by eapply multicast_delivers].
      destruct (is_producer _ _); [by eapply multicast_delivers|by apply elem_of_nil in He].
  - apply (delivers_same r); [done|done|]. intros e He. apply list_elem_of_In, in_map_iff in He as (x & <- & _). done.
  - by eapply consensus_send_delivers.
Qed.

(** Whatever happens to a node, it sends to peers that are connected at the time, and
    every selected route goes through one. *)
Theorem sends_connected r res : node_run r -> node_event r res ->
  (forall peer m, (peer, m) ∈ res.2 -> is_Some (find peer (neighborTable res.1))) /\
  forall producer s, find producer (selectedRoutes res.1) = Some s -> is_Some (find s.2 (neighborTable res.1)).
Proof.
  intros Hr Hev. assert (Hp : peers_ok r).
  { clear Hev. induction Hr as [id|r0 res0 _ IH Hev]; [split; [repeat split; constructor|done]|].
    by apply node_event_delivers in Hev as [? _]. }
  apply node_event_delivers in Hev as [[_ Hsel] Hout]; [|done]. split; [|done]. intros peer m Hin. by apply (Hout (peer, m)).
Qed.
End node.
Lemma sends_connected_witness : let c := {| producer_name := 0; is_producer := fun _ => true |} in let r := (connect c
  (initial_routing 1) 5).1 in
  let res := recv_update c r 5 7 0 3 (Some 10) in
  res.2 = [(5, RouteUpdateMessage 7 0 4 (Some 10))] /\ (forall peer m, (peer, m) ∈ res.2 -> is_Some (find peer (neighborTable
    res.1))) /\
  forall producer s, find producer (selectedRoutes res.1) = Some s -> is_Some (find s.2 (neighborTable res.1)).
Proof.
  cbv zeta. split; [vm_compute; reflexivity|]. set (c := {| producer_name := 0; is_producer := fun _ => true |}).
  apply (sends_connected (fun _ => []) (connect c (initial_routing 1) 5).1).
  - apply node_step with (initial_routing 1); [constructor|constructor].
  - apply (ev_recv (fun _ => []) _ c 5 (RouteUpdateMessage 7 0 3 (Some 10)) 0 (fun _ _ => true) (fun _ => None)). vm_compute.
    by eexists.
Defined.
