(* ===== verification/Key6.v ===== *)
(** * triedent: keys of six-bit characters

    Source: libraries/triedent/include/triedent/database.hpp, [to_key6] and
    [from_key6].  The trie of triedent branches on characters of six bits, so
    every key is spread from 8-bit to 6-bit groups on the way in and packed back
    on the way out.  The theorems show what the trie relies on: the conversion
    can be undone, it keeps the order of keys, and the keys with a given prefix
    are those between two six-bit strings that differ in the unused bits of the
    last character. *)

From S2P Require Import Prelude Database.

(** ** The conversions *)

(** [to_key6]: the loop over groups of three bytes and the [switch] on what is
    left. *)
Fixpoint to_key6 (v : bytes) : list Z :=
  match v with
  | a :: b :: c :: v =>
      Z.shiftr a 2 :: Z.lor (Z.shiftl (Z.land a 0x3) 4) (Z.shiftr b 4) :: Z.lor (Z.shiftl (Z.land b 0xf) 2) (Z.shiftr c 6) :: Z.land c 0x3f :: to_key6 v
  | [a; b] => [Z.shiftr a 2; Z.lor (Z.shiftl (Z.land a 0x3) 4) (Z.shiftr b 4); Z.shiftl (Z.land b 0xf) 2]
  | [a] => [Z.shiftr a 2; Z.shiftl (Z.land a 0x3) 4]
  | [] => []
  end.

(** [from_key6]: the results are stored in [uint8_t].  The string it returns has
    [size * 6 / 8] characters, so a single character left over stores nothing
    that is part of it. *)
Fixpoint from_key6 (sixb : list Z) : bytes :=
  match sixb with
  | a :: b :: c :: d :: sixb =>
      u8 (Z.lor (Z.shiftl a 2) (Z.shiftr b 4)) :: u8 (Z.lor (Z.shiftl b 4) (Z.shiftr c 2)) :: u8 (Z.lor (Z.shiftl c 6) d) :: from_key6 sixb
  | [a; b; c] => [u8 (Z.lor (Z.shiftl a 2) (Z.shiftr b 4)); u8 (Z.lor (Z.shiftl b 4) (Z.shiftr c 2))]
  | [a; b] => [u8 (Z.lor (Z.shiftl a 2) (Z.shiftr b 4))]
  | _ => []
  end.

(** A character of six bits. *)
Definition is_char6 (c : Z) : Prop := 0 <= c < 64.
Abbreviation key6_ok := (Forall is_char6).

(** The greatest six-bit string of the keys that start with [prefix]: the unused
    bits of the last character of [to_key6 prefix] are set ([get_max]). *)
Definition prefix_min (prefix : bytes) : list Z := to_key6 prefix.
Definition extra_bits (prefix : bytes) : Z := Z.of_nat (length (prefix_min prefix)) * 6 - Z.of_nat (length prefix) * 8.
Fixpoint or_back (m : Z) (k : list Z) : list Z :=
  match k with
  | [] => []
  | [c] => [Z.lor c m]
  | c :: k => c :: or_back m k
  end.
Definition prefix_max (prefix : bytes) : list Z := or_back (Z.shiftl 1 (extra_bits prefix) - 1) (prefix_min prefix).

(** ** Groups of three bytes *)

Lemma bytes_ind3 (P : bytes -> Prop) :
  P [] -> (forall a, P [a]) -> (forall a b, P [a; b]) -> (forall a b c v, P v -> P (a :: b :: c :: v)) -> forall v, P v.
Proof. intros H0 H1 H2 H3. fix IH 1. intros [|a [|b [|c v]]]; [done|done|done|]. apply H3, IH. Qed.

(** The bit operations as arithmetic. *)
Lemma shiftr_div a k m : 0 <= k -> 2 ^ k = m -> Z.shiftr a k = a / m.
Proof. intros Hk <-. by rewrite Z.shiftr_div_pow2. Qed.
Lemma lor_shiftl_arith a b k m : 0 <= k -> 2 ^ k = m -> 0 <= b < m -> Z.lor (Z.shiftl a k) b = a * m + b.
Proof. intros Hk <- Hb. by apply lor_shiftl_add. Qed.
Lemma shiftl_mul a k m : 0 <= k -> 2 ^ k = m -> Z.shiftl a k = a * m.
Proof. intros Hk <-. by apply Z.shiftl_mul_pow2. Qed.
Lemma land_mod a m w : 0 <= w -> m = 2 ^ w - 1 -> Z.land a m = a mod 2 ^ w.
Proof. intros Hw ->. by apply land_ones_mod. Qed.

Lemma key6_first a : is_byte a -> Z.shiftr a 2 = a / 4.
Proof. intros. by apply shiftr_div. Qed.
Lemma key6_second a b : is_byte a -> is_byte b -> Z.lor (Z.shiftl (Z.land a 0x3) 4) (Z.shiftr b 4) = a mod 4 * 16 + b / 16.
Proof. intros Ha [Hb1 Hb2]. rewrite (shiftr_div b 4 16), (land_mod a _ 2) by done. apply lor_shiftl_arith; [done..|mlia]. Qed.
Lemma key6_third b c : is_byte b -> is_byte c -> Z.lor (Z.shiftl (Z.land b 0xf) 2) (Z.shiftr c 6) = b mod 16 * 4 + c / 64.
Proof. intros Hb [Hc1 Hc2]. rewrite (shiftr_div c 6 64), (land_mod b _ 4) by done. apply lor_shiftl_arith; [done..|mlia]. Qed.
Lemma key6_fourth c : Z.land c 0x3f = c mod 64.
Proof. by rewrite (land_mod c _ 6). Qed.
(** A short last character is one whose missing bits are zero. *)
Lemma key6_last1 a : Z.shiftl (Z.land a 0x3) 4 = a mod 4 * 16 + 0.
Proof. rewrite (land_mod a _ 2), Z.add_0_r by done. by apply shiftl_mul. Qed.
Lemma key6_last2 b : Z.shiftl (Z.land b 0xf) 2 = b mod 16 * 4 + 0.
Proof. rewrite (land_mod b _ 4), Z.add_0_r by done. by apply shiftl_mul. Qed.

Lemma from6_first x y : is_char6 x -> is_char6 y -> u8 (Z.lor (Z.shiftl x 2) (Z.shiftr y 4)) = x * 4 + y / 16.
Proof.
  intros [? ?] [? ?]. rewrite (shiftr_div y 4 16), (lor_shiftl_arith _ _ 2 4) by (done || mlia). apply wrap_small. mlia.
Qed.
Lemma from6_second x y : is_char6 x -> is_char6 y -> u8 (Z.lor (Z.shiftl x 4) (Z.shiftr y 2)) = x mod 16 * 16 + y / 4.
Proof.
  intros [? ?] [? ?]. rewrite (shiftr_div y 2 4), (lor_shiftl_arith _ _ 4 16) by (done || mlia). unfold wrap. change (2 ^ 8) with 256. mlia.
Qed.
Lemma from6_third x y : is_char6 x -> is_char6 y -> u8 (Z.lor (Z.shiftl x 6) y) = x mod 4 * 64 + y.
Proof.
  intros [? ?] [? ?]. rewrite (lor_shiftl_arith _ _ 6 64) by (done || mlia). unfold wrap. change (2 ^ 8) with 256. mlia.
Qed.

Create Rewrite HintDb key6.
#[export] Hint Rewrite key6_first key6_second key6_third key6_fourth using done : key6.
Create Rewrite HintDb key6_last.
#[export] Hint Rewrite key6_last1 key6_last2 : key6_last.
#[export] Hint Rewrite from6_first from6_second from6_third using (done || (unfold is_char6, is_byte in *; mlia)) : key6.

Ltac bytes_inv :=
  repeat match goal with
  | H : Forall _ (_ :: _) |- _ => apply Forall_cons in H as [? ?]
  | H : Forall _ [] |- _ => clear H
  end.

(** ** Sizes *)

Lemma to_key6_ok v : bytes_ok v -> key6_ok (to_key6 v).
Proof.
  induction v as [|a|a b|a b c v IH] using bytes_ind3; intros Hv; bytes_inv; cbn [to_key6]; autorewrite with key6; autorewrite with key6_last;
    repeat (apply Forall_cons; split); try apply Forall_nil_2; auto; unfold is_byte, is_char6 in *; mlia.
Qed.

(** [byte6] of the source. *)
Lemma to_key6_length v : Z.of_nat (length (to_key6 v)) = (Z.of_nat (length v) * 8 + 5) / 6.
Proof. induction v as [|a|a b|a b c v IH] using bytes_ind3; cbn [to_key6 length]; [done..|]. rewrite !Nat2Z.inj_succ, IH. mlia. Qed.

Lemma from_key6_length s : Z.of_nat (length (from_key6 s)) = Z.of_nat (length s) * 6 / 8.
Proof.
  revert s. fix IH 1. intros [|a [|b [|c [|d s]]]]; cbn [from_key6 length]; [done..|]. rewrite !Nat2Z.inj_succ, IH. mlia.
Qed.

(** ** The round trip *)

Lemma from_to_key6 v : bytes_ok v -> from_key6 (to_key6 v) = v.
Proof.
  induction v as [|a|a b|a b c v IH] using bytes_ind3; intros Hv; bytes_inv; cbn [to_key6 from_key6]; [done|..];
    autorewrite with key6; autorewrite with key6_last; autorewrite with key6; unfold is_byte in *; repeat f_equal; try mlia; auto.
Qed.

(** ** The order *)

(** A number compares as its quotient and its remainder. *)
Lemma compare_parts m q r q' r' : 0 <= r < m -> 0 <= r' < m -> (q * m + r ?= q' * m + r') = then_compare (q ?= q') (r ?= r').
Proof.
  intros Hr Hr'. destruct (Z.compare_spec q q') as [->|H|H]; cbn.
  - destruct (Z.compare_spec r r'); [apply Z.compare_eq_iff|apply Z.compare_lt_iff|apply Z.compare_gt_iff]; lia.
  - apply Z.compare_lt_iff. nia.
  - apply Z.compare_gt_iff. nia.
Qed.
Lemma compare_byte m a b : 0 < m -> (a ?= b) = then_compare (a / m ?= b / m) (a mod m ?= b mod m).
Proof.
  intros Hm. rewrite <- (compare_parts m) by (apply Z.mod_pos_bound; lia). f_equal; rewrite Z.mul_comm; apply Z.div_mod; lia.
Qed.
Lemma lex_compare_cons x a y b : lex_compare (x :: a) (y :: b) = then_compare (x ?= y) (lex_compare a b).
Proof. cbn. by destruct (x ?= y). Qed.
Lemma tie_lt x : 0 <= x -> then_compare (0 ?= x) Lt = Lt.
Proof. intros. destruct (Z.compare_spec 0 x); [done..|lia]. Qed.
Lemma tie_gt x : 0 <= x -> then_compare (x ?= 0) Gt = Gt.
Proof. intros. destruct (Z.compare_spec x 0); [done|lia|done]. Qed.

Ltac digits := first [apply Z.mod_pos_bound; lia | unfold is_byte in *; mlia].

Lemma to_key6_order a b : bytes_ok a -> bytes_ok b -> lex_compare (to_key6 a) (to_key6 b) = lex_compare a b.
Proof.
  revert b. induction a as [|a0|a0 a1|a0 a1 a2 a IH] using bytes_ind3; intros b Ha Hb;
    destruct b as [|b0|b0 b1|b0 b1 b2 b _] using bytes_ind3; try done; bytes_inv; cbn [to_key6]; autorewrite with key6; autorewrite with key6_last;
    rewrite !lex_compare_cons, ?(compare_parts 16), ?(compare_parts 4) by digits;
    rewrite ?IH by done; cbn [lex_compare];
    rewrite ?(compare_byte 4 a0 b0), ?(compare_byte 16 a1 b1), ?(compare_byte 64 a2 b2) by done;
    rewrite ?then_compare_assoc, ?tie_lt, ?tie_gt by digits; done.
Qed.

Lemma to_key6_lle a b : bytes_ok a -> bytes_ok b -> lle (to_key6 a) (to_key6 b) = lle a b.
Proof. intros. unfold lle. by rewrite to_key6_order. Qed.
Lemma to_key6_inj a b : bytes_ok a -> bytes_ok b -> to_key6 a = to_key6 b -> a = b.
Proof. intros Ha Hb E. apply lex_compare_eq. rewrite <- to_key6_order, E by done. apply lex_compare_refl. Qed.

(** ** Prefixes *)

(** [k] is between [lo] and [hi], two strings of the same length, as far as they
    go. *)
Definition between (lo hi k : list Z) : bool :=
  (length lo <=? length k)%nat && lle lo (take (length lo) k) && lle (take (length lo) k) hi.

Lemma lle_cons x a y b : lle (x :: a) (y :: b) = match x ?= y with Eq => lle a b | Lt => true | Gt => false end.
Proof. unfold lle. cbn. by destruct (x ?= y). Qed.

Lemma between_cons x lo hi y k : between (x :: lo) (x :: hi) (y :: k) = bool_decide (x = y) && between lo hi k.
Proof.
  unfold between. cbn [length take]. rewrite !lle_cons, (Z.compare_antisym x y). change (S (length lo) <=? S (length k))%nat with (length lo <=? length k)%nat.
  destruct (Z.compare_spec x y); cbn; [by rewrite bool_decide_true|..]; rewrite bool_decide_false by lia; by rewrite ?andb_false_r.
Qed.
Lemma between_nil x lo hi : between (x :: lo) hi [] = false.
Proof. done. Qed.
Lemma between_short lo hi k : (length k < length lo)%nat -> between lo hi k = false.
Proof. intros H. unfold between. by rewrite (proj2 (Nat.leb_gt _ _) H). Qed.

Lemma has_prefix_cons x p y k : has_prefix (x :: p) (y :: k) = bool_decide (x = y) && has_prefix p k.
Proof.
  unfold has_prefix. cbn [length take]. destruct (decide (x = y)) as [->|E].
  - rewrite (bool_decide_true (y = y)) by done. cbn. apply bool_decide_ext. split; [by injection 1|by intros ->].
  - rewrite (bool_decide_false (x = y)), bool_decide_false by congruence. done.
Qed.

Lemma or_back_app m l k : k <> [] -> or_back m (l ++ k) = l ++ or_back m k.
Proof. intros Hk. induction l as [|x l IH]; [done|]. cbn. rewrite <- IH. by destruct l, k. Qed.
Lemma or_back_0 k : or_back 0 k = k.
Proof. induction k as [|x [|y k] IH]; cbn in *; [done|by rewrite Z.lor_0_r|by rewrite IH]. Qed.
Lemma extra_bits_group a b c p : extra_bits (a :: b :: c :: p) = extra_bits p.
Proof. unfold extra_bits, prefix_min. cbn [to_key6 length]. lia. Qed.

(** A group of three bytes more is a group of four characters more. *)
Lemma prefix_max_group a b c p : exists l, prefix_max (a :: b :: c :: p) = l ++ prefix_max p /\ prefix_min (a :: b :: c :: p) = l ++ prefix_min p /\
  forall k, to_key6 (a :: b :: c :: k) = l ++ to_key6 k.
Proof.
  eexists [_; _; _; _]. split; [|split; [reflexivity|intros k; reflexivity]]. unfold prefix_max. rewrite extra_bits_group.
  destruct p as [|x p]; [by cbn; rewrite Z.lor_0_r|].
  change (prefix_min (a :: b :: c :: x :: p)) with ([Z.shiftr a 2; Z.lor (Z.shiftl (Z.land a 0x3) 4) (Z.shiftr b 4); Z.lor (Z.shiftl (Z.land b 0xf) 2) (Z.shiftr c 6); Z.land c 0x3f] ++ prefix_min (x :: p)).
  apply or_back_app. by destruct p as [|? [|??]].
Qed.

Lemma between_last lo hi y k : between [lo] [hi] (y :: k) = (lo <=? y) && (y <=? hi).
Proof.
  unfold between. cbn [length take]. rewrite !lle_cons. unfold Z.leb. by destruct (lo ?= y), (y ?= hi).
Qed.
Lemma between_app l lo hi k : between (l ++ lo) (l ++ hi) (l ++ k) = between lo hi k.
Proof. induction l as [|x l IH]; [done|]. cbn [app]. by rewrite between_cons, bool_decide_true. Qed.
Lemma prefix_max_one a : prefix_max [a] = [Z.shiftr a 2; a mod 4 * 16 + 15].
Proof. unfold prefix_max. cbn [prefix_min to_key6 or_back]. do 2 f_equal. rewrite (land_mod a _ 2) by done. by apply lor_shiftl_arith. Qed.
Lemma prefix_max_two a b : prefix_max [a; b] = [Z.shiftr a 2; Z.lor (Z.shiftl (Z.land a 0x3) 4) (Z.shiftr b 4); b mod 16 * 4 + 3].
Proof. unfold prefix_max. cbn [prefix_min to_key6 or_back]. do 3 f_equal. rewrite (land_mod b _ 4) by done. by apply lor_shiftl_arith. Qed.

Lemma bool_eq (a b : bool) : (a = true <-> b = true) -> a = b.
Proof. destruct a, b; intros [H1 H2]; auto. symmetry. auto. Qed.

Ltac decide_bools :=
  apply bool_eq; rewrite ?andb_true_iff, ?bool_decide_eq_true, ?Z.leb_le; unfold is_byte in *; mlia.

Lemma between_one a k : is_byte a -> bytes_ok k -> between (prefix_min [a]) (prefix_max [a]) (to_key6 k) = has_prefix [a] k.
Proof.
  intros Ha Hk. rewrite prefix_max_one. destruct k as [|k0 k]; [done|]. rewrite has_prefix_cons. change (has_prefix [] k) with true.
  destruct k as [|k1 [|k2 k]]; bytes_inv; unfold prefix_min; cbn [to_key6]; autorewrite with key6; autorewrite with key6_last;
    rewrite between_cons, between_last; decide_bools.
Qed.
Lemma between_two a b k : is_byte a -> is_byte b -> bytes_ok k -> between (prefix_min [a; b]) (prefix_max [a; b]) (to_key6 k) = has_prefix [a; b] k.
Proof.
  intros Ha Hb Hk. rewrite prefix_max_two. destruct k as [|k0 [|k1 k]]; [done| |].
  { rewrite between_short by (cbn; lia). symmetry. by rewrite has_prefix_cons, andb_false_r. }
  rewrite !has_prefix_cons. change (has_prefix [] k) with true.
  destruct k as [|k2 k]; bytes_inv; unfold prefix_min; cbn [to_key6]; autorewrite with key6; autorewrite with key6_last;
    rewrite !between_cons, between_last; decide_bools.
Qed.

(** The keys with a prefix are those between its least and greatest strings. *)
Lemma between_prefix p k : bytes_ok p -> bytes_ok k -> between (prefix_min p) (prefix_max p) (to_key6 k) = has_prefix p k.
Proof.
  revert k. induction p as [|a|a b|a b c p IH] using bytes_ind3; intros k Hp Hk; bytes_inv; [done|by apply between_one|by apply between_two|].
  destruct (prefix_max_group a b c p) as (l & -> & -> & Hl).
  assert (Hlen : length l = 4%nat) by (specialize (Hl []); rewrite app_nil_r in Hl; by rewrite <- Hl).
  destruct k as [|k0 [|k1 [|k2 k]]].
  1-3: by rewrite between_short by (rewrite length_app, Hlen; cbn; lia); rewrite ?has_prefix_cons, ?andb_false_r.
  rewrite !has_prefix_cons. destruct (decide (to_key6 [a; b; c] = to_key6 [k0; k1; k2])) as [E|E].
  - assert (Habc : [a; b; c] = [k0; k1; k2]) by (apply to_key6_inj; [by rewrite !Forall_cons; auto|bytes_inv; by rewrite !Forall_cons; auto|done]). injection Habc as <- <- <-.
    rewrite Hl, between_app, !bool_decide_true by done. bytes_inv. by apply IH.
  - specialize (Hl []). rewrite app_nil_r in Hl. rewrite <- Hl. change (to_key6 (k0 :: k1 :: k2 :: k)) with (to_key6 [k0; k1; k2] ++ to_key6 k).
    assert (Hne : ~ (a = k0 /\ b = k1 /\ c = k2)) by (intros (-> & -> & ->); done).
    transitivity false; [|destruct (bool_decide_reflect (a = k0)), (bool_decide_reflect (b = k1)), (bool_decide_reflect (c = k2)); subst; try done; naive_solver].
    cbn [to_key6 app] in E |- *. rewrite !between_cons. repeat (case_bool_decide; cbn; [|done]). congruence.
Qed.

Ltac bytes_solve := repeat (apply Forall_cons; split; [unfold is_byte; lia|]); apply Forall_nil_2.

(** Keys survive the conversion to six-bit characters, compare as before, and
    have a prefix when they are between its least and greatest strings. *)
Theorem key6_faithful a b : bytes_ok a -> bytes_ok b ->
  from_key6 (to_key6 a) = a /\ lex_compare (to_key6 a) (to_key6 b) = lex_compare a b /\
  between (prefix_min a) (prefix_max a) (to_key6 b) = has_prefix a b.
Proof. intros Ha Hb. split; [by apply from_to_key6|]. split; [by apply to_key6_order|by apply between_prefix]. Qed.
Lemma key6_faithful_witness : lex_compare (to_key6 [255; 1]) (to_key6 [255; 1; 0]) = Lt.
Proof. destruct (key6_faithful [255; 1] [255; 1; 0]) as (_ & E & _); [bytes_solve..|]. rewrite E. reflexivity. Defined.
