(* ===== verification/NodeBits.v ===== *)
(** * triedent: the branches of an inner node

    Source: libraries/triedent/include/triedent/node.hpp, the bit set
    [_present_bits] of [inner_node] and its searches.  An inner node stores one
    bit per six-bit character and an array with the children of the bits that are
    set, in order.  The theorems relate the searches on the bits to the sorted
    list of the characters: [branch_index] is the position of a character in it,
    [lower_bound], [upper_bound] and [reverse_lower_bound] its neighbours. *)

From S2P Require Import Prelude Ordered Key6.

(** ** [<bit>] on 64-bit words *)

Definition all_ones : Z := 2 ^ 64 - 1.
Definition bit_range : list Z := seqZ 0 64.
Definition popcount (x : Z) : Z := Z.of_nat (length (List.filter (Z.testbit x) bit_range)).
Definition countr_zero (x : Z) : Z := match List.filter (Z.testbit x) bit_range with i :: _ => i | [] => 64 end.
Definition countl_zero (x : Z) : Z := match List.last (List.filter (Z.testbit x) bit_range) (-1) with i => 63 - i end.

(** ** [inner_node] *)

Definition mask_lt (b : Z) : Z := Z.lxor all_ones (u64 (Z.shiftl all_ones b)).
Definition mask_gt (b : Z) : Z := u64 (Z.shiftl (all_ones - 1) b).
Definition mask_eq (b : Z) : Z := u64 (Z.shiftl 1 b).

Section bits.
Variable _present_bits : Z.

Definition has_branch (b : Z) : bool := negb (Z.land _present_bits (mask_eq b) =? 0).
Definition num_branches : Z := popcount _present_bits.
Definition branch_index (branch : Z) : Z :=
  let maskbits := branch mod 64 in
  let mask := Z.shiftr all_ones (63 - maskbits) in
  popcount (Z.land _present_bits mask) - 1.
Definition lower_bound (b : Z) : Z :=
  let mask := u64 (Z.shiftl all_ones (Z.land b 63)) in
  if 64 <=? b then 64 else countr_zero (Z.land _present_bits mask).
Definition reverse_lower_bound (b : Z) : Z :=
  let mask := if b =? 63 then all_ones else Z.lxor all_ones (u64 (Z.shiftl all_ones (Z.land (b + 1) 63))) in
  63 - countl_zero (Z.land _present_bits mask).
Definition upper_bound (b : Z) : Z :=
  let mask := u64 (Z.shiftl all_ones (Z.land (b + 1) 63)) in
  if 63 <=? b then 64 else countr_zero (Z.land _present_bits mask).
End bits.

(** ** The bits of a sorted list of characters *)

(** [inner_node::branches(bit_num...)] *)
Definition branch_bits (bs : list Z) : Z := foldr (fun b x => Z.lor (mask_eq b) x) 0 bs.

(** The characters are distinct, and the children are in their order. *)
Definition chars_ok (bs : list Z) : Prop := StronglySorted Z.lt bs /\ Forall is_char6 bs.

Lemma testbit_all_ones i : 0 <= i -> Z.testbit all_ones i = (i <? 64).
Proof. intros. change all_ones with (Z.ones 64). rewrite Z.testbit_ones by lia. destruct (0 <=? i) eqn:E; [done|zbool; lia]. Qed.
Lemma testbit_u64 x i : 0 <= i -> Z.testbit (u64 x) i = (i <? 64) && Z.testbit x i.
Proof.
  intros. unfold wrap. destruct (i <? 64) eqn:E; zbool; cbn; [by apply Z.mod_pow2_bits_low; lia|apply Z.mod_pow2_bits_high; lia].
Qed.
Lemma testbit_shiftl x k i : 0 <= i -> Z.testbit (Z.shiftl x k) i = Z.testbit x (i - k).
Proof. apply Z.shiftl_spec. Qed.


Lemma testbit_from b i : is_char6 b -> is_char6 i -> Z.testbit (u64 (Z.shiftl all_ones b)) i = (b <=? i).
Proof.
  intros [Hb1 Hb2] [Hi1 Hi2]. rewrite testbit_u64, testbit_shiftl by done. replace (i <? 64) with true by (symmetry; apply Z.ltb_lt; lia). cbn.
  destruct (b <=? i) eqn:E; zbool; [rewrite testbit_all_ones by lia; apply Z.ltb_lt; lia|apply Z.testbit_neg_r; lia].
Qed.
Lemma testbit_mask_lt b i : is_char6 b -> is_char6 i -> Z.testbit (mask_lt b) i = (i <? b).
Proof.
  intros Hb Hi. unfold mask_lt. rewrite Z.lxor_spec, testbit_from, testbit_all_ones by (done || apply Hi).
  destruct Hi. replace (i <? 64) with true by (symmetry; apply Z.ltb_lt; lia). rewrite Z.ltb_antisym. by destruct (b <=? i).
Qed.
Lemma testbit_mask_gt b i : is_char6 b -> is_char6 i -> Z.testbit (mask_gt b) i = (b <? i).
Proof.
  intros [Hb1 Hb2] [Hi1 Hi2]. unfold mask_gt. rewrite testbit_u64, testbit_shiftl by done. replace (i <? 64) with true by (symmetry; apply Z.ltb_lt; lia). cbn [andb].
  change (all_ones - 1) with (Z.shiftl (Z.ones 63) 1).
  destruct (b <? i) eqn:E; zbool; [rewrite testbit_shiftl by lia; apply Z.ones_spec_low; lia|].
  destruct (decide (i = b)) as [->|]; [by rewrite Z.sub_diag|apply Z.testbit_neg_r; lia].
Qed.
Lemma testbit_mask_eq b i : is_char6 b -> is_char6 i -> Z.testbit (mask_eq b) i = bool_decide (i = b).
Proof.
  intros [Hb1 Hb2] [Hi1 Hi2]. unfold mask_eq. rewrite testbit_u64, testbit_shiftl by done. replace (i <? 64) with true by (symmetry; apply Z.ltb_lt; lia). cbn [andb].
  case_bool_decide; subst; [by rewrite Z.sub_diag|]. destruct (Z.lt_trichotomy i b) as [?|[?|?]]; [apply Z.testbit_neg_r; lia|lia|].
  change 1 with (Z.ones 1). apply Z.ones_spec_high. lia.
Qed.
Lemma testbit_upto b i : is_char6 b -> is_char6 i -> Z.testbit (Z.shiftr all_ones (63 - b)) i = (i <=? b).
Proof.
  intros [Hb1 Hb2] [Hi1 Hi2]. rewrite Z.shiftr_spec, testbit_all_ones by lia. apply bool_eq. rewrite Z.ltb_lt, Z.leb_le. lia.
Qed.

Lemma testbit_branch_bits bs i : Forall is_char6 bs -> is_char6 i -> Z.testbit (branch_bits bs) i = bool_decide (i ∈ bs).
Proof.
  intros Hbs Hi. induction Hbs as [|b bs Hb Hbs IH]; [apply Z.bits_0|]. change (branch_bits (b :: bs)) with (Z.lor (mask_eq b) (branch_bits bs)). rewrite Z.lor_spec, IH, testbit_mask_eq by done.
  apply bool_eq. rewrite orb_true_iff, !bool_decide_eq_true, elem_of_cons. done.
Qed.

Lemma elem_of_bit_range i : i ∈ bit_range <-> is_char6 i.
Proof. unfold bit_range. rewrite elem_of_seqZ. unfold is_char6. lia. Qed.

Lemma seqZ_sorted m n : StronglySorted Z.lt (seqZ m n).
Proof.
  destruct (Z.le_gt_cases 0 n) as [Hn|Hn]; [|rewrite seqZ_nil by lia; constructor]. revert m. pattern n. apply natlike_ind; [..|done].
  - intros m. rewrite seqZ_nil by lia. constructor.
  - intros k Hk IH m. rewrite seqZ_cons by lia. rewrite Z.pred_succ. constructor; [apply IH|]. apply Forall_forall. intros x. rewrite elem_of_seqZ. lia.
Qed.
Lemma filter_sorted (f : Z -> bool) l : StronglySorted Z.lt l -> StronglySorted Z.lt (List.filter f l).
Proof.
  induction 1 as [|x l Hl IH Hx]; cbn; [constructor|]. destruct (f x); [|done]. constructor; [done|].
  rewrite Forall_forall in Hx |- *. intros y Hy. apply Hx. rewrite list_elem_of_In, filter_In, <- list_elem_of_In in Hy. apply Hy.
Qed.

(** The bits that are set under a mask are the characters that the mask selects,
    in their order. *)
Lemma masked_chars bs m : chars_ok bs -> List.filter (Z.testbit (Z.land (branch_bits bs) m)) bit_range = List.filter (Z.testbit m) bs.
Proof.
  intros [Hs Hc]. apply sorted_unique; [apply filter_sorted, seqZ_sorted|by apply filter_sorted|].
  intros i. rewrite !list_elem_of_In, !filter_In, <- !list_elem_of_In, elem_of_bit_range, Z.land_spec, andb_true_iff. split.
  - intros (Hi & Hb & Hm). rewrite testbit_branch_bits, bool_decide_eq_true in Hb by done. done.
  - intros (Hi & Hm). assert (is_char6 i) by (rewrite Forall_forall in Hc; auto). rewrite testbit_branch_bits, bool_decide_true by done. done.
Qed.
Lemma all_chars bs : chars_ok bs -> List.filter (Z.testbit (branch_bits bs)) bit_range = bs.
Proof.
  intros [Hs Hc]. apply sorted_unique; [apply filter_sorted, seqZ_sorted|done|].
  intros i. rewrite !list_elem_of_In, !filter_In, <- !list_elem_of_In, elem_of_bit_range. split.
  - intros (Hi & Hb). by rewrite testbit_branch_bits, bool_decide_eq_true in Hb.
  - intros Hi. assert (is_char6 i) by (rewrite Forall_forall in Hc; auto). by rewrite testbit_branch_bits, bool_decide_true.
Qed.

Lemma filter_all {A} (f : A -> bool) l : Forall (fun x => f x = true) l -> List.filter f l = l.
Proof. induction 1 as [|x l Hx _ IH]; cbn; [done|]. by rewrite Hx, IH. Qed.
Lemma filter_none {A} (f : A -> bool) l : Forall (fun x => f x = false) l -> List.filter f l = [].
Proof. induction 1 as [|x l Hx _ IH]; cbn; [done|]. by rewrite Hx, IH. Qed.

Section chars.
Variables l r : list Z.
Hypothesis Hlr : chars_ok (l ++ r).
#[local] Set Default Proof Using "Type*".

Lemma chars_l : Forall is_char6 l.
Proof. destruct Hlr as [_ H]. by apply Forall_app in H as [? _]. Qed.
Lemma chars_r : Forall is_char6 r.
Proof. destruct Hlr as [_ H]. by apply Forall_app in H as [_ ?]. Qed.

(** A mask that separates [l] from [r]. *)
Lemma select_r m : Forall (fun x => Z.testbit m x = false) l -> Forall (fun x => Z.testbit m x = true) r -> List.filter (Z.testbit (Z.land (branch_bits (l ++ r)) m)) bit_range = r.
Proof. intros Hl Hr. rewrite masked_chars, List.filter_app, (filter_none _ l), (filter_all _ r) by done. done. Qed.
Lemma select_l m : Forall (fun x => Z.testbit m x = true) l -> Forall (fun x => Z.testbit m x = false) r -> List.filter (Z.testbit (Z.land (branch_bits (l ++ r)) m)) bit_range = l.
Proof. intros Hl Hr. rewrite masked_chars, List.filter_app, (filter_none _ r), (filter_all _ l), app_nil_r by done. done. Qed.

Lemma land63 b : is_char6 b -> Z.land b 63 = b.
Proof. intros [? ?]. change 63 with (Z.ones 6). rewrite Z.land_ones by done. apply Z.mod_small. change (2 ^ 6) with 64. lia. Qed.

(** The first branch that is not below [b]. *)
Lemma node_lower_bound b : 0 <= b -> Forall (fun x => x < b) l -> Forall (fun x => b <= x) r -> lower_bound (branch_bits (l ++ r)) b = hd 64 r.
Proof.
  intros Hb Hl Hr. unfold lower_bound. destruct (64 <=? b) eqn:E; zbool.
  - pose proof chars_r as Hc. destruct r as [|x r']; [done|]. apply Forall_cons in Hr as [Hx _]. apply Forall_cons in Hc as [Hc _]. unfold is_char6 in Hc. lia.
  - assert (is_char6 b) by (unfold is_char6; lia). unfold countr_zero. rewrite land63 by done. rewrite select_r; [by destruct r| |].
    + pose proof chars_l as Hc. rewrite Forall_forall in Hc, Hl |- *. intros x Hx. rewrite testbit_from by auto. apply Z.leb_gt. auto.
    + pose proof chars_r as Hc. rewrite Forall_forall in Hc, Hr |- *. intros x Hx. rewrite testbit_from by auto. apply Z.leb_le. auto.
Qed.

(** The last branch that is not above [b], or [-1]. *)
Lemma reverse_lower_bound_spec b : is_char6 b -> Forall (fun x => x <= b) l -> Forall (fun x => b < x) r -> reverse_lower_bound (branch_bits (l ++ r)) b = List.last l (-1).
Proof.
  intros Hb Hl Hr. unfold reverse_lower_bound, countl_zero. rewrite select_l; [lia| |].
  all: pose proof chars_l as Hcl; pose proof chars_r as Hcr; rewrite Forall_forall in Hcl, Hcr, Hl, Hr |- *; intros x Hx; unfold is_char6 in Hb.
  all: destruct (b =? 63) eqn:E; zbool; [rewrite testbit_all_ones by (apply Hcl in Hx || apply Hcr in Hx; unfold is_char6 in Hx; lia)|].
  - apply Z.ltb_lt. apply Hcl in Hx. unfold is_char6 in Hx. lia.
  - rewrite land63 by (unfold is_char6; lia). fold (mask_lt (b + 1)). rewrite testbit_mask_lt by (auto; unfold is_char6; lia). apply Z.ltb_lt. specialize (Hl x Hx). lia.
  - specialize (Hr x Hx). apply Hcr in Hx. unfold is_char6 in Hx. lia.
  - rewrite land63 by (unfold is_char6; lia). fold (mask_lt (b + 1)). rewrite testbit_mask_lt by (auto; unfold is_char6; lia). apply Z.ltb_ge. specialize (Hr x Hx). lia.
Qed.
End chars.

Lemma upper_bound_lower bits b : 0 <= b -> upper_bound bits b = lower_bound bits (b + 1).
Proof. intros. unfold upper_bound, lower_bound. destruct (63 <=? b) eqn:E1, (64 <=? b + 1) eqn:E2; zbool; (done || lia). Qed.

Lemma has_branch_spec bs b : chars_ok bs -> is_char6 b -> has_branch (branch_bits bs) b = bool_decide (b ∈ bs).
Proof.
  intros [Hs Hc] Hb. unfold has_branch. apply bool_eq. rewrite negb_true_iff, Z.eqb_neq, bool_decide_eq_true. split.
  - intros Hne. destruct (decide (b ∈ bs)) as [|Hn]; [done|]. exfalso. apply Hne. apply Z.bits_inj'. intros i Hi. rewrite Z.land_spec, Z.bits_0.
    destruct (Z.lt_ge_cases i 64) as [Hlt|Hge].
    + rewrite testbit_mask_eq by (done || split; lia). case_bool_decide; [|by rewrite andb_false_r]. subst. by rewrite testbit_branch_bits, bool_decide_false.
    + unfold mask_eq. rewrite testbit_u64 by done. replace (i <? 64) with false by (symmetry; apply Z.ltb_ge; lia). by rewrite andb_false_r.
  - intros Hin E. apply (f_equal (fun x => Z.testbit x b)) in E. rewrite Z.land_spec, Z.bits_0, testbit_mask_eq, testbit_branch_bits, !bool_decide_true in E by done. done.
Qed.

Lemma popcount_branch_bits bs : chars_ok bs -> num_branches (branch_bits bs) = Z.of_nat (length bs).
Proof. intros. unfold num_branches, popcount. by rewrite all_chars. Qed.

(** The child of a branch is at the position of its character. *)
Lemma branch_index_spec l b r : chars_ok (l ++ b :: r) -> branch_index (branch_bits (l ++ b :: r)) b = Z.of_nat (length l).
Proof.
  intros H. pose proof H as [Hs Hc]. rewrite Forall_app, Forall_cons in Hc. destruct Hc as (Hl & Hb & Hr).
  assert (Hord : Forall (fun x => x < b) l /\ Forall (fun x => b < x) r).
  { change (StronglySorted Z.lt) with (StronglySorted (below (A := Z))) in Hs. apply sorted_app in Hs as (_ & Hs & Hlt). apply sorted_cons in Hs as [_ Hs]. split; [|exact Hs].
    apply Forall_forall. intros x Hx. apply Hlt; [done|left]. }
  destruct Hord as [Hlt Hgt]. rewrite Forall_forall in Hlt, Hgt, Hl, Hr. unfold branch_index, popcount. rewrite Z.mod_small by apply Hb.
  change (b :: r) with ([b] ++ r) in H |- *. rewrite app_assoc in H |- *. rewrite select_l; [rewrite length_app; cbn; lia|done| |].
  - apply Forall_forall. intros x Hx. apply elem_of_app in Hx as [Hx|Hx%list_elem_of_singleton]; subst; rewrite testbit_upto by auto; apply Z.leb_le; [|lia]. specialize (Hlt x Hx). lia.
  - apply Forall_forall. intros x Hx. rewrite testbit_upto by auto. apply Z.leb_gt. auto.
Qed.

(** No branch under the mask. *)
Lemma branch_bits_high bs i : Forall is_char6 bs -> 64 <= i -> Z.testbit (branch_bits bs) i = false.
Proof.
  intros Hbs Hi. induction Hbs as [|b bs Hb Hbs IH]; [apply Z.bits_0|]. change (branch_bits (b :: bs)) with (Z.lor (mask_eq b) (branch_bits bs)).
  rewrite Z.lor_spec, IH. unfold mask_eq. rewrite testbit_u64 by lia. replace (i <? 64) with false by (symmetry; apply Z.ltb_ge; lia). done.
Qed.
Lemma masked_none bs m : Forall is_char6 bs -> Z.land (branch_bits bs) m = 0 <-> forall b, b ∈ bs -> Z.testbit m b = false.
Proof.
  intros Hc. split.
  - intros E b Hb. assert (Hb6 : is_char6 b) by (rewrite Forall_forall in Hc; auto). apply (f_equal (fun x => Z.testbit x b)) in E.
    rewrite Z.land_spec, Z.bits_0, testbit_branch_bits, bool_decide_true in E by done. done.
  - intros H. apply Z.bits_inj'. intros i Hi. rewrite Z.land_spec, Z.bits_0. destruct (Z.lt_ge_cases i 64) as [Hlt|Hge]; [|by rewrite branch_bits_high].
    rewrite testbit_branch_bits by (done || split; lia). case_bool_decide; [|done]. by rewrite H.
Qed.

(** An inner node finds a child by counting bits: the child of a branch is at the
    position of its character among the branches, and the bit searches return the
    neighbours of a character. *)
Theorem branch_bits_search l b r : chars_ok (l ++ b :: r) ->
  let bits := branch_bits (l ++ b :: r) in
  has_branch bits b = true /\ num_branches bits = Z.of_nat (length (l ++ b :: r)) /\
  branch_index bits b = Z.of_nat (length l) /\ lower_bound bits b = b /\ upper_bound bits b = hd 64 r /\ reverse_lower_bound bits b = b.
Proof.
  intros H. cbv zeta. pose proof H as [Hs Hc]. assert (Hb : is_char6 b) by (apply Forall_app in Hc as [_ Hc]; by apply Forall_cons in Hc as [? _]).
  assert (Hord : Forall (fun x => x < b) l /\ Forall (fun x => b < x) r).
  { change (StronglySorted Z.lt) with (StronglySorted (below (A := Z))) in Hs. apply sorted_app in Hs as (_ & Hs & Hlt). apply sorted_cons in Hs as [_ Hs]. split; [|exact Hs].
    apply Forall_forall. intros x Hx. apply Hlt; [done|left]. }
  destruct Hord as [Hl Hr]. pose proof Hb as [Hb0 _]. assert (H' : chars_ok ((l ++ [b]) ++ r)) by (rewrite <- app_assoc; done).
  split; [rewrite has_branch_spec, bool_decide_true; [done|apply elem_of_app; right; left|done..]|]. split; [by apply popcount_branch_bits|]. split; [by apply branch_index_spec|]. split; [|split].
  - rewrite node_lower_bound; [done|done|done|done|]. constructor; [lia|]. eapply Forall_impl; [exact Hr|]. cbn. lia.
  - rewrite upper_bound_lower by done. replace (l ++ b :: r) with ((l ++ [b]) ++ r) by (by rewrite <- app_assoc). apply node_lower_bound; [done|lia|..]; [apply Forall_app; split; [eapply Forall_impl; [exact Hl|]; cbn; lia|repeat constructor; lia]|].
    eapply Forall_impl; [exact Hr|]. cbn. lia.
  - replace (l ++ b :: r) with ((l ++ [b]) ++ r) by (by rewrite <- app_assoc). rewrite reverse_lower_bound_spec; [apply List.last_last|done|done| |done]. apply Forall_app. split; [eapply Forall_impl; [exact Hl|]; cbn; lia|repeat constructor; lia].
Qed.
Lemma branch_bits_search_witness : branch_index (branch_bits [3; 17; 63]) 17 = 1 /\ upper_bound (branch_bits [3; 17; 63]) 17 = 63.
Proof.
  destruct (branch_bits_search [3] 17 [63]) as (_ & _ & E & _ & U & _).
  - split; [repeat constructor; lia|repeat (apply Forall_cons; split; [unfold is_char6; lia|]); apply Forall_nil_2].
  - cbn [app] in E, U. split; [rewrite E; reflexivity|rewrite U; reflexivity].
Defined.
