(* ===== verification/Trie.v ===== *)
(** * triedent: the tree

    Source: libraries/triedent/include/triedent/database.hpp and node.hpp.  A
    tree is what the nodes below an [object_id] unfold to: a value node holds the
    rest of a key and its data, an inner node holds a common prefix, the value of
    the key that ends there, and one child per six-bit character, in order.
    Nodes are immutable at this level; [TrieStore] has the store, the reference
    counts and the modification in place.

    The operations are those of [session] and [write_session]: the lookups
    [unguarded_get], [unguarded_get_greater_equal], [unguarded_get_less_than],
    [unguarded_get_max] and [is_empty_in_range], and the updates [add_child] and
    [remove_child].  They work on keys of six-bit characters; [TrieMap] has the
    operations on byte strings.

    A node of the source keeps the size of its key in a [uint8_t].  A tree is what
    the source has as long as the keys of its nodes fit ([keys_fit]); [TrieMap]
    shows that they do when the keys of the map have at most 191 bytes, and
    [TrieStore] has no other nodes. *)

From S2P Require Import Prelude Database Key6 NodeBits.

#[local] Set Warnings "-register-all".

Section trie.
Context {V : Type}.

(** The data of a value node is of type [V]; the value of an inner node is a value
    node with an empty key.  The type has keys of every length, where the source
    has those with [keys_fit] only. *)
Inductive trie :=
  | value_node (key : list Z) (data : V)
  | inner_node (key : list Z) (value : option V) (children : list (Z * trie)).

(** [_key_size] of [value_node] and [_prefix_length] of [inner_node] are [uint8_t]. *)
Definition max_key_size : nat := 255.
Fixpoint keys_fit (t : trie) : bool :=
  match t with
  | value_node k _ => (length k <=? max_key_size)%nat
  | inner_node k _ bs => (length k <=? max_key_size)%nat && forallb (fun '(_, c) => keys_fit c) bs
  end.

Definition branches (bs : list (Z * trie)) : Z := branch_bits (map fst bs).

(** [in.branch(b)] where [in.has_branch(b)], and [d] where it has not: [f] is what
    is done with the child. *)
Definition on_branch {A} (f : trie -> A) (d : A) (b : Z) : list (Z * trie) -> A :=
  fix go bs :=
    match bs with
    | [] => d
    | (b', c) :: bs => if b' =? b then f c else go bs
    end.
Definition maybe_branch (b : Z) (bs : list (Z * trie)) : option trie := on_branch Some None b bs.

(** [branch(b) = c] in a node that has, or is given, the bit [b]. *)
Fixpoint set_branch (b : Z) (c : trie) (bs : list (Z * trie)) : list (Z * trie) :=
  match bs with
  | [] => [(b, c)]
  | (b', c') :: bs => if b' =? b then (b, c) :: bs else if b <? b' then (b, c) :: (b', c') :: bs else (b', c') :: set_branch b c bs
  end.
(** [clone_inner] without the bit [b]. *)
Definition drop_branch (b : Z) (bs : list (Z * trie)) : list (Z * trie) := List.filter (fun '(b', _) => negb (b' =? b)) bs.

(** [common_prefix] *)
Fixpoint common_prefix (a b : list Z) : list Z :=
  match a, b with
  | x :: a, y :: b => if x =? y then x :: common_prefix a b else []
  | _, _ => []
  end.

(** [k[n]], for [n] below the size. *)
Definition at_ (k : list Z) (n : nat) : Z := nth n k 0.
Abbreviation keq := (fun a b : list Z => bool_decide (a = b)).

(** ** Lookups *)

(** [unguarded_get] *)
Fixpoint unguarded_get (root : trie) (key : list Z) : option V :=
  match root with
  | value_node k v => if keq k key then Some v else None
  | inner_node in_key v bs =>
      if (length key <? length in_key)%nat then None
      else if keq key in_key then v
      else
        let cpre := common_prefix key in_key in
        if negb (keq cpre in_key) then None
        else on_branch (fun c => unguarded_get c (drop (length cpre + 1) key)) None (at_ key (length cpre)) bs
  end.

(** A result below the branch [b] of a node with prefix [k]. *)
Definition under (k : list Z) (r : option (list Z * V)) : option (list Z * V) := (fun '(k', v) => (k ++ k', v)) <$> r.

(** [unguarded_get_greater_equal]: the loop over the branches from [b] on.  [b]
    grows, so 65 turns are enough. *)
Fixpoint ge_loop (search : Z -> list Z -> option (list Z * V)) (bits : Z) (n : nat) (b : Z) (key : list Z) : option (list Z * V) :=
  match n with
  | O => None
  | S n =>
      if 64 <=? b then None
      else match search b key with
           | Some (k, v) => Some (b :: k, v)
           | None => ge_loop search bits n (lower_bound bits (b + 1)) []
           end
  end.

Fixpoint unguarded_get_greater_equal (root : trie) (key : list Z) : option (list Z * V) :=
  match root with
  | value_node vn_key v => if negb (lle key vn_key) then None else Some (vn_key, v)
  | inner_node in_key value bs =>
      let cpre := common_prefix in_key key in
      let search := fun b key => on_branch (fun c => unguarded_get_greater_equal c key) None b bs in
      let go := fun key : list Z =>
        let first start_b key :=
          let b := lower_bound (branches bs) start_b in
          ge_loop search (branches bs) 65 b (if start_b <? b then [] else key) in
        under in_key
          match key, value with
          | start_b :: key, _ => first start_b key
          | [], Some v => Some ([], v)
          | [], None => first 0 []
          end in
      if keq cpre in_key then go (drop (length cpre) key)
      else if negb (lle key in_key) then None
      else go []
  end.

(** [unguarded_get_less_than]: the loop over the branches from [b] down. *)
Fixpoint lt_loop (search : Z -> option (list Z) -> option (list Z * V)) (bits : Z) (n : nat) (b : Z) (key : option (list Z)) : option (list Z * V) :=
  match n with
  | O => None
  | S n =>
      if b <? 0 then None
      else match search b key with
           | Some (k, v) => Some (b :: k, v)
           | None => if b <? 1 then None else lt_loop search bits n (reverse_lower_bound bits (b - 1)) None
           end
  end.

Fixpoint unguarded_get_less_than (root : trie) (key : option (list Z)) : option (list Z * V) :=
  match root with
  | value_node vn_key v =>
      match key with
      | Some key => if lle key vn_key then None else Some (vn_key, v)
      | None => Some (vn_key, v)
      end
  | inner_node in_key value bs =>
      let search := fun b key => on_branch (fun c => unguarded_get_less_than c key) None b bs in
      let go := fun last_b key =>
        let b := reverse_lower_bound (branches bs) last_b in
        under in_key
          match lt_loop search (branches bs) 65 b (if b <? last_b then None else key) with
          | Some r => Some r
          | None => match value with Some v => Some ([], v) | None => None end
          end in
      match key with
      | None => go 63 None
      | Some key =>
          if lle key in_key then None
          else
            let cpre := common_prefix in_key key in
            if keq cpre in_key then go (at_ key (length cpre)) (Some (drop (length cpre + 1) key))
            else go 63 None
      end
  end.

(** [unguarded_get_max]: the turns of its loop are the calls. *)
Fixpoint unguarded_get_max (root : trie) (prefix_min prefix_max : list Z) : option (list Z * V) :=
  match root with
  | value_node vn_key v =>
      if (length vn_key <? length prefix_min)%nat || negb (lle prefix_min (take (length prefix_min) vn_key)) || negb (lle (take (length prefix_max) vn_key) prefix_max)
      then None else Some (vn_key, v)
  | inner_node in_key _ bs =>
      let l := Nat.min (length in_key) (length prefix_min) in
      if negb (lle (take l prefix_min) (take l in_key)) || negb (lle (take l in_key) (take l prefix_max)) then None
      else
        let '(first_b, last_b, prefix_min, prefix_max) :=
          match drop l prefix_min, drop l prefix_max with
          | first_b :: prefix_min, last_b :: prefix_max => (first_b, last_b, prefix_min, prefix_max)
          | prefix_min, prefix_max => (0, 63, prefix_min, prefix_max)
          end in
        let b := reverse_lower_bound (branches bs) last_b in
        if b <? first_b then None
        else under (in_key ++ [b]) (on_branch (fun c => unguarded_get_max c prefix_min prefix_max) None b bs)
  end.

(** ** Ranges *)

(** [extended_key_type]: [lowest_key], a string, or [highest_key]. *)
Inductive extended_key := lowest_key | Key (k : list Z) | highest_key.

(** [a < e] and [a >= e] *)
Definition before_key (a : list Z) (e : extended_key) : bool :=
  match e with lowest_key => false | Key k => negb (lle k a) | highest_key => true end.
Definition starts_with (e : extended_key) (p : list Z) : bool :=
  match e with Key k => has_prefix p k | _ => false end.
Definition key_at (e : extended_key) (n : nat) : Z := match e with Key k => at_ k n | _ => 0 end.
Definition substr (e : extended_key) (n : nat) : extended_key := match e with Key k => Key (drop n k) | e => e end.

(** [prefix_overlap]: [intersects], [has_lower], [has_upper]. *)
Definition prefix_overlap (prefix : list Z) (lower upper : extended_key) : bool * bool * bool :=
  if before_key prefix lower && negb (starts_with lower prefix) || negb (before_key prefix upper) then (false, false, false)
  else (true, before_key prefix lower, starts_with upper prefix).

(** [is_empty_in_range] *)
Fixpoint is_empty_in_range (root : trie) (lower upper : extended_key) : bool :=
  match root with
  | value_node key _ => before_key key lower || negb (before_key key upper)
  | inner_node key value bs =>
      let '(intersects, has_lower, has_upper) := prefix_overlap key lower upper in
      if negb intersects then true
      else
        let offset := length key in
        let below b lower upper := on_branch (fun c => is_empty_in_range c lower upper) true b bs in
        if has_lower && has_upper && (key_at lower offset =? key_at upper offset) then
          below (key_at lower offset) (substr lower (offset + 1)) (substr upper (offset + 1))
        else
          let lmask := if has_lower then mask_gt (key_at lower offset) else all_ones in
          let umask := if has_upper then mask_lt (key_at upper offset) else all_ones in
          let mask := Z.land lmask umask in
          if negb (Z.land (branches bs) mask =? 0) then false
          else if negb has_lower && match value with Some _ => true | None => false end then false
          else if has_lower && negb (below (key_at lower offset) (substr lower (offset + 1)) highest_key) then false
          else if has_upper && negb (below (key_at upper offset) lowest_key (substr upper (offset + 1))) then false
          else true
  end.

(** ** Updates *)

Context (data_size : V -> Z).

(** [combine_value_nodes]: two value nodes whose keys differ. *)
Definition combine_ordered (k1 : list Z) (v1 : V) (k2 : list Z) (v2 : V) : trie :=
  let cpre := common_prefix k1 k2 in
  let b2 := at_ k2 (length cpre) in
  if keq cpre k1 then inner_node cpre (Some v1) (set_branch b2 (value_node (drop (length cpre + 1) k2) v2) [])
  else
    let b1 := at_ k1 (length cpre) in
    inner_node cpre None (set_branch b2 (value_node (drop (length cpre + 1) k2) v2) (set_branch b1 (value_node (drop (length cpre + 1) k1) v1) [])).
Definition combine_value_nodes (k1 : list Z) (v1 : V) (k2 : list Z) (v2 : V) : trie :=
  if (length k2 <? length k1)%nat then combine_ordered k2 v2 k1 v1 else combine_ordered k1 v1 k2 v2.

(** [add_child], with [old_size], which is -1 where there was no value. *)
Fixpoint add_child (root : trie) (key : list Z) (val : V) : trie * Z :=
  match root with
  | value_node k v =>
      if negb (keq k key) then (combine_value_nodes k v key val, -1)
      else (value_node key val, data_size v)
  | inner_node in_key value bs =>
      if keq in_key key then (inner_node in_key (Some val) bs, match value with Some v => data_size v | None => -1 end)
      else
        let cpre := common_prefix key in_key in
        if keq cpre in_key then
          let b := at_ key (length cpre) in
          let rest := drop (length cpre + 1) key in
          let '(new_b, old_size) := on_branch (fun c => add_child c rest val) (value_node rest val, -1) b bs in
          (inner_node in_key value (set_branch b new_b bs), old_size)
        else
          let b2 := at_ in_key (length cpre) in
          let sub := inner_node (drop (length cpre + 1) in_key) value bs in
          if keq cpre key then (inner_node cpre (Some val) (set_branch b2 sub []), -1)
          else
            let b1 := at_ key (length cpre) in
            let b1val := value_node (drop (length cpre + 1) key) val in
            (inner_node cpre None (set_branch b2 sub (set_branch b1 b1val [])), -1)
  end.

(** A node with a longer key: [clone_value] or [clone_inner] with [new_key]. *)
Definition with_prefix (p : list Z) (t : trie) : trie :=
  match t with
  | value_node k v => value_node (p ++ k) v
  | inner_node k v bs => inner_node (p ++ k) v bs
  end.

(** [remove_child], with [removed_size]. *)
Fixpoint remove_child (root : trie) (key : list Z) : option trie * Z :=
  match root with
  | value_node k v => if keq k key then (None, data_size v) else (Some root, -1)
  | inner_node in_key value bs =>
      if (length key <? length in_key)%nat then (Some root, -1)
      else if keq in_key key then
        match value with
        | None => (Some root, -1)
        | Some iv =>
            match bs with
            | [(b, c)] => (Some (with_prefix (in_key ++ [b]) c), data_size iv)
            | _ => (Some (inner_node in_key None bs), data_size iv)
            end
        end
      else
        let cpre := common_prefix in_key key in
        if negb (keq cpre in_key) then (Some root, -1)
        else
          let b := at_ key (length in_key) in
          on_branch (fun c =>
            let '(new_b, removed_size) := remove_child c (drop (length in_key + 1) key) in
            match new_b with
            | Some new_b => (Some (inner_node in_key value (set_branch b new_b bs)), removed_size)
            | None =>
                let new_branches := drop_branch b bs in
                match new_branches, value with
                | [], Some v => (Some (value_node in_key v), removed_size)
                | [(lb, last_branch)], None => (Some (with_prefix (in_key ++ [lb]) last_branch), removed_size)
                | _, _ => (Some (inner_node in_key value new_branches), removed_size)
                end
            end) (Some root, -1) b bs
  end.
End trie.
Arguments trie : clear implicits.
