(* ===== verification/TrieLaws.v ===== *)
(** * triedent: the laws of the tree

    The tree of [Trie] is an ordered map of six-bit strings: what [unguarded_get]
    finds after [add_child] and [remove_child], that the ordered lookups return
    the neighbours in the sorted list of its entries, and that the updates keep
    the shape of a compressed trie, in which every inner node has two children or
    more. *)

From S2P Require Import Prelude Ordered Database Key6 NodeBits Trie.

(** ** Keys and their prefixes *)

Lemma common_prefix_left k r : common_prefix (k ++ r) k = k.
Proof. induction k as [|x k IH]; cbn; [by destruct r|]. by rewrite Z.eqb_refl, IH. Qed.
Lemma common_prefix_right k r : common_prefix k (k ++ r) = k.
Proof. induction k as [|x k IH]; cbn; [done|]. by rewrite Z.eqb_refl, IH. Qed.
Lemma common_prefix_refl k : common_prefix k k = k.
Proof. rewrite <- (app_nil_r k) at 2. apply common_prefix_right. Qed.
Lemma common_prefix_fork c x a y b : x <> y -> common_prefix (c ++ x :: a) (c ++ y :: b) = c.
Proof. intros H. induction c as [|z c IH]; cbn; [by rewrite (proj2 (Z.eqb_neq _ _) H)|]. by rewrite Z.eqb_refl, IH. Qed.

(** How a key lies with respect to a prefix. *)
Inductive lies (key k : list Z) : Prop :=
  | lies_at : key = k -> lies key k
  | lies_below b r : key = k ++ b :: r -> lies key k
  | lies_above b r : k = key ++ b :: r -> lies key k
  | lies_beside c x a y b : key = c ++ x :: a -> k = c ++ y :: b -> x <> y -> lies key k.

Lemma lies_dec key k : lies key k.
Proof.
  revert k. induction key as [|x key IH]; intros k.
  - destruct k as [|y k]; [by apply lies_at|by eapply lies_above].
  - destruct k as [|y k]; [by eapply lies_below|]. destruct (decide (x = y)) as [->|H]; [|by eapply (lies_beside _ _ [])].
    destruct (IH k) as [->|b r ->|b r ->|c u a w b -> -> Hne]; [by apply lies_at|by eapply lies_below|by eapply lies_above|by eapply (lies_beside _ _ (y :: c))].
Qed.

Ltac lies_cases key k :=
  destruct (lies_dec key k) as [?|? ? ?|? ? ?|? ? ? ? ? ? ? ?]; subst.

Lemma at_app k b r : at_ (k ++ b :: r) (length k) = b.
Proof. unfold at_. rewrite app_nth2, Nat.sub_diag by lia. done. Qed.
Lemma drop_app_S (k : list Z) b r : drop (length k + 1) (k ++ b :: r) = r.
Proof. rewrite <- drop_drop, drop_app_length. done. Qed.
Lemma app_neq (k : list Z) b r : k ++ b :: r <> k.
Proof. intros H. apply (f_equal length) in H. rewrite length_app in H. cbn in H. lia. Qed.
Lemma fork_neq (c : list Z) x a y b : x <> y -> c ++ x :: a <> c ++ y :: b.
Proof. intros H E. apply app_inv_head in E. congruence. Qed.
Lemma fork_prefix (c : list Z) x a y b r : x <> y -> c ++ x :: a <> (c ++ y :: b) ++ r.
Proof. intros H E. rewrite <- app_assoc in E. apply app_inv_head in E. cbn in E. congruence. Qed.

(** A key is at a prefix, below it or apart from it. *)
Lemma lies_apart (key k : list Z) : key = k \/ (exists b r, key = k ++ b :: r) \/ (key <> k /\ forall b r, key <> k ++ b :: r).
Proof.
  lies_cases key k; [by left|right; left; by eexists _, _|right; right..]; split.
  - intros E. symmetry in E. by apply app_neq in E.
  - intros b' r' E. apply (f_equal length) in E. rewrite !length_app in E. cbn in E. lia.
  - by apply fork_neq.
  - intros b' r'. by apply fork_prefix.
Qed.
Lemma keq_refl (k : list Z) : bool_decide (k = k) = true.
Proof. by apply bool_decide_true. Qed.
Lemma cons_app (k : list Z) b r : k ++ b :: r = (k ++ [b]) ++ r.
Proof. by rewrite <- app_assoc. Qed.
Lemma ltb_app (k r : list Z) : (length (k ++ r) <? length k)%nat = false.
Proof. apply Nat.ltb_ge. rewrite length_app. lia. Qed.

(** ** Branches *)

Section laws.
Context {V : Type}.
Implicit Types (t : trie V) (bs : list (Z * trie V)).

Lemma trie_rect' (P : trie V -> Prop) :
  (forall k v, P (value_node k v)) -> (forall k v bs, Forall (fun p => P p.2) bs -> P (inner_node k v bs)) -> forall t, P t.
Proof.
  intros Hv Hi. fix IH 1. intros [k v|k v bs]; [apply Hv|]. apply Hi.
  induction bs as [|[b c] bs IHbs]; constructor; [apply IH|apply IHbs].
Qed.

Lemma on_branch_maybe {A} (f : trie V -> A) d b bs : on_branch f d b bs = match maybe_branch b bs with Some c => f c | None => d end.
Proof. unfold maybe_branch. induction bs as [|[b' c] bs IH]; cbn; [done|]. destruct (b' =? b); [done|apply IH]. Qed.

Definition branches_ok bs : Prop := chars_ok (map fst bs).

Lemma maybe_branch_elem b c bs : maybe_branch b bs = Some c -> (b, c) ∈ bs.
Proof.
  unfold maybe_branch. induction bs as [|[b' c'] bs IH]; cbn; [done|]. destruct (b' =? b) eqn:E; zbool; [|intros; right; auto].
  intros [= ->]. subst. left.
Qed.
Lemma maybe_branch_none b bs : maybe_branch b bs = None <-> b ∉ map fst bs.
Proof.
  unfold maybe_branch. induction bs as [|[b' c'] bs IH]; cbn; [split; [intros _; apply not_elem_of_nil|done]|].
  destruct (b' =? b) eqn:E; zbool; rewrite not_elem_of_cons; [split; [done|by intros [? _]]|]. rewrite IH. split; [intros; split; congruence|by intros [_ ?]].
Qed.
Lemma maybe_set b c bs b' : maybe_branch b' (set_branch b c bs) = if b' =? b then Some c else maybe_branch b' bs.
Proof.
  unfold maybe_branch. induction bs as [|[b0 c0] bs IH]; cbn; [by rewrite Z.eqb_sym|].
  destruct (b0 =? b) eqn:E0; zbool; [subst; cbn; rewrite (Z.eqb_sym b b'); by destruct (b' =? b)|].
  destruct (b <? b0) eqn:E1; cbn; [by rewrite (Z.eqb_sym b b')|]. rewrite IH. destruct (b0 =? b') eqn:E2; zbool; [|done]. subst.
  by rewrite (proj2 (Z.eqb_neq _ _) E0).
Qed.
Lemma maybe_drop b bs b' : maybe_branch b' (drop_branch b bs) = if b' =? b then None else maybe_branch b' bs.
Proof.
  unfold maybe_branch, drop_branch. induction bs as [|[b0 c0] bs IH]; cbn; [by destruct (b' =? b)|].
  destruct (b0 =? b) eqn:E0; cbn; zbool.
  - subst. rewrite IH, (Z.eqb_sym b b'). by destruct (b' =? b).
  - rewrite IH. destruct (b0 =? b') eqn:E2; zbool; [|done]. subst. by rewrite (proj2 (Z.eqb_neq _ _) E0).
Qed.

(** ** The equations of the lookup *)

Abbreviation get := (unguarded_get (V := V)).

Lemma get_value k v key : get (value_node k v) key = if bool_decide (k = key) then Some v else None.
Proof. done. Qed.
Lemma get_at k v bs : get (inner_node k v bs) k = v.
Proof. cbn [unguarded_get]. by rewrite Nat.ltb_irrefl, keq_refl. Qed.
Lemma get_below k v bs b r : get (inner_node k v bs) (k ++ b :: r) = match maybe_branch b bs with Some c => get c r | None => None end.
Proof.
  cbn [unguarded_get]. rewrite ltb_app, bool_decide_false, common_prefix_left, keq_refl, at_app, drop_app_S by apply app_neq. apply on_branch_maybe.
Qed.
Lemma get_apart k v bs key : (forall r, key <> k ++ r) -> get (inner_node k v bs) key = None.
Proof.
  intros H. cbn [unguarded_get]. destruct (length key <? length k)%nat; [done|]. lies_cases key k.
  - by destruct (H []); rewrite app_nil_r.
  - by destruct (H (b :: r)).
  - rewrite bool_decide_false by (intros E; symmetry in E; by apply app_neq in E). rewrite common_prefix_right, bool_decide_false; [done|].
    intros E. symmetry in E. by apply app_neq in E.
  - rewrite bool_decide_false, common_prefix_fork, bool_decide_false; [done|intros E; symmetry in E; by apply app_neq in E|done|by apply fork_neq].
Qed.
Lemma get_above key b r v bs : get (inner_node (key ++ b :: r) v bs) key = None.
Proof. apply get_apart. intros r' E. apply (f_equal length) in E. rewrite !length_app in E. cbn in E. lia. Qed.
Lemma get_beside c x a y b v bs : x <> y -> get (inner_node (c ++ y :: b) v bs) (c ++ x :: a) = None.
Proof. intros H. apply get_apart. intros r. by apply fork_prefix. Qed.

(** A node with a longer key holds the keys with that prefix. *)
Lemma get_with_prefix p t r : get (with_prefix p t) (p ++ r) = get t r.
Proof.
  destruct t as [k v|k v bs]; cbn [with_prefix].
  - rewrite !get_value. by rewrite (bool_decide_ext _ (k = r)) by (split; [apply app_inv_head|by intros ->]).
  - lies_cases r k; rewrite ?app_assoc.
    + by rewrite !get_at.
    + by rewrite <- app_assoc, app_assoc, !get_below.
    + by rewrite !get_above.
    + rewrite !get_beside by done. done.
Qed.
Lemma get_without_prefix p t key : (forall r, key <> p ++ r) -> get (with_prefix p t) key = None.
Proof.
  intros H. destruct t as [k v|k v bs]; cbn [with_prefix].
  - rewrite get_value, bool_decide_false; [done|]. intros <-. by apply (H k).
  - apply get_apart. intros r ->. apply (H (k ++ r)). by rewrite app_assoc.
Qed.

(** A longer key in an inner node or in a value node. *)
Lemma get_longer c y t b r : get (with_prefix (c ++ [y]) t) (c ++ b :: r) = if b =? y then get t r else None.
Proof.
  destruct (b =? y) eqn:E; zbool.
  - subst. by rewrite (cons_app c y r), get_with_prefix.
  - apply get_without_prefix. intros r' H. rewrite <- app_assoc in H. apply app_inv_head in H. cbn in H. congruence.
Qed.
Lemma get_longer_apart c y t key : (forall b r, key <> c ++ b :: r) -> get (with_prefix (c ++ [y]) t) key = None.
Proof. intros H. apply get_without_prefix. intros r. rewrite <- app_assoc. apply H. Qed.

(** The keys of an inner node start with its prefix. *)
Lemma get_inner_apart k v bs key : key <> k -> (forall b r, key <> k ++ b :: r) -> get (inner_node k v bs) key = None.
Proof. intros H1 H2. apply get_apart. intros [|b r]; [by rewrite app_nil_r|apply H2]. Qed.

(** Two trees whose keys start with [c] and that agree below it agree. *)
Lemma get_ext c (f g : list Z -> option V) :
  (forall key, key <> c -> (forall b r, key <> c ++ b :: r) -> f key = g key) -> f c = g c -> (forall b r, f (c ++ b :: r) = g (c ++ b :: r)) -> forall key, f key = g key.
Proof.
  intros Hapart Hat Hbelow key. destruct (lies_apart key c) as [->|[(b & r & ->)|[? ?]]]; auto.
Qed.

(** ** Lookups after [add_child] *)

Variable data_size : V -> Z.
Abbreviation add := (add_child data_size).
Abbreviation remove := (remove_child data_size).

Lemma add_at k v bs val : (add (inner_node k v bs) k val).1 = inner_node k (Some val) bs.
Proof. cbn [add_child]. by rewrite keq_refl. Qed.
Lemma add_below k v bs b r val :
  (add (inner_node k v bs) (k ++ b :: r) val).1 = inner_node k v (set_branch b (match maybe_branch b bs with Some c => (add c r val).1 | None => value_node r val end) bs).
Proof.
  cbn [add_child]. rewrite bool_decide_false by (intros E; symmetry in E; by apply app_neq in E). rewrite common_prefix_left, keq_refl, at_app, drop_app_S, on_branch_maybe.
  destruct (maybe_branch b bs) as [c|]; [by destruct (add c r val)|done].
Qed.
Lemma add_above key b r v bs val : (add (inner_node (key ++ b :: r) v bs) key val).1 = inner_node key (Some val) (set_branch b (inner_node r v bs) []).
Proof.
  cbn [add_child]. rewrite bool_decide_false, common_prefix_right, bool_decide_false, keq_refl, at_app, drop_app_S; [done|intros E; symmetry in E; by apply app_neq in E|apply app_neq].
Qed.
Lemma add_beside c x a y b v bs val : x <> y ->
  (add (inner_node (c ++ y :: b) v bs) (c ++ x :: a) val).1 = inner_node c None (set_branch y (inner_node b v bs) (set_branch x (value_node a val) [])).
Proof.
  intros H. cbn [add_child]. rewrite bool_decide_false by (by apply fork_neq). rewrite common_prefix_fork by done.
  rewrite !bool_decide_false by (intros E; symmetry in E; by apply app_neq in E). by rewrite !at_app, !drop_app_S.
Qed.

(** What a lookup finds after the update of one key. *)
Definition updated (m : list Z -> option V) (key : list Z) (o : option V) (key' : list Z) : option V :=
  if bool_decide (key' = key) then o else m key'.

Lemma updated_at m key o : updated m key o key = o.
Proof. unfold updated. by rewrite keq_refl. Qed.
Lemma updated_ne m key o key' : key' <> key -> updated m key o key' = m key'.
Proof. intros. unfold updated. by rewrite bool_decide_false. Qed.
Lemma updated_app m c key o key' : updated m (c ++ key) o (c ++ key') = updated (fun k => m (c ++ k)) key o key'.
Proof. unfold updated. by rewrite (bool_decide_ext _ (key' = key)) by (split; [apply app_inv_head|by intros ->]). Qed.

Lemma below_at (c : list Z) b r : c ++ b :: r <> c.
Proof. apply app_neq. Qed.
Lemma at_below (c : list Z) b r : c <> c ++ b :: r.
Proof. intros E. symmetry in E. by apply app_neq in E. Qed.
Lemma below_ne (c : list Z) b r b' r' : b <> b' -> c ++ b :: r <> c ++ b' :: r'.
Proof. apply fork_neq. Qed.
#[local] Hint Resolve below_at at_below below_ne : core.

(** An update of a key that is at or below [c] does not concern the others. *)
Lemma apart_updated m c key o key' : (exists r, key = c ++ r) -> key' <> c -> (forall b r, key' <> c ++ b :: r) -> updated m key o key' = m key'.
Proof. intros [r ->] H1 H2. apply updated_ne. intros ->. destruct r as [|b r]; [by rewrite app_nil_r in H1|by eapply H2]. Qed.

Lemma get_single b t b' bs : bs = set_branch b t [] -> maybe_branch b' bs = if b' =? b then Some t else None.
Proof. intros ->. apply maybe_set. Qed.

(** A node that splits at [c]: the old keys below [y], the new one at [c]. *)
Lemma split_at c y t val key' :
  get (inner_node c (Some val) (set_branch y t [])) key' = updated (get (with_prefix (c ++ [y]) t)) c (Some val) key'.
Proof.
  revert key'. apply (get_ext c).
  - intros key H1 H2. rewrite get_inner_apart, (apart_updated _ c), get_longer_apart by (done || by exists []; rewrite app_nil_r). done.
  - by rewrite get_at, updated_at.
  - intros b r. rewrite get_below, maybe_set, updated_ne, get_longer by auto. by destruct (b =? y).
Qed.
(** A node that splits at [c]: the old keys below [y], the new one below [x]. *)
Lemma split_beside c x a y t val key' : x <> y ->
  get (inner_node c None (set_branch y t (set_branch x (value_node a val) []))) key' = updated (get (with_prefix (c ++ [y]) t)) (c ++ x :: a) (Some val) key'.
Proof.
  intros Hne. revert key'. apply (get_ext c).
  - intros key H1 H2. rewrite get_inner_apart, (apart_updated _ c), get_longer_apart by (done || by eexists). done.
  - rewrite get_at, updated_ne, get_longer_apart by auto. done.
  - intros b r. rewrite get_below, !maybe_set. destruct (decide (b = y)) as [->|Hy].
    + rewrite Z.eqb_refl, updated_ne, get_longer, Z.eqb_refl by auto. done.
    + rewrite (proj2 (Z.eqb_neq _ _) Hy). destruct (decide (b = x)) as [->|Hx].
      * rewrite Z.eqb_refl, get_value, updated_app. unfold updated. rewrite get_longer, (proj2 (Z.eqb_neq _ _) Hy).
        rewrite (bool_decide_ext (x :: r = x :: a) (r = a)), (bool_decide_ext (a = r) (r = a)); [by case_bool_decide|split; congruence..].
      * rewrite (proj2 (Z.eqb_neq _ _) Hx), updated_ne, get_longer, (proj2 (Z.eqb_neq _ _) Hy) by auto. done.
Qed.

Lemma get_combine_ordered k1 v1 k2 v2 key : k1 <> k2 -> (length k1 <= length k2)%nat ->
  get (combine_ordered k1 v1 k2 v2) key = updated (get (value_node k2 v2)) k1 (Some v1) key.
Proof.
  intros Hne Hlen. unfold combine_ordered. lies_cases k2 k1; [done|..].
  - rewrite common_prefix_right, keq_refl, at_app, drop_app_S, split_at. cbn [with_prefix]. by rewrite <- app_assoc.
  - rewrite length_app in Hlen. cbn in Hlen. lia.
  - rewrite common_prefix_fork, bool_decide_false, !at_app, !drop_app_S, split_beside by auto. cbn [with_prefix]. by rewrite <- app_assoc.
Qed.
Lemma updated_swap k1 v1 k2 v2 key : k1 <> k2 -> updated (get (value_node k2 v2)) k1 (Some v1) key = updated (get (value_node k1 v1)) k2 (Some v2) key.
Proof. intros Hne. unfold updated. rewrite !get_value. repeat case_bool_decide; congruence. Qed.
Lemma get_combine k1 v1 k2 v2 key : k1 <> k2 -> get (combine_value_nodes k1 v1 k2 v2) key = updated (get (value_node k1 v1)) k2 (Some v2) key.
Proof.
  intros Hne. unfold combine_value_nodes. destruct (length k2 <? length k1)%nat eqn:E; zbool.
  - apply get_combine_ordered; [done|lia].
  - rewrite get_combine_ordered by (done || lia). by apply updated_swap.
Qed.

(** A branch is replaced. *)
Lemma get_set_branch k v bs b t' (o : option V) r key' :
  (forall r', get t' r' = updated (fun r' => match maybe_branch b bs with Some t => get t r' | None => None end) r o r') ->
  get (inner_node k v (set_branch b t' bs)) key' = updated (get (inner_node k v bs)) (k ++ b :: r) o key'.
Proof.
  intros Ht. revert key'. apply (get_ext k).
  - intros key H1 H2. rewrite (apart_updated _ k), !get_inner_apart by (done || by eexists). done.
  - rewrite updated_ne, !get_at by auto. done.
  - intros b' r'. rewrite get_below, maybe_set. destruct (b' =? b) eqn:E; zbool.
    + subst. rewrite Ht, updated_app. unfold updated. rewrite get_below. by rewrite (bool_decide_ext (b :: r' = b :: r) (r' = r)) by (split; congruence).
    + rewrite updated_ne, get_below by auto. done.
Qed.

Lemma get_add t key val key' : get (add t key val).1 key' = updated (get t) key (Some val) key'.
Proof.
  revert key key'. induction t as [k v|k v bs IH] using trie_rect'; intros key key'.
  - cbn [add_child]. case_bool_decide; cbn [negb fst]; [|by apply get_combine]. subst. unfold updated. rewrite !get_value. repeat case_bool_decide; congruence.
  - lies_cases key k.
    + rewrite add_at. revert key'. apply (get_ext k).
      * intros key H1 H2. rewrite updated_ne, !get_inner_apart by done. done.
      * by rewrite get_at, updated_at.
      * intros b r. by rewrite updated_ne, !get_below by auto.
    + rewrite add_below. apply get_set_branch. intros r'. destruct (maybe_branch b bs) as [t|] eqn:E.
      * apply maybe_branch_elem in E. rewrite Forall_forall in IH. by apply (IH (b, t)).
      * rewrite get_value. unfold updated. by rewrite (bool_decide_ext (r = r') (r' = r)) by (split; congruence).
    + rewrite add_above, split_at. cbn [with_prefix]. by rewrite <- app_assoc.
    + rewrite add_beside, split_beside by auto. cbn [with_prefix]. by rewrite <- app_assoc.
Qed.

Definition size_of (o : option V) : Z := match o with Some v => data_size v | None => -1 end.

Lemma add_size t key val : (add t key val).2 = size_of (get t key).
Proof.
  revert key. induction t as [k v|k v bs IH] using trie_rect'; intros key; [cbn; by case_bool_decide|]. lies_cases key k.
  - rewrite get_at. cbn [add_child]. rewrite keq_refl. done.
  - rewrite get_below. cbn [add_child]. rewrite bool_decide_false by auto. rewrite common_prefix_left, keq_refl, at_app, drop_app_S, on_branch_maybe.
    destruct (maybe_branch b bs) as [t|] eqn:E; [|done]. apply maybe_branch_elem in E. rewrite Forall_forall in IH. rewrite <- (IH _ E). by destruct (add _ _ _).
  - rewrite get_above. cbn [add_child]. rewrite bool_decide_false, common_prefix_right, bool_decide_false, keq_refl by auto. done.
  - rewrite get_beside by done. cbn [add_child]. rewrite bool_decide_false, common_prefix_fork, !bool_decide_false by auto. done.
Qed.

(** ** Lookups after [remove_child] *)

(** An inner node is replaced by its child when it has only one. *)
Definition compressed k (v : option V) bs : trie V :=
  match bs, v with
  | [], Some v => value_node k v
  | [(b, t)], None => with_prefix (k ++ [b]) t
  | _, _ => inner_node k v bs
  end.
Lemma get_compressed k v bs key : get (compressed k v bs) key = get (inner_node k v bs) key.
Proof.
  destruct bs as [|[b t] [|p bs]], v as [v|]; cbn [compressed]; try done; revert key; apply (get_ext k).
  - intros key H1 H2. rewrite get_value, bool_decide_false, get_inner_apart by done. done.
  - by rewrite get_at, get_value, keq_refl.
  - intros b r. rewrite get_value, get_below, bool_decide_false by auto. done.
  - intros key H1 H2. rewrite get_longer_apart, get_inner_apart by done. done.
  - rewrite get_at, get_longer_apart by auto. done.
  - intros b' r. rewrite get_longer, get_below. cbn. rewrite Z.eqb_sym. by destruct (b =? b').
Qed.

Definition get_root (o : option (trie V)) (key : list Z) : option V := match o with Some t => get t key | None => None end.

Lemma remove_at k v bs : (remove (inner_node k v bs) k).1 = Some (match v with Some _ => compressed k None bs | None => inner_node k v bs end).
Proof. cbn [remove_child]. rewrite Nat.ltb_irrefl, keq_refl. destruct v; [|done]. by destruct bs as [|[b t] [|p bs]]. Qed.
Lemma remove_below k v bs b r : (remove (inner_node k v bs) (k ++ b :: r)).1 =
  Some match maybe_branch b bs with
       | Some t => match (remove t r).1 with Some t' => inner_node k v (set_branch b t' bs) | None => compressed k v (drop_branch b bs) end
       | None => inner_node k v bs
       end.
Proof.
  cbn [remove_child]. rewrite ltb_app, bool_decide_false, common_prefix_right, keq_refl, at_app, drop_app_S, on_branch_maybe by auto. cbn [negb].
  destruct (maybe_branch b bs) as [t|]; [|done]. destruct (remove t r) as [[t'|] n]; [done|]. by destruct (drop_branch b bs) as [|[lb t''] [|p bs']], v.
Qed.
Lemma remove_apart k v bs key : key <> k -> (forall b r, key <> k ++ b :: r) -> remove (inner_node k v bs) key = (Some (inner_node k v bs), -1).
Proof.
  intros H1 H2. cbn [remove_child]. destruct (length key <? length k)%nat eqn:E; [done|]. zbool. rewrite bool_decide_false by congruence. lies_cases key k.
  - done.
  - by destruct (H2 b r).
  - rewrite length_app in E. cbn in E. lia.
  - rewrite common_prefix_fork, bool_decide_false by auto. done.
Qed.

(** A branch whose only key was removed is dropped. *)
Lemma get_drop_branch k v bs b r key' :
  (forall r', updated (fun r' => match maybe_branch b bs with Some t => get t r' | None => None end) r None r' = None) ->
  get (inner_node k v (drop_branch b bs)) key' = updated (get (inner_node k v bs)) (k ++ b :: r) None key'.
Proof.
  intros Ht. revert key'. apply (get_ext k).
  - intros key H1 H2. rewrite (apart_updated _ k), !get_inner_apart by (done || by eexists). done.
  - rewrite updated_ne, !get_at by auto. done.
  - intros b' r'. rewrite get_below, maybe_drop. destruct (b' =? b) eqn:E; zbool.
    + subst. specialize (Ht r'). rewrite updated_app. unfold updated in Ht |- *. rewrite get_below, (bool_decide_ext (b :: r' = b :: r) (r' = r)) by (split; congruence). done.
    + rewrite updated_ne, get_below by auto. done.
Qed.
Lemma get_clear k v bs key' : get (inner_node k None bs) key' = updated (get (inner_node k v bs)) k None key'.
Proof.
  revert key'. apply (get_ext k).
  - intros key H1 H2. rewrite updated_ne, !get_inner_apart by done. done.
  - by rewrite get_at, updated_at.
  - intros b r. by rewrite updated_ne, !get_below by auto.
Qed.

Lemma get_remove t key key' : get_root (remove t key).1 key' = updated (get t) key None key'.
Proof.
  revert key key'. induction t as [k v|k v bs IH] using trie_rect'; intros key key'.
  - cbn [remove_child]. unfold updated. case_bool_decide; cbn [fst get_root]; rewrite !get_value; repeat case_bool_decide; congruence.
  - destruct (lies_apart key k) as [->|[(b & r & ->)|[H1 H2]]].
    + rewrite remove_at. cbn [get_root]. rewrite <- get_clear. destruct v; [apply get_compressed|done].
    + rewrite remove_below. cbn [get_root]. destruct (maybe_branch b bs) as [t|] eqn:E; [|unfold updated; case_bool_decide; [subst; by rewrite get_below, E|done]].
      pose proof (maybe_branch_elem _ _ _ E) as Hin. rewrite Forall_forall in IH. specialize (IH _ Hin r). cbn in IH.
      destruct (remove t r).1 as [t'|]; [apply get_set_branch|rewrite get_compressed; apply get_drop_branch]; intros r'; rewrite E; by rewrite <- IH.
    + rewrite remove_apart by done. cbn [fst get_root]. unfold updated. case_bool_decide; [|done]. subst. by rewrite get_inner_apart.
Qed.

Lemma remove_size t key : (remove t key).2 = size_of (get t key).
Proof.
  revert key. induction t as [k v|k v bs IH] using trie_rect'; intros key; [cbn; by case_bool_decide|].
  destruct (lies_apart key k) as [->|[(b & r & ->)|[H1 H2]]]; [| |by rewrite remove_apart, get_inner_apart].
  - rewrite get_at. cbn [remove_child]. rewrite Nat.ltb_irrefl, keq_refl. destruct v; [|done]. by destruct bs as [|[b t] [|p bs]].
  - rewrite get_below. cbn [remove_child]. rewrite ltb_app, bool_decide_false, common_prefix_right, keq_refl, at_app, drop_app_S, on_branch_maybe by auto. cbn [negb].
    destruct (maybe_branch b bs) as [t|] eqn:E; [|done]. apply maybe_branch_elem in E. rewrite Forall_forall in IH. rewrite <- (IH _ E).
    destruct (remove (b, t).2 r) as [[t'|] n] eqn:Er; cbn in Er; rewrite Er; [done|]. by destruct (drop_branch b bs) as [|[lb t''] [|p bs']], v.
Qed.
End laws.
