(* ===== verification/TrieOrder.v ===== *)
(** * triedent: the entries of the tree, in order

    The entries of a tree are listed in the order of their keys; a compressed
    trie keeps this list sorted.  [unguarded_get] finds the members of the list,
    and the ordered lookups of [Trie] return the first entry that satisfies their
    condition, from the front or from the back of the list. *)

From S2P Require Import Prelude Ordered Database Key6 NodeBits Trie TrieLaws.

#[local] Set Warnings "-register-all".

(** ** Compressed tries *)

Section order.
Context {V : Type}.
Implicit Types (t : trie V) (bs : list (Z * trie V)).

(** An inner node has two children or more, counting its value, and its branches
    are in order. *)
Definition has_value (v : option V) : nat := match v with Some _ => 1 | None => 0 end.
Inductive trie_ok : trie V -> Prop :=
  | ok_value k v : key6_ok k -> trie_ok (value_node k v)
  | ok_inner k v bs : key6_ok k -> branches_ok bs -> (2 <= length bs + has_value v)%nat -> Forall (fun p => trie_ok p.2) bs -> trie_ok (inner_node k v bs).
Definition root_ok (o : option (trie V)) : Prop := match o with Some t => trie_ok t | None => True end.

Lemma ok_value_inv k v : trie_ok (value_node k v) -> key6_ok k.
Proof. by inversion 1. Qed.
Lemma ok_inner_inv k v bs : trie_ok (inner_node k v bs) -> key6_ok k /\ branches_ok bs /\ (2 <= length bs + has_value v)%nat /\ Forall (fun p => trie_ok p.2) bs.
Proof. by inversion 1. Qed.

Lemma branches_cons b t bs : branches_ok ((b, t) :: bs) <-> is_char6 b /\ Forall (fun x => b < x) (map fst bs) /\ branches_ok bs.
Proof.
  unfold branches_ok, chars_ok. cbn [map fst]. rewrite Forall_cons. split.
  - intros (Hs & ? & ?). by inversion Hs; subst.
  - intros (? & ? & ? & ?). split; [by constructor|done].
Qed.
Lemma branches_app (l r : list (Z * trie V)) : branches_ok (l ++ r) -> branches_ok l /\ branches_ok r /\ forall x y, x ∈ map fst l -> y ∈ map fst r -> x < y.
Proof.
  unfold branches_ok, chars_ok. rewrite map_app, Forall_app. intros [Hs [? ?]].
  change (StronglySorted Z.lt) with (StronglySorted (below (A := Z))) in *. apply sorted_app in Hs as (? & ? & ?). done.
Qed.

Lemma set_branch_keys b t bs x : x ∈ map fst (set_branch b t bs) <-> x = b \/ x ∈ map fst bs.
Proof.
  induction bs as [|[b' t'] bs IH]; cbn; [by rewrite list_elem_of_singleton, elem_of_nil; tauto|].
  destruct (b' =? b) eqn:E; zbool; [subst; cbn; rewrite !elem_of_cons; tauto|]. destruct (b <? b'); cbn; rewrite !elem_of_cons, ?IH; tauto.
Qed.
Lemma set_branch_ok b t bs : is_char6 b -> branches_ok bs -> branches_ok (set_branch b t bs).
Proof.
  intros Hb. induction bs as [|[b' t'] bs IH]; cbn; intros Hbs; [by apply branches_cons; repeat constructor; apply Hb|].
  apply branches_cons in Hbs as (Hb' & Hlt & Hbs). destruct (b' =? b) eqn:E; zbool; [subst; by apply branches_cons|]. destruct (b <? b') eqn:E'; zbool.
  - apply branches_cons. split; [done|]. split; [|by apply branches_cons]. cbn. constructor; [done|]. rewrite Forall_forall in Hlt |- *. intros x Hx. specialize (Hlt x Hx). lia.
  - apply branches_cons. split; [done|]. split; [|by apply IH]. rewrite Forall_forall in Hlt |- *. intros x [->|Hx]%set_branch_keys; [lia|by apply Hlt].
Qed.
Lemma set_branch_length b t bs : (length bs <= length (set_branch b t bs))%nat.
Proof. induction bs as [|[b' t'] bs IH]; cbn; [lia|]. destruct (b' =? b); cbn; [lia|]. destruct (b <? b'); cbn; lia. Qed.
Lemma set_branch_Forall (P : trie V -> Prop) b t bs : P t -> Forall (fun p => P p.2) bs -> Forall (fun p => P p.2) (set_branch b t bs).
Proof.
  intros Ht. induction 1 as [|[b' t'] bs H Hbs IH]; cbn; [by constructor|]. destruct (b' =? b); [by constructor|]. destruct (b <? b'); repeat (constructor; try done).
Qed.
Lemma drop_branch_sublist b bs : drop_branch b bs `sublist_of` bs.
Proof. unfold drop_branch. induction bs as [|[b' t'] bs IH]; cbn; [constructor|]. destruct (b' =? b); by constructor. Qed.
Lemma drop_branch_ok b bs : branches_ok bs -> branches_ok (drop_branch b bs).
Proof.
  induction bs as [|[b' t'] bs IH]; cbn; [done|]. intros (Hb & Hlt & Hbs)%branches_cons. destruct (b' =? b); cbn; [by apply IH|]. apply branches_cons. split; [done|]. split; [|by apply IH].
  rewrite Forall_forall in Hlt |- *. intros x Hx. apply Hlt. rewrite list_elem_of_fmap in Hx |- *. destruct Hx as (p & -> & Hp). exists p. split; [done|]. eapply elem_of_sublist; [exact Hp|apply drop_branch_sublist].
Qed.
Lemma drop_branch_length b t bs : branches_ok bs -> maybe_branch b bs = Some t -> length bs = S (length (drop_branch b bs)).
Proof.
  unfold maybe_branch, drop_branch. induction bs as [|[b' t'] bs IH]; cbn; [done|]. intros (Hb & Hlt & Hbs)%branches_cons Hm.
  destruct (b' =? b) eqn:E; cbn; [|f_equal; by apply IH]. zbool. subst. f_equal. rewrite filter_all; [done|].
  rewrite Forall_forall in Hlt. apply Forall_forall. intros [x u] Hx. assert (b < x) by (apply Hlt; apply list_elem_of_fmap; by exists (x, u)). apply negb_true_iff, Z.eqb_neq. lia.
Qed.
Lemma drop_branch_Forall (P : trie V -> Prop) b bs : Forall (fun p => P p.2) bs -> Forall (fun p => P p.2) (drop_branch b bs).
Proof. rewrite !Forall_forall. intros H p Hp. apply H. eapply elem_of_sublist; [exact Hp|apply drop_branch_sublist]. Qed.


(** ** The updates keep the trie compressed *)

Lemma key6_app k b r : key6_ok (k ++ b :: r) <-> key6_ok k /\ is_char6 b /\ key6_ok r.
Proof. by rewrite Forall_app, Forall_cons. Qed.

Lemma with_prefix_ok p t : key6_ok p -> trie_ok t -> trie_ok (with_prefix p t).
Proof.
  intros Hp. destruct t as [k v|k v bs]; cbn.
  - intros Hk%ok_value_inv. constructor. by apply Forall_app.
  - intros (? & ? & ? & ?)%ok_inner_inv. constructor; [by apply Forall_app|done..].
Qed.
Lemma no_branches : branches_ok ([] : list (Z * trie V)).
Proof. split; constructor. Qed.
#[local] Hint Resolve no_branches set_branch_ok drop_branch_ok : core.

(** The nodes that a split makes. *)
Lemma ok_one c v b t : key6_ok c -> is_char6 b -> trie_ok t -> trie_ok (inner_node c (Some v) (set_branch b t [])).
Proof. intros. constructor; [done|auto|cbn; lia|]. by apply set_branch_Forall. Qed.
Lemma ok_two c (v : option V) x a y b : key6_ok c -> is_char6 x -> is_char6 y -> x <> y -> trie_ok a -> trie_ok b -> trie_ok (inner_node c v (set_branch y b (set_branch x a []))).
Proof.
  intros. constructor; [done|auto| |by repeat apply set_branch_Forall]. cbn. rewrite (proj2 (Z.eqb_neq _ _)) by done. destruct (y <? x); cbn; lia.
Qed.

Lemma combine_ordered_ok k1 (v1 : V) k2 v2 : k1 <> k2 -> (length k1 <= length k2)%nat -> key6_ok k1 -> key6_ok k2 -> trie_ok (combine_ordered k1 v1 k2 v2).
Proof.
  intros Hne Hlen H1 H2. unfold combine_ordered. lies_cases k2 k1; [done|..].
  - apply key6_app in H2 as (? & ? & ?). rewrite common_prefix_right, keq_refl, at_app, drop_app_S. apply ok_one; [done..|by constructor].
  - rewrite length_app in Hlen. cbn in Hlen. lia.
  - apply key6_app in H1 as (? & ? & ?). apply key6_app in H2 as (? & ? & ?).
    rewrite common_prefix_fork, bool_decide_false, !at_app, !drop_app_S by (auto || by intros E; symmetry in E; apply app_neq in E).
    apply ok_two; try done; by constructor.
Qed.
Lemma combine_ok k1 (v1 : V) k2 v2 : k1 <> k2 -> key6_ok k1 -> key6_ok k2 -> trie_ok (combine_value_nodes k1 v1 k2 v2).
Proof. intros. unfold combine_value_nodes. destruct (_ <? _)%nat eqn:E; zbool; apply combine_ordered_ok; auto; lia. Qed.

Variable data_size : V -> Z.

Lemma add_ok t key val : key6_ok key -> trie_ok t -> trie_ok (add_child data_size t key val).1.
Proof.
  revert key. induction t as [k v|k v bs IH] using trie_rect'; intros key Hkey Ht.
  - apply ok_value_inv in Ht. cbn [add_child]. case_bool_decide; cbn [negb fst]; [by constructor|by apply combine_ok].
  - apply ok_inner_inv in Ht as (Hk & Hbs & Hlen & Hch). lies_cases key k.
    + rewrite add_at. constructor; [done..| |done]. destruct v; cbn in *; lia.
    + apply key6_app in Hkey as (_ & Hb & Hr). rewrite add_below. constructor; [done|auto|pose proof (set_branch_length b (match maybe_branch b bs with Some c => (add_child data_size c r val).1 | None => value_node r val end) bs); lia|].
      apply set_branch_Forall; [|done]. destruct (maybe_branch b bs) as [t|] eqn:E; [|by constructor].
      apply maybe_branch_elem in E. rewrite Forall_forall in IH, Hch. apply (IH _ E); [done|apply (Hch _ E)].
    + apply key6_app in Hk as (_ & Hb & Hr). rewrite add_above. apply ok_one; [done..|by constructor].
    + apply key6_app in Hk as (Hc & Hy & Hb). apply key6_app in Hkey as (_ & Hx & Ha). rewrite add_beside by done. apply ok_two; try done; by constructor.
Qed.

Lemma compressed_ok k v bs : key6_ok k -> branches_ok bs -> (1 <= length bs + has_value v)%nat -> Forall (fun p => trie_ok p.2) bs -> trie_ok (compressed k v bs).
Proof.
  intros Hk Hbs Hlen Hch. destruct bs as [|[b t] [|p bs]], v as [v|]; cbn in Hlen |- *; try lia; try (constructor; (done || cbn; lia)).
  apply Forall_cons in Hch as [Ht _]. apply with_prefix_ok; [|done]. apply Forall_app. split; [done|]. apply branches_cons in Hbs as [? _]. by repeat constructor; apply H.
Qed.

Lemma remove_ok t key : trie_ok t -> root_ok (remove_child data_size t key).1.
Proof.
  revert key. induction t as [k v|k v bs IH] using trie_rect'; intros key Ht; [cbn; case_bool_decide; done|].
  pose proof Ht as (Hk & Hbs & Hlen & Hch)%ok_inner_inv. destruct (lies_apart key k) as [->|[(b & r & ->)|[H1 H2]]].
  - rewrite remove_at. destruct v; [|done]. apply compressed_ok; [done..| |done]. cbn in *. lia.
  - rewrite remove_below. destruct (maybe_branch b bs) as [t|] eqn:E; [|done]. pose proof (maybe_branch_elem _ _ _ E) as Hin. rewrite Forall_forall in IH.
    assert (Hok : root_ok (remove_child data_size t r).1) by (apply (IH _ Hin r); rewrite Forall_forall in Hch; apply (Hch _ Hin)).
    destruct (remove_child data_size t r).1 as [t'|]; cbn.
    + constructor; [done|apply set_branch_ok; [|done]|pose proof (set_branch_length b t' bs); lia|by apply set_branch_Forall].
      destruct Hbs as [_ Hc]. rewrite Forall_forall in Hc. apply Hc, list_elem_of_fmap. by exists (b, t).
    + apply compressed_ok; [done|auto| |by apply drop_branch_Forall]. pose proof (drop_branch_length _ _ _ Hbs E). lia.
  - by rewrite remove_apart.
Qed.

(** ** The entries of a tree *)

Abbreviation entry := (list Z * V)%type.
Definition prefixed (p : list Z) (e : entry) : entry := (p ++ e.1, e.2).
Definition own_entry (v : option V) : list entry := match v with Some v => [([], v)] | None => [] end.
Fixpoint entries t : list entry :=
  match t with
  | value_node k v => [(k, v)]
  | inner_node k v bs => map (prefixed k) (own_entry v ++ flat_map (fun p => map (prefixed [p.1]) (entries p.2)) bs)
  end.
Definition branch_entries bs : list entry := flat_map (fun p => map (prefixed [p.1]) (entries p.2)) bs.

Lemma entries_inner k v bs : entries (inner_node k v bs) = map (prefixed k) (own_entry v ++ branch_entries bs).
Proof. done. Qed.
Lemma branch_entries_cons b t bs : branch_entries ((b, t) :: bs) = map (prefixed [b]) (entries t) ++ branch_entries bs.
Proof. done. Qed.
Lemma branch_entries_app l r : branch_entries (l ++ r) = branch_entries l ++ branch_entries r.
Proof. apply flat_map_app. Qed.

Lemma elem_of_prefixed p (l : list entry) k v : (k, v) ∈ map (prefixed p) l <-> exists r, k = p ++ r /\ (r, v) ∈ l.
Proof.
  rewrite list_elem_of_fmap. split.
  - intros ([r w] & [= -> ->] & H). by exists r.
  - intros (r & -> & H). by exists (r, v).
Qed.
Lemma elem_of_branch_entries k v bs : (k, v) ∈ branch_entries bs <-> exists b t r, (b, t) ∈ bs /\ k = b :: r /\ (r, v) ∈ entries t.
Proof.
  induction bs as [|[b t] bs IH]; [cbn; split; [by intros ?%elem_of_nil|by intros (?&?&?&?%elem_of_nil&_)]|].
  rewrite branch_entries_cons, elem_of_app, elem_of_prefixed, IH. split.
  - intros [(r & -> & H)|(b' & t' & r & H & Hk & Hr)]; [exists b, t, r; split; [left|done]|exists b', t', r; split; [by right|done]].
  - intros (b' & t' & r & H & -> & Hr). apply elem_of_cons in H as [[= -> ->]|H]; [left; by exists r|right; by exists b', t', r].
Qed.
Lemma own_entry_elem v k w : (k, w) ∈ own_entry v <-> k = [] /\ v = Some w.
Proof. destruct v; cbn; rewrite ?list_elem_of_singleton, ?elem_of_nil; split; [by intros [= -> ->]|by intros [-> [= ->]]|done|by intros []]. Qed.

Lemma maybe_branch_in b t bs : branches_ok bs -> maybe_branch b bs = Some t <-> (b, t) ∈ bs.
Proof.
  intros Hbs. split; [apply maybe_branch_elem|]. unfold maybe_branch. induction bs as [|[b' t'] bs IH]; cbn; [by intros ?%elem_of_nil|].
  apply branches_cons in Hbs as (_ & Hlt & Hbs). intros [[= -> ->]|Hin]%elem_of_cons; [by rewrite Z.eqb_refl|].
  rewrite Forall_forall in Hlt. assert (b' < b) by (apply Hlt, list_elem_of_fmap; by exists (b, t)). rewrite (proj2 (Z.eqb_neq _ _)) by lia. by apply IH.
Qed.

(** The lookup finds the entries. *)
Lemma get_entries t k v : trie_ok t -> unguarded_get t k = Some v <-> (k, v) ∈ entries t.
Proof.
  revert k. induction t as [k0 v0|k0 v0 bs IH] using trie_rect'; intros k Ht.
  - cbn. rewrite list_elem_of_singleton. case_bool_decide; split; congruence.
  - apply ok_inner_inv in Ht as (_ & Hbs & _ & Hch). rewrite entries_inner, elem_of_prefixed. setoid_rewrite elem_of_app.
    setoid_rewrite own_entry_elem. setoid_rewrite elem_of_branch_entries. destruct (lies_apart k k0) as [->|[(b & r & ->)|[H1 H2]]].
    + rewrite get_at. split.
      * intros ->. exists []. rewrite app_nil_r. auto.
      * intros (r & E & H). rewrite <- (app_nil_r k0) in E at 1. apply app_inv_head in E as <-. destruct H as [[_ H]|(b & t & r & _ & [=] & _)]. done.
    + rewrite get_below. split.
      * destruct (maybe_branch b bs) as [t|] eqn:E; [|done]. apply maybe_branch_elem in E. intros H. exists (b :: r). split; [done|]. right. exists b, t, r. split; [done|]. split; [done|].
        rewrite Forall_forall in IH, Hch. by apply (IH _ E), H; apply (Hch _ E).
      * intros (r' & E & H). apply app_inv_head in E as <-. destruct H as [[[=] _]|(b' & t & r' & Hin & [= <- <-] & He)].
        rewrite (proj2 (maybe_branch_in _ _ _ Hbs) Hin). rewrite Forall_forall in IH, Hch. by apply (IH _ Hin); [apply (Hch _ Hin)|].
    + rewrite get_inner_apart by done. split; [done|]. intros (r & -> & H). destruct r as [|b r]; [by rewrite app_nil_r in H1|by destruct (H2 b r)].
Qed.

(** The entries are in the order of the keys. *)
Definition sorted_entries (l : list entry) : Prop := StronglySorted (below (A := bytes)) (map fst l).

Lemma below_app p a b : below (A := bytes) (p ++ a) (p ++ b) <-> below (A := bytes) a b.
Proof. unfold below. cbn. unfold bytes_compare. by rewrite lex_compare_app. Qed.
Lemma map_fst_prefixed p (l : list entry) : map fst (map (prefixed p) l) = map (app p) (map fst l).
Proof. by rewrite !map_map. Qed.
Lemma sorted_prefixed p l : sorted_entries l -> sorted_entries (map (prefixed p) l).
Proof.
  unfold sorted_entries. rewrite map_fst_prefixed. induction 1 as [|a m Hm IH Ha]; cbn; constructor; [done|].
  apply Forall_forall. intros x (y & -> & Hy)%list_elem_of_fmap. apply below_app. rewrite Forall_forall in Ha. by apply Ha.
Qed.
Lemma entries_sorted t : trie_ok t -> sorted_entries (entries t).
Proof.
  induction t as [k v|k v bs IH] using trie_rect'; intros Ht; [repeat constructor|]. apply ok_inner_inv in Ht as (_ & Hbs & _ & Hch).
  rewrite entries_inner. apply sorted_prefixed. assert (Hb : sorted_entries (branch_entries bs)).
  { clear v. induction bs as [|[b t] bs IHbs]; [constructor|]. apply Forall_cons in IH as [IHt IH]. apply Forall_cons in Hch as [Ht Hch]. apply branches_cons in Hbs as (_ & Hlt & Hbs).
    rewrite branch_entries_cons. unfold sorted_entries. rewrite map_app. apply sorted_app. split; [by apply sorted_prefixed, IHt|]. split; [by apply IHbs|].
    intros x y ([k1 w] & -> & (r & -> & _)%elem_of_prefixed)%list_elem_of_fmap ([k' w'] & -> & (b' & t' & r' & Hin & -> & _)%elem_of_branch_entries)%list_elem_of_fmap.
    rewrite Forall_forall in Hlt. assert (Hbb : b < b') by (apply Hlt, list_elem_of_fmap; by exists (b', t')). unfold below. cbn. by rewrite Hbb. }
  destruct v as [v|]; [|done]. constructor; [done|]. apply Forall_forall. intros x ([k' w'] & -> & (b' & t' & r' & Hin & -> & _)%elem_of_branch_entries)%list_elem_of_fmap. done.
Qed.
Lemma entries_nonempty t : trie_ok t -> entries t <> [].
Proof.
  induction t as [k v|k v bs IH] using trie_rect'; intros Ht; [done|]. apply ok_inner_inv in Ht as (_ & _ & Hlen & Hch). rewrite entries_inner.
  destruct v; [done|]. destruct bs as [|[b t] bs]; [cbn in Hlen; lia|]. apply Forall_cons in IH as [IH _]. apply Forall_cons in Hch as [Ht _]. cbn in IH, Ht.
  rewrite branch_entries_cons. specialize (IH Ht). by destruct (entries t).
Qed.

(** ** The first entry that satisfies a condition *)

Abbreviation first P l := (List.find P l) (only parsing).

Lemma first_app (P : entry -> bool) l r : first P (l ++ r) = match first P l with Some e => Some e | None => first P r end.
Proof. induction l as [|e l IH]; cbn; [done|]. by destruct (P e). Qed.
Lemma first_none (P : entry -> bool) l : Forall (fun e => P e = false) l -> first P l = None.
Proof. induction 1 as [|e l He _ IH]; cbn; [done|]. by rewrite He. Qed.
Lemma first_prefixed (P : entry -> bool) p l : first P (map (prefixed p) l) = under p (first (fun e => P (prefixed p e)) l).
Proof. induction l as [|[k v] l IH]; cbn; [done|]. by destruct (P _). Qed.
Lemma first_ext (P Q : entry -> bool) l : (forall e, e ∈ l -> P e = Q e) -> first P l = first Q l.
Proof. induction l as [|e l IH]; cbn; intros H; [done|]. rewrite H by left. destruct (Q e); [done|]. apply IH. intros e' He. apply H. by right. Qed.
Lemma first_elem (P : entry -> bool) l e : first P l = Some e -> e ∈ l /\ P e = true.
Proof. intros H. apply find_some in H as [H1 H2]. by rewrite list_elem_of_In. Qed.
Lemma first_none_inv (P : entry -> bool) l e : first P l = None -> e ∈ l -> P e = false.
Proof. intros H Hin. apply (find_none P l H). by apply list_elem_of_In. Qed.
Lemma first_all (P Q : entry -> bool) l : Forall (fun e => P e = true) l -> Forall (fun e => Q e = true) l -> first P l = first Q l.
Proof. intros H1 H2. rewrite Forall_forall in H1, H2. apply first_ext. intros e He. by rewrite H1, H2. Qed.

(** ** [get_greater_equal] *)

Abbreviation from key := (fun e : entry => lle key e.1).

Lemma on_branch_in {A} (f : trie V -> A) d b t bs : branches_ok bs -> (b, t) ∈ bs -> on_branch f d b bs = f t.
Proof. intros Hbs Hin. by rewrite on_branch_maybe, (proj2 (maybe_branch_in _ _ _ Hbs) Hin). Qed.

Section ge.
Variables (bs : list (Z * trie V)).
Hypothesis Hbs : branches_ok bs.
Hypothesis Hge : Forall (fun p => forall key, key6_ok key -> unguarded_get_greater_equal p.2 key = first (from key) (entries p.2)) bs.
Abbreviation search := (fun b key => on_branch (fun c => unguarded_get_greater_equal c key) None b bs).
#[local] Set Default Proof Using "Type".

Lemma search_in b t key : key6_ok key -> (b, t) ∈ bs -> search b key = first (from key) (entries t).
Proof using Hbs Hge.
  intros Hk Hin. cbn beta. rewrite (on_branch_in _ _ b t) by done. pose proof Hge as H. rewrite Forall_forall in H. by apply (H _ Hin).
Qed.

(** The branches that are left in the loop. *)
Lemma next_branch l b t r : bs = l ++ (b, t) :: r -> lower_bound (branches bs) (b + 1) = hd 64 (map fst r) /\ lower_bound (branches bs) b = b.
Proof using Hbs.
  intros E. pose proof Hbs as H. rewrite E in H. apply branches_app in H as (_ & H & Hlt). apply branches_cons in H as ([Hb1 Hb2] & Hgt & _). unfold branches. split.
  - replace (map fst bs) with (map fst (l ++ [(b, t)]) ++ map fst r) by (rewrite E, <- map_app, <- app_assoc; done). apply node_lower_bound; [|lia|..].
    + rewrite <- map_app, <- app_assoc. rewrite E in Hbs. done.
    + rewrite map_app. apply Forall_app. split; [|by repeat constructor; cbn; lia]. apply Forall_forall. intros x Hx. assert (x < b) by (apply Hlt; [done|left]). lia.
    + rewrite Forall_forall in Hgt |- *. intros x Hx. specialize (Hgt x Hx). lia.
  - replace (map fst bs) with (map fst l ++ map fst ((b, t) :: r)) by (rewrite E, <- map_app; done). rewrite node_lower_bound; [done| |lia|..].
    + rewrite <- map_app. rewrite E in Hbs. done.
    + apply Forall_forall. intros x Hx. apply Hlt; [done|left].
    + cbn. constructor; [lia|]. rewrite Forall_forall in Hgt |- *. intros x Hx. specialize (Hgt x Hx). lia.
Qed.

Lemma branch_entries_char l r x : bs = l ++ r -> x ∈ map fst r -> is_char6 x.
Proof using Hbs. intros E Hx. destruct Hbs as [_ Hc]. rewrite Forall_forall in Hc. apply Hc. rewrite E, map_app. apply elem_of_app. by right. Qed.

Lemma ge_loop_all l r n : bs = l ++ r -> (length r < n)%nat ->
  ge_loop search (branches bs) n (hd 64 (map fst r)) [] = first (from []) (branch_entries r).
Proof using Hbs Hge.
  revert l n. induction r as [|[b t] r IH]; intros l n E Hn; (destruct n as [|n]; [lia|]); [done|]. cbn [ge_loop map hd fst].
  assert (Hb : is_char6 b) by (eapply branch_entries_char; [exact E|left]). destruct Hb as [Hb1 Hb2]. rewrite (proj2 (Z.leb_gt _ _)) by lia.
  rewrite (search_in b t) by (first [apply Forall_nil_2 | rewrite E; apply elem_of_app; right; left]).
  rewrite branch_entries_cons, first_app, first_prefixed. rewrite (first_ext (fun e => lle [] (prefixed [b] e).1) (from []) (entries t)) by (intros [[|? ?] v] _; done).
  destruct (first (from []) (entries t)) as [[k v]|]; [done|]. cbn [under fmap option_fmap option_map].
  rewrite (proj1 (next_branch _ _ _ _ E)). apply (IH (l ++ [(b, t)])); [by rewrite <- app_assoc|cbn in Hn; lia].
Qed.

Lemma split_branches b : exists l r, bs = l ++ r /\ Forall (fun x => x < b) (map fst l) /\ Forall (fun x => b <= x) (map fst r).
Proof using Hbs.
  clear Hge. induction bs as [|[b' t] bs' IH]; [exists [], []; repeat constructor|]. apply branches_cons in Hbs as (_ & Hlt & Hbs').
  destruct (Z.lt_ge_cases b' b) as [Hb|Hb].
  - destruct (IH Hbs') as (l & r & -> & Hl & Hr). exists ((b', t) :: l), r. split; [done|]. split; [by constructor|done].
  - exists [], ((b', t) :: bs'). split; [done|]. split; [constructor|]. cbn. constructor; [done|]. rewrite Forall_forall in Hlt |- *. intros x Hx. specialize (Hlt x Hx). lia.
Qed.

(** Branches below the first character of the key have no entry for it, those
    above only entries for it. *)
Lemma from_below s key l : Forall (fun x => x < s) (map fst l) -> Forall (fun e => from (s :: key) e = false) (branch_entries l).
Proof.
  intros H. rewrite Forall_forall in H. apply Forall_forall. intros [k v] (b & t & r & Hin & -> & _)%elem_of_branch_entries.
  assert (b < s) by (apply H, list_elem_of_fmap; by exists (b, t)). cbn. rewrite lle_cons, (proj2 (Z.compare_gt_iff _ _)) by lia. done.
Qed.
Lemma from_above s key l : Forall (fun x => s < x) (map fst l) -> Forall (fun e => from (s :: key) e = true) (branch_entries l).
Proof.
  intros H. rewrite Forall_forall in H. apply Forall_forall. intros [k v] (b & t & r & Hin & -> & _)%elem_of_branch_entries.
  assert (s < b) by (apply H, list_elem_of_fmap; by exists (b, t)). cbn. rewrite lle_cons, (proj2 (Z.compare_lt_iff _ _)) by lia. done.
Qed.
Lemma from_nil (l : list entry) : Forall (fun e => from [] e = true) l.
Proof. apply Forall_forall. intros [k v] _. by destruct k. Qed.

Lemma ge_loop_from s key n : 0 <= s -> key6_ok key -> (length bs < n)%nat ->
  let b := lower_bound (branches bs) s in
  ge_loop search (branches bs) n b (if s <? b then [] else key) = first (from (s :: key)) (branch_entries bs).
Proof using Hbs Hge.
  intros Hs Hkey Hn. destruct (split_branches s) as (l & r & E & Hl & Hr).
  assert (Hb : lower_bound (branches bs) s = hd 64 (map fst r)).
  { unfold branches. rewrite E, map_app. apply node_lower_bound; [|done..]. rewrite <- map_app, <- E. done. }
  assert (Hlen : (length r <= length bs)%nat) by (rewrite E, length_app; lia).
  cbv zeta. rewrite Hb. replace (branch_entries bs) with (branch_entries l ++ branch_entries r) by (rewrite E, branch_entries_app; done).
  rewrite first_app, (first_none _ (branch_entries l)) by (by apply from_below).
  destruct r as [|[b t] r]; [by destruct n|]. cbn [map hd fst] in Hr |- *. apply Forall_cons in Hr as [Hsb Hr].
  pose proof Hbs as Hlt. rewrite E in Hlt. apply branches_app in Hlt as (_ & (Hb6 & Hlt & _)%branches_cons & _).
  destruct (s <? b) eqn:Es; zbool.
  - rewrite (first_all (from (s :: key)) (from [])) by (apply from_nil || (apply from_above; constructor; [done|]; eapply Forall_impl; [exact Hlt|cbn; lia])).
    by apply (ge_loop_all l ((b, t) :: r)); [|lia].
  - assert (s = b) by lia. subst s. destruct n as [|n]; [lia|]. cbn [ge_loop]. destruct Hb6 as [_ Hb6]. rewrite (proj2 (Z.leb_gt _ _)) by done.
    rewrite (search_in b t) by (done || rewrite E; apply elem_of_app; right; left). rewrite branch_entries_cons, first_app, first_prefixed.
    rewrite (first_ext (fun e => lle (b :: key) (prefixed [b] e).1) (from key) (entries t)) by (intros [k v] _; cbn; by rewrite lle_cons, Z.compare_refl).
    destruct (first (from key) (entries t)) as [[k v]|]; [done|]. cbn [under fmap option_fmap option_map].
    rewrite (proj1 (next_branch _ _ _ _ E)), (first_all (from (b :: key)) (from [])) by (apply from_nil || by apply from_above).
    apply (ge_loop_all (l ++ [(b, t)])); [by rewrite <- app_assoc|cbn in Hlen; lia].
Qed.
End ge.

(** At most one branch per character. *)
Lemma branches_length bs : branches_ok bs -> (length bs <= 64)%nat.
Proof.
  intros Hbs. rewrite <- (length_map fst), <- (all_chars _ Hbs). etransitivity; [apply filter_length_le|]. by vm_compute.
Qed.

Lemma lle_prefixed k key (e : entry) : lle (k ++ key) (prefixed k e).1 = lle key e.1.
Proof. apply lle_app. Qed.

(** Keys beside a prefix are all before or all after it. *)
Lemma lle_beside c x a y b r : x <> y -> lle (c ++ x :: a) ((c ++ y :: b) ++ r) = (x <? y).
Proof. intros H. rewrite <- app_assoc, lle_app. cbn [app]. rewrite lle_cons. unfold Z.ltb. destruct (Z.compare_spec x y); [lia|done..]. Qed.

Lemma greater_equal_first t key : trie_ok t -> key6_ok key -> unguarded_get_greater_equal t key = first (from key) (entries t).
Proof.
  revert key. induction t as [k v|k v bs IH] using trie_rect'; intros key Ht Hkey; [cbn; by destruct (lle key k)|].
  apply ok_inner_inv in Ht as (Hk & Hbs & _ & Hch). pose proof (branches_length _ Hbs) as Hlen.
  assert (Hge : Forall (fun p => forall key, key6_ok key -> unguarded_get_greater_equal p.2 key = first (from key) (entries p.2)) bs).
  { rewrite Forall_forall in IH, Hch |- *. intros p Hp key' Hk'. apply IH; auto. }
  clear IH. rewrite entries_inner, first_prefixed. cbn [unguarded_get_greater_equal].
  assert (Hgo : forall r, key6_ok r -> match r, v with
     | s :: r, _ => let b := lower_bound (branches bs) s in ge_loop (fun b key => on_branch (fun c => unguarded_get_greater_equal c key) None b bs) (branches bs) 65 b (if s <? b then [] else r)
     | [], Some v => Some ([], v)
     | [], None => let b := lower_bound (branches bs) 0 in ge_loop (fun b key => on_branch (fun c => unguarded_get_greater_equal c key) None b bs) (branches bs) 65 b (if 0 <? b then [] else [])
     end = first (from r) (own_entry v ++ branch_entries bs)).
  { intros [|s r] Hr.
    - destruct v as [v|]; [done|]. cbn [own_entry app]. rewrite (first_all (from []) (from [0])); [|apply from_nil|]. 
      + apply ge_loop_from; [done..|lia].
      + apply Forall_forall. intros [k' w] (b & t & r & Hin & -> & _)%elem_of_branch_entries. destruct Hbs as [_ Hc]. rewrite Forall_forall in Hc.
        assert (Hb : is_char6 b) by (apply Hc, list_elem_of_fmap; by exists (b, t)). destruct Hb as [Hb _]. cbn [fst]. rewrite lle_cons.
        destruct (Z.compare_spec 0 b); [by destruct r|done|lia].
    - apply Forall_cons in Hr as [[Hs _] Hr]. rewrite first_app, (first_none _ (own_entry v)) by (destruct v; repeat constructor). apply ge_loop_from; [done..|lia]. }
  cbv zeta in Hgo |- *. lies_cases key k.
  - rewrite common_prefix_refl, keq_refl, drop_all. rewrite (first_ext _ (from [])) by (intros e _; rewrite <- (app_nil_r k) at 1; apply lle_prefixed).
    f_equal. apply (Hgo []). constructor.
  - rewrite common_prefix_right, keq_refl, drop_app_length. apply Forall_app in Hkey as [_ Hkey]. rewrite (first_ext _ (from (b :: r))) by (intros e _; apply lle_prefixed).
    f_equal. by apply (Hgo (b :: r)).
  - rewrite common_prefix_left, bool_decide_false by (intros E; symmetry in E; by apply app_neq in E).
    assert (Hall : forall k', lle key ((key ++ b :: r) ++ k') = true) by (intros k'; rewrite <- app_assoc, <- (app_nil_r key) at 1; by rewrite lle_app).
    replace (lle key (key ++ b :: r)) with true by (rewrite <- (Hall []), app_nil_r; done). cbn [negb]. rewrite (first_ext _ (from [])) by (intros [[|? ?] w] _; cbn [fst prefixed]; by rewrite Hall).
    f_equal. apply (Hgo []). constructor.
  - rewrite common_prefix_fork, bool_decide_false by (try (intros E; symmetry in E; by apply app_neq in E); auto).
    replace (lle (c ++ x :: a) (c ++ y :: b)) with (x <? y) by (rewrite <- (lle_beside c x a y b []), app_nil_r; done).
    destruct (x <? y) eqn:E; cbn [negb].
    + rewrite (first_ext _ (from [])) by (intros [[|? ?] w] _; cbn [fst prefixed]; by rewrite lle_beside, E). f_equal. apply (Hgo []). constructor.
    + rewrite first_none; [done|]. apply Forall_forall. intros [k' w] _. cbn [fst prefixed]. by rewrite lle_beside, E.
Qed.

(** ** [get_less_than] *)

Definition less (key : option (list Z)) (e : entry) : bool := match key with Some key => negb (lle key e.1) | None => true end.

Lemma rev_branch_entries l b t : rev (branch_entries (l ++ [(b, t)])) = map (prefixed [b]) (rev (entries t)) ++ rev (branch_entries l).
Proof. rewrite branch_entries_app, branch_entries_cons, app_nil_r, rev_app_distr. by rewrite <- map_rev. Qed.

Section lt.
Variables (bs : list (Z * trie V)).
Hypothesis Hbs : branches_ok bs.
Hypothesis Hlt : Forall (fun p => forall key, match key with Some k => key6_ok k | None => True end -> unguarded_get_less_than p.2 key = first (less key) (rev (entries p.2))) bs.
Abbreviation search := (fun b key => on_branch (fun c => unguarded_get_less_than c key) None b bs).
#[local] Set Default Proof Using "Type".

Lemma search_lt_in b t key : match key with Some k => key6_ok k | None => True end -> (b, t) ∈ bs -> search b key = first (less key) (rev (entries t)).
Proof using Hbs Hlt.
  intros Hk Hin. cbn beta. rewrite (on_branch_in _ _ b t) by done. pose proof Hlt as H. rewrite Forall_forall in H. by apply (H _ Hin).
Qed.

Definition last_char (l : list (Z * trie V)) : Z := List.last (map fst l) (-1).

(** Where the search for [b] ends. *)
Lemma prev_branch b : is_char6 b -> forall l r, bs = l ++ r -> Forall (fun x => x <= b) (map fst l) -> Forall (fun x => b < x) (map fst r) ->
  reverse_lower_bound (branches bs) b = last_char l.
Proof using Hbs.
  intros Hb l r E Hl Hr. unfold branches, last_char. rewrite E, map_app. apply reverse_lower_bound_spec; [|done..]. rewrite <- map_app, <- E. done.
Qed.
Lemma last_char_snoc l b t : last_char (l ++ [(b, t)]) = b.
Proof. unfold last_char. rewrite map_app. apply List.last_last. Qed.

(** The turn after the branch [b]. *)
Lemma lt_next l b t r n : bs = l ++ (b, t) :: r -> (0 < n)%nat ->
  (if b <? 1 then None else lt_loop search (branches bs) n (reverse_lower_bound (branches bs) (b - 1)) None) = lt_loop search (branches bs) n (last_char l) None.
Proof using Hbs.
  intros E Hn. pose proof Hbs as Hok. rewrite E in Hok. apply branches_app in Hok as (Hokl & ([Hb1 Hb2] & Hgt & _)%branches_cons & Hll). destruct (b <? 1) eqn:E1; zbool.
  - destruct l as [|[b' t'] l]; [by destruct n|]. exfalso. assert (b' < b) by (apply Hll; left). apply branches_cons in Hokl as ([Hc _] & _). lia.
  - f_equal. apply (prev_branch (b - 1) ltac:(split; lia) l ((b, t) :: r)); [done|..].
    + apply Forall_forall. intros x Hx. assert (x < b) by (apply Hll; [done|left]). lia.
    + cbn. constructor; [lia|]. eapply Forall_impl; [exact Hgt|]. cbn. lia.
Qed.

Lemma lt_loop_all l r n : bs = l ++ r -> (length l < n)%nat ->
  lt_loop search (branches bs) n (last_char l) None = first (less None) (rev (branch_entries l)).
Proof using Hbs Hlt.
  revert r n. induction l as [|[b t] l IH] using rev_ind; intros r n E Hn; (destruct n as [|n]; [lia|]); [done|]. cbn [lt_loop]. rewrite last_char_snoc.
  rewrite length_app in Hn. cbn in Hn. rewrite <- app_assoc in E. cbn [app] in E.
  pose proof Hbs as Hok. rewrite E in Hok. apply branches_app in Hok as (_ & (Hb & _)%branches_cons & _). pose proof Hb as [Hb1 Hb2]. rewrite (proj2 (Z.ltb_ge _ _)) by lia.
  rewrite (search_lt_in b t) by (done || rewrite E; apply elem_of_app; right; left). rewrite rev_branch_entries, first_app, first_prefixed.
  change (List.find (fun e => less None (prefixed [b] e)) (rev (entries t))) with (List.find (less None) (rev (entries t))).
  destruct (first (less None) (rev (entries t))) as [[k v]|]; [done|]. cbn [under fmap option_fmap option_map].
  rewrite (lt_next _ _ _ _ _ E) by lia. apply (IH ((b, t) :: r)); [done|lia].
Qed.

Lemma less_above s key l : Forall (fun x => s < x) (map fst l) -> Forall (fun e => less (Some (s :: key)) e = false) (branch_entries l).
Proof. intros H. eapply Forall_impl; [by apply (from_above s key)|]. cbn. by intros e ->. Qed.
Lemma less_below s key l : Forall (fun x => x < s) (map fst l) -> Forall (fun e => less (Some (s :: key)) e = true) (branch_entries l).
Proof. intros H. eapply Forall_impl; [by apply (from_below s key)|]. cbn. by intros e ->. Qed.
Lemma rev_Forall (P : entry -> Prop) l : Forall P l -> Forall P (rev l).
Proof. apply Forall_rev. Qed.

Lemma lt_loop_from s key n : is_char6 s -> key6_ok key -> (length bs < n)%nat ->
  let b := reverse_lower_bound (branches bs) s in
  lt_loop search (branches bs) n b (if b <? s then None else Some key) = first (less (Some (s :: key))) (rev (branch_entries bs)).
Proof using Hbs Hlt.
  intros Hs Hkey Hn. destruct (split_branches bs Hbs (s + 1)) as (l & r & E & Hl & Hr).
  assert (Hb : reverse_lower_bound (branches bs) s = last_char l).
  { apply (prev_branch s Hs l r); [done|eapply Forall_impl; [exact Hl|]; cbn; lia|eapply Forall_impl; [exact Hr|]; cbn; lia]. }
  assert (Hlen : (length l <= length bs)%nat) by (rewrite E, length_app; lia).
  cbv zeta. rewrite Hb. replace (branch_entries bs) with (branch_entries l ++ branch_entries r) by (rewrite E, branch_entries_app; done).
  rewrite rev_app_distr, first_app, (first_none _ (rev (branch_entries r))) by (apply rev_Forall, less_above; eapply Forall_impl; [exact Hr|]; cbn; lia).
  destruct l as [|[b t] l _] using rev_ind; [by destruct n|]. rewrite last_char_snoc. rewrite map_app in Hl. apply Forall_app in Hl as [Hl [Hbs1 _]%Forall_cons]. cbn in Hbs1.
  rewrite <- app_assoc in E. cbn [app] in E. pose proof Hbs as Hok. rewrite E in Hok. apply branches_app in Hok as (_ & (Hb6 & Hgt & _)%branches_cons & Hll).
  assert (Hlb : Forall (fun x => x < b) (map fst l)) by (apply Forall_forall; intros x Hx; apply Hll; [done|left]).
  rewrite length_app in Hlen. cbn in Hlen. destruct (b <? s) eqn:Es; zbool.
  - rewrite (first_all (less (Some (s :: key))) (less None)); [|apply rev_Forall, less_below|by apply Forall_forall].
    + rewrite <- (last_char_snoc l b t) at 1. apply (lt_loop_all (l ++ [(b, t)]) r); [by rewrite <- app_assoc|rewrite length_app; cbn; lia].
    + rewrite map_app. apply Forall_app. split; [|by constructor]. eapply Forall_impl; [exact Hlb|]. cbn. lia.
  - assert (s = b) by lia. subst s. destruct n as [|n]; [lia|]. cbn [lt_loop]. pose proof Hb6 as [Hb0 _]. rewrite (proj2 (Z.ltb_ge _ _)) by done.
    rewrite (search_lt_in b t) by (done || rewrite E; apply elem_of_app; right; left). rewrite rev_branch_entries, first_app, first_prefixed.
    rewrite (first_ext (fun e => less (Some (b :: key)) (prefixed [b] e)) (less (Some key))) by (intros [k v] _; cbn; by rewrite lle_cons, Z.compare_refl).
    destruct (first (less (Some key)) (rev (entries t))) as [[k v]|]; [done|]. cbn [under fmap option_fmap option_map].
    rewrite (first_all (less (Some (b :: key))) (less None)); [|by apply rev_Forall, less_below|by apply Forall_forall].
    rewrite (lt_next _ _ _ _ _ E) by lia. apply (lt_loop_all l ((b, t) :: r)); [done|lia].
Qed.
End lt.

Definition opt_key_ok (key : option (list Z)) : Prop := match key with Some k => key6_ok k | None => True end.

(** The keys of a node that starts with [k], seen from [key]. *)
Lemma lle_below_false k b r : lle (k ++ b :: r) k = false.
Proof. pose proof (lle_app k (b :: r) []) as H. by rewrite app_nil_r in H. Qed.
Lemma lle_above_true key r : lle key (key ++ r) = true.
Proof. pose proof (lle_app key [] r) as H. rewrite app_nil_r in H. rewrite H. by destruct r. Qed.

Lemma first_own (P : entry -> bool) l v : P ([], v) = true -> first P (l ++ [([], v)]) = match first P l with Some e => Some e | None => Some ([], v) end.
Proof. intros H. rewrite first_app. cbn. by rewrite H. Qed.

Lemma less_than_first t key : trie_ok t -> opt_key_ok key -> unguarded_get_less_than t key = first (less key) (rev (entries t)).
Proof.
  revert key. induction t as [k v|k v bs IH] using trie_rect'; intros key Ht Hkey; [destruct key; cbn; [by destruct (lle _ k)|done]|].
  apply ok_inner_inv in Ht as (Hk & Hbs & _ & Hch). pose proof (branches_length _ Hbs) as Hlen.
  assert (Hlt : Forall (fun p => forall key, match key with Some k => key6_ok k | None => True end -> unguarded_get_less_than p.2 key = first (less key) (rev (entries p.2))) bs).
  { rewrite Forall_forall in IH, Hch |- *. intros p Hp key' Hk'. apply IH; auto. }
  clear IH. rewrite entries_inner, <- map_rev, rev_app_distr, first_prefixed. cbn [unguarded_get_less_than].
  set (loop n b key := lt_loop (fun b key => on_branch (fun c => unguarded_get_less_than c key) None b bs) (branches bs) n b key).
  assert (Hown : forall key, (forall w, less key ([], w) = true) -> forall o, o = first (less key) (rev (branch_entries bs)) ->
    match o with Some r => Some r | None => match v with Some v => Some ([], v) | None => None end end = first (less key) (rev (branch_entries bs) ++ rev (own_entry v))).
  { intros key' Hw o ->. destruct v as [v|]; cbn [own_entry rev app]; [by rewrite first_own|]. rewrite app_nil_r. by destruct (first _ _). }
  assert (Hall : let b := reverse_lower_bound (branches bs) 63 in loop 65%nat b (if b <? 63 then None else None) = first (less None) (rev (branch_entries bs))).
  { cbv zeta. replace (if _ <? 63 then None else None) with (@None (list Z)) by (by destruct (_ <? 63)).
    rewrite (prev_branch bs Hbs 63 ltac:(split; lia) bs []); [|by rewrite app_nil_r| |constructor].
    - apply (lt_loop_all bs Hbs Hlt bs []); [by rewrite app_nil_r|lia].
    - destruct Hbs as [_ Hc]. eapply Forall_impl; [exact Hc|]. intros x [? ?]. cbn. lia. }
  destruct key as [key|]; [|f_equal; by apply (Hown None)]. cbn in Hkey. lies_cases key k.
  - rewrite lle_refl, first_none; [done|]. apply Forall_forall. intros e _. cbn. by rewrite lle_above_true.
  - rewrite lle_below_false, common_prefix_right, keq_refl, at_app, drop_app_S. apply key6_app in Hkey as (_ & Hb & Hr).
    rewrite (first_ext _ (less (Some (b :: r)))) by (intros e _; unfold less; by rewrite lle_prefixed). f_equal. apply Hown; [done|]. apply lt_loop_from; [done..|lia].
  - rewrite lle_above_true, first_none; [done|]. apply Forall_forall. intros e _. cbn. by rewrite <- app_assoc, lle_above_true.
  - replace (lle (c ++ x :: a) (c ++ y :: b)) with (x <? y) by (rewrite <- (lle_beside c x a y b []), app_nil_r; done). destruct (x <? y) eqn:E.
    + rewrite first_none; [done|]. apply Forall_forall. intros [k' w] _. cbn. by rewrite lle_beside, E.
    + rewrite common_prefix_fork, bool_decide_false by (try (intros E'; symmetry in E'; by apply app_neq in E'); auto).
      rewrite (first_ext _ (less None)) by (intros [k' w] _; cbn; by rewrite lle_beside, E). f_equal. by apply Hown.
Qed.

(** ** [get_max] *)

(** Two strings of the same length that differ in the last character at most. *)
Inductive range_ok : list Z -> list Z -> Prop :=
  | range_nil : range_ok [] []
  | range_last a b : is_char6 a -> is_char6 b -> range_ok [a] [b]
  | range_cons x lo hi : is_char6 x -> range_ok lo hi -> range_ok (x :: lo) (x :: hi).

Lemma range_length lo hi : range_ok lo hi -> length hi = length lo.
Proof. induction 1; cbn; congruence. Qed.
Lemma range_split n lo hi : range_ok lo hi -> (n < length lo)%nat -> take n lo = take n hi /\ range_ok (drop n lo) (drop n hi).
Proof.
  intros H. revert n. induction H as [|a b|x lo hi Hx H IH]; intros n Hn; cbn in Hn; [lia|..].
  - assert (n = 0%nat) by lia. subst. split; [done|by constructor].
  - destruct n as [|n]; [split; [done|by constructor]|]. destruct (IH n ltac:(lia)) as [E ?]. cbn. by rewrite E.
Qed.
Lemma between_same p lo hi k r : length k = length p -> between (p ++ lo) (p ++ hi) (k ++ r) = bool_decide (p = k) && between lo hi r.
Proof.
  revert k. induction p as [|x p IH]; intros [|y k] Hlen; cbn in Hlen; try lia; [by rewrite bool_decide_true|]. cbn [app]. rewrite between_cons, IH by lia.
  destruct (decide (x = y)) as [->|Hne]; [rewrite (bool_decide_true (y = y)) by done; cbn; f_equal; apply bool_decide_ext; split; congruence|].
  rewrite (bool_decide_false (x = y)), (bool_decide_false (x :: p = y :: k)) by congruence. done.
Qed.
Lemma lle_both a b : lle a b && lle b a = bool_decide (a = b).
Proof.
  apply bool_eq. rewrite andb_true_iff, bool_decide_eq_true. split; [intros []; by apply lle_antisym|intros ->; by rewrite lle_refl].
Qed.

Section max.
Variables (bs : list (Z * trie V)).
Hypothesis Hbs : branches_ok bs.
Hypothesis Hok : Forall (fun p => trie_ok p.2) bs.
Hypothesis Hmax : Forall (fun p => forall lo hi, range_ok lo hi -> unguarded_get_max p.2 lo hi = first (fun e => between lo hi e.1) (rev (entries p.2))) bs.
#[local] Set Default Proof Using "Type".

(** Only the last branch that is not above [last_b] matters. *)
Lemma max_branch first_b last_b lo hi (Q : entry -> bool) :
  is_char6 last_b -> 0 <= first_b -> range_ok lo hi -> (first_b = last_b \/ lo = [] /\ hi = []) ->
  (forall b t r v, (b, t) ∈ bs -> Q (b :: r, v) = (first_b <=? b) && (b <=? last_b) && between lo hi r) ->
  (if reverse_lower_bound (branches bs) last_b <? first_b then None
   else under [reverse_lower_bound (branches bs) last_b] (on_branch (fun c => unguarded_get_max c lo hi) None (reverse_lower_bound (branches bs) last_b) bs)) =
  first Q (rev (branch_entries bs)).
Proof using Hbs Hmax Hok.
  intros Hlast Hfirst Hr Hone HQ. destruct (split_branches bs Hbs (last_b + 1)) as (l & r & E & Hl & Hg).
  rewrite (prev_branch bs Hbs last_b Hlast l r); [|done|eapply Forall_impl; [exact Hl|]; cbn; lia|eapply Forall_impl; [exact Hg|]; cbn; lia].
  assert (Hnot : forall bs', (forall p, p ∈ bs' -> p ∈ bs) -> Forall (fun x => x < first_b \/ last_b < x) (map fst bs') -> first Q (rev (branch_entries bs')) = None).
  { intros bs' Hsub Hx. apply first_none, rev_Forall, Forall_forall. intros [k v] (b & t & k' & Hin & -> & _)%elem_of_branch_entries. rewrite (HQ b t) by auto.
    rewrite Forall_forall in Hx. destruct (Hx b ltac:(apply list_elem_of_fmap; by exists (b, t))); [rewrite (proj2 (Z.leb_gt _ _)) by lia; done|].
    rewrite (proj2 (Z.leb_gt b last_b)) by lia. by rewrite andb_false_r. }
  rewrite E, branch_entries_app, rev_app_distr, first_app, (Hnot r); [|intros; rewrite E; apply elem_of_app; by right|eapply Forall_impl; [exact Hg|]; cbn; lia].
  assert (Hsl : forall p, p ∈ l -> p ∈ bs) by (intros; rewrite E; apply elem_of_app; by left). rewrite <- E.
  destruct l as [|[b t] l _] using rev_ind; [by rewrite (proj2 (Z.ltb_lt _ _)) by (cbn; lia)|]. rewrite last_char_snoc.
  rewrite map_app in Hl. apply Forall_app in Hl as [Hl [Hb _]%Forall_cons]. cbn in Hb. assert (Hin : (b, t) ∈ bs) by (apply Hsl, elem_of_app; right; left).
  assert (Hlb : Forall (fun x => x < b) (map fst l)).
  { pose proof Hbs as H. rewrite E, <- app_assoc in H. apply branches_app in H as (_ & _ & H). apply Forall_forall. intros x Hx. apply H; [done|left]. }
  destruct (b <? first_b) eqn:Eb; zbool.
  - rewrite Hnot; [done|done|]. rewrite map_app. apply Forall_app. split; [eapply Forall_impl; [exact Hlb|]; cbn; lia|by repeat constructor].
  - rewrite (on_branch_in _ _ b t) by done. pose proof Hmax as HM. rewrite Forall_forall in HM. specialize (HM _ Hin lo hi Hr). cbn [snd] in HM. rewrite HM.
    rewrite rev_branch_entries, first_app, first_prefixed.
    rewrite (first_ext (fun e => Q (prefixed [b] e)) (fun e => between lo hi e.1)).
    2: { intros [k v] _. unfold prefixed. cbn [app fst snd]. rewrite (HQ b t), (proj2 (Z.leb_le _ _)), (proj2 (Z.leb_le b _)) by (done || lia). done. }
    destruct (first (fun e => between lo hi e.1) (rev (entries t))) as [[k v]|] eqn:Ef; [done|]. cbn [under fmap option_fmap option_map]. symmetry.
    destruct Hone as [->|[-> ->]].
    + apply Hnot; [intros p Hp; apply Hsl, elem_of_app; by left|]. eapply Forall_impl; [exact Hlb|]. cbn. lia.
    + exfalso. pose proof Hok as HO. rewrite Forall_forall in HO. pose proof (entries_nonempty _ (HO _ Hin)) as Hne. cbn in Hne.
      destruct (entries t) as [|e es]; [done|]. cbn in Ef. by apply (first_none_inv _ _ e) in Ef; [|apply elem_of_app; right; left].
Qed.
End max.

Lemma under_app p q (o : option entry) : under p (under q o) = under (p ++ q) o.
Proof. destruct o as [[k v]|]; cbn; [|done]. by rewrite app_assoc. Qed.

Lemma under_turn k b first_b (o : option entry) : (if b <? first_b then None else under (k ++ [b]) o) = under k (if b <? first_b then None else under [b] o).
Proof. destruct (b <? first_b); [done|]. by rewrite under_app. Qed.

(** The bounds of a branch are those of the first character. *)
Lemma range_head a lo b hi : range_ok (a :: lo) (b :: hi) ->
  is_char6 a /\ is_char6 b /\ range_ok lo hi /\ (a = b \/ lo = [] /\ hi = []) /\ forall x r, between (a :: lo) (b :: hi) (x :: r) = (a <=? x) && (x <=? b) && between lo hi r.
Proof.
  inversion 1 as [|? ? Ha Hb|? ? ? Hx Hr]; subst.
  - do 2 (split; [done|]). split; [constructor|]. split; [by right|]. intros x r. rewrite between_last. change (between [] [] r) with true. by rewrite andb_true_r.
  - do 2 (split; [done|]). split; [done|]. split; [by left|]. intros x r. rewrite between_cons. f_equal. apply bool_eq. rewrite andb_true_iff, bool_decide_eq_true, !Z.leb_le. lia.
Qed.

Lemma max_first t lo hi : trie_ok t -> range_ok lo hi -> unguarded_get_max t lo hi = first (fun e => between lo hi e.1) (rev (entries t)).
Proof.
  revert lo hi. induction t as [k v|k v bs IH] using trie_rect'; intros lo hi Ht Hr.
  { cbn [unguarded_get_max entries rev app List.find fst]. unfold between. rewrite (range_length _ _ Hr), Nat.leb_antisym.
    by destruct (_ <? _)%nat, (lle lo _), (lle _ hi). }
  apply ok_inner_inv in Ht as (Hk & Hbs & Hlen & Hch).
  assert (Hmax : Forall (fun p => forall lo hi, range_ok lo hi -> unguarded_get_max p.2 lo hi = first (fun e => between lo hi e.1) (rev (entries p.2))) bs).
  { rewrite Forall_forall in IH, Hch |- *. intros p Hp lo' hi' H'. apply IH; auto. }
  clear IH. rewrite entries_inner, <- map_rev, rev_app_distr, first_prefixed. cbn [unguarded_get_max]. pose proof (range_length _ _ Hr) as Hlh.
  destruct (Nat.le_gt_cases (length lo) (length k)) as [Hle|Hgt].
  - rewrite Nat.min_r, (take_ge lo), (take_ge hi), !drop_ge by lia.
    assert (HQ : forall e : entry, between lo hi (prefixed k e).1 = lle lo (take (length lo) k) && lle (take (length lo) k) hi).
    { intros e. unfold between, prefixed. cbn [fst]. rewrite take_app_le, length_app, (proj2 (Nat.leb_le _ _)) by lia. done. }
    destruct (lle lo (take (length lo) k) && lle (take (length lo) k) hi) eqn:E.
    + apply andb_true_iff in E as [-> ->]. cbn [negb orb]. rewrite under_turn. f_equal. rewrite (first_ext _ (fun e => between [] [] e.1)) by (intros e _; by rewrite HQ).
      rewrite (max_branch bs Hbs Hch Hmax 0 63 [] [] (fun e => between [] [] e.1)); [|done|done|constructor|by right|].
      * rewrite first_app. destruct (first _ (rev (branch_entries bs))) eqn:Ef; [done|]. exfalso. destruct bs as [|[b t] bs]; [destruct v; cbn in Hlen; lia|].
        apply Forall_cons in Hch as [Ht _]. pose proof (entries_nonempty _ Ht) as Hne. cbn in Hne. rewrite branch_entries_cons in Ef.
        destruct (entries t) as [|e es]; [done|]. apply (first_none_inv _ _ (prefixed [b] e)) in Ef; [done|]. apply list_elem_of_In, in_rev. rewrite rev_involutive. by left.
      * intros b t r w Hin. destruct Hbs as [_ Hc]. rewrite Forall_forall in Hc. assert (Hb : is_char6 b) by (apply Hc, list_elem_of_fmap; by exists (b, t)). destruct Hb.
        rewrite (proj2 (Z.leb_le _ _)), (proj2 (Z.leb_le b _)) by lia. done.
    + rewrite first_none by (apply Forall_forall; intros; apply HQ). by destruct (lle lo _), (lle _ hi).
  - rewrite Nat.min_l, (take_ge k) by lia. destruct (range_split (length k) lo hi Hr Hgt) as [Ep Hd].
    assert (Hlp : length k = length (take (length k) lo)) by (rewrite length_take; lia).
    assert (HQ : forall e : entry, between lo hi (prefixed k e).1 = bool_decide (take (length k) lo = k) && between (drop (length k) lo) (drop (length k) hi) e.1).
    { intros e. rewrite <- between_same by done. rewrite Ep at 2. by rewrite !take_drop. }
    rewrite <- Ep. replace (negb _ || negb _) with (negb (bool_decide (take (length k) lo = k))) by (rewrite <- lle_both; by destruct (lle _ k), (lle k _)).
    case_bool_decide as Ek; cbn [negb]; [|rewrite first_none by (apply Forall_forall; intros; apply HQ); done].
    assert (Hne : drop (length k) lo <> []) by (intros E; apply (f_equal length) in E; rewrite length_drop in E; cbn in E; lia).
    destruct (drop (length k) lo) as [|a lo3]; [done|]. destruct (drop (length k) hi) as [|b hi3]; [by inversion Hd|].
    apply range_head in Hd as (Ha & Hb & Hr3 & Hone & Hx). rewrite under_turn. f_equal.
    rewrite (first_ext _ (fun e => between (a :: lo3) (b :: hi3) e.1)) by (intros e _; apply HQ).
    rewrite (max_branch bs Hbs Hch Hmax a b lo3 hi3 (fun e => between (a :: lo3) (b :: hi3) e.1)); [|done|apply Ha|done|done|intros; apply Hx].
    rewrite first_app, (first_none _ (rev (own_entry v))) by (apply rev_Forall; destruct v; repeat constructor). by destruct (first _ _).
Qed.
End order.
