(* ===== verification/TrieRange.v ===== *)
(** * triedent: ranges of keys

    [is_empty_in_range] decides whether a tree has an entry between two bounds;
    the bounds are strings, or [lowest_key] and [highest_key] on the way down. *)

From S2P Require Import Prelude Ordered Database Key6 NodeBits Trie TrieLaws TrieOrder.

(** The key is not before [lower], and is before [upper]. *)
Definition in_bounds (lower upper : extended_key) (k : list Z) : bool := negb (before_key k lower) && before_key k upper.

(** A lower bound, an upper bound, in order. *)
Definition bounds_ok (lower upper : extended_key) : Prop :=
  match lower, upper with
  | highest_key, _ | _, lowest_key => False
  | Key a, Key b => lle a b = true
  | _, _ => True
  end.

(** ** A bound, seen from a prefix *)

Inductive seen (k : list Z) (e : extended_key) : Prop :=
  | seen_after : (forall r, before_key (k ++ r) e = false) -> seen k e
  | seen_below b r : e = Key (k ++ b :: r) -> seen k e
  | seen_before : (forall r, before_key (k ++ r) e = true) -> starts_with e k = false -> seen k e.

Lemma has_prefix_beside c x a y b : x <> y -> has_prefix (c ++ y :: b) (c ++ x :: a) = false.
Proof.
  intros H. destruct (has_prefix _ _) eqn:E; [|done]. apply has_prefix_app in E as [r E]. exfalso. by apply (fork_prefix c x a y b r H).
Qed.

Lemma seen_dec k e : seen k e.
Proof.
  destruct e as [|key|]; [by apply seen_after| |by apply seen_before]. lies_cases key k.
  - apply seen_after. intros r. cbn. by rewrite lle_above_true.
  - by eapply seen_below.
  - apply seen_after. intros r'. cbn. by rewrite <- app_assoc, lle_above_true.
  - destruct (x <? y) eqn:E; [apply seen_after|apply seen_before]; intros; cbn; rewrite ?lle_beside, ?E by done; try done. by rewrite has_prefix_beside.
Qed.

Lemma before_below k b r : before_key k (Key (k ++ b :: r)) = true.
Proof. cbn. by rewrite lle_below_false. Qed.
Lemma starts_below k b r : starts_with (Key (k ++ b :: r)) k = true.
Proof. cbn. apply has_prefix_app. by eexists. Qed.
Lemma before_app k a b : before_key (k ++ a) (Key (k ++ b)) = before_key a (Key b).
Proof. cbn. by rewrite lle_app. Qed.
Lemma before_cons x a y b : before_key (x :: a) (Key (y :: b)) = match x ?= y with Lt => true | Eq => before_key a (Key b) | Gt => false end.
Proof. cbn. rewrite lle_cons, (Z.compare_antisym x y). by destruct (x ?= y). Qed.

(** [prefix_overlap], bound by bound. *)
Lemma overlap_spec k lower upper :
  prefix_overlap k lower upper =
    if before_key k lower && negb (starts_with lower k) || negb (before_key k upper) then (false, false, false)
    else (true, before_key k lower, starts_with upper k).
Proof. done. Qed.

Section range.
Context {V : Type}.
Implicit Types (t : trie V) (bs : list (Z * trie V)).

Definition empty_between (lower upper : extended_key) (l : list (list Z * V)) : Prop := forall k v, (k, v) ∈ l -> in_bounds lower upper k = false.

(** A bound relative to a prefix: what is left of it below the prefix. *)
Definition below_bound (has : bool) (other : extended_key) (b : Z) (r : list Z) : extended_key := if has then Key (b :: r) else other.

Lemma on_branch_all (f : trie V -> bool) b bs : branches_ok bs -> on_branch f true b bs = true <-> forall t, (b, t) ∈ bs -> f t = true.
Proof.
  intros Hbs. rewrite on_branch_maybe. destruct (maybe_branch b bs) as [t|] eqn:E.
  - apply maybe_branch_in in E; [|done]. split; [|by auto]. intros Hf t' Ht'. apply maybe_branch_in in E, Ht'; try done. congruence.
  - split; [|done]. intros _ t Ht. apply maybe_branch_in in Ht; [|done]. congruence.
Qed.

(** The part of a node that lies between the bounds: [hl] and [hu] say whether the
    bounds are below the prefix of the node, [b0 :: r0] and [b1 :: r1] what is left
    of them there. *)
Definition between_mask (hl hu : bool) (b0 b1 : Z) : Z := Z.land (if hl then mask_gt b0 else all_ones) (if hu then mask_lt b1 else all_ones).
Abbreviation lo hl b0 r0 := (below_bound hl lowest_key b0 r0).
Abbreviation hi hu b1 r1 := (below_bound hu highest_key b1 r1).

Lemma testbit_between hl hu b0 b1 b : is_char6 b0 -> is_char6 b1 -> is_char6 b -> Z.testbit (between_mask hl hu b0 b1) b = (negb hl || (b0 <? b)) && (negb hu || (b <? b1)).
Proof.
  intros Hb0 Hb1 Hb. unfold between_mask. rewrite Z.land_spec. f_equal; [destruct hl; [by apply testbit_mask_gt|]|destruct hu; [by apply testbit_mask_lt|]]; rewrite testbit_all_ones by apply Hb; apply Z.ltb_lt, Hb.
Qed.

Lemma bounds_own hl hu b0 b1 r0 r1 : in_bounds (lo hl b0 r0) (hi hu b1 r1) [] = negb hl.
Proof. unfold in_bounds. by destruct hl, hu. Qed.

(** Branches between the bounds are inside, the branches of the bounds are cut. *)
Lemma bounds_branch hl hu b0 b1 r0 r1 b r : in_bounds (lo hl b0 r0) (hi hu b1 r1) (b :: r) =
  (negb hl || (b0 <? b) || (b =? b0) && negb (before_key r (Key r0))) && (negb hu || (b <? b1) || (b =? b1) && before_key r (Key r1)).
Proof.
  unfold in_bounds, below_bound. f_equal; [destruct hl|destruct hu]; try done; rewrite before_cons.
  - destruct (Z.compare_spec b b0) as [->|?|?]; [by rewrite Z.ltb_irrefl, Z.eqb_refl|by rewrite (proj2 (Z.ltb_ge _ _)), (proj2 (Z.eqb_neq _ _)) by lia|by rewrite (proj2 (Z.ltb_lt _ _)) by lia].
  - destruct (Z.compare_spec b b1) as [->|?|?]; [by rewrite Z.ltb_irrefl, Z.eqb_refl|by rewrite (proj2 (Z.ltb_lt _ _)) by lia|by rewrite (proj2 (Z.ltb_ge _ _)), (proj2 (Z.eqb_neq _ _)) by lia].
Qed.

Lemma empty_node v bs hl hu b0 b1 r0 r1 :
  branches_ok bs -> Forall (fun p => trie_ok p.2) bs -> is_char6 b0 -> is_char6 b1 -> (hl = true -> hu = true -> b0 < b1) ->
  empty_between (lo hl b0 r0) (hi hu b1 r1) (own_entry v ++ branch_entries bs) <->
  Z.land (branches bs) (between_mask hl hu b0 b1) = 0 /\ (hl = false -> v = None) /\
  (hl = true -> forall t, (b0, t) ∈ bs -> empty_between (Key r0) highest_key (entries t)) /\
  (hu = true -> forall t, (b1, t) ∈ bs -> empty_between lowest_key (Key r1) (entries t)).
Proof.
  intros Hbs Hch Hb0 Hb1 Hdiff. pose proof (proj2 Hbs) as Hc. unfold branches. rewrite masked_none by done. rewrite Forall_forall in Hc. pose proof (proj1 (Forall_forall _ _) Hch) as Hok. unfold empty_between. setoid_rewrite elem_of_app. split.
  - intros H. assert (Hin : forall b t r w, (b, t) ∈ bs -> (r, w) ∈ entries t -> in_bounds (lo hl b0 r0) (hi hu b1 r1) (b :: r) = false).
    { intros b t r w Hb He. apply (H _ w). right. apply elem_of_branch_entries. by exists b, t, r. }
    split; [|split; [|split]].
    + intros b ([b' t] & -> & Hb)%list_elem_of_fmap. cbn [fst]. pose proof (entries_nonempty _ (Hok _ Hb)) as Hne. cbn in Hne. destruct (entries t) as [|[r w] es] eqn:E; [done|].
      specialize (Hin b' t r w Hb ltac:(rewrite E; left)). rewrite bounds_branch in Hin. rewrite testbit_between by (done || apply Hc, list_elem_of_fmap; by exists (b', t)).
      by destruct (negb hl || _), (negb hu || _).
    + intros ->. destruct v as [w|]; [|done]. exfalso. specialize (H [] w ltac:(left; left)). by rewrite bounds_own in H.
    + intros -> t Ht r w He. specialize (Hin b0 t r w Ht He). rewrite bounds_branch, Z.ltb_irrefl, Z.eqb_refl in Hin. unfold in_bounds. cbn in Hin |- *. rewrite andb_true_r.
      destruct hu; [|by rewrite andb_true_r in Hin]. rewrite (proj2 (Z.ltb_lt b0 b1)) in Hin by auto. by rewrite andb_true_r in Hin.
    + intros -> t Ht r w He. specialize (Hin b1 t r w Ht He). rewrite bounds_branch, (Z.ltb_irrefl b1), (Z.eqb_refl b1) in Hin. unfold in_bounds. cbn in Hin |- *.
      destruct hl; [|done]. rewrite (proj2 (Z.ltb_lt b0 b1)) in Hin by auto. done.
  - intros (Hm & Hv & Hl & Hu) k w [Ho|Hb]; [apply own_entry_elem in Ho as [-> ->]; rewrite bounds_own; destruct hl; [done|by specialize (Hv eq_refl)]|].
    apply elem_of_branch_entries in Hb as (b & t & r & Hin & -> & He). rewrite bounds_branch.
    assert (Hb6 : is_char6 b) by (apply Hc, list_elem_of_fmap; by exists (b, t)).
    assert (Hmb : Z.testbit (between_mask hl hu b0 b1) b = false) by (apply Hm, list_elem_of_fmap; by exists (b, t)). rewrite testbit_between in Hmb by done.
    destruct (b =? b0) eqn:E0, (b =? b1) eqn:E1; rewrite ?Z.eqb_eq, ?Z.eqb_neq in E0; rewrite ?Z.eqb_eq, ?Z.eqb_neq in E1; subst.
    + destruct hl, hu; [specialize (Hdiff eq_refl eq_refl); lia|specialize (Hl eq_refl _ Hin _ _ He)|specialize (Hu eq_refl _ Hin _ _ He)|cbn in Hmb; congruence];
        unfold in_bounds in *; cbn in *; rewrite ?Z.ltb_irrefl in *; cbn; rewrite ?andb_true_r in *; done.
    + destruct hl; [specialize (Hl eq_refl _ Hin _ _ He)|].
      * unfold in_bounds in Hl. cbn in Hl |- *. rewrite andb_true_r in Hl. by rewrite Z.ltb_irrefl, Hl.
      * cbn in Hmb |- *. by rewrite orb_false_r.
    + destruct hu; [specialize (Hu eq_refl _ Hin _ _ He)|].
      * unfold in_bounds in Hu. cbn in Hu |- *. by rewrite Z.ltb_irrefl, Hu, andb_false_r.
      * cbn in Hmb |- *. rewrite !andb_true_r in *. by rewrite orb_false_r.
    + cbn [andb]. by rewrite !orb_false_r.
Qed.

(** The tests of the source, in their order. *)
Lemma tests_iff x hl hu (v : option V) a b :
  (if negb (x =? 0) then false
   else if negb hl && match v with Some _ => true | None => false end then false
   else if hl && negb a then false
   else if hu && negb b then false
   else true) = true <-> x = 0 /\ (hl = false -> v = None) /\ (hl = true -> a = true) /\ (hu = true -> b = true).
Proof. rewrite <- (Z.eqb_eq x 0). destruct (x =? 0), hl, hu, v, a, b; cbn; intuition congruence. Qed.

Definition bound_ok (e : extended_key) : Prop := match e with Key k => key6_ok k | _ => True end.

(** Both bounds in the same branch. *)
Lemma empty_same_branch v bs b r0 r1 : branches_ok bs ->
  empty_between (Key (b :: r0)) (Key (b :: r1)) (own_entry v ++ branch_entries bs) <-> forall t, (b, t) ∈ bs -> empty_between (Key r0) (Key r1) (entries t).
Proof.
  intros Hbs. unfold empty_between. setoid_rewrite elem_of_app. split.
  - intros H t Ht r w He. specialize (H (b :: r) w). unfold in_bounds in H |- *. rewrite !before_cons, !Z.compare_refl in H. apply H. right.
    apply elem_of_branch_entries. by exists b, t, r.
  - intros H k w [[-> ->]%own_entry_elem|(b' & t & r & Hin & -> & He)%elem_of_branch_entries]; [done|]. unfold in_bounds. rewrite !before_cons.
    destruct (Z.compare_spec b' b) as [->|?|?]; [|done|done]. by apply (H t Hin r w).
Qed.

Lemma empty_prefixed k lower upper lower' upper' (l : list (list Z * V)) :
  (forall r, before_key (k ++ r) lower = before_key r lower') -> (forall r, before_key (k ++ r) upper = before_key r upper') ->
  empty_between lower upper (map (prefixed k) l) <-> empty_between lower' upper' l.
Proof.
  intros Hl Hu. unfold empty_between, in_bounds. split.
  - intros H r w He. specialize (H (k ++ r) w). rewrite Hl, Hu in H. apply H, elem_of_prefixed. by exists r.
  - intros H x w (r & -> & He)%elem_of_prefixed. rewrite Hl, Hu. by apply (H r w).
Qed.

Lemma empty_in_range_spec t lower upper : trie_ok t -> bounds_ok lower upper -> bound_ok lower -> bound_ok upper ->
  is_empty_in_range t lower upper = true <-> empty_between lower upper (entries t).
Proof.
  revert lower upper. induction t as [k v|k v bs IH] using trie_rect'; intros lower upper Ht Hb Hl Hu.
  { unfold empty_between, in_bounds. cbn [is_empty_in_range entries]. setoid_rewrite list_elem_of_singleton. split.
    - intros H k' w [= -> ->]. by destruct (before_key k lower), (before_key k upper).
    - intros H. specialize (H k v eq_refl). by destruct (before_key k lower), (before_key k upper). }
  apply ok_inner_inv in Ht as (Hk & Hbs & _ & Hch). rewrite Forall_forall in IH. pose proof (proj1 (Forall_forall _ _) Hch) as Hok.
  assert (IH' : forall b lower upper, bounds_ok lower upper -> bound_ok lower -> bound_ok upper ->
    on_branch (fun c => is_empty_in_range c lower upper) true b bs = true <-> forall t, (b, t) ∈ bs -> empty_between lower upper (entries t)).
  { intros b lower' upper' H1 H2 H3. rewrite on_branch_all by done. split; intros H t Ht; apply (IH _ Ht); auto; apply (Hok _ Ht). }
  clear IH. rewrite entries_inner. cbn [is_empty_in_range]. rewrite overlap_spec. set (L := own_entry v ++ branch_entries bs).
  assert (Hnode : forall hl hu b0 b1 r0 r1, is_char6 b0 -> is_char6 b1 -> (hl = true -> hu = true -> b0 < b1) -> key6_ok r0 -> key6_ok r1 ->
    (if negb (Z.land (branches bs) (between_mask hl hu b0 b1) =? 0) then false
     else if negb hl && match v with Some _ => true | None => false end then false
     else if hl && negb (on_branch (fun c => is_empty_in_range c (Key r0) highest_key) true b0 bs) then false
     else if hu && negb (on_branch (fun c => is_empty_in_range c lowest_key (Key r1)) true b1 bs) then false
     else true) = true <-> empty_between (lo hl b0 r0) (hi hu b1 r1) L).
  { intros hl hu b0 b1 r0 r1 H0 H1 Hd Hr0 Hr1. rewrite tests_iff, !IH' by done. symmetry. by apply empty_node. }
  assert (Hzero : is_char6 0) by (split; lia). assert (Hnil : key6_ok []) by constructor.
  destruct (seen_dec k lower) as [Hla|b0 r0 ->|Hlb Hls], (seen_dec k upper) as [Hua|b1 r1 ->|Hub Hus].
  all: try (pose proof (Hla []) as Hla0; rewrite app_nil_r in Hla0; rewrite Hla0).
  all: try (pose proof (Hlb []) as Hlb0; rewrite app_nil_r in Hlb0; rewrite Hlb0, Hls).
  all: try (pose proof (Hua []) as Hua0; rewrite app_nil_r in Hua0; rewrite Hua0).
  all: try (pose proof (Hub []) as Hub0; rewrite app_nil_r in Hub0; rewrite Hub0, Hus).
  all: rewrite ?before_below, ?starts_below; cbn [andb orb negb].
  all: try (split; [|done]; intros _ x w (r & -> & _)%elem_of_prefixed; unfold in_bounds; rewrite ?Hla, ?Hlb, ?Hua, ?Hub; by rewrite ?andb_false_r).
  - apply key6_app in Hu as (_ & Hb1 & Hr1). rewrite (empty_prefixed k lower (Key (k ++ b1 :: r1)) lowest_key (Key (b1 :: r1))) by (done || intros; apply before_app).
    cbn [key_at substr]. rewrite at_app, drop_app_S. apply (Hnode false true 0 b1 [] r1); done.
  - rewrite (empty_prefixed k lower upper lowest_key highest_key) by done. apply (Hnode false false 0 0 [] []); done.
  - apply key6_app in Hu as (_ & Hb1 & Hr1). apply key6_app in Hl as (_ & Hb0 & Hr0).
    rewrite (empty_prefixed k _ _ (Key (b0 :: r0)) (Key (b1 :: r1))) by (intros; apply before_app).
    cbn [key_at substr]. rewrite !at_app, !drop_app_S. cbn in Hb. rewrite lle_app, lle_cons in Hb. destruct (b0 =? b1) eqn:E; zbool.
    + subst. rewrite Z.compare_refl in Hb. rewrite IH' by done. symmetry. by apply empty_same_branch.
    + apply (Hnode true true b0 b1 r0 r1); try done. intros _ _. destruct (Z.compare_spec b0 b1); [lia|done|done].
  - apply key6_app in Hl as (_ & Hb0 & Hr0). rewrite (empty_prefixed k (Key (k ++ b0 :: r0)) upper (Key (b0 :: r0)) highest_key) by (done || intros; apply before_app).
    cbn [key_at substr]. rewrite at_app, drop_app_S. apply (Hnode true false b0 0 r0 []); done.
Qed.
End range.
