(* ===== verification/TrieMap.v ===== *)
(** * triedent: the ordered map of byte strings

    Source: libraries/triedent/include/triedent/database.hpp, the operations of
    [session] and [write_session] on a root: [get], [get_greater_equal],
    [get_less_than], [get_max], [is_empty], [upsert] and [remove].  They convert
    the key to six-bit characters, run the operation of [Trie] and convert the key
    that was found back.

    The theorems show that a tree is a finite map of byte strings: [contents] is
    the map, and every operation is the operation of the map.  This is the
    interface [Storage] that the database of [Database] and [NativeKv] is proved
    against. *)

From S2P Require Import Prelude Ordered Database Key6 NodeBits Trie TrieLaws TrieOrder TrieRange.

Section map.
Context {V : Type} (data_size : V -> Z).

(** A root is empty or has a tree. *)
Abbreviation root := (option (trie V)).

Definition root_get (r : root) (key : bytes) : option V :=
  match r with Some t => unguarded_get t (to_key6 key) | None => None end.

(** The key that was found, as bytes. *)
Definition result_key (e : list Z * V) : bytes * V := (from_key6 e.1, e.2).

Definition root_greater_equal (r : root) (key : bytes) : option (bytes * V) :=
  match r with Some t => result_key <$> unguarded_get_greater_equal t (to_key6 key) | None => None end.
Definition root_less_than (r : root) (key : bytes) : option (bytes * V) :=
  match r with Some t => result_key <$> unguarded_get_less_than t (Some (to_key6 key)) | None => None end.
Definition root_max (r : root) (prefix : bytes) : option (bytes * V) :=
  match r with Some t => result_key <$> unguarded_get_max t (prefix_min prefix) (prefix_max prefix) | None => None end.

(** An empty upper bound is above every key. *)
Definition upper_key (upper : bytes) : extended_key := match upper with [] => highest_key | _ => Key (to_key6 upper) end.
Definition root_is_empty (r : root) (lower upper : bytes) : bool :=
  match r with Some t => is_empty_in_range t (Key (to_key6 lower)) (upper_key upper) | None => true end.

(** [upsert] and [remove], with the size of the value that was replaced or
    removed, or -1. *)
Definition upsert (r : root) (key : bytes) (val : V) : root * Z :=
  match r with
  | Some t => let '(t', old_size) := add_child data_size t (to_key6 key) val in (Some t', old_size)
  | None => (Some (value_node (to_key6 key) val), -1)
  end.
Definition remove (r : root) (key : bytes) : root * Z :=
  match r with Some t => remove_child data_size t (to_key6 key) | None => (None, -1) end.

(** ** The map *)

Definition root_entries (r : root) : list (list Z * V) := match r with Some t => entries t | None => [] end.
Definition contents (r : root) : gmap bytes V := list_to_map (map result_key (root_entries r)).

(** A compressed trie whose keys are byte strings, of at most 191 bytes: these are
    255 characters, which is what the size of a key in a node can be. *)
Definition max_key_bytes : nat := 191.
Definition key_of_bytes (k : list Z) : Prop := exists b, bytes_ok b /\ (length b <= max_key_bytes)%nat /\ k = to_key6 b.
Definition tree_ok (r : root) : Prop := root_ok r /\ forall k v, get_root r k = Some v -> key_of_bytes k.

Lemma root_get_root r key : root_get r key = get_root r (to_key6 key).
Proof. by destruct r. Qed.
Lemma root_entries_get r k v : root_ok r -> get_root r k = Some v <-> (k, v) ∈ root_entries r.
Proof. destruct r as [t|]; cbn; [apply get_entries|]. intros _. split; [done|by intros ?%elem_of_nil]. Qed.
Lemma root_entries_sorted r : root_ok r -> sorted_entries (root_entries r).
Proof. destruct r; cbn; [apply entries_sorted|constructor]. Qed.
Lemma root_entry_key r e : tree_ok r -> e ∈ root_entries r -> exists b, bytes_ok b /\ e.1 = to_key6 b.
Proof. intros [Hok Hk] He. destruct e as [k v]. destruct (Hk k v) as (b & Hb & _ & E); [by apply root_entries_get|]. by exists b. Qed.

Lemma contents_lookup r k v : tree_ok r -> contents r !! k = Some v <-> bytes_ok k /\ get_root r (to_key6 k) = Some v.
Proof.
  intros H. pose proof H as [Hok Hkeys]. unfold contents. rewrite <- elem_of_list_to_map.
  - rewrite list_elem_of_fmap. split.
    + intros ([k' v'] & [= -> ->] & Hin). destruct (root_entry_key _ _ H Hin) as (b & Hb & E). cbn in E. subst k'. rewrite from_to_key6 by done. split; [done|]. by apply root_entries_get.
    + intros [Hk Hg]. exists (to_key6 k, v). unfold result_key. cbn. rewrite from_to_key6 by done. split; [done|]. by apply root_entries_get.
  - rewrite map_map. pose proof (sorted_NoDup _ (root_entries_sorted r Hok)) as Hnd.
    replace (map (fun x => (result_key x).1) (root_entries r)) with (from_key6 <$> (map fst (root_entries r))) by (unfold fmap; change list_fmap with @map; by rewrite map_map).
    apply NoDup_fmap_2_strong; [|done]. intros x y (e & -> & He)%list_elem_of_fmap (e' & -> & He')%list_elem_of_fmap E.
    destruct (root_entry_key _ _ H He) as (b & Hb & Eb). destruct (root_entry_key _ _ H He') as (b' & Hb' & Eb'). rewrite Eb, Eb', !from_to_key6 in E by done. congruence.
Qed.
Lemma contents_get r k : tree_ok r -> bytes_ok k -> contents r !! k = root_get r k.
Proof.
  intros H Hk. rewrite root_get_root. destruct (get_root r (to_key6 k)) as [v|] eqn:E; [by apply contents_lookup|].
  destruct (contents r !! k) as [v|] eqn:E'; [|done]. apply contents_lookup in E' as [_ E']; [|done]. congruence.
Qed.

(** ** Updates *)

Lemma tree_ok_updated r r' key o : bytes_ok key -> (is_Some o -> (length key <= max_key_bytes)%nat) -> tree_ok r -> root_ok r' -> (forall k, get_root r' k = updated (get_root r) (to_key6 key) o k) -> tree_ok r'.
Proof.
  intros Hkey Hlen [_ Hk] Hok H. split; [done|]. intros k v E. rewrite H in E. unfold updated in E. case_bool_decide; [|by apply (Hk k v)].
  exists key. split; [done|]. split; [|done]. apply Hlen. by exists v.
Qed.
Lemma contents_updated r r' key o : bytes_ok key -> tree_ok r -> tree_ok r' -> (forall k, get_root r' k = updated (get_root r) (to_key6 key) o k) ->
  contents r' = partial_alter (fun _ => o) key (contents r).
Proof.
  intros Hkey Hr Hr' H. apply map_eq. intros k. destruct (decide (bytes_ok k)) as [Hk|Hk].
  - rewrite contents_get, root_get_root, H by done. unfold updated. destruct (decide (k = key)) as [->|Hne].
    + by rewrite keq_refl, lookup_partial_alter_eq.
    + rewrite bool_decide_false, lookup_partial_alter_ne, contents_get, root_get_root by (done || by intros E; apply Hne, to_key6_inj). done.
  - assert (Hnone : forall r, tree_ok r -> contents r !! k = None).
    { intros r0 H0. destruct (contents r0 !! k) eqn:E; [|done]. by apply contents_lookup in E as [? _]. }
    rewrite Hnone by done. rewrite lookup_partial_alter_ne by (by intros ->). by rewrite Hnone.
Qed.
Lemma get_upsert_root r key val k : get_root (upsert r key val).1 k = updated (get_root r) (to_key6 key) (Some val) k.
Proof.
  destruct r as [t|]; cbn [upsert].
  - pose proof (get_add data_size t (to_key6 key) val k) as H. by destruct (add_child _ _ _ _).
  - unfold updated. cbn. by rewrite (bool_decide_ext (to_key6 key = k) (k = to_key6 key)) by (split; congruence).
Qed.
Lemma get_remove_root r key k : get_root (remove r key).1 k = updated (get_root r) (to_key6 key) None k.
Proof. destruct r as [t|]; cbn [remove]; [apply get_remove|]. unfold updated. by case_bool_decide. Qed.
Lemma upsert_root_ok r key val : bytes_ok key -> root_ok r -> root_ok (upsert r key val).1.
Proof.
  intros Hk Hr. destruct r as [t|]; cbn [upsert]; [|constructor; by apply to_key6_ok].
  pose proof (add_ok data_size t (to_key6 key) val (to_key6_ok _ Hk) Hr) as H. by destruct (add_child _ _ _ _).
Qed.
Lemma remove_root_ok r key : root_ok r -> root_ok (remove r key).1.
Proof. destruct r as [t|]; cbn [remove]; [apply remove_ok|done]. Qed.
Lemma upsert_tree_ok r key val : bytes_ok key -> (length key <= max_key_bytes)%nat -> tree_ok r -> tree_ok (upsert r key val).1.
Proof. intros Hk Hlen Hr. apply (tree_ok_updated r _ key (Some val)); [done|done|done|apply upsert_root_ok; [done|apply Hr]|apply get_upsert_root]. Qed.
Lemma remove_tree_ok r key : bytes_ok key -> tree_ok r -> tree_ok (remove r key).1.
Proof. intros Hk Hr. apply (tree_ok_updated r _ key None); [done|by intros [? ?]|done|apply remove_root_ok, Hr|apply get_remove_root]. Qed.

(** ** Ordered lookups *)

(** The entry of [m] with the first key that satisfies [P], in the order
    [before]. *)
Definition is_best (m : gmap bytes V) (P : bytes -> bool) (before : bytes -> bytes -> bool) (res : option (bytes * V)) : Prop :=
  match res with
  | Some (k, v) => m !! k = Some v /\ P k = true /\ forall k', is_Some (m !! k') -> P k' = true -> before k k' = true
  | None => forall k', is_Some (m !! k') -> P k' = false
  end.

(** The first of a list in which no entry is before the one that precedes it. *)
Lemma first_best (Q : list Z -> bool) (before : list Z -> list Z -> bool) (l : list (list Z * V)) :
  (forall a, before a a = true) -> StronglySorted (fun e e' => before e.1 e'.1 = true) l ->
  match List.find (fun e => Q e.1) l with
  | Some e => e ∈ l /\ Q e.1 = true /\ forall e', e' ∈ l -> Q e'.1 = true -> before e.1 e'.1 = true
  | None => forall e, e ∈ l -> Q e.1 = false
  end.
Proof.
  intros Hrefl Hs. destruct (List.find _ l) as [e|] eqn:E; [|intros e He; by apply (first_none_inv _ _ e) in E].
  pose proof (first_elem _ _ _ E) as [Hin HQ]. split; [done|]. split; [done|]. revert E. induction Hs as [|x l Hs IH Hx]; [done|]. cbn. destruct (Q x.1) eqn:Ex.
  - intros [= ->] e' [->|He']%elem_of_cons _; [done|]. rewrite Forall_forall in Hx. by apply Hx.
  - intros E e' He' HQ'. apply elem_of_cons in He' as [->|He']; [congruence|]. apply (first_elem _ _ _) in E as E2. destruct E2 as [E2 _]. by apply (IH E2 E e' He').
Qed.

Lemma StronglySorted_fst (R : list Z -> list Z -> Prop) (l : list (list Z * V)) : StronglySorted R (map fst l) -> StronglySorted (fun e e' => R e.1 e'.1) l.
Proof. induction l as [|e l IH]; cbn; intros H; [constructor|]. inversion H as [|? ? H1 H2]; subst. constructor; [by apply IH|]. rewrite Forall_forall in H2. apply Forall_forall. intros x Hx. apply H2, list_elem_of_fmap. by exists x. Qed.
Lemma StronglySorted_impl {A} (R S : A -> A -> Prop) l : (forall a b, R a b -> S a b) -> StronglySorted R l -> StronglySorted S l.
Proof. intros H. induction 1 as [|x l Hs IH Hx]; constructor; [done|]. eapply Forall_impl; [exact Hx|]. auto. Qed.
Lemma StronglySorted_rev {A} (R : A -> A -> Prop) l : StronglySorted R l -> StronglySorted (flip R) (rev l).
Proof.
  induction 1 as [|x l Hs IH Hx]; cbn; [constructor|]. clear Hs. assert (Hx' : Forall (R x) (rev l)) by (by apply Forall_rev). revert Hx' IH. generalize (rev l). clear.
  intros m Hm. induction 1 as [|y m Hs IH Hy]; cbn; [repeat constructor|]. apply Forall_cons in Hm as [Hxy Hm]. constructor; [by apply IH|]. apply Forall_app. split; [done|by repeat constructor].
Qed.

Lemma entries_ascend r : root_ok r -> StronglySorted (fun e e' => lle e.1 e'.1 = true) (root_entries r).
Proof.
  intros H. apply (StronglySorted_fst (fun a b => lle a b = true)). eapply StronglySorted_impl; [|by apply root_entries_sorted]. intros a b Hab. change (lex_compare a b = Lt) in Hab. unfold lle. by rewrite Hab.
Qed.
Lemma entries_descend r : root_ok r -> StronglySorted (fun e e' => lle e'.1 e.1 = true) (rev (root_entries r)).
Proof. intros H. by apply (StronglySorted_rev (fun e e' => lle e.1 e'.1 = true)), entries_ascend. Qed.

(** A search in the list of entries is a search in the map. *)
Lemma search_best r (l : list (list Z * V)) (P : bytes -> bool) (Q : list Z -> bool) (before before6 : bytes -> bytes -> bool) :
  tree_ok r -> (forall e, e ∈ l <-> e ∈ root_entries r) -> (forall b, bytes_ok b -> Q (to_key6 b) = P b) ->
  (forall a b, bytes_ok a -> bytes_ok b -> before6 (to_key6 a) (to_key6 b) = before a b) -> (forall a, before6 a a = true) ->
  StronglySorted (fun e e' => before6 e.1 e'.1 = true) l ->
  is_best (contents r) P before (result_key <$> List.find (fun e => Q e.1) l).
Proof.
  intros H Hl HP Hb Hrefl Hs. pose proof (first_best Q before6 l Hrefl Hs) as HF.
  assert (Hk : forall k', is_Some (contents r !! k') -> bytes_ok k' /\ exists v, (to_key6 k', v) ∈ l).
  { intros k' [v Hv]. apply contents_lookup in Hv as [Hk' Hv]; [|done]. split; [done|]. exists v. apply Hl. apply root_entries_get; [apply H|done]. }
  destruct (List.find (fun e => Q e.1) l) as [[k v]|]; cbn.
  - destruct HF as (Hin & HQ & Hbest). destruct (root_entry_key r (k, v) H (proj1 (Hl _) Hin)) as (b & Hbk & E). cbn in E. subst k. rewrite from_to_key6 by done.
    split; [apply contents_lookup; [done|]; split; [done|]; apply root_entries_get; [apply H|by apply Hl]|]. split; [rewrite <- HP by done; exact HQ|].
    intros k' Hk'' HPk. destruct (Hk _ Hk'') as [Hb' [v' Hin']]. rewrite <- Hb by done. apply (Hbest _ Hin'). cbn. by rewrite HP.
  - intros k' Hk''. destruct (Hk _ Hk'') as [Hb' [v' Hin']]. specialize (HF _ Hin'). cbn in HF. by rewrite HP in HF.
Qed.

Lemma entries_rev_elem (r : root) e : e ∈ rev (root_entries r) <-> e ∈ root_entries r.
Proof. rewrite !list_elem_of_In. symmetry. apply in_rev. Qed.

Lemma greater_equal_best r key : tree_ok r -> bytes_ok key -> is_best (contents r) (fun k => lle key k) lle (root_greater_equal r key).
Proof.
  intros H Hk. assert (E : root_greater_equal r key = result_key <$> List.find (fun e => lle (to_key6 key) e.1) (root_entries r)).
  { destruct r as [t|]; [|done]. cbn. by rewrite greater_equal_first by (apply H || by apply to_key6_ok). }
  rewrite E. apply (search_best r _ _ (lle (to_key6 key)) lle lle); [done|done|intros; by apply to_key6_lle|intros; by apply to_key6_lle|apply lle_refl|apply entries_ascend, H].
Qed.
Lemma less_than_best r key : tree_ok r -> bytes_ok key -> is_best (contents r) (fun k => negb (lle key k)) (fun a b => lle b a) (root_less_than r key).
Proof.
  intros H Hk. assert (E : root_less_than r key = result_key <$> List.find (fun e => negb (lle (to_key6 key) e.1)) (rev (root_entries r))).
  { destruct r as [t|]; [|done]. cbn. rewrite less_than_first by (apply H || by apply to_key6_ok). done. }
  rewrite E. apply (search_best r _ _ (fun k => negb (lle (to_key6 key) k)) _ (fun a b => lle b a)); [done|apply entries_rev_elem|intros; by rewrite to_key6_lle|intros; by apply to_key6_lle|apply lle_refl|apply entries_descend, H].
Qed.

Lemma or_back_range m k : 0 <= m < 64 -> key6_ok k -> range_ok k (or_back m k).
Proof.
  intros Hm. induction 1 as [|c k Hc Hk IH]; [constructor|]. destruct k as [|d k]; [|by constructor].
  constructor; [done|]. split; [apply Z.lor_nonneg; destruct Hc; lia|]. destruct Hc. destruct (decide (Z.lor c m = 0)) as [->|]; [lia|].
  change 64 with (2 ^ 6). apply Z.log2_lt_pow2; [pose proof (proj2 (Z.lor_nonneg c m)); lia|]. rewrite Z.log2_lor by lia. apply Z.max_lub_lt.
  - destruct (decide (c = 0)) as [->|]; [done|]. apply Z.log2_lt_pow2; lia.
  - destruct (decide (m = 0)) as [->|]; [done|]. apply Z.log2_lt_pow2; lia.
Qed.
Lemma extra_bits_small p : 0 <= Z.shiftl 1 (extra_bits p) - 1 < 64.
Proof. induction p as [|a|a b|a b c p IH] using bytes_ind3; [done..|]. by rewrite extra_bits_group. Qed.
Lemma prefix_range p : bytes_ok p -> range_ok (prefix_min p) (prefix_max p).
Proof. intros H. apply or_back_range; [apply extra_bits_small|by apply to_key6_ok]. Qed.

Lemma max_best r prefix : tree_ok r -> bytes_ok prefix -> is_best (contents r) (has_prefix prefix) (fun a b => lle b a) (root_max r prefix).
Proof.
  intros H Hk. assert (E : root_max r prefix = result_key <$> List.find (fun e => between (prefix_min prefix) (prefix_max prefix) e.1) (rev (root_entries r))).
  { destruct r as [t|]; [|done]. cbn. rewrite max_first by (apply H || by apply prefix_range). done. }
  rewrite E. apply (search_best r _ _ (between (prefix_min prefix) (prefix_max prefix)) _ (fun a b => lle b a)); [done|apply entries_rev_elem|intros; by apply between_prefix|intros; by apply to_key6_lle|apply lle_refl|apply entries_descend, H].
Qed.

(** What a search returns is determined. *)
Lemma best_unique m P before r1 r2 : (forall a b, before a b = true -> before b a = true -> a = b) -> is_best m P before r1 -> is_best m P before r2 -> r1 = r2.
Proof.
  intros Hanti H1 H2. destruct r1 as [[k1 v1]|], r2 as [[k2 v2]|]; cbn in *; [|..|done].
  - destruct H1 as (E1 & P1 & B1), H2 as (E2 & P2 & B2). assert (k1 = k2) by (apply Hanti; [apply B1|apply B2]; eauto). congruence.
  - destruct H1 as (E1 & P1 & _). rewrite H2 in P1; eauto. done.
  - destruct H2 as (E2 & P2 & _). rewrite H1 in P2; eauto. done.
Qed.

(** The keys of the range [lower, upper). *)
Definition in_key_range (lower upper k : bytes) : bool := lle lower k && match upper with [] => true | _ => negb (lle upper k) end.

Lemma empty_spec r lower upper : tree_ok r -> bytes_ok lower -> bytes_ok upper -> (upper <> [] -> lle lower upper = true) ->
  root_is_empty r lower upper = true <-> forall k, is_Some (contents r !! k) -> in_key_range lower upper k = false.
Proof.
  intros H Hl Hu Ho. assert (Hkey : forall b, bytes_ok b -> in_bounds (Key (to_key6 lower)) (upper_key upper) (to_key6 b) = in_key_range lower upper b).
  { intros b Hb. unfold in_bounds, in_key_range. cbn [before_key]. rewrite negb_involutive, to_key6_lle by done. f_equal.
    destruct upper as [|u upper]; [done|]. unfold upper_key. cbn [before_key]. by rewrite to_key6_lle. }
  assert (E : root_is_empty r lower upper = true <-> empty_between (Key (to_key6 lower)) (upper_key upper) (root_entries r)).
  { destruct r as [t|]; [|cbn; split; [by intros _ ? ? ?%elem_of_nil|done]]. cbn. apply empty_in_range_spec; [apply H| |by apply to_key6_ok|].
    - unfold bounds_ok, upper_key. destruct upper as [|u upper]; [done|]. rewrite to_key6_lle by done. by apply Ho.
    - unfold upper_key. destruct upper; [done|]. by apply to_key6_ok. }
  rewrite E. split.
  - intros He k [v Hv]. apply contents_lookup in Hv as [Hk Hv]; [|done]. rewrite <- Hkey by done. apply (He _ v). by apply root_entries_get; [apply H|].
  - intros He k v Hin. destruct (root_entry_key _ _ H Hin) as (b & Hb & Eb). cbn in Eb. subst k. rewrite Hkey by done. apply He. exists v. apply contents_lookup; [done|]. split; [done|].
    by apply root_entries_get; [apply H|].
Qed.
End map.

(** ** The form of a tree is determined by its contents *)

Section canonical.
Context {V : Type}.
Implicit Types (t : trie V) (bs : list (Z * trie V)).

Lemma has_entry t : trie_ok t -> exists k v, unguarded_get t k = Some v.
Proof. intros H. pose proof (entries_nonempty _ H) as Hne. destruct (entries t) as [|[k v] l] eqn:E; [done|]. exists k, v. apply get_entries; [done|]. rewrite E. left. Qed.

(** The keys of the map bound those of the nodes. *)
Definition root_key t : list Z := match t with value_node k _ => k | inner_node k _ _ => k end.
Definition short t : Prop := forall k v, unguarded_get t k = Some v -> (length k <= max_key_size)%nat.
Lemma short_branch k v bs b t : short (inner_node k v bs) -> maybe_branch b bs = Some t -> short t.
Proof. intros H E r w Hr. specialize (H (k ++ b :: r) w). rewrite get_below, E, length_app in H. cbn [length] in H. specialize (H Hr). lia. Qed.
Lemma short_longer k v bs b t : trie_ok t -> short (inner_node k v bs) -> maybe_branch b bs = Some t ->
  (length (k ++ [b]) + length (root_key t) <= max_key_size)%nat.
Proof.
  intros Ht H E. destruct (has_entry t Ht) as (r & w & Hr). specialize (H (k ++ b :: r) w). rewrite get_below, E, length_app in H. cbn [length] in H. specialize (H Hr). rewrite length_app. cbn [length].
  enough (length (root_key t) <= length r)%nat by lia. destruct t as [k' d|k' v' bs']; cbn [root_key].
  - rewrite get_value in Hr. case_bool_decide; [by subst|done].
  - destruct (lies_apart r k') as [->|[(b' & r' & ->)|[H1 H2]]]; [done|rewrite length_app; lia|]. by rewrite get_inner_apart in Hr.
Qed.
Lemma short_fits t : trie_ok t -> short t -> keys_fit t = true.
Proof.
  induction t as [k v|k v bs IH] using trie_rect'; intros Ht Hs; cbn [keys_fit].
  - apply Nat.leb_le, (Hs k v). by rewrite get_value, keq_refl.
  - destruct (has_entry _ Ht) as (key & w & Hw). pose proof (Hs _ _ Hw) as Hl. apply andb_true_intro. split.
    + apply Nat.leb_le. destruct (lies_apart key k) as [->|[(b & r & ->)|[H1 H2]]]; [done|rewrite length_app in Hl; lia|]. by rewrite get_inner_apart in Hw.
    + apply forallb_forall. intros [b c] Hin%list_elem_of_In. apply ok_inner_inv in Ht as (_ & Hbs & _ & Hch). rewrite Forall_forall in IH, Hch.
      apply (IH _ Hin); [apply (Hch _ Hin)|]. apply (short_branch k v bs b); [done|]. by apply maybe_branch_in.
Qed.
Lemma to_key6_fits (b : bytes) : (length b <= max_key_bytes)%nat -> (length (to_key6 b) <= max_key_size)%nat.
Proof. intros H. pose proof (to_key6_length b) as E. unfold max_key_bytes, max_key_size in *. assert ((Z.of_nat (length b) * 8 + 5) / 6 < 256) by (apply Z.div_lt_upper_bound; lia). lia. Qed.
Lemma tree_ok_short t : tree_ok (Some t) -> short t.
Proof. intros [_ Hk] k v E. destruct (Hk k v E) as (b & _ & Hl & ->). by apply to_key6_fits. Qed.
Definition root_fits (r : option (trie V)) : bool := match r with Some t => keys_fit t | None => true end.
Lemma tree_ok_fits r : tree_ok r -> root_fits r = true.
Proof. intros H. destruct r as [t|]; [|done]. apply short_fits; [apply H|by apply tree_ok_short]. Qed.

(** An inner node has a key that does not go on with a given character. *)
Lemma other_entry k v bs b : trie_ok (inner_node k v bs) -> exists r w, unguarded_get (inner_node k v bs) (k ++ r) = Some w /\ hd_error r <> Some b.
Proof.
  intros (_ & Hbs & Hlen & Hch)%ok_inner_inv. destruct v as [v|]; [exists [], v; by rewrite app_nil_r, get_at|].
  destruct bs as [|[b1 t1] [|[b2 t2] bs]]; [cbn in Hlen; lia..|]. rewrite Forall_forall in Hch.
  assert (Hb : forall b' t', (b', t') ∈ (b1, t1) :: (b2, t2) :: bs -> b' <> b -> exists r w, unguarded_get (inner_node k None ((b1, t1) :: (b2, t2) :: bs)) (k ++ r) = Some w /\ hd_error r <> Some b).
  { intros b' t' Hin Hne. destruct (has_entry t' (Hch _ Hin)) as (r & w & E). exists (b' :: r), w. rewrite get_below, (proj2 (maybe_branch_in _ _ _ Hbs) Hin). cbn. split; [done|congruence]. }
  destruct (decide (b1 = b)) as [->|Hne]; [|by apply (Hb b1 t1); [left|]]. apply branches_cons in Hbs as (_ & Hlt & _). apply Forall_cons in Hlt as [Hlt _]. cbn in Hlt.
  apply (Hb b2 t2); [right; left|lia].
Qed.

(** The prefixes are the same. *)
Lemma same_prefix k1 v1 bs1 k2 v2 bs2 : trie_ok (inner_node k1 v1 bs1) -> trie_ok (inner_node k2 v2 bs2) ->
  (forall k, unguarded_get (inner_node k1 v1 bs1) k = unguarded_get (inner_node k2 v2 bs2) k) -> forall b r, k2 <> k1 ++ b :: r.
Proof.
  intros H1 H2 E b r ->. destruct (other_entry _ _ _ b H1) as (r' & w & Hw & Hne). rewrite E in Hw. destruct r' as [|b' r']; cbn in Hne.
  - by rewrite app_nil_r, get_above in Hw.
  - rewrite get_beside in Hw by congruence. done.
Qed.

Lemma value_not_inner k v k' v' bs : trie_ok (inner_node k' v' bs) -> ~ (forall key, unguarded_get (value_node k v) key = unguarded_get (inner_node k' v' bs) key).
Proof.
  intros H E. assert (Hone : forall key w, unguarded_get (inner_node k' v' bs) key = Some w -> key = k) by (intros key w; rewrite <- E, get_value; case_bool_decide; congruence).
  destruct bs as [|[b t] bs]; [apply ok_inner_inv in H as (_ & _ & Hlen & _); destruct v'; cbn in Hlen; lia|].
  pose proof H as (_ & _ & _ & [Ht _]%Forall_cons)%ok_inner_inv. destruct (has_entry t Ht) as (r & u & Hu).
  assert (Hk : k' ++ b :: r = k) by (apply (Hone _ u); rewrite get_below; unfold maybe_branch; cbn; by rewrite Z.eqb_refl).
  destruct (other_entry _ _ _ b H) as (r' & w & Hw & Hne). apply Hone in Hw. rewrite <- Hk in Hw. by apply app_inv_head in Hw as ->.
Qed.

Lemma branches_ext bs1 bs2 : branches_ok bs1 -> branches_ok bs2 -> (forall b, maybe_branch b bs1 = maybe_branch b bs2) -> bs1 = bs2.
Proof.
  intros H1. revert bs2. induction bs1 as [|[b1 t1] bs1 IH]; intros [|[b2 t2] bs2] H2 E; [done|..].
  - specialize (E b2). unfold maybe_branch in E. cbn in E. by rewrite Z.eqb_refl in E.
  - specialize (E b1). unfold maybe_branch in E. cbn in E. by rewrite Z.eqb_refl in E.
  - pose proof H1 as (_ & Hlt1 & Hok1)%branches_cons. pose proof H2 as (_ & Hlt2 & Hok2)%branches_cons. rewrite Forall_forall in Hlt1, Hlt2.
    assert (Hmem : forall b t, (b, t) ∈ (b1, t1) :: bs1 <-> (b, t) ∈ (b2, t2) :: bs2) by (intros b t; rewrite <- !maybe_branch_in, E; done).
    assert (Hfst : forall (b : Z) (t : trie V) l, (b, t) ∈ l -> b ∈ map fst l) by (intros b t l Hin; apply list_elem_of_fmap; by exists (b, t)).
    assert ((b1, t1) = (b2, t2)) as [= -> ->].
    { pose proof (proj1 (Hmem b1 t1) ltac:(left)) as Ha. pose proof (proj2 (Hmem b2 t2) ltac:(left)) as Hb. apply elem_of_cons in Ha as [Ha|Ha]; [done|].
      apply elem_of_cons in Hb as [Hb|Hb]; [done|]. apply Hfst in Ha, Hb. apply Hlt2 in Ha. apply Hlt1 in Hb. lia. }
    f_equal. apply IH; [done|done|]. intros b. destruct (maybe_branch b bs1) as [t|] eqn:Eb.
    + apply maybe_branch_in in Eb; [|done]. symmetry. apply maybe_branch_in; [done|]. pose proof (proj1 (Hmem b t) ltac:(by right)) as Hin. apply elem_of_cons in Hin as [[= -> ->]|Hin]; [|done].
      apply Hfst, Hlt1 in Eb. lia.
    + destruct (maybe_branch b bs2) as [t|] eqn:Eb2; [|done]. exfalso. apply maybe_branch_in in Eb2; [|done]. pose proof (proj2 (Hmem b t) ltac:(by right)) as Hin.
      apply elem_of_cons in Hin as [[= -> ->]|Hin]; [apply Hfst, Hlt2 in Eb2; lia|]. apply maybe_branch_in in Hin; [congruence|done].
Qed.

Lemma trie_ext t1 t2 : trie_ok t1 -> trie_ok t2 -> (forall k, unguarded_get t1 k = unguarded_get t2 k) -> t1 = t2.
Proof.
  revert t2. induction t1 as [k1 v1|k1 v1 bs1 IH] using trie_rect'; intros [k2 v2|k2 v2 bs2] H1 H2 E.
  - pose proof (E k1) as E1. rewrite !get_value, keq_refl in E1. case_bool_decide; congruence.
  - by apply value_not_inner in E.
  - symmetry in E. by apply value_not_inner in E.
  - assert (k1 = k2) as ->.
    { lies_cases k1 k2; [done|exfalso..].
      - by apply (same_prefix _ _ _ _ _ _ H2 H1 (fun k => eq_sym (E k)) b r).
      - by apply (same_prefix _ _ _ _ _ _ H1 H2 E b r).
      - destruct (has_entry _ H1) as (key & w & Hw). pose proof Hw as Hw'. rewrite E in Hw'.
        destruct (lies_apart key (c ++ x :: a)) as [->|[(b' & r' & ->)|[Ha Hb]]].
        + rewrite get_beside in Hw' by done. done.
        + rewrite <- app_assoc in Hw'. cbn [app] in Hw'. rewrite get_beside in Hw' by done. done.
        + by rewrite get_inner_apart in Hw. }
    assert (v1 = v2) as -> by (rewrite <- (get_at k2 v1 bs1), <- (get_at k2 v2 bs2); apply E).
    f_equal. apply ok_inner_inv in H1 as (_ & Hb1 & _ & Hc1). apply ok_inner_inv in H2 as (_ & Hb2 & _ & Hc2). rewrite Forall_forall in IH, Hc1, Hc2.
    apply branches_ext; [done|done|]. intros b. assert (Eb : forall r, unguarded_get (inner_node k2 v2 bs1) (k2 ++ b :: r) = unguarded_get (inner_node k2 v2 bs2) (k2 ++ b :: r)) by (intros; apply E).
    setoid_rewrite get_below in Eb. destruct (maybe_branch b bs1) as [t1|] eqn:E1, (maybe_branch b bs2) as [t2|] eqn:E2; [|..|done];
      try apply maybe_branch_elem in E1; try apply maybe_branch_elem in E2.
    + f_equal. apply (IH _ E1); [apply (Hc1 _ E1)|apply (Hc2 _ E2)|done].
    + destruct (has_entry _ (Hc1 _ E1)) as (r & w & Hw). cbn [snd] in Hw. rewrite Eb in Hw. done.
    + destruct (has_entry _ (Hc2 _ E2)) as (r & w & Hw). cbn [snd] in Hw. rewrite <- Eb in Hw. done.
Qed.
End canonical.

(** ** Sequences of updates *)

(** The size of a value of bytes. *)
Definition bytes_size (v : bytes) : Z := Z.of_nat (length v).

(** The updates of a tree, and those of a finite map. *)
Inductive root_op := op_upsert (key val : bytes) | op_remove (key : bytes).
Definition apply_op (r : option (trie bytes)) (o : root_op) : option (trie bytes) :=
  match o with
  | op_upsert key val => (upsert bytes_size r key val).1
  | op_remove key => (remove bytes_size r key).1
  end.
Definition apply_map (m : gmap bytes bytes) (o : root_op) : gmap bytes bytes :=
  match o with
  | op_upsert key val => st_upsert m key val
  | op_remove key => st_remove m key
  end.
Definition op_ok (o : root_op) : Prop := match o with op_upsert key _ => bytes_ok key /\ (length key <= max_key_bytes)%nat | op_remove key => bytes_ok key end.

Lemma empty_tree_ok {V} : tree_ok (None : option (trie V)).
Proof. split; [done|]. by intros k v E. Qed.

Lemma apply_op_spec r o : op_ok o -> tree_ok r -> tree_ok (apply_op r o) /\ contents (apply_op r o) = apply_map (contents r) o.
Proof.
  destruct o as [key val|key]; cbn; intros Hk Hr.
  - destruct Hk as [Hk Hl]. split; [by apply upsert_tree_ok|]. rewrite (contents_updated r _ key (Some val)); [done|done|done|by apply upsert_tree_ok|apply get_upsert_root].
  - split; [by apply remove_tree_ok|]. rewrite (contents_updated r _ key None); [done|done|done|by apply remove_tree_ok|apply get_remove_root].
Qed.

Ltac op_solve := cbn; repeat split; try bytes_solve; unfold max_key_bytes; cbn; lia.
Definition example_root : option (trie bytes) := apply_op (apply_op (apply_op None (op_upsert [1; 2; 3] [10])) (op_upsert [1; 2] [20])) (op_upsert [200] []).
Lemma example_root_ok : tree_ok example_root.
Proof. repeat (apply apply_op_spec; [op_solve|]). apply empty_tree_ok. Qed.

(** The form of a tree depends on its contents only: two roots with the same map
    are the same tree, whatever the order of the updates that built them. *)
Theorem trie_canonical {V} (r1 r2 : option (trie V)) : tree_ok r1 -> tree_ok r2 -> contents r1 = contents r2 -> r1 = r2.
Proof.
  intros H1 H2 E. assert (Hget : forall k, get_root r1 k = get_root r2 k).
  { intros k. assert (Hb : forall r r' : option (trie V), tree_ok r -> tree_ok r' -> contents r = contents r' -> forall v, get_root r k = Some v -> get_root r' k = Some v).
    { intros r r' Hr Hr' Err v Hv. pose proof Hr as [_ Hkeys]. destruct (Hkeys k v Hv) as (b & Hbk & _ & ->). apply contents_lookup; [done|]. rewrite <- Err. by apply contents_lookup. }
    destruct (get_root r1 k) as [v|] eqn:Ev; [symmetry; by apply (Hb r1 r2)|]. destruct (get_root r2 k) as [v|] eqn:Ev2; [|done].
    rewrite (Hb r2 r1 H2 H1 (eq_sym E) v Ev2) in Ev. done. }
  destruct H1 as [H1 _], H2 as [H2 _]. destruct r1 as [t1|], r2 as [t2|]; [f_equal; by apply trie_ext|exfalso..|done].
  - destruct (has_entry t1 H1) as (k & v & Hv). specialize (Hget k). cbn in Hget. congruence.
  - destruct (has_entry t2 H2) as (k & v & Hv). specialize (Hget k). cbn in Hget. congruence.
Qed.

Definition example_other : option (trie bytes) :=
  apply_op (apply_op (apply_op (apply_op (apply_op None (op_upsert [200] [])) (op_upsert [1; 2] [9; 9])) (op_upsert [1; 2; 3] [10])) (op_remove [1; 2])) (op_upsert [1; 2] [20]).
Lemma example_other_ok : tree_ok example_other.
Proof. repeat (apply apply_op_spec; [op_solve|]). apply empty_tree_ok. Qed.
Lemma trie_canonical_witness : example_root = example_other.
Proof. apply trie_canonical; [apply example_root_ok|apply example_other_ok|vm_compute; reflexivity]. Defined.

(** [is_empty] answers whether the tree has no key in [lower, upper), for bounds
    in order; an empty upper bound is above every key. *)
Theorem is_empty_correct {V} (r : option (trie V)) lower upper : tree_ok r -> bytes_ok lower -> bytes_ok upper -> (upper <> [] -> lle lower upper = true) ->
  root_is_empty r lower upper = true <-> forall k, is_Some (contents r !! k) -> in_key_range lower upper k = false.
Proof. apply empty_spec. Qed.
Lemma is_empty_correct_witness : root_is_empty example_root [1; 2; 4] [200] = true /\ forall k, is_Some (contents example_root !! k) -> in_key_range [1; 2; 4] [200] k = false.
Proof.
  assert (E : root_is_empty example_root [1; 2; 4] [200] = true) by (vm_compute; reflexivity). split; [exact E|].
  apply (is_empty_correct example_root [1; 2; 4] [200]); [apply example_root_ok|bytes_solve|bytes_solve|reflexivity|exact E].
Defined.

(** A tree built by any sequence of [upsert] and [remove] from the empty root
    is a compressed trie, and its contents are those of a finite map after the
    same updates. *)
Theorem trie_history ops : Forall op_ok ops ->
  tree_ok (foldl apply_op None ops) /\ contents (foldl apply_op None ops) = foldl apply_map ∅ ops.
Proof.
  intros Hops. change (∅ : gmap bytes bytes) with (contents (None : option (trie bytes))).
  assert (Hr : tree_ok (None : option (trie bytes))) by apply empty_tree_ok. revert Hr. generalize (None : option (trie bytes)).
  induction Hops as [|o ops Ho _ IH]; intros r Hr; [done|]. cbn [foldl]. destruct (apply_op_spec r o Ho Hr) as [Hr' <-]. by apply IH.
Qed.

Definition example_ops : list root_op :=
  [op_upsert [1; 2; 3] [10]; op_upsert [1; 2] [20]; op_upsert [1; 2; 4] [30]; op_upsert [200] []; op_remove [1; 2; 3]; op_upsert [1; 2] [21; 22]].
Lemma trie_history_witness :
  contents (foldl apply_op None example_ops) = foldl apply_map ∅ example_ops.
Proof. apply trie_history. unfold example_ops. repeat (apply Forall_cons; split; [op_solve|]). apply Forall_nil_2. Defined.

(** C10: The tree implements the storage interface: on a root with map [m] whose
    keys have at most 191 bytes, every operation of [session] and [write_session]
    returns what the operation of [Storage] returns on [m] and leaves a root with
    the map that it leaves; the sizes reported by the updates are those of the
    value that was there.  The key of a lookup or a removal is any byte string;
    that of an insertion has at most 191 bytes, and then the keys of all nodes,
    before and after the updates, fit into the [uint8_t] that holds their size, so
    that none is cut. *)
Theorem trie_implements_storage (r : option (trie bytes)) key val : tree_ok r -> bytes_ok key ->
  let m := contents r in
  root_get r key = st_get m key /\
  root_greater_equal r key = st_greater_equal m key /\
  root_less_than r key = st_less_than m key /\
  root_max r key = st_max m key /\
  root_fits r = true /\
  ((length key <= max_key_bytes)%nat ->
    contents (upsert bytes_size r key val).1 = st_upsert m key val /\ (upsert bytes_size r key val).2 = size_of bytes_size (st_get m key) /\
    tree_ok (upsert bytes_size r key val).1 /\ root_fits (upsert bytes_size r key val).1 = true) /\
  (contents (remove bytes_size r key).1 = st_remove m key /\ (remove bytes_size r key).2 = size_of bytes_size (st_get m key) /\
    tree_ok (remove bytes_size r key).1 /\ root_fits (remove bytes_size r key).1 = true).
Proof.
  intros Hr Hk. cbv zeta. assert (Hget : root_get r key = st_get (contents r) key) by (symmetry; by apply contents_get).
  assert (Htot : forall a b, lle b a = true \/ lle a b = true) by (intros; apply lle_total).
  assert (Htr : forall a b c, lle b a = true -> lle c b = true -> lle c a = true) by eauto using lle_trans.
  split; [done|]. split; [|split; [|split; [|split; [by apply tree_ok_fits|split]]]].
  - eapply best_unique; [apply lle_antisym|by apply greater_equal_best|]. apply (pick_where_found _ lle); [apply lle_total|apply lle_trans].
  - eapply best_unique; [|by apply less_than_best|apply (pick_where_found _ (fun a b => lle b a)); done]. intros a b H1 H2. by apply lle_antisym.
  - eapply best_unique; [|by apply max_best|apply (pick_where_found _ (fun a b => lle b a)); done]. intros a b H1 H2. by apply lle_antisym.
  - intros Hl. destruct (apply_op_spec r (op_upsert key val) (conj Hk Hl) Hr) as [Ht E]. split; [exact E|]. split; [|split; [exact Ht|by apply tree_ok_fits]].
    rewrite <- Hget. destruct r as [t|]; [|done]. cbn. rewrite <- (add_size bytes_size t (to_key6 key) val). by destruct (add_child _ _ _ _).
  - destruct (apply_op_spec r (op_remove key) Hk Hr) as [Ht E]. split; [exact E|]. split; [|split; [exact Ht|by apply tree_ok_fits]]. rewrite <- Hget. destruct r as [t|]; [|done]. apply remove_size.
Qed.

Lemma trie_implements_storage_witness :
  root_less_than example_root [1; 2; 3] = Some ([1; 2], [20]) /\
  root_less_than example_root [1; 2; 3] = st_less_than (contents example_root) [1; 2; 3] /\
  contents (upsert bytes_size example_root [1; 2; 3] [7]).1 = st_upsert (contents example_root) [1; 2; 3] [7].
Proof.
  split; [vm_compute; reflexivity|]. destruct (trie_implements_storage example_root [1; 2; 3] [7]) as (_ & _ & H & _ & _ & Hu & _); [apply example_root_ok|bytes_solve|].
  split; [exact H|]. apply Hu. unfold max_key_bytes. cbn. lia.
Defined.

