(* ===== verification/TrieStore.v ===== *)
(** * triedent: the store of the nodes

    Source: libraries/triedent/include/triedent/database.hpp, node.hpp,
    object_db.hpp and cache_allocator.hpp.  The nodes of all trees live in one
    store and are shared between trees; every object has a count of the references
    to it.  An update copies the nodes on its path, except that it changes a node
    in place when the path to it is the only one ([unique]).

    The state is the table of objects with their counts, and the list of the ids
    that are free; where an object is in memory, and its movements between the
    caches, is not part of it.  The operations are those of [write_session] on
    object ids, in a state monad whose errors are the exception of the allocator
    and, for a reference to an object that does not exist and for a node whose key
    is longer than its [uint8_t] can say, undefined behaviour. *)

From S2P Require Import Prelude Key6 Trie.

(** ** Objects *)

(** [object_id]: 0 is the null id. *)
Abbreviation id := N.

(** The data of a value node: [node_type::bytes] or [node_type::roots]. *)
Inductive payload := Bytes (data : bytes) | Roots (ids : list id).

(** The key of a node of the store has at most [max_key_size] characters: [alloc]
    makes no other. *)
Inductive node :=
  | Value (key : list Z) (data : payload)
  | Inner (key : list Z) (value : id) (children : list (Z * id)).

Definition node_key (n : node) : list Z := match n with Value k _ => k | Inner k _ _ => k end.

Record object := { ref : Z; obj : node }.

(** [object_db_header]: the objects, the free list that runs through the table,
    and the high water mark. *)
Record store := { objects : gmap id object; first_free : list id; max_allocated : id }.

Definition empty_store : store := {| objects := ∅; first_free := []; max_allocated := 0 |}.

(** [data_size] of a value node: an id has 5 bytes. *)
Definition payload_size (d : payload) : Z :=
  match d with Bytes d => Z.of_nat (length d) | Roots ids => 5 * Z.of_nat (length ids) end.
Definition same_type (a b : payload) : bool :=
  match a, b with Bytes _, Bytes _ | Roots _, Roots _ => true | _, _ => false end.
(** [alloc_size] of [value_node::make] and of [inner_node::make]. *)
Definition alloc_size (n : node) : Z :=
  match n with
  | Value k d => 1 + Z.of_nat (length k) + payload_size d
  | Inner k _ cs => 16 + Z.of_nat (length k) + 5 * Z.of_nat (length cs)
  end.

(** ** The monad *)

Definition st (A : Type) : Type := store -> result (A * store).
#[export] Instance st_ret : MRet st := fun A a s => Ok (a, s).
#[export] Instance st_bind : MBind st := fun A B f c s => match c s with Ok (a, s) => f a s | Abort m => Abort m end.
Definition abort {A} (m : string) : st A := fun _ => Abort m.

Definition too_big : string := "obj too big".
Definition undefined : string := "undefined behaviour".

Definition get_by_id (i : id) : st object := fun s => match objects s !! i with Some o => Ok (o, s) | None => Abort undefined end.
Definition write_object (i : id) (o : object) : st unit := fun s => Ok (tt, {| objects := <[i := o]> (objects s); first_free := first_free s; max_allocated := max_allocated s |}).
(** A change of the node under [lock]. *)
Definition set_node (i : id) (n : node) : st unit := o ← get_by_id i; write_object i {| ref := ref o; obj := n |}.

(** ** Allocation and reference counts *)

(** [object_db::alloc] and [cache_allocator::alloc]: an id from the free list, or
    a new one; the count is 1.  The constructors of nodes keep the size of the key
    in 8 bits without a check: of a longer key, the node would have only a part. *)
Definition alloc (n : node) : st id := fun s =>
  if 0xffffff - 8 <? alloc_size n then Abort too_big
  else if (max_key_size <? length (node_key n))%nat then Abort undefined
  else
    let o := {| ref := 1; obj := n |} in
    match first_free s with
    | ff :: fs => Ok (ff, {| objects := <[ff := o]> (objects s); first_free := fs; max_allocated := max_allocated s |})
    | [] => let r := (max_allocated s + 1)%N in Ok (r, {| objects := <[r := o]> (objects s); first_free := []; max_allocated := r |})
    end.

Definition ref_count_mask : Z := 2 ^ 15 - 1.

(** [object_db::bump_count] *)
Definition bump_count (i : id) : st bool :=
  o ← get_by_id i;
  if ref o =? ref_count_mask - 1 then mret false
  else write_object i {| ref := ref o + 1; obj := obj o |} ;; mret true.

Fixpoint map_ids (f : id -> st id) (l : list id) : st (list id) :=
  match l with
  | [] => mret []
  | i :: l => i ← f i; l ← map_ids f l; mret (i :: l)
  end.
Fixpoint map_children (f : id -> st id) (l : list (Z * id)) : st (list (Z * id)) :=
  match l with
  | [] => mret []
  | (b, i) :: l => i ← f i; l ← map_children f l; mret ((b, i) :: l)
  end.

(** [value_node::clone] and [inner_node::clone] of nodes that are part of a tree:
    the references in the copy are counted. *)
Definition clone_value_with (bump : id -> st id) (k : list Z) (d : payload) : st id :=
  match d with
  | Roots ids => ids ← map_ids bump ids; alloc (Value k (Roots ids))
  | Bytes d => alloc (Value k (Bytes d))
  end.
Definition clone_inner_with (bump : id -> st id) (k : list Z) (value : id) (cs : list (Z * id)) : st id :=
  value ← bump value; cs ← map_children bump cs; alloc (Inner k value cs).

(** [bump_refcount_or_copy] and [copy_node].  A copy goes one level down, so the
    number of objects is enough fuel. *)
Fixpoint bump_or_copy (fuel : nat) (i : id) : st id :=
  match fuel with
  | O => abort undefined
  | S fuel =>
      if (i =? 0)%N then mret i
      else
        ok ← bump_count i;
        if (ok : bool) then mret i
        else
          o ← get_by_id i;
          match obj o with
          | Value k d => clone_value_with (bump_or_copy fuel) k d
          | Inner k v cs => clone_inner_with (bump_or_copy fuel) k v cs
          end
  end.
Definition bump_refcount_or_copy (i : id) : st id := fun s => bump_or_copy (S (size (objects s))) i s.
Abbreviation clone_value := (clone_value_with bump_refcount_or_copy).
Abbreviation clone_inner := (clone_inner_with bump_refcount_or_copy).

(** [object_db::release]: the count goes down, and at 0 the id is free. *)
Definition free_id (i : id) : st unit := fun s => Ok (tt, {| objects := delete i (objects s); first_free := i :: first_free s; max_allocated := max_allocated s |}).
Definition ring_release (i : id) : st bool :=
  o ← get_by_id i;
  if ref o - 1 =? 0 then free_id i ;; mret true
  else write_object i {| ref := ref o - 1; obj := obj o |} ;; mret false.

(** The references of a node, in the order in which they are released. *)
Definition references (n : node) : list id :=
  match n with
  | Inner _ v cs => v :: map snd cs
  | Value _ (Roots ids) => ids
  | Value _ (Bytes _) => []
  end.

Fixpoint release_all (f : id -> st unit) (l : list id) : st unit :=
  match l with
  | [] => mret tt
  | i :: l => f i ;; release_all f l
  end.
(** [release_node]: an object that is freed releases its references.  Every call
    below it finds one object less. *)
Fixpoint release_node (fuel : nat) (i : id) : st unit :=
  match fuel with
  | O => abort undefined
  | S fuel =>
      if (i =? 0)%N then mret tt
      else
        o ← get_by_id i;
        freed ← ring_release i;
        if (freed : bool) then release_all (release_node fuel) (references (obj o)) else mret tt
  end.
Definition release (i : id) : st unit := fun s => release_node (S (size (objects s))) i s.

(** ** Values *)

Abbreviation keq := (fun a b : list Z => bool_decide (a = b)).

(** [make_value] and [clone_value]: the data of an object that is part of a tree
    ([origin]) is copied, that of the caller is moved into the node. *)
Definition put_value (origin : bool) (k : list Z) (d : payload) : st id := if origin then clone_value k d else alloc (Value k d).

(** [build_children]: the copy is made before the new node. *)
Definition build_children (origin1 : bool) (make1 make2 : st id) : st (id * id) :=
  if origin1 then r1 ← make1; r2 ← make2; mret (r1, r2)
  else r2 ← make2; r1 ← make1; mret (r1, r2).

(** Children in the order of their characters. *)
Definition two_children (b1 : Z) (i1 : id) (b2 : Z) (i2 : id) : list (Z * id) := if b1 <? b2 then [(b1, i1); (b2, i2)] else [(b2, i2); (b1, i1)].

(** [combine_value_nodes], the keys in the order of their sizes. *)
Definition store_combine_ordered (k1 : list Z) (v1 : payload) (origin1 : bool) (k2 : list Z) (v2 : payload) (origin2 : bool) : st id :=
  let cpre := common_prefix k1 k2 in
  let b2 := at_ k2 (length cpre) in
  if keq cpre k1 then
    '(inner_id, branch_id) ← build_children origin1 (put_value origin1 [] v1) (put_value origin2 (drop (length cpre + 1) k2) v2);
    alloc (Inner cpre inner_id [(b2, branch_id)])
  else
    let b1 := at_ k1 (length cpre) in
    '(b1id, b2id) ← build_children origin1 (put_value origin1 (drop (length cpre + 1) k1) v1) (put_value origin2 (drop (length cpre + 1) k2) v2);
    alloc (Inner cpre 0%N (two_children b1 b1id b2 b2id)).
Definition store_combine (k1 : list Z) (v1 : payload) (k2 : list Z) (v2 : payload) : st id :=
  if (length k2 <? length k1)%nat then store_combine_ordered k2 v2 false k1 v1 true else store_combine_ordered k1 v1 true k2 v2 false.

(** [modify_value] of roots: slot by slot, each previous root is released. *)
Fixpoint modify_roots (i : id) (k : list Z) (done old new : list id) : st unit :=
  match old, new with
  | prev :: old, src :: new => set_node i (Value k (Roots (done ++ src :: old))) ;; release prev ;; modify_roots i k (done ++ [src]) old new
  | _, _ => mret tt
  end.
Definition modify_value (i : id) (k : list Z) (d val : payload) : st unit :=
  match d, val with
  | Roots old, Roots new => modify_roots i k [] old new
  | _, _ => set_node i (Value k val)
  end.

(** [set_value]: a value of the same type and size is changed in place. *)
Definition set_value (i : id) (d : payload) (unique : bool) (key : list Z) (val : payload) : st id :=
  if negb unique || negb (same_type d val) then alloc (Value key val)
  else if payload_size d =? payload_size val then modify_value i key d val ;; mret i
  else alloc (Value key val).

(** The data of the value node of an inner node. *)
Definition value_data (i : id) : st payload :=
  o ← get_by_id i;
  match obj o with Value _ d => mret d | Inner _ _ _ => abort undefined end.

(** The members of an inner node that is read again. *)
Definition get_inner (i : id) : st (list Z * id * list (Z * id)) :=
  o ← get_by_id i;
  match obj o with Inner k v cs => mret (k, v, cs) | Value _ _ => abort undefined end.

(** [set_inner_value] *)
Definition set_inner_value (i : id) (unique : bool) (val : payload) : st id :=
  '(k, value, cs) ← get_inner i;
  if unique then
    let replace : st id :=
      val_id ← alloc (Value [] val);
      '(k, _, cs) ← get_inner i;
      set_node i (Inner k val_id cs) ;; mret i in
    if (value =? 0)%N then replace
    else
      v ← get_by_id value;
      d ← value_data value;
      if same_type d val && (payload_size d =? payload_size val) && (ref v =? 1) then modify_value value [] d val ;; mret i
      else ring_release value ;; replace
  else
    new_val ← alloc (Value [] val);
    '(k, _, cs) ← get_inner i;
    result ← clone_inner k 0%N cs;
    '(k, _, cs) ← get_inner result;
    set_node result (Inner k new_val cs) ;; mret result.

(** ** Branches of inner nodes *)

Fixpoint child_at (b : Z) (cs : list (Z * id)) : option id :=
  match cs with
  | [] => None
  | (b', i) :: cs => if b' =? b then Some i else child_at b cs
  end.
Fixpoint put_child (b : Z) (i : id) (cs : list (Z * id)) : list (Z * id) :=
  match cs with
  | [] => [(b, i)]
  | (b', i') :: cs => if b' =? b then (b, i) :: cs else if b <? b' then (b, i) :: (b', i') :: cs else (b', i') :: put_child b i cs
  end.
(** [branches() | 1 << b]: the new branch is null. *)
Definition add_bit (b : Z) (cs : list (Z * id)) : list (Z * id) := match child_at b cs with Some _ => cs | None => put_child b 0%N cs end.
(** [branches() & ~(1 << b)] *)
Definition drop_bit (b : Z) (cs : list (Z * id)) : list (Z * id) := List.filter (fun '(b', _) => negb (b' =? b)) cs.
(** [branch(b) = i] *)
Definition set_child (n : id) (b : Z) (i : id) : st unit :=
  '(k, v, cs) ← get_inner n; set_node n (Inner k v (put_child b i cs)).

(** ** [add_child] *)

(** The recursion takes a character of the key away, so the length of the key is
    enough fuel. *)
Fixpoint store_add (fuel : nat) (root : id) (unique : bool) (key : list Z) (val : payload) : st (id * Z) :=
  match fuel with
  | O => abort undefined
  | S fuel =>
      if (root =? 0)%N then i ← alloc (Value key val); mret (i, -1)
      else
        o ← get_by_id root;
        let unique := unique && (ref o =? 1) in
        match obj o with
        | Value k d =>
            if negb (keq k key) then i ← store_combine k d key val; mret (i, -1)
            else i ← set_value root d unique key val; mret (i, payload_size d)
        | Inner in_key value cs =>
            if keq in_key key then
              old_size ← (if (value =? 0)%N then mret (-1) else d ← value_data value; mret (payload_size d));
              i ← set_inner_value root unique val; mret (i, old_size)
            else
              let cpre := common_prefix key in_key in
              if keq cpre in_key then
                let b := at_ key (length cpre) in
                let rest := drop (length cpre + 1) key in
                match unique, child_at b cs with
                | true, Some cur_b =>
                    '(new_b, old_size) ← store_add fuel cur_b unique rest val;
                    (if (new_b =? cur_b)%N then mret tt else set_child root b new_b ;; release cur_b) ;;
                    mret (root, old_size)
                | _, child =>
                    let cur_b := default 0%N child in
                    '(new_b, old_size) ← store_add fuel cur_b false rest val;
                    '(k, v, cs) ← get_inner root;
                    new_in ← clone_inner k v (add_bit b cs);
                    (if (new_b =? cur_b)%N then mret tt else set_child new_in b new_b ;; release cur_b) ;;
                    mret (new_in, old_size)
                end
              else
                let b2 := at_ in_key (length cpre) in
                sub ← clone_inner (drop (length cpre + 1) in_key) value cs;
                if keq cpre key then
                  b0val ← alloc (Value [] val);
                  nin ← alloc (Inner cpre b0val [(b2, sub)]); mret (nin, -1)
                else
                  let b1 := at_ key (length cpre) in
                  b1val ← alloc (Value (drop (length cpre + 1) key) val);
                  nin ← alloc (Inner cpre 0%N (two_children b1 b1val b2 sub)); mret (nin, -1)
        end
  end.

(** ** [remove_child] *)

(** A copy of the node [i] with a longer key. *)
Definition clone_longer (p : list Z) (i : id) : st id :=
  o ← get_by_id i;
  match obj o with
  | Value k d => clone_value (p ++ k) d
  | Inner k v cs => clone_inner (p ++ k) v cs
  end.

Fixpoint store_remove (fuel : nat) (root : id) (unique : bool) (key : list Z) : st (id * Z) :=
  match fuel with
  | O => abort undefined
  | S fuel =>
      if (root =? 0)%N then mret (root, -1)
      else
        o ← get_by_id root;
        let unique := unique && (ref o =? 1) in
        match obj o with
        | Value k d => if keq k key then mret (0%N, payload_size d) else mret (root, -1)
        | Inner in_key value cs =>
            if (length key <? length in_key)%nat then mret (root, -1)
            else if keq in_key key then
              if (value =? 0)%N then mret (root, -1)
              else
                d ← value_data value;
                match cs with
                | [(b, c)] => i ← clone_longer (in_key ++ [b]) c; mret (i, payload_size d)
                | _ =>
                    if unique then set_node root (Inner in_key 0%N cs) ;; release value ;; mret (root, payload_size d)
                    else i ← clone_inner key 0%N cs; mret (i, payload_size d)
                end
            else
              let cpre := common_prefix in_key key in
              if negb (keq cpre in_key) then mret (root, -1)
              else
                let b := at_ key (length in_key) in
                match child_at b cs with
                | None => mret (root, -1)
                | Some cur_b =>
                    '(new_b, removed_size) ← store_remove fuel cur_b unique (drop (length in_key + 1) key);
                    if (new_b =? cur_b)%N then mret (root, removed_size)
                    else
                      '(k, v, cs) ← get_inner root;
                      if negb (new_b =? 0)%N && unique then set_child root b new_b ;; release cur_b ;; mret (root, removed_size)
                      else if negb (new_b =? 0)%N then
                        new_root ← clone_inner k v cs;
                        '(_, _, new_cs) ← get_inner new_root;
                        release (default 0%N (child_at b new_cs)) ;;
                        set_child new_root b new_b ;; mret (new_root, removed_size)
                      else
                        match drop_bit b cs, (v =? 0)%N with
                        | [], _ => d ← value_data v; i ← clone_value k d; mret (i, removed_size)
                        | [(lb, last_branch)], true => i ← clone_longer (k ++ [lb]) last_branch; mret (i, removed_size)
                        | new_branches, _ => i ← clone_inner k v new_branches; mret (i, removed_size)
                        end
                end
        end
  end.

(** ** [unguarded_get] *)

(** The value of an inner node is a turn of the loop with an empty key, so that one
    turn more than the length of the key is enough. *)
Fixpoint store_get (fuel : nat) (root : id) (key : list Z) : st (option payload) :=
  match fuel with
  | O => abort undefined
  | S fuel =>
      if (root =? 0)%N then mret None
      else
        o ← get_by_id root;
        match obj o with
        | Value k d => mret (if keq k key then Some d else None)
        | Inner in_key value cs =>
            if (length key <? length in_key)%nat then mret None
            else if keq key in_key then store_get fuel value []
            else
              let cpre := common_prefix key in_key in
              if negb (keq cpre in_key) then mret None
              else match child_at (at_ key (length cpre)) cs with
                   | None => mret None
                   | Some c => store_get fuel c (drop (length cpre + 1) key)
                   end
        end
  end.

(** ** Roots *)

(** A [shared_ptr<root>] with a database: the id, whether there is an [ancestor],
    and the [use_count]. *)
Record handle := { h_id : id; h_ancestor : bool; h_use_count : Z }.

(** [session::get_id] *)
Definition get_id (r : option handle) : id := match r with Some h => h_id h | None => 0%N end.
(** [write_session::get_unique] *)
Definition get_unique (r : option handle) : bool := match r with Some h => negb (h_ancestor h) && (h_use_count h =? 1) | None => false end.
(** [write_session::update_root] *)
Definition update_root (r : option handle) (i : id) : st (option handle) :=
  if match r with Some h => (h_id h =? i)%N | None => false end then mret r
  else if get_unique r then
    release (get_id r) ;; mret (Some {| h_id := i; h_ancestor := false; h_use_count := 1 |})
  else mret (Some {| h_id := i; h_ancestor := false; h_use_count := 1 |}).

(** [write_session::upsert], of bytes and of roots. *)
Definition handle_upsert_with (r : option handle) (key : bytes) (val : payload) : st (option handle * Z) :=
  '(new_root, old_size) ← store_add (S (length (to_key6 key))) (get_id r) (get_unique r) (to_key6 key) val;
  r ← update_root r new_root; mret (r, old_size).
Definition handle_upsert (r : option handle) (key val : bytes) : st (option handle * Z) := handle_upsert_with r key (Bytes val).
Definition handle_upsert_roots (r : option handle) (key : bytes) (roots : list (option handle)) : st (option handle * Z) :=
  ids ← map_ids bump_refcount_or_copy (map get_id roots);
  handle_upsert_with r key (Roots ids).
(** [write_session::remove] *)
Definition handle_remove (r : option handle) (key : bytes) : st (option handle * Z) :=
  '(new_root, removed_size) ← store_remove (S (length (to_key6 key))) (get_id r) (get_unique r) (to_key6 key);
  r ← update_root r new_root; mret (r, removed_size).
(** [session::get] *)
Definition handle_get (r : option handle) (key : bytes) : st (option payload) := store_get (S (S (length (to_key6 key)))) (get_id r) (to_key6 key).
(** [session::release] of a root, and its destructor. *)
Definition handle_release (r : option handle) : st unit := if get_unique r && negb (get_id r =? 0)%N then release (get_id r) else mret tt.

(** [get_top_root] and [set_top_root]: the top root of the file is [top]. *)
Definition get_top_root (top : id) : st (option handle) :=
  if (top =? 0)%N then mret None
  else i ← bump_refcount_or_copy top; mret (Some {| h_id := i; h_ancestor := false; h_use_count := 1 |}).
Definition set_top_root (top : id) (r : option handle) : st id :=
  if (top =? get_id r)%N then mret top
  else i ← bump_refcount_or_copy (get_id r); release top ;; mret i.
