(* ===== verification/TrieOwn.v ===== *)
(** * triedent: ownership of references

    The invariant of the store of [TrieStore]: the count of an object is the
    number of references to it, from the nodes of the store and from those who own
    a reference (the handles of roots, and the operation that is running).  A node
    whose only reference is owned can be taken out of the store ([held]): its
    references are owned then, and it can be changed without any tree noticing.

    Every step of the operations moves references between the store and their
    owners; the lemmas here say how, and that the trees of the other owners stay
    as they are. *)

From S2P Require Import Prelude Ordered Key6 NodeBits Trie TrieLaws TrieOrder TrieStore.

(** ** Counting references *)

Definition cnt (x : id) (l : list id) : nat := count_occ N.eq_dec l x.

Lemma cnt_app x l m : cnt x (l ++ m) = (cnt x l + cnt x m)%nat.
Proof. apply count_occ_app. Qed.
Lemma cnt_cons x i l : cnt x (i :: l) = ((if N.eq_dec i x then 1 else 0) + cnt x l)%nat.
Proof. unfold cnt. cbn. by destruct (N.eq_dec i x). Qed.
Lemma cnt_nil x : cnt x [] = 0%nat.
Proof. done. Qed.
Lemma cnt_elem x l : x ∈ l <-> (0 < cnt x l)%nat.
Proof. rewrite list_elem_of_In. unfold cnt. rewrite (count_occ_In N.eq_dec). lia. Qed.
Lemma cnt_perm x l m : l ≡ₚ m -> cnt x l = cnt x m.
Proof. intros H. unfold cnt. by apply (Permutation_count_occ N.eq_dec). Qed.

Definition refs (h : gmap id node) (x : id) : nat := map_fold (fun _ n acc => cnt x (references n) + acc)%nat 0%nat h.

Lemma refs_empty x : refs ∅ x = 0%nat.
Proof. apply map_fold_empty. Qed.
Lemma refs_insert h i n x : h !! i = None -> refs (<[i := n]> h) x = (cnt x (references n) + refs h x)%nat.
Proof. intros H. unfold refs. rewrite map_fold_insert_L; [done| |done]. intros. lia. Qed.
Lemma refs_delete h i n x : h !! i = Some n -> refs h x = (cnt x (references n) + refs (delete i h) x)%nat.
Proof. intros H. rewrite <- (insert_delete_id h i n H) at 1. by rewrite refs_insert by apply lookup_delete_eq. Qed.
Lemma refs_elem h i n x : h !! i = Some n -> x ∈ references n -> (0 < refs h x)%nat.
Proof. intros H Hx%cnt_elem. rewrite (refs_delete h i n x H). lia. Qed.

(** ** The trees of the store *)

Definition proots (d : payload) : list id := match d with Roots ids => ids | Bytes _ => [] end.

(** The value of an inner node is a value node with an empty key. *)
Definition slot (h : gmap id node) (i : id) (v : option payload) : Prop :=
  match v with Some d => h !! i = Some (Value [] d) | None => i = 0%N end.
(** [den h i t]: the nodes below [i] unfold to [t]. *)
Fixpoint den (h : gmap id node) (i : id) (t : trie payload) : Prop :=
  match t with
  | value_node k d => h !! i = Some (Value k d)
  | inner_node k v ts =>
      exists vi cs, h !! i = Some (Inner k vi cs) /\ slot h vi v /\
        (fix go (ts : list (Z * trie payload)) (cs : list (Z * id)) : Prop :=
           match ts, cs with
           | [], [] => True
           | (b', t) :: ts, (b, c) :: cs => b = b' /\ den h c t /\ go ts cs
           | _, _ => False
           end) ts cs
  end.
Definition dens (h : gmap id node) (cs : list (Z * id)) (ts : list (Z * trie payload)) : Prop := Forall2 (fun c t => c.1 = t.1 /\ den h c.2 t.2) cs ts.

Lemma den_inner h i k v ts : den h i (inner_node k v ts) <-> exists vi cs, h !! i = Some (Inner k vi cs) /\ slot h vi v /\ dens h cs ts.
Proof.
  assert (Hgo : forall cs, (fix go (ts : list (Z * trie payload)) (cs : list (Z * id)) : Prop :=
           match ts, cs with
           | [], [] => True
           | (b', t) :: ts, (b, c) :: cs => b = b' /\ den h c t /\ go ts cs
           | _, _ => False
           end) ts cs <-> dens h cs ts).
  { clear. unfold dens. induction ts as [|[b t] ts IH]; intros [|[b' c] cs]; [split; [constructor|done]|split; [done|by inversion 1]|split; [done|by inversion 1]|]. split; intros H.
    - destruct H as (-> & Hd & Hr). constructor; [done|]. by apply IH.
    - inversion H as [|? ? ? ? [E Hd] Hr]; subst. cbn in E. split; [done|]. split; [done|]. by apply IH. }
  cbn. setoid_rewrite Hgo. done.
Qed.
Lemma den_value h i k d : den h i (value_node k d) <-> h !! i = Some (Value k d).
Proof. done. Qed.

(** A root: null, or the id of a tree. *)
Definition den_root (h : gmap id node) (i : id) (r : option (trie payload)) : Prop := match r with Some t => den h i t | None => i = 0%N end.

Lemma dens_impl h h' cs ts : (forall c t, (c, t) ∈ zip (map snd cs) (map snd ts) -> den h c t -> den h' c t) -> dens h cs ts -> dens h' cs ts.
Proof.
  unfold dens. intros Himp H. induction H as [|[b c] [b' t] cs ts [E Hd] H IH]; constructor.
  - split; [done|]. apply Himp; [left|done].
  - apply IH. intros c' t' Hin. apply Himp. by right.
Qed.

(** Trees survive in a larger store. *)
Lemma slot_mono h h' i v : h ⊆ h' -> slot h i v -> slot h' i v.
Proof. intros Hs. destruct v; cbn; [|done]. intros H. by apply (lookup_weaken h). Qed.
Lemma den_mono h h' i t : h ⊆ h' -> den h i t -> den h' i t.
Proof.
  intros Hs. revert i. induction t as [k d|k v ts IH] using trie_rect'; intros i.
  - cbn. intros H. by apply (lookup_weaken h).
  - rewrite !den_inner. intros (vi & cs & Hi & Hv & Hc). exists vi, cs. split; [by apply (lookup_weaken h)|]. split; [by apply (slot_mono h)|].
    rewrite Forall_forall in IH. eapply dens_impl; [|exact Hc]. intros c t Hin. apply elem_of_zip_r in Hin. apply list_elem_of_fmap in Hin as (p & -> & Hp). by apply (IH p).
Qed.

(** A tree does not use an object to which nobody refers. *)
Lemma slot_delete h x i v : i <> x -> slot h i v -> slot (delete x h) i v.
Proof. destruct v; cbn; [|done]. intros. by rewrite lookup_delete_ne. Qed.
Lemma den_delete h x i t : refs h x = 0%nat -> x <> 0%N -> i <> x -> den h i t -> den (delete x h) i t.
Proof.
  intros Hx Hx0. revert i. induction t as [k d|k v ts IH] using trie_rect'; intros i Hi.
  - cbn. intros. by rewrite lookup_delete_ne.
  - rewrite !den_inner. intros (vi & cs & Hn & Hv & Hc). exists vi, cs. split; [by rewrite lookup_delete_ne|].
    assert (Hout : forall y, y ∈ references (Inner k vi cs) -> y <> x) by (intros y Hy ->; pose proof (refs_elem _ _ _ _ Hn Hy); lia).
    split; [apply slot_delete; [apply Hout; left|done]|]. rewrite Forall_forall in IH. eapply dens_impl; [|exact Hc]. intros c t Hin.
    pose proof (elem_of_zip_l _ _ _ _ Hin) as Hc'. apply elem_of_zip_r in Hin. apply list_elem_of_fmap in Hin as (p & -> & Hp). apply (IH p Hp). apply Hout. by right.
Qed.

(** ** The invariant *)

(** The nodes of the store without those that are held. *)
Definition view (s : store) (H : gset id) : gmap id node := obj <$> filter (fun p => p.1 ∉ H) (objects s).
Definition rc (s : store) (x : id) : Z := match objects s !! x with Some o => ref o | None => 0 end.

(** A node has at most 65 references, and its key size fits into 8 bits. *)
Definition small (n : node) : Prop := (length (references n) <= 65)%nat /\ (length (node_key n) <= max_key_size)%nat.
Lemma small_value k d : (length (references (Value k d)) <= 65)%nat -> (length k <= max_key_size)%nat -> small (Value k d).
Proof. done. Qed.
Lemma small_inner k v cs : (length cs <= 64)%nat -> (length k <= max_key_size)%nat -> small (Inner k v cs).
Proof. intros H1 H2. split; [cbn; rewrite length_map; lia|done]. Qed.

Record owns (s : store) (H : gset id) (O : list id) : Prop := {
  (** the counts are exact *)
  own_count x : x <> 0%N -> rc s x = Z.of_nat (refs (view s H) x + cnt x O + (if decide (x ∈ H) then 1 else 0));
  own_pos x o : objects s !! x = Some o -> 0 < ref o;
  own_null : objects s !! 0%N = None;
  (** nobody else refers to a node that is held *)
  own_held x : x ∈ H -> exists o, objects s !! x = Some o /\ ref o = 1;
  (** the free list has the ids that are not used *)
  own_free : NoDup (first_free s) /\ Forall (fun f => f <> 0%N /\ objects s !! f = None) (first_free s);
  own_max : forall x, is_Some (objects s !! x) \/ x ∈ first_free s -> (x <= max_allocated s)%N;
  own_small x o : objects s !! x = Some o -> small (obj o)
}.

Lemma view_lookup s H x n : view s H !! x = Some n <-> exists o, objects s !! x = Some o /\ obj o = n /\ x ∉ H.
Proof.
  unfold view. rewrite lookup_fmap, fmap_Some. setoid_rewrite map_lookup_filter_Some. cbn. split.
  - intros (o & [Ho Hx] & ->). by exists o.
  - intros (o & Ho & <- & Hx). by exists o.
Qed.
Lemma view_none s H x : objects s !! x = None -> view s H !! x = None.
Proof. intros E. destruct (view s H !! x) eqn:Ev; [|done]. apply view_lookup in Ev as (o & Ho & _). congruence. Qed.

Lemma owns_perm s H O O' : (forall x, x <> 0%N -> cnt x O = cnt x O') -> owns s H O -> owns s H O'.
Proof. intros HO [? ? ? ? ? ? ?]. constructor; try done. intros x Hx. rewrite <- HO by done. auto. Qed.
Lemma owns_null s H O : owns s H O <-> owns s H (0%N :: O).
Proof. split; apply owns_perm; intros x Hx; rewrite cnt_cons; destruct (N.eq_dec 0 x); congruence || lia. Qed.

(** An owned reference is to an object that is in the store and not held. *)
Lemma owns_live s H O x : owns s H O -> x <> 0%N -> (0 < refs (view s H) x + cnt x O)%nat -> exists o, objects s !! x = Some o /\ x ∉ H.
Proof.
  intros HO Hx Hc. pose proof (own_count _ _ _ HO x Hx) as E. unfold rc in E. destruct (objects s !! x) as [o|] eqn:Eo; [|lia].
  exists o. split; [done|]. intros Hh. destruct (own_held _ _ _ HO x Hh) as (o' & Eo' & Er). rewrite decide_True in E by done. assert (o = o') by congruence. subst. lia.
Qed.
Lemma owns_view s H O x : owns s H O -> x <> 0%N -> (0 < refs (view s H) x + cnt x O)%nat -> exists o, objects s !! x = Some o /\ view s H !! x = Some (obj o).
Proof. intros HO Hx Hc. destruct (owns_live s H O x HO Hx Hc) as (o & Ho & Hh). exists o. split; [done|]. apply view_lookup. by exists o. Qed.
Lemma view_object s H O x n : owns s H O -> view s H !! x = Some n -> exists o, objects s !! x = Some o /\ obj o = n /\ x <> 0%N /\ x ∉ H.
Proof.
  intros HO Hx. apply view_lookup in Hx as (o & Ho & En & Hh). exists o. split; [done|]. split; [done|]. split; [|done]. intros ->. rewrite (own_null _ _ _ HO) in Ho. done.
Qed.
Lemma den_nonnull s H O i t : owns s H O -> den (view s H) i t -> i <> 0%N /\ is_Some (objects s !! i) /\ i ∉ H.
Proof.
  intros HO Hd. assert (exists n, view s H !! i = Some n) as [n Hn].
  { destruct t as [k d|k v ts]; [by eexists|]. apply den_inner in Hd as (vi & cs & Hi & _). by eexists. }
  destruct (view_object s H O i n HO Hn) as (o & Ho & _ & H0 & Hh). eauto.
Qed.

(** ** Steps *)

(** A step returns, or the allocator throws. *)
Definition wp {A} (c : st A) (s : store) (Q : A -> store -> Prop) : Prop :=
  match c s with Ok (a, s') => Q a s' | Abort m => m = too_big end.

Lemma wp_ret {A} (a : A) s (Q : A -> store -> Prop) : Q a s -> wp (mret a) s Q.
Proof. done. Qed.
Lemma wp_bind {A B} (c : st A) (f : A -> st B) s Q : wp c s (fun a s' => wp (f a) s' Q) -> wp (c ≫= f) s Q.
Proof. unfold wp, mbind, st_bind. by destruct (c s) as [[a s']|m]. Qed.
Lemma wp_mono {A} (c : st A) s (P Q : A -> store -> Prop) : (forall a s', P a s' -> Q a s') -> wp c s P -> wp c s Q.
Proof. unfold wp. destruct (c s) as [[a s']|m]; auto. Qed.
Lemma wp_get i o s (Q : object -> store -> Prop) : objects s !! i = Some o -> Q o s -> wp (get_by_id i) s Q.
Proof. intros Ho HQ. unfold wp, get_by_id. by rewrite Ho. Qed.

Lemma wp_write i o s (Q : unit -> store -> Prop) : Q tt {| objects := <[i := o]> (objects s); first_free := first_free s; max_allocated := max_allocated s |} -> wp (write_object i o) s Q.
Proof. done. Qed.
Lemma wp_free i s (Q : unit -> store -> Prop) : Q tt {| objects := delete i (objects s); first_free := i :: first_free s; max_allocated := max_allocated s |} -> wp (free_id i) s Q.
Proof. done. Qed.

(** Nodes that are held stay. *)
Definition keeps (s s' : store) (H : gset id) : Prop := forall h, h ∈ H -> objects s' !! h = objects s !! h.
Lemma keeps_refl s H : keeps s s H.
Proof. done. Qed.
Lemma keeps_trans s1 s2 s3 H : keeps s1 s2 H -> keeps s2 s3 H -> keeps s1 s3 H.
Proof. intros H1 H2 h Hh. by rewrite H2, H1. Qed.

(** Room for [n] more references to every object. *)
Definition room (n : nat) (s : store) : Prop := Z.of_nat n + 2 < ref_count_mask /\ forall x o, objects s !! x = Some o -> ref o + Z.of_nat n < ref_count_mask - 1.
Lemma room_le n m s : (n <= m)%nat -> room m s -> room n s.
Proof. intros Hle [H1 H2]. split; [lia|]. intros x o Ho. specialize (H2 x o Ho). lia. Qed.

Definition has_room (n : nat) (s : store) : bool :=
  (Z.of_nat n + 2 <? ref_count_mask) && bool_decide (map_Forall (fun _ o => ref o + Z.of_nat n < ref_count_mask - 1) (objects s)).
Lemma has_room_spec n s : has_room n s = true -> room n s.
Proof. intros [H1 H2%bool_decide_eq_true]%andb_prop. zbool. split; [done|]. intros x o Ho. by apply (H2 x o). Qed.

(** The node of an object is changed, the counts stay. *)
Lemma view_insert s H x o ff mx : view {| objects := <[x := o]> (objects s); first_free := ff; max_allocated := mx |} H =
  if decide (x ∈ H) then view s H else <[x := obj o]> (view s H).
Proof.
  unfold view. cbn. case_decide as Hx.
  - apply map_eq. intros y. rewrite !lookup_fmap, !map_lookup_filter. cbn. destruct (decide (x = y)) as [->|Hne]; [|by rewrite lookup_insert_ne].
    rewrite lookup_insert_eq. destruct (objects s !! y); cbn; [|by rewrite option_guard_False by auto]. by rewrite !option_guard_False by auto.
  - rewrite map_filter_insert_True by done. apply fmap_insert.
Qed.

(** A new object. *)
Lemma owns_alloc s H O n i ff mx :
  owns s H (references n ++ O) -> small n -> objects s !! i = None -> i <> 0%N ->
  NoDup ff -> (forall f, f ∈ ff -> f ∈ first_free s /\ f <> i) -> (forall x, is_Some (objects s !! x) \/ x ∈ first_free s \/ x = i -> (x <= mx)%N) ->
  owns {| objects := <[i := {| ref := 1; obj := n |}]> (objects s); first_free := ff; max_allocated := mx |} H (i :: O).
Proof.
  intros HO Hsmall Hi Hi0 Hnd Hff Hmx. assert (HiH : i ∉ H) by (intros Hh; destruct (own_held _ _ _ HO i Hh) as (o & Ho & _); congruence).
  assert (Hlook : forall x, x <> i -> <[i := {| ref := 1; obj := n |}]> (objects s) !! x = objects s !! x) by (intros; by apply lookup_insert_ne).
  constructor; cbn [objects first_free max_allocated].
  - intros x Hx. rewrite view_insert, decide_False, refs_insert by (done || by apply view_none). pose proof (own_count _ _ _ HO x Hx) as E. rewrite cnt_app in E. rewrite cnt_cons. unfold rc in *. cbn.
    destruct (decide (x = i)) as [->|Hne].
    + rewrite lookup_insert_eq, Hi in *. cbn in *. destruct (N.eq_dec i i); [|done]. lia.
    + rewrite Hlook by done. destruct (N.eq_dec i x); [congruence|]. lia.
  - intros x o. destruct (decide (x = i)) as [->|Hne]; [rewrite lookup_insert_eq; by intros [= <-]|rewrite Hlook by done; apply (own_pos _ _ _ HO)].
  - rewrite Hlook by done. apply (own_null _ _ _ HO).
  - intros x Hx. rewrite Hlook by (by intros ->). by apply (own_held _ _ _ HO).
  - split; [done|]. destruct (own_free _ _ _ HO) as [_ Hf]. rewrite Forall_forall in Hf |- *. intros f [Hin Hne]%Hff. rewrite Hlook by done. by apply Hf.
  - intros x [[o Ho]|Hx]; [|apply Hmx; right; left; by apply Hff]. destruct (decide (x = i)) as [->|Hne]; [auto|]. rewrite Hlook in Ho by done. apply Hmx. eauto.
  - intros x o. destruct (decide (x = i)) as [->|Hne]; [rewrite lookup_insert_eq; by intros [= <-]|rewrite Hlook by done; apply (own_small _ _ _ HO)].
Qed.

Lemma wp_alloc s H O n m Q : owns s H (references n ++ O) -> small n -> room m s ->
  (forall i s', owns s' H (i :: O) -> view s' H = <[i := n]> (view s H) -> objects s !! i = None -> i <> 0%N -> keeps s s' H -> room m s' -> Q i s') -> wp (alloc n) s Q.
Proof.
  intros HO Hsmall [Hm1 Hm2] HQ. unfold wp, alloc. destruct (_ <? _); [done|]. rewrite (proj2 (Nat.ltb_ge _ _) (proj2 Hsmall)). pose proof (own_free _ _ _ HO) as [Hnd Hf]. pose proof (own_max _ _ _ HO) as Hmx.
  assert (Hroom : forall i ff mx, room m {| objects := <[i := {| ref := 1; obj := n |}]> (objects s); first_free := ff; max_allocated := mx |}).
  { intros i ff mx. split; [done|]. intros x o. cbn. destruct (decide (x = i)) as [->|Hne]; [rewrite lookup_insert_eq; intros [= <-]; cbn; lia|rewrite lookup_insert_ne by done; apply Hm2]. }
  assert (Hview : forall i ff mx, objects s !! i = None -> view {| objects := <[i := {| ref := 1; obj := n |}]> (objects s); first_free := ff; max_allocated := mx |} H = <[i := n]> (view s H)).
  { intros i ff mx Hi. rewrite view_insert, decide_False; [done|]. intros Hh. destruct (own_held _ _ _ HO i Hh) as (o & Ho & _). congruence. }
  assert (Hkeep : forall i ff mx, objects s !! i = None -> keeps s {| objects := <[i := {| ref := 1; obj := n |}]> (objects s); first_free := ff; max_allocated := mx |} H).
  { intros i ff mx Hi h Hh. destruct (own_held _ _ _ HO h Hh) as (o & Ho & _). cbn. rewrite lookup_insert_ne by congruence. done. }
  destruct (first_free s) as [|f ff] eqn:Eff.
  - assert (Hnone : objects s !! (max_allocated s + 1)%N = None).
    { destruct (objects s !! (max_allocated s + 1)%N) eqn:E; [|done]. assert (max_allocated s + 1 <= max_allocated s)%N by (apply Hmx; left; by eexists). lia. }
    apply HQ; [|by apply Hview|done|lia|by apply Hkeep|apply Hroom]. apply owns_alloc; [done|done|done|lia|constructor|by intros f ?%elem_of_nil|].
    intros x [Hx|[Hx| ->]]; [|rewrite Eff in Hx; by apply elem_of_nil in Hx|lia]. assert (x <= max_allocated s)%N by (apply Hmx; by left). lia.
  - apply Forall_cons in Hf as [[Hf0 Hfn] Hf]. apply NoDup_cons in Hnd as [Hnf Hnd].
    apply HQ; [|by apply Hview|done|done|by apply Hkeep|apply Hroom]. apply owns_alloc; [done|done|done|done|done|intros g Hg; rewrite Eff; split; [by right|by intros ->]|].
    intros x [Hx|[Hx| ->]]; apply Hmx; [by left|right; by rewrite Eff in Hx|right; left].
Qed.

(** The count of an object goes up or down; its node stays. *)
Lemma view_same_node s H x o r : objects s !! x = Some o -> view {| objects := <[x := {| ref := r; obj := obj o |}]> (objects s); first_free := first_free s; max_allocated := max_allocated s |} H = view s H.
Proof.
  intros Ho. rewrite view_insert. case_decide as Hx; [done|]. apply insert_id. cbn. apply view_lookup. by exists o.
Qed.
Lemma owns_recount s H O O' x o r : owns s H O -> objects s !! x = Some o -> x ∉ H -> 0 < r ->
  (forall y, y <> 0%N -> Z.of_nat (cnt y O') = Z.of_nat (cnt y O) + (if decide (y = x) then r - ref o else 0)) ->
  owns {| objects := <[x := {| ref := r; obj := obj o |}]> (objects s); first_free := first_free s; max_allocated := max_allocated s |} H O'.
Proof.
  intros HO Ho HxH Hr Hc. assert (Hlook : forall y, y <> x -> <[x := {| ref := r; obj := obj o |}]> (objects s) !! y = objects s !! y) by (intros; by apply lookup_insert_ne).
  constructor; cbn [objects first_free max_allocated].
  - intros y Hy. rewrite (view_same_node s H x o r Ho). pose proof (own_count _ _ _ HO y Hy) as E. specialize (Hc y Hy). unfold rc in *. cbn [objects].
    destruct (decide (y = x)) as [->|Hne]; [rewrite lookup_insert_eq; rewrite Ho in E; cbn|rewrite Hlook by done]; lia.
  - intros y o'. destruct (decide (y = x)) as [->|Hne]; [rewrite lookup_insert_eq; by intros [= <-]|rewrite Hlook by done; apply (own_pos _ _ _ HO)].
  - rewrite Hlook; [apply (own_null _ _ _ HO)|]. intros <-. by rewrite (own_null _ _ _ HO) in Ho.
  - intros y Hy. rewrite Hlook by (by intros ->). by apply (own_held _ _ _ HO).
  - destruct (own_free _ _ _ HO) as [Hnd Hf]. split; [done|]. rewrite Forall_forall in Hf |- *. intros f Hin. destruct (Hf f Hin) as [? Hn]. rewrite Hlook by congruence. done.
  - intros y [[o' Ho']|Hy]; apply (own_max _ _ _ HO); [left|by right]. destruct (decide (y = x)) as [->|Hne]; [by eexists|rewrite Hlook in Ho' by done; by eexists].
  - intros y o'. destruct (decide (y = x)) as [->|Hne]; [rewrite lookup_insert_eq; intros [= <-]; by apply (own_small _ _ _ HO x o)|rewrite Hlook by done; apply (own_small _ _ _ HO)].
Qed.

(** Another reference to an object of a tree. *)
Lemma wp_bump s H O i m Q : owns s H O -> (i = 0%N \/ exists n, view s H !! i = Some n) -> room (S m) s ->
  (forall s', owns s' H (i :: O) -> view s' H = view s H -> (forall x, objects s' !! x = None <-> objects s !! x = None) -> keeps s s' H -> room m s' -> Q i s') -> wp (bump_refcount_or_copy i) s Q.
Proof.
  intros HO Hi [Hm1 Hm2] HQ. unfold wp, bump_refcount_or_copy. cbn [bump_or_copy]. destruct (i =? 0)%N eqn:E0; [apply N.eqb_eq in E0 as ->|apply N.eqb_neq in E0].
  { apply HQ; [by apply owns_null in HO|done|done|done|]. split; [lia|]. intros x o Ho. specialize (Hm2 x o Ho). lia. }
  destruct Hi as [?|[n Hn]]; [done|]. destruct (view_object s H O i n HO Hn) as (o & Ho & En & _ & HiH). pose proof (Hm2 i o Ho) as Hlt. pose proof (own_pos _ _ _ HO i o Ho) as Hpos.
  unfold mbind, st_bind, bump_count, mbind, st_bind, get_by_id. rewrite Ho. rewrite (proj2 (Z.eqb_neq _ _)) by lia. cbn. apply HQ.
  - apply (owns_recount s H O); [done..|lia|]. intros y Hy. rewrite cnt_cons. destruct (N.eq_dec i y), (decide (y = i)); subst; try done; lia.
  - by apply view_same_node.
  - intros x. cbn. destruct (decide (x = i)) as [->|Hne]; [by rewrite lookup_insert_eq, Ho|by rewrite lookup_insert_ne].
  - intros h Hh. cbn. by rewrite lookup_insert_ne by (by intros ->).
  - split; [lia|]. intros x o'. cbn. destruct (decide (x = i)) as [->|Hne]; [rewrite lookup_insert_eq; intros [= <-]; cbn; lia|rewrite lookup_insert_ne by done]. intros Ho'. specialize (Hm2 x o' Ho'). lia.
Qed.

(** The last reference goes: the references of the object are owned now. *)
Lemma owns_free s H O x o : owns s H (x :: O) -> x <> 0%N -> objects s !! x = Some o -> ref o = 1 ->
  let s' := {| objects := delete x (objects s); first_free := x :: first_free s; max_allocated := max_allocated s |} in
  owns s' H (references (obj o) ++ O) /\ view s' H = delete x (view s H) /\ (refs (view s H) x = 0%nat) /\ (x ∉ O) /\ (x ∉ H).
Proof.
  intros HO Hx0 Ho Hr. cbv zeta. pose proof (own_count _ _ _ HO x Hx0) as E. unfold rc in E. rewrite Ho, Hr, cnt_cons in E. destruct (N.eq_dec x x); [|done].
  assert (HxH : x ∉ H) by (intros Hh; rewrite decide_True in E by done; lia). rewrite decide_False in E by done.
  assert (Hrefs : refs (view s H) x = 0%nat) by lia. assert (HxO : x ∉ O) by (intros Hin%cnt_elem; lia).
  assert (Hv : view s H !! x = Some (obj o)) by (apply view_lookup; by exists o).
  assert (Hview : forall ff mx, view {| objects := delete x (objects s); first_free := ff; max_allocated := mx |} H = delete x (view s H)).
  { intros ff mx. unfold view. cbn. by rewrite map_filter_delete, fmap_delete. }
  split; [|split; [apply Hview|done]]. assert (Hlook : forall y, y <> x -> delete x (objects s) !! y = objects s !! y) by (intros; by apply lookup_delete_ne).
  constructor; cbn [objects first_free max_allocated].
  - intros y Hy. rewrite Hview, cnt_app. pose proof (own_count _ _ _ HO y Hy) as Ey. rewrite (refs_delete _ x (obj o) y Hv), cnt_cons in Ey. unfold rc in *. cbn [objects].
    destruct (decide (y = x)) as [->|Hne].
    + rewrite lookup_delete_eq. pose proof (refs_delete _ x (obj o) x Hv). rewrite decide_False by done. assert (cnt x O = 0%nat) by (destruct (cnt x O) eqn:Ec; [done|]; exfalso; apply HxO, cnt_elem; lia). lia.
    + rewrite Hlook by done. destruct (N.eq_dec x y); [congruence|]. lia.
  - intros y o' Hy. apply lookup_delete_Some in Hy as [_ Hy]. by apply (own_pos _ _ _ HO y).
  - apply lookup_delete_None. right. apply (own_null _ _ _ HO).
  - intros y Hy. rewrite Hlook by (by intros ->). by apply (own_held _ _ _ HO).
  - destruct (own_free _ _ _ HO) as [Hnd Hf]. rewrite Forall_forall in Hf. split.
    + constructor; [|done]. intros Hin. destruct (Hf x Hin). congruence.
    + constructor; [split; [done|apply lookup_delete_eq]|]. apply Forall_forall. intros f Hin. destruct (Hf f Hin). split; [done|]. apply lookup_delete_None. by right.
  - intros y [[o' Hy]|Hy]; [apply lookup_delete_Some in Hy as [_ Hy]; apply (own_max _ _ _ HO); left; by eexists|]. apply (own_max _ _ _ HO).
    apply elem_of_cons in Hy as [->|Hy]; [left; by eexists|by right].
  - intros y o' Hy. apply lookup_delete_Some in Hy as [_ Hy]. by apply (own_small _ _ _ HO y).
Qed.

(** The trees of owners, after a step. *)
Definition same_trees (s s' : store) (H : gset id) (O : list id) : Prop := forall y t, y ∈ O -> den (view s H) y t -> den (view s' H) y t.
Lemma same_trees_trans s1 s2 s3 H O : same_trees s1 s2 H O -> same_trees s2 s3 H O -> same_trees s1 s3 H O.
Proof. intros H1 H2 y t Hy Hd. auto. Qed.
Lemma same_trees_sub s s' H O O' : O' ⊆ O -> same_trees s s' H O -> same_trees s s' H O'.
Proof. intros Hs H1 y t Hy. apply H1. by apply Hs. Qed.
Lemma same_trees_mono s s' H O : view s H ⊆ view s' H -> same_trees s s' H O.
Proof. intros Hs y t _. by apply den_mono. Qed.

(** What a release leaves. *)
Record released (s s' : store) (H : gset id) (O : list id) : Prop := {
  rel_owns : owns s' H O;
  rel_trees : same_trees s s' H O;
  rel_keeps : keeps s s' H;
  rel_room m : room m s -> room m s';
  rel_size : (size (objects s') <= size (objects s))%nat
}.
Lemma released_trans s1 s2 s3 H O O' : released s1 s2 H O' -> O ⊆ O' -> released s2 s3 H O -> released s1 s3 H O.
Proof.
  intros [H1 H2 H3 H4 H5] Hsub [G1 G2 G3 G4 G5]. constructor; [done| | |auto|lia].
  - eapply same_trees_trans; [by eapply same_trees_sub|done].
  - by eapply keeps_trans.
Qed.

Lemma release_node_ok fuel : forall s H O x, (size (objects s) < fuel)%nat -> owns s H (x :: O) -> wp (release_node fuel x) s (fun _ s' => released s s' H O).
Proof.
  induction fuel as [|fuel IH]; intros s H O x Hf HO; [lia|]. cbn [release_node]. destruct (x =? 0)%N eqn:E0; [apply N.eqb_eq in E0 as ->|apply N.eqb_neq in E0].
  { apply wp_ret. constructor; [by apply owns_null|by apply same_trees_mono|done|done|done]. }
  destruct (owns_live s H _ x HO E0) as (o & Ho & HxH); [rewrite cnt_cons; destruct (N.eq_dec x x); [lia|done]|].
  assert (Hall : forall l s O, (size (objects s) < fuel)%nat -> owns s H (l ++ O) -> wp (release_all (release_node fuel) l) s (fun _ s' => released s s' H O)).
  { clear -IH. intros l. induction l as [|y l IHl]; intros s O Hf HO; cbn [release_all].
    - apply wp_ret. constructor; [done|by apply same_trees_mono|done|done|done].
    - apply wp_bind. eapply wp_mono; [|by apply (IH s H (l ++ O) y)]. intros [] s1 R1. eapply wp_mono; [|apply (IHl s1 O); [pose proof (rel_size _ _ _ _ R1); lia|by apply (rel_owns _ _ _ _ R1)]].
      intros [] s2 R2. eapply released_trans; [exact R1| |exact R2]. intros z Hz. apply elem_of_app. by right. }
  apply wp_bind. eapply wp_get; [exact Ho|]. unfold ring_release. apply wp_bind, wp_bind. eapply wp_get; [exact Ho|]. pose proof (own_pos _ _ _ HO x o Ho) as Hpos.
  destruct (ref o - 1 =? 0) eqn:Er; zbool.
  - destruct (owns_free s H O x o HO E0 Ho ltac:(lia)) as (HO' & Hview & Hrefs & HxO & _). apply wp_bind, wp_free, wp_ret.
    set (s' := {| objects := delete x (objects s); first_free := x :: first_free s; max_allocated := max_allocated s |}) in *.
    assert (Hsize : (S (size (objects s')) = size (objects s))%nat) by (cbn; rewrite map_size_delete, Ho; assert (size (objects s) <> 0%nat) by (apply (map_size_ne_0_lookup_2 _ x); by eexists); lia).
    eapply wp_mono; [|apply (Hall (references (obj o)) s' O); [lia|done]]. intros [] s2 H2.
    constructor; [by destruct H2| | |intros m Hm; destruct H2 as [_ _ _ H2 _]; apply H2; destruct Hm as [Hm1 Hm2]; split; [done|]; intros y o' Hy; cbn in Hy; apply lookup_delete_Some in Hy as [_ Hy]; by apply (Hm2 y)|destruct H2; lia].
    + intros y t Hy Hd. destruct H2 as [_ H2 _ _ _]. apply H2; [done|]. rewrite Hview. apply den_delete; [done|done|by intros ->|done].
    + intros h Hh. destruct H2 as [_ _ H2 _ _]. rewrite H2 by done. cbn. by rewrite lookup_delete_ne by (by intros ->).
  - apply wp_bind, wp_write, wp_ret, wp_ret.
    constructor; [|apply same_trees_mono; by rewrite (view_same_node s H x o (ref o - 1) Ho)| | |].
    + apply (owns_recount s H (x :: O)); [done..|lia|]. intros y Hy. rewrite cnt_cons. destruct (N.eq_dec x y), (decide (y = x)); subst; try done; lia.
    + intros h Hh. cbn. by rewrite lookup_insert_ne by (by intros ->).
    + intros m [Hm1 Hm2]. split; [done|]. intros y o'. cbn. destruct (decide (y = x)) as [->|Hne]; [rewrite lookup_insert_eq; intros [= <-]; specialize (Hm2 x o Ho); cbn; lia|rewrite lookup_insert_ne by done; apply Hm2].
    + cbn. by rewrite map_size_insert, Ho.
Qed.

Lemma wp_release s H O x (Q : unit -> store -> Prop) : owns s H (x :: O) -> (forall s', released s s' H O -> Q tt s') -> wp (release x) s Q.
Proof.
  intros HO HQ. unfold wp, release. pose proof (release_node_ok (S (size (objects s))) s H O x ltac:(lia) HO) as Hr. unfold wp in Hr.
  destruct (release_node _ x s) as [[[] s']|m]; auto.
Qed.

(** A reference that is not the last one goes: no tree changes. *)
Lemma wp_release_shared s H O x (Q : unit -> store -> Prop) : owns s H (x :: O) -> (x = 0%N \/ (0 < refs (view s H) x + cnt x O)%nat) ->
  (forall s', owns s' H O -> view s' H = view s H -> (forall y, (objects s' !! y = None) <-> (objects s !! y = None)) -> keeps s s' H -> (forall m, room m s -> room m s') -> Q tt s') -> wp (release x) s Q.
Proof.
  intros HO Hx HQ. unfold wp, release. cbn [release_node]. destruct (x =? 0)%N eqn:E0; [apply N.eqb_eq in E0 as ->|apply N.eqb_neq in E0].
  { by apply HQ; [apply owns_null|..]. }
  destruct Hx as [?|Hx]; [done|]. destruct (owns_live s H _ x HO E0) as (o & Ho & HxH); [rewrite cnt_cons; destruct (N.eq_dec x x); [lia|done]|].
  pose proof (own_count _ _ _ HO x E0) as E. unfold rc in E. rewrite Ho, cnt_cons in E. destruct (N.eq_dec x x); [|done].
  unfold mbind, st_bind, get_by_id. rewrite Ho. unfold ring_release, mbind, st_bind, get_by_id. rewrite Ho. rewrite (proj2 (Z.eqb_neq _ _)) by lia. cbn. apply HQ.
  - apply (owns_recount s H (x :: O)); [done..|lia|]. intros y Hy. rewrite cnt_cons. destruct (N.eq_dec x y), (decide (y = x)); subst; try done; lia.
  - by apply view_same_node.
  - intros y. cbn. destruct (decide (y = x)) as [->|Hne]; [by rewrite lookup_insert_eq, Ho|by rewrite lookup_insert_ne].
  - intros h Hh. cbn. by rewrite lookup_insert_ne by (by intros ->).
  - intros m [Hm1 Hm2]. split; [done|]. intros y o'. cbn. destruct (decide (y = x)) as [->|Hne]; [rewrite lookup_insert_eq; intros [= <-]; specialize (Hm2 x o Ho); cbn; lia|rewrite lookup_insert_ne by done; apply Hm2].
Qed.

(** ** Nodes that are held *)

Lemma held_in (x y : id) (H : gset id) : y ∈ {[x]} ∪ H <-> y = x \/ y ∈ H.
Proof. by rewrite elem_of_union, elem_of_singleton. Qed.
Lemma held_ne (x y : id) (H : gset id) : x <> y -> y ∈ {[x]} ∪ H <-> y ∈ H.
Proof. intros Hne. rewrite held_in. split; [intros [->|?]; done|auto]. Qed.

(** The only reference to [x] is owned: [x] can be held. *)
Lemma owns_open s H O x o : owns s H (x :: O) -> x <> 0%N -> objects s !! x = Some o -> ref o = 1 ->
  owns s ({[x]} ∪ H) (references (obj o) ++ O) /\ view s ({[x]} ∪ H) = delete x (view s H) /\ (refs (view s H) x = 0%nat) /\ (x ∉ O) /\ (x ∉ H).
Proof.
  intros HO Hx0 Ho Hr. destruct (owns_free s H O x o HO Hx0 Ho Hr) as (_ & _ & Hrefs & HxO & HxH).
  assert (Hview : view s ({[x]} ∪ H) = delete x (view s H)).
  { apply map_eq. intros y. apply option_eq. intros n. rewrite lookup_delete_Some, !view_lookup. split.
    - intros (o' & Hy & <- & Hn). rewrite held_in in Hn. split; [naive_solver|]. exists o'. naive_solver.
    - intros [Hne (o' & Hy & <- & Hn)]. exists o'. rewrite held_in. split; [done|]. split; [done|]. intros [->|?]; done. }
  assert (Hv : view s H !! x = Some (obj o)) by (apply view_lookup; by exists o).
  assert (HcO : cnt x O = 0%nat) by (destruct (cnt x O) eqn:Ec; [done|]; exfalso; apply HxO, cnt_elem; lia).
  split; [|done]. destruct HO as [C P N Hh F M S]. constructor; try done.
  - intros y Hy. rewrite Hview, cnt_app, (C y Hy), (refs_delete _ x (obj o) y Hv), cnt_cons. pose proof (refs_delete _ x (obj o) x Hv).
    destruct (N.eq_dec x y) as [<-|Hne].
    + rewrite (decide_True (P := x ∈ {[x]} ∪ H)) by (rewrite held_in; auto). rewrite (decide_False (P := x ∈ H)) by done. lia.
    + rewrite (decide_ext (y ∈ {[x]} ∪ H) (y ∈ H)) by (by apply held_ne). lia.
  - intros y [->|Hy]%held_in; [by exists o|auto].
Qed.

(** A node that is held is put back. *)
Lemma owns_close s H O x o : owns s ({[x]} ∪ H) (references (obj o) ++ O) -> objects s !! x = Some o -> x ∉ H ->
  owns s H (x :: O) /\ view s H = <[x := obj o]> (view s ({[x]} ∪ H)) /\ view s ({[x]} ∪ H) !! x = None.
Proof.
  intros HO Ho HxH. assert (Hnone : view s ({[x]} ∪ H) !! x = None).
  { destruct (view s ({[x]} ∪ H) !! x) eqn:E; [|done]. apply view_lookup in E as (? & _ & _ & Hn). rewrite held_in in Hn. naive_solver. }
  assert (Hview : view s H = <[x := obj o]> (view s ({[x]} ∪ H))).
  { apply map_eq. intros y. apply option_eq. intros n. rewrite lookup_insert_Some, !view_lookup. split.
    - intros (o' & Hy & <- & HyH). destruct (decide (x = y)) as [<-|Hne]; [left; split; congruence|]. right. split; [done|]. exists o'. rewrite held_in. split; [done|]. split; [done|]. intros [->|?]; done.
    - intros [[<- <-]|[Hne (o' & Hy & <- & HyH)]]; [by exists o|]. exists o'. rewrite held_in in HyH. naive_solver. }
  split; [|done]. destruct HO as [C P N Hh F M S]. constructor; try done.
  - intros y Hy. rewrite Hview, refs_insert by done. rewrite (C y Hy), cnt_app, cnt_cons. destruct (N.eq_dec x y) as [<-|Hne].
    + rewrite (decide_True (P := x ∈ {[x]} ∪ H)) by (rewrite held_in; auto). rewrite (decide_False (P := x ∈ H)) by done. lia.
    + rewrite (decide_ext (y ∈ {[x]} ∪ H) (y ∈ H)) by (by apply held_ne). lia.
  - intros y Hy. apply Hh, held_in. auto.
Qed.

(** A node that is held is changed. *)
Lemma owns_set s H O x o n : owns s H O -> objects s !! x = Some o -> x ∈ H -> small n ->
  let s' := {| objects := <[x := {| ref := ref o; obj := n |}]> (objects s); first_free := first_free s; max_allocated := max_allocated s |} in
  owns s' H O /\ view s' H = view s H /\ (forall m, room m s -> room m s').
Proof.
  intros HO Ho HxH Hn. cbv zeta. assert (Hlook : forall y, y <> x -> <[x := {| ref := ref o; obj := n |}]> (objects s) !! y = objects s !! y) by (intros; by apply lookup_insert_ne).
  assert (Hview : view {| objects := <[x := {| ref := ref o; obj := n |}]> (objects s); first_free := first_free s; max_allocated := max_allocated s |} H = view s H) by (by rewrite view_insert, decide_True).
  split; [|split; [done|]].
  - constructor; cbn [objects first_free max_allocated].
    + intros y Hy. rewrite Hview, <- (own_count _ _ _ HO y Hy). unfold rc. cbn [objects]. destruct (decide (y = x)) as [->|Hne]; [by rewrite lookup_insert_eq, Ho|by rewrite Hlook].
    + intros y o'. destruct (decide (y = x)) as [->|Hne]; [rewrite lookup_insert_eq; intros [= <-]; cbn; by apply (own_pos _ _ _ HO x)|rewrite Hlook by done; apply (own_pos _ _ _ HO)].
    + rewrite Hlook; [apply (own_null _ _ _ HO)|]. intros <-. by rewrite (own_null _ _ _ HO) in Ho.
    + intros y Hy. destruct (own_held _ _ _ HO y Hy) as (o' & Ho' & Hr). destruct (decide (y = x)) as [->|Hne]; [rewrite lookup_insert_eq; eexists; split; [done|]; cbn; congruence|rewrite Hlook by done; eauto].
    + destruct (own_free _ _ _ HO) as [Hnd Hf]. split; [done|]. rewrite Forall_forall in Hf |- *. intros f Hin. destruct (Hf f Hin) as [? Hfn]. rewrite Hlook by congruence. done.
    + intros y [[o' Ho']|Hy]; apply (own_max _ _ _ HO); [left|by right]. destruct (decide (y = x)) as [->|Hne]; [by eexists|rewrite Hlook in Ho' by done; by eexists].
    + intros y o'. destruct (decide (y = x)) as [->|Hne]; [rewrite lookup_insert_eq; by intros [= <-]|rewrite Hlook by done; apply (own_small _ _ _ HO)].
  - intros m [Hm1 Hm2]. split; [done|]. intros y o'. cbn. destruct (decide (y = x)) as [->|Hne]; [rewrite lookup_insert_eq; intros [= <-]; by apply (Hm2 x o)|rewrite Hlook by done; apply Hm2].
Qed.
