(* ===== verification/TrieSteps.v ===== *)
(** * triedent: the steps of the updates

    What the building blocks of [add_child] and [remove_child] do with the trees
    of the store, in terms of [TrieOwn]: making and copying nodes, and the
    branches of an inner node as the branches of the tree it stands for. *)

From S2P Require Import Prelude Ordered Key6 NodeBits Trie TrieLaws TrieOrder TrieStore TrieOwn.

(** ** New nodes *)

(** A new node [n] at [i]; everything else stays. *)
Record made (s s' : store) (H : gset id) (O : list id) (m : nat) (i : id) (n : node) : Prop := {
  made_owns : owns s' H (i :: O);
  made_view : view s' H = <[i := n]> (view s H);
  made_fresh : view s H !! i = None;
  made_null : i <> 0%N;
  made_one : rc s' i = 1;
  made_keeps : keeps s s' H;
  made_room : room m s'
}.
Lemma made_mono s s' H O m i n : made s s' H O m i n -> view s H ⊆ view s' H.
Proof. intros []. rewrite made_view0. by apply insert_subseteq. Qed.
Lemma made_node s s' H O m i n : made s s' H O m i n -> view s' H !! i = Some n.
Proof. intros []. rewrite made_view0. apply lookup_insert_eq. Qed.

Lemma wp_make s H O n m Q : owns s H (references n ++ O) -> small n -> room m s ->
  (forall i s', made s s' H O m i n -> Q i s') -> wp (alloc n) s Q.
Proof.
  intros HO Hn Hm HQ. eapply wp_alloc; [exact HO|done|exact Hm|]. intros i s' H1 H2 H3 H4 H5 H6. apply HQ. constructor; try done; [by apply view_none|].
  pose proof (own_count _ _ _ HO i H4) as E. unfold rc in E. rewrite H3, cnt_app in E. rewrite (own_count _ _ _ H1 i H4), H2, refs_insert, cnt_cons by (by apply view_none).
  destruct (N.eq_dec i i); [|done]. destruct (decide (i ∈ H)); lia.
Qed.

(** A reference that can be copied. *)
Definition live (s : store) (H : gset id) (i : id) : Prop := i = 0%N \/ exists n, view s H !! i = Some n.
Lemma live_refs s H O i n : owns s H O -> view s H !! i = Some n -> Forall (live s H) (references n).
Proof.
  intros HO Hi. apply Forall_forall. intros y Hy. destruct (decide (y = 0%N)) as [->|Hy0]; [by left|right].
  destruct (owns_view s H O y HO Hy0) as (o & _ & Hv); [pose proof (refs_elem _ _ _ _ Hi Hy); lia|eauto].
Qed.
Lemma live_mono s s' H i : view s H ⊆ view s' H -> live s H i -> live s' H i.
Proof. intros Hs [->|[n Hn]]; [by left|right]. exists n. by apply (lookup_weaken (view s H)). Qed.
Lemma live_den s H i t : den (view s H) i t -> live s H i.
Proof. intros Hd. right. destruct t as [k d|k v ts]; [by eexists|]. apply den_inner in Hd as (vi & cs & Hi & _). by eexists. Qed.

Lemma wp_map_ids ids : forall s H O m Q, owns s H O -> Forall (live s H) ids -> room (length ids + m) s ->
  (forall s', owns s' H (ids ++ O) -> view s' H = view s H -> keeps s s' H -> room m s' -> Q ids s') -> wp (map_ids bump_refcount_or_copy ids) s Q.
Proof.
  induction ids as [|i ids IH]; intros s H O m Q HO Hl Hm HQ; cbn [map_ids]; [by apply wp_ret, HQ|]. apply Forall_cons in Hl as [Hi Hl].
  apply wp_bind. eapply wp_bump; [exact HO|exact Hi|exact Hm|]. intros s1 HO1 Hv1 _ Hk1 Hm1.
  apply wp_bind. eapply (IH s1 H (i :: O) m); [exact HO1| |exact Hm1|].
  { eapply Forall_impl; [exact Hl|]. intros x. apply live_mono. by rewrite Hv1. }
  intros s2 HO2 Hv2 Hk2 Hm2. apply wp_ret, HQ; [|congruence|by eapply keeps_trans|done].
  eapply owns_perm; [|exact HO2]. intros x _. apply cnt_perm. symmetry. apply Permutation_middle.
Qed.
Lemma wp_map_children cs : forall s Q, wp (map_ids bump_refcount_or_copy (map snd cs)) s (fun ids s' => Q (zip (map fst cs) ids) s') -> wp (map_children bump_refcount_or_copy cs) s Q.
Proof.
  intros s Q. enough (E : forall s, map_children bump_refcount_or_copy cs s =
    match map_ids bump_refcount_or_copy (map snd cs) s with Ok (ids, s') => Ok (zip (map fst cs) ids, s') | Abort m => Abort m end).
  { unfold wp. rewrite E. by destruct (map_ids _ _ s) as [[ids s']|]. }
  clear. induction cs as [|[b i] cs IH]; intros s; cbn [map_children map_ids map snd fst]; [done|]. unfold mbind, st_bind. destruct (bump_refcount_or_copy i s) as [[j s1]|]; [|done].
  rewrite IH. by destruct (map_ids _ _ s1) as [[ids s2]|].
Qed.
Lemma zip_fst_snd {A B} (l : list (A * B)) : zip (map fst l) (map snd l) = l.
Proof. induction l as [|[a b] l IH]; cbn; congruence. Qed.

(** [clone_inner] and [clone_value], of what is in the store. *)
Lemma wp_clone_inner s H O k v cs m Q : owns s H O -> Forall (live s H) (v :: map snd cs) -> small (Inner k v cs) -> room (65 + m) s ->
  (forall i s', made s s' H O m i (Inner k v cs) -> Q i s') -> wp (clone_inner k v cs) s Q.
Proof.
  intros HO Hl Hcs Hm HQ. apply Forall_cons in Hl as [Hv Hl].
  apply wp_bind. eapply wp_bump; [exact HO|exact Hv|exact Hm|]. intros s1 HO1 Hv1 _ Hk1 Hm1.
  apply wp_bind. assert (Hl1 : Forall (live s1 H) (map snd cs)) by (eapply Forall_impl; [exact Hl|]; intros x; apply live_mono; by rewrite Hv1).
  apply wp_map_children. eapply (wp_map_ids _ s1 H _ m); [exact HO1|exact Hl1|eapply room_le; [|exact Hm1]; destruct Hcs as [Hcs _]; cbn in Hcs; lia|].
  intros s2 HO2 Hv2 Hk2 Hm2. rewrite zip_fst_snd. eapply (wp_make s2 H O); [|done|exact Hm2|].
  - eapply owns_perm; [|exact HO2]. intros x _. apply cnt_perm. cbn. symmetry. apply Permutation_middle.
  - intros i s3 [M1 M2 M3 M4 M4' M5 M6]. apply HQ. constructor; [done|congruence|congruence|done|done|by repeat (eapply keeps_trans; [eassumption|])|done].
Qed.
Lemma wp_clone_value s H O k d m Q : owns s H O -> Forall (live s H) (proots d) -> small (Value k d) -> room (65 + m) s ->
  (forall i s', made s s' H O m i (Value k d) -> Q i s') -> wp (clone_value k d) s Q.
Proof.
  intros HO Hl Hd Hm HQ. destruct d as [data|ids]; cbn [clone_value_with proots] in *.
  - eapply (wp_make s H O _ m); [done|done|eapply room_le; [|exact Hm]; lia|done].
  - apply wp_bind. eapply (wp_map_ids ids s H O m); [done|done|eapply room_le; [|exact Hm]; destruct Hd as [Hd _]; cbn in Hd; lia|]. intros s1 HO1 Hv1 Hk1 Hm1.
    eapply (wp_make s1 H O); [done|done|exact Hm1|]. intros i s2 [M1 M2 M3 M4 M4' M5 M6]. apply HQ. constructor; [done|congruence|congruence|done|done|by eapply keeps_trans|done].
Qed.

(** ** Branches *)

Definition ids_ok (cs : list (Z * id)) : Prop := chars_ok (map fst cs).

Lemma dens_keys h cs ts : dens h cs ts -> map fst cs = map fst ts.
Proof. unfold dens. induction 1 as [|c t cs ts [E _] _ IH]; cbn; congruence. Qed.
Lemma dens_ok h cs ts : dens h cs ts -> branches_ok ts -> ids_ok cs.
Proof. intros Hd. unfold ids_ok, branches_ok. by rewrite (dens_keys _ _ _ Hd). Qed.
Lemma dens_length h cs ts : dens h cs ts -> length cs = length ts.
Proof. apply Forall2_length. Qed.
Lemma dens_small h cs ts : dens h cs ts -> branches_ok ts -> (length cs <= 64)%nat.
Proof. intros Hd Hok. rewrite (dens_length _ _ _ Hd). by apply branches_length. Qed.
Lemma dens_mono h h' cs ts : h ⊆ h' -> dens h cs ts -> dens h' cs ts.
Proof. intros Hs. apply dens_impl. intros c t _. by apply den_mono. Qed.

Lemma dens_at h cs ts b : dens h cs ts -> match child_at b cs with Some c => exists t, maybe_branch b ts = Some t /\ den h c t | None => maybe_branch b ts = None end.
Proof.
  unfold dens. induction 1 as [|[b1 c] [b2 t] cs ts [E Hd] _ IH]; cbn [child_at]; [done|]. cbn in E. subst b2. unfold maybe_branch in *. cbn [on_branch].
  destruct (b1 =? b); [by eexists|exact IH].
Qed.
Lemma dens_put h cs ts b c t : dens h cs ts -> den h c t -> dens h (put_child b c cs) (set_branch b t ts).
Proof.
  intros H Hct. unfold dens in *. induction H as [|[b1 c1] [b2 t2] cs ts [E Hd] H IH]; cbn [put_child set_branch]; [by repeat constructor|]. cbn in E. subst b2.
  destruct (b1 =? b); [by repeat constructor|]. destruct (b <? b1); by repeat constructor.
Qed.
Lemma dens_drop h cs ts b : dens h cs ts -> dens h (drop_bit b cs) (drop_branch b ts).
Proof.
  unfold dens. induction 1 as [|[b1 c1] [b2 t2] cs ts [E Hd] H IH]; cbn; [constructor|]. cbn in E. subst b2. destruct (negb (b1 =? b)); [|exact IH]. by constructor.
Qed.
Lemma dens_one h b c t : den h c t -> dens h [(b, c)] (set_branch b t []).
Proof. intros. by repeat constructor. Qed.
Lemma dens_two h b1 c1 t1 b2 c2 t2 : b1 <> b2 -> den h c1 t1 -> den h c2 t2 -> dens h (two_children b1 c1 b2 c2) (set_branch b2 t2 (set_branch b1 t1 [])).
Proof.
  intros Hne H1 H2. unfold two_children. cbn [set_branch]. rewrite (proj2 (Z.eqb_neq _ _) Hne).
  destruct (b1 <? b2) eqn:E1, (b2 <? b1) eqn:E2; zbool; [lia|by repeat constructor|by repeat constructor|lia].
Qed.

(** A branch is replaced: the other references stay. *)
Lemma child_at_key b c cs : child_at b cs = Some c -> b ∈ map fst cs.
Proof. induction cs as [|[b' i] cs IH]; cbn; [done|]. destruct (b' =? b) eqn:E; zbool; [intros; subst; left|right; auto]. Qed.
Lemma put_child_at b c i cs : ids_ok cs -> child_at b cs = Some c -> exists l r, cs = l ++ (b, c) :: r /\ put_child b i cs = l ++ (b, i) :: r.
Proof.
  unfold ids_ok. induction cs as [|[b' i'] cs IH]; cbn [child_at put_child map fst]; [done|]. intros [Hs Hc]. destruct (b' =? b) eqn:E; zbool; [intros [= ->]; subst; by exists [], cs|].
  intros Hat. inversion Hs as [|? ? Hs' Hlt]; subst. inversion Hc; subst. rewrite Forall_forall in Hlt. pose proof (Hlt b (child_at_key b c cs Hat)). rewrite (proj2 (Z.ltb_ge _ _)) by lia.
  destruct IH as (l & r & -> & ->); [by split|done|]. by exists ((b', i') :: l), r.
Qed.
Lemma put_child_refs b c i k v cs : ids_ok cs -> child_at b cs = Some c -> references (Inner k v (put_child b i cs)) ++ [c] ≡ₚ i :: references (Inner k v cs).
Proof.
  intros Hok Hat. destruct (put_child_at b c i cs Hok Hat) as (l & r & -> & ->). cbn. rewrite !map_app. cbn. rewrite <- app_assoc. cbn. solve_Permutation.
Qed.
Lemma put_child_length b c i cs : ids_ok cs -> child_at b cs = Some c -> length (put_child b i cs) = length cs.
Proof. intros Hok Hat. destruct (put_child_at b c i cs Hok Hat) as (l & r & -> & ->). by rewrite !length_app. Qed.
Lemma put_child_put b i j cs : put_child b j (put_child b i cs) = put_child b j cs.
Proof.
  induction cs as [|[b' i'] cs IH]; cbn [put_child]; [by rewrite Z.eqb_refl|]. destruct (b' =? b) eqn:E; cbn [put_child]; [by rewrite Z.eqb_refl|].
  destruct (b <? b') eqn:E2; cbn [put_child]; [by rewrite Z.eqb_refl|]. by rewrite E, E2, IH.
Qed.
Lemma child_at_put b i cs : child_at b (put_child b i cs) = Some i.
Proof.
  induction cs as [|[b' i'] cs IH]; cbn [put_child child_at]; [by rewrite Z.eqb_refl|]. destruct (b' =? b) eqn:E; cbn [child_at]; [by rewrite Z.eqb_refl|].
  destruct (b <? b') eqn:E2; cbn [child_at]; [by rewrite Z.eqb_refl|]. by rewrite E.
Qed.
Lemma put_child_keys b i cs x : x ∈ map fst (put_child b i cs) <-> x = b \/ x ∈ map fst cs.
Proof.
  induction cs as [|[b' i'] cs IH]; cbn [put_child map fst]; [by rewrite elem_of_cons, !elem_of_nil|]. destruct (b' =? b) eqn:E; zbool; [subst; cbn [map fst]; rewrite !elem_of_cons; tauto|].
  destruct (b <? b'); cbn [map fst]; rewrite !elem_of_cons, ?IH; tauto.
Qed.
Lemma put_child_ids b i cs : is_char6 b -> ids_ok cs -> ids_ok (put_child b i cs).
Proof.
  intros Hb. unfold ids_ok. induction cs as [|[b' i'] cs IH]; cbn [put_child map fst]; [intros _; split; (constructor; [|constructor]); [constructor|done]|]. intros [Hs Hc].
  inversion Hs as [|? ? Hs' Hlt]; subst. inversion Hc; subst. destruct (b' =? b) eqn:E; zbool; [subst; by split|]. destruct (b <? b') eqn:E2; zbool; cbn [map fst].
  - split; [|by constructor]. constructor; [done|]. constructor; [done|]. eapply Forall_impl; [exact Hlt|]. cbn. lia.
  - destruct IH as [I1 I2]; [by split|]. split; [|by constructor]. constructor; [done|]. apply Forall_forall. intros x [->|Hx]%put_child_keys; [lia|]. rewrite Forall_forall in Hlt. by apply Hlt.
Qed.
(** With the bit [b], the branch is [c] (null where there was none). *)
Lemma add_bit_at b cs : child_at b (add_bit b cs) = Some (default 0%N (child_at b cs)).
Proof. unfold add_bit. destruct (child_at b cs) eqn:E; [done|]. apply child_at_put. Qed.
Lemma add_bit_put b i cs : ids_ok cs -> put_child b i (add_bit b cs) = put_child b i cs.
Proof. intros. unfold add_bit. destruct (child_at b cs) eqn:E; [done|]. apply put_child_put. Qed.
Lemma add_bit_ids b cs : is_char6 b -> ids_ok cs -> ids_ok (add_bit b cs).
Proof. intros. unfold add_bit. destruct (child_at b cs) eqn:E; [done|]. by apply put_child_ids. Qed.
Lemma ids_small cs : ids_ok cs -> (length cs <= 64)%nat.
Proof. unfold ids_ok. intros H. rewrite <- (length_map fst). pose proof (branches_length (map (fun b => (b, value_node [] tt)) (map fst cs))) as Hl. unfold branches_ok in Hl. rewrite map_map, map_id, !length_map in Hl. rewrite length_map. auto. Qed.
Lemma put_child_live s H b i cs : live s H i -> Forall (live s H) (map snd cs) -> Forall (live s H) (map snd (put_child b i cs)).
Proof.
  intros Hi. induction cs as [|[b' i'] cs IH]; cbn [put_child map snd]; [by rewrite Forall_singleton|]. intros [H1 H2]%Forall_cons.
  destruct (b' =? b); [by constructor|]. destruct (b <? b'); cbn [map snd]; rewrite ?Forall_cons; auto.
Qed.
Lemma add_bit_live s H b cs : Forall (live s H) (map snd cs) -> Forall (live s H) (map snd (add_bit b cs)).
Proof. unfold add_bit. destruct (child_at b cs); [done|]. apply put_child_live. by left. Qed.

(** ** Reading and changing nodes *)

Lemma view_small s H O x n : owns s H O -> view s H !! x = Some n -> small n.
Proof. intros HO (o & Ho & <- & _)%view_lookup. by apply (own_small _ _ _ HO x). Qed.

Lemma wp_get_view s H O i n (Q : object -> store -> Prop) : owns s H O -> view s H !! i = Some n -> (forall o, objects s !! i = Some o -> obj o = n -> Q o s) -> wp (get_by_id i) s Q.
Proof. intros HO Hi HQ. destruct (view_object s H O i n HO Hi) as (o & Ho & En & _). eapply wp_get; [exact Ho|by apply HQ]. Qed.
Lemma wp_get_inner s i o k v cs (Q : list Z * id * list (Z * id) -> store -> Prop) : objects s !! i = Some o -> obj o = Inner k v cs -> Q (k, v, cs) s -> wp (get_inner i) s Q.
Proof. intros Ho En HQ. apply wp_bind. eapply wp_get; [exact Ho|]. rewrite En. by apply wp_ret. Qed.
Lemma wp_view_inner s H O i k v cs (Q : list Z * id * list (Z * id) -> store -> Prop) : owns s H O -> view s H !! i = Some (Inner k v cs) -> Q (k, v, cs) s -> wp (get_inner i) s Q.
Proof. intros HO Hi HQ. destruct (view_object s H O i _ HO Hi) as (o & Ho & En & _). by eapply wp_get_inner. Qed.
Lemma wp_value_data s H O i k d (Q : payload -> store -> Prop) : owns s H O -> view s H !! i = Some (Value k d) -> Q d s -> wp (value_data i) s Q.
Proof. intros HO Hi HQ. destruct (view_object s H O i _ HO Hi) as (o & Ho & En & _). apply wp_bind. eapply wp_get; [exact Ho|]. rewrite En. by apply wp_ret. Qed.

(** A node that is held is changed. *)
Lemma wp_set_held s H O x o n (Q : unit -> store -> Prop) : owns s H O -> objects s !! x = Some o -> x ∈ H -> small n ->
  (forall s', owns s' H O -> view s' H = view s H -> objects s' !! x = Some {| ref := ref o; obj := n |} -> (forall y, y <> x -> objects s' !! y = objects s !! y) -> (forall m, room m s -> room m s') -> Q tt s') ->
  wp (set_node x n) s Q.
Proof.
  intros HO Ho HxH Hn HQ. apply wp_bind. eapply wp_get; [exact Ho|]. apply wp_write. destruct (owns_set s H O x o n HO Ho HxH Hn) as (H1 & H2 & H3).
  apply HQ; [done|done|apply lookup_insert_eq|intros; by apply lookup_insert_ne|done].
Qed.

(** A new node of which nobody knows is changed: the references it gets are owned before, those it had are owned after. *)
Lemma wp_set_fresh s0 s H O O' x n n' m (Q : unit -> store -> Prop) : made s0 s H O m x n -> small n' ->
  (forall z, z <> 0%N -> cnt z (references n ++ O) = cnt z (references n' ++ O')) ->
  (forall s', made s0 s' H O' m x n' -> Q tt s') -> wp (set_node x n') s Q.
Proof.
  intros HM Hn Hc HQ. pose proof (made_node _ _ _ _ _ _ _ HM) as Hx. destruct HM as [M1 M2 M3 M4 M4' M5 M6].
  destruct (view_object s H _ x n M1 Hx) as (o & Ho & En & _ & HxH). assert (Hr : ref o = 1) by (unfold rc in M4'; by rewrite Ho in M4').
  destruct (owns_open s H _ x o M1 M4 Ho Hr) as (HO1 & Hv1 & _ & _ & _). rewrite En in HO1.
  eapply (wp_set_held s ({[x]} ∪ H)); [exact HO1|exact Ho|apply held_in; by left|exact Hn|]. intros s' HO2 Hv2 Ho2 Hoth Hroom. apply HQ.
  assert (HO2' : owns s' ({[x]} ∪ H) (references n' ++ O')) by (by eapply owns_perm; [apply Hc|exact HO2]).
  destruct (owns_close s' H O' x {| ref := ref o; obj := n' |} HO2' Ho2 HxH) as (HO3 & Hv3 & _).
  constructor; [done| |done|done|unfold rc; by rewrite Ho2| |by apply Hroom].
  - rewrite Hv3, Hv2, Hv1, M2. cbn. by rewrite insert_delete_eq, insert_insert_eq.
  - intros h Hh. rewrite Hoth by (by intros ->). by apply M5.
Qed.
