(* ===== verification/TrieAdd.v ===== *)
(** * triedent: [add_child] on the store

    The update of a tree in the store makes the tree that [Trie.add_child] makes.
    When the tree is shared, the nodes that were there stay as they are
    ([add_shared]); when it is not, it is changed in place, and every other tree
    stays ([add_unique]).  The counts of the references stay exact. *)

From S2P Require Import Prelude Ordered Key6 NodeBits Trie TrieLaws TrieOrder TrieStore TrieOwn TrieSteps.

(** ** Trees that are shared *)

(** Everything that was there is still there. *)
Definition later (s s' : store) (H : gset id) : Prop := view s H ⊆ view s' H /\ keeps s s' H.
Lemma later_refl s H : later s s H.
Proof. done. Qed.
Lemma later_trans s1 s2 s3 H : later s1 s2 H -> later s2 s3 H -> later s1 s3 H.
Proof. intros [] []. split; [by etransitivity|by eapply keeps_trans]. Qed.
Lemma made_later s s' H O m i n : made s s' H O m i n -> later s s' H.
Proof. intros HM. split; [by eapply made_mono|by destruct HM]. Qed.
Lemma later_node s s' H i n : later s s' H -> view s H !! i = Some n -> view s' H !! i = Some n.
Proof. intros [Hs _] Hi. by apply (lookup_weaken (view s H)). Qed.
Lemma later_live s s' H l : later s s' H -> Forall (live s H) l -> Forall (live s' H) l.
Proof. intros [Hs _] Hl. eapply Forall_impl; [exact Hl|]. intros. by eapply live_mono. Qed.

(** A new tree at [y], which is owned. *)
Record grown (s s' : store) (H : gset id) (O : list id) (m : nat) (y : id) : Prop := {
  grown_owns : owns s' H (y :: O);
  grown_later : later s s' H;
  grown_fresh : view s H !! y = None;
  grown_null : y <> 0%N;
  grown_room : room m s'
}.
Lemma grown_made s s1 s2 H O m y n : later s s1 H -> made s1 s2 H O m y n -> grown s s2 H O m y.
Proof.
  intros Hl HM. constructor; [by destruct HM|eapply later_trans; [done|by eapply made_later]| |by destruct HM|by destruct HM].
  destruct Hl as [Hs _]. eapply lookup_weaken_None; [|exact Hs]. by destruct HM.
Qed.

(** Nodes with the key of another node, or a part of it. *)
Lemma small_part k k' d d' : small (Value k d) -> (length k' <= length k)%nat -> (length (proots d') <= length (proots d))%nat -> small (Value k' d').
Proof. intros [H1 H2] Hk Hd. cbn in H2. split; [|cbn; lia]. destruct d, d'; cbn in *; lia. Qed.
Lemma small_node k v cs v' cs' : small (Inner k v cs) -> ids_ok cs' -> small (Inner k v' cs').
Proof. intros [_ H2] Hcs. apply small_inner; [by apply ids_small|exact H2]. Qed.

(** Two value nodes: the copy of one of the store, and a new one. *)
Lemma wp_build s H O k1 d1 k2 d2 (origin : bool) m Q :
  owns s H (proots (if origin then d2 else d1) ++ O) -> Forall (live s H) (proots (if origin then d1 else d2)) ->
  small (Value k1 d1) -> small (Value k2 d2) -> room (65 + m) s ->
  (forall i1 i2 s', owns s' H (i1 :: i2 :: O) -> later s s' H -> view s' H !! i1 = Some (Value k1 d1) -> view s' H !! i2 = Some (Value k2 d2) -> room m s' -> Q (i1, i2) s') ->
  wp (build_children origin (put_value origin k1 d1) (put_value (negb origin) k2 d2)) s Q.
Proof.
  assert (Hboth : forall ka da kb db Q', owns s H (proots db ++ O) -> Forall (live s H) (proots da) -> small (Value ka da) -> small (Value kb db) -> room (65 + m) s ->
    (forall ia ib s', owns s' H (ia :: ib :: O) -> later s s' H -> view s' H !! ia = Some (Value ka da) -> view s' H !! ib = Some (Value kb db) -> room m s' -> Q' (ia, ib) s') ->
    wp (ra ← clone_value ka da; rb ← alloc (Value kb db); mret (ra, rb)) s Q').
  { intros ka da kb db Q' HO Hl Ha Hb Hm HQ. apply wp_bind. eapply wp_clone_value; [exact HO|exact Hl|exact Ha|exact Hm|]. intros ia s1 M1.
    apply wp_bind. assert (Hrefs : references (Value kb db) = proots db) by (by destruct db). eapply (wp_make s1 H (ia :: O) _ m).
    - eapply owns_perm; [|exact (made_owns _ _ _ _ _ _ _ M1)]. intros x _. apply cnt_perm. rewrite Hrefs. apply Permutation_middle.
    - done.
    - by destruct M1.
    - intros ib s2 M2. apply wp_ret, HQ.
      + eapply owns_perm; [|exact (made_owns _ _ _ _ _ _ _ M2)]. intros x _. apply cnt_perm. constructor.
      + eapply later_trans; by eapply made_later.
      + eapply later_node; [by eapply made_later|by eapply made_node].
      + by eapply made_node.
      + by destruct M2. }
  intros HO Hl H1 H2 Hm HQ. unfold build_children. destruct origin; cbn [negb put_value].
  - by apply Hboth.
  - specialize (Hboth k2 d2 k1 d1 (fun p s' => Q (p.2, p.1) s') HO Hl H2 H1 Hm).
    assert (HQ' : wp (ra ← clone_value k2 d2; rb ← alloc (Value k1 d1); mret (ra, rb)) s (fun p s' => Q (p.2, p.1) s')).
    { apply Hboth. intros ia ib s' HO' Hlat Ha Hb Hr. apply HQ; try done. eapply owns_perm; [|exact HO']. intros x _. apply cnt_perm. constructor. }
    clear Hboth. unfold wp, mbind, st_bind, mret, st_ret in *. destruct (clone_value_with _ k2 d2 s) as [[ra s1]|]; [|done]. by destruct (alloc (Value k1 d1) s1) as [[rb s2]|].
Qed.

Lemma refs_value k d : references (Value k d) = proots d.
Proof. by destruct d. Qed.

(** [combine_value_nodes]: [k], [d] are of a node of the store. *)
Lemma wp_combine_ordered s H O k1 d1 k2 d2 (origin : bool) m Q : k1 <> k2 -> (length k1 <= length k2)%nat ->
  owns s H (proots (if origin then d2 else d1) ++ O) -> Forall (live s H) (proots (if origin then d1 else d2)) ->
  small (Value k1 d1) -> small (Value k2 d2) -> room (65 + m) s ->
  (forall i s', grown s s' H O m i -> den (view s' H) i (combine_ordered k1 d1 k2 d2) -> Q i s') ->
  wp (store_combine_ordered k1 d1 origin k2 d2 (negb origin)) s Q.
Proof.
  intros Hne Hlen HO Hl H1 H2 Hm HQ. unfold store_combine_ordered. unfold combine_ordered in HQ. lies_cases k2 k1; [done| | |]; cbv zeta in *.
  - rewrite common_prefix_right, keq_refl, at_app, drop_app_S. rewrite common_prefix_right, keq_refl, at_app, drop_app_S in HQ. apply wp_bind.
    eapply wp_build; [done|done|by apply (small_part k1 _ d1); [|cbn; lia|]|by apply (small_part (k1 ++ b :: r) _ d2); [|rewrite length_app; cbn; lia|]|done|]. intros i1 i2 s1 HO1 Hl1 Hi1 Hi2 Hr1.
    eapply (wp_make s1 H O _ m); [done|apply small_inner; [cbn; lia|apply H1]|done|]. intros i s2 M. apply HQ; [by eapply grown_made|]. apply den_inner. eexists _, _. split; [by eapply made_node|].
    split; [eapply later_node; [by eapply made_later|done]|]. apply dens_one. eapply den_mono; [by eapply made_mono|done].
  - rewrite length_app in Hlen. cbn in Hlen. lia.
  - rewrite common_prefix_fork, bool_decide_false, !at_app, !drop_app_S by (congruence || apply at_below). rewrite common_prefix_fork, bool_decide_false, !at_app, !drop_app_S in HQ by (congruence || apply at_below). apply wp_bind.
    assert (Hc : forall y l, (length l <= length (c ++ y :: l))%nat) by (intros; rewrite length_app; cbn; lia).
    eapply wp_build; [done|done|by eapply small_part; [exact H1|apply Hc|]|by eapply small_part; [exact H2|apply Hc|]|done|]. intros i1 i2 s1 HO1 Hl1 Hi1 Hi2 Hr1.
    eapply (wp_make s1 H O _ m); [|apply small_inner; [unfold two_children; destruct (_ <? _); cbn; lia|destruct H1 as [_ H1]; cbn in H1; rewrite length_app in H1; lia]|done|].
    { eapply owns_perm; [|exact HO1]. intros z Hz. unfold two_children. destruct (_ <? _); cbn [references map snd app]; rewrite !cnt_cons; destruct (N.eq_dec 0 z); congruence || lia. }
    intros i s2 M. apply HQ; [by eapply grown_made|]. apply den_inner. eexists _, _. split; [by eapply made_node|]. split; [done|].
    apply dens_two; [congruence| |]; (eapply den_mono; [by eapply made_mono|done]).
Qed.
Lemma wp_combine s H O k d key val m Q : k <> key ->
  owns s H (proots val ++ O) -> Forall (live s H) (proots d) -> small (Value k d) -> small (Value key val) -> room (65 + m) s ->
  (forall i s', grown s s' H O m i -> den (view s' H) i (combine_value_nodes k d key val) -> Q i s') ->
  wp (store_combine k d key val) s Q.
Proof.
  intros Hne HO Hl H1 H2 Hm HQ. unfold store_combine, combine_value_nodes in *. destruct (length key <? length k)%nat eqn:E; zbool.
  - apply (wp_combine_ordered s H O key val k d false m); try done. lia.
  - apply (wp_combine_ordered s H O k d key val true m); try done.
Qed.

(** [set_inner_value] on a node that is shared. *)
Lemma wp_set_inner_shared s H O x k vi cs val m (Q : id -> store -> Prop) :
  owns s H (proots val ++ O) -> view s H !! x = Some (Inner k vi cs) -> ids_ok cs -> (length (proots val) <= 65)%nat -> room (65 + m) s ->
  (forall i nv s', grown s s' H O m i -> view s' H !! i = Some (Inner k nv cs) -> view s' H !! nv = Some (Value [] val) -> Q i s') ->
  wp (set_inner_value x false val) s Q.
Proof.
  intros HO Hx Hcs Hval Hm HQ. apply wp_bind. eapply wp_view_inner; [done..|]. cbn beta iota zeta.
  pose proof (view_small _ _ _ _ _ HO Hx) as Hsm.
  apply wp_bind. eapply (wp_make s H O _ (65 + m)); [by rewrite refs_value|split; [by rewrite refs_value|cbn; lia]|done|]. intros nv s1 M1. pose proof (made_later _ _ _ _ _ _ _ M1) as L1.
  apply wp_bind. eapply wp_view_inner; [by destruct M1|by eapply later_node|]. cbn beta iota zeta.
  apply wp_bind. eapply (wp_clone_inner s1 H (nv :: O) k 0%N cs m); [by destruct M1| |by eapply small_node|by destruct M1|].
  { constructor; [by left|]. eapply later_live; [exact L1|]. pose proof (live_refs s H _ x _ HO Hx) as Hr. by apply Forall_cons in Hr as [_ Hr]. }
  intros i s2 M2. apply wp_bind. eapply wp_view_inner; [by destruct M2|by eapply made_node|]. cbn beta iota zeta.
  apply wp_bind. eapply (wp_set_fresh s1 s2 H (nv :: O) O); [exact M2|by eapply small_node| |].
  { intros z Hz. cbn [references app]. rewrite !cnt_cons, !cnt_app, !cnt_cons. destruct (N.eq_dec 0 z); [congruence|]. lia. }
  intros s3 M3. apply wp_ret. eapply HQ; [by eapply grown_made|by eapply made_node|]. eapply later_node; [by eapply made_later|]. by eapply made_node.
Qed.

(** A copy of [x] with another child at [b]. *)
Lemma child_at_refs b k v cs : ids_ok cs -> default 0%N (child_at b cs) = 0%N \/ default 0%N (child_at b cs) ∈ references (Inner k v cs).
Proof.
  intros Hcs. destruct (child_at b cs) as [c|] eqn:E; [right|by left]. destruct (put_child_at b c 0%N cs Hcs E) as (l & r & -> & _). cbn. rewrite map_app. right. apply elem_of_app. right. left.
Qed.
Lemma wp_swap_shared {A} s0 s1 H O x k v cs b nb m (a : A) (Q : id * A -> store -> Prop) :
  later s0 s1 H -> Forall (live s0 H) (references (Inner k v cs)) -> owns s1 H (nb :: O) -> view s0 H !! x = Some (Inner k v cs) -> ids_ok cs -> is_char6 b -> view s0 H !! nb = None -> nb <> 0%N -> room (65 + m) s1 ->
  (forall i s', grown s0 s' H O m i -> later s1 s' H -> view s' H !! i = Some (Inner k v (put_child b nb cs)) -> Q (i, a) s') ->
  let cur_b := default 0%N (child_at b cs) in
  wp ('(k, v, cs) ← get_inner x; new_in ← clone_inner k v (add_bit b cs); (if (nb =? cur_b)%N then mret tt else set_child new_in b nb ;; release cur_b) ;; mret (new_in, a)) s1 Q.
Proof.
  intros L Hlive HO Hx0 Hcs Hb Hnb Hnb0 Hm HQ cur_b. assert (Hx : view s1 H !! x = Some (Inner k v cs)) by (by eapply later_node). pose proof (add_bit_ids b cs Hb Hcs) as Hcs1.
  pose proof (child_at_refs b k v cs Hcs) as Hcur. fold cur_b in Hcur.
  assert (Hneq : nb <> cur_b).
  { intros ->. destruct Hcur as [?|Hin]; [done|]. rewrite Forall_forall in Hlive. destruct (Hlive _ Hin) as [?|[n Hn]]; congruence. }
  pose proof (view_small _ _ _ _ _ HO Hx) as Hsm. pose proof (later_live _ _ _ _ L Hlive) as Hr. apply Forall_cons in Hr as [Hv Hr].
  apply wp_bind. eapply wp_view_inner; [done..|]. cbn beta iota zeta. apply wp_bind. eapply (wp_clone_inner s1 H (nb :: O) k v (add_bit b cs) m); [done|constructor; [done|by apply add_bit_live]|by eapply small_node|done|].
  intros i s2 M2. rewrite (proj2 (N.eqb_neq _ _) Hneq). apply wp_bind, wp_bind, wp_bind. eapply wp_view_inner; [by destruct M2|by eapply made_node|]. cbn beta iota zeta.
  eapply (wp_set_fresh s1 s2 H (nb :: O) (cur_b :: O)); [exact M2| | |].
  { eapply small_node; [exact Hsm|]. rewrite add_bit_put by done. by apply put_child_ids. }
  { intros z _. apply cnt_perm. pose proof (put_child_refs b cur_b nb k v _ Hcs1 (add_bit_at b cs)) as Hp.
    rewrite <- (Permutation_middle _ O nb), app_comm_cons, <- Hp, <- app_assoc. done. }
  intros s3 M3. rewrite add_bit_put in M3 by done. pose proof (made_owns _ _ _ _ _ _ _ M3) as HO3. pose proof (made_later _ _ _ _ _ _ _ M3) as L3.
  assert (Hx3 : view s3 H !! x = Some (Inner k v cs)) by (by eapply later_node).
  eapply (wp_release_shared s3 H (i :: O) cur_b); [eapply owns_perm; [|exact HO3]; intros z _; apply cnt_perm; constructor| |].
  { destruct Hcur as [?|Hin]; [by left|right]. pose proof (refs_elem _ _ _ _ Hx3 Hin). lia. }
  intros s4 HO4 Hv4 _ Hk4 Hm4. assert (L4 : later s3 s4 H) by (split; [by rewrite Hv4|done]). apply wp_ret, HQ; [|by eapply later_trans|rewrite Hv4; by eapply made_node].
  destruct (grown_made s0 s1 s3 H _ m i _ L M3) as [G1 G2 G3 G4 G5]. constructor; [done|by eapply later_trans|done|done|by apply Hm4].
Qed.

(** The tree after the update, and the size of the value that was there. *)
Definition add_root (r : option (trie payload)) (key : list Z) (val : payload) : trie payload * Z :=
  match r with Some t => add_child payload_size t key val | None => (value_node key val, -1) end.

Lemma slot_size s H O vi v (Q : Z -> store -> Prop) : owns s H O -> slot (view s H) vi v -> Q (size_of payload_size v) s ->
  wp (if (vi =? 0)%N then mret (-1) else d ← value_data vi; mret (payload_size d)) s Q.
Proof.
  intros HO Hv HQ. destruct v as [d|]; cbn [slot] in Hv.
  - destruct (view_object s H O vi _ HO Hv) as (_ & _ & _ & Hn & _). rewrite (proj2 (N.eqb_neq _ _) Hn). apply wp_bind. eapply wp_value_data; [done..|]. by apply wp_ret.
  - subst. by apply wp_ret.
Qed.

(** The split of an inner node whose prefix ends beside the key or after it. *)
Lemma wp_split_above s H O x k v ts vi cs p b r val m (Q : id * Z -> store -> Prop) :
  owns s H (proots val ++ O) -> view s H !! x = Some (Inner k vi cs) -> slot (view s H) vi v -> dens (view s H) cs ts -> ids_ok cs -> (length p <= length k)%nat -> (length r <= length k)%nat ->
  (length (proots val) <= 65)%nat -> room (65 + m) s ->
  (forall i s', grown s s' H O m i -> den (view s' H) i (inner_node p (Some val) (set_branch b (inner_node r v ts) [])) -> Q (i, -1) s') ->
  wp (sub ← clone_inner r vi cs; b0val ← alloc (Value [] val); nin ← alloc (Inner p b0val [(b, sub)]); mret (nin, -1)) s Q.
Proof.
  intros HO Hx Hv Hd Hcs Hp Hr Hval Hm HQ. destruct (view_small _ _ _ _ _ HO Hx) as [_ Hk]. cbn in Hk. pose proof (ids_small _ Hcs) as Hsm. apply wp_bind. eapply (wp_clone_inner s H _ r vi cs m); [exact HO|exact (live_refs s H _ x _ HO Hx)|apply small_inner; [done|lia]|done|]. intros sub s1 M1.
  apply wp_bind. eapply (wp_make s1 H (sub :: O) _ m); [|split; [by rewrite refs_value|cbn; lia]|by destruct M1|].
  { eapply owns_perm; [|exact (made_owns _ _ _ _ _ _ _ M1)]. intros z _. apply cnt_perm. rewrite refs_value. apply Permutation_middle. }
  intros b0val s2 M2. apply wp_bind. eapply (wp_make s2 H O _ m); [by destruct M2|apply small_inner; [cbn; lia|lia]|by destruct M2|]. intros nin s3 M3. apply wp_ret.
  pose proof (made_later _ _ _ _ _ _ _ M1) as L1. pose proof (made_later _ _ _ _ _ _ _ M2) as L2. pose proof (made_later _ _ _ _ _ _ _ M3) as L3.
  assert (L : later s s3 H) by (do 2 (eapply later_trans; [eassumption|]); done). apply HQ; [eapply grown_made; [exact (later_trans _ _ _ _ L1 L2)|exact M3]|].
  apply den_inner. eexists _, _. split; [by eapply made_node|]. split; [eapply later_node; [exact L3|by eapply made_node]|]. apply dens_one. apply den_inner. eexists _, _.
  split; [eapply later_node; [exact L3|]; eapply later_node; [exact L2|]; by eapply made_node|]. destruct L as [Hs _]. split; [by eapply slot_mono|by eapply dens_mono].
Qed.
Lemma wp_split_beside s H O x k v ts vi cs p b1 r1 b2 r val m (Q : id * Z -> store -> Prop) :
  owns s H (proots val ++ O) -> view s H !! x = Some (Inner k vi cs) -> slot (view s H) vi v -> dens (view s H) cs ts -> ids_ok cs -> (length p <= length k)%nat -> (length r <= length k)%nat ->
  small (Value r1 val) -> room (65 + m) s -> b1 <> b2 ->
  (forall i s', grown s s' H O m i -> den (view s' H) i (inner_node p None (set_branch b2 (inner_node r v ts) (set_branch b1 (value_node r1 val) []))) -> Q (i, -1) s') ->
  wp (sub ← clone_inner r vi cs; b1val ← alloc (Value r1 val); nin ← alloc (Inner p 0%N (two_children b1 b1val b2 sub)); mret (nin, -1)) s Q.
Proof.
  intros HO Hx Hv Hd Hcs Hp Hr Hval Hm Hb HQ. destruct (view_small _ _ _ _ _ HO Hx) as [_ Hk]. cbn in Hk. pose proof (ids_small _ Hcs) as Hsm. apply wp_bind. eapply (wp_clone_inner s H _ r vi cs m); [exact HO|exact (live_refs s H _ x _ HO Hx)|apply small_inner; [done|lia]|done|]. intros sub s1 M1.
  apply wp_bind. eapply (wp_make s1 H (sub :: O) _ m); [|done|by destruct M1|].
  { eapply owns_perm; [|exact (made_owns _ _ _ _ _ _ _ M1)]. intros z _. apply cnt_perm. rewrite refs_value. apply Permutation_middle. }
  intros b1val s2 M2. apply wp_bind. eapply (wp_make s2 H O _ m); [|apply small_inner; [unfold two_children; destruct (_ <? _); cbn; lia|lia]|by destruct M2|].
  { eapply owns_perm; [|exact (made_owns _ _ _ _ _ _ _ M2)]. intros z Hz. unfold two_children. destruct (_ <? _); cbn [references map snd app]; rewrite !cnt_cons; destruct (N.eq_dec 0 z); congruence || lia. }
  intros nin s3 M3. apply wp_ret.
  pose proof (made_later _ _ _ _ _ _ _ M1) as L1. pose proof (made_later _ _ _ _ _ _ _ M2) as L2. pose proof (made_later _ _ _ _ _ _ _ M3) as L3.
  assert (L : later s s3 H) by (do 2 (eapply later_trans; [eassumption|]); done). apply HQ; [eapply grown_made; [exact (later_trans _ _ _ _ L1 L2)|exact M3]|].
  apply den_inner. eexists _, _. split; [by eapply made_node|]. split; [done|]. apply dens_two; [done|apply den_value; eapply later_node; [exact L3|by eapply made_node]|]. apply den_inner. eexists _, _.
  split; [eapply later_node; [exact L3|]; eapply later_node; [exact L2|]; by eapply made_node|]. destruct L as [Hs _]. split; [by eapply slot_mono|by eapply dens_mono].
Qed.

Lemma room_split fuel m s : room (65 * S fuel + m) s -> room (65 * fuel + (65 + m)) s /\ room (65 + m) s.
Proof. intros Hm. split; (eapply room_le; [|exact Hm]; lia). Qed.

Lemma add_shared fuel : forall s H O x r key val m,
  owns s H (proots val ++ O) -> den_root (view s H) x r -> root_ok r -> key6_ok key -> small (Value key val) -> (length key < fuel)%nat -> room (65 * fuel + m) s ->
  wp (store_add fuel x false key val) s (fun p s' => grown s s' H O m p.1 /\ den (view s' H) p.1 (add_root r key val).1 /\ p.2 = (add_root r key val).2).
Proof.
  induction fuel as [|fuel IH]; intros s H O x r key val m HO Hd Hok Hkey Hval Hf Hm; [lia|]. apply room_split in Hm as [Hm Hm1]. cbn [store_add].
  assert (Hpv : (length (proots val) <= 65)%nat) by (destruct Hval as [Hpv _]; by rewrite refs_value in Hpv).
  assert (Happ : forall (c : list Z) y l, (length c <= length (c ++ y :: l) /\ length l <= length (c ++ y :: l))%nat) by (intros; rewrite length_app; cbn; lia).
  destruct r as [t|]; cbn [den_root] in Hd.
  2:{ subst. cbn [N.eqb]. apply wp_bind. eapply (wp_make s H O _ m); [by rewrite refs_value|done|by eapply room_le; [|exact Hm1]; lia|]. intros i s1 M. apply wp_ret.
      split; [by eapply grown_made; [apply later_refl|]|]. split; [by eapply made_node|done]. }
  destruct (den_nonnull s H _ x t HO Hd) as (Hx0 & _ & _). rewrite (proj2 (N.eqb_neq _ _) Hx0). destruct t as [k d|k v ts].
  - apply den_value in Hd. apply wp_bind. eapply wp_get_view; [done..|]. intros o Ho En. rewrite En. cbn [andb add_root add_child]. destruct (bool_decide_reflect (k = key)) as [->|Hne]; cbn [negb fst snd].
    + apply wp_bind. cbn [set_value negb orb]. eapply (wp_make s H O _ m); [by rewrite refs_value|done|by eapply room_le; [|exact Hm1]; lia|]. intros i s1 M. apply wp_ret.
      split; [by eapply grown_made; [apply later_refl|]|]. split; [by eapply made_node|done].
    + apply wp_bind. pose proof (own_small _ _ _ HO x o Ho) as Hsm. rewrite En in Hsm. pose proof (live_refs s H _ x _ HO Hd) as Hl. rewrite refs_value in Hl.
      eapply (wp_combine s H O k d key val m); [done..|]. intros i s1 G Hd1. by apply wp_ret.
  - apply den_inner in Hd as (vi & cs & Hx & Hv & Hd). destruct (ok_inner_inv _ _ _ Hok) as (Hk & Hbs & _ & Hts). pose proof (dens_ok _ _ _ Hd Hbs) as Hcs.
    apply wp_bind. eapply wp_get_view; [done..|]. intros o Ho En. rewrite En. cbn [andb]. cbn [add_root]. rewrite add_size. lies_cases key k.
    + rewrite keq_refl, add_at, get_at. apply wp_bind. eapply slot_size; [done..|]. apply wp_bind. eapply (wp_set_inner_shared s H O x k vi cs val m); [done..|].
      intros i nv s1 G Hi Hnv. apply wp_ret. cbn [fst snd]. split; [done|]. split; [|done]. apply den_inner. exists nv, cs. split; [done|]. split; [done|]. eapply dens_mono; [|exact Hd]. by destruct G as [_ [? _] _ _ _].
    + apply key6_app in Hkey as (_ & Hb & Hr). rewrite bool_decide_false, common_prefix_left, keq_refl, at_app, drop_app_S by apply at_below. rewrite add_below, get_below. cbv zeta.
      pose proof (dens_at _ _ _ b Hd) as Hat. apply wp_bind.
      assert (Hroot : exists c, den_root (view s H) (default 0%N (child_at b cs)) c /\ root_ok c /\ c = maybe_branch b ts).
      { exists (maybe_branch b ts). destruct (child_at b cs) as [c|]; [destruct Hat as (t & Et & Hdt); rewrite Et; split; [done|]; split; [|done]; apply maybe_branch_elem in Et; rewrite Forall_forall in Hts; by apply (Hts _ Et)|by rewrite Hat]. }
      destruct Hroot as (c & Hc & Hcok & Ec). eapply wp_mono; [|eapply (IH s H O _ c r val (65 + m)%nat); try done; [by eapply small_part; [exact Hval|apply Happ|]|rewrite length_app in Hf; cbn in Hf; lia]].
      intros [nb old] s1 (G & Hnb & Eold). cbn [fst snd] in *. cbn beta iota. destruct G as [G1 G2 G3 G4 G5].
      eapply (wp_swap_shared s s1 H O x k vi cs b nb m); [done|by eapply live_refs|done..|]. intros i s2 G' L' Hi. cbn [fst snd]. split; [done|]. split.
      * apply den_inner. eexists _, _. split; [exact Hi|]. destruct G' as [_ [Hs' _] _ _ _]. split; [by eapply slot_mono|]. apply dens_put; [by eapply dens_mono|]. destruct L' as [Hs1 _].
        eapply den_mono; [exact Hs1|]. rewrite Ec in Hnb. by destruct (maybe_branch b ts).
      * rewrite Eold, Ec. destruct (maybe_branch b ts); [apply add_size|done].
    + rewrite bool_decide_false by apply below_at. rewrite common_prefix_right, (bool_decide_false (key = _)), keq_refl, at_app, drop_app_S by apply at_below. rewrite add_above, get_above.
      eapply (wp_split_above s H O x _ v ts vi cs); [done..|apply Happ|apply Happ|done|done|]. intros i s1 G Hd1. by cbn [fst snd].
    + rewrite bool_decide_false by (by apply fork_neq). rewrite common_prefix_fork by done. rewrite !(bool_decide_false (c = _)), !at_app, !drop_app_S by apply at_below. rewrite add_beside, get_beside by done.
      eapply (wp_split_beside s H O x _ v ts vi cs); [done..|apply Happ|apply Happ|by eapply small_part; [exact Hval|apply Happ|]|done|done|]. intros i s1 G Hd1. by cbn [fst snd].
Qed.

(** ** Trees that are not shared *)

(** A node is opened, something happens, and it is closed again with another content: the trees of the others stay. *)
Lemma reopen_trees s s' H O x n : refs (view s H) x = 0%nat -> x <> 0%N -> x ∉ O -> view s ({[x]} ∪ H) = delete x (view s H) ->
  same_trees s s' ({[x]} ∪ H) O -> view s' H = <[x := n]> (view s' ({[x]} ∪ H)) -> view s' ({[x]} ∪ H) !! x = None -> same_trees s s' H O.
Proof.
  intros Hr Hx0 HxO Hv Ht Hv' Hn y t Hy Hd. rewrite Hv'. eapply den_mono; [by apply insert_subseteq|]. apply Ht; [done|]. rewrite Hv. apply den_delete; try done. by intros ->.
Qed.
Lemma keeps_held s s' H x : keeps s s' ({[x]} ∪ H) -> keeps s s' H.
Proof. intros Hk h Hh. apply Hk, held_in. by right. Qed.
Lemma same_trees_eq s s' H O : view s' H = view s H -> same_trees s s' H O.
Proof. intros E. apply same_trees_mono. by rewrite E. Qed.

(** [modify_value] of roots in a node that is held. *)
Lemma wp_modify_roots x k H old : forall s O kept new, x ∈ H -> length old = length new -> (length kept + length old <= 65)%nat -> owns s H (old ++ O) ->
  objects s !! x = Some {| ref := 1; obj := Value k (Roots (kept ++ old)) |} ->
  wp (modify_roots x k kept old new) s (fun _ s' => owns s' H O /\ same_trees s s' H O /\ (forall h, h ∈ H -> h <> x -> objects s' !! h = objects s !! h) /\
    (forall m, room m s -> room m s') /\ objects s' !! x = Some {| ref := 1; obj := Value k (Roots (kept ++ new)) |}).
Proof.
  induction old as [|prev old IH]; intros s O kept [|src new] Hx Hlen Hsm HO Ho; cbn [modify_roots]; try discriminate Hlen; [apply wp_ret; split; [done|]; by split; [apply same_trees_eq|]|]. cbn in Hlen, Hsm.
  apply wp_bind. eapply (wp_set_held s H _ x); [exact HO|exact Ho|done|split; [cbn; rewrite length_app; cbn; lia|apply (own_small _ _ _ HO x _ Ho)]|]. intros s1 HO1 Hv1 Ho1 Hoth1 Hm1. cbn in Ho1.
  apply wp_bind. eapply (wp_release s1 H (old ++ O) prev); [done|]. intros s2 [R1 R2 R3 R4 R5].
  eapply wp_mono; [|apply (IH s2 O (kept ++ [src]) new); [done|lia|rewrite length_app; cbn; lia|done|rewrite (R3 x Hx), Ho1, <- app_assoc; done]].
  intros [] s3 (I1 & I2 & I3 & I4 & I5). split; [done|]. split; [|split; [|split; [auto|by rewrite <- app_assoc in I5]]].
  - intros y t Hy Hd. apply I2; [done|]. apply R2; [apply elem_of_app; by right|]. by rewrite Hv1.
  - intros h Hh Hne. rewrite I3, R3, Hoth1 by done. done.
Qed.

Lemma same_size d val : same_type d val = true -> payload_size d = payload_size val -> length (proots d) = length (proots val).
Proof. destruct d, val; cbn; try done. lia. Qed.

(** [modify_value]: the only reference to the value node [x] is owned. *)
Lemma wp_modify s H O x k d val (Q : unit -> store -> Prop) : owns s H (x :: proots val ++ O) -> view s H !! x = Some (Value k d) -> rc s x = 1 -> same_type d val = true -> payload_size d = payload_size val ->
  (forall s', owns s' H (x :: O) -> same_trees s s' H O -> keeps s s' H -> (forall m, room m s -> room m s') -> view s' H !! x = Some (Value k val) -> rc s' x = 1 -> Q tt s') -> wp (modify_value x k d val) s Q.
Proof.
  intros HO Hx Hrc Hty Hsz HQ. destruct (view_object s H _ x _ HO Hx) as (o & Ho & En & Hx0 & HxH). assert (Hr : ref o = 1) by (unfold rc in Hrc; by rewrite Ho in Hrc).
  destruct (owns_open s H _ x o HO Hx0 Ho Hr) as (HO1 & Hv1 & Hrefs & HxO & _). rewrite En, refs_value in HO1. assert (HxO' : x ∉ O) by (intros Hin; apply HxO, elem_of_app; by right).
  pose proof (own_small _ _ _ HO x o Ho) as [Hsm Hkl]. rewrite En, refs_value in Hsm. rewrite En in Hkl. pose proof (same_size d val Hty Hsz) as Hlen. assert (HxH1 : x ∈ {[x]} ∪ H) by (apply held_in; by left).
  assert (Hend : wp (modify_value x k d val) s (fun _ s' => owns s' ({[x]} ∪ H) (proots val ++ O) /\ same_trees s s' ({[x]} ∪ H) (proots val ++ O) /\ (forall h, h ∈ {[x]} ∪ H -> h <> x -> objects s' !! h = objects s !! h) /\
    (forall m, room m s -> room m s') /\ objects s' !! x = Some {| ref := 1; obj := Value k val |})).
  { destruct d as [data|old], val as [data'|new]; cbn [modify_value same_type proots app] in *; try done.
    - eapply (wp_set_held s ({[x]} ∪ H)); [exact HO1|exact Ho|done|split; [cbn; lia|exact Hkl]|]. intros s' H1 H2 H3 H4 H5. rewrite Hr in H3. split; [done|]. split; [by apply same_trees_eq|]. by split; [auto|].
    - eapply wp_modify_roots; [done|done|cbn; lia|exact HO1|]. destruct o; cbn in *; by subst. }
  eapply wp_mono; [|exact Hend]. intros [] s' (E1 & E2 & E3 & E4 & E5). clear Hend.
  destruct (owns_close s' H O x {| ref := 1; obj := Value k val |}) as (C1 & C2 & C3); [cbn [obj]; by rewrite refs_value|done|done|]. apply HQ; [done| | |done|by rewrite C2, lookup_insert_eq|unfold rc; by rewrite E5].
  - eapply reopen_trees; [done..| |done|done]. eapply same_trees_sub; [|exact E2]. intros y Hy. apply elem_of_app. by right.
  - intros h Hh. apply E3; [apply held_in; by right|by intros ->].
Qed.

(** [ring().release]: the references of an object that is freed are not released. *)
Lemma wp_ring_release s H O x k d (Q : bool -> store -> Prop) : owns s H (x :: O) -> view s H !! x = Some (Value k d) ->
  (forall b s' L, owns s' H (L ++ O) -> same_trees s s' H O -> keeps s s' H -> (forall m, room m s -> room m s') -> (L = [] \/ L = proots d) -> Q b s') -> wp (ring_release x) s Q.
Proof.
  intros HO Hx HQ. destruct (view_object s H _ x _ HO Hx) as (o & Ho & En & Hx0 & HxH). pose proof (own_pos _ _ _ HO x o Ho) as Hpos.
  apply wp_bind. eapply wp_get; [exact Ho|]. destruct (ref o - 1 =? 0) eqn:Er; zbool.
  - destruct (owns_free s H O x o HO Hx0 Ho ltac:(lia)) as (HO' & Hview & Hrefs & HxO & _). rewrite En, refs_value in HO'. apply wp_bind, wp_free, wp_ret. apply (HQ _ _ (proots d)); [done| | | |by right].
    + intros y t Hy Hd. rewrite Hview. apply den_delete; try done. by intros ->.
    + intros h Hh. cbn. by rewrite lookup_delete_ne by (by intros ->).
    + intros m [Hm1 Hm2]. split; [done|]. intros y o' Hy. cbn in Hy. apply lookup_delete_Some in Hy as [_ Hy]. by apply (Hm2 y).
  - apply wp_bind, wp_write, wp_ret. apply (HQ _ _ []); [|apply same_trees_mono; by rewrite (view_same_node s H x o (ref o - 1) Ho)| | |by left].
    + apply (owns_recount s H (x :: O)); [done..|lia|]. intros y Hy. rewrite cnt_cons. cbn [app]. destruct (N.eq_dec x y), (decide (y = x)); subst; try done; lia.
    + intros h Hh. cbn. by rewrite lookup_insert_ne by (by intros ->).
    + intros m [Hm1 Hm2]. split; [done|]. intros y o'. cbn. destruct (decide (y = x)) as [->|Hne]; [rewrite lookup_insert_eq; intros [= <-]; specialize (Hm2 x o Ho); cbn; lia|rewrite lookup_insert_ne by done; apply Hm2].
Qed.

(** A new value node for the inner node [x], which is held. *)
Lemma wp_replace s H O x o k vi cs val m (Q : id -> store -> Prop) : owns s H (proots val ++ O) -> x ∈ H -> objects s !! x = Some o -> obj o = Inner k vi cs -> (length cs <= 64)%nat -> (length (proots val) <= 65)%nat -> room m s ->
  (forall nv s', owns s' H (nv :: O) -> same_trees s s' H O -> (forall h, h ∈ H -> h <> x -> objects s' !! h = objects s !! h) -> room m s' ->
     objects s' !! x = Some {| ref := ref o; obj := Inner k nv cs |} -> view s' H !! nv = Some (Value [] val) -> Q x s') ->
  wp (val_id ← alloc (Value [] val); '(k, _, cs) ← get_inner x; set_node x (Inner k val_id cs) ;; mret x) s Q.
Proof.
  intros HO HxH Ho En Hcs Hval Hm HQ. apply wp_bind. pose proof (own_small _ _ _ HO x o Ho) as [_ Hkl]. rewrite En in Hkl.
  eapply (wp_make s H O _ m); [by rewrite refs_value|split; [by rewrite refs_value|cbn; lia]|done|]. intros nv s1 M. assert (Ho1 : objects s1 !! x = Some o) by (by rewrite (made_keeps _ _ _ _ _ _ _ M)).
  apply wp_bind. eapply wp_get_inner; [exact Ho1|exact En|]. cbn beta iota zeta. apply wp_bind. eapply (wp_set_held s1 H _ x o); [by destruct M|done|done|by apply small_inner|].
  intros s2 HO2 Hv2 Ho2 Hoth Hm2. apply wp_ret. eapply HQ; [exact HO2| | |apply Hm2; by destruct M|done|rewrite Hv2; by eapply made_node].
  - apply same_trees_mono. rewrite Hv2. by eapply made_mono.
  - intros h Hh Hne. rewrite Hoth by done. by apply (made_keeps _ _ _ _ _ _ _ M).
Qed.

Lemma wp_set_inner_unique s H O x k vi v cs val m (Q : id -> store -> Prop) :
  owns s H (x :: proots val ++ O) -> view s H !! x = Some (Inner k vi cs) -> rc s x = 1 -> slot (view s H) vi v -> (length cs <= 64)%nat -> (length (proots val) <= 65)%nat -> room m s ->
  (forall s' L nv, owns s' H (x :: L ++ O) -> same_trees s s' H (map snd cs ++ O) -> keeps s s' H -> room m s' -> view s' H !! x = Some (Inner k nv cs) -> view s' H !! nv = Some (Value [] val) ->
     ((forall ids, v <> Some (Roots ids)) -> L = []) -> Q x s') ->
  wp (set_inner_value x true val) s Q.
Proof.
  intros HO Hx Hrc Hv Hcs Hval Hm HQ. destruct (view_object s H _ x _ HO Hx) as (o & Ho & En & Hx0 & HxH). assert (Hr : ref o = 1) by (unfold rc in Hrc; by rewrite Ho in Hrc).
  destruct (owns_open s H _ x o HO Hx0 Ho Hr) as (HO1 & Hv1 & Hrefs & HxO & _). rewrite En in HO1. assert (HxH1 : x ∈ {[x]} ∪ H) by (apply held_in; by left).
  assert (Hxr : x ∉ references (Inner k vi cs)) by (intros Hin; pose proof (refs_elem _ _ _ _ Hx Hin); lia).
  assert (HxO' : x ∉ map snd cs ++ O) by (intros [Hin|Hin]%elem_of_app; [apply Hxr; by right|apply HxO, elem_of_app; by right]).
  assert (Hfin : forall nv L s', owns s' ({[x]} ∪ H) (nv :: map snd cs ++ L ++ O) -> same_trees s s' ({[x]} ∪ H) (map snd cs ++ O) -> (forall h, h ∈ {[x]} ∪ H -> h <> x -> objects s' !! h = objects s !! h) -> room m s' ->
     objects s' !! x = Some {| ref := 1; obj := Inner k nv cs |} -> view s' ({[x]} ∪ H) !! nv = Some (Value [] val) -> ((forall ids, v <> Some (Roots ids)) -> L = []) -> Q x s').
  { intros nv L s' F1 F2 F3 F4 F5 F6 F7. destruct (owns_close s' H (L ++ O) x {| ref := 1; obj := Inner k nv cs |} F1 F5 HxH) as (C1 & C2 & C3). cbn [obj] in C2.
    apply (HQ s' L nv); [done|by eapply reopen_trees| |done|by rewrite C2, lookup_insert_eq| |done].
    - intros h Hh. apply F3; [apply held_in; by right|by intros ->].
    - rewrite C2, lookup_insert_ne; [done|]. intros ->. congruence. }
  clear HQ. apply wp_bind. eapply wp_get_inner; [exact Ho|exact En|]. cbn beta iota zeta. destruct v as [d|]; cbn [slot] in Hv.
  - assert (Hvx : vi <> x) by (intros ->; apply Hxr; left). destruct (view_object s H _ vi _ HO Hv) as (ov & Hov & Env & Hv0 & _). rewrite (proj2 (N.eqb_neq _ _) Hv0).
    assert (Hv' : view s ({[x]} ∪ H) !! vi = Some (Value [] d)) by (rewrite Hv1; by rewrite lookup_delete_ne).
    assert (HO1' : owns s ({[x]} ∪ H) (vi :: proots val ++ map snd cs ++ O)) by (eapply owns_perm; [|exact HO1]; intros z _; cbn [references app]; rewrite !cnt_cons, !cnt_app; lia).
    apply wp_bind. eapply wp_get; [exact Hov|]. apply wp_bind. eapply wp_value_data; [exact HO1|exact Hv'|]. destruct (same_type d val && (payload_size d =? payload_size val) && (ref ov =? 1)) eqn:E.
    + apply andb_prop in E as [[Ety Esz]%andb_prop Erv]. zbool. apply wp_bind. eapply (wp_modify s ({[x]} ∪ H) (map snd cs ++ O) vi [] d val); [exact HO1'|exact Hv'|unfold rc; by rewrite Hov|done|done|].
      intros s' M1 M2 M3 M4 M5 M6. apply wp_ret. apply (Hfin vi [] s'); [done|done|intros h Hh _; by apply M3|by apply M4|rewrite M3, Ho by done; destruct o; cbn in *; by subst|done|done].
    + apply wp_bind. eapply (wp_ring_release s ({[x]} ∪ H) (proots val ++ map snd cs ++ O) vi [] d); [exact HO1'|exact Hv'|]. intros b s1 L R1 R2 R3 R4 R5.
      eapply (wp_replace s1 ({[x]} ∪ H) (map snd cs ++ L ++ O) x o k vi cs val m); [eapply owns_perm; [|exact R1]; intros z _; rewrite !cnt_app; lia|done|by rewrite R3|done|done|done|by apply R4|].
      intros nv s2 P1 P2 P3 P4 P5 P6. rewrite Hr in P5. apply (Hfin nv L s2); [done| | |done|done|done|].
      * intros y t Hy Hd. apply P2; [apply elem_of_app in Hy as [?|?]; rewrite !elem_of_app; auto|]. apply R2; [apply elem_of_app; by right|done].
      * intros h Hh Hne. rewrite P3, R3 by done. done.
      * intros Hno. destruct R5 as [->| ->]; [done|]. destruct d as [|ids]; [done|]. by destruct (Hno ids).
  - subst vi. cbn [N.eqb]. eapply (wp_replace s ({[x]} ∪ H) (map snd cs ++ O) x o k 0%N cs val m); [|done..|].
    { eapply owns_perm; [|exact HO1]. intros z Hz. cbn [references app]. rewrite !cnt_cons, !cnt_app. destruct (N.eq_dec 0 z); [congruence|]. lia. }
    intros nv s2 P1 P2 P3 P4 P5 P6. rewrite Hr in P5. by apply (Hfin nv [] s2).
Qed.

(** A branch is replaced by another tree; the other branches have the trees they had. *)
Definition others (b : Z) (cs : list (Z * id)) : list id := map snd (drop_bit b cs).
Lemma drop_bit_cons b b' i (cs : list (Z * id)) : drop_bit b ((b', i) :: cs) = if b' =? b then drop_bit b cs else (b', i) :: drop_bit b cs.
Proof. cbn. by destruct (b' =? b). Qed.
Lemma drop_bit_absent b (cs : list (Z * id)) : Forall (fun x => b < x) (map fst cs) -> drop_bit b cs = cs.
Proof. induction cs as [|[b' i] cs IH]; cbn [map fst]; [done|]. intros [H1 H2]%Forall_cons. cbn. rewrite (proj2 (Z.eqb_neq _ _)) by lia. cbn. f_equal. auto. Qed.
Lemma others_refs b c k v cs : ids_ok cs -> child_at b cs = Some c -> references (Inner k v cs) ≡ₚ c :: v :: others b cs.
Proof.
  unfold ids_ok, others. cbn [references]. intros Hok Hat. rewrite (Permutation_swap v c). apply Permutation_skip. revert Hok Hat. induction cs as [|[b' i] cs IH]; cbn [child_at map fst snd]; [done|].
  intros [Hs Hc] Hat. inversion Hs as [|? ? Hs' Hlt]; inversion Hc; subst. rewrite drop_bit_cons. destruct (b' =? b) eqn:E; zbool.
  - subst. injection Hat as <-. by rewrite (drop_bit_absent b cs).
  - cbn [map snd]. rewrite (Permutation_swap i c). apply Permutation_skip. by apply IH.
Qed.
Lemma put_child_others b c i k v cs : ids_ok cs -> child_at b cs = Some c -> references (Inner k v (put_child b i cs)) ≡ₚ i :: v :: others b cs.
Proof.
  intros Hcs Hat. apply (Permutation_app_inv_r [c]). rewrite (put_child_refs b c i k v cs Hcs Hat), (others_refs b c k v cs Hcs Hat). rewrite <- Permutation_cons_append. apply Permutation_swap.
Qed.
Lemma dens_replace h h' cs ts b c y t : ids_ok cs -> child_at b cs = Some c -> dens h cs ts -> (forall z u, z ∈ others b cs -> den h z u -> den h' z u) -> den h' y t -> dens h' (put_child b y cs) (set_branch b t ts).
Proof.
  unfold ids_ok, others, dens. intros Hok Hat Hd Hoth Hy. revert Hok Hat Hoth. induction Hd as [|[b1 c1] [b2 t2] cs ts [E Hd] H IH]; cbn [child_at map fst snd]; [done|]. cbn in E. subst b2.
  intros [Hs Hc] Hat Hoth. inversion Hs as [|? ? Hs' Hlt]; inversion Hc; subst. cbn [put_child set_branch]. rewrite drop_bit_cons in Hoth. destruct (b1 =? b) eqn:E; zbool.
  - subst. constructor; [done|]. rewrite drop_bit_absent in Hoth by done. eapply (dens_impl h); [|exact H]. intros z u Hin. apply Hoth. by eapply elem_of_zip_l.
  - rewrite Forall_forall in Hlt. pose proof (Hlt b (child_at_key b c cs Hat)). rewrite (proj2 (Z.ltb_ge _ _)) by lia. constructor; [split; [done|]; apply Hoth; [left|done]|]. apply IH; [done|done|]. intros z u Hz. apply Hoth. by right.
Qed.

(** The tree at [x] has become the tree at [y], in place or not; the other trees stay. *)
Record edited (s s' : store) (H : gset id) (O : list id) (m : nat) (x y : id) (L : list id) : Prop := {
  edited_owns : owns s' H ((if decide (y = x) then [x] else [y; x]) ++ L ++ O);
  edited_trees : same_trees s s' H O;
  edited_keeps : keeps s s' H;
  edited_room : room m s'
}.
Lemma grown_edited s s' H O m x y : grown s s' H (x :: O) m y -> live s H x -> edited s s' H O m x y [].
Proof.
  intros [G1 G2 G3 G4 G5] Hx. assert (y <> x) by (intros ->; destruct Hx as [?|[n Hn]]; congruence).
  constructor; [by rewrite decide_False|apply same_trees_mono; by destruct G2|by destruct G2|done].
Qed.

(** Where nothing can be changed in place, [unique] makes no difference. *)
Lemma add_not_unique fuel x key val s :
  (forall o, objects s !! x = Some o -> ref o = 1 -> match obj o with Value k _ => k <> key | Inner k _ cs => k <> key /\ (common_prefix key k = k -> child_at (at_ key (length k)) cs = None) end) ->
  store_add (S fuel) x true key val s = store_add (S fuel) x false key val s.
Proof.
  intros Hno. cbn [store_add]. destruct (x =? 0)%N; [done|]. assert (Hbind : forall f g : object -> st (id * Z), (forall o, objects s !! x = Some o -> f o s = g o s) -> (get_by_id x ≫= f) s = (get_by_id x ≫= g) s).
  { intros f g Hfg. unfold mbind, st_bind, get_by_id. destruct (objects s !! x); auto. }
  apply Hbind. intros o Ho. specialize (Hno o Ho). cbn [andb].
  destruct (ref o =? 1) eqn:Er; [zbool; specialize (Hno Er)|done]. destruct (obj o) as [k d|k v cs]; [by rewrite bool_decide_false|]. destruct Hno as [Hk Hc]. rewrite bool_decide_false by done.
  destruct (bool_decide_reflect (common_prefix key k = k)) as [Ek|]; [|done]. rewrite Ek, (Hc Ek). done.
Qed.

Definition add_result (s s' : store) (H : gset id) (O : list id) (m : nat) (x : id) (t : trie payload) (key : list Z) (val : payload) (p : id * Z) : Prop :=
  exists L, edited s s' H O m x p.1 L /\ den (view s' H) p.1 (add_child payload_size t key val).1 /\ p.2 = (add_child payload_size t key val).2 /\ ((forall ids, unguarded_get t key <> Some (Roots ids)) -> L = []).

(** The child of an inner node that is held was updated. *)
Lemma wp_swap_unique s s1 H O x o k vi v cs ts b c nb t L m old (Q : id * Z -> store -> Prop) :
  objects s !! x = Some o -> obj o = Inner k vi cs -> ref o = 1 -> x <> 0%N -> x ∉ H -> x ∉ O -> x ∉ references (Inner k vi cs) -> refs (view s H) x = 0%nat -> view s ({[x]} ∪ H) = delete x (view s H) ->
  ids_ok cs -> child_at b cs = Some c -> slot (view s H) vi v -> dens (view s H) cs ts ->
  edited s s1 ({[x]} ∪ H) (vi :: others b cs ++ O) m c nb L -> den (view s1 ({[x]} ∪ H)) nb t ->
  (forall s', edited s s' H O m x x L -> den (view s' H) x (inner_node k v (set_branch b t ts)) -> Q (x, old) s') ->
  wp ((if (nb =? c)%N then mret tt else set_child x b nb ;; release c) ;; mret (x, old)) s1 Q.
Proof.
  intros Ho En Hr Hx0 HxH HxO Hxr Hrefs Hview Hcs Hat Hv Hd [E1 E2 E3 E4] Hnb HQ. assert (HxH1 : x ∈ {[x]} ∪ H) by (apply held_in; by left). pose proof (E3 x HxH1) as Ho1. rewrite Ho in Ho1.
  pose proof (others_refs b c k vi cs Hcs Hat) as Hperm. pose proof (ids_small cs Hcs) as Hsm.
  assert (Hfin : forall s', owns s' ({[x]} ∪ H) (nb :: L ++ vi :: others b cs ++ O) -> same_trees s1 s' ({[x]} ∪ H) (nb :: vi :: others b cs ++ O) -> keeps s1 s' H -> room m s' ->
     objects s' !! x = Some {| ref := 1; obj := Inner k vi (put_child b nb cs) |} -> Q (x, old) s').
  { intros s' F1 F2 F3 F4 F5. pose proof (put_child_others b c nb k vi cs Hcs Hat) as Hput'.
    destruct (owns_close s' H (L ++ O) x {| ref := 1; obj := Inner k vi (put_child b nb cs) |}) as (C1 & C2 & C3); [|done|done|].
    { eapply owns_perm; [|exact F1]. intros z _. cbn [obj]. rewrite !cnt_app, (cnt_perm z _ _ Hput'), !cnt_cons, !cnt_app, !cnt_cons, !cnt_app. lia. }
    cbn [obj] in C2. assert (Hsame : same_trees s s' H (vi :: others b cs ++ O)).
    { eapply reopen_trees; [done|done| |exact Hview| |exact C2|exact C3].
      - intros Hin. apply elem_of_cons in Hin as [->|[Hin|?]%elem_of_app]; [apply Hxr; left| |done]. apply Hxr. rewrite Hperm. right. by right.
      - intros y u Hy Hd'. apply F2; [by right|]. by apply E2. }
    apply HQ.
    - constructor; [by rewrite decide_True|eapply same_trees_sub; [|exact Hsame]; intros y Hy; right; apply elem_of_app; by right| |done].
      intros h Hh. rewrite F3 by done. apply E3, held_in. by right.
    - apply den_inner. exists vi, (put_child b nb cs). split; [by rewrite C2, lookup_insert_eq|]. split.
      + destruct v as [d|]; [|done]. change (den (view s' H) vi (value_node [] d)). apply Hsame; [left|done].
      + eapply dens_replace; [done|done|exact Hd| |].
        * intros z u Hz Hdz. apply Hsame; [right; apply elem_of_app; by left|done].
        * rewrite C2. eapply den_mono; [by apply insert_subseteq|]. apply F2; [left|done]. }
  clear HQ. destruct (nb =? c)%N eqn:Enb; zbool.
  - apply N.eqb_eq in Enb as ->. apply wp_bind, wp_ret, wp_ret. apply Hfin; [|by apply same_trees_eq|done|done|].
    + rewrite decide_True in E1 by done. eapply owns_perm; [|exact E1]. intros z _. done.
    + rewrite Ho1. destruct o as [r0 n0]. cbn in *. subst. destruct (put_child_at b c c cs Hcs Hat) as (l & r & Ec & ->). by rewrite <- Ec.
  - apply N.eqb_neq in Enb. rewrite decide_False in E1 by done. apply wp_bind, wp_bind. apply wp_bind. eapply wp_get_inner; [exact Ho1|exact En|]. cbn beta iota zeta.
    eapply (wp_set_held s1 ({[x]} ∪ H)); [exact E1|exact Ho1|done| |].
    { pose proof (own_small _ _ _ E1 x o Ho1) as [_ Hkl]. rewrite En in Hkl. apply small_inner; [by rewrite (put_child_length b c)|exact Hkl]. }
    intros s2 HO2 Hv2 Ho2 Hoth2 Hm2. rewrite Hr in Ho2.
    eapply (wp_release s2 ({[x]} ∪ H) (nb :: L ++ vi :: others b cs ++ O) c); [eapply owns_perm; [|exact HO2]; intros z _; cbn [app]; rewrite !cnt_cons; lia|]. intros s3 [R1 R2 R3 R4 R5].
    apply wp_ret, Hfin; [done| | |by apply R4, Hm2|by rewrite R3].
    + intros y u Hy Hdy. apply R2; [|by rewrite Hv2]. apply elem_of_cons in Hy as [->|Hy]; [left|]. right. apply elem_of_app. by right.
    + intros h Hh. rewrite R3 by (apply held_in; by right). apply Hoth2. by intros ->.
Qed.

Lemma add_fallback fuel s H O x t key val m :
  owns s H (x :: proots val ++ O) -> den (view s H) x t -> trie_ok t -> key6_ok key -> small (Value key val) -> (length key < S fuel)%nat -> room (65 * S fuel + m) s ->
  (forall o, objects s !! x = Some o -> ref o = 1 -> match obj o with Value k _ => k <> key | Inner k _ cs => k <> key /\ (common_prefix key k = k -> child_at (at_ key (length k)) cs = None) end) ->
  wp (store_add (S fuel) x true key val) s (fun p s' => add_result s s' H O m x t key val p).
Proof.
  intros HO Hd Hok Hkey Hval Hf Hm Hno. unfold wp. rewrite add_not_unique by done.
  assert (HO' : owns s H (proots val ++ x :: O)) by (eapply owns_perm; [|exact HO]; intros z _; apply cnt_perm, Permutation_middle).
  eapply wp_mono; [|eapply (add_shared (S fuel) s H (x :: O) x (Some t) key val m); done]. intros [y old] s' (G & Hdy & Eold). exists []. split; [|done].
  apply grown_edited; [done|by eapply live_den].
Qed.

(** A value node with the key: its data is changed, or there is a new node. *)
Lemma wp_set_value s H O x o d key val m :
  owns s H (x :: proots val ++ O) -> view s H !! x = Some (Value key d) -> objects s !! x = Some o -> ref o = 1 -> small (Value key val) -> room m s ->
  wp (i ← set_value x d true key val; mret (i, payload_size d)) s (fun p s' => add_result s s' H O m x (value_node key d) key val p).
Proof.
  intros HO Hd Ho Hr Hval Hm. apply wp_bind. unfold set_value. cbn [negb orb].
  assert (Hpost : forall y s', edited s s' H O m x y [] -> view s' H !! y = Some (Value key val) -> add_result s s' H O m x (value_node key d) key val (y, payload_size d)).
  { intros y s' He Hy. exists []. cbn [fst snd add_child]. rewrite keq_refl. cbn [negb fst snd]. done. }
  assert (Halloc : wp (alloc (Value key val)) s (fun y s' => wp (mret (y, payload_size d)) s' (fun p s' => add_result s s' H O m x (value_node key d) key val p))).
  { eapply (wp_make s H (x :: O) _ m); [eapply owns_perm; [|exact HO]; intros z _; rewrite refs_value; apply cnt_perm, Permutation_middle|done|done|].
    intros y s' M. apply wp_ret. apply (Hpost y s'); [|by eapply made_node]. apply grown_edited; [by eapply grown_made; [apply later_refl|]|by eapply (live_den _ _ _ (value_node key d))]. }
  destruct (same_type d val) eqn:Ety; cbn [negb]; [|done]. destruct (payload_size d =? payload_size val) eqn:Esz; [zbool|done].
  apply wp_bind. eapply (wp_modify s H O x key d val); [done|done|unfold rc; by rewrite Ho|done|done|]. intros s' M1 M2 M3 M4 M5 M6. apply wp_ret, wp_ret. apply (Hpost x s'); [|done].
  constructor; [by rewrite decide_True|done|done|by apply M4].
Qed.

Lemma add_unique fuel : forall s H O x t key val m,
  owns s H (x :: proots val ++ O) -> den (view s H) x t -> trie_ok t -> key6_ok key -> small (Value key val) -> (length key < fuel)%nat -> room (65 * fuel + m) s ->
  wp (store_add fuel x true key val) s (fun p s' => add_result s s' H O m x t key val p).
Proof.
  induction fuel as [|fuel IH]; intros s H O x t key val m HO Hd Hok Hkey Hval Hf Hm; [lia|].
  pose proof (add_fallback fuel s H O x t key val m HO Hd Hok Hkey Hval Hf Hm) as Hback. destruct (den_nonnull s H _ x t HO Hd) as (Hx0 & [o Ho] & HxH).
  destruct (decide (ref o = 1)) as [Hr|Hr]; [|apply Hback; intros o' Ho' Hr'; congruence]. apply room_split in Hm as [Hm Hm1].
  assert (Hno : forall P : object -> Prop, P o -> forall o', objects s !! x = Some o' -> ref o' = 1 -> P o') by (intros P HP o' Ho' _; congruence).
  assert (Hrc : rc s x = 1) by (unfold rc; by rewrite Ho). destruct t as [k d|k v ts].
  - apply den_value in Hd. destruct (proj1 (view_lookup _ _ _ _) Hd) as (o' & Ho' & En & _). assert (o' = o) as -> by congruence. destruct (decide (k = key)) as [->|Hne]; [|apply Hback, Hno; by rewrite En].
    clear Hback. cbn [store_add]. rewrite (proj2 (N.eqb_neq _ _) Hx0). apply wp_bind. eapply wp_get; [exact Ho|]. rewrite En, Hr, keq_refl. cbn [andb negb Z.eqb Pos.eqb].
    eapply wp_set_value; [done..|]. eapply room_le; [|exact Hm1]. lia.
  - pose proof Hd as Hd0. apply den_inner in Hd as (vi & cs & Hx & Hv & Hd). destruct (proj1 (view_lookup _ _ _ _) Hx) as (o' & Ho' & En & _). assert (o' = o) as -> by congruence.
    destruct (ok_inner_inv _ _ _ Hok) as (Hk & Hbs & _ & Hts). pose proof (dens_ok _ _ _ Hd Hbs) as Hcs. pose proof (ids_small cs Hcs) as Hsm. lies_cases key k.
    + clear Hback. cbn [store_add]. rewrite (proj2 (N.eqb_neq _ _) Hx0). apply wp_bind. eapply wp_get; [exact Ho|]. rewrite En, Hr, keq_refl. cbn [andb Z.eqb Pos.eqb]. apply wp_bind. eapply slot_size; [done..|].
      apply wp_bind. eapply (wp_set_inner_unique s H O x k vi v cs val m); [done..|destruct Hval as [Hpv _]; by rewrite refs_value in Hpv|by eapply room_le; [|exact Hm1]; lia|]. intros s' L nv S1 S2 S3 S4 S5 S6 S7. apply wp_ret. exists L. cbn [fst snd].
      rewrite add_at, add_size, get_at. split; [|split; [|done]].
      * constructor; [by rewrite decide_True|eapply same_trees_sub; [|exact S2]; intros y Hy; apply elem_of_app; by right|done|done].
      * apply den_inner. exists nv, cs. split; [done|]. split; [done|]. eapply (dens_impl (view s H)); [|exact Hd]. intros c u Hin Hdc. apply S2; [|done]. apply elem_of_app. left. by eapply elem_of_zip_l.
    + pose proof (dens_at _ _ _ b Hd) as Hat. destruct (child_at b cs) as [c|] eqn:Ec.
      2:{ apply Hback, Hno. rewrite En. split; [apply at_below|]. intros _. by rewrite at_app. }
      clear Hback. destruct Hat as (u & Eu & Hdu). apply key6_app in Hkey as (_ & Hb & Hrk).
      destruct (owns_open s H _ x o HO Hx0 Ho Hr) as (HO1 & Hv1 & Hrefs & HxO & _). rewrite En in HO1. assert (Hxr : x ∉ references (Inner k vi cs)) by (intros Hin; pose proof (refs_elem _ _ _ _ Hx Hin); lia).
      pose proof (others_refs b c k vi cs Hcs Ec) as Hperm. assert (Hcx : c <> x) by (intros ->; apply Hxr; rewrite Hperm; left). assert (HxO' : x ∉ O) by (intros Hin; apply HxO, elem_of_app; by right).
      cbn [store_add]. rewrite (proj2 (N.eqb_neq _ _) Hx0). apply wp_bind. eapply wp_get; [exact Ho|]. rewrite En, Hr. cbn [andb Z.eqb Pos.eqb].
      rewrite bool_decide_false, common_prefix_left, keq_refl, at_app, drop_app_S by apply at_below. rewrite Ec. cbv zeta.
      apply wp_bind. eapply wp_mono; [|eapply (IH s ({[x]} ∪ H) (vi :: others b cs ++ O) c u r val m)].
      * intros [nb old] s1 (L & He & Hnb & Eold & HL). cbn [fst snd] in *. cbn beta iota. eapply (wp_swap_unique s s1 H O x o k vi v cs ts b c nb); [done..|]. intros s' He' Hden. exists L. cbn [fst snd].
        rewrite add_below, add_size, get_below, Eu. split; [done|]. split; [done|]. split; [by rewrite Eold, add_size|done].
      * eapply owns_perm; [|exact HO1]. intros z _. rewrite !cnt_app, (cnt_perm z _ _ Hperm), !cnt_cons, !cnt_app, !cnt_cons, !cnt_app. lia.
      * rewrite Hv1. by apply den_delete.
      * apply maybe_branch_elem in Eu. rewrite Forall_forall in Hts. by apply (Hts _ Eu).
      * done.
      * eapply small_part; [exact Hval|rewrite length_app; cbn; lia|done].
      * rewrite length_app in Hf. cbn in Hf. lia.
      * eapply room_le; [|exact Hm]. lia.
    + apply Hback, Hno. rewrite En. split; [apply below_at|]. rewrite common_prefix_right. intros E. by apply at_below in E.
    + apply Hback, Hno. rewrite En. split; [by apply not_eq_sym, fork_neq|]. rewrite common_prefix_fork by done. intros E. by apply at_below in E.
Qed.
