(* ===== verification/TrieRemove.v ===== *)
(** * triedent: [remove_child] on the store

    As [TrieAdd], for removals.  A key that is not there leaves the store as it is
    ([remove_absent]).  A removal can give a node a longer key: it has a part of a
    key of the map, so its size fits where the keys of the map are [short]. *)

From S2P Require Import Prelude Ordered Key6 NodeBits Trie TrieLaws TrieOrder TrieMap TrieStore TrieOwn TrieSteps TrieAdd.

(** ** Keys that are not there *)

Lemma remove_absent fuel : forall s H O x t (u : bool) key (Q : id * Z -> store -> Prop),
  owns s H O -> den (view s H) x t -> unguarded_get t key = None -> (length key < fuel)%nat -> Q (x, -1) s -> wp (store_remove fuel x u key) s Q.
Proof.
  induction fuel as [|fuel IH]; intros s H O x t u key Q HO Hd Hno Hf HQ; [lia|]. cbn [store_remove]. destruct (den_nonnull s H _ x t HO Hd) as (Hx0 & _ & _). rewrite (proj2 (N.eqb_neq _ _) Hx0).
  apply wp_bind. destruct t as [k d|k v ts].
  - rewrite get_value in Hno. apply den_value in Hd. eapply wp_get_view; [done..|]. intros o Ho En. rewrite En. case_bool_decide; [done|]. by apply wp_ret.
  - apply den_inner in Hd as (vi & cs & Hx & Hv & Hd). eapply wp_get_view; [done..|]. intros o Ho En. rewrite En. destruct (length key <? length k)%nat eqn:El; [by apply wp_ret|]. zbool. lies_cases key k.
    + rewrite get_at in Hno. subst v. cbn in Hv. subst vi. rewrite keq_refl. by apply wp_ret.
    + rewrite get_below in Hno. rewrite bool_decide_false, common_prefix_right, keq_refl, at_app, drop_app_S by apply at_below. cbn [negb]. pose proof (dens_at _ _ _ b Hd) as Hat.
      destruct (child_at b cs) as [c|]; [|by apply wp_ret]. destruct Hat as (w & Ew & Hdw). rewrite Ew in Hno. apply wp_bind. eapply (IH s H O c w); [done..|rewrite length_app in Hf; cbn in Hf; lia|].
      cbn beta iota. rewrite N.eqb_refl. by apply wp_ret.
    + rewrite length_app in El. cbn in El. lia.
    + rewrite bool_decide_false by (by apply not_eq_sym, fork_neq). rewrite common_prefix_fork, bool_decide_false by (congruence || apply at_below). by apply wp_ret.
Qed.

(** ** Trees that are shared *)

(** A new tree at [y], or none. *)
Record regrown (s s' : store) (H : gset id) (O : list id) (m : nat) (y : id) (r : option (trie payload)) : Prop := {
  regrown_owns : owns s' H (y :: O);
  regrown_later : later s s' H;
  regrown_fresh : match r with Some _ => view s H !! y = None | None => y = 0%N end;
  regrown_room : room m s';
  regrown_den : den_root (view s' H) y r
}.
Lemma grown_regrown s s' H O m y t : grown s s' H O m y -> den (view s' H) y t -> regrown s s' H O m y (Some t).
Proof. intros [] Hd. by constructor. Qed.

(** A copy with a longer key. *)
Lemma wp_clone_longer s H O p c t m (Q : id -> store -> Prop) : owns s H O -> den (view s H) c t -> trie_ok t -> (length p + length (root_key t) <= max_key_size)%nat -> room (65 + m) s ->
  (forall i s', grown s s' H O m i -> den (view s' H) i (with_prefix p t) -> Q i s') -> wp (clone_longer p c) s Q.
Proof.
  intros HO Hd Hok Hl Hm HQ. rewrite <- length_app in Hl. apply wp_bind. destruct t as [k d|k v ts]; cbn [root_key] in Hl.
  - apply den_value in Hd. eapply wp_get_view; [done..|]. intros o Ho En. rewrite En. pose proof (view_small _ _ _ _ _ HO Hd) as [Hsm _]. pose proof (live_refs s H _ c _ HO Hd) as Hlv. rewrite refs_value in Hlv.
    eapply wp_clone_value; [exact HO|done|by apply small_value|exact Hm|]. intros i s' M. apply HQ; [by eapply grown_made; [apply later_refl|]|]. cbn. by eapply made_node.
  - apply den_inner in Hd as (vi & cs & Hx & Hv & Hd). destruct (ok_inner_inv _ _ _ Hok) as (_ & Hbs & _ & _). eapply wp_get_view; [done..|]. intros o Ho En. rewrite En.
    eapply wp_clone_inner; [exact HO|exact (live_refs s H _ c _ HO Hx)|apply small_inner; [by eapply dens_small|done]|exact Hm|]. intros i s' M. apply HQ; [by eapply grown_made; [apply later_refl|]|].
    apply den_inner. pose proof (made_mono _ _ _ _ _ _ _ M). eexists _, _. split; [by eapply made_node|]. split; [by eapply slot_mono|by eapply dens_mono].
Qed.

Lemma branch_first {V} b (t : trie V) bs : maybe_branch b ((b, t) :: bs) = Some t.
Proof. unfold maybe_branch. cbn. by rewrite Z.eqb_refl. Qed.

(** [x] without its value, where that leaves something to do. *)
Lemma wp_clear_shared s H O x k vi v cs ts m (Q : id -> store -> Prop) : owns s H O -> view s H !! x = Some (Inner k vi cs) -> dens (view s H) cs ts -> trie_ok (inner_node k v ts) -> short (inner_node k v ts) -> room (65 + m) s -> ts <> [] ->
  (forall i s', grown s s' H O m i -> den (view s' H) i (compressed k None ts) -> Q i s') ->
  wp (match cs with [(b, c)] => clone_longer (k ++ [b]) c | _ => clone_inner k 0%N cs end) s Q.
Proof.
  intros HO Hx Hd Hok Hsh Hm Hne HQ. destruct (ok_inner_inv _ _ _ Hok) as (_ & Hbs & _ & Hts). pose proof (view_small _ _ _ _ _ HO Hx) as Hsm. pose proof (live_refs s H _ x _ HO Hx) as Hl. apply Forall_cons in Hl as [_ Hl].
  assert (Hinner : compressed k None ts = inner_node k None ts -> wp (clone_inner k 0%N cs) s Q).
  { intros E. eapply wp_clone_inner; [exact HO|constructor; [by left|done]|eapply small_node; [exact Hsm|by eapply dens_ok]|exact Hm|]. intros i s' M. apply HQ; [by eapply grown_made; [apply later_refl|]|]. rewrite E.
    apply den_inner. eexists _, _. split; [by eapply made_node|]. split; [done|]. eapply dens_mono; [by eapply made_mono|done]. }
  destruct Hd as [|[b c] [b' t] cs ts [E Hc] Hd]; [done|]. cbn in E. subst b'. destruct Hd as [|p q cs ts Hp Hd]; [|by apply Hinner].
  apply Forall_cons in Hts as [Ht _]. eapply wp_clone_longer; [exact HO|exact Hc|exact Ht|eapply short_longer; [exact Ht|exact Hsh|apply branch_first]|exact Hm|]. exact HQ.
Qed.

(** [x] without the branch [b]. *)
Lemma wp_drop s H O x k vi v cs ts b m (sz : Z) (Q : id * Z -> store -> Prop) :
  owns s H O -> view s H !! x = Some (Inner k vi cs) -> slot (view s H) vi v -> dens (view s H) (drop_bit b cs) (drop_branch b ts) -> branches_ok ts -> Forall (fun p => trie_ok p.2) ts -> short (inner_node k v ts) ->
  (1 <= length (drop_branch b ts) + has_value v)%nat -> room (65 + m) s ->
  (forall i s', grown s s' H O m i -> den (view s' H) i (compressed k v (drop_branch b ts)) -> Q (i, sz) s') ->
  wp (match drop_bit b cs, (vi =? 0)%N with
      | [], _ => d ← value_data vi; i ← clone_value k d; mret (i, sz)
      | [(lb, last_branch)], true => i ← clone_longer (k ++ [lb]) last_branch; mret (i, sz)
      | new_branches, _ => i ← clone_inner k vi new_branches; mret (i, sz)
      end) s Q.
Proof.
  intros HO Hx Hv Hd Hbs Hts Hsh Hlen Hm HQ. pose proof (live_refs s H _ x _ HO Hx) as Hl. apply Forall_cons in Hl as [Hlv Hl]. pose proof (view_small _ _ _ _ _ HO Hx) as Hsm.
  assert (Hlong : Forall (fun p => length (k ++ [p.1]) + length (root_key p.2) <= max_key_size)%nat (drop_branch b ts)).
  { rewrite Forall_forall in Hts |- *. intros [lb t] [Hin _]%list_elem_of_In%filter_In. apply list_elem_of_In in Hin. apply (short_longer k v ts); [apply (Hts _ Hin)|done|by apply maybe_branch_in]. }
  apply (drop_branch_ok b) in Hbs. apply (drop_branch_Forall _ b) in Hts.
  assert (Hl' : Forall (live s H) (map snd (drop_bit b cs))).
  { rewrite Forall_forall in Hl |- *. intros z Hz. apply Hl. apply list_elem_of_fmap in Hz as ([b' z'] & -> & Hz). apply list_elem_of_fmap. exists (b', z'). split; [done|]. apply list_elem_of_In. apply list_elem_of_In, filter_In in Hz. by destruct Hz. }
  assert (Hinner : compressed k v (drop_branch b ts) = inner_node k v (drop_branch b ts) -> wp (i ← clone_inner k vi (drop_bit b cs); mret (i, sz)) s Q).
  { intros E. apply wp_bind. eapply wp_clone_inner; [exact HO|constructor; done|eapply small_node; [exact Hsm|by eapply dens_ok]|exact Hm|]. intros i s' M. apply wp_ret, HQ; [by eapply grown_made; [apply later_refl|]|]. rewrite E.
    pose proof (made_mono _ _ _ _ _ _ _ M). apply den_inner. eexists _, _. split; [by eapply made_node|]. split; [by eapply slot_mono|by eapply dens_mono]. }
  revert Hd Hinner Hl' Hlen Hbs Hts Hlong HQ. generalize (drop_bit b cs) (drop_branch b ts). intros cs' ts' Hd Hinner _ Hlen _ Hts Hlong HQ. destruct Hd as [|[lb c] [lb' t] cs' ts' [E Hc] Hd].
  - destruct v as [d|]; cbn in Hlen; [|lia]. cbn in Hv. apply wp_bind. eapply wp_value_data; [done..|]. apply wp_bind. destruct (view_object s H _ vi _ HO Hv) as (o & Ho & En & _).
    pose proof (view_small _ _ _ _ _ HO Hv) as [Hsv _]. pose proof (live_refs s H _ vi _ HO Hv) as Hlr. rewrite refs_value in Hlr.
    eapply wp_clone_value; [exact HO|done|apply small_value; [done|apply Hsm]|exact Hm|]. intros i s' M. apply wp_ret, HQ; [by eapply grown_made; [apply later_refl|]|]. cbn. by eapply made_node.
  - cbn in E. subst lb'. destruct Hd as [|p q cs' ts' Hp Hd]; [|by apply Hinner]. destruct v as [d|]; cbn in Hv.
    + destruct (view_object s H _ vi _ HO Hv) as (_ & _ & _ & Hn & _). rewrite (proj2 (N.eqb_neq _ _) Hn) in *. by apply Hinner.
    + subst vi. cbn [N.eqb]. apply Forall_cons in Hts as [Ht _]. apply Forall_cons in Hlong as [Hlong _]. apply wp_bind. eapply wp_clone_longer; [exact HO|exact Hc|exact Ht|exact Hlong|exact Hm|]. intros i s' G Hdi. by apply wp_ret, HQ.
Qed.

(** A copy of [x] with another child at [b]: the copy gives up its reference to the old one first. *)
Lemma wp_put_shared s H O x k v cs b c nb m (sz : Z) (Q : id * Z -> store -> Prop) :
  owns s H (nb :: O) -> view s H !! x = Some (Inner k v cs) -> ids_ok cs -> child_at b cs = Some c -> room (65 + m) s ->
  (forall i s', grown s s' H O m i -> view s' H !! i = Some (Inner k v (put_child b nb cs)) -> Q (i, sz) s') ->
  wp (new_root ← clone_inner k v cs; '(_, _, new_cs) ← get_inner new_root; release (default 0%N (child_at b new_cs)) ;; set_child new_root b nb ;; mret (new_root, sz)) s Q.
Proof.
  intros HO Hx Hcs Hat Hm HQ. pose proof (view_small _ _ _ _ _ HO Hx) as Hnode. apply wp_bind. eapply (wp_clone_inner s H (nb :: O) k v cs m); [done|exact (live_refs s H _ x _ HO Hx)|exact Hnode|done|]. intros i s1 M.
  pose proof (made_node _ _ _ _ _ _ _ M) as Hi. pose proof (later_node _ _ _ _ _ (made_later _ _ _ _ _ _ _ M) Hx) as Hx1. assert (Hxi : x <> i) by (intros ->; rewrite (made_fresh _ _ _ _ _ _ _ M) in Hx; done).
  apply wp_bind. eapply wp_view_inner; [by destruct M|exact Hi|]. cbn beta iota zeta. rewrite Hat. cbn [default].
  destruct M as [M1 M2 M3 M4 M4' M5 M6]. destruct (view_object s1 H _ i _ M1 Hi) as (o & Ho & En & _ & HiH). assert (Hr : ref o = 1) by (unfold rc in M4'; by rewrite Ho in M4').
  destruct (owns_open s1 H _ i o M1 M4 Ho Hr) as (HO1 & Hv1 & _ & _ & _). rewrite En in HO1. pose proof (others_refs b c k v cs Hcs Hat) as Hperm. assert (HiH1 : i ∈ {[i]} ∪ H) by (apply held_in; by left).
  assert (Hvs : view s1 ({[i]} ∪ H) = view s H) by (rewrite Hv1, M2; by apply delete_insert_id).
  apply wp_bind. eapply (wp_release_shared s1 ({[i]} ∪ H) (nb :: v :: others b cs ++ O) c).
  { eapply owns_perm; [|exact HO1]. intros z _. rewrite !cnt_app, (cnt_perm z _ _ Hperm), !cnt_cons, !cnt_app. lia. }
  { right. assert (Hin : c ∈ references (Inner k v cs)) by (rewrite Hperm; left). rewrite Hvs. pose proof (refs_elem _ _ _ _ Hx Hin). lia. }
  intros s2 HO2 Hv2 _ Hk2 Hm2. assert (Ho2 : objects s2 !! i = Some o) by (by rewrite Hk2). apply wp_bind, wp_bind. eapply wp_get_inner; [exact Ho2|exact En|]. cbn beta iota zeta.
  eapply (wp_set_held s2 ({[i]} ∪ H)); [exact HO2|exact Ho2|done|apply small_inner; [rewrite (put_child_length b c) by done; by apply ids_small|apply Hnode]|]. intros s3 HO3 Hv3 Ho3 Hoth3 Hm3. apply wp_ret. rewrite Hr in Ho3.
  pose proof (put_child_others b c nb k v cs Hcs Hat) as Hput.
  destruct (owns_close s3 H O i {| ref := 1; obj := Inner k v (put_child b nb cs) |}) as (C1 & C2 & C3); [|done|done|].
  { eapply owns_perm; [|exact HO3]. intros z _. cbn [obj]. rewrite !cnt_app, (cnt_perm z _ _ Hput), !cnt_cons, !cnt_app. lia. }
  cbn [obj] in C2. rewrite Hv3, Hv2, Hvs in C2. apply HQ; [|by rewrite C2, lookup_insert_eq]. constructor; [done| |done|done|by apply Hm3, Hm2]. split; [rewrite C2; by apply insert_subseteq|].
  intros h Hh. rewrite Hoth3 by (by intros ->). rewrite Hk2 by (apply held_in; by right). by apply M5.
Qed.

Lemma remove_shared fuel : forall s H O x t d key m,
  owns s H O -> den (view s H) x t -> trie_ok t -> short t -> unguarded_get t key = Some d -> (length key < fuel)%nat -> room (65 * fuel + m) s ->
  wp (store_remove fuel x false key) s (fun p s' => regrown s s' H O m p.1 (remove_child payload_size t key).1 /\ p.2 = payload_size d).
Proof.
  induction fuel as [|fuel IH]; intros s H O x t d key m HO Hd Hok Hsh Hget Hf Hm; [lia|]. apply room_split in Hm as [Hm Hm1]. cbn [store_remove].
  destruct (den_nonnull s H _ x t HO Hd) as (Hx0 & _ & _). rewrite (proj2 (N.eqb_neq _ _) Hx0). apply wp_bind. destruct t as [k d'|k v ts].
  - rewrite get_value in Hget. apply den_value in Hd. eapply wp_get_view; [done..|]. intros o Ho En. rewrite En. cbn [remove_child]. case_bool_decide; [|done]. injection Hget as ->. apply wp_ret. cbn [fst snd].
    split; [|done]. constructor; [by apply owns_null in HO|done|done|by eapply room_le; [|exact Hm1]; lia|done].
  - pose proof Hd as Hd0. apply den_inner in Hd as (vi & cs & Hx & Hv & Hd). destruct (ok_inner_inv _ _ _ Hok) as (Hk & Hbs & Hlen & Hts). pose proof (dens_ok _ _ _ Hd Hbs) as Hcs.
    eapply wp_get_view; [done..|]. intros o Ho En. rewrite En. cbn [andb]. destruct (lies_apart key k) as [->|[(b & r & ->)|[H1 H2]]]; [| |by rewrite get_inner_apart in Hget].
    + rewrite get_at in Hget. subst v. cbn [slot] in Hv. destruct (view_object s H _ vi _ HO Hv) as (_ & _ & _ & Hv0 & _). rewrite Nat.ltb_irrefl, keq_refl, (proj2 (N.eqb_neq _ _) Hv0), remove_at.
      apply wp_bind. eapply wp_value_data; [done..|]. assert (Hne : ts <> []) by (intros ->; cbn in Hlen; lia).
      enough (Hw : wp (match cs with [(b, c)] => clone_longer (k ++ [b]) c | _ => clone_inner k 0%N cs end) s (fun i s' => regrown s s' H O m i (Some (compressed k None ts)))).
      { destruct cs as [|[b c] [|p cs]]; apply wp_bind; (eapply wp_mono; [|exact Hw]); intros i s' G; by apply wp_ret. }
      eapply wp_clear_shared; [exact HO|exact Hx|exact Hd|exact Hok|exact Hsh|exact Hm1|exact Hne|]. intros i s' G Hdi. by apply grown_regrown.
    + rewrite get_below in Hget. rewrite ltb_app, bool_decide_false, common_prefix_right, keq_refl, at_app, drop_app_S, remove_below by apply at_below. cbn [negb].
      pose proof (dens_at _ _ _ b Hd) as Hat. destruct (child_at b cs) as [c|] eqn:Ec; [|by rewrite Hat in Hget]. destruct Hat as (u & Eu & Hdu). rewrite Eu in Hget |- *.
      assert (Hu : trie_ok u) by (apply maybe_branch_elem in Eu; rewrite Forall_forall in Hts; by apply (Hts _ Eu)). destruct (den_nonnull s H _ c u HO Hdu) as (Hc0 & _ & _).
      apply wp_bind. eapply wp_mono; [|eapply (IH s H O c u d r (65 + m)%nat); try done; [by eapply short_branch|rewrite length_app in Hf; cbn in Hf; lia]]. intros [nb sz] s1 [[G1 G2 G3 G4 G5] Esz]. cbn [fst snd] in *. subst sz. cbn beta iota.
      assert (Hx1 : view s1 H !! x = Some (Inner k vi cs)) by (by eapply later_node). destruct G2 as [Hs Hk1]. pose proof (slot_mono _ _ _ _ Hs Hv) as Hv1. pose proof (dens_mono _ _ _ _ Hs Hd) as Hd1.
      destruct (remove_child payload_size u r).1 as [u'|].
      * assert (Hnb : nb <> c) by (intros ->; destruct (live_den s H c u Hdu) as [?|[n Hn]]; congruence). destruct (den_nonnull s1 H _ nb u' G1 G5) as (Hnb0 & _ & _).
        rewrite (proj2 (N.eqb_neq _ _) Hnb). apply wp_bind. eapply wp_view_inner; [done..|]. rewrite (proj2 (N.eqb_neq _ _) Hnb0). cbn [negb andb].
        eapply (wp_put_shared s1 H O x k vi cs b c nb m); [done..|]. intros i s2 [P1 P2 P3 P4 P5] Hi. cbn [fst snd]. split; [|done]. destruct P2 as [Hs2 Hk2].
        constructor; [done|by eapply later_trans; [split|split]|by eapply lookup_weaken_None|done|]. apply den_inner. eexists _, _. split; [exact Hi|]. split; [by eapply slot_mono|].
        apply dens_put; [by eapply dens_mono|by eapply den_mono].
      * cbn in G5. subst nb. rewrite (proj2 (N.eqb_neq _ _) (not_eq_sym Hc0)). apply wp_bind. eapply wp_view_inner; [done..|]. cbn [N.eqb negb andb]. apply owns_null in G1.
        eapply (wp_drop s1 H O x k vi v cs ts b m); [done|done|done|by apply dens_drop|done|done|done| |done|].
        { pose proof (drop_branch_length b u ts Hbs Eu). lia. }
        intros i s2 [P1 P2 P3 P4 P5] Hdi. cbn [fst snd]. split; [|done]. constructor; [done|by eapply later_trans; [split|]|by eapply lookup_weaken_None|done|done].
Qed.

(** ** Trees that are not shared *)

Definition remove_result (s s' : store) (H : gset id) (O : list id) (m : nat) (x : id) (t : trie payload) (key : list Z) (d : payload) (p : id * Z) : Prop :=
  edited s s' H O m x p.1 [] /\ den_root (view s' H) p.1 (remove_child payload_size t key).1 /\ p.2 = payload_size d.

Lemma regrown_edited s s' H O m x y r : regrown s s' H (x :: O) m y r -> live s H x -> x <> 0%N -> edited s s' H O m x y [].
Proof.
  intros [G1 G2 G3 G4 G5] Hx Hx0. assert (y <> x) by (intros ->; destruct Hx as [?|[n Hn]]; [done|]; destruct r; congruence).
  constructor; [by rewrite decide_False|apply same_trees_mono; by destruct G2|by destruct G2|done].
Qed.

Lemma remove_not_unique fuel x key s : (forall o, objects s !! x = Some o -> ref o <> 1) -> store_remove (S fuel) x true key s = store_remove (S fuel) x false key s.
Proof.
  intros Hno. cbn [store_remove]. destruct (x =? 0)%N; [done|]. unfold mbind, st_bind, get_by_id. destruct (objects s !! x) as [o|] eqn:Ho; [|done]. cbn [andb]. by rewrite (proj2 (Z.eqb_neq _ _) (Hno o eq_refl)).
Qed.

(** The value of [x] is removed in place. *)
Lemma wp_clear_unique s H O x k vi v cs ts m (sz : Z) (Q : id * Z -> store -> Prop) :
  owns s H (x :: O) -> view s H !! x = Some (Inner k vi cs) -> rc s x = 1 -> slot (view s H) vi v -> dens (view s H) cs ts -> (length cs <= 64)%nat -> room m s ->
  (forall s', edited s s' H O m x x [] -> den (view s' H) x (inner_node k None ts) -> Q (x, sz) s') ->
  wp (set_node x (Inner k 0%N cs) ;; release vi ;; mret (x, sz)) s Q.
Proof.
  intros HO Hx Hrc Hv Hd Hcs Hm HQ. destruct (view_object s H _ x _ HO Hx) as (o & Ho & En & Hx0 & HxH). assert (Hr : ref o = 1) by (unfold rc in Hrc; by rewrite Ho in Hrc).
  destruct (owns_open s H _ x o HO Hx0 Ho Hr) as (HO1 & Hv1 & Hrefs & HxO & _). rewrite En in HO1. assert (HxH1 : x ∈ {[x]} ∪ H) by (apply held_in; by left).
  assert (Hxr : x ∉ references (Inner k vi cs)) by (intros Hin; pose proof (refs_elem _ _ _ _ Hx Hin); lia). assert (HxO' : x ∉ map snd cs ++ O) by (intros [Hin|Hin]%elem_of_app; [apply Hxr; by right|done]).
  apply wp_bind. eapply (wp_set_held s ({[x]} ∪ H)); [exact HO1|exact Ho|done|split; [cbn; rewrite length_map; lia|apply (view_small _ _ _ _ _ HO Hx)]|]. intros s1 HO2 Hv2 Ho2 Hoth2 Hm2. rewrite Hr in Ho2.
  apply wp_bind. eapply (wp_release s1 ({[x]} ∪ H) (map snd cs ++ O) vi); [exact HO2|]. intros s2 [R1 R2 R3 R4 R5]. apply wp_ret.
  destruct (owns_close s2 H O x {| ref := 1; obj := Inner k 0%N cs |}) as (C1 & C2 & C3); [by apply owns_null in R1|by rewrite R3|done|]. cbn [obj] in C2.
  assert (Hsame : same_trees s s2 H (map snd cs ++ O)).
  { eapply reopen_trees; [done|done|done|exact Hv1| |exact C2|exact C3]. intros y t Hy Hdy. apply R2; [done|]. by rewrite Hv2. }
  apply HQ.
  - constructor; [by rewrite decide_True|eapply same_trees_sub; [|exact Hsame]; intros y Hy; apply elem_of_app; by right| |by apply R4, Hm2].
    intros h Hh. rewrite R3 by (apply held_in; by right). apply Hoth2. by intros ->.
  - apply den_inner. exists 0%N, cs. split; [by rewrite C2, lookup_insert_eq|]. split; [done|]. eapply (dens_impl (view s H)); [|exact Hd]. intros c u Hin Hdc. apply Hsame; [|done]. apply elem_of_app. left. by eapply elem_of_zip_l.
Qed.

(** The child of an inner node that is held was removed: [x] is put back. *)
Lemma put_back s s1 H O x o k vi v cs ts b c m :
  objects s !! x = Some o -> obj o = Inner k vi cs -> ref o = 1 -> x <> 0%N -> x ∉ H -> x ∉ O -> x ∉ references (Inner k vi cs) -> refs (view s H) x = 0%nat -> view s ({[x]} ∪ H) = delete x (view s H) ->
  ids_ok cs -> child_at b cs = Some c -> slot (view s H) vi v -> dens (view s H) cs ts -> c <> 0%N -> edited s s1 ({[x]} ∪ H) (vi :: others b cs ++ O) m c 0%N [] ->
  owns s1 H (x :: O) /\ same_trees s s1 H O /\ keeps s s1 H /\ room m s1 /\ view s1 H !! x = Some (Inner k vi cs) /\ slot (view s1 H) vi v /\ dens (view s1 H) (drop_bit b cs) (drop_branch b ts).
Proof.
  intros Ho En Hr Hx0 HxH HxO Hxr Hrefs Hview Hcs Hat Hv Hd Hc0 [E1 E2 E3 E4]. rewrite decide_False in E1 by auto. pose proof (others_refs b c k vi cs Hcs Hat) as Hperm.
  assert (HxH1 : x ∈ {[x]} ∪ H) by (apply held_in; by left). pose proof (E3 x HxH1) as Ho1. rewrite Ho in Ho1.
  destruct (owns_close s1 H O x o) as (C1 & C2 & C3); [|done|done|].
  { eapply owns_perm; [|exact E1]. intros z Hz. rewrite En, !cnt_app, (cnt_perm z _ _ Hperm), !cnt_cons, !cnt_app, !cnt_nil. destruct (N.eq_dec 0 z); [congruence|]. lia. }
  rewrite En in C2. assert (Hsame : same_trees s s1 H (vi :: others b cs ++ O)).
  { eapply reopen_trees; [done|done| |exact Hview|exact E2|exact C2|exact C3]. intros Hin. apply elem_of_cons in Hin as [->|[Hin|?]%elem_of_app]; [apply Hxr; left| |done]. apply Hxr. rewrite Hperm. right. by right. }
  split; [done|]. split; [eapply same_trees_sub; [|exact Hsame]; intros y Hy; right; apply elem_of_app; by right|]. split; [intros h Hh; apply E3, held_in; by right|]. split; [done|]. split; [by rewrite C2, lookup_insert_eq|]. split.
  - destruct v as [d|]; [|done]. change (den (view s1 H) vi (value_node [] d)). apply Hsame; [left|done].
  - eapply (dens_impl (view s H)); [|by apply dens_drop]. intros z u Hin Hdz. apply Hsame; [|done]. right. apply elem_of_app. left. by eapply elem_of_zip_l.
Qed.

Lemma wp_assoc {A B C} (a : st A) (f : A -> st B) (g : B -> st C) s Q : wp ((a ≫= f) ≫= g) s Q -> wp (a ≫= (fun x => f x ≫= g)) s Q.
Proof. unfold wp, mbind, st_bind. by destruct (a s) as [[x s1]|]. Qed.

Lemma remove_fallback fuel s H O x t d key m :
  owns s H (x :: O) -> den (view s H) x t -> trie_ok t -> short t -> unguarded_get t key = Some d -> (length key < S fuel)%nat -> room (65 * S fuel + m) s -> (forall o, objects s !! x = Some o -> ref o <> 1) ->
  wp (store_remove (S fuel) x true key) s (fun p s' => remove_result s s' H O m x t key d p).
Proof.
  intros HO Hd Hok Hsh Hget Hf Hm Hno. unfold wp. rewrite remove_not_unique by done. destruct (den_nonnull s H _ x t HO Hd) as (Hx0 & _ & _).
  eapply wp_mono; [|by apply (remove_shared (S fuel) s H (x :: O) x t d key m)]. intros [y sz] s' [G Esz]. split; [eapply regrown_edited; [exact G|by eapply live_den|done]|]. split; [by destruct G|done].
Qed.

(** The value at the key of an inner node. *)
Lemma remove_unique_at s H O x o k vi d cs ts m :
  owns s H (x :: O) -> view s H !! x = Some (Inner k vi cs) -> objects s !! x = Some o -> ref o = 1 -> view s H !! vi = Some (Value [] d) -> dens (view s H) cs ts -> trie_ok (inner_node k (Some d) ts) -> short (inner_node k (Some d) ts) -> room (65 + m) s ->
  wp (match cs with
      | [(b, c)] => i ← clone_longer (k ++ [b]) c; mret (i, payload_size d)
      | _ => set_node x (Inner k 0%N cs) ;; release vi ;; mret (x, payload_size d)
      end) s (fun p s' => remove_result s s' H O m x (inner_node k (Some d) ts) k d p).
Proof.
  intros HO Hx Ho Hr Hv Hd Hok Hsh Hm. destruct (ok_inner_inv _ _ _ Hok) as (Hk & Hbs & Hlen & Hts). pose proof (dens_ok _ _ _ Hd Hbs) as Hcs. unfold remove_result. rewrite remove_at.
  assert (Hplace : compressed k None ts = inner_node k None ts -> wp (set_node x (Inner k 0%N cs) ;; release vi ;; mret (x, payload_size d)) s (fun p s' => edited s s' H O m x p.1 [] /\ den_root (view s' H) p.1 (Some (compressed k None ts)) /\ p.2 = payload_size d)).
  { intros E. eapply (wp_clear_unique s H O x k vi (Some d) cs ts m); [done|done|unfold rc; by rewrite Ho|done|done|by apply ids_small|eapply room_le; [|exact Hm]; lia|]. intros s' He Hdx. rewrite E. done. }
  pose proof Hd as Hd'. destruct Hd as [|[b c] [b' t] cs ts [E Hc] Hd]; [cbn in Hlen; lia|]. cbn in E. subst b'. destruct Hd as [|p q cs ts Hp Hd]; [|by apply Hplace].
  apply Forall_cons in Hts as [Ht _]. apply wp_bind. eapply (wp_clone_longer s H (x :: O)); [exact HO|exact Hc|exact Ht|eapply short_longer; [exact Ht|exact Hsh|apply branch_first]|exact Hm|]. intros i s' G Hdi. apply wp_ret. cbn [fst snd den_root compressed].
  split; [|done]. apply grown_edited; [done|right; by eexists].
Qed.

Lemma remove_unique fuel : forall s H O x t d key m,
  owns s H (x :: O) -> den (view s H) x t -> trie_ok t -> short t -> unguarded_get t key = Some d -> (length key < fuel)%nat -> room (65 * fuel + m) s ->
  wp (store_remove fuel x true key) s (fun p s' => remove_result s s' H O m x t key d p).
Proof.
  induction fuel as [|fuel IH]; intros s H O x t d key m HO Hd Hok Hsh Hget Hf Hm; [lia|].
  pose proof (remove_fallback fuel s H O x t d key m HO Hd Hok Hsh Hget Hf Hm) as Hback. destruct (den_nonnull s H _ x t HO Hd) as (Hx0 & [o Ho] & HxH).
  destruct (decide (ref o = 1)) as [Hr|Hr]; [clear Hback|apply Hback; intros o' Ho'; congruence]. apply room_split in Hm as [Hm Hm1]. assert (Hm0 : room m s) by (eapply room_le; [|exact Hm1]; lia).
  assert (Hrc : rc s x = 1) by (unfold rc; by rewrite Ho). cbn [store_remove]. rewrite (proj2 (N.eqb_neq _ _) Hx0). apply wp_bind. eapply wp_get; [exact Ho|]. destruct t as [k d'|k v ts].
  - rewrite get_value in Hget. apply den_value in Hd. destruct (proj1 (view_lookup _ _ _ _) Hd) as (o' & Ho' & En & _). assert (o' = o) as -> by congruence. rewrite En. case_bool_decide; [|done]. injection Hget as ->. apply wp_ret.
    unfold remove_result. cbn [fst snd remove_child]. rewrite bool_decide_true by done. cbn [fst]. split; [|done]. constructor; [rewrite decide_False by auto; by apply owns_null in HO|by apply same_trees_eq|done|done].
  - apply den_inner in Hd as (vi & cs & Hx & Hv & Hd). destruct (proj1 (view_lookup _ _ _ _) Hx) as (o' & Ho' & En & _). assert (o' = o) as -> by congruence. rewrite En, Hr. cbn [andb Z.eqb Pos.eqb].
    destruct (ok_inner_inv _ _ _ Hok) as (Hk & Hbs & Hlen & Hts). pose proof (dens_ok _ _ _ Hd Hbs) as Hcs. destruct (lies_apart key k) as [->|[(b & r & ->)|[H1 H2]]]; [| |by rewrite get_inner_apart in Hget].
    + rewrite get_at in Hget. subst v. cbn [slot] in Hv. destruct (view_object s H _ vi _ HO Hv) as (_ & _ & _ & Hv0 & _). rewrite Nat.ltb_irrefl, keq_refl, (proj2 (N.eqb_neq _ _) Hv0).
      apply wp_bind. eapply wp_value_data; [done..|]. by eapply (remove_unique_at s H O x o k vi d cs ts m).
    + rewrite get_below in Hget. rewrite ltb_app, bool_decide_false, common_prefix_right, keq_refl, at_app, drop_app_S by apply at_below. cbn [negb].
      pose proof (dens_at _ _ _ b Hd) as Hat. destruct (child_at b cs) as [c|] eqn:Ec; [|by rewrite Hat in Hget]. destruct Hat as (u & Eu & Hdu). rewrite Eu in Hget.
      assert (Hu : trie_ok u) by (apply maybe_branch_elem in Eu; rewrite Forall_forall in Hts; by apply (Hts _ Eu)). destruct (den_nonnull s H _ c u HO Hdu) as (Hc0 & _ & _).
      destruct (owns_open s H _ x o HO Hx0 Ho Hr) as (HO1 & Hv1 & Hrefs & HxO & _). rewrite En in HO1. assert (Hxr : x ∉ references (Inner k vi cs)) by (intros Hin; pose proof (refs_elem _ _ _ _ Hx Hin); lia).
      pose proof (others_refs b c k vi cs Hcs Ec) as Hperm. assert (Hcx : c <> x) by (intros ->; apply Hxr; rewrite Hperm; left).
      apply wp_bind. eapply wp_mono; [|eapply (IH s ({[x]} ∪ H) (vi :: others b cs ++ O) c u d r (65 + m)%nat)].
      * assert (HxH1 : x ∈ {[x]} ∪ H) by (apply held_in; by left). intros [nb sz] s1 (He & Hnb & Esz). cbn [fst snd] in *. subst sz. cbn beta iota. unfold remove_result. rewrite remove_below, Eu.
        destruct (remove_child payload_size u r).1 as [u'|]; cbn [den_root] in Hnb.
        -- destruct (den_nonnull s1 _ _ nb u' (edited_owns _ _ _ _ _ _ _ _ He) Hnb) as (Hnb0 & _ & _).
           assert (Hswap : wp ((if (nb =? c)%N then mret tt else set_child x b nb ;; release c) ;; mret (x, payload_size d)) s1 (fun p s' => edited s s' H O m x p.1 [] /\ den_root (view s' H) p.1 (Some (inner_node k v (set_branch b u' ts))) /\ p.2 = payload_size d)).
           { eapply (wp_swap_unique s s1 H O x o k vi v cs ts b c nb u' [] m); try done. destruct He as [? ? ? Hm']. constructor; try done. eapply room_le; [|exact Hm']. lia. }
           destruct (nb =? c)%N; [exact Hswap|]. apply wp_bind. eapply wp_get_inner; [by rewrite (edited_keeps _ _ _ _ _ _ _ _ He) by done|exact En|]. cbn beta iota zeta. rewrite (proj2 (N.eqb_neq _ _) Hnb0). by apply wp_assoc.
        -- subst nb. destruct (put_back s s1 H O x o k vi v cs ts b c (65 + m)%nat) as (P1 & P2 & P3 & P4 & P5 & P6 & P7); try done. rewrite (proj2 (N.eqb_neq _ _) (not_eq_sym Hc0)).
           apply wp_bind. eapply wp_view_inner; [done..|]. cbn [N.eqb negb andb]. eapply (wp_drop s1 H (x :: O) x k vi v cs ts b m); [done..| |done|].
           { pose proof (drop_branch_length b u ts Hbs Eu). lia. }
           intros i s2 G Hdi. cbn [fst snd]. split; [|done]. destruct (grown_edited _ _ _ _ _ x _ G) as [D1 D2 D3 D4]; [right; by eexists|]. constructor; [done|by eapply same_trees_trans|by eapply keeps_trans|done].
      * eapply owns_perm; [|exact HO1]. intros z _. rewrite !cnt_app, (cnt_perm z _ _ Hperm), !cnt_cons, !cnt_app. lia.
      * rewrite Hv1. by apply den_delete.
      * done.
      * by eapply short_branch.
      * done.
      * rewrite length_app in Hf. cbn in Hf. lia.
      * done.
Qed.
