(* ===== verification/TrieHandles.v ===== *)
(** * triedent: roots that share their nodes behave as independent maps

    The handles of roots over one store ([TrieStore]), and the top root of the
    file.  Each handle promises a map of its own: an update of one does not change
    what the others hold, although their trees share nodes and an update changes
    nodes in place where it can.  The specification is a list of maps; the
    theorems show that the store with its reference counts implements it, for
    every sequence of updates, commits and loads. *)

From S2P Require Import Prelude Ordered Key6 NodeBits Trie TrieLaws TrieOrder TrieMap TrieStore TrieOwn TrieSteps TrieAdd TrieRemove.

(** ** Lookups *)

Lemma store_get_den fuel : forall s H O x r key, owns s H O -> den_root (view s H) x r -> (length key + 1 < fuel)%nat -> store_get fuel x key s = Ok (get_root r key, s).
Proof.
  induction fuel as [|fuel IH]; intros s H O x r key HO Hd Hf; [lia|]. cbn [store_get]. destruct r as [t|]; cbn [den_root] in Hd; [|by subst].
  destruct (den_nonnull s H _ x t HO Hd) as (Hx0 & [o Ho] & _). rewrite (proj2 (N.eqb_neq _ _) Hx0). unfold mbind, st_bind, get_by_id. rewrite Ho. cbn [get_root].
  assert (Hobj : forall n, view s H !! x = Some n -> obj o = n) by (intros n (o' & Ho' & En & _)%view_lookup; congruence). destruct t as [k d|k v ts].
  - rewrite (Hobj _ Hd), get_value. done.
  - apply den_inner in Hd as (vi & cs & Hx & Hv & Hd). rewrite (Hobj _ Hx). lies_cases key k.
    + rewrite Nat.ltb_irrefl, keq_refl, get_at. destruct fuel as [|fuel]; [lia|]. clear IH. cbn [store_get]. destruct v as [d|]; cbn [slot] in Hv; [|by subst].
      destruct (view_object s H _ vi _ HO Hv) as (ov & Hov & Env & Hv0 & _). rewrite (proj2 (N.eqb_neq _ _) Hv0). unfold mbind, st_bind, get_by_id. by rewrite Hov, Env.
    + rewrite ltb_app, bool_decide_false, common_prefix_left, keq_refl, at_app, drop_app_S, get_below by apply below_at. cbn [negb]. pose proof (dens_at _ _ _ b Hd) as Hat. rewrite length_app in Hf. cbn in Hf.
      destruct (child_at b cs) as [c|]; [|by rewrite Hat]. destruct Hat as (u & -> & Hdu). rewrite (IH s H O c (Some u) r); [done|done|done|lia].
    + rewrite get_above, (proj2 (Nat.ltb_lt _ _)) by (rewrite length_app; cbn; lia). done.
    + rewrite get_beside by done. destruct (length _ <? length _)%nat; [done|]. rewrite bool_decide_false by (by apply fork_neq). rewrite common_prefix_fork, bool_decide_false by (done || apply at_below). done.
Qed.

(** ** Updates of a root *)

(** The reference that a handle owns. *)
Definition owned (r : option handle) : list id := if get_unique r then [get_id r] else [].

(** The handle [r'] has the tree [t']; the trees of the other owners [O] are as they were. *)
Record handle_post (s s' : store) (O L : list id) (m : nat) (r' : option handle) (t' : option (trie payload)) : Prop := {
  post_owns : owns s' ∅ (owned r' ++ L ++ O);
  post_den : den_root (view s' ∅) (get_id r') t';
  post_trees : same_trees s s' ∅ O;
  post_room : room m s'
}.

(** [update_root] after an update that made a new tree. *)
Lemma wp_update_fresh s s' O r y t' m (Q : option handle -> store -> Prop) :
  owns s' ∅ (y :: owned r ++ O) -> same_trees s s' ∅ O -> room m s' -> den_root (view s' ∅) y t' -> (r = None \/ get_id r <> y) ->
  (forall r' s2, handle_post s s2 O [] m r' t' -> get_unique r' = true -> Q r' s2) -> wp (update_root r y) s' Q.
Proof.
  intros HO Ht Hm Hd Hy HQ. unfold update_root, owned in *. assert (Hkeep : match r with Some h => (h_id h =? y)%N | None => false end = false).
  { destruct r as [h|]; [|done]. apply N.eqb_neq. destruct Hy as [?|Hy]; done. }
  rewrite Hkeep. destruct (get_unique r).
  - apply wp_bind. eapply (wp_release s' ∅ (y :: O) (get_id r)); [eapply owns_perm; [|exact HO]; intros z _; cbn [app]; rewrite !cnt_cons; lia|]. intros s2 [R1 R2 R3 R4 R5]. apply wp_ret, HQ; [|done].
    constructor; [done| | |by apply R4].
    + destruct t' as [t'|]; [|done]. apply R2; [left|done].
    + eapply same_trees_trans; [exact Ht|]. eapply same_trees_sub; [|exact R2]. intros z Hz. by right.
  - apply wp_ret, HQ; [|done]. by constructor.
Qed.

(** [update_root] after an update of a tree that is not shared. *)
Lemma wp_update_edited s s' O L r y t' m (Q : option handle -> store -> Prop) :
  get_unique r = true -> edited s s' ∅ O m (get_id r) y L -> den_root (view s' ∅) y t' ->
  (forall r' s2, handle_post s s2 O L m r' t' -> get_unique r' = true -> Q r' s2) -> wp (update_root r y) s' Q.
Proof.
  intros Hu [E1 E2 E3 E4] Hd HQ. destruct r as [h|]; [|done]. unfold update_root. cbn [get_id] in *. destruct (h_id h =? y)%N eqn:Ey.
  - apply N.eqb_eq in Ey. subst y. rewrite decide_True in E1 by done. apply wp_ret, HQ; [|done]. constructor; [|done..]. unfold owned. by rewrite Hu.
  - apply N.eqb_neq in Ey. rewrite decide_False in E1 by auto. rewrite Hu. apply wp_bind.
    eapply (wp_release s' ∅ (y :: L ++ O) (h_id h)); [eapply owns_perm; [|exact E1]; intros z _; cbn [app]; rewrite !cnt_cons; lia|]. intros s2 [R1 R2 R3 R4 R5]. apply wp_ret, HQ; [|done].
    constructor; [done| | |by apply R4].
    + destruct t' as [t'|]; [|done]. apply R2; [left|done].
    + eapply same_trees_trans; [exact E2|]. eapply same_trees_sub; [|exact R2]. intros z Hz. right. apply elem_of_app. by right.
Qed.

Lemma add_root_upsert r key val : (upsert payload_size r key val) = (Some (add_root r (to_key6 key) val).1, (add_root r (to_key6 key) val).2).
Proof. destruct r as [t|]; [|done]. cbn. by destruct (add_child _ _ _ _). Qed.

Lemma wp_handle_upsert s O r t key val m :
  owns s ∅ (owned r ++ proots val ++ O) -> den_root (view s ∅) (get_id r) t -> root_ok t -> bytes_ok key -> (length key <= max_key_bytes)%nat -> (length (proots val) <= 65)%nat -> room (65 * S (length (to_key6 key)) + m) s ->
  wp (handle_upsert_with r key val) s (fun p s' => exists L, handle_post s s' O L m p.1 (upsert payload_size t key val).1 /\ get_unique p.1 = true /\ p.2 = (upsert payload_size t key val).2 /\
    ((forall ids, root_get t key <> Some (Roots ids)) -> L = [])).
Proof.
  intros HO Hd Hok Hkey Hl Hpv Hm. rewrite add_root_upsert. cbn [fst snd]. apply to_key6_ok in Hkey. apply wp_bind.
  assert (Hval : small (Value (to_key6 key) val)) by (apply small_value; [by rewrite refs_value|by apply to_key6_fits]).
  assert (Hshared : wp (store_add (S (length (to_key6 key))) (get_id r) false (to_key6 key) val) s (fun p s' => wp (let '(new_root, old_size) := p in r ← update_root r new_root; mret (r, old_size)) s' (fun p s' =>
    exists L, handle_post s s' O L m p.1 (Some (add_root t (to_key6 key) val).1) /\ get_unique p.1 = true /\ p.2 = (add_root t (to_key6 key) val).2 /\ ((forall ids, root_get t key <> Some (Roots ids)) -> L = [])))).
  { eapply wp_mono; [|eapply (add_shared _ s ∅ (owned r ++ O) (get_id r) t (to_key6 key) val m); try done; [|lia]].
    - intros [y old] s' (G & Hdy & Eold). cbn [fst snd] in *. apply wp_bind. eapply (wp_update_fresh s s' O r y (Some _)); [by destruct G|apply same_trees_mono; by destruct G as [_ [? _] _ _ _]|by destruct G|exact Hdy| |].
      + right. intros E. destruct G as [_ _ Hfr Hy0 _]. rewrite <- E in *. destruct t as [t|]; [|done]. destruct (live_den s ∅ _ t Hd) as [?|[n Hn]]; congruence.
      + intros r' s2 HP Hu. apply wp_ret. by exists [].
    - eapply owns_perm; [|exact HO]. intros z _. rewrite !cnt_app. lia. }
  destruct (get_unique r) eqn:Eu; [|exact Hshared]. destruct t as [t|]; [|cbn [den_root] in Hd; by rewrite Hd in *]. clear Hshared.
  eapply wp_mono; [|eapply (add_unique _ s ∅ O (get_id r) t (to_key6 key) val m); try done; [|lia]].
  - intros [y old] s' (L & He & Hdy & Eold & HL). cbn [fst snd] in *. apply wp_bind. eapply (wp_update_edited s s' O L r y (Some _)); [done|done|exact Hdy|]. intros r' s2 HP Hu. apply wp_ret. by exists L.
  - unfold owned in HO. by rewrite Eu in HO.
Qed.

Lemma wp_handle_remove s O r t key m :
  owns s ∅ (owned r ++ O) -> den_root (view s ∅) (get_id r) t -> tree_ok t -> room (65 * S (length (to_key6 key)) + m) s ->
  wp (handle_remove r key) s (fun p s' => handle_post s s' O [] m p.1 (remove payload_size t key).1 /\ (get_unique p.1 = true \/ p.1 = r /\ (remove payload_size t key).1 = t) /\ p.2 = (remove payload_size t key).2).
Proof.
  intros HO Hd Htr Hm. pose proof Htr as [Hok _]. assert (Hm0 : room m s) by (eapply room_le; [|exact Hm]; lia). apply wp_bind. unfold remove.
  assert (Hkeep : forall p, p.1 = t -> p.2 = -1 -> wp (let '(new_root, removed_size) := (get_id r, -1) in r ← update_root r new_root; mret (r, removed_size)) s (fun q s' =>
    handle_post s s' O [] m q.1 (p : option (trie payload) * Z).1 /\ (get_unique q.1 = true \/ q.1 = r /\ p.1 = t) /\ q.2 = p.2)).
  { intros p Ep1 ->. rewrite Ep1. apply wp_bind. unfold update_root. destruct r as [h|]; cbn [get_id get_unique] in *.
    - rewrite N.eqb_refl. apply wp_ret, wp_ret. cbn [fst snd]. split; [|split; [by right|done]]. constructor; [done|done|by apply same_trees_eq|done].
    - apply wp_ret, wp_ret. cbn [fst snd]. split; [|split; [by left|done]]. constructor; [by apply owns_null in HO|done|by apply same_trees_eq|done]. }
  destruct t as [t|]; cbn [den_root] in Hd; [|cbn [store_remove]; rewrite Hd in *; cbn [N.eqb]; apply wp_ret; by apply (Hkeep (None, -1))].
  destruct (unguarded_get t (to_key6 key)) as [d|] eqn:Eg.
  2:{ eapply remove_absent; [exact HO|exact Hd|exact Eg|lia|]. apply (Hkeep (remove_child payload_size t (to_key6 key))); [|by rewrite remove_size, Eg].
      assert (Hr : root_ok (remove_child payload_size t (to_key6 key)).1) by (by apply remove_ok).
      assert (Hg : forall k, get_root (remove_child payload_size t (to_key6 key)).1 k = unguarded_get t k).
      { intros k. rewrite get_remove. unfold updated. case_bool_decide; [by subst|done]. }
      destruct (remove_child payload_size t (to_key6 key)).1 as [t'|]; [f_equal; by apply trie_ext|]. exfalso. destruct (has_entry t Hok) as (k & v & E). specialize (Hg k). rewrite E in Hg. done. }
  clear Hkeep. pose proof (tree_ok_short t Htr) as Hsh. assert (Esz : (remove_child payload_size t (to_key6 key)).2 = payload_size d) by (by rewrite remove_size, Eg).
  destruct (get_unique r) eqn:Eu.
  - eapply wp_mono; [|eapply (remove_unique _ s ∅ O (get_id r) t d (to_key6 key) m); try done; [|lia]; unfold owned in HO; by rewrite Eu in HO].
    intros [y sz] s' (He & Hdy & E). cbn [fst snd] in *. apply wp_bind. eapply (wp_update_edited s s' O [] r y); [done|done|exact Hdy|]. intros r' s2 HP Hu. apply wp_ret. cbn [fst snd]. split; [done|]. split; [by left|congruence].
  - eapply wp_mono; [|eapply (remove_shared _ s ∅ (owned r ++ O) (get_id r) t d (to_key6 key) m); try done; lia].
    intros [y sz] s' (G & E). cbn [fst snd] in *. destruct (den_nonnull s ∅ _ _ t HO Hd) as (Hx0 & _ & _). apply wp_bind. eapply (wp_update_fresh s s' O r y); [by destruct G|apply same_trees_mono; by destruct G as [_ [? _] _ _ _]|by destruct G|by destruct G| |].
    + right. intros Ey. destruct G as [_ _ Hfr _ _]. rewrite <- Ey in Hfr. destruct (remove_child payload_size t (to_key6 key)).1; [|done]. destruct (live_den s ∅ _ t Hd) as [?|[n Hn]]; congruence.
    + intros r' s2 HP Hu. apply wp_ret. cbn [fst snd]. split; [done|]. split; [by left|congruence].
Qed.

(** ** Isolation *)

(** An update through any handle, whether it owns its root or shares it, returns
    a handle of the tree that the update makes, and every other tree that somebody
    owns stays as it is; the counts stay exact, where the roots of a value that
    was replaced in place ([L]) are the exception. *)
Theorem upsert_isolated s O r t key val :
  owns s ∅ (owned r ++ proots val ++ O) -> den_root (view s ∅) (get_id r) t -> root_ok t -> bytes_ok key -> (length key <= max_key_bytes)%nat -> (length (proots val) <= 65)%nat -> room (65 * S (length (to_key6 key))) s ->
  match handle_upsert_with r key val s with
  | Ok (r', old_size, s') =>
      get_unique r' = true /\ den_root (view s' ∅) (get_id r') (upsert payload_size t key val).1 /\ old_size = (upsert payload_size t key val).2 /\
      (forall y u, y ∈ O -> den (view s ∅) y u -> den (view s' ∅) y u) /\
      exists L, owns s' ∅ (get_id r' :: L ++ O) /\ ((forall ids, root_get t key <> Some (Roots ids)) -> L = [])
  | Abort m => m = too_big
  end.
Proof.
  intros HO Hd Hok Hk Hl Hval Hm. pose proof (wp_handle_upsert s O r t key val 0 HO Hd Hok Hk Hl Hval ltac:(eapply room_le; [|exact Hm]; lia)) as Hw. unfold wp in Hw.
  destruct (handle_upsert_with r key val s) as [[[r' old] s']|m]; [|done]. cbn [fst snd] in Hw. destruct Hw as (L & [P1 P2 P3 P4] & Hu & E & HL). split; [done|]. split; [done|]. split; [done|]. split; [exact P3|].
  exists L. split; [|done]. unfold owned in P1. by rewrite Hu in P1.
Qed.

Lemma view_empty H : view empty_store H = ∅.
Proof. unfold view. cbn. by rewrite map_filter_empty, fmap_empty. Qed.
Lemma owns_empty : owns empty_store ∅ [0%N].
Proof.
  constructor; try done.
  - intros x Hx. rewrite view_empty, refs_empty, decide_False, cnt_cons, cnt_nil by set_solver. unfold rc. cbn [empty_store objects]. rewrite lookup_empty. destruct (N.eq_dec 0 x) as [E|]; [by destruct Hx|done].
  - split; constructor.
  - intros x [[o Ho]|Hx]; [done|by apply elem_of_nil in Hx].
Qed.

(** The second update is of a root that is shared. *)
Definition example_first : result (option handle * Z * store) := handle_upsert_with None [7] (Bytes [1]) empty_store.
Definition example_store : store := match example_first with Ok (_, _, s) => s | Abort _ => empty_store end.
Definition example_tree : option (trie payload) := (upsert payload_size None [7] (Bytes [1])).1.
Lemma example_store_ok : owns example_store ∅ [1%N; 0%N] /\ den_root (view example_store ∅) 1%N example_tree.
Proof.
  pose proof (wp_handle_upsert empty_store [0%N] None None [7] (Bytes [1]) 0 owns_empty ltac:(done) ltac:(done) ltac:(bytes_solve) ltac:(unfold max_key_bytes; cbn; lia) ltac:(cbn; lia) ltac:(apply has_room_spec; vm_compute; reflexivity)) as Hw.
  unfold wp in Hw. fold example_first in Hw. unfold example_store. destruct example_first as [[[r' old] s']|m] eqn:E; [|vm_compute in E; discriminate E]. vm_compute in E. injection E as <- <- <-.
  destruct Hw as (L & [P1 P2 _ _] & _ & _ & HL). rewrite HL in P1 by done. done.
Qed.
Lemma upsert_isolated_witness :
  match handle_upsert_with (Some {| h_id := 1; h_ancestor := false; h_use_count := 2 |}) [7] (Bytes [2]) example_store with
  | Ok (r', old_size, s') => get_id r' = 2%N /\ old_size = 1 /\ forall u, den (view example_store ∅) 1%N u -> den (view s' ∅) 1%N u
  | Abort _ => False
  end.
Proof.
  destruct example_store_ok as [HO Hd].
  pose proof (upsert_isolated example_store [1%N; 0%N] (Some {| h_id := 1; h_ancestor := false; h_use_count := 2 |}) example_tree [7] (Bytes [2]) HO Hd ltac:(constructor; apply to_key6_ok; bytes_solve) ltac:(bytes_solve) ltac:(unfold max_key_bytes; cbn; lia) ltac:(cbn; lia)
    ltac:(apply has_room_spec; vm_compute; reflexivity)) as H.
  destruct (handle_upsert_with _ [7] (Bytes [2]) example_store) as [[[r' old] s']|m] eqn:E; [|vm_compute in E; discriminate E]. destruct H as (_ & _ & Hold & Ht & _).
  split; [vm_compute in E; by injection E as <- _ _|]. split; [rewrite Hold; vm_compute; reflexivity|]. intros u. apply Ht. left.
Defined.

(** ** Where the counts go wrong *)

(** A value of roots at an inner node that is not shared is replaced by bytes. *)
Definition leak_run : st (option handle * option handle) :=
  '(a, _) ← handle_upsert None [9] [9];
  '(b, _) ← handle_upsert None [1; 2; 3] [1];
  '(b, _) ← handle_upsert b [1; 2; 3; 4] [2];
  '(b, _) ← handle_upsert_roots b [1; 2; 3] [a];
  handle_release a ;;
  '(b, _) ← handle_upsert b [1; 2; 3] [5];
  mret (a, b).
(** A value of roots at an inner node that is not shared is replaced by bytes: the
    value node is freed with [ring().release], which does not release its roots.
    The root [a] has one reference left in its count, and nobody has it. *)
Theorem replaced_roots_leak :
  match leak_run empty_store with
  | Ok (a, b, s) => rc s (get_id a) = 1 /\ refs (view s ∅) (get_id a) = 0%nat /\ get_id a <> get_id b
  | Abort _ => False
  end.
Proof. vm_compute. repeat split; congruence. Qed.

(** The child 1 of the shared node 2 has the largest count that there can be. *)
Definition saturated_store : store :=
  {| objects := {[1%N := {| ref := ref_count_mask - 1; obj := Value [5] (Bytes [1]) |}; 2%N := {| ref := 2; obj := Inner [1] 0%N [(3, 1%N); (4, 3%N)] |}; 3%N := {| ref := 1; obj := Value [6] (Bytes [2]) |}]};
     first_free := []; max_allocated := 3 |}.
(** The child 1 of the shared node 2 has the largest count that there can be, with
    32765 references from elsewhere.  After an update below it, its count is
    32765, but node 2 still refers to it; the copy that [clone_inner] made of it
    has a count of 1, and nobody refers to it. *)
Theorem saturated_child_undercounted :
  rc saturated_store 1%N = Z.of_nat (refs (view saturated_store ∅) 1%N) + 32765 /\
  match store_add 4 2%N false [1; 3; 9] (Bytes [3]) saturated_store with
  | Ok (i, _, s) =>
      rc s 1%N = 32765 /\ refs (view s ∅) 1%N = 1%nat /\
      exists x, rc s x = 1 /\ refs (view s ∅) x = 0%nat /\ x <> i /\ objects saturated_store !! x = None
  | Abort _ => False
  end.
Proof. split; [vm_compute; reflexivity|]. vm_compute. split; [reflexivity|]. split; [reflexivity|]. exists 7%N. repeat split; congruence. Qed.
