(* ===== verification/TrieSessions.v ===== *)
(** * triedent: roots that share their nodes behave as independent maps

    A program holds [shared_ptr<root>]s over one store, copies them, updates what
    they point to, and commits one as the top root of the file.  The
    specification gives every pointer a finite map of its own.  The theorems show
    that the store implements it, although trees share nodes, pointers share roots
    and updates change nodes in place where the counts allow it. *)

From S2P Require Import Prelude Ordered Key6 NodeBits Trie TrieLaws TrieOrder TrieMap TrieStore TrieOwn TrieSteps TrieAdd TrieRemove TrieHandles.

(** ** Pointers to roots *)

(** [top] is the top root of the file, [root_objects] are the ids of the objects of
    class [root], and a pointer is null or points to one of them. *)
Record session := { top : id; root_objects : list id; pointers : list (option nat) }.

(** [shared_ptr::use_count] *)
Definition points_to (k : nat) (p : option nat) : bool := match p with Some k' => (k' =? k)%nat | None => false end.
Definition use_count (ps : list (option nat)) (k : nat) : Z := Z.of_nat (length (List.filter (points_to k) ps)).
Definition pointer (g : session) (i : nat) : option nat := default None (pointers g !! i).
Definition handle_of (g : session) (i : nat) : option handle :=
  match pointer g i with
  | Some k => Some {| h_id := default 0%N (root_objects g !! k); h_ancestor := false; h_use_count := use_count (pointers g) k |}
  | None => None
  end.

(** Assignment of a pointer: the last pointer to a root destroys it. *)
Definition assign (g : session) (i : nat) (p : option nat) : st session :=
  let ps := <[i := p]> (pointers g) in
  match pointer g i with
  | Some k =>
      if use_count ps k =? 0 then
        release (default 0%N (root_objects g !! k)) ;;
        mret {| top := top g; root_objects := <[k := 0%N]> (root_objects g); pointers := ps |}
      else mret {| top := top g; root_objects := root_objects g; pointers := ps |}
  | None => mret {| top := top g; root_objects := root_objects g; pointers := ps |}
  end.
(** [make_shared<root>] *)
Definition new_root (g : session) (i : id) : session := {| top := top g; root_objects := root_objects g ++ [i]; pointers := pointers g |}.
(** The pointer [i] after an update whose handle is [r']. *)
Definition write_handle (g : session) (i : nat) (r' : option handle) : st session :=
  match r', pointer g i with
  | None, _ => mret g
  | Some h, Some k =>
      if get_unique (handle_of g i) then mret {| top := top g; root_objects := <[k := h_id h]> (root_objects g); pointers := pointers g |}
      else if h_use_count h =? 1 then assign (new_root g (h_id h)) i (Some (length (root_objects g)))
      else mret g
  | Some h, None => assign (new_root g (h_id h)) i (Some (length (root_objects g)))
  end.

Inductive call :=
  | call_upsert (i : nat) (key val : bytes)
  | call_remove (i : nat) (key : bytes)
  | call_assign (i j : nat)
  | call_get_top (i : nat)
  | call_set_top (i : nat).

Definition exec (g : session) (c : call) : st (session * Z) :=
  match c with
  | call_upsert i key val => '(r', old_size) ← handle_upsert (handle_of g i) key val; g ← write_handle g i r'; mret (g, old_size)
  | call_remove i key => '(r', removed_size) ← handle_remove (handle_of g i) key; g ← write_handle g i r'; mret (g, removed_size)
  | call_assign i j => g ← assign g i (pointer g j); mret (g, 0)
  | call_get_top i =>
      r' ← get_top_root (top g);
      g ← (match r' with Some h => assign (new_root g (h_id h)) i (Some (length (root_objects g))) | None => assign g i None end); mret (g, 0)
  | call_set_top i => t ← set_top_root (top g) (handle_of g i); mret ({| top := t; root_objects := root_objects g; pointers := pointers g |}, 0)
  end.

(** ** The specification: a map per pointer *)

Record maps := { top_map : gmap bytes bytes; pointer_maps : list (gmap bytes bytes) }.
Definition map_at (u : maps) (i : nat) : gmap bytes bytes := default ∅ (pointer_maps u !! i).
Definition set_map (u : maps) (i : nat) (m : gmap bytes bytes) : maps := {| top_map := top_map u; pointer_maps := <[i := m]> (pointer_maps u) |}.

Definition exec_maps (u : maps) (c : call) : maps * Z :=
  match c with
  | call_upsert i key val => (set_map u i (<[key := val]> (map_at u i)), size_of bytes_size (map_at u i !! key))
  | call_remove i key => (set_map u i (delete key (map_at u i)), size_of bytes_size (map_at u i !! key))
  | call_assign i j => (set_map u i (map_at u j), 0)
  | call_get_top i => (set_map u i (top_map u), 0)
  | call_set_top i => ({| top_map := map_at u i; pointer_maps := pointer_maps u |}, 0)
  end.

(** ** The invariant *)

(** The roots have the trees [T]; the counts of the store are exact. *)
Record sound (s : store) (g : session) (t : option (trie payload)) (T : list (option (trie payload))) : Prop := {
  sound_owns : owns s ∅ (top g :: root_objects g);
  sound_top : den_root (view s ∅) (top g) t;
  sound_roots : Forall2 (den_root (view s ∅)) (root_objects g) T;
  sound_pointers i k : pointers g !! i = Some (Some k) -> (k < length (root_objects g))%nat
}.

Lemma cnt_insert z l k x y : l !! k = Some x -> (cnt z (<[k := y]> l) + cnt z [x] = cnt z l + cnt z [y])%nat.
Proof.
  intros Hk. rewrite <- (take_drop_middle l k x Hk) at 2. rewrite insert_take_drop by (by eapply lookup_lt_Some). rewrite !cnt_app, !cnt_cons. cbn. lia.
Qed.
(** The reference of one root is taken out. *)
Lemma owns_root s H t l k x : l !! k = Some x -> owns s H (t :: l) -> owns s H (x :: t :: <[k := 0%N]> l).
Proof.
  intros Hk. apply owns_perm. intros z Hz. pose proof (cnt_insert z l k x 0%N Hk) as E. rewrite !cnt_cons in *. destruct (N.eq_dec 0 z); [congruence|]. cbn in E. lia.
Qed.
Lemma owns_root_back s H t l k x y : l !! k = Some x -> owns s H (y :: t :: <[k := 0%N]> l) -> owns s H (t :: <[k := y]> l).
Proof.
  intros Hk. apply owns_perm. intros z Hz. pose proof (cnt_insert z l k x 0%N Hk) as E. pose proof (cnt_insert z l k x y Hk) as E'. rewrite !cnt_cons in *. destruct (N.eq_dec 0 z); [congruence|]. cbn in E, E'. lia.
Qed.
Lemma same_root s s' H O i r : same_trees s s' H O -> i ∈ O -> den_root (view s H) i r -> den_root (view s' H) i r.
Proof. intros Ht Hi. destruct r as [t|]; [|done]. by apply Ht. Qed.
(** The other roots keep their trees. *)
Lemma same_roots s s' H t l T k y r : same_trees s s' H (t :: <[k := 0%N]> l) -> Forall2 (den_root (view s H)) l T -> den_root (view s' H) y r -> Forall2 (den_root (view s' H)) (<[k := y]> l) (<[k := r]> T).
Proof.
  intros Ht Hl Hy. apply Forall2_same_length_lookup_2; [by rewrite !length_insert, (Forall2_length _ _ _ Hl)|]. intros j x u Hj Hu.
  destruct (decide (j = k)) as [->|Hne].
  - apply list_lookup_insert_Some in Hj as [(_ & <- & _)|[? _]]; [|done]. apply list_lookup_insert_Some in Hu as [(_ & <- & _)|[? _]]; done.
  - assert (Hx : x ∈ t :: <[k := 0%N]> l) by (right; apply list_elem_of_lookup; exists j; rewrite list_lookup_insert_ne in Hj |- * by auto; done). rewrite list_lookup_insert_ne in Hj by auto. rewrite list_lookup_insert_ne in Hu by auto.
    eapply same_root; [exact Ht|exact Hx|]. by apply (Forall2_lookup_lr _ _ _ _ _ _ Hl Hj Hu).
Qed.

(** ** Pointers *)

Lemma use_count_split ps k l p r : ps = l ++ p :: r -> use_count ps k = use_count l k + (if points_to k p then 1 else 0) + use_count r k.
Proof. intros ->. unfold use_count. rewrite List.filter_app. cbn [List.filter]. rewrite length_app. destruct (points_to k p); cbn [length]; lia. Qed.
Lemma use_count_nonneg ps k : 0 <= use_count ps k.
Proof. unfold use_count. lia. Qed.
Lemma use_count_pos ps i k : ps !! i = Some (Some k) -> 0 < use_count ps k.
Proof.
  intros Hi. rewrite <- (take_drop_middle ps i _ Hi). erewrite use_count_split by done. cbn [points_to]. rewrite Nat.eqb_refl. pose proof (use_count_nonneg (take i ps) k). pose proof (use_count_nonneg (drop (S i) ps) k). lia.
Qed.
Lemma use_count_one ps i j k : ps !! i = Some (Some k) -> use_count ps k = 1 -> i <> j -> ps !! j <> Some (Some k).
Proof.
  intros Hi Hone Hne Hj. rewrite <- (take_drop_middle ps i _ Hi) in Hone. erewrite use_count_split in Hone by done. cbn [points_to] in Hone. rewrite Nat.eqb_refl in Hone.
  pose proof (use_count_nonneg (take i ps) k). pose proof (use_count_nonneg (drop (S i) ps) k). destruct (decide (j < i)%nat).
  - assert (Hj' : take i ps !! j = Some (Some k)) by (by rewrite lookup_take_lt). apply use_count_pos in Hj'. lia.
  - assert (Hj' : drop (S i) ps !! (j - S i)%nat = Some (Some k)) by (rewrite lookup_drop, <- Hj; f_equal; lia). apply use_count_pos in Hj'. lia.
Qed.
Lemma pointer_lookup g i k : pointer g i = Some k <-> pointers g !! i = Some (Some k).
Proof. unfold pointer. destruct (pointers g !! i) as [[k'|]|]; cbn; split; congruence. Qed.

(** The tree of a pointer. *)
Definition tree_of (T : list (option (trie payload))) (p : option nat) : option (trie payload) := match p with Some k => default None (T !! k) | None => None end.

Lemma wp_assign s g t T i p : sound s g t T -> (i < length (pointers g))%nat -> (forall k, p = Some k -> (k < length (root_objects g))%nat) ->
  wp (assign g i p) s (fun g' s' => exists T', sound s' g' t T' /\ pointers g' = <[i := p]> (pointers g) /\ forall k, 0 < use_count (pointers g') k -> T' !! k = T !! k).
Proof.
  intros [S1 S2 S3 S4] Hi Hp. assert (Hps : forall j k, <[i := p]> (pointers g) !! j = Some (Some k) -> (k < length (root_objects g))%nat).
  { intros j k Hj. apply list_lookup_insert_Some in Hj as [(_ & E & _)|[_ Hj]]; [by apply Hp|by eapply S4]. }
  unfold assign. destruct (pointer g i) as [k|] eqn:Ek; [|apply wp_ret; by exists T]. destruct (use_count _ k =? 0) eqn:Ec; [|apply wp_ret; by exists T]. zbool.
  apply pointer_lookup in Ek. destruct (lookup_lt_is_Some_2 (root_objects g) k ltac:(by eapply S4)) as [x Hx]. rewrite Hx. cbn [default].
  apply wp_bind. eapply (wp_release s ∅ (top g :: <[k := 0%N]> (root_objects g)) x); [by apply owns_root|]. intros s' [R1 R2 R3 R4 R5]. apply wp_ret. exists (<[k := None]> T). split; [|split; [done|]].
  - constructor; cbn [top root_objects pointers]; [done|eapply same_root; [exact R2|left|done]|by eapply same_roots|]. intros j k'. rewrite length_insert. apply Hps.
  - cbn [pointers]. intros k' Hk'. rewrite list_lookup_insert_ne; [done|]. intros ->. lia.
Qed.

(** A root that is made for the tree [r]. *)
Lemma sound_new s s' g t T y r : sound s g t T -> same_trees s s' ∅ (top g :: root_objects g) -> owns s' ∅ (y :: top g :: root_objects g) -> den_root (view s' ∅) y r -> sound s' (new_root g y) t (T ++ [r]).
Proof.
  intros [S1 S2 S3 S4] Ht HO Hy. constructor; cbn [new_root top root_objects pointers].
  - eapply owns_perm; [|exact HO]. intros z _. apply cnt_perm. rewrite Permutation_swap. apply Permutation_skip. apply Permutation_cons_append.
  - eapply same_root; [exact Ht|left|done].
  - apply Forall2_app; [|by constructor]. apply Forall2_same_length_lookup_2; [by apply (Forall2_length _ _ _ S3)|]. intros j x u Hj Hu. eapply same_root; [exact Ht| |by apply (Forall2_lookup_lr _ _ _ _ _ _ S3 Hj Hu)].
    right. apply list_elem_of_lookup. by exists j.
  - intros i k Hi. rewrite length_app. apply S4 in Hi. lia.
Qed.

(** ** Steps *)

(** The pointer [i] has the tree [t'] now, the others have theirs. *)
Definition moved (s' : store) (g g' : session) (t : option (trie payload)) (T : list (option (trie payload))) (i : nat) (t' : option (trie payload)) : Prop :=
  exists T', sound s' g' t T' /\ length (pointers g') = length (pointers g) /\ tree_of T' (pointer g' i) = t' /\ forall j, j <> i -> tree_of T' (pointer g' j) = tree_of T (pointer g j).

Lemma pointer_insert_ne g g' i p j : pointers g' = <[i := p]> (pointers g) -> j <> i -> pointer g' j = pointer g j.
Proof. intros E Hne. unfold pointer. by rewrite E, list_lookup_insert_ne by auto. Qed.
Lemma pointer_insert_eq g g' i p : pointers g' = <[i := p]> (pointers g) -> (i < length (pointers g))%nat -> pointer g' i = p.
Proof. intros E Hi. unfold pointer. by rewrite E, list_lookup_insert_eq. Qed.

(** The trees after an assignment. *)
Lemma assign_trees s g g' t T T' i p : sound s g t T -> pointers g' = <[i := p]> (pointers g) -> (i < length (pointers g))%nat -> (forall k, 0 < use_count (pointers g') k -> T' !! k = T !! k) ->
  (tree_of T' (pointer g' i) = tree_of T p) /\ forall j, j <> i -> tree_of T' (pointer g' j) = tree_of T (pointer g j).
Proof.
  intros HS E Hi HT. split.
  - rewrite (pointer_insert_eq _ _ _ _ E Hi). destruct p as [k|]; [|done]. cbn. rewrite HT; [done|]. apply (use_count_pos _ i). by rewrite E, list_lookup_insert_eq.
  - intros j Hj. rewrite (pointer_insert_ne _ _ _ _ _ E Hj). destruct (pointer g j) as [k|] eqn:Ek; [|done]. cbn. rewrite HT; [done|]. apply pointer_lookup in Ek. apply (use_count_pos _ j). by rewrite E, list_lookup_insert_ne by auto.
Qed.
Lemma wp_assign_new s s' g t T i y t' : sound s g t T -> (i < length (pointers g))%nat -> same_trees s s' ∅ (top g :: root_objects g) -> owns s' ∅ (y :: top g :: root_objects g) -> den_root (view s' ∅) y t' ->
  wp (assign (new_root g y) i (Some (length (root_objects g)))) s' (fun g' s2 => moved s2 g g' t T i t').
Proof.
  intros HS Hi Ht HO Hy. pose proof (sound_new s s' g t T y t' HS Ht HO Hy) as HN. pose proof (Forall2_length _ _ _ (sound_roots _ _ _ _ HS)) as Hlen.
  eapply wp_mono; [|apply (wp_assign s' (new_root g y) t _ i (Some (length (root_objects g))) HN); [done|intros k [= <-]; cbn; rewrite length_app; cbn; lia]].
  intros g' s2 (T' & HS' & Eps & HT). exists T'. split; [done|]. split; [by rewrite Eps, length_insert|]. destruct (assign_trees s' (new_root g y) g' t _ T' i _ HN Eps Hi HT) as [E1 E2]. split.
  - rewrite E1. cbn. rewrite Hlen, lookup_app_r, Nat.sub_diag by lia. done.
  - intros j Hj. rewrite E2 by done. change (pointer (new_root g y) j) with (pointer g j). destruct (pointer g j) as [k|] eqn:Ek; [|done]. cbn. apply pointer_lookup in Ek. apply (sound_pointers _ _ _ _ HS) in Ek. by rewrite lookup_app_l by lia.
Qed.

(** The references that the pointer [i] does not own. *)
Definition rest (g : session) (i : nat) : list id :=
  match pointer g i with
  | Some k => if get_unique (handle_of g i) then top g :: <[k := 0%N]> (root_objects g) else top g :: root_objects g
  | None => top g :: root_objects g
  end.
Lemma owns_rest s g t T i : sound s g t T -> owns s ∅ (owned (handle_of g i) ++ rest g i).
Proof.
  intros HS. unfold rest, owned. destruct (pointer g i) as [k|] eqn:Ek; [|unfold handle_of; rewrite Ek; by destruct HS]. destruct (get_unique (handle_of g i)) eqn:Eu; [|by destruct HS].
  apply pointer_lookup in Ek as Hk. destruct (lookup_lt_is_Some_2 (root_objects g) k ltac:(by eapply (sound_pointers _ _ _ _ HS))) as [x Hx]. unfold handle_of. rewrite Ek. cbn [get_id h_id]. rewrite Hx. cbn [default app]. apply owns_root; [done|by destruct HS].
Qed.
Lemma tree_den s g t T i : sound s g t T -> den_root (view s ∅) (get_id (handle_of g i)) (tree_of T (pointer g i)).
Proof.
  intros HS. unfold handle_of. destruct (pointer g i) as [k|] eqn:Ek; [|done]. cbn. apply pointer_lookup, (sound_pointers _ _ _ _ HS) in Ek. destruct (lookup_lt_is_Some_2 _ _ Ek) as [x Hx].
  destruct (Forall2_lookup_l _ _ _ _ _ (sound_roots _ _ _ _ HS) Hx) as (r & Hr & Hd). by rewrite Hx, Hr.
Qed.

Lemma wp_write_handle s s' g t T i r' t' m : sound s g t T -> (i < length (pointers g))%nat -> handle_post s s' (rest g i) [] m r' t' -> (get_unique r' = true \/ r' = handle_of g i /\ t' = tree_of T (pointer g i)) ->
  wp (write_handle g i r') s' (fun g' s2 => moved s2 g g' t T i t').
Proof.
  intros HS Hi [P1 P2 P3 P4] Hr. cbn [app] in P1. unfold write_handle, rest in *.
  assert (Hsame : same_trees s s' ∅ (top g :: root_objects g) -> owns s' ∅ (top g :: root_objects g) -> t' = tree_of T (pointer g i) -> moved s' g g t T i t').
  { intros Ht HO E. exists T. split; [|by split; [|split]]. destruct HS as [S1 S2 S3 S4]. constructor; [done|eapply same_root; [exact Ht|left|done]| |done].
    apply Forall2_same_length_lookup_2; [by apply (Forall2_length _ _ _ S3)|]. intros j x w Hj Hw. eapply same_root; [exact Ht|right; apply list_elem_of_lookup; by exists j|by apply (Forall2_lookup_lr _ _ _ _ _ _ S3 Hj Hw)]. }
  unfold owned in P1. destruct r' as [h|].
  2:{ destruct Hr as [?|[E Et]]; [done|]. unfold handle_of in E. destruct (pointer g i) as [k|]; [done|]. apply wp_ret. by apply Hsame. }
  destruct (pointer g i) as [k|] eqn:Ek.
  2:{ assert (Hu : get_unique (Some h) = true) by (destruct Hr as [?|[E _]]; [done|unfold handle_of in E; by rewrite Ek in E]). rewrite Hu in P1. by eapply wp_assign_new. }
  apply pointer_lookup in Ek as Hk. pose proof (sound_pointers _ _ _ _ HS _ _ Hk) as Hlt. destruct (lookup_lt_is_Some_2 _ _ Hlt) as [x Hx]. destruct (get_unique (handle_of g i)) eqn:Eu.
  - assert (Hu : get_unique (Some h) = true) by (destruct Hr as [?|[E _]]; [done|by rewrite E]). rewrite Hu in P1. cbn [get_id app] in *. apply wp_ret. exists (<[k := t']> T). destruct HS as [S1 S2 S3 S4]. split; [|split; [done|split]].
    + constructor; cbn [top root_objects pointers]; [by eapply owns_root_back|eapply same_root; [exact P3|left|done]|by eapply same_roots|]. intros j k' Hj. rewrite length_insert. by eapply S4.
    + change (tree_of (<[k := t']> T) (pointer g i) = t'). rewrite Ek. cbn. rewrite list_lookup_insert_eq; [done|]. by rewrite <- (Forall2_length _ _ _ S3).
    + intros j Hj. change (tree_of (<[k := t']> T) (pointer g j) = tree_of T (pointer g j)). destruct (pointer g j) as [k'|] eqn:Ek'; [|done]. cbn. rewrite list_lookup_insert_ne; [done|]. intros ->.
      apply pointer_lookup in Ek'. eapply (use_count_one _ i j k' Hk); [|auto|exact Ek']. unfold handle_of in Eu. rewrite Ek in Eu. cbn in Eu. by zbool.
  - destruct (get_unique (Some h)) eqn:Euh.
    + cbn in Euh. apply andb_prop in Euh as [_ Euh]. rewrite Euh. by eapply wp_assign_new.
    + destruct Hr as [?|[E Et]]; [done|]. assert (Eone : (h_use_count h =? 1) = false).
      { unfold handle_of in Eu, E. rewrite Ek in Eu, E. injection E as ->. exact Eu. }
      rewrite Eone. apply wp_ret. by apply Hsame.
Qed.

(** ** Maps *)

Definition good (r : option (trie payload)) (m : gmap bytes bytes) : Prop := tree_ok r /\ contents r = Bytes <$> m.

Lemma good_get r m key : good r m -> bytes_ok key -> root_get r key = Bytes <$> m !! key.
Proof. intros [Hr Hm] Hk. by rewrite <- contents_get, Hm, lookup_fmap. Qed.
Lemma good_size r m key : good r m -> bytes_ok key -> size_of payload_size (root_get r key) = size_of bytes_size (m !! key).
Proof. intros Hg Hk. rewrite (good_get r m key Hg Hk). by destruct (m !! key). Qed.
Lemma good_updated r r' m key (o : option bytes) : good r m -> bytes_ok key -> tree_ok r' -> (forall k, get_root r' k = updated (get_root r) (to_key6 key) (Bytes <$> o) k) -> good r' (partial_alter (fun _ => o) key m).
Proof.
  intros [Hr Hm] Hk Hr' Hg. split; [done|]. rewrite (contents_updated r r' key (Bytes <$> o)) by done. rewrite Hm. apply map_eq. intros k. rewrite lookup_fmap.
  destruct (decide (k = key)) as [->|Hne]; [by rewrite !lookup_partial_alter_eq|by rewrite !lookup_partial_alter_ne, lookup_fmap by auto].
Qed.
Lemma good_upsert r m key val : good r m -> bytes_ok key -> (length key <= max_key_bytes)%nat -> good (upsert payload_size r key (Bytes val)).1 (<[key := val]> m) /\ (upsert payload_size r key (Bytes val)).2 = size_of bytes_size (m !! key).
Proof.
  intros Hg Hk Hl. split.
  - apply (good_updated r _ m key (Some val)); [done|done|apply upsert_tree_ok; [done|done|apply Hg]|apply get_upsert_root].
  - rewrite <- (good_size r m key Hg Hk). destruct r as [t|]; [|done]. cbn. rewrite <- (add_size payload_size t (to_key6 key) (Bytes val)). by destruct (add_child _ _ _ _).
Qed.
Lemma good_remove r m key : good r m -> bytes_ok key -> good (remove payload_size r key).1 (delete key m) /\ (remove payload_size r key).2 = size_of bytes_size (m !! key).
Proof.
  intros Hg Hk. split.
  - apply (good_updated r _ m key None); [done|done|apply remove_tree_ok; [done|apply Hg]|apply get_remove_root].
  - rewrite <- (good_size r m key Hg Hk). destruct r as [t|]; [|done]. apply remove_size.
Qed.
Lemma good_bytes r m key ids : good r m -> bytes_ok key -> root_get r key <> Some (Roots ids).
Proof. intros Hg Hk. rewrite (good_get r m key Hg Hk). by destruct (m !! key). Qed.

(** ** Refinement *)

Definition refines (s : store) (g : session) (u : maps) : Prop :=
  exists t T, sound s g t T /\ good t (top_map u) /\ length (pointers g) = length (pointer_maps u) /\ forall i, (i < length (pointers g))%nat -> good (tree_of T (pointer g i)) (map_at u i).

(** The pointer [i] gets the map [m]. *)
Lemma moved_refines s' g g' t T u i t' m : good t (top_map u) -> length (pointers g) = length (pointer_maps u) -> (forall i, (i < length (pointers g))%nat -> good (tree_of T (pointer g i)) (map_at u i)) ->
  (i < length (pointers g))%nat -> moved s' g g' t T i t' -> good t' m -> refines s' g' (set_map u i m).
Proof.
  intros Ht Hlen Hgood Hi (T' & HS & Elen & Ei & Ej) Hg. exists t, T'. split; [done|]. split; [done|]. split; [cbn; by rewrite length_insert, Elen|]. intros j Hj. rewrite Elen in Hj. unfold map_at. cbn [set_map pointer_maps].
  destruct (decide (j = i)) as [->|Hne]; [rewrite Ei, list_lookup_insert_eq by lia; done|]. rewrite Ej, list_lookup_insert_ne by auto. by apply Hgood.
Qed.

(** The counts have room for what the call adds to them. *)
Definition call_room (c : call) : nat :=
  match c with
  | call_upsert _ key _ | call_remove _ key => 65 * S (length (to_key6 key))
  | call_assign _ _ => 0
  | call_get_top _ | call_set_top _ => 1
  end.
(** The pointers are among the [n] of the program; a key that is inserted has at
    most 191 bytes, which the source does not check. *)
Definition call_ok (n : nat) (c : call) : Prop :=
  match c with
  | call_upsert i key _ => (i < n)%nat /\ bytes_ok key /\ (length key <= max_key_bytes)%nat
  | call_remove i key => (i < n)%nat /\ bytes_ok key
  | call_assign i j => (i < n)%nat /\ (j < n)%nat
  | call_get_top i | call_set_top i => (i < n)%nat
  end.

Section step.
Context (s : store) (g : session) (u : maps) (t : option (trie payload)) (T : list (option (trie payload))).
Hypotheses (HS : sound s g t T) (Ht : good t (top_map u)) (Hlen : length (pointers g) = length (pointer_maps u)) (HT : forall i, (i < length (pointers g))%nat -> good (tree_of T (pointer g i)) (map_at u i)).
#[local] Set Default Proof Using "Type".

Lemma upsert_refines i key val : (i < length (pointers g))%nat -> bytes_ok key -> (length key <= max_key_bytes)%nat -> room (65 * S (length (to_key6 key))) s ->
  wp (exec g (call_upsert i key val)) s (fun p s' => refines s' p.1 (exec_maps u (call_upsert i key val)).1 /\ p.2 = (exec_maps u (call_upsert i key val)).2).
Proof using HS Ht Hlen HT.
  intros Hi Hk Hl Hm. apply wp_bind. destruct (good_upsert _ _ key val (HT i Hi) Hk Hl) as [Hg Esz].
  eapply wp_mono; [|apply (wp_handle_upsert s (rest g i) (handle_of g i) (tree_of T (pointer g i)) key (Bytes val) 0)].
  - intros [r' old] s' (L & HP & Hu & E & HL). rewrite (HL (fun ids => good_bytes _ _ _ ids (HT i Hi) Hk)) in HP. cbn [fst snd] in *. cbn beta iota. apply wp_bind.
    eapply wp_mono; [|eapply wp_write_handle; [exact HS|exact Hi|exact HP|by left]]. intros g' s2 HM. apply wp_ret. cbn [fst snd exec_maps]. split; [exact (moved_refines _ g g' t T u i _ _ Ht Hlen HT Hi HM Hg)|congruence].
  - cbn [proots app]. by eapply owns_rest.
  - by apply (tree_den s g t T).
  - apply (HT i Hi).
  - done.
  - done.
  - cbn. lia.
  - eapply room_le; [|exact Hm]. lia.
Qed.
Lemma remove_refines i key : (i < length (pointers g))%nat -> bytes_ok key -> room (65 * S (length (to_key6 key))) s ->
  wp (exec g (call_remove i key)) s (fun p s' => refines s' p.1 (exec_maps u (call_remove i key)).1 /\ p.2 = (exec_maps u (call_remove i key)).2).
Proof using HS Ht Hlen HT.
  intros Hi Hk Hm. apply wp_bind. destruct (good_remove _ _ key (HT i Hi) Hk) as [Hg Esz].
  eapply wp_mono; [|apply (wp_handle_remove s (rest g i) (handle_of g i) (tree_of T (pointer g i)) key 0)].
  - intros [r' old] s' (HP & Hu & E). cbn [fst snd] in *. cbn beta iota. apply wp_bind.
    eapply wp_mono; [|eapply wp_write_handle; [exact HS|exact Hi|exact HP|exact Hu]]. intros g' s2 HM. apply wp_ret. cbn [fst snd exec_maps]. split; [exact (moved_refines _ g g' t T u i _ _ Ht Hlen HT Hi HM Hg)|congruence].
  - by eapply owns_rest.
  - by apply (tree_den s g t T).
  - apply (HT i Hi).
  - eapply room_le; [|exact Hm]. lia.
Qed.
Lemma assign_refines i p m : (i < length (pointers g))%nat -> (forall k, p = Some k -> (k < length (root_objects g))%nat) -> good (tree_of T p) m -> wp (assign g i p) s (fun g' s' => refines s' g' (set_map u i m)).
Proof using HS Ht Hlen HT.
  intros Hi Hp Hg. eapply wp_mono; [|apply (wp_assign s g t T i p HS Hi Hp)]. intros g' s' (T' & HS' & Eps & HT'). eapply moved_refines; [done..| |exact Hg].
  exists T'. split; [done|]. split; [by rewrite Eps, length_insert|]. by apply (assign_trees s g g' t T T' i p HS).
Qed.
Lemma get_top_refines i : (i < length (pointers g))%nat -> room 1 s -> wp (exec g (call_get_top i)) s (fun p s' => refines s' p.1 (set_map u i (top_map u)) /\ p.2 = 0).
Proof using HS Ht Hlen HT.
  intros Hi Hm. pose proof HS as [S1 S2 S3 S4]. apply wp_bind. unfold get_top_root. destruct (top g =? 0)%N eqn:E0.
  - apply N.eqb_eq in E0. apply wp_ret, wp_bind. eapply wp_mono; [|apply (assign_refines i None (top_map u) Hi)]; [intros g' s' HR; by apply wp_ret|done|].
    destruct t as [t'|]; [|exact Ht]. cbn [den_root] in S2. destruct (den_nonnull s ∅ _ _ t' S1 S2) as (? & _ & _). done.
  - apply N.eqb_neq in E0. apply wp_bind. eapply (wp_bump s ∅ (top g :: root_objects g) (top g) 0); [done| |done|].
    { right. destruct t as [t'|]; cbn [den_root] in S2; [|done]. by destruct (live_den s ∅ _ t' S2). }
    intros s' HO' Hv' _ _ _. apply wp_ret, wp_bind. cbn [h_id].
    eapply wp_mono; [|eapply (wp_assign_new s s' g t T i (top g) t HS Hi); [by apply same_trees_eq|done|by rewrite Hv']]. intros g' s2 HM. apply wp_ret. cbn [fst snd]. split; [exact (moved_refines _ g g' t T u i _ _ Ht Hlen HT Hi HM Ht)|done].
Qed.
Lemma set_top_refines i : (i < length (pointers g))%nat -> room 1 s ->
  wp (exec g (call_set_top i)) s (fun p s' => refines s' p.1 {| top_map := map_at u i; pointer_maps := pointer_maps u |} /\ p.2 = 0).
Proof using HS Ht Hlen HT.
  intros Hi Hm. pose proof HS as [S1 S2 S3 S4]. pose proof (tree_den s g t T i HS) as Hd. apply wp_bind. unfold set_top_root. destruct (top g =? get_id (handle_of g i))%N eqn:Eid.
  - apply N.eqb_eq in Eid. apply wp_ret, wp_ret. cbn [fst snd]. split; [|done]. exists (tree_of T (pointer g i)), T. split; [|split; [by apply HT|done]]. constructor; cbn [top root_objects pointers]; [done|by rewrite Eid|done|done].
  - apply wp_bind. eapply (wp_bump s ∅ (top g :: root_objects g) (get_id (handle_of g i)) 0); [done| |done|].
    { destruct (tree_of T (pointer g i)) as [t'|]; cbn [den_root] in Hd; [|by left]. destruct (live_den s ∅ _ t' Hd) as [?|?]; [by left|by right]. }
    intros s' HO' Hv' _ _ _. apply wp_bind. eapply (wp_release s' ∅ (get_id (handle_of g i) :: root_objects g) (top g)); [eapply owns_perm; [|exact HO']; intros z _; apply cnt_perm; constructor|].
    intros s2 [R1 R2 R3 R4 R5]. apply wp_ret, wp_ret. cbn [fst snd]. split; [|done]. exists (tree_of T (pointer g i)), T. split; [|split; [by apply HT|done]].
    constructor; cbn [top root_objects pointers]; [done|eapply same_root; [exact R2|left|by rewrite Hv']| |done].
    apply Forall2_same_length_lookup_2; [by apply (Forall2_length _ _ _ S3)|]. intros j x w Hj Hw. eapply same_root; [exact R2|right; apply list_elem_of_lookup; by exists j|]. rewrite Hv'. by apply (Forall2_lookup_lr _ _ _ _ _ _ S3 Hj Hw).
Qed.
End step.

Lemma exec_refines s g u c : refines s g u -> call_ok (length (pointers g)) c -> room (call_room c) s ->
  wp (exec g c) s (fun p s' => refines s' p.1 (exec_maps u c).1 /\ p.2 = (exec_maps u c).2 /\ length (pointers p.1) = length (pointers g)).
Proof.
  intros (t & T & HS & Ht & Hlen & HT) Hc Hm. assert (Hlast : wp (exec g c) s (fun p s' => refines s' p.1 (exec_maps u c).1 /\ p.2 = (exec_maps u c).2)).
  { destruct c as [i key val|i key|i j|i|i]; cbn [call_ok call_room] in Hc, Hm.
    - destruct Hc as (? & ? & ?). by eapply upsert_refines.
    - destruct Hc. by eapply remove_refines.
    - destruct Hc as [Hi Hj]. apply wp_bind. eapply wp_mono; [|eapply (assign_refines s g u t T HS Ht Hlen HT i (pointer g j) (map_at u j) Hi); [|by apply HT]]; [intros g' s' HR; by apply wp_ret|].
      intros k Ek%pointer_lookup. by apply (sound_pointers _ _ _ _ HS) in Ek.
    - by eapply get_top_refines.
    - by eapply set_top_refines. }
  eapply wp_mono; [|exact Hlast]. intros p s' [HR E]. split; [done|]. split; [done|]. destruct HR as (? & ? & _ & _ & Hl & _). rewrite Hl, Hlen. destruct c; cbn; by rewrite ?length_insert.
Qed.

(** ** Runs *)

Fixpoint run (cs : list call) (g : session) : st (session * list Z) :=
  match cs with
  | [] => mret (g, [])
  | c :: cs => '(g, n) ← exec g c; '(g, ns) ← run cs g; mret (g, n :: ns)
  end.
Fixpoint run_maps (cs : list call) (u : maps) : maps * list Z :=
  match cs with
  | [] => (u, [])
  | c :: cs => let '(u, n) := exec_maps u c in let '(u, ns) := run_maps cs u in (u, n :: ns)
  end.
(** No count comes near to its limit during the run. *)
Fixpoint roomy (cs : list call) (g : session) (s : store) : bool :=
  match cs with
  | [] => true
  | c :: cs => has_room (call_room c) s && match exec g c s with Ok ((g, _), s) => roomy cs g s | Abort _ => true end
  end.

Lemma run_refines cs : forall s g u, refines s g u -> Forall (call_ok (length (pointers g))) cs -> roomy cs g s = true ->
  wp (run cs g) s (fun p s' => refines s' p.1 (run_maps cs u).1 /\ p.2 = (run_maps cs u).2 /\ length (pointers p.1) = length (pointers g)).
Proof.
  induction cs as [|c cs IH]; intros s g u HR Hok Hroom; cbn [run run_maps]; [by apply wp_ret|]. apply Forall_cons in Hok as [Hc Hok]. cbn [roomy] in Hroom. apply andb_prop in Hroom as [Hroom Hrest].
  pose proof (exec_refines s g u c HR Hc (has_room_spec _ _ Hroom)) as Hstep. apply wp_bind. unfold wp in Hstep |- *. destruct (exec g c s) as [[[g1 n] s1]|]; [|done]. cbn [fst snd] in Hstep. destruct Hstep as (HR1 & -> & Hl).
  destruct (exec_maps u c) as [u1 n1]. cbn [fst snd] in *. rewrite <- Hl in Hok. specialize (IH s1 g1 u1 HR1 Hok Hrest). apply wp_bind. unfold wp in IH |- *. destruct (run cs g1 s1) as [[[g2 ns] s2]|]; [|done].
  destruct (run_maps cs u1) as [u2 ns2]. cbn [fst snd] in *. destruct IH as (HR2 & E2 & Hl2). cbn. split; [done|]. split; [by rewrite E2|congruence].
Qed.

(** [n] null pointers and an empty store. *)
Definition new_session (n : nat) : session := {| top := 0%N; root_objects := []; pointers := replicate n None |}.
Definition new_maps (n : nat) : maps := {| top_map := ∅; pointer_maps := replicate n ∅ |}.
Lemma good_empty : good None ∅.
Proof. split; [apply empty_tree_ok|]. unfold contents. cbn. by rewrite fmap_empty. Qed.
Lemma new_refines n : refines empty_store (new_session n) (new_maps n).
Proof.
  exists None, []. split; [|split; [apply good_empty|split; [cbn; by rewrite !length_replicate|]]].
  - constructor; [apply owns_empty|done|constructor|]. intros i k Hi. cbn in Hi. apply lookup_replicate in Hi as [? _]. done.
  - intros i Hi. cbn in Hi. rewrite length_replicate in Hi. unfold pointer, map_at. cbn. rewrite !lookup_replicate_2 by done. apply good_empty.
Qed.

(** ** The theorems *)

(** A key of 192 bytes has 256 characters, one more than the node of its value can
    say. *)
Lemma long_key_cut : (upsert bytes_size None (replicate 192 0) [1]).1 = Some (value_node (replicate 256 0) [1]) /\
  run [call_upsert 0 (replicate 192 0) [1]] (new_session 1) empty_store = Abort undefined.
Proof. split; vm_compute; reflexivity. Qed.

Lemma run_new n cs : Forall (call_ok n) cs -> roomy cs (new_session n) empty_store = true ->
  wp (run cs (new_session n)) empty_store (fun p s' => refines s' p.1 (run_maps cs (new_maps n)).1 /\ p.2 = (run_maps cs (new_maps n)).2 /\ length (pointers p.1) = n).
Proof.
  intros Hok Hroom. assert (Hn : length (pointers (new_session n)) = n) by (cbn; apply length_replicate). rewrite <- Hn in Hok. pose proof (run_refines cs _ _ _ (new_refines n) Hok Hroom) as Hr. by rewrite Hn in Hr.
Qed.

(** C3: A program that holds [n] pointers and runs a sequence of updates, copies,
    loads and commits, in which the keys that are inserted have at most 191 bytes
    and no reference count comes near to its 15 bits ([roomy]), sees independent
    finite maps: every size that an update reports and every value that a lookup
    finds afterwards, for any key, are those of the specification, in which each
    pointer has a map of its own.  The only failure is the exception of the
    allocator for an object that is too big; in particular no reference is to an
    object that was freed, and no key of a node is cut to the 8 bits of its size.
    Without the two conditions it fails ([saturated_child_undercounted],
    [long_key_cut]). *)
Theorem sessions_refine_maps n cs : Forall (call_ok n) cs -> roomy cs (new_session n) empty_store = true ->
  match run cs (new_session n) empty_store with
  | Ok (g, sizes, s) =>
      sizes = (run_maps cs (new_maps n)).2 /\
      forall i key, (i < n)%nat -> bytes_ok key -> handle_get (handle_of g i) key s = Ok (Bytes <$> map_at (run_maps cs (new_maps n)).1 i !! key, s)
  | Abort m => m = too_big
  end.
Proof.
  intros Hok Hroom. pose proof (run_new n cs Hok Hroom) as Hr. unfold wp in Hr. destruct (run cs (new_session n) empty_store) as [[[g sizes] s]|m]; [|done]. cbn [fst snd] in Hr.
  destruct Hr as ((t & T & HS & _ & _ & HT) & Es & Hlen). split; [done|]. intros i key Hi Hk. rewrite <- Hlen in Hi. specialize (HT i Hi). unfold handle_get.
  rewrite (store_get_den _ s ∅ _ _ (tree_of T (pointer g i)) (to_key6 key) (sound_owns _ _ _ _ HS)); [|by apply (tree_den s g t T)|lia]. by rewrite <- root_get_root, (good_get _ _ _ HT Hk).
Qed.

(** C24: After any such sequence, of keys of at most 191 bytes and with counts that
    stay away from their limit ([roomy]), the store is well formed: the count of every object is
    the number of references to it from the nodes and the roots, every reference is
    to an object that exists, no object is without references, and the ids of the
    free list are not in use. *)
Theorem sessions_store_ok n cs : Forall (call_ok n) cs -> roomy cs (new_session n) empty_store = true ->
  match run cs (new_session n) empty_store with
  | Ok (g, _, s) =>
      (forall x, x <> 0%N -> rc s x = Z.of_nat (refs (view s ∅) x + cnt x (top g :: root_objects g))) /\
      (forall x o y, objects s !! x = Some o -> 0 < ref o /\ (y ∈ references (obj o) -> y <> 0%N -> is_Some (objects s !! y))) /\
      NoDup (first_free s) /\ (forall x, x ∈ first_free s -> objects s !! x = None)
  | Abort m => m = too_big
  end.
Proof.
  intros Hok Hroom. pose proof (run_new n cs Hok Hroom) as Hr. unfold wp in Hr. destruct (run cs (new_session n) empty_store) as [[[g sizes] s]|m]; [|done]. cbn [fst snd] in Hr.
  destruct Hr as ((t & T & [HO _ _ _] & _) & _ & _). split; [|split; [|split]].
  - intros x Hx. rewrite (own_count _ _ _ HO x Hx), decide_False by set_solver. f_equal. lia.
  - intros x o y Ho. split; [by apply (own_pos _ _ _ HO x)|]. intros Hy Hy0. destruct (owns_live s ∅ _ y HO Hy0) as (o' & Ho' & _); [|by eexists].
    assert (Hv : view s ∅ !! x = Some (obj o)) by (apply view_lookup; exists o; set_solver). pose proof (refs_elem _ _ _ _ Hv Hy). lia.
  - apply (own_free _ _ _ HO).
  - intros x Hx. destruct (own_free _ _ _ HO) as [_ Hf]. rewrite Forall_forall in Hf. by apply Hf.
Qed.

(** Two pointers: an update, a commit, a load into the other pointer, updates of
    both, a copy, and an update of the copy. *)
Definition example_calls : list call :=
  [call_upsert 0 [1; 2; 3] [10]; call_upsert 0 [1; 2] [20]; call_upsert 0 [1; 200] [30]; call_set_top 0; call_get_top 1; call_upsert 1 [1; 2] [21]; call_remove 0 [1; 2; 3];
   call_assign 2 1; call_upsert 2 [1; 2; 4] [40; 41]; call_remove 1 [1; 200]; call_set_top 1].
Lemma example_calls_ok : Forall (call_ok 3) example_calls.
Proof. unfold example_calls. repeat (apply Forall_cons; split; [cbn; repeat split; try bytes_solve; unfold max_key_bytes; cbn; lia|]). apply Forall_nil_2. Qed.

Lemma sessions_refine_maps_witness :
  match run example_calls (new_session 3) empty_store with
  | Ok (g, sizes, s) => sizes = [-1; -1; -1; 0; 0; 1; 1; 0; -1; 1; 0] /\ handle_get (handle_of g 0) [1; 2] s = Ok (Some (Bytes [20]), s)
  | Abort _ => False
  end.
Proof.
  pose proof (sessions_refine_maps 3 example_calls example_calls_ok ltac:(vm_compute; reflexivity)) as H.
  destruct (run example_calls (new_session 3) empty_store) as [[[g sizes] s]|m] eqn:E; [|vm_compute in E; discriminate E]. destruct H as [-> H]. split; [vm_compute; reflexivity|].
  rewrite H; [vm_compute; reflexivity|lia|bytes_solve].
Defined.
Lemma sessions_store_ok_witness :
  match run example_calls (new_session 3) empty_store with
  | Ok (g, _, s) => (0 < size (objects s))%nat /\ forall x, x <> 0%N -> rc s x = Z.of_nat (refs (view s ∅) x + cnt x (top g :: root_objects g))
  | Abort _ => False
  end.
Proof.
  pose proof (sessions_store_ok 3 example_calls example_calls_ok ltac:(vm_compute; reflexivity)) as H.
  destruct (run example_calls (new_session 3) empty_store) as [[[g sizes] s]|m] eqn:E; [|vm_compute in E; discriminate E]. split; [vm_compute in E; injection E as _ _ <-; vm_compute; lia|apply H].
Defined.
