(* ===== verification/AuthState.v ===== *)
(** * psibase: the verification services that follow from block headers

    Block signatures are checked by services.  A node that holds the state
    tracks the rows of the verification services it changes and, at the end of a
    block, announces the new set in the header ([updateAuthServices] of
    [BlockContext.cpp], fed by the row checks of [NativeFunctions.cpp]).  A node
    that sees headers only ([BlockAuthState] of [ForkDb.hpp],
    [headerValidation.hpp]) applies the announced change to a database that has
    nothing but these services.  The hash is a parameter. *)

From S2P Require Import Prelude Ordered Services.

(** ** Rows *)

(** The tables of the native database that verification depends on. *)
Record VerifyTables := {
  v_code : gmap Z CodeRow;
  v_codeByHash : gmap code_key bytes;
  v_proofWasmConfig : option WasmConfigRow
}.
Definition no_tables : VerifyTables := {| v_code := ∅; v_codeByHash := ∅; v_proofWasmConfig := None |}.
Definition set_v_code x (t : VerifyTables) : VerifyTables :=
  {| v_code := x; v_codeByHash := v_codeByHash t; v_proofWasmConfig := v_proofWasmConfig t |}.
Definition set_v_codeByHash x (t : VerifyTables) : VerifyTables :=
  {| v_code := v_code t; v_codeByHash := x; v_proofWasmConfig := v_proofWasmConfig t |}.
Definition set_v_proofWasmConfig x (t : VerifyTables) : VerifyTables :=
  {| v_code := v_code t; v_codeByHash := v_codeByHash t; v_proofWasmConfig := x |}.

Record BlockHeaderCode := { hc_vmType : Z; hc_vmVersion : Z; hc_code : bytes }.

#[export] Instance BlockHeaderAuthAccount_eq_dec : EqDecision BlockHeaderAuthAccount.
Proof. solve_decision. Defined.
#[export] Instance VMOptions_eq_dec : EqDecision VMOptions.
Proof. solve_decision. Defined.
#[export] Instance BlockHeaderWasmConfig_eq_dec : EqDecision BlockHeaderWasmConfig.
Proof. solve_decision. Defined.

(** [codeByHashKey]; the table number and the index are the same for all rows. *)
Definition account_key (s : BlockHeaderAuthAccount) : code_key := (baa_codeHash s, baa_vmType s, baa_vmVersion s).
Definition getCodeKeys (services : list BlockHeaderAuthAccount) : list code_key := sort_unique (map account_key services).

Definition verify_row (account : BlockHeaderAuthAccount) : CodeRow :=
  {| codeNum := baa_codeNum account; code_flags := isVerify; codeHash := baa_codeHash account;
     vmType := baa_vmType account; vmVersion := baa_vmVersion account |}.

(** ** headerValidation.hpp *)

Definition writeCode (db : VerifyTables) (accounts : list BlockHeaderAuthAccount) : VerifyTables :=
  foldl (fun db account => set_v_code (<[baa_codeNum account := verify_row account]> (v_code db)) db) db accounts.

Definition updateCode (db : VerifyTables) (oldServices services : list BlockHeaderAuthAccount) : VerifyTables :=
  let removedAccounts := set_difference (map baa_codeNum oldServices) (map baa_codeNum services) in
  let db := foldl (fun db account => set_v_code (delete account (v_code db)) db) db removedAccounts in
  writeCode db services.

Definition copyCodeByHash (dest src : VerifyTables) (services : list BlockHeaderAuthAccount) : result VerifyTables :=
  foldl (fun dest key =>
    dest ← dest;
    match v_codeByHash src !! key with
    | Some code => Ok (set_v_codeByHash (<[key := code]> (v_codeByHash dest)) dest)
    | None => Abort "Missing code for auth service"
    end) (Ok dest) (getCodeKeys services).

Definition wasm_row (wasmConfig : BlockHeaderWasmConfig) : WasmConfigRow :=
  {| numExecutionMemories := bw_numExecutionMemories wasmConfig; vmOptions := bw_vmOptions wasmConfig;
     maxHandles := maxHandles default_WasmConfigRow |}.
Definition writeWasmConfig (dest : VerifyTables) (wasmConfig : BlockHeaderWasmConfig) : VerifyTables :=
  set_v_proofWasmConfig (Some (wasm_row wasmConfig)) dest.

Definition copyServices (dest src : VerifyTables) (services : list BlockHeaderAuthAccount) (wasmConfig : BlockHeaderWasmConfig) : result VerifyTables :=
  dest ← copyCodeByHash dest src services;
  mret (writeWasmConfig (writeCode dest services) wasmConfig).

Section auth.
Context (sha256 : bytes -> Checksum256).

Definition makeCodeIndex (authCode : list BlockHeaderCode) : omap code_key BlockHeaderCode :=
  adopt_sequence (map (fun code => ((sha256 (hc_code code), hc_vmType code, hc_vmVersion code), code)) authCode).

Definition updateCodeByHash (db : VerifyTables) (oldServices newServices : list BlockHeaderAuthAccount)
    (authCode : list BlockHeaderCode) : result VerifyTables :=
  let prevKeys := getCodeKeys oldServices in
  let nextKeys := getCodeKeys newServices in
  let removed := set_difference prevKeys nextKeys in
  let added := set_difference nextKeys prevKeys in
  let code := makeCodeIndex authCode in
  check (includes nextKeys (map fst code)) "Wrong code" ;;
  let db := foldl (fun db r => set_v_codeByHash (delete r (v_codeByHash db)) db) db removed in
  foldl (fun db a =>
    db ← db;
    match find a code with
    | Some c => Ok (set_v_codeByHash (<[a := hc_code c]> (v_codeByHash db)) db)
    | None => Abort "Missing required code"
    end) (Ok db) added.

Definition updateServices (db : VerifyTables) (oldServices : list BlockHeaderAuthAccount) (oldWasmConfig : BlockHeaderWasmConfig)
    (newServices : list BlockHeaderAuthAccount) (newWasmConfig : BlockHeaderWasmConfig) (authCode : list BlockHeaderCode) : result VerifyTables :=
  db ← updateCodeByHash db oldServices newServices authCode;
  let db := updateCode db oldServices newServices in
  mret (if bool_decide (oldWasmConfig = newWasmConfig) then db else writeWasmConfig db newWasmConfig).

(** ** BlockAuthState *)

Record BlockAuthState := {
  auth_revision : VerifyTables;
  auth_services : list BlockHeaderAuthAccount;
  auth_wasmConfig : BlockHeaderWasmConfig
}.

(** [consensus.next ? consensus.next->consensus : consensus.current]. *)
Definition next_or_current (c : JointConsensus) : Consensus :=
  match next_consensus c with Some next => pending_consensus next | None => current_consensus c end.

(** [BlockHeaderWasmConfig{}]. *)
Definition no_wasmConfig : BlockHeaderWasmConfig :=
  {| bw_numExecutionMemories := 0;
     bw_vmOptions := {| max_mutable_global_bytes := 0; max_pages := 0; max_table_elements := 0; max_stack_bytes := 0 |} |}.

(** The constructor that reads the next or current state; [consensus] is that of
    the status row. *)
Definition BlockAuthState_read (consensus : option JointConsensus) (db : VerifyTables) : result BlockAuthState :=
  match consensus with
  | Some c =>
      let consensus := next_or_current c in
      revision ← copyServices no_tables db (services consensus) (wasmConfig consensus);
      mret {| auth_revision := revision; auth_services := services consensus; auth_wasmConfig := wasmConfig consensus |}
  | None => mret {| auth_revision := no_tables; auth_services := []; auth_wasmConfig := no_wasmConfig |}
  end.

(** The constructor that loads the current state from a given revision. *)
Definition BlockAuthState_load (consensus : option JointConsensus) (revision : option VerifyTables) : BlockAuthState :=
  {| auth_revision := default no_tables revision;
     auth_services := match consensus with Some c => services (current_consensus c) | None => [] end;
     auth_wasmConfig := no_wasmConfig |}.

Definition getUpdatedAuthServices (self : BlockAuthState) (newConsensus : option Consensus) : option Consensus :=
  match newConsensus with
  | Some result =>
      if negb (bool_decide (services result = auth_services self)) || negb (bool_decide (wasmConfig result = auth_wasmConfig self))
      then Some result else None
  | None => None
  end.

Definition BlockAuthState_update (prev : BlockAuthState) (authCode : option (list BlockHeaderCode))
    (newServices : list BlockHeaderAuthAccount) (newWasmConfig : BlockHeaderWasmConfig) : result BlockAuthState :=
  match authCode with
  | None => Abort "code must be provided when changing auth services"
  | Some authCode =>
      revision ← updateServices (auth_revision prev) (auth_services prev) (auth_wasmConfig prev) newServices newWasmConfig authCode;
      mret {| auth_revision := revision; auth_services := newServices; auth_wasmConfig := newWasmConfig |}
  end.

(** [BlockAuthState::next], of the fields of the header that it reads. *)
Definition BlockAuthState_next (prev : BlockAuthState) (newConsensus : option Consensus) (authCode : option (list BlockHeaderCode))
    : result BlockAuthState :=
  match getUpdatedAuthServices prev newConsensus with
  | Some newConsensus =>
      check (bool_decide (is_Some authCode)) "code must be provided when changing auth services" ;;
      BlockAuthState_update prev authCode (services newConsensus) (wasmConfig newConsensus)
  | None =>
      check (negb (bool_decide (is_Some authCode))) "authCode unexpected" ;;
      mret prev
  end.
(** ** The announcement at the end of a block *)

(** The local variables [visitedCodeKeys] and [authCode]. *)
Record code_visits := { visitedCodeKeys : gmap code_key bool; visit_authCode : list BlockHeaderCode }.

Section update.
Context (db : VerifyTables) (currentAuthServices : list BlockHeaderAuthAccount) (removedCode : gset code_key).

Definition origCodeKeys : list code_key := getCodeKeys currentAuthServices.

(** The lambda [hasCode]; [std::ranges::binary_search] in a sorted range is
    membership. *)
Definition hasCode (account : BlockHeaderAuthAccount) (existing : bool) (st : code_visits) : bool * code_visits :=
  let key := account_key account in
  match visitedCodeKeys st !! key with
  | Some b => (b, st)
  | None =>
      let visit b code := {| visitedCodeKeys := <[key := b]> (visitedCodeKeys st); visit_authCode := code |} in
      let existing := existing || bool_decide (key ∈ origCodeKeys) in
      if existing && negb (bool_decide (key ∈ removedCode)) then (true, visit true (visit_authCode st))
      else
        match v_codeByHash db !! key with
        | Some code =>
            (true, visit true
              (if existing then visit_authCode st
               else visit_authCode st ++ [{| hc_vmType := key.1.2; hc_vmVersion := key.2; hc_code := code |}]))
        | None => (false, visit false (visit_authCode st))
        end
  end.

(** Where the loop is: the rest of the current services, [hasCode]'s variables
    and [modifiedAuthServices]. *)
Record progress := { p_rest : list BlockHeaderAuthAccount; p_visits : code_visits; modifiedAuthServices : list BlockHeaderAuthAccount }.

(** Append [item] when its code exists. *)
Definition keep (item : BlockHeaderAuthAccount) (existing : bool) (rest : list BlockHeaderAuthAccount) (p : progress) : progress :=
  let '(has, visits) := hasCode item existing (p_visits p) in
  {| p_rest := rest; p_visits := visits; modifiedAuthServices := modifiedAuthServices p ++ (if has then [item] else []) |}.

(** The inner loop: copy the current services before [account]. *)
Fixpoint copy_untouched (account : AccountNumber) (rest : list BlockHeaderAuthAccount) (p : progress) : option BlockHeaderAuthAccount * progress :=
  match rest with
  | [] => (None, p)
  | item :: rest' =>
      if baa_codeNum item <? account then copy_untouched account rest' (keep item true rest' p)
      else if baa_codeNum item =? account then
        (Some item, {| p_rest := rest'; p_visits := p_visits p; modifiedAuthServices := modifiedAuthServices p |})
      else (None, p)
  end.

Definition row_account (row : CodeRow) : BlockHeaderAuthAccount :=
  {| baa_codeNum := codeNum row; baa_codeHash := codeHash row; baa_vmType := vmType row; baa_vmVersion := vmVersion row |}.
Definition row_verifies (row : CodeRow) : bool := negb (Z.land (code_flags row) isVerify =? 0).

(** One iteration of the loop over the modified accounts. *)
Definition visit_modified (p : progress) (account : AccountNumber) : progress :=
  let '(existing, p) := copy_untouched account (p_rest p) p in
  match v_code db !! account with
  | Some row =>
      if row_verifies row then keep (row_account row) (bool_decide (existing = Some (row_account row))) (p_rest p) p
      else p
  | None => p
  end.

(** The trailing [std::copy_if]. *)
Fixpoint copy_trailing (rest : list BlockHeaderAuthAccount) (p : progress) : progress :=
  match rest with
  | [] => p
  | item :: rest => copy_trailing rest (keep item true rest p)
  end.

Definition start_progress : progress :=
  {| p_rest := currentAuthServices; p_visits := {| visitedCodeKeys := ∅; visit_authCode := [] |}; modifiedAuthServices := [] |}.

(** The services and the code that the loops collect; [modifiedAuthAccounts] is
    a [std::set], iterated in order. *)
Definition collect_services (modifiedAuthAccounts : list AccountNumber) : progress :=
  let p := foldl visit_modified start_progress modifiedAuthAccounts in
  copy_trailing (p_rest p) p.
End update.

Definition proof_wasmConfig (db : VerifyTables) : BlockHeaderWasmConfig :=
  let row := default default_WasmConfigRow (v_proofWasmConfig db) in
  {| bw_numExecutionMemories := numExecutionMemories row; bw_vmOptions := vmOptions row |}.

Definition set_services (c : Consensus) (s : list BlockHeaderAuthAccount) (w : BlockHeaderWasmConfig) : Consensus :=
  {| data := data c; services := s; wasmConfig := w |}.

(** [updateAuthServices] on the consensus of the status row and the code in the
    header; [blockNum] is that of the current block. *)
Definition updateAuthServices (db : VerifyTables) (consensus : JointConsensus) (authCode : option (list BlockHeaderCode))
    (blockNum : BlockNum) (modifiedAuthAccounts : list AccountNumber) (removedCode : gset code_key)
    : JointConsensus * option (list BlockHeaderCode) :=
  let base := next_or_current consensus in
  let p := collect_services db (services base) removedCode modifiedAuthAccounts in
  let newWasmConfig := proof_wasmConfig db in
  if negb (bool_decide (modifiedAuthServices p = services base)) || negb (bool_decide (wasmConfig base = newWasmConfig)) then
    ({| current_consensus := current_consensus consensus;
        next_consensus := Some {| pending_consensus := set_services base (modifiedAuthServices p) newWasmConfig; pending_blockNum := blockNum |} |},
     Some (visit_authCode (p_visits p)))
  else (consensus, authCode).

(** ** What the writes of a block record *)

(** The part of a [BlockContext] that the checks of native rows touch. *)
Record row_context := { rc_tables : VerifyTables; rc_modified : list AccountNumber; rc_removed : gset code_key }.

Inductive row_write :=
| PutCodeRow (row : CodeRow)
| RemoveCodeRow (account : AccountNumber)
| PutCodeByHashRow (key : code_key) (code : bytes)
| RemoveCodeByHashRow (key : code_key)
| PutWasmConfigRow (row : WasmConfigRow).

Definition note_modified (account : AccountNumber) (noted : bool) (c : row_context) : list AccountNumber :=
  if noted then insert_unique account (rc_modified c) else rc_modified c.

(** [verifyCodeRow], [verifyRemoveCodeRow], [verifyCodeByHashRow] and
    [verifyRemoveCodeByHashRow], each with the write that it precedes; removing
    a row that does not exist does nothing. *)
Definition write_row (w : row_write) (c : row_context) : result row_context :=
  let t := rc_tables c in
  match w with
  | PutCodeRow row =>
      let oldIsAuth := match v_code t !! codeNum row with Some old => row_verifies old | None => false end in
      Ok {| rc_tables := set_v_code (<[codeNum row := row]> (v_code t)) t;
            rc_modified := note_modified (codeNum row) (oldIsAuth || row_verifies row) c; rc_removed := rc_removed c |}
  | RemoveCodeRow account =>
      match v_code t !! account with
      | Some old =>
          Ok {| rc_tables := set_v_code (delete account (v_code t)) t;
                rc_modified := note_modified (codeNum old) (row_verifies old) c; rc_removed := rc_removed c |}
      | None => Ok c
      end
  | PutCodeByHashRow key code =>
      check (bool_decide (key.1.1 = sha256 code)) "CodeByHashRow has incorrect codeHash" ;;
      Ok {| rc_tables := set_v_codeByHash (<[key := code]> (v_codeByHash t)) t; rc_modified := rc_modified c; rc_removed := rc_removed c |}
  | RemoveCodeByHashRow key =>
      match v_codeByHash t !! key with
      | Some _ =>
          Ok {| rc_tables := set_v_codeByHash (delete key (v_codeByHash t)) t; rc_modified := rc_modified c; rc_removed := {[key]} ∪ rc_removed c |}
      | None => Ok c
      end
  | PutWasmConfigRow row =>
      Ok {| rc_tables := set_v_proofWasmConfig (Some row) t; rc_modified := rc_modified c; rc_removed := rc_removed c |}
  end.

(** A transaction is a list of writes; when it fails, the session restores the
    tables but nothing restores what was noted. *)
Definition write_rows (ws : list row_write) (c : row_context) : result row_context :=
  foldl (fun c w => c ← c; write_row w c) (Ok c) ws.
Inductive transaction_writes : row_context -> row_context -> Prop :=
| writes_kept ws c c' : write_rows ws c = Ok c' -> transaction_writes c c'
| writes_undone ws c c' : write_rows ws c = Ok c' ->
    transaction_writes c {| rc_tables := rc_tables c; rc_modified := rc_modified c'; rc_removed := rc_removed c' |}.
Definition block_writes : row_context -> row_context -> Prop := rtc transaction_writes.

(** ** Verification services of a state *)

Definition verifying (db : VerifyTables) (item : BlockHeaderAuthAccount) : Prop :=
  exists row, v_code db !! baa_codeNum item = Some row /\ row_verifies row = true /\ row_account row = item.
Definition has_code (db : VerifyTables) (key : code_key) : bool := bool_decide (is_Some (v_codeByHash db !! key)).
Definition item_has_code (db : VerifyTables) (item : BlockHeaderAuthAccount) : bool := has_code db (account_key item).

(** [l] lists, in order, the services with a verification row and code. *)
Definition lists_services (db : VerifyTables) (l : list BlockHeaderAuthAccount) : Prop :=
  sorted (map baa_codeNum l) /\ forall item, item ∈ l <-> verifying db item /\ has_code db (account_key item) = true.

(** Rows are stored under the key that they determine. *)
Definition rows_ok (db : VerifyTables) : Prop :=
  (forall a row, v_code db !! a = Some row -> codeNum row = a) /\
  (forall key code, v_codeByHash db !! key = Some code -> sha256 code = key.1.1).

(** Code that a verification row of [P] lacks is there in [N] only when the row was
    written as well.  [SetCode] stores code together with the row that refers to
    it; a row without code, as [setFlags] makes one, has no hash. *)
Definition no_late_code (P N : VerifyTables) (modified : list AccountNumber) : Prop := forall item,
  verifying P item -> has_code P (account_key item) = false -> has_code N (account_key item) = true -> baa_codeNum item ∈ modified.

(** What changed from [P] to [N] was noted. *)
Definition noted (P N : VerifyTables) (modified : list AccountNumber) (removed : gset code_key) : Prop :=
  (forall item, baa_codeNum item ∉ modified -> verifying P item <-> verifying N item) /\
  (forall key, key ∉ removed -> has_code P key = true -> has_code N key = true).

Lemma verifying_code t1 t2 : v_code t1 = v_code t2 -> forall item, verifying t1 item <-> verifying t2 item.
Proof. intros E item. unfold verifying. by rewrite E. Qed.

Definition row_inv (P : VerifyTables) (c : row_context) : Prop :=
  rows_ok (rc_tables c) /\ sorted (rc_modified c) /\ noted P (rc_tables c) (rc_modified c) (rc_removed c).

Lemma note_modified_elem a b c x : x ∈ note_modified a b c <-> x ∈ rc_modified c \/ (b = true /\ x = a).
Proof. unfold note_modified. destruct b; [rewrite elem_of_insert_unique|]; intuition congruence. Qed.
Lemma note_modified_sorted a b c : sorted (rc_modified c) -> sorted (note_modified a b c).
Proof. unfold note_modified. destruct b; [apply insert_unique_sorted|done]. Qed.

(** A change of the row of [a] is noted when [a] is, or when neither row verifies. *)
Lemma noted_set_code t m a M R :
  (forall x, x <> a -> m !! x = v_code t !! x) ->
  a ∈ M \/ (forall row, v_code t !! a = Some row \/ m !! a = Some row -> row_verifies row = false) ->
  noted t (set_v_code m t) M R.
Proof.
  intros Hm Hn. split; [|done]. intros item Hi. unfold verifying. cbn [v_code set_v_code].
  destruct (decide (baa_codeNum item = a)) as [<-|Hne]; [|by rewrite Hm].
  destruct Hn as [|Hn]; [done|]. split; intros (row & E & V & _); rewrite Hn in V by eauto; done.
Qed.

Lemma noted_step P N N' m m' r r' :
  noted P N m r -> (forall x, x ∈ m -> x ∈ m') -> r ⊆ r' -> noted N N' m' r' -> noted P N' m' r'.
Proof.
  intros [H1 H2] Hm Hr [H3 H4]. split.
  - intros item Hi. rewrite H1, H3; [done|done|]. intros Hx. by apply Hi, Hm.
  - intros key Hk Hp. apply H4; [done|]. apply H2; [|done]. intros Hx. by apply Hk, Hr.
Qed.
Lemma noted_refl N m r : noted N N m r.
Proof. by split. Qed.

Lemma write_row_noted w c c' :
  rows_ok (rc_tables c) -> sorted (rc_modified c) -> write_row w c = Ok c' ->
  rows_ok (rc_tables c') /\ sorted (rc_modified c') /\ (forall x, x ∈ rc_modified c -> x ∈ rc_modified c') /\
  rc_removed c ⊆ rc_removed c' /\ noted (rc_tables c) (rc_tables c') (rc_modified c') (rc_removed c').
Proof.
  intros [Hk Hc] Hs E.
  assert (Hmn : forall a b x, x ∈ rc_modified c -> x ∈ note_modified a b c) by (intros; apply note_modified_elem; by left).
  destruct w as [row|a|key code|key|row]; cbn [write_row] in E.
  - injection E as <-. cbn [rc_tables rc_modified rc_removed].
    split; [split; [|done]; intros a r; cbn; destruct (decide (a = codeNum row)) as [->|Hne];
      [rewrite lookup_insert_eq; congruence|rewrite lookup_insert_ne by done; apply Hk]|].
    split; [by apply note_modified_sorted|]. split; [by apply Hmn|]. split; [done|].
    apply noted_set_code with (codeNum row); [intros; by rewrite lookup_insert_ne|].
    destruct (_ || row_verifies row) eqn:V; [left; apply note_modified_elem; by right|right]. apply orb_false_iff in V as [V1 V2].
    intros r [Hr|Hr]; [by rewrite Hr in V1|]. rewrite lookup_insert_eq in Hr. congruence.
  - destruct (v_code (rc_tables c) !! a) as [old|] eqn:Eo; injection E as <-; cbn [rc_tables rc_modified rc_removed].
    + split; [split; [|done]; intros x r; cbn; intros [_ Hx]%lookup_delete_Some; by apply Hk|].
      split; [by apply note_modified_sorted|]. split; [by apply Hmn|]. split; [done|].
      apply noted_set_code with a; [intros; by rewrite lookup_delete_ne|].
      destruct (row_verifies old) eqn:V; [left; apply note_modified_elem; right; split; [done|by rewrite (Hk _ _ Eo)]|right].
      intros r [Hr|Hr]; [congruence|]. by rewrite lookup_delete_eq in Hr.
    + repeat split; try done.
  - ok_inv. cbn. zbool. rewrite bool_decide_eq_true in *. split; [split; [done|]|].
    + intros k x; cbn; destruct (decide (k = key)) as [->|Hne]; [rewrite lookup_insert_eq; congruence|rewrite lookup_insert_ne by done; apply Hc].
    + repeat split; try done. intros k _. unfold has_code. cbn. rewrite !bool_decide_eq_true.
      destruct (decide (k = key)) as [->|Hne]; [by rewrite lookup_insert_eq|by rewrite lookup_insert_ne].
  - destruct (v_codeByHash (rc_tables c) !! key) as [old|] eqn:Eo; injection E as <-; cbn [rc_tables rc_modified rc_removed].
    + split; [split; [done|]; intros k x; cbn; intros [_ Hx]%lookup_delete_Some; by apply Hc|].
      split; [done|]. split; [done|]. split; [set_solver|]. split; [done|]. intros k Hk'. unfold has_code. cbn.
      rewrite lookup_delete_ne; [done|]. set_solver.
    + repeat split; try done.
  - injection E as <-. repeat split; try done.
Qed.

Lemma write_rows_noted ws c c' :
  rows_ok (rc_tables c) -> sorted (rc_modified c) -> write_rows ws c = Ok c' ->
  rows_ok (rc_tables c') /\ sorted (rc_modified c') /\ (forall x, x ∈ rc_modified c -> x ∈ rc_modified c') /\
  rc_removed c ⊆ rc_removed c' /\ noted (rc_tables c) (rc_tables c') (rc_modified c') (rc_removed c').
Proof.
  unfold write_rows. revert c. induction ws as [|w ws IH]; intros c Hok Hs E; cbn in E.
  - injection E as ->. split; [done|]. split; [done|]. split; [done|]. split; [done|apply noted_refl].
  - destruct (write_row w c) as [c1|m] eqn:E1; [|exfalso; clear -E; by induction ws].
    destruct (write_row_noted w c c1 Hok Hs E1) as (Hok1 & Hs1 & Hm1 & Hr1 & Hn1).
    destruct (IH c1 Hok1 Hs1 E) as (Hok2 & Hs2 & Hm2 & Hr2 & Hn2).
    split; [done|]. split; [done|]. split; [auto|]. split; [by trans (rc_removed c1)|]. by eapply noted_step.
Qed.

(** The notes of a block are complete, failed transactions included. *)
Lemma block_writes_noted c0 c :
  rc_modified c0 = [] -> rows_ok (rc_tables c0) -> block_writes c0 c ->
  rows_ok (rc_tables c) /\ sorted (rc_modified c) /\ noted (rc_tables c0) (rc_tables c) (rc_modified c) (rc_removed c).
Proof.
  intros Hm Hok H. cut (row_inv (rc_tables c0) c); [done|].
  assert (Hi : row_inv (rc_tables c0) c0) by (split; [done|]; split; [rewrite Hm; constructor|apply noted_refl]).
  revert Hi. generalize (rc_tables c0) as P. intros P Hi. clear Hm Hok.
  induction H as [|c1 c2 c3 Hst _ IH]; [done|]. apply IH. clear IH. destruct Hi as (Hok & Hs & Hn).
  destruct Hst as [ws c c' E|ws c c' E]; destruct (write_rows_noted ws c c' Hok Hs E) as (Hok' & Hs' & Hm' & Hr' & Hn').
  - split; [done|]. split; [done|]. by eapply noted_step.
  - split; [done|]. split; [done|]. cbn. eapply noted_step; [exact Hn|done|done|apply noted_refl].
Qed.

(** ** What the loops collect *)

Section collect.
Context (P N : VerifyTables) (cur : list BlockHeaderAuthAccount) (removed : gset code_key).
Context (Hcur : forall item, item ∈ cur -> has_code P (account_key item) = true).
Context (Hkept : forall key, key ∉ removed -> has_code P key = true -> has_code N key = true).

Lemma origCodeKeys_elem key : key ∈ origCodeKeys cur <-> key ∈ map account_key cur.
Proof. apply elem_of_sort_unique. Qed.

(** The loops have passed [items] to [hasCode]. *)
Definition code_of (c : BlockHeaderCode) (key : code_key) : Prop :=
  v_codeByHash N !! key = Some (hc_code c) /\ hc_vmType c = key.1.2 /\ hc_vmVersion c = key.2.
Definition visited_keys (st : code_visits) (keys : list code_key) : Prop :=
  (forall key b, visitedCodeKeys st !! key = Some b <-> key ∈ keys /\ b = has_code N key) /\
  (forall c, c ∈ visit_authCode st <-> exists key, key ∈ keys /\ (key ∉ origCodeKeys cur) /\ code_of c key).

Lemma visited_again st keys key : visited_keys st keys -> key ∈ keys -> visited_keys st (keys ++ [key]).
Proof.
  intros [Hv Hc] Hk. assert (Hin : forall k, k ∈ keys ++ [key] <-> k ∈ keys).
  { intros k. rewrite elem_of_app, list_elem_of_singleton. split; [intros [?| ->]|]; auto. }
  split; [intros k b; rewrite Hv, Hin; done|]. intros c. rewrite Hc. by setoid_rewrite Hin.
Qed.

(** A key that is visited for the first time adds [codes] to the header. *)
Lemma visited_new st keys key codes :
  visited_keys st keys -> key ∉ keys ->
  (forall c, c ∈ codes <-> (key ∉ origCodeKeys cur) /\ code_of c key) ->
  visited_keys {| visitedCodeKeys := <[key := has_code N key]> (visitedCodeKeys st); visit_authCode := visit_authCode st ++ codes |} (keys ++ [key]).
Proof.
  intros [Hv Hc] Hk Hcodes. split; cbn.
  - intros k b. rewrite elem_of_app, list_elem_of_singleton. destruct (decide (k = key)) as [->|Hne].
    + rewrite lookup_insert_eq. split; [intros [= <-]; auto|]. by intros [_ ->].
    + rewrite lookup_insert_ne by done. rewrite Hv. intuition.
  - intros c. rewrite elem_of_app, Hc, Hcodes. split.
    + intros [(k & ? & ? & ?)|[? ?]]; [exists k|exists key]; rewrite elem_of_app, list_elem_of_singleton; auto.
    + intros (k & Hin & ? & ?). apply elem_of_app in Hin as [?|Hk'%list_elem_of_singleton]; [left; eauto|right; by subst].
Qed.

Lemma hasCode_spec item existing st keys :
  (existing = true -> account_key item ∈ origCodeKeys cur) -> visited_keys st keys ->
  exists st', hasCode N cur removed item existing st = (has_code N (account_key item), st') /\ visited_keys st' (keys ++ [account_key item]).
Proof.
  intros He Hvis. unfold hasCode. set (key := account_key item) in *.
  destruct (visitedCodeKeys st !! key) as [b|] eqn:Ev.
  { apply Hvis in Ev as [Hk ->]. exists st. split; [done|]. by apply visited_again. }
  assert (Hnew : key ∉ keys). { intros Hk. destruct Hvis as [Hv _]. rewrite (proj2 (Hv key _) (conj Hk eq_refl)) in Ev. done. }
  replace (existing || bool_decide (key ∈ origCodeKeys cur)) with (bool_decide (key ∈ origCodeKeys cur))
    by (destruct existing; [rewrite bool_decide_true by auto|]; done).
  case_bool_decide as Ho; cbn [andb].
  - assert (Hcodes : forall c : BlockHeaderCode, c ∈ [] <-> (key ∉ origCodeKeys cur) /\ code_of c key)
      by (intros c; rewrite elem_of_nil; tauto).
    pose proof (visited_new st keys key [] Hvis Hnew Hcodes) as Hst. rewrite app_nil_r in Hst. case_bool_decide as Hr; cbn [negb].
    + unfold has_code in *. destruct (v_codeByHash N !! key); eauto.
    + assert (Hn : has_code N key = true). { apply Hkept; [done|]. apply origCodeKeys_elem, list_elem_of_In, in_map_iff in Ho as (i & <- & Hi).
        apply Hcur. by apply list_elem_of_In. }
      rewrite Hn in *. eauto.
  - unfold has_code in *. destruct (v_codeByHash N !! key) as [code|] eqn:En; cbn in *.
    + eexists. split; [reflexivity|].
      pose proof (visited_new st keys key [{| hc_vmType := key.1.2; hc_vmVersion := key.2; hc_code := code |}] Hvis Hnew) as Hst.
      unfold has_code in Hst. rewrite En in Hst. apply Hst. intros c. rewrite list_elem_of_singleton. unfold code_of. rewrite En. split.
      * intros ->. done.
      * intros (_ & [= ->] & <- & <-). by destruct c.
    + eexists. split; [reflexivity|]. pose proof (visited_new st keys key [] Hvis Hnew) as Hst. unfold has_code in Hst. rewrite En, app_nil_r in Hst.
      apply Hst. intros c. rewrite elem_of_nil. unfold code_of. rewrite En. split; [done|]. by intros (_ & [=] & _).
Qed.

(** The loops have passed [items] to [hasCode] and kept those with code. *)
Definition visited_items (p : progress) (items : list BlockHeaderAuthAccount) : Prop :=
  modifiedAuthServices p = List.filter (item_has_code N) items /\ visited_keys (p_visits p) (map account_key items).

Lemma keep_spec item existing rest p items :
  (existing = true -> item ∈ cur) -> visited_items p items ->
  visited_items (keep N cur removed item existing rest p) (items ++ [item]) /\ p_rest (keep N cur removed item existing rest p) = rest.
Proof.
  intros He [Hm Hv]. unfold keep. destruct (hasCode_spec item existing (p_visits p) (map account_key items)) as (st' & -> & Hst); [|done|].
  { intros E. apply origCodeKeys_elem, list_elem_of_In, in_map, list_elem_of_In. auto. }
  split; [|done]. split; cbn.
  - rewrite Hm, List.filter_app. cbn [List.filter]. change (item_has_code N item) with (has_code N (account_key item)). by destruct (has_code N (account_key item)).
  - by rewrite map_app.
Qed.

Abbreviation before account := (Forall (fun item => baa_codeNum item < account)).
Abbreviation after account := (Forall (fun item => account < baa_codeNum item)).

Lemma copy_untouched_spec account rest p items :
  sorted (map baa_codeNum rest) -> (forall item, item ∈ rest -> item ∈ cur) -> visited_items p items -> p_rest p = rest ->
  exists l ex p', copy_untouched N cur removed account rest p = (ex, p') /\
    rest = l ++ option_list ex ++ p_rest p' /\ before account l /\ after account (p_rest p') /\
    (forall item, ex = Some item -> baa_codeNum item = account) /\ visited_items p' (items ++ l).
Proof.
  revert p items. induction rest as [|item rest IH]; intros p items Hs Hsub Hv Hr; cbn [copy_untouched].
  - exists [], None, p. rewrite Hr, (app_nil_r items). by split_and!.
  - cbn in Hs. apply sorted_cons in Hs as [Hs Hl]. destruct (Z.ltb_spec (baa_codeNum item) account) as [Hlt|Hge].
    + destruct (keep_spec item true rest p items) as [Hv' Hr']; [intros _; apply Hsub; constructor|done|].
      destruct (IH _ _ Hs (fun i Hi => Hsub i (list_elem_of_further _ _ _ Hi)) Hv' Hr') as (l & ex & p' & -> & -> & Hb & Ha & He & Hv2).
      exists (item :: l), ex, p'. rewrite <- app_assoc in Hv2. split_and!; try done. by constructor.
    + destruct (Z.eqb_spec (baa_codeNum item) account) as [Heq|Hne].
      * exists [], (Some item), {| p_rest := rest; p_visits := p_visits p; modifiedAuthServices := modifiedAuthServices p |}.
        rewrite (app_nil_r items). split_and!; try done; [|by intros ? [= <-]].
        subst. cbn. rewrite Forall_map in Hl. exact Hl.
      * exists [], None, p. rewrite Hr, (app_nil_r items). split_and!; try done.
        constructor; [lia|]. rewrite Forall_map in Hl. eapply Forall_impl; [exact Hl|]. intros x Hx. cbn in *. unfold below, cmp, Z_compare in Hx.
        rewrite Z.compare_lt_iff in Hx. lia.
Qed.

Context (Hsorted : sorted (map baa_codeNum cur)) (HN : rows_ok N).

(** The loop has handled the accounts [done]: the current services up to there,
    untouched, and the rows of the modified accounts. *)
Definition loop_inv (done : list AccountNumber) (p : progress) (items : list BlockHeaderAuthAccount) : Prop :=
  exists past, cur = past ++ p_rest p /\ visited_items p items /\ sorted (map baa_codeNum items) /\
    (forall item, item ∈ items <-> (item ∈ past /\ baa_codeNum item ∉ done) \/ (baa_codeNum item ∈ done /\ verifying N item)) /\
    (forall item a, item ∈ p_rest p -> a ∈ done -> a < baa_codeNum item) /\
    (forall item, item ∈ past \/ item ∈ items -> exists a, a ∈ done /\ baa_codeNum item <= a).

Lemma verifying_row a item :
  baa_codeNum item = a -> verifying N item <-> exists row, v_code N !! a = Some row /\ row_verifies row = true /\ row_account row = item.
Proof. intros <-. done. Qed.

Lemma elem_map_num (l : list BlockHeaderAuthAccount) x : x ∈ map baa_codeNum l <-> exists i, i ∈ l /\ x = baa_codeNum i.
Proof. rewrite list_elem_of_In, in_map_iff. setoid_rewrite list_elem_of_In. split; intros (i & ? & ?); eauto. Qed.

Lemma visit_modified_spec done a p items :
  sorted (done ++ [a]) -> loop_inv done p items -> exists items', loop_inv (done ++ [a]) (visit_modified N cur removed p a) items'.
Proof.
  intros Hd (past & Ec & Hv & Hs & Hi & Hrest & Hpast). apply sorted_app in Hd as (_ & _ & Hd).
  assert (Hda : forall x, x ∈ done -> x < a). { intros x Hx. apply Z.compare_lt_iff, Hd; [done|constructor]. }
  rewrite Ec, map_app, sorted_app in Hsorted. destruct Hsorted as (_ & Hsr & _).
  destruct (copy_untouched_spec a (p_rest p) p items) as (l & ex & p' & E & Er & Hb & Ha & Hex & Hv'); [done| |done|done|].
  { intros i Hin. rewrite Ec. apply elem_of_app. by right. }
  unfold visit_modified. rewrite E. rewrite Forall_forall in Hb, Ha.
  assert (Hl : forall i, i ∈ l -> i ∈ p_rest p) by (intros i Hin; rewrite Er, elem_of_app; by left).
  set (rows := match v_code N !! a with Some row => if row_verifies row then [row_account row] else [] | None => [] end).
  assert (Hrows : forall i, i ∈ rows <-> baa_codeNum i = a /\ verifying N i).
  { intros i. destruct HN as [Hk _]. unfold rows. destruct (v_code N !! a) as [row|] eqn:Erow; [destruct (row_verifies row) eqn:V|];
      rewrite ?list_elem_of_singleton, ?elem_of_nil.
    - split; [intros ->; split; [by apply (Hk a row)|]; exists row; cbn; by rewrite (Hk _ _ Erow)|]. intros [En (r & Er' & _ & <-)]. congruence.
    - split; [done|]. intros [En (r & Er' & Vr & _)]. congruence.
    - split; [done|]. intros [En (r & Er' & Vr & _)]. congruence. }
  exists (items ++ l ++ rows).
  set (p2 := match v_code N !! a with Some row => _ | None => p' end).
  assert (Hp2 : visited_items p2 (items ++ l ++ rows) /\ p_rest p2 = p_rest p').
  { unfold p2, rows. rewrite app_assoc. destruct (v_code N !! a) as [row|] eqn:Erow; [|by rewrite app_nil_r].
    destruct (row_verifies row); [|by rewrite app_nil_r]. apply keep_spec; [|done]. intros Hx%bool_decide_eq_true.
    rewrite Ec, elem_of_app. right. rewrite Er, Hx. rewrite !elem_of_app. right. left. constructor. }
  destruct Hp2 as [Hv2 Hr2]. exists (past ++ l ++ option_list ex). rewrite Hr2.
  assert (Hexa : forall i, i ∈ option_list ex -> baa_codeNum i = a).
  { intros i. destruct ex as [e|]; cbn; [|by intros ?%elem_of_nil]. intros ->%list_elem_of_singleton. by apply Hex. }
  split; [by rewrite Ec at 1; rewrite Er, <- !app_assoc|]. split; [done|]. split; [|split; [|split]].
  - rewrite !map_app. apply sorted_app. split; [done|]. split; [apply sorted_app; split; [|split]|].
    + rewrite Er, map_app in Hsr. by apply sorted_app in Hsr as [].
    + unfold rows. destruct (v_code N !! a) as [row|]; [destruct (row_verifies row)|]; repeat constructor.
    + intros x y (i & Hin & ->)%elem_map_num (j & [Hj _]%Hrows & ->)%elem_map_num. apply Z.compare_lt_iff. rewrite Hj. by apply Hb.
    + intros x y (i & Hin & ->)%elem_map_num Hy. apply Z.compare_lt_iff. destruct (Hpast i (or_intror Hin)) as (d & Hdd & Hle).
      apply elem_of_app in Hy as [(j & Hj & ->)%elem_map_num|(j & [Hj _]%Hrows & ->)%elem_map_num].
      * specialize (Hrest j d (Hl j Hj) Hdd). lia.
      * specialize (Hda d Hdd). lia.
  - intros i. rewrite !elem_of_app, Hrows, list_elem_of_singleton, Hi. split.
    + intros [[[Hin Hnd]|[Hd1 Hv1]]|[Hin|[Hn Hv1]]].
      * left. split; [tauto|]. intros [?|Hia]; [done|]. destruct (Hpast i (or_introl Hin)) as (d & Hdd & Hle). specialize (Hda d Hdd). lia.
      * right. tauto.
      * left. split; [tauto|]. intros [Hd1|Hia]; [specialize (Hrest i _ (Hl i Hin) Hd1); lia|]. specialize (Hb i Hin). cbn in Hb. lia.
      * right. tauto.
    + intros [[[Hin|[Hin|Hin]] Hnd]|[[Hd1|Hn] Hv1]]; [tauto|tauto| |tauto|tauto]. apply Hexa in Hin. tauto.
  - intros i x Hin Hx. apply elem_of_app in Hx as [Hx|Hx%list_elem_of_singleton].
    + apply Hrest; [|done]. rewrite Er, !elem_of_app. by right; right.
    + subst. by apply Ha.
  - intros i Hin. destruct (decide (baa_codeNum i <= a)) as [Hle|Hgt]; [exists a; rewrite elem_of_app, list_elem_of_singleton; tauto|].
    exfalso. rewrite !elem_of_app, Hrows in Hin.
    assert (Hcase : i ∈ past \/ i ∈ items \/ i ∈ l \/ baa_codeNum i = a) by (specialize (Hexa i); tauto).
    destruct Hcase as [Hc|[Hc|[Hc|Hc]]]; [|destruct (Hpast i (or_intror Hc)) as (d & Hdd & Hle); specialize (Hda d Hdd); lia|specialize (Hb i Hc); cbn in Hb; lia|lia].
    destruct (Hpast i (or_introl Hc)) as (d & Hdd & Hle). specialize (Hda d Hdd). lia.
Qed.

Lemma copy_trailing_spec rest p items :
  (forall item, item ∈ rest -> item ∈ cur) -> visited_items p items -> visited_items (copy_trailing N cur removed rest p) (items ++ rest).
Proof.
  revert p items. induction rest as [|i rest IH]; intros p items Hsub Hv; cbn; [by rewrite app_nil_r|].
  replace (items ++ i :: rest) with ((items ++ [i]) ++ rest) by by rewrite <- app_assoc.
  apply IH; [intros x Hx; apply Hsub; by right|]. apply keep_spec; [|done]. intros _. apply Hsub. constructor.
Qed.

(** All in all, the items that the loops consider are the current services that
    were not modified and the verification rows of the modified accounts. *)
Lemma collect_services_spec modified :
  sorted modified ->
  exists items, visited_items (collect_services N cur removed modified) items /\ sorted (map baa_codeNum items) /\
    forall item, item ∈ items <-> (item ∈ cur /\ baa_codeNum item ∉ modified) \/ (baa_codeNum item ∈ modified /\ verifying N item).
Proof.
  intros Hm. assert (Hloop : forall todo done p items, sorted (done ++ todo) -> loop_inv done p items ->
    exists items', loop_inv (done ++ todo) (foldl (visit_modified N cur removed) p todo) items').
  { induction todo as [|a todo IH]; intros done p items Hs Hi; cbn; [rewrite app_nil_r; eauto|].
    replace (done ++ a :: todo) with ((done ++ [a]) ++ todo) in * by by rewrite <- app_assoc.
    destruct (visit_modified_spec done a p items) as [items' Hi']; [by apply sorted_app in Hs as []|done|]. by eapply IH. }
  destruct (Hloop modified [] (start_progress cur) []) as (items & past & Ec & Hv & Hs & Hi & Hrest & Hpast); [done| |].
  { exists []. split; [done|]. split; [|split; [constructor|split; [|split]]].
    - split; [done|]. split; [intros k b|intros c]; cbn; rewrite ?lookup_empty, ?elem_of_nil.
      + split; [done|tauto].
      + split; [done|]. intros (k & Hk & _). by apply elem_of_nil in Hk.
    - intros i. rewrite !elem_of_nil. tauto.
    - by intros ? ? ? ?%elem_of_nil.
    - by intros ? [?%elem_of_nil|?%elem_of_nil]. }
  cbn [app] in *. unfold collect_services. set (p := foldl _ _ _) in *. exists (items ++ p_rest p). split; [|split].
  - apply copy_trailing_spec; [|done]. intros i Hin. rewrite Ec, elem_of_app. by right.
  - rewrite map_app. apply sorted_app. split; [done|]. rewrite Ec, map_app, sorted_app in Hsorted. split; [tauto|].
    intros x y (i & Hin & ->)%elem_map_num (j & Hj & ->)%elem_map_num. destruct (Hpast i (or_intror Hin)) as (d & Hd & Hle).
    specialize (Hrest j d Hj Hd). apply Z.compare_lt_iff. lia.
  - intros i. rewrite elem_of_app, Hi. rewrite Ec at 1. rewrite elem_of_app. split; [|tauto].
    intros [[[? ?]|[? ?]]|Hin]; [tauto|tauto|]. left. split; [tauto|]. intros Hd. specialize (Hrest i _ Hin Hd). lia.
Qed.
End collect.

Lemma sorted_map_filter (f : BlockHeaderAuthAccount -> bool) l : sorted (map baa_codeNum l) -> sorted (map baa_codeNum (List.filter f l)).
Proof.
  induction l as [|i l IH]; cbn; [done|]. intros [Hs Hl]%sorted_cons. specialize (IH Hs). destruct (f i); [|done]. cbn.
  apply sorted_cons. split; [done|]. rewrite Forall_map in *. rewrite Forall_forall in *. intros x Hx. apply Hl.
  rewrite list_elem_of_In in *. by apply filter_In in Hx as [].
Qed.
Lemma elem_of_filter_code db item l : item ∈ List.filter (item_has_code db) l <-> item ∈ l /\ has_code db (account_key item) = true.
Proof. by rewrite !list_elem_of_In, filter_In. Qed.
Lemma getCodeKeys_elem key l : key ∈ getCodeKeys l <-> exists item, item ∈ l /\ account_key item = key.
Proof.
  unfold getCodeKeys. rewrite elem_of_sort_unique, list_elem_of_In, in_map_iff. setoid_rewrite list_elem_of_In.
  split; intros (i & ? & ?); eauto.
Qed.

(** The announced services are those of the new state, and the code in the
    header is the code that the old ones do not have. *)
Lemma collected P N cur modified removed :
  lists_services P cur -> no_late_code P N modified -> noted P N modified removed -> rows_ok N -> sorted modified ->
  let p := collect_services N cur removed modified in
  lists_services N (modifiedAuthServices p) /\
  forall c, c ∈ visit_authCode (p_visits p) <->
    exists key, key ∈ getCodeKeys (modifiedAuthServices p) /\ (key ∉ getCodeKeys cur) /\ code_of N c key.
Proof.
  intros [Hs Hcur] Hd [Hn1 Hn2] HN Hm p.
  destruct (collect_services_spec P N cur removed) with (modified := modified) as (items & [Em [_ Hc]] & Hsi & Hi); try done.
  { intros i Hi. by apply Hcur in Hi as []. }
  fold p in Em, Hc. rewrite Em. split; [split; [by apply sorted_map_filter|]|].
  - intros i. rewrite elem_of_filter_code, Hi. destruct (decide (baa_codeNum i ∈ modified)) as [Hin|Hin]; [tauto|].
    rewrite Hcur, <- (Hn1 i Hin). split; [tauto|]. intros [Hv Hh]. destruct (has_code P (account_key i)) eqn:Eh; [tauto|]. exfalso. by apply Hin, Hd.
  - intros c. rewrite Hc. apply exist_proper. intros key. rewrite getCodeKeys_elem. split.
    + intros (Hk & Ho & Hco). split_and!; try done. apply list_elem_of_In, in_map_iff in Hk as (i & <- & Hk). exists i. split; [|done].
      apply elem_of_filter_code. split; [by apply list_elem_of_In|]. destruct Hco as [E _]. unfold has_code. rewrite E. by apply bool_decide_eq_true.
    + intros ((i & Hin & <-) & Ho & Hco). split_and!; try done. apply list_elem_of_In, in_map, list_elem_of_In.
      by apply elem_of_filter_code in Hin as [].
Qed.

(** ** The database of the announced services *)

(** [rev] has the rows of the services [l] and nothing else. *)
Definition auth_image (src : VerifyTables) (l : list BlockHeaderAuthAccount) (w : BlockHeaderWasmConfig) (rev : VerifyTables) : Prop :=
  (forall item, item ∈ l -> v_code rev !! baa_codeNum item = Some (verify_row item)) /\
  (forall a, a ∉ map baa_codeNum l -> v_code rev !! a = None) /\
  (forall key, key ∈ getCodeKeys l -> v_codeByHash rev !! key = v_codeByHash src !! key) /\
  (forall key, key ∉ getCodeKeys l -> v_codeByHash rev !! key = None) /\
  v_proofWasmConfig rev = Some (wasm_row w).

Lemma auth_image_unique src l w rev1 rev2 : auth_image src l w rev1 -> auth_image src l w rev2 -> rev1 = rev2.
Proof.
  intros (A1 & B1 & C1 & D1 & E1) (A2 & B2 & C2 & D2 & E2).
  assert (v_code rev1 = v_code rev2). { apply map_eq. intros a. destruct (decide (a ∈ map baa_codeNum l)) as [Ha|Ha]; [|by rewrite B1, B2].
    apply list_elem_of_In, in_map_iff in Ha as (i & <- & Hi%list_elem_of_In). by rewrite A1, A2. }
  assert (v_codeByHash rev1 = v_codeByHash rev2). { apply map_eq. intros k. destruct (decide (k ∈ getCodeKeys l)); [by rewrite C1, C2|by rewrite D1, D2]. }
  destruct rev1, rev2; cbn in *. congruence.
Qed.

Lemma writeCode_tables db l : v_codeByHash (writeCode db l) = v_codeByHash db /\ v_proofWasmConfig (writeCode db l) = v_proofWasmConfig db.
Proof. unfold writeCode. revert db. induction l as [|i l IH]; intros db; [done|]. cbn. destruct (IH (set_v_code (<[baa_codeNum i:=verify_row i]> (v_code db)) db)) as [-> ->]. done. Qed.
Lemma writeCode_other db l a : a ∉ map baa_codeNum l -> v_code (writeCode db l) !! a = v_code db !! a.
Proof.
  unfold writeCode. revert db. induction l as [|i l IH]; intros db; [done|]. cbn. rewrite not_elem_of_cons. intros [Hne Hn].
  rewrite IH by done. cbn. by rewrite lookup_insert_ne.
Qed.
Lemma writeCode_in db l item : sorted (map baa_codeNum l) -> item ∈ l -> v_code (writeCode db l) !! baa_codeNum item = Some (verify_row item).
Proof.
  unfold writeCode. revert db. induction l as [|i l IH]; intros db; [by intros _ ?%elem_of_nil|]. cbn. intros [Hs Hl]%sorted_cons [->|Hin]%elem_of_cons.
  - rewrite writeCode_other; [cbn; by rewrite lookup_insert_eq|]. intros Hx. rewrite Forall_forall in Hl. by apply (below_irrefl (baa_codeNum i)), Hl.
  - by apply IH.
Qed.

(** A loop that stores a value for each of the keys [l], or aborts. *)
Lemma store_codes (f : code_key -> option bytes) msg l db :
  (forall key, key ∈ l -> is_Some (f key)) ->
  exists db', foldl (fun db key => db ← db; match f key with Some c => Ok (set_v_codeByHash (<[key := c]> (v_codeByHash db)) db) | None => Abort msg end) (Ok db) l = Ok db' /\
    v_code db' = v_code db /\ v_proofWasmConfig db' = v_proofWasmConfig db /\
    (forall key, key ∈ l -> v_codeByHash db' !! key = f key) /\ (forall key, key ∉ l -> v_codeByHash db' !! key = v_codeByHash db !! key).
Proof.
  revert db. induction l as [|k l IH]; intros db Hf; [exists db; split_and!; try done; by intros ? ?%elem_of_nil|]. cbn [foldl].
  destruct (Hf k) as [c Ec]; [constructor|]. cbn [mbind result_bind]. rewrite Ec.
  destruct (IH (set_v_codeByHash (<[k := c]> (v_codeByHash db)) db)) as (db' & E & E1 & E2 & Hin & Hout); [intros; apply Hf; by right|].
  exists db'. split_and!; [exact E|done|done|..]; intros key.
  - intros [->|Hk]%elem_of_cons; [|by apply Hin]. destruct (decide (k ∈ l)); [by apply Hin|]. rewrite Hout by done. cbn. by rewrite lookup_insert_eq.
  - rewrite not_elem_of_cons. intros [Hne Hk]. rewrite Hout by done. cbn. by rewrite lookup_insert_ne.
Qed.

Lemma copyServices_image src l w :
  sorted (map baa_codeNum l) -> (forall key, key ∈ getCodeKeys l -> has_code src key = true) ->
  exists rev, copyServices no_tables src l w = Ok rev /\ auth_image src l w rev.
Proof.
  intros Hs Hk. unfold copyServices, copyCodeByHash.
  destruct (store_codes (fun key => v_codeByHash src !! key) "Missing code for auth service" (getCodeKeys l) no_tables) as (db & -> & E1 & E2 & Hin & Hout).
  { intros key Hkey. apply Hk in Hkey. by apply bool_decide_eq_true in Hkey. }
  cbn [mbind result_bind]. eexists. split; [reflexivity|]. destruct (writeCode_tables db l) as [Eh _].
  split_and!; cbn; try done.
  - intros i Hi. by apply writeCode_in.
  - intros a Ha. rewrite writeCode_other by done. by rewrite E1.
  - intros key Hkey. rewrite Eh. by apply Hin.
  - intros key Hkey. rewrite Eh, Hout by done. done.
Qed.

Lemma delete_codes l db :
  let db' := foldl (fun db r => set_v_codeByHash (delete r (v_codeByHash db)) db) db l in
  v_code db' = v_code db /\ v_proofWasmConfig db' = v_proofWasmConfig db /\
  forall key, v_codeByHash db' !! key = if decide (key ∈ l) then None else v_codeByHash db !! key.
Proof.
  revert db. induction l as [|k l IH]; intros db; [by split_and!|]. cbn [foldl]. specialize (IH (set_v_codeByHash (delete k (v_codeByHash db)) db)).
  destruct IH as (-> & -> & E). split_and!; [done|done|]. intros key. rewrite E. cbn.
  destruct (decide (key ∈ l)) as [Hk|Hk], (decide (key ∈ k :: l)) as [Hk'|Hk']; try done; [exfalso; apply Hk'; by right|..].
  - apply elem_of_cons in Hk' as [->|]; [|done]. by rewrite lookup_delete_eq.
  - rewrite lookup_delete_ne; [done|]. intros ->. apply Hk'. constructor.
Qed.
Lemma delete_rows l db :
  let db' := foldl (fun db account => set_v_code (delete account (v_code db)) db) db l in
  v_codeByHash db' = v_codeByHash db /\ v_proofWasmConfig db' = v_proofWasmConfig db /\
  forall a, v_code db' !! a = if decide (a ∈ l) then None else v_code db !! a.
Proof.
  revert db. induction l as [|k l IH]; intros db; [by split_and!|]. cbn [foldl]. specialize (IH (set_v_code (delete k (v_code db)) db)).
  destruct IH as (-> & -> & E). split_and!; [done|done|]. intros key. rewrite E. cbn.
  destruct (decide (key ∈ l)) as [Hk|Hk], (decide (key ∈ k :: l)) as [Hk'|Hk']; try done; [exfalso; apply Hk'; by right|..].
  - apply elem_of_cons in Hk' as [->|]; [|done]. by rewrite lookup_delete_eq.
  - rewrite lookup_delete_ne; [done|]. intros ->. apply Hk'. constructor.
Qed.

Lemma makeCodeIndex_find authCode key c :
  find key (makeCodeIndex authCode) = Some c -> c ∈ authCode /\ key = (sha256 (hc_code c), hc_vmType c, hc_vmVersion c).
Proof.
  unfold makeCodeIndex. set (l := map _ authCode). intros Hf. assert (Hin : (key, c) ∈ l).
  { apply find_In in Hf; [|apply adopt_sequence_ok]. by apply adopt_sequence_elem. }
  apply list_elem_of_In, in_map_iff in Hin as (c' & [= <- <-] & Hc). by rewrite list_elem_of_In.
Qed.

Section next.
Context (P N : VerifyTables) (cur new : list BlockHeaderAuthAccount) (w w' : BlockHeaderWasmConfig) (authCode : list BlockHeaderCode).
Context (Hsha : Inj eq eq sha256) (HP : rows_ok P) (HN : rows_ok N).
Context (Hcur : lists_services P cur) (Hnew : lists_services N new).
Context (Hcode : forall c, c ∈ authCode <-> exists key, key ∈ getCodeKeys new /\ (key ∉ getCodeKeys cur) /\ code_of N c key).

Lemma lists_has_code db l key : lists_services db l -> key ∈ getCodeKeys l -> exists code, v_codeByHash db !! key = Some code.
Proof. intros [_ Hl] (i & Hi & <-)%getCodeKeys_elem. apply Hl in Hi as [_ Hi]. by apply bool_decide_eq_true in Hi. Qed.

Lemma code_of_key c key : code_of N c key -> key = (sha256 (hc_code c), hc_vmType c, hc_vmVersion c).
Proof. intros (E & -> & ->). destruct HN as [_ Hh]. rewrite (Hh _ _ E). by destruct key as [[? ?] ?]. Qed.

(** A code that stays keeps its content. *)
Lemma same_code key : key ∈ getCodeKeys cur -> key ∈ getCodeKeys new -> v_codeByHash P !! key = v_codeByHash N !! key.
Proof.
  intros H1 H2. destruct (lists_has_code P cur key Hcur H1) as [c1 E1], (lists_has_code N new key Hnew H2) as [c2 E2].
  rewrite E1, E2. f_equal. apply Hsha. destruct HP as [_ Hp], HN as [_ Hn]. by rewrite (Hp _ _ E1), (Hn _ _ E2).
Qed.

Lemma updateServices_image rev :
  auth_image P cur w rev -> exists rev', updateServices rev cur w new w' authCode = Ok rev' /\ auth_image N new w' rev'.
Proof.
  intros (A & B & C & D & E). unfold updateServices, updateCodeByHash.
  assert (Hfind : forall key, key ∈ getCodeKeys new -> key ∉ getCodeKeys cur ->
    exists c, find key (makeCodeIndex authCode) = Some c /\ v_codeByHash N !! key = Some (hc_code c)).
  { intros key Hk Ho. destruct (lists_has_code N new key Hnew Hk) as [code Ec].
    set (c := {| hc_vmType := key.1.2; hc_vmVersion := key.2; hc_code := code |}). assert (Hco : code_of N c key) by done.
    assert (Hin : c ∈ authCode) by (apply Hcode; eauto).
    destruct (find key (makeCodeIndex authCode)) as [c'|] eqn:Ef.
    - exists c'. split; [done|]. apply makeCodeIndex_find in Ef as [Hc' Ek]. apply Hcode in Hc' as (key' & _ & _ & Hco').
      pose proof (code_of_key _ _ Hco') as Ek'. rewrite <- Ek in Ek'. subst key'. by destruct Hco'.
    - apply find_None in Ef. exfalso. apply Ef. unfold makeCodeIndex. rewrite adopt_sequence_keys, map_map. cbn.
      apply list_elem_of_In, in_map_iff. exists c. rewrite <- (code_of_key c key Hco). split; [done|]. by apply list_elem_of_In. }
  assert (Hincl : includes (getCodeKeys new) (map fst (makeCodeIndex authCode)) = true).
  { apply includes_spec; [apply sort_unique_sorted|apply adopt_sequence_ok|]. intros key Hk. unfold makeCodeIndex in Hk.
    rewrite adopt_sequence_keys, map_map in Hk. apply list_elem_of_In, in_map_iff in Hk as (c & <- & Hc%list_elem_of_In). cbn.
    apply Hcode in Hc as (key & Hk & _ & Hco). by rewrite <- (code_of_key c key Hco). }
  rewrite Hincl. cbn [check mbind result_bind].
  assert (Hso : forall l, sorted (getCodeKeys l)) by (intros; apply sort_unique_sorted).
  set (db1 := foldl _ rev _). destruct (delete_codes (set_difference (getCodeKeys cur) (getCodeKeys new)) rev) as (E1 & E2 & E3). fold db1 in E1, E2, E3.
  set (f := fun key => hc_code <$> find key (makeCodeIndex authCode)).
  destruct (store_codes f "Missing required code" (set_difference (getCodeKeys new) (getCodeKeys cur)) db1) as (db2 & Ef & F1 & F2 & F3 & F4).
  { intros key [Hk Ho]%elem_of_set_difference; [|done|done]. destruct (Hfind key Hk Ho) as (c & Ec & _). unfold f. rewrite Ec. by eexists. }
  replace (foldl _ (Ok db1) _) with (Ok db2); [|rewrite <- Ef; apply foldl_ext; intros [?|?] key; [|done]; cbn; unfold f; by destruct (find key _)].
  cbn [mbind result_bind]. eexists. split; [reflexivity|]. unfold updateCode.
  set (db3 := foldl _ db2 _). destruct (delete_rows (set_difference (map baa_codeNum cur) (map baa_codeNum new)) db2) as (G1 & G2 & G3). fold db3 in G1, G2, G3.
  destruct (writeCode_tables db3 new) as [W1 W2].
  set (rev' := if bool_decide (w = w') then _ else _).
  assert (R1 : v_code rev' = v_code (writeCode db3 new)) by (unfold rev'; by case_bool_decide).
  assert (R2 : v_codeByHash rev' = v_codeByHash db2) by (unfold rev'; case_bool_decide; cbn; by rewrite W1).
  split_and!; rewrite ?R1, ?R2.
  - intros i Hi. apply writeCode_in; [apply Hnew|done].
  - intros a Ha. rewrite writeCode_other, G3 by done. case_decide as Hd; [done|]. rewrite F1, E1. apply B. intros Hc. apply Hd.
    apply elem_of_set_difference; [apply Hcur|apply Hnew|done].
  - intros key Hk. destruct (decide (key ∈ getCodeKeys cur)) as [Ho|Ho].
    + rewrite F4, E3; [|by intros [_ ?]%elem_of_set_difference]. rewrite decide_False by (by intros [_ ?]%elem_of_set_difference).
      rewrite C by done. by apply same_code.
    + rewrite F3 by by apply elem_of_set_difference. destruct (Hfind key Hk Ho) as (c & Ec & ->). unfold f. by rewrite Ec.
  - intros key Hk. rewrite F4, E3; [|by intros [? _]%elem_of_set_difference]. case_decide as Hd; [done|]. apply D. intros Hc. apply Hd.
    by apply elem_of_set_difference.
  - unfold rev'. case_bool_decide as Hw; [subst|done]. by rewrite W2, G2, F2, E2.
Qed.
End next.

Lemma read_image c db auth :
  lists_services db (services (next_or_current c)) -> BlockAuthState_read (Some c) db = Ok auth ->
  auth_services auth = services (next_or_current c) /\ auth_wasmConfig auth = wasmConfig (next_or_current c) /\
  auth_image db (auth_services auth) (auth_wasmConfig auth) (auth_revision auth).
Proof.
  intros Hl E. cbn in E. destruct (copyServices_image db (services (next_or_current c)) (wasmConfig (next_or_current c))) as (rev & Ec & Him); [apply Hl|..].
  { intros key Hk. destruct (lists_has_code _ _ _ Hl Hk) as [code Ec]. unfold has_code. rewrite Ec. by apply bool_decide_eq_true. }
  rewrite Ec in E. by injection E as <-.
Qed.
Lemma image_read c db rev :
  lists_services db (services (next_or_current c)) -> auth_image db (services (next_or_current c)) (wasmConfig (next_or_current c)) rev ->
  BlockAuthState_read (Some c) db =
  Ok {| auth_revision := rev; auth_services := services (next_or_current c); auth_wasmConfig := wasmConfig (next_or_current c) |}.
Proof.
  intros Hl Him. cbn. destruct (copyServices_image db (services (next_or_current c)) (wasmConfig (next_or_current c))) as (rev' & Ec & Him'); [apply Hl|..].
  { intros key Hk. destruct (lists_has_code _ _ _ Hl Hk) as [code Ec]. unfold has_code. rewrite Ec. by apply bool_decide_eq_true. }
  rewrite Ec. by rewrite (auth_image_unique _ _ _ _ _ Him Him').
Qed.

(** A node that follows headers only has the verification services of the full
    state: let the services that the consensus names at the start of a block be
    those of the state, and let any transactions run (failed ones included, whose
    writes are undone).  Then what [updateAuthServices] puts into the header is
    the sorted list of the verification services of the new state, and applying
    the header to the database of the old services succeeds and gives exactly
    what a node reads from the new state. *)
Theorem headers_carry_services c0 c consensus blockNum prev newConsensus :
  Inj eq eq sha256 -> rc_modified c0 = [] -> rows_ok (rc_tables c0) -> no_late_code (rc_tables c0) (rc_tables c) (rc_modified c) ->
  lists_services (rc_tables c0) (services (next_or_current consensus)) ->
  BlockAuthState_read (Some consensus) (rc_tables c0) = Ok prev ->
  block_writes c0 c ->
  let '(consensus', authCode) := updateAuthServices (rc_tables c) consensus None blockNum (rc_modified c) (rc_removed c) in
  newConsensus = Some (next_or_current consensus') \/ (newConsensus = None /\ authCode = None) ->
  lists_services (rc_tables c) (services (next_or_current consensus')) /\
  exists auth, BlockAuthState_next prev newConsensus authCode = Ok auth /\ BlockAuthState_read (Some consensus') (rc_tables c) = Ok auth.
Proof.
  intros Hsha Hm HP Hd Hcur Hread Hw. destruct (block_writes_noted c0 c Hm HP Hw) as (HN & Hsm & Hnoted).
  destruct (read_image _ _ _ Hcur Hread) as (Es & Ew & Him). rewrite Es, Ew in Him.
  destruct (collected _ _ _ _ _ Hcur Hd Hnoted HN Hsm) as [Hnew Hcode]. unfold updateAuthServices.
  set (p := collect_services _ _ _ _) in *. destruct (_ || _) eqn:Ech; intros Hnc.
  - assert (newConsensus = Some (set_services (next_or_current consensus) (modifiedAuthServices p) (proof_wasmConfig (rc_tables c)))) as ->
      by by destruct Hnc as [?|[_ ?]].
    split; [done|].
    destruct (updateServices_image _ _ _ _ _ (proof_wasmConfig (rc_tables c)) _ Hsha HP HN Hcur Hnew Hcode _ Him) as (rev' & Eu & Him').
    eexists. split; [|by apply (image_read (Build_JointConsensus (current_consensus consensus) (Some (Build_PendingConsensus
      (set_services (next_or_current consensus) (modifiedAuthServices p) (proof_wasmConfig (rc_tables c))) blockNum))) _ rev')].
    unfold BlockAuthState_next, getUpdatedAuthServices. cbn [services wasmConfig set_services next_or_current next_consensus pending_consensus] in *.
    rewrite Es, Ew. rewrite (bool_decide_ext (proof_wasmConfig (rc_tables c) = _) (wasmConfig (next_or_current consensus) = proof_wasmConfig (rc_tables c))) by done.
    rewrite Ech. cbn. by rewrite Es, Ew, Eu.
  - apply orb_false_iff in Ech as [Ech1 Ech2]. apply negb_false_iff, bool_decide_eq_true in Ech1, Ech2. rewrite Ech1 in Hnew. split; [done|].
    exists prev. split.
    + unfold BlockAuthState_next, getUpdatedAuthServices. destruct Hnc as [->|[-> _]]; [|done].
      rewrite Es, Ew. rewrite !bool_decide_true by done. done.
    + rewrite (image_read consensus _ (auth_revision prev)); [|done|].
      * rewrite <- Es, <- Ew. by destruct prev.
      * destruct Him as (A & B & C & D & E). split_and!; try done. intros key Hk. rewrite C by done.
        by apply (same_code (rc_tables c0) (rc_tables c) _ _ Hsha HP HN Hcur Hnew).
Qed.
End auth.

(** ** An example *)

Definition example_account (n : AccountNumber) (hash : bytes) : BlockHeaderAuthAccount :=
  {| baa_codeNum := n; baa_codeHash := hash; baa_vmType := 0; baa_vmVersion := 0 |}.
Definition example_tables : VerifyTables :=
  {| v_code := {[5 := verify_row (example_account 5 [7])]}; v_codeByHash := {[([7], 0, 0) := [7]]}; v_proofWasmConfig := None |}.
Definition example_joint : JointConsensus :=
  {| current_consensus := {| data := CftConsensus []; services := [example_account 5 [7]]; wasmConfig := no_wasmConfig |}; next_consensus := None |}.
Definition example_block : row_context := {| rc_tables := example_tables; rc_modified := []; rc_removed := ∅ |}.
Definition example_writes : list row_write :=
  [PutCodeByHashRow ([8], 0, 0) [8]; PutCodeRow (verify_row (example_account 3 [8])); PutCodeRow (verify_row (example_account 5 [8]));
   RemoveCodeByHashRow ([7], 0, 0)].
Definition example_block_end : row_context :=
  match write_rows (fun code => code) example_writes example_block with Ok c => c | Abort _ => example_block end.
Definition example_auth : BlockAuthState :=
  match BlockAuthState_read (Some example_joint) example_tables with Ok a => a | Abort _ => BlockAuthState_load None None end.

Lemma example_verifying item : verifying example_tables item <-> item = example_account 5 [7].
Proof.
  split.
  - intros (row & E & _ & <-). cbn [v_code example_tables] in E. apply lookup_singleton_Some in E as [_ <-]. done.
  - intros ->. by eexists.
Qed.
Lemma example_rows_ok : rows_ok (fun code => code) example_tables.
Proof. split; cbn [v_code v_codeByHash example_tables]; intros ? ?; by intros [<- <-]%lookup_singleton_Some. Qed.
Lemma example_no_late_code N modified : no_late_code example_tables N modified.
Proof. by intros item ->%example_verifying. Qed.
Lemma example_lists : lists_services example_tables (services (next_or_current example_joint)).
Proof.
  split; [by repeat constructor|]. intros item. rewrite example_verifying. cbn. rewrite list_elem_of_singleton.
  split; [by intros ->|]. by intros [-> _].
Qed.

(** An instance of [headers_carry_services]: a service is added, another one
    gets new code, and the old code is removed. *)
Lemma headers_carry_services_example :
  map baa_codeNum (services (next_or_current (updateAuthServices (rc_tables example_block_end) example_joint None 9
    (rc_modified example_block_end) (rc_removed example_block_end)).1)) = [3; 5] /\
  exists auth, BlockAuthState_read (Some (updateAuthServices (rc_tables example_block_end) example_joint None 9
    (rc_modified example_block_end) (rc_removed example_block_end)).1) (rc_tables example_block_end) = Ok auth.
Proof.
  split; [by vm_compute|].
  assert (Hw : block_writes (fun code => code) example_block example_block_end).
  { apply rtc_once, (writes_kept _ example_writes). by vm_compute. }
  pose proof (headers_carry_services (fun code => code) example_block example_block_end example_joint 9 example_auth
    (Some (next_or_current (updateAuthServices (rc_tables example_block_end) example_joint None 9
      (rc_modified example_block_end) (rc_removed example_block_end)).1)) ltac:(by intros ? ? ?) eq_refl example_rows_ok (example_no_late_code _ _)
    example_lists ltac:(by vm_compute) Hw) as H.
  destruct (updateAuthServices _ _ _ _ _ _) as [c' code]. destruct H as [_ (auth & _ & E)]; [by left|]. by exists auth.
Defined.
