(* ===== verification/HeaderState.v ===== *)
(** * psibase: producer schedules, from headers and from the database

    [ProducerSet], [BlockHeaderState] and [LightHeaderState] of [ForkDb.hpp], and
    the handling of the consensus in [BlockContext::start] and
    [BlockContext::writeRevision] ([BlockContext.cpp]).  A change of producers or
    of verification services is announced in a header and takes effect, after a
    phase of joint consensus, in the block after the one that commits it.  The
    schedule is computed twice: by the code that writes the status row, and by
    the code that only sees headers.  Objects behind [shared_ptr] are values
    here: the sets are not changed after they are shared.  Hashes of headers and
    of the consensus are parameters. *)

From S2P Require Import Prelude Ordered Services AuthState.

#[export] Instance Producer_eq_dec : EqDecision Producer.
Proof. solve_decision. Defined.
#[export] Instance ConsensusData_eq_dec : EqDecision ConsensusData.
Proof. solve_decision. Defined.
#[export] Instance Consensus_eq_dec : EqDecision Consensus.
Proof. solve_decision. Defined.
#[export] Instance PendingConsensus_eq_dec : EqDecision PendingConsensus.
Proof. solve_decision. Defined.
#[export] Instance JointConsensus_eq_dec : EqDecision JointConsensus.
Proof. solve_decision. Defined.

(** ** Headers and revisions *)

(** [block.hpp]'s [BlockHeader] with the fields that consensus uses. *)
Record Header := {
  h_previous : Checksum256;
  h_blockNum : BlockNum;
  h_time : Z;
  h_producer : AccountNumber;
  h_term : Z;
  h_commitNum : BlockNum;
  h_consensusState : Checksum256;
  h_trxMerkleRoot : Checksum256;
  h_eventMerkleRoot : Checksum256;
  h_newConsensus : option Consensus;
  h_authCode : option (list BlockHeaderCode)
}.
Record Info := { i_header : Header; i_blockId : Checksum256 }.

Definition no_header : Header :=
  {| h_previous := zero_hash; h_blockNum := 0; h_time := 0; h_producer := 0; h_term := 0; h_commitNum := 0;
     h_consensusState := zero_hash; h_trxMerkleRoot := zero_hash; h_eventMerkleRoot := zero_hash; h_newConsensus := None; h_authCode := None |}.

Definition set_h_previous x (h : Header) : Header := {| h_previous := x; h_blockNum := h_blockNum h; h_time := h_time h; h_producer := h_producer h; h_term := h_term h; h_commitNum := h_commitNum h; h_consensusState := h_consensusState h; h_trxMerkleRoot := h_trxMerkleRoot h; h_eventMerkleRoot := h_eventMerkleRoot h; h_newConsensus := h_newConsensus h; h_authCode := h_authCode h |}.
Definition set_h_blockNum x (h : Header) : Header := {| h_previous := h_previous h; h_blockNum := x; h_time := h_time h; h_producer := h_producer h; h_term := h_term h; h_commitNum := h_commitNum h; h_consensusState := h_consensusState h; h_trxMerkleRoot := h_trxMerkleRoot h; h_eventMerkleRoot := h_eventMerkleRoot h; h_newConsensus := h_newConsensus h; h_authCode := h_authCode h |}.
Definition set_h_time x (h : Header) : Header := {| h_previous := h_previous h; h_blockNum := h_blockNum h; h_time := x; h_producer := h_producer h; h_term := h_term h; h_commitNum := h_commitNum h; h_consensusState := h_consensusState h; h_trxMerkleRoot := h_trxMerkleRoot h; h_eventMerkleRoot := h_eventMerkleRoot h; h_newConsensus := h_newConsensus h; h_authCode := h_authCode h |}.
Definition set_h_producer x (h : Header) : Header := {| h_previous := h_previous h; h_blockNum := h_blockNum h; h_time := h_time h; h_producer := x; h_term := h_term h; h_commitNum := h_commitNum h; h_consensusState := h_consensusState h; h_trxMerkleRoot := h_trxMerkleRoot h; h_eventMerkleRoot := h_eventMerkleRoot h; h_newConsensus := h_newConsensus h; h_authCode := h_authCode h |}.
Definition set_h_term x (h : Header) : Header := {| h_previous := h_previous h; h_blockNum := h_blockNum h; h_time := h_time h; h_producer := h_producer h; h_term := x; h_commitNum := h_commitNum h; h_consensusState := h_consensusState h; h_trxMerkleRoot := h_trxMerkleRoot h; h_eventMerkleRoot := h_eventMerkleRoot h; h_newConsensus := h_newConsensus h; h_authCode := h_authCode h |}.
Definition set_h_commitNum x (h : Header) : Header := {| h_previous := h_previous h; h_blockNum := h_blockNum h; h_time := h_time h; h_producer := h_producer h; h_term := h_term h; h_commitNum := x; h_consensusState := h_consensusState h; h_trxMerkleRoot := h_trxMerkleRoot h; h_eventMerkleRoot := h_eventMerkleRoot h; h_newConsensus := h_newConsensus h; h_authCode := h_authCode h |}.
Definition set_h_consensusState x (h : Header) : Header := {| h_previous := h_previous h; h_blockNum := h_blockNum h; h_time := h_time h; h_producer := h_producer h; h_term := h_term h; h_commitNum := h_commitNum h; h_consensusState := x; h_trxMerkleRoot := h_trxMerkleRoot h; h_eventMerkleRoot := h_eventMerkleRoot h; h_newConsensus := h_newConsensus h; h_authCode := h_authCode h |}.
Definition set_h_trxMerkleRoot x (h : Header) : Header := {| h_previous := h_previous h; h_blockNum := h_blockNum h; h_time := h_time h; h_producer := h_producer h; h_term := h_term h; h_commitNum := h_commitNum h; h_consensusState := h_consensusState h; h_trxMerkleRoot := x; h_eventMerkleRoot := h_eventMerkleRoot h; h_newConsensus := h_newConsensus h; h_authCode := h_authCode h |}.
Definition set_h_eventMerkleRoot x (h : Header) : Header := {| h_previous := h_previous h; h_blockNum := h_blockNum h; h_time := h_time h; h_producer := h_producer h; h_term := h_term h; h_commitNum := h_commitNum h; h_consensusState := h_consensusState h; h_trxMerkleRoot := h_trxMerkleRoot h; h_eventMerkleRoot := x; h_newConsensus := h_newConsensus h; h_authCode := h_authCode h |}.
Definition set_h_newConsensus x (h : Header) : Header := {| h_previous := h_previous h; h_blockNum := h_blockNum h; h_time := h_time h; h_producer := h_producer h; h_term := h_term h; h_commitNum := h_commitNum h; h_consensusState := h_consensusState h; h_trxMerkleRoot := h_trxMerkleRoot h; h_eventMerkleRoot := h_eventMerkleRoot h; h_newConsensus := x; h_authCode := h_authCode h |}.
Definition set_h_authCode x (h : Header) : Header := {| h_previous := h_previous h; h_blockNum := h_blockNum h; h_time := h_time h; h_producer := h_producer h; h_term := h_term h; h_commitNum := h_commitNum h; h_consensusState := h_consensusState h; h_trxMerkleRoot := h_trxMerkleRoot h; h_eventMerkleRoot := h_eventMerkleRoot h; h_newConsensus := h_newConsensus h; h_authCode := x |}.

(** The status row, and the parts of a database revision: the status row, the
    rows of the verification services and the services saved for the phase of
    joint consensus.  [rev_blockLog] has the headers in [DbId::blockLog], and
    [rev_blockProof] the signatures in [DbId::blockProof]. *)
Record Status := { st_chainId : Checksum256; st_current : Header; st_head : option Info; st_consensus : JointConsensus }.
Record Revision := {
  rev_status : option Status;
  rev_tables : VerifyTables;
  rev_prevAuth : option VerifyTables;
  rev_blockLog : gmap Z Header;
  rev_blockProof : gmap Z bytes
}.
Definition set_rev_status x (r : Revision) : Revision := {| rev_status := x; rev_tables := rev_tables r; rev_prevAuth := rev_prevAuth r; rev_blockLog := rev_blockLog r; rev_blockProof := rev_blockProof r |}.
Definition set_rev_tables x (r : Revision) : Revision := {| rev_status := rev_status r; rev_tables := x; rev_prevAuth := rev_prevAuth r; rev_blockLog := rev_blockLog r; rev_blockProof := rev_blockProof r |}.
Definition set_rev_prevAuth x (r : Revision) : Revision := {| rev_status := rev_status r; rev_tables := rev_tables r; rev_prevAuth := x; rev_blockLog := rev_blockLog r; rev_blockProof := rev_blockProof r |}.
Definition put_block (num : Z) (h : Header) (proof : bytes) (r : Revision) : Revision :=
  {| rev_status := rev_status r; rev_tables := rev_tables r; rev_prevAuth := rev_prevAuth r;
     rev_blockLog := <[num := h]> (rev_blockLog r); rev_blockProof := <[num := proof]> (rev_blockProof r) |}.

(** [Consensus{}] and [StatusRow{}]: the first alternative of the variant. *)
Definition no_consensus : Consensus := {| data := CftConsensus []; services := []; wasmConfig := no_wasmConfig |}.
Definition no_status : Status :=
  {| st_chainId := zero_hash; st_current := no_header; st_head := None;
     st_consensus := {| current_consensus := no_consensus; next_consensus := None |} |}.

(** ** ProducerSet *)

Inductive ConsensusAlgorithm := cft | bft.
#[export] Instance ConsensusAlgorithm_eq_dec : EqDecision ConsensusAlgorithm.
Proof. solve_decision. Defined.

Record ProducerSet := {
  ps_algorithm : ConsensusAlgorithm;
  activeProducers : omap AccountNumber Claim;
  authState : option BlockAuthState
}.
Definition split (c : ConsensusData) : ConsensusAlgorithm * list Producer :=
  match c with CftConsensus p => (cft, p) | BftConsensus p => (bft, p) end.
Definition ProducerSet_of (c : ConsensusData) : ProducerSet :=
  let '(alg, prods) := split c in
  {| ps_algorithm := alg; activeProducers := adopt_sequence (map (fun p => (prod_name p, prod_auth p)) prods); authState := None |}.
(** [ProducerSet()]; the value of the enumeration is not initialised, and
    [make_shared] makes it the first. *)
Definition no_producers : ProducerSet := {| ps_algorithm := cft; activeProducers := []; authState := None |}.
Definition set_authState x (p : ProducerSet) : ProducerSet :=
  {| ps_algorithm := ps_algorithm p; activeProducers := activeProducers p; authState := x |}.

Fixpoint index_of (producer : AccountNumber) (l : omap AccountNumber Claim) : option nat :=
  match l with
  | [] => None
  | (name, _) :: l => match cmp producer name with Eq => Some 0%nat | _ => S <$> index_of producer l end
  end.
Definition isProducer (p : ProducerSet) (producer : AccountNumber) : bool := bool_decide (is_Some (find producer (activeProducers p))).
Definition getIndex (p : ProducerSet) (producer : AccountNumber) : option nat := index_of producer (activeProducers p).
Definition getIndexClaim (p : ProducerSet) (producer : AccountNumber) (claim : Claim) : option nat :=
  match find producer (activeProducers p) with
  | Some c => if bool_decide (c = claim) then index_of producer (activeProducers p) else None
  | None => None
  end.
Definition getClaim (p : ProducerSet) (producer : AccountNumber) : option Claim := find producer (activeProducers p).
Definition ps_size (p : ProducerSet) : nat := length (activeProducers p).
Definition threshold (p : ProducerSet) : nat :=
  match ps_algorithm p with cft => ps_size p / 2 + 1 | bft => ps_size p * 2 / 3 + 1 end%nat.
Definition weak_threshold (p : ProducerSet) : nat :=
  match ps_algorithm p with cft => 1 | bft => (ps_size p + 2) / 3 end%nat.

(** ** BlockHeaderState *)

Record BlockHeaderState := {
  hs_info : Info;
  hs_revision : option Revision;
  producers : ProducerSet;
  nextProducers : option ProducerSet;
  nextProducersBlockNum : BlockNum;
  hs_invalid : bool
}.

Definition hs_blockNum (s : BlockHeaderState) : BlockNum := h_blockNum (i_header (hs_info s)).
Definition hs_blockId (s : BlockHeaderState) : Checksum256 := i_blockId (hs_info s).
Abbreviation hs_header s := (i_header (hs_info s)).

(** The initial state. *)
Definition initial_state : BlockHeaderState :=
  {| hs_info := {| i_header := set_h_blockNum 1 no_header; i_blockId := zero_hash |}; hs_revision := None;
     producers := no_producers; nextProducers := None; nextProducersBlockNum := 0; hs_invalid := false |}.

(** A state loaded from the database. *)
Definition load_state (info : Info) (revision : Revision) : BlockHeaderState :=
  match rev_status revision with
  | None =>
      {| hs_info := info; hs_revision := Some revision; producers := no_producers; nextProducers := None; nextProducersBlockNum := 0; hs_invalid := false |}
  | Some status =>
      let c := st_consensus status in
      {| hs_info := info; hs_revision := Some revision; producers := ProducerSet_of (data (current_consensus c));
         nextProducers := (fun next => ProducerSet_of (data (pending_consensus next))) <$> next_consensus c;
         nextProducersBlockNum := match next_consensus c with Some next => pending_blockNum next | None => 0 end; hs_invalid := false |}
  end.

Definition endsJointConsensus (s : BlockHeaderState) : bool :=
  match nextProducers s with Some _ => nextProducersBlockNum s <=? h_commitNum (hs_header s) | None => false end.

(** The producers after [prev], before any change that the new block announces. *)
Definition advance_producers (prev : BlockHeaderState) : ProducerSet * option ProducerSet :=
  match nextProducers prev with
  | Some next => if endsJointConsensus prev then (next, None) else (producers prev, Some next)
  | None => (producers prev, None)
  end.

Section auth.
Context (sha256 : bytes -> Checksum256).

(** [loadAuthState]: the services come from the state of the block. *)
Definition loadAuthState (s : BlockHeaderState) : result BlockHeaderState :=
  match hs_revision s with
  | None => Abort "database has no revision"
  | Some revision =>
      let status := st_consensus <$> rev_status revision in
      auth ← BlockAuthState_read status (rev_tables revision);
      match nextProducers s with
      | Some next =>
          let prev := BlockAuthState_load status (rev_prevAuth revision) in
          mret {| hs_info := hs_info s; hs_revision := hs_revision s; producers := set_authState (Some prev) (producers s);
                  nextProducers := Some (set_authState (Some auth) next); nextProducersBlockNum := nextProducersBlockNum s; hs_invalid := hs_invalid s |}
      | None =>
          mret {| hs_info := hs_info s; hs_revision := hs_revision s; producers := set_authState (Some auth) (producers s);
                  nextProducers := None; nextProducersBlockNum := nextProducersBlockNum s; hs_invalid := hs_invalid s |}
      end
  end.

(** The state of a block after [prev], from its header. *)
Definition next_state (prev : BlockHeaderState) (info : Info) (revision : option Revision) : result BlockHeaderState :=
  let '(prods, next) := advance_producers prev in
  let base := {| hs_info := info; hs_revision := revision; producers := prods; nextProducers := next;
                 nextProducersBlockNum := nextProducersBlockNum prev; hs_invalid := false |} in
  match h_newConsensus (i_header info) with
  | Some newConsensus =>
      let set next := {| hs_info := info; hs_revision := revision; producers := prods; nextProducers := Some next;
                         nextProducersBlockNum := h_blockNum (i_header info); hs_invalid := false |} in
      let next := ProducerSet_of (data newConsensus) in
      match authState prods with
      | Some auth =>
          auth' ← BlockAuthState_next sha256 auth (h_newConsensus (i_header info)) (h_authCode (i_header info));
          mret (set (set_authState (Some auth') next))
      | None => loadAuthState (set next)
      end
  | None => mret base
  end.

(** [initAuthState]: the services follow from those of the previous block. *)
Definition initAuthState (s prev : BlockHeaderState) : result BlockHeaderState :=
  let auth := authState (advance_producers prev).1 in
  let s := {| hs_info := hs_info s; hs_revision := hs_revision s; producers := set_authState auth (producers s);
              nextProducers := nextProducers s; nextProducersBlockNum := nextProducersBlockNum s; hs_invalid := hs_invalid s |} in
  match nextProducers s with
  | Some next =>
      match auth with
      | Some _ =>
          match authState (default (producers prev) (nextProducers prev)) with
          | Some prevAuth =>
              auth' ← BlockAuthState_next sha256 prevAuth (h_newConsensus (hs_header s)) (h_authCode (hs_header s));
              mret {| hs_info := hs_info s; hs_revision := hs_revision s; producers := producers s;
                      nextProducers := Some (set_authState (Some auth') next); nextProducersBlockNum := nextProducersBlockNum s; hs_invalid := hs_invalid s |}
          | None => Abort "null dereference"
          end
      | None => loadAuthState s
      end
  | None =>
      check (negb (bool_decide (is_Some (h_authCode (hs_header s))))) "Unexpected authCode" ;;
      mret s
  end.
End auth.

(** The claim that the producer of the next block has to prove. *)
Definition getNextProducerClaim (s : BlockHeaderState) (producer : AccountNumber) : option Claim :=
  let from_next := match nextProducers s with Some next => getClaim next producer | None => None end in
  match nextProducers s with
  | Some _ =>
      if h_commitNum (hs_header s) <? nextProducersBlockNum s then
        match getClaim (producers s) producer with Some c => Some c | None => from_next end
      else from_next
  | None => if (ps_size (producers s) =? 0)%nat then Some no_claim else getClaim (producers s) producer
  end.

Definition getProdsAuthRevision (s : BlockHeaderState) : result VerifyTables :=
  match authState (producers s) with
  | Some auth => mret (auth_revision auth)
  | None => Abort "Auth services not loaded (this should only be possible for blocks that are already committed, which we shouldn't need signatures for...)"
  end.
Definition next_auth_revision (next : ProducerSet) : result VerifyTables :=
  match authState next with Some auth => mret (auth_revision auth) | None => Abort "null dereference" end.
Definition getNextAuthRevision (s : BlockHeaderState) : result VerifyTables :=
  match nextProducers s with
  | Some next => if endsJointConsensus s then next_auth_revision next else getProdsAuthRevision s
  | None => getProdsAuthRevision s
  end.
Definition getAuthRevision (s : BlockHeaderState) (producer : AccountNumber) (claim : Claim) : result VerifyTables :=
  match getIndexClaim (producers s) producer claim, nextProducers s with
  | Some _, _ => getProdsAuthRevision s
  | None, Some next =>
      match getIndexClaim next producer claim with
      | Some _ => next_auth_revision next
      | None => Abort "is not an active producer at block"
      end
  | None, None => Abort "is not an active producer at block"
  end.
Definition needsIrreversibleSignature (s : BlockHeaderState) : bool := endsJointConsensus s.
Definition hs_singleProducer (s : BlockHeaderState) : bool :=
  if (ps_size (producers s) =? 1)%nat then negb (bool_decide (is_Some (nextProducers s)))
  else if (ps_size (producers s) =? 0)%nat then
    match nextProducers s with
    | None => true
    | Some next => (ps_size next =? 1)%nat && isProducer next (h_producer (hs_header s))
    end
  else false.

(** [order]: the key of the index of viable blocks. *)
Abbreviation Order := (Z * Z * Checksum256)%type.
Definition order (s : BlockHeaderState) : Order := (h_term (hs_header s), hs_blockNum s, hs_blockId s).
