(* ===== verification/BlockContext.v ===== *)
(** * psibase: the consensus side of building and replaying a block

    [BlockContext::start] and [BlockContext::writeRevision] of
    [BlockContext.cpp], with the block ids of [block.hpp].  The transactions
    between them are arbitrary: what they may do to the verification services is
    [AuthState.block_writes], and to the status row [services_write_status].
    [callOnBlock] runs callbacks that cannot write chain state and is left out.
    The hashes of packed structs and the prover are parameters. *)

From S2P Require Import Prelude Ordered Services Merkle AuthState HeaderState.

(** ** Block ids *)

(** The bytes of a [BlockNum], most significant first. *)
Definition be32 (n : Z) : bytes := [u8 (Z.shiftr n 24); u8 (Z.shiftr n 16); u8 (Z.shiftr n 8); u8 n].
(** [getBlockNum]: the loop stores the first four bytes of the id from the last
    byte of the number down. *)
Definition getBlockNum (id : Checksum256) : BlockNum := foldl (fun n b => n * 256 + b) 0 (take 4 id).

Section context.
Context (sha256 : bytes -> Checksum256) (sha256_header : Header -> Checksum256) (sha256_consensus : JointConsensus -> Checksum256).

Definition makeBlockId (h : Header) : Checksum256 := sha256_header (set_h_authCode None h).
(** The constructor of [BlockInfo]: the number replaces the start of the hash. *)
Definition BlockInfo_of (h : Header) : Info := {| i_header := h; i_blockId := be32 (h_blockNum h) ++ drop 4 (makeBlockId h) |}.

(** ** The state of a block in progress *)

Record BlockContext := {
  bc_base : Revision;
  bc_db : Revision;
  bc_header : Header;
  bc_transactions : list bytes;
  bc_isReadOnly : bool;
  bc_isGenesisBlock : bool;
  bc_needGenesisAction : bool;
  bc_started : bool;
  bc_active : bool;
  modifiedAuthAccounts : list AccountNumber;
  removedCode : gset code_key
}.

Definition new_context (revision : Revision) (isReadOnly : bool) : BlockContext :=
  {| bc_base := revision; bc_db := revision; bc_header := no_header; bc_transactions := []; bc_isReadOnly := isReadOnly;
     bc_isGenesisBlock := false; bc_needGenesisAction := false; bc_started := false; bc_active := false;
     modifiedAuthAccounts := []; removedCode := ∅ |}.

Definition status_singleProducer (consensus : JointConsensus) : bool :=
  match length (consensus_producers (data (current_consensus consensus))) with
  | 1%nat => negb (bool_decide (is_Some (next_consensus consensus)))
  | O => true
  | _ => false
  end.

Definition seconds (n : Z) : Z := n * 1000000.

(** The part of [start] that ends the phase of joint consensus. *)
Definition end_joint (c : JointConsensus) (head : Info) : JointConsensus :=
  match next_consensus c with
  | Some next =>
      if pending_blockNum next <=? h_commitNum (i_header head)
      then {| current_consensus := pending_consensus next; next_consensus := None |} else c
  | None => c
  end.

Definition set_consensus (c : JointConsensus) (s : Status) : Status :=
  {| st_chainId := st_chainId s; st_current := st_current s; st_head := st_head s; st_consensus := c |}.
Definition set_current (h : Header) (s : Status) : Status :=
  {| st_chainId := st_chainId s; st_current := h; st_head := st_head s; st_consensus := st_consensus s |}.

Definition start (self : BlockContext) (time : option Z) (producer : AccountNumber) (term : Z) (irreversible : BlockNum)
    : result (Status * BlockContext) :=
  check (negb (bc_started self)) "block has already been started" ;;
  let status := default no_status (rev_status (bc_db self)) in
  let h := set_h_term term (set_h_producer producer (bc_header self)) in
  h ← match st_head status with
      | Some head =>
          let h := set_h_blockNum (u32 (h_blockNum (i_header head) + 1)) (set_h_previous (i_blockId head) h) in
          match time with
          | Some t =>
              check (h_time (i_header head) <? t) "block is in the past" ;;
              mret (set_h_time t h)
          | None => mret (set_h_time (h_time (i_header head) + seconds 1) h)
          end
      | None => mret (set_h_time (default (h_time h) time) (set_h_blockNum 2 h))
      end;
  let genesis := match st_head status with Some _ => false | None => true end in
  let c := st_consensus status in
  (* no head with a pending consensus would be a null dereference *)
  let c' := match st_head status with Some head => end_joint c head | None => c end in
  let ended := bool_decide (is_Some (next_consensus c)) && negb (bool_decide (is_Some (next_consensus c'))) in
  let db := if ended && negb (bc_isReadOnly self) then set_rev_prevAuth None (bc_db self) else bc_db self in
  let h := set_h_commitNum (if status_singleProducer c' then u32 (h_blockNum h - 1) else irreversible) h in
  let c' := if genesis
            then {| current_consensus := current_consensus c';
                    next_consensus := Some {| pending_consensus := no_consensus; pending_blockNum := h_blockNum h |} |} else c' in
  let status := set_current h (set_consensus c' status) in
  mret (status,
    {| bc_base := bc_base self; bc_db := if bc_isReadOnly self then db else set_rev_status (Some status) db;
       bc_header := h; bc_transactions := bc_transactions self; bc_isReadOnly := bc_isReadOnly self;
       bc_isGenesisBlock := bc_isGenesisBlock self || genesis; bc_needGenesisAction := bc_needGenesisAction self || genesis;
       bc_started := true; bc_active := true; modifiedAuthAccounts := modifiedAuthAccounts self; removedCode := removedCode self |}).

Definition set_bc (self : BlockContext) (db : Revision) (h : Header) (transactions : list bytes) (active : bool) : BlockContext :=
  {| bc_base := bc_base self; bc_db := db; bc_header := h; bc_transactions := transactions; bc_isReadOnly := bc_isReadOnly self;
     bc_isGenesisBlock := bc_isGenesisBlock self; bc_needGenesisAction := bc_needGenesisAction self; bc_started := bc_started self;
     bc_active := active; modifiedAuthAccounts := modifiedAuthAccounts self; removedCode := removedCode self |}.

(** [start(Block&&)]: replaying a received block. *)
Definition start_block (self : BlockContext) (src : Header) (transactions : list bytes) : result BlockContext :=
  '(status, self) ← start self (Some (h_time src)) (h_producer src) (h_term src) (h_commitNum src);
  check (bool_decide (h_previous src = h_previous (bc_header self))) "block previous does not match expected" ;;
  check (h_blockNum src =? h_blockNum (bc_header self)) "block num does not match expected" ;;
  mret (set_bc self (set_rev_status (Some status) (bc_db self)) (bc_header self) transactions true).

Definition makeTransactionMerkle (self : BlockContext) : result Checksum256 :=
  match push_leaves sha256 merkle_empty (map (hash_leaf sha256) (bc_transactions self)) with
  | Some m => mret (merkle_root sha256 m)
  | None => Abort "merkle stack is empty"
  end.

Definition set_producers_if_empty (producer : AccountNumber) (c : Consensus) : Consensus :=
  match consensus_producers (data c) with
  | [] =>
      let prods := [{| prod_name := producer; prod_auth := no_claim |}] in
      {| data := match data c with CftConsensus _ => CftConsensus prods | BftConsensus _ => BftConsensus prods end;
         services := services c; wasmConfig := wasmConfig c |}
  | _ => c
  end.

(** The announcement of a consensus that this block has set. *)
Definition announce (producer : AccountNumber) (blockNum : BlockNum) (c : JointConsensus) : JointConsensus * option Consensus :=
  match next_consensus c with
  | Some next =>
      if pending_blockNum next =? blockNum then
        let nextConsensus := set_producers_if_empty producer (pending_consensus next) in
        ({| current_consensus := current_consensus c;
            next_consensus := Some {| pending_consensus := nextConsensus; pending_blockNum := pending_blockNum next |} |},
         Some nextConsensus)
      else (c, None)
  | None => (c, None)
  end.

Record ConsensusChangeRow := { change_start : BlockNum; change_commit : BlockNum; change_end : BlockNum }.

(** [writeRevision]; the result has the revision, the id and the row of
    [ConsensusChangeTable] that is written, if any. *)
Definition writeRevision (prove : Info -> result bytes) (self : BlockContext) (prevAuthServices : option VerifyTables)
    : result (Revision * Info * option ConsensusChangeRow) :=
  check (bc_active self) "block is not active" ;;
  check (negb (bc_needGenesisAction self)) "missing genesis action in block" ;;
  match rev_status (bc_db self) with
  | None => Abort "missing status record"
  | Some status =>
      let blockNum := h_blockNum (st_current status) in
      let '(c, authCode) := updateAuthServices (rev_tables (bc_db self)) (st_consensus status) (h_authCode (bc_header self)) blockNum
                              (modifiedAuthAccounts self) (removedCode self) in
      let h := set_h_authCode authCode (bc_header self) in
      let '(c, newConsensus) := announce (h_producer h) blockNum c in
      let h := match newConsensus with Some _ => set_h_newConsensus newConsensus h | None => h end in
      h ← (if status_singleProducer c then
             check (h_commitNum h =? u32 (h_blockNum h - 1)) "Forbidden consensus update" ;;
             mret (set_h_commitNum (h_blockNum h) h)
           else mret h);
      let change := match next_consensus c with
                    | Some next =>
                        if pending_blockNum next <=? h_commitNum h
                        then Some {| change_start := pending_blockNum next; change_commit := h_commitNum h; change_end := h_blockNum h |} else None
                    | None => None
                    end in
      prevAuth ← match next_consensus c with
                 | Some _ =>
                     match prevAuthServices with
                     | Some _ => mret prevAuthServices
                     | None =>
                         mret (if negb (bool_decide (services (current_consensus c) = [])) && negb (bool_decide (is_Some (rev_prevAuth (bc_db self))))
                               then Some (rev_tables (bc_base self)) else rev_prevAuth (bc_db self))
                     end
                 | None =>
                     check (negb (bool_decide (is_Some (rev_prevAuth (bc_db self))))) "prevAuthServices should not be set outside joint consensus" ;;
                     mret None
                 end;
      root ← makeTransactionMerkle self;
      let h := set_h_eventMerkleRoot (h_eventMerkleRoot (st_current status))
                 (set_h_trxMerkleRoot root (set_h_consensusState (sha256_consensus c) h)) in
      let info := BlockInfo_of h in
      let head := {| i_header := set_h_authCode None h; i_blockId := i_blockId info |} in
      let cur := st_current status in
      let cur := match newConsensus with Some _ => set_h_newConsensus newConsensus cur | None => cur end in
      let cur := if status_singleProducer c then set_h_commitNum (h_commitNum h) cur else cur in
      let cur := set_h_trxMerkleRoot root (set_h_consensusState (sha256_consensus c) cur) in
      let cur := set_h_time (h_time h + seconds 1) (set_h_blockNum (u32 (h_blockNum h + 1)) (set_h_previous (i_blockId info) cur)) in
      let status' := {| st_chainId := if bc_isGenesisBlock self then i_blockId info else st_chainId status;
                        st_current := cur; st_head := Some head; st_consensus := c |} in
      proof ← prove head;
      mret (put_block (h_blockNum h) h proof (set_rev_prevAuth prevAuth (set_rev_status (Some status') (bc_db self))), info, change)
  end.

(** ** What transactions may do *)

(** Services replace the pending consensus only when none is pending from an
    earlier block ([Producers::setConsensus]), keep its verification services,
    and leave the rest of the row alone, up to the root of the events. *)
Definition services_write_status (s s' : Status) : Prop :=
  let c := st_consensus s in
  let c' := st_consensus s' in
  st_chainId s' = st_chainId s /\ st_head s' = st_head s /\
  (exists root, st_current s' = set_h_eventMerkleRoot root (st_current s)) /\
  current_consensus c' = current_consensus c /\
  services (next_or_current c') = services (next_or_current c) /\ wasmConfig (next_or_current c') = wasmConfig (next_or_current c) /\
  (next_consensus c' = next_consensus c \/
   (match next_consensus c with Some next => pending_blockNum next = h_blockNum (st_current s) | None => True end /\
    exists next, next_consensus c' = Some next /\ pending_blockNum next = h_blockNum (st_current s))).

(** The transactions of a block, from the context after [start] to the one
    before [writeRevision]. *)
Definition runs (bc bc' : BlockContext) : Prop :=
  exists s s' c', rev_status (bc_db bc) = Some s /\ services_write_status s s' /\
    block_writes sha256 {| rc_tables := rev_tables (bc_db bc); rc_modified := modifiedAuthAccounts bc; rc_removed := removedCode bc |} c' /\
    bc' = {| bc_base := bc_base bc; bc_db := set_rev_tables (rc_tables c') (set_rev_status (Some s') (bc_db bc)); bc_header := bc_header bc;
             bc_transactions := bc_transactions bc'; bc_isReadOnly := bc_isReadOnly bc; bc_isGenesisBlock := bc_isGenesisBlock bc;
             bc_needGenesisAction := bc_needGenesisAction bc'; bc_started := bc_started bc; bc_active := bc_active bc';
             modifiedAuthAccounts := rc_modified c'; removedCode := rc_removed c' |}.

(** ** The schedule *)

Definition strip (p : ProducerSet) : ProducerSet := set_authState None p.
Definition same_schedule (s : BlockHeaderState) (c : JointConsensus) : Prop :=
  strip (producers s) = ProducerSet_of (data (current_consensus c)) /\
  match next_consensus c with
  | Some next => exists p, nextProducers s = Some p /\ strip p = ProducerSet_of (data (pending_consensus next)) /\ nextProducersBlockNum s = pending_blockNum next
  | None => nextProducers s = None
  end.

(** [c'] follows from [c] in block [num]: the pending consensus is the same, from
    an earlier block, and nothing is announced, or [num] sets and announces it. *)
Definition settled (num : BlockNum) (c c' : JointConsensus) (announced : option Consensus) : Prop :=
  current_consensus c' = current_consensus c /\
  match announced with
  | None => next_consensus c' = next_consensus c
  | Some n => next_consensus c' = Some {| pending_consensus := n; pending_blockNum := num |}
  end.

Definition pending_before (num : BlockNum) (c : JointConsensus) : Prop :=
  match next_consensus c with Some next => pending_blockNum next <> num | None => True end.

(** Between [c] and [c'] the pending consensus stays or is set by block [num]. *)
Definition may_set (num : BlockNum) (c c' : JointConsensus) : Prop :=
  current_consensus c' = current_consensus c /\
  (next_consensus c' = next_consensus c \/ exists n, next_consensus c' = Some {| pending_consensus := n; pending_blockNum := num |}).

Lemma may_set_trans num c1 c2 c3 : may_set num c1 c2 -> may_set num c2 c3 -> may_set num c1 c3.
Proof. intros [E1 H1] [E2 H2]. split; [congruence|]. destruct H2 as [->|]; auto. Qed.
Lemma may_set_status s s' :
  services_write_status s s' -> may_set (h_blockNum (st_current s)) (st_consensus s) (st_consensus s').
Proof. intros (_ & _ & _ & E & _ & _ & [En|(_ & [n num] & En & <-)]); split; try done; [by left|right; eauto]. Qed.
Lemma may_set_update db c authCode num modified removed : may_set num c (updateAuthServices db c authCode num modified removed).1.
Proof. unfold updateAuthServices. destruct (_ || _); split; try done; [right; eauto|by left]. Qed.

Lemma announce_settled producer num c c2 :
  may_set num c c2 -> pending_before num c ->
  let '(c3, newConsensus) := announce producer num c2 in settled num c c3 newConsensus.
Proof.
  unfold announce, pending_before. intros [E [En|[n En]]] Hp; rewrite En.
  - destruct (next_consensus c) as [next|] eqn:Enc; [rewrite (proj2 (Z.eqb_neq _ _) Hp)|]; split; cbn; congruence.
  - cbn. rewrite Z.eqb_refl. by split.
Qed.
Lemma announce_genesis producer num c n c2 :
  may_set num c c2 -> next_consensus c = Some {| pending_consensus := n; pending_blockNum := num |} ->
  let '(c3, newConsensus) := announce producer num c2 in is_Some newConsensus /\ settled num c c3 newConsensus.
Proof.
  unfold announce. intros [E Hn] Ec. assert (Hn' : exists n, next_consensus c2 = Some {| pending_consensus := n; pending_blockNum := num |})
    by (destruct Hn as [->|]; eauto).
  destruct Hn' as [n' ->]. cbn. rewrite Z.eqb_refl. split; [by eexists|by split].
Qed.

(** The state with the producers that [advance_producers] gives. *)
Definition advanced (s : BlockHeaderState) : BlockHeaderState :=
  {| hs_info := hs_info s; hs_revision := hs_revision s; producers := (advance_producers s).1; nextProducers := (advance_producers s).2;
     nextProducersBlockNum := nextProducersBlockNum s; hs_invalid := false |}.

Lemma end_joint_schedule s c head :
  same_schedule s c -> h_commitNum (hs_header s) = h_commitNum (i_header head) -> same_schedule (advanced s) (end_joint c head).
Proof.
  intros [Ep Hn] Ec. unfold end_joint, advanced, advance_producers, endsJointConsensus. destruct (next_consensus c) as [next|] eqn:Enc.
  - destruct Hn as (p & -> & Es & Eb). rewrite Eb, Ec. destruct (_ <=? _) eqn:El; split; cbn; try done. rewrite Enc. eauto.
  - rewrite Hn. split; cbn; [done|]. by rewrite Enc.
Qed.

(** The state that headers give follows the schedule when the change of the block is announced. *)
Lemma next_state_schedule s info revision s' base c' num :
  next_state sha256 s info revision = Ok s' -> same_schedule (advanced s) base ->
  settled num base c' (h_newConsensus (i_header info)) -> h_blockNum (i_header info) = num -> same_schedule s' c'.
Proof.
  unfold next_state, advanced. destruct (advance_producers s) as [prods next].
  intros E [Hp Hn] [Ec Hs] <-. destruct (h_newConsensus (i_header info)) as [n|] eqn:En.
  - assert (Hres : strip (producers s') = strip prods /\ nextProducersBlockNum s' = h_blockNum (i_header info) /\
      exists p, nextProducers s' = Some p /\ strip p = ProducerSet_of (data n)).
    { destruct (authState prods) as [auth|].
      - ok_inv. cbn. split; [done|]. split; [done|]. eexists. split; [done|]. unfold ProducerSet_of. by destruct (split (data n)).
      - unfold loadAuthState in E. cbn [hs_revision] in E. destruct revision as [r|]; [|done]. ok_inv. cbn in E. ok_inv. cbn. split; [done|]. split; [done|].
        eexists. split; [done|]. unfold ProducerSet_of. by destruct (split (data n)). }
    destruct Hres as (E1 & E2 & p & E3 & E4). split; [cbn in Hp; rewrite E1, Ec; done|]. rewrite Hs. eauto.
  - injection E as <-. split; [by rewrite Ec|]. rewrite Hs. exact Hn.
Qed.

(** The status row after [start]. *)
Lemma start_status R time producer term irr st bc :
  start (new_context R false) time producer term irr = Ok (st, bc) ->
  let status := default no_status (rev_status R) in
  rev_status (bc_db bc) = Some st /\ st_head st = st_head status /\ st_current st = bc_header bc /\ h_authCode (bc_header bc) = None /\
  h_newConsensus (bc_header bc) = None /\ rev_tables (bc_db bc) = rev_tables R /\ modifiedAuthAccounts bc = [] /\ removedCode bc = ∅ /\
  match st_head status with
  | Some head => h_blockNum (bc_header bc) = u32 (h_blockNum (i_header head) + 1) /\ st_consensus st = end_joint (st_consensus status) head
  | None => h_blockNum (bc_header bc) = 2 /\ current_consensus (st_consensus st) = current_consensus (st_consensus status) /\
      next_consensus (st_consensus st) = Some {| pending_consensus := no_consensus; pending_blockNum := 2 |}
  end.
Proof.
  intros E status. unfold start in E. cbn [new_context bc_db bc_header bc_isReadOnly bc_started negb check mbind result_bind] in E. fold status in E.
  destruct (st_head status) as [head|] eqn:Eh.
  - apply bind_ok in E as (h & Eh' & E). injection E as <- <-.
    assert (Ha : h_blockNum h = u32 (h_blockNum (i_header head) + 1) /\ h_authCode h = None /\ h_newConsensus h = None)
      by (destruct time; ok_inv; done).
    destruct Ha as (E1 & E2 & E3). cbn. destruct (_ && _); by split_and!.
  - injection E as <- <-. cbn. destruct (_ && _); by split_and!.
Qed.

(** What [writeRevision] stores and announces. *)
Lemma writeRevision_result prove bc prevAuth R' info change status :
  rev_status (bc_db bc) = Some status -> writeRevision prove bc prevAuth = Ok (R', info, change) ->
  let num := h_blockNum (st_current status) in
  let '(c, authCode) := updateAuthServices (rev_tables (bc_db bc)) (st_consensus status) (h_authCode (bc_header bc)) num
                          (modifiedAuthAccounts bc) (removedCode bc) in
  let '(c', newConsensus) := announce (h_producer (bc_header bc)) num c in
  h_newConsensus (i_header info) = match newConsensus with Some _ => newConsensus | None => h_newConsensus (bc_header bc) end /\
  h_authCode (i_header info) = authCode /\ h_blockNum (i_header info) = h_blockNum (bc_header bc) /\
  h_consensusState (i_header info) = sha256_consensus c' /\ info = BlockInfo_of (i_header info) /\ rev_tables R' = rev_tables (bc_db bc) /\
  exists status', rev_status R' = Some status' /\ st_consensus status' = c' /\
    st_head status' = Some {| i_header := set_h_authCode None (i_header info); i_blockId := i_blockId info |}.
Proof.
  intros Es E. unfold writeRevision in E. ok_inv. rewrite Es in E. destruct (updateAuthServices _ _ _ _ _ _) as [c authCode] eqn:Eu.
  change (h_producer (set_h_authCode authCode (bc_header bc))) with (h_producer (bc_header bc)) in E.
  destruct (announce _ _ c) as [c' newConsensus] eqn:Ea.
  remember (match newConsensus with Some _ => set_h_newConsensus newConsensus (set_h_authCode authCode (bc_header bc)) | None => set_h_authCode authCode (bc_header bc) end) as h0 eqn:Eh0 in E.
  apply bind_ok in E as (h & Eh & E). apply bind_ok in E as (prev & _ & E). apply bind_ok in E as (root & _ & E).
  apply bind_ok in E as (proof & _ & E). injection E as <- <- _.
  assert (Hh : h_newConsensus h = h_newConsensus h0 /\ h_authCode h = h_authCode h0 /\ h_blockNum h = h_blockNum h0).
  { destruct (status_singleProducer c'); ok_inv; done. }
  destruct Hh as (E1 & E2 & E3). cbv zeta. rewrite Eu, Ea. cbn. rewrite E1, E2, E3, Eh0.
  split_and!; try (by destruct newConsensus). eexists. by split_and!.
Qed.

(** The relation between a state that headers gave and the database at the same
    block. *)
Definition schedule_of_revision (s : BlockHeaderState) (R : Revision) : Prop :=
  let status := default no_status (rev_status R) in
  same_schedule s (st_consensus status) /\
  match st_head status with
  | Some head =>
      h_commitNum (hs_header s) = h_commitNum (i_header head) /\ 0 <= h_blockNum (i_header head) < 2 ^ 32 - 1 /\
      match next_consensus (st_consensus status) with Some next => pending_blockNum next <= h_blockNum (i_header head) | None => True end
  | None => next_consensus (st_consensus status) = None
  end.

Lemma next_state_info s info revision s' : next_state sha256 s info revision = Ok s' -> hs_info s' = info.
Proof.
  unfold next_state. destruct (advance_producers s) as [prods next].
  destruct (h_newConsensus (i_header info)); [|by intros [= <-]]. destruct (authState prods).
  - intros E. ok_inv. done.
  - unfold loadAuthState. cbn [hs_revision]. destruct revision; [|done]. intros E. ok_inv. cbn in E. by ok_inv.
Qed.

(** The consensus of the block: what the status row had after [start], and what
    the new row has and the header announces. *)
Lemma block_settles R time producer term irr st bc bc' prove prevAuth R' info change :
  start (new_context R false) time producer term irr = Ok (st, bc) -> runs bc bc' ->
  writeRevision prove bc' prevAuth = Ok (R', info, change) ->
  pending_before (h_blockNum (bc_header bc)) (st_consensus st) \/
    (exists n, next_consensus (st_consensus st) = Some {| pending_consensus := n; pending_blockNum := h_blockNum (bc_header bc) |}) ->
  h_blockNum (i_header info) = h_blockNum (bc_header bc) /\
  exists status', rev_status R' = Some status' /\
    st_head status' = Some {| i_header := set_h_authCode None (i_header info); i_blockId := i_blockId info |} /\
    settled (h_blockNum (bc_header bc)) (st_consensus st) (st_consensus status') (h_newConsensus (i_header info)) /\
    (pending_before (h_blockNum (bc_header bc)) (st_consensus st) \/ is_Some (h_newConsensus (i_header info))).
Proof.
  intros Est Hrun Ewr Hp. destruct (start_status _ _ _ _ _ _ _ Est) as (E1 & E2 & E3 & E4 & E5 & _). rewrite <- E3 in *.
  destruct Hrun as (s0 & s1 & c' & Er & Hw & Hb & Ebc). rewrite E1 in Er. injection Er as <-.
  assert (Es1 : rev_status (bc_db bc') = Some s1) by by rewrite Ebc.
  pose proof (writeRevision_result _ _ _ _ _ _ _ Es1 Ewr) as Hres. cbv zeta in Hres. pose proof (may_set_status _ _ Hw) as Hms.
  assert (Ecur : h_blockNum (st_current s1) = h_blockNum (st_current st)). { destruct Hw as (_ & _ & [root ->] & _). done. }
  rewrite Ecur in Hres. set (num := h_blockNum (st_current st)) in *.
  pose proof (may_set_update (rev_tables (bc_db bc')) (st_consensus s1) (h_authCode (bc_header bc')) num (modifiedAuthAccounts bc') (removedCode bc')) as Hmu.
  destruct (updateAuthServices _ _ _ _ _ _) as [c2 authCode]. cbn [fst] in Hmu. pose proof (may_set_trans _ _ _ _ Hms Hmu) as Hm.
  assert (Eh : bc_header bc' = st_current st) by (rewrite Ebc; cbn; by rewrite E3). rewrite Eh, E5 in Hres.
  destruct Hp as [Hp|[n Hn]].
  - pose proof (announce_settled (h_producer (st_current st)) num _ _ Hm Hp) as Ha. destruct (announce _ _ _) as [c3 new].
    destruct Hres as (F1 & _ & F3 & _ & _ & _ & status' & F5 & <- & F7). split; [done|]. exists status'.
    assert (F : h_newConsensus (i_header info) = new) by by destruct new. rewrite F. split_and!; try done. by left.
  - pose proof (announce_genesis (h_producer (st_current st)) num _ n _ Hm Hn) as Ha. destruct (announce _ _ _) as [c3 new]. destruct Ha as [[m ->] Ha].
    destruct Hres as (F1 & _ & F3 & _ & _ & _ & status' & F5 & <- & F7). split; [done|]. exists status'. rewrite F1. split_and!; try done.
    right. by eexists.
Qed.

(** What the state was after [advance_producers], against the status row after
    [start]; in the genesis block [start] has set a pending consensus. *)
Lemma start_base s R time producer term irr st bc :
  schedule_of_revision s R -> start (new_context R false) time producer term irr = Ok (st, bc) ->
  let num := h_blockNum (bc_header bc) in
  exists base, (pending_before num (st_consensus st) \/
      exists n, next_consensus (st_consensus st) = Some {| pending_consensus := n; pending_blockNum := num |}) /\
    current_consensus base = current_consensus (st_consensus st) /\
    (pending_before num (st_consensus st) -> next_consensus base = next_consensus (st_consensus st)) /\ 0 <= num /\
    match next_consensus base with Some next => pending_blockNum next <= num | None => True end /\ same_schedule (advanced s) base.
Proof.
  intros [Hsch Hhead] Est. destruct (start_status _ _ _ _ _ _ _ Est) as (_ & _ & _ & _ & _ & _ & _ & _ & Hst). cbv zeta in *.
  set (status := default no_status (rev_status R)) in *.
  destruct (st_head status) as [head|] eqn:Eh.
  - destruct Hhead as (Hc & Hr & Hpn), Hst as [Hn Hcs]. exists (st_consensus st). rewrite Hn, wrap_small by lia.
    assert (Hle : match next_consensus (st_consensus st) with Some next => pending_blockNum next <= h_blockNum (i_header head) | None => True end).
    { rewrite Hcs. unfold end_joint. destruct (next_consensus (st_consensus status)) as [next|] eqn:En; [|by rewrite En].
      destruct (_ <=? _); cbn; [done|by rewrite En]. }
    split_and!; try done; try lia.
    + left. unfold pending_before. destruct (next_consensus (st_consensus st)); [lia|done].
    + destruct (next_consensus (st_consensus st)); [lia|done].
    + rewrite Hcs. by apply end_joint_schedule.
  - destruct Hst as (Hn & Hcc & Hnc). exists (st_consensus status). rewrite Hhead. split_and!; try done; try lia.
    + right. rewrite Hn. eauto.
    + unfold pending_before. rewrite Hnc, Hn. done.
    + destruct Hsch as [Hs1 Hs2]. rewrite Hhead in Hs2. unfold advanced, advance_producers. rewrite Hs2. split; cbn; [done|]. by rewrite Hhead.
Qed.

(** One block. *)
Lemma block_schedule s R time producer term irr st bc bc' prove prevAuth R' info change s' :
  schedule_of_revision s R ->
  start (new_context R false) time producer term irr = Ok (st, bc) -> runs bc bc' ->
  writeRevision prove bc' prevAuth = Ok (R', info, change) -> 
  next_state sha256 s info None = Ok s' -> hs_blockNum s' < 2 ^ 32 - 1 ->
  schedule_of_revision s' R'.
Proof.
  intros Hinv Est Hrun Ewr Enext Hnum. pose proof (next_state_info _ _ _ _ Enext) as Ei.
  destruct (start_base _ _ _ _ _ _ _ _ Hinv Est) as (base & Hcase & Hbc & Hbn & Hpos & Hple & Hbase).
  destruct (block_settles _ _ _ _ _ _ _ _ _ _ _ _ _ Est Hrun Ewr Hcase) as (En & status' & Er' & Ehd & Hset & Hor).
  assert (Hsb : settled (h_blockNum (bc_header bc)) base (st_consensus status') (h_newConsensus (i_header info))).
  { destruct Hset as [Hs1 Hs2]. split; [by rewrite Hbc|]. destruct (h_newConsensus (i_header info)); [done|]. destruct Hor as [Hp|[? [=]]].
    by rewrite (Hbn Hp). }
  unfold schedule_of_revision. rewrite Er'. cbn [from_option]. unfold id. split; [by eapply next_state_schedule|]. rewrite Ehd. cbn.
  unfold hs_blockNum in Hnum. rewrite Ei in *. split_and!; try done; try lia. rewrite En.
  destruct Hsb as [_ Hs2]. destruct (h_newConsensus (i_header info)); rewrite Hs2; [done|]. done.
Qed.

(** C8: [BlockHeaderState] follows headers, and [BlockContext::start] and
    [BlockContext::writeRevision] maintain the status row; the code requires that
    they match.  They do: whatever the transactions of a block do, the state that
    the header gives has the producers, the pending producers and the block
    number of the pending producers of the new status row, in every phase of a
    consensus change and in the genesis block too. *)
Theorem schedule_matches s R time producer term irr st bc bc' prove prevAuth R' info change s' :
  schedule_of_revision s R ->
  start (new_context R false) time producer term irr = Ok (st, bc) -> runs bc bc' ->
  writeRevision prove bc' prevAuth = Ok (R', info, change) -> 
  next_state sha256 s info None = Ok s' -> hs_blockNum s' < 2 ^ 32 - 1 ->
  schedule_of_revision s' R'.
Proof. apply block_schedule. Qed.

(** ** The verification services *)

(** The latest producers of [s] have the verification services that the state
    at the same block has. *)
Definition auth_of_revision (s : BlockHeaderState) (R : Revision) : Prop :=
  let c := st_consensus (default no_status (rev_status R)) in
  lists_services (rev_tables R) (services (next_or_current c)) /\
  is_Some (authState (producers s)) /\
  exists auth, authState (default (producers s) (nextProducers s)) = Some auth /\ BlockAuthState_read (Some c) (rev_tables R) = Ok auth.

Lemma read_ext c c' db :
  services (next_or_current c) = services (next_or_current c') -> wasmConfig (next_or_current c) = wasmConfig (next_or_current c') ->
  BlockAuthState_read (Some c) db = BlockAuthState_read (Some c') db.
Proof. intros E1 E2. cbn. by rewrite E1, E2. Qed.
Lemma next_ext auth c c' code :
  services c = services c' -> wasmConfig c = wasmConfig c' -> BlockAuthState_next sha256 auth (Some c) code = BlockAuthState_next sha256 auth (Some c') code.
Proof.
  intros E1 E2. unfold BlockAuthState_next, getUpdatedAuthServices. rewrite E1, E2. destruct (_ || _); [by rewrite E1, E2|done].
Qed.
Lemma next_or_current_end_joint c head : next_or_current (end_joint c head) = next_or_current c.
Proof. unfold end_joint, next_or_current. destruct (next_consensus c) eqn:E; [destruct (_ <=? _)|]; cbn; by rewrite ?E. Qed.
Lemma announce_services producer num c :
  let '(c', new) := announce producer num c in
  services (next_or_current c') = services (next_or_current c) /\ wasmConfig (next_or_current c') = wasmConfig (next_or_current c) /\
  (new = None \/ new = Some (next_or_current c')) /\ current_consensus c' = current_consensus c.
Proof.
  unfold announce, next_or_current. destruct (next_consensus c) as [next|] eqn:E; [|by rewrite E; auto].
  destruct (_ =? _); [|by rewrite E; auto]. cbn. unfold set_producers_if_empty. destruct (consensus_producers _); auto.
Qed.
(** Code is announced only with a new consensus. *)
Lemma announced_code db c num modified removed producer :
  let '(c2, code) := updateAuthServices db c None num modified removed in
  (announce producer num c2).2 = None -> code = None.
Proof.
  unfold updateAuthServices. destruct (_ || _); [|done]. unfold announce. cbn. by rewrite Z.eqb_refl.
Qed.
Lemma advanced_latest s : default (producers (advanced s)) (nextProducers (advanced s)) = default (producers s) (nextProducers s).
Proof. unfold advanced, advance_producers. destruct (nextProducers s); [destruct (endsJointConsensus s)|]; done. Qed.
Lemma advanced_auth s auth :
  is_Some (authState (producers s)) -> authState (default (producers s) (nextProducers s)) = Some auth -> is_Some (authState (producers (advanced s))).
Proof. intros H E. unfold advanced, advance_producers. destruct (nextProducers s); [destruct (endsJointConsensus s)|]; cbn in *; [by eexists|done|done]. Qed.

(** The announcement of a block, with the services of [headers_carry_services]. *)
Lemma block_announces R head time producer term irr st bc bc' prove prevAuth R' info change auth :
  Inj eq eq sha256 -> rows_ok sha256 (rev_tables R) -> no_late_code (rev_tables R) (rev_tables (bc_db bc')) (modifiedAuthAccounts bc') ->
  let status := default no_status (rev_status R) in
  st_head status = Some head -> lists_services (rev_tables R) (services (next_or_current (st_consensus status))) ->
  BlockAuthState_read (Some (st_consensus status)) (rev_tables R) = Ok auth ->
  start (new_context R false) time producer term irr = Ok (st, bc) -> runs bc bc' ->
  writeRevision prove bc' prevAuth = Ok (R', info, change) ->
  exists status' auth', rev_status R' = Some status' /\ is_Some (st_head status') /\ rows_ok sha256 (rev_tables R') /\
    lists_services (rev_tables R') (services (next_or_current (st_consensus status'))) /\
    BlockAuthState_next sha256 auth (h_newConsensus (i_header info)) (h_authCode (i_header info)) = Ok auth' /\
    BlockAuthState_read (Some (st_consensus status')) (rev_tables R') = Ok auth' /\
    (h_newConsensus (i_header info) = None -> h_authCode (i_header info) = None).
Proof.
  intros Hsha HP Hd status Ehd Hl Hread Est Hrun Ewr.
  destruct (start_status _ _ _ _ _ _ _ Est) as (E1 & E2 & E3 & E4 & E5 & E6 & E7 & E8 & Hst). cbv zeta in Hst. fold status in Hst.
  rewrite Ehd in Hst. destruct Hst as [_ Ecs]. destruct Hrun as (s0 & s1 & rc & Er & Hw & Hb & Ebc). rewrite E1 in Er. injection Er as <-.
  assert (Es1 : rev_status (bc_db bc') = Some s1) by by rewrite Ebc.
  pose proof (writeRevision_result _ _ _ _ _ _ _ Es1 Ewr) as Hres. cbv zeta in Hres.
  assert (Etab : rev_tables (bc_db bc') = rc_tables rc) by by rewrite Ebc.
  assert (Emod : modifiedAuthAccounts bc' = rc_modified rc /\ removedCode bc' = rc_removed rc /\ bc_header bc' = bc_header bc) by by rewrite Ebc.
  destruct Emod as (Em & Ere & Eh). rewrite Etab, Em, Ere, Eh, E4, E5 in Hres.
  assert (Esv : services (next_or_current (st_consensus s1)) = services (next_or_current (st_consensus status)) /\
    wasmConfig (next_or_current (st_consensus s1)) = wasmConfig (next_or_current (st_consensus status))).
  { destruct Hw as (_ & _ & _ & _ & -> & -> & _). by rewrite Ecs, next_or_current_end_joint. }
  destruct Esv as [Es Ew]. rewrite E6, E7, E8 in Hb.
  set (num := h_blockNum (st_current s1)) in *.
  pose proof (announced_code (rc_tables rc) (st_consensus s1) num (rc_modified rc) (rc_removed rc) (h_producer (bc_header bc))) as Hcode.
  pose proof (fun new => headers_carry_services sha256 {| rc_tables := rev_tables R; rc_modified := []; rc_removed := ∅ |} rc (st_consensus s1) num auth new
    Hsha eq_refl HP ltac:(cbn; by rewrite <- Etab, <- Em) ltac:(cbn; by rewrite Es) ltac:(cbn [rc_tables]; by rewrite (read_ext _ (st_consensus status))) Hb) as Hcarry.
  destruct (updateAuthServices _ _ _ _ _ _) as [c2 code].
  pose proof (announce_services (h_producer (bc_header bc)) num c2) as Ha. destruct (announce _ _ _) as [c3 new]. cbn [snd] in Hcode.
  destruct Ha as (A1 & A2 & A3 & _). destruct Hres as (F1 & F2 & _ & _ & _ & F6 & status' & F7 & F8 & F9). exists status'.
  assert (Fn : h_newConsensus (i_header info) = new) by by destruct new. rewrite Fn, F2, F6, F8.
  destruct (Hcarry match new with Some _ => Some (next_or_current c2) | None => None end) as (Hl' & auth' & Hn' & Hr');
    [destruct new; [by left|right; by rewrite Hcode]|].
  exists auth'. rewrite A1, (read_ext c3 c2) by done. split_and!; try done; [by eapply (block_writes_noted sha256 {| rc_tables := rev_tables R; rc_modified := []; rc_removed := ∅ |} rc)|].
  destruct A3 as [->| ->]; [done|]. by rewrite (next_ext _ _ (next_or_current c2)).
Qed.

(** One block: the header is accepted, and the services are those of the new
    database. *)
Lemma block_auth s R head time producer term irr st bc bc' prove prevAuth R' info change :
  Inj eq eq sha256 -> rows_ok sha256 (rev_tables R) -> no_late_code (rev_tables R) (rev_tables (bc_db bc')) (modifiedAuthAccounts bc') ->
  st_head (default no_status (rev_status R)) = Some head -> schedule_of_revision s R -> auth_of_revision s R ->
  start (new_context R false) time producer term irr = Ok (st, bc) -> runs bc bc' ->
  writeRevision prove bc' prevAuth = Ok (R', info, change) ->
  next_consensus (st_consensus st) = None \/ h_newConsensus (i_header info) = None ->
  exists s', next_state sha256 s info None = Ok s' /\ auth_of_revision s' R' /\ is_Some (st_head (default no_status (rev_status R'))) /\ rows_ok sha256 (rev_tables R').
Proof.
  intros Hsha HP Hd Ehd Hsch (Hl & Hps & auth & Hauth & Hread) Est Hrun Ewr Hor.
  destruct (block_announces _ _ _ _ _ _ _ _ _ _ _ _ _ _ _ Hsha HP Hd Ehd Hl Hread Est Hrun Ewr) as (status' & auth' & Er' & Hh' & HP' & Hl' & Hn' & Hr' & Hcode).
  pose proof (advanced_auth _ _ Hps Hauth) as Hadv. rewrite <- advanced_latest in Hauth.
  destruct (start_base _ _ _ _ _ _ _ _ Hsch Est) as (base & _ & _ & Hbn & _ & _ & _ & Hbs).
  unfold next_state. unfold advanced in Hadv, Hauth, Hbs. destruct (advance_producers s) as [prods next]. cbn in Hadv, Hauth, Hbs.
  unfold auth_of_revision. rewrite Er'. cbn [from_option]. unfold id. destruct (h_newConsensus (i_header info)) as [n|] eqn:En.
  - destruct Hor as [Hnone|]; [|done]. assert (next = None) as ->.
    { rewrite Hbn in Hbs by (unfold pending_before; by rewrite Hnone). by rewrite Hnone in Hbs. }
    cbn in Hauth. rewrite Hauth, Hn'. cbn [mbind result_bind]. eexists. split; [reflexivity|]. split; [|done]. split; [done|]. split; [cbn; by rewrite Hauth|]. by exists auth'.
  - eexists. split; [reflexivity|]. split; [|done]. split; [done|]. split; [done|]. exists auth. split; [done|].
    rewrite Hcode in Hn' by done. injection Hn' as <-. done.
Qed.

(** The blocks of a chain, with the conditions of [block_auth]: code arrives with
    the row that refers to it, nothing is announced while a change is pending
    ([Producers] and [SetCode] see to both), and block numbers are below the last
    one. *)
Inductive blocks : Revision -> list Info -> Revision -> Prop :=
  | no_blocks R : blocks R [] R
  | one_block R time producer term irr st bc bc' prove prevAuth R' info change infos R'' :
      start (new_context R false) time producer term irr = Ok (st, bc) -> runs bc bc' ->
      writeRevision prove bc' prevAuth = Ok (R', info, change) ->
      no_late_code (rev_tables R) (rev_tables (bc_db bc')) (modifiedAuthAccounts bc') ->
      next_consensus (st_consensus st) = None \/ h_newConsensus (i_header info) = None ->
      h_blockNum (i_header info) < 2 ^ 32 - 1 ->
      blocks R' infos R'' -> blocks R (info :: infos) R''.

(** The headers of the chain, applied in order. *)
Fixpoint follow (s : BlockHeaderState) (infos : list Info) : result BlockHeaderState :=
  match infos with
  | [] => Ok s
  | info :: infos => s ← next_state sha256 s info None; follow s infos
  end.

(** C7: A node that follows headers keeps the verification services of the
    chain: when, at a block after genesis, the last producer set of its state has
    the services of the database, then for every sequence of blocks after it,
    produced or replayed by whatever transactions, [BlockHeaderState] accepts each
    header, and its last producer set has exactly the services that the database
    after the last block names and stores.  The conditions on each block are those
    of [blocks]: code that a verification row lacks is stored only together with
    the row, and no new consensus is announced while one is pending; [sha256] has
    no collisions. *)
Theorem auth_state_matches s R infos R' :
  Inj eq eq sha256 -> rows_ok sha256 (rev_tables R) -> is_Some (st_head (default no_status (rev_status R))) ->
  schedule_of_revision s R -> auth_of_revision s R -> blocks R infos R' ->
  exists s', follow s infos = Ok s' /\ schedule_of_revision s' R' /\ auth_of_revision s' R'.
Proof.
  intros Hsha HP Hh Hsch Hauth Hb. revert s HP Hh Hsch Hauth. induction Hb as [R|R time producer term irr st bc bc' prove prevAuth R' info change infos R'' Est Hrun Ewr Hd Hor Hnum Hb IH];
    intros s HP [head Eh] Hsch Hauth; [by exists s|].
  destruct (block_auth _ _ _ _ _ _ _ _ _ _ _ _ _ _ _ Hsha HP Hd Eh Hsch Hauth Est Hrun Ewr Hor) as (s1 & E1 & Hauth1 & Hh1 & HP1). cbn [follow]. rewrite E1. cbn [mbind result_bind].
  apply IH; try done. eapply block_schedule; [exact Hsch|exact Est|exact Hrun|exact Ewr|exact E1|]. unfold hs_blockNum, hs_header. by rewrite (next_state_info _ _ _ _ E1).
Qed.

(** ** Replaying a block *)

(** The fields of the header that [start] sets and [writeRevision] keeps. *)
Lemma writeRevision_header prove bc prevAuth R' info change :
  writeRevision prove bc prevAuth = Ok (R', info, change) ->
  let h := i_header info in
  h_previous h = h_previous (bc_header bc) /\ h_blockNum h = h_blockNum (bc_header bc) /\ h_time h = h_time (bc_header bc) /\
  h_producer h = h_producer (bc_header bc) /\ h_term h = h_term (bc_header bc) /\
  exists status, rev_status (bc_db bc) = Some status /\
    let num := h_blockNum (st_current status) in
    let c := (announce (h_producer (bc_header bc)) num
      (updateAuthServices (rev_tables (bc_db bc)) (st_consensus status) (h_authCode (bc_header bc)) num (modifiedAuthAccounts bc) (removedCode bc)).1).1 in
    h_commitNum h = if status_singleProducer c then h_blockNum (bc_header bc) else h_commitNum (bc_header bc).
Proof.
  unfold writeRevision. intros E. ok_inv. destruct (rev_status (bc_db bc)) as [status|]; [|done]. cbv zeta in *.
  destruct (updateAuthServices _ _ _ _ _ _) as [c authCode] eqn:Eu. destruct (announce _ _ c) as [c' newConsensus] eqn:Ea.
  remember (match newConsensus with Some _ => set_h_newConsensus newConsensus (set_h_authCode authCode (bc_header bc)) | None => set_h_authCode authCode (bc_header bc) end) as h0 eqn:Eh0 in E.
  apply bind_ok in E as (h & Eh & E). apply bind_ok in E as (prev & _ & E). apply bind_ok in E as (root & _ & E).
  apply bind_ok in E as (proof & _ & E). injection E as <- <- _. cbn.
  assert (H0 : h_previous h0 = h_previous (bc_header bc) /\ h_blockNum h0 = h_blockNum (bc_header bc) /\ h_time h0 = h_time (bc_header bc) /\
    h_producer h0 = h_producer (bc_header bc) /\ h_term h0 = h_term (bc_header bc) /\ h_commitNum h0 = h_commitNum (bc_header bc))
    by (rewrite Eh0; by destruct newConsensus).
  destruct H0 as (P1 & P2 & P3 & P4 & P5 & P6). clear Eh0.
  assert (Hh : h_previous h = h_previous h0 /\ h_blockNum h = h_blockNum h0 /\ h_time h = h_time h0 /\ h_producer h = h_producer h0 /\ h_term h = h_term h0 /\
    h_commitNum h = if status_singleProducer c' then h_blockNum h0 else h_commitNum h0) by (destruct (status_singleProducer c'); ok_inv; done).
  destruct Hh as (Q1 & Q2 & Q3 & Q4 & Q5 & Q6). split_and!; try congruence. exists status. split; [done|].
  rewrite Eu. cbn [fst]. cbn in Ea. rewrite Ea. cbn [fst]. rewrite Q6. destruct (status_singleProducer c'); congruence.
Qed.

Lemma single_producer_may_set num c c' : may_set num c c' -> status_singleProducer c' = true -> status_singleProducer c = true.
Proof.
  intros [E Hn]. unfold status_singleProducer. rewrite E. destruct (length _) as [|[|]]; try done.
  destruct Hn as [->|[n ->]]; [done|]. by rewrite bool_decide_true.
Qed.
Lemma may_set_announce producer num c : may_set num c (announce producer num c).1.
Proof.
  unfold announce. destruct (next_consensus c) as [next|] eqn:E; [|split; cbn; auto]. destruct (Z.eqb_spec (pending_blockNum next) num) as [<-|]; split; cbn; eauto.
Qed.

(** The consensus that [start] looks at to find a single producer. *)
Definition start_consensus (status : Status) : JointConsensus :=
  match st_head status with Some head => end_joint (st_consensus status) head | None => st_consensus status end.

Lemma start_again R time producer term irr irr' st bc :
  start (new_context R false) time producer term irr = Ok (st, bc) ->
  let c := start_consensus (default no_status (rev_status R)) in
  (status_singleProducer c = true \/ irr' = irr) ->
  start (new_context R false) (Some (h_time (bc_header bc))) producer term irr' = Ok (st, bc) /\
  h_producer (bc_header bc) = producer /\ h_term (bc_header bc) = term /\
  h_commitNum (bc_header bc) = (if status_singleProducer c then u32 (h_blockNum (bc_header bc) - 1) else irr) /\
  (status_singleProducer (st_consensus st) = true -> status_singleProducer c = true).
Proof.
  intros E c Hc. unfold start, start_consensus in *. cbn [new_context bc_db bc_header bc_isReadOnly bc_started negb check mbind result_bind] in *.
  set (status := default no_status (rev_status R)) in *. destruct (st_head status) as [head|] eqn:Eh.
  - apply bind_ok in E as (h & Eh' & E). injection E as <- <-. fold c. 
    assert (Ht : (h_time (i_header head) <? h_time h) = true). { destruct time as [t|]; ok_inv; [done|]. cbn. apply Z.ltb_lt. unfold seconds. lia. }
    assert (Hp : h_producer h = producer /\ h_term h = term /\
      set_h_time (h_time h) (set_h_blockNum (u32 (h_blockNum (i_header head) + 1)) (set_h_previous (i_blockId head) (set_h_term term (set_h_producer producer no_header)))) = h)
      by (destruct time as [t|]; ok_inv; done).
    destruct Hp as (Hp1 & Hp2 & Hp3). cbn [bc_header set_h_commitNum h_time h_producer h_term h_commitNum h_blockNum st_consensus set_current set_consensus]. rewrite Ht. cbn [check mbind result_bind mret result_ret].
    rewrite Hp3. split_and!; try done. destruct Hc as [-> | ->]; done.
  - injection E as <- <-. fold c. cbn. split_and!; try done; [destruct Hc as [-> | ->]; done|].
    unfold status_singleProducer. cbn. destruct (length _) as [|[|]]; done.
Qed.

(** A block that one node produced starts the same way at every other node:
    replaying the header that [writeRevision] announced, on the revision that
    the block was produced on, passes all checks of [start] and gives the header
    and the database that the producer's block started with. *)
Theorem replay_starts_the_same R time producer term irr st bc bc' prove prevAuth R' info change transactions :
  start (new_context R false) time producer term irr = Ok (st, bc) -> runs bc bc' ->
  writeRevision prove bc' prevAuth = Ok (R', info, change) ->
  exists bc2, start_block (new_context R false) (i_header info) transactions = Ok bc2 /\
    bc_header bc2 = bc_header bc /\ bc_db bc2 = bc_db bc /\ bc_transactions bc2 = transactions /\
    modifiedAuthAccounts bc2 = modifiedAuthAccounts bc /\ removedCode bc2 = removedCode bc /\ bc_needGenesisAction bc2 = bc_needGenesisAction bc.
Proof.
  intros Est Hrun Ewr. destruct (writeRevision_header _ _ _ _ _ _ Ewr) as (W1 & W2 & W3 & W4 & W5 & s1 & Es1 & W6). cbv zeta in *.
  destruct (start_status _ _ _ _ _ _ _ Est) as (E1 & _ & E3 & E4 & _).
  destruct Hrun as (s0 & s1' & rc & Er & Hw & _ & Ebc). rewrite E1 in Er. injection Er as <-.
  assert (s1 = s1') as -> by (rewrite Ebc in Es1; by injection Es1).
  assert (Eh : bc_header bc' = bc_header bc) by by rewrite Ebc. rewrite Eh in *.
  set (c3 := (announce _ _ _).1) in W6. set (num := h_blockNum (st_current s1')) in *.
  assert (Hnum : h_blockNum (st_current st) = num). { unfold num. destruct Hw as (_ & _ & [root ->] & _). done. }
  assert (Hm : may_set num (st_consensus st) c3).
  { eapply may_set_trans; [rewrite <- Hnum; by apply may_set_status|]. eapply may_set_trans; [apply may_set_update|apply may_set_announce]. }
  destruct (start_again _ _ _ _ _ irr _ _ Est (or_intror eq_refl)) as (_ & P1 & P2 & P3 & P4).
  destruct (start_again _ _ _ _ _ (h_commitNum (i_header info)) _ _ Est) as (Eagain & _).
  { destruct (status_singleProducer (start_consensus _)) eqn:Ec; [by left|right]. rewrite W6, P3.
    destruct (status_singleProducer c3) eqn:Ec3; [|done]. pose proof (P4 (single_producer_may_set _ _ _ Hm Ec3)). congruence. }
  unfold start_block. rewrite W3, W4, W5, P1, P2, Eagain. cbn [mbind result_bind]. rewrite W1, W2, bool_decide_true, Z.eqb_refl by done.
  eexists. split; [reflexivity|]. cbn. split_and!; try done. rewrite <- E1. by destruct (bc_db bc).
Qed.
End context.

(** ** An example *)

(** Two producers; in the block the services change as in [AuthState.example_writes]
    and one producer is replaced. *)
Module BlockExample.
Definition hash (b : bytes) : Checksum256 := b.
Definition hash_header (h : Header) : Checksum256 := [0; 0; 0; 0; h_blockNum h].
Definition hash_consensus (_ : JointConsensus) : Checksum256 := [].
Definition producer (n : AccountNumber) : Producer := {| prod_name := n; prod_auth := no_claim |}.
Definition consensus : Consensus :=
  {| data := CftConsensus [producer 1; producer 2]; services := services (current_consensus example_joint); wasmConfig := no_wasmConfig |}.
Definition joint : JointConsensus := {| current_consensus := consensus; next_consensus := None |}.
Definition head : Info := BlockInfo_of hash_header (set_h_commitNum 9 (set_h_blockNum 10 no_header)).
Definition status : Status := {| st_chainId := [1]; st_current := i_header head; st_head := Some head; st_consensus := joint |}.
Definition revision : Revision :=
  {| rev_status := Some status; rev_tables := example_tables; rev_prevAuth := None; rev_blockLog := ∅; rev_blockProof := ∅ |}.
Definition prods : ProducerSet := set_authState (Some example_auth) (ProducerSet_of (data consensus)).
Definition state : BlockHeaderState :=
  {| hs_info := head; hs_revision := Some revision; producers := prods; nextProducers := None; nextProducersBlockNum := 0; hs_invalid := false |}.

Definition started : Status * BlockContext :=
  match start (new_context revision false) None 1 0 9 with Ok p => p | Abort _ => (no_status, new_context revision false) end.
Definition changed : Status := set_consensus
  {| current_consensus := consensus;
     next_consensus := Some {| pending_consensus := {| data := CftConsensus [producer 1; producer 3]; services := services consensus; wasmConfig := no_wasmConfig |};
                               pending_blockNum := 11 |} |} started.1.
Definition finished : BlockContext := {|
  bc_base := bc_base started.2; bc_db := set_rev_tables (rc_tables example_block_end) (set_rev_status (Some changed) (bc_db started.2));
  bc_header := bc_header started.2; bc_transactions := [[1]]; bc_isReadOnly := false; bc_isGenesisBlock := false; bc_needGenesisAction := false;
  bc_started := true; bc_active := true; modifiedAuthAccounts := rc_modified example_block_end; removedCode := rc_removed example_block_end |}.
Definition written : Revision * Info * option ConsensusChangeRow :=
  match writeRevision hash hash_header hash_consensus (fun _ => Ok []) finished None with Ok r => r | Abort _ => (revision, head, None) end.
Definition announced : Info := written.1.2.

Lemma started_ok : start (new_context revision false) None 1 0 9 = Ok (started.1, started.2).
Proof. by vm_compute. Qed.
Lemma runs_ok : runs hash started.2 finished.
Proof.
  exists started.1, changed, example_block_end. split_and!; try (by vm_compute).
  - split_and!; try by vm_compute.
    + exists zero_hash. by vm_compute.
    + right. split; [by vm_compute|]. by eexists.
  - apply rtc_once, (writes_kept _ example_writes). by vm_compute.
Qed.
Lemma written_ok : writeRevision hash hash_header hash_consensus (fun _ => Ok []) finished None = Ok (written.1.1, announced, written.2).
Proof. by vm_compute. Qed.
Lemma schedule_ok : schedule_of_revision state revision.
Proof. split; [by vm_compute|]. vm_compute. by split_and!. Qed.
Lemma auth_ok : auth_of_revision state revision.
Proof. split; [exact example_lists|]. split; [by eexists|]. exists example_auth. by split; vm_compute. Qed.
End BlockExample.

Definition example_next : BlockHeaderState :=
  match next_state BlockExample.hash BlockExample.state BlockExample.announced None with Ok s => s | Abort _ => initial_state end.

Lemma schedule_matches_witness :
  schedule_of_revision example_next BlockExample.written.1.1 /\ option_map ps_size (nextProducers example_next) = Some 2%nat.
Proof.
  split; [|by vm_compute].
  apply (schedule_matches BlockExample.hash BlockExample.hash_header BlockExample.hash_consensus BlockExample.state BlockExample.revision None 1 0 9
    BlockExample.started.1 BlockExample.started.2 BlockExample.finished (fun _ => Ok []) None BlockExample.written.1.1 BlockExample.announced BlockExample.written.2).
  - exact BlockExample.schedule_ok.
  - exact BlockExample.started_ok.
  - exact BlockExample.runs_ok.
  - exact BlockExample.written_ok.
  - by vm_compute.
  - by vm_compute.
Defined.

Lemma auth_state_matches_witness :
  exists s', follow BlockExample.hash BlockExample.state [BlockExample.announced] = Ok s' /\ auth_of_revision s' BlockExample.written.1.1.
Proof.
  destruct (auth_state_matches BlockExample.hash BlockExample.hash_header BlockExample.hash_consensus BlockExample.state BlockExample.revision [BlockExample.announced] BlockExample.written.1.1) as (s' & H1 & _ & H2).
  - by intros a b.
  - exact example_rows_ok.
  - by eexists.
  - exact BlockExample.schedule_ok.
  - exact BlockExample.auth_ok.
  - eapply one_block; [exact BlockExample.started_ok|exact BlockExample.runs_ok|exact BlockExample.written_ok|apply example_no_late_code|left; by vm_compute|by vm_compute|apply no_blocks].
  - by exists s'.
Defined.

Lemma replay_starts_the_same_witness :
  exists bc2, start_block (new_context BlockExample.revision false) (i_header BlockExample.announced) [[1]] = Ok bc2 /\
    bc_header bc2 = bc_header BlockExample.started.2 /\ bc_db bc2 = bc_db BlockExample.started.2.
Proof.
  destruct (replay_starts_the_same BlockExample.hash BlockExample.hash_header BlockExample.hash_consensus BlockExample.revision None 1 0 9
    BlockExample.started.1 BlockExample.started.2 BlockExample.finished (fun _ => Ok []) None BlockExample.written.1.1 BlockExample.announced BlockExample.written.2
    [[1]] BlockExample.started_ok BlockExample.runs_ok BlockExample.written_ok) as (bc2 & H1 & H2 & H3 & _).
  by exists bc2.
Defined.
