(* ===== verification/LightHeader.v ===== *)
(** * psibase: following a chain by the headers that change its consensus

    [LightHeaderState] of [ForkDb.hpp], used to validate a snapshot: it sees the
    headers that start, commit and end each phase of joint consensus.  The
    verification of signatures ([light_verify] of the consensus algorithm) and
    the hashes are parameters. *)

From S2P Require Import Prelude Ordered Services AuthState HeaderState BlockContext.

(** The subjective rows that are written. *)
Record Subjective := { sub_changes : gmap Z ConsensusChangeRow; sub_blockData : gmap Checksum256 bytes }.
Definition put_change (row : ConsensusChangeRow) (s : Subjective) : Subjective :=
  {| sub_changes := <[change_start row := row]> (sub_changes s); sub_blockData := sub_blockData s |}.
Definition put_blockData (id : Checksum256) (d : bytes) (s : Subjective) : Subjective :=
  {| sub_changes := sub_changes s; sub_blockData := <[id := d]> (sub_blockData s) |}.

Record SignedHeader := { sh_header : Header; sh_signature : bytes; sh_auxConsensusData : option bytes }.

Record LightHeaderState := {
  lh_prevBlockNum : BlockNum;
  lh_producers : ProducerSet;
  lh_nextProducers : option ProducerSet;
  pendingBlocks : list (Checksum256 * BlockNum);
  lh_state : JointConsensus;
  stateHash : Checksum256;
  consensusChangeReady : bool;
  lh_revision : Revision
}.

Section light.
Context (sha256 : bytes -> Checksum256) (sha256_header : Header -> Checksum256) (sha256_consensus : JointConsensus -> Checksum256).
Context (light_verify : LightHeaderState -> Info -> SignedHeader -> result BlockNum).

(** [readState]; [JointConsensus{}] without a status row. *)
Definition readState (revision : Revision) : JointConsensus :=
  match rev_status revision with
  | Some status => st_consensus status
  | None => {| current_consensus := no_consensus; next_consensus := None |}
  end.

Definition promote (c : JointConsensus) (next : PendingConsensus) : JointConsensus :=
  {| current_consensus := pending_consensus next; next_consensus := None |}.

(** The constructor, from the state of a block and its revision. *)
Definition light_start (base : BlockHeaderState) (revision : Revision) : LightHeaderState :=
  let state := readState revision in
  let state' := match next_consensus state with
                | Some next => if pending_blockNum next <=? h_commitNum (hs_header base) then promote state next else state
                | None => state
                end in
  {| lh_prevBlockNum := hs_blockNum base; lh_producers := producers base; lh_nextProducers := nextProducers base; pendingBlocks := [];
     lh_state := state'; stateHash := sha256_consensus state'; consensusChangeReady := false; lh_revision := revision |}.

Definition maybeAdvance (self : LightHeaderState) : result LightHeaderState :=
  if consensusChangeReady self then
    match next_consensus (lh_state self), lh_nextProducers self with
    | Some next, Some prods =>
        let state := promote (lh_state self) next in
        mret {| lh_prevBlockNum := lh_prevBlockNum self; lh_producers := prods; lh_nextProducers := None; pendingBlocks := [];
                lh_state := state; stateHash := sha256_consensus state; consensusChangeReady := false; lh_revision := lh_revision self |}
    | _, _ => Abort "null dereference"
    end
  else mret self.

(** A new consensus starts a phase of joint consensus. *)
Definition light_new_consensus (self : LightHeaderState) (h : Header) (newConsensus : Consensus) : result LightHeaderState :=
  check (negb (bool_decide (is_Some (lh_nextProducers self)))) "Already in joint consensus" ;;
  match authState (lh_producers self) with
  | None => Abort "null dereference"
  | Some auth =>
      auth' ← BlockAuthState_next sha256 auth (h_newConsensus h) (h_authCode h);
      let state := {| current_consensus := current_consensus (lh_state self);
                      next_consensus := Some {| pending_consensus := newConsensus; pending_blockNum := h_blockNum h |} |} in
      mret {| lh_prevBlockNum := lh_prevBlockNum self; lh_producers := lh_producers self;
              lh_nextProducers := Some (set_authState (Some auth') (ProducerSet_of (data newConsensus))); pendingBlocks := pendingBlocks self;
              lh_state := state; stateHash := sha256_consensus state; consensusChangeReady := consensusChangeReady self; lh_revision := lh_revision self |}
  end.

Definition add_pending (self : LightHeaderState) (info : Info) : LightHeaderState :=
  match next_consensus (lh_state self) with
  | Some _ =>
      {| lh_prevBlockNum := lh_prevBlockNum self; lh_producers := lh_producers self; lh_nextProducers := lh_nextProducers self;
         pendingBlocks := pendingBlocks self ++ [(i_blockId info, h_blockNum (i_header info))]; lh_state := lh_state self; stateHash := stateHash self;
         consensusChangeReady := consensusChangeReady self; lh_revision := lh_revision self |}
  | None => self
  end.

(** When the pending consensus is committed, the consensus algorithm verifies it. *)
Definition verify_commit (self : LightHeaderState) (info : Info) (block : SignedHeader) (sub : Subjective) : result (bool * Subjective) :=
  match next_consensus (lh_state self) with
  | Some next =>
      if pending_blockNum next <=? h_commitNum (i_header info) then
        commit ← light_verify self info block;
        mret (true, put_change {| change_start := pending_blockNum next; change_commit := commit; change_end := h_blockNum (i_header info) |} sub)
      else mret (consensusChangeReady self, sub)
  | None => mret (consensusChangeReady self, sub)
  end.

Definition log_block (info : Info) (block : SignedHeader) (r : Revision) : Revision :=
  let num := h_blockNum (i_header info) in
  {| rev_status := rev_status r; rev_tables := rev_tables r; rev_prevAuth := rev_prevAuth r;
     rev_blockLog := <[num := sh_header block]> (rev_blockLog r);
     rev_blockProof := match sh_signature block with [] => rev_blockProof r | sig => <[num := sig]> (rev_blockProof r) end |}.

Definition light_push (self : LightHeaderState) (block : SignedHeader) (sub : Subjective) : result (LightHeaderState * Subjective) :=
  let info := BlockInfo_of sha256_header (sh_header block) in
  let h := i_header info in
  if h_blockNum h <=? lh_prevBlockNum self then mret (self, sub)
  else
    self ← maybeAdvance self;
    self ← match h_newConsensus h with Some newConsensus => light_new_consensus self h newConsensus | None => mret self end;
    check (bool_decide (stateHash self = h_consensusState h)) "consensus state does not match" ;;
    let self := add_pending self info in
    '(ready, sub) ← verify_commit self info block sub;
    let sub := match sh_auxConsensusData block with Some d => put_blockData (i_blockId info) d sub | None => sub end in
    mret ({| lh_prevBlockNum := h_blockNum h; lh_producers := lh_producers self; lh_nextProducers := lh_nextProducers self;
             pendingBlocks := pendingBlocks self; lh_state := lh_state self; stateHash := stateHash self; consensusChangeReady := ready;
             lh_revision := log_block info block (lh_revision self) |}, sub).

(** ** Correctness *)

(** The producers are those of the consensus.  The constructor establishes this unless
    its block ends a phase of joint consensus ([light_start_schedule],
    [light_start_keeps_old_producers]), and accepted headers keep it. *)
Definition light_schedule (self : LightHeaderState) : Prop :=
  strip (lh_producers self) = ProducerSet_of (data (current_consensus (lh_state self))) /\
  match next_consensus (lh_state self) with
  | Some next => exists p, lh_nextProducers self = Some p /\ strip p = ProducerSet_of (data (pending_consensus next))
  | None => lh_nextProducers self = None /\ consensusChangeReady self = false
  end /\
  stateHash self = sha256_consensus (lh_state self).

Lemma maybeAdvance_schedule self self' :
  light_schedule self -> maybeAdvance self = Ok self' ->
  light_schedule self' /\ consensusChangeReady self' = false /\
  lh_state self' = match next_consensus (lh_state self) with
                   | Some next => if consensusChangeReady self then promote (lh_state self) next else lh_state self | None => lh_state self end.
Proof.
  intros Hs E. pose proof Hs as (H1 & H2 & H3). unfold maybeAdvance in E. destruct (consensusChangeReady self) eqn:Er.
  - destruct (next_consensus (lh_state self)) as [next|]; [|by destruct H2; congruence]. destruct H2 as (p & Ep & Es). rewrite Ep in E. injection E as <-.
    by repeat split.
  - injection E as <-. split; [done|]. split; [done|]. by destruct (next_consensus (lh_state self)).
Qed.

Lemma light_new_consensus_schedule self h n self' :
  light_schedule self -> light_new_consensus self h n = Ok self' ->
  light_schedule self' /\ current_consensus (lh_state self') = current_consensus (lh_state self) /\
  next_consensus (lh_state self') = Some {| pending_consensus := n; pending_blockNum := h_blockNum h |}.
Proof.
  intros (H1 & H2 & H3) E. unfold light_new_consensus in E. ok_inv. destruct (authState _); [|done]. ok_inv.
  split; [|done]. split; [done|]. split; [|done]. cbn. eexists. split; [done|]. unfold ProducerSet_of. by destruct (split (data n)).
Qed.

(** The consensus at a header, after what the previous headers made ready. *)
Definition light_base (self : LightHeaderState) : JointConsensus :=
  match next_consensus (lh_state self) with
  | Some next => if consensusChangeReady self then promote (lh_state self) next else lh_state self
  | None => lh_state self
  end.

Lemma maybeAdvance_ok self : light_schedule self -> exists self', maybeAdvance self = Ok self' /\ lh_state self' = light_base self.
Proof.
  intros (H1 & H2 & H3). unfold maybeAdvance, light_base. destruct (consensusChangeReady self) eqn:Er.
  - destruct (next_consensus (lh_state self)) as [next|]; [|by destruct H2; congruence]. destruct H2 as (p & -> & Es). by eexists.
  - eexists. split; [reflexivity|]. by destruct (next_consensus (lh_state self)).
Qed.

Lemma light_start_schedule base revision :
  same_schedule base (readState revision) -> (forall next, next_consensus (readState revision) = Some next -> h_commitNum (hs_header base) < pending_blockNum next) ->
  light_schedule (light_start base revision).
Proof.
  intros [H1 H2] Hend. unfold light_start, light_schedule. destruct (next_consensus (readState revision)) as [next|] eqn:En.
  - rewrite (proj2 (Z.leb_gt _ _) (Hend next eq_refl)). cbn. rewrite En. split; [done|]. split; [|done]. destruct H2 as (p & ? & ? & _). by exists p.
  - cbn. by rewrite En.
Qed.

(** What a header leaves behind. *)
Lemma light_push_keeps self block sub self' sub' :
  light_schedule self -> light_push self block sub = Ok (self', sub') ->
  light_schedule self' /\
  (lh_prevBlockNum self < h_blockNum (sh_header block) ->
    sha256_consensus (lh_state self') = h_consensusState (sh_header block) /\ lh_prevBlockNum self' = h_blockNum (sh_header block) /\
    (consensusChangeReady self' = true -> exists next v commit, next_consensus (lh_state self') = Some next /\
       pending_blockNum next <= h_commitNum (sh_header block) /\ lh_state v = lh_state self' /\ light_verify v (BlockInfo_of sha256_header (sh_header block)) block = Ok commit)).
Proof.
  intros Hs E. unfold light_push in E. cbn [i_header BlockInfo_of] in E. destruct (Z.leb_spec (h_blockNum (sh_header block)) (lh_prevBlockNum self)).
  { injection E as <- <-. split; [done|]. lia. }
  apply bind_ok in E as (a & Ea & E). destruct (maybeAdvance_schedule _ _ Hs Ea) as (Hsa & Hra & _).
  apply bind_ok in E as (b & Eb & E).
  assert (Hsb : light_schedule b /\ consensusChangeReady b = false).
  { destruct (h_newConsensus (sh_header block)); [|by injection Eb as <-]. split; [by eapply light_new_consensus_schedule|].
    unfold light_new_consensus in Eb. ok_inv. destruct (authState _); [|done]. by ok_inv. }
  destruct Hsb as [Hsb Hrb]. apply bind_ok in E as ([] & Echk & E). apply check_ok, bool_decide_eq_true in Echk.
  set (b' := add_pending b _) in E.
  assert (Hb' : lh_producers b' = lh_producers b /\ lh_nextProducers b' = lh_nextProducers b /\ lh_state b' = lh_state b /\ stateHash b' = stateHash b /\
    consensusChangeReady b' = false) by (unfold b', add_pending; destruct (next_consensus (lh_state b)); done).
  destruct Hb' as (B1 & B2 & B3 & B4 & B5). clearbody b'.
  apply bind_ok in E as ([ready sub2] & Ev & E). injection E as <- _. unfold light_schedule. cbn. rewrite B1, B2, B3, B4.
  destruct Hsb as (S1 & S2 & S3). unfold verify_commit in Ev. rewrite B3, B5 in Ev. cbn [i_header BlockInfo_of] in Ev. split; [split; [done|]; split; [|done]|].
  - destruct (next_consensus (lh_state b)); [done|]. split; [tauto|]. by injection Ev as <-.
  - intros _. split; [congruence|]. split; [done|]. intros ->. destruct (next_consensus (lh_state b)) as [next|]; [|by injection Ev].
    destruct (Z.leb_spec (pending_blockNum next) (h_commitNum (sh_header block))); [|by injection Ev]. ok_inv. exists next, b'. eexists. by split_and!.
Qed.

(** Headers in the order in which they arrive. *)
Fixpoint light_push_all (self : LightHeaderState) (blocks : list SignedHeader) (sub : Subjective) : result (LightHeaderState * Subjective) :=
  match blocks with
  | [] => mret (self, sub)
  | block :: blocks => '(self, sub) ← light_push self block sub; light_push_all self blocks sub
  end.
Lemma light_push_all_schedule blocks : forall self sub self' sub', light_schedule self -> light_push_all self blocks sub = Ok (self', sub') -> light_schedule self'.
Proof.
  induction blocks as [|block blocks IH]; intros self sub self' sub' Hs E; cbn [light_push_all] in E; [by injection E as <- _|].
  apply bind_ok in E as ([self1 sub1] & E1 & E). eapply IH; [|exact E]. by eapply light_push_keeps.
Qed.

(** C33: A validator that starts from a block whose state has the producers of its
    revision, as [schedule_matches] shows, and whose header does not end a phase of
    joint consensus, and that then accepts any headers: a further header with a higher
    number is accepted only when the consensus that the validator has computed is the
    one that the header commits to (when no other consensus has the same hash).  It
    leaves the producers of the joint consensus whose hash is in the header, and
    [consensusChangeReady] is set only when the algorithm has verified that the pending
    one is committed.  From a block that ends such a phase the constructor keeps the
    old producers, and this fails ([light_start_keeps_old_producers]). *)
Theorem light_push_sound base revision blocks sub0 self sub block self' sub' c :
  (forall c', sha256_consensus c' = sha256_consensus c -> c' = c) -> same_schedule base (readState revision) ->
  (forall next, next_consensus (readState revision) = Some next -> h_commitNum (hs_header base) < pending_blockNum next) ->
  light_push_all (light_start base revision) blocks sub0 = Ok (self, sub) ->
  light_push self block sub = Ok (self', sub') -> lh_prevBlockNum self < h_blockNum (sh_header block) -> h_consensusState (sh_header block) = sha256_consensus c ->
  lh_state self' = c /\ lh_prevBlockNum self' = h_blockNum (sh_header block) /\
  strip (lh_producers self') = ProducerSet_of (data (current_consensus c)) /\
  strip <$> lh_nextProducers self' = (fun next => ProducerSet_of (data (pending_consensus next))) <$> next_consensus c /\
  (consensusChangeReady self' = true -> exists next v commit, next_consensus c = Some next /\
     pending_blockNum next <= h_commitNum (sh_header block) /\ lh_state v = c /\ light_verify v (BlockInfo_of sha256_header (sh_header block)) block = Ok commit).
Proof.
  intros Hinj Hb Hend Eall E Hnum Hc. pose proof (light_push_all_schedule _ _ _ _ _ (light_start_schedule _ _ Hb Hend) Eall) as Hs.
  destruct (light_push_keeps _ _ _ _ _ Hs E) as [(S1 & S2 & _) Hk]. destruct (Hk Hnum) as (Hh & Hp & Hready).
  assert (lh_state self' = c) as Est by (apply Hinj; congruence). rewrite Est in *. split_and!; try done.
  destruct (next_consensus c) as [next|]; [destruct S2 as (p & -> & Ep); cbn; by rewrite Ep|by destruct S2 as [-> _]].
Qed.

(** A header that a full node announced is accepted: when the validator has
    the consensus of the chain before the block, and the verification services
    of its last producers apply, then the check of the consensus state passes
    and the validator has the consensus of the chain after it. *)
Theorem light_push_accepts self block sub c' auth :
  light_schedule self -> lh_prevBlockNum self < h_blockNum (sh_header block) ->
  settled (h_blockNum (sh_header block)) (light_base self) c' (h_newConsensus (sh_header block)) ->
  h_consensusState (sh_header block) = sha256_consensus c' ->
  (forall n, h_newConsensus (sh_header block) = Some n -> next_consensus (light_base self) = None /\
     exists s, maybeAdvance self = Ok s /\ authState (lh_producers s) = Some auth /\
       is_ok (BlockAuthState_next sha256 auth (Some n) (h_authCode (sh_header block))) = true) ->
  (forall v info, is_ok (light_verify v info block) = true) ->
  exists self' sub', light_push self block sub = Ok (self', sub') /\ lh_state self' = c'.
Proof.
  intros Hs Hnum [Hcc Hset] Hc Hnew Hver. unfold light_push. cbn [i_header BlockInfo_of]. rewrite (proj2 (Z.leb_gt _ _) Hnum).
  destruct (maybeAdvance_ok _ Hs) as (a & Ea & Hla). rewrite Ea. cbn [mbind result_bind]. destruct (maybeAdvance_schedule _ _ Hs Ea) as (Hsa & _ & _).
  assert (Hb : exists b, match h_newConsensus (sh_header block) with Some n => light_new_consensus a (sh_header block) n | None => mret a end = Ok b /\
    light_schedule b /\ lh_state b = c').
  { destruct (h_newConsensus (sh_header block)) as [n|] eqn:En.
    - destruct (Hnew n eq_refl) as (Hno & s & Es & Hauth & Hok). rewrite Ea in Es. injection Es as <-.
      destruct (BlockAuthState_next sha256 auth (Some n) _) as [auth'|] eqn:Enext; [|done].
      assert (Hnp : lh_nextProducers a = None). { destruct Hsa as (_ & Hn & _). rewrite Hla, Hno in Hn. by destruct Hn. }
      assert (Eb : exists b, light_new_consensus a (sh_header block) n = Ok b).
      { unfold light_new_consensus. rewrite Hnp, Hauth, En, Enext. by eexists. }
      destruct Eb as [b Eb]. exists b. destruct (light_new_consensus_schedule _ _ _ _ Hsa Eb) as (Hsb & B1 & B2). split_and!; try done.
      destruct (lh_state b), c'; cbn in *. congruence.
    - exists a. split_and!; try done. rewrite Hla. destruct (light_base self), c'; cbn in *. congruence. }
  destruct Hb as (b & -> & (_ & _ & Hh) & Hst). cbn [mbind result_bind]. rewrite Hh, Hst, Hc, bool_decide_true by done. cbn [check mbind result_bind].
  assert (Hb' : lh_state (add_pending b (BlockInfo_of sha256_header (sh_header block))) = c')
    by (unfold add_pending; destruct (next_consensus (lh_state b)); done).
  set (b' := add_pending _ _) in *. unfold verify_commit. destruct (next_consensus (lh_state b')); [destruct (_ <=? _)|]; cbn [mbind result_bind].
  - specialize (Hver b' (BlockInfo_of sha256_header (sh_header block))). destruct (light_verify _ _ _); [|done]. cbn. by do 2 eexists.
  - by do 2 eexists.
  - by do 2 eexists.
Qed.

(** A validator that starts from a committed block which ended a phase of
    joint consensus keeps the old producers and the pending ones, although the
    consensus it holds has no pending one: its producers are not those of its
    consensus, and it refuses the next change of consensus. *)
Theorem light_start_keeps_old_producers base revision next p block sub :
  next_consensus (readState revision) = Some next -> pending_blockNum next <= h_commitNum (hs_header base) -> nextProducers base = Some p ->
  hs_blockNum base < h_blockNum (sh_header block) -> is_Some (h_newConsensus (sh_header block)) ->
  let self := light_start base revision in
  lh_producers self = producers base /\ current_consensus (lh_state self) = pending_consensus next /\ next_consensus (lh_state self) = None /\
  light_push self block sub = Abort "Already in joint consensus".
Proof.
  intros En Hle Hp Hnum [n Hn]. unfold light_start, light_push. rewrite En. rewrite (proj2 (Z.leb_le _ _) Hle). cbn [lh_producers lh_state current_consensus next_consensus promote lh_prevBlockNum].
  split_and!; try done. cbn [i_header BlockInfo_of]. rewrite (proj2 (Z.leb_gt _ _) Hnum). unfold maybeAdvance. cbn [consensusChangeReady mbind result_bind mret result_ret].
  rewrite Hn. unfold light_new_consensus. cbn [lh_nextProducers]. by rewrite Hp.
Qed.
End light.

(** ** An example *)

(** The header of [BlockContext.BlockExample], read by a validator that started at
    the block before. *)
Definition change_of_example : JointConsensus := readState BlockExample.written.1.1.
Definition example_hash (c : JointConsensus) : Checksum256 := if decide (c = change_of_example) then [1] else [0].
Definition example_header : SignedHeader :=
  {| sh_header := set_h_consensusState [1] (i_header BlockExample.announced); sh_signature := []; sh_auxConsensusData := None |}.
Definition example_light : LightHeaderState := light_start example_hash BlockExample.state BlockExample.revision.
Definition example_sub : Subjective := {| sub_changes := ∅; sub_blockData := ∅ |}.
Definition example_verify (_ : LightHeaderState) (info : Info) (_ : SignedHeader) : result BlockNum := Ok (h_blockNum (i_header info)).
Definition example_pushed : LightHeaderState * Subjective :=
  match light_push BlockExample.hash BlockExample.hash_header example_hash example_verify example_light example_header example_sub with
  | Ok r => r | Abort _ => (example_light, example_sub) end.

Lemma example_light_schedule : light_schedule example_hash example_light.
Proof. split_and!; by vm_compute. Qed.

Lemma light_push_sound_witness :
  lh_state example_pushed.1 = change_of_example /\ bool_decide (is_Some (next_consensus change_of_example)) = true.
Proof.
  split; [|by vm_compute].
  apply (light_push_sound BlockExample.hash BlockExample.hash_header example_hash example_verify BlockExample.state BlockExample.revision [] example_sub example_light example_sub
    example_header example_pushed.1 example_pushed.2 change_of_example).
  - unfold example_hash. intros c'. rewrite (decide_True (P := change_of_example = change_of_example)) by done. by destruct (decide (c' = change_of_example)).
  - split; by vm_compute.
  - by intros next E.
  - done.
  - by vm_compute.
  - by vm_compute.
  - by vm_compute.
Defined.

Lemma light_push_accepts_witness :
  exists self' sub', light_push BlockExample.hash BlockExample.hash_header example_hash example_verify example_light example_header example_sub = Ok (self', sub') /\
    lh_state self' = change_of_example.
Proof.
  apply (light_push_accepts BlockExample.hash BlockExample.hash_header example_hash example_verify example_light example_header example_sub change_of_example example_auth).
  - exact example_light_schedule.
  - by vm_compute.
  - split; by vm_compute.
  - by vm_compute.
  - intros n Hn. split; [by vm_compute|]. eexists. split; [by vm_compute|]. vm_compute in Hn. injection Hn as <-. split; by vm_compute.
  - done.
Defined.

(** Block 11 of the example is committed by block 12, from which a validator
    starts. *)
Definition example_ending : BlockHeaderState :=
  {| hs_info := BlockInfo_of BlockExample.hash_header (set_h_commitNum 11 (set_h_blockNum 12 no_header)); hs_revision := None; producers := BlockExample.prods;
     nextProducers := Some BlockExample.prods; nextProducersBlockNum := 11; hs_invalid := false |}.
Definition example_later : SignedHeader :=
  {| sh_header := set_h_newConsensus (Some BlockExample.consensus) (set_h_blockNum 13 no_header); sh_signature := []; sh_auxConsensusData := None |}.
Lemma light_start_keeps_old_producers_witness :
  light_push BlockExample.hash BlockExample.hash_header example_hash example_verify (light_start example_hash example_ending BlockExample.written.1.1) example_later example_sub
    = Abort "Already in joint consensus".
Proof.
  eapply (light_start_keeps_old_producers BlockExample.hash BlockExample.hash_header example_hash example_verify example_ending BlockExample.written.1.1);
    [vm_compute; reflexivity|by vm_compute|vm_compute; reflexivity|by vm_compute|by eexists].
Defined.
