(* ===== verification/KeyRanges.v ===== *)
(** * psibase: the key ranges of a snapshot

    [SnapshotLoader::KeyRanges] of [ForkDb.hpp]: the ranges of keys received so
    far, merged when they touch.  An empty [high] means that a range has no end.
    Keys are compared by [compare_blob] of [blob.hpp]. *)

From S2P Require Import Prelude Database.

(** [compare_blob]: [memcmp] of the common length decides, then the length. *)
Definition compare_blob (a b : bytes) : comparison :=
  let min_size := Nat.min (length a) (length b) in
  then_compare (lex_compare (take min_size a) (take min_size b)) (Nat.compare (length a) (length b)).

Lemma compare_blob_lex a b : compare_blob a b = lex_compare a b.
Proof.
  unfold compare_blob. revert b. induction a as [|x a IH]; intros [|y b]; cbn; try done. rewrite <- IH. by destruct (x ?= y).
Qed.

Record KeyRange := { low : bytes; high : bytes }.
Definition set_low x (r : KeyRange) : KeyRange := {| low := x; high := high r |}.
Definition set_high x (r : KeyRange) : KeyRange := {| low := low r; high := x |}.
Definition empty_key (k : bytes) : bool := match k with [] => true | _ => false end.

(** [std::ranges::lower_bound] by [low]: the first range that is not below. *)
Fixpoint range_lower_bound (ranges : list KeyRange) (key : bytes) : nat :=
  match ranges with
  | [] => 0
  | r :: ranges => match compare_blob (low r) key with Lt => S (range_lower_bound ranges key) | _ => 0 end
  end.

(** The last part of [add], when the new range does not touch the one before. *)
Definition add_right (before after : list KeyRange) (new : KeyRange) : bool * list KeyRange :=
  match after with
  | [] => (true, before ++ [new])
  | next :: rest =>
      if empty_key (high new) then (false, before ++ after)
      else match compare_blob (high new) (low next) with
           | Eq => (true, before ++ set_low (low new) next :: rest)
           | Gt => (false, before ++ after)
           | Lt => (true, before ++ new :: after)
           end
  end.

(** When the new range starts where [prev] ends.  The branch that merges both
    neighbours goes on to the assignment of the branch that merges left. *)
Definition add_left (before after : list KeyRange) (prev new : KeyRange) : bool * list KeyRange :=
  match after with
  | [] => (true, before ++ [set_high (high new) prev])
  | next :: rest =>
      if empty_key (high new) then (false, before ++ prev :: after)
      else match compare_blob (high new) (low next) with
           | Eq => (true, before ++ set_high (high new) (set_high (high next) prev) :: rest)
           | Gt => (false, before ++ prev :: after)
           | Lt => (true, before ++ set_high (high new) prev :: after)
           end
  end.

Definition add (ranges : list KeyRange) (new : KeyRange) : bool * list KeyRange :=
  let pos := range_lower_bound ranges (low new) in
  let before := take pos ranges in
  let after := drop pos ranges in
  match last before with
  | None => add_right before after new
  | Some prev =>
      if empty_key (high prev) then (false, ranges)
      else match compare_blob (low new) (high prev) with
           | Eq => add_left (take (pos - 1) ranges) after prev new
           | Lt => (false, ranges)
           | Gt => add_right before after new
           end
  end.

Definition complete (ranges : list KeyRange) : bool :=
  match ranges with [r] => empty_key (low r) && empty_key (high r) | _ => false end.

(** Successive calls of [add], all of which have to succeed. *)
Definition add_all (ranges parts : list KeyRange) : option (list KeyRange) :=
  foldl (fun ranges part => ranges ← ranges; match add ranges part with (true, ranges) => Some ranges | (false, _) => None end) (Some ranges) parts.

(** ** Ranges as sets of keys *)

Definition under (key bound : bytes) : bool := empty_key bound || match lex_compare key bound with Lt => true | _ => false end.
Definition contains (r : KeyRange) (key : bytes) : bool := lle (low r) key && under key (high r).
Definition covers (ranges : list KeyRange) (key : bytes) : bool := existsb (fun r => contains r key) ranges.

(** [parts] lead from [l] to [h]. *)
Inductive chained (parts : list KeyRange) : bytes -> bytes -> Prop :=
| chain_part r : r ∈ parts -> chained parts (low r) (high r)
| chain_app l m h : m <> [] -> chained parts l m -> chained parts m h -> chained parts l h.

Lemma lle_lt a b : lle b a = true \/ lex_compare a b = Lt.
Proof. unfold lle. rewrite (lex_compare_antisym a b). destruct (lex_compare a b); auto. Qed.

Lemma chained_covers parts l h key : chained parts l h -> lle l key = true -> under key h = true -> covers parts key = true.
Proof.
  induction 1 as [r Hr|l m h Hm _ IH1 _ IH2]; intros Hl Hu.
  - apply existsb_exists. exists r. split; [by apply list_elem_of_In|]. unfold contains. by rewrite Hl.
  - destruct (lle_lt key m) as [Hge|Hlt]; [by apply IH2|]. apply IH1; [done|]. unfold under. by rewrite Hlt, orb_true_r.
Qed.

Lemma chained_mono parts parts' l h : (forall r, r ∈ parts -> r ∈ parts') -> chained parts l h -> chained parts' l h.
Proof. intros Hs. induction 1; [by apply chain_part, Hs|by eapply chain_app]. Qed.

Abbreviation all_chained parts := (Forall (fun r => chained parts (low r) (high r))).

Lemma empty_key_true k : empty_key k = true <-> k = [].
Proof. by destruct k. Qed.
Lemma empty_key_false k : empty_key k = false <-> k <> [].
Proof. by destruct k. Qed.
Lemma compare_blob_eq a b : compare_blob a b = Eq <-> a = b.
Proof. rewrite compare_blob_lex. apply lex_compare_eq. Qed.

Lemma add_right_chained parts before after new :
  all_chained parts before -> all_chained parts after -> new ∈ parts -> all_chained parts (add_right before after new).2.
Proof.
  intros Hb Ha Hn. pose proof (chain_part parts new Hn) as Hc. unfold add_right. destruct after as [|next rest]; cbn; [apply Forall_app; split; [done|by apply Forall_singleton]|].
  pose proof Ha as [Hnext Hrest]%Forall_cons. destruct (empty_key (high new)) eqn:Ee; [by apply Forall_app|].
  destruct (compare_blob (high new) (low next)) eqn:Ec; cbn; apply Forall_app; (split; [done|]); [|by apply Forall_cons|done].
  apply Forall_cons; split; [|done]. apply compare_blob_eq in Ec. cbn. apply chain_app with (high new); [by apply empty_key_false|done|by rewrite Ec].
Qed.
Lemma add_left_chained parts before after prev new :
  all_chained parts before -> all_chained parts after -> chained parts (low prev) (high prev) -> high prev <> [] -> low new = high prev ->
  new ∈ parts -> all_chained parts (add_left before after prev new).2.
Proof.
  intros Hb Ha Hp Hne El Hn. assert (Hc : chained parts (low prev) (high new)).
  { apply chain_app with (high prev); [done|done|]. rewrite <- El. by apply chain_part. }
  unfold add_left. destruct after as [|next rest]; cbn; [apply Forall_app; split; [done|by apply Forall_singleton]|].
  pose proof Ha as [Hnext Hrest]%Forall_cons. destruct (empty_key (high new)) eqn:Ee; [apply Forall_app; split; [done|]; by apply Forall_cons|].
  destruct (compare_blob (high new) (low next)) eqn:Ec; cbn; apply Forall_app; (split; [done|]); by apply Forall_cons.
Qed.

Lemma add_chained parts ranges new :
  all_chained parts ranges -> new ∈ parts -> all_chained parts (add ranges new).2.
Proof.
  intros Hr Hn. unfold add. set (pos := range_lower_bound ranges (low new)).
  assert (Ht : forall n, all_chained parts (take n ranges) /\ all_chained parts (drop n ranges)) by (intros n; split; [by apply Forall_take|by apply Forall_drop]).
  destruct (last (take pos ranges)) as [prev|] eqn:El; [|by apply add_right_chained; try apply Ht].
  destruct (empty_key (high prev)) eqn:Ee; [done|]. apply empty_key_false in Ee.
  destruct (compare_blob (low new) (high prev)) eqn:Ec; [|done|by apply add_right_chained; try apply Ht].
  apply compare_blob_eq in Ec. apply add_left_chained; try done; try apply Ht.
  apply last_Some in El as [l El]. destruct (Ht pos) as [Hp _]. rewrite El in Hp. by apply Forall_app in Hp as [_ [Hp _]%Forall_cons].
Qed.

Lemma add_all_app ranges parts part :
  add_all ranges (parts ++ [part]) = (ranges ← add_all ranges parts; match add ranges part with (true, ranges) => Some ranges | (false, _) => None end).
Proof. unfold add_all. by rewrite foldl_app. Qed.

Lemma add_all_chained parts ranges : add_all [] parts = Some ranges -> all_chained parts ranges.
Proof.
  revert ranges. induction parts as [|part parts IH] using rev_ind; intros ranges E; [by injection E as <-|]. rewrite add_all_app in E.
  destruct (add_all [] parts) as [r|]; [|done]. cbn in E. specialize (IH r eq_refl).
  assert (H : all_chained (parts ++ [part]) (add r part).2).
  { apply add_chained; [|apply elem_of_app; right; constructor]. eapply Forall_impl; [exact IH|]. intros x. cbn. apply chained_mono.
    intros y Hy. apply elem_of_app. by left. }
  destruct (add r part) as [[] r']; [|done]. by injection E as ->.
Qed.

(** A snapshot that the loader takes for complete is: when all parts were
    added, whatever their bounds (a peer chooses them) and their order, and the
    ranges are complete, then every key belongs to some part. *)
Theorem complete_covers_all parts ranges key :
  add_all [] parts = Some ranges -> complete ranges = true -> covers parts key = true.
Proof.
  intros H%add_all_chained Hc. destruct ranges as [|r [|]]; try done. cbn in Hc. apply andb_true_iff in Hc as [Hl Hh].
  apply Forall_cons in H as [H _]. apply empty_key_true in Hl, Hh. eapply chained_covers; [exact H|..]; rewrite ?Hl, ?Hh; [by destruct key|done].
Qed.

(** ** The documented invariant: sorted, non-overlapping *)

Abbreviation lt a b := (lex_compare a b = Lt).

Lemma lt_trans a b c : lt a b -> lt b c -> lt a c.
Proof. by apply lex_compare_trans. Qed.
Lemma le_lt_trans a b c : lle a b = true -> lt b c -> lt a c.
Proof. unfold lle. destruct (lex_compare a b) eqn:E; intros ? H; [by apply lex_compare_eq in E as ->|by eapply lt_trans|done]. Qed.
Lemma lt_le_trans a b c : lt a b -> lle b c = true -> lt a c.
Proof. unfold lle. intros H. destruct (lex_compare b c) eqn:E; intros ?; [by apply lex_compare_eq in E as <-|by eapply lt_trans|done]. Qed.
Lemma lt_lle a b : lt a b -> lle a b = true.
Proof. unfold lle. by intros ->. Qed.
Lemma lt_irrefl a : ~ lt a a.
Proof. by rewrite lex_compare_refl. Qed.
Lemma lt_nonempty a b : lt a b -> b <> [].
Proof. by destruct a, b. Qed.
Lemma gt_lt a b : lex_compare a b = Gt <-> lt b a.
Proof. rewrite (lex_compare_antisym a b). by destruct (lex_compare a b). Qed.

Definition valid (r : KeyRange) : bool := under (low r) (high r).
Definition apart (r1 r2 : KeyRange) : Prop := high r1 <> [] /\ lt (high r1) (low r2).
Definition ranges_ok (ranges : list KeyRange) : Prop := Forall (fun r => valid r = true) ranges /\ StronglySorted apart ranges.
Definition disjoint (r1 r2 : KeyRange) : Prop := forall key, contains r1 key && contains r2 key = false.

Lemma valid_contains r : valid r = true -> contains r (low r) = true.
Proof. intros H. unfold contains. by rewrite lle_refl. Qed.
Lemma contains_spec r key : contains r key = true <-> lle (low r) key = true /\ (high r = [] \/ lt key (high r)).
Proof.
  unfold contains, under. rewrite andb_true_iff, orb_true_iff, empty_key_true. destruct (lex_compare key (high r)); intuition congruence.
Qed.
Lemma disjoint_before r1 r2 : high r1 <> [] -> lle (high r1) (low r2) = true -> disjoint r1 r2.
Proof.
  intros Hne Hle key. apply not_true_iff_false. rewrite andb_true_iff, !contains_spec. intros [[_ [?|Hlt]] [Hl _]]; [done|].
  apply (lt_irrefl key). eapply lt_le_trans; [exact Hlt|]. by eapply lle_trans.
Qed.
Lemma disjoint_sym r1 r2 : disjoint r1 r2 -> disjoint r2 r1.
Proof. intros H key. by rewrite andb_comm. Qed.
Lemma meet_not_disjoint r1 r2 key : contains r1 key = true -> contains r2 key = true -> ~ disjoint r1 r2.
Proof. intros H1 H2 H. specialize (H key). by rewrite H1, H2 in H. Qed.
Lemma apart_trans r1 r2 r3 : valid r2 = true -> apart r1 r2 -> apart r2 r3 -> apart r1 r3.
Proof.
  intros Hv [H1 H2] [H3 H4]. split; [done|]. eapply lt_trans; [exact H2|]. unfold valid, under in Hv.
  rewrite (proj2 (empty_key_false _) H3) in Hv. cbn in Hv. destruct (lex_compare (low r2) (high r2)) eqn:E; try done. by eapply lt_trans.
Qed.

(** Where [lower_bound] splits the ranges. *)
Lemma range_lower_bound_split ranges key :
  ranges_ok ranges ->
  let pos := range_lower_bound ranges key in
  Forall (fun r => lt (low r) key) (take pos ranges) /\ Forall (fun r => lle key (low r) = true) (drop pos ranges).
Proof.
  intros [Hv Hs]. induction ranges as [|r ranges IH]; [done|]. apply Forall_cons in Hv as [Hvr Hv]. inversion Hs as [|? ? Hs' Ha]; subst.
  cbn [range_lower_bound]. rewrite compare_blob_lex. destruct (lex_compare (low r) key) eqn:E.
  - apply lex_compare_eq in E as <-. split; [constructor|]. constructor; [apply lle_refl|]. rewrite Forall_forall in *. intros x Hx.
    destruct (Ha x Hx) as [Hne Hl]. unfold valid, under in Hvr. rewrite (proj2 (empty_key_false _) Hne) in Hvr. cbn in Hvr.
    destruct (lex_compare (low r) (high r)) eqn:E2; try done. apply lt_lle. by eapply lt_trans.
  - destruct (IH Hv Hs') as [H1 H2]. split; [by constructor|done].
  - apply gt_lt in E. split; [constructor|]. constructor; [by apply lt_lle|]. rewrite Forall_forall in *. intros x Hx.
    destruct (Ha x Hx) as [Hne Hl]. unfold valid, under in Hvr. rewrite (proj2 (empty_key_false _) Hne) in Hvr. cbn in Hvr.
    destruct (lex_compare (low r) (high r)) eqn:E2; try done. apply lt_lle. eapply lt_trans; [exact E|]. by eapply lt_trans.
Qed.

(** [r] is lost when [new] fills the gap between a range and [r]. *)
Definition swallowed (ranges : list KeyRange) (new r : KeyRange) : Prop :=
  high new <> [] /\ low r = high new /\ exists prev, prev ∈ ranges /\ high prev <> [] /\ high prev = low new.

(** What one call of [add] should do. *)
Definition add_spec (ranges : list KeyRange) (new : KeyRange) (res : bool * list KeyRange) : Prop :=
  (res.1 = true <-> Forall (disjoint new) ranges) /\ ranges_ok res.2 /\ (res.1 = false -> res.2 = ranges) /\
  (res.1 = true -> forall key, covers res.2 key = true <->
     contains new key = true \/ exists r, r ∈ ranges /\ ~ swallowed ranges new r /\ contains r key = true).

Lemma covers_spec ranges key : covers ranges key = true <-> exists r, r ∈ ranges /\ contains r key = true.
Proof. unfold covers. rewrite existsb_exists. by setoid_rewrite list_elem_of_In. Qed.

Lemma valid_lt r : valid r = true -> high r <> [] -> lt (low r) (high r).
Proof. unfold valid, under. intros H Hne. rewrite (proj2 (empty_key_false _) Hne) in H. cbn in H. by destruct (lex_compare _ _). Qed.

(** Two ranges that touch make one. *)
Lemma contains_join a b key :
  valid a = true -> valid b = true -> high a <> [] -> high a = low b ->
  contains {| low := low a; high := high b |} key = true <-> contains a key = true \/ contains b key = true.
Proof.
  intros Ha Hb Hne E. pose proof (valid_lt a Ha Hne) as Hla. rewrite !contains_spec. cbn. split.
  - intros [Hl Hh]. destruct (lle_lt key (low b)) as [?|Hlt]; [by right|]. left. split; [done|]. right. by rewrite E.
  - intros [[Hl [?|Hlt]]|[Hl Hh]]; [done| |].
    + split; [done|]. destruct (decide (high b = [])) as [->|Hbe]; [by left|right]. eapply lt_trans; [exact Hlt|]. rewrite E. by apply valid_lt.
    + split; [|done]. apply lle_trans with (low b); [|done]. rewrite <- E. by apply lt_lle.
Qed.
Lemma valid_join a b : valid a = true -> valid b = true -> high a <> [] -> high a = low b -> valid {| low := low a; high := high b |} = true.
Proof.
  intros Ha Hb Hne E. unfold valid, under. cbn. destruct (decide (high b = [])) as [->|Hbe]; [done|].
  rewrite (lt_trans (low a) (low b) (high b)); [by rewrite orb_true_r|rewrite <- E; by apply valid_lt|by apply valid_lt].
Qed.

Section add.
Context (before after : list KeyRange) (new : KeyRange) (Hnew : valid new = true).
Context (Hafter : Forall (fun r => lle (low new) (low r) = true) after).

Lemma first_low next rest r : after = next :: rest -> ranges_ok after -> r ∈ after -> lle (low next) (low r) = true.
Proof.
  intros -> [Hv Hs] [->|Hr]%elem_of_cons; [apply lle_refl|]. inversion Hs as [|? ? _ Ha]; subst. rewrite Forall_forall in Ha.
  destruct (Ha r Hr) as [Hne Hl]. apply Forall_cons in Hv as [Hv _]. apply lt_lle. eapply lt_trans; [by apply valid_lt|done].
Qed.

(** The comparison with the range after decides about all of them. *)
Lemma after_meets next rest :
  after = next :: rest -> valid next = true -> high new = [] \/ lex_compare (high new) (low next) = Gt -> ~ disjoint new next.
Proof.
  intros E Hv Hc. assert (Hl : lle (low new) (low next) = true) by (rewrite E in Hafter; by apply Forall_cons in Hafter as []).
  apply meet_not_disjoint with (low next); [|by apply valid_contains]. apply contains_spec. split; [done|].
  destruct Hc as [|Hc]; [by left|right]. by apply gt_lt.
Qed.
Lemma after_disjoint next rest :
  after = next :: rest -> ranges_ok after -> high new <> [] -> lle (high new) (low next) = true -> Forall (disjoint new) after.
Proof.
  intros E Hok Hne Hle. apply Forall_forall. intros r Hr. apply disjoint_before; [done|]. eapply lle_trans; [exact Hle|]. by eapply first_low.
Qed.
End add.

Lemma ranges_ok_app b a : ranges_ok (b ++ a) <-> ranges_ok b /\ ranges_ok a /\ forall x y, x ∈ b -> y ∈ a -> apart x y.
Proof. unfold ranges_ok. rewrite Forall_app, StronglySorted_app. tauto. Qed.
Lemma ranges_ok_cons r a : ranges_ok (r :: a) <-> valid r = true /\ ranges_ok a /\ forall y, y ∈ a -> apart r y.
Proof.
  unfold ranges_ok. rewrite Forall_cons. split.
  - intros [[? ?] Hs]. inversion Hs as [|? ? ? Ha]; subst. rewrite Forall_forall in Ha. tauto.
  - intros (? & [? ?] & Ha). split; [done|]. constructor; [done|]. by apply Forall_forall.
Qed.

(** The new range starts behind everything before it. *)
Lemma add_right_spec before after new :
  ranges_ok (before ++ after) -> valid new = true -> Forall (fun r => lle (low new) (low r) = true) after ->
  (forall r, r ∈ before -> apart r new) -> add_spec (before ++ after) new (add_right before after new).
Proof.
  intros Hok Hnew Hafter Hb. apply ranges_ok_app in Hok as Hok'. destruct Hok' as (Hokb & Hoka & Hba).
  assert (Hdb : Forall (disjoint new) before).
  { apply Forall_forall. intros r Hr. destruct (Hb r Hr) as [Hne Hlt]. apply disjoint_sym, disjoint_before; [done|]. by apply lt_lle. }
  assert (Hsw : forall r, ~ swallowed (before ++ after) new r).
  { intros r (Hne & _ & prev & [Hp|Hp]%elem_of_app & Hpne & Hpe).
    - destruct (Hb prev Hp) as [_ Hlt]. rewrite Hpe in Hlt. by apply lt_irrefl in Hlt.
    - rewrite Forall_forall in Hafter. specialize (Hafter prev Hp). cbn in Hafter. destruct Hoka as [Hv _]. rewrite Forall_forall in Hv.
      pose proof (valid_lt prev (Hv prev Hp) Hpne) as Hl. rewrite Hpe in Hl. apply (lt_irrefl (low prev)). by eapply lt_le_trans. }
  assert (Hcov : forall rs key, (forall k, covers rs k = true <-> covers (before ++ after) k = true \/ contains new k = true) ->
    covers rs key = true <-> contains new key = true \/ exists r, r ∈ before ++ after /\ ~ swallowed (before ++ after) new r /\ contains r key = true).
  { intros rs key Hk. rewrite Hk, covers_spec. split; [intros [(r & ? & ?)|]; eauto|]. intros [|(r & ? & _ & ?)]; eauto. }
  unfold add_right. destruct after as [|next rest] eqn:Ea.
  - rewrite app_nil_r in *. split_and!; cbn; try done.
    + apply ranges_ok_app. split_and!; [done|by apply ranges_ok_cons; split_and!; try done; intros ? ?%elem_of_nil|].
      intros x y Hx ->%list_elem_of_singleton. by apply Hb.
    + intros _ key. apply Hcov. intros k. unfold covers. rewrite existsb_app. cbn. rewrite orb_false_r. apply orb_true_iff.
  - rewrite <- Ea in *. assert (Hvn : valid next = true). { rewrite Ea in Hoka. by apply ranges_ok_cons in Hoka as []. }
    assert (Hfalse : high new = [] \/ lex_compare (high new) (low next) = Gt -> add_spec (before ++ after) new (false, before ++ after)).
    { intros Hc. split_and!; cbn; try done. split; [done|]. intros Hall. exfalso. eapply (after_meets after new); try done.
      apply Forall_app in Hall as [_ Hall]. rewrite Ea in Hall. by apply Forall_cons in Hall as []. }
    destruct (empty_key (high new)) eqn:Ee; [apply Hfalse; left; by apply empty_key_true|]. apply empty_key_false in Ee.
    rewrite compare_blob_lex. destruct (lex_compare (high new) (low next)) eqn:Ec; [| |by apply Hfalse; right].
    + apply lex_compare_eq in Ec. rewrite Ea in Hoka, Hba. apply ranges_ok_cons in Hoka as (_ & Hokr & Har).
      split_and!; cbn; try done.
      * split; [|done]. intros _. apply Forall_app. split; [done|]. rewrite Ea in Hafter |- *. apply (after_disjoint (next :: rest) new Hafter next rest); [done| |done|rewrite Ec; apply lle_refl].
        apply ranges_ok_cons. by split_and!.
      * apply ranges_ok_app. split_and!; [done|apply ranges_ok_cons; split_and!; [by apply valid_join|done|apply Har]|].
        intros x y Hx [->|Hy]%elem_of_cons; [apply (Hb x Hx)|]. apply Hba; [done|by right].
      * intros _ key. apply Hcov. intros k. rewrite Ea. unfold covers. rewrite !existsb_app. cbn [existsb].
        pose proof (contains_join new next k Hnew Hvn Ee Ec) as Hj. change (set_low (low new) next) with {| low := low new; high := high next |}.
        rewrite !orb_true_iff, Hj. tauto.
    + split_and!; cbn; try done.
      * split; [|done]. intros _. apply Forall_app. split; [done|]. eapply after_disjoint; try done. by apply lt_lle.
      * assert (Hap : apart new next) by done. apply ranges_ok_app. split_and!; [done|apply ranges_ok_cons; split_and!; [done|done|]|].
        -- rewrite Ea in *. apply ranges_ok_cons in Hoka as (_ & _ & Har). intros y [->|Hy]%elem_of_cons; [done|]. by eapply apart_trans; [|done|apply Har].
        -- intros x y Hx [->|Hy]%elem_of_cons; [by apply Hb|by apply Hba].
      * intros _ key. apply Hcov. intros k. unfold covers. rewrite !existsb_app. cbn [existsb]. rewrite !orb_true_iff. tauto.
Qed.

(** The new range starts where [prev] ends. *)
Lemma add_left_spec before after prev new :
  ranges_ok (before ++ prev :: after) -> valid new = true -> Forall (fun r => lle (low new) (low r) = true) after ->
  high prev <> [] -> high prev = low new -> add_spec (before ++ prev :: after) new (add_left before after prev new).
Proof.
  intros Hok Hnew Hafter Hpne Hpe. apply ranges_ok_app in Hok as Hok'. destruct Hok' as (Hokb & Hokp & Hbp).
  apply ranges_ok_cons in Hokp as (Hvp & Hoka & Hpa).
  assert (Hdb : Forall (disjoint new) (before ++ [prev])).
  { apply Forall_forall. intros r Hr. apply disjoint_sym. apply elem_of_app in Hr as [Hr| ->%list_elem_of_singleton].
    - destruct (Hbp r prev Hr ltac:(constructor)) as [Hne Hlt]. apply disjoint_before; [done|]. rewrite <- Hpe. apply lt_lle. eapply lt_trans; [exact Hlt|by apply valid_lt].
    - apply disjoint_before; [done|]. rewrite Hpe. apply lle_refl. }
  assert (Hdis : Forall (disjoint new) after -> Forall (disjoint new) (before ++ prev :: after)).
  { intros Ha. replace (before ++ prev :: after) with ((before ++ [prev]) ++ after) by by rewrite <- app_assoc. by apply Forall_app. }
  assert (Hsw : forall r, swallowed (before ++ prev :: after) new r <-> high new <> [] /\ low r = high new).
  { intros r. split; [by intros (? & ? & _)|]. intros [? ?]. split_and!; try done. exists prev. split; [|done]. apply elem_of_app. right. constructor. }
  (* ranges and covered keys after [prev] has grown *)
  set (prev' := set_high (high new) prev).
  assert (Hv' : valid prev' = true) by by apply (valid_join prev new).
  assert (Hok' : forall rest, ranges_ok rest -> (forall y, y ∈ rest -> apart new y) -> ranges_ok (before ++ prev' :: rest)).
  { intros rest Hr Hap. apply ranges_ok_app. split_and!; [done|by apply ranges_ok_cons|]. intros x y Hx [->|Hy]%elem_of_cons.
    - apply (Hbp x prev Hx). constructor.
    - destruct (Hap y Hy) as [Hne Hlt]. eapply (apart_trans x prev'); [done|apply (Hbp x prev Hx); constructor|by split]. }
  assert (Hcov : forall rest, (forall r, r ∈ rest <-> r ∈ after /\ ~ (high new <> [] /\ low r = high new)) ->
    forall key, covers (before ++ prev' :: rest) key = true <-> contains new key = true \/
      exists r, r ∈ before ++ prev :: after /\ ~ swallowed (before ++ prev :: after) new r /\ contains r key = true).
  { intros rest Hr key. pose proof (contains_join prev new key Hvp Hnew Hpne Hpe) as Hj.
    assert (Hlow : forall r, r ∈ before ++ [prev] -> ~ (high new <> [] /\ low r = high new)).
    { intros r Hin [Hne Hl]. assert (Hlt : lt (low r) (low new)).
      { rewrite <- Hpe. apply elem_of_app in Hin as [Hin| ->%list_elem_of_singleton]; [|by apply valid_lt].
        destruct (Hbp r prev Hin ltac:(constructor)) as [Hrne Hrl]. destruct Hokb as [Hvb _]. rewrite Forall_forall in Hvb.
        eapply lt_trans; [by apply valid_lt, Hrne; apply Hvb|]. eapply lt_trans; [exact Hrl|by apply valid_lt]. }
      apply (lt_irrefl (low r)). eapply lt_trans; [exact Hlt|]. rewrite Hl. by apply valid_lt. }
    rewrite covers_spec. setoid_rewrite Hsw. setoid_rewrite elem_of_app. setoid_rewrite elem_of_cons. setoid_rewrite elem_of_app in Hlow.
    setoid_rewrite list_elem_of_singleton in Hlow. setoid_rewrite Hr. split.
    - intros (r & [Hin|[->|[Hin Hns]]] & Hc); [right; exists r; specialize (Hlow r); tauto| |right; exists r; tauto].
      apply Hj in Hc as [Hc|Hc]; [|by left]. right. exists prev. specialize (Hlow prev). tauto.
    - intros [Hc|(r & [Hin|[->|Hin]] & Hns & Hc)]; [exists prev'; split; [by right; left|by apply Hj; right]|exists r; tauto| |exists r; tauto].
      exists prev'. split; [by right; left|]. apply Hj. by left. }
  unfold add_left. destruct after as [|next rest] eqn:Ea.
  { split_and!; cbn; try done; [apply Hok'; [done|by intros ? ?%elem_of_nil]|].
    intros _. apply Hcov. intros r. rewrite elem_of_nil. tauto. }
  rewrite <- Ea in *. assert (Hvn : valid next = true). { rewrite Ea in Hoka. by apply ranges_ok_cons in Hoka as []. }
  assert (Hfalse : high new = [] \/ lex_compare (high new) (low next) = Gt -> add_spec (before ++ prev :: after) new (false, before ++ prev :: after)).
  { intros Hc. split_and!; cbn; try done. split; [done|]. intros Hall. exfalso. eapply (after_meets after new); try done.
    apply Forall_app in Hall as [_ Hall]. rewrite Ea in Hall. by apply Forall_cons in Hall as [_ [? _]%Forall_cons]. }
  destruct (empty_key (high new)) eqn:Ee; [apply Hfalse; left; by apply empty_key_true|]. apply empty_key_false in Ee.
  rewrite compare_blob_lex. destruct (lex_compare (high new) (low next)) eqn:Ec; [| |by apply Hfalse; right].
  - apply lex_compare_eq in Ec. assert (Hda : Forall (disjoint new) after) by (eapply after_disjoint; try done; rewrite Ec; apply lle_refl).
    pose proof Hoka as Hoka'. rewrite Ea in Hoka'. apply ranges_ok_cons in Hoka' as (_ & Hokr & Har).
    assert (Hap : forall y, y ∈ rest -> apart new y). { intros y Hy. destruct (Har y Hy) as [Hne Hl]. split; [done|]. rewrite Ec. eapply lt_trans; [by apply valid_lt|done]. }
    split_and!; cbn; try done; [split; [intros _; by apply Hdis|done]|by apply Hok'|].
    intros _. apply Hcov. intros r. rewrite Ea, elem_of_cons. split.
    + intros Hr. split; [by right|]. intros [_ Hl]. destruct (Hap r Hr) as [_ Hlt]. rewrite Hl in Hlt. by apply lt_irrefl in Hlt.
    + intros [[->|Hr] Hns]; [|done]. exfalso. apply Hns. done.
  - assert (Hda : Forall (disjoint new) after) by (eapply after_disjoint; try done; by apply lt_lle).
    assert (Hap : forall y, y ∈ after -> apart new y).
    { intros y Hy. split; [done|]. eapply lt_le_trans; [exact Ec|]. by eapply (first_low after new). }
    split_and!; cbn; try done; [split; [intros _; by apply Hdis|done]|by apply Hok'|].
    intros _. apply Hcov. intros r. split; [|tauto]. intros Hr. split; [done|]. intros [_ Hl]. destruct (Hap r Hr) as [_ Hlt].
    rewrite Hl in Hlt. by apply lt_irrefl in Hlt.
Qed.

Lemma lower_bound_length ranges key : (range_lower_bound ranges key <= length ranges)%nat.
Proof. induction ranges as [|r ranges IH]; cbn; [lia|]. destruct (compare_blob _ _); lia. Qed.

(** [add] keeps the documented invariant, that the ranges are sorted and do
    not overlap, and answers [false], leaving the ranges alone, exactly when the
    new range overlaps one of them.  When it answers [true], the ranges cover
    what they covered before and the new range, except that the range after it
    is forgotten when the new one fills the gap to it from the range before. *)
Theorem add_exact ranges new : ranges_ok ranges -> valid new = true -> add_spec ranges new (add ranges new).
Proof.
  intros Hok Hnew. destruct (range_lower_bound_split ranges (low new) Hok) as [Hb Ha]. pose proof (lower_bound_length ranges (low new)) as Hlen. unfold add.
  set (pos := range_lower_bound ranges (low new)) in *. pose proof (take_drop pos ranges) as Esplit.
  destruct (last (take pos ranges)) as [prev|] eqn:El.
  - apply last_Some in El as [l El].
    assert (Er : ranges = l ++ prev :: drop pos ranges) by (rewrite <- Esplit at 1; by rewrite El, <- app_assoc).
    assert (Hlp : lt (low prev) (low new)) by (rewrite El in Hb; by apply Forall_app in Hb as [_ [? _]%Forall_cons]).
    assert (Hfalse : high prev = [] \/ lt (low new) (high prev) -> add_spec ranges new (false, ranges)).
    { intros Hc. split_and!; cbn; try done. split; [done|]. intros Hall. exfalso. rewrite Er in Hall.
      apply Forall_app in Hall as [_ [Hd _]%Forall_cons]. revert Hd. apply meet_not_disjoint with (low new); [by apply valid_contains|].
      apply contains_spec. split; [by apply lt_lle|done]. }
    destruct (empty_key (high prev)) eqn:Ee; [apply Hfalse; left; by apply empty_key_true|]. apply empty_key_false in Ee.
    rewrite compare_blob_lex. destruct (lex_compare (low new) (high prev)) eqn:Ec; [|by apply Hfalse; right|].
    + apply lex_compare_eq in Ec. assert (Hl : length (take pos ranges) = pos) by (rewrite length_take; lia).
      replace (take (pos - 1) ranges) with l; [|rewrite Er, take_app_length'; [done|]; rewrite <- Hl, El, length_app; cbn; lia].
      rewrite Er at 1. apply add_left_spec; try done. by rewrite <- Er.
    + apply gt_lt in Ec. rewrite <- Esplit at 1. apply add_right_spec; try done; [by rewrite Esplit|].
      intros r Hr. rewrite Er in Hok. apply ranges_ok_app in Hok as (Hokl & Hokp & Hlpp). rewrite El in Hr.
      apply ranges_ok_cons in Hokp as (Hvp & _ & _).
      apply elem_of_app in Hr as [Hr| ->%list_elem_of_singleton]; [|by split].
      apply apart_trans with prev; [done|apply Hlpp; [done|constructor]|by split].
  - apply last_None in El. rewrite <- Esplit at 1. rewrite El in *. apply add_right_spec; try done; [by rewrite Esplit|]. by intros ? ?%elem_of_nil.
Qed.

(** The order of the parts matters: of three parts that make up all keys, two
    orders of arrival that differ only in which of them is last are both
    accepted part by part, but the one that fills the gap last is never
    complete. *)
Theorem gap_filled_last_incomplete a b :
  a <> [] -> lt a b ->
  let p1 := {| low := []; high := a |} in let p2 := {| low := a; high := b |} in let p3 := {| low := b; high := [] |} in
  (add_all [] [p1; p2; p3] = Some [{| low := []; high := [] |}]) /\
  (add_all [] [p1; p3; p2] = Some [{| low := []; high := b |}]) /\
  forall key, covers [{| low := []; high := b |}] key = negb (contains p3 key).
Proof.
  intros Ha Hab p1 p2 p3. assert (Hb : b <> []) by by eapply lt_nonempty.
  assert (Hne : forall k, k <> [] -> empty_key k = false /\ compare_blob [] k = Lt /\ compare_blob k [] = Gt) by (intros []; done).
  destruct (Hne a Ha) as (A1 & A2 & A3), (Hne b Hb) as (B1 & B2 & B3).
  assert (Hrefl : forall k, compare_blob k k = Eq) by (intros k; by apply compare_blob_eq).
  assert (Hcab : compare_blob a b = Lt) by by rewrite compare_blob_lex.
  assert (Hcba : compare_blob b a = Gt) by (rewrite compare_blob_lex; by apply gt_lt).
  split_and!.
  - unfold add_all, add, p1, p2, p3. cbn. rewrite A2. cbn. rewrite A1, Hrefl. cbn. rewrite B2. cbn. by rewrite B1, Hrefl.
  - unfold add_all, add, p1, p2, p3. cbn. rewrite B2. cbn. rewrite A1, Hcba. cbn. rewrite A2, Hcba. cbn. rewrite A1, Hrefl. cbn. by rewrite B1, Hrefl.
  - intros key. unfold covers, contains, under. cbn. rewrite B1. cbn. rewrite andb_true_r, orb_false_r.
    replace (lle [] key) with true by by destruct key. unfold lle. rewrite (lex_compare_antisym key b). by destruct (lex_compare key b).
Qed.

(** ** Parts that arrive in order *)

(** Adding the next part to ranges that have one range, which the part continues. *)
Lemma add_next l m h : m <> [] -> lt l m -> add [{| low := l; high := m |}] {| low := m; high := h |} = (true, [{| low := l; high := h |}]).
Proof.
  intros Hm Hlt. unfold add. cbn. rewrite compare_blob_lex, Hlt. cbn. rewrite (proj2 (empty_key_false m) Hm).
  by rewrite (proj2 (compare_blob_eq m m) eq_refl).
Qed.

(** ** Witnesses *)

Definition example_parts : list KeyRange := [{| low := [5]; high := [] |}; {| low := []; high := [5] |}].
Lemma complete_covers_all_witness : covers example_parts [7; 1] = true.
Proof. exact (complete_covers_all example_parts [{| low := []; high := [] |}] [7; 1] eq_refl eq_refl). Defined.

Definition example_ranges : list KeyRange := [{| low := [1]; high := [3] |}; {| low := [6]; high := [] |}].
Lemma example_ranges_ok : ranges_ok example_ranges.
Proof. split; repeat constructor; done. Qed.
Lemma add_exact_witness :
  (add example_ranges {| low := [2]; high := [4] |}).1 = false /\
  add_spec example_ranges {| low := [3]; high := [6] |} (add example_ranges {| low := [3]; high := [6] |}).
Proof. split; [reflexivity|]. exact (add_exact example_ranges {| low := [3]; high := [6] |} example_ranges_ok eq_refl). Defined.

Lemma gap_filled_last_incomplete_witness :
  exists ranges, add_all [] [{| low := []; high := [1] |}; {| low := [2]; high := [] |}; {| low := [1]; high := [2] |}] = Some ranges /\ complete ranges = false.
Proof.
  exists [{| low := []; high := [2] |}]. split; [|reflexivity].
  exact (proj1 (proj2 (gap_filled_last_incomplete [1] [2] ltac:(done) eq_refl))).
Defined.
