(* ===== verification/Snapshot.v ===== *)
(** * psibase: snapshots of the state

    [SnapshotSender] and [SnapshotLoader] of [ForkDb.hpp]: one node cuts the two
    databases of a state into parts, another one rebuilds them; and
    [BuildStateChecksum], which hashes a database by walking its keys.  The
    databases are storages in the sense of [Database]. *)

From S2P Require Import Prelude Ordered BucketSet Database KvMerkle KeyRanges.

Abbreviation SnapshotItem := (bytes * bytes)%type.

Section snapshot.
Context `{Storage St}.

(** The databases of a revision. *)
Abbreviation Databases := (DbId -> St).
Definition set_database (d : Databases) (db : DbId) (s : St) : Databases := fun x => if decide (x = db) then s else d x.

(** ** SnapshotLoader *)

Record SnapshotLoader := { l_revision : Databases; serviceKeys : list KeyRange; nativeKeys : list KeyRange }.

Definition getRanges (self : SnapshotLoader) (db : DbId) : result (list KeyRange) :=
  match db with
  | db_service => Ok (serviceKeys self)
  | db_native => Ok (nativeKeys self)
  | _ => Abort "Wrong database in snapshot"
  end.
Definition put_rows (s : St) (rows : list SnapshotItem) : St := foldl (fun s row => kvPutRaw s row.1 row.2) s rows.

Definition loader_add (self : SnapshotLoader) (db : DbId) (range : KeyRange) (rows : list SnapshotItem) : result SnapshotLoader :=
  ranges ← getRanges self db;
  let '(added, ranges) := KeyRanges.add ranges range in
  check added "Snapshot parts overlap" ;;
  mret {| l_revision := set_database (l_revision self) db (put_rows (l_revision self db) rows);
          serviceKeys := match db with db_service => ranges | _ => serviceKeys self end;
          nativeKeys := match db with db_service => nativeKeys self | _ => ranges end |}.

Definition loader_complete (self : SnapshotLoader) : bool := KeyRanges.complete (serviceKeys self) && KeyRanges.complete (nativeKeys self).

(** ** SnapshotSender *)

(** [currentDb] is [None] for [nullDb]. *)
Record SnapshotSender := { currentKey : bytes; currentDb : option DbId }.
Definition new_sender : SnapshotSender := {| currentKey := []; currentDb := Some db_service |}.
Definition limit : Z := 1024 * 1024.
(** Each row counts for at least 16. *)
Definition send_fuel : nat := Z.to_nat (limit / 16).

(** The loop of [next]: [None] without fuel, else the rows and the key to go on
    with, if the database is not exhausted. *)
Fixpoint send_loop (fuel : nat) (s : St) (key : bytes) (totalSize : Z) (rows : list SnapshotItem) : option (list SnapshotItem * option bytes) :=
  if totalSize <? limit then
    match kvGreaterEqualRaw s key 0 with
    | Some (k, v) =>
        match fuel with
        | O => None
        | S fuel => send_loop fuel s (k ++ [0]) (totalSize + (Z.of_nat (length k) + Z.of_nat (length v) + 16)) (rows ++ [(k, v)])
        end
    | None => Some (rows, None)
    end
  else Some (rows, Some key).

Record part := { part_db : DbId; part_range : KeyRange; part_rows : list SnapshotItem }.

Definition sender_next (d : Databases) (self : SnapshotSender) : option (option part * SnapshotSender) :=
  match currentDb self with
  | None => Some (None, self)
  | Some db =>
      match send_loop send_fuel (d db) (currentKey self) 0 [] with
      | None => None
      | Some (rows, next) =>
          let self' := match next with
                       | Some key => {| currentKey := key; currentDb := Some db |}
                       | None => {| currentKey := []; currentDb := match db with db_service => Some db_native | _ => None end |}
                       end in
          Some (Some {| part_db := db; part_range := {| low := currentKey self; high := currentKey self' |}; part_rows := rows |}, self')
      end
  end.

(** A peer calls [next] until it answers [false], and sends each part. *)
Fixpoint send_all (fuel : nat) (d : Databases) (self : SnapshotSender) : option (list part) :=
  match fuel with
  | O => None
  | S fuel =>
      match sender_next d self with
      | Some (Some p, self) => match send_all fuel d self with Some ps => Some (p :: ps) | None => None end
      | Some (None, _) => Some []
      | None => None
      end
  end.
Definition load_all (l : SnapshotLoader) (parts : list part) : result SnapshotLoader :=
  foldl (fun l p => l ← l; loader_add l (part_db p) (part_range p) (part_rows p)) (Ok l) parts.

(** ** BuildStateChecksum *)

(** The loop of [hash]; the fuel is a bound of the number of rows. *)
Fixpoint hash_loop (sha256 : bytes -> bytes) (fuel : nat) (s : St) (merkle : kv_merkle) (item : bytes) : option (result bytes) :=
  match kvGreaterEqualRaw s (item_key item) 0 with
  | None => Some (kv_root sha256 merkle)
  | Some (k, v) =>
      match fuel with
      | O => None
      | S fuel =>
          let item := item_from item k v in
          match kv_push sha256 merkle item with
          | Ok merkle => hash_loop sha256 fuel s merkle (item_nextKey item)
          | Abort e => Some (Abort e)
          end
      end
  end.
Definition state_hash (sha256 : bytes -> bytes) (fuel : nat) (s : St) : option (result bytes) := hash_loop sha256 fuel s kv_empty (item_from [] [] []).

Record StateChecksum := { serviceRoot : bytes; nativeRoot : bytes }.
Definition build_checksum (sha256 : bytes -> bytes) (fuel : nat) (d : Databases) : option (result StateChecksum) :=
  match state_hash sha256 fuel (d db_service), state_hash sha256 fuel (d db_native) with
  | Some r1, Some r2 => Some (s ← r1; n ← r2; mret {| serviceRoot := s; nativeRoot := n |})
  | _, _ => None
  end.

(** ** Listings *)

(** [entries] are the rows of [s] in the order of their keys, which are bytes. *)
Definition listing (s : St) (entries : list SnapshotItem) : Prop :=
  sorted (entries.*1) /\ Forall (fun e => bytes_ok e.1) entries /\ forall k v, st_get s k = Some v <-> (k, v) ∈ entries.

(** [key] separates the rows [passed] from the rows [todo]. *)
Definition cut (key : bytes) (passed todo : list SnapshotItem) : Prop :=
  Forall (fun e => lex_compare e.1 key = Lt) passed /\ Forall (fun e => lle key e.1 = true) todo.

Context `{!StorageLaws St}.

Lemma matched_all r key : matched r key 0 = r.
Proof. destruct r as [[k v]|]; [|done]. unfold matched. cbn. by rewrite !take_0. Qed.

Lemma greater_equal_listing s passed todo key :
  listing s (passed ++ todo) -> cut key passed todo -> kvGreaterEqualRaw s key 0 = head todo.
Proof.
  intros (Hs & _ & Hg) [Hp Ht]. unfold kvGreaterEqualRaw. rewrite matched_all. pose proof (greater_equal_found s key) as Hf.
  rewrite Forall_forall in Hp, Ht.
  assert (Hin : forall k v, st_get s k = Some v -> lle key k = true -> (k, v) ∈ todo).
  { intros k v Hk Hle. apply Hg in Hk. apply elem_of_app in Hk as [Hk|]; [|done]. specialize (Hp _ Hk). cbn in Hp. unfold lle in Hle.
    rewrite (lex_compare_antisym k key), Hp in Hle. done. }
  destruct (st_greater_equal s key) as [[k v]|]; cbn in Hf.
  - destruct Hf as (Hk & Hle & Hbest). pose proof (Hin k v Hk Hle) as Hkt. destruct todo as [|[k' v'] todo]; [by apply elem_of_nil in Hkt|].
    cbn. apply elem_of_cons in Hkt as [[= -> ->]|Hkt]; [done|]. exfalso.
    assert (Hlt : below k' k). { rewrite fmap_app in Hs. apply sorted_app in Hs as (_ & Hs & _). cbn in Hs. apply sorted_cons in Hs as [_ Hs].
      rewrite Forall_forall in Hs. apply Hs. apply (list_elem_of_fmap_2 fst _ _ Hkt). }
    assert (Hle' : lle k k' = true). { apply Hbest; [|apply (Ht (k', v')); constructor]. exists v'. apply Hg, elem_of_app. right. constructor. }
    unfold lle in Hle'. rewrite (lex_compare_antisym k' k) in Hle'. unfold below, cmp, bytes_compare in Hlt. by rewrite Hlt in Hle'.
  - destruct todo as [|[k v] todo]; [done|]. exfalso. specialize (Hf k). pose proof (Ht (k, v) ltac:(constructor)) as Hk. cbn in Hk.
    assert (is_Some (st_get s k)) as Hi; [|specialize (Hf Hi); congruence]. exists v. apply Hg, elem_of_app. right. constructor.
Qed.

(** The key after a row separates the rows up to it from the rest. *)
Lemma cut_next s passed k v todo key :
  listing s (passed ++ (k, v) :: todo) -> cut key passed ((k, v) :: todo) -> cut (k ++ [0]) (passed ++ [(k, v)]) todo.
Proof.
  intros (Hs & Hb & _) [Hp Ht]. assert (Hk : lex_compare k (k ++ [0]) = Lt). { rewrite <- (app_nil_r k) at 1. by rewrite lex_compare_app. }
  split; apply Forall_forall.
  - intros e [He| ->%list_elem_of_singleton]%elem_of_app; [|done]. rewrite Forall_forall in Hp. eapply lex_compare_trans; [done| |exact Hk].
    rewrite fmap_app in Hs. apply sorted_app in Hs as (_ & _ & Hs). apply Hs; [apply (list_elem_of_fmap_2 fst _ _ He)|constructor].
  - intros e He. rewrite fmap_app in Hs. apply sorted_app in Hs as (_ & Hs & _). cbn in Hs. apply sorted_cons in Hs as [_ Hs].
    rewrite Forall_forall in Hs. apply lle_spec, next_least; [apply (proj1 (Forall_forall _ _) Hb e); rewrite elem_of_app, elem_of_cons; auto|].
    apply Hs, (list_elem_of_fmap_2 fst _ _ He).
Qed.

Lemma lt_snoc key k : lle key k = true -> lex_compare key (k ++ [0]) = Lt.
Proof.
  intros Hle. eapply le_lt_trans; [exact Hle|]. rewrite <- (app_nil_r k) at 1. by rewrite lex_compare_app.
Qed.

(** One part: some of the remaining rows, at least one if there is room, and the
    key after them or the end of the database. *)
Lemma send_loop_spec fuel s key passed todo totalSize rows :
  listing s (passed ++ todo) -> cut key passed todo -> limit <= totalSize + 16 * Z.of_nat fuel ->
  exists sent rest next, todo = sent ++ rest /\ send_loop fuel s key totalSize rows = Some (rows ++ sent, next) /\
    match next with
    | None => rest = []
    | Some key' => cut key' (passed ++ sent) rest /\ (sent = [] -> key' = key /\ limit <= totalSize) /\ (sent <> [] -> lex_compare key key' = Lt)
    end.
Proof.
  revert key passed todo totalSize rows. induction fuel as [|fuel IH]; intros key passed todo totalSize rows Hl Hc Hf; cbn [send_loop].
  - destruct (Z.ltb_spec totalSize limit); [lia|]. exists [], todo, (Some key). rewrite !app_nil_r. by split_and!.
  - destruct (Z.ltb_spec totalSize limit); [|exists [], todo, (Some key); rewrite !app_nil_r; by split_and!].
    rewrite (greater_equal_listing s passed todo key Hl Hc). destruct todo as [|[k v] todo]; cbn [hd_error].
    + exists [], [], None. by rewrite (app_nil_r rows).
    + pose proof (cut_next _ _ _ _ _ _ Hl Hc) as Hc'. rewrite cons_middle, app_assoc in Hl.
      destruct (IH (k ++ [0]) _ todo (totalSize + (Z.of_nat (length k) + Z.of_nat (length v) + 16)) (rows ++ [(k, v)]) Hl Hc' ltac:(lia))
        as (sent & rest & next & -> & -> & Hn).
      exists ((k, v) :: sent), rest, next. rewrite <- app_assoc. split_and!; try done. destruct next as [key'|]; [|done].
      rewrite <- app_assoc in Hn. destruct Hn as (Hcut & Hz & Hlt). split_and!; [exact Hcut|done|]. intros _.
      assert (Hk : lex_compare key (k ++ [0]) = Lt). { apply lt_snoc. destruct Hc as [_ Hc]. by apply Forall_cons in Hc as []. }
      destruct sent; [by destruct (Hz eq_refl) as [-> _]|]. eapply lt_trans; [exact Hk|]. by apply Hlt.
Qed.

(** The ranges of a database of which the keys before [key] have arrived. *)
Definition ranges_to (key : bytes) : list KeyRange := match key with [] => [] | _ => [{| low := []; high := key |}] end.
Definition ranges_of (l : SnapshotLoader) (db : DbId) : list KeyRange := match db with db_service => serviceKeys l | _ => nativeKeys l end.
Definition snapshot_db (db : DbId) : Prop := db = db_service \/ db = db_native.
#[export] Instance snapshot_db_dec db : Decision (snapshot_db db).
Proof. unfold snapshot_db. apply _. Defined.

(** [l'] is [l] with [rows] added to [db] and the ranges of [db] replaced. *)
Definition loaded (l l' : SnapshotLoader) (db : DbId) (ranges : list KeyRange) (rows : list SnapshotItem) : Prop :=
  ranges_of l' db = ranges /\ l_revision l' db = put_rows (l_revision l db) rows /\
  forall db', db' <> db -> l_revision l' db' = l_revision l db' /\ (snapshot_db db' -> ranges_of l' db' = ranges_of l db').

Lemma put_rows_app s rows rows' : put_rows s (rows ++ rows') = put_rows (put_rows s rows) rows'.
Proof. unfold put_rows. by rewrite foldl_app. Qed.
Lemma loaded_trans l l1 l2 db r1 r2 rows1 rows2 :
  loaded l l1 db r1 rows1 -> loaded l1 l2 db r2 rows2 -> loaded l l2 db r2 (rows1 ++ rows2).
Proof.
  intros (_ & E1 & O1) (R2 & E2 & O2). split; [done|]. split; [by rewrite E2, E1, put_rows_app|]. intros db' Hne.
  destruct (O2 db' Hne) as [-> P2], (O1 db' Hne) as [-> P1]. split; [done|]. intros Hs. by rewrite P2, P1.
Qed.

Lemma loader_add_loaded l db range rows ranges' :
  snapshot_db db -> KeyRanges.add (ranges_of l db) range = (true, ranges') ->
  exists l', loader_add l db range rows = Ok l' /\ loaded l l' db ranges' rows.
Proof.
  intros Hdb E. unfold loader_add.
  replace (getRanges l db) with (Ok (ranges_of l db)) by (destruct Hdb as [-> | ->]; done). cbn [mbind result_bind]. rewrite E.
  eexists. split; [reflexivity|]. split; [by destruct Hdb as [-> | ->]|]. cbn. split; [unfold set_database; by rewrite decide_True|].
  intros db' Hne. split; [unfold set_database; by rewrite decide_False|]. intros Hs. destruct Hdb as [-> | ->], Hs as [-> | ->]; done.
Qed.

Lemma add_ranges_to key key' :
  key' = [] \/ lex_compare key key' = Lt ->
  KeyRanges.add (ranges_to key) {| low := key; high := key' |} = (true, match key' with [] => [{| low := []; high := [] |}] | _ => ranges_to key' end).
Proof.
  intros Hk. destruct key as [|b key].
  - by destruct key'.
  - cbn [ranges_to]. rewrite add_next; [|done|done]. by destruct key'.
Qed.

(** The rest of a database: the parts that the sender cuts from it are accepted,
    and complete the ranges. *)
Lemma send_database d db key passed todo l n :
  snapshot_db db -> listing (d db) (passed ++ todo) -> cut key passed todo -> ranges_of l db = ranges_to key -> (length todo < n)%nat ->
  let next := {| currentKey := []; currentDb := match db with db_service => Some db_native | _ => None end |} in
  exists parts l', (length parts <= n)%nat /\
    (forall fuel parts', send_all fuel d next = Some parts' -> send_all (length parts + fuel) d {| currentKey := key; currentDb := Some db |} = Some (parts ++ parts')) /\
    load_all l parts = Ok l' /\ loaded l l' db [{| low := []; high := [] |}] todo.
Proof.
  intros Hdb. revert key passed todo l. induction n as [|n IH]; intros key passed todo l Hl Hc Hr Hn next; [lia|].
  destruct (send_loop_spec send_fuel (d db) key passed todo 0 [] Hl Hc) as (sent & rest & nkey & -> & Eloop & Hnext); [vm_compute; done|].
  cbn [app] in Eloop. destruct nkey as [key'|].
  - destruct Hnext as (Hc' & Hz & Hlt). assert (Hs : sent <> []). { intros E. destruct (Hz E) as [_ Hlim]. by vm_compute in Hlim. }
    specialize (Hlt Hs). assert (Hne : key' <> []) by (destruct key, key'; done).
    destruct (loader_add_loaded l db {| low := key; high := key' |} sent (ranges_to key')) as (l1 & E1 & L1); [done|rewrite Hr, add_ranges_to by auto; by destruct key'|].
    destruct (IH key' (passed ++ sent) rest l1) as (parts & l' & Hlen & Hsend & Hload & L2); [by rewrite <- app_assoc|done|by destruct L1| |].
    { rewrite length_app in Hn. destruct sent; [done|]. cbn in Hn. lia. }
    exists ({| part_db := db; part_range := {| low := key; high := key' |}; part_rows := sent |} :: parts), l'. split_and!.
    + cbn. lia.
    + intros fuel parts' Hp. cbn [length Nat.add send_all app]. unfold sender_next. cbn [currentDb currentKey]. rewrite Eloop. by rewrite (Hsend fuel parts' Hp).
    + unfold load_all. cbn [foldl mbind result_bind part_db part_range part_rows]. by rewrite E1.
    + by eapply loaded_trans.
  - subst rest. rewrite app_nil_r in *.
    destruct (loader_add_loaded l db {| low := key; high := [] |} sent [{| low := []; high := [] |}]) as (l1 & E1 & L1); [done|rewrite Hr; apply add_ranges_to; by left|].
    exists [{| part_db := db; part_range := {| low := key; high := [] |}; part_rows := sent |}], l1. split_and!; [cbn; lia| | |done].
    + intros fuel parts' Hp. cbn [length Nat.add send_all app]. unfold sender_next. cbn [currentDb currentKey]. rewrite Eloop. fold next. by rewrite Hp.
    + unfold load_all. cbn [foldl mbind result_bind part_db part_range part_rows]. by rewrite E1.
Qed.

Lemma put_rows_get s rows k :
  sorted (rows.*1) ->
  st_get (put_rows s rows) k = match list_find (fun e => e.1 = k) rows with Some (_, e) => Some e.2 | None => st_get s k end.
Proof.
  unfold put_rows. revert s. induction rows as [|[k' v'] rows IH]; intros s Hs; [done|]. cbn in Hs. apply sorted_cons in Hs as [Hs Hl].
  cbn [foldl list_find]. rewrite IH by done. unfold kvPutRaw. rewrite get_upsert. destruct (decide ((k', v').1 = k)) as [<-|Hne]; cbn.
  - destruct (list_find _ rows) as [[i e]|] eqn:E; [|by rewrite decide_True]. exfalso. apply list_find_Some in E as (E & E2 & _). cbn in E2.
    rewrite Forall_forall in Hl. apply (below_irrefl k'), Hl. rewrite <- E2. apply (list_elem_of_fmap_2 fst). by eapply list_elem_of_lookup_2.
  - cbn in Hne. destruct (list_find _ rows) as [[i e]|]; cbn; [done|]. by rewrite decide_False.
Qed.
Lemma put_listing s entries s0 k :
  listing s entries -> st_get (put_rows s0 entries) k = match st_get s k with Some v => Some v | None => st_get s0 k end.
Proof.
  intros (Hs & _ & Hg). rewrite put_rows_get by done. destruct (list_find _ entries) as [[i [k' v]]|] eqn:E.
  - apply list_find_Some in E as (E & <- & _). cbn. apply list_elem_of_lookup_2, Hg in E. by rewrite E.
  - apply list_find_None in E. rewrite Forall_forall in E. destruct (st_get s k) as [v|] eqn:Ek; [|done]. exfalso. apply Hg in Ek. by apply (E _ Ek).
Qed.

Lemma send_all_mono fuel fuel' d self parts : send_all fuel d self = Some parts -> (fuel <= fuel')%nat -> send_all fuel' d self = Some parts.
Proof.
  revert fuel' self parts. induction fuel as [|fuel IH]; intros fuel' self parts E Hle; [done|]. destruct fuel' as [|fuel']; [lia|]. cbn in *.
  destruct (sender_next d self) as [[[p|] self']|]; try done. destruct (send_all fuel d self') as [ps|] eqn:E'; [|done].
  by rewrite (IH fuel' self' ps E' ltac:(lia)).
Qed.

(** C9: A snapshot whose parts are loaded in the order in which they were sent:
    [next] ends after at most one part per row and two more; every part is accepted
    by the loader, which then is complete; its two databases have the sender's rows
    over the rows that the loader started with, and the other databases are as they
    were.  The loader starts from a revision of the receiver and removes nothing, so
    a database is the sender's exactly when the receiver had no key in it that the
    sender has not. *)
Theorem snapshot_roundtrip d e1 e2 d0 :
  listing (d db_service) e1 -> listing (d db_native) e2 ->
  exists parts l, send_all (length e1 + length e2 + 3) d new_sender = Some parts /\
    load_all {| l_revision := d0; serviceKeys := []; nativeKeys := [] |} parts = Ok l /\ loader_complete l = true /\
    (forall db k, st_get (l_revision l db) k =
      if bool_decide (snapshot_db db) then match st_get (d db) k with Some v => Some v | None => st_get (d0 db) k end else st_get (d0 db) k) /\
    (forall db, snapshot_db db ->
      (forall k, st_get (l_revision l db) k = st_get (d db) k) <-> (forall k, is_Some (st_get (d0 db) k) -> is_Some (st_get (d db) k))).
Proof.
  intros H1 H2. set (l0 := {| l_revision := d0; serviceKeys := []; nativeKeys := [] |}).
  assert (Hcut : forall e, cut [] [] e). { intros e. split; [constructor|]. apply Forall_forall. intros x _. by destruct x as [[|] ?]. }
  destruct (send_database d db_service [] [] e1 l0 (S (length e1))) as (p1 & l1 & N1 & S1 & E1 & L1); [by left|done|apply Hcut|done|lia|].
  destruct L1 as (R1 & G1 & O1). destruct (O1 db_native ltac:(done)) as [G1n R1n].
  destruct (send_database d db_native [] [] e2 l1 (S (length e2))) as (p2 & l2 & N2 & S2 & E2 & L2);
    [by right|done|apply Hcut|rewrite R1n; [done|by right]|lia|].
  destruct L2 as (R2 & G2 & O2). destruct (O2 db_service ltac:(done)) as [G2s R2s].
  exists (p1 ++ p2), l2. assert (Hrows : forall db k, st_get (l_revision l2 db) k =
      if bool_decide (snapshot_db db) then match st_get (d db) k with Some v => Some v | None => st_get (d0 db) k end else st_get (d0 db) k).
  { intros db k. case_bool_decide as Hdb.
    + destruct Hdb as [-> | ->]; [rewrite G2s, G1; by apply put_listing|]. rewrite G2, G1n. by apply put_listing.
    + assert (db <> db_service /\ db <> db_native) as [Hn1 Hn2] by (split; intros ->; apply Hdb; [by left|by right]).
      destruct (O1 db Hn1) as [F1 _], (O2 db Hn2) as [F2 _]. by rewrite F2, F1. }
  split_and!.
  - eapply send_all_mono; [apply (S1 (length p2 + 1)%nat p2)|lia]. rewrite <- (app_nil_r p2) at 2. by apply (S2 1%nat []).
  - unfold load_all in *. by rewrite foldl_app, E1.
  - unfold loader_complete. cbn [ranges_of] in *. rewrite R2, R2s by by left. by rewrite R1.
  - exact Hrows.
  - intros db Hdb. setoid_rewrite (fun k => Hrows db k). rewrite bool_decide_true by done. split; intros Hk k; specialize (Hk k).
    + intros [v Ev]. rewrite Ev in Hk. destruct (st_get (d db) k); [by eexists|done].
    + destruct (st_get (d db) k); [done|]. destruct (st_get (d0 db) k); [|done]. by destruct Hk as [? ?].
Qed.

(** ** The checksum *)

Lemma sorted_increasing keys : sorted keys -> increasing keys = true.
Proof.
  induction keys as [|a keys IH]; intros Hs; [done|]. apply sorted_cons in Hs as [Hs Hl]. destruct keys as [|b keys]; [done|]. cbn.
  apply Forall_cons in Hl as [Hl _]. unfold below, cmp, bytes_compare in Hl. rewrite Hl. by apply IH.
Qed.

(** The first byte of an item stays as it is. *)
Lemma item_from_zero item k v : item_from (0 :: item) k v = item_from [] k v.
Proof. done. Qed.
Lemma item_next_zero item k v :
  item_ok (k, v) -> Z.of_nat (length k) + 6 < 2 ^ 32 -> exists item', item_nextKey (item_from (0 :: item) k v) = 0 :: item'.
Proof.
  intros (_ & Hk & Hv) Hs. cbn in Hk, Hv. unfold item_nextKey.
  assert (Er : forall n d, (0 < n)%nat -> exists d', vector_resize n (0 :: d) = 0 :: d').
  { intros [|n] d Hn; [lia|]. by eexists. }
  assert (Ek : item_key_size (item_from (0 :: item) k v) = Z.of_nat (length k)).
  { unfold item_key_size, item_from. cbn [app drop]. rewrite drop_0. rewrite (wrap_small 32) by lia. by rewrite from_le32_app by lia. }
  rewrite Ek, (wrap_small 32 (Z.of_nat (length k) + 1)), (wrap_small 32) by lia.
  destruct (Er (Z.to_nat (5 + (Z.of_nat (length k) + 1))) (le32 (u32 (Z.of_nat (length k))) ++ k ++ le32 (u32 (Z.of_nat (length v))) ++ v)) as [d' Ed]; [lia|].
  unfold item_from. cbn [app]. rewrite <- ?app_assoc in *. rewrite Ed. cbn. by eexists.
Qed.

Definition row_ok (e : SnapshotItem) : Prop := item_ok e /\ Z.of_nat (length e.1) + 6 < 2 ^ 32.

(** The walk pushes the rows in order, each once. *)
Lemma hash_loop_push sha256 s passed todo fuel m item :
  listing s (passed ++ todo) -> Forall row_ok todo -> cut (item_key (0 :: item)) passed todo -> (length todo <= fuel)%nat ->
  hash_loop sha256 fuel s m (0 :: item) =
  match push_items sha256 m todo with Ok m' => Some (kv_root sha256 m') | Abort e => Some (Abort e) end.
Proof.
  revert passed todo m item. induction fuel as [|fuel IH]; intros passed todo m item Hl Hok Hc Hf; cbn [hash_loop];
    rewrite (greater_equal_listing s passed todo _ Hl Hc); destruct todo as [|[k v] todo]; try done; [cbn in Hf; lia|].
  cbn [head hd_error]. rewrite item_from_zero. apply Forall_cons in Hok as [[Hi Hs] Hok].
  change (push_items sha256 m ((k, v) :: todo)) with (foldl (fun m '(key, value) => m ← m; kv_push sha256 m (item_from [] key value)) (kv_push sha256 m (item_from [] k v)) todo).
  destruct (kv_push sha256 m (item_from [] k v)) as [m'|e].
  - destruct (item_next_zero [] k v Hi Hs) as [item' En]. rewrite item_from_zero in En. rewrite En.
    pose proof (cut_next _ _ _ _ _ _ Hl Hc) as Hc'. rewrite cons_middle, app_assoc in Hl. apply (IH (passed ++ [(k, v)])); try done; [|cbn in Hf; lia].
    rewrite <- En. by rewrite item_next_key.
  - clear. induction todo as [|[? ?] todo IH]; [done|exact IH].
Qed.

(** The checksum of a database is the root of the documented trie over all its
    rows: the walk of [BuildStateChecksum::hash], which finds each row by the
    smallest key after the last one, ends after visiting every row once. *)
Theorem state_hash_root sha256 s entries :
  listing s entries -> Forall row_ok entries ->
  state_hash sha256 (length entries) s =
  Some (Ok (database_root sha256 (map (fun '(key, value) => (key, item_hash sha256 (item_from [] key value))) entries))).
Proof.
  intros Hl Hok. unfold state_hash. change (item_from [] [] []) with (0 :: [0; 0; 0; 0; 0; 0; 0; 0]).
  rewrite (hash_loop_push sha256 s [] entries); [|done|done| |done].
  - rewrite push_items_all by (eapply Forall_impl; [exact Hok|]; by intros ? []).
    set (es := map _ entries). pose proof (push_all_root sha256 es) as Hp.
    assert (Ek : es.*1 = entries.*1). { unfold es. clear. induction entries as [|[k v] l IH]; [done|]. cbn. by f_equal. }
    rewrite Ek, sorted_increasing in Hp by apply Hl. destruct Hp as (m & -> & ->); [|done].
    unfold es. apply Forall_map. eapply Forall_impl; [exact Hok|]. intros [k v] [(? & _) _]. done.
  - split; [constructor|]. apply Forall_forall. intros e _. by destruct e as [[|] ?].
Qed.
End snapshot.

(** ** Witnesses *)

Definition example_databases (db : DbId) : gmap bytes bytes := match db with db_service => {[ [1; 2] := [5] ]} | _ => ∅ end.
Lemma example_listing : listing (example_databases db_service) [([1; 2], [5])].
Proof.
  split; [by repeat constructor|]. split; [repeat constructor; done|]. intros k v. cbn. rewrite lookup_singleton_Some, list_elem_of_singleton.
  split; [by intros [<- <-]|by intros [= -> ->]].
Qed.
Lemma empty_listing db : db <> db_service -> listing (example_databases db) [].
Proof.
  intros Hdb. split; [constructor|]. split; [constructor|]. intros k v. destruct db; try done; cbn; rewrite lookup_empty, elem_of_nil; done.
Qed.

Lemma snapshot_roundtrip_witness :
  exists parts l, send_all 4 example_databases new_sender = Some parts /\
    load_all {| l_revision := fun _ => (∅ : gmap bytes bytes); serviceKeys := []; nativeKeys := [] |} parts = Ok l /\ loader_complete l = true /\
    st_get (l_revision l db_service) [1; 2] = Some [5].
Proof.
  destruct (snapshot_roundtrip example_databases [([1; 2], [5])] [] (fun _ => ∅) example_listing (empty_listing db_native ltac:(done)))
    as (parts & l & E1 & E2 & E3 & E4 & _). exists parts, l. split; [exact E1|]. split; [exact E2|]. split; [exact E3|]. by rewrite E4.
Defined.

Lemma state_hash_root_witness :
  state_hash (fun l => 9 :: l) 1 (example_databases db_service) =
  Some (Ok (database_root (fun l => 9 :: l) [([1; 2], 9 :: item_from [] [1; 2] [5])])).
Proof.
  exact (state_hash_root (fun l => 9 :: l) (example_databases db_service) [([1; 2], [5])] example_listing
    ltac:(repeat constructor; done)).
Defined.
