(* ===== verification/StateSignatures.v ===== *)
(** * psibase: signatures of state checksums

    Producers sign the checksum of scheduled states.  [on_state_checksum],
    [on_state_signature] and [verify_state_checksum] of [ForkDb.hpp] collect the
    signatures in a row per block, and [apply_snapshot] checks those that come
    with a snapshot.  Proving and verifying a signature are parameters.  A
    [consensus_failure] ends the node after the row has been written, so it is
    part of the result. *)

From S2P Require Import Prelude Ordered Services Database KvMerkle AuthState HeaderState Snapshot.

#[export] Instance StateChecksum_eq_dec : EqDecision StateChecksum.
Proof. solve_decision. Defined.

Record StateSignature := { sig_account : AccountNumber; sig_claim : Claim; sig_rawData : bytes }.
Record SnapshotStateItem := { item_state : StateChecksum; item_signatures : list StateSignature }.
Record SnapshotRow := { row_id : Checksum256; row_state : option SnapshotStateItem; row_other : list SnapshotStateItem }.

Definition new_row (id : Checksum256) : SnapshotRow := {| row_id := id; row_state := None; row_other := [] |}.
Definition new_item (checksum : StateChecksum) : SnapshotStateItem := {| item_state := checksum; item_signatures := [] |}.
Definition add_signature (sig : StateSignature) (item : SnapshotStateItem) : SnapshotStateItem :=
  {| item_state := item_state item; item_signatures := item_signatures item ++ [sig] |}.
Definition signed_by (account : AccountNumber) (item : SnapshotStateItem) : bool :=
  existsb (fun sig => sig_account sig =? account) (item_signatures item).

(** [std::ranges::find] by checksum: the items before, the item, the items after. *)
Fixpoint find_item (checksum : StateChecksum) (items : list SnapshotStateItem) : option (list SnapshotStateItem * SnapshotStateItem * list SnapshotStateItem) :=
  match items with
  | [] => None
  | item :: items =>
      if bool_decide (item_state item = checksum) then Some ([], item, items)
      else match find_item checksum items with Some (l, i, r) => Some (item :: l, i, r) | None => None end
  end.

(** [verify_state_checksum]: [false] is a consensus failure. *)
Definition verify_state_checksum (row : SnapshotRow) (prods : ProducerSet) : bool :=
  let sizes := map (fun item => length (item_signatures item)) (row_other row) in
  let total := foldl Nat.add 0%nat sizes in
  let max := foldl Nat.max 0%nat sizes in
  match row_state row with
  | Some _ => negb (weak_threshold prods <=? total)%nat
  | None => negb (weak_threshold prods <=? total - max)%nat
  end.

Section signatures.
Context (verify : VerifyTables -> StateChecksum -> Claim -> bytes -> bool).

(** ** A checksum of this node *)

Definition on_state_checksum (prove : StateChecksum -> Claim -> bytes) (producers : ProducerSet) (row : SnapshotRow) (checksum : StateChecksum) (me : AccountNumber)
    : SnapshotRow * option StateSignature * bool :=
  let '(state, other) :=
    match row_state row with
    | Some item => if bool_decide (item_state item = checksum) then (item, row_other row) else (new_item checksum, row_other row)
    | None =>
        match find_item checksum (row_other row) with
        | Some (l, item, r) => (item, l ++ r)
        | None => (new_item checksum, row_other row)
        end
    end in
  let mine := match getClaim producers me with
              | Some claim => if signed_by me state then None else Some {| sig_account := me; sig_claim := claim; sig_rawData := prove checksum claim |}
              | None => None
              end in
  let state := match mine with Some sig => add_signature sig state | None => state end in
  let row := {| row_id := row_id row; row_state := Some state; row_other := other |} in
  (row, mine, verify_state_checksum row producers).

(** ** A signature of a producer *)

(** [authRevision] is the state of the block, or the services before it during
    joint consensus. *)
Definition on_state_signature (producers : ProducerSet) (authRevision : VerifyTables) (row : SnapshotRow) (checksum : StateChecksum) (sig : StateSignature)
    : result (SnapshotRow * bool * bool) :=
  match getIndexClaim producers (sig_account sig) (sig_claim sig) with
  | None => Abort "is not a producer for block"
  | Some _ =>
      check (verify authRevision checksum (sig_claim sig) (sig_rawData sig)) "signature verification failed" ;;
      let '(row', inserted) :=
        match row_state row with
        | Some item =>
            if bool_decide (item_state item = checksum) then
              if signed_by (sig_account sig) item then (row, false)
              else ({| row_id := row_id row; row_state := Some (add_signature sig item); row_other := row_other row |}, true)
            else
              match find_item checksum (row_other row) with
              | None => ({| row_id := row_id row; row_state := row_state row; row_other := row_other row ++ [add_signature sig (new_item checksum)] |}, true)
              | Some (l, item, r) =>
                  if signed_by (sig_account sig) item then (row, false)
                  else ({| row_id := row_id row; row_state := row_state row; row_other := l ++ add_signature sig item :: r |}, true)
              end
        | None =>
            match find_item checksum (row_other row) with
            | None => ({| row_id := row_id row; row_state := None; row_other := row_other row ++ [add_signature sig (new_item checksum)] |}, true)
            | Some (l, item, r) =>
                if signed_by (sig_account sig) item then (row, false)
                else ({| row_id := row_id row; row_state := None; row_other := l ++ add_signature sig item :: r |}, true)
            end
        end in
      mret (row', inserted, if (inserted : bool) then verify_state_checksum row' producers else true)
  end.

(** ** The signatures of a snapshot *)

(** The loop of [apply_snapshot]; [prev] stays [AccountNumber{}]. *)
Definition check_signature (producers : ProducerSet) (authRevision : VerifyTables) (hash : StateChecksum) (prev : AccountNumber) (sig : StateSignature) : result unit :=
  check (bool_decide (is_Some (getIndexClaim producers (sig_account sig) (sig_claim sig)))) "Not a producer" ;;
  check (prev <? sig_account sig) "Producers must be in order" ;;
  check (verify authRevision hash (sig_claim sig) (sig_rawData sig)) "signature verification failed".
Definition check_signatures (producers : ProducerSet) (authRevision : VerifyTables) (hash : StateChecksum) (signatures : list StateSignature) : result unit :=
  let prev := 0 in
  foldl (fun r sig => r ;; check_signature producers authRevision hash prev sig) (Ok tt) signatures ;;
  check (weak_threshold producers <=? length signatures)%nat "Not enough signatures on snapshot".

(** The checks of [apply_snapshot] before the state is loaded; the hash of the
    loaded databases is [actual]. *)
Definition apply_snapshot_checks {St} `{Storage St} (loader : @SnapshotLoader St) (producers : ProducerSet) (authRevision : VerifyTables)
    (hash actual : StateChecksum) (signatures : list StateSignature) : result unit :=
  check (loader_complete loader) "Incomplete snapshot" ;;
  check_signatures producers authRevision hash signatures ;;
  check (bool_decide (actual = hash)) "State checksum does not match".

(** ** The signatures of a snapshot: what is checked *)

Definition signature_ok (producers : ProducerSet) (authRevision : VerifyTables) (hash : StateChecksum) (sig : StateSignature) : Prop :=
  getClaim producers (sig_account sig) = Some (sig_claim sig) /\ 0 < sig_account sig /\ verify authRevision hash (sig_claim sig) (sig_rawData sig) = true.

Lemma index_of_find l producer c : find producer l = Some c -> is_Some (index_of producer l).
Proof.
  induction l as [|[name c'] l IH]; cbn; [done|]. destruct (cmp producer name); [by eexists|..]; intros E; destruct (IH E) as [n ->]; by eexists.
Qed.
Lemma getIndexClaim_Some producers account claim :
  is_Some (getIndexClaim producers account claim) <-> getClaim producers account = Some claim.
Proof.
  unfold getIndexClaim, getClaim. destruct (find account (activeProducers producers)) as [c|] eqn:E; [|split; [by intros []|done]].
  case_bool_decide as Hc; [subst; split; [done|]; intros _; by eapply index_of_find|]. split; [by intros []|congruence].
Qed.

Lemma check_signature_ok producers rev hash sig :
  check_signature producers rev hash 0 sig = Ok tt <-> signature_ok producers rev hash sig.
Proof.
  unfold check_signature, signature_ok, check. rewrite <- getIndexClaim_Some. case_bool_decide as Hi; cbn; [|split; [done|tauto]].
  destruct (Z.ltb_spec 0 (sig_account sig)); cbn; [|split; [done|lia]]. destruct (verify _ _ _ _); cbn; [tauto|]. split; [done|]. by intros (_ & _ & ?).
Qed.
Lemma check_signatures_ok producers rev hash sigs :
  check_signatures producers rev hash sigs = Ok tt <->
  Forall (signature_ok producers rev hash) sigs /\ (weak_threshold producers <= length sigs)%nat.
Proof.
  assert (Hl : forall r, foldl (fun r sig => r ;; check_signature producers rev hash 0 sig) r sigs = Ok tt <-> r = Ok tt /\ Forall (signature_ok producers rev hash) sigs).
  { induction sigs as [|sig sigs IH]; intros r; cbn [foldl]; [split; [done|tauto]|].
    rewrite IH, Forall_cons, <- check_signature_ok. destruct r as [[]|]; cbn; [tauto|]. split; [by intros []|by intros []]. }
  unfold check_signatures. specialize (Hl (Ok tt)). destruct (foldl _ _ sigs) as [[]|e]; cbn.
  - rewrite check_ok, Nat.leb_le. tauto.
  - split; [done|]. intros [Hall _]. by apply Hl.
Qed.

Lemma apply_snapshot_checks_ok {St} `{Storage St} (loader : @SnapshotLoader St) producers rev hash actual sigs :
  apply_snapshot_checks loader producers rev hash actual sigs = Ok tt <->
  loader_complete loader = true /\ Forall (signature_ok producers rev hash) sigs /\ (weak_threshold producers <= length sigs)%nat /\ actual = hash.
Proof.
  pose proof (check_signatures_ok producers rev hash sigs) as Hs. unfold apply_snapshot_checks. destruct (loader_complete loader); cbn; [|split; [done|by intros []]].
  destruct (check_signatures producers rev hash sigs) as [[]|e]; cbn.
  - rewrite check_ok, bool_decide_eq_true. tauto.
  - split; [done|]. intros (_ & Ha & Hl & _). by destruct (proj2 Hs (conj Ha Hl)).
Qed.

(** C38: A snapshot passes the checks of [apply_snapshot] exactly when its ranges are
    complete, there are at least as many signatures as the weak threshold, each by
    an active producer with its claim and valid for the announced checksum, and the
    checksum of the loaded databases is the announced one.  When, which the code
    means to check but does not, the signatures are by different producers, and the
    dishonest producers are fewer than the weak threshold, one of them is by an
    honest producer, who signed the checksum of exactly the databases that were
    loaded. *)
Theorem snapshot_needs_honest_signature {St} `{Storage St} (loader : @SnapshotLoader St) producers rev hash actual sigs :
  (apply_snapshot_checks loader producers rev hash actual sigs = Ok tt <->
    loader_complete loader = true /\ (weak_threshold producers <= length sigs)%nat /\ actual = hash /\
    forall sig, sig ∈ sigs -> getClaim producers (sig_account sig) = Some (sig_claim sig) /\ 0 < sig_account sig /\ verify rev hash (sig_claim sig) (sig_rawData sig) = true) /\
  (apply_snapshot_checks loader producers rev hash actual sigs = Ok tt -> NoDup (map sig_account sigs) -> forall bad,
    (length (List.filter bad (map fst (activeProducers producers))) < weak_threshold producers)%nat ->
    exists sig, sig ∈ sigs /\ bad (sig_account sig) = false /\ getClaim producers (sig_account sig) = Some (sig_claim sig) /\
      verify rev actual (sig_claim sig) (sig_rawData sig) = true).
Proof.
  rewrite apply_snapshot_checks_ok, Forall_forall. split; [unfold signature_ok; tauto|]. intros (_ & Hall & Hlen & ->) Hnd bad Hbad.
  destruct (decide (Forall (fun sig => bad (sig_account sig) = true) sigs)) as [Hb|Hb].
  - exfalso. assert (Hsub : map sig_account sigs ⊆+ List.filter bad (map fst (activeProducers producers))).
    { apply NoDup_submseteq; [done|]. intros x Hx. apply list_elem_of_In, in_map_iff in Hx as (sig & <- & Hin%list_elem_of_In).
      rewrite Forall_forall in Hb. destruct (Hall sig Hin) as [Hc _]. apply list_elem_of_In, filter_In. split; [|by apply Hb].
      apply list_elem_of_In. by eapply find_Some_key. }
    apply submseteq_length in Hsub. rewrite length_map in Hsub. lia.
  - apply not_Forall_Exists in Hb; [|apply _]. apply Exists_exists in Hb as (sig & Hin & Hb). exists sig.
    destruct (Hall sig Hin) as (? & _ & ?). split_and!; try done. by apply not_true_iff_false.
Qed.

(** The check of the order of producers compares with an account that is
    never updated, so it accepts repetitions: one valid signature of one
    producer, repeated, is enough for any threshold. *)
Theorem repeated_signature_accepted producers rev hash sig :
  signature_ok producers rev hash sig -> check_signatures producers rev hash (replicate (weak_threshold producers) sig) = Ok tt.
Proof. intros H. apply check_signatures_ok. rewrite length_replicate. split; [|done]. by apply Forall_replicate. Qed.

(** ** The rows of signatures *)

Definition item_inv (producers : ProducerSet) (item : SnapshotStateItem) : Prop :=
  NoDup (map sig_account (item_signatures item)) /\
  Forall (fun sig => getClaim producers (sig_account sig) = Some (sig_claim sig)) (item_signatures item).
Definition row_inv (producers : ProducerSet) (row : SnapshotRow) : Prop :=
  Forall (item_inv producers) (option_list (row_state row) ++ row_other row).

Lemma signed_by_spec account item : signed_by account item = true <-> account ∈ map sig_account (item_signatures item).
Proof.
  unfold signed_by. rewrite existsb_exists, list_elem_of_In, in_map_iff. setoid_rewrite Z.eqb_eq. split; intros (x & ? & ?); eauto.
Qed.
Lemma add_signature_inv producers sig item :
  item_inv producers item -> signed_by (sig_account sig) item = false -> getClaim producers (sig_account sig) = Some (sig_claim sig) ->
  item_inv producers (add_signature sig item).
Proof.
  intros [Hn Hc] Hs Hg. split; cbn.
  - rewrite map_app. apply NoDup_app. split; [done|]. split; [|apply NoDup_singleton]. intros a Ha ->%list_elem_of_singleton.
    apply signed_by_spec in Ha. congruence.
  - apply Forall_app. split; [done|]. by apply Forall_singleton.
Qed.
Lemma find_item_app checksum items l i r : find_item checksum items = Some (l, i, r) -> items = l ++ i :: r /\ item_state i = checksum.
Proof.
  revert l. induction items as [|x items IH]; intros l; cbn; [done|]. case_bool_decide as Hx; [by intros [= <- <- <-]|].
  destruct (find_item checksum items) as [[[l' i'] r']|] eqn:E; [|done]. intros [= <- <- <-]. by destruct (IH _ eq_refl) as [-> ?].
Qed.
Lemma new_item_inv producers checksum : item_inv producers (new_item checksum).
Proof. split; constructor. Qed.

(** Each checksum of a block has at most one signature per producer, with the
    claim of that producer: the rows keep this when signatures arrive and when
    the node computes its own checksum. *)
Theorem signatures_once_per_checksum producers row :
  row_inv producers row ->
  (forall rev checksum sig row' inserted ok, on_state_signature producers rev row checksum sig = Ok (row', inserted, ok) -> row_inv producers row') /\
  (forall prove checksum me, row_inv producers (on_state_checksum prove producers row checksum me).1.1).
Proof.
  unfold row_inv. intros Hrow. apply Forall_app in Hrow as Hrow'. destruct Hrow' as [Hst Hot].
  assert (Hfind : forall checksum l i r, find_item checksum (row_other row) = Some (l, i, r) -> Forall (item_inv producers) l /\ item_inv producers i /\ Forall (item_inv producers) r).
  { intros checksum l i r E%find_item_app. destruct E as [E _]. rewrite E in Hot. apply Forall_app in Hot as [? [? ?]%Forall_cons]. done. }
  split.
  - intros rev checksum sig row' inserted ok E. unfold on_state_signature in E.
    destruct (getIndexClaim producers _ _) eqn:Ei; [|done]. assert (Hc : getClaim producers (sig_account sig) = Some (sig_claim sig)) by (apply getIndexClaim_Some; by rewrite Ei).
    ok_inv. clear Heqb Ei.
    assert (Hother : forall st, Forall (item_inv producers) (option_list st) ->
      match find_item checksum (row_other row) with
      | None => Forall (item_inv producers) (option_list st ++ row_other row ++ [add_signature sig (new_item checksum)])
      | Some (l, item, r) => signed_by (sig_account sig) item = false -> Forall (item_inv producers) (option_list st ++ l ++ add_signature sig item :: r)
      end).
    { intros st Hs. destruct (find_item checksum (row_other row)) as [[[l i] r]|] eqn:Ef.
      - destruct (Hfind _ _ _ _ Ef) as (? & ? & ?). intros Hb. apply Forall_app. split; [done|]. apply Forall_app. split; [done|]. apply Forall_cons. split; [by apply add_signature_inv|done].
      - rewrite !Forall_app. split_and!; try done. apply Forall_singleton. apply add_signature_inv; [apply new_item_inv|done|done]. }
    destruct (row_state row) as [item|] eqn:Es; [case_bool_decide|].
    + apply Forall_cons in Hst as [Hst _]. destruct (signed_by (sig_account sig) item) eqn:Eb; injection E as <- _ _; cbn; [by rewrite Es|].
      apply Forall_cons. split; [by apply add_signature_inv|done].
    + specialize (Hother (Some item) Hst). destruct (find_item checksum (row_other row)) as [[[l i] r]|].
      * destruct (signed_by (sig_account sig) i); injection E as <- _ _; cbn; [by rewrite Es|]. rewrite ?Es. by apply Hother.
      * injection E as <- _ _. cbn. by rewrite ?Es.
    + specialize (Hother None Hst). destruct (find_item checksum (row_other row)) as [[[l i] r]|].
      * destruct (signed_by (sig_account sig) i); injection E as <- _ _; cbn; [by rewrite Es|]. by apply Hother.
      * by injection E as <- _ _.
  - intros prove checksum me. unfold on_state_checksum.
    set (so := match row_state row with Some _ => _ | None => _ end).
    assert (Hso : item_inv producers so.1 /\ Forall (item_inv producers) so.2).
    { unfold so. destruct (row_state row) as [item|]; [case_bool_decide; [by apply Forall_cons in Hst as [? _]|split; [apply new_item_inv|done]]|].
      destruct (find_item checksum (row_other row)) as [[[l i] r]|] eqn:Ef; [|split; [apply new_item_inv|done]].
      destruct (Hfind _ _ _ _ Ef) as (? & ? & ?). split; [done|]. by apply Forall_app. }
    destruct so as [state other]. cbn in Hso. destruct Hso as [Hs Ho]. cbn. destruct (getClaim producers me) as [claim|] eqn:Eg; [|by apply Forall_cons].
    destruct (signed_by me state) eqn:Eb; apply Forall_cons; (split; [|done]); [done|]. by apply add_signature_inv.
Qed.

(** ** Many signatures of one producer *)

(** Signatures that arrive one after the other, until a consensus failure. *)
Fixpoint receive (producers : ProducerSet) (rev : VerifyTables) (row : SnapshotRow) (msgs : list (StateChecksum * StateSignature)) : result (SnapshotRow * bool) :=
  match msgs with
  | [] => Ok (row, true)
  | (checksum, sig) :: msgs =>
      '(row, inserted, ok) ← on_state_signature producers rev row checksum sig;
      if (ok : bool) then receive producers rev row msgs else Ok (row, false)
  end.

Lemma find_item_None checksum items : checksum ∉ map item_state items -> find_item checksum items = None.
Proof.
  induction items as [|i items IH]; cbn; [done|]. rewrite not_elem_of_cons. intros [Hne Hn]. rewrite bool_decide_false by congruence. by rewrite IH.
Qed.
Lemma sum_ones l n : Forall (fun item => length (item_signatures item) = 1%nat) l -> foldl Nat.add n (map (fun item => length (item_signatures item)) l) = (n + length l)%nat.
Proof. intros H. revert n. induction H as [|i l Hi _ IH]; intros n; cbn; [lia|]. rewrite IH, Hi. lia. Qed.

(** The signatures on other checksums are counted, not the producers that
    made them: a single producer that signs as many different wrong checksums as
    the weak threshold makes every node that has the right one stop with a
    consensus failure, although no other producer disagrees. *)
Theorem one_producer_stops_node producers rev item id account claim (raw : StateChecksum -> bytes) checksums :
  getClaim producers account = Some claim -> NoDup checksums -> item_state item ∉ checksums ->
  length checksums = weak_threshold producers -> checksums <> [] ->
  (forall c, c ∈ checksums -> verify rev c claim (raw c) = true) ->
  exists row', receive producers rev {| row_id := id; row_state := Some item; row_other := [] |}
    (map (fun c => (c, {| sig_account := account; sig_claim := claim; sig_rawData := raw c |})) checksums) = Ok (row', false) /\
    Forall (fun i => map sig_account (item_signatures i) = [account]) (row_other row').
Proof.
  intros Hc Hnd Hst Hlen Hne Hver.
  cut (forall todo seen, checksums = map item_state seen ++ todo -> todo <> [] ->
    Forall (fun i => map sig_account (item_signatures i) = [account]) seen ->
    exists row', receive producers rev {| row_id := id; row_state := Some item; row_other := seen |}
      (map (fun c => (c, {| sig_account := account; sig_claim := claim; sig_rawData := raw c |})) todo) = Ok (row', false) /\
      Forall (fun i => map sig_account (item_signatures i) = [account]) (row_other row')).
  { intros Hcut. apply (Hcut checksums []); done. }
  induction todo as [|c todo IH]; intros seen Ecs Htodo Hseen; [done|]. cbn [map receive].
  assert (Hin : c ∈ checksums) by (rewrite Ecs; apply elem_of_app; right; constructor).
  assert (Hnew : c ∉ map item_state seen). { intros Hs. rewrite Ecs in Hnd. apply NoDup_app in Hnd as (_ & Hd & _). apply (Hd c Hs). constructor. }
  unfold on_state_signature. cbn [sig_account sig_claim sig_rawData row_state row_other row_id].
  destruct (proj2 (getIndexClaim_Some producers account claim) Hc) as [n ->]. rewrite (Hver c Hin). cbn [check mbind result_bind].
  rewrite bool_decide_false by (intros <-; done). rewrite find_item_None by done.
  set (sig := {| sig_account := account; sig_claim := claim; sig_rawData := raw c |}). set (seen' := seen ++ [add_signature sig (new_item c)]).
  assert (Hseen' : Forall (fun i => map sig_account (item_signatures i) = [account]) seen').
  { apply Forall_app. split; [done|]. by apply Forall_singleton. }
  assert (Hsum : verify_state_checksum {| row_id := id; row_state := Some item; row_other := seen' |} producers = negb (weak_threshold producers <=? length seen')%nat).
  { unfold verify_state_checksum. cbn [row_state row_other]. rewrite sum_ones; [done|]. eapply Forall_impl; [exact Hseen'|]. intros i Hi. cbn in Hi.
    by rewrite <- (length_map sig_account), Hi. }
  cbn [mret result_ret mbind result_bind]. rewrite Hsum.
  assert (Ecs' : checksums = map item_state seen' ++ todo) by (unfold seen'; rewrite map_app, <- app_assoc; done).
  destruct (Nat.leb_spec (weak_threshold producers) (length seen')) as [Hle|Hgt]; cbn [negb].
  - by eexists.
  - apply (IH seen'); try done. intros ->. rewrite app_nil_r in Ecs'. apply (f_equal length) in Ecs'. rewrite length_map in Ecs'. lia.
Qed.
End signatures.

(** ** Witnesses *)

Definition example_claim (n : Z) : Claim := {| claim_service := 7; claim_rawData := [n] |}.
Definition example_producers : ProducerSet :=
  ProducerSet_of (BftConsensus (map (fun n => {| prod_name := n; prod_auth := example_claim n |}) [4; 1; 3; 2; 5; 6; 7])).
Definition example_checksum (n : Z) : StateChecksum := {| serviceRoot := [n]; nativeRoot := [] |}.
Definition example_sig (a : Z) : StateSignature := {| sig_account := a; sig_claim := example_claim a; sig_rawData := [] |}.
Definition example_verify (_ : VerifyTables) (_ : StateChecksum) (c : Claim) (_ : bytes) : bool := claim_service c =? 7.
Definition example_loader : @SnapshotLoader (gmap bytes bytes) :=
  {| l_revision := fun _ => ∅; serviceKeys := [{| KeyRanges.low := []; KeyRanges.high := [] |}]; nativeKeys := [{| KeyRanges.low := []; KeyRanges.high := [] |}] |}.

Lemma snapshot_needs_honest_signature_witness :
  exists sig, sig ∈ map example_sig [2; 3; 5] /\ (sig_account sig <? 4) = false.
Proof.
  destruct (proj2 (snapshot_needs_honest_signature example_verify example_loader example_producers no_tables (example_checksum 1) (example_checksum 1)
    (map example_sig [2; 3; 5])) ltac:(by vm_compute) ltac:(apply (bool_decide_unpack _); by vm_compute) (fun a => (a =? 3) || (a =? 2))) as (sig & Hin & Hb & _).
  - vm_compute. lia.
  - exists sig. split; [done|]. cbn in Hin. rewrite !elem_of_cons, elem_of_nil in Hin. destruct Hin as [-> | [-> | [-> | []]]]; done.
Defined.

Lemma repeated_signature_accepted_witness :
  check_signatures example_verify example_producers no_tables (example_checksum 1) (replicate 3 (example_sig 2)) = Ok tt.
Proof. exact (repeated_signature_accepted example_verify example_producers no_tables (example_checksum 1) (example_sig 2) ltac:(split; [by vm_compute|by split])). Defined.

Lemma signatures_once_per_checksum_witness :
  row_inv example_producers (on_state_checksum (fun _ _ => [9]) example_producers (new_row []) (example_checksum 1) 4).1.1.
Proof.
  apply (signatures_once_per_checksum example_verify example_producers (new_row [])). constructor.
Defined.

Lemma one_producer_stops_node_witness :
  exists row', receive example_verify example_producers no_tables {| row_id := []; row_state := Some (new_item (example_checksum 0)); row_other := [] |}
    (map (fun c => (c, {| sig_account := 2; sig_claim := example_claim 2; sig_rawData := [] |})) (map example_checksum [1; 2; 3])) = Ok (row', false).
Proof.
  destruct (one_producer_stops_node example_verify example_producers no_tables (new_item (example_checksum 0)) [] 2 (example_claim 2) (fun _ => [])
    (map example_checksum [1; 2; 3])) as (row' & E & _); [by vm_compute|apply (bool_decide_unpack _); by vm_compute|apply (bool_decide_unpack _); by vm_compute|
    by vm_compute|done|done|]. by exists row'.
Defined.
