(* ===== verification/ForkDb.v ===== *)
(** * psibase: the fork database

    [class ForkDb] of [ForkDb.hpp]: the tree of known blocks, the best chain, the
    irreversible block, and the switch to a better fork.  Maps are ordered lists
    ([Ordered]); pointers to states are block ids.  Executing a block
    ([BlockContext]) and verifying its signature are parameters, as is the
    callback of the consensus algorithm.  [consensus_failure] and failed
    assertions are [Abort]s: the node does not go on.  Builds with [NDEBUG] leave
    assertions out.  The one of [blacklist_subtree], after which the code can go
    on, is left out here too; [switch_fork_correct] shows that in the states that
    it is about a switch does not stop at any other. *)

From S2P Require Import Prelude Ordered Services AuthState HeaderState BlockContext LightHeader.

(** A block being produced: its header and whether it still needs the genesis
    action. *)
Record PendingBlock := { pb_header : Header; pb_needGenesisAction : bool }.

Record ForkDb := {
  commitIndex : BlockNum;
  currentTerm : Z;
  f_head : Checksum256;
  f_blocks : omap Checksum256 SignedHeader;
  f_states : omap Checksum256 BlockHeaderState;
  byOrderIndex : omap Order Checksum256;
  byBlocknumIndex : omap Z Checksum256;
  sharedHead : option Revision;
  f_blockContext : option PendingBlock
}.

Definition set_commitIndex x (f : ForkDb) : ForkDb := {| commitIndex := x; currentTerm := currentTerm f; f_head := f_head f; f_blocks := f_blocks f; f_states := f_states f; byOrderIndex := byOrderIndex f; byBlocknumIndex := byBlocknumIndex f; sharedHead := sharedHead f; f_blockContext := f_blockContext f |}.
Definition setTerm x (f : ForkDb) : ForkDb := {| commitIndex := commitIndex f; currentTerm := x; f_head := f_head f; f_blocks := f_blocks f; f_states := f_states f; byOrderIndex := byOrderIndex f; byBlocknumIndex := byBlocknumIndex f; sharedHead := sharedHead f; f_blockContext := f_blockContext f |}.
Definition set_head x (f : ForkDb) : ForkDb := {| commitIndex := commitIndex f; currentTerm := currentTerm f; f_head := x; f_blocks := f_blocks f; f_states := f_states f; byOrderIndex := byOrderIndex f; byBlocknumIndex := byBlocknumIndex f; sharedHead := sharedHead f; f_blockContext := f_blockContext f |}.
Definition set_blocks x (f : ForkDb) : ForkDb := {| commitIndex := commitIndex f; currentTerm := currentTerm f; f_head := f_head f; f_blocks := x; f_states := f_states f; byOrderIndex := byOrderIndex f; byBlocknumIndex := byBlocknumIndex f; sharedHead := sharedHead f; f_blockContext := f_blockContext f |}.
Definition set_states x (f : ForkDb) : ForkDb := {| commitIndex := commitIndex f; currentTerm := currentTerm f; f_head := f_head f; f_blocks := f_blocks f; f_states := x; byOrderIndex := byOrderIndex f; byBlocknumIndex := byBlocknumIndex f; sharedHead := sharedHead f; f_blockContext := f_blockContext f |}.
Definition set_byOrder x (f : ForkDb) : ForkDb := {| commitIndex := commitIndex f; currentTerm := currentTerm f; f_head := f_head f; f_blocks := f_blocks f; f_states := f_states f; byOrderIndex := x; byBlocknumIndex := byBlocknumIndex f; sharedHead := sharedHead f; f_blockContext := f_blockContext f |}.
Definition set_byBlocknum x (f : ForkDb) : ForkDb := {| commitIndex := commitIndex f; currentTerm := currentTerm f; f_head := f_head f; f_blocks := f_blocks f; f_states := f_states f; byOrderIndex := byOrderIndex f; byBlocknumIndex := x; sharedHead := sharedHead f; f_blockContext := f_blockContext f |}.
Definition set_sharedHead x (f : ForkDb) : ForkDb := {| commitIndex := commitIndex f; currentTerm := currentTerm f; f_head := f_head f; f_blocks := f_blocks f; f_states := f_states f; byOrderIndex := byOrderIndex f; byBlocknumIndex := byBlocknumIndex f; sharedHead := x; f_blockContext := f_blockContext f |}.

Definition set_revision (r : Revision) (s : BlockHeaderState) : BlockHeaderState :=
  {| hs_info := hs_info s; hs_revision := Some r; producers := producers s; nextProducers := nextProducers s;
     nextProducersBlockNum := nextProducersBlockNum s; hs_invalid := hs_invalid s |}.
Definition set_invalid (s : BlockHeaderState) : BlockHeaderState :=
  {| hs_info := hs_info s; hs_revision := hs_revision s; producers := producers s; nextProducers := nextProducers s;
     nextProducersBlockNum := nextProducersBlockNum s; hs_invalid := true |}.
Abbreviation hs_previous s := (h_previous (hs_header s)).

Definition get_state (f : ForkDb) (id : Checksum256) : option BlockHeaderState := find id (f_states f).
Definition assert {A} (o : option A) : result A := match o with Some a => Ok a | None => Abort "assertion failed" end.
Definition consensus_failure {A} : result A := Abort "consensus failure".

#[local] Set Default Proof Using "Type".
Section forkdb.
Context (sha256 : bytes -> Checksum256) (sha256_header : Header -> Checksum256).
(** [VerifyProver::prove] with the services of a revision, and the execution of
    a block on a revision, up to [writeRevision]. *)
Context (verify_block : VerifyTables -> Info -> Claim -> bytes -> result unit).
Context (exec_block : Revision -> SignedHeader -> Claim -> VerifyTables -> result (Revision * Checksum256)).
Context (on_accept_block : Checksum256 -> ForkDb -> ForkDb).

Abbreviation info_of h := (BlockInfo_of sha256_header h).

(** ** Receiving blocks *)

Definition validateBlockSignature (prev : BlockHeaderState) (info : Info) (sig : bytes) : result Claim :=
  auth ← getNextAuthRevision prev;
  match getNextProducerClaim prev (h_producer (i_header info)) with
  | None => Abort "Invalid producer for block"
  | Some claim => verify_block auth info claim sig ;; mret claim
  end.

(** [insert]: the new database, and the state of the block with whether it is
    new; an exception leaves the database as the first component says. *)
Definition insert (f : ForkDb) (b : SignedHeader) : ForkDb * result (option Checksum256 * bool) :=
  let info := info_of (sh_header b) in
  let id := i_blockId info in
  if h_blockNum (i_header info) <=? commitIndex f then (f, Ok (None, false))
  else match find id (f_blocks f) with
  | Some _ => (f, Ok (if bool_decide (is_Some (get_state f id)) then Some id else None, false))
  | None =>
      match get_state f (h_previous (i_header info)) with
      | None => (f, Ok (None, false))
      | Some prev =>
          match validateBlockSignature prev info (sh_signature b) with
          | Abort e => (f, Abort e)
          | Ok _ =>
              let f := set_blocks (emplace id b (f_blocks f)) f in
              match next_state sha256 prev info None with
              | Abort e => (f, Abort e)
              | Ok state =>
                  if bool_decide (is_Some (get_state f id)) then (f, Abort "assertion failed")
                  else if hs_invalid prev then (set_states (emplace id (set_invalid state) (f_states f)) f, Ok (Some id, true))
                  else
                    let f := set_states (emplace id state (f_states f)) f in
                    let f := match find (order prev) (byOrderIndex f) with
                             | Some _ => set_byOrder (emplace (order state) id (byOrderIndex f)) f
                             | None => f
                             end in
                    (f, Ok (Some id, true))
              end
          end
      end
  end.

Definition in_best_chain (f : ForkDb) (id : Checksum256) (num : BlockNum) : bool :=
  match find num (byBlocknumIndex f) with Some id' => bool_decide (id' = id) | None => false end.

(** [ForkDb::erase]. *)
Definition erase_block (f : ForkDb) (state : BlockHeaderState) : result ForkDb :=
  if in_best_chain f (hs_blockId state) (hs_blockNum state) then Abort "assertion failed"
  else
    let f := set_byOrder (erase (order state) (byOrderIndex f)) f in
    let f := set_blocks (erase (hs_blockId state) (f_blocks f)) f in
    Ok (set_states (erase (hs_blockId state) (f_states f)) f).

(** ** Looking up blocks *)

Definition head_state (f : ForkDb) : result BlockHeaderState := assert (get_state f (f_head f)).
(** The revision of the head. *)
Definition head_log (f : ForkDb) : gmap Z Header :=
  match get_state f (f_head f) with
  | Some s => match hs_revision s with Some r => rev_blockLog r | None => ∅ end
  | None => ∅
  end.

(** [get], as far as the header: a known block, or one of the log of the head. *)
Definition get (f : ForkDb) (id : Checksum256) : option Header :=
  match find id (f_blocks f) with
  | Some b => Some (sh_header b)
  | None =>
      match head_log f !! getBlockNum id with
      | Some h => if bool_decide (i_blockId (info_of h) = id) then Some h else None
      | None => None
      end
  end.
Definition get_block_id (f : ForkDb) (num : BlockNum) : Checksum256 :=
  match find num (byBlocknumIndex f) with
  | Some id => id
  | None =>
      match head_log f !! (num + 1) with
      | Some next => h_previous next
      | None => match head_log f !! num with Some h => i_blockId (info_of h) | None => zero_hash end
      end
  end.
(** [get_block_by_num], as far as the header. *)
Definition get_block_by_num (f : ForkDb) (num : BlockNum) : option Header :=
  match find num (byBlocknumIndex f) with Some id => get f id | None => head_log f !! num end.
Definition get_prev_id (f : ForkDb) (id : Checksum256) : result Checksum256 := h_previous <$> assert (get f id).

Fixpoint get_ancestor (f : ForkDb) (id : Checksum256) (n : nat) : result Checksum256 :=
  match n with O => Ok id | S n => prev ← get_prev_id f id; get_ancestor f prev n end.

(** The loop of [get_common_ancestor], over the entries below, last first. *)
Fixpoint common_ancestor_loop (f : ForkDb) (entries : list (Z * Checksum256)) (id : Checksum256) : result (Z * Checksum256) :=
  match entries with
  | [] => Abort "no common ancestor"
  | (num, id') :: entries =>
      if bool_decide (id' = id) then Ok (num, id')
      else match entries with
           | [] => Abort "no common ancestor"
           | _ => prev ← get_prev_id f id; common_ancestor_loop f entries prev
           end
  end.
Definition entries_to (num : Z) (m : omap Z Checksum256) : list (Z * Checksum256) := rev (List.filter (fun e => e.1 <=? num) m).
Definition get_common_ancestor (f : ForkDb) (id : Checksum256) (num : BlockNum) : result (Z * Checksum256) :=
  match find num (byBlocknumIndex f) with
  | Some _ => common_ancestor_loop f (entries_to num (byBlocknumIndex f)) id
  | None =>
      match last (byBlocknumIndex f) with
      | None => Abort "assertion failed"
      | Some (top, _) =>
          if top <? num then
            id ← get_ancestor f id (Z.to_nat (num - top));
            common_ancestor_loop f (entries_to top (byBlocknumIndex f)) id
          else
            let existing := get_block_id f num in
            if bool_decide (existing = id) then Ok (num, id)
            else if negb (bool_decide (existing = zero_hash)) then Abort "irreversibly forked" else Abort "block is not known"
      end
  end.

(** The loop of [is_ancestor]; [n] is the number of blocks from the descendant to
    the height of the ancestor. *)
Fixpoint is_ancestor_loop (f : ForkDb) (ancestor tmp : Checksum256) (n : nat) : bool :=
  match n with
  | O => false
  | S n =>
      if bool_decide (tmp = ancestor) then true
      else match get f tmp with Some h => is_ancestor_loop f ancestor (h_previous h) n | None => false end
  end.
Definition is_ancestor (f : ForkDb) (ancestor : Checksum256) (ancestorNum : BlockNum) (descendant : Checksum256) (num : BlockNum) : bool :=
  is_ancestor_loop f ancestor descendant (Z.to_nat (num - ancestorNum + 1)).

(** ** Viable blocks *)

(** The loop that prunes everything but the descendants of [root]. *)
Fixpoint prune (states : omap Checksum256 BlockHeaderState) (root : Checksum256) (ids : list Checksum256) (index : omap Order Checksum256) : omap Order Checksum256 :=
  match index with
  | [] => []
  | (o, id) :: index =>
      if bool_decide (id = root) ||
         match find id states with Some s => bool_decide (hs_previous s ∈ ids) | None => false end
      then (o, id) :: prune states root (id :: ids) index
      else prune states root ids index
  end.
(** All states that are not known to be invalid. *)
Definition refill (states : omap Checksum256 BlockHeaderState) : omap Order Checksum256 :=
  foldl (fun index '(id, s) => if hs_invalid s then index else emplace (order s) id index) [] states.

Definition set_subtree (f : ForkDb) (root : BlockHeaderState) : result ForkDb :=
  check (h_term (hs_header root) <=? currentTerm f) "assertion failed" ;;
  if hs_invalid root then consensus_failure
  else
    let index := match find (order root) (byOrderIndex f) with Some _ => byOrderIndex f | None => refill (f_states f) end in
    let index := prune (f_states f) (hs_blockId root) [] index in
    check (negb (bool_decide (index = []))) "assertion failed" ;;
    Ok (set_byOrder index f).

(** The loop of [blacklist_subtree] over the index from the root on: the states,
    and the entries that stay. *)
Fixpoint blacklist_loop (states : omap Checksum256 BlockHeaderState) (index : omap Order Checksum256)
    : omap Checksum256 BlockHeaderState * omap Order Checksum256 :=
  match index with
  | [] => (states, [])
  | (o, id) :: index =>
      match find id states with
      | None => let '(states, rest) := blacklist_loop states index in (states, (o, id) :: rest)
      | Some current =>
          let bad := hs_invalid current || match find (hs_previous current) states with Some prev => hs_invalid prev | None => false end in
          if bad then blacklist_loop (assign id (set_invalid current) states) index
          else let '(states, rest) := blacklist_loop states index in (states, (o, id) :: rest)
      end
  end.
Definition below_order (o : Order) (e : Order * Checksum256) : bool := match cmp e.1 o with Lt => true | _ => false end.
Definition blacklist_subtree (f : ForkDb) (root : BlockHeaderState) : ForkDb :=
  let states := assign (hs_blockId root) (set_invalid root) (f_states f) in
  match find (order root) (byOrderIndex f) with
  | None => set_states states f
  | Some _ =>
      let before := List.filter (below_order (order root)) (byOrderIndex f) in
      let from := List.filter (fun e => negb (below_order (order root) e)) (byOrderIndex f) in
      let '(states, rest) := blacklist_loop states from in
      set_byOrder (before ++ rest) (set_states states f)
  end.

(** ** Switching forks *)

(** [execute_block]: whether the block is good; the state gets its revision. *)
Definition execute_block (f : ForkDb) (prev state : BlockHeaderState) : result (bool * ForkDb) :=
  match hs_revision state with
  | Some _ => Ok (true, f)
  | None =>
      prevRevision ← assert (hs_revision prev);
      b ← assert (find (hs_blockId state) (f_blocks f));
      match (claim ← validateBlockSignature prev (hs_info state) (sh_signature b);
             auth ← getProdsAuthRevision state;
             '(revision, id) ← exec_block prevRevision b claim auth;
             check (bool_decide (id = hs_blockId state)) "blockId does not match" ;;
             mret revision) with
      | Abort _ => Ok (false, f)
      | Ok revision =>
          let f := set_states (assign (hs_blockId state) (set_revision revision state) (f_states f)) f in
          Ok (true, on_accept_block (hs_blockId state) f)
      end
  end.

(** [execute_fork] after [prev], over the entries of the index that follow. *)
Fixpoint execute_fork (f : ForkDb) (prev : Checksum256) (entries : list (Z * Checksum256)) : result (bool * ForkDb) :=
  match entries with
  | [] => Ok (true, f)
  | (num, id) :: entries =>
      prevState ← assert (get_state f prev);
      nextState ← assert (get_state f id);
      '(good, f) ← execute_block f prevState nextState;
      if (good : bool) then
        next ← assert (get_state f id);
        execute_fork (set_sharedHead (hs_revision next) f) id entries
      else
        let f := set_byBlocknum (List.filter (fun e => e.1 <? num) (byBlocknumIndex f)) f in
        Ok (false, set_head prev (blacklist_subtree f nextState))
  end.

(** The first loop of [trySetHead]: entries above the old head, from [id] down. *)
Fixpoint push_entries (f : ForkDb) (num : BlockNum) (n : nat) (id : Checksum256) (above : list (Z * Checksum256)) : result (Checksum256 * list (Z * Checksum256)) :=
  match n with
  | O => Ok (id, above)
  | S n =>
      prev ← get_prev_id f id;
      push_entries f (num - 1) n prev ((num, id) :: above)
  end.

(** The second loop: replace the entries that differ, from the last one down,
    until the chains meet.  The result has the entries up to the common block
    (last first), and the replaced ones. *)
Fixpoint replace_entries (f : ForkDb) (entries : list (Z * Checksum256)) (id : Checksum256) (replaced : list (Z * Checksum256))
    : result (list (Z * Checksum256) * list (Z * Checksum256)) :=
  match entries with
  | [] => Abort "assertion failed"
  | (num, id') :: entries' =>
      if bool_decide (id' = id) then Ok (entries, replaced)
      else if num <=? commitIndex f then consensus_failure
      else
        prev ← get_prev_id f id;
        replace_entries f entries' prev ((num, id) :: replaced)
  end.

Definition trySetHead (f : ForkDb) (new_head : BlockHeaderState) : result (bool * ForkDb) :=
  if bool_decide (f_head f = hs_blockId new_head) then Ok (true, f)
  else
    head ← head_state f;
    let newNum := hs_blockNum new_head in
    let headNum := hs_blockNum head in
    check (negb ((newNum <? headNum) && (newNum <? commitIndex f))) "consensus failure" ;;
    let index := if newNum <? headNum
                 then match find (newNum + 1) (byBlocknumIndex f) with
                      | Some _ => List.filter (fun e => e.1 <? newNum + 1) (byBlocknumIndex f)
                      | None => byBlocknumIndex f
                      end
                 else byBlocknumIndex f in
    '(id, above) ← push_entries f newNum (Z.to_nat (newNum - headNum)) (hs_blockId new_head) [];
    '(kept, replaced) ← replace_entries f (entries_to (Z.min newNum headNum) index) id [];
    match kept with
    | [] => Abort "assertion failed"
    | (_, common) :: _ =>
        let f := set_byBlocknum (rev kept ++ replaced ++ above) f in
        prev ← assert (get_state f common);
        check (bool_decide (is_Some (hs_revision prev))) "assertion failed" ;;
        '(good, f) ← execute_fork f common (replaced ++ above);
        if (good : bool) then
          check (match get_state f (hs_blockId new_head) with Some s => bool_decide (is_Some (hs_revision s)) | None => false end) "assertion failed" ;;
          Ok (true, set_head (hs_blockId new_head) f)
        else Ok (false, f)
    end.

(** The best viable block: the last one whose term is not after the current. *)
Definition best_block (f : ForkDb) : option (Order * Checksum256) :=
  last (List.filter (below_order (u32 (currentTerm f + 1), 0, zero_hash)) (byOrderIndex f)).

(** Whether the block that is being produced is kept: it is on a viable head, and
    better than the best block. *)
Definition keep_pending (f : ForkDb) (original_head new_head : BlockHeaderState) : bool :=
  match f_blockContext f with
  | Some pending =>
      negb (pb_needGenesisAction pending) && bool_decide (is_Some (find (order original_head) (byOrderIndex f))) &&
      match cmp (order new_head) (h_term (pb_header pending), h_blockNum (pb_header pending), zero_hash) with Lt => true | _ => false end
  | None => false
  end.

(** [async_switch_fork] without the final callback; [None] without fuel. *)
Fixpoint switch_loop (fuel : nat) (f : ForkDb) (original_head : BlockHeaderState) : option (result ForkDb) :=
  match best_block f with
  | None => Some consensus_failure
  | Some (_, id) =>
      match get_state f id with
      | None => Some (Abort "assertion failed")
      | Some new_head =>
          if keep_pending f original_head new_head then
            Some (if bool_decide (f_head f = hs_blockId original_head) then Ok f
                  else '(good, f) ← trySetHead f original_head; check good "assertion failed" ;; Ok f)
          else
            match trySetHead f new_head with
            | Abort e => Some (Abort e)
            | Ok (true, f) => Some (Ok f)
            | Ok (false, f) => match fuel with O => None | S fuel => switch_loop fuel f original_head end
            end
      end
  end.
Lemma switch_loop_eq fuel f original_head : switch_loop fuel f original_head =
  match best_block f with
  | None => Some consensus_failure
  | Some (_, id) =>
      match get_state f id with
      | None => Some (Abort "assertion failed")
      | Some new_head =>
          if keep_pending f original_head new_head then
            Some (if bool_decide (f_head f = hs_blockId original_head) then Ok f
                  else '(good, f) ← trySetHead f original_head; check good "assertion failed" ;; Ok f)
          else
            match trySetHead f new_head with
            | Abort e => Some (Abort e)
            | Ok (true, f) => Some (Ok f)
            | Ok (false, f) => match fuel with O => None | S fuel => switch_loop fuel f original_head end
            end
      end
  end.
Proof. by destruct fuel. Qed.
Definition switch_fork (f : ForkDb) : option (result ForkDb) :=
  match get_state f (f_head f) with
  | Some head => switch_loop (length (byOrderIndex f)) f head
  | None => Some (Abort "assertion failed")
  end.

(** ** Irreversibility *)

(** [commit], and the ids for which [onCommitFn] is called. *)
Definition commit (f : ForkDb) (num : BlockNum) : result (bool * ForkDb) :=
  head ← head_state f;
  let newCommitIndex := Z.max (Z.min num (hs_blockNum head)) (commitIndex f) in
  let result := negb (newCommitIndex =? commitIndex f) in
  f ← match byOrderIndex f with
      | [] => Abort "assertion failed"
      | ((_, first, _), _) :: _ =>
          if first <? newCommitIndex then
            root ← assert (get_state f (get_block_id f newCommitIndex));
            set_subtree f root
          else Ok f
      end;
  Ok (result, set_commitIndex newCommitIndex f).
Definition committed_ids (f : ForkDb) (num : BlockNum) : result (list Checksum256) :=
  head ← head_state f;
  let newCommitIndex := Z.max (Z.min num (hs_blockNum head)) (commitIndex f) in
  mret (map (fun i => get_block_id f (commitIndex f + Z.of_nat i)) (seq 0 (Z.to_nat (newCommitIndex - commitIndex f)))).

(** One step of the loop of [gc] over the blocks. *)
Definition gc_block (f : ForkDb) (id : Checksum256) (b : SignedHeader) : ForkDb :=
  let num := getBlockNum id in
  let remove := (num <? commitIndex f) || ((num =? commitIndex f) && negb (in_best_chain f id num)) ||
                ((commitIndex f <? num) && negb (bool_decide (is_Some (get_state f (h_previous (sh_header b)))))) in
  if remove then
    let f := match get_state f id with
             | Some s => set_states (erase id (f_states f)) (set_byOrder (erase (order s) (byOrderIndex f)) f)
             | None => f
             end in
    set_blocks (erase id (f_blocks f)) f
  else f.
Definition gc (f : ForkDb) : result ForkDb :=
  let f := foldl (fun f '(id, b) => gc_block f id b) f (f_blocks f) in
  check (negb (bool_decide (byOrderIndex f = []))) "assertion failed" ;;
  Ok (match find (commitIndex f) (byBlocknumIndex f) with
      | Some _ => set_byBlocknum (List.filter (fun e => commitIndex f <=? e.1) (byBlocknumIndex f)) f
      | None => set_byBlocknum [] f
      end).

(** [getProducers]: the producers of the block after the head. *)
Definition getProducers (f : ForkDb) : result (ProducerSet * option ProducerSet) := advance_producers <$> head_state f.

(** [get_next_light_header_num], from the consensus of the snapshot and the rows of
    consensus changes. *)
Definition get_next_light_header_num (snapshot : JointConsensus) (changes : omap Z ConsensusChangeRow) (prev : BlockNum) : option BlockNum :=
  let before := List.filter (fun e => e.1 <? prev + 1) changes in
  let after := List.filter (fun e => negb (e.1 <? prev + 1)) changes in
  let from_after := match after with (_, row) :: _ => Some (change_start row) | [] => None end in
  if match next_consensus snapshot with Some next => pending_blockNum next <=? prev | None => false end then Some (prev + 1)
  else match last before with
  | Some (_, row) =>
      if prev <? change_start row then Some (change_start row)
      else if prev <? change_commit row then Some (change_commit row)
      else if prev <? change_end row then Some (change_end row)
      else from_after
  | None => from_after
  end.

(** ** Termination and fork choice *)

(** States are stored under their ids. *)
Definition states_ok (f : ForkDb) : Prop := map_ok (f_states f) /\ forall id s, get_state f id = Some s -> hs_blockId s = id.

(** A parent comes before its children in the order of blocks. *)
Definition ordered (f : ForkDb) : Prop := forall id s p, get_state f id = Some s -> get_state f (hs_previous s) = Some p -> below (order p) (order s).
Definition executed (f : ForkDb) (x : Checksum256) : Prop := exists s, get_state f x = Some s /\ is_Some (hs_revision s).
Definition entry_of (index : omap Order Checksum256) (id : Checksum256) : Prop := exists o, (o, id) ∈ index.

(** Terms do not decrease along a chain, a block is executed after its parent, and
    a viable block is on top of a viable or an executed one. *)
Record connected (f : ForkDb) : Prop := {
  connected_ordered : ordered f;
  connected_executed id s : get_state f id = Some s -> is_Some (hs_revision s) -> is_Some (get_state f (hs_previous s)) -> executed f (hs_previous s);
  connected_viable id s : entry_of (byOrderIndex f) id -> get_state f id = Some s ->
    entry_of (byOrderIndex f) (hs_previous s) \/ executed f (hs_previous s) \/ get_state f (hs_previous s) = None
}.

(** What the callback of the consensus algorithm may do to the fork database while
    a fork is executed: advance the irreversible block, up to the accepted block,
    and narrow the subtree to the descendants of an executed block (see
    [set_subtree_connected]). *)
Definition callback_ok : Prop := forall id f s, get_state f id = Some s -> let f' := on_accept_block id f in
  f_blocks f' = f_blocks f /\ f_states f' = f_states f /\ f_head f' = f_head f /\ byBlocknumIndex f' = byBlocknumIndex f /\
  currentTerm f' = currentTerm f /\ f_blockContext f' = f_blockContext f /\ byOrderIndex f' `sublist_of` byOrderIndex f /\
  (connected f -> connected f') /\ commitIndex f <= commitIndex f' <= Z.max (commitIndex f) (hs_blockNum s).

Lemma assign_elem {K V} `{CompareLaws K} (k : K) (v : V) m x y : (x, y) ∈ assign k v m -> (x = k /\ y = v /\ exists y', (k, y') ∈ m) \/ (x <> k /\ (x, y) ∈ m).
Proof.
  unfold assign. rewrite list_elem_of_In, in_map_iff. intros ([k' v'] & E & Hin%list_elem_of_In). destruct (cmp k k') eqn:Ec.
  - apply cmp_eq in Ec as <-. injection E as <- <-. left. eauto.
  - injection E as <- <-. right. split; [|done]. intros ->. by rewrite cmp_refl in Ec.
  - injection E as <- <-. right. split; [|done]. intros ->. by rewrite cmp_refl in Ec.
Qed.

(** What marking a block as invalid leaves. *)
Definition core (s : BlockHeaderState) : Info * option Revision := (hs_info s, hs_revision s).

Lemma core_set_invalid l id s : find id l = Some s -> forall x, core <$> find x (assign id (set_invalid s) l) = core <$> find x l.
Proof. intros E x. rewrite find_assign. destruct (cmp x id) eqn:Ec; [|done..]. apply cmp_eq in Ec as ->. by rewrite E. Qed.

Lemma blacklist_loop_core index : forall l,
  map fst (blacklist_loop l index).1 = map fst l /\
  (blacklist_loop l index).2 `sublist_of` index /\
  (forall id, core <$> find id (blacklist_loop l index).1 = core <$> find id l).
Proof.
  induction index as [|[o id] index IH]; intros l; cbn [blacklist_loop]; [split_and!; cbn; eauto|].
  destruct (find id l) as [c|] eqn:Ef.
  - destruct (hs_invalid c || _).
    + destruct (IH (assign id (set_invalid c) l)) as (H2 & H3 & H4).
      rewrite assign_keys in H2. split_and!; [done|by constructor|]. intros id'. by rewrite H4, core_set_invalid.
    + destruct (IH l) as (H2 & H3 & H4). destruct (blacklist_loop l index). split_and!; cbn in *; try done. by constructor.
  - destruct (IH l) as (H2 & H3 & H4). destruct (blacklist_loop l index). split_and!; cbn in *; try done. by constructor.
Qed.

(** *** Blocks that a failed attempt takes out of the index *)

Definition invalid_in (l : omap Checksum256 BlockHeaderState) (id : Checksum256) : Prop := exists s, find id l = Some s /\ hs_invalid s = true.

Lemma blacklist_loop_untouched index : forall l id, id ∉ map snd index -> find id (blacklist_loop l index).1 = find id l.
Proof.
  induction index as [|[o x] index IH]; intros l id; cbn [blacklist_loop map snd]; [done|]. intros [Hx Hi]%not_elem_of_cons.
  destruct (find x l) as [c|] eqn:Ef; [|specialize (IH l id Hi); by destruct (blacklist_loop l index)].
  destruct (_ || _); [rewrite IH by done; by rewrite find_assign_ne|]. specialize (IH l id Hi). by destruct (blacklist_loop l index).
Qed.
Lemma blacklist_loop_invalid index : forall l id, invalid_in l id -> invalid_in (blacklist_loop l index).1 id.
Proof.
  induction index as [|[o x] index IH]; intros l id Hid; cbn [blacklist_loop]; [done|].
  destruct (find x l) as [c|] eqn:Ef; [|specialize (IH l id Hid); by destruct (blacklist_loop l index)].
  destruct (_ || _); [|specialize (IH l id Hid); by destruct (blacklist_loop l index)]. apply IH.
  destruct (decide (id = x)) as [->|Hne]; [exists (set_invalid c); by rewrite (find_assign_eq _ _ c)|].
  destruct Hid as (s & Es & Hs). exists s. by rewrite find_assign_ne.
Qed.

Section blacklist.
(** The parents of blocks, which the loop does not change. *)
Context (parent_of : Checksum256 -> Checksum256).
Definition described (l : omap Checksum256 BlockHeaderState) (index : omap Order Checksum256) : Prop :=
  forall o id, (o, id) ∈ index -> (forall o', (o', id) ∈ index -> o' = o) /\ (forall o', (o', parent_of id) ∈ index -> below o' o) /\
    exists s, find id l = Some s /\ hs_previous s = parent_of id.

Lemma described_invalid l index x c : find x l = Some c -> described l index -> described (assign x (set_invalid c) l) index.
Proof.
  intros Ex Hd o id Hin. destruct (Hd o id Hin) as (H1 & H2 & s & Es & Hs). split_and!; [done..|].
  destruct (decide (id = x)) as [->|Hne]; [exists (set_invalid c); rewrite Ex in Es; injection Es as <-; split; [by rewrite (find_assign_eq _ _ c)|done]|].
  exists s. by rewrite find_assign_ne.
Qed.

(** An entry is removed exactly when its block is invalid afterwards, and it is
    invalid when its parent is. *)
Lemma blacklist_loop_spec index : forall l, map_ok index -> described l index ->
  forall o id, (o, id) ∈ index -> let '(l', rest) := blacklist_loop l index in
  (invalid_in l' (parent_of id) -> invalid_in l' id) /\ ((o, id) ∈ rest <-> ~ invalid_in l' id).
Proof.
  induction index as [|[o0 x] index IH]; intros l Hok Hd o id Hin; cbn [blacklist_loop]; [by apply elem_of_nil in Hin|].
  cbn [map fst] in Hok. apply sorted_cons in Hok as [Hok Hlt]. rewrite Forall_forall in Hlt.
  assert (Hd' : described l index).
  { intros o1 id1 H1. destruct (Hd o1 id1) as (Hu & Hb & Hs); [by constructor|]. split_and!; [..|done]; intros o' H'; [apply Hu|apply Hb]; by constructor. }
  destruct (Hd o0 x) as (Huniq & Hbel & c & Ec & Hpc); [by constructor|]. rewrite Ec, Hpc.
  assert (Hafter : forall o1 y, (o1, y) ∈ index -> below o0 o1).
  { intros o1 y Hy. apply Hlt, list_elem_of_In, in_map_iff. exists (o1, y). split; [done|by apply list_elem_of_In]. }
  assert (Hx : x ∉ map snd index).
  { intros ([o1 z] & Ez & Hz%list_elem_of_In)%list_elem_of_In%in_map_iff. cbn in Ez. subst z. apply (below_irrefl o0). rewrite <- (Huniq o1) at 2 by by constructor. by eapply Hafter. }
  assert (Hpx : parent_of x ∉ map snd index).
  { intros ([o1 z] & Ez & Hz%list_elem_of_In)%list_elem_of_In%in_map_iff. cbn in Ez. subst z. apply (below_irrefl o0). trans o1; [by eapply Hafter|apply Hbel; by constructor]. }
  destruct (hs_invalid c || _) eqn:Ebad.
  - assert (Hxi : invalid_in (blacklist_loop (assign x (set_invalid c) l) index).1 x).
    { apply blacklist_loop_invalid. exists (set_invalid c). by rewrite (find_assign_eq _ _ c). }
    apply elem_of_cons in Hin as [[= -> ->]|Hin]; [|by apply IH, Hin; [|apply described_invalid]].
    pose proof (proj1 (proj2 (blacklist_loop_core index (assign x (set_invalid c) l)))) as Hsub.
    destruct (blacklist_loop _ index) as [l' rest]. cbn in Hxi, Hsub. split; [done|]. split; [|done]. intros Hr. exfalso. apply Hx.
    apply list_elem_of_In, in_map_iff. exists (o0, x). split; [done|]. apply list_elem_of_In. by eapply elem_of_sublist.
  - apply orb_false_iff in Ebad as [Hc Hp]. pose proof (blacklist_loop_untouched index l x Hx) as Ux. pose proof (blacklist_loop_untouched index l _ Hpx) as Up.
    pose proof (IH l Hok Hd') as IH'. pose proof (proj1 (proj2 (blacklist_loop_core index l))) as Hsub.
    destruct (blacklist_loop l index) as [l' rest]. cbn in Ux, Up, Hsub. apply elem_of_cons in Hin as [[= -> ->]|Hin].
    + unfold invalid_in. rewrite Up, Ux, Ec. split; [intros (p & Ep & Hpi); by rewrite Ep, Hpi in Hp|]. rewrite elem_of_cons. split; [|by left].
      intros _ (s & [= <-] & Hs). congruence.
    + destruct (IH' o id Hin) as [H1 H2]. split; [done|]. rewrite elem_of_cons, H2. split; [|by right]. intros [[= -> ->]|?]; [|done].
      exfalso. apply Hx. apply list_elem_of_In, in_map_iff. exists (o0, x). split; [done|by apply list_elem_of_In].
Qed.
End blacklist.

Lemma filter_partition_sublist o (index l : omap Order Checksum256) :
  map_ok index -> l `sublist_of` List.filter (fun e => negb (below_order o e)) index ->
  List.filter (below_order o) index ++ l `sublist_of` index.
Proof.
  intros Hs Hl. trans (List.filter (below_order o) index ++ List.filter (fun e => negb (below_order o e)) index); [by apply sublist_app|].
  clear l Hl. induction index as [|[k v] index IH]; [done|]. cbn in *. apply sorted_cons in Hs as [Hs Hl].
  destruct (below_order o (k, v)) eqn:E; cbn; [by constructor; apply IH|].
  (* the rest is not below either *)
  assert (Hno : List.filter (below_order o) index = []).
  { clear IH. induction index as [|[k' v'] index IH']; [done|]. cbn in *. apply Forall_cons in Hl as [Hk Hl]. apply sorted_cons in Hs as [Hs _].
    unfold below_order in E |- *. cbn in *. destruct (cmp k' o) eqn:E'; [by apply IH'| |by apply IH'].
    assert (Hlt : below k o) by by trans k'. unfold below in Hlt. by rewrite Hlt in E. }
  rewrite Hno. cbn. constructor. clear. induction index as [|e index IH]; cbn; [done|]. destruct (negb _); by constructor.
Qed.

Lemma blacklist_subtree_core f root :
  map_ok (f_states f) -> map_ok (byOrderIndex f) -> get_state f (hs_blockId root) = Some root -> let f' := blacklist_subtree f root in
  map_ok (f_states f') /\ (forall id, core <$> get_state f' id = core <$> get_state f id) /\
  byOrderIndex f' `sublist_of` byOrderIndex f /\
  f_blocks f' = f_blocks f /\ f_head f' = f_head f /\ byBlocknumIndex f' = byBlocknumIndex f /\ currentTerm f' = currentTerm f /\
  f_blockContext f' = f_blockContext f /\ commitIndex f' = commitIndex f.
Proof.
  intros Hs Ho Hr. unfold blacklist_subtree, get_state.
  pose proof (core_set_invalid _ _ _ Hr) as Hc.
  set (l := assign (hs_blockId root) (set_invalid root) (f_states f)) in *.
  assert (Hl : map_ok l) by (unfold l; by rewrite assign_keys).
  destruct (find (order root) (byOrderIndex f)); [|cbn; by split_and!].
  destruct (blacklist_loop l _) as [l' rest] eqn:El. cbn.
  pose proof (blacklist_loop_core (List.filter (fun e => negb (below_order (order root) e)) (byOrderIndex f)) l) as Hb. rewrite El in Hb. cbn in Hb.
  destruct Hb as (H2 & H3 & H4). split_and!; try done; [by rewrite H2|intros id; by rewrite H4|by apply filter_partition_sublist].
Qed.

(** What the execution of a fork leaves as it was. *)
Record same_tree (f f' : ForkDb) : Prop := {
  same_ok : map_ok (f_states f');
  same_info id : hs_info <$> get_state f' id = hs_info <$> get_state f id;
  same_blocks : f_blocks f' = f_blocks f;
  same_term : currentTerm f' = currentTerm f;
  same_pending : f_blockContext f' = f_blockContext f;
  same_order : byOrderIndex f' `sublist_of` byOrderIndex f;
  same_commit : commitIndex f <= commitIndex f'
}.

Lemma same_tree_refl f : map_ok (f_states f) -> same_tree f f.
Proof. by constructor. Qed.
Lemma same_tree_trans f1 f2 f3 : same_tree f1 f2 -> same_tree f2 f3 -> same_tree f1 f3.
Proof.
  intros [] []. constructor; try done; try congruence; try lia. by trans (byOrderIndex f2).
Qed.
Lemma same_tree_state f f' id s : same_tree f f' -> get_state f id = Some s -> exists s', get_state f' id = Some s' /\ hs_info s' = hs_info s.
Proof.
  intros Hs E. pose proof (same_info f f' Hs id) as Hi. rewrite E in Hi. destruct (get_state f' id) as [s'|]; cbn in Hi; [|done].
  exists s'. split; [done|congruence].
Qed.
Lemma same_tree_states_ok f f' : same_tree f f' -> states_ok f -> states_ok f'.
Proof.
  intros Hs [_ Hk]. split; [apply (same_ok f f' Hs)|]. intros id s E. pose proof (same_info f f' Hs id) as Hi. rewrite E in Hi.
  destruct (get_state f id) as [s'|] eqn:E'; cbn in Hi; [|done]. injection Hi as Hi. unfold hs_blockId. rewrite Hi. by apply Hk.
Qed.

Lemma execute_block_spec f prev state good f' :
  callback_ok -> states_ok f -> get_state f (hs_blockId state) = Some state -> execute_block f prev state = Ok (good, f') ->
  same_tree f f' /\ f_head f' = f_head f /\ byBlocknumIndex f' = byBlocknumIndex f /\ (good = false -> f' = f) /\
  (good = true -> exists s, get_state f' (hs_blockId state) = Some s /\ is_Some (hs_revision s)) /\
  (forall id s, get_state f id = Some s -> is_Some (hs_revision s) -> exists s', get_state f' id = Some s' /\ is_Some (hs_revision s')) /\
  commitIndex f' <= Z.max (commitIndex f) (hs_blockNum state).
Proof.
  intros Hcb [Hok Hids] Hst E. unfold execute_block in E. destruct (hs_revision state) as [r|] eqn:Er.
  { injection E as <- <-. split_and!; eauto using same_tree_refl. lia. }
  apply bind_ok in E as (pr & Ep & E). apply bind_ok in E as (b & Eb & E). destruct (claim ← _; _) as [r|e]; injection E as <- <-; [|split_and!; eauto using same_tree_refl; [done|lia]].
  set (g := set_states _ _).
  assert (Hg : forall id, get_state g id = match cmp id (hs_blockId state) with Eq => Some (set_revision r state) | _ => get_state f id end).
  { intros id. unfold g, get_state. cbn. rewrite find_assign. unfold get_state in Hst. by rewrite Hst. }
  destruct (Hcb (hs_blockId state) g (set_revision r state)) as (H1 & H2 & H3 & H4 & H5 & H6 & H7 & _ & H8 & H9); [by rewrite Hg, cmp_refl|].
  assert (Hg' : forall id, get_state (on_accept_block (hs_blockId state) g) id = get_state g id) by (intros; unfold get_state; by rewrite H2).
  split_and!; try done.
  - constructor; try done; [|intros id].
    + rewrite H2. cbn. by rewrite assign_keys.
    + rewrite Hg', Hg. destruct (cmp id (hs_blockId state)) eqn:Ec; [|done..]. apply cmp_eq in Ec as ->. by rewrite Hst.
  - intros _. exists (set_revision r state). rewrite Hg', Hg, cmp_refl. split; [done|by eexists].
  - intros id s Hs Hr. rewrite Hg', Hg. destruct (cmp id (hs_blockId state)); eauto.
Qed.

(** The block before the failing one. *)
Definition last_id (prev : Checksum256) (l : list (Z * Checksum256)) : Checksum256 := match last l with Some e => e.2 | None => prev end.

Lemma last_id_cons prev e l : last_id prev (e :: l) = last_id e.2 l.
Proof. unfold last_id. rewrite last_cons. by destruct (last l). Qed.

Definition up_to (f : ForkDb) (c : Z) (l : list (Z * Checksum256)) : Prop := Forall (fun e => forall s, get_state f e.2 = Some s -> hs_blockNum s <= c) l.
Lemma up_to_same f f' c l : same_tree f f' -> up_to f c l -> up_to f' c l.
Proof.
  intros Hs Hl. unfold up_to. eapply Forall_impl; [exact Hl|]. cbn. intros e He s E. pose proof (same_info _ _ Hs e.2) as Hi. rewrite E in Hi.
  destruct (get_state f e.2) as [s0|]; cbn in Hi; [|done]. injection Hi as Hi. unfold hs_blockNum, hs_header in *. rewrite Hi. by apply He.
Qed.

Lemma last_id_app prev l1 l2 : last_id (last_id prev l1) l2 = last_id prev (l1 ++ l2).
Proof. revert prev. induction l1 as [|e l1 IH]; intros prev; cbn [app]; [done|]. by rewrite !last_id_cons. Qed.

Lemma execute_fork_spec : callback_ok -> forall entries f prev good f',
  states_ok f -> map_ok (byOrderIndex f) -> (exists s, get_state f prev = Some s /\ is_Some (hs_revision s)) ->
  execute_fork f prev entries = Ok (good, f') ->
  same_tree f f' /\
  (forall id s, get_state f id = Some s -> is_Some (hs_revision s) -> exists s', get_state f' id = Some s' /\ is_Some (hs_revision s')) /\
  if good then
    f_head f' = f_head f /\ byBlocknumIndex f' = byBlocknumIndex f /\
    Forall (fun e => exists s, get_state f' e.2 = Some s /\ is_Some (hs_revision s)) entries /\
    forall c, up_to f c entries -> commitIndex f' <= Z.max (commitIndex f) c
  else
    exists l1 num id l2, entries = l1 ++ (num, id) :: l2 /\ byBlocknumIndex f' = List.filter (fun e => e.1 <? num) (byBlocknumIndex f) /\
      f_head f' = last_id prev l1 /\ Forall (fun e => exists s, get_state f' e.2 = Some s /\ is_Some (hs_revision s)) l1 /\
      forall c, up_to f c l1 -> commitIndex f' <= Z.max (commitIndex f) c.
Proof.
  intros Hcb. induction entries as [|[num id] entries IH]; intros f prev good f' Hs Ho Hp E; cbn [execute_fork] in E.
  { injection E as <- <-. destruct Hs. split_and!; eauto using same_tree_refl. intros. lia. }
  destruct Hp as (p & Ep & Hpr). unfold assert in E. rewrite Ep in E. cbn in E.
  destruct (get_state f id) as [n|] eqn:En; [|done]. cbn in E. pose proof (proj2 Hs _ _ En) as Hid.
  apply bind_ok in E as ([g f1] & Eb & E).
  rewrite <- Hid in En. destruct (execute_block_spec _ _ _ _ _ Hcb Hs En Eb) as (Ht & Hh & Hn & Hf & Hr & Hk & Hci). rewrite Hid in *.
  destruct g; [|].
  - destruct (Hr eq_refl) as (s1 & Es1 & Hs1). rewrite Es1 in E. cbn in E.
    set (f2 := set_sharedHead _ _) in E. change (get_state f1 id = Some s1) with (get_state f2 id = Some s1) in Es1.
    assert (Ht2 : same_tree f f2) by (destruct Ht; by constructor).
    destruct (IH f2 id good f') as (Ht' & Hk' & IHr); [by eapply same_tree_states_ok| |by eauto|done|].
    { cbn. destruct Ht. by eapply sublist_map_ok. }
    split_and!; [by eapply same_tree_trans| |].
    { intros x s Ex Hx. destruct (Hk _ _ Ex Hx) as (s' & E1 & E2). by eapply Hk'. }
    assert (Hup : forall c l, up_to f c ((num, id) :: l) -> up_to f2 c l /\ commitIndex f2 <= Z.max (commitIndex f) c).
    { intros c l [Hc Hl]%Forall_cons. specialize (Hc n). cbn in Hc. split; [by eapply up_to_same|]. cbn. specialize (Hc En). lia. }
    destruct good.
    + destruct IHr as (A & B & C & D). split_and!; [by etrans|by etrans|constructor; [by eapply Hk'|done]|].
      intros c [Hc1 Hc2]%Hup. specialize (D c Hc1). lia.
    + destruct IHr as (l1 & num' & id' & l2 & -> & B & C & D & F).
      exists ((num, id) :: l1), num', id', l2. split_and!; [done|by rewrite B; cbn; rewrite Hn| | |].
      * by rewrite C, last_id_cons.
      * constructor; [by eapply Hk'|done].
      * intros c [Hc1 Hc2]%Hup. specialize (F c Hc1). lia.
  - rewrite Hf in * by done. clear Hr Hf Hk. injection E as <- <-.
    set (fb := set_byBlocknum _ _).
    destruct (blacklist_subtree_core fb n) as (B & C & D & F & G & H & I & J & K); try done; [apply Hs|by rewrite Hid|].
    set (f2 := blacklist_subtree fb n) in *.
    assert (Hc : forall x, core <$> get_state f2 x = core <$> get_state f x) by done. cbn in D, F, K.
    split_and!.
    + constructor; cbn [f_states f_blocks currentTerm f_blockContext byOrderIndex commitIndex set_head]; try done; [|by rewrite K].
      intros x. specialize (Hc x). change (get_state (set_head prev f2) x) with (get_state f2 x). destruct (get_state f2 x), (get_state f x); cbn in *; try done. unfold core in Hc. congruence.
    + intros x s Ex Hx. specialize (Hc x). rewrite Ex in Hc. change (get_state (set_head prev f2) x) with (get_state f2 x).
      destruct (get_state f2 x) as [s'|]; cbn in *; [|done]. exists s'. split; [done|]. unfold core in Hc. congruence.
    + exists [], num, id, entries. split_and!; [done| |done|by constructor|]; [by etrans; [exact H|]|]. intros. cbn. rewrite K. cbn. lia.
Qed.

(** Above the irreversible block, a known block has its parent, is one higher, and
    its header is the stored one. *)
Record tree_ok (f : ForkDb) : Prop := {
  tree_states : states_ok f;
  tree_order : map_ok (byOrderIndex f);
  tree_blocks : map_ok (f_blocks f);
  tree_parent id s : get_state f id = Some s -> commitIndex f < hs_blockNum s ->
    exists p b, get_state f (hs_previous s) = Some p /\ hs_blockNum s = hs_blockNum p + 1 /\
      find id (f_blocks f) = Some b /\ sh_header b = hs_header s;
  tree_viable o id : (o, id) ∈ byOrderIndex f -> exists s, get_state f id = Some s /\ order s = o
}.

Definition numbered (f : ForkDb) (e : Z * Checksum256) : Prop := exists s, get_state f e.2 = Some s /\ hs_blockNum s = e.1.

(** The entries [l] continue the chain after the block [id] of number [n]. *)
Fixpoint path (f : ForkDb) (n : Z) (id : Checksum256) (l : list (Z * Checksum256)) : Prop :=
  match l with
  | [] => True
  | (m, id') :: l => m = n + 1 /\ (exists s, get_state f id' = Some s /\ hs_blockNum s = m /\ hs_previous s = id) /\ path f m id' l
  end.

(** The best chain: contiguous from a block at or before the irreversible one up
    to the head, all executed. *)
Record chain_ok (f : ForkDb) : Prop := {
  chain_path : exists n id l, byBlocknumIndex f = (n, id) :: l /\ numbered f (n, id) /\ path f n id l /\ n <= commitIndex f /\ last_id id l = f_head f;
  chain_executed id : id ∈ map snd (byBlocknumIndex f) -> exists s, get_state f id = Some s /\ is_Some (hs_revision s);
  chain_commit : exists s, get_state f (f_head f) = Some s /\ commitIndex f <= hs_blockNum s
}.

Lemma tree_ok_same f f' : same_tree f f' -> tree_ok f -> tree_ok f'.
Proof.
  intros Hs [H1 H2 H0 H3 H4]. constructor; [by eapply same_tree_states_ok|eapply sublist_map_ok; [apply Hs|done]|by rewrite (same_blocks _ _ Hs)|..].
  - intros id s E Hc. pose proof (same_info _ _ Hs id) as Hi. rewrite E in Hi. destruct (get_state f id) as [s0|] eqn:E0; cbn in Hi; [|done].
    injection Hi as Hi. unfold hs_blockNum, hs_header in *. rewrite Hi in *. pose proof (same_commit _ _ Hs).
    destruct (H3 id s0 E0 ltac:(lia)) as (p & b & Ep & En & Eb & Eh). destruct (same_tree_state _ _ _ _ Hs Ep) as (p' & Ep' & Hp').
    exists p', b. rewrite Hp', (same_blocks _ _ Hs). done.
  - intros o id Hin. destruct (H4 o id) as (s & E & Eo); [eapply elem_of_sublist; [done|apply Hs]|].
    destruct (same_tree_state _ _ _ _ Hs E) as (s' & E' & Hi). exists s'. split; [done|]. unfold order, hs_blockNum, hs_header, hs_blockId in *. by rewrite Hi.
Qed.
Lemma path_same f f' n id l : same_tree f f' -> path f n id l -> path f' n id l.
Proof.
  intros Hs. revert n id. induction l as [|[m id'] l IH]; intros n id; cbn; [done|]. intros (-> & (s & E & En & Ep) & Hp). split; [done|]. split; [|by apply IH].
  destruct (same_tree_state _ _ _ _ Hs E) as (s' & E' & Hi). exists s'. unfold hs_blockNum, hs_header in *. by rewrite Hi.
Qed.
Lemma numbered_same f f' e : same_tree f f' -> numbered f e -> numbered f' e.
Proof.
  intros Hs (s & E & En). destruct (same_tree_state _ _ _ _ Hs E) as (s' & E' & Hi). exists s'. unfold hs_blockNum, hs_header in *. by rewrite Hi.
Qed.

Lemma path_app_iff f n id l1 l2 : path f n id (l1 ++ l2) <-> path f n id l1 /\ path f (n + Z.of_nat (length l1)) (last_id id l1) l2.
Proof.
  revert n id. induction l1 as [|[m x] l1 IH]; intros n id; cbn [app path length].
  - rewrite Z.add_0_r. cbn. split; [done|by intros [_ ?]].
  - rewrite last_id_cons. cbn [snd]. rewrite IH. split.
    + intros (-> & Hx & Ha & Hb). split_and!; try done. by replace (n + Z.of_nat (S (length l1))) with (n + 1 + Z.of_nat (length l1)) by lia.
    + intros ((-> & Hx & Ha) & Hb). split_and!; try done. by replace (n + 1 + Z.of_nat (length l1)) with (n + Z.of_nat (S (length l1))) by lia.
Qed.
Lemma path_keys f n id l e : path f n id l -> e ∈ l -> n < e.1 <= n + Z.of_nat (length l).
Proof.
  revert n id. induction l as [|[m x] l IH]; intros n id; cbn [path length]; [intros _ ?%elem_of_nil; done|]. intros (-> & _ & Hp) [->|Hin]%elem_of_cons.
  - cbn. lia.
  - specialize (IH _ _ Hp Hin). lia.
Qed.
Lemma path_ok f n id l : path f n id l -> map_ok ((n, id) :: l).
Proof.
  revert n id. induction l as [|[m x] l IH]; intros n id Hp; [by repeat constructor|]. pose proof Hp as (-> & _ & Hp'). specialize (IH _ _ Hp').
  cbn [map fst] in *. apply sorted_cons. split; [done|]. rewrite Forall_forall. intros k Hk.
  change (n + 1 :: map fst l) with (map fst ((n + 1, x) :: l)) in Hk. apply list_elem_of_In, in_map_iff in Hk as ([k' v] & <- & Hk%list_elem_of_In).
  apply (path_keys _ _ _ _ _ Hp) in Hk. unfold below, cmp, Z_compare. cbn in *. apply Z.compare_lt_iff. lia.
Qed.

Lemma get_prev_id_spec f id s :
  tree_ok f -> get_state f id = Some s -> commitIndex f < hs_blockNum s -> get_prev_id f id = Ok (hs_previous s).
Proof. intros Ht E Hc. destruct (tree_parent _ Ht _ _ E Hc) as (p & b & _ & _ & Eb & Eh). unfold get_prev_id, get. by rewrite Eb, <- Eh. Qed.

(** One step down a chain. *)
Lemma path_down f num id l :
  tree_ok f -> numbered f (num, id) -> commitIndex f < num -> path f num id l ->
  exists prev, get_prev_id f id = Ok prev /\ numbered f (num - 1, prev) /\ path f (num - 1) prev ((num, id) :: l).
Proof.
  intros Ht (s & E & En) Hc Hp. cbn in E, En. exists (hs_previous s). split; [apply get_prev_id_spec; [done..|lia]|].
  destruct (tree_parent _ Ht _ _ E ltac:(lia)) as (p & b & Ep & Enp & _). split; [exists p; cbn; split; [done|lia]|]. cbn. split_and!; [lia|eauto|done].
Qed.

Lemma push_entries_spec f n : forall num id above,
  tree_ok f -> numbered f (num, id) -> commitIndex f <= num - Z.of_nat n -> path f num id above ->
  exists id' l, push_entries f num n id above = Ok (id', l ++ above) /\ numbered f (num - Z.of_nat n, id') /\
    path f (num - Z.of_nat n) id' (l ++ above) /\ length l = n /\ last_id id' l = id.
Proof.
  induction n as [|n IH]; intros num id above Ht Hn Hc Hp; cbn [push_entries].
  { exists id, []. rewrite Z.sub_0_r. done. }
  destruct (path_down f num id above) as (prev & E & Hn' & Hp'); [done..|lia|done|]. rewrite E. cbn.
  destruct (IH (num - 1) prev ((num, id) :: above)) as (id' & l & -> & Hd & He & Hl & Hi); [done..|lia|done|].
  exists id', (l ++ [(num, id)]). rewrite <- app_assoc. cbn [app]. replace (num - Z.of_nat (S n)) with (num - 1 - Z.of_nat n) by lia.
  split_and!; try done; [rewrite length_app; cbn; lia|]. unfold last_id. by rewrite last_snoc.
Qed.

Fixpoint downto (l : list (Z * Checksum256)) : Prop :=
  match l with
  | [] => True
  | (n, _) :: l' => match l' with [] => True | (m, _) :: _ => n = m + 1 end /\ downto l'
  end.

Lemma replace_entries_spec f : forall entries num x rest id repl kept repl',
  tree_ok f -> entries = (num, x) :: rest -> downto entries -> numbered f (num, id) -> path f num id repl ->
  replace_entries f entries id repl = Ok (kept, repl') ->
  exists dropped m common rest', entries = dropped ++ kept /\ kept = (m, common) :: rest' /\ path f m common repl' /\
    Forall (fun e => commitIndex f < e.1) dropped /\ last_id common repl' = last_id id repl /\
    length repl' = (length dropped + length repl)%nat.
Proof.
  induction entries as [|[n y] entries IH]; intros num x rest id repl kept repl' Ht E Hd Hn Hp Er; [done|].
  injection E as -> -> ->. cbn [replace_entries] in Er. case_bool_decide as Ey.
  { injection Er as <- <-. subst x. exists [], num, id, rest. by split_and!. }
  destruct (num <=? commitIndex f) eqn:Ec; [done|]. zbool.
  destruct (path_down f num id repl) as (prev & E & Hn' & Hp'); [done..|lia|done|]. rewrite E in Er. cbn in Er.
  destruct rest as [|[m z] rest]; [done|]. cbn in Hd. destruct Hd as [-> Hd].
  replace (m + 1 - 1) with m in * by lia.
  destruct (IH m z rest prev ((m + 1, id) :: repl) kept repl') as (dropped & m' & common & rest' & -> & -> & H1 & H2 & H3 & H4); try done.
  exists ((m + 1, x) :: dropped), m', common, rest'. split_and!; try done; [by constructor|by rewrite H3, last_id_cons|rewrite H4; cbn; lia].
Qed.

Lemma filter_split {A} (p : A -> bool) l1 l2 : (forall x, x ∈ l1 -> p x = true) -> (forall x, x ∈ l2 -> p x = false) -> List.filter p (l1 ++ l2) = l1.
Proof.
  intros H1 H2. induction l1 as [|x l1 IH]; cbn.
  - induction l2 as [|y l2 IH]; cbn; [done|]. rewrite H2 by constructor. apply IH. intros z Hz. apply H2. by constructor.
  - rewrite H1 by constructor. f_equal. apply IH. intros z Hz. apply H1. by constructor.
Qed.

(** The entries of a chain before a number. *)
Lemma path_before f n id l1 l2 : path f n id (l1 ++ l2) ->
  List.filter (fun e => e.1 <? n + Z.of_nat (length l1) + 1) ((n, id) :: l1 ++ l2) = (n, id) :: l1.
Proof.
  intros [H1 H2]%path_app_iff. change ((n, id) :: l1 ++ l2) with (((n, id) :: l1) ++ l2). apply filter_split.
  - intros x [->|Hx]%elem_of_cons; apply Z.ltb_lt; [cbn; lia|]. apply (path_keys _ _ _ _ _ H1) in Hx. lia.
  - intros x Hx. apply Z.ltb_ge. apply (path_keys _ _ _ _ _ H2) in Hx. lia.
Qed.
Lemma path_entries_to f n id l1 l2 : path f n id (l1 ++ l2) -> entries_to (n + Z.of_nat (length l1)) ((n, id) :: l1 ++ l2) = rev ((n, id) :: l1).
Proof.
  intros Hp. unfold entries_to. rewrite <- (path_before f n id l1 l2 Hp). f_equal. apply filter_ext. intros e.
  destruct (Z.leb_spec e.1 (n + Z.of_nat (length l1))), (Z.ltb_spec e.1 (n + Z.of_nat (length l1) + 1)); lia.
Qed.
Lemma path_split f n id l m : path f n id l -> n <= m <= n + Z.of_nat (length l) -> exists l1 l2, l = l1 ++ l2 /\ n + Z.of_nat (length l1) = m.
Proof.
  intros Hp Hm. exists (take (Z.to_nat (m - n)) l), (drop (Z.to_nat (m - n)) l). rewrite take_drop, length_take. split; [done|lia].
Qed.
Lemma path_end f n id l : numbered f (n, id) -> path f n id l -> numbered f (n + Z.of_nat (length l), last_id id l).
Proof.
  revert n id. induction l as [|[m x] l IH]; intros n id Hn; [by rewrite Z.add_0_r|]. intros (-> & (s & E & En & _) & Hp). rewrite last_id_cons.
  replace (n + Z.of_nat (length ((n + 1, x) :: l))) with (n + 1 + Z.of_nat (length l)) by (cbn; lia). apply IH; [by exists s|done].
Qed.
Lemma last_path f n id l : path f n id l -> last ((n, id) :: l) = Some (n + Z.of_nat (length l), last_id id l).
Proof.
  revert n id. induction l as [|[m x] l IH]; intros n id; [intros _; cbn; by rewrite Z.add_0_r|]. intros (-> & _ & Hp). rewrite last_id_cons.
  change (last ((n, id) :: (n + 1, x) :: l)) with (last ((n + 1, x) :: l)). rewrite (IH _ _ Hp). do 2 f_equal. cbn. lia.
Qed.
Lemma rev_last {A} (l : list A) e : last l = Some e -> exists r, rev l = e :: r.
Proof. destruct l as [|x l _] using rev_ind; [done|]. rewrite last_snoc, rev_app_distr. intros [= ->]. by eexists. Qed.
Lemma path_downto f n id l : path f n id l -> downto (rev ((n, id) :: l)).
Proof.
  induction l as [|[m x] l IH] using rev_ind; intros Hp; [done|]. apply path_app_iff in Hp as [Hp (-> & _)]. specialize (IH Hp).
  change ((n, id) :: l ++ [(n + Z.of_nat (length l) + 1, x)]) with (((n, id) :: l) ++ [(n + Z.of_nat (length l) + 1, x)]). rewrite rev_app_distr.
  pose proof (last_path _ _ _ _ Hp) as Hl. apply rev_last in Hl as [r Hr]. rewrite Hr in *. by split.
Qed.

(** The part of the index that [trySetHead] starts from. *)
Lemma head_index f n id l headNum newNum :
  path f n id l -> headNum = n + Z.of_nat (length l) -> n <= newNum ->
  let index := if newNum <? headNum
               then match find (newNum + 1) ((n, id) :: l) with
                    | Some _ => List.filter (fun e => e.1 <? newNum + 1) ((n, id) :: l)
                    | None => (n, id) :: l
                    end
               else (n, id) :: l in
  exists l1 l2, l = l1 ++ l2 /\ n + Z.of_nat (length l1) = Z.min newNum headNum /\ entries_to (Z.min newNum headNum) index = rev ((n, id) :: l1).
Proof.
  intros Hp Hh Hn. destruct (path_split f n id l (Z.min newNum headNum) Hp ltac:(lia)) as (l1 & l2 & -> & Hl). cbn zeta. exists l1, l2.
  split_and!; try done. rewrite <- Hl. destruct (newNum <? headNum) eqn:E; zbool; [|by apply path_entries_to with f].
  rewrite Z.min_l in Hl by lia. destruct (find (newNum + 1) _); [|by apply path_entries_to with f].
  rewrite <- Hl, (path_before f) by done. rewrite <- (app_nil_r l1) at 2. apply path_entries_to with f. rewrite app_nil_r. by apply path_app_iff in Hp as [? _].
Qed.

(** The second loop meets the old chain, or an irreversible block. *)
Lemma replace_entries_total f : forall entries num x rest id repl,
  tree_ok f -> entries = (num, x) :: rest -> downto entries -> numbered f (num, id) -> path f num id repl ->
  (exists e, e ∈ entries /\ e.1 <= commitIndex f) ->
  replace_entries f entries id repl = consensus_failure \/ exists kept repl', replace_entries f entries id repl = Ok (kept, repl').
Proof.
  induction entries as [|[n y] entries IH]; intros num x rest id repl Ht E Hd Hn Hp Hc; [done|].
  injection E as -> -> ->. cbn [replace_entries]. case_bool_decide as Ey; [by eauto|].
  destruct (num <=? commitIndex f) eqn:Ec; [by left|]. zbool.
  destruct (path_down f num id repl) as (prev & E & Hn' & Hp'); [done..|lia|done|]. rewrite E. cbn [mbind result_bind].
  destruct Hc as (e & [->|He]%elem_of_cons & Hle); [cbn in Hle; lia|]. destruct rest as [|[m z] rest]; [by apply elem_of_nil in He|].
  cbn in Hd. destruct Hd as [-> Hd]. replace (m + 1 - 1) with m in * by lia. apply (IH m z rest); try done. by exists e.
Qed.

(** The part of [trySetHead] that runs the blocks of the new fork. *)
Definition run_fork (f : ForkDb) (nh : BlockHeaderState) (common : Checksum256) (entries : list (Z * Checksum256)) : result (bool * ForkDb) :=
  '(good, f) ← execute_fork f common entries;
  if (good : bool) then
    check (match get_state f (hs_blockId nh) with Some s => bool_decide (is_Some (hs_revision s)) | None => false end) "assertion failed" ;;
    Ok (true, set_head (hs_blockId nh) f)
  else Ok (false, f).

(** The part before it: the new index, the common block and the entries above it. *)
Definition fork_index (f : ForkDb) (new_head : BlockHeaderState) : result (list (Z * Checksum256) * Checksum256 * list (Z * Checksum256)) :=
  head ← head_state f;
  let newNum := hs_blockNum new_head in
  let headNum := hs_blockNum head in
  check (negb ((newNum <? headNum) && (newNum <? commitIndex f))) "consensus failure" ;;
  let index := if newNum <? headNum
               then match find (newNum + 1) (byBlocknumIndex f) with
                    | Some _ => List.filter (fun e => e.1 <? newNum + 1) (byBlocknumIndex f)
                    | None => byBlocknumIndex f
                    end
               else byBlocknumIndex f in
  '(id, above) ← push_entries f newNum (Z.to_nat (newNum - headNum)) (hs_blockId new_head) [];
  '(kept, replaced) ← replace_entries f (entries_to (Z.min newNum headNum) index) id [];
  match kept with
  | [] => Abort "assertion failed"
  | (_, common) :: _ =>
      prev ← assert (get_state f common);
      check (bool_decide (is_Some (hs_revision prev))) "assertion failed" ;;
      Ok (rev kept ++ replaced ++ above, common, replaced ++ above)
  end.
Lemma trySetHead_eq f nh : f_head f <> hs_blockId nh ->
  trySetHead f nh = ('(index, common, entries) ← fork_index f nh; run_fork (set_byBlocknum index f) nh common entries).
Proof.
  intros Hne. unfold trySetHead, fork_index. rewrite bool_decide_eq_false_2 by done. destruct (head_state f) as [h|]; [|done]. cbn [mbind result_bind].
  destruct (check _ _); [|done]. cbn [mbind result_bind]. destruct (push_entries _ _ _ _ _) as [[id above]|]; [|done]. cbn [mbind result_bind].
  destruct (replace_entries _ _ _ _) as [[kept replaced]|]; [|done]. cbn [mbind result_bind]. destruct kept as [|[m common] kept]; [done|].
  set (g := set_byBlocknum _ f). change (get_state g common) with (get_state f common). destruct (assert (get_state f common)) as [p|]; [|done]. cbn [mbind result_bind].
  by destruct (check _ _).
Qed.

(** The entries up to the common block stay, and those of the new fork follow. *)
Lemma trySetHead_index f nh :
  tree_ok f -> chain_ok f -> get_state f (hs_blockId nh) = Some nh -> fork_index f nh = consensus_failure \/
  exists n id k old entries, byBlocknumIndex f = (n, id) :: k ++ old /\ numbered f (n, id) /\ path f n id (k ++ entries) /\ n <= commitIndex f /\
    commitIndex f <= n + Z.of_nat (length k) /\ last_id (last_id id k) entries = hs_blockId nh /\
    fork_index f nh = Ok ((n, id) :: k ++ entries, last_id id k, entries).
Proof.
  intros Ht [(n & id0 & l & Ei & Hn & Hp & Hnc & Hh) Hex (h & Eh & Hch)] Enh. unfold fork_index. unfold head_state, assert. rewrite Eh. cbn [mbind result_bind].
  destruct (negb _) eqn:Hck; [|by left]. cbn [check mbind result_bind].
  assert (Hhn : hs_blockNum h = n + Z.of_nat (length l)).
  { destruct (path_end _ _ _ _ Hn Hp) as (h' & Eh' & Hnum). cbn in Eh', Hnum. rewrite Hh, Eh in Eh'. congruence. }
  assert (Hcn : commitIndex f <= hs_blockNum nh).
  { destruct (hs_blockNum nh <? hs_blockNum h) eqn:E1, (hs_blockNum nh <? commitIndex f) eqn:E2; zbool; try lia; done. }
  destruct (push_entries_spec f (Z.to_nat (hs_blockNum nh - hs_blockNum h)) (hs_blockNum nh) (hs_blockId nh) []) as
    (id2 & ab & -> & Hn2 & Hp2 & _ & Hl2); [done|by exists nh|lia|done|].
  rewrite app_nil_r in *. replace (hs_blockNum nh - Z.of_nat (Z.to_nat (hs_blockNum nh - hs_blockNum h))) with (Z.min (hs_blockNum nh) (hs_blockNum h)) in * by lia.
  cbn [mbind result_bind]. rewrite Ei. destruct (head_index f n id0 l _ (hs_blockNum nh) Hp Hhn ltac:(lia)) as (l1 & l2 & -> & Hl1 & Hent).
  rewrite Hent. pose proof Hp as [Hp1 _]%path_app_iff.
  pose proof (last_path _ _ _ _ Hp1) as Hlast. rewrite Hl1 in Hlast. apply rev_last in Hlast as [r Hr].
  pose proof (path_downto _ _ _ _ Hp1) as Hdown. rewrite Hr in *.
  destruct (replace_entries_total f _ _ _ _ _ [] Ht eq_refl Hdown Hn2 I) as [->|(kept & repl & Erepl)]; [|by left|].
  { exists (n, id0). split; [|done]. rewrite <- Hr. apply list_elem_of_In, in_rev. rewrite rev_involutive. by left. }
  right. rewrite Erepl. cbn [mbind result_bind].
  destruct (replace_entries_spec f _ _ _ _ _ [] _ _ Ht eq_refl Hdown Hn2 I Erepl) as (dropped & m & common & rest' & Ed & -> & Hpr & Hdr & Hlr & Hlen).
  rewrite <- Hr in Ed. apply (f_equal (@rev _)) in Ed. rewrite rev_involutive, rev_app_distr in Ed. cbn [rev] in Ed.
  (* the entries that stay start with the first one *)
  assert (exists k, rev rest' ++ [(m, common)] = (n, id0) :: k /\ l1 = k ++ rev dropped) as (k & Ek & ->).
  { destruct (rev rest' ++ [(m, common)]) as [|e k] eqn:Ek; [by destruct (rev rest')|]. exists k. cbn in Ed. injection Ed as -> ->. done. }
  apply path_app_iff in Hp1 as [Hpk Hpd]. pose proof (last_path _ _ _ _ Hpk) as Hlk. rewrite <- Ek, last_snoc in Hlk. injection Hlk as -> ->.
  rewrite length_app, length_rev in Hl1. cbn in Hlen, Hlr. cbn [rev]. rewrite Ek.
  exists n, id0, k, (rev dropped ++ l2), (repl ++ ab). split_and!; try done.
  - by rewrite <- app_assoc.
  - apply path_app_iff. split; [done|]. apply path_app_iff. split; [done|]. rewrite Hlr.
    by replace (n + Z.of_nat (length k) + Z.of_nat (length repl)) with (Z.min (hs_blockNum nh) (hs_blockNum h)) by lia.
  - destruct (rev dropped) as [|[x y] d] eqn:Erd; [apply (f_equal length) in Erd; rewrite length_rev in Erd; cbn in Erd; lia|]. destruct Hpd as (-> & _). rewrite Forall_forall in Hdr.
    specialize (Hdr (n + Z.of_nat (length k) + 1, y)). cbn in Hdr. enough (commitIndex f < n + Z.of_nat (length k) + 1) by lia.
    apply Hdr, list_elem_of_In, in_rev. rewrite Erd. by left.
  - by rewrite <- last_id_app, Hlr.
  - destruct (Hex (last_id id0 k)) as (p & Ep & Hrp).
    { rewrite Ei, <- app_assoc. change ((n, id0) :: k ++ rev dropped ++ l2) with (((n, id0) :: k) ++ rev dropped ++ l2). rewrite <- Ek, !map_app. cbn.
      rewrite !elem_of_app. left. right. by constructor. }
    rewrite Ep. cbn [mbind result_bind]. by rewrite bool_decide_eq_true_2.
Qed.

Lemma find_prefix f n id k x num : path f n id (k ++ x) -> num <= n + Z.of_nat (length k) -> find num ((n, id) :: k ++ x) = find num ((n, id) :: k).
Proof.
  intros [_ Hp]%path_app_iff Hn. change ((n, id) :: k ++ x) with (((n, id) :: k) ++ x). generalize ((n, id) :: k) as m. intros m.
  assert (Hx : find num x = None).
  { apply find_None. intros (e & <- & He%list_elem_of_In)%list_elem_of_In%in_map_iff. apply (path_keys _ _ _ _ _ Hp) in He. lia. }
  induction m as [|[a b] m IH]; cbn; [done|]. by destruct (cmp num a).
Qed.

(** The executed part of the new index is a best chain. *)
Lemma new_chain f f1 n id k l : same_tree f f1 -> numbered f (n, id) -> path f n id (k ++ l) -> n <= commitIndex f ->
  byBlocknumIndex f1 = (n, id) :: k ++ l -> f_head f1 = last_id (last_id id k) l ->
  (forall x, x ∈ map snd ((n, id) :: k) -> executed f1 x) -> Forall (fun e => executed f1 e.2) l -> commitIndex f1 <= n + Z.of_nat (length (k ++ l)) -> chain_ok f1.
Proof.
  intros Hs Hn Hp Hc Ei Hh Hk Hl Hcc. pose proof (same_commit _ _ Hs). rewrite last_id_app in Hh.
  apply (numbered_same _ _ _ Hs) in Hn. apply (path_same _ _ _ _ _ Hs) in Hp. constructor.
  - exists n, id, (k ++ l). split_and!; try done. lia.
  - intros x. rewrite Ei. change ((n, id) :: k ++ l) with (((n, id) :: k) ++ l). rewrite map_app. intros [Hx|Hx]%elem_of_app; [by apply Hk|].
    apply list_elem_of_In, in_map_iff in Hx as (e & <- & He%list_elem_of_In). rewrite Forall_forall in Hl. by apply Hl.
  - destruct (path_end _ _ _ _ Hn Hp) as (s & E & En). cbn in E, En. exists s. rewrite Hh. split; [done|lia].
Qed.

Lemma path_up_to f n id l : path f n id l -> up_to f (n + Z.of_nat (length l)) l.
Proof.
  revert n id. induction l as [|[m x] l IH]; intros n id; [by constructor|]. intros (-> & (s & E & En & _) & Hp). constructor.
  - cbn. rewrite E. intros ? [= <-]. lia.
  - replace (n + Z.of_nat (length ((n + 1, x) :: l))) with (n + 1 + Z.of_nat (length l)) by (cbn; lia). by eapply IH.
Qed.
Lemma up_to_path f n id k l : path f n id (k ++ l) -> up_to f (n + Z.of_nat (length (k ++ l))) l.
Proof. intros [_ Hp]%path_app_iff. rewrite length_app, Nat2Z.inj_add, Z.add_assoc. by eapply path_up_to. Qed.

(** *** Viable blocks stay connected *)

Lemma entry_of_sublist index index' id : index' `sublist_of` index -> entry_of index' id -> entry_of index id.
Proof. intros Hs [o Ho]. exists o. by eapply elem_of_sublist. Qed.
Lemma order_of_entry f o id s : tree_ok f -> (o, id) ∈ byOrderIndex f -> get_state f id = Some s -> order s = o.
Proof. intros Ht (s' & Es & <-)%(tree_viable _ Ht) E. congruence. Qed.

Lemma blacklist_described f root from : tree_ok f -> ordered f -> get_state f (hs_blockId root) = Some root -> (forall e, e ∈ from -> e ∈ byOrderIndex f) ->
  described (fun id => match get_state f id with Some s => hs_previous s | None => [] end) (assign (hs_blockId root) (set_invalid root) (f_states f)) from.
Proof.
  intros Ht Ho Er Hsub o id Hin%Hsub. destruct (tree_viable _ Ht _ _ Hin) as (s & Es & <-). rewrite Es. split_and!.
  - intros o' H'%Hsub. symmetry. by apply (order_of_entry f _ id).
  - intros o' H'%Hsub. destruct (tree_viable _ Ht _ _ H') as (p & Ep & <-). by eapply Ho.
  - destruct (decide (id = hs_blockId root)) as [->|Hne]; [rewrite Er in Es; injection Es as <-; exists (set_invalid root); by rewrite (find_assign_eq _ _ root)|].
    exists s. by rewrite find_assign_ne.
Qed.

Lemma below_order_true o e : below_order o e = true <-> below e.1 o.
Proof. unfold below_order, below. destruct (cmp e.1 o); naive_solver. Qed.

(** The root leaves the index, and a block leaves it with its parent. *)
Lemma blacklist_subtree_entries f root id s :
  tree_ok f -> ordered f -> get_state f (hs_blockId root) = Some root -> entry_of (byOrderIndex f) id -> get_state f id = Some s ->
  let index := byOrderIndex (blacklist_subtree f root) in
  (id = hs_blockId root -> ~ entry_of index id) /\
  (entry_of (byOrderIndex f) (hs_previous s) -> ~ entry_of index (hs_previous s) -> ~ entry_of index id).
Proof.
  clear sha256 on_accept_block. intros Ht Ho Er [o Hid] Es. cbn zeta. unfold blacklist_subtree. set (l := assign _ _ _). pose proof (order_of_entry _ _ _ _ Ht Hid Es) as <-.
  destruct (find (order root) (byOrderIndex f)) eqn:Ef.
  2:{ cbn. split; [|done]. intros ->. rewrite Er in Es. injection Es as <-. apply find_In in Hid; [congruence|apply Ht]. }
  set (from := List.filter (fun e => negb (below_order (order root) e)) (byOrderIndex f)).
  assert (Hfrom : forall e, e ∈ from <-> e ∈ byOrderIndex f /\ ~ below e.1 (order root)).
  { intros e. unfold from. rewrite !list_elem_of_In, filter_In, <- !list_elem_of_In, negb_true_iff, <- not_true_iff_false, below_order_true. done. }
  pose proof (blacklist_loop_spec _ from l (filter_ok _ _ (tree_order _ Ht)) (blacklist_described f root from Ht Ho Er ltac:(intros ? ?%Hfrom; tauto))) as Hloop.
  pose proof (blacklist_loop_invalid from l (hs_blockId root) ltac:(exists (set_invalid root); split; [by apply (find_assign_eq _ _ root)|done])) as Hroot.
  pose proof (proj1 (proj2 (blacklist_loop_core from l))) as Hrest.
  destruct (blacklist_loop l from) as [l' rest]. cbn [fst snd byOrderIndex set_byOrder] in *.
  assert (Hin : forall x t, get_state f x = Some t -> entry_of (List.filter (below_order (order root)) (byOrderIndex f) ++ rest) x ->
    ((order t, x) ∈ byOrderIndex f /\ below (order t) (order root)) \/ (order t, x) ∈ rest).
  { intros x t Et [o [Hb|Hr]%elem_of_app].
    - apply list_elem_of_In, filter_In in Hb as [Hb%list_elem_of_In Hlt%below_order_true]. cbn in Hlt. left. by rewrite (order_of_entry f o x t).
    - right. assert (Hx : (o, x) ∈ byOrderIndex f) by (apply Hfrom; by eapply elem_of_sublist). by rewrite (order_of_entry f o x t). }
  split.
  - intros -> [[_ Hlt]|Hr]%(Hin _ _ Es); [rewrite Er in Es; injection Es as <-; by apply below_irrefl in Hlt|].
    destruct (Hloop (order s) (hs_blockId root)) as [_ [H1 _]]; [by eapply elem_of_sublist|]. by apply H1.
  - intros [op Hp] Hno Hent. destruct (tree_viable _ Ht _ _ Hp) as (p & Ep & <-). pose proof (Ho _ _ _ Es Ep) as Hlt.
    assert (Hpf : (order p, hs_previous s) ∈ from).
    { apply Hfrom. split; [done|]. cbn. intros Hb. apply Hno. exists (order p). apply elem_of_app. left. apply list_elem_of_In, filter_In.
      split; [by apply list_elem_of_In|by apply below_order_true]. }
    assert (Hpi : invalid_in l' (hs_previous s)).
    { destruct (find (hs_previous s) l') as [t|] eqn:Et; [destruct (hs_invalid t) eqn:Ei; [by exists t|]|].
      all: exfalso; apply Hno; exists (order p); apply elem_of_app; right; apply (Hloop _ _ Hpf); intros (t' & Et' & Hi'); congruence. }
    destruct (Hin _ _ Es Hent) as [[_ Hb]|Hr].
    + apply Hfrom in Hpf as [_ Hpf]. apply Hpf. cbn. by etrans.
    + destruct (Hloop (order s) id) as [H1 [H2 _]]; [by eapply elem_of_sublist|]. rewrite Es in H1. by apply H2, H1.
Qed.

(** Connectedness depends only on headers, on what is executed and on the index. *)
Lemma connected_same f f' :
  (forall id, core <$> get_state f' id = core <$> get_state f id) ->
  (forall id s, entry_of (byOrderIndex f') id -> get_state f id = Some s -> entry_of (byOrderIndex f) id /\
     (entry_of (byOrderIndex f) (hs_previous s) -> entry_of (byOrderIndex f') (hs_previous s))) ->
  connected f -> connected f'.
Proof.
  intros Hc Hi [H1 H2 H3].
  assert (Hs : forall id s', get_state f' id = Some s' -> exists s, get_state f id = Some s /\ hs_info s' = hs_info s /\ hs_revision s' = hs_revision s).
  { intros id s' E. specialize (Hc id). rewrite E in Hc. destruct (get_state f id) as [s|]; [|done]. injection Hc as ? ?. by exists s. }
  assert (Hex : forall x, executed f x -> executed f' x).
  { intros x (s & E & Hr). specialize (Hc x). rewrite E in Hc. destruct (get_state f' x) as [s'|] eqn:E'; [|done]. injection Hc as _ Hc. exists s'. by rewrite Hc. }
  constructor.
  - intros id s p (s0 & E0 & I0 & _)%Hs (p0 & Ep & Ip & _)%Hs. unfold order, hs_header, hs_blockNum, hs_blockId, hs_header in *. rewrite I0, Ip in *. by eapply H1.
  - intros id s (s0 & E0 & I0 & R0)%Hs. unfold hs_header. rewrite I0, R0. intros Hr [p (p0 & Ep & _)%Hs]. by eapply Hex, H2.
  - intros id s He (s0 & E0 & I0 & _)%Hs. destruct (Hi id s0 He E0) as [Hi1 Hi2]. unfold hs_header. rewrite I0.
    destruct (H3 id s0 Hi1 E0) as [?|[?|Hn]]; [left; by apply Hi2|right; left; by apply Hex|right; right].
    specialize (Hc (hs_previous s0)). unfold hs_header in *. rewrite Hn in Hc. by destruct (get_state f' _).
Qed.
Lemma entry_of_dec index id : entry_of index id \/ ~ entry_of index id.
Proof.
  destruct (decide (id ∈ map snd index)) as [H|H]; [left|right].
  - apply list_elem_of_In, in_map_iff in H as ([o x] & <- & H%list_elem_of_In). by exists o.
  - intros [o Ho]. apply H. apply list_elem_of_In, in_map_iff. exists (o, id). split; [done|by apply list_elem_of_In].
Qed.
Lemma blacklist_subtree_connected f root : tree_ok f -> get_state f (hs_blockId root) = Some root -> connected f -> connected (blacklist_subtree f root).
Proof.
  intros Ht Er Hc. destruct (blacklist_subtree_core f root) as (_ & Hcore & Hsub & _); [apply Ht..|done|]. apply (connected_same f); [done| |done].
  intros id s He Es. pose proof (entry_of_sublist _ _ _ Hsub He) as Hid. split; [done|]. intros Hp.
  destruct (entry_of_dec (byOrderIndex (blacklist_subtree f root)) (hs_previous s)) as [|Hno]; [done|].
  by destruct (proj2 (blacklist_subtree_entries f root id s Ht (connected_ordered _ Hc) Er Hid Es) Hp Hno).
Qed.

(** The blocks from the failing one to a viable one are viable. *)
Lemma unexecuted_entries f l : forall n id, connected f -> path f n id l -> is_Some (get_state f id) -> ~ executed f id ->
  entry_of (byOrderIndex f) (last_id id l) -> entry_of (byOrderIndex f) id /\ Forall (fun e => entry_of (byOrderIndex f) e.2) l.
Proof.
  induction l as [|[m x] l IH]; intros n id Hc Hp Hid Hne; [by intros ?|]. rewrite last_id_cons. cbn [snd]. destruct Hp as (_ & (s & Es & _ & <-) & Hp). intros He.
  destruct (IH m x Hc Hp) as [Hx Hl]; [by exists s| |done|].
  { intros (s' & Es' & Hr). rewrite Es in Es'. injection Es' as <-. by eapply Hne, connected_executed. }
  split; [|by constructor]. destruct (connected_viable _ Hc _ _ Hx Es) as [?|[?|Hn]]; [done..|]. rewrite Hn in Hid. by destruct Hid.
Qed.
(** They all leave the index. *)
Lemma blacklisted_path f root l : forall n id, tree_ok f -> ordered f -> get_state f (hs_blockId root) = Some root -> path f n id l ->
  entry_of (byOrderIndex f) id -> Forall (fun e => entry_of (byOrderIndex f) e.2) l ->
  ~ entry_of (byOrderIndex (blacklist_subtree f root)) id -> ~ entry_of (byOrderIndex (blacklist_subtree f root)) (last_id id l).
Proof.
  induction l as [|[m x] l IH]; intros n id Ht Ho Er Hp Hid Hl Hno; [done|]. rewrite last_id_cons. cbn [snd]. destruct Hp as (_ & (s & Es & _ & <-) & Hp).
  apply Forall_cons in Hl as [Hx Hl]. apply (IH m); try done. by apply (blacklist_subtree_entries f root x s Ht Ho Er).
Qed.

Lemma execute_block_connected f prev state good f' :
  callback_ok -> connected f -> get_state f (hs_blockId state) = Some state -> executed f (hs_previous state) ->
  execute_block f prev state = Ok (good, f') -> connected f' /\ (good = false -> hs_revision state = None).
Proof.
  intros Hcb Hc Hst Hp E. unfold execute_block in E. destruct (hs_revision state) as [r|] eqn:Er; [by injection E as <- <-|]. split; [|done].
  apply bind_ok in E as (pr & Ep & E). apply bind_ok in E as (b & Eb & E). destruct (claim ← _; _) as [r|e]; injection E as <- <-; [|done].
  set (g := set_states _ _).
  assert (Hg : forall id, get_state g id = match cmp id (hs_blockId state) with Eq => Some (set_revision r state) | _ => get_state f id end).
  { intros id. unfold g, get_state. cbn. rewrite find_assign. unfold get_state in Hst. by rewrite Hst. }
  destruct (Hcb (hs_blockId state) g (set_revision r state)) as (_ & _ & _ & _ & _ & _ & _ & Hk & _); [by rewrite Hg, cmp_refl|]. apply Hk. clear Hk.
  assert (Hi : forall id s', get_state g id = Some s' -> exists s, get_state f id = Some s /\ hs_info s' = hs_info s /\
    (hs_revision s' = hs_revision s \/ s = state)).
  { intros id s'. rewrite Hg. destruct (cmp id _) eqn:Ec; [|by exists s'; eauto..]. apply cmp_eq in Ec as ->. intros [= <-]. exists state. by eauto. }
  assert (Hex : forall x, executed f x -> executed g x).
  { intros x (s & E & Hr). destruct (cmp x (hs_blockId state)) eqn:Ec; [exists (set_revision r state)|exists s..]; by rewrite Hg, Ec. }
  destruct Hc as [H1 H2 H3]. constructor.
  - intros id s p (s0 & E0 & I0 & _)%Hi (p0 & Ep0 & Ip & _)%Hi. unfold order, hs_header, hs_blockNum, hs_blockId, hs_header in *. rewrite I0, Ip in *. by eapply H1.
  - intros id s (s0 & E0 & I0 & R0)%Hi Hr [p (p0 & Ep0 & _)%Hi]. unfold hs_header in *. rewrite I0 in *. destruct R0 as [R0| ->]; [|by apply Hex].
    rewrite R0 in Hr. by eapply Hex, H2.
  - intros id s He (s0 & E0 & I0 & _)%Hi. unfold hs_header in *. rewrite I0. destruct (H3 id s0 He E0) as [?|[?|Hn]]; [by left|by eauto|].
    right. right. rewrite Hg. destruct (cmp _ _) eqn:Ec; [|done..]. apply cmp_eq in Ec. rewrite Ec in Hn. congruence.
Qed.

Lemma execute_fork_connected : callback_ok -> forall entries f n prev good f', tree_ok f -> connected f -> executed f prev -> path f n prev entries ->
  execute_fork f prev entries = Ok (good, f') ->
  connected f' /\ (good = false -> entry_of (byOrderIndex f) (last_id prev entries) -> ~ entry_of (byOrderIndex f') (last_id prev entries)).
Proof.
  intros Hcb. induction entries as [|[num id] entries IH]; intros f n prev good f' Ht Hc Hp Hpath E; cbn [execute_fork] in E; [by injection E as <- <-|].
  destruct Hpath as (-> & (s & Es & En & Hprev) & Hpath). pose proof (proj2 (tree_states _ Ht) _ _ Es) as Hid.
  pose proof Hp as (p & Ep & Hpr). unfold assert in E. rewrite Ep, Es in E. cbn [mbind result_bind] in E. apply bind_ok in E as ([g f1] & Eb & E).
  rewrite last_id_cons. cbn [snd]. assert (Es' : get_state f (hs_blockId s) = Some s) by by rewrite Hid.
  destruct (execute_block_spec _ _ _ _ _ Hcb (tree_states _ Ht) Es' Eb) as (Hs & _ & _ & Hf & Hr & _ & _).
  destruct (execute_block_connected _ _ _ _ _ Hcb Hc Es' ltac:(by rewrite Hprev) Eb) as [Hc1 Hnone]. destruct g.
  - destruct (Hr eq_refl) as (s1 & Es1 & Hr1). rewrite Hid in Es1. rewrite Es1 in E. cbn [mbind result_bind] in E. set (f2 := set_sharedHead _ _) in E.
    assert (Hs2 : same_tree f f2) by (destruct Hs; by constructor). assert (Hc2 : connected f2) by (destruct Hc1; by constructor).
    assert (Ht2 : tree_ok f2) by by apply (tree_ok_same f).
    destruct (IH f2 (n + 1) id good f') as [IH1 IH2]; try done; [by exists s1|by eapply path_same|]. split; [done|]. intros -> _ He.
    destruct (execute_fork_spec Hcb entries f2 id false f') as (Hs' & _); [apply Ht2..|by exists s1|done|].
    apply IH2; [done| |done]. by apply (entry_of_sublist _ _ _ (same_order _ _ Hs')).
  - rewrite Hf in * by done. injection E as <- <-. set (fb := set_byBlocknum _ f).
    assert (Hsb : same_tree f fb) by (constructor; try done; apply Ht). assert (Htb : tree_ok fb) by by apply (tree_ok_same f).
    apply (path_same _ _ _ _ _ Hsb) in Hpath. assert (Hcb' : connected fb) by (destruct Hc; by constructor).
    pose proof (blacklist_subtree_connected fb s Htb Es' Hcb') as Hc'. split; [destruct Hc'; by constructor|]. intros _ He.
    destruct (unexecuted_entries fb entries (n + 1) id) as [He1 He2]; try done.
    { intros (s' & E' & Hr'). change (get_state f id = Some s') in E'. rewrite Es in E'. injection E' as <-. rewrite Hnone in Hr' by done. by destruct Hr'. }
    pose proof (connected_ordered _ Hcb') as Hob.
    exact (blacklisted_path fb s entries (n + 1) id Htb Hob Es' Hpath He1 He2 (proj1 (blacklist_subtree_entries fb s id s Htb Hob Es' He1 Es) (eq_sym Hid))).
Qed.

(** No assertion fails while the blocks of a chain are executed. *)
Lemma execute_fork_total : callback_ok -> forall entries f n prev, states_ok f -> executed f prev -> path f n prev entries ->
  Forall (fun e => is_Some (find e.2 (f_blocks f))) entries -> exists good f', execute_fork f prev entries = Ok (good, f').
Proof.
  intros Hcb. induction entries as [|[num id] entries IH]; intros f n prev Ho (p & Ep & [pr Hpr]) Hpath Hb; cbn [execute_fork]; [by eauto|].
  destruct Hpath as (-> & (s & Es & En & Hprev) & Hpath). pose proof (proj2 Ho _ _ Es) as Hid. apply Forall_cons in Hb as [[b Eb] Hb].
  unfold assert. rewrite Ep, Es. cbn [mbind result_bind]. assert (Es' : get_state f (hs_blockId s) = Some s) by by rewrite Hid.
  destruct (execute_block f p s) as [[g f1]|] eqn:E.
  2:{ unfold execute_block, assert in E. rewrite Hpr, Hid in E. cbn in Eb. rewrite Eb in E. cbn in E. by destruct (hs_revision s), (claim ← _; _). }
  cbn [mbind result_bind]. destruct g; [|by do 2 eexists]. destruct (execute_block_spec _ _ _ _ _ Hcb Ho Es' E) as (Hs & _ & _ & _ & Hr & _).
  destruct (Hr eq_refl) as (s1 & Es1 & Hr1). rewrite Hid in Es1. rewrite Es1. cbn [mbind result_bind]. apply (IH _ (n + 1)).
  - by apply (same_tree_states_ok f f1).
  - by exists s1.
  - eapply (path_same f); [|done]. by destruct Hs.
  - cbn. by rewrite (same_blocks _ _ Hs).
Qed.

Lemma path_blocks f n id l : tree_ok f -> path f n id l -> commitIndex f <= n -> Forall (fun e => is_Some (find e.2 (f_blocks f))) l.
Proof.
  intros Ht. revert n id. induction l as [|[m x] l IH]; intros n id; [by constructor|]. intros (-> & (s & Es & En & _) & Hp) Hc. constructor; [|apply (IH (n + 1) x); [done|lia]].
  destruct (tree_parent _ Ht _ _ Es ltac:(lia)) as (_ & b & _ & _ & Eb & _). by exists b.
Qed.

Lemma trySetHead_spec f nh :
  callback_ok -> tree_ok f -> chain_ok f -> get_state f (hs_blockId nh) = Some nh -> trySetHead f nh = consensus_failure \/
  exists good f', trySetHead f nh = Ok (good, f') /\ same_tree f f' /\ chain_ok f' /\
    (forall num, num <= commitIndex f -> find num (byBlocknumIndex f') = find num (byBlocknumIndex f)) /\
    (good = true -> f_head f' = hs_blockId nh) /\
    (connected f -> connected f' /\ (good = false -> entry_of (byOrderIndex f) (hs_blockId nh) -> ~ entry_of (byOrderIndex f') (hs_blockId nh))).
Proof.
  intros Hcb Ht Hch Enh. destruct (decide (f_head f = hs_blockId nh)) as [Heq|Hne].
  { right. exists true, f. unfold trySetHead. rewrite bool_decide_eq_true_2 by done. split_and!; try done. apply same_tree_refl, Ht. }
  rewrite trySetHead_eq by done.
  destruct (trySetHead_index f nh Ht Hch Enh) as [->|(n & id & k & old & entries & Ei & Hn & Hp & Hnc & Hck & Hl & ->)]; [by left|right]. cbn [mbind result_bind].
  pose proof Hch as [(n0 & id0 & l0 & Ei0 & _ & Hp0 & _) Hex _]. rewrite Ei in Ei0. injection Ei0 as <- <- <-. unfold run_fork.
  set (g := set_byBlocknum _ _). assert (Hg : same_tree f g) by (constructor; try done; apply Ht). pose proof (tree_ok_same _ _ Hg Ht) as Htg.
  assert (Hcommon : executed g (last_id id k)).
  { apply (Hex (last_id id k)). rewrite Ei. apply list_elem_of_In, in_map_iff. exists (n + Z.of_nat (length k), last_id id k). split; [done|].
    change ((n, id) :: k ++ old) with (((n, id) :: k) ++ old). apply in_app_iff. left. apply list_elem_of_In.
    apply path_app_iff in Hp as [Hpk _]. apply last_path in Hpk. apply last_Some in Hpk as [l' ->]. apply elem_of_app. right. by constructor. }
  pose proof Hp as [_ Hpe]%path_app_iff. assert (Hpg : path g (n + Z.of_nat (length k)) (last_id id k) entries) by by apply (path_same f).
  destruct (execute_fork_total Hcb entries g _ (last_id id k) (tree_states _ Htg) Hcommon Hpg (path_blocks g _ _ _ Htg Hpg Hck)) as (good & f1 & Ef).
  rewrite Ef. cbn [mbind result_bind].
  destruct (execute_fork_spec Hcb entries g (last_id id k) good f1) as (Hs & Hkeep & Hr); [apply Htg..|done|done|].
  assert (Hcon : connected f -> connected f1 /\ (good = false -> entry_of (byOrderIndex f) (hs_blockId nh) -> ~ entry_of (byOrderIndex f1) (hs_blockId nh))).
  { intros Hc. rewrite <- Hl. apply (execute_fork_connected Hcb entries g (n + Z.of_nat (length k)) (last_id id k) good f1 Htg); try done. by destruct Hc. }
  pose proof (same_tree_trans _ _ _ Hg Hs) as Hs1.
  assert (Hkx : forall x, x ∈ map snd ((n, id) :: k) -> exists s, get_state f1 x = Some s /\ is_Some (hs_revision s)).
  { intros x Hx. destruct (Hex x) as (s & Es & Hrs); [rewrite Ei; change ((n, id) :: k ++ old) with (((n, id) :: k) ++ old); rewrite map_app; apply elem_of_app; by left|]. by eapply Hkeep. }
  clear Ef. exists good. destruct good.
  - destruct Hr as (_ & Hi & Hfa & Hcu). assert (Hs2 : same_tree f (set_head (hs_blockId nh) f1)) by by destruct Hs1. exists (set_head (hs_blockId nh) f1).
    assert (Hnh : executed f1 (hs_blockId nh)).
    { rewrite <- Hl. destruct (last entries) as [e|] eqn:El; unfold last_id at 1; rewrite El; [|destruct Hcommon as (c & Ec & Hrc); by apply (Hkeep _ c)].
      rewrite Forall_forall in Hfa. apply Hfa. apply last_Some in El as [l' ->]. apply elem_of_app. right. by constructor. }
    destruct Hnh as (s & Es & Hrs). rewrite Es, bool_decide_eq_true_2 by done. split_and!; try done.
    + eapply new_chain; [exact Hs2|exact Hn|exact Hp|done|exact Hi|done|exact Hkx|exact Hfa|].
      specialize (Hcu _ (up_to_same _ _ _ _ Hg (up_to_path _ _ _ _ _ Hp))). rewrite length_app in *. cbn in *. lia.
    + intros num Hnum. cbn. rewrite Hi, Ei. unfold g. cbn [byBlocknumIndex set_byBlocknum]. rewrite !(find_prefix f) by (done || lia). done.
    + intros Hc. destruct (Hcon Hc) as [Hc1 _]. split; [by destruct Hc1|done].
  - destruct Hr as (l1 & num & x & l2 & -> & Hi & Hhd & Hfa & Hcu). unfold g in Hi. cbn [byBlocknumIndex set_byBlocknum] in Hi.
    rewrite app_assoc in Hp, Hi. pose proof Hp as [Hp1 (Enum & _)]%path_app_iff. exists f1.
    subst num. rewrite (path_before f) in Hi by done. split_and!; try done.
    + eapply new_chain; [exact Hs1|exact Hn|exact Hp1|done|exact Hi|done|exact Hkx|exact Hfa|].
      specialize (Hcu _ (up_to_same _ _ _ _ Hg (up_to_path _ _ _ _ _ Hp1))). rewrite length_app in *. cbn in *. lia.
    + intros m Hm. rewrite Hi, Ei, !(find_prefix f) by (done || lia). done.
Qed.

Lemma trySetHead_info f a b : hs_info a = hs_info b -> trySetHead f a = trySetHead f b.
Proof. intros E. unfold trySetHead, hs_blockId, hs_blockNum, hs_header. by rewrite E. Qed.

(** No viable block is better than [o]. *)
Definition best_order (f : ForkDb) (o : Order) : Prop :=
  forall e, e ∈ byOrderIndex f -> below_order (u32 (currentTerm f + 1), 0, zero_hash) e = true -> e.1 = o \/ below e.1 o.

Lemma best_block_spec f o id : map_ok (byOrderIndex f) -> best_block f = Some (o, id) -> (o, id) ∈ byOrderIndex f /\ best_order f o.
Proof.
  unfold best_block, best_order. set (p := below_order _). intros Hs [l Hl]%last_Some.
  assert (Hin : forall e, e ∈ byOrderIndex f -> p e = true -> e ∈ l ++ [(o, id)]).
  { intros e He Hp. rewrite <- Hl. apply list_elem_of_In, filter_In. split; [by apply list_elem_of_In|done]. }
  split.
  - assert (H : (o, id) ∈ List.filter p (byOrderIndex f)) by (rewrite Hl; apply elem_of_app; right; by constructor).
    by apply list_elem_of_In, filter_In in H as [H%list_elem_of_In _].
  - intros e He Hp. destruct (proj1 (elem_of_app _ _ _) (Hin e He Hp)) as [H|H]; [right|left; by apply list_elem_of_singleton in H as ->].
    apply (filter_ok p) in Hs. rewrite Hl, map_app in Hs. apply sorted_app in Hs as (_ & _ & Hb). apply Hb; [|by constructor].
    apply list_elem_of_In, in_map. by apply list_elem_of_In.
Qed.
Lemma best_order_same f f' o : same_tree f f' -> best_order f o -> best_order f' o.
Proof. intros Hs Hb e He. rewrite (same_term _ _ Hs). apply Hb. eapply elem_of_sublist; [done|apply Hs]. Qed.

(** What a switch to a better fork gives. *)
Record switched (f f' : ForkDb) : Prop := {
  switched_tree : same_tree f f';
  switched_chain : chain_ok f';
  switched_irreversible num : num <= commitIndex f -> find num (byBlocknumIndex f') = find num (byBlocknumIndex f);
  switched_best : f_blockContext f = None -> exists o, (o, f_head f') ∈ byOrderIndex f /\ best_order f' o
}.

Lemma switch_pending f orig r :
  callback_ok -> tree_ok f -> chain_ok f -> hs_info <$> get_state f (hs_blockId orig) = Some (hs_info orig) -> f_blockContext f <> None ->
  r = (if bool_decide (f_head f = hs_blockId orig) then Ok f else '(good, f) ← trySetHead f orig; check good "assertion failed" ;; Ok f) ->
  forall f', r = Ok f' -> switched f f'.
Proof.
  intros Hcb Ht Hc Ho Hb -> f' E. case_bool_decide.
  { ok_inv. constructor; try done. apply same_tree_refl, Ht. }
  apply bind_ok in E as ([good f1] & E1 & E). destruct (get_state f (hs_blockId orig)) as [s|] eqn:Es; [|done]. injection Ho as Ho.
  rewrite <- (trySetHead_info f s orig Ho) in E1. ok_inv. assert (Hids : hs_blockId s = hs_blockId orig) by (unfold hs_blockId; by rewrite Ho).
  rewrite <- Hids in Es. destruct (trySetHead_spec _ _ Hcb Ht Hc Es) as [E|(good' & f2 & E & H1 & H2 & H3 & _)]; rewrite E1 in E; [done|].
  injection E as <- <-. by constructor.
Qed.

Lemma sublist_drops {A} (l l' : list A) x : l' `sublist_of` l -> x ∈ l -> x ∉ l' -> (length l' < length l)%nat.
Proof.
  induction 1 as [|y l1 l2 Hs IH|y l1 l2 Hs IH]; cbn; [by intros ?%elem_of_nil| |].
  - intros [->|Hx]%elem_of_cons [Hy Hn]%not_elem_of_cons; [done|]. specialize (IH Hx Hn). lia.
  - intros _ _. pose proof (sublist_length _ _ Hs). lia.
Qed.

Lemma switch_loop_spec : callback_ok -> forall fuel f orig,
  tree_ok f -> chain_ok f -> connected f -> hs_info <$> get_state f (hs_blockId orig) = Some (hs_info orig) -> (length (byOrderIndex f) <= fuel)%nat ->
  exists r, switch_loop fuel f orig = Some r /\ (forall f', r = Ok f' -> switched f f') /\
    (f_blockContext f = None -> r = consensus_failure \/ exists f', r = Ok f').
Proof.
  intros Hcb. induction fuel as [fuel IH] using lt_wf_ind. intros f orig Ht Hc Hco Ho Hv. rewrite switch_loop_eq.
  destruct (best_block f) as [[o id]|] eqn:Eb; [|exists consensus_failure; split_and!; [done|done|by left]].
  destruct (best_block_spec f o id (tree_order _ Ht) Eb) as [Hin Hbest]. destruct (tree_viable _ Ht _ _ Hin) as (nh & Enh & <-). rewrite Enh.
  pose proof (proj2 (tree_states _ Ht) _ _ Enh) as Hid. subst id. destruct (keep_pending f orig nh) eqn:Ek.
  { assert (Hpn : f_blockContext f <> None) by (unfold keep_pending in Ek; by destruct (f_blockContext f)).
    eexists. split; [done|]. split; [|done]. by apply (switch_pending f orig). }
  destruct (trySetHead_spec _ _ Hcb Ht Hc Enh) as [->|([] & f1 & -> & H1 & H2 & H3 & H4 & H5)]; [exists consensus_failure; split_and!; [done|done|by left]|..].
  - eexists. split; [done|]. split; [|by eauto]. intros f' [= <-]. constructor; try done. intros _. exists (order nh). rewrite H4 by done. split; [done|by eapply best_order_same].
  - destruct (H5 Hco) as [Hc1 Hout]. specialize (Hout eq_refl ltac:(by eexists)).
    assert (Hlt : (length (byOrderIndex f1) < length (byOrderIndex f))%nat).
    { eapply sublist_drops; [apply H1|exact Hin|]. intros Hin1. apply Hout. by eexists. }
    destruct fuel as [|fuel]; [lia|]. destruct (IH fuel ltac:(lia) f1 orig) as (r & -> & Hr & Hf); [by eapply tree_ok_same|done|done| |lia|].
    { by rewrite (same_info _ _ H1). }
    rewrite (same_pending _ _ H1) in Hf. exists r. split; [done|]. split; [|done]. intros f' E'. destruct (Hr f' E') as [S1 S2 S3 S4]. pose proof (same_commit _ _ H1).
    constructor; [by eapply same_tree_trans|done| |].
    + intros num Hn. rewrite S3, H3 by lia. done.
    + rewrite (same_pending _ _ H1) in S4. intros Hp. destruct (S4 Hp) as (o & Ho1 & Ho2). exists o. split; [|done].
      eapply elem_of_sublist; [done|apply H1].
Qed.

(** C2: Switching forks terminates when the tree of blocks is well formed, viable
    blocks are connected to executed ones, and the callback of the consensus
    algorithm only advances the irreversible block and narrows the subtree: every
    attempt that fails takes its head out of the index, so that
    [async_switch_fork] makes no more attempts than there are viable blocks, also
    without assertions.  If no block is being produced it succeeds or ends in a
    consensus failure, never in a failed assertion.  When it succeeds, the head is
    the best viable block (if no block is being produced), the index by block
    number is the contiguous chain of executed blocks that ends at the head, and
    no entry up to the irreversible block has changed. *)
Theorem switch_fork_correct f :
  callback_ok -> tree_ok f -> chain_ok f -> connected f ->
  exists r, switch_fork f = Some r /\ (forall f', r = Ok f' -> switched f f') /\
    (f_blockContext f = None -> r = consensus_failure \/ exists f', r = Ok f').
Proof.
  intros Hcb Ht Hc Hco. unfold switch_fork. destruct (chain_commit _ Hc) as (h & Eh & _). rewrite Eh.
  apply switch_loop_spec; try done. by rewrite (proj2 (tree_states _ Ht) _ _ Eh), Eh.
Qed.

(** ** A block that skips a number *)

(** Searching the best chain one block too low never meets it. *)
Lemma replace_entries_shifted f n id0 l : forall p repl,
  (forall x q, get_prev_id f x = Ok q -> q <> x) -> (forall e, e ∈ (n, id0) :: l -> exists q, get_prev_id f e.2 = Ok q) ->
  (forall m x, (m, x) ∈ l -> commitIndex f < m -> forall s q, get_state f x = Some s -> get_prev_id f x = Ok q -> q = hs_previous s) ->
  path f n id0 l -> n <= commitIndex f -> get_prev_id f (last_id id0 l) = Ok p -> replace_entries f (rev ((n, id0) :: l)) p repl = consensus_failure.
Proof.
  induction l as [|[m x] l IH] using rev_ind; intros p repl Hirr Hk Hprev Hp Hn E.
  - cbn in E |- *. rewrite bool_decide_eq_false_2 by (intros <-; by apply Hirr in E). by rewrite (proj2 (Z.leb_le _ _)) by lia.
  - change ((n, id0) :: l ++ [(m, x)]) with (((n, id0) :: l) ++ [(m, x)]). rewrite rev_app_distr. cbn [rev app]. cbn [replace_entries].
    rewrite <- last_id_app in E. cbn in E. apply path_app_iff in Hp as [Hp (-> & (s & Es & _ & Hs) & _)].
    rewrite bool_decide_eq_false_2 by (intros <-; by apply Hirr in E). destruct (_ <=? commitIndex f) eqn:Ec; [done|]. zbool.
    assert (p = last_id id0 l) as ->.
    { rewrite <- Hs. eapply Hprev; [|exact Ec|done|done]. apply elem_of_app. right. by constructor. }
    destruct (Hk (n + Z.of_nat (length l), last_id id0 l)) as [q Eq].
    { change ((n, id0) :: l ++ [(n + Z.of_nat (length l) + 1, x)]) with (((n, id0) :: l) ++ [(n + Z.of_nat (length l) + 1, x)]). apply elem_of_app. left.
      pose proof (last_path _ _ _ _ Hp) as [l' ->]%last_Some. apply elem_of_app. right. by constructor. }
    cbn [snd] in Eq. rewrite Eq. cbn [mbind result_bind]. apply (IH q); try done.
    + intros e He. apply Hk. change ((n, id0) :: l ++ [(n + Z.of_nat (length l) + 1, x)]) with (((n, id0) :: l) ++ [(n + Z.of_nat (length l) + 1, x)]).
      apply elem_of_app. by left.
    + intros m' x' Hin. apply Hprev. apply elem_of_app. by left.
Qed.

(** The states and blocks of [f] are those of [f'], and the best chain is the same. *)
Record grows (f f' : ForkDb) : Prop := {
  grows_states id s : get_state f id = Some s -> get_state f' id = Some s;
  grows_blocks id b : find id (f_blocks f) = Some b -> find id (f_blocks f') = Some b;
  grows_head : f_head f' = f_head f;
  grows_index : byBlocknumIndex f' = byBlocknumIndex f;
  grows_commit : commitIndex f <= commitIndex f'
}.
Lemma chain_ok_grows f f' : grows f f' -> chain_ok f -> (forall s, get_state f (f_head f) = Some s -> commitIndex f' <= hs_blockNum s) -> chain_ok f'.
Proof.
  intros [Hs _ Hh Hi Hcm] [(n & i0 & l & Ei & Hn & Hp & Hnc & Hl) Hex (h & Eh & Hch)] Hcom.
  constructor; rewrite ?Hi, ?Hh; [|intros x Hx; destruct (Hex x Hx) as (t & Et & Hr); eauto|eauto].
  exists n, i0, l. split_and!; try done; [destruct Hn as (t & Et & Hn); exists t; eauto| |lia]. clear - Hp Hs. revert n i0 Hp.
  induction l as [|[m x] l IH]; intros n i0; cbn; [done|]. intros (-> & (t & Et & ?) & ?). eauto 10.
Qed.

(** The head of a switch to a block two above the head. *)
Lemma trySetHead_skipped f nh h p :
  chain_ok f -> f_head f <> hs_blockId nh -> get_state f (f_head f) = Some h -> hs_blockNum nh = hs_blockNum h + 2 ->
  get_prev_id f (hs_blockId nh) = Ok (f_head f) -> get_prev_id f (f_head f) = Ok p ->
  (forall x q, get_prev_id f x = Ok q -> q <> x) -> (forall e, e ∈ byBlocknumIndex f -> exists q, get_prev_id f e.2 = Ok q) ->
  (forall x s, get_state f x = Some s -> x <> hs_blockId nh -> commitIndex f < hs_blockNum s -> get_prev_id f x = Ok (hs_previous s)) ->
  (forall m x, (m, x) ∈ byBlocknumIndex f -> x <> hs_blockId nh) ->
  trySetHead f nh = consensus_failure.
Proof.
  intros [(n & id0 & l & Ei & Hn & Hp & Hnc & Hh) _ _] Hne Eh Hnum E1 E2 Hirr Hk Hprev Hidx. unfold trySetHead.
  rewrite bool_decide_eq_false_2 by done. unfold head_state, assert. rewrite Eh. cbn [mbind result_bind].
  rewrite (proj2 (Z.ltb_ge (hs_blockNum nh) (hs_blockNum h))) by lia. cbn [andb negb check mbind result_bind].
  replace (Z.to_nat (hs_blockNum nh - hs_blockNum h)) with 2%nat by lia. cbn [push_entries]. rewrite E1. cbn [mbind result_bind]. rewrite E2. cbn [mbind result_bind].
  rewrite Z.min_r by lia. destruct (path_end _ _ _ _ Hn Hp) as (h' & Eh' & Hnum'). cbn in Eh', Hnum'. rewrite Hh, Eh in Eh'. injection Eh' as <-.
  pose proof (path_entries_to f n id0 l []) as Het. rewrite app_nil_r, <- Hnum' in Het. rewrite Ei in Hk |- *. rewrite Het by done.
  rewrite (replace_entries_shifted f n id0 l p []); try done; [|by rewrite Hh].
  intros m x Hin Hm s q Es Eq. assert (Hms : hs_blockNum s = m).
  { apply list_elem_of_split in Hin as (l1 & l2 & ->). apply path_app_iff in Hp as [_ (-> & (s' & Es' & Hs' & _) & _)]. congruence. }
  rewrite (Hprev x s) in Eq; [congruence|done|apply (Hidx m); rewrite Ei; by constructor|lia].
Qed.

(** A new entry that is better than all others of the current term. *)
Lemma best_block_emplace f g o id : map_ok (byOrderIndex f) -> currentTerm g = currentTerm f -> byOrderIndex g = emplace o id (byOrderIndex f) ->
  below_order (u32 (currentTerm f + 1), 0, zero_hash) (o, id) = true ->
  (forall e, e ∈ byOrderIndex f -> below_order (u32 (currentTerm f + 1), 0, zero_hash) e = true -> below e.1 o) -> best_block g = Some (o, id).
Proof.
  intros Hok Ht Ei Hnew Hbest.
  assert (Hin : forall x y, (x, y) ∈ byOrderIndex g <-> (x, y) = (o, id) \/ (x, y) ∈ byOrderIndex f).
  { intros x y. rewrite Ei. apply emplace_elem; [done|]. intros v Hv. apply Hbest in Hv; [by apply below_irrefl in Hv|done]. }
  destruct (best_block g) as [[o' id']|] eqn:E.
  - assert (Hp : below_order (u32 (currentTerm f + 1), 0, zero_hash) (o', id') = true).
    { unfold best_block in E. rewrite Ht in E. apply last_Some in E as [l El].
      assert (H : (o', id') ∈ List.filter (below_order (u32 (currentTerm f + 1), 0, zero_hash)) (byOrderIndex g)) by (rewrite El; apply elem_of_app; right; by constructor).
      by apply list_elem_of_In, filter_In in H as [_ H]. }
    destruct (best_block_spec g o' id') as [H1 H2]; [rewrite Ei; by apply emplace_ok|done|]. apply Hin in H1 as [H1|H1]; [by rewrite H1|].
    destruct (H2 (o, id)) as [Ho|Ho]; [apply Hin; by left|by rewrite Ht|cbn in Ho; subst o'|cbn in Ho].
    + apply Hbest in H1; [by apply below_irrefl in H1|done].
    + apply Hbest in H1; [|done]. cbn in H1. exfalso. apply (below_irrefl o). by etrans.
  - exfalso. unfold best_block in E. rewrite Ht in E. apply last_None in E.
    assert (H : (o, id) ∈ List.filter (below_order (u32 (currentTerm f + 1), 0, zero_hash)) (byOrderIndex g)).
    { apply list_elem_of_In, filter_In. split; [apply list_elem_of_In, Hin; by left|done]. }
    rewrite E in H. by apply elem_of_nil in H.
Qed.

Section skipped.
(** A valid head [h] above the irreversible block, and a block [b] on it that is
    signed by a producer and is better than every viable block. *)
Context (f : ForkDb) (b : SignedHeader) (h s : BlockHeaderState) (claim : Claim).
Abbreviation info := (info_of (sh_header b)).
Abbreviation id := (i_blockId info).
Hypothesis tree : tree_ok f.
Hypothesis chain : chain_ok f.
Hypothesis not_producing : f_blockContext f = None.
Hypothesis head : get_state f (f_head f) = Some h.
Hypothesis head_viable : hs_invalid h = false /\ find (order h) (byOrderIndex f) = Some (f_head f).
Hypothesis reversible : commitIndex f < hs_blockNum h.
Hypothesis on_head : h_previous (sh_header b) = f_head f.
Hypothesis unknown : find id (f_blocks f) = None /\ get_state f id = None.
Hypothesis signed : validateBlockSignature h info (sh_signature b) = Ok claim.
Hypothesis next : next_state sha256 h info None = Ok s.
Hypothesis in_term : below_order (u32 (currentTerm f + 1), 0, zero_hash) (order s, id) = true.
Hypothesis better : forall e, e ∈ byOrderIndex f -> below_order (u32 (currentTerm f + 1), 0, zero_hash) e = true -> below e.1 (order s).
(** The node has the blocks of its best chain, and no block is its own parent. *)
Hypothesis known : forall e, e ∈ byBlocknumIndex f -> exists q, get_prev_id f e.2 = Ok q.
Hypothesis no_loop : forall x q, get_prev_id f x = Ok q -> q <> x.

Lemma insert_on_head : hs_blockNum h < h_blockNum (sh_header b) -> insert f b =
  (set_byOrder (emplace (order s) id (byOrderIndex f)) (set_states (emplace id s (f_states f)) (set_blocks (emplace id b (f_blocks f)) f)), Ok (Some id, true)).
Proof using head head_viable next on_head reversible signed unknown.
  intros Hn. unfold insert. destruct unknown as [U1 U2]. destruct head_viable as [V1 V2]. rewrite (proj2 (Z.leb_gt _ _)) by (cbn; lia). rewrite U1.
  change (h_previous (i_header info)) with (h_previous (sh_header b)). rewrite on_head, head, signed, next.
  rewrite bool_decide_eq_false_2; [|change (~ is_Some (get_state f id)); rewrite U2; by intros [? ?]]. rewrite V1. cbn [byOrderIndex set_states set_blocks].
  by rewrite V2.
Qed.

(** C37: [insert] does not check that a block is one higher than its parent.  When a
    producer signs a block on the head whose number is two higher and which is
    better by term and number than every viable block, [insert] accepts it as a
    new block, and the fork switch that follows throws [consensus_failure]: the
    node stops.  (The head is valid and above the irreversible block, no block is
    being produced, the node has the blocks of its best chain, and no block is its
    own parent.) *)
Theorem skipped_number_stops_node :
  h_blockNum (sh_header b) = hs_blockNum h + 2 ->
  (insert f b).2 = Ok (Some id, true) /\ switch_fork (insert f b).1 = Some consensus_failure.
Proof using All.
  intros Hnum. rewrite insert_on_head by lia. split; [done|]. cbn [fst]. set (f' := set_byOrder _ _). destruct unknown as [Hbn Hgn].
  pose proof (next_state_info _ _ _ _ _ next) as Hi. pose proof (proj1 (tree_states _ tree)) as Hso. pose proof (tree_blocks _ tree) as Hbo.
  assert (Hst : forall x, get_state f' x = match cmp x id with Eq => Some s | _ => get_state f x end) by (intros x; by apply find_emplace_new).
  assert (Hold : forall x t, get_state f x = Some t -> get_state f' x = Some t).
  { intros x t E. rewrite Hst. destruct (cmp x id) eqn:Ec; [|done..]. apply cmp_eq in Ec as ->. congruence. }
  assert (Hbl : forall x, find x (f_blocks f') = match cmp x id with Eq => Some b | _ => find x (f_blocks f) end) by (intros x; by apply find_emplace_new).
  assert (Hhid : f_head f <> id) by congruence. assert (Hsid : hs_blockId s = id) by (unfold hs_blockId; by rewrite Hi).
  assert (Hget : forall x, x <> id -> get_prev_id f' x = get_prev_id f x).
  { intros x Hx. unfold get_prev_id, get, head_log. rewrite Hbl, (cmp_ne x id) by done. change (f_head f') with (f_head f). rewrite Hst, (cmp_ne _ id) by done. done. }
  assert (Hpid : get_prev_id f' id = Ok (f_head f)) by (unfold get_prev_id, get; by rewrite Hbl, cmp_refl, <- on_head).
  assert (Hpr : forall x t, get_state f x = Some t -> commitIndex f < hs_blockNum t -> get_prev_id f' x = Ok (hs_previous t)).
  { intros x t E Hx. rewrite Hget by congruence. by apply get_prev_id_spec. }
  assert (Hin : forall e, e ∈ byBlocknumIndex f -> e.2 <> id).
  { intros [m x] He. destruct (chain_executed _ chain x) as (t & Et & _); [|intros Hx; change (x = id) in Hx; congruence]. apply list_elem_of_In, in_map_iff. exists (m, x). split; [done|by apply list_elem_of_In]. }
  assert (Hc' : chain_ok f').
  { apply (chain_ok_grows f); [|done|rewrite head; intros ? [= <-]; cbn; lia]. constructor; try done.
    intros x t. rewrite Hbl. destruct (cmp x id) eqn:Ec; [apply cmp_eq in Ec as ->; congruence|done..]. }
  unfold switch_fork. change (f_head f') with (f_head f). rewrite (Hold _ _ head), switch_loop_eq.
  rewrite (best_block_emplace f f' (order s) id) by (done || apply tree). rewrite Hst, cmp_refl. unfold keep_pending. change (f_blockContext f') with (f_blockContext f). rewrite not_producing.
  rewrite (trySetHead_skipped f' s h (hs_previous h)); try done; rewrite ?Hsid; try done; cbn [f_head f' set_byOrder set_states set_blocks]; eauto.
  - unfold hs_blockNum, hs_header. by rewrite Hi.
  - intros x q Hq. destruct (decide (x = id)) as [->|Hx]; [rewrite Hpid in Hq; by injection Hq as <-|]. rewrite Hget in Hq by done. by apply no_loop.
  - intros e He. rewrite Hget by by apply Hin. by apply known.
  - intros x t. rewrite Hst. destruct (cmp x id) eqn:Ec; [apply cmp_eq in Ec as ->; done|eauto..].
  - intros m x Hx. by apply (Hin (m, x)).
Qed.
End skipped.

(** ** The viable subtree *)

(** [id] descends from [root] through blocks that satisfy [P]. *)
Inductive descends (f : ForkDb) (P : Checksum256 -> Prop) (root : Checksum256) : Checksum256 -> Prop :=
  | descends_root : P root -> descends f P root root
  | descends_step id s : P id -> get_state f id = Some s -> descends f P root (hs_previous s) -> descends f P root id.

Definition valid_block (f : ForkDb) (id : Checksum256) : Prop := exists s, get_state f id = Some s /\ hs_invalid s = false.
(** The blocks among which [set_subtree] chooses. *)
Definition candidate (f : ForkDb) (root : BlockHeaderState) (id : Checksum256) : Prop :=
  match find (order root) (byOrderIndex f) with Some _ => entry_of (byOrderIndex f) id | None => valid_block f id end.

Lemma descends_P f P root id : descends f P root id -> P id.
Proof. by destruct 1. Qed.
Lemma descends_proper f P Q root id : (forall x, P x <-> Q x) -> descends f P root id <-> descends f Q root id.
Proof.
  intros HPQ. split; induction 1 as [Hr|x s Hx Es _ IH]; try (by constructor; apply HPQ); (eapply descends_step; [by apply HPQ|done|done]).
Qed.

Section prune.
Context (f : ForkDb) (root : Checksum256) (base : omap Order Checksum256).
Hypothesis base_ordered : ordered f.
Hypothesis base_ok : map_ok base.
Hypothesis base_states : forall o id, (o, id) ∈ base -> exists s, get_state f id = Some s /\ order s = o.

(** The parent of a candidate is among the entries before it. *)
Lemma parent_before dn o id rest s p : base = dn ++ (o, id) :: rest -> get_state f id = Some s -> entry_of base (hs_previous s) ->
  get_state f (hs_previous s) = Some p -> entry_of dn (hs_previous s).
Proof using base_ok base_ordered base_states.
  intros Hd Es [op Hp] Ep. destruct (base_states _ _ Hp) as (p' & Ep' & <-). rewrite Ep in Ep'. injection Ep' as <-.
  pose proof (base_ordered _ _ _ Es Ep) as Hb. destruct (base_states o id) as (s' & Es' & <-); [rewrite Hd; apply elem_of_app; right; by constructor|].
  rewrite Es in Es'. injection Es' as <-. pose proof base_ok as Hok. rewrite Hd, map_app in Hok. cbn [map fst] in Hok.
  apply sorted_app in Hok as (_ & [_ Hl]%sorted_cons & _). rewrite Hd in Hp. apply elem_of_app in Hp as [Hp|[Heq|Hp]%elem_of_cons]; [by eexists| |].
  - exfalso. apply (f_equal fst) in Heq. cbn [fst] in Heq. rewrite Heq in Hb. by apply below_irrefl in Hb.
  - exfalso. rewrite Forall_forall in Hl. apply (below_irrefl (order p)). trans (order s); [done|]. apply Hl. apply list_elem_of_In, in_map_iff.
    exists (order p, hs_previous s). split; [done|by apply list_elem_of_In].
Qed.

Lemma prune_spec : forall rest dn ids, base = dn ++ rest -> (forall x, x ∈ ids <-> entry_of dn x /\ descends f (entry_of base) root x) ->
  forall o x, (o, x) ∈ prune (f_states f) root ids rest <-> (o, x) ∈ rest /\ descends f (entry_of base) root x.
Proof using base_ok base_ordered base_states.
  clear sha256 on_accept_block.
  induction rest as [|[o1 id1] rest IH]; intros dn ids Hd Hids o x; cbn [prune]; [rewrite elem_of_nil; tauto|].
  assert (Hin : (o1, id1) ∈ base) by (rewrite Hd; apply elem_of_app; right; by constructor).
  assert (He : entry_of base id1) by by eexists. destruct (base_states _ _ Hin) as (s & Es & Eo).
  assert (Hkeep : (bool_decide (id1 = root) || match find id1 (f_states f) with Some s => bool_decide (hs_previous s ∈ ids) | None => false end) = true
                  <-> descends f (entry_of base) root id1).
  { change (find id1 (f_states f)) with (get_state f id1). rewrite Es, orb_true_iff, !bool_decide_eq_true, Hids. split.
    - intros [->|[_ Hp]]; [by constructor|by eapply descends_step].
    - intros Hde. destruct Hde as [Hr|id1 s' _ Es' Hp]; [by left|]. rewrite Es in Es'. injection Es' as <-. right. split; [|done].
      pose proof (descends_P _ _ _ _ Hp) as Hpe. destruct Hpe as [op Hop]. destruct (base_states _ _ Hop) as (p & Ep & _).
      eapply parent_before; try done. by eexists. }
  assert (Hdn : base = (dn ++ [(o1, id1)]) ++ rest) by by rewrite <- app_assoc.
  assert (Hsnoc : forall y, entry_of (dn ++ [(o1, id1)]) y <-> entry_of dn y \/ y = id1).
  { intros y. unfold entry_of. setoid_rewrite elem_of_app. setoid_rewrite list_elem_of_singleton. split.
    - intros (oy & [H|[= -> ->]]); eauto.
    - intros [(oy & H)| ->]; eauto. }
  destruct (_ || _) eqn:Ek; rewrite ?elem_of_cons.
  - pose proof (proj1 Hkeep eq_refl) as Hde. rewrite (IH (dn ++ [(o1, id1)]) (id1 :: ids) Hdn).
    + split; [intros [[= -> ->]|[]]; tauto|]. intros [[[= -> ->]|?] ?]; tauto.
    + intros y. rewrite elem_of_cons, Hids, Hsnoc. split; [intros [->|[]]; tauto|tauto].
  - assert (Hde : ~ descends f (entry_of base) root id1) by (intros ?%Hkeep; congruence). rewrite (IH (dn ++ [(o1, id1)]) ids Hdn).
    + split; [tauto|]. intros [[[= -> ->]|?] ?]; tauto.
    + intros y. rewrite Hids, Hsnoc. split; [tauto|]. intros [[?| ->] ?]; tauto.
Qed.
End prune.

(** The index of all valid states. *)
Lemma refill_spec f : states_ok f -> map_ok (refill (f_states f)) /\
  (forall o id, (o, id) ∈ refill (f_states f) <-> exists s, get_state f id = Some s /\ hs_invalid s = false /\ order s = o).
Proof.
  intros [Hok Hids]. unfold refill.
  cut (forall l m, (forall x, x ∈ l -> x ∈ f_states f) -> map_ok m ->
    (forall o id, (o, id) ∈ m -> exists s, get_state f id = Some s /\ order s = o) ->
    let m' := foldl (fun index '(id, s) => if hs_invalid s then index else emplace (order s) id index) m l in
    map_ok m' /\ (forall o id, (o, id) ∈ m' <-> (o, id) ∈ m \/ exists s, (id, s) ∈ l /\ hs_invalid s = false /\ order s = o)).
  { intros Hc. destruct (Hc (f_states f) []) as [H1 H2]; [done|constructor|by intros ? ? ?%elem_of_nil|]. split; [done|]. intros o id. rewrite H2, elem_of_nil.
    unfold get_state. setoid_rewrite (find_In id _ (f_states f) Hok). split; [by intros [[]|?]|by right]. }
  induction l as [|[id1 s1] l IH]; intros m Hl Hm Hv m'.
  { split; [done|]. intros o id. split; [by left|]. intros [?|(s & ?%elem_of_nil & _)]; done. }
  assert (E1 : get_state f id1 = Some s1) by (apply find_In; [done|]; apply Hl; constructor).
  pose proof (Hids _ _ E1) as Hid1. cbn [foldl] in m'. unfold m'. clear m'.
  assert (Hl' : forall x, x ∈ l -> x ∈ f_states f) by (intros y Hy; apply Hl; by constructor). destruct (hs_invalid s1) eqn:Einv.
  - destruct (IH m Hl' Hm Hv) as [H1 H2]. split; [done|]. intros o id. rewrite H2. setoid_rewrite elem_of_cons. split.
    + intros [?|(s & ? & ?)]; eauto 10.
    + intros [?|(s & [[= -> ->]|?] & ? & ?)]; [by left|congruence|eauto 10].
  - assert (He : forall x y, (x, y) ∈ emplace (order s1) id1 m <-> (x, y) = (order s1, id1) \/ (x, y) ∈ m).
    { intros x y. apply emplace_elem; [done|]. intros v' Hin. destruct (Hv _ _ Hin) as (s' & Es' & Eo). rewrite <- (Hids _ _ Es'), <- Hid1. by injection Eo. }
    destruct (IH (emplace (order s1) id1 m)) as [H1 H2]; [done|by apply emplace_ok|intros x y [[= -> ->]|?]%He; eauto|].
    split; [done|]. intros o id. rewrite H2, He. setoid_rewrite elem_of_cons. split.
    + intros [[Heq|?]|(s & ? & ?)]; [|eauto 10..]. right. exists s1. split; [left; congruence|]. split; congruence.
    + intros [?|(s & [Heq|?] & ? & ?)]; [eauto|left; left; congruence|eauto 10].
Qed.

(** After [set_subtree] the viable blocks are exactly the descendants of the new
    root among the candidates: the blocks viable before when the root is one of
    them, and otherwise all the blocks not known to be invalid. *)
Theorem set_subtree_exact f root f' :
  tree_ok f -> ordered f -> set_subtree f root = Ok f' ->
  forall id, entry_of (byOrderIndex f') id <-> descends f (candidate f root) (hs_blockId root) id.
Proof.
  intros Ht Ho E. unfold set_subtree in E. apply bind_ok in E as ([] & _ & E). destruct (hs_invalid root); [done|].
  set (base := match find (order root) (byOrderIndex f) with Some _ => byOrderIndex f | None => refill (f_states f) end) in E.
  ok_inv. cbn [byOrderIndex set_byOrder]. destruct (refill_spec f (tree_states _ Ht)) as [Hro Hre].
  assert (Hb : map_ok base) by (unfold base; destruct (find _ _); [apply Ht|done]).
  assert (Hv : forall o id, (o, id) ∈ base -> exists s, get_state f id = Some s /\ order s = o).
  { unfold base. destruct (find _ _); [apply Ht|]. intros o id (s & ? & _ & ?)%Hre. eauto. }
  assert (Hc : forall x, entry_of base x <-> candidate f root x).
  { intros x. unfold candidate, base. destruct (find _ _); [done|]. unfold entry_of, valid_block. setoid_rewrite Hre.
    split; [intros (o & s & ? & ? & _); eauto|intros (s & ? & ?); eauto 10]. }
  intros id. rewrite <- (descends_proper f _ _ (hs_blockId root) id Hc). unfold entry_of at 1.
  setoid_rewrite (prune_spec f (hs_blockId root) base Ho Hb Hv base [] [] eq_refl); [|intros x; rewrite elem_of_nil; unfold entry_of; setoid_rewrite elem_of_nil; split; [done|by intros [[_ []] _]]].
  split; [by intros (o & _ & Hd)|]. intros Hd. pose proof (descends_P _ _ _ _ Hd) as [o Hin]. eauto.
Qed.

(** Narrowing the subtree to an executed block keeps viable blocks connected, as
    [commit] of a block of the best chain does. *)
Lemma set_subtree_connected f root f' : tree_ok f -> get_state f (hs_blockId root) = Some root -> is_Some (hs_revision root) -> set_subtree f root = Ok f' ->
  connected f -> connected f'.
Proof.
  intros Ht Er Hr E Hc. pose proof (set_subtree_exact f root f' Ht (connected_ordered _ Hc) E) as Hx.
  assert (exists index, f' = set_byOrder index f) as [index ->].
  { unfold set_subtree in E. apply bind_ok in E as ([] & _ & E). destruct (hs_invalid root); [done|]. ok_inv. by eexists. }
  destruct Hc as [H1 H2 H3]. constructor; [done|done|]. intros id s Hid Es. change (get_state f id = Some s) in Es.
  apply Hx in Hid. destruct Hid as [_|id s' _ Es' Hd]; [|rewrite Es in Es'; injection Es' as <-; left; by apply Hx].
  rewrite Er in Es. injection Es as <-. right. destruct (get_state f (hs_previous root)) eqn:Ep; [left|right; exact Ep]. eapply H2; [done..|]. by rewrite Ep.
Qed.
Lemma best_chain_id f h n : chain_ok f -> get_state f (f_head f) = Some h -> commitIndex f <= n <= hs_blockNum h -> get_block_id f n ∈ map snd (byBlocknumIndex f).
Proof.
  intros [(n0 & id & l & Ei & Hn & Hp & Hc & Hh) _ _] Eh Hr.
  assert (Hhn : hs_blockNum h = n0 + Z.of_nat (length l)).
  { destruct (path_end _ _ _ _ Hn Hp) as (h' & Eh' & Hnum). cbn in Eh', Hnum. rewrite Hh, Eh in Eh'. congruence. }
  destruct (path_split f n0 id l n Hp ltac:(lia)) as (l1 & l2 & -> & Hl).
  assert (Hin : (n, last_id id l1) ∈ (n0, id) :: l1 ++ l2).
  { change ((n0, id) :: l1 ++ l2) with (((n0, id) :: l1) ++ l2). apply elem_of_app. left.
    pose proof Hp as [Hp1 _]%path_app_iff. pose proof (last_path _ _ _ _ Hp1) as [l' ->]%last_Some. rewrite Hl. apply elem_of_app. right. by constructor. }
  unfold get_block_id. rewrite Ei, (proj2 (find_In n (last_id id l1) _ (path_ok _ _ _ _ Hp)) Hin).
  apply list_elem_of_In, in_map_iff. exists (n, last_id id l1). split; [done|by apply list_elem_of_In].
Qed.
Lemma commit_connected f num r f' : tree_ok f -> chain_ok f -> commit f num = Ok (r, f') -> connected f -> connected f'.
Proof.
  intros Ht Hch E Hc. unfold commit in E. apply bind_ok in E as (h & Eh & E). apply bind_ok in E as (f1 & E1 & E). ok_inv.
  assert (H1 : connected f1); [|by destruct H1].
  destruct (byOrderIndex f) as [|[[[t first] i] id] rest] eqn:Eo; [done|]. destruct (first <? _); [|by ok_inv].
  apply bind_ok in E1 as (root & Er & E1). unfold assert in Er. destruct (get_state f (get_block_id f _)) as [s|] eqn:Es; [|done]. injection Er as ->.
  unfold head_state, assert in Eh. pose proof (chain_commit _ Hch) as (h' & Eh' & Hle). rewrite Eh' in Eh. injection Eh as ->.
  destruct (chain_executed _ Hch _ (best_chain_id f h (Z.max (Z.min num (hs_blockNum h)) (commitIndex f)) Hch Eh' ltac:(lia))) as (s & Es' & Hr).
  rewrite Es in Es'. injection Es' as <-. eapply (set_subtree_connected f root); try done. by rewrite (proj2 (tree_states _ Ht) _ _ Es).
Qed.

(** ** Preservation *)

Lemma grows_blocks_emplace f id b : map_ok (f_blocks f) -> grows f (set_blocks (emplace id b (f_blocks f)) f).
Proof. intros Hb. constructor; try done. cbn. intros x y E. by rewrite find_emplace, E. Qed.
Lemma grows_emplace f id s b o : map_ok (f_states f) -> map_ok (f_blocks f) ->
  grows f (set_byOrder o (set_states (emplace id s (f_states f)) (set_blocks (emplace id b (f_blocks f)) f))).
Proof.
  intros Hs Hb. constructor; try done; [|by apply grows_blocks_emplace]. unfold get_state. cbn. intros x y E. by rewrite find_emplace, E.
Qed.

Lemma tree_ok_blocks f id b : tree_ok f -> tree_ok (set_blocks (emplace id b (f_blocks f)) f).
Proof.
  intros [H1 H2 H3 H4 H5]. constructor; cbn; try done; [by apply emplace_ok|]. intros x s Es Hx.
  destruct (H4 x s Es Hx) as (p & b' & Ep & En & Eb & Eh). exists p, b'. split_and!; try done. by rewrite find_emplace, Eb.
Qed.

(** A new state whose parent is known and one lower. *)
Lemma tree_ok_state f id s b prev o :
  tree_ok f -> get_state f id = None -> find id (f_blocks f) = None -> hs_blockId s = id -> get_state f (hs_previous s) = Some prev ->
  hs_blockNum s = hs_blockNum prev + 1 -> sh_header b = hs_header s -> (o = byOrderIndex f \/ o = emplace (order s) id (byOrderIndex f)) ->
  tree_ok (set_byOrder o (set_states (emplace id s (f_states f)) (set_blocks (emplace id b (f_blocks f)) f))).
Proof.
  intros [[Hs1 Hs2] H2 H3 H4 H5] Hn Hbn Hid Hp Hnum Hb Ho.
  assert (Hst : forall x, find x (emplace id s (f_states f)) = match cmp x id with Eq => Some s | _ => get_state f x end) by (intros; by apply find_emplace_new).
  assert (Hbl : forall x, find x (emplace id b (f_blocks f)) = match cmp x id with Eq => Some b | _ => find x (f_blocks f) end) by (intros; by apply find_emplace_new).
  assert (Hst' : forall x t, get_state f x = Some t -> find x (emplace id s (f_states f)) = Some t) by (intros x t E; by rewrite find_emplace; unfold get_state in E; rewrite ?E).
  constructor; unfold get_state; cbn.
  - split; cbn; [by apply emplace_ok|]. unfold get_state. cbn. intros x t. rewrite Hst. destruct (cmp x id) eqn:Ec; [|apply Hs2..]. apply cmp_eq in Ec as ->. congruence.
  - destruct Ho as [-> | ->]; [done|by apply emplace_ok].
  - by apply emplace_ok.
  - intros x t. rewrite Hst, Hbl. destruct (cmp x id) eqn:Ec; [|intros Et Hx; destruct (H4 x t Et Hx) as (p & b' & Ep & ?); exists p, b'; split; [by apply Hst'|done]..].
    intros [= <-] _. exists prev, b. split_and!; try done. by apply Hst'.
  - intros k x Hin. assert (Hin' : (k, x) = (order s, id) \/ (k, x) ∈ byOrderIndex f).
    { destruct Ho as [-> | ->]; [by right|]. apply emplace_elem in Hin; [done|done|]. intros v (t & Et & Eo)%H5. rewrite <- (Hs2 _ _ Et), <- Hid. by injection Eo. }
    destruct Hin' as [[= -> ->]|(t & Et & Eo)%H5]; [exists s; by rewrite Hst, cmp_refl|]. exists t. split; [by apply Hst'|done].
Qed.

Lemma prune_sublist states root index : forall ids, prune states root ids index `sublist_of` index.
Proof. induction index as [|[o id] index IH]; intros ids; cbn; [done|]. destruct (_ || _); by constructor. Qed.

Lemma set_subtree_tree f root f' : tree_ok f -> set_subtree f root = Ok f' -> exists index, f' = set_byOrder index f /\ tree_ok f'.
Proof.
  intros Ht E. unfold set_subtree in E. apply bind_ok in E as ([] & _ & E). destruct (hs_invalid root); [done|].
  set (base := match find (order root) (byOrderIndex f) with Some _ => byOrderIndex f | None => refill (f_states f) end) in E.
  ok_inv. eexists. split; [done|]. destruct (refill_spec f (tree_states _ Ht)) as [Hro Hre]. pose proof (prune_sublist (f_states f) (hs_blockId root) base []) as Hsub.
  assert (Hb : map_ok base) by (unfold base; destruct (find _ _); [apply Ht|done]).
  assert (Hv : forall o id, (o, id) ∈ base -> exists s, get_state f id = Some s /\ order s = o).
  { unfold base. destruct (find _ _); [apply Ht|]. intros o id (s & ? & _ & ?)%Hre. eauto. }
  destruct Ht. constructor; cbn; try done; [by eapply sublist_map_ok|]. intros o id Hin. apply Hv. by eapply elem_of_sublist.
Qed.

(** The invariant of the fork database. *)
Definition fork_db_ok (f : ForkDb) : Prop := tree_ok f /\ chain_ok f.

(** C18: The invariant of the fork database holds in the new database after [insert]
    of a block, provided that its number is one above that of its parent, and
    after [commit] of any number. *)
Theorem fork_db_invariant f :
  fork_db_ok f ->
  (forall b, (forall p, get_state f (h_previous (sh_header b)) = Some p -> h_blockNum (sh_header b) = hs_blockNum p + 1) -> fork_db_ok (insert f b).1) /\
  (forall num r f', commit f num = Ok (r, f') -> fork_db_ok f' /\ commitIndex f <= commitIndex f').
Proof.
  intros [Ht Hc]. pose proof (chain_commit _ Hc) as (h & Eh & Hch). split.
  - intros b Hnum. unfold insert. set (info := info_of (sh_header b)). destruct (_ <=? _); [done|]. destruct (find _ (f_blocks f)) eqn:Eb; [done|].
    change (h_previous (i_header info)) with (h_previous (sh_header b)). destruct (get_state f (h_previous (sh_header b))) as [prev|] eqn:Ep; [|done].
    destruct (validateBlockSignature prev info (sh_signature b)); [|done].
    assert (Hcg : forall f', grows f f' -> commitIndex f' = commitIndex f -> chain_ok f') by (intros f' Hg Hcm; apply (chain_ok_grows f); [done..|]; rewrite Eh; intros ? [= <-]; lia).
    assert (Hb : fork_db_ok (set_blocks (emplace (i_blockId info) b (f_blocks f)) f)) by (split; [by apply tree_ok_blocks|apply Hcg; [apply grows_blocks_emplace, Ht|done]]).
    destruct (next_state sha256 prev info None) as [s|] eqn:En; [|done]. apply next_state_info in En as Hi.
    case_bool_decide as Hs; [done|]. assert (Hg : get_state f (i_blockId info) = None) by (apply eq_None_not_Some; exact Hs).
    specialize (Hnum prev eq_refl).
    assert (Hnew : forall t o, hs_info t = info -> (o = byOrderIndex f \/ o = emplace (order t) (i_blockId info) (byOrderIndex f)) ->
      fork_db_ok (set_byOrder o (set_states (emplace (i_blockId info) t (f_states f)) (set_blocks (emplace (i_blockId info) b (f_blocks f)) f)))).
    { intros t o Hti Ho. split; [|apply Hcg; [apply grows_emplace; apply Ht|done]].
      apply (tree_ok_state _ _ _ _ prev); try done; unfold hs_blockId, hs_blockNum, hs_header; rewrite ?Hti; done. }
    destruct (hs_invalid prev); [|destruct (find (order prev) _)]; cbn [fst].
    + apply (Hnew (set_invalid s) (byOrderIndex f)); eauto.
    + apply (Hnew s); eauto.
    + apply (Hnew s (byOrderIndex f)); eauto.
  - intros num r f' E. unfold commit, head_state, assert in E. rewrite Eh in E. cbn [mbind result_bind] in E.
    apply bind_ok in E as (f1 & E1 & E). ok_inv. assert (H1 : exists index, f1 = set_byOrder index f /\ tree_ok f1).
    { destruct (byOrderIndex f) as [|[[[t1 first] i1] id1] rest] eqn:Eo; [done|]. destruct (first <? _).
      - apply bind_ok in E1 as (root & _ & E1). by apply (set_subtree_tree f root).
      - ok_inv. exists (byOrderIndex f1). split; [|done]. by destruct f1. }
    destruct H1 as (index & -> & Ht1). cbn. split; [|lia]. split.
    + destruct Ht1 as [A1 A2 A3 A4 A5]. constructor; try done. cbn. intros id s Es Hx. apply A4; [done|]. cbn. lia.
    + apply (chain_ok_grows f); [constructor; try done; cbn; lia|done|]. rewrite Eh. intros ? [= <-]. cbn. lia.
Qed.
End forkdb.

(** ** What the callback sees *)

(** The index by number is one chain.  It holds also while a fork is executed, when
    the index already has the blocks up to the new head. *)
Definition linear (f : ForkDb) : Prop := exists n id l, byBlocknumIndex f = (n, id) :: l /\ path f n id l.
Lemma chain_linear f : chain_ok f -> linear f.
Proof. intros [(n & id & l & Ei & _ & Hp & _) _ _]. by exists n, id, l. Qed.
Lemma linear_same f f' : (forall id, hs_info <$> get_state f' id = hs_info <$> get_state f id) -> byBlocknumIndex f' = byBlocknumIndex f -> linear f -> linear f'.
Proof.
  intros Hs Hi (n & id & l & Ei & Hp). exists n, id, l. split; [congruence|]. clear Ei. revert n id Hp. induction l as [|[m x] l IH]; intros n id; [done|].
  intros (-> & (s & Es & En & Ep) & Hp). specialize (Hs x) as Hx. rewrite Es in Hx. destruct (get_state f' x) as [s'|] eqn:E'; [|done]. injection Hx as Hx.
  split; [done|]. split; [|by apply IH]. exists s'. unfold hs_blockNum, hs_header in *. by rewrite Hx.
Qed.

Section callbacks.
Context (sha256_header : Header -> Checksum256).
Context (verify_block : VerifyTables -> Info -> Claim -> bytes -> result unit).
Context (exec_block : Revision -> SignedHeader -> Claim -> VerifyTables -> result (Revision * Checksum256)).
Context (cb1 cb2 : Checksum256 -> ForkDb -> ForkDb) (cb1_ok : callback_ok cb1) (agree : forall id f, linear f -> cb1 id f = cb2 id f).

Lemma execute_block_agree f prev state : linear f -> get_state f (hs_blockId state) = Some state ->
  execute_block verify_block exec_block cb1 f prev state = execute_block verify_block exec_block cb2 f prev state /\
  (forall good f', execute_block verify_block exec_block cb1 f prev state = Ok (good, f') -> linear f').
Proof using cb1_ok agree.
  intros Hl Hst. unfold execute_block. destruct (hs_revision state); [by split; [|intros ? ? [= <- <-]]|].
  destruct (assert (hs_revision prev)); [|done]. cbn [mbind result_bind]. destruct (assert (find _ _)); [|done]. cbn [mbind result_bind].
  destruct (claim ← _; _) as [r|]; [|by split; [|intros ? ? [= <- <-]]]. set (g := set_states _ _).
  assert (Hg : forall id, get_state g id = match cmp id (hs_blockId state) with Eq => Some (set_revision r state) | _ => get_state f id end).
  { intros id. unfold g, get_state. cbn. rewrite find_assign. unfold get_state in Hst. by rewrite Hst. }
  assert (Hlg : linear g).
  { apply (linear_same f); [|done|done]. intros id. rewrite Hg. destruct (cmp id (hs_blockId state)) eqn:Ec; [|done..]. apply cmp_eq in Ec as ->. by rewrite Hst. }
  split; [by rewrite agree|]. intros good f' [= <- <-]. destruct (cb1_ok (hs_blockId state) g (set_revision r state)) as (_ & H2 & _ & H4 & _); [by rewrite Hg, cmp_refl|].
  apply (linear_same g); [|done|done]. intros id. unfold get_state. by rewrite H2.
Qed.
Lemma execute_fork_agree entries : forall f prev, states_ok f -> linear f ->
  execute_fork verify_block exec_block cb1 f prev entries = execute_fork verify_block exec_block cb2 f prev entries.
Proof using cb1_ok agree.
  induction entries as [|[num id] entries IH]; intros f prev Ho Hl; cbn [execute_fork]; [done|].
  destruct (assert (get_state f prev)) as [p|]; [|done]. cbn [mbind result_bind]. unfold assert. destruct (get_state f id) as [s|] eqn:Es; [|done]. cbn [mbind result_bind].
  pose proof (proj2 Ho _ _ Es) as Hid. rewrite <- Hid in Es. destruct (execute_block_agree f p s Hl Es) as [<- Hl']. rewrite Hid in *.
  destruct (execute_block _ _ cb1 f p s) as [[good f1]|] eqn:E; [|done]. cbn [mbind result_bind]. destruct good; [|done].
  destruct (get_state f1 id) as [s1|]; [|done]. cbn [mbind result_bind]. rewrite <- Hid in Es.
  destruct (execute_block_spec _ _ _ f p s true f1 cb1_ok Ho Es E) as (Hs & _). apply IH; [apply (same_tree_states_ok f); [by destruct Hs|done]|].
  by apply (linear_same f1), (Hl' true f1).
Qed.

(** During a fork switch the callback of the consensus algorithm is called only
    with databases whose index by number is one chain: callbacks that do the same
    on these give the same switch. *)
Theorem callback_sees_linear f nh : tree_ok f -> chain_ok f -> get_state f (hs_blockId nh) = Some nh ->
  trySetHead sha256_header verify_block exec_block cb1 f nh = trySetHead sha256_header verify_block exec_block cb2 f nh.
Proof using cb1_ok agree.
  intros Ht Hc Enh. destruct (decide (f_head f = hs_blockId nh)) as [Heq|Hne]; [unfold trySetHead; by rewrite bool_decide_eq_true_2|].
  rewrite !trySetHead_eq by done.
  destruct (trySetHead_index sha256_header f nh Ht Hc Enh) as [->|(n & id & k & old & entries & _ & _ & Hp & _ & _ & _ & ->)]; [done|]. cbn [mbind result_bind].
  unfold run_fork. rewrite execute_fork_agree; [done|exact (tree_states _ Ht)|]. exists n, id, (k ++ entries). split; [done|].
  apply (path_same f); [constructor; try done; apply Ht|done].
Qed.
End callbacks.

(** ** An example *)

Module ForkExample.
Definition hash_header (h : Header) : Checksum256 := [0; 0; 0; 0; h_term h].
Definition info_of (h : Header) : Info := BlockInfo_of hash_header h.
Definition header (previous : Checksum256) (num term : Z) : Header :=
  set_h_producer 1 (set_h_term term (set_h_blockNum num (set_h_previous previous no_header))).
Definition block (h : Header) : SignedHeader := {| sh_header := h; sh_signature := []; sh_auxConsensusData := None |}.
Definition prods : ProducerSet :=
  {| ps_algorithm := bft; activeProducers := [(1, no_claim)]; authState := Some (BlockAuthState_load None None) |}.
Definition revision : Revision :=
  {| rev_status := None; rev_tables := no_tables; rev_prevAuth := None; rev_blockLog := ∅; rev_blockProof := ∅ |}.
Definition state (h : Header) (r : option Revision) : BlockHeaderState :=
  {| hs_info := info_of h; hs_revision := r; producers := prods; nextProducers := None; nextProducersBlockNum := 0; hs_invalid := false |}.

(** The irreversible block, the head, a better fork, and a bad block on it. *)
Definition root_header : Header := header [9] 2 0.
Definition root : Checksum256 := i_blockId (info_of root_header).
Definition old_header : Header := header root 3 0.
Definition old : Checksum256 := i_blockId (info_of old_header).
Definition new_header : Header := header root 3 1.
Definition new : Checksum256 := i_blockId (info_of new_header).
Definition bad_header : Header := header new 4 1.
Definition bad : Checksum256 := i_blockId (info_of bad_header).
Definition all_states : list (Checksum256 * BlockHeaderState) :=
  [(root, state root_header (Some revision)); (old, state old_header (Some revision)); (new, state new_header None); (bad, state bad_header None)].

Definition verify_block (_ : VerifyTables) (_ : Info) (_ : Claim) (_ : bytes) : result unit := Ok tt.
Definition exec_block (r : Revision) (b : SignedHeader) (_ : Claim) (_ : VerifyTables) : result (Revision * Checksum256) :=
  if h_blockNum (sh_header b) =? 4 then Abort "bad" else Ok (r, i_blockId (info_of (sh_header b))).
Definition on_accept_block (_ : Checksum256) (f : ForkDb) : ForkDb := f.

Definition db : ForkDb := {|
  commitIndex := 2; currentTerm := 1; f_head := old;
  f_blocks := map (fun '(id, s) => (id, block (hs_header s))) all_states;
  f_states := all_states;
  byOrderIndex := adopt_sequence (map (fun '(id, s) => (order s, id)) all_states);
  byBlocknumIndex := [(2, root); (3, old)]; sharedHead := None; f_blockContext := None |}.

Lemma callback : callback_ok on_accept_block.
Proof. intros id f s _. unfold on_accept_block. cbn. split_and!; try done; lia. Qed.
Lemma states_sorted : map_ok all_states.
Proof. repeat constructor. Qed.
Lemma get_state_all id s : get_state db id = Some s -> (id, s) ∈ all_states.
Proof. apply find_In, states_sorted. Qed.
Ltac all_cases H := unfold all_states in H; repeat (apply elem_of_cons in H as [[= -> ->]|H]); [..|by apply elem_of_nil in H].

Lemma tree : tree_ok db.
Proof.
  constructor.
  - split; [apply states_sorted|]. intros id s H%get_state_all. all_cases H; done.
  - repeat constructor.
  - repeat constructor.
  - intros id s H%get_state_all. all_cases H; cbn; intros Hx; try lia; eauto 10.
  - intros o id H. vm_compute in H.
    repeat (apply elem_of_cons in H as [[= -> ->]|H]; [eexists; split; [vm_compute; reflexivity|done]|]). by apply elem_of_nil in H.
Qed.
Lemma chain : chain_ok db.
Proof.
  constructor.
  - exists 2, root, [(3, old)]. split_and!; try done; [by exists (state root_header (Some revision))|].
    cbn. split_and!; try done. by exists (state old_header (Some revision)).
  - intros id H. cbn in H. apply elem_of_cons in H as [->|H]; [|apply elem_of_cons in H as [->|H]; [|by apply elem_of_nil in H]];
      (eexists; split; [reflexivity|by eexists]).
  - by exists (state old_header (Some revision)).
Qed.
Lemma connected_db : connected db.
Proof.
  constructor.
  - intros id s p Hs Hp. apply get_state_all in Hs. all_cases Hs; vm_compute in Hp; try done; injection Hp as <-; done.
  - intros id s H%get_state_all. all_cases H; cbn; intros [r Hr]; try done; intros [p Hp]; vm_compute in Hp; try done.
    exists (state root_header (Some revision)). split; [done|by eexists].
  - intros id s _ H%get_state_all. all_cases H; [right; right; done|right; left|right; left|left; exists (order (state new_header None))].
    1,2: exists (state root_header (Some revision)); split; [done|by eexists].
    vm_compute. repeat constructor.
Qed.
Definition skipping : SignedHeader := block (header old 5 1).
Definition skipping_state : BlockHeaderState := state (header old 5 1) None.
Definition head_state : BlockHeaderState := state old_header (Some revision).
End ForkExample.

Lemma switch_fork_correct_witness :
  (f_head <$> (switch_fork ForkExample.hash_header ForkExample.verify_block ForkExample.exec_block ForkExample.on_accept_block ForkExample.db ≫= fun r => match r with Ok f => Some f | _ => None end)) = Some ForkExample.new /\
  exists r, switch_fork ForkExample.hash_header ForkExample.verify_block ForkExample.exec_block ForkExample.on_accept_block ForkExample.db = Some r /\
    (forall f', r = Ok f' -> switched ForkExample.db f') /\ (f_blockContext ForkExample.db = None -> r = consensus_failure \/ exists f', r = Ok f').
Proof.
  split; [by vm_compute|].
  apply switch_fork_correct; [exact ForkExample.callback|exact ForkExample.tree|exact ForkExample.chain|exact ForkExample.connected_db].
Defined.

(** Narrowing to the new fork leaves it and the block on it. *)
Lemma set_subtree_exact_witness :
  entry_of (adopt_sequence [(order (ForkExample.state ForkExample.new_header None), ForkExample.new); (order (ForkExample.state ForkExample.bad_header None), ForkExample.bad)]) ForkExample.bad /\
  descends ForkExample.db (candidate ForkExample.db (ForkExample.state ForkExample.new_header None)) ForkExample.new ForkExample.bad.
Proof.
  assert (H : entry_of (adopt_sequence [(order (ForkExample.state ForkExample.new_header None), ForkExample.new); (order (ForkExample.state ForkExample.bad_header None), ForkExample.bad)]) ForkExample.bad).
  { exists (order (ForkExample.state ForkExample.bad_header None)). cbn. right. left. }
  split; [exact H|].
  apply (set_subtree_exact ForkExample.db (ForkExample.state ForkExample.new_header None)
    (set_byOrder (adopt_sequence [(order (ForkExample.state ForkExample.new_header None), ForkExample.new); (order (ForkExample.state ForkExample.bad_header None), ForkExample.bad)]) ForkExample.db)
    ForkExample.tree).
  - intros id s p Hs Hp. apply ForkExample.get_state_all in Hs. ForkExample.all_cases Hs; vm_compute in Hp; try done; injection Hp as <-; done.
  - by vm_compute.
  - exact H.
Defined.

(** One more block on the head, and a commit. *)
Lemma fork_db_invariant_witness :
  fork_db_ok (insert (fun b => b) ForkExample.hash_header ForkExample.verify_block ForkExample.db (ForkExample.block (ForkExample.header ForkExample.old 4 0))).1 /\
  length (f_states (insert (fun b => b) ForkExample.hash_header ForkExample.verify_block ForkExample.db (ForkExample.block (ForkExample.header ForkExample.old 4 0))).1) = 5%nat.
Proof.
  split; [|by vm_compute]. apply (fork_db_invariant (fun b => b) ForkExample.hash_header ForkExample.verify_block ForkExample.db).
  - split; [exact ForkExample.tree|exact ForkExample.chain].
  - intros p Hp. vm_compute in Hp. injection Hp as <-. done.
Defined.

(** A block of number 5 on the head of number 3. *)
Lemma skipped_number_stops_node_witness :
  (insert (fun b => b) ForkExample.hash_header ForkExample.verify_block ForkExample.db ForkExample.skipping).2 =
    Ok (Some (i_blockId (ForkExample.info_of (sh_header ForkExample.skipping))), true) /\
  switch_fork ForkExample.hash_header ForkExample.verify_block ForkExample.exec_block ForkExample.on_accept_block
    (insert (fun b => b) ForkExample.hash_header ForkExample.verify_block ForkExample.db ForkExample.skipping).1 = Some consensus_failure.
Proof.
  apply (skipped_number_stops_node (fun b => b) ForkExample.hash_header ForkExample.verify_block ForkExample.exec_block ForkExample.on_accept_block ForkExample.db
    ForkExample.skipping ForkExample.head_state ForkExample.skipping_state no_claim ForkExample.tree ForkExample.chain); try by vm_compute.
  - intros e He. vm_compute in He. repeat (apply elem_of_cons in He as [->|He]; [by vm_compute|]). by apply elem_of_nil in He.
  - intros e He. cbn in He. repeat (apply elem_of_cons in He as [->|He]; [eexists; by vm_compute|]). by apply elem_of_nil in He.
  - intros x p Hp ->. unfold get_prev_id, get in Hp. destruct (find x _) as [b|] eqn:E; [|by vm_compute in Hp].
    apply find_In in E; [|vm_compute; repeat constructor]. vm_compute in E. injection Hp as Hp.
    repeat (apply elem_of_cons in E as [[= -> ->]|E]; [by vm_compute in Hp|]). by apply elem_of_nil in E.
Defined.
