(* ===== verification/Blocknet.v ===== *)
(** * psibase: the common part of the consensus algorithms

    [struct blocknet] of [blocknet.hpp], as far as the algorithms of [cft.hpp] and
    [bft.hpp] use it: the producers, the term, the role of the node and its fork
    database, and starting and stopping block production.  Producer sets, which
    are behind shared pointers, are compared by value.  Peers, timers and the
    transactions of a block are not part of it; [now] is the start time that the
    clock gives for the next block. *)

From S2P Require Import Prelude Ordered Services AuthState HeaderState BlockContext LightHeader ForkDb.

#[export] Instance CodeRow_eq_dec : EqDecision CodeRow.
Proof. solve_decision. Defined.
#[export] Instance WasmConfigRow_eq_dec : EqDecision WasmConfigRow.
Proof. solve_decision. Defined.
#[export] Instance VerifyTables_eq_dec : EqDecision VerifyTables.
Proof. solve_decision. Defined.
#[export] Instance BlockAuthState_eq_dec : EqDecision BlockAuthState.
Proof. solve_decision. Defined.
#[export] Instance ProducerSet_eq_dec : EqDecision ProducerSet.
Proof. solve_decision. Defined.

Inductive producer_state := unknown | follower | candidate | leader | nonvoting | shutdown.
#[export] Instance producer_state_eq_dec : EqDecision producer_state.
Proof. solve_decision. Defined.
Definition is_state (s s' : producer_state) : bool := bool_decide (s = s').

Definition null_producer : AccountNumber := 0.

Record Blocknet := {
  self : AccountNumber;
  active0 : ProducerSet;
  active1 : option ProducerSet;
  current_term : Z;
  b_state : producer_state;
  chain : ForkDb
}.
Definition set_active p0 p1 (b : Blocknet) : Blocknet := {| self := self b; active0 := p0; active1 := p1; current_term := current_term b; b_state := b_state b; chain := chain b |}.
Definition set_term x (b : Blocknet) : Blocknet := {| self := self b; active0 := active0 b; active1 := active1 b; current_term := x; b_state := b_state b; chain := chain b |}.
Definition set_state x (b : Blocknet) : Blocknet := {| self := self b; active0 := active0 b; active1 := active1 b; current_term := current_term b; b_state := x; chain := chain b |}.
Definition set_chain x (b : Blocknet) : Blocknet := {| self := self b; active0 := active0 b; active1 := active1 b; current_term := current_term b; b_state := b_state b; chain := x |}.
Definition set_pending (x : option PendingBlock) (f : ForkDb) : ForkDb :=
  {| commitIndex := commitIndex f; currentTerm := currentTerm f; f_head := f_head f; f_blocks := f_blocks f; f_states := f_states f;
     byOrderIndex := byOrderIndex f; byBlocknumIndex := byBlocknumIndex f; sharedHead := sharedHead f; f_blockContext := x |}.

(** The two groups of producers. *)
Definition active (b : Blocknet) (group : bool) : option ProducerSet := if group then active1 b else Some (active0 b).

Definition is_sole_producer (b : Blocknet) : bool :=
  let only (p : ProducerSet) := (ps_size p =? 1)%nat && isProducer p (self b) in
  if self b =? null_producer then false
  else match active1 b with
  | Some next =>
      if negb (only next) then false
      else if (ps_size (active0 b) =? 0)%nat then true else only (active0 b)
  | None => only (active0 b)
  end.
Definition is_producer (b : Blocknet) : bool :=
  isProducer (active0 b) (self b) || match active1 b with Some next => isProducer next (self b) | None => false end.

(** The keys that [for_each_key] visits. *)
Definition keys_of (p0 : ProducerSet) (p1 : option ProducerSet) (self : AccountNumber) : list Claim :=
  let claim0 := getClaim p0 self in
  match claim0 with Some c => [c] | None => [] end ++
  match p1 with
  | Some next =>
      match getClaim next self with
      | Some c => if bool_decide (claim0 = Some c) then [] else [c]
      | None => []
      end
  | None => []
  end.
Definition for_each_key (b : Blocknet) : list Claim := keys_of (active0 b) (active1 b) (self b).
Definition for_each_key_of (state : BlockHeaderState) (self : AccountNumber) : list Claim := keys_of (producers state) (nextProducers state) self.

Definition validate_producer (state : BlockHeaderState) (producer : AccountNumber) (claim : Claim) : result unit :=
  let claim0 := getClaim (producers state) producer in
  let claim1 := match nextProducers state with Some next => getClaim next producer | None => None end in
  if bool_decide (claim0 = Some claim) || bool_decide (claim1 = Some claim) then mret tt
  else match claim0, claim1 with
  | None, None => Abort "is not an active producer"
  | _, _ => Abort "Wrong key for producer"
  end.

(** [blocknet::set_producers], for an algorithm that no one handles. *)
Definition base_set_producers (p0 : ProducerSet) (p1 : option ProducerSet) (b : Blocknet) : result Blocknet :=
  check (ps_size p0 =? 0)%nat "Consensus algorithm not available" ;;
  mret (set_active p0 p1 b).

Section production.
Context (now : Blocknet -> Z).

(** [ForkDb::start_block] and [ForkDb::abort_block]. *)
Definition chain_start_block (f : ForkDb) (time : Z) (producer : AccountNumber) (term : Z) (irreversible : BlockNum) : result ForkDb :=
  check (negb (bool_decide (is_Some (f_blockContext f)))) "assertion failed" ;;
  head ← head_state f;
  revision ← assert (hs_revision head);
  '(_, bc) ← start (new_context revision false) (Some time) producer term irreversible;
  mret (set_pending (Some {| pb_header := bc_header bc; pb_needGenesisAction := bc_needGenesisAction bc |}) f).
Definition chain_abort_block (f : ForkDb) : result ForkDb :=
  check (bool_decide (is_Some (f_blockContext f))) "assertion failed" ;;
  mret (set_pending None f).

Definition start_leader (b : Blocknet) : result Blocknet :=
  check (is_state (b_state b) leader) "assertion failed" ;;
  f ← chain_start_block (chain b) (now b) (self b) (current_term b) (commitIndex (chain b));
  mret (set_chain f b).
Definition stop_leader (b : Blocknet) : result Blocknet :=
  if is_state (b_state b) leader then f ← chain_abort_block (chain b); mret (set_chain f b) else mret b.
End production.
