(* ===== verification/Cft.v ===== *)
(** * psibase: crash fault tolerant consensus

    [basic_cft_consensus] of [cft.hpp] over [blocknet]: elections, confirmation of
    blocks and the commits that follow from them.  A handler changes the state of
    the node and sends messages; an exception ends it.  Timers are not part of
    the state: [on_timeout] is what an election timer runs, whenever that is.
    [signs] says which keys the node can sign with; a message that it cannot sign
    is not sent. *)

From S2P Require Import Prelude Ordered Services AuthState HeaderState BlockContext LightHeader ForkDb Blocknet.

Inductive Message :=
| ConfirmMessage (term : Z) (follower_id : AccountNumber) (head_num : BlockNum) (signer : Claim)
| RequestVoteRequest (term : Z) (candidate_id : AccountNumber) (last_log_index : BlockNum) (last_log_term : Z) (signer : Claim)
| RequestVoteResponse (term : Z) (candidate_id voter_id : AccountNumber) (vote_granted : bool) (signer : Claim).

(** The state; arrays of two are pairs of fields, by group. *)
Record Cft := {
  base : Blocknet;
  voted_for : AccountNumber;
  votes0 : list AccountNumber;
  votes1 : list AccountNumber;
  match0 : list BlockNum;
  match1 : list BlockNum
}.
Definition set_base x (c : Cft) : Cft := {| base := x; voted_for := voted_for c; votes0 := votes0 c; votes1 := votes1 c; match0 := match0 c; match1 := match1 c |}.
Definition set_voted_for x (c : Cft) : Cft := {| base := base c; voted_for := x; votes0 := votes0 c; votes1 := votes1 c; match0 := match0 c; match1 := match1 c |}.
Definition set_votes v0 v1 (c : Cft) : Cft := {| base := base c; voted_for := voted_for c; votes0 := v0; votes1 := v1; match0 := match0 c; match1 := match1 c |}.
Definition set_match m0 m1 (c : Cft) : Cft := {| base := base c; voted_for := voted_for c; votes0 := votes0 c; votes1 := votes1 c; match0 := m0; match1 := m1 |}.

(** ** Handlers *)

Definition net (A : Type) : Type := Cft -> result (A * Cft * list Message).
#[export] Instance net_ret : MRet net := fun A a c => Ok (a, c, []).
#[export] Instance net_bind : MBind net := fun A B f m c =>
  match m c with
  | Ok (a, c, out) => match f a c with Ok (b, c, out') => Ok (b, c, out ++ out') | Abort e => Abort e end
  | Abort e => Abort e
  end.
Definition reads {A} (f : Cft -> A) : net A := fun c => Ok (f c, c, []).
Definition changes (f : Cft -> Cft) : net unit := fun c => Ok (tt, f c, []).
Definition sends (l : list Message) : net unit := fun c => Ok (tt, c, l).
Definition lift {A} (r : result A) : net A := fun c => match r with Ok a => Ok (a, c, []) | Abort e => Abort e end.
Definition on_base (f : Blocknet -> result Blocknet) : net unit := fun c =>
  match f (base c) with Ok b => Ok (tt, set_base b c, []) | Abort e => Abort e end.
Definition in_state (s : producer_state) : net bool := reads (fun c => is_state (b_state (base c)) s).
Definition become (s : producer_state) : net unit := changes (fun c => set_base (set_state s (base c)) c).
Definition change_chain (f : ForkDb -> ForkDb) : net unit := changes (fun c => set_base (set_chain (f (chain (base c))) (base c)) c).

Section cft.
Context (sha256_header : Header -> Checksum256).
Context (verify_block : VerifyTables -> Info -> Claim -> bytes -> result unit).
Context (exec_block : Revision -> SignedHeader -> Claim -> VerifyTables -> result (Revision * Checksum256)).
Context (verify : VerifyTables -> Info -> Claim -> bytes -> result unit).
Context (now : Blocknet -> Z).
Context (signs : Claim -> bool).
Context (is_reachable : AccountNumber -> bool).

Definition is_cft (c : Cft) : bool := bool_decide (ps_algorithm (active0 (base c)) = cft).

(** Send one message for each key of the node. *)
Definition send_each (f : Cft -> Claim -> Message) : net unit := fun c =>
  Ok (tt, c, map (f c) (List.filter signs (for_each_key (base c)))).

(** ** Votes *)

Definition threshold_reached (c : Cft) : bool :=
  (ps_size (active0 (base c)) / 2 <? length (votes0 c))%nat &&
  match active1 (base c) with Some next => (threshold next <=? length (votes1 c))%nat | None => true end.
Definition zeros (p : ProducerSet) : list BlockNum := repeat 0 (ps_size p).

Definition check_votes : net unit :=
  ok ← reads threshold_reached;
  if (ok : bool) then
    become leader ;;
    changes (fun c => set_match (zeros (active0 (base c))) (match active1 (base c) with Some next => zeros next | None => match1 c end) c) ;;
    on_base (start_leader now)
  else mret tt.

(** [request_vote]; the timer that it starts is not part of the state. *)
Definition request_vote : net unit :=
  changes (fun c => set_base (set_term (u32 (current_term (base c) + 1)) (base c)) c) ;;
  changes (fun c => set_base (set_chain (setTerm (current_term (base c)) (chain (base c))) (base c)) c) ;;
  changes (fun c =>
    let self := self (base c) in
    let v0 := if isProducer (active0 (base c)) self || (ps_size (active0 (base c)) =? 0)%nat then [self] else [] in
    let v1 := match active1 (base c) with Some next => if isProducer next self then [self] else [] | None => [] end in
    set_votes v0 v1 (set_voted_for self c)) ;;
  become candidate ;;
  head ← (f ← reads (fun c => chain (base c)); lift (head_state f));
  send_each (fun c k => RequestVoteRequest (current_term (base c)) (self (base c)) (hs_blockNum head) (h_term (hs_header head)) k) ;;
  check_votes.

(** [randomize_timer]: a sole producer does not wait. *)
Definition randomize_timer : net unit :=
  now ← reads (fun c => is_sole_producer (base c) && is_state (b_state (base c)) follower);
  if (now : bool) then request_vote else mret tt.

Definition is_quorum_reachable_in (self : AccountNumber) (prods : ProducerSet) : bool :=
  (threshold prods <=? length (List.filter (fun e => is_reachable e.1 || (e.1 =? self)%Z) (activeProducers prods)))%nat.
Definition is_quorum_reachable (c : Cft) : bool :=
  is_quorum_reachable_in (self (base c)) (active0 (base c)) &&
  match active1 (base c) with Some next => is_quorum_reachable_in (self (base c)) next | None => true end.

(** The callback of the election timer. *)
Definition on_timeout : net unit :=
  cft ← reads is_cft;
  if (cft : bool) then
    l ← in_state leader;
    (if (l : bool) then on_base stop_leader ;; become candidate else mret tt) ;;
    v ← reads (fun c => is_state (b_state (base c)) follower || is_state (b_state (base c)) candidate);
    if (v : bool) then request_vote else mret tt
  else mret tt.

(** ** Producers *)

Definition base_cancel : net unit := mret tt.
Definition cancel : net unit := changes (set_match [] []) ;; base_cancel.

(** The update of the numbers that producers have confirmed. *)
Definition resize_match (start_cft : bool) (p0 : ProducerSet) (p1 : option ProducerSet) (c : Cft) : Cft :=
  let m0 := if start_cft then zeros p0
            else if bool_decide (active0 (base c) = p0) then match0 c
            else if bool_decide (active1 (base c) = Some p0) then match1 c else zeros p0 in
  let m1 := match p1 with
            | None => []
            | Some next => if start_cft || negb (bool_decide (active1 (base c) = Some next)) then zeros next else match1 c
            end in
  set_match m0 m1 c.

Definition set_producers (prods : ProducerSet * option ProducerSet) : net unit :=
  let '(p0, p1) := prods in
  if negb (bool_decide (ps_algorithm p0 = cft)) then on_base (base_set_producers p0 p1)
  else
    start_cft ← reads (fun c => negb (is_cft c));
    (if (start_cft : bool) then base_cancel else mret tt) ;;
    l ← in_state leader;
    (if (l : bool) then
       changes (resize_match start_cft p0 p1) ;;
       boot ← reads (fun c => (ps_size (active0 (base c)) =? 0)%nat && negb (bool_decide (is_Some (active1 (base c)))));
       if (boot : bool) then on_base stop_leader ;; become unknown else mret tt
     else mret tt) ;;
    changes (fun c => set_base (set_active p0 p1 (base c)) c) ;;
    p ← reads (fun c => is_producer (base c));
    if (p : bool) then
      new ← reads (fun c => is_state (b_state (base c)) nonvoting || is_state (b_state (base c)) unknown);
      if (new : bool) then become follower ;; randomize_timer
      else if (start_cft : bool) then randomize_timer else mret tt
    else
      s ← in_state shutdown;
      if (s : bool) then mret tt
      else
        n ← in_state nonvoting;
        (if (n : bool) then mret tt else on_base stop_leader) ;;
        become nonvoting.

Definition is_valid_producer (c : Cft) (producer : AccountNumber) (claim : Claim) : bool :=
  bool_decide (getClaim (active0 (base c)) producer = Some claim) ||
  match active1 (base c) with Some next => bool_decide (getClaim next producer = Some claim) | None => false end.

(** ** Blocks *)

(** [on_accept_block], which runs while forks are switched; an exception is
    caught there. *)
Definition on_accept_block (id : Checksum256) (f : ForkDb) : ForkDb :=
  match get_state f id with
  | Some state =>
      if bool_decide (ps_algorithm (producers state) = cft)
      then match commit sha256_header f (h_commitNum (hs_header state)) with Ok (_, f) => f | Abort _ => f end
      else f
  | None => f
  end.

Definition on_fork_switch (new_head : Header) : net unit :=
  send ← reads (fun c => is_cft c && is_state (b_state (base c)) follower && (h_term new_head =? current_term (base c)) &&
                         (commitIndex (chain (base c)) <? h_blockNum new_head));
  if (send : bool) then send_each (fun c k => ConfirmMessage (current_term (base c)) (self (base c)) (h_blockNum new_head) k) else mret tt.

(** [blocknet::reset_producers]. *)
Definition reset_producers (head : BlockHeaderState) : net unit :=
  prods ← (f ← reads (fun c => chain (base c)); lift (getProducers f));
  same ← reads (fun c => bool_decide (prods.1 = active0 (base c)) && bool_decide (prods.2 = active1 (base c)));
  (if (same : bool) then mret tt else set_producers prods) ;;
  restart ← reads (fun c => is_state (b_state (base c)) leader &&
    match f_blockContext (chain (base c)) with Some p => negb (bool_decide (h_previous (pb_header p) = hs_blockId head)) | None => false end);
  if (restart : bool) then on_base stop_leader ;; on_base (start_leader now) else mret tt.

(** [blocknet::switch_fork]. *)
Definition node_switch_fork : net unit :=
  f ← reads (fun c => chain (base c));
  f' ← match switch_fork sha256_header verify_block exec_block on_accept_block f with
       | Some r => lift r
       | None => lift (Abort "out of fuel")
       end;
  change_chain (fun _ => f') ;;
  if bool_decide (f_head f' = f_head f) then mret tt
  else
    head ← lift (head_state f');
    reset_producers head ;;
    on_fork_switch (hs_header head) ;;
    f ← reads (fun c => chain (base c));
    f ← lift (gc f);
    change_chain (fun _ => f).

(** This runs first when any message is handled. *)
Definition update_term (term : Z) : net unit :=
  newer ← reads (fun c => current_term (base c) <? term);
  if (newer : bool) then
    changes (set_votes [] []) ;;
    changes (fun c => set_base (set_chain (setTerm term (chain (base c))) (set_term term (base c))) c) ;;
    changes (set_voted_for null_producer) ;;
    l ← in_state leader;
    if (l : bool) then
      changes (set_match [] []) ;; on_base stop_leader ;; become follower ;; randomize_timer ;; node_switch_fork
    else
      cand ← in_state candidate;
      if (cand : bool) then become follower else mret tt
  else mret tt.

(** ** Confirmations *)

Definition max_num : BlockNum := 2 ^ 32 - 1.

(** The number that enough producers of a group have confirmed. *)
Definition nth_match (p : ProducerSet) (m : list BlockNum) : result BlockNum :=
  let mid := (ps_size p - threshold p)%nat in
  match merge_sort Z.le m !! mid with Some num => mret num | None => Abort "out of range" end.
Definition update_group (p : option ProducerSet) (m : list BlockNum) (producer : AccountNumber) (confirmed : BlockNum) : result (BlockNum * list BlockNum) :=
  match p with
  | None => mret (max_num, m)
  | Some p =>
      m ← match HeaderState.getIndex p producer with
          | Some idx => match m !! idx with Some old => mret (<[idx := Z.max old confirmed]> m) | None => Abort "out of range" end
          | None => mret m
          end;
      match m with [] => mret (max_num, m) | _ => num ← nth_match p m; mret (num, m) end
  end.

Definition update_match_index (producer : AccountNumber) (confirmed : BlockNum) : net unit :=
  c ← reads id;
  '(num0, m0) ← lift (update_group (Some (active0 (base c))) (match0 c) producer confirmed);
  '(num1, m1) ← lift (update_group (active1 (base c)) (match1 c) producer confirmed);
  changes (set_match m0 m1) ;;
  let joint := Z.min num0 num1 in
  (if joint =? max_num then
     lift (check ((ps_size (active0 (base c)) =? 0)%nat && negb (bool_decide (is_Some (active1 (base c)))) && (producer =? self (base c))) "assertion failed")
   else mret tt) ;;
  let joint := if joint =? max_num then confirmed else joint in
  '(changed, f) ← lift (commit sha256_header (chain (base c)) joint);
  change_chain (fun _ => f) ;;
  if (changed : bool) then prods ← lift (getProducers f); set_producers prods else mret tt.

Definition on_produce_block (state : BlockHeaderState) : net unit :=
  cft ← reads is_cft;
  c ← reads id;
  if (cft : bool) then update_match_index (self (base c)) (hs_blockNum state) else mret tt.

(** The block that a header makes irreversible: [n] blocks before [state]. *)
Fixpoint committed_ancestor (f : ForkDb) (state : BlockHeaderState) (n : nat) : result BlockHeaderState :=
  match n with
  | O => Ok state
  | S n => prev ← assert (get_state f (h_previous (hs_header state))); committed_ancestor f prev n
  end.

Definition on_accept_block_header (state : BlockHeaderState) : net unit :=
  if bool_decide (ps_algorithm (producers state) = cft) then
    update_term (h_term (hs_header state)) ;;
    f ← reads (fun c => chain (base c));
    let commitNum := h_commitNum (hs_header state) in
    if commitIndex f <? commitNum then
      committed ← lift (committed_ancestor f state (Z.to_nat (hs_blockNum state - commitNum)));
      if in_best_chain f (hs_blockId committed) (hs_blockNum committed) then mret tt
      else f ← lift (set_subtree f committed); change_chain (fun _ => f)
    else mret tt
  else mret tt.

(** ** Messages *)

Definition recv_confirm (term : Z) (follower_id : AccountNumber) (head_num : BlockNum) (signer : Claim) : net unit :=
  cft ← reads is_cft;
  f ← reads (fun c => chain (base c));
  if negb cft || (head_num <? commitIndex f) then mret tt
  else match get_state f (get_block_id sha256_header f head_num) with
  | None => mret tt
  | Some state =>
      if negb (h_term (hs_header state) =? term) then mret tt
      else
        lift (validate_producer state follower_id signer) ;;
        update_term term ;;
        now ← reads (fun c => (term =? current_term (base c)) && is_state (b_state (base c)) leader);
        if (now : bool) then update_match_index follower_id head_num else mret tt
  end.

(** Whether the log of a candidate is not behind. *)
Definition up_to_date (last_log_term : Z) (last_log_index : BlockNum) (head : BlockHeaderState) : bool :=
  (h_term (hs_header head) <? last_log_term) || ((last_log_term =? h_term (hs_header head)) && (hs_blockNum head <=? last_log_index)).

Definition recv_request (term : Z) (candidate_id : AccountNumber) (last_log_index : BlockNum) (last_log_term : Z) (signer : Claim) : net unit :=
  ok ← reads (fun c => is_cft c && is_valid_producer c candidate_id signer);
  if (ok : bool) then
    update_term term ;;
    fl ← in_state follower;
    if (fl : bool) then
      head ← (f ← reads (fun c => chain (base c)); lift (head_state f));
      granted ← reads (fun c => (current_term (base c) <=? term) && ((voted_for c =? null_producer) || (voted_for c =? candidate_id)) &&
                                up_to_date last_log_term last_log_index head);
      (if (granted : bool) then changes (set_voted_for candidate_id) else mret tt) ;;
      send_each (fun c k => RequestVoteResponse (current_term (base c)) candidate_id (self (base c)) granted k)
    else mret tt
  else mret tt.

Definition add_vote (p : option ProducerSet) (voter : AccountNumber) (votes : list AccountNumber) : list AccountNumber :=
  match p with
  | Some p => if isProducer p voter && negb (bool_decide (voter ∈ votes)) then votes ++ [voter] else votes
  | None => votes
  end.
Definition recv_response (term : Z) (candidate_id voter_id : AccountNumber) (vote_granted : bool) (signer : Claim) : net unit :=
  ok ← reads (fun c => is_cft c && is_valid_producer c voter_id signer);
  if (ok : bool) then
    update_term term ;;
    mine ← reads (fun c => (candidate_id =? self (base c)) && (term =? current_term (base c)) && vote_granted && is_state (b_state (base c)) candidate);
    if (mine : bool) then
      changes (fun c => set_votes (add_vote (Some (active0 (base c))) voter_id (votes0 c)) (add_vote (active1 (base c)) voter_id (votes1 c)) c) ;;
      check_votes
    else mret tt
  else mret tt.

Definition recv (m : Message) : net unit :=
  match m with
  | ConfirmMessage term follower_id head_num signer => recv_confirm term follower_id head_num signer
  | RequestVoteRequest term candidate_id last_log_index last_log_term signer => recv_request term candidate_id last_log_index last_log_term signer
  | RequestVoteResponse term candidate_id voter_id vote_granted signer => recv_response term candidate_id voter_id vote_granted signer
  end.

(** [light_verify] under this algorithm. *)
Definition cft_light_verify (state : LightHeaderState) (info : Info) (block : SignedHeader) : result BlockNum :=
  if negb (bool_decide (ps_algorithm (lh_producers state) = cft)) then Abort "light verify: Unknown consensus algorithm"
  else
    (if (ps_size (lh_producers state) =? 0)%nat then mret tt
     else match getClaim (lh_producers state) (h_producer (i_header info)), authState (lh_producers state) with
     | None, _ => Abort "is not a producer at block"
     | Some _, None => Abort "null dereference"
     | Some claim, Some auth => verify (auth_revision auth) info claim (sh_signature block)
     end) ;;
    mret (h_commitNum (i_header info)).
End cft.
