(* ===== verification/CftElection.v ===== *)
(** * psibase: elections of the crash fault tolerant consensus

    What the handlers of [Cft] guarantee together: while the producers do not
    change, a term has at most one leader.  Nodes take steps in any order, and a
    message may be delivered late, more than once, to any node, or never.  Also:
    a block becomes irreversible only when a quorum has confirmed it. *)

From S2P Require Import Prelude Ordered Services AuthState HeaderState BlockContext LightHeader ForkDb Blocknet Cft.

#[local] Set Default Proof Using "Type".

(** ** Operations of the fork database keep the producers of its states *)

Section states.
Context (sha256_header : Header -> Checksum256).
Context (verify_block : VerifyTables -> Info -> Claim -> bytes -> result unit).
Context (exec_block : Revision -> SignedHeader -> Claim -> VerifyTables -> result (Revision * Checksum256)).
Context (P : BlockHeaderState -> Prop).
Context (P_revision : forall r s, P s -> P (set_revision r s)) (P_invalid : forall s, P s -> P (set_invalid s)).

Definition all_states (l : omap Checksum256 BlockHeaderState) : Prop := Forall (fun e => P e.2) l.
Definition states_all (f : ForkDb) : Prop := all_states (f_states f).

Lemma all_states_find l id s : all_states l -> find id l = Some s -> P s.
Proof. intros H. induction H as [|[k v] l Hv Hl IH]; cbn; [done|]. by destruct (cmp id k); intros ?; simplify_eq; auto. Qed.
Lemma states_all_get f id s : states_all f -> get_state f id = Some s -> P s.
Proof. apply all_states_find. Qed.
Lemma all_states_assign l id s : all_states l -> P s -> all_states (assign id s l).
Proof.
  intros H Hs. unfold all_states, assign in *. rewrite Forall_forall in *. intros e ([k v] & -> & Hx)%list_elem_of_fmap.
  specialize (H _ Hx). cbn in *. by destruct (cmp _ _).
Qed.
Lemma all_states_erase l id : all_states l -> all_states (erase id l).
Proof. unfold all_states, erase. rewrite !Forall_forall. intros H e He. apply list_elem_of_In, filter_In in He as [He _]. by apply H, list_elem_of_In. Qed.

Lemma set_subtree_all f root f' : states_all f -> set_subtree f root = Ok f' -> states_all f'.
Proof. unfold set_subtree. intros H E. ok_inv. destruct (hs_invalid root); [done|]. by ok_inv. Qed.
Lemma commit_all f num b f' : states_all f -> commit sha256_header f num = Ok (b, f') -> states_all f'.
Proof.
  unfold commit. intros H E. apply bind_ok in E as (h & Eh & E). apply bind_ok in E as (f1 & E1 & E).
  injection E as <- <-. unfold states_all. cbn.
  destruct (byOrderIndex f) as [|[[[? first] ?] ?] ?]; [done|]. destruct (_ <? _); [|by injection E1 as <-].
  apply bind_ok in E1 as (root & _ & E1). exact (set_subtree_all _ _ _ H E1).
Qed.
Lemma gc_all f f' : states_all f -> gc f = Ok f' -> states_all f'.
Proof.
  unfold gc. intros H E. apply bind_ok in E as ([] & _ & E). injection E as <-.
  enough (states_all (foldl (fun f '(id, b) => gc_block f id b) f (f_blocks f))) by (unfold states_all in *; by case_match).
  generalize (f_blocks f) as l. intros l. revert f H. induction l as [|[id b] l IH]; intros f H; [done|]. cbn. apply IH.
  unfold gc_block. case_match; [|done]. unfold states_all in *. cbn. case_match; cbn; auto using all_states_erase.
Qed.
Lemma blacklist_loop_all index : forall l, all_states l -> all_states (blacklist_loop l index).1.
Proof using P_invalid.
  induction index as [|[o id] index IH]; intros l H; [done|]. cbn. destruct (find id l) as [s|] eqn:E.
  - case_match; [by eauto using all_states_assign, all_states_find|]. specialize (IH l H). by destruct (blacklist_loop l index).
  - specialize (IH l H). by destruct (blacklist_loop l index).
Qed.
Lemma blacklist_subtree_all f root : states_all f -> P root -> states_all (blacklist_subtree f root).
Proof using P_invalid.
  unfold blacklist_subtree. intros H Hr.
  pose proof (all_states_assign _ (hs_blockId root) _ H (P_invalid _ Hr)) as H'.
  case_match; [|done].
  match goal with |- context [blacklist_loop ?l ?i] => pose proof (blacklist_loop_all i l H') as Hl; by destruct (blacklist_loop l i) end.
Qed.

Context (accept : Checksum256 -> ForkDb -> ForkDb) (accept_all : forall id f, states_all f -> states_all (accept id f)).

Lemma execute_block_all f prev state good f' : states_all f -> P state ->
  execute_block verify_block exec_block accept f prev state = Ok (good, f') -> states_all f'.
Proof using P_invalid P_revision accept_all.
  unfold execute_block. intros H Hs E. destruct (hs_revision state); [by injection E as <- <-|].
  apply bind_ok in E as (r & _ & E). apply bind_ok in E as (b & _ & E).
  case_match; injection E as <- <-; [|done]. apply accept_all. apply all_states_assign; auto.
Qed.
Lemma execute_fork_all entries : forall f prev good f', states_all f ->
  execute_fork verify_block exec_block accept f prev entries = Ok (good, f') -> states_all f'.
Proof using P_invalid P_revision accept_all.
  induction entries as [|[num id] entries IH]; intros f prev good f' H E; cbn [execute_fork] in E; [by injection E as <- <-|].
  apply bind_ok in E as (p & _ & E). apply bind_ok in E as (n & En & E). apply bind_ok in E as ([g f1] & Eb & E).
  assert (P n) as Hn. { unfold assert in En. destruct (get_state f id) eqn:E'; [|done]. injection En as <-. by eapply states_all_get. }
  pose proof (execute_block_all _ _ _ _ _ H Hn Eb) as H1. destruct g.
  - apply bind_ok in E as (x & _ & E). by eapply IH; [|exact E].
  - injection E as <- <-. by apply blacklist_subtree_all.
Qed.
Lemma trySetHead_all f new good f' : states_all f ->
  trySetHead sha256_header verify_block exec_block accept f new = Ok (good, f') -> states_all f'.
Proof using P_invalid P_revision accept_all.
  unfold trySetHead. intros H E. case_bool_decide; [by injection E as <- <-|].
  apply bind_ok in E as (h & _ & E). apply bind_ok in E as ([] & _ & E).
  apply bind_ok in E as ([id above] & _ & E). apply bind_ok in E as ([kept repl] & _ & E).
  destruct kept as [|[? common] kept]; [done|]. apply bind_ok in E as (p & _ & E). apply bind_ok in E as ([] & _ & E).
  apply bind_ok in E as ([g f1] & Ef & E). eapply execute_fork_all in Ef; [|exact H].
  destruct g; [apply bind_ok in E as ([] & _ & E)|]; by injection E as <- <-.
Qed.
Lemma switch_fork_all f r f' : states_all f -> switch_fork sha256_header verify_block exec_block accept f = Some r -> r = Ok f' -> states_all f'.
Proof using P_invalid P_revision accept_all.
  unfold switch_fork. intros H E ->. destruct (get_state f (f_head f)) as [h|]; [|done].
  revert E. generalize (length (byOrderIndex f)) as n. intros n. revert f H.
  induction n as [|n IH]; intros f H E; rewrite switch_loop_eq in E;
    (destruct (best_block f) as [[o id]|]; [|done]); (destruct (get_state f id) as [nh|]; [|done]);
    (case_match; [injection E as E; case_bool_decide; [by injection E as <-|];
       apply bind_ok in E as ([g f1] & Et & E); apply bind_ok in E as ([] & _ & E); injection E as <-; by eapply trySetHead_all|]);
    destruct (trySetHead _ _ _ _ f nh) as [[[] f1]|] eqn:Et; simplify_eq; eauto using trySetHead_all.
Qed.
End states.

(** ** Running handlers *)

Lemma reads_bind {A B} (f : Cft -> A) (k : A -> net B) c : (reads f ≫= k) c = k (f c) c.
Proof. cbv [mbind net_bind reads]. by destruct (k _ _) as [[[] ?]|]. Qed.
Lemma changes_bind {B} f (k : unit -> net B) c : (changes f ≫= k) c = k tt (f c).
Proof. cbv [mbind net_bind changes]. by destruct (k _ _) as [[[] ?]|]. Qed.
Lemma net_bind_ok {A B} (m : net A) (k : A -> net B) c b c' out : (m ≫= k) c = Ok (b, c', out) ->
  exists a c1 out1 out2, m c = Ok (a, c1, out1) /\ k a c1 = Ok (b, c', out2) /\ out = out1 ++ out2.
Proof. cbv [mbind net_bind]. destruct (m c) as [[[a c1] out1]|]; [|done]. destruct (k a c1) as [[[? ?] ?]|] eqn:E; [|done]. intros. simplify_eq. eauto 10. Qed.

Section election.
Context (sha256_header : Header -> Checksum256).
Context (verify_block : VerifyTables -> Info -> Claim -> bytes -> result unit).
Context (exec_block : Revision -> SignedHeader -> Claim -> VerifyTables -> result (Revision * Checksum256)).
Context (now : Blocknet -> Z).
Context (signs : Claim -> bool).
Context (p : ProducerSet).

(** All blocks that a node knows have the producers [p]. *)
Definition has_producers (s : BlockHeaderState) : Prop := producers s = p /\ nextProducers s = None.
Definition steady (f : ForkDb) : Prop := states_all has_producers f.

(** [voter] has sent a message that grants its vote. *)
Definition granted (sent : list Message) (term : Z) (candidate voter : AccountNumber) : Prop :=
  exists signer, RequestVoteResponse term candidate voter true signer ∈ sent.
Definition no_grants (out : list Message) : Prop := forall t c v, ~ granted out t c v.

Definition vote (sent : list Message) (c : Cft) (x : AccountNumber) : Prop :=
  isProducer p x = true /\
  ((x = self (base c) /\ voted_for c = self (base c)) \/ granted sent (current_term (base c)) (self (base c)) x).

(** The invariant of a node, for the messages that were sent. *)
Record node_ok (sent : list Message) (v : AccountNumber) (c : Cft) : Prop := {
  ok_self : self (base c) = v;
  ok_active0 : active0 (base c) = p;
  ok_active1 : active1 (base c) = None;
  ok_term : 0 <= current_term (base c);
  ok_chain : steady (chain (base c));
  ok_nodup : NoDup (votes0 c);
  ok_votes : Forall (vote sent c) (votes0 c);
  ok_leader : b_state (base c) = leader -> (ps_size p / 2 < length (votes0 c))%nat
}.

(** Terms do not decrease, and a vote is for the whole term. *)
Definition progress (c c' : Cft) : Prop :=
  current_term (base c) <= current_term (base c') /\
  (current_term (base c) = current_term (base c') -> voted_for c <> null_producer -> voted_for c' = voted_for c).
#[local] Instance progress_refl : Reflexive progress.
Proof. split; [lia|done]. Qed.
Lemma progress_trans c1 c2 c3 : progress c1 c2 -> progress c2 c3 -> progress c1 c3.
Proof.
  intros [H1 V1] [H2 V2]. split; [lia|]. intros. rewrite V2, V1 by (lia || done || (rewrite V1; [done|lia|done])). done.
Qed.

(** A handler that keeps the invariant and grants no vote. *)
Definition keeps {A} (m : net A) : Prop := forall sent v c a c' out,
  node_ok sent v c -> m c = Ok (a, c', out) -> node_ok sent v c' /\ progress c c' /\ no_grants out.

Lemma no_grants_app out1 out2 : no_grants out1 -> no_grants out2 -> no_grants (out1 ++ out2).
Proof. intros H1 H2 t c v [k H]. apply elem_of_app in H as [H|H]; [eapply H1|eapply H2]; by exists k. Qed.
Lemma no_grants_nil : no_grants [].
Proof. intros t c v [k H]. by apply elem_of_nil in H. Qed.

Lemma node_keeps_bind {A B} (m : net A) (k : A -> net B) : keeps m -> (forall a, keeps (k a)) -> keeps (m ≫= k).
Proof.
  intros Hm Hk sent v c b c' out Hc (a & c1 & o1 & o2 & E1 & E2 & ->)%net_bind_ok.
  destruct (Hm _ _ _ _ _ _ Hc E1) as (H1 & P1 & N1), (Hk a _ _ _ _ _ _ H1 E2) as (H2 & P2 & N2).
  eauto using progress_trans, no_grants_app.
Qed.
Lemma node_keeps_same {A} (m : net A) : (forall c a c' out, m c = Ok (a, c', out) -> c' = c /\ out = []) -> keeps m.
Proof. intros Hm sent v c a c' out Hc E. destruct (Hm _ _ _ _ E) as [-> ->]. split_and!; [done|reflexivity|apply no_grants_nil]. Qed.
Lemma node_keeps_ret {A} (a : A) : keeps (mret a).
Proof. apply node_keeps_same. by intros ???? [= <- <- <-]. Qed.
Lemma node_keeps_reads {A} (f : Cft -> A) : keeps (reads f).
Proof. apply node_keeps_same. by intros ???? [= <- <- <-]. Qed.
Lemma node_keeps_lift {A} (r : result A) : keeps (lift r).
Proof. apply node_keeps_same. intros c a c' out. unfold lift. destruct r; [|done]. by intros [= <- <- <-]. Qed.
Lemma node_keeps_send_each f : (forall c k, ~ exists t x v k', f c k = RequestVoteResponse t x v true k') -> keeps (send_each signs f).
Proof.
  intros Hf sent v c a c' out Hc [= <- <- <-]. split_and!; [done|reflexivity|].
  intros t x w [k H]. apply list_elem_of_fmap in H as (k' & E & _). apply (Hf c k'). eauto.
Qed.

(** What a change may do: it keeps names, terms, votes and producers. *)
Record same_votes (c c' : Cft) : Prop := {
  sv_self : self (base c') = self (base c);
  sv_active0 : active0 (base c') = active0 (base c);
  sv_active1 : active1 (base c') = active1 (base c);
  sv_term : current_term (base c') = current_term (base c);
  sv_voted : voted_for c' = voted_for c;
  sv_votes : votes0 c' = votes0 c
}.
Lemma same_votes_ok sent v c c' : node_ok sent v c -> same_votes c c' -> steady (chain (base c')) ->
  (b_state (base c') = leader -> (ps_size p / 2 < length (votes0 c))%nat) -> node_ok sent v c' /\ progress c c'.
Proof.
  intros [] [] Hf Hl. split.
  - split; rewrite ?sv_self0, ?sv_active2, ?sv_active3, ?sv_term0, ?sv_votes0; try done; [].
    eapply Forall_impl; [exact ok_votes0|]. intros x Hx. unfold vote in *. by rewrite sv_self0, sv_term0, sv_voted0.
  - split; [lia|congruence].
Qed.
Lemma node_keeps_changes f : (forall c, same_votes c (f c) /\ b_state (base (f c)) = b_state (base c)) ->
  (forall c, steady (chain (base c)) -> steady (chain (base (f c)))) -> keeps (changes f).
Proof.
  intros Hf Hs sent v c a c' out Hc [= <- <- <-]. destruct (Hf c) as [H Hb].
  destruct (same_votes_ok _ _ _ _ Hc H) as [H1 H2]; [apply Hs, Hc|rewrite Hb; apply Hc|].
  eauto using no_grants_nil.
Qed.
Lemma node_keeps_become s : s <> leader -> keeps (become s).
Proof.
  intros Hs sent v c a c' out Hc [= <- <- <-].
  destruct (same_votes_ok _ _ _ (set_base (set_state s (base c)) c) Hc) as [H1 H2]; [done|apply Hc|done|]. eauto using no_grants_nil.
Qed.
Lemma node_keeps_change_chain f : steady f -> keeps (change_chain (fun _ => f)).
Proof. intros Hf. by apply node_keeps_changes. Qed.
Lemma node_keeps_if {A} (b : bool) (m1 m2 : net A) : keeps m1 -> keeps m2 -> keeps (if b then m1 else m2).
Proof. by destruct b. Qed.
Lemma node_keeps_on_base f : (forall b b', f b = Ok b' -> exists x, b' = set_chain x b /\ (steady (chain b) -> steady x)) -> keeps (on_base f).
Proof.
  intros Hf sent v c a c' out Hc E. unfold on_base in E. destruct (f (base c)) as [b|] eqn:Eb; [|done].
  injection E as <- <- <-. destruct (Hf _ _ Eb) as (x & -> & Hx).
  destruct (same_votes_ok _ _ _ (set_base (set_chain x (base c)) c) Hc) as [H1 H2]; [done|apply Hx, Hc|apply Hc|].
  eauto using no_grants_nil.
Qed.
Context (p_cft : ps_algorithm p = cft) (p_size : (2 <= ps_size p)%nat) (p_null : isProducer p null_producer = false).

(** *** Starting and stopping production *)

Lemma node_keeps_start_leader : keeps (on_base (start_leader now)).
Proof.
  apply node_keeps_on_base. intros b b' E. unfold start_leader in E. apply bind_ok in E as ([] & _ & E). apply bind_ok in E as (f & Ef & E).
  injection E as <-. exists f. split; [done|]. unfold chain_start_block in Ef.
  apply bind_ok in Ef as ([] & _ & Ef). apply bind_ok in Ef as (h & _ & Ef). apply bind_ok in Ef as (r & _ & Ef).
  apply bind_ok in Ef as ([? bc] & _ & Ef). by injection Ef as <-.
Qed.
Lemma node_keeps_stop_leader : keeps (on_base stop_leader).
Proof.
  apply node_keeps_on_base. intros b b' E. unfold stop_leader in E. destruct (is_state _ _).
  - apply bind_ok in E as (f & Ef & E). injection E as <-. exists f. split; [done|].
    unfold chain_abort_block in Ef. apply bind_ok in Ef as ([] & _ & Ef). by injection Ef as <-.
  - injection E as <-. exists (chain b). by destruct b.
Qed.
Lemma node_keeps_set_match m0 m1 : keeps (changes (set_match m0 m1)).
Proof. by apply node_keeps_changes. Qed.
Lemma node_keeps_bind_steady {A B} (g : Cft -> A) (k : A -> net B) : (forall c, steady (chain (base c)) -> keeps (k (g c))) -> keeps (reads g ≫= k).
Proof. intros Hk sent v c b c' out Hc E. rewrite reads_bind in E. exact (Hk c (ok_chain _ _ _ Hc) _ _ _ _ _ _ Hc E). Qed.
Lemma node_keeps_bind_lift {A B} (r : result A) (k : A -> net B) : (forall a, r = Ok a -> keeps (k a)) -> keeps (lift r ≫= k).
Proof.
  intros Hk sent v c b c' out Hc (a & c1 & o1 & o2 & E1 & E2 & ->)%net_bind_ok.
  unfold lift in E1. destruct r as [x|]; [|done]. injection E1 as <- <- <-. exact (Hk _ eq_refl _ _ _ _ _ _ Hc E2).
Qed.
Lemma node_keeps_bind_assoc {A B C} (m : net A) (g : A -> net B) (k : B -> net C) : keeps (m ≫= fun a => g a ≫= k) -> keeps ((m ≫= g) ≫= k).
Proof.
  intros H sent v c b c' out Hc E. apply (H sent v c b c' out Hc). rewrite <- E. unfold mbind, net_bind.
  destruct (m c) as [[[a c1] o1]|]; [|done]. destruct (g a c1) as [[[a' c2] o2]|]; [|done]. destruct (k a' c2) as [[[? ?] ?]|]; [|done].
  by rewrite app_assoc.
Qed.

Lemma gc_steady f f' : gc f = Ok f' -> steady f -> steady f'.
Proof. intros E H. exact (gc_all _ _ _ H E). Qed.
Lemma set_subtree_steady f root f' : set_subtree f root = Ok f' -> steady f -> steady f'.
Proof. intros E H. exact (set_subtree_all _ _ _ _ H E). Qed.
Lemma commit_steady f num b f' : commit sha256_header f num = Ok (b, f') -> steady f -> steady f'.
Proof. intros E H. exact (commit_all _ _ _ _ _ _ H E). Qed.

(** Go through a handler. *)
Ltac node_keeps_step :=
  match goal with
  | |- keeps (reads (fun c => chain (base c)) ≫= _) => apply node_keeps_bind_steady; intros ? ?
  | |- keeps (lift _ ≫= _) => apply node_keeps_bind_lift; intros ? ?
  | |- keeps (_ ≫= _) => apply node_keeps_bind; [|intros ?]
  | |- keeps (if _ then _ else _) => apply node_keeps_if
  | |- keeps (mret _) => apply node_keeps_ret
  | |- keeps (reads _) => apply node_keeps_reads
  | |- keeps (in_state _) => apply node_keeps_reads
  | |- keeps (lift _) => apply node_keeps_lift
  | |- keeps (become _) => apply node_keeps_become; done
  | |- keeps (send_each _ _) => apply node_keeps_send_each; intros ? ? (? & ? & ? & ? & ?); discriminate
  | |- keeps (change_chain _) => apply node_keeps_change_chain; solve [eauto with keeps]
  | |- keeps _ => solve [eauto with keeps]
  end.
#[local] Create HintDb keeps.
#[local] Hint Resolve gc_steady set_subtree_steady commit_steady node_keeps_start_leader node_keeps_stop_leader node_keeps_set_match node_keeps_change_chain : keeps.

Lemma node_keeps_check_votes : keeps (check_votes now).
Proof.
  intros sent v c a c' out Hc E. unfold check_votes in E. rewrite reads_bind in E.
  destruct (threshold_reached c) eqn:Et; [|by eapply node_keeps_ret].
  unfold become in E. rewrite !changes_bind in E.
  match type of E with on_base _ ?c1 = _ => set (c2 := c1) in E end.
  destruct (same_votes_ok sent v c c2 Hc) as [H P]; [done|apply Hc| |].
  { intros _. unfold threshold_reached in Et. rewrite (ok_active0 _ _ _ Hc) in Et. by zbool. }
  destruct (node_keeps_start_leader _ _ _ _ _ _ H E) as (H' & P' & N). eauto using progress_trans.
Qed.

#[local] Hint Resolve node_keeps_check_votes : keeps.

Lemma not_sole c : active0 (base c) = p -> active1 (base c) = None -> is_sole_producer (base c) = false.
Proof using p_size.
  intros E0 E1. unfold is_sole_producer. rewrite E0, E1. case_match; [done|]. destruct (Nat.eqb_spec (ps_size p) 1); [lia|done].
Qed.
Lemma node_keeps_randomize_timer : keeps (randomize_timer now signs).
Proof using p_size.
  intros sent v c a c' out Hc E. unfold randomize_timer in E. rewrite reads_bind, (not_sole c) in E by apply Hc.
  exact (node_keeps_ret _ _ _ _ _ _ _ Hc E).
Qed.

(** A new term: no vote is left. *)
Lemma new_term_ok sent v c c' : node_ok sent v c -> self (base c') = v -> active0 (base c') = p -> active1 (base c') = None ->
  current_term (base c) < current_term (base c') -> steady (chain (base c')) -> NoDup (votes0 c') -> Forall (vote sent c') (votes0 c') ->
  b_state (base c') <> leader -> node_ok sent v c' /\ progress c c'.
Proof. clear p_size. intros []. intros. split; [split; (done || lia)|split; lia]. Qed.

Lemma node_keeps_request sent v c a c' out : node_ok sent v c -> current_term (base c) < 2 ^ 32 - 1 ->
  request_vote now signs c = Ok (a, c', out) -> node_ok sent v c' /\ progress c c' /\ no_grants out.
Proof using p_size.
  intros Hc Ht E. unfold request_vote, become in E. rewrite !changes_bind in E.
  match type of E with mbind _ _ ?x = _ => set (c1 := x) in E end.
  assert (current_term (base c1) = current_term (base c) + 1) as Et by (cbn; apply wrap_small; pose proof (ok_term _ _ _ Hc); lia).
  destruct (new_term_ok sent v c c1 Hc) as [H P]; try apply Hc; [lia|..|done|].
  { cbn. case_match; [apply NoDup_singleton|constructor]. }
  { cbn. rewrite (ok_active0 _ _ _ Hc). destruct (Nat.eqb_spec (ps_size p) 0); [lia|]. rewrite orb_false_r. case_match; [|done].
    repeat constructor; cbn; auto. }
  assert (keeps (head ← (f ← reads (fun c => chain (base c)); lift (head_state f));
     send_each signs (fun c k => RequestVoteRequest (current_term (base c)) (self (base c)) (hs_blockNum head) (h_term (hs_header head)) k) ;;
     check_votes now)) as K.
  { repeat node_keeps_step. }
  destruct (K _ _ _ _ _ _ H E) as (H' & P' & N). eauto using progress_trans.
Qed.

Lemma node_keeps_on_timeout sent v c a c' out : node_ok sent v c -> current_term (base c) < 2 ^ 32 - 1 ->
  on_timeout now signs c = Ok (a, c', out) -> node_ok sent v c' /\ progress c c' /\ no_grants out.
Proof using p_size.
  intros Hc Ht E. unfold on_timeout in E. rewrite reads_bind in E. destruct (is_cft c); [|by eapply node_keeps_ret].
  unfold in_state in E. rewrite reads_bind in E.
  apply net_bind_ok in E as (u & c1 & o1 & o2 & E1 & E2 & ->).
  assert (current_term (base c1) = current_term (base c)) as Et.
  { destruct (is_state _ leader) eqn:El; [|by injection E1 as <- <- <-].
    apply net_bind_ok in E1 as (? & c2 & ? & ? & Es & Eb & ->). injection Eb as <- <-.
    unfold on_base, stop_leader in Es. rewrite El in Es. destruct (chain_abort_block _); [|done]. by injection Es as <- <- <-. }
  assert (node_ok sent v c1 /\ progress c c1 /\ no_grants o1) as (H1 & P1 & N1).
  { destruct (is_state _ leader); [|by eapply node_keeps_ret].
    refine (node_keeps_bind _ _ node_keeps_stop_leader _ _ _ _ _ _ _ Hc E1). intros _. by apply node_keeps_become. }
  rewrite reads_bind in E2. destruct (_ || _).
  - rewrite <- Et in Ht. destruct (node_keeps_request _ _ _ _ _ _ H1 Ht E2) as (H2 & P2 & N2). eauto using progress_trans, no_grants_app.
  - destruct (node_keeps_ret _ _ _ _ _ _ _ H1 E2) as (H2 & P2 & N2). eauto using progress_trans, no_grants_app.
Qed.
(** *** Producers and blocks *)

Lemma has_producers_revision r s : has_producers s -> has_producers (set_revision r s).
Proof. done. Qed.
Lemma has_producers_invalid s : has_producers s -> has_producers (set_invalid s).
Proof. done. Qed.
Lemma getProducers_steady f prods : steady f -> getProducers f = Ok prods -> prods = (p, None).
Proof.
  unfold getProducers, head_state, assert. intros Hf E. destruct (get_state f (f_head f)) as [s|] eqn:Es; [|done].
  destruct (states_all_get _ _ _ _ Hf Es) as [Hp Hn]. injection E as <-. unfold advance_producers. by rewrite Hn, Hp.
Qed.
Lemma on_accept_block_steady id f : steady f -> steady (on_accept_block sha256_header id f).
Proof.
  intros Hf. unfold on_accept_block. destruct (get_state f id) as [st|]; [|done]. case_bool_decide; [|done].
  destruct (commit _ _ _) as [[changed f']|] eqn:E; [|done]. exact (commit_all _ _ _ _ _ _ Hf E).
Qed.

Lemma node_keeps_set_active : keeps (changes (fun c => set_base (set_active p None (base c)) c)).
Proof.
  intros sent v c a c' out Hc [= <- <- <-].
  destruct (same_votes_ok sent v c (set_base (set_active p None (base c)) c) Hc) as [H1 H2]; [|apply Hc|apply Hc|eauto using no_grants_nil].
  destruct Hc. by split; cbn.
Qed.
Lemma node_keeps_resize_match b p0 p1 : keeps (changes (resize_match b p0 p1)).
Proof. by apply node_keeps_changes. Qed.
#[local] Hint Resolve node_keeps_set_active node_keeps_resize_match node_keeps_randomize_timer : keeps.

Lemma node_keeps_set_producers : keeps (set_producers now signs (p, None)).
Proof using p_cft p_size.
  unfold set_producers, base_cancel. rewrite bool_decide_true by done. cbn [negb]. repeat node_keeps_step.
Qed.
#[local] Hint Resolve node_keeps_set_producers : keeps.

Lemma node_keeps_reset_producers head : keeps (reset_producers now signs head).
Proof using p_cft p_size.
  unfold reset_producers. apply node_keeps_bind_assoc, node_keeps_bind_steady. intros c Hc. apply node_keeps_bind_lift.
  intros prods ->%getProducers_steady; [|done]. repeat node_keeps_step.
Qed.
#[local] Hint Resolve node_keeps_reset_producers : keeps.

Lemma node_keeps_on_fork_switch h : keeps (on_fork_switch signs h).
Proof. unfold on_fork_switch. repeat node_keeps_step. Qed.
#[local] Hint Resolve node_keeps_on_fork_switch : keeps.

Lemma node_keeps_node_switch_fork : keeps (node_switch_fork sha256_header verify_block exec_block now signs).
Proof using p_cft p_size.
  unfold node_switch_fork. apply node_keeps_bind_steady. intros c Hc.
  destruct (switch_fork _ _ _ _ _) as [r|] eqn:E; [|by intros sent v ? ? ? ? ? (? & ? & ? & ? & ? & ?)%net_bind_ok].
  apply node_keeps_bind_lift. intros f' ->.
  pose proof (switch_fork_all _ _ _ has_producers has_producers_revision has_producers_invalid _ on_accept_block_steady _ _ _ Hc E eq_refl) as Hf'.
  repeat node_keeps_step.
Qed.
#[local] Hint Resolve node_keeps_node_switch_fork : keeps.

Lemma node_keeps_update_term term : keeps (update_term sha256_header verify_block exec_block now signs term).
Proof using p_cft p_size.
  intros sent v c a c' out Hc E. unfold update_term in E. rewrite reads_bind in E.
  destruct (Z.ltb_spec (current_term (base c)) term) as [Ht|_]; [|exact (node_keeps_ret _ _ _ _ _ _ _ Hc E)].
  rewrite !changes_bind in E. unfold in_state in E. rewrite reads_bind in E.
  match type of E with (if is_state (b_state (base ?x)) _ then _ else _) _ = _ => set (c1 := x) in E end.
  destruct (is_state _ leader) eqn:El.
  - rewrite !changes_bind in E. apply net_bind_ok in E as (u & c2 & o1 & o2 & E1 & E2 & ->).
    unfold become in E2. rewrite changes_bind in E2. set (c3 := set_base (set_state follower (base c2)) c2) in E2.
    unfold on_base in E1. destruct (stop_leader _) as [b|] eqn:Es; [|done]. injection E1 as <- <- <-.
    unfold stop_leader in Es. cbn in Es, El. rewrite El in Es. apply bind_ok in Es as (f & Ef & Es). injection Es as <-.
    unfold chain_abort_block in Ef. apply bind_ok in Ef as ([] & _ & Ef). injection Ef as <-.
    destruct (new_term_ok sent v c c3 Hc) as [H3 P3]; try apply Hc; try done; [apply NoDup_nil_2|].
    assert (keeps (randomize_timer now signs ;; node_switch_fork sha256_header verify_block exec_block now signs)) as K by repeat node_keeps_step.
    destruct (K _ _ _ _ _ _ H3 E2) as (H4 & P4 & N4). eauto using progress_trans.
  - destruct (new_term_ok sent v c c1 Hc) as [H1 P1]; try apply Hc; try done; [apply NoDup_nil_2|by apply bool_decide_eq_false_1 in El|].
    assert (keeps (cand ← reads (fun c => is_state (b_state (base c)) candidate); if (cand : bool) then become follower else mret tt)) as K by repeat node_keeps_step.
    destruct (K _ _ _ _ _ _ H1 E) as (H2 & P2 & N2). eauto using progress_trans.
Qed.
#[local] Hint Resolve node_keeps_update_term : keeps.

Lemma node_keeps_update_match_index producer confirmed : keeps (update_match_index sha256_header now signs producer confirmed).
Proof using p_cft p_size.
  unfold update_match_index. apply node_keeps_bind_steady. intros c Hc. unfold id.
  apply node_keeps_bind_lift. intros [num0 m0] _. apply node_keeps_bind_lift. intros [num1 m1] _.
  apply node_keeps_bind; [by auto with keeps|intros _]. apply node_keeps_bind; [repeat node_keeps_step|intros _].
  apply node_keeps_bind_lift. intros [changed f] Ef. pose proof (commit_steady _ _ _ _ Ef Hc) as Hf.
  repeat node_keeps_step. rewrite (getProducers_steady f a0) by done. auto with keeps.
Qed.
#[local] Hint Resolve node_keeps_update_match_index : keeps.

Lemma node_keeps_on_produce_block state : keeps (on_produce_block sha256_header now signs state).
Proof using p_cft p_size. unfold on_produce_block. repeat node_keeps_step. Qed.
Lemma node_keeps_on_accept_block_header state : keeps (on_accept_block_header sha256_header verify_block exec_block now signs state).
Proof using p_cft p_size. unfold on_accept_block_header. repeat node_keeps_step. Qed.
Lemma node_keeps_recv_confirm term follower_id head_num signer : keeps (recv_confirm sha256_header verify_block exec_block now signs term follower_id head_num signer).
Proof using p_cft p_size.
  unfold recv_confirm. apply node_keeps_bind; [node_keeps_step|intros cft]. apply node_keeps_bind_steady. intros c Hc.
  apply node_keeps_if; [node_keeps_step|]. case_match; repeat node_keeps_step.
Qed.

(** *** Votes *)

(** The grants that a node sends are its vote of the term. *)
Definition grants_ok (c : Cft) (out : list Message) : Prop := forall t x v, granted out t x v ->
  v = self (base c) /\ t = current_term (base c) /\ x = voted_for c /\ x <> null_producer.
Lemma no_grants_ok c out : no_grants out -> grants_ok c out.
Proof. intros H t x v Hg. by apply H in Hg. Qed.

Lemma valid_producer sent v c x k : node_ok sent v c -> is_valid_producer c x k = true -> isProducer p x = true.
Proof.
  intros Hc E. unfold is_valid_producer in E. rewrite (ok_active0 _ _ _ Hc), (ok_active1 _ _ _ Hc), orb_false_r in E.
  apply bool_decide_eq_true in E. unfold getClaim in E. unfold isProducer. rewrite E. by apply bool_decide_eq_true.
Qed.
Lemma producer_not_null x : isProducer p x = true -> x <> null_producer.
Proof using p_null. congruence. Qed.

(** A vote given in a term without one. *)
Lemma set_voted_for_ok sent v c x : node_ok sent v c -> voted_for c = null_producer \/ voted_for c = x ->
  node_ok sent v (set_voted_for x c) /\ progress c (set_voted_for x c).
Proof using p_null.
  intros Hc Hx. split; [|split; [reflexivity|]; intros _ ?; by destruct Hx]. destruct Hc. split; try done.
  eapply Forall_impl; [exact ok_votes0|]. intros y [Hy [[E1 E2]|Hg]]; (split; [done|]); [|by right]. left. cbn. split; [done|].
  apply producer_not_null in Hy. destruct Hx; congruence.
Qed.

Lemma recv_request_ok sent v c a c' out term candidate_id index log_term signer : node_ok sent v c ->
  recv_request sha256_header verify_block exec_block now signs term candidate_id index log_term signer c = Ok (a, c', out) ->
  node_ok sent v c' /\ progress c c' /\ grants_ok c' out.
Proof using p_cft p_size p_null.
  intros Hc E. unfold recv_request in E. rewrite reads_bind in E.
  destruct (is_cft c && _) eqn:Ev; [|destruct (node_keeps_ret _ _ _ _ _ _ _ Hc E) as (? & ? & ?); auto using no_grants_ok].
  apply andb_true_iff in Ev as [_ Ev]. apply (valid_producer _ _ _ _ _ Hc), producer_not_null in Ev.
  apply net_bind_ok in E as (u & c1 & o1 & o2 & E1 & E & ->). destruct (node_keeps_update_term _ _ _ _ _ _ _ Hc E1) as (H1 & P1 & N1).
  unfold in_state in E. rewrite reads_bind in E.
  destruct (is_state _ follower); [|destruct (node_keeps_ret _ _ _ _ _ _ _ H1 E) as (? & ? & ?); split_and!; eauto using no_grants_ok, no_grants_app, progress_trans].
  apply net_bind_ok in E as (h & c2 & o3 & o4 & E2 & E & ->).
  apply net_bind_ok in E2 as (f & c3 & o5 & o6 & E2 & E3 & ->). injection E2 as <- <- <-.
  unfold lift in E3. destruct (head_state _); [|done]. injection E3 as <- <- <-. rewrite reads_bind in E.
  match type of E with context [if ?b then changes _ else _] => destruct b eqn:Eb end.
  - rewrite changes_bind in E. injection E as <- <- <-. rewrite !andb_true_iff, orb_true_iff, !Z.eqb_eq in Eb. destruct Eb as [[_ Ef] _].
    destruct (set_voted_for_ok _ _ _ candidate_id H1) as [H2 P2]; [done|].
    split_and!; [done|by eapply progress_trans|]. intros t x w [k Hg]. cbn in Hg. apply elem_of_app in Hg as [Hg|Hg].
    { exfalso. eapply N1. by exists k. }
    apply list_elem_of_fmap in Hg as (k' & [= -> -> -> ->] & _). done.
  - injection E as <- <- <-. split_and!; [done|done|]. apply no_grants_ok, no_grants_app; [done|]. cbn.
    intros t x w [k Hg]. by apply list_elem_of_fmap in Hg as (k' & ? & _).
Qed.

Lemma add_vote_ok sent v c x : node_ok sent v c -> granted sent (current_term (base c)) (self (base c)) x -> b_state (base c) <> leader ->
  let c' := set_votes (add_vote (Some (active0 (base c))) x (votes0 c)) (add_vote (active1 (base c)) x (votes1 c)) c in
  node_ok sent v c' /\ progress c c'.
Proof.
  intros Hc Hg Hl c'. split; [|done]. destruct Hc. split; try done; cbn; rewrite ok_active2;
    (destruct (isProducer p x) eqn:Ex; [|done]); (case_bool_decide as Hx; [done|]); cbn.
  - apply NoDup_app. split_and!; [done|by intros y Hy ->%list_elem_of_singleton|apply NoDup_singleton].
  - apply Forall_app. split; [done|]. apply Forall_singleton. by split; [|right].
Qed.

Lemma recv_response_ok sent v c a c' out term candidate_id voter_id vote_granted signer : node_ok sent v c ->
  RequestVoteResponse term candidate_id voter_id vote_granted signer ∈ sent ->
  recv_response sha256_header verify_block exec_block now signs term candidate_id voter_id vote_granted signer c = Ok (a, c', out) ->
  node_ok sent v c' /\ progress c c' /\ no_grants out.
Proof using p_cft p_size.
  intros Hc Hm E. unfold recv_response in E. rewrite reads_bind in E. destruct (is_cft c && _); [|exact (node_keeps_ret _ _ _ _ _ _ _ Hc E)].
  apply net_bind_ok in E as (u & c1 & o1 & o2 & E1 & E & ->). destruct (node_keeps_update_term _ _ _ _ _ _ _ Hc E1) as (H1 & P1 & N1).
  rewrite reads_bind in E. destruct (_ && _) eqn:Eb; [|destruct (node_keeps_ret _ _ _ _ _ _ _ H1 E) as (? & ? & ?); eauto using no_grants_app, progress_trans].
  rewrite !andb_true_iff, !Z.eqb_eq in Eb. destruct Eb as [[[Es Et] ->] Eb]. apply bool_decide_eq_true in Eb. rewrite changes_bind in E.
  destruct (add_vote_ok _ _ _ voter_id H1) as [H5 P5]; [exists signer; congruence|congruence|].
  destruct (node_keeps_check_votes _ _ _ _ _ _ H5 E) as (H6 & P6 & N6). eauto using no_grants_app, progress_trans.
Qed.
(** ** The network *)

(** What a node may do; [Blocks] is any other change of its fork database. *)
Inductive event :=
| Timeout
| Receive (m : Message)
| AcceptHeader (state : BlockHeaderState)
| ProduceBlock (state : BlockHeaderState)
| SwitchFork
| Blocks (f : ForkDb).
Definition handle (e : event) : net unit :=
  match e with
  | Timeout => on_timeout now signs
  | Receive m => recv sha256_header verify_block exec_block now signs m
  | AcceptHeader state => on_accept_block_header sha256_header verify_block exec_block now signs state
  | ProduceBlock state => on_produce_block sha256_header now signs state
  | SwitchFork => node_switch_fork sha256_header verify_block exec_block now signs
  | Blocks f => change_chain (fun _ => f)
  end.

(** The nodes, the messages that were sent, and every state of every node so
    far. *)
Record World := { nodes : gmap AccountNumber Cft; sent : list Message; history : list (AccountNumber * Cft) }.

Record initial (w : World) : Prop := {
  init_nodes : forall v c, nodes w !! v = Some c -> self (base c) = v /\ active0 (base c) = p /\ active1 (base c) = None /\
    0 <= current_term (base c) /\ steady (chain (base c)) /\ votes0 c = [] /\ voted_for c = null_producer /\ b_state (base c) <> leader;
  init_sent : sent w = [];
  init_history : history w = map_to_list (nodes w)
}.
(** Only messages of nodes are delivered: they are signed.  The term does not
    overflow, and blocks do not change the producers. *)
Definition enabled (w : World) (c : Cft) (e : event) : Prop :=
  match e with
  | Timeout => current_term (base c) < 2 ^ 32 - 1
  | Receive m => m ∈ sent w
  | Blocks f => steady f
  | _ => True
  end.
Inductive step (w : World) : World -> Prop :=
| Step v c e c' out : nodes w !! v = Some c -> enabled w c e -> handle e c = Ok (tt, c', out) ->
    step w {| nodes := <[v := c']> (nodes w); sent := out ++ sent w; history := (v, c') :: history w |}.
Definition reachable (w : World) : Prop := exists w0, initial w0 /\ rtc step w0 w.

Lemma handle_ok w v c e c' out : node_ok (sent w) v c -> enabled w c e -> handle e c = Ok (tt, c', out) ->
  node_ok (sent w) v c' /\ progress c c' /\ grants_ok c' out.
Proof using p_cft p_size p_null.
  intros Hc He E.
  assert (node_ok (sent w) v c' /\ progress c c' /\ no_grants out \/ node_ok (sent w) v c' /\ progress c c' /\ grants_ok c' out) as [(? & ? & ?)|?];
    [|eauto using no_grants_ok|done].
  destruct e as [|[]| | | |]; cbn in He, E.
  - left. by eapply node_keeps_on_timeout.
  - left. by eapply node_keeps_recv_confirm.
  - right. by eapply recv_request_ok.
  - left. by eapply recv_response_ok.
  - left. by eapply node_keeps_on_accept_block_header.
  - left. by eapply node_keeps_on_produce_block.
  - left. by eapply node_keeps_node_switch_fork.
  - left. by eapply node_keeps_change_chain.
Qed.

Lemma node_ok_more out l v c : node_ok l v c -> node_ok (out ++ l) v c.
Proof.
  intros []. split; try done. eapply Forall_impl; [exact ok_votes0|]. intros x [Hx H]. split; [done|]. destruct H as [H|[k H]]; [by left|right].
  exists k. apply elem_of_app. by right.
Qed.

(** The invariant of the network: a node votes once in a term, and votes that
    were sent are votes of their nodes. *)
Record world_ok (w : World) : Prop := {
  wo_history : forall v c, nodes w !! v = Some c -> (v, c) ∈ history w;
  wo_ok : forall v c, (v, c) ∈ history w -> node_ok (sent w) v c;
  wo_progress : forall v c, (v, c) ∈ history w -> exists c', nodes w !! v = Some c' /\ progress c c';
  wo_once : forall v c1 c2, (v, c1) ∈ history w -> (v, c2) ∈ history w -> current_term (base c1) = current_term (base c2) ->
    voted_for c1 <> null_producer -> voted_for c2 <> null_producer -> voted_for c1 = voted_for c2;
  wo_granted : forall t x v, granted (sent w) t x v -> x <> null_producer /\
    exists c, (v, c) ∈ history w /\ current_term (base c) = t /\ voted_for c = x
}.

Lemma initial_ok w : initial w -> world_ok w.
Proof.
  intros [Hn Hs Hh]. split; intros *; rewrite ?Hs, ?Hh, ?elem_of_map_to_list.
  - done.
  - intros (E1 & E2 & E3 & E4 & E5 & E6 & E7 & E8)%Hn. split; try done; rewrite E6; [apply NoDup_nil_2|done].
  - intros. eexists. by split.
  - intros (_ & _ & _ & _ & _ & _ & E & _)%Hn _ _. congruence.
  - intros [k H]. by apply elem_of_nil in H.
Qed.

Lemma step_ok w w' : world_ok w -> step w w' -> world_ok w'.
Proof using p_cft p_size p_null.
  intros [Wh Wo Wp W1 Wg] [v c e c' out Ev He E].
  destruct (handle_ok w v c e c' out (Wo _ _ (Wh _ _ Ev)) He E) as (Hc & P & G).
  assert (forall c1, (v, c1) ∈ history w -> progress c1 c') as Pv.
  { intros c1 (c2 & E2 & P2)%Wp. simplify_eq. eauto using progress_trans. }
  split; cbn.
  - intros x cx. destruct (decide (x = v)) as [->|]; [rewrite lookup_insert_eq|rewrite lookup_insert_ne by done]; [intros [= ->]; left|right; auto].
  - intros x cx [[= -> ->]|Hx]%elem_of_cons; apply node_ok_more; auto.
  - intros x cx [[= -> ->]|Hx]%elem_of_cons; [rewrite lookup_insert_eq; exists c'; split; [done|reflexivity]|].
    destruct (decide (x = v)) as [->|]; [rewrite lookup_insert_eq; eauto|rewrite lookup_insert_ne by done; auto].
  - intros x c1 c2 [E1|H1]%elem_of_cons [E2|H2]%elem_of_cons Et V1 V2; simplify_eq; try done; [..|by eauto].
    + symmetry in Et. by apply (Pv c2 H2).
    + symmetry. by apply (Pv c1 H1).
  - intros t x y [k [H|H]%elem_of_app].
    + destruct (G t x y) as (-> & -> & -> & Hx); [by exists k|]. split; [done|]. exists c'. rewrite (ok_self _ _ _ Hc). split; [by left|done].
    + destruct (Wg t x y) as (Hx & c1 & H1 & E1); [by exists k|]. split; [done|]. exists c1. split; [by right|done].
Qed.
Lemma reachable_ok w : reachable w -> world_ok w.
Proof using p_cft p_size p_null. intros (w0 & H0 & H). apply initial_ok in H0. induction H; eauto using step_ok. Qed.

Lemma vote_known w v c x : world_ok w -> (v, c) ∈ history w -> x ∈ votes0 c ->
  exists c', (x, c') ∈ history w /\ current_term (base c') = current_term (base c) /\ voted_for c' = v /\ v <> null_producer.
Proof using p_null.
  intros W Hc Hx. pose proof (wo_ok _ W _ _ Hc) as Ho. pose proof (ok_self _ _ _ Ho) as Es.
  destruct (proj1 (Forall_forall _ _) (ok_votes _ _ _ Ho) _ Hx) as [Hp [[-> Hv]|Hg]].
  - apply producer_not_null in Hp. exists c. rewrite Hv. split_and!; congruence.
  - destruct (wo_granted _ W _ _ _ Hg) as (Hn & c' & H' & E1 & E2). exists c'. split_and!; congruence.
Qed.

Lemma quorums_meet (l1 l2 keys : list AccountNumber) : NoDup l1 -> NoDup l2 -> (forall x, x ∈ l1 -> x ∈ keys) -> (forall x, x ∈ l2 -> x ∈ keys) ->
  (length keys / 2 < length l1)%nat -> (length keys / 2 < length l2)%nat -> exists x, x ∈ l1 /\ x ∈ l2.
Proof.
  clear p_cft p_size p_null. intros N1 N2 K1 K2 S1 S2. destruct (decide (Exists (.∈ l2) l1)) as [(x & ?)%Exists_exists|H]; [by exists x|exfalso].
  assert (l1 ++ l2 ⊆+ keys) as L%submseteq_length.
  { apply NoDup_submseteq; [|intros x [?|?]%elem_of_app; auto]. apply NoDup_app. split_and!; [done| |done].
    intros x H1 H2. apply H, Exists_exists. eauto. }
  rewrite length_app in L. mlia.
Qed.

(** C4: A term has at most one leader: whatever the order in which nodes time out,
    receive blocks, and receive the messages that were sent, two states of nodes
    in the same term, both leader, are of the same node. *)
Theorem election_safety w a b c1 c2 : reachable w -> (a, c1) ∈ history w -> (b, c2) ∈ history w ->
  b_state (base c1) = leader -> b_state (base c2) = leader -> current_term (base c1) = current_term (base c2) -> a = b.
Proof using p_cft p_size p_null.
  intros W%reachable_ok H1 H2 L1 L2 Et. pose proof (wo_ok _ W _ _ H1) as O1. pose proof (wo_ok _ W _ _ H2) as O2.
  assert (forall v c, node_ok (sent w) v c -> forall x, x ∈ votes0 c -> x ∈ map fst (activeProducers p)) as K.
  { intros v c Hc x Hx. destruct (proj1 (Forall_forall _ _) (ok_votes _ _ _ Hc) _ Hx) as [Hp _].
    unfold isProducer in Hp. apply bool_decide_eq_true in Hp as [k Hk]. by eapply find_Some_key. }
  destruct (quorums_meet (votes0 c1) (votes0 c2) (map fst (activeProducers p))) as (x & X1 & X2);
    [apply O1|apply O2|by eapply K|by eapply K|rewrite length_map; by apply O1|rewrite length_map; by apply O2|].
  destruct (vote_known _ _ _ _ W H1 X1) as (d1 & D1 & T1 & <- & N1), (vote_known _ _ _ _ W H2 X2) as (d2 & D2 & T2 & <- & N2).
  apply (wo_once _ W x); congruence.
Qed.
End election.

(** ** Confirmation by a quorum *)

Section confirmation.
Context (p : ProducerSet).

Lemma nth_match_spec m : length m = ps_size p -> m <> [] -> exists num, nth_match p m = Ok num /\
  (threshold p <= at_least m num)%nat /\ (at_least m (num + 1) < threshold p)%nat.
Proof.
  intros Hl Hm. unfold nth_match. set (mid := (ps_size p - threshold p)%nat).
  assert (0 < threshold p <= ps_size p)%nat as Ht.
  { destruct m; [done|]. cbn in Hl. unfold threshold. case_match; mlia. }
  destruct (lookup_lt_is_Some_2 (merge_sort Z.le m) mid) as [num En]; [rewrite length_sort; lia|].
  rewrite En. exists num. apply nth_sorted in En as [H1 H2]. split_and!; [done|lia|lia].
Qed.

Lemma nth_match_exact m num : length m = ps_size p -> m <> [] -> nth_match p m = Ok num ->
  forall n, n <= num <-> (threshold p <= at_least m n)%nat.
Proof.
  intros Hl Hm E n. destruct (nth_match_spec m Hl Hm) as (num' & E' & H1 & H2). rewrite E in E'. injection E' as <-. split.
  - intros H. pose proof (at_least_mono m _ _ H). lia.
  - intros H. destruct (Z.le_gt_cases n num) as [|Hn]; [done|]. assert (num + 1 <= n) as Hn' by lia.
    pose proof (at_least_mono m _ _ Hn'). lia.
Qed.

(** The numbers after a producer of the group has confirmed a block. *)
Definition confirm (m : list BlockNum) (producer : AccountNumber) (confirmed : BlockNum) : list BlockNum :=
  match HeaderState.getIndex p producer with Some i => match m !! i with Some old => <[i := Z.max old confirmed]> m | None => m end | None => m end.
Lemma length_confirm m producer confirmed : length (confirm m producer confirmed) = length m.
Proof. unfold confirm. repeat case_match; by rewrite ?length_insert. Qed.

Lemma update_group_spec m producer confirmed num m' : length m = ps_size p -> m <> [] ->
  update_group (Some p) m producer confirmed = Ok (num, m') ->
  m' = confirm m producer confirmed /\ forall n, n <= num <-> (threshold p <= at_least m' n)%nat.
Proof.
  intros Hl Hm E. unfold update_group in E. apply bind_ok in E as (m1 & E1 & E).
  assert (m1 = confirm m producer confirmed) as ->.
  { unfold confirm. destruct (HeaderState.getIndex p producer) as [i|]; [|by injection E1].
    destruct (m !! i) as [old|] eqn:Ei; [|done]. by injection E1. }
  pose proof (length_confirm m producer confirmed) as Hl'. destruct (confirm m producer confirmed) as [|x m2] eqn:Em; [by destruct m|].
  apply bind_ok in E as (num' & En & E). injection E as <- <-. split; [done|]. apply nth_match_exact; congruence.
Qed.
End confirmation.

(** ** Handlers that do not commit blocks *)

Section commit.
Context (sha256_header : Header -> Checksum256) (now : Blocknet -> Z) (signs : Claim -> bool).

Definition committed (c : Cft) : BlockNum := commitIndex (chain (base c)).
Definition no_commit {A} (m : net A) : Prop := forall c a c' out, m c = Ok (a, c', out) -> committed c' = committed c.

Lemma no_commit_bind {A B} (m : net A) (k : A -> net B) : no_commit m -> (forall a, no_commit (k a)) -> no_commit (m ≫= k).
Proof. intros Hm Hk c b c' out (a & c1 & o1 & o2 & E1 & E2 & ->)%net_bind_ok. apply Hk in E2. apply Hm in E1. congruence. Qed.
Lemma no_commit_ret {A} (a : A) : no_commit (mret a).
Proof. by intros ? ? ? ? [= <- <- <-]. Qed.
Lemma no_commit_reads {A} (f : Cft -> A) : no_commit (reads f).
Proof. by intros ? ? ? ? [= <- <- <-]. Qed.
Lemma no_commit_lift {A} (r : result A) : no_commit (lift r).
Proof. intros c a c' out. unfold lift. destruct r; [|done]. by intros [= <- <- <-]. Qed.
Lemma no_commit_if {A} (b : bool) (m1 m2 : net A) : no_commit m1 -> no_commit m2 -> no_commit (if b then m1 else m2).
Proof. by destruct b. Qed.
Lemma no_commit_changes f : (forall c, committed (f c) = committed c) -> no_commit (changes f).
Proof. intros Hf c a c' out [= <- <- <-]. apply Hf. Qed.
Lemma no_commit_send_each f : no_commit (send_each signs f).
Proof. by intros ? ? ? ? [= <- <- <-]. Qed.
Lemma no_commit_on_base f : (forall b b', f b = Ok b' -> commitIndex (chain b') = commitIndex (chain b)) -> no_commit (on_base f).
Proof. intros Hf c a c' out E. unfold on_base in E. destruct (f (base c)) eqn:Ef; [|done]. injection E as <- <- <-. by apply Hf. Qed.

Lemma no_commit_start_leader : no_commit (on_base (start_leader now)).
Proof.
  apply no_commit_on_base. intros b b' E. unfold start_leader in E. apply bind_ok in E as ([] & _ & E). apply bind_ok in E as (f & Ef & E).
  injection E as <-. unfold chain_start_block in Ef. apply bind_ok in Ef as ([] & _ & Ef). apply bind_ok in Ef as (h & _ & Ef).
  apply bind_ok in Ef as (r & _ & Ef). apply bind_ok in Ef as ([? bc] & _ & Ef). by injection Ef as <-.
Qed.
Lemma no_commit_stop_leader : no_commit (on_base stop_leader).
Proof.
  apply no_commit_on_base. intros b b' E. unfold stop_leader in E. destruct (is_state _ _); [|by injection E as <-].
  apply bind_ok in E as (f & Ef & E). injection E as <-. unfold chain_abort_block in Ef. apply bind_ok in Ef as ([] & _ & Ef). by injection Ef as <-.
Qed.
Lemma no_commit_base_set_producers p0 p1 : no_commit (on_base (base_set_producers p0 p1)).
Proof. apply no_commit_on_base. intros b b' E. unfold base_set_producers in E. apply bind_ok in E as ([] & _ & E). by injection E as <-. Qed.

Ltac no_commit_step :=
  match goal with
  | |- no_commit (_ ≫= _) => apply no_commit_bind; [|intros ?]
  | |- no_commit (if _ then _ else _) => apply no_commit_if
  | |- no_commit (mret _) => apply no_commit_ret
  | |- no_commit (reads _) => apply no_commit_reads
  | |- no_commit (in_state _) => apply no_commit_reads
  | |- no_commit (lift _) => apply no_commit_lift
  | |- no_commit (changes _) => apply no_commit_changes; done
  | |- no_commit (become _) => apply no_commit_changes; done
  | |- no_commit (send_each _ _) => apply no_commit_send_each
  | |- no_commit (on_base _) => auto using no_commit_start_leader, no_commit_stop_leader, no_commit_base_set_producers
  | |- no_commit _ => progress unfold set_producers, randomize_timer, request_vote, check_votes, base_cancel
  end.

Lemma no_commit_set_producers prods : no_commit (set_producers now signs prods).
Proof. destruct prods as [p0 p1]. repeat no_commit_step. Qed.
Lemma commit_index f num b f' head : commit sha256_header f num = Ok (b, f') -> head_state f = Ok head ->
  commitIndex f' = Z.max (Z.min num (hs_blockNum head)) (commitIndex f).
Proof. unfold commit. intros E Eh. rewrite Eh in E. cbn [mbind result_bind] in E. apply bind_ok in E as (f1 & _ & E). by injection E as <- <-. Qed.

(** The second group, which may not exist. *)
Lemma next_group_spec p1 m producer confirmed num m' : (forall next, p1 = Some next -> length m = ps_size next /\ (0 < ps_size next)%nat) ->
  update_group p1 m producer confirmed = Ok (num, m') -> forall n, n <= max_num ->
  n <= num <-> forall next, p1 = Some next -> (threshold next <= at_least (confirm next m producer confirmed) n)%nat.
Proof.
  intros L E n Hn. destruct p1 as [next|]; [|injection E as <- <-; by split].
  destruct (L next eq_refl) as [L1 S1]. apply update_group_spec in E as [-> Q]; [|done|by destruct m; [cbn in L1; lia|]].
  rewrite Q. split; [by intros H ? [= <-]|auto].
Qed.

(** C27: A block becomes irreversible exactly when a quorum has confirmed it: after
    [producer] has confirmed the block with number [confirmed], the irreversible
    blocks are those that were irreversible, and those up to the head that enough
    producers of the active group, and of the next group if there is one, have
    confirmed. *)
Theorem commit_needs_quorum c c' out producer confirmed head :
  length (match0 c) = ps_size (active0 (base c)) -> (0 < ps_size (active0 (base c)))%nat ->
  (forall next, active1 (base c) = Some next -> length (match1 c) = ps_size next /\ (0 < ps_size next)%nat) ->
  head_state (chain (base c)) = Ok head -> hs_blockNum head <= max_num ->
  update_match_index sha256_header now signs producer confirmed c = Ok (tt, c', out) ->
  forall num, num <= committed c' <->
    num <= committed c \/
    (num <= hs_blockNum head /\
     (threshold (active0 (base c)) <= at_least (confirm (active0 (base c)) (match0 c) producer confirmed) num)%nat /\
     forall next, active1 (base c) = Some next -> (threshold next <= at_least (confirm next (match1 c) producer confirmed) num)%nat).
Proof.
  intros L0 S0 L1 Eh Hh E num. unfold update_match_index in E. rewrite reads_bind in E. unfold id in E.
  apply net_bind_ok in E as ([num0 m0] & c1 & o1 & o2 & E1 & E & ->). unfold lift in E1.
  destruct (update_group (Some _) _ _ _) as [[? ?]|] eqn:G0; [|done]. injection E1 as -> -> <- <-.
  apply net_bind_ok in E as ([num1 m1] & c1 & o1 & o3 & E1 & E & ->). unfold lift in E1.
  destruct (update_group (active1 _) _ _ _) as [[? ?]|] eqn:G1; [|done]. injection E1 as -> -> <- <-.
  rewrite changes_bind in E. set (c1 := set_match m0 m1 c) in E.
  apply update_group_spec in G0 as [E0 Q0]; [|done|by intros H; rewrite H in L0; cbn in L0; lia].
  apply net_bind_ok in E as (u & c2 & o4 & o5 & E1 & E & ->).
  assert (c2 = c1 /\ Z.min num0 num1 <> max_num) as [-> Hm].
  { destruct (Z.eqb_spec (Z.min num0 num1) max_num) as [|]; [|by injection E1 as <- <- <-].
    unfold lift, check in E1. by destruct (Nat.eqb_spec (ps_size (active0 (base c))) 0); [lia|]. }
  rewrite (proj2 (Z.eqb_neq _ _) Hm) in E. apply net_bind_ok in E as ([changed f] & c2 & o6 & o7 & E2 & E & ->).
  unfold lift in E2. destruct (commit _ _ _) as [[? ?]|] eqn:Ec; [|done]. injection E2 as -> -> <- <-.
  unfold change_chain in E. rewrite changes_bind in E. pose proof (commit_index _ _ _ _ _ Ec Eh) as Hc.
  assert (committed c' = commitIndex f) as ->.
  { destruct changed; [|by injection E as <- <-]. refine (no_commit_bind _ _ (no_commit_lift _) _ _ _ _ _ E). apply no_commit_set_producers. }
  rewrite <- E0, <- Q0. rewrite Hc. unfold committed. destruct (Z.le_gt_cases num (hs_blockNum head)); [|lia].
  rewrite <- (next_group_spec _ _ _ _ _ _ L1 G1 num) by lia. lia.
Qed.
End commit.

(** ** An example *)

Module CftExample.
Definition prods : ProducerSet :=
  {| ps_algorithm := cft; activeProducers := [(1, no_claim); (2, no_claim); (3, no_claim)]; authState := None |}.
Definition root : Checksum256 := i_blockId (ForkExample.info_of ForkExample.root_header).
Definition state : BlockHeaderState :=
  {| hs_info := ForkExample.info_of ForkExample.root_header; hs_revision := Some ForkExample.revision; producers := prods; nextProducers := None;
     nextProducersBlockNum := 0; hs_invalid := false |}.
Definition db : ForkDb := {|
  commitIndex := 1; currentTerm := 0; f_head := root;
  f_blocks := [(root, ForkExample.block ForkExample.root_header)]; f_states := [(root, state)];
  byOrderIndex := [(order state, root)]; byBlocknumIndex := [(2, root)]; sharedHead := None; f_blockContext := None |}.
Definition node (v : AccountNumber) : Cft :=
  {| base := {| self := v; active0 := prods; active1 := None; current_term := 0; b_state := follower; chain := db |};
     voted_for := null_producer; votes0 := []; votes1 := []; match0 := []; match1 := [] |}.
Definition now (_ : Blocknet) : Z := 0.
Definition signs (_ : Claim) : bool := true.
Abbreviation step := (step ForkExample.hash_header ForkExample.verify_block ForkExample.exec_block now signs prods).
Abbreviation handle := (handle ForkExample.hash_header ForkExample.verify_block ForkExample.exec_block now signs).
Abbreviation reachable := (reachable ForkExample.hash_header ForkExample.verify_block ForkExample.exec_block now signs prods).

(** The world after node [v] has handled [e]. *)
Definition next (v : AccountNumber) (e : event) (w : World) : World :=
  match nodes w !! v with
  | Some c => match handle e c with
              | Ok (_, c', out) => {| nodes := <[v := c']> (nodes w); sent := out ++ sent w; history := (v, c') :: history w |}
              | Abort _ => w
              end
  | None => w
  end.
Lemma next_step v e w c : nodes w !! v = Some c -> enabled prods w c e -> rtc step w (next v e w).
Proof.
  intros E He. unfold next. rewrite E. destruct (handle e c) as [[[[] c'] out]|] eqn:Eh; [|done]. by apply rtc_once, (Step _ _ _ _ _ _ _ _ c e).
Qed.

Definition w0 : World := {| nodes := list_to_map [(1, node 1); (2, node 2); (3, node 3)]; sent := []; history := map_to_list (list_to_map (M := gmap _ _) [(1, node 1); (2, node 2); (3, node 3)]) |}.
(** Node 1 asks for votes, node 2 votes for it, and it becomes leader. *)
Definition w1 : World := next 1 Timeout w0.
Definition w2 : World := next 2 (Receive (RequestVoteRequest 1 1 2 0 no_claim)) w1.
Definition w3 : World := next 1 (Receive (RequestVoteResponse 1 1 2 true no_claim)) w2.
Lemma w0_initial : initial prods w0.
Proof.
  split; [|done|done]. intros v c H. unfold w0 in H. cbn [nodes] in H. apply elem_of_list_to_map_2 in H.
  repeat (apply elem_of_cons in H as [[= -> ->]|H]; [split_and!; try done; by repeat constructor|]). by apply elem_of_nil in H.
Qed.
Lemma w3_reachable : reachable w3.
Proof.
  exists w0. split; [exact w0_initial|]. unfold w3, w2, w1.
  etrans; [|eapply next_step; [vm_compute; reflexivity|vm_compute; by repeat constructor]].
  etrans; [|eapply next_step; [vm_compute; reflexivity|vm_compute; by repeat constructor]].
  eapply next_step; [vm_compute; reflexivity|done].
Qed.
(** Node 1 as the leader. *)
Definition leader1 : Cft := default (node 1) (nodes w3 !! 1).
Lemma leader1_history : (1, leader1) ∈ history w3.
Proof. vm_compute. left. Qed.
Lemma leader1_leads : b_state (base leader1) = leader /\ current_term (base leader1) = 1.
Proof. by vm_compute. Qed.
End CftExample.

Lemma election_safety_witness : CftExample.reachable CftExample.w3 /\ (1, CftExample.leader1) ∈ history CftExample.w3 /\
  b_state (base CftExample.leader1) = leader /\ current_term (base CftExample.leader1) = 1 /\
  (forall b c, (b, c) ∈ history CftExample.w3 -> b_state (base c) = leader -> current_term (base c) = 1 -> 1 = b).
Proof.
  destruct CftExample.leader1_leads as [L T]. split_and!; [apply CftExample.w3_reachable|apply CftExample.leader1_history|done|done|].
  intros b c Hc Hl Ht.
  apply (election_safety _ _ _ _ _ CftExample.prods eq_refl ltac:(cbn; lia) eq_refl _ 1 b CftExample.leader1 c CftExample.w3_reachable
    CftExample.leader1_history Hc L Hl). congruence.
Defined.

Lemma commit_needs_quorum_witness : exists c' out, 
  update_match_index ForkExample.hash_header CftExample.now CftExample.signs 2 2 (set_match [2; 0; 0] [] CftExample.leader1) = Ok (tt, c', out) /\
  committed CftExample.leader1 = 1 /\ committed c' = 2 /\
  (2 <= at_least (confirm CftExample.prods [2; 0; 0]%Z 2 2) 2)%nat.
Proof.
  destruct (update_match_index _ _ _ _ _ _) as [[[[] c'] out]|] eqn:E; [|by vm_compute in E]. exists c', out.
  pose proof (commit_needs_quorum _ _ _ (set_match [2; 0; 0] [] CftExample.leader1) c' out 2 2 CftExample.state eq_refl ltac:(vm_compute; lia) ltac:(done) eq_refl
    ltac:(done) E 2) as H.
  assert (committed c' = 2) as Hc by (vm_compute in E; by injection E as <- <-).
  split_and!; [done|done|done|]. rewrite Hc in H. destruct (proj1 H ltac:(lia)) as [H1|(_ & H1 & _)]; [by vm_compute in H1|exact H1].
Defined.
