(* ===== verification/BftConfirm.v ===== *)
(** * psibase: confirmations of the Byzantine fault tolerant consensus

    The prepares and commits of [bft.hpp]: counting them ([block_confirm_data],
    [block_info]), the proof that a block is irreversible ([save_commit_data]) and
    its verification ([verifyMsig], [verifyIrreversibleSignature]).  A signature
    is over the kind, block, producer and key of a message; [verify] is the
    verification by the services of a revision.  Bit sets are lists of booleans. *)

From S2P Require Import Prelude Ordered Services AuthState HeaderState BlockContext LightHeader ForkDb Blocknet.

Inductive confirm_result := unconfirmed | confirmed | duplicate.
Definition min_result (a b : confirm_result) : confirm_result :=
  match a, b with
  | unconfirmed, _ | _, unconfirmed => unconfirmed
  | confirmed, _ | _, confirmed => confirmed
  | duplicate, duplicate => duplicate
  end.

Inductive confirm_type := ct_prepare | ct_commit.
#[export] Instance confirm_type_eq_dec : EqDecision confirm_type.
Proof. solve_decision. Defined.

(** What is signed: [PrepareMessage] or [CommitMessage]; and the signed message. *)
Record ConfirmData := { cd_type : confirm_type; cd_block : Checksum256; cd_producer : AccountNumber; cd_signer : Claim }.
Record SignedConfirm := { sc_data : ConfirmData; sc_signature : bytes }.
Record ProducerConfirm := { pc_producer : AccountNumber; pc_signature : bytes }.
Record BlockConfirm := { bc_blockNum : BlockNum; bc_commits : list ProducerConfirm; bc_nextCommits : option (list ProducerConfirm) }.

(** ** Verification *)

Section verify.
Context (verify : VerifyTables -> ConfirmData -> Claim -> bytes -> result unit).

(** The loop of [verifyMsig]. *)
Fixpoint verify_confirms (type : confirm_type) (revision : VerifyTables) (id : Checksum256) (prods : ProducerSet) (prevAccount : AccountNumber)
    (confirms : list ProducerConfirm) : result unit :=
  match confirms with
  | [] => mret tt
  | c :: confirms =>
      check (prevAccount <? pc_producer c) "Confirmations must be ordered by producer" ;;
      match getClaim prods (pc_producer c) with
      | None => Abort "Not a valid producer"
      | Some claim =>
          verify revision {| cd_type := type; cd_block := id; cd_producer := pc_producer c; cd_signer := claim |} claim (pc_signature c) ;;
          verify_confirms type revision id prods prevAccount confirms
      end
  end.
Definition verifyMsig (type : confirm_type) (revision : VerifyTables) (id : Checksum256) (confirms : list ProducerConfirm) (prods : ProducerSet) : result unit :=
  check (threshold prods <=? length confirms)%nat "Not enough confirmations" ;;
  verify_confirms type revision id prods null_producer confirms.

Definition verifyIrreversibleSignature (commits : BlockConfirm) (state : BlockHeaderState) : result unit :=
  revision ← getProdsAuthRevision state;
  verifyMsig ct_commit revision (hs_blockId state) (bc_commits commits) (producers state) ;;
  match nextProducers state, bc_nextCommits commits with
  | Some next, Some nextCommits =>
      revision ← next_auth_revision next;
      verifyMsig ct_commit revision (hs_blockId state) nextCommits next
  | Some _, None => Abort "nextCommits required during joint consensus"
  | None, Some _ => Abort "Unexpected nextCommits outside joint consensus"
  | None, None => mret tt
  end.

(** [light_verify] under this algorithm; [from_frac] unpacks a [BlockConfirm], and
    [base_light_verify] is that of the next algorithm. *)
Context (from_frac : bytes -> result BlockConfirm).
Context (base_light_verify : LightHeaderState -> Info -> SignedHeader -> result BlockNum).
Definition bft_light_verify (state : LightHeaderState) (info : Info) (block : SignedHeader) : result BlockNum :=
  if negb (bool_decide (ps_algorithm (lh_producers state) = bft)) then base_light_verify state info block
  else match sh_auxConsensusData block with
  | None => Abort "Consensus data missing for producer change"
  | Some aux =>
      commits ← from_frac aux;
      match last (filter (fun xid => xid.2 = bc_blockNum commits) (pendingBlocks state)) with
      | None => Abort "Missing committed block"
      | Some committed =>
          revision ← next_auth_revision (lh_producers state);
          verifyMsig ct_commit revision committed.1 (bc_commits commits) (lh_producers state) ;;
          match lh_nextProducers state, bc_nextCommits commits with
          | Some next, Some nextCommits =>
              revision ← next_auth_revision next;
              verifyMsig ct_commit revision committed.1 nextCommits next ;;
              mret (bc_blockNum commits)
          | None, _ => Abort "nextProducers required during joing consensus"
          | _, None => Abort "nextCommits required during joint consensus"
          end
      end
  end.
End verify.

(** ** Counting *)

(** [block_confirm_data]: the bits of each kind of message. *)
Record block_confirm_data := { bits_prepare : list bool; bits_commit : list bool }.
Definition new_confirm_data (p : option ProducerSet) : block_confirm_data :=
  let bits := repeat false (match p with Some p => ps_size p | None => 0%nat end) in
  {| bits_prepare := bits; bits_commit := bits |}.
Definition bits_of (type : confirm_type) (d : block_confirm_data) : list bool :=
  match type with ct_prepare => bits_prepare d | ct_commit => bits_commit d end.
Definition set_bits (type : confirm_type) (b : list bool) (d : block_confirm_data) : block_confirm_data :=
  match type with
  | ct_prepare => {| bits_prepare := b; bits_commit := bits_commit d |}
  | ct_commit => {| bits_prepare := bits_prepare d; bits_commit := b |}
  end.
Definition bits_count (b : list bool) : nat := length (filter Is_true b).
(** Whether there is an index whose bit is not set; out of range does not occur. *)
Definition bit_unset (b : list bool) (idx : option nat) : bool :=
  match idx with Some i => negb (default false (b !! i)) | None => false end.

Definition data_confirmed (type : confirm_type) (threshold : nat) (d : block_confirm_data) : confirm_result :=
  if (threshold <=? bits_count (bits_of type d))%nat then duplicate else unconfirmed.
Definition data_confirm (idx : option nat) (type : confirm_type) (threshold : nat) (d : block_confirm_data) : confirm_result * block_confirm_data :=
  match idx with
  | Some i =>
      if negb (default false (bits_of type d !! i)) then
        let c := <[i := true]> (bits_of type d) in
        let count := bits_count c in
        (if (count =? threshold)%nat then confirmed else if (threshold <? count)%nat then duplicate else unconfirmed, set_bits type c d)
      else (data_confirmed type threshold d, d)
  | None => (data_confirmed type threshold d, d)
  end.

(** [block_info]. *)
Record block_info := {
  conf0 : block_confirm_data;
  conf1 : block_confirm_data;
  prods0 : ProducerSet;
  prods1 : option ProducerSet;
  bi_prepares : list SignedConfirm;
  bi_commits : list SignedConfirm;
  committedByBlock : bool
}.
Definition new_block_info (p0 : ProducerSet) (p1 : option ProducerSet) : block_info :=
  {| conf0 := new_confirm_data (Some p0); conf1 := new_confirm_data p1; prods0 := p0; prods1 := p1; bi_prepares := []; bi_commits := []; committedByBlock := false |}.
Definition messages (type : confirm_type) (b : block_info) : list SignedConfirm := match type with ct_prepare => bi_prepares b | ct_commit => bi_commits b end.
Definition add_message (type : confirm_type) (msg : SignedConfirm) (b : block_info) : block_info :=
  match type with
  | ct_prepare => {| conf0 := conf0 b; conf1 := conf1 b; prods0 := prods0 b; prods1 := prods1 b; bi_prepares := bi_prepares b ++ [msg]; bi_commits := bi_commits b; committedByBlock := committedByBlock b |}
  | ct_commit => {| conf0 := conf0 b; conf1 := conf1 b; prods0 := prods0 b; prods1 := prods1 b; bi_prepares := bi_prepares b; bi_commits := bi_commits b ++ [msg]; committedByBlock := committedByBlock b |}
  end.
Definition set_conf (c0 c1 : block_confirm_data) (b : block_info) : block_info :=
  {| conf0 := c0; conf1 := c1; prods0 := prods0 b; prods1 := prods1 b; bi_prepares := bi_prepares b; bi_commits := bi_commits b; committedByBlock := committedByBlock b |}.
Definition set_committedByBlock (b : block_info) : block_info :=
  {| conf0 := conf0 b; conf1 := conf1 b; prods0 := prods0 b; prods1 := prods1 b; bi_prepares := bi_prepares b; bi_commits := bi_commits b; committedByBlock := true |}.

(** Whether the next producers count for a kind of message. *)
Definition counts_next (p1 : option ProducerSet) (type : confirm_type) : option ProducerSet :=
  match p1 with
  | Some next => if bool_decide (ps_algorithm next = bft) || bool_decide (type = ct_commit) then Some next else None
  | None => None
  end.
Definition info_confirm (idx0 idx1 : option nat) (type : confirm_type) (msg : SignedConfirm) (b : block_info) : bool * block_info :=
  let b := if bit_unset (bits_of type (conf0 b)) idx0 || bit_unset (bits_of type (conf1 b)) idx1 then add_message type msg b else b in
  let '(r0, c0) := data_confirm idx0 type (threshold (prods0 b)) (conf0 b) in
  let '(r, c1) := match counts_next (prods1 b) type with
                  | Some next => let '(r1, c1) := data_confirm idx1 type (threshold next) (conf1 b) in (min_result r0 r1, c1)
                  | None => (r0, conf1 b)
                  end in
  (match r with confirmed => true | _ => false end, set_conf c0 c1 b).
Definition info_confirmed (type : confirm_type) (b : block_info) : bool :=
  let r := data_confirmed type (threshold (prods0 b)) (conf0 b) in
  let r := match counts_next (prods1 b) type with
           | Some next => min_result r (data_confirmed type (threshold next) (conf1 b))
           | None => r
           end in
  match r with unconfirmed => false | _ => true end.

(** ** The confirmations of all blocks *)

Abbreviation Confirmations := (omap Checksum256 block_info).

Definition confirm (state : BlockHeaderState) (producer : AccountNumber) (type : confirm_type) (msg : SignedConfirm) (l : Confirmations) : result (bool * Confirmations) :=
  let p0 := producers state in
  let p1 := nextProducers state in
  if (ps_size p0 =? 0)%nat then mret (true, l)
  else
    let signer := cd_signer (sc_data msg) in
    let idx0 := getIndexClaim p0 producer signer in
    let idx1 := match p1 with Some next => getIndexClaim next producer signer | None => None end in
    if bool_decide (is_Some idx0) || bool_decide (is_Some idx1) then
      let l := match find (hs_blockId state) l with Some _ => l | None => emplace (hs_blockId state) (new_block_info p0 p1) l end in
      match find (hs_blockId state) l with
      | Some b => let '(r, b) := info_confirm idx0 idx1 type msg b in mret (r, assign (hs_blockId state) b l)
      | None => Abort "assertion failed"
      end
    else Abort "Wrong signer for block".

Fixpoint addIrreversibleCommits (state : BlockHeaderState) (confirms : list ProducerConfirm) (prods : ProducerSet) (l : Confirmations) : result Confirmations :=
  match confirms with
  | [] => mret l
  | c :: confirms =>
      match getClaim prods (pc_producer c) with
      | None => Abort "Not a valid producer"
      | Some claim =>
          let msg := {| sc_data := {| cd_type := ct_commit; cd_block := hs_blockId state; cd_producer := pc_producer c; cd_signer := claim |}; sc_signature := pc_signature c |} in
          '(_, l) ← confirm state (pc_producer c) ct_commit msg l;
          addIrreversibleCommits state confirms prods l
      end
  end.
Definition addBlockConfirm (commits : BlockConfirm) (state : BlockHeaderState) (l : Confirmations) : result Confirmations :=
  l ← addIrreversibleCommits state (bc_commits commits) (producers state) l;
  match nextProducers state, bc_nextCommits commits with
  | Some next, Some nextCommits => addIrreversibleCommits state nextCommits next l
  | Some _, None => Abort "nextCommits required during joint consensus"
  | None, Some _ => Abort "Unexpected nextCommits outside joint consensus"
  | None, None => mret l
  end.

Definition isCommitted (state : BlockHeaderState) (l : Confirmations) : bool :=
  match find (hs_blockId state) l with Some b => info_confirmed ct_commit b || committedByBlock b | None => false end.

(** The messages of a group, as a proof ordered by producer. *)
Definition pc_le (a b : ProducerConfirm) : Prop := pc_producer a <= pc_producer b.
#[export] Instance pc_le_dec : RelDecision pc_le := fun a b => Z.le_dec (pc_producer a) (pc_producer b).
Definition group_confirms (p : ProducerSet) (msgs : list SignedConfirm) : list ProducerConfirm :=
  merge_sort pc_le
    ((fun m => {| pc_producer := cd_producer (sc_data m); pc_signature := sc_signature m |}) <$>
          (filter (fun m => getClaim p (cd_producer (sc_data m)) = Some (cd_signer (sc_data m))) msgs)).
(** [save_commit_data]: what it stores as the data of the block. *)
Definition save_commit_data (state : BlockHeaderState) (l : Confirmations) : result BlockConfirm :=
  b ← assert (find (hs_blockId state) l);
  mret {| bc_blockNum := hs_blockNum state; bc_commits := group_confirms (producers state) (bi_commits b);
          bc_nextCommits := match nextProducers state with Some next => Some (group_confirms next (bi_commits b)) | None => None end |}.

(** ** Proofs in blocks *)

(** The ancestor [n] blocks before [state], if it is known. *)
Fixpoint walk_back (f : ForkDb) (state : BlockHeaderState) (n : nat) : option BlockHeaderState :=
  match n with
  | O => Some state
  | S n => match get_state f (h_previous (hs_header state)) with Some prev => walk_back f prev n | None => None end
  end.

(** The parts of [validate_aux_consensus_data], which runs for a block that was just
    inserted, before the fork switch: what it verifies and records, up to
    [set_view] ([check_aux]; [None]: the committed block is no longer known), and
    what it commits after it ([commit_aux]). *)
Section aux.
Context (sha256_header : Header -> Checksum256).
Context (verify : VerifyTables -> ConfirmData -> Claim -> bytes -> result unit).
Context (from_frac : bytes -> result BlockConfirm).

Definition check_aux (state : BlockHeaderState) (aux : bytes) (f : ForkDb) (l : Confirmations) (data : gmap Checksum256 bytes)
    : result (option (BlockHeaderState * BlockConfirm * Confirmations * gmap Checksum256 bytes)) :=
  commits ← from_frac aux;
  check ((h_commitNum (hs_header state) <=? bc_blockNum commits) && (bc_blockNum commits <=? h_blockNum (hs_header state))) "blockNum out of range" ;;
  match walk_back f state (Z.to_nat (hs_blockNum state - bc_blockNum commits)) with
  | None => mret None
  | Some committed =>
      verifyIrreversibleSignature verify commits committed ;;
      l ← addBlockConfirm commits committed l;
      let data := if bool_decide (ps_algorithm (producers committed) = bft) then <[hs_blockId committed := aux]> data else data in
      mret (Some (committed, commits, l, data))
  end.

Definition order_lt (a b : Order) : bool := match cmp a b with Lt => true | _ => false end.
Definition max_order (a b : Order) : Order := if order_lt b a then a else b.
Definition verify_commit (state : BlockHeaderState) (best_prepared : Order) (f : ForkDb) : result unit :=
  if order_lt (order state) best_prepared && negb (is_ancestor sha256_header f (hs_blockId state) (hs_blockNum state) best_prepared.2 best_prepared.1.2)
  then consensus_failure else mret tt.
Definition commit_aux (state committed : BlockHeaderState) (commits : BlockConfirm) (best_prepared : Order) (f : ForkDb) (l : Confirmations)
    : result (ForkDb * Confirmations * Order) :=
  '(f, l) ← (if negb (in_best_chain f (hs_blockId committed) (hs_blockNum committed)) then
     verify_commit committed best_prepared f ;;
     let l := match find (hs_blockId committed) l with
              | Some b => assign (hs_blockId committed) (set_committedByBlock b) l
              | None => emplace (hs_blockId committed) (set_committedByBlock (new_block_info (producers state) (nextProducers state))) l
              end in
     mret (f, l)
   else
     '(_, f) ← commit sha256_header f (bc_blockNum commits);
     mret (f, l));
  mret (f, l, max_order (order committed) best_prepared).

(** The whole function, up to a change of the term: [set_view] does nothing unless
    the term of the committed block is later than the current one, and otherwise
    moves to this term and makes a view change ([aux_new_view]) before [commit_aux]
    follows. *)
Inductive aux_outcome :=
| aux_unknown
| aux_new_view (committed : BlockHeaderState) (commits : BlockConfirm) (l : Confirmations) (data : gmap Checksum256 bytes)
| aux_done (f : ForkDb) (l : Confirmations) (data : gmap Checksum256 bytes) (best_prepared : Order).
Definition validate_aux_consensus_data (current_term : Z) (state : BlockHeaderState) (aux : bytes) (best_prepared : Order) (f : ForkDb) (l : Confirmations)
    (data : gmap Checksum256 bytes) : result aux_outcome :=
  r ← check_aux state aux f l data;
  match r with
  | None => mret aux_unknown
  | Some (committed, commits, l, data) =>
      if current_term <? h_term (hs_header committed) then mret (aux_new_view committed commits l data)
      else
        '(f, l, best_prepared) ← commit_aux state committed commits best_prepared f l;
        mret (aux_done f l data best_prepared)
  end.

(** What [on_accept_block] commits. *)
Definition accept_commit (state : BlockHeaderState) (best_prepared : Order) (f : ForkDb) (l : Confirmations) : result (ForkDb * Order) :=
  if bool_decide (ps_algorithm (producers state) = bft) then
    '(f, best_prepared) ← (if hs_singleProducer state then
       '(_, f) ← commit sha256_header f (h_commitNum (hs_header state));
       mret (f, max_order (order state) best_prepared)
     else mret (f, best_prepared));
    if isCommitted state l then '(_, f) ← commit sha256_header f (hs_blockNum state); mret (f, best_prepared) else mret (f, best_prepared)
  else mret (f, best_prepared).
End aux.

#[local] Set Default Proof Using "Type".

(** ** Verification accepts exactly the valid entries *)

Section verified.
Context (verify : VerifyTables -> ConfirmData -> Claim -> bytes -> result unit).

(** An entry of a proof that the code accepts. *)
Definition entry_ok (type : confirm_type) (revision : VerifyTables) (id : Checksum256) (prods : ProducerSet) (c : ProducerConfirm) : Prop :=
  0 < pc_producer c /\ exists claim, getClaim prods (pc_producer c) = Some claim /\
    verify revision {| cd_type := type; cd_block := id; cd_producer := pc_producer c; cd_signer := claim |} claim (pc_signature c) = Ok tt.

Lemma verifyMsig_ok type revision id confirms prods : verifyMsig verify type revision id confirms prods = Ok tt <->
  (threshold prods <= length confirms)%nat /\ Forall (entry_ok type revision id prods) confirms.
Proof.
  unfold verifyMsig. split.
  - intros E. apply bind_ok in E as ([] & Et & E). apply check_ok, Nat.leb_le in Et. split; [done|]. clear Et.
    induction confirms as [|c confirms IH]; [constructor|]. cbn in E. apply bind_ok in E as ([] & El & E). apply check_ok, Z.ltb_lt in El.
    destruct (getClaim prods (pc_producer c)) as [claim|] eqn:Ec; [|done]. apply bind_ok in E as ([] & Ev & E).
    constructor; [|by apply IH]. split; [done|eauto].
  - intros [Ht H]. rewrite (proj2 (check_ok _ _) (proj2 (Nat.leb_le _ _) Ht)). cbn [mbind result_bind]. clear Ht.
    induction H as [|c confirms [Hp (claim & Ec & Ev)] _ IH]; [done|]. cbn. unfold null_producer. apply Z.ltb_lt in Hp. rewrite Hp, Ec. cbn. rewrite Ev. exact IH.
Qed.

(** One signature, repeated, is a proof: the account with which the loop
    compares is never advanced. *)
Lemma repeated_entry type revision id prods c : entry_ok type revision id prods c ->
  verifyMsig verify type revision id (replicate (threshold prods) c) prods = Ok tt.
Proof. intros H. apply verifyMsig_ok. rewrite length_replicate. split; [done|by apply Forall_replicate]. Qed.

(** A single active producer proves that a block is irreversible: outside joint
    consensus, its own commit repeated passes [verifyIrreversibleSignature]; and
    for a light node, with one producer of each of the two sets, it passes
    [light_verify] of a change of producers. *)
Theorem one_commit_is_a_proof from_frac base_verify state revision c :
  getProdsAuthRevision state = Ok revision -> entry_ok ct_commit revision (hs_blockId state) (producers state) c ->
  (nextProducers state = None -> verifyIrreversibleSignature verify
     {| bc_blockNum := hs_blockNum state; bc_commits := replicate (threshold (producers state)) c; bc_nextCommits := None |} state = Ok tt) /\
  (forall light next auth c' block aux num,
     lh_producers light = producers state -> ps_algorithm (producers state) = bft -> lh_nextProducers light = Some next -> authState next = Some auth ->
     last (filter (fun xid => xid.2 = num) (pendingBlocks light)) = Some (hs_blockId state, num) ->
     entry_ok ct_commit (auth_revision auth) (hs_blockId state) next c' -> sh_auxConsensusData block = Some aux ->
     from_frac aux = Ok {| bc_blockNum := num; bc_commits := replicate (threshold (producers state)) c; bc_nextCommits := Some (replicate (threshold next) c') |} ->
     forall info, bft_light_verify verify from_frac base_verify light info block = Ok num).
Proof.
  intros Er Hc. pose proof (repeated_entry _ _ _ _ _ Hc) as Hm. split.
  - intros En. unfold verifyIrreversibleSignature. rewrite Er. cbn. rewrite Hm, En. done.
  - intros light next auth c' block aux num Hp Ha Hn Hau Hl Hc' Hb Hf info. unfold bft_light_verify.
    rewrite Hp, bool_decide_true by done. cbn [negb]. rewrite Hb, Hf. cbn [mbind result_bind bc_blockNum bc_commits bc_nextCommits]. rewrite Hl.
    unfold getProdsAuthRevision in Er. unfold next_auth_revision. destruct (authState (producers state)); [|done]. injection Er as <-.
    cbn. rewrite Hm. cbn. rewrite Hn, Hau. cbn. by rewrite (repeated_entry _ _ _ _ _ Hc').
Qed.

(** Two quorums of different producers have more than a third in common. *)
Lemma common_producers (keys l1 l2 : list AccountNumber) : NoDup l1 -> NoDup l2 -> l1 ⊆ keys -> l2 ⊆ keys ->
  (length l1 + length l2 <= length keys + length (filter (.∈ l2) l1))%nat.
Proof.
  intros N1 N2 K1 K2. assert (filter (.∉ l2) l1 ++ l2 ⊆+ keys) as L%submseteq_length.
  { apply NoDup_submseteq.
    - apply NoDup_app. split_and!; [by apply NoDup_filter| |done]. intros x Hx. by apply list_elem_of_filter in Hx as [? _].
    - intros x [Hx|Hx]%elem_of_app; [|auto]. apply list_elem_of_filter in Hx as [_ Hx]. auto. }
  rewrite length_app in L. assert (length (filter (.∈ l2) l1) + length (filter (.∉ l2) l1) = length l1)%nat; [|lia].
  clear. induction l1 as [|x l1 IH]; [done|]. rewrite !filter_cons. destruct (decide (x ∈ l2)), (decide (x ∉ l2)); try done; cbn; lia.
Qed.

(** What a proof shows when its producers are different: if two blocks have
    proofs by the same producers, more than a third of the producers have signed
    commits of both. *)
Theorem conflicting_commits_need_faults revision id1 id2 l1 l2 prods :
  ps_algorithm prods = bft -> NoDup (pc_producer <$> l1) -> NoDup (pc_producer <$> l2) ->
  verifyMsig verify ct_commit revision id1 l1 prods = Ok tt -> verifyMsig verify ct_commit revision id2 l2 prods = Ok tt ->
  exists faulty, NoDup faulty /\ (ps_size prods < 3 * length faulty)%nat /\
    forall x, x ∈ faulty -> exists c1 c2, pc_producer c1 = x /\ pc_producer c2 = x /\
      entry_ok ct_commit revision id1 prods c1 /\ entry_ok ct_commit revision id2 prods c2.
Proof.
  intros Ha N1 N2 [T1 E1]%verifyMsig_ok [T2 E2]%verifyMsig_ok. rewrite Forall_forall in E1, E2.
  assert (forall l id, (forall c, c ∈ l -> entry_ok ct_commit revision id prods c) -> (pc_producer <$> l) ⊆ map fst (activeProducers prods)) as K.
  { intros l id El x (c & -> & Hc)%list_elem_of_fmap. destruct (El c Hc) as (_ & claim & Hk & _). by eapply find_Some_key. }
  exists (filter (.∈ pc_producer <$> l2) (pc_producer <$> l1)). split_and!; [by apply NoDup_filter| |].
  - pose proof (common_producers _ _ _ N1 N2 (K _ _ E1) (K _ _ E2)) as L. rewrite length_map, !length_fmap in L. fold (ps_size prods) in L.
    unfold threshold in T1, T2. rewrite Ha in T1, T2. mlia.
  - intros x [Hx2 Hx1]%list_elem_of_filter. apply list_elem_of_fmap in Hx1 as (c1 & -> & H1), Hx2 as (c2 & Hx & H2). exists c1, c2. auto.
Qed.
End verified.

(** ** Counting confirmations *)

(** A confirmation is a new one exactly when it completes the quorum. *)
Lemma count_set (b : list bool) i : b !! i = Some false -> bits_count (<[i := true]> b) = S (bits_count b).
Proof.
  unfold bits_count. revert i. induction b as [|x b IH]; intros [|i] E; simplify_eq/=; [done|].
  rewrite !filter_cons. specialize (IH _ E). repeat case_decide; cbn; congruence.
Qed.

Definition reached (type : confirm_type) (t : nat) (d : block_confirm_data) : bool := (t <=? bits_count (bits_of type d))%nat.
Lemma data_confirm_spec idx type t d : (forall i, idx = Some i -> (i < length (bits_of type d))%nat) ->
  let '(r, d') := data_confirm idx type t d in
  r = match reached type t d, reached type t d' with true, _ => duplicate | false, true => confirmed | false, false => unconfirmed end /\
  (reached type t d = true -> reached type t d' = true).
Proof.
  intros Hi. unfold data_confirm, data_confirmed, reached. destruct idx as [i|]; [|by case_match].
  destruct (lookup_lt_is_Some_2 _ _ (Hi i eq_refl)) as [x Ex]. rewrite Ex. cbn. destruct x; cbn; [by case_match|].
  assert (bits_of type (set_bits type (<[i := true]> (bits_of type d)) d) = <[i := true]> (bits_of type d)) as -> by by destruct type.
  rewrite (count_set _ _ Ex). generalize (bits_count (bits_of type d)) as n. intros n.
  destruct (Nat.eqb_spec (S n) t), (Nat.ltb_spec t (S n)), (Nat.leb_spec t n), (Nat.leb_spec t (S n)); (lia || done).
Qed.

(** [confirm] answers that a block is confirmed exactly once: when this message
    completes the quorums of all sets of producers that count. *)
Theorem confirm_once idx0 idx1 type msg b r b' :
  (forall i, idx0 = Some i -> (i < length (bits_of type (conf0 b)))%nat) ->
  (forall i, idx1 = Some i -> (i < length (bits_of type (conf1 b)))%nat) ->
  info_confirm idx0 idx1 type msg b = (r, b') ->
  (r = true <-> info_confirmed type b = false /\ info_confirmed type b' = true) /\
  (info_confirmed type b = true -> info_confirmed type b' = true).
Proof.
  intros H0 H1 E. unfold info_confirm in E.
  assert (exists x, (if bit_unset (bits_of type (conf0 b)) idx0 || bit_unset (bits_of type (conf1 b)) idx1 then add_message type msg b else b) = x /\
    conf0 x = conf0 b /\ conf1 x = conf1 b /\ prods0 x = prods0 b /\ prods1 x = prods1 b) as (x & Ex & C0 & C1 & P0 & P1).
  { eexists. split; [reflexivity|]. destruct (_ || _); [by destruct type|done]. }
  rewrite Ex, C0, C1, P0, P1 in E. clear Ex.
  pose proof (data_confirm_spec idx0 type (threshold (prods0 b)) (conf0 b) H0) as S0.
  destruct (data_confirm idx0 type (threshold (prods0 b)) (conf0 b)) as [r0 c0]. destruct S0 as [-> M0].
  unfold info_confirmed, data_confirmed. fold (reached type (threshold (prods0 b)) (conf0 b)).
  destruct (counts_next (prods1 b) type) as [next|] eqn:En.
  - pose proof (data_confirm_spec idx1 type (threshold next) (conf1 b) H1) as S1.
    destruct (data_confirm idx1 type (threshold next) (conf1 b)) as [r1 c1]. destruct S1 as [-> M1]. injection E as <- <-.
    cbn [conf0 conf1 prods0 prods1 set_conf]. rewrite P0, P1, En. fold (reached type (threshold next) (conf1 b)).
    fold (reached type (threshold (prods0 b)) c0) (reached type (threshold next) c1).
    destruct (reached type (threshold (prods0 b)) (conf0 b)), (reached type (threshold (prods0 b)) c0), (reached type (threshold next) (conf1 b)),
      (reached type (threshold next) c1); cbn; try (by specialize (M0 eq_refl)); try (by specialize (M1 eq_refl)); split; try done; split; intros; try done; by destruct_and!.
  - injection E as <- <-. cbn [conf0 conf1 prods0 prods1 set_conf]. rewrite P0, P1, En. fold (reached type (threshold (prods0 b)) c0).
    destruct (reached type (threshold (prods0 b)) (conf0 b)), (reached type (threshold (prods0 b)) c0); cbn; try (by specialize (M0 eq_refl));
      split; try done; split; intros; try done; by destruct_and!.
Qed.

(** ** The messages behind the bits *)

Definition sc_producer (m : SignedConfirm) : AccountNumber := cd_producer (sc_data m).
Definition matches (p : ProducerSet) (m : SignedConfirm) : Prop := getClaim p (cd_producer (sc_data m)) = Some (cd_signer (sc_data m)).
#[local] Instance matches_dec p m : Decision (matches p m) := decide (getClaim p (cd_producer (sc_data m)) = Some (cd_signer (sc_data m))).
Definition idx_of (p : ProducerSet) (m : SignedConfirm) : option nat := getIndexClaim p (cd_producer (sc_data m)) (cd_signer (sc_data m)).

Lemma index_of_key l x i : index_of x l = Some i -> exists c, l !! i = Some (x, c).
Proof.
  revert i. induction l as [|[k c] l IH]; intros i E; [done|]. cbn in E. destruct (cmp x k) eqn:Ec.
  - injection E as <-. apply cmp_eq in Ec as ->. by exists c.
  - destruct (index_of x l) as [j|]; [|done]. injection E as <-. by apply IH.
  - destruct (index_of x l) as [j|]; [|done]. injection E as <-. by apply IH.
Qed.
Lemma index_of_known l x c : find x l = Some c -> is_Some (index_of x l).
Proof. induction l as [|[k d] l IH]; cbn; [done|]. destruct (cmp x k); [by eexists|..]; intros H%IH; by apply fmap_is_Some. Qed.

Lemma idx_of_matches p m : is_Some (idx_of p m) <-> matches p m.
Proof.
  unfold idx_of, getIndexClaim, matches, getClaim. destruct (find _ _) as [c|] eqn:E; [|split; [by intros []|done]].
  case_bool_decide as Hc; [subst; split; [done|intros _; by eapply index_of_known]|]. split; [by intros []|congruence].
Qed.
Lemma idx_of_range p m i : idx_of p m = Some i -> (i < ps_size p)%nat.
Proof.
  unfold idx_of, getIndexClaim. destruct (find _ _) as [c|]; [|done]. case_bool_decide; [|done].
  intros (d & E)%index_of_key. by apply lookup_lt_Some in E.
Qed.
Lemma idx_of_inj p m m' i : idx_of p m = Some i -> idx_of p m' = Some i -> sc_producer m = sc_producer m' /\ cd_signer (sc_data m) = cd_signer (sc_data m').
Proof.
  intros E E'. assert (matches p m) as M by (apply idx_of_matches; eauto). assert (matches p m') as M' by (apply idx_of_matches; eauto).
  unfold idx_of, getIndexClaim in E, E'. unfold matches, getClaim in M, M'. rewrite M, bool_decide_true in E by done. rewrite M', bool_decide_true in E' by done.
  apply index_of_key in E as (c & E), E' as (c' & E'). unfold sc_producer. rewrite E in E'. injection E' as E1 _. split; [done|].
  rewrite E1 in M. congruence.
Qed.

(** The bits of a group are the producers whose messages are kept, one each. *)
Record group_ok (p : ProducerSet) (bits : list bool) (msgs : list SignedConfirm) : Prop := {
  g_len : length bits = ps_size p;
  g_bits : forall i, bits !! i = Some true <-> exists m, m ∈ msgs /\ idx_of p m = Some i;
  g_count : bits_count bits = length (filter (matches p) msgs);
  g_nodup : NoDup (sc_producer <$> filter (matches p) msgs)
}.
Lemma group_new p : group_ok p (repeat false (ps_size p)) [].
Proof.
  split; [apply repeat_length| | |apply NoDup_nil_2].
  - intros i. split; [|by intros (? & []%elem_of_nil & _)]. intros H%list_elem_of_lookup_2%list_elem_of_In. by apply repeat_spec in H.
  - unfold bits_count. generalize (ps_size p) as n. by induction n.
Qed.
(** The bits with that of a message set. *)
Definition with_bit (idx : option nat) (bits : list bool) : list bool := match idx with Some i => <[i := true]> bits | None => bits end.
Lemma elem_of_snoc {A} (x a : A) l : x ∈ l ++ [a] <-> x ∈ l \/ x = a.
Proof. by rewrite elem_of_app, list_elem_of_singleton. Qed.
Lemma group_add p bits msgs m : group_ok p bits msgs -> (forall i, idx_of p m = Some i -> bits !! i = Some false) ->
  group_ok p (with_bit (idx_of p m) bits) (msgs ++ [m]).
Proof.
  intros [Hl Hb Hc Hn] Hi. unfold with_bit. pose proof (filter_app (matches p) msgs [m]) as Hf.
  assert (matches p m <-> is_Some (idx_of p m)) as Hm by (symmetry; apply idx_of_matches). destruct (idx_of p m) as [i|] eqn:Ei.
  - rewrite filter_cons_True in Hf by (apply Hm; eauto). specialize (Hi i eq_refl). split; rewrite ?Hf; [by rewrite length_insert| | |].
    + intros j. destruct (decide (j = i)) as [->|Hj].
      * rewrite list_lookup_insert_eq by (by apply lookup_lt_Some in Hi). split; [|done]. intros _. exists m. split; [|done]. apply elem_of_snoc. by right.
      * rewrite list_lookup_insert_ne by done. rewrite Hb. setoid_rewrite elem_of_snoc. split; [intros (m' & ? & ?); eauto|].
        intros (m' & [?| ->] & E); [eauto|congruence].
    + rewrite (count_set _ _ Hi), Hc, length_app. cbn. lia.
    + rewrite fmap_app. apply NoDup_app. split_and!; [done| |apply NoDup_singleton].
      intros x (m' & -> & [Mm' Hm']%list_elem_of_filter)%list_elem_of_fmap E%list_elem_of_singleton.
      assert (idx_of p m' = Some i) as Ei'.
      { unfold idx_of, getIndexClaim in Ei |- *. unfold matches, getClaim in Mm'. unfold sc_producer in E. rewrite Mm', bool_decide_true by done.
        rewrite E in *. destruct (find _ _); [|done]. by case_bool_decide. }
      assert (bits !! i = Some true) by (apply Hb; eauto). congruence.
  - rewrite filter_cons_False in Hf by (rewrite Hm; by intros []). rewrite filter_nil, app_nil_r in Hf. split; rewrite ?Hf; [done| |done|done].
    intros j. rewrite Hb. setoid_rewrite elem_of_snoc. split; [intros (m' & ? & ?); eauto|].
    intros (m' & [?| ->] & E); [eauto|congruence].
Qed.

Lemma data_confirm_bits idx type t d : (forall i, idx = Some i -> (i < length (bits_of type d))%nat) ->
  bits_of type (data_confirm idx type t d).2 = with_bit idx (bits_of type d).
Proof.
  intros Hi. unfold data_confirm, with_bit. destruct idx as [i|]; [|done]. destruct (lookup_lt_is_Some_2 _ _ (Hi i eq_refl)) as [x Ex].
  rewrite Ex. cbn. destruct x; cbn; [by rewrite list_insert_id|]. by destruct type.
Qed.
Lemma data_confirm_other idx type type' t d : type <> type' -> bits_of type' (data_confirm idx type t d).2 = bits_of type' d.
Proof. intros H. unfold data_confirm. destruct idx; [|done]. case_match; [|done]. by destruct type, type'. Qed.

Definition next_idx (p1 : option ProducerSet) (m : SignedConfirm) : option nat := match p1 with Some next => idx_of next m | None => None end.
(** The commits of a block. *)
Record info_ok (b : block_info) : Prop := {
  i_group0 : group_ok (prods0 b) (bits_commit (conf0 b)) (bi_commits b);
  i_group1 : forall next, prods1 b = Some next -> group_ok next (bits_commit (conf1 b)) (bi_commits b)
}.

(** If one of the bits of a message is not set, no bit of it is set. *)
Lemma unset_all b m : info_ok b -> bit_unset (bits_commit (conf0 b)) (idx_of (prods0 b) m) || bit_unset (bits_commit (conf1 b)) (next_idx (prods1 b) m) = true ->
  (forall i, idx_of (prods0 b) m = Some i -> bits_commit (conf0 b) !! i = Some false) /\
  (forall next i, prods1 b = Some next -> idx_of next m = Some i -> bits_commit (conf1 b) !! i = Some false).
Proof.
  intros [G0 G1] Hu.
  assert (forall m', m' ∈ bi_commits b -> sc_producer m' = sc_producer m -> cd_signer (sc_data m') = cd_signer (sc_data m) -> False) as Hnew.
  { intros m' Hm' Ep Es. unfold sc_producer in Ep. apply orb_true_iff in Hu as [Hu|Hu]; unfold bit_unset in Hu.
    - destruct (idx_of (prods0 b) m) as [i|] eqn:Ei; [|done]. rewrite (proj2 (g_bits _ _ _ G0 i)) in Hu; [done|]. exists m'. split; [done|].
      unfold idx_of in *. by rewrite Ep, Es.
    - unfold next_idx in Hu. destruct (prods1 b) as [next|]; [|done]. destruct (idx_of next m) as [i|] eqn:Ei; [|done].
      rewrite (proj2 (g_bits _ _ _ (G1 _ eq_refl) i)) in Hu; [done|]. exists m'. split; [done|]. unfold idx_of in *. by rewrite Ep, Es. }
  assert (forall p bits, group_ok p bits (bi_commits b) -> forall i, idx_of p m = Some i -> bits !! i = Some false) as H; [|split; [eauto|eauto]].
  intros p bits G i Ei. pose proof (idx_of_range _ _ _ Ei) as Hi. rewrite <- (g_len _ _ _ G) in Hi. destruct (lookup_lt_is_Some_2 _ _ Hi) as [[] E]; [|done].
  exfalso. apply (g_bits _ _ _ G) in E as (m' & Hm' & Ei'). destruct (idx_of_inj _ _ _ _ Ei' Ei). eauto.
Qed.
(** If no bit of a message is left to set, setting them changes nothing. *)
Lemma with_bit_set bits idx : bit_unset bits idx = false -> with_bit idx bits = bits.
Proof. unfold bit_unset, with_bit. destruct idx as [i|]; [|done]. destruct (bits !! i) as [[]|] eqn:E; cbn; [|done|done]. intros _. by apply list_insert_id. Qed.

Lemma commits_confirmed b m r b' : info_ok b -> info_confirm (idx_of (prods0 b) m) (next_idx (prods1 b) m) ct_commit m b = (r, b') ->
  info_ok b' /\ prods0 b' = prods0 b /\ prods1 b' = prods1 b /\ committedByBlock b' = committedByBlock b /\ (bi_commits b' = bi_commits b \/ bi_commits b' = bi_commits b ++ [m]).
Proof.
  intros Hb E. pose proof Hb as [G0 G1]. unfold info_confirm in E.
  assert (forall i, idx_of (prods0 b) m = Some i -> (i < length (bits_of ct_commit (conf0 b)))%nat) as R0.
  { intros i Ei. cbn. rewrite (g_len _ _ _ G0). by eapply idx_of_range. }
  assert (forall next i, prods1 b = Some next -> next_idx (prods1 b) m = Some i -> (i < length (bits_of ct_commit (conf1 b)))%nat) as R1.
  { intros next i En Ei. cbn. rewrite (g_len _ _ _ (G1 _ En)). rewrite En in Ei. by eapply idx_of_range. }
  set (u := bit_unset _ _ || bit_unset _ _) in E.
  set (x := if u then add_message ct_commit m b else b) in E.
  assert (conf0 x = conf0 b /\ conf1 x = conf1 b /\ prods0 x = prods0 b /\ prods1 x = prods1 b /\ committedByBlock x = committedByBlock b /\
    bi_commits x = if u then bi_commits b ++ [m] else bi_commits b) as (C0 & C1 & P0 & P1 & B & L) by (subst x; by destruct u).
  clearbody x. rewrite C0, C1, P0, P1 in E.
  pose proof (data_confirm_bits (idx_of (prods0 b) m) ct_commit (threshold (prods0 b)) (conf0 b) R0) as D0.
  destruct (data_confirm (idx_of (prods0 b) m) ct_commit (threshold (prods0 b)) (conf0 b)) as [r0 c0]. cbn in D0.
  assert (exists c1, b' = set_conf c0 c1 x /\ forall next, prods1 b = Some next -> bits_commit c1 = with_bit (next_idx (prods1 b) m) (bits_commit (conf1 b))) as (c1 & -> & D1).
  { destruct (prods1 b) as [next|] eqn:En; unfold counts_next in E.
    - rewrite (bool_decide_true (ct_commit = ct_commit)), orb_true_r in E by done.
      pose proof (data_confirm_bits (next_idx (Some next) m) ct_commit (threshold next) (conf1 b) (fun i => R1 next i eq_refl)) as D1.
      destruct (data_confirm (next_idx (Some next) m) ct_commit (threshold next) (conf1 b)) as [r1 c1]. injection E as <- <-. exists c1. split; [done|]. by intros ? [= <-].
    - injection E as <- <-. exists (conf1 b). by split. }
  split_and!; [|done..|cbn; rewrite L; destruct u; auto]. split; cbn; rewrite L, ?P0, ?P1, ?D0.
  - destruct u eqn:Eu; [apply group_add; [done|]; by apply (unset_all b m Hb Eu)|]. apply orb_false_iff in Eu as [Eu _]. by rewrite with_bit_set.
  - intros next En. rewrite (D1 _ En). specialize (G1 _ En). destruct u eqn:Eu.
    + pose proof (fun i => proj2 (unset_all b m Hb Eu) next i En) as U. rewrite En. by apply group_add.
    + apply orb_false_iff in Eu as [_ Eu]. by rewrite with_bit_set.
Qed.

(** Prepares leave the commits alone. *)
Lemma prepare_keeps_commits idx0 idx1 m b r b' : info_confirm idx0 idx1 ct_prepare m b = (r, b') ->
  prods0 b' = prods0 b /\ prods1 b' = prods1 b /\ bi_commits b' = bi_commits b /\ committedByBlock b' = committedByBlock b /\
  bits_commit (conf0 b') = bits_commit (conf0 b) /\ bits_commit (conf1 b') = bits_commit (conf1 b).
Proof.
  unfold info_confirm. set (x := if _ || _ then add_message ct_prepare m b else b).
  assert (prods0 x = prods0 b /\ prods1 x = prods1 b /\ bi_commits x = bi_commits b /\ committedByBlock x = committedByBlock b /\ conf0 x = conf0 b /\ conf1 x = conf1 b)
    as (P0 & P1 & L & B & C0 & C1) by (subst x; by destruct (_ || _)). clearbody x. rewrite P0, P1, C0, C1.
  pose proof (fun t d => data_confirm_other idx0 ct_prepare ct_commit t d ltac:(done)) as D0. pose proof (fun t d => data_confirm_other idx1 ct_prepare ct_commit t d ltac:(done)) as D1.
  specialize (D0 (threshold (prods0 b)) (conf0 b)). destruct (data_confirm idx0 _ _ _) as [r0 c0]. cbn in D0.
  destruct (counts_next (prods1 b) ct_prepare) as [next|].
  - specialize (D1 (threshold next) (conf1 b)). destruct (data_confirm idx1 _ _ _) as [r1 c1]. cbn in D1. intros [= <- <-]. by cbn.
  - intros [= <- <-]. by cbn.
Qed.

Section proof.
Context (verify : VerifyTables -> ConfirmData -> Claim -> bytes -> result unit).
Context (state : BlockHeaderState).

(** A message about the block, whose signature was verified. *)
Definition message_ok (m : SignedConfirm) : Prop :=
  cd_block (sc_data m) = hs_blockId state /\
  (matches (producers state) m -> forall r, getProdsAuthRevision state = Ok r -> verify r (sc_data m) (cd_signer (sc_data m)) (sc_signature m) = Ok tt) /\
  (forall next, nextProducers state = Some next -> matches next m ->
     forall r, next_auth_revision next = Ok r -> verify r (sc_data m) (cd_signer (sc_data m)) (sc_signature m) = Ok tt).

(** Messages are handled one after the other. *)
Fixpoint confirm_all (msgs : list SignedConfirm) (l : Confirmations) : result Confirmations :=
  match msgs with
  | [] => mret l
  | m :: msgs => '(_, l) ← confirm state (cd_producer (sc_data m)) (cd_type (sc_data m)) m l; confirm_all msgs l
  end.

Record commits_ok (b : block_info) : Prop := {
  c_prods0 : prods0 b = producers state;
  c_prods1 : prods1 b = nextProducers state;
  c_info : info_ok b;
  c_byBlock : committedByBlock b = false;
  c_messages : Forall (fun m => cd_type (sc_data m) = ct_commit /\ message_ok m) (bi_commits b)
}.
Lemma new_commits_ok : commits_ok (new_block_info (producers state) (nextProducers state)).
Proof. split; [done|done| |done|constructor]. split; [apply group_new|]. intros next E. cbn in E |- *. rewrite E. apply group_new. Qed.

Lemma confirm_commits_ok m l r l' : map_ok l -> (forall b, find (hs_blockId state) l = Some b -> commits_ok b) -> message_ok m ->
  confirm state (cd_producer (sc_data m)) (cd_type (sc_data m)) m l = Ok (r, l') ->
  map_ok l' /\ forall b, find (hs_blockId state) l' = Some b -> commits_ok b.
Proof.
  intros Hl Hb Hm E. unfold confirm in E. destruct (ps_size (producers state) =? 0)%nat; [by injection E as <- <-|].
  fold (idx_of (producers state) m) in E. change (match nextProducers state with Some next => getIndexClaim next _ _ | None => None end) with (next_idx (nextProducers state) m) in E.
  destruct (_ || _); [|done].
  set (l1 := match find (hs_blockId state) l with Some _ => l | None => _ end) in E.
  assert (map_ok l1 /\ forall b, find (hs_blockId state) l1 = Some b -> commits_ok b) as [Hl1 Hb1].
  { subst l1. destruct (find (hs_blockId state) l) eqn:Ef; [split; [done|]; intros b1 Eb1; apply Hb; congruence|]. split; [by apply emplace_ok|]. intros b. rewrite find_emplace_new by done.
    rewrite cmp_refl. intros [= <-]. apply new_commits_ok. }
  clearbody l1. destruct (find (hs_blockId state) l1) as [b|] eqn:Ef; [|done]. destruct (info_confirm _ _ _ _ _) as [r1 b1] eqn:Ei. injection E as <- <-.
  split. { by rewrite assign_keys. }
  intros b2. rewrite find_assign, cmp_refl, Ef. intros [= <-]. destruct (Hb1 _ eq_refl) as [P0 P1 Hi Hy Hms]. rewrite <- P0, <- P1 in Ei.
  destruct (cd_type (sc_data m)) eqn:Et.
  - destruct (prepare_keeps_commits _ _ _ _ _ _ Ei) as (E0 & E1 & E2 & E3 & E4 & E5). split; try congruence.
    destruct Hi as [G0 G1]. split; [by rewrite E0, E2, E4|]. intros next. rewrite E1, E2, E5. apply G1.
  - destruct (commits_confirmed _ _ _ _ Hi Ei) as (Hi' & E0 & E1 & E3 & E2). split; [congruence|congruence|done|congruence|].
    destruct E2 as [-> | ->]; [done|]. apply Forall_app. split; [done|]. apply Forall_singleton. done.
Qed.
Lemma confirm_all_ok msgs : forall l l', map_ok l -> (forall b, find (hs_blockId state) l = Some b -> commits_ok b) -> Forall message_ok msgs ->
  confirm_all msgs l = Ok l' -> forall b, find (hs_blockId state) l' = Some b -> commits_ok b.
Proof.
  induction msgs as [|m msgs IH]; intros l l' Hl Hb Hm E; [by injection E as <-|]. apply Forall_cons in Hm as [Hm Hms].
  cbn in E. apply bind_ok in E as ([r l1] & E1 & E). destruct (confirm_commits_ok _ _ _ _ Hl Hb Hm E1) as [Hl1 Hb1]. by eapply IH.
Qed.

(** The messages of a group are a valid proof, strictly ordered by producer. *)
Lemma group_proof p bits msgs revision : group_ok p bits msgs -> (threshold p <= bits_count bits)%nat -> Forall (Z.lt 0) (map fst (activeProducers p)) ->
  Forall (fun m => cd_type (sc_data m) = ct_commit /\ cd_block (sc_data m) = hs_blockId state /\
    (matches p m -> verify revision (sc_data m) (cd_signer (sc_data m)) (sc_signature m) = Ok tt)) msgs ->
  verifyMsig verify ct_commit revision (hs_blockId state) (group_confirms p msgs) p = Ok tt /\ StronglySorted Z.lt (pc_producer <$> group_confirms p msgs).
Proof.
  intros G Ht Hp Hm. set (to_confirm m := {| pc_producer := cd_producer (sc_data m); pc_signature := sc_signature m |}).
  assert (group_confirms p msgs ≡ₚ to_confirm <$> filter (matches p) msgs) as Hperm by apply merge_sort_Permutation.
  split.
  - apply verifyMsig_ok. rewrite (Permutation_length Hperm), length_fmap, <- (g_count _ _ _ G). split; [done|]. rewrite Hperm.
    apply Forall_fmap, Forall_forall. intros m [Mm Hin]%list_elem_of_filter. rewrite Forall_forall in Hm. rewrite Forall_forall in Hp. destruct (Hm m Hin) as (Et & Eb & Ev).
    split; [apply Hp; by eapply find_Some_key|]. exists (cd_signer (sc_data m)). split; [done|].
    assert ({| cd_type := ct_commit; cd_block := hs_blockId state; cd_producer := cd_producer (sc_data m); cd_signer := cd_signer (sc_data m) |} = sc_data m) as Em
      by (rewrite <- Et, <- Eb; by destruct (sc_data m)).
    subst to_confirm. cbn [pc_producer pc_signature]. rewrite Em. auto.
  - assert (NoDup (pc_producer <$> group_confirms p msgs)) as Hn. { rewrite Hperm, <- list_fmap_compose. exact (g_nodup _ _ _ G). }
    assert (StronglySorted pc_le (group_confirms p msgs)) as Hs.
    { apply StronglySorted_merge_sort; [intros ? ? ?; unfold pc_le; lia|intros ? ?; unfold pc_le; lia]. }
    clear Hperm. revert Hs Hn. generalize (group_confirms p msgs) as l. induction 1 as [|c l Hs IH Hc]; [constructor|]. cbn. rewrite NoDup_cons. intros [Hx Hn].
    constructor; [by apply IH|]. apply Forall_fmap, Forall_forall. intros d Hd. rewrite Forall_forall in Hc. specialize (Hc d Hd). unfold pc_le in Hc. cbn.
    enough (pc_producer c <> pc_producer d) by lia. intros E. apply Hx. rewrite E. by apply list_elem_of_fmap_2.
Qed.

(** C25: The commits that a node has collected prove the block to everyone: in
    whatever order, and however often, verified prepares and commits of a block
    arrive, once the block is committed, what [save_commit_data] stores passes
    [verifyIrreversibleSignature], and its producers are in strictly increasing
    order. *)
Theorem commit_proof_valid l l' msgs revision :
  map_ok l -> find (hs_blockId state) l = None -> (0 < ps_size (producers state))%nat ->
  getProdsAuthRevision state = Ok revision -> Forall (Z.lt 0) (map fst (activeProducers (producers state))) ->
  (forall next, nextProducers state = Some next -> is_Some (authState next) /\ Forall (Z.lt 0) (map fst (activeProducers next))) ->
  Forall message_ok msgs -> confirm_all msgs l = Ok l' -> isCommitted state l' = true ->
  exists proof, save_commit_data state l' = Ok proof /\ verifyIrreversibleSignature verify proof state = Ok tt /\
    StronglySorted Z.lt (pc_producer <$> bc_commits proof).
Proof.
  intros Hl Hf Hs Hr Hp Hn Hm E Hc. unfold isCommitted in Hc. destruct (find (hs_blockId state) l') as [b|] eqn:Eb; [|done].
  destruct (confirm_all_ok msgs l l' Hl ltac:(congruence) Hm E b Eb) as [P0 P1 [G0 G1] By Hms]. rewrite By, orb_false_r in Hc.
  unfold save_commit_data. rewrite Eb. cbn. eexists. split; [reflexivity|]. unfold info_confirmed, data_confirmed in Hc. rewrite P0, P1 in Hc. rewrite P0 in G0. rewrite P1 in G1.
  assert (threshold (producers state) <= bits_count (bits_commit (conf0 b)))%nat as T0.
  { cbn [bits_of] in Hc. destruct (Nat.leb_spec (threshold (producers state)) (bits_count (bits_commit (conf0 b)))); [done|]. by destruct (counts_next _ _). }
  destruct (group_proof _ _ _ revision G0 T0 Hp) as [V0 S0].
  { eapply Forall_impl; [exact Hms|]. intros m (Et & Eb' & Ev & _). split_and!; try done. auto. }
  split; [|done]. unfold verifyIrreversibleSignature. rewrite Hr. cbn. rewrite V0. cbn. destruct (nextProducers state) as [next|] eqn:En; [|done].
  destruct (Hn _ eq_refl) as [[auth Ea] Hp1]. unfold next_auth_revision at 1. rewrite Ea. cbn.
  assert (threshold next <= bits_count (bits_commit (conf1 b)))%nat as T1.
  { unfold counts_next in Hc. rewrite (bool_decide_true (ct_commit = ct_commit)), orb_true_r in Hc by done. cbn [bits_of] in Hc.
    destruct (Nat.leb_spec (threshold next) (bits_count (bits_commit (conf1 b)))); [done|]. by destruct (_ <=? _)%nat. }
  apply (group_proof _ _ _ _ (G1 _ eq_refl) T1 Hp1). eapply Forall_impl; [exact Hms|]. intros m (Et & Eb' & _ & Ev). split_and!; try done.
  intros Mm. apply (Ev next En Mm). unfold next_auth_revision. by rewrite Ea.
Qed.
End proof.

(** ** A forged proof *)

Section forged.
Context (sha256_header : Header -> Checksum256).
Context (verify : VerifyTables -> ConfirmData -> Claim -> bytes -> result unit).
Context (from_frac : bytes -> result BlockConfirm).

Lemma confirm_known state producer claim sig l : (0 < ps_size (producers state))%nat -> getClaim (producers state) producer = Some claim ->
  exists r, confirm state producer ct_commit {| sc_data := {| cd_type := ct_commit; cd_block := hs_blockId state; cd_producer := producer; cd_signer := claim |}; sc_signature := sig |} l = Ok r.
Proof.
  intros Hs Hc. unfold confirm. destruct (Nat.eqb_spec (ps_size (producers state)) 0); [lia|]. cbn [sc_data cd_signer].
  assert (is_Some (getIndexClaim (producers state) producer claim)) as Hi.
  { unfold getIndexClaim. unfold getClaim in Hc. rewrite Hc, bool_decide_true by done. by eapply index_of_known. }
  rewrite (bool_decide_true (is_Some (getIndexClaim (producers state) producer claim))) by done. cbn [orb].
  set (l1 := match find (hs_blockId state) l with Some _ => l | None => _ end).
  assert (is_Some (find (hs_blockId state) l1)) as [b ->].
  { subst l1. destruct (find (hs_blockId state) l) eqn:E; [rewrite ?E; eauto|].
    destruct (find (hs_blockId state) (emplace _ _ l)) eqn:E2; [eauto|]. apply find_None in E2 as []. apply emplace_keys. by left. }
  destruct (info_confirm _ _ _ _ _). cbn. eauto.
Qed.
Lemma add_repeated state c claim n : (0 < ps_size (producers state))%nat -> getClaim (producers state) (pc_producer c) = Some claim ->
  forall l, exists l', addIrreversibleCommits state (replicate n c) (producers state) l = Ok l'.
Proof.
  intros Hs Hc. induction n as [|n IH]; intros l; [by exists l|]. cbn. rewrite Hc.
  destruct (confirm_known state (pc_producer c) claim (pc_signature c) l Hs Hc) as [[r l1] ->]. cbn. apply IH.
Qed.

(** C39: One producer makes a block irreversible: a leader puts the commit of one
    producer for an earlier block of the best chain, as often as the threshold
    says, into the consensus data of a block that it adds, and every node that
    receives the block commits the earlier one, unless the commit itself fails.
    (The earlier block has no joint consensus, and its term is not later than the
    current one, so that the view does not change.) *)
Theorem one_producer_commits state committed revision c aux current_term f l data best h f' changed :
  walk_back f state (Z.to_nat (hs_blockNum state - hs_blockNum committed)) = Some committed ->
  getProdsAuthRevision committed = Ok revision -> entry_ok verify ct_commit revision (hs_blockId committed) (producers committed) c ->
  nextProducers committed = None -> (0 < ps_size (producers committed))%nat ->
  h_commitNum (hs_header state) <= hs_blockNum committed <= hs_blockNum state -> h_term (hs_header committed) <= current_term ->
  from_frac aux = Ok {| bc_blockNum := hs_blockNum committed; bc_commits := replicate (threshold (producers committed)) c; bc_nextCommits := None |} ->
  in_best_chain f (hs_blockId committed) (hs_blockNum committed) = true ->
  get_state f (f_head f) = Some h -> hs_blockNum committed <= hs_blockNum h -> commit sha256_header f (hs_blockNum committed) = Ok (changed, f') ->
  (exists l' data', validate_aux_consensus_data sha256_header verify from_frac current_term state aux best f l data =
    Ok (aux_done f' l' data' (max_order (order committed) best))) /\
  hs_blockNum committed <= commitIndex f'.
Proof.
  intros Hw Hr Hc Hn Hs Hnum Ht Hf Hb Hh Hle Hcm. pose proof Hc as (_ & claim & Hk & _). split.
  - destruct (add_repeated committed c claim (threshold (producers committed)) Hs Hk l) as [l' Hl].
    destruct (verifyMsig_ok verify ct_commit revision (hs_blockId committed) (replicate (threshold (producers committed)) c) (producers committed)) as [_ Hm].
    exists l'. eexists. unfold validate_aux_consensus_data, check_aux. rewrite Hf. cbn [mbind result_bind bc_blockNum bc_commits bc_nextCommits].
    change (h_blockNum (hs_header state)) with (hs_blockNum state). rewrite (proj2 (Z.leb_le _ _) (proj1 Hnum)), (proj2 (Z.leb_le _ _) (proj2 Hnum)), Hw.
    cbn [check andb mbind result_bind]. unfold verifyIrreversibleSignature, addBlockConfirm.
    rewrite Hr, Hn. cbn [mbind result_bind bc_commits bc_nextCommits]. rewrite Hm by (rewrite length_replicate; split; [done|by apply Forall_replicate]).
    cbn [mbind result_bind]. rewrite Hl. cbn [mbind result_bind mret result_ret]. rewrite (proj2 (Z.ltb_ge _ _) Ht). unfold commit_aux. rewrite Hb. cbn [negb]. cbn [bc_blockNum].
    rewrite Hcm. reflexivity.
  - unfold commit, head_state, assert in Hcm. rewrite Hh in Hcm. cbn [mbind result_bind] in Hcm. apply bind_ok in Hcm as (f1 & _ & E). injection E as _ <-. cbn. lia.
Qed.
End forged.

(** ** An example *)

Module BftExample.
Definition prods : ProducerSet :=
  {| ps_algorithm := bft; activeProducers := [(1, no_claim); (2, no_claim); (3, no_claim); (4, no_claim)]; authState := Some (BlockAuthState_load None None) |}.
Definition state : BlockHeaderState :=
  {| hs_info := ForkExample.info_of ForkExample.old_header; hs_revision := Some ForkExample.revision; producers := prods; nextProducers := None;
     nextProducersBlockNum := 0; hs_invalid := false |}.
(** A block on it, which was just inserted. *)
Definition next_header : Header := ForkExample.header ForkExample.old 4 0.
Definition next_state : BlockHeaderState :=
  {| hs_info := ForkExample.info_of next_header; hs_revision := None; producers := prods; nextProducers := None; nextProducersBlockNum := 0; hs_invalid := false |}.
Definition db : ForkDb :=
  set_states (emplace (hs_blockId next_state) next_state (assign ForkExample.old state (f_states ForkExample.db))) ForkExample.db.
Definition revision : VerifyTables := auth_revision (BlockAuthState_load None None).
(** The signature of a producer is its number. *)
Definition verify (_ : VerifyTables) (d : ConfirmData) (_ : Claim) (sig : bytes) : result unit :=
  check (bool_decide (sig = [cd_producer d])) "invalid signature".
Definition entry (x : AccountNumber) : ProducerConfirm := {| pc_producer := x; pc_signature := [x] |}.
Definition message (type : confirm_type) (x : AccountNumber) : SignedConfirm :=
  {| sc_data := {| cd_type := type; cd_block := hs_blockId state; cd_producer := x; cd_signer := no_claim |}; sc_signature := [x] |}.
Definition forged (_ : bytes) : result BlockConfirm :=
  Ok {| bc_blockNum := hs_blockNum state; bc_commits := replicate (threshold prods) (entry 2); bc_nextCommits := None |}.
Definition msgs : list SignedConfirm := [message ct_commit 4; message ct_prepare 1; message ct_commit 4; message ct_commit 1; message ct_commit 3].
Lemma msgs_ok : Forall (message_ok verify state) msgs.
Proof. repeat (constructor; [split_and!; [done|by intros _ r [= <-]|done]|]). constructor. Qed.
Lemma entry_valid id x : In x [1; 2; 3; 4] -> entry_ok verify ct_commit revision id prods (entry x).
Proof. intros [<-|[<-|[<-|[<-|[]]]]]; (split; [done|]; exists no_claim; by split). Qed.
End BftExample.

(** Producer 2 alone makes block 3, the head, irreversible by its block 4, although
    the node has counted one commit of the three that are needed. *)
Lemma one_producer_commits_witness : exists f' l' data',
  commit ForkExample.hash_header BftExample.db 3 = Ok (true, f') /\ commitIndex BftExample.db = 2 /\ 3 <= commitIndex f' /\
  validate_aux_consensus_data ForkExample.hash_header BftExample.verify BftExample.forged 0 BftExample.next_state [] (0, 0, []) BftExample.db [] ∅ =
    Ok (aux_done f' l' data' (max_order (order BftExample.state) (0, 0, []))) /\
  isCommitted BftExample.state l' = false.
Proof.
  destruct (commit ForkExample.hash_header BftExample.db 3) as [[changed f']|] eqn:E; [|by vm_compute in E].
  assert (changed = true) as -> by (vm_compute in E; by injection E as <- _).
  destruct (one_producer_commits ForkExample.hash_header BftExample.verify BftExample.forged BftExample.next_state BftExample.state BftExample.revision (BftExample.entry 2) [] 0 BftExample.db [] ∅ (0, 0, [])
    BftExample.state f' true ltac:(by vm_compute) eq_refl (BftExample.entry_valid _ 2 ltac:(cbn; auto)) eq_refl ltac:(cbn; lia) ltac:(by cbn) ltac:(by cbn) eq_refl ltac:(by vm_compute)
    ltac:(by vm_compute) ltac:(by cbn) E) as [(l' & data' & H) H2].
  exists f', l', data'. split_and!; [done|done|exact H2|exact H|]. vm_compute in H. injection H as _ <- _. by vm_compute.
Defined.

Lemma one_commit_is_a_proof_witness :
  verifyIrreversibleSignature BftExample.verify {| bc_blockNum := 3; bc_commits := replicate 3 (BftExample.entry 2); bc_nextCommits := None |} BftExample.state = Ok tt.
Proof.
  exact (proj1 (one_commit_is_a_proof BftExample.verify BftExample.forged (fun _ _ _ => Abort "") BftExample.state BftExample.revision (BftExample.entry 2)
    eq_refl (BftExample.entry_valid _ 2 ltac:(cbn; auto))) eq_refl).
Defined.

Lemma conflicting_commits_need_faults_witness : exists faulty, NoDup faulty /\ (4 < 3 * length faulty)%nat /\
  forall x, x ∈ faulty -> exists c1 c2, pc_producer c1 = x /\ pc_producer c2 = x /\
    entry_ok BftExample.verify ct_commit BftExample.revision [1] BftExample.prods c1 /\ entry_ok BftExample.verify ct_commit BftExample.revision [2] BftExample.prods c2.
Proof.
  apply (conflicting_commits_need_faults BftExample.verify BftExample.revision [1] [2] (BftExample.entry <$> [1; 2; 3]) (BftExample.entry <$> [2; 3; 4]) BftExample.prods);
    try reflexivity; apply (bool_decide_unpack _); by vm_compute.
Defined.

Lemma confirm_once_witness :
  let b := new_block_info BftExample.prods None in
  let b2 := (info_confirm (Some 1%nat) None ct_commit (BftExample.message ct_commit 2) (info_confirm (Some 0%nat) None ct_commit (BftExample.message ct_commit 1) b).2).2 in
  (info_confirm (Some 2%nat) None ct_commit (BftExample.message ct_commit 3) b2).1 = true /\ info_confirmed ct_commit b2 = false.
Proof.
  intros b b2. destruct (info_confirm (Some 2%nat) None ct_commit (BftExample.message ct_commit 3) b2) as [r b3] eqn:E.
  assert (r = true) as -> by (vm_compute in E; by injection E as <- _). split; [done|].
  by apply (confirm_once (Some 2%nat) None ct_commit (BftExample.message ct_commit 3) b2 true b3 ltac:(intros ? [= <-]; vm_compute; lia) ltac:(done) E).
Defined.

Lemma commit_proof_valid_witness : exists l' proof,
  confirm_all BftExample.state BftExample.msgs [] = Ok l' /\ save_commit_data BftExample.state l' = Ok proof /\
  verifyIrreversibleSignature BftExample.verify proof BftExample.state = Ok tt /\ bc_commits proof = BftExample.entry <$> [1; 3; 4].
Proof.
  destruct (confirm_all BftExample.state BftExample.msgs []) as [l'|] eqn:E; [|by vm_compute in E].
  assert (isCommitted BftExample.state l' = true) as Hc by (vm_compute in E; injection E as <-; by vm_compute).
  destruct (commit_proof_valid BftExample.verify BftExample.state [] l' BftExample.msgs BftExample.revision ltac:(constructor) eq_refl ltac:(cbn; lia) eq_refl
    ltac:(by repeat constructor) ltac:(done) BftExample.msgs_ok E Hc) as (proof & H1 & H2 & _).
  exists l', proof. split_and!; [done|done|done|]. vm_compute in E. injection E as <-. vm_compute in H1. by injection H1 as <-.
Defined.
