(* ===== verification/BftViews.v ===== *)
(** * psibase: views of the Byzantine fault tolerant consensus

    The views of producers in [bft.hpp]: view change messages and their order, the
    term to move to, whether the term is ready, and what a producer may prepare
    and commit.  Asserted facts are checks.  A producer of a view is found by its
    index in the set of producers. *)

From S2P Require Import Prelude Ordered Services AuthState HeaderState BlockContext LightHeader ForkDb Blocknet BftConfirm.

(** [ViewChangeMessage], signed. *)
Record ViewChangeMessage := {
  vc_term : Z;
  vc_producer : AccountNumber;
  vc_signer : Claim;
  vc_best_prepared : Checksum256;
  vc_best_prepared_term : Z;
  vc_prepares : list ProducerConfirm;
  vc_nextPrepares : option (list ProducerConfirm)
}.
Definition by_best_prepared (m : ViewChangeMessage) : Z * Checksum256 := (vc_best_prepared_term m, vc_best_prepared m).

Record view_info := { vi_term : Z; best_message : option ViewChangeMessage }.
Definition new_view : view_info := {| vi_term := 0; best_message := None |}.
Definition new_views (p : ProducerSet) : list view_info := repeat new_view (ps_size p).

(** The state of the algorithm; that of blocks is [BftConfirm.Confirmations]. *)
Record Bft := {
  bft_base : Blocknet;
  views0 : list view_info;
  views1 : list view_info;
  bft_best_prepared : Order;
  best_confirm : Order
}.
Definition views (c : Bft) (group : bool) : list view_info := if group then views1 c else views0 c.

(** ** Leaders *)

Definition get_leader_index (p : ProducerSet) (term : Z) : nat :=
  if (ps_size p =? 0)%nat then 0 else Z.to_nat (term mod Z.of_nat (ps_size p)).
Definition is_leader_of (p : ProducerSet) (term : Z) (prod : AccountNumber) : bool :=
  match HeaderState.getIndex p prod with
  | Some idx => Z.of_nat idx =? term mod Z.of_nat (ps_size p)
  | None => (ps_size p =? 0)%nat
  end.
Definition is_leader (b : Blocknet) : bool :=
  match HeaderState.getIndex (active0 b) (self b) with
  | Some idx => Z.of_nat idx =? current_term b mod Z.of_nat (ps_size (active0 b))
  | None => is_sole_producer b
  end.

(** ** View changes *)

(** Whether [rhs] replaces [lhs], both of one producer: of a leader the best
    prepared block counts, of the others the worst. *)
Definition compare_view_change (p : ProducerSet) (lhs rhs : ViewChangeMessage) : bool :=
  if vc_term lhs <? vc_term rhs then true
  else if vc_term rhs <? vc_term lhs then false
  else match cmp (by_best_prepared lhs) (by_best_prepared rhs) with
  | Lt => is_leader_of p (vc_term lhs) (vc_producer lhs)
  | Gt => negb (is_leader_of p (vc_term lhs) (vc_producer lhs))
  | Eq => false
  end.

(** The update of one view by [set_producer_view], and whether it changed. *)
Definition update_view (p : ProducerSet) (term : Z) (msg : option ViewChangeMessage) (view : view_info) : bool * view_info :=
  let newer := vi_term view <? term in
  let better := match msg with
                | Some m => match best_message view with Some old => compare_view_change p old m | None => true end
                | None => false
                end in
  (newer || better,
   {| vi_term := if newer then term else vi_term view; best_message := if better then msg else best_message view |}).
(** [set_producer_view], up to what follows from a new view: the views of a group. *)
Definition set_producer_view (p : ProducerSet) (term : Z) (prod : AccountNumber) (claim : Claim) (msg : option ViewChangeMessage) (l : list view_info)
    : result (bool * list view_info) :=
  match l with
  | [] => mret (false, [])
  | _ =>
      match getIndexClaim p prod claim with
      | Some idx =>
          match l !! idx with
          | Some view => let '(changed, view) := update_view p term msg view in mret (changed, <[idx := view]> l)
          | None => Abort "out of range"
          end
      | None => mret (false, l)
      end
  end.
Definition get_newer_view (p : ProducerSet) (msg : ViewChangeMessage) (l : list view_info) : result (option ViewChangeMessage) :=
  match l with
  | [] => mret None
  | _ =>
      match getIndexClaim p (vc_producer msg) (vc_signer msg) with
      | Some idx =>
          match l !! idx with
          | Some view =>
              mret match best_message view with Some old => if compare_view_change p msg old then Some old else None | None => None end
          | None => Abort "out of range"
          end
      | None => mret None
      end
  end.

(** The views after [set_producers] under this algorithm. *)
Definition resize_views (p0 : ProducerSet) (p1 : option ProducerSet) (c : Bft) : list view_info * list view_info :=
  let b := bft_base c in
  let start_bft := negb (bool_decide (ps_algorithm (active0 b) = bft)) in
  let v0 := if start_bft || negb (bool_decide (active0 b = p0)) then new_views p0 else views0 c in
  let v1 := match p1 with
            | Some next =>
                match active1 b with
                | None => new_views next
                | Some old => if bool_decide (old = next) then new_views next else views1 c
                end
            | None => []
            end in
  (v0, v1).
(** The assertions at the end of [set_producers]. *)
Definition views_sized (p0 : ProducerSet) (p1 : option ProducerSet) (v : list view_info * list view_info) : bool :=
  (length v.1 =? ps_size p0)%nat && match p1 with Some next => (length v.2 =? ps_size next)%nat | None => true end.

(** ** The term to move to *)

Definition minimum_viable_group (p : ProducerSet) (l : list view_info) : result Z :=
  match l with
  | [] => mret 0
  | _ => match merge_sort Z.le (vi_term <$> l) !! (ps_size p * 2 / 3)%nat with Some t => mret t | None => Abort "out of range" end
  end.
Definition minimum_viable_view (c : Bft) : result Z :=
  t0 ← minimum_viable_group (active0 (bft_base c)) (views0 c);
  t1 ← match active1 (bft_base c) with
       | Some next => minimum_viable_group next (views1 c)
       | None => match views1 c with [] => mret 0 | _ => Abort "null dereference" end
       end;
  mret (Z.max (Z.max t0 t1) (current_term (bft_base c))).

(** [None] without fuel. *)
Fixpoint skip_advanced_leaders (fuel : nat) (p : ProducerSet) (l : list view_info) (new_term : Z) : option (result Z) :=
  match l !! get_leader_index p new_term with
  | None => Some (Abort "out of range")
  | Some view =>
      if new_term <? vi_term view then
        match fuel with O => None | S fuel => skip_advanced_leaders fuel p l (u32 (new_term + 1)) end
      else Some (Ok new_term)
  end.

(** Whether enough producers are in the current term, for [increase_view]. *)
Definition can_increase (c : Bft) : bool :=
  (length (views0 c) * 2 / 3 + 1 <=? at_least (vi_term <$> views0 c) (current_term (bft_base c)))%nat.

Definition view_outdated (p : ProducerSet) (b : Blocknet) (l : list view_info) : bool :=
  match l with
  | [] => false
  | _ => match HeaderState.getIndex p (self b) with
         | Some idx => match l !! idx with Some v => negb (vi_term v =? current_term b) | None => false end
         | None => false
         end
  end.
Definition is_view_outdated (c : Bft) : bool :=
  view_outdated (active0 (bft_base c)) (bft_base c) (views0 c) ||
  match active1 (bft_base c) with Some next => view_outdated next (bft_base c) (views1 c) | None => false end.

(** ** Whether the term is ready *)

Section views.
Context (sha256_header : Header -> Checksum256).
Context (verify : VerifyTables -> ConfirmData -> Claim -> bytes -> result unit).

Definition validate_view_change (state : BlockHeaderState) (msg : ViewChangeMessage) : bool :=
  if negb (vc_best_prepared_term msg =? h_term (hs_header state)) then false
  else
    let expected := match nextProducers state with
                    | Some next => if bool_decide (ps_algorithm next = bft) then Some next else None
                    | None => None
                    end in
    is_ok (revision ← getProdsAuthRevision state;
           verifyMsig verify ct_prepare revision (hs_blockId state) (vc_prepares msg) (producers state) ;;
           match expected, vc_nextPrepares msg with
           | Some next, Some nextPrepares =>
               revision ← next_auth_revision next;
               verifyMsig verify ct_prepare revision (hs_blockId state) nextPrepares next
           | Some _, None => Abort "missing nextPrepares"
           | None, Some _ => Abort "unexpected nextPrepares"
           | None, None => mret tt
           end).

Definition committed_state (f : ForkDb) : option BlockHeaderState := get_state f (get_block_id sha256_header f (commitIndex f)).

(** [is_term_ready(group, msg)]: enough producers are in the current term, without
    a better prepared block. *)
Definition in_term (term : Z) (leader_msg : ViewChangeMessage) (v : view_info) : bool :=
  (vi_term v =? term) &&
  match best_message v with
  | Some m => match cmp (by_best_prepared m) (by_best_prepared leader_msg) with Gt => false | _ => true end
  | None => false
  end.
Definition is_term_ready_group (p : ProducerSet) (l : list view_info) (term : Z) (leader_msg : ViewChangeMessage) : bool :=
  (threshold p <=? length (List.filter (in_term term leader_msg) l))%nat.

(** The root of the view that the leader has announced. *)
Definition leader_root (f : ForkDb) (msg : ViewChangeMessage) : option BlockHeaderState :=
  let id := vc_best_prepared msg in
  if bool_decide (id = zero_hash) then committed_state f
  else match get_state f id with
  | Some state => if validate_view_change state msg then Some state else None
  | None => if bool_decide (get_block_id sha256_header f (getBlockNum id) = id) then committed_state f else None
  end.
Definition get_subtree_from_leader (c : Bft) : result (option BlockHeaderState) :=
  let b := bft_base c in
  match views0 c !! get_leader_index (active0 b) (current_term b) with
  | None => Abort "out of range"
  | Some leader_view =>
      if negb (vi_term leader_view =? current_term b) then mret None
      else match best_message leader_view with
      | None => mret None
      | Some msg =>
          mret match leader_root (chain b) msg with
          | None => None
          | Some state =>
              if is_term_ready_group (active0 b) (views0 c) (current_term b) msg &&
                 match active1 b with Some next => is_term_ready_group next (views1 c) (current_term b) msg | None => true end
              then Some state else None
          end
      end
  end.
Definition is_term_ready (c : Bft) : result bool := (fun s => bool_decide (is_Some s)) <$> get_subtree_from_leader c.

(** [get_subtree_from_view_change], with the block that it waits for. *)
Definition get_subtree_from_view_change (c : Bft) (info : view_info) : option BlockHeaderState * list Checksum256 :=
  let f := chain (bft_base c) in
  match best_message info with
  | None => (None, [])
  | Some msg =>
      let id := vc_best_prepared msg in
      if bool_decide (id = zero_hash) then (committed_state f, [])
      else match get_state f id with
      | None => (None, if commitIndex f <? getBlockNum id then [id] else [])
      | Some state => (if validate_view_change state msg then Some state else None, [])
      end
  end.

(** ** What may be confirmed *)

Definition best_chain_order (f : ForkDb) (o : Order) : bool := in_best_chain f o.2 o.1.2.
Definition is_forbidden_fork (c : Bft) (state : BlockHeaderState) : bool :=
  let f := chain (bft_base c) in
  if bool_decide ((best_confirm c).2 = zero_hash) then false
  else if in_best_chain f (hs_blockId state) (hs_blockNum state) && best_chain_order f (best_confirm c) then false
  else h_term (hs_header state) <=? (best_confirm c).1.1.

Definition voting (c : Bft) : bool := is_state (b_state (bft_base c)) leader || is_state (b_state (bft_base c)) follower.
(** The checks that [can_prepare] and [can_commit] share. *)
Definition can_confirm (c : Bft) (state : BlockHeaderState) : result bool :=
  if negb (voting c) then mret false
  else if negb (bool_decide (ps_algorithm (producers state) = bft)) then mret false
  else if negb ((h_term (hs_header state) =? current_term (bft_base c)) && bool_decide (ps_algorithm (active0 (bft_base c)) = bft)) then mret false
  else is_term_ready c.
Definition can_prepare (c : Bft) (state : BlockHeaderState) : result bool :=
  ok ← can_confirm c state;
  mret ((ok : bool) &&
    negb match nextProducers state with
         | Some next => negb (bool_decide (ps_algorithm next = bft)) && negb (isProducer (producers state) (self (bft_base c)))
         | None => false
         end &&
    negb (is_forbidden_fork c state)).
Definition can_commit (c : Bft) (state : BlockHeaderState) : result bool :=
  ok ← can_confirm c state;
  mret ((ok : bool) && negb (is_forbidden_fork c state)).
(** [do_prepare] and [do_commit] first record the block. *)
Definition record_confirm (state : BlockHeaderState) (c : Bft) : Bft :=
  {| bft_base := bft_base c; views0 := views0 c; views1 := views1 c; bft_best_prepared := bft_best_prepared c;
     best_confirm := max_order (order state) (best_confirm c) |}.

(** ** Making a view change *)

Definition make_view_change_from (c : Bft) (state : BlockHeaderState) (l : Confirmations) (signer : Claim) : result ViewChangeMessage :=
  b ← assert (find (hs_blockId state) l);
  mret {| vc_term := current_term (bft_base c); vc_producer := self (bft_base c); vc_signer := signer;
          vc_best_prepared := hs_blockId state; vc_best_prepared_term := h_term (hs_header state);
          vc_prepares := group_confirms (producers state) (bi_prepares b);
          vc_nextPrepares := match nextProducers state with
                             | Some next => if bool_decide (ps_algorithm next = bft) then Some (group_confirms next (bi_prepares b)) else None
                             | None => None
                             end |}.
Definition make_view_change (c : Bft) (l : Confirmations) (signer : Claim) : result ViewChangeMessage :=
  let id := (bft_best_prepared c).2 in
  match get_state (chain (bft_base c)) id with
  | Some state =>
      if bool_decide (hs_blockId state = zero_hash)
      then mret {| vc_term := current_term (bft_base c); vc_producer := self (bft_base c); vc_signer := signer; vc_best_prepared := id;
                   vc_best_prepared_term := 0; vc_prepares := []; vc_nextPrepares := None |}
      else make_view_change_from c state l signer
  | None => mret {| vc_term := current_term (bft_base c); vc_producer := self (bft_base c); vc_signer := signer; vc_best_prepared := id;
                    vc_best_prepared_term := 0; vc_prepares := []; vc_nextPrepares := None |}
  end.
End views.

#[local] Set Default Proof Using "Type".

(** ** The size of the views *)

Definition views_ok (c : Bft) : Prop :=
  (ps_algorithm (active0 (bft_base c)) = bft -> length (views0 c) = ps_size (active0 (bft_base c))) /\
  (forall next, active1 (bft_base c) = Some next -> length (views1 c) = ps_size next).

(** [set_producers] leaves one view for each producer, except in one case: when
    the next producers are replaced by a different number of next producers, the
    old views stay, and the assertion at the end fails. *)
Theorem views_follow_producers p0 p1 c : views_ok c ->
  views_sized p0 p1 (resize_views p0 p1 c) = false <->
  exists old next, active1 (bft_base c) = Some old /\ p1 = Some next /\ old <> next /\ ps_size old <> ps_size next.
Proof.
  intros [H0 H1]. unfold views_sized, resize_views. cbn [fst snd].
  assert (length (if negb (bool_decide (ps_algorithm (active0 (bft_base c)) = bft)) || negb (bool_decide (active0 (bft_base c) = p0)) then new_views p0 else views0 c) = ps_size p0) as ->.
  { case_bool_decide as Ha; [|apply repeat_length]. case_bool_decide as Hp; [subst; by apply H0|apply repeat_length]. }
  rewrite Nat.eqb_refl. cbn [andb]. destruct p1 as [next|]; [|split; [done|by intros (? & ? & _ & ? & _)]].
  destruct (active1 (bft_base c)) as [old|]; [|unfold new_views; rewrite repeat_length, Nat.eqb_refl; split; [done|by intros (? & ? & ? & _)]].
  specialize (H1 old eq_refl). case_bool_decide as He.
  - unfold new_views. rewrite repeat_length, Nat.eqb_refl. split; [done|]. intros (? & ? & [= <-] & [= <-] & ? & _). done.
  - rewrite Nat.eqb_neq, H1. split; [eauto 10|]. by intros (? & ? & [= <-] & [= <-] & _ & ?).
Qed.

(** ** Skipping leaders *)

Lemma leader_index_range p t : (0 < ps_size p)%nat -> (get_leader_index p t < ps_size p)%nat.
Proof. intros H. unfold get_leader_index. destruct (Nat.eqb_spec (ps_size p) 0); [lia|]. pose proof (Z.mod_pos_bound t (Z.of_nat (ps_size p))). lia. Qed.
Lemma leader_view p (l : list view_info) t : (0 < ps_size p)%nat -> length l = ps_size p -> exists v, l !! get_leader_index p t = Some v.
Proof. intros Hs Hl. apply lookup_lt_is_Some_2. rewrite Hl. by apply leader_index_range. Qed.

(** The leader of a term has a later view. *)
Definition leader_advanced (p : ProducerSet) (l : list view_info) (t : Z) : Prop := exists v, l !! get_leader_index p t = Some v /\ t < vi_term v.

(** [skip_advanced_leaders] terminates, after as many steps as the latest view is
    ahead at most: the term that it finds is the first from [t] on whose leader has
    not moved to a later view; it does not overflow. *)
Theorem skip_advanced_leaders_spec p l t top fuel :
  (0 < ps_size p)%nat -> length l = ps_size p -> 0 <= t -> Forall (fun v => vi_term v <= top) l -> top < 2 ^ 32 -> (Z.to_nat (top - t) <= fuel)%nat ->
  exists t', skip_advanced_leaders fuel p l t = Some (Ok t') /\ t <= t' /\ t' <= Z.max t top /\ ~ leader_advanced p l t' /\
    forall x, t <= x < t' -> leader_advanced p l x.
Proof.
  intros Hs Hl H0 Hv Htop. revert t H0. induction fuel as [|fuel IH]; intros t H0 Hf; destruct (leader_view p l t Hs Hl) as [v Ev]; cbn; rewrite Ev;
    pose proof (proj1 (Forall_forall _ _) Hv v (list_elem_of_lookup_2 _ _ _ Ev)) as Hvt; cbn in Hvt; destruct (Z.ltb_spec t (vi_term v)) as [Ha|Ha].
  - lia.
  - exists t. split_and!; [done|lia|lia| |intros; lia]. intros (v' & Ev' & ?). rewrite Ev in Ev'. injection Ev' as <-. lia.
  - rewrite (wrap_small 32 (t + 1)) by lia. destruct (IH (t + 1)) as (t' & E & H1 & H2 & H3 & H4); [lia|lia|].
    exists t'. split_and!; [done|lia|lia|done|]. intros x Hx. destruct (decide (x = t)) as [->|]; [by exists v|apply H4; lia].
  - exists t. split_and!; [done|lia|lia| |intros; lia]. intros (v' & Ev' & ?). rewrite Ev in Ev'. injection Ev' as <-. lia.
Qed.

(** ** The view that enough producers have reached *)

Lemma minimum_viable_group_spec p l : length l = ps_size p -> (0 < ps_size p)%nat -> exists t, minimum_viable_group p l = Ok t /\
  ((ps_size p + 2) / 3 <= at_least (vi_term <$> l) t)%nat /\ (at_least (vi_term <$> l) (t + 1) < (ps_size p + 2) / 3)%nat.
Proof.
  intros Hl Hs. unfold minimum_viable_group. destruct l as [|v l']; [cbn in Hl; lia|]. set (l := v :: l') in *.
  destruct (lookup_lt_is_Some_2 (merge_sort Z.le (vi_term <$> l)) (ps_size p * 2 / 3)) as [t Et].
  { rewrite length_sort, length_fmap, Hl. mlia. }
  rewrite Et. exists t. apply nth_sorted in Et as [H1 H2]. rewrite length_fmap, Hl in H1, H2. split_and!; [done|..].
  - etrans; [|exact H1]. mlia.
  - eapply Nat.le_lt_trans; [exact H2|]. mlia.
Qed.

(** A node moves to a later term only when more producers than may be faulty are
    there: if the minimum viable view is after the current term, a third of the
    producers of one of the groups have reached it, and it is the latest such
    term of that group. *)
Theorem view_change_needs_third c : (0 < ps_size (active0 (bft_base c)))%nat -> length (views0 c) = ps_size (active0 (bft_base c)) ->
  match active1 (bft_base c) with Some next => length (views1 c) = ps_size next /\ (0 < ps_size next)%nat | None => views1 c = [] end ->
  0 <= current_term (bft_base c) ->
  exists t, minimum_viable_view c = Ok t /\ current_term (bft_base c) <= t /\
    (current_term (bft_base c) < t ->
     ((ps_size (active0 (bft_base c)) + 2) / 3 <= at_least (vi_term <$> views0 c) t)%nat \/
     exists next, active1 (bft_base c) = Some next /\ ((ps_size next + 2) / 3 <= at_least (vi_term <$> views1 c) t)%nat) /\
    forall t', t < t' -> (at_least (vi_term <$> views0 c) t' < (ps_size (active0 (bft_base c)) + 2) / 3)%nat.
Proof.
  intros S0 L0 H1 Hc. destruct (minimum_viable_group_spec _ _ L0 S0) as (t0 & E0 & A0 & B0). unfold minimum_viable_view. rewrite E0. cbn.
  assert (exists t1, (match active1 (bft_base c) with
       | Some next => minimum_viable_group next (views1 c)
       | None => match views1 c with [] => mret 0 | _ => Abort "null dereference" end
       end) = Ok t1 /\ (0 < t1 -> exists next, active1 (bft_base c) = Some next /\ ((ps_size next + 2) / 3 <= at_least (vi_term <$> views1 c) t1)%nat)) as (t1 & E1 & A1).
  { destruct (active1 (bft_base c)) as [next|]; [|rewrite H1; exists 0; split; [done|lia]]. destruct H1 as [L1 S1].
    destruct (minimum_viable_group_spec _ _ L1 S1) as (t1 & E1 & A1 & _). exists t1. split; [done|]. eauto. }
  rewrite E1. cbn. eexists. split; [reflexivity|]. split_and!; [lia| |].
  - intros Ht. set (cur := current_term (bft_base c)) in *. clearbody cur. destruct (Z.le_gt_cases t1 t0).
    + left. by replace (Z.max (Z.max t0 t1) cur) with t0 by lia.
    + right. replace (Z.max (Z.max t0 t1) cur) with t1 by lia. apply A1. lia.
  - intros t' Ht'. exact (Nat.le_lt_trans _ _ _ (at_least_mono (vi_term <$> views0 c) (t0 + 1) t' ltac:(lia)) B0).
Qed.

(** ** Views do not depend on the order of messages *)

Section converge.
Context (p : ProducerSet) (x : AccountNumber).
Abbreviation key := (Z * (Z * Checksum256))%type.

(** What a view change says: its term and its best prepared block. *)
Definition view_key (m : ViewChangeMessage) : key := (vc_term m, by_best_prepared m).
Definition key_less (a b : key) : bool :=
  if a.1 <? b.1 then true else if b.1 <? a.1 then false
  else match cmp a.2 b.2 with Lt => is_leader_of p a.1 x | Gt => negb (is_leader_of p a.1 x) | Eq => false end.

Lemma key_less_spec a b : key_less a b = true <->
  a.1 < b.1 \/ (a.1 = b.1 /\ (if is_leader_of p a.1 x then below a.2 b.2 else below b.2 a.2)).
Proof.
  unfold key_less. destruct (Z.ltb_spec a.1 b.1); [split; [by left|done]|]. destruct (Z.ltb_spec b.1 a.1); [split; [done|lia]|].
  unfold below. rewrite (cmp_antisym a.2 b.2). destruct (cmp a.2 b.2), (is_leader_of p a.1 x); cbn; split; intros Hx; try done; try (right; split; [lia|done]);
    destruct Hx as [?|[_ ?]]; (done || lia).
Qed.
Lemma key_less_total a b : key_less a b = false -> key_less b a = false -> a = b.
Proof.
  destruct a as [t k], b as [t' k']. unfold key_less. cbn. destruct (Z.ltb_spec t t'); [done|]. destruct (Z.ltb_spec t' t); [done|].
  assert (t' = t) as -> by lia. rewrite (cmp_antisym k k'). destruct (cmp k k') eqn:E; [by apply cmp_eq in E as ->|..]; cbn; by destruct (is_leader_of p t x).
Qed.
Lemma key_less_trans a b c : key_less a b = true -> key_less b c = true -> key_less a c = true.
Proof.
  rewrite !key_less_spec. intros [?|[E1 H1]] [?|[E2 H2]]; [left; lia|left; lia|left; lia|]. right. split; [lia|]. rewrite <- E1 in H2.
  destruct (is_leader_of p a.1 x); by etrans.
Qed.
Lemma key_less_irrefl a : key_less a a = false.
Proof. unfold key_less. rewrite Z.ltb_irrefl, cmp_refl. done. Qed.

Definition key_max (o : option key) (k : key) : option key := match o with Some k' => if key_less k' k then Some k else Some k' | None => Some k end.
Lemma key_max_comm o a b : key_max (key_max o a) b = key_max (key_max o b) a.
Proof.
  assert (forall a b c, key_less a b = true -> key_less a c = false -> key_less c b = true) as Hc.
  { intros u v w Huv Huw. destruct (key_less w v) eqn:Hwv; [done|]. destruct (key_less v w) eqn:Hvw; [by rewrite (key_less_trans _ _ _ Huv Hvw) in Huw|].
    pose proof (key_less_total _ _ Hwv Hvw) as ->. congruence. }
  assert (forall a b, key_less a b = true -> key_less b a = false) as Ha.
  { intros u v Huv. destruct (key_less v u) eqn:E; [|done]. by rewrite <- (key_less_irrefl u), (key_less_trans u v u). }
  destruct o as [k|]; cbn.
  - destruct (key_less k a) eqn:Ea, (key_less k b) eqn:Eb; cbn; rewrite ?Ea, ?Eb; try done.
    + destruct (key_less a b) eqn:E1, (key_less b a) eqn:E2; try done; [by rewrite (Ha _ _ E1) in E2|by rewrite (key_less_total _ _ E1 E2)].
    + destruct (key_less a b) eqn:E1; [|done]. by rewrite (key_less_trans _ _ _ Ea E1) in Eb.
    + destruct (key_less b a) eqn:E1; [|done]. by rewrite (key_less_trans _ _ _ Eb E1) in Ea.
  - destruct (key_less a b) eqn:E1, (key_less b a) eqn:E2; try done; [by rewrite (Ha _ _ E1) in E2|by rewrite (key_less_total _ _ E1 E2)].
Qed.

(** What a view records: its term, and what its message says. *)
Definition view_state (v : view_info) : Z * option key := (vi_term v, view_key <$> best_message v).
Definition receive (v : view_info) (m : ViewChangeMessage) : view_info := (update_view p (vc_term m) (Some m) v).2.
Definition view_join (s : Z * option key) (k : key) : Z * option key := (Z.max s.1 k.1, key_max s.2 k).

Definition from_x (v : view_info) : Prop := forall m, best_message v = Some m -> vc_producer m = x.
Lemma receive_state v m : from_x v -> vc_producer m = x -> view_state (receive v m) = view_join (view_state v) (view_key m) /\ from_x (receive v m).
Proof.
  intros Hv Hm. unfold receive, update_view, view_state, view_join. cbn. split.
  - f_equal; [destruct (Z.ltb_spec (vi_term v) (vc_term m)); lia|]. destruct (best_message v) as [old|] eqn:E; [|done]. cbn.
    change (compare_view_change p old m) with (if vc_term old <? vc_term m then true else if vc_term m <? vc_term old then false
      else match cmp (by_best_prepared old) (by_best_prepared m) with Lt => is_leader_of p (vc_term old) (vc_producer old) | Gt => negb (is_leader_of p (vc_term old) (vc_producer old)) | Eq => false end).
    rewrite (Hv old E). unfold key_less, view_key. cbn. by repeat case_match.
  - intros m'. cbn. destruct (best_message v) as [old|] eqn:E; [|intros [= <-]; done]. destruct (compare_view_change p old m); [intros [= <-]; done|]. intros [= <-]. by apply Hv.
Qed.
Lemma receive_all v ms : from_x v -> Forall (fun m => vc_producer m = x) ms -> view_state (foldl receive v ms) = foldl view_join (view_state v) (view_key <$> ms).
Proof.
  intros Hv Hms. revert v Hv. induction Hms as [|m ms Hm Hms IH]; intros v Hv; [done|]. cbn [foldl fmap list_fmap].
  destruct (receive_state v m Hv Hm) as [E H]. rewrite IH by done. by rewrite E.
Qed.
Lemma view_join_comm s a b : view_join (view_join s a) b = view_join (view_join s b) a.
Proof. unfold view_join. cbn. rewrite key_max_comm. f_equal. lia. Qed.
Lemma foldl_view_join l1 l2 : l1 ≡ₚ l2 -> forall s, foldl view_join s l1 = foldl view_join s l2.
Proof. induction 1 as [|a l1 l2 _ IH|a b l|l1 l2 l3 _ IH1 _ IH2]; intros s; cbn; [done|apply IH|by rewrite view_join_comm|by rewrite IH1]. Qed.

(** Nodes that receive the same view changes of a producer agree on its view,
    whatever the order in which they arrive: on its term, and on the best prepared
    block that it stands for. *)
Theorem views_converge v ms1 ms2 : ms1 ≡ₚ ms2 -> Forall (fun m => vc_producer m = x) ms1 -> from_x v ->
  view_state (foldl receive v ms1) = view_state (foldl receive v ms2).
Proof.
  intros Hp Hm Hv. rewrite !receive_all; [|done|by rewrite <- Hp|done|done]. apply foldl_view_join. by rewrite Hp.
Qed.
End converge.

(** ** A producer confirms one chain in a term *)

Section one_chain.
Context (sha256_header : Header -> Checksum256).
Context (verify : VerifyTables -> ConfirmData -> Claim -> bytes -> result unit).
(** The headers of all blocks. *)
Context (H : Checksum256 -> option Header).
Context (H_zero : H zero_hash = None) (H_num : forall id h, H id = Some h -> 0 <= h_term h /\ 0 < h_blockNum h).

Definition parent (a b : Checksum256) : Prop := exists h, H b = Some h /\ h_previous h = a.
Definition ancestor : Checksum256 -> Checksum256 -> Prop := rtc parent.
Definition same_chain (a b : Checksum256) : Prop := ancestor a b \/ ancestor b a.
Definition knows (f : ForkDb) : Prop := forall id s, get_state f id = Some s -> H id = Some (hs_header s) /\ hs_blockId s = id.

Lemma ancestors_comparable a b c : ancestor a c -> ancestor b c -> same_chain a b.
Proof.
  intros Ha. induction Ha as [|a a' c Hp Ha IH]; intros Hb; [by right|].
  destruct (IH Hb) as [Hab|Hba]; [left; by eapply rtc_l|]. apply rtc_inv_r in Hba as [->|(z & Hbz & Hz)]; [left; by apply rtc_once|].
  destruct Hp as (h & Eh & <-), Hz as (h' & Eh' & <-). rewrite Eh in Eh'. injection Eh' as <-. by right.
Qed.

Lemma path_ancestor f n id l e1 e2 : knows f -> path f n id l -> e1 ∈ (n, id) :: l -> e2 ∈ (n, id) :: l -> e1.1 <= e2.1 -> ancestor e1.2 e2.2.
Proof.
  intros Hk. revert n id e1 e2. induction l as [|[m x] l IH]; intros n id e1 e2 Hp H1 H2 Hle.
  { apply list_elem_of_singleton in H1 as ->, H2 as ->. apply rtc_refl. }
  pose proof Hp as (-> & (s & Es & _ & Ep) & Hp'). assert (parent id x) as Hpar by (exists (hs_header s); split; [by apply Hk|done]).
  apply elem_of_cons in H1 as [->|H1], H2 as [->|H2]; [apply rtc_refl|..].
  - eapply rtc_l; [exact Hpar|]. apply (IH _ _ (n + 1, x) e2 Hp' ltac:(left) H2). cbn. apply elem_of_cons in H2 as [->|H2]; [cbn; lia|]. pose proof (path_keys _ _ _ _ _ Hp' H2). lia.
  - exfalso. assert (e1 ∈ (n + 1, x) :: l) as H1' by done. pose proof (path_keys _ _ _ _ _ Hp H1'). cbn in Hle. lia.
  - by apply (IH _ _ e1 e2 Hp').
Qed.
Lemma best_chain_ancestor f id1 n1 id2 n2 : knows f -> linear f -> in_best_chain f id1 n1 = true -> in_best_chain f id2 n2 = true -> n1 <= n2 ->
  ancestor id1 id2 /\ (n1 = n2 -> id1 = id2).
Proof.
  intros Hk (n & id & l & El & Hp) H1 H2 Hle. unfold in_best_chain in H1, H2. rewrite El in H1, H2. pose proof (path_ok _ _ _ _ Hp) as Hm.
  destruct (find n1 _) as [x1|] eqn:E1; [|done]. destruct (find n2 _) as [x2|] eqn:E2; [|done]. apply bool_decide_eq_true in H1 as ->, H2 as ->.
  split; [|intros ->; congruence]. apply find_In in E1, E2; [|done|done]. exact (path_ancestor _ _ _ _ _ _ Hk Hp E1 E2 Hle).
Qed.

(** The blocks that a node prepares or commits: [run term best log] has the term,
    the best confirmed block, and all blocks confirmed so far, since the node was
    started ([best_confirm] is kept in memory only).  Between two confirmations
    anything else may change, but the term does not decrease.  At a confirmation
    the index by number is one chain: so it is between fork switches
    ([chain_linear]), and also when [on_accept_block] confirms a block while a fork
    is executed ([callback_sees_linear]). *)
Inductive run : Z -> Order -> list Order -> Prop :=
| run_start term : 0 <= term -> run term (0, 0, zero_hash) []
| run_confirm term best log c state : run term best log -> term <= current_term (bft_base c) -> best_confirm c = best ->
    linear (chain (bft_base c)) -> knows (chain (bft_base c)) -> get_state (chain (bft_base c)) (hs_blockId state) = Some state ->
    can_prepare sha256_header verify c state = Ok true \/ can_commit sha256_header verify c state = Ok true ->
    run (current_term (bft_base c)) (best_confirm (record_confirm state c)) (order state :: log).

Lemma confirm_allowed c state : can_prepare sha256_header verify c state = Ok true \/ can_commit sha256_header verify c state = Ok true ->
  h_term (hs_header state) = current_term (bft_base c) /\ is_forbidden_fork c state = false.
Proof.
  assert (forall b, can_confirm sha256_header verify c state = Ok b -> b = true -> h_term (hs_header state) = current_term (bft_base c)) as Ht.
  { intros b E ->. unfold can_confirm in E. destruct (negb (voting c)); [done|]. destruct (negb (bool_decide _)); [done|].
    destruct (_ && _) eqn:Ea; [|done]. apply andb_true_iff in Ea as [Ea _]. by apply Z.eqb_eq. }
  unfold can_prepare, can_commit. intros [E|E]; apply bind_ok in E as (ok & Ec & E); injection E as E; apply andb_true_iff in E as [E Ef]; apply negb_true_iff in Ef;
    (split; [|done]); apply (Ht ok Ec); [by apply andb_true_iff in E as [E _]|done].
Qed.

Record run_ok (term : Z) (best : Order) (log : list Order) : Prop := {
  ro_best : best = (0, 0, zero_hash) /\ log = [] \/ best ∈ log;
  ro_term : 0 <= best.1.1 <= term;
  ro_zero : forall o, o ∈ log -> o.2 <> zero_hash;
  ro_old : forall o, o ∈ log -> o.1.1 <= best.1.1;
  ro_last : forall o, o ∈ log -> o.1.1 = best.1.1 -> ancestor o.2 best.2;
  ro_pairs : forall o1 o2, o1 ∈ log -> o2 ∈ log -> o1.1.1 = o2.1.1 -> same_chain o1.2 o2.2
}.
Lemma order_lt_spec (a b : Order) : order_lt a b = true <-> below a b.
Proof. unfold order_lt, below. by destruct (cmp a b). Qed.
(** Orders compare terms, then numbers, then identifiers. *)
Lemma order_cases (a b : Order) : below a b <-> a.1.1 < b.1.1 \/ (a.1.1 = b.1.1 /\ (a.1.2 < b.1.2 \/ (a.1.2 = b.1.2 /\ below a.2 b.2))).
Proof.
  destruct a as [[t n] id], b as [[t' n'] id']. unfold below. cbn. unfold cmp at 1, prod_compare at 1. cbn. unfold cmp at 1, prod_compare at 1. cbn. unfold cmp at 1 2, Z_compare.
  destruct (Z.compare_spec t t'), (Z.compare_spec n n'); cbn; intuition (lia || done).
Qed.

(** The run goes on: with a block of a later term, or of the same chain. *)
Lemma run_later term best log s : run_ok term best log -> best.1.1 < s.1.1 -> s.2 <> zero_hash -> run_ok s.1.1 s (s :: log).
Proof.
  clear H_num. intros [Hb Ht Hz Ho Hl Hp] Hs Hn. split.
  - right. left.
  - lia.
  - intros o [->|Hin]%elem_of_cons; auto.
  - intros o [->|Hin]%elem_of_cons; [done|]. specialize (Ho o Hin). lia.
  - intros o [->|Hin]%elem_of_cons E; [apply rtc_refl|]. specialize (Ho o Hin). lia.
  - intros o1 o2 [->|H1]%elem_of_cons [->|H2]%elem_of_cons E; [left; apply rtc_refl|specialize (Ho o2 H2); lia|specialize (Ho o1 H1); lia|auto].
Qed.
Lemma run_same term best log s top : run_ok term best log -> best ∈ log -> s.1.1 = best.1.1 -> s.2 <> zero_hash -> top = s \/ top = best -> ancestor s.2 top.2 -> ancestor best.2 top.2 ->
  top.1.1 = best.1.1 -> run_ok term top (s :: log).
Proof.
  clear H_num. intros [Hb Ht Hz Ho Hl Hp] Hbest Es Hn Htop As Ab Et.
  assert (forall o, o ∈ s :: log -> o.1.1 = top.1.1 -> ancestor o.2 top.2) as Hall.
  { intros o [->|Hin]%elem_of_cons E; [done|]. trans best.2; [apply Hl; [done|congruence]|done]. }
  split.
  - right. destruct Htop as [->| ->]; [left|by right].
  - lia.
  - intros o [->|Hin]%elem_of_cons; auto.
  - intros o [->|Hin]%elem_of_cons; [lia|]. specialize (Ho o Hin). lia.
  - done.
  - intros o1 o2 H1 H2 E. destruct (decide (o1.1.1 = top.1.1)) as [E1|E1].
    + apply (ancestors_comparable _ _ top.2); apply Hall; congruence.
    + apply elem_of_cons in H1 as [->|H1]; [congruence|]. apply elem_of_cons in H2 as [->|H2]; [congruence|]. auto.
Qed.

Lemma max_order_cases (a b : Order) : (max_order a b = a /\ below b a) \/ (max_order a b = b /\ ~ below b a).
Proof. unfold max_order. destruct (order_lt b a) eqn:E; [left; split; [done|by apply order_lt_spec]|right; split; [done|]]. rewrite <- order_lt_spec. congruence. Qed.

Lemma run_inv term best log : run term best log -> run_ok term best log.
Proof using H_zero H_num.
  induction 1 as [term Ht|term best log c state _ IH Hle Eb Hok Hk Es Hcan].
  { split; cbn; [by left|lia|..]; intros; exfalso; eapply not_elem_of_nil; eassumption. }
  destruct (confirm_allowed c state Hcan) as [Et Hf]. destruct (Hk _ _ Es) as [Hh _]. destruct (H_num _ _ Hh) as [Hterm Hnum].
  assert (hs_blockId state <> zero_hash) as Hid by (intros E; rewrite E in Hh; congruence).
  cbn [best_confirm record_confirm]. rewrite Eb. set (s := order state). change (h_term (hs_header state)) with s.1.1 in *.
  pose proof (ro_term _ _ _ IH) as Hbt. rewrite <- Et. unfold is_forbidden_fork in Hf. rewrite Eb in Hf.
  assert (forall t t' b l, t <= t' -> run_ok t b l -> run_ok t' b l) as Hmono by (intros t t' b l ? []; split; (done || lia)).
  destruct (Z.lt_ge_cases best.1.1 s.1.1) as [Hlt|Hge].
  { assert (max_order s best = s) as ->; [|by apply (run_later term best)].
    destruct (max_order_cases s best) as [[? _]|[_ []]]; [done|]. apply order_cases. by left. }
  assert (s.1.1 = best.1.1) as Est by lia. destruct (ro_best _ _ _ IH) as [[-> ->]|Hbest].
  { assert (max_order s (0, 0, zero_hash) = s) as ->.
    { destruct (max_order_cases s (0, 0, zero_hash)) as [[? _]|[_ []]]; [done|]. apply order_cases. right. split; [done|]. left. exact Hnum. }
    split.
    - right. left.
    - lia.
    - intros o ->%list_elem_of_singleton. exact Hid.
    - by intros o ->%list_elem_of_singleton.
    - intros o ->%list_elem_of_singleton _. apply rtc_refl.
    - intros o1 o2 ->%list_elem_of_singleton ->%list_elem_of_singleton _. left. apply rtc_refl. }
  rewrite bool_decide_false in Hf by (by apply (ro_zero _ _ _ IH)).
  destruct (in_best_chain _ _ _ && best_chain_order _ _) eqn:Hin.
  2:{ apply Z.leb_gt in Hf. change (h_term (hs_header state)) with s.1.1 in Hf. lia. }
  apply andb_true_iff in Hin as [I1 I2]. apply (Hmono term); [lia|]. change (hs_blockId state) with s.2 in I1, Hid. change (hs_blockNum state) with s.1.2 in I1. unfold best_chain_order in I2.
  destruct (max_order_cases s best) as [[-> Hb]|[-> Hb]].
  - refine (run_same term best log s s IH Hbest Est Hid (or_introl eq_refl) (rtc_refl _ _) _ Est).
    apply order_cases in Hb as [?|(_ & Hn)]; [lia|]. apply (best_chain_ancestor _ _ _ _ _ Hk Hok I2 I1). lia.
  - refine (run_same term best log s best IH Hbest Est Hid (or_intror eq_refl) _ (rtc_refl _ _) eq_refl). rewrite order_cases in Hb.
    apply (best_chain_ancestor _ _ _ _ _ Hk Hok I1 I2). destruct (Z.le_gt_cases s.1.2 best.1.2); [done|]. destruct Hb. right. split; [done|]. by left.
Qed.

(** C26: A producer does not confirm two forks in one term: of two blocks of the same
    term that it has prepared or committed since it was started, also while it
    executes a fork, one is an ancestor of the other; block ids identify headers. *)
Theorem one_chain_per_term term best log o1 o2 : run term best log -> o1 ∈ log -> o2 ∈ log -> o1.1.1 = o2.1.1 -> same_chain o1.2 o2.2.
Proof using H_zero H_num. intros Hr. apply (ro_pairs _ _ _ (run_inv _ _ _ Hr)). Qed.

(** C5: Two blocks of one term that are both proved to be committed, each by a
    threshold of different producers of one set, are on one chain, if fewer than a
    third of the producers are faulty.  An honest producer signs commits only of
    blocks that it confirms, and does not lose [best_confirm] by a restart; block
    ids identify headers. *)
Theorem term_agreement revision prods l1 l2 (o1 o2 : Order) (honest : AccountNumber -> bool) (logs : AccountNumber -> list Order) :
  (forall x, honest x = true -> exists term best, run term best (logs x)) ->
  (forall x c o, honest x = true -> pc_producer c = x -> o = o1 \/ o = o2 -> entry_ok verify ct_commit revision o.2 prods c -> o ∈ logs x) ->
  ps_algorithm prods = bft -> (3 * length (List.filter (fun x => negb (honest x)) (map fst (activeProducers prods))) < ps_size prods)%nat ->
  NoDup (pc_producer <$> l1) -> NoDup (pc_producer <$> l2) -> o1.1.1 = o2.1.1 ->
  verifyMsig verify ct_commit revision o1.2 l1 prods = Ok tt -> verifyMsig verify ct_commit revision o2.2 l2 prods = Ok tt ->
  same_chain o1.2 o2.2.
Proof using H_zero H_num.
  intros Hrun Hlog Ha Hf N1 N2 Et V1 V2. destruct (conflicting_commits_need_faults verify revision _ _ _ _ _ Ha N1 N2 V1 V2) as (both & Nb & Lb & Hb).
  destruct (decide (Forall (fun x => honest x = false) both)) as [Hall|Hex].
  - exfalso. assert (both ⊆+ List.filter (fun x => negb (honest x)) (map fst (activeProducers prods))) as L%submseteq_length; [|lia].
    apply NoDup_submseteq; [done|]. intros x Hx. apply list_elem_of_In, filter_In. rewrite Forall_forall in Hall. rewrite (Hall x Hx). split; [|done].
    destruct (Hb x Hx) as (c1 & _ & <- & _ & (_ & claim & Hc & _) & _). apply list_elem_of_In. by eapply find_Some_key.
  - apply not_Forall_Exists in Hex; [|apply _]. apply Exists_exists in Hex as (x & Hx & Hh). apply not_false_iff_true in Hh.
    destruct (Hb x Hx) as (c1 & c2 & E1 & E2 & K1 & K2). destruct (Hrun x Hh) as (term & best & Hr).
    apply (ro_pairs _ _ _ (run_inv _ _ _ Hr)); [by apply (Hlog x c1); auto|by apply (Hlog x c2); auto|done].
Qed.
End one_chain.

(** ** An example *)

Module ViewExample.
Definition headers (id : Checksum256) : option Header := (fun s => hs_header s) <$> find id ForkExample.all_states.
Lemma headers_zero : headers zero_hash = None.
Proof. by vm_compute. Qed.
Lemma headers_num id h : headers id = Some h -> 0 <= h_term h /\ 0 < h_blockNum h.
Proof.
  unfold headers. destruct (find id _) as [s|] eqn:E; [|done]. intros [= <-]. apply find_In in E; [|apply ForkExample.states_sorted].
  unfold ForkExample.all_states in E. repeat (apply elem_of_cons in E as [[= -> ->]|E]; [cbn; lia|]). by apply elem_of_nil in E.
Qed.
Lemma knows_db : knows headers ForkExample.db.
Proof.
  intros id s E. split; [unfold headers; unfold get_state in E; cbn [ForkExample.db f_states] in E; by rewrite E|].
  apply ForkExample.get_state_all in E. unfold ForkExample.all_states in E.
  repeat (apply elem_of_cons in E as [[= -> ->]|E]; [done|]). by apply elem_of_nil in E.
Qed.

Definition msg (x term best_term : Z) (best : Checksum256) : ViewChangeMessage :=
  {| vc_term := term; vc_producer := x; vc_signer := no_claim; vc_best_prepared := best; vc_best_prepared_term := best_term; vc_prepares := []; vc_nextPrepares := None |}.
Definition node : Bft :=
  {| bft_base := {| self := 1; active0 := ForkExample.prods; active1 := None; current_term := 0; b_state := leader; chain := ForkExample.db |};
     views0 := [{| vi_term := 0; best_message := Some (msg 1 0 0 zero_hash) |}]; views1 := []; bft_best_prepared := (0, 0, zero_hash); best_confirm := (0, 0, zero_hash) |}.
Definition root_state : BlockHeaderState := ForkExample.state ForkExample.root_header (Some ForkExample.revision).
Definition head_state : BlockHeaderState := ForkExample.state ForkExample.old_header (Some ForkExample.revision).
Definition log : list Order := [order head_state; order root_state].
Lemma confirmed : run ForkExample.hash_header BftExample.verify headers 0 (order head_state) log.
Proof.
  apply (run_confirm _ _ _ 0 (order root_state) [order root_state] (record_confirm root_state node) head_state);
    [|done|by vm_compute|apply chain_linear, ForkExample.chain|apply knows_db|by vm_compute|left; by vm_compute].
  apply (run_confirm _ _ _ 0 (0, 0, zero_hash) [] node root_state); [by constructor|done|done|apply chain_linear, ForkExample.chain|apply knows_db|by vm_compute|left; by vm_compute].
Qed.
End ViewExample.

Lemma one_chain_per_term_witness : run ForkExample.hash_header BftExample.verify ViewExample.headers 0 (order ViewExample.head_state) ViewExample.log /\
  same_chain ViewExample.headers ForkExample.old ForkExample.root.
Proof.
  split; [apply ViewExample.confirmed|].
  exact (one_chain_per_term _ _ _ ViewExample.headers_zero ViewExample.headers_num _ _ _ (order ViewExample.head_state) (order ViewExample.root_state)
    ViewExample.confirmed ltac:(left) ltac:(right; left) eq_refl).
Defined.

Lemma term_agreement_witness : same_chain ViewExample.headers ForkExample.old ForkExample.root.
Proof.
  apply (term_agreement ForkExample.hash_header BftExample.verify ViewExample.headers ViewExample.headers_zero ViewExample.headers_num BftExample.revision ForkExample.prods
    [BftExample.entry 1] [BftExample.entry 1] (order ViewExample.head_state) (order ViewExample.root_state) (fun _ => true) (fun _ => ViewExample.log));
    [|by intros x c o _ _ [->| ->] _; [left|right; left]|done|by vm_compute; lia|apply NoDup_singleton|apply NoDup_singleton|done|by vm_compute|by vm_compute].
  intros x _. eexists _, _. apply ViewExample.confirmed.
Defined.

Lemma views_follow_producers_witness :
  let c := {| bft_base := {| self := 1; active0 := BftExample.prods; active1 := Some ForkExample.prods; current_term := 0; b_state := follower; chain := ForkExample.db |};
              views0 := new_views BftExample.prods; views1 := new_views ForkExample.prods; bft_best_prepared := (0, 0, zero_hash); best_confirm := (0, 0, zero_hash) |} in
  views_sized BftExample.prods (Some BftExample.prods) (resize_views BftExample.prods (Some BftExample.prods) c) = false.
Proof.
  intros c. apply (views_follow_producers BftExample.prods (Some BftExample.prods) c); [split; [done|by intros ? [= <-]]|].
  exists ForkExample.prods, BftExample.prods. by split_and!.
Defined.

Lemma skip_advanced_leaders_spec_witness : exists t,
  skip_advanced_leaders 3 BftExample.prods [{| vi_term := 8; best_message := None |}; {| vi_term := 8; best_message := None |}; {| vi_term := 5; best_message := None |}; new_view] 5 = Some (Ok t) /\ t = 6.
Proof.
  set (l := [_; _; _; _]). destruct (skip_advanced_leaders_spec BftExample.prods l 5 8 3 ltac:(cbn; lia) eq_refl ltac:(lia) ltac:(subst l; repeat constructor; cbn; lia) ltac:(lia) ltac:(lia))
    as (t & E & _). exists t. split; [exact E|]. vm_compute in E. by injection E as <-.
Defined.

Lemma view_change_needs_third_witness :
  let c := {| bft_base := bft_base ViewExample.node; views0 := [{| vi_term := 7; best_message := None |}]; views1 := []; bft_best_prepared := (0, 0, zero_hash); best_confirm := (0, 0, zero_hash) |} in
  exists t, minimum_viable_view c = Ok t /\ t = 7 /\ (1 <= at_least (vi_term <$> views0 c) 7)%nat.
Proof.
  intros c. destruct (view_change_needs_third c ltac:(cbn; lia) eq_refl eq_refl ltac:(cbn; lia)) as (t & E & _ & H & _). exists t. split; [exact E|].
  assert (t = 7) as -> by (vm_compute in E; by injection E as <-). split; [done|]. destruct (H ltac:(cbn; lia)) as [H'|(next & ? & _)]; [exact H'|done].
Defined.

Lemma views_converge_witness :
  view_state (foldl (receive BftExample.prods) new_view [ViewExample.msg 2 1 0 [1]; ViewExample.msg 2 1 0 [2]; ViewExample.msg 2 0 0 [3]]) = (1, Some (1, (0, [2]))).
Proof.
  rewrite (views_converge BftExample.prods 2 new_view _ [ViewExample.msg 2 0 0 [3]; ViewExample.msg 2 1 0 [2]; ViewExample.msg 2 1 0 [1]]); [by vm_compute| |by repeat constructor|done].
  exact (Permutation_rev [_; _; _]).
Defined.
